(* ===== verification/_CoqProject ===== *)
-Q . S2P
Prelude.v
Fleet.v
State.v
Codec.v
FileStore.v
SecretStore.v
Hub.v
Token.v
Lru.v
GoFloat.v
Limiter.v
Authn.v
Registry.v
Text.v
Utf8.v
Nearest.v
PromApi.v
Step.v
Sanitize.v
PromData.v
Render.v
Sem.v
Proxy.v
PromQL.v
ToolError.v
Guard.v
Tools.v
Fanout.v
Listing.v
Query.v
Targets.v
Ca.v
CaRotation.v
CaFleet.v
Bootstrap.v
CertProof.v
HubApi.v
Admin.v
Revocation.v
Dialer.v
Spoke.v
Url.v
PromClient.v
WsTun.v
GrpcTun.v
Collector.v
Config.v
Http.v
