(* ===== verification/Prelude.v ===== *)
(** A verification of prometheus-mcp-fleet.

prometheus-mcp-fleet lets AI agents query the Prometheus servers of many
clusters through one hub.  A spoke in each cluster dials into the hub over a
tunnel; the hub authenticates agents, decides which clusters and tools they may
use, and forwards allow-listed Prometheus calls, which the spoke checks again
before it sends them to its local server.  Credentials, enrollment tokens and
revocations live in one JSON document, in a file or in a Kubernetes Secret shared
by several hub replicas; the root of the fleet's certificates and the HMAC pepper
live in another.

* How the parts interact

An agent's bearer token is parsed ([token]) and verified ([authn]) against the
document ([store]), behind a positive and a negative LRU cache that the
document's epoch invalidates and a failure limiter.  The resulting principal
carries a scope ([fleet]).  A tool call passes the guard ([mcptools]), its window
and step are chosen ([render]), its route and parameters are checked
([promapi]), it takes a slot of the cluster and bytes of the hub's budget
([promproxy]) and a session of the registry ([registry]); what comes back is
sanitised, ranked and cut to a token ceiling ([render]), and says what it left out.

A spoke enrolls by redeeming a token, which burns it in the document ([hubapi]),
and gets a certificate of the fleet's root ([ca]), which it renews by proof of
possession ([certproof]) and shares with the other pods of its cluster ([spoke]).
It holds a tunnel to every replica of the hub: a WebSocket on which both sides
authenticate ([tunnel/wstun]), then gRPC inside ([tunnel/grpctun]).  The hub polls
the spoke's facts ([clusterfacts]) and sends it requests, which the spoke's client
takes to Prometheus ([promclient]).  The hub's root is created once by whichever
replica starts first and rotated by all of them together ([hub]).

* Files, in dependency order

The hub's state:
- [Prelude] (this file): results, machine integers, time, strings and loops over
  Go maps.
- [Fleet]: keys, grants, scopes, principals and clusters with their predicates
  ([src/internal/fleet]).
- [State], [Codec]: the persisted document with every operation on it, and its
  JSON form with the migrations ([src/internal/store/state.go], [store.go]).  The
  text layer of [encoding/json] is the interface [JsonText], with an instance.
- [FileStore], [SecretStore]: the two backends ([src/internal/store/filestore],
  [secretstore]) and the guard of conditional updates ([src/internal/kube]), the
  second for any number of replicas.
- [Hub]: label lookup, pruning and the bootstrap credential
  ([src/internal/hub/hub.go], [prune.go], [bootstrapkey.go]).

Authentication and the registry:
- [Token]: the token format, minting and hashing ([src/internal/token]).
- [Lru]: the LRU cache with its pointers ([src/internal/authn/lru.go]) and the
  interface [BoundedCache] its clients are proved against.
- [Limiter], [Authn]: the failure limiter and the credential verifier
  ([src/internal/authn/ratelimit.go], [verifier.go], [errors.go]).
- [Registry], [Nearest]: the cluster registry and its suggestions
  ([src/internal/registry]).

Calls and results:
- [GoFloat], [Text], [Utf8], [Url]: what the packages use of Go's floats, strings,
  UTF-8 and query strings.
- [PromApi]: the allow-list of upstream calls ([src/internal/promapi]).
- [Step], [Sanitize], [PromData], [Render]: steps, sanitising and tables, decoding
  of Prometheus' answers, and compact results ([src/internal/render]).
- [Sem], [Proxy]: the semaphores and the authorized, budgeted call
  ([src/internal/promproxy]).
- [Guard], [ToolError], [Tools], [PromQL], [Fanout], [Listing], [Query]: the checks
  before a tool runs, its errors, what tools share, the structural check of an
  expression, the fan-out query, the listing tools and the query tools
  ([src/internal/mcptools]).

Certificates:
- [Ca], [CaRotation], [CaFleet]: the authority ([src/internal/ca]), one replica's
  rotation controller ([src/internal/hub/carotation.go], [caissuers.go]) and a
  fleet of them.  PEM and X.509 are the interface [X509], with an instance.
- [Bootstrap]: first boot ([src/internal/hub/bootstrap.go], the pepper of
  [src/internal/token], [ca.LoadOrCreate]).
- [CertProof], [HubApi], [Admin], [Revocation]: proofs of possession
  ([src/internal/certproof]), the routes of spokes, of administrators, and the
  revocation of certificates ([src/internal/hubapi], [src/internal/hub/tunnel.go]).

Spokes and tunnels:
- [Dialer]: the pool of dialers, readiness and the count of replicas
  ([src/internal/spoke/coverage.go], [spoke.go], [util.go],
  [src/internal/obs/health.go], [src/internal/hub/peers.go]).
- [Spoke]: identities, their stores, enrollment, renewal and sharing
  ([src/internal/spoke/identity.go], [enroll.go], [spoke.go]).
- [PromClient]: the client of the local Prometheus ([src/internal/promclient]).
- [WsTun], [GrpcTun]: the tunnel's handshake and the calls inside it
  ([src/internal/tunnel]).
- [Collector]: the facts of a cluster ([src/internal/clusterfacts]).
- [Config]: flags, environment and validation of both binaries
  ([src/internal/config]), and what is built from a validated configuration.

* How the code is modelled

A struct is a record with the source's fields, an error sentinel a constructor,
a fallible call a [result]; a Go string is a sequence of bytes, a map a [gmap],
a nil-able pointer an [option]; where the source can panic, [None] in place of an
answer is the panic.  An instant is a number of nanoseconds since Go's zero time, a
duration an [int64], and integers keep their width: [wrap_int64], [wrap_uint64] and
[Sub] are the language's; floats are binary64.  A loop over a map is a fold over a
list of its entries, whose order the theorems quantify over or show to be
irrelevant.  A method that holds a mutex for its whole body is one step.  Where
calls release it in between, or processes meet at the API server, the code is a
step machine whose interleavings the theorems range over: [replica_step]
([SecretStore]), [req_step] ([Authn]), [sem_exec] ([Sem]), [proxy_exec] ([Proxy]),
[dispatch_exec] ([Fanout]), [fleet_exec] ([CaFleet]), the steps of [Bootstrap] and
[Revocation], [dial_exec] ([Dialer]), [serve_exec] ([WsTun]).  What comes from
outside is an argument: the outcome of a system call, the API server's or the
peer's answer, the clock, random bytes, HMAC, SHA-256 and signatures, Unicode's
case tables, regular expressions of the user's, the sizes [json.Marshal] gives, and
the parsers of [time.Parse], [url.Parse] and [strconv.ParseFloat].

* What the theorems show

- State.  The document is well formed after any history and bumps its epoch
  exactly when an authentication decision can change ([State]); it survives
  encoding, and damaged or newer documents are refused ([Codec]).  Both backends
  implement it: on the Secret any interleaving of replicas is a sequence of
  mutations of one document, calls end, and tokens are redeemed within their budget
  across all replicas ([FileStore], [SecretStore]).  Pruning changes no decision and
  no label ([State], [Hub]).
- Authentication.  Tokens parse exactly when they were minted ([Token]); the linked
  cache refines a recency list ([Lru]); a verification succeeds only on a document
  that was current during the request, however requests and revocations interleave
  ([Authn]); a minted key authenticates, and what the admin routes serve is well
  typed ([Admin]).
- Calls.  A call reaches a cluster only with a scope that admits it, budgets and
  slots are kept and returned under any interleaving, and every call ends ([Sem],
  [Proxy]).  The spoke accepts exactly the paths the hub can build ([PromApi],
  [PromClient]); what the listing tools send passes the allow-list ([Listing]); the
  query tools stay within the key's lookback and caps, but for one step that is not
  ruled out ([Query]); a fan-out accounts for every cluster it was asked about and
  its dispatch ends ([Fanout]).
- Results.  Remote text is inert once sanitised ([Sanitize]); results are the top of
  the ranking, lossless in their labels, within limit and ceiling, and honest about
  what they left out ([Render], [Listing], [Query]).
- Certificates.  One root survives first boot ([Bootstrap]); a rotation strands no
  spoke that renews ([CaFleet]); renewal demands an unrevoked certificate and its
  key ([HubApi]); a revocation takes effect on every replica and is never undone by a
  renewal ([Revocation]).
- Tunnels.  The hub lets in only who proved its certificate over this connection's
  nonce, a spoke of the fleet gets its tunnel, and both limits hold ([WsTun]);
  whatever a spoke streams, the hub's reader hands out within its budget, and a
  response of Prometheus arrives as it was up to the cap ([GrpcTun]).  The dialers
  of a spoke cover every replica and stay within the pool ([Dialer]); a pod only
  ever holds an identity of its own cluster, and keeps it valid ([Spoke]); the facts
  the hub holds are the published ones ([Collector]).
- Configuration.  A validated configuration of the hub gets its parts, with the
  exceptions stated ([Config]).

* Bounds and fuel

Loops that recurse on a measure carry as much fuel as the measure: versions
([migrate_loop]), nodes ([evict_loop]), bytes (UTF-8, durations, [analyzePromQL],
the stream a body reader holds plus one), items ([fit_loop]).  [Mint] needs an
entropy source that yields enough accepted bytes, and the polls of a starting
replica ([Bootstrap]) and of a waiting pod (51, [Spoke]) are the source's own limit,
as are the attempts of [replica_step] and the 32 rounds of the size cap, which are
enough for lists below 1024 entries ([Collector]).  A dispatch to [n] clusters ends
within [2n + 1] steps ([Fanout]).  Arithmetic is bounded where the code does not
guard it: the token ceiling times the largest limit within an [int64]
([ceiling_ok]), a step to which a day can be added ([Step], [Query]), backoff bounds
and deadlines below 2^62 nanoseconds ([Dialer], [GrpcTun]), an epoch that has not
wrapped.  The rotation of a fleet assumes that a replica adopts what it read within
a lag and writes within a latency, both far below a certificate's lifetime
([CaFleet]).

* What is not modelled

The command line tool ([hubcli]), the MCP protocol surface ([mcpsurface]) and the
HTTP helpers ([httpx]) are glue around libraries.  Of the tools, alerting, targets,
status, describe, explain, exemplars, resources and prompts follow the shape of
[Listing] and are left out, as is their registration.  WebSocket, TLS, gRPC, HTTP
and Kubernetes' wire formats, metrics, logs and traces, process wiring and timers,
the lifecycle of the tunnel's listener, the in-memory tunnel, the shared test
suites, generated code and the version are not modelled either. *)

From Stdlib Require Export ZArith Lia String Ascii.
From stdpp Require Export base tactics strings gmap list sorting fin_maps.

(** * Automation *)

(** Facts about the persisted document. *)
Create HintDb store.

(** Reading a printed member back. *)
Create HintDb codec.

(** * Go's results *)

Inductive result (E A : Type) : Type :=
| Ok (a : A)
| Err (e : E).

Arguments Ok {E A} a.
Arguments Err {E A} e.

#[export] Instance result_ret {E} : MRet (result E) := λ A a, Ok a.
#[export] Instance result_bind {E} : MBind (result E) :=
  λ A B f m, match m with Ok a => f a | Err e => Err e end.
#[export] Instance result_fmap {E} : FMap (result E) :=
  λ A B f m, match m with Ok a => Ok (f a) | Err e => Err e end.

Definition is_ok {E A} (r : result E A) : bool :=
  match r with Ok _ => true | Err _ => false end.

(** A guard clause: an early return of an error. *)
Lemma guard_ok {E A} (b : bool) (e : E) (r : result E A) (a : A) :
  (if b then Err e else r) = Ok a ↔ b = false ∧ r = Ok a.
Proof. destruct b; naive_solver. Qed.

(** * Go's machine integers *)

Definition wrap_int64 (z : Z) : Z := ((z + 2 ^ 63) mod 2 ^ 64 - 2 ^ 63)%Z.
Definition wrap_uint64 (z : Z) : Z := (z mod 2 ^ 64)%Z.
Definition max_int64 : Z := (2 ^ 63 - 1)%Z.
Definition min_int64 : Z := (- 2 ^ 63)%Z.
Definition int64_range (z : Z) : Prop := (min_int64 ≤ z ≤ max_int64)%Z.

Lemma wrap_int64_id z : int64_range z → wrap_int64 z = z.
Proof.
  unfold int64_range, wrap_int64, min_int64, max_int64. intros H.
  rewrite Z.mod_small; lia.
Qed.

Lemma wrap_int64_range z : int64_range (wrap_int64 z).
Proof.
  unfold int64_range, wrap_int64, min_int64, max_int64.
  pose proof (Z.mod_pos_bound (z + 2 ^ 63) (2 ^ 64)) as H. lia.
Qed.

Lemma wrap_uint64_id z : (0 ≤ z < 2 ^ 64)%Z → wrap_uint64 z = z.
Proof. unfold wrap_uint64. intros. by apply Z.mod_small. Qed.

(** * Go's [time.Time] and [time.Duration]

An instant is the number of nanoseconds since Go's zero time, so that
[IsZero] is equality with [0]; a duration is an [int64] count of
nanoseconds, and [Sub] saturates as [time.Time.Sub] does. *)

Definition IsZero (t : Z) : bool := (t =? 0)%Z.
Definition After (t u : Z) : bool := (u <? t)%Z.
Definition Before (t u : Z) : bool := (t <? u)%Z.
Definition Equal (t u : Z) : bool := (t =? u)%Z.
Definition Sub (t u : Z) : Z := Z.max min_int64 (Z.min max_int64 (t - u)).
Definition Add (t d : Z) : Z := (t + d)%Z.

Definition Nanosecond : Z := 1.
Definition Microsecond : Z := 1000.
Definition Millisecond : Z := 1000000.
Definition Second : Z := 1000000000.
Definition Minute : Z := (60 * Second)%Z.
Definition Hour : Z := (60 * Minute)%Z.

(** * Go's strings

A Go string is a sequence of bytes, modelled by [string]. *)

#[global] Arguments String.append !_ _ / : simpl nomatch.

Lemma string_app_assoc (a b c : string) : ((a +:+ b) +:+ c = a +:+ (b +:+ c))%string.
Proof. induction a; simpl; congruence. Qed.

Lemma string_app_nil_r (s : string) : (s +:+ "" = s)%string.
Proof. induction s as [|c s IH]; [done|]. cbn. by rewrite IH. Qed.

Lemma string_length_app (a b : string) :
  String.length (a +:+ b)%string = (String.length a + String.length b)%nat.
Proof. induction a; simpl; congruence. Qed.

Definition HasPrefix (s p : string) : bool := String.prefix p s.

Fixpoint HasSuffix (s suf : string) : bool :=
  String.eqb s suf || match s with EmptyString => false | String _ s' => HasSuffix s' suf end.

Fixpoint TrimSuffix (s suf : string) : string :=
  if String.eqb s suf then EmptyString
  else match s with EmptyString => EmptyString | String c s' => String c (TrimSuffix s' suf) end.

Lemma HasPrefix_spec s p : HasPrefix s p = true ↔ ∃ r, s = (p +:+ r)%string.
Proof.
  unfold HasPrefix. revert s. induction p as [|c p IH]; intros s.
  - split; [by exists s|]. intros _. by destruct s.
  - destruct s as [|d s]; simpl.
    + split; [done|]. by intros [r [=]].
    + destruct (ascii_dec c d) as [->|Hne].
      * rewrite IH. split; intros [r Hr]; exists r; [by rewrite Hr | by injection Hr].
      * split; [done|]. intros [r Hr]. by injection Hr as ->.
Qed.

Lemma HasSuffix_spec s suf : HasSuffix s suf = true ↔ ∃ r, s = (r +:+ suf)%string.
Proof.
  induction s as [|c s IH]; cbn [HasSuffix].
  - rewrite orb_false_r, String.eqb_eq. split; [intros <-; by exists EmptyString|].
    intros [[|? r] Hr]; [done|discriminate].
  - rewrite orb_true_iff, String.eqb_eq, IH. split.
    + intros [<-|[r ->]]; [by exists EmptyString | by exists (String c r)].
    + intros [[|d r] Hr]; [by left | right; exists r; by injection Hr].
Qed.

Lemma TrimSuffix_app r suf : TrimSuffix (r +:+ suf)%string suf = r.
Proof.
  induction r as [|c r IH].
  - destruct suf as [|c s]; [done|]. simpl. by rewrite Ascii.eqb_refl, String.eqb_refl.
  - cbn [TrimSuffix String.append]. destruct (String.eqb_spec (String c (r +:+ suf)%string) suf) as [He|_]; [|by rewrite IH].
    exfalso. apply (f_equal String.length) in He. simpl in He. rewrite string_length_app in He. lia.
Qed.

(** [slices.Contains] on a slice of strings. *)
Definition Contains (l : list string) (x : string) : bool := bool_decide (x ∈ l).

Lemma Contains_spec l x : Contains l x = true ↔ x ∈ l.
Proof. apply bool_decide_eq_true. Qed.

(** Indexing a Go [map[string]string]: the zero value when absent. *)
Definition map_get (m : gmap string string) (k : string) : string := default EmptyString (m !! k).

(** * The byte order of strings *)

Lemma string_ltb_spec a b : String.ltb a b = true ↔ ¬ String.le b a.
Proof.
  unfold String.le, String.ltb, String.leb. rewrite (String.compare_antisym b a).
  destruct (String.compare a b); simpl; split; try done; intros H; solve [tauto | exfalso; by apply H].
Qed.

Lemma string_le_antisym a b : String.le a b → String.le b a → a = b.
Proof. apply (anti_symm String.le). Qed.

(** * Loops over the entries of a map *)

Lemma map_entries_NoDup {A} (m : gmap string A) (l : list (string * A)) :
  l ≡ₚ map_to_list m → NoDup l.*1.
Proof. intros ->. apply NoDup_fst_map_to_list. Qed.

Lemma map_entries_elem {A} (m : gmap string A) (l : list (string * A)) k a :
  l ≡ₚ map_to_list m → (k, a) ∈ l ↔ m !! k = Some a.
Proof. intros ->. apply elem_of_map_to_list. Qed.

(** A sorted list is determined by its elements when the order separates them. *)
Lemma sort_unique {A} (R : relation A) `{!RelDecision R, !Transitive R, !Total R} (l1 l2 : list A) :
  (∀ x y, x ∈ l1 → y ∈ l1 → R x y → R y x → x = y) → l1 ≡ₚ l2 →
  merge_sort R l1 = merge_sort R l2.
Proof.
  intros Hanti Hp. apply (Sorted_unique_strong R).
  - intros x1 x2. rewrite !merge_sort_Permutation, <- Hp. apply Hanti.
  - apply (Sorted_merge_sort R).
  - apply (Sorted_merge_sort R).
  - by rewrite !merge_sort_Permutation.
Qed.

(** A loop that deletes from the map it ranges over: entries visited in the
given order, kept while the guard of the [continue] holds; it counts the
deleted ones. *)
Definition prune_loop {A} (keep : string → A → bool) (entries : list (string * A)) (m : gmap string A)
  : gmap string A * Z :=
  foldl (λ '(m, n) '(k, a), if keep k a then (m, n) else (delete k m, (n + 1)%Z)) (m, 0%Z) entries.

Lemma prune_loop_lookup {A} (keep : string → A → bool) entries (m : gmap string A) n k :
  NoDup entries.*1 →
  (foldl (λ '(m, n) '(k, a), if keep k a then (m, n) else (delete k m, (n + 1)%Z)) (m, n) entries).1 !! k
  = if bool_decide (Exists (λ e, e.1 = k ∧ keep e.1 e.2 = false) entries) then None else m !! k.
Proof.
  revert m n. induction entries as [|[k' a] entries IH]; intros m n Hnd; [done|].
  simpl in Hnd. apply NoDup_cons in Hnd as [Hnot Hnd].
  cbn [foldl]. destruct (keep k' a) eqn:Hk; rewrite IH by done.
  - erewrite bool_decide_ext; [done|]. rewrite Exists_cons. simpl. naive_solver congruence.
  - case_bool_decide as Hb.
    + rewrite bool_decide_true; [done|]. by right.
    + destruct (decide (k' = k)) as [->|Hne].
      * rewrite bool_decide_true by (by left). by rewrite lookup_delete_eq.
      * rewrite bool_decide_false; [by rewrite lookup_delete_ne|].
        intros [[? ?]|?]%Exists_cons; done.
Qed.

Lemma prune_loop_count {A} (keep : string → A → bool) entries (m : gmap string A) n :
  (foldl (λ '(m, n) '(k, a), if keep k a then (m, n) else (delete k m, (n + 1)%Z)) (m, n) entries).2
  = (n + Z.of_nat (length (filter (λ e, keep e.1 e.2 = false) entries)))%Z.
Proof.
  revert m n. induction entries as [|[k' a] entries IH]; intros m n; cbn [foldl]; [simpl; lia|].
  rewrite filter_cons. simpl. destruct (keep k' a) eqn:Hk; rewrite IH.
  - rewrite decide_False by congruence. done.
  - rewrite decide_True by done. simpl. lia.
Qed.

(** The loop keeps exactly the entries its guard keeps and counts the others,
in whatever order the map is visited. *)
Lemma prune_loop_spec {A} (keep : string → A → bool) entries (m : gmap string A) :
  entries ≡ₚ map_to_list m →
  prune_loop keep entries m
  = (filter (λ e, keep e.1 e.2 = true) m,
     Z.of_nat (length (filter (λ e, keep e.1 e.2 = false) (map_to_list m)))).
Proof.
  intros Hp. unfold prune_loop.
  destruct (foldl _ _ _) as [m' n'] eqn:Hf. f_equal.
  - apply map_eq. intros k. replace m' with (fst (m', n')) by done. rewrite <- Hf.
    rewrite prune_loop_lookup by eauto using map_entries_NoDup.
    case_bool_decide as Hb.
    + apply Exists_exists in Hb as ([k' a] & Hin & <- & Hkeep). simpl in *.
      apply (map_entries_elem m) in Hin; [|done].
      symmetry. apply map_lookup_filter_None. right. intros a' Ha'. simpl. congruence.
    + destruct (m !! k) as [a|] eqn:Hk; symmetry.
      * apply map_lookup_filter_Some. split; [done|]. simpl.
        destruct (keep k a) eqn:Hkeep; [done|]. exfalso. apply Hb, Exists_exists.
        exists (k, a). split; [|done]. by apply (map_entries_elem m).
      * apply map_lookup_filter_None. by left.
  - replace n' with (snd (m', n')) by done. rewrite <- Hf, prune_loop_count.
    by rewrite (filter_Permutation _ _ _ Hp).
Qed.

(** * Counting the entries of a map *)

Section count.
Context {A : Type} (f : A → bool).
#[local] Open Scope Z_scope.

Definition map_count (m : gmap nat A) : Z := map_fold (λ _ a n, (if f a then 1 else 0) + n) 0 m.

Lemma map_count_new m i a : m !! i = None → map_count (<[i := a]> m) = (if f a then 1 else 0) + map_count m.
Proof. intros Hi. unfold map_count. rewrite map_fold_insert_L; [done| |done]. intros. lia. Qed.

Lemma map_count_split m i a : m !! i = Some a → map_count m = (if f a then 1 else 0) + map_count (delete i m).
Proof. intros Hi. rewrite <- (insert_delete_id m i a) at 1 by done. apply map_count_new, lookup_delete_eq. Qed.

Lemma map_count_move m i a b : m !! i = Some a → map_count (<[i := b]> m) = map_count m - (if f a then 1 else 0) + (if f b then 1 else 0).
Proof. intros Hi. rewrite (map_count_split m i a Hi), <- insert_delete_eq, map_count_new by apply lookup_delete_eq. lia. Qed.

Lemma map_count_nonneg m : 0 ≤ map_count m.
Proof. induction m as [|i a m Hn IH] using map_ind; [done|]. rewrite map_count_new by done. destruct (f a); lia. Qed.

Lemma map_count_pos m i a : m !! i = Some a → f a = true → 0 < map_count m.
Proof. intros Hi Hf. rewrite (map_count_split m i a Hi), Hf. pose proof (map_count_nonneg (delete i m)). lia. Qed.

Lemma map_count_zero m : map_count m = 0 ↔ ∀ i a, m !! i = Some a → f a = false.
Proof.
  split.
  - intros H i a Hi. destruct (f a) eqn:Hf; [|done]. pose proof (map_count_pos m i a Hi Hf). lia.
  - intros H. induction m as [|i a m Hn IH] using map_ind; [done|]. rewrite map_count_new, (H i a) by (done || apply lookup_insert_eq).
    rewrite IH; [lia|]. intros j b Hj. apply (H j). rewrite lookup_insert_ne; [done|]. intros ->. congruence.
Qed.

End count.
