(* ===== verification/Fleet.v ===== *)
(** The domain types of [src/internal/fleet]: credentials ([identity.go]),
authorization scopes ([scope.go]) and cluster records ([cluster.go]), with the
predicates the rest of the hub evaluates on them.

A Go pointer that may be nil is an [option]; a nil and an empty slice or map
are one value, because no code modelled here tells them apart. *)

From Stdlib Require Import Floats.
From S2P Require Import Prelude.
Open Scope string_scope.

(** * Credential classes and roles (identity.go) *)

Abbreviation KeyClass := string (only parsing).
Definition ClassAdmin : KeyClass := "adm".
Definition ClassAgent : KeyClass := "agt".
Definition ClassEnrollment : KeyClass := "enr".

Definition KeyClass_Valid (c : KeyClass) : bool :=
  String.eqb c ClassAdmin || String.eqb c ClassAgent || String.eqb c ClassEnrollment.

Abbreviation Role := string (only parsing).
Definition RoleViewer : Role := "viewer".
Definition RoleOperator : Role := "operator".
Definition RoleAdmin : Role := "admin".

Definition Role_Valid (r : Role) : bool :=
  String.eqb r RoleViewer || String.eqb r RoleOperator || String.eqb r RoleAdmin.

(** * Scopes (scope.go) *)

Record ClusterScope := {
  cs_Allow : list string;
  cs_MatchLabels : gmap string string;
  cs_Deny : list string
}.

Record ToolScope := {
  ts_Allow : list string;
  ts_Deny : list string
}.

Record Limits := {
  MaxLookback : Z;
  MaxPoints : Z;
  MaxSeries : Z;
  Timeout : Z;
  MaxResponseBytes : Z;
  MaxConcurrentPerCluster : Z;
  RateRPS : float;
  RateBurst : Z
}.

Record Scope := {
  Scope_Role : Role;
  Scope_Clusters : ClusterScope;
  Scope_Tools : ToolScope;
  Scope_Limits : Limits
}.

(** * Keys, grants and principals (identity.go) *)

Record EnrollmentGrant := {
  ClusterID : string;
  grant_Labels : gmap string string;
  UsedAt : option Z;
  CertSerial : string;
  Reusable : bool;
  Redemptions : Z;
  MaxRedemptions : Z
}.

Record Key := {
  KID : string;
  Class : KeyClass;
  Name : string;
  Owner : string;
  SecretHMAC : list Byte.byte;
  Key_Scope : option Scope;
  Enrollment : option EnrollmentGrant;
  CreatedAt : Z;
  ExpiresAt : Z;
  LastUsed : option Z;
  RevokedAt : option Z;
  RevokedReason : string
}.

Definition Expired (k : Key) (now : Z) : bool :=
  negb (IsZero (ExpiresAt k)) && After now (ExpiresAt k).

Definition Revoked (k : Key) : bool :=
  match RevokedAt k with Some _ => true | None => false end.

Definition Usable (k : Key) (now : Z) : bool :=
  negb (Revoked k) && negb (Expired k now).

Record Principal := {
  p_KID : string;
  p_Name : string;
  p_Class : KeyClass;
  p_Role : Role;
  p_Scope : option Scope;
  p_Epoch : Z
}.

(** ** Field updates of a key *)

Definition set_SecretHMAC (h : list Byte.byte) (k : Key) : Key :=
  {| KID := KID k; Class := Class k; Name := Name k; Owner := Owner k; SecretHMAC := h;
     Key_Scope := Key_Scope k; Enrollment := Enrollment k; CreatedAt := CreatedAt k;
     ExpiresAt := ExpiresAt k; LastUsed := LastUsed k; RevokedAt := RevokedAt k;
     RevokedReason := RevokedReason k |}.

Definition set_Revoked (at_ : Z) (reason : string) (k : Key) : Key :=
  {| KID := KID k; Class := Class k; Name := Name k; Owner := Owner k; SecretHMAC := SecretHMAC k;
     Key_Scope := Key_Scope k; Enrollment := Enrollment k; CreatedAt := CreatedAt k;
     ExpiresAt := ExpiresAt k; LastUsed := LastUsed k; RevokedAt := Some at_;
     RevokedReason := reason |}.

Definition set_LastUsed (at_ : Z) (k : Key) : Key :=
  {| KID := KID k; Class := Class k; Name := Name k; Owner := Owner k; SecretHMAC := SecretHMAC k;
     Key_Scope := Key_Scope k; Enrollment := Enrollment k; CreatedAt := CreatedAt k;
     ExpiresAt := ExpiresAt k; LastUsed := Some at_; RevokedAt := RevokedAt k;
     RevokedReason := RevokedReason k |}.

Definition set_Enrollment (g : EnrollmentGrant) (k : Key) : Key :=
  {| KID := KID k; Class := Class k; Name := Name k; Owner := Owner k; SecretHMAC := SecretHMAC k;
     Key_Scope := Key_Scope k; Enrollment := Some g; CreatedAt := CreatedAt k;
     ExpiresAt := ExpiresAt k; LastUsed := LastUsed k; RevokedAt := RevokedAt k;
     RevokedReason := RevokedReason k |}.

(** * Clusters (cluster.go) *)

Inductive ClusterState :=
| StateConnected
| StateDisconnected
| StateDegraded.

#[export] Instance ClusterState_eq_dec : EqDecision ClusterState.
Proof. solve_decision. Defined.

Record KubernetesInfo := {
  Available : bool;
  UnavailableReason : string;
  k8s_Version : string;
  ClusterUID : string;
  NodeCount : Z
}.

Record PrometheusInfo := {
  Reachable : bool;
  UnreachableReason : string;
  Flavor : string;
  prom_Version : string;
  Retention : string;
  ScrapeInterval : string;
  LookbackDelta : string;
  ExternalLabels : gmap string string;
  ActiveSeries : Z;
  MetricNames : Z;
  Jobs : list string;
  Namespaces : list string;
  MetricPrefixes : list string;
  RuleGroups : Z;
  AlertingRules : Z;
  FiringAlerts : Z;
  HasAlertmanager : bool
}.

Record Cluster := {
  ID : string;
  DisplayName : string;
  Description : string;
  Labels : gmap string string;
  Cluster_State : ClusterState;
  LastSeen : Z;
  ConnectedSince : Z;
  AgentVersion : string;
  ProtocolVersion : string;
  CertNotAfter : Z;
  Kubernetes : KubernetesInfo;
  Prometheus : PrometheusInfo
}.

Definition Healthy (c : Cluster) : bool :=
  match Cluster_State c with StateConnected => true | _ => false end.

(** * Scope evaluation (scope.go) *)

Definition AllowsCluster (s : option Scope) (id : string) (labels : gmap string string) : bool :=
  match s with
  | None => false
  | Some s =>
    if Contains (cs_Deny (Scope_Clusters s)) id then false
    else if negb (forallb (λ '(k, want), String.eqb (map_get labels k) want)
                   (map_to_list (cs_MatchLabels (Scope_Clusters s)))) then false
    else if (length (cs_Allow (Scope_Clusters s)) =? 0)%nat
         then (0 <? size (cs_MatchLabels (Scope_Clusters s)))%nat
    else Contains (cs_Allow (Scope_Clusters s)) "*" || Contains (cs_Allow (Scope_Clusters s)) id
  end.

Definition matchToolPattern (pattern name : string) : bool :=
  if String.eqb pattern "*" then true
  else if HasSuffix pattern ".*" then HasPrefix name (TrimSuffix pattern "*")
  else String.eqb pattern name.

Definition AllowsTool (s : option Scope) (name : string) : bool :=
  match s with
  | None => false
  | Some s =>
    if existsb (λ d, matchToolPattern d name) (ts_Deny (Scope_Tools s)) then false
    else existsb (λ a, String.eqb a "*" || String.eqb a name) (ts_Allow (Scope_Tools s))
  end.

Definition ToolExplicitlyAllowed (s : option Scope) (name : string) : bool :=
  match s with
  | None => false
  | Some sc =>
    if negb (AllowsTool s name) then false
    else Contains (ts_Allow (Scope_Tools sc)) name
  end.

Inductive ScopeError :=
| ScopeRequired
| InvalidRole (r : Role)
| AdminRoleForAgent
| NoClusterSelector
| NoToolAllow
| DenyWildcard
| NegativeLimits.

Definition Validate (s : option Scope) : result ScopeError unit :=
  match s with
  | None => Err ScopeRequired
  | Some s =>
    if negb (Role_Valid (Scope_Role s)) then Err (InvalidRole (Scope_Role s))
    else if String.eqb (Scope_Role s) RoleAdmin then Err AdminRoleForAgent
    else if (length (cs_Allow (Scope_Clusters s)) =? 0)%nat
            && (size (cs_MatchLabels (Scope_Clusters s)) =? 0)%nat then Err NoClusterSelector
    else if (length (ts_Allow (Scope_Tools s)) =? 0)%nat then Err NoToolAllow
    else if Contains (cs_Deny (Scope_Clusters s)) "*" then Err DenyWildcard
    else if (MaxPoints (Scope_Limits s) <? 0)%Z || (MaxSeries (Scope_Limits s) <? 0)%Z
            || (MaxResponseBytes (Scope_Limits s) <? 0)%Z then Err NegativeLimits
    else Ok tt
  end.

(** * What the predicates decide *)

(** A deny pattern as the documentation of [ToolScope] describes it. *)
Inductive pattern_matches : string → string → Prop :=
| pm_star name : pattern_matches "*" name
| pm_prefix pre rest : pattern_matches (pre +:+ ".*") (pre +:+ "." +:+ rest)
| pm_exact name : HasSuffix name ".*" = false → pattern_matches name name.

Lemma matchToolPattern_spec pattern name :
  matchToolPattern pattern name = true ↔ pattern_matches pattern name.
Proof.
  unfold matchToolPattern.
  destruct (String.eqb_spec pattern "*") as [->|Hstar].
  { split; [constructor|done]. }
  destruct (HasSuffix pattern ".*") eqn:Hsuf.
  - apply HasSuffix_spec in Hsuf as [pre ->].
    change ".*" with ("." +:+ "*"). rewrite <- string_app_assoc, TrimSuffix_app, HasPrefix_spec.
    split.
    + intros [r ->]. rewrite !string_app_assoc. constructor.
    + inversion 1 as [? Heq|pre' rest Heq|? Hno Heq]; subst.
      * exfalso. rewrite string_app_assoc in Heq. exact (Hstar (eq_sym Heq)).
      * replace (pre' +:+ ".*") with ((pre' +:+ ".") +:+ "*") in Heq by apply string_app_assoc.
        apply (f_equal (λ s, TrimSuffix s "*")) in Heq. rewrite !TrimSuffix_app in Heq.
        exists rest. by rewrite <- Heq, string_app_assoc.
      * rewrite string_app_assoc in Hno. exfalso.
        assert (HasSuffix (pre +:+ ("." +:+ "*")) ".*" = true) as Hyes by (apply HasSuffix_spec; by exists pre).
        congruence.
  - rewrite String.eqb_eq. split; [by intros ->; constructor|].
    inversion 1 as [|pre' rest|]; subst; try done.
    assert (HasSuffix (pre' +:+ ".*") ".*" = true) by (apply HasSuffix_spec; by exists pre').
    congruence.
Qed.

Definition labels_selected (sel labels : gmap string string) : Prop :=
  ∀ k want, sel !! k = Some want → map_get labels k = want.

Lemma labels_selected_spec sel labels :
  forallb (λ '(k, want), String.eqb (map_get labels k) want) (map_to_list sel) = true
  ↔ labels_selected sel labels.
Proof.
  rewrite forallb_forall. unfold labels_selected. split.
  - intros H k want Hk. apply elem_of_map_to_list, list_elem_of_In in Hk.
    by apply H, String.eqb_eq in Hk.
  - intros H [k want] Hk%list_elem_of_In%elem_of_map_to_list. apply String.eqb_eq. eauto.
Qed.

Lemma size_pos_iff {A} (m : gmap string A) : (0 <? size m)%nat = true ↔ m ≠ ∅.
Proof. rewrite Nat.ltb_lt, <- map_size_non_empty_iff. lia. Qed.

(** Deny beats allow and an empty scope reaches nothing.  A scope reaches a
cluster exactly when the cluster is not denied by name, every label of the
selector reads on the cluster as the selector wants it, and either the allow
list is empty and the selector is not, or the allow list holds the wildcard or
the cluster's name. *)
Theorem AllowsCluster_correct (s : Scope) (id : string) (labels : gmap string string) :
  AllowsCluster (Some s) id labels = true
  ↔ id ∉ cs_Deny (Scope_Clusters s)
    ∧ labels_selected (cs_MatchLabels (Scope_Clusters s)) labels
    ∧ ((cs_Allow (Scope_Clusters s) = [] ∧ cs_MatchLabels (Scope_Clusters s) ≠ ∅)
       ∨ "*" ∈ cs_Allow (Scope_Clusters s) ∨ id ∈ cs_Allow (Scope_Clusters s)).
Proof.
  unfold AllowsCluster. set (cs := Scope_Clusters s).
  rewrite <- labels_selected_spec, <- (Contains_spec (cs_Deny cs)).
  destruct (Contains (cs_Deny cs) id); [naive_solver|].
  destruct (forallb _ _); cbn [negb]; [|naive_solver].
  destruct (cs_Allow cs) as [|a l]; cbn [length Nat.eqb].
  - rewrite size_pos_iff. set_solver.
  - rewrite orb_true_iff, !Contains_spec. naive_solver.
Qed.

(** A tool call is allowed exactly when no deny entry matches the tool (an
exact name, a dotted prefix pattern or the bare wildcard) and the allow list
holds the wildcard or the tool's exact name; allow patterns are not expanded. *)
Theorem AllowsTool_correct (s : Scope) (name : string) :
  AllowsTool (Some s) name = true
  ↔ (∀ d, d ∈ ts_Deny (Scope_Tools s) → ¬ pattern_matches d name)
    ∧ ("*" ∈ ts_Allow (Scope_Tools s) ∨ name ∈ ts_Allow (Scope_Tools s)).
Proof.
  unfold AllowsTool. set (ts := Scope_Tools s).
  destruct (existsb (λ d, matchToolPattern d name) (ts_Deny ts)) eqn:Hd.
  - apply existsb_exists in Hd as (d & Hd%list_elem_of_In & Hm%matchToolPattern_spec). naive_solver.
  - assert (∀ d, d ∈ ts_Deny ts → ¬ pattern_matches d name) as Hnone.
    { intros d Hd'%list_elem_of_In Hm%matchToolPattern_spec.
      rewrite <- not_true_iff_false, existsb_exists in Hd. eauto. }
    rewrite existsb_exists. setoid_rewrite orb_true_iff. setoid_rewrite String.eqb_eq.
    setoid_rewrite <- list_elem_of_In. naive_solver.
Qed.

Lemma Role_Valid_spec r :
  Role_Valid r = true ↔ r = RoleViewer ∨ r = RoleOperator ∨ r = RoleAdmin.
Proof. unfold Role_Valid. rewrite !orb_true_iff, !String.eqb_eq. tauto. Qed.

(** A scope document passes validation exactly when it is present, its role
is viewer or operator, it names clusters somehow, it allows some tool, its
cluster deny list holds no wildcard and none of the three checked limits is
negative. *)
Theorem Validate_correct (s : option Scope) :
  Validate s = Ok tt
  ↔ ∃ sc, s = Some sc
      ∧ (Scope_Role sc = RoleViewer ∨ Scope_Role sc = RoleOperator)
      ∧ (cs_Allow (Scope_Clusters sc) ≠ [] ∨ cs_MatchLabels (Scope_Clusters sc) ≠ ∅)
      ∧ ts_Allow (Scope_Tools sc) ≠ []
      ∧ "*" ∉ cs_Deny (Scope_Clusters sc)
      ∧ (0 ≤ MaxPoints (Scope_Limits sc) ∧ 0 ≤ MaxSeries (Scope_Limits sc)
         ∧ 0 ≤ MaxResponseBytes (Scope_Limits sc))%Z.
Proof.
  destruct s as [s|]; [|naive_solver]. unfold Validate.
  rewrite !guard_ok, negb_false_iff, Role_Valid_spec, String.eqb_neq, andb_false_iff, !orb_false_iff,
    !Nat.eqb_neq, !Z.ltb_ge, length_zero_iff_nil, map_size_empty_iff, length_zero_iff_nil.
  rewrite <- (not_true_iff_false (Contains _ _)), Contains_spec.
  assert (RoleViewer ≠ RoleAdmin ∧ RoleOperator ≠ RoleAdmin) by done.
  split; [intros H'; exists s; intuition | intros (? & [= <-] & H'); intuition congruence].
Qed.

(** A selector that wants the empty string is met by a cluster that does not
carry the label at all, although the field's documentation asks for every
listed label to be present: with no allow list and no deny list such a scope
reaches every cluster without that label. *)
Theorem empty_label_selects_unlabelled (s : Scope) (k id : string) (labels : gmap string string) :
  cs_Allow (Scope_Clusters s) = [] → cs_Deny (Scope_Clusters s) = [] →
  cs_MatchLabels (Scope_Clusters s) = {[k := ""]} → labels !! k = None →
  AllowsCluster (Some s) id labels = true.
Proof.
  intros Ha Hd Hm Hk. unfold AllowsCluster. rewrite Ha, Hd, Hm, map_to_list_singleton. simpl.
  unfold map_get. by rewrite Hk, map_size_singleton.
Qed.

Lemma empty_label_selects_unlabelled_witness :
  AllowsCluster
    (Some {| Scope_Role := RoleViewer;
             Scope_Clusters := {| cs_Allow := []; cs_MatchLabels := {["env" := ""]}; cs_Deny := [] |};
             Scope_Tools := {| ts_Allow := ["*"]; ts_Deny := [] |};
             Scope_Limits := {| MaxLookback := 0; MaxPoints := 0; MaxSeries := 0; Timeout := 0;
               MaxResponseBytes := 0; MaxConcurrentPerCluster := 0; RateRPS := 0%float; RateBurst := 0 |} |})
    "prod-us" {["region" := "us"]} = true.
Proof.
  apply (empty_label_selects_unlabelled _ "env"); [reflexivity | reflexivity | reflexivity |].
  vm_compute. reflexivity.
Defined.
