(* ===== verification/State.v ===== *)
(** The persisted credential document of [src/internal/store/state.go] and
every mutation on it.

A mutation takes the document and returns the document it leaves behind
together with what the Go method returns: [Ok changed] or a sentinel error of
[store.go].  Ranging over a Go map visits it in an unspecified order, so each
loop over one is a fold over an explicit list of its entries; the theorems
quantify over every permutation of [map_to_list]. *)

From S2P Require Import Prelude Fleet.
Open Scope string_scope.

(** * Errors and records (store.go, state.go) *)

Inductive StoreError :=
| ErrNotFound
| ErrAlreadyExists
| ErrRevoked
| ErrEnrollmentUsed
| ErrClosed
| ErrStateTooLarge
| ErrWrongClass
| ErrNotUsable
| ErrInvalid
| ErrCorrupt
| ErrSchemaTooNew.

#[export] Instance StoreError_eq_dec : EqDecision StoreError.
Proof. solve_decision. Defined.

Record RevokedCert := {
  Serial : string;
  rc_RevokedAt : Z;
  rc_NotAfter : Z;
  rc_Reason : string
}.

Definition SchemaVersion : Z := 1.
Definition MaxStateBytes : Z := Z.shiftl 700 10.

Record KeyRecord := {
  rec_V : Z;
  rec_Key : Key;
  rec_SecretHMAC : list Byte.byte
}.

Record State := {
  st_SchemaVersion : Z;
  Epoch : Z;
  Keys : gmap string KeyRecord;
  RevokedCerts : gmap string RevokedCert
}.

Definition NewState : State :=
  {| st_SchemaVersion := SchemaVersion; Epoch := 0; Keys := ∅; RevokedCerts := ∅ |}.

(** Field updates of the document. *)
Definition set_Keys (m : gmap string KeyRecord) (s : State) : State :=
  {| st_SchemaVersion := st_SchemaVersion s; Epoch := Epoch s; Keys := m; RevokedCerts := RevokedCerts s |}.

Definition set_RevokedCerts (m : gmap string RevokedCert) (s : State) : State :=
  {| st_SchemaVersion := st_SchemaVersion s; Epoch := Epoch s; Keys := Keys s; RevokedCerts := m |}.

Definition set_rec_Key (f : Key → Key) (r : KeyRecord) : KeyRecord :=
  {| rec_V := rec_V r; rec_Key := f (rec_Key r); rec_SecretHMAC := rec_SecretHMAC r |}.

(** * Migration *)

(** The registered migrations: none, version 1 being the first format. *)
Definition migrations : gmap Z (State → result StoreError State) := ∅.

Definition set_SchemaVersion (v : Z) (s : State) : State :=
  {| st_SchemaVersion := v; Epoch := Epoch s; Keys := Keys s; RevokedCerts := RevokedCerts s |}.

(** The loop [for v := s.SchemaVersion; v < target; v++], as many rounds as
there are versions left to climb. *)
Fixpoint migrate_loop (migs : gmap Z (State → result StoreError State)) (rounds : nat) (v : Z)
    (s : State) : result StoreError State :=
  match rounds with
  | O => Ok s
  | S rounds =>
    match migs !! v with
    | None => Err ErrCorrupt
    | Some up =>
      match up s with
      | Err e => Err e
      | Ok s => migrate_loop migs rounds (v + 1)%Z (set_SchemaVersion (v + 1)%Z s)
      end
    end
  end.

Definition migrateTo (migs : gmap Z (State → result StoreError State)) (target : Z) (s : State)
  : result StoreError State :=
  let s := if (st_SchemaVersion s =? 0)%Z then set_SchemaVersion SchemaVersion s else s in
  if (target <? st_SchemaVersion s)%Z then Err ErrSchemaTooNew
  else migrate_loop migs (Z.to_nat (target - st_SchemaVersion s)) (st_SchemaVersion s) s.

Definition migrate (s : State) : result StoreError State := migrateTo migrations SchemaVersion s.

(** * Keys *)

Definition bump (s : State) : State :=
  {| st_SchemaVersion := st_SchemaVersion s; Epoch := wrap_uint64 (Epoch s + 1);
     Keys := Keys s; RevokedCerts := RevokedCerts s |}.

Definition validateKey (k : option Key) : option StoreError :=
  match k with
  | None => Some ErrInvalid
  | Some k =>
    if String.eqb (KID k) "" then Some ErrInvalid
    else if negb (KeyClass_Valid (Class k)) then Some ErrInvalid
    else None
  end.

(** [cloneKey] copies a key and everything behind its pointers. *)
Definition cloneKey (k : Key) : Key :=
  {| KID := KID k; Class := Class k; Name := Name k; Owner := Owner k;
     SecretHMAC := SecretHMAC k;
     Key_Scope := (λ s, {| Scope_Role := Scope_Role s;
                           Scope_Clusters := {| cs_Allow := cs_Allow (Scope_Clusters s);
                                                cs_MatchLabels := cs_MatchLabels (Scope_Clusters s);
                                                cs_Deny := cs_Deny (Scope_Clusters s) |};
                           Scope_Tools := {| ts_Allow := ts_Allow (Scope_Tools s);
                                             ts_Deny := ts_Deny (Scope_Tools s) |};
                           Scope_Limits := Scope_Limits s |}) <$> Key_Scope k;
     Enrollment := (λ g, {| ClusterID := ClusterID g; grant_Labels := grant_Labels g;
                            UsedAt := UsedAt g; CertSerial := CertSerial g; Reusable := Reusable g;
                            Redemptions := Redemptions g; MaxRedemptions := MaxRedemptions g |})
                     <$> Enrollment k;
     CreatedAt := CreatedAt k; ExpiresAt := ExpiresAt k; LastUsed := LastUsed k;
     RevokedAt := RevokedAt k; RevokedReason := RevokedReason k |}.

(** [KeyRecord.value]: the domain key with its digest reattached. *)
Definition rec_value (r : KeyRecord) : Key := set_SecretHMAC (rec_SecretHMAC r) (cloneKey (rec_Key r)).

Definition putKey (k : Key) (s : State) : State :=
  set_Keys (<[KID k := {| rec_V := SchemaVersion; rec_Key := set_SecretHMAC [] (cloneKey k);
                          rec_SecretHMAC := SecretHMAC k |}]> (Keys s)) s.

Definition PutKey (k : option Key) (s : State) : State * result StoreError bool :=
  match k, validateKey k with
  | None, _ => (s, Err ErrInvalid)
  | _, Some e => (s, Err e)
  | Some k, None =>
    match Keys s !! KID k with
    | Some _ => (s, Err ErrAlreadyExists)
    | None => (bump (putKey k s), Ok true)
    end
  end.

Definition PutKeyIfNoUsable (k : option Key) (at_ : Z) (s : State) : State * result StoreError bool :=
  match k, validateKey k with
  | None, _ => (s, Err ErrInvalid)
  | _, Some e => (s, Err e)
  | Some k, None =>
    if match Keys s !! KID k with Some r => Usable (rec_value r) at_ | None => false end
    then (s, Ok false)
    else (bump (putKey k s), Ok true)
  end.

Definition GetKey (kid : string) (s : State) : result StoreError Key :=
  match Keys s !! kid with
  | None => Err ErrNotFound
  | Some r => Ok (rec_value r)
  end.

(** The comparison [ListKeys] sorts by: creation time, then key identifier. *)
Definition key_le (a b : Key) : Prop :=
  (CreatedAt a < CreatedAt b)%Z ∨ (CreatedAt a = CreatedAt b ∧ String.le (KID a) (KID b)).

#[export] Instance key_le_dec : RelDecision key_le.
Proof. intros a b. unfold key_le. apply _. Defined.

Definition ListKeys_of (entries : list (string * KeyRecord)) (class : KeyClass) : list Key :=
  merge_sort key_le
    (omap (λ '(_, r), if negb (String.eqb class "") && negb (String.eqb (Class (rec_Key r)) class)
                      then None else Some (rec_value r)) entries).

Definition ListKeys (class : KeyClass) (s : State) : list Key := ListKeys_of (map_to_list (Keys s)) class.

(** The instant a mutation records: the caller's, or the clock's when zero. *)
Definition when_ (at_ now : Z) : Z := if IsZero at_ then now else at_.

Definition RevokeKey (kid reason : string) (at_ now : Z) (s : State) : State * result StoreError bool :=
  match Keys s !! kid with
  | None => (s, Err ErrNotFound)
  | Some r =>
    match RevokedAt (rec_Key r) with
    | Some _ => (s, Ok false)
    | None =>
      (bump (set_Keys (<[kid := set_rec_Key (set_Revoked (when_ at_ now) reason) r]> (Keys s)) s), Ok true)
    end
  end.

Definition ReplaceKey (fresh : option Key) (oldKID reason : string) (at_ now : Z) (s : State)
  : State * result StoreError bool :=
  match Keys s !! oldKID with
  | None => (s, Err ErrNotFound)
  | Some old =>
    match RevokedAt (rec_Key old) with
    | Some _ => (s, Err ErrRevoked)
    | None =>
      match PutKey fresh s with
      | (s1, Err e) => (s1, Err e)
      | (s1, Ok _) =>
        (set_Keys (<[oldKID := set_rec_Key (set_Revoked (when_ at_ now) reason) old]> (Keys s1)) s1, Ok true)
      end
    end
  end.

Definition DeleteKey (kid : string) (s : State) : State * result StoreError bool :=
  match Keys s !! kid with
  | None => (s, Err ErrNotFound)
  | Some _ => (bump (set_Keys (delete kid (Keys s)) s), Ok true)
  end.

Definition TouchKey (kid : string) (at_ now : Z) (s : State) : State * result StoreError bool :=
  match Keys s !! kid with
  | None => (s, Err ErrNotFound)
  | Some r =>
    (set_Keys (<[kid := set_rec_Key (set_LastUsed (when_ at_ now)) r]> (Keys s)) s, Ok true)
  end.

(** The grant after one more redemption. *)
Definition redeem (g : EnrollmentGrant) (certSerial : string) (when : Z) : EnrollmentGrant :=
  {| ClusterID := ClusterID g; grant_Labels := grant_Labels g; UsedAt := Some when;
     CertSerial := certSerial; Reusable := Reusable g;
     Redemptions := wrap_int64 (Redemptions g + 1); MaxRedemptions := MaxRedemptions g |}.

(** Whether the grant has been spent: a reusable one at its cap, a single-use
one as soon as it was used. *)
Definition grant_spent (g : EnrollmentGrant) : bool :=
  if Reusable g then (0 <? MaxRedemptions g)%Z && (MaxRedemptions g <=? Redemptions g)%Z
  else match UsedAt g with Some _ => true | None => false end.

Definition BurnEnrollment (kid certSerial : string) (at_ now : Z) (s : State)
  : State * result StoreError (Key * bool) :=
  if String.eqb certSerial "" then (s, Err ErrInvalid)
  else match Keys s !! kid with
  | None => (s, Err ErrNotFound)
  | Some r =>
    match Enrollment (rec_Key r) with
    | Some g =>
      if negb (String.eqb (Class (rec_Key r)) ClassEnrollment) then (s, Err ErrWrongClass)
      else if negb (Usable (rec_Key r) (when_ at_ now)) then (s, Err ErrNotUsable)
      else if grant_spent g then (s, Err ErrEnrollmentUsed)
      else
        let r' := set_rec_Key (set_Enrollment (redeem g certSerial (when_ at_ now))) r in
        (bump (set_Keys (<[kid := r']> (Keys s)) s), Ok (rec_value r', true))
    | None => (s, Err ErrWrongClass)
    end
  end.

(** * Revoked certificates *)

Definition set_rc_RevokedAt (t : Z) (rc : RevokedCert) : RevokedCert :=
  {| Serial := Serial rc; rc_RevokedAt := t; rc_NotAfter := rc_NotAfter rc; rc_Reason := rc_Reason rc |}.

Definition RevokeCert (rc : RevokedCert) (now : Z) (s : State) : State * result StoreError bool :=
  if String.eqb (Serial rc) "" then (s, Err ErrInvalid)
  else
    let rc := if IsZero (rc_RevokedAt rc) then set_rc_RevokedAt now rc else rc in
    (bump (set_RevokedCerts (<[Serial rc := rc]> (RevokedCerts s)) s), Ok true).

Definition cert_le (a b : RevokedCert) : Prop := String.le (Serial a) (Serial b).

#[export] Instance cert_le_dec : RelDecision cert_le.
Proof. intros a b. unfold cert_le. apply _. Defined.

Definition ListRevokedCerts (s : State) : list RevokedCert :=
  merge_sort cert_le (snd <$> map_to_list (RevokedCerts s)).

(** * Pruning *)

Record PruneResult := {
  pr_Keys : Z;
  pr_RevokedCerts : Z
}.

Definition PruneResult_Empty (p : PruneResult) : bool :=
  (pr_Keys p =? 0)%Z && (pr_RevokedCerts p =? 0)%Z.

(** Whether [labelAuthorities] considers a key at all. *)
Definition label_source (k : Key) : option EnrollmentGrant :=
  if negb (String.eqb (Class k) ClassEnrollment) || Revoked k then None else Enrollment k.

(** One round of the loop of [labelAuthorities]. *)
Definition label_step (newest : gmap string Key) (e : string * KeyRecord) : gmap string Key :=
  let k := rec_Key e.2 in
  match label_source k with
  | None => newest
  | Some g =>
    match newest !! ClusterID g with
    | None => <[ClusterID g := k]> newest
    | Some cur =>
      if After (CreatedAt k) (CreatedAt cur)
         || (Equal (CreatedAt k) (CreatedAt cur) && String.ltb (KID k) (KID cur))
      then <[ClusterID g := k]> newest
      else newest
    end
  end.

Definition labelAuthorities_of (entries : list (string * KeyRecord)) : gset string :=
  list_to_set ((λ e, KID e.2) <$> map_to_list (foldl label_step ∅ entries)).

Definition labelAuthorities (s : State) : gset string := labelAuthorities_of (map_to_list (Keys s)).

Definition keep_cert (now retain : Z) (serial : string) (rc : RevokedCert) : bool :=
  IsZero (rc_NotAfter rc) || negb (After now (Add (rc_NotAfter rc) retain)).

Definition keep_key (now retain : Z) (authority : gset string) (kid : string) (r : KeyRecord) : bool :=
  let exp := ExpiresAt (rec_Key r) in
  IsZero exp || negb (After now (Add exp retain)) || bool_decide (kid ∈ authority).

Definition Prune_of (certs : list (string * RevokedCert)) (keys : list (string * KeyRecord))
    (now retain : Z) (s : State) : State * result StoreError (PruneResult * bool) :=
  if (retain <? 0)%Z then (s, Err ErrInvalid)
  else
    let '(cm, cn) := prune_loop (keep_cert now retain) certs (RevokedCerts s) in
    let authority := labelAuthorities_of keys in
    let '(km, kn) := prune_loop (keep_key now retain authority) keys (Keys s) in
    let res := {| pr_Keys := kn; pr_RevokedCerts := cn |} in
    (set_Keys km (set_RevokedCerts cm s), Ok (res, negb (PruneResult_Empty res))).

Definition Prune (now retain : Z) (s : State) : State * result StoreError (PruneResult * bool) :=
  Prune_of (map_to_list (RevokedCerts s)) (map_to_list (Keys s)) now retain s.

(** * The mutations as one type *)

Inductive Mutation :=
| MPutKey (k : option Key)
| MPutKeyIfNoUsable (k : option Key) (at_ : Z)
| MReplaceKey (fresh : option Key) (oldKID reason : string) (at_ : Z)
| MRevokeKey (kid reason : string) (at_ : Z)
| MDeleteKey (kid : string)
| MTouchKey (kid : string) (at_ : Z)
| MBurnEnrollment (kid certSerial : string) (at_ : Z)
| MRevokeCert (rc : RevokedCert)
| MPrune (retain : Z).

(** What a backend's [mutate] runs: the document left behind, and whether it
changed or the error. [now] is the backend's clock. *)
Definition run_mutation (m : Mutation) (now : Z) (s : State) : State * result StoreError bool :=
  match m with
  | MPutKey k => PutKey k s
  | MPutKeyIfNoUsable k at_ => PutKeyIfNoUsable k (when_ at_ now) s
  | MReplaceKey fresh old reason at_ => ReplaceKey fresh old reason at_ now s
  | MRevokeKey kid reason at_ => RevokeKey kid reason at_ now s
  | MDeleteKey kid => DeleteKey kid s
  | MTouchKey kid at_ => TouchKey kid at_ now s
  | MBurnEnrollment kid serial at_ =>
    let '(s', r) := BurnEnrollment kid serial at_ now s in (s', snd <$> r)
  | MRevokeCert rc => RevokeCert rc now s
  | MPrune retain => let '(s', r) := Prune now retain s in (s', snd <$> r)
  end.

(** * Elementary facts *)

Lemma cloneKey_id k : cloneKey k = k.
Proof.
  destruct k as [?????[[?[][]?]|] [[]|] ?????]; reflexivity.
Qed.

Lemma rec_value_eq r : rec_value r = set_SecretHMAC (rec_SecretHMAC r) (rec_Key r).
Proof. unfold rec_value. by rewrite cloneKey_id. Qed.

#[export] Instance key_le_trans : Transitive key_le.
Proof.
  intros a b c [H1|[H1 H1']] [H2|[H2 H2']]; unfold key_le; [left; lia..|].
  right. split; [lia|]. by etrans.
Qed.

#[export] Instance key_le_total : Total key_le.
Proof.
  intros a b. unfold key_le.
  destruct (Z.lt_trichotomy (CreatedAt a) (CreatedAt b)) as [?|[->|?]]; [by left; left| |by right; left].
  destruct (total String.le (KID a) (KID b)); [left|right]; by right.
Qed.

#[export] Instance cert_le_trans : Transitive cert_le.
Proof. intros a b c. unfold cert_le. apply (transitivity (R := String.le)). Qed.

#[export] Instance cert_le_total : Total cert_le.
Proof. intros a b. unfold cert_le. apply (total String.le). Qed.

(** * The invariant of the document *)

(** A stored record is filed under its own identifier, has a known class and
carries its digest in the record's field only. *)
Record record_ok (kid : string) (r : KeyRecord) : Prop := {
  ok_kid : KID (rec_Key r) = kid;
  ok_nonempty : kid ≠ "";
  ok_class : KeyClass_Valid (Class (rec_Key r)) = true;
  ok_digest : SecretHMAC (rec_Key r) = [];
  ok_version : rec_V r = SchemaVersion
}.

Definition cert_ok (serial : string) (rc : RevokedCert) : Prop := Serial rc = serial ∧ serial ≠ "".

Record state_ok (s : State) : Prop := {
  ok_Keys : map_Forall record_ok (Keys s);
  ok_RevokedCerts : map_Forall cert_ok (RevokedCerts s);
  ok_Epoch : (0 ≤ Epoch s < 2 ^ 64)%Z;
  ok_Schema : st_SchemaVersion s = SchemaVersion
}.

(** Case analysis of a mutation along the guards of its body. *)
Ltac mutation_cases :=
  repeat (case_match; simplify_eq/=); try done.

Lemma set_rec_Key_ok kid r f :
  record_ok kid r →
  (KID (f (rec_Key r)) = KID (rec_Key r)) → (Class (f (rec_Key r)) = Class (rec_Key r)) →
  (SecretHMAC (f (rec_Key r)) = SecretHMAC (rec_Key r)) →
  record_ok kid (set_rec_Key f r).
Proof. intros [] H1 H2 H3. constructor; simpl; congruence. Qed.

Lemma bump_ok s : state_ok s → state_ok (bump s).
Proof.
  intros []. constructor; simpl; try done. unfold wrap_uint64. apply Z.mod_pos_bound. lia.
Qed.

Lemma insert_Keys_ok s kid r :
  state_ok s → record_ok kid r → state_ok (set_Keys (<[kid := r]> (Keys s)) s).
Proof. intros [] ?. constructor; simpl; try done. by apply map_Forall_insert_2. Qed.

Lemma validateKey_None k :
  validateKey (Some k) = None ↔ KID k ≠ "" ∧ KeyClass_Valid (Class k) = true.
Proof.
  unfold validateKey. destruct (String.eqb_spec (KID k) ""), (KeyClass_Valid (Class k)); naive_solver.
Qed.

Lemma putKey_ok s k : state_ok s → validateKey (Some k) = None → state_ok (putKey k s).
Proof.
  intros Hs [Hkid Hclass]%validateKey_None. apply insert_Keys_ok; [done|].
  constructor; simpl; rewrite ?cloneKey_id; done.
Qed.

Lemma lookup_record_ok s kid r : state_ok s → Keys s !! kid = Some r → record_ok kid r.
Proof. intros [Hk _ _ _]. apply Hk. Qed.

#[export] Hint Resolve bump_ok insert_Keys_ok putKey_ok lookup_record_ok set_rec_Key_ok : store.

Lemma Prune_eq now retain s :
  (0 ≤ retain)%Z →
  ∃ res, Prune now retain s
  = (set_Keys (filter (λ e, keep_key now retain (labelAuthorities s) e.1 e.2 = true) (Keys s))
      (set_RevokedCerts (filter (λ e, keep_cert now retain e.1 e.2 = true) (RevokedCerts s)) s),
     Ok (res, negb (PruneResult_Empty res)))
  ∧ pr_Keys res = Z.of_nat (length (filter (λ e, keep_key now retain (labelAuthorities s) e.1 e.2 = false)
                                      (map_to_list (Keys s))))
  ∧ pr_RevokedCerts res = Z.of_nat (length (filter (λ e, keep_cert now retain e.1 e.2 = false)
                                      (map_to_list (RevokedCerts s)))).
Proof.
  intros Hr. unfold Prune, Prune_of. rewrite (proj2 (Z.ltb_ge _ _)) by done.
  rewrite !prune_loop_spec by done. by eexists.
Qed.

Lemma filter_none_dropped {A} (keep : string → A → bool) (m : gmap string A) :
  length (filter (λ e, keep e.1 e.2 = false) (map_to_list m)) = 0 →
  filter (λ e, keep e.1 e.2 = true) m = m.
Proof.
  intros Hlen%length_zero_iff_nil. apply map_filter_id. intros k a Hk. simpl.
  destruct (keep k a) eqn:Hkeep; [done|].
  assert ((k, a) ∈ filter (λ e, keep e.1 e.2 = false) (map_to_list m)) as Hin.
  { apply list_elem_of_filter. split; [done|]. by apply elem_of_map_to_list. }
  rewrite Hlen in Hin. by apply elem_of_nil in Hin.
Qed.

Lemma set_Keys_id s : set_Keys (Keys s) (set_RevokedCerts (RevokedCerts s) s) = s.
Proof. by destruct s. Qed.

Lemma Prune_unchanged now retain s s' res :
  Prune now retain s = (s', Ok (res, false)) → s' = s.
Proof.
  destruct (decide (0 ≤ retain)%Z) as [Hr|Hr].
  - destruct (Prune_eq now retain s Hr) as (res' & -> & Hk & Hc). intros [= <- <- He].
    unfold PruneResult_Empty in He. apply negb_false_iff, andb_true_iff in He as [Hk0 Hc0].
    rewrite !filter_none_dropped by lia. apply set_Keys_id.
  - unfold Prune, Prune_of. rewrite (proj2 (Z.ltb_lt _ _)) by lia. done.
Qed.

Lemma Prune_Err now retain s s' e : Prune now retain s = (s', Err e) → s' = s.
Proof.
  unfold Prune, Prune_of. destruct (retain <? 0)%Z; [naive_solver|].
  destruct (prune_loop _ _ _), (prune_loop _ _ _). naive_solver.
Qed.

Lemma Prune_ok now retain s s' r : Prune now retain s = (s', r) → state_ok s → state_ok s'.
Proof.
  destruct (decide (0 ≤ retain)%Z) as [Hr|Hr].
  - destruct (Prune_eq now retain s Hr) as (res' & -> & _). intros [= <- <-] [].
    constructor; simpl; try done; intros ?? [? _]%map_lookup_filter_Some; eauto.
  - unfold Prune, Prune_of. rewrite (proj2 (Z.ltb_lt _ _)) by lia. naive_solver.
Qed.

(** ** Preservation *)

Lemma BurnEnrollment_inv kid serial at_ now s s' k b :
  BurnEnrollment kid serial at_ now s = (s', Ok (k, b)) →
  ∃ r g, Keys s !! kid = Some r ∧ Enrollment (rec_Key r) = Some g
    ∧ serial ≠ "" ∧ Class (rec_Key r) = ClassEnrollment
    ∧ Usable (rec_Key r) (when_ at_ now) = true ∧ grant_spent g = false ∧ b = true
    ∧ let r' := set_rec_Key (set_Enrollment (redeem g serial (when_ at_ now))) r in
      k = rec_value r' ∧ s' = bump (set_Keys (<[kid := r']> (Keys s)) s).
Proof.
  unfold BurnEnrollment. destruct (String.eqb_spec serial ""); [done|].
  destruct (Keys s !! kid) as [r|] eqn:Hr; [|done].
  destruct (Enrollment (rec_Key r)) as [g|] eqn:Hg; [|done].
  destruct (String.eqb_spec (Class (rec_Key r)) ClassEnrollment); [|done].
  destruct (Usable (rec_Key r) (when_ at_ now)) eqn:Hu; [|done].
  destruct (grant_spent g) eqn:Hsp; [done|].
  cbn [negb]. intros [= <- <- <-]. exists r, g. done.
Qed.

Lemma BurnEnrollment_Err kid serial at_ now s s' e :
  BurnEnrollment kid serial at_ now s = (s', Err e) → s' = s.
Proof. unfold BurnEnrollment. intros. mutation_cases. Qed.

Lemma run_mutation_Err m now s s' e : run_mutation m now s = (s', Err e) → s' = s.
Proof.
  destruct m; cbn [run_mutation]; intros H.
  all: try (unfold PutKey, PutKeyIfNoUsable, ReplaceKey, RevokeKey, DeleteKey, TouchKey, RevokeCert in H;
            mutation_cases; fail).
  - unfold ReplaceKey, PutKey in H. mutation_cases.
  - destruct (BurnEnrollment _ _ _ _ _) as [s1 [[]|]] eqn:Hb; simplify_eq/=.
    by eapply BurnEnrollment_Err.
  - destruct (Prune _ _ _) as [s1 [[]|]] eqn:Hb; simplify_eq/=. by eapply Prune_Err.
Qed.

Lemma PutKey_Ok k s s' b :
  PutKey k s = (s', Ok b) →
  ∃ k', k = Some k' ∧ validateKey (Some k') = None ∧ Keys s !! KID k' = None
        ∧ b = true ∧ s' = bump (putKey k' s).
Proof.
  unfold PutKey. destruct k as [k'|]; [|done].
  destruct (validateKey (Some k')) eqn:Hv; [done|].
  destruct (Keys s !! KID k') eqn:Hk; [done|]. intros [= <- <-]. by exists k'.
Qed.

Lemma ReplaceKey_Ok fresh oldKID reason at_ now s s' b :
  ReplaceKey fresh oldKID reason at_ now s = (s', Ok b) →
  ∃ k old, fresh = Some k ∧ validateKey (Some k) = None ∧ Keys s !! KID k = None
    ∧ Keys s !! oldKID = Some old ∧ RevokedAt (rec_Key old) = None ∧ b = true
    ∧ s' = set_Keys (<[oldKID := set_rec_Key (set_Revoked (when_ at_ now) reason) old]>
                      (Keys (bump (putKey k s)))) (bump (putKey k s)).
Proof.
  unfold ReplaceKey. destruct (Keys s !! oldKID) as [old|] eqn:Ho; [|done].
  destruct (RevokedAt (rec_Key old)) eqn:Hr; [done|].
  destruct (PutKey fresh s) as [s1 [b1|e1]] eqn:Hp; [|done].
  apply PutKey_Ok in Hp as (k & -> & Hv & Hk & -> & ->). intros [= <- <-]. by exists k, old.
Qed.

Lemma PutKeyIfNoUsable_Ok k at_ s s' b :
  PutKeyIfNoUsable k at_ s = (s', Ok b) →
  ∃ k', k = Some k' ∧ validateKey (Some k') = None
    ∧ ((b = false ∧ s' = s ∧ ∃ r, Keys s !! KID k' = Some r ∧ Usable (rec_value r) at_ = true)
       ∨ (b = true ∧ s' = bump (putKey k' s)
          ∧ ∀ r, Keys s !! KID k' = Some r → Usable (rec_value r) at_ = false)).
Proof.
  unfold PutKeyIfNoUsable. destruct k as [k'|]; [|done].
  destruct (validateKey (Some k')) eqn:Hv; [done|].
  destruct (Keys s !! KID k') as [r|] eqn:Hk; [destruct (Usable (rec_value r) at_) eqn:Hu|];
    intros [= <- <-]; exists k'; naive_solver.
Qed.

Lemma RevokeKey_Ok kid reason at_ now s s' b :
  RevokeKey kid reason at_ now s = (s', Ok b) →
  ∃ r, Keys s !! kid = Some r
    ∧ ((b = false ∧ s' = s ∧ RevokedAt (rec_Key r) ≠ None)
       ∨ (b = true ∧ RevokedAt (rec_Key r) = None
          ∧ s' = bump (set_Keys (<[kid := set_rec_Key (set_Revoked (when_ at_ now) reason) r]> (Keys s)) s))).
Proof.
  unfold RevokeKey. destruct (Keys s !! kid) as [r|]; [|done].
  destruct (RevokedAt (rec_Key r)) eqn:Hr; intros [= <- <-]; exists r; naive_solver.
Qed.

Lemma DeleteKey_Ok kid s s' b :
  DeleteKey kid s = (s', Ok b) →
  is_Some (Keys s !! kid) ∧ b = true ∧ s' = bump (set_Keys (delete kid (Keys s)) s).
Proof. unfold DeleteKey. destruct (Keys s !! kid) as [r|]; [|done]. by intros [= <- <-]. Qed.

Lemma TouchKey_Ok kid at_ now s s' b :
  TouchKey kid at_ now s = (s', Ok b) →
  ∃ r, Keys s !! kid = Some r ∧ b = true
    ∧ s' = set_Keys (<[kid := set_rec_Key (set_LastUsed (when_ at_ now)) r]> (Keys s)) s.
Proof.
  unfold TouchKey. destruct (Keys s !! kid) as [r|]; [|done]. intros [= <- <-]. by exists r.
Qed.

Lemma RevokeCert_Ok rc now s s' b :
  RevokeCert rc now s = (s', Ok b) →
  Serial rc ≠ "" ∧ b = true
  ∧ ∃ t, s' = bump (set_RevokedCerts (<[Serial rc := set_rc_RevokedAt t rc]> (RevokedCerts s)) s).
Proof.
  unfold RevokeCert. destruct (String.eqb_spec (Serial rc) "") as [|Hne]; [done|].
  intros [= <- <-]. split; [done|]. split; [done|].
  destruct (IsZero (rc_RevokedAt rc)); [by exists now|].
  exists (rc_RevokedAt rc). by destruct rc.
Qed.

Lemma run_mutation_ok m now s s' r : run_mutation m now s = (s', r) → state_ok s → state_ok s'.
Proof.
  destruct r as [b|e]; [|by intros ->%run_mutation_Err].
  destruct m; cbn [run_mutation]; intros H Hs.
  - apply PutKey_Ok in H as (k' & -> & ? & ? & -> & ->). auto with store.
  - apply PutKeyIfNoUsable_Ok in H as (k' & -> & ? & [(-> & -> & _)|(-> & -> & _)]); auto with store.
  - apply ReplaceKey_Ok in H as (k' & old & -> & ? & ? & Ho & ? & -> & ->).
    apply insert_Keys_ok; [auto with store|]. eapply set_rec_Key_ok; eauto with store.
  - apply RevokeKey_Ok in H as (r & ? & [(-> & -> & _)|(-> & ? & ->)]); [done|].
    eapply bump_ok, insert_Keys_ok; [done|]. eapply set_rec_Key_ok; eauto with store.
  - apply DeleteKey_Ok in H as (? & -> & ->). apply bump_ok. destruct Hs.
    constructor; simpl; try done. by apply map_Forall_delete.
  - apply TouchKey_Ok in H as (r & ? & -> & ->). apply insert_Keys_ok; [done|].
    eapply set_rec_Key_ok; eauto with store.
  - destruct (BurnEnrollment _ _ _ _ _) as [s1 [[]|]] eqn:Hb; simplify_eq/=.
    apply BurnEnrollment_inv in Hb as (r & g & ? & ? & ? & ? & ? & ? & ? & ? & ->).
    eapply bump_ok, insert_Keys_ok; [done|]. eapply set_rec_Key_ok; eauto with store.
  - apply RevokeCert_Ok in H as (? & -> & t & ->). apply bump_ok. destruct Hs.
    constructor; simpl; try done. by apply map_Forall_insert_2.
  - destruct (Prune _ _ _) as [s1 ?] eqn:Hb; simplify_eq/=. by eapply Prune_ok.
Qed.

(** The documents a backend can hold. *)
Inductive store_step : State → State → Prop :=
| store_step_run m now s s' r : run_mutation m now s = (s', r) → store_step s s'.

Definition store_reachable (s : State) : Prop := rtc store_step NewState s.

Lemma NewState_ok : state_ok NewState.
Proof. constructor; simpl; [apply map_Forall_empty..| lia | done]. Qed.

(** Every document reachable from the empty one by any sequence of
mutations is well formed: each record is filed under its own non-empty
identifier, has a known class, keeps its digest outside the embedded key,
each revocation entry is filed under its own serial, and the epoch is a
64-bit counter. *)
Theorem reachable_state_ok (s : State) : store_reachable s → state_ok s.
Proof.
  revert s. apply (rtc_ind_r state_ok); [apply NewState_ok|].
  intros s s' _ [m now ? ? r Hm] Hs. by eapply run_mutation_ok.
Qed.

(** Mutations whose success moves the revocation epoch. *)
Definition bumps (m : Mutation) : bool :=
  match m with MTouchKey _ _ | MPrune _ => false | _ => true end.

Lemma epoch_step m now s s' r :
  run_mutation m now s = (s', r) →
  match r with
  | Ok true => Epoch s' = if bumps m then wrap_uint64 (Epoch s + 1) else Epoch s
  | Ok false | Err _ => s' = s
  end.
Proof.
  destruct r as [b|e]; [|by intros ->%run_mutation_Err].
  destruct m; cbn [run_mutation bumps]; intros H.
  - by apply PutKey_Ok in H as (k' & -> & ? & ? & -> & ->).
  - by apply PutKeyIfNoUsable_Ok in H as (k' & -> & ? & [(-> & -> & _)|(-> & -> & _)]).
  - by apply ReplaceKey_Ok in H as (k' & old & -> & ? & ? & Ho & ? & -> & ->).
  - by apply RevokeKey_Ok in H as (r & ? & [(-> & -> & _)|(-> & ? & ->)]).
  - by apply DeleteKey_Ok in H as (? & -> & ->).
  - by apply TouchKey_Ok in H as (r & ? & -> & ->).
  - destruct (BurnEnrollment _ _ _ _ _) as [s1 [[]|]] eqn:Hb; simplify_eq/=.
    by apply BurnEnrollment_inv in Hb as (r & g & ? & ? & ? & ? & ? & ? & -> & ? & ->).
  - by apply RevokeCert_Ok in H as (? & -> & t & ->).
  - destruct (Prune _ _ _) as [s1 [[res ch]|]] eqn:Hb; simplify_eq/=.
    destruct (decide (0 ≤ retain)%Z) as [Hr|Hr].
    + destruct b; [|by eapply Prune_unchanged].
      destruct (Prune_eq now retain s Hr) as (res' & Heq & _). rewrite Heq in Hb. by simplify_eq.
    + unfold Prune, Prune_of in Hb. rewrite (proj2 (Z.ltb_lt _ _)) in Hb by lia. done.
Qed.

Lemma epoch_unchanged m now s s' : run_mutation m now s = (s', Ok false) → s' = s.
Proof. exact (epoch_step m now s s' (Ok false)). Qed.

(** The epoch discipline.  A mutation that fails or reports no change
leaves the document untouched; one that changes it advances the epoch by one,
except recording a use and pruning, which leave the epoch where it was. *)
Theorem epoch_discipline (m : Mutation) (now : Z) (s s' : State) (r : result StoreError bool) :
  run_mutation m now s = (s', r) →
  match r with
  | Ok true => Epoch s' = if bumps m then wrap_uint64 (Epoch s + 1) else Epoch s
  | Ok false | Err _ => s' = s
  end.
Proof. apply epoch_step. Qed.

(** * Redemptions of an enrollment grant *)

Definition grant_at (kid : string) (s : State) : option EnrollmentGrant :=
  r ← Keys s !! kid; Enrollment (rec_Key r).

(** Whether a mutation may file a new record under [kid]. *)
Definition stores (kid : string) (m : Mutation) : bool :=
  match m with
  | MPutKey (Some k) | MPutKeyIfNoUsable (Some k) _ | MReplaceKey (Some k) _ _ _ => String.eqb (KID k) kid
  | _ => false
  end.

Definition burns (kid : string) (m : Mutation) : bool :=
  match m with MBurnEnrollment k _ _ => String.eqb k kid | _ => false end.

(** A history of mutations, each with the clock reading it ran at. *)
Fixpoint run_history (h : list (Mutation * Z)) (s : State) : State :=
  match h with
  | [] => s
  | (m, now) :: h => run_history h (run_mutation m now s).1
  end.

(** How many redemptions of [kid] a history granted. *)
Fixpoint burn_count (kid : string) (h : list (Mutation * Z)) (s : State) : nat :=
  match h with
  | [] => 0
  | (m, now) :: h =>
    let '(s', r) := run_mutation m now s in
    (if burns kid m && is_ok r then 1 else 0) + burn_count kid h s'
  end.

(** How often a grant may still be redeemed; [None] when it has no cap. *)
Definition grant_budget (g : EnrollmentGrant) : option Z :=
  if Reusable g then
    if (0 <? MaxRedemptions g)%Z then Some (Z.max 0 (MaxRedemptions g - Redemptions g)) else None
  else Some (match UsedAt g with Some _ => 0 | None => 1 end)%Z.

Definition budget_at (kid : string) (s : State) : option Z :=
  match grant_at kid s with None => Some 0%Z | Some g => grant_budget g end.

Definition grant_ints_ok (g : EnrollmentGrant) : Prop :=
  int64_range (Redemptions g) ∧ int64_range (MaxRedemptions g).

Lemma redeem_budget g serial when b :
  grant_ints_ok g → grant_spent g = false → grant_budget g = Some b →
  (0 < b)%Z ∧ grant_budget (redeem g serial when) = Some (b - 1)%Z
  ∧ grant_ints_ok (redeem g serial when).
Proof.
  unfold grant_spent, grant_budget, grant_ints_ok, redeem. simpl. intros [HR HM] Hsp Hb.
  destruct (Reusable g).
  - destruct (Z.ltb_spec 0 (MaxRedemptions g)); [|done]. simpl in Hsp.
    apply Z.leb_gt in Hsp. simplify_eq.
    assert (int64_range (Redemptions g + 1)) by (unfold int64_range, min_int64, max_int64 in *; lia).
    rewrite wrap_int64_id by done. split_and!; [lia| f_equal; lia |done..].
  - destruct (UsedAt g); simplify_eq. split_and!; [lia|done|apply wrap_int64_range|done].
Qed.

Lemma grant_at_insert_eq kid r s :
  grant_at kid (set_Keys (<[kid := r]> (Keys s)) s) = Enrollment (rec_Key r).
Proof. unfold grant_at. simpl. by rewrite lookup_insert_eq. Qed.

Lemma grant_at_insert_ne kid kid' r s :
  kid' ≠ kid → grant_at kid (set_Keys (<[kid' := r]> (Keys s)) s) = grant_at kid s.
Proof. intros. unfold grant_at. simpl. by rewrite lookup_insert_ne. Qed.

Lemma grant_at_update kid kid' f r s :
  Keys s !! kid' = Some r → Enrollment (f (rec_Key r)) = Enrollment (rec_Key r) →
  grant_at kid (set_Keys (<[kid' := set_rec_Key f r]> (Keys s)) s) = grant_at kid s.
Proof.
  intros Hr Hf. destruct (decide (kid' = kid)) as [->|]; [|by apply grant_at_insert_ne].
  rewrite grant_at_insert_eq. unfold grant_at. by rewrite Hr.
Qed.

(** A mutation that neither stores nor redeems [kid] keeps its grant or drops
the whole record. *)
Lemma grant_frame kid m now s s' r :
  run_mutation m now s = (s', r) → stores kid m = false → burns kid m = false →
  grant_at kid s' = grant_at kid s ∨ grant_at kid s' = None.
Proof.
  destruct r as [b|e]; [|intros ->%run_mutation_Err; by left].
  destruct m; cbn [run_mutation stores burns]; intros H Hst Hbn.
  - apply PutKey_Ok in H as (k' & -> & ? & ? & -> & ->). apply String.eqb_neq in Hst.
    left. by apply (grant_at_insert_ne kid).
  - apply PutKeyIfNoUsable_Ok in H as (k' & -> & ? & [(-> & -> & _)|(-> & -> & _)]); [by left|].
    apply String.eqb_neq in Hst. left. by apply (grant_at_insert_ne kid).
  - apply ReplaceKey_Ok in H as (k' & old & -> & ? & ? & Ho & ? & -> & ->).
    apply String.eqb_neq in Hst. left. rewrite grant_at_update; [|simpl|done].
    + by apply (grant_at_insert_ne kid).
    + rewrite lookup_insert_ne; [done|]. naive_solver.
  - apply RevokeKey_Ok in H as (r & ? & [(-> & -> & _)|(-> & ? & ->)]); [by left|].
    left. by apply (grant_at_update kid).
  - apply DeleteKey_Ok in H as (? & -> & ->). unfold grant_at; simpl.
    destruct (decide (kid0 = kid)) as [->|]; [right; by rewrite lookup_delete_eq|].
    left. by rewrite lookup_delete_ne.
  - apply TouchKey_Ok in H as (r & ? & -> & ->). left. by apply grant_at_update.
  - destruct (BurnEnrollment _ _ _ _ _) as [s1 [[]|]] eqn:Hb; simplify_eq/=.
    apply BurnEnrollment_inv in Hb as (r & g & ? & ? & ? & ? & ? & ? & ? & ? & ->).
    apply String.eqb_neq in Hbn. left. by apply (grant_at_insert_ne kid).
  - apply RevokeCert_Ok in H as (? & -> & t & ->). by left.
  - destruct (Prune _ _ _) as [s1 [[res ch]|]] eqn:Hb; simplify_eq/=.
    destruct (decide (0 ≤ retain)%Z) as [Hr|Hr].
    + destruct (Prune_eq now retain s Hr) as (res' & Heq & _). rewrite Heq in Hb. simplify_eq.
      unfold grant_at. simpl. rewrite map_lookup_filter.
      destruct (Keys s !! kid) as [r|]; [|by left]. simpl. case_guard; [by left|by right].
    + unfold Prune, Prune_of in Hb. rewrite (proj2 (Z.ltb_lt _ _)) in Hb by lia. done.
Qed.

Lemma burn_budget kid serial at_ now s s' k :
  BurnEnrollment kid serial at_ now s = (s', Ok k) →
  ∃ g, grant_at kid s = Some g ∧ grant_spent g = false
       ∧ grant_at kid s' = Some (redeem g serial (when_ at_ now)).
Proof.
  destruct k as [k b]. intros (r & g & Hr & Hg & _ & _ & _ & Hsp & _ & _ & ->)%BurnEnrollment_inv.
  exists g. split; [|split; [done|]]; [|by unfold grant_at; simpl; rewrite lookup_insert_eq].
  unfold grant_at. by rewrite Hr.
Qed.

Lemma budget_absent kid s : grant_at kid s = None → budget_at kid s = Some 0%Z.
Proof. unfold budget_at. by intros ->. Qed.

Lemma burn_count_bound kid h s b :
  Forall (λ e, stores kid e.1 = false) h →
  (∀ g, grant_at kid s = Some g → grant_ints_ok g) →
  budget_at kid s = Some b → (Z.of_nat (burn_count kid h s) ≤ b)%Z.
Proof.
  revert s b. induction h as [|[m now] h IH]; intros s b Hst Hint Hb; cbn [burn_count].
  { unfold budget_at, grant_budget in Hb. repeat case_match; simplify_eq; lia. }
  apply Forall_cons in Hst as [Hm Hst]. simpl in Hm.
  destruct (run_mutation m now s) as [s' r] eqn:Hrun.
  destruct (burns kid m) eqn:Hbn; cbn [andb].
  - destruct m; try done. simpl in Hbn. apply String.eqb_eq in Hbn as ->. cbn [run_mutation] in Hrun.
    destruct (BurnEnrollment kid certSerial at_ now s) as [s1 [k|e]] eqn:Hburn; simplify_eq/=.
    + apply burn_budget in Hburn as (g & Hg & Hsp & Hg'). unfold budget_at in Hb. rewrite Hg in Hb.
      destruct (redeem_budget g certSerial (when_ at_ now) b) as (Hpos & Hb' & Hint'); auto.
      assert (budget_at kid s' = Some (b - 1)%Z) by (unfold budget_at; by rewrite Hg').
      enough (Z.of_nat (burn_count kid h s') ≤ b - 1)%Z by lia.
      apply IH; [done| |done]. intros g' ?. by simplify_eq.
    + apply BurnEnrollment_Err in Hburn as ->. simpl. by apply IH.
  - simpl. destruct (grant_frame kid m now s s' r) as [Hg|Hg]; [done..| |].
    + apply IH; [done|by rewrite Hg|]. unfold budget_at in *. by rewrite Hg.
    + transitivity 0%Z; [apply IH; [done|by rewrite Hg|by apply budget_absent]|].
      unfold budget_at, grant_budget in Hb. repeat case_match; simplify_eq; lia.
Qed.

(** Redemptions are bounded by the grant.  In any history of mutations that
files no new record under an enrollment token's identifier, the token is
redeemed at most as often as its grant still allows at the start: a single-use
token at most once and not at all once used, a capped reusable one at most the
remainder of its cap. *)
Theorem redemptions_within_budget (kid : string) (h : list (Mutation * Z)) (s : State)
    (g : EnrollmentGrant) (b : Z) :
  Forall (λ e, stores kid e.1 = false) h →
  grant_at kid s = Some g → int64_range (Redemptions g) → int64_range (MaxRedemptions g) →
  grant_budget g = Some b →
  (Z.of_nat (burn_count kid h s) ≤ b)%Z.
Proof.
  intros Hst Hg HR HM Hb. apply burn_count_bound; [done| |].
  - intros g' ?. by simplify_eq.
  - unfold budget_at. by rewrite Hg.
Qed.

(** What a redemption requires and does.  Redeeming succeeds exactly when
the serial is given, the record exists, is an enrollment token with a grant,
is neither revoked nor expired at the recorded instant and is not spent; it
then returns the stored key, marks the grant used for that certificate and
counts one more redemption. *)
Theorem BurnEnrollment_correct (kid serial : string) (at_ now : Z) (s s' : State) (k : Key) (b : bool) :
  BurnEnrollment kid serial at_ now s = (s', Ok (k, b))
  ↔ serial ≠ "" ∧ b = true
    ∧ ∃ r g, Keys s !! kid = Some r ∧ Enrollment (rec_Key r) = Some g
      ∧ Class (rec_Key r) = ClassEnrollment
      ∧ Usable (rec_Key r) (when_ at_ now) = true ∧ grant_spent g = false
      ∧ let r' := set_rec_Key (set_Enrollment (redeem g serial (when_ at_ now))) r in
        k = rec_value r' ∧ s' = bump (set_Keys (<[kid := r']> (Keys s)) s).
Proof.
  split.
  - intros (r & g & ?)%BurnEnrollment_inv. naive_solver.
  - intros (Hser & -> & r & g & Hr & Hg & Hc & Hu & Hsp & -> & ->). unfold BurnEnrollment.
    apply String.eqb_neq in Hser. by rewrite Hser, Hr, Hg, Hc, Hu, Hsp.
Qed.

(** * Which records decide a cluster's labels *)

(** [k] is preferred to [k'] as the current operator intent. *)
Definition label_better (k k' : Key) : Prop :=
  (CreatedAt k' < CreatedAt k)%Z ∨ (CreatedAt k = CreatedAt k' ∧ ¬ String.le (KID k') (KID k)).

(** [k] speaks for cluster [c] among the given entries. *)
Definition label_candidate (entries : list (string * KeyRecord)) (c : string) (k : Key) : Prop :=
  ∃ kid r g, (kid, r) ∈ entries ∧ rec_Key r = k ∧ label_source k = Some g ∧ ClusterID g = c.

Definition label_best (entries : list (string * KeyRecord)) (c : string) (k : Key) : Prop :=
  label_candidate entries c k ∧ ∀ k', label_candidate entries c k' → ¬ label_better k' k.

Lemma label_better_trans a b c : label_better a b → label_better b c → label_better a c.
Proof.
  intros [H1|[H1 H1']] [H2|[H2 H2']]; unfold label_better; [left; lia..|]. right. split; [lia|].
  intros Hca. apply H1'. transitivity (KID c); [|done].
  destruct (total String.le (KID b) (KID c)); [done|]. by destruct H2'.
Qed.

Lemma label_step_better newest e cur g :
  label_source (rec_Key e.2) = Some g → newest !! ClusterID g = Some cur →
  (label_better (rec_Key e.2) cur ∧ label_step newest e = <[ClusterID g := rec_Key e.2]> newest)
  ∨ (¬ label_better (rec_Key e.2) cur ∧ label_step newest e = newest).
Proof.
  intros Hsrc Hcur. unfold label_step. rewrite Hsrc, Hcur.
  destruct (After _ _ || _) eqn:Hb; [left|right]; (split; [|done]).
  - apply orb_true_iff in Hb as [Hb|Hb]; [left; by apply Z.ltb_lt|].
    apply andb_true_iff in Hb as [He Hl]. right. split; [by apply Z.eqb_eq|by apply string_ltb_spec].
  - apply orb_false_iff in Hb as [Ha Hb]. unfold After, Equal in *. intros [H1|[H1 H2]]; [lia|].
    rewrite (proj2 (Z.eqb_eq _ _) H1) in Hb. by rewrite (proj2 (string_ltb_spec _ _) H2) in Hb.
Qed.

Lemma label_candidate_snoc entries e c k :
  label_candidate (entries ++ [e]) c k
  ↔ label_candidate entries c k
    ∨ (k = rec_Key e.2 ∧ ∃ g, label_source k = Some g ∧ ClusterID g = c).
Proof.
  unfold label_candidate. setoid_rewrite elem_of_app. setoid_rewrite list_elem_of_singleton. split.
  - intros (kid & r & g & [?|<-] & <- & ? & ?); [left; by exists kid, r, g|right; eauto].
  - intros [(kid & r & g & ? & ? & ? & ?)|(-> & g & ? & ?)]; [naive_solver|].
    exists e.1, e.2, g. split_and!; [right; by destruct e|done..].
Qed.

(** What the loop holds for a cluster after some entries: a best candidate, or
nothing when the cluster has none. *)
Definition label_inv (entries : list (string * KeyRecord)) (c : string) (o : option Key) : Prop :=
  match o with
  | Some k => label_best entries c k
  | None => ∀ k, ¬ label_candidate entries c k
  end.

Lemma label_inv_skip entries e c o :
  label_inv entries c o → (∀ g, label_source (rec_Key e.2) = Some g → ClusterID g ≠ c) →
  label_inv (entries ++ [e]) c o.
Proof.
  intros Hinv Hskip.
  assert (∀ k, label_candidate (entries ++ [e]) c k ↔ label_candidate entries c k) as Heq.
  { intros k. rewrite label_candidate_snoc. split; [|by left]. intros [?|(-> & g & ? & ?)]; [done|].
    naive_solver. }
  destruct o as [k|]; simpl in *; [destruct Hinv as [? Hbest]; split; [by apply Heq|]|].
  - intros k' Hk'%Heq. auto.
  - intros k' Hk'%Heq. by eapply Hinv.
Qed.

Lemma label_inv_take entries e g :
  label_source (rec_Key e.2) = Some g →
  (∀ k', label_candidate entries (ClusterID g) k' → ¬ label_better k' (rec_Key e.2)) →
  label_inv (entries ++ [e]) (ClusterID g) (Some (rec_Key e.2)).
Proof.
  intros Hsrc Hbest. split; [apply label_candidate_snoc; right; eauto|].
  intros k' [?|(-> & _)]%label_candidate_snoc; [auto|]. intros [?|[_ Hx]]; [lia|]. by apply Hx.
Qed.

Lemma label_fold_spec entries c : label_inv entries c (foldl label_step ∅ entries !! c).
Proof.
  induction entries as [|e entries IH] using rev_ind.
  { cbn [foldl]. rewrite lookup_empty. by intros k (? & ? & ? & ?%elem_of_nil & _). }
  rewrite foldl_app. cbn [foldl]. set (newest := foldl label_step ∅ entries) in *.
  destruct (label_source (rec_Key e.2)) as [g|] eqn:Hsrc.
  2:{ assert (label_step newest e = newest) as -> by (unfold label_step; by rewrite Hsrc).
      by apply (label_inv_skip _ _ _ _ IH); rewrite Hsrc. }
  destruct (decide (ClusterID g = c)) as [<-|Hne].
  2:{ assert (label_step newest e !! c = newest !! c) as ->.
      { unfold label_step. rewrite Hsrc. repeat case_match; by rewrite ?lookup_insert_ne. }
      apply (label_inv_skip _ _ _ _ IH). rewrite Hsrc. by intros g' [= <-]. }
  destruct (newest !! ClusterID g) as [cur|] eqn:Hcur.
  - destruct IH as [Hcand Hbest]. destruct (label_step_better _ _ _ _ Hsrc Hcur) as [[Hb ->]|[Hb ->]].
    + rewrite lookup_insert_eq. apply label_inv_take; [done|]. intros k' Hk' Hbetter.
      eapply Hbest; [done|]. by eapply label_better_trans.
    + rewrite Hcur. split; [apply label_candidate_snoc; by left|].
      intros k' [?|(-> & _)]%label_candidate_snoc; auto.
  - assert (label_step newest e = <[ClusterID g := rec_Key e.2]> newest) as ->
      by (unfold label_step; by rewrite Hsrc, Hcur).
    rewrite lookup_insert_eq. apply label_inv_take; [done|]. intros k' Hk'. by destruct (IH k').
Qed.

Lemma label_best_unique entries c k k' :
  label_best entries c k → label_best entries c k' → CreatedAt k = CreatedAt k' ∧ KID k = KID k'.
Proof.
  intros [Hc Hb] [Hc' Hb']. specialize (Hb _ Hc'). specialize (Hb' _ Hc). unfold label_better in *.
  assert (CreatedAt k = CreatedAt k') as Heq by lia. split; [done|].
  apply string_le_antisym; apply dec_stable; intros ?; [apply Hb|apply Hb']; by right.
Qed.

Lemma labelAuthorities_spec entries kid :
  kid ∈ labelAuthorities_of entries ↔ ∃ c k, label_best entries c k ∧ KID k = kid.
Proof.
  unfold labelAuthorities_of. rewrite elem_of_list_to_set, list_elem_of_fmap. split.
  - intros ([c k] & -> & Hin%elem_of_map_to_list). exists c, k. split; [|done].
    pose proof (label_fold_spec entries c) as Hinv. by rewrite Hin in Hinv.
  - intros (c & k & Hbest & <-). pose proof (label_fold_spec entries c) as Hinv.
    destruct (foldl label_step ∅ entries !! c) as [k'|] eqn:Hf; simpl in Hinv.
    + exists (c, k'). split; [by apply (label_best_unique entries c)|by apply elem_of_map_to_list].
    + by destruct (Hinv k), Hbest.
Qed.

Lemma label_best_perm entries entries' c k :
  entries ≡ₚ entries' → label_best entries c k ↔ label_best entries' c k.
Proof.
  intros Hp. unfold label_best, label_candidate. by setoid_rewrite Hp.
Qed.

Lemma labelAuthorities_perm entries entries' :
  entries ≡ₚ entries' → labelAuthorities_of entries = labelAuthorities_of entries'.
Proof.
  intros Hp. apply set_eq. intros kid. rewrite !labelAuthorities_spec.
  by setoid_rewrite (label_best_perm _ _ _ _ Hp).
Qed.

(** The keys [ListKeys] selects, before sorting. *)
Definition selected (class : KeyClass) (e : string * KeyRecord) : option Key :=
  let '(_, r) := e in
  if negb (String.eqb class "") && negb (String.eqb (Class (rec_Key r)) class)
  then None else Some (rec_value r).

Lemma elem_of_selected class (entries : list (string * KeyRecord)) k :
  k ∈ omap (selected class) entries
  ↔ ∃ kid r, (kid, r) ∈ entries ∧ (class = "" ∨ Class (rec_Key r) = class) ∧ k = rec_value r.
Proof.
  rewrite list_elem_of_omap. split.
  - intros ([kid r] & Hin & Hs). exists kid, r. unfold selected in Hs.
    destruct (String.eqb_spec class ""), (String.eqb_spec (Class (rec_Key r)) class); naive_solver.
  - intros (kid & r & Hin & Hc & ->). exists (kid, r). split; [done|]. unfold selected.
    destruct (String.eqb_spec class ""), (String.eqb_spec (Class (rec_Key r)) class); naive_solver.
Qed.

Lemma ListKeys_of_perm s entries class :
  state_ok s → entries ≡ₚ map_to_list (Keys s) → ListKeys_of entries class = ListKeys class s.
Proof.
  intros Hs Hp. unfold ListKeys, ListKeys_of. apply (sort_unique key_le).
  - intros x y Hx Hy Hxy Hyx.
    apply (elem_of_selected class) in Hx as (kx & rx & Hx & _ & ->).
    apply (elem_of_selected class) in Hy as (ky & ry & Hy & _ & ->).
    apply (map_entries_elem (Keys s)) in Hx, Hy; [|done..].
    pose proof (lookup_record_ok _ _ _ Hs Hx) as [Hkx _ _ _ _].
    pose proof (lookup_record_ok _ _ _ Hs Hy) as [Hky _ _ _ _].
    assert (KID (rec_Key rx) = KID (rec_Key ry)).
    { unfold key_le in *. rewrite !rec_value_eq in *. simpl in *.
      apply string_le_antisym; destruct Hxy as [|[]], Hyx as [|[]]; done || lia. }
    simplify_eq. congruence.
  - by rewrite Hp.
Qed.

(** Ranging over Go's unordered maps is harmless.  Whatever order the two
maps of a well-formed document are visited in, pruning, the set of label
authorities and the key listing of any class come out the same. *)
Theorem map_order_irrelevant (s : State) (certs : list (string * RevokedCert))
    (keys : list (string * KeyRecord)) (now retain : Z) (class : KeyClass) :
  state_ok s → certs ≡ₚ map_to_list (RevokedCerts s) → keys ≡ₚ map_to_list (Keys s) →
  Prune_of certs keys now retain s = Prune now retain s
  ∧ labelAuthorities_of keys = labelAuthorities s
  ∧ ListKeys_of keys class = ListKeys class s.
Proof.
  intros Hs Hc Hk. split_and!; [|by apply labelAuthorities_perm|by apply ListKeys_of_perm].
  unfold Prune, Prune_of. destruct (retain <? 0)%Z; [done|].
  rewrite (labelAuthorities_perm _ _ Hk). by rewrite !prune_loop_spec by done.
Qed.

Lemma selected_NoDup class (l : list (string * KeyRecord)) :
  (∀ kid r, (kid, r) ∈ l → KID (rec_Key r) = kid) → NoDup l.*1 →
  NoDup (KID <$> omap (selected class) l).
Proof.
  induction l as [|[kid r] l IH]; intros Hkid Hnd; simpl; [constructor|].
  simpl in Hnd. apply NoDup_cons in Hnd as [Hnot Hnd].
  assert (NoDup (KID <$> omap (selected class) l)) by (apply IH; [set_solver|done]).
  destruct (_ && _); simpl; [done|]. constructor; [|done].
  intros (k & Heq & Hk)%list_elem_of_fmap. apply Hnot.
  apply elem_of_selected in Hk as (kid' & r' & Hin & _ & ->).
  rewrite !rec_value_eq in Heq. simpl in Heq.
  apply list_elem_of_fmap. exists (kid', r'). split; [|done]. simpl.
  transitivity (KID (rec_Key r)); [symmetry; apply Hkid; by left|].
  rewrite Heq. apply Hkid. by right.
Qed.

Lemma ListKeys_spec (s : State) (class : KeyClass) :
  state_ok s →
  StronglySorted key_le (ListKeys class s)
  ∧ NoDup (KID <$> ListKeys class s)
  ∧ ∀ k, k ∈ ListKeys class s
         ↔ ∃ r, Keys s !! KID k = Some r ∧ k = rec_value r ∧ (class = "" ∨ Class k = class).
Proof.
  intros Hs. unfold ListKeys, ListKeys_of. split_and!.
  - apply (StronglySorted_merge_sort key_le).
  - rewrite (fmap_Permutation KID _ _ (merge_sort_Permutation key_le _)).
    apply (selected_NoDup class); [|apply NoDup_fst_map_to_list].
    intros kid r Hin%elem_of_map_to_list. by apply (lookup_record_ok s).
  - intros k. rewrite merge_sort_Permutation.
    rewrite (elem_of_selected class (map_to_list (Keys s)) k). split.
    + intros (kid & r & Hin%elem_of_map_to_list & Hc & ->). exists r.
      pose proof (lookup_record_ok _ _ _ Hs Hin) as [Hkid _ _ _ _].
      rewrite rec_value_eq. simpl. rewrite Hkid. done.
    + intros (r & Hr & Hk & Hc). exists (KID k), r. split_and!; [by apply elem_of_map_to_list| |done].
      rewrite Hk, rec_value_eq in Hc. done.
Qed.

(** The listing contract.  The keys of a class, or all keys for the empty
class, are listed exactly once each, ordered by creation time and then by
identifier. *)
Theorem ListKeys_correct (s : State) (class : KeyClass) :
  state_ok s →
  StronglySorted key_le (ListKeys class s)
  ∧ NoDup (KID <$> ListKeys class s)
  ∧ ∀ k, k ∈ ListKeys class s
         ↔ ∃ r, Keys s !! KID k = Some r ∧ k = rec_value r ∧ (class = "" ∨ Class k = class).
Proof. apply ListKeys_spec. Qed.

(** * What pruning may drop *)

(** Whether the document authenticates [kid] at [t]. *)
Definition usable_at (kid : string) (t : Z) (s : State) : bool :=
  match Keys s !! kid with Some r => Usable (rec_value r) t | None => false end.

Lemma Prune_lookup now retain s s' res kid r :
  Prune now retain s = (s', Ok res) → Keys s !! kid = Some r →
  Keys s' !! kid = if keep_key now retain (labelAuthorities s) kid r then Some r else None.
Proof.
  intros Hp Hr. destruct (decide (0 ≤ retain)%Z) as [Hge|Hlt].
  - destruct (Prune_eq now retain s Hge) as (res' & Heq & _). rewrite Heq in Hp. simplify_eq/=.
    rewrite map_lookup_filter, Hr. simpl.
    destruct (keep_key now retain (labelAuthorities s) kid r); by simplify_option_eq.
  - unfold Prune, Prune_of in Hp. by rewrite (proj2 (Z.ltb_lt _ _)) in Hp by lia.
Qed.

Lemma Prune_lookup_None now retain s s' res kid :
  Prune now retain s = (s', Ok res) → Keys s !! kid = None → Keys s' !! kid = None.
Proof.
  intros Hp Hr. destruct (decide (0 ≤ retain)%Z) as [Hge|Hlt].
  - destruct (Prune_eq now retain s Hge) as (res' & Heq & _). rewrite Heq in Hp. simplify_eq/=.
    by rewrite map_lookup_filter, Hr.
  - unfold Prune, Prune_of in Hp. by rewrite (proj2 (Z.ltb_lt _ _)) in Hp by lia.
Qed.

Lemma Prune_retain now retain s s' res : Prune now retain s = (s', Ok res) → (0 ≤ retain)%Z.
Proof.
  unfold Prune, Prune_of. destruct (Z.ltb_spec retain 0); [done|]. lia.
Qed.

Lemma keep_key_false now retain auth kid r :
  keep_key now retain auth kid r = false ↔
  ExpiresAt (rec_Key r) ≠ 0%Z ∧ (ExpiresAt (rec_Key r) + retain < now)%Z ∧ kid ∉ auth.
Proof.
  unfold keep_key, IsZero, After, Add. rewrite !orb_false_iff, negb_false_iff, Z.eqb_neq, Z.ltb_lt.
  rewrite bool_decide_eq_false. tauto.
Qed.

(** Pruning changes no decision.  From the moment it runs, a credential
authenticates after a prune exactly when it would have without it; a revoked
credential that has not expired, and any credential without an expiry, keeps
its record; and a certificate's revocation entry is dropped only once the
certificate expired more than the retention ago. *)
Theorem Prune_changes_no_decision (now retain t : Z) (s s' : State) (res : PruneResult * bool) (kid serial : string) :
  Prune now retain s = (s', Ok res) → (now ≤ t)%Z →
  usable_at kid t s' = usable_at kid t s
  ∧ (∀ r, Keys s !! kid = Some r → ExpiresAt (rec_Key r) = 0%Z ∨ (now ≤ ExpiresAt (rec_Key r))%Z →
          Keys s' !! kid = Some r)
  ∧ (∀ rc, RevokedCerts s !! serial = Some rc → RevokedCerts s' !! serial = None →
           rc_NotAfter rc ≠ 0%Z ∧ (rc_NotAfter rc + retain < now)%Z).
Proof.
  intros Hp Ht. pose proof (Prune_retain _ _ _ _ _ Hp) as Hret. split_and!.
  - unfold usable_at. destruct (Keys s !! kid) as [r|] eqn:Hr; [|by erewrite Prune_lookup_None].
    rewrite (Prune_lookup _ _ _ _ _ _ _ Hp Hr).
    destruct (keep_key now retain (labelAuthorities s) kid r) eqn:Hkeep; [done|].
    apply keep_key_false in Hkeep as (Hne & Hexp & _).
    symmetry. unfold Usable, Expired, IsZero, After. rewrite rec_value_eq. simpl.
    rewrite (proj2 (Z.eqb_neq _ _) Hne), (proj2 (Z.ltb_lt _ _)) by lia. by rewrite andb_false_r.
  - intros r Hr Hexp. rewrite (Prune_lookup _ _ _ _ _ _ _ Hp Hr).
    destruct (keep_key now retain (labelAuthorities s) kid r) eqn:Hkeep; [done|].
    apply keep_key_false in Hkeep. lia.
  - intros rc Hrc Hnone. destruct (Prune_eq now retain s Hret) as (res' & Heq & _).
    rewrite Heq in Hp. simplify_eq/=.
    apply map_lookup_filter_None in Hnone as [?|Hnone]; [congruence|].
    specialize (Hnone _ Hrc). simpl in Hnone. unfold keep_cert, IsZero, After, Add in Hnone.
    apply not_true_is_false, orb_false_iff in Hnone as [Hz Ha].
    apply Z.eqb_neq in Hz. apply negb_false_iff, Z.ltb_lt in Ha. done.
Qed.

(** * Concrete instances *)

Lemma NewState_run_ok m now : state_ok (run_mutation m now NewState).1.
Proof. eapply run_mutation_ok; [apply surjective_pairing|apply NewState_ok]. Qed.

(** A single-use enrollment token for cluster [c1]. *)
Definition ex_grant : EnrollmentGrant :=
  {| ClusterID := "c1"; grant_Labels := {["env" := "prod"]}; UsedAt := None; CertSerial := "";
     Reusable := false; Redemptions := 0; MaxRedemptions := 0 |}.

Definition ex_token : Key :=
  {| KID := "tok0000001"; Class := ClassEnrollment; Name := "install"; Owner := "";
     SecretHMAC := [Byte.x01; Byte.x02]; Key_Scope := None; Enrollment := Some ex_grant;
     CreatedAt := 10; ExpiresAt := 100; LastUsed := None; RevokedAt := None; RevokedReason := "" |}.

Definition ex_state : State := (run_mutation (MPutKey (Some ex_token)) 10 NewState).1.

Lemma ex_state_reachable : store_reachable ex_state.
Proof. apply rtc_once. apply (store_step_run (MPutKey (Some ex_token)) 10 _ _ _ (surjective_pairing _)). Qed.

Lemma reachable_state_ok_witness : store_reachable ex_state ∧ state_ok ex_state.
Proof. split; [apply ex_state_reachable|]. apply (reachable_state_ok ex_state), ex_state_reachable. Defined.

Lemma epoch_discipline_witness :
  Epoch (run_mutation (MBurnEnrollment "tok0000001" "serial-1" 20) 20 ex_state).1 = 2%Z.
Proof.
  exact (epoch_discipline (MBurnEnrollment "tok0000001" "serial-1" 20) 20 ex_state
           (run_mutation (MBurnEnrollment "tok0000001" "serial-1" 20) 20 ex_state).1 (Ok true) eq_refl).
Defined.

Lemma redemptions_within_budget_witness :
  burn_count "tok0000001" [(MBurnEnrollment "tok0000001" "s1" 20, 20); (MBurnEnrollment "tok0000001" "s2" 21, 21)]%Z
    ex_state = 1
  ∧ (Z.of_nat (burn_count "tok0000001"
       [(MBurnEnrollment "tok0000001" "s1" 20, 20); (MBurnEnrollment "tok0000001" "s2" 21, 21)]%Z ex_state) ≤ 1)%Z.
Proof.
  split; [vm_compute; reflexivity|].
  apply (redemptions_within_budget _ _ _ ex_grant).
  - repeat constructor.
  - vm_compute. reflexivity.
  - unfold int64_range, min_int64, max_int64. simpl. lia.
  - unfold int64_range, min_int64, max_int64. simpl. lia.
  - reflexivity.
Defined.

Lemma map_order_irrelevant_witness :
  labelAuthorities_of (map_to_list (Keys ex_state)) = labelAuthorities ex_state.
Proof.
  apply (map_order_irrelevant ex_state (map_to_list (RevokedCerts ex_state)) (map_to_list (Keys ex_state)) 0 0 "");
    [|reflexivity..].
  apply NewState_run_ok.
Defined.

Lemma ListKeys_correct_witness : StronglySorted key_le (ListKeys "" ex_state).
Proof. apply (ListKeys_correct ex_state ""). apply NewState_run_ok. Defined.

Lemma Prune_changes_no_decision_witness :
  usable_at "tok0000001" 50 (Prune 50 0 ex_state).1 = true.
Proof.
  assert (Hp : Prune 50 0 ex_state = ((Prune 50 0 ex_state).1, Ok ({| pr_Keys := 0; pr_RevokedCerts := 0 |}, false)))
    by (vm_compute; reflexivity).
  destruct (Prune_changes_no_decision 50 0 50 ex_state _ _ "tok0000001" "s" Hp (Z.le_refl 50)) as [-> _].
  vm_compute. reflexivity.
Defined.
