(* ===== verification/Codec.v ===== *)
(** The encoding of the credential document: [State.Encode],
[State.EncodeWithin] and [Decode] of [src/internal/store/state.go], with the
parts of [encoding/json] they use.

A document is modelled at the level of JSON values: which members each struct
has under its tags, which are omitted when empty, and how an absent, null or
ill-typed member is read back.  The step between a JSON value and its bytes is
the interface [JsonText]; scalars whose text form plays no part here (RFC 3339
instants, base64 byte strings, duration strings, floating-point numbers) are
leaves of their own. *)

From Stdlib Require Import Floats.
From S2P Require Import Prelude Fleet State.
Open Scope string_scope.

(** * JSON values and their text *)

#[warnings="-register-all"]
Inductive json :=
| JNull
| JBool (b : bool)
| JInt (z : Z)
| JFloat (f : float)
| JStr (s : string)
| JTime (t : Z)
| JBytes (b : list Byte.byte)
| JDur (d : Z)
| JArr (l : list json)
| JObj (o : list (string * json)).

(** The text layer of [encoding/json] over some type of byte strings: printing
a value gives a non-empty text that parses back to it. *)
Class JsonText (Bytes : Type) := {
  bytes_len : Bytes → Z;
  bytes_nil : Bytes;
  print_json : json → Bytes;
  parse_json : Bytes → option json;
  bytes_nil_len : bytes_len bytes_nil = 0%Z;
  print_json_len j : (0 < bytes_len (print_json j))%Z;
  parse_print j : parse_json (print_json j) = Some j
}.

(** * Objects *)

Definition lower_ascii (c : ascii) : ascii :=
  let n := nat_of_ascii c in if (65 <=? n)%nat && (n <=? 90)%nat then ascii_of_nat (n + 32) else c.

Fixpoint lower (s : string) : string :=
  match s with EmptyString => EmptyString | String c s => String (lower_ascii c) (lower s) end.

(** Member names are matched to struct fields without regard to case; the last
member that matches wins. *)
Definition name_matches (k f : string) : bool := String.eqb (lower k) (lower f).

Fixpoint field (f : string) (o : list (string * json)) : option json :=
  match o with
  | [] => None
  | (k, v) :: o =>
    match field f o with
    | Some x => Some x
    | None => if name_matches k f then Some v else None
    end
  end.

(** A struct's members in order, [None] for one left out by [omitempty]. *)
Definition members (l : list (string * option json)) : list (string * json) :=
  omap (λ e, (λ j, (e.1, j)) <$> e.2) l.

Fixpoint assoc (f : string) (l : list (string * option json)) : option json :=
  match l with
  | [] => None
  | (k, v) :: l => if name_matches k f then v else assoc f l
  end.

(** Reading a member: absent or null leaves the zero value. *)
Definition get {A} (f : string) (zero : A) (dec : json → option A) (o : list (string * json)) : option A :=
  match field f o with
  | None | Some JNull => Some zero
  | Some j => dec j
  end.

Definition omitempty (empty : bool) (j : json) : option json := if empty then None else Some j.

(** * Scalars and containers *)

(** [time.Time.MarshalJSON] fails outside the years 0 to 9999. *)
Definition day : Z := (24 * Hour)%Z.
Definition time_ok (t : Z) : bool := (- 366 * day <=? t)%Z && (t <? 3652059 * day)%Z.
Definition time_json (t : Z) : option json := if time_ok t then Some (JTime t) else None.

Definition ptr_time_json (t : option Z) : option (option json) :=
  match t with None => Some None | Some t => Some <$> time_json t end.

(** A float that is not finite has no JSON form. *)
Definition float_json (f : float) : option json :=
  if PrimFloat.is_finite f then Some (JFloat f) else None.

Definition as_str (j : json) : option string := match j with JStr s => Some s | _ => None end.
Definition as_int (j : json) : option Z :=
  match j with
  | JInt z => if (min_int64 <=? z)%Z && (z <=? max_int64)%Z then Some z else None
  | _ => None
  end.
Definition as_uint64 (j : json) : option Z :=
  match j with JInt z => if (0 <=? z)%Z && (z <? 2 ^ 64)%Z then Some z else None | _ => None end.
Definition as_bool (j : json) : option bool := match j with JBool b => Some b | _ => None end.
Definition as_time (j : json) : option Z := match j with JTime t => Some t | _ => None end.
Definition as_ptr_time (j : json) : option (option Z) := match j with JTime t => Some (Some t) | _ => None end.
Definition as_bytes (j : json) : option (list Byte.byte) := match j with JBytes b => Some b | _ => None end.
Definition as_dur (j : json) : option Z := match j with JDur d => Some d | _ => None end.
Definition as_float (j : json) : option float := match j with JFloat f => Some f | _ => None end.

Definition strs_json (l : list string) : json := JArr (JStr <$> l).
Definition as_strs (j : json) : option (list string) :=
  match j with JArr l => mapM as_str l | _ => None end.

(** A Go map with string keys is printed with its keys in order. *)
Definition entry_le {A} (a b : string * A) : Prop := String.le a.1 b.1.

#[export] Instance entry_le_dec {A} : RelDecision (@entry_le A).
Proof. intros a b. unfold entry_le. apply _. Defined.

Definition map_json {A} (enc : A → option json) (m : gmap string A) : option json :=
  JObj <$> mapM (λ '(k, a), j ← enc a; Some (k, j)) (merge_sort entry_le (map_to_list m)).

Definition as_map {A} (dec : json → option A) (j : json) : option (gmap string A) :=
  match j with
  | JObj o => (λ l, list_to_map (reverse l)) <$> mapM (λ '(k, j), a ← dec j; Some (k, a)) o
  | _ => None
  end.

Definition labels_json (m : gmap string string) : option json := map_json (λ s, Some (JStr s)) m.

(** * The structs under their tags *)

Definition Limits_json (l : Limits) : option json :=
  rps ← (if PrimFloat.eqb (RateRPS l) 0%float then Some None else Some <$> float_json (RateRPS l));
  Some (JObj (members
    [("maxLookback", omitempty (MaxLookback l =? 0)%Z (JDur (MaxLookback l)));
     ("maxPoints", omitempty (MaxPoints l =? 0)%Z (JInt (MaxPoints l)));
     ("maxSeries", omitempty (MaxSeries l =? 0)%Z (JInt (MaxSeries l)));
     ("timeout", omitempty (Timeout l =? 0)%Z (JDur (Timeout l)));
     ("maxResponseBytes", omitempty (MaxResponseBytes l =? 0)%Z (JInt (MaxResponseBytes l)));
     ("maxConcurrentPerCluster",
        omitempty (MaxConcurrentPerCluster l =? 0)%Z (JInt (MaxConcurrentPerCluster l)));
     ("rateRps", rps);
     ("rateBurst", omitempty (RateBurst l =? 0)%Z (JInt (RateBurst l)))])).

Definition as_Limits (j : json) : option Limits :=
  match j with
  | JObj o =>
    lb ← get "maxLookback" 0%Z as_dur o; pts ← get "maxPoints" 0%Z as_int o;
    ser ← get "maxSeries" 0%Z as_int o; to ← get "timeout" 0%Z as_dur o;
    rb ← get "maxResponseBytes" 0%Z as_int o; cc ← get "maxConcurrentPerCluster" 0%Z as_int o;
    rps ← get "rateRps" 0%float as_float o; burst ← get "rateBurst" 0%Z as_int o;
    Some {| MaxLookback := lb; MaxPoints := pts; MaxSeries := ser; Timeout := to;
            MaxResponseBytes := rb; MaxConcurrentPerCluster := cc; RateRPS := rps; RateBurst := burst |}
  | _ => None
  end.

Definition zero_Limits : Limits :=
  {| MaxLookback := 0; MaxPoints := 0; MaxSeries := 0; Timeout := 0; MaxResponseBytes := 0;
     MaxConcurrentPerCluster := 0; RateRPS := 0%float; RateBurst := 0 |}.

Definition ClusterScope_json (c : ClusterScope) : option json :=
  ml ← labels_json (cs_MatchLabels c);
  Some (JObj (members
    [("allow", omitempty (length (cs_Allow c) =? 0)%nat (strs_json (cs_Allow c)));
     ("matchLabels", omitempty (size (cs_MatchLabels c) =? 0)%nat ml);
     ("deny", omitempty (length (cs_Deny c) =? 0)%nat (strs_json (cs_Deny c)))])).

Definition as_ClusterScope (j : json) : option ClusterScope :=
  match j with
  | JObj o =>
    al ← get "allow" [] as_strs o; ml ← get "matchLabels" ∅ (as_map as_str) o; dn ← get "deny" [] as_strs o;
    Some {| cs_Allow := al; cs_MatchLabels := ml; cs_Deny := dn |}
  | _ => None
  end.

Definition ToolScope_json (t : ToolScope) : json :=
  JObj (members
    [("allow", omitempty (length (ts_Allow t) =? 0)%nat (strs_json (ts_Allow t)));
     ("deny", omitempty (length (ts_Deny t) =? 0)%nat (strs_json (ts_Deny t)))]).

Definition as_ToolScope (j : json) : option ToolScope :=
  match j with
  | JObj o =>
    al ← get "allow" [] as_strs o; dn ← get "deny" [] as_strs o;
    Some {| ts_Allow := al; ts_Deny := dn |}
  | _ => None
  end.

Definition Scope_json (s : Scope) : option json :=
  c ← ClusterScope_json (Scope_Clusters s); l ← Limits_json (Scope_Limits s);
  Some (JObj (members
    [("role", Some (JStr (Scope_Role s))); ("clusters", Some c);
     ("tools", Some (ToolScope_json (Scope_Tools s))); ("limits", Some l)])).

Definition as_Scope (j : json) : option Scope :=
  match j with
  | JObj o =>
    r ← get "role" "" as_str o;
    c ← get "clusters" {| cs_Allow := []; cs_MatchLabels := ∅; cs_Deny := [] |} as_ClusterScope o;
    t ← get "tools" {| ts_Allow := []; ts_Deny := [] |} as_ToolScope o;
    l ← get "limits" zero_Limits as_Limits o;
    Some {| Scope_Role := r; Scope_Clusters := c; Scope_Tools := t; Scope_Limits := l |}
  | _ => None
  end.

Definition EnrollmentGrant_json (g : EnrollmentGrant) : option json :=
  lb ← labels_json (grant_Labels g); used ← ptr_time_json (UsedAt g);
  Some (JObj (members
    [("clusterId", Some (JStr (ClusterID g)));
     ("labels", omitempty (size (grant_Labels g) =? 0)%nat lb);
     ("usedAt", used);
     ("certSerial", omitempty (String.eqb (CertSerial g) "") (JStr (CertSerial g)));
     ("reusable", omitempty (negb (Reusable g)) (JBool (Reusable g)));
     ("redemptions", omitempty (Redemptions g =? 0)%Z (JInt (Redemptions g)));
     ("maxRedemptions", omitempty (MaxRedemptions g =? 0)%Z (JInt (MaxRedemptions g)))])).

Definition as_EnrollmentGrant (j : json) : option EnrollmentGrant :=
  match j with
  | JObj o =>
    c ← get "clusterId" "" as_str o; lb ← get "labels" ∅ (as_map as_str) o;
    u ← get "usedAt" None as_ptr_time o; cs ← get "certSerial" "" as_str o;
    re ← get "reusable" false as_bool o; rd ← get "redemptions" 0%Z as_int o;
    mx ← get "maxRedemptions" 0%Z as_int o;
    Some {| ClusterID := c; grant_Labels := lb; UsedAt := u; CertSerial := cs; Reusable := re;
            Redemptions := rd; MaxRedemptions := mx |}
  | _ => None
  end.

Definition ptr_json {A} (enc : A → option json) (p : option A) : option (option json) :=
  match p with None => Some None | Some a => Some <$> enc a end.

(** [SecretHMAC] is tagged out of the key's own encoding. *)
Definition Key_json (k : Key) : option json :=
  sc ← ptr_json Scope_json (Key_Scope k); en ← ptr_json EnrollmentGrant_json (Enrollment k);
  cr ← time_json (CreatedAt k); ex ← time_json (ExpiresAt k);
  lu ← ptr_time_json (LastUsed k); rv ← ptr_time_json (RevokedAt k);
  Some (JObj (members
    [("kid", Some (JStr (KID k))); ("class", Some (JStr (Class k))); ("name", Some (JStr (Name k)));
     ("owner", omitempty (String.eqb (Owner k) "") (JStr (Owner k)));
     ("scope", sc); ("enrollment", en); ("createdAt", Some cr); ("expiresAt", Some ex);
     ("lastUsedAt", lu); ("revokedAt", rv);
     ("revokedReason", omitempty (String.eqb (RevokedReason k) "") (JStr (RevokedReason k)))])).

Definition as_Key (j : json) : option Key :=
  match j with
  | JObj o =>
    kid ← get "kid" "" as_str o; cl ← get "class" "" as_str o; nm ← get "name" "" as_str o;
    ow ← get "owner" "" as_str o;
    sc ← get "scope" None (λ j, Some <$> as_Scope j) o;
    en ← get "enrollment" None (λ j, Some <$> as_EnrollmentGrant j) o;
    cr ← get "createdAt" 0%Z as_time o; ex ← get "expiresAt" 0%Z as_time o;
    lu ← get "lastUsedAt" None as_ptr_time o; rv ← get "revokedAt" None as_ptr_time o;
    rr ← get "revokedReason" "" as_str o;
    Some {| KID := kid; Class := cl; Name := nm; Owner := ow; SecretHMAC := []; Key_Scope := sc;
            Enrollment := en; CreatedAt := cr; ExpiresAt := ex; LastUsed := lu; RevokedAt := rv;
            RevokedReason := rr |}
  | _ => None
  end.

Definition zero_Key : Key :=
  {| KID := ""; Class := ""; Name := ""; Owner := ""; SecretHMAC := []; Key_Scope := None;
     Enrollment := None; CreatedAt := 0; ExpiresAt := 0; LastUsed := None; RevokedAt := None;
     RevokedReason := "" |}.

Definition KeyRecord_json (r : KeyRecord) : option json :=
  k ← Key_json (rec_Key r);
  Some (JObj (members
    [("v", Some (JInt (rec_V r))); ("key", Some k);
     ("secretHmac", omitempty (length (rec_SecretHMAC r) =? 0)%nat (JBytes (rec_SecretHMAC r)))])).

Definition as_KeyRecord (j : json) : option KeyRecord :=
  match j with
  | JObj o =>
    v ← get "v" 0%Z as_int o; k ← get "key" zero_Key as_Key o; h ← get "secretHmac" [] as_bytes o;
    Some {| rec_V := v; rec_Key := k; rec_SecretHMAC := h |}
  | _ => None
  end.

Definition RevokedCert_json (rc : RevokedCert) : option json :=
  at_ ← time_json (rc_RevokedAt rc); na ← time_json (rc_NotAfter rc);
  Some (JObj (members
    [("serial", Some (JStr (Serial rc))); ("revokedAt", Some at_); ("notAfter", Some na);
     ("reason", omitempty (String.eqb (rc_Reason rc) "") (JStr (rc_Reason rc)))])).

Definition as_RevokedCert (j : json) : option RevokedCert :=
  match j with
  | JObj o =>
    s ← get "serial" "" as_str o; at_ ← get "revokedAt" 0%Z as_time o; na ← get "notAfter" 0%Z as_time o;
    re ← get "reason" "" as_str o;
    Some {| Serial := s; rc_RevokedAt := at_; rc_NotAfter := na; rc_Reason := re |}
  | _ => None
  end.

Definition State_json (s : State) : option json :=
  ks ← map_json KeyRecord_json (Keys s); rcs ← map_json RevokedCert_json (RevokedCerts s);
  Some (JObj (members
    [("schemaVersion", Some (JInt (st_SchemaVersion s))); ("epoch", Some (JInt (Epoch s)));
     ("keys", omitempty (size (Keys s) =? 0)%nat ks);
     ("revokedCerts", omitempty (size (RevokedCerts s) =? 0)%nat rcs)])).

Definition as_State (j : json) : option State :=
  match j with
  | JObj o =>
    v ← get "schemaVersion" 0%Z as_int o; e ← get "epoch" 0%Z as_uint64 o;
    ks ← get "keys" ∅ (as_map as_KeyRecord) o; rcs ← get "revokedCerts" ∅ (as_map as_RevokedCert) o;
    Some {| st_SchemaVersion := v; Epoch := e; Keys := ks; RevokedCerts := rcs |}
  | _ => None
  end.

(** * Encode and Decode *)

Section text.
Context {Bytes : Type} `{JsonText Bytes}.

(** [json.Marshal]'s error is dropped, leaving no bytes. *)
Definition Encode (s : State) : Bytes :=
  match State_json (set_SchemaVersion SchemaVersion s) with
  | Some j => print_json j
  | None => bytes_nil
  end.

Definition EncodeWithin (max : Z) (s : State) : result StoreError Bytes :=
  let b := Encode s in
  if (0 <? max)%Z && (max <? bytes_len b)%Z then Err ErrStateTooLarge else Ok b.

Definition Decode (b : Bytes) : result StoreError State :=
  if (bytes_len b =? 0)%Z then Ok NewState
  else match j ← parse_json b; as_State j with
  | None => Err ErrCorrupt
  | Some s => migrate s
  end.

End text.

(** * Reading members back *)

Definition names_ok (l : list (string * option json)) : Prop := NoDup ((λ e, lower e.1) <$> l).

Lemma assoc_absent k f (l : list (string * option json)) :
  lower k ∉ ((λ e, lower e.1) <$> l) → name_matches k f = true → assoc f l = None.
Proof.
  intros Hnot Hk. unfold name_matches in Hk. apply String.eqb_eq in Hk.
  induction l as [|[k' o'] l IH]; [done|]. cbn [assoc].
  rewrite fmap_cons, not_elem_of_cons in Hnot. destruct Hnot as [Hne Hnot]. simpl in Hne.
  unfold name_matches. destruct (String.eqb_spec (lower k') (lower f)); [congruence|auto].
Qed.

Lemma members_cons k o l :
  members ((k, o) :: l) = match o with Some j => (k, j) :: members l | None => members l end.
Proof. by destruct o. Qed.

Lemma field_members f l : names_ok l → field f (members l) = assoc f l.
Proof.
  unfold names_ok. induction l as [|[k o] l IH]; intros Hnd; [done|].
  rewrite fmap_cons in Hnd. apply NoDup_cons in Hnd as [Hnot Hnd]. specialize (IH Hnd).
  rewrite members_cons. cbn [assoc].
  destruct (name_matches k f) eqn:Hk; [rewrite (assoc_absent _ _ _ Hnot Hk) in IH|];
    destruct o as [j|]; cbn [field]; rewrite ?Hk, IH; by destruct (assoc f l) || done.
Qed.

Section members.
Context {A : Type} (l : list (string * option json)) (f : string) (zero a : A) (dec : json → option A).

Lemma get_present j :
  names_ok l → assoc f l = Some j → j ≠ JNull → dec j = Some a → get f zero dec (members l) = Some a.
Proof. intros Hn Ha Hj Hd. unfold get. rewrite field_members, Ha by done. by destruct j. Qed.

Lemma get_absent : names_ok l → assoc f l = None → get f zero dec (members l) = Some zero.
Proof. intros Hn Ha. unfold get. by rewrite field_members, Ha. Qed.

(** A member left out exactly when it holds the zero value. *)
Lemma get_omitempty e j :
  names_ok l → assoc f l = omitempty e j → j ≠ JNull → (e = true → a = zero) → dec j = Some a →
  get f zero dec (members l) = Some a.
Proof.
  intros Hn Ha Hj He Hd. destruct e; [rewrite He by done; by apply get_absent|by eapply get_present].
Qed.

End members.

(** ** Containers *)

Lemma strs_roundtrip l : as_strs (strs_json l) = Some l.
Proof. unfold strs_json, as_strs. apply mapM_Some. induction l; constructor; auto. Qed.

#[export] Instance entry_le_trans {A} : Transitive (@entry_le A).
Proof. intros a b c. unfold entry_le. apply (transitivity (R := String.le)). Qed.

#[export] Instance entry_le_total {A} : Total (@entry_le A).
Proof. intros a b. unfold entry_le. apply (total String.le). Qed.

Lemma map_roundtrip {A} (enc : A → option json) (dec : json → option A) (m : gmap string A) j :
  map_json enc m = Some j → (∀ k a j', m !! k = Some a → enc a = Some j' → dec j' = Some a) →
  as_map dec j = Some m ∧ j ≠ JNull.
Proof.
  unfold map_json. intros (o & Ho & ->)%fmap_Some Hdec. split; [|done]. cbn [as_map].
  apply mapM_Some in Ho.
  assert (mapM (λ '(k, j), a ← dec j; Some (k, a)) o = Some (merge_sort entry_le (map_to_list m))) as ->.
  { assert (∀ e, e ∈ merge_sort entry_le (map_to_list m) → m !! e.1 = Some e.2) as Hin.
    { intros [k a]. rewrite (merge_sort_Permutation entry_le). apply elem_of_map_to_list. }
    apply mapM_Some. induction Ho as [|[k a] [k' j'] es o He Ho IH]; constructor.
    - specialize (Hin (k, a) ltac:(by left)). simpl in *.
      destruct (enc a) eqn:Hea; simplify_eq/=. by rewrite (Hdec _ _ _ Hin Hea).
    - apply IH. intros e ?. apply Hin. by right. }
  simpl. f_equal. rewrite <- (list_to_map_to_list m) at 2. apply list_to_map_proper.
  - rewrite (reverse_Permutation _), (merge_sort_Permutation entry_le). apply NoDup_fst_map_to_list.
  - by rewrite (reverse_Permutation _), (merge_sort_Permutation entry_le).
Qed.

(** ** One lemma per kind of member *)

Section readers.
Context (l : list (string * option json)) (f : string) (Hn : names_ok l).

Lemma read_str s : assoc f l = Some (JStr s) → get f "" as_str (members l) = Some s.
Proof using Hn. intros. by eapply get_present. Qed.

Lemma read_str_omit s :
  assoc f l = omitempty (String.eqb s "") (JStr s) → get f "" as_str (members l) = Some s.
Proof using Hn. intros. eapply get_omitempty; eauto; try done. apply String.eqb_eq. Qed.

Lemma as_int_range z : int64_range z → as_int (JInt z) = Some z.
Proof. intros [H1 H2]. simpl. by rewrite (proj2 (Z.leb_le _ _) H1), (proj2 (Z.leb_le _ _) H2). Qed.

Lemma read_int z : assoc f l = Some (JInt z) → int64_range z → get f 0%Z as_int (members l) = Some z.
Proof using Hn. intros. eapply get_present; eauto using as_int_range; done. Qed.

Lemma read_uint64 z :
  assoc f l = Some (JInt z) → (0 ≤ z < 2 ^ 64)%Z → get f 0%Z as_uint64 (members l) = Some z.
Proof using Hn.
  intros Ha [H1 H2]. eapply get_present; eauto; try done. cbn [as_uint64].
  by rewrite (proj2 (Z.leb_le _ _) H1), (proj2 (Z.ltb_lt _ _) H2).
Qed.

Lemma read_int_omit z :
  assoc f l = omitempty (z =? 0)%Z (JInt z) → int64_range z → get f 0%Z as_int (members l) = Some z.
Proof using Hn. intros. eapply get_omitempty; eauto using as_int_range; try done. apply Z.eqb_eq. Qed.

Lemma read_dur_omit d :
  assoc f l = omitempty (d =? 0)%Z (JDur d) → get f 0%Z as_dur (members l) = Some d.
Proof using Hn. intros. eapply get_omitempty; eauto; try done. apply Z.eqb_eq. Qed.

Lemma read_bool_omit b :
  assoc f l = omitempty (negb b) (JBool b) → get f false as_bool (members l) = Some b.
Proof using Hn. intros. eapply get_omitempty; eauto; try done. apply negb_true_iff. Qed.

Lemma read_bytes_omit b :
  assoc f l = omitempty (length b =? 0)%nat (JBytes b) → get f [] as_bytes (members l) = Some b.
Proof using Hn.
  intros. eapply get_omitempty; eauto; try done. intros ?%Nat.eqb_eq%length_zero_iff_nil. done.
Qed.

Lemma read_strs_omit ss :
  assoc f l = omitempty (length ss =? 0)%nat (strs_json ss) → get f [] as_strs (members l) = Some ss.
Proof using Hn.
  intros. eapply get_omitempty; eauto using strs_roundtrip; try done.
  intros ?%Nat.eqb_eq%length_zero_iff_nil. done.
Qed.

Lemma read_map_omit {A} (enc : A → option json) (dec : json → option A) (m : gmap string A) j :
  map_json enc m = Some j → assoc f l = omitempty (size m =? 0)%nat j →
  (∀ k a j', m !! k = Some a → enc a = Some j' → dec j' = Some a) →
  get f ∅ (as_map dec) (members l) = Some m.
Proof using Hn.
  intros Hj Ha Hdec. destruct (map_roundtrip enc dec m j Hj Hdec).
  eapply get_omitempty; eauto. intros ?%Nat.eqb_eq%map_size_empty_iff. done.
Qed.

Lemma read_labels_omit m j :
  labels_json m = Some j → assoc f l = omitempty (size m =? 0)%nat j →
  get f ∅ (as_map as_str) (members l) = Some m.
Proof using Hn. intros Hj Ha. eapply read_map_omit; eauto. simpl. naive_solver. Qed.

Lemma read_time t j :
  time_json t = Some j → assoc f l = Some j → get f 0%Z as_time (members l) = Some t.
Proof using Hn.
  unfold time_json. destruct (time_ok t); intros; simplify_eq. by eapply get_present.
Qed.

Lemma read_ptr_time t o :
  ptr_time_json t = Some o → assoc f l = o → get f None as_ptr_time (members l) = Some t.
Proof using Hn.
  unfold ptr_time_json, time_json. destruct t as [t|]; [destruct (time_ok t)|]; intros; simplify_eq/=.
  - by eapply get_present.
  - by eapply get_absent.
Qed.

Lemma read_float_omit x o :
  (if PrimFloat.eqb x 0%float then Some None else Some <$> float_json x) = Some o →
  (PrimFloat.eqb x 0%float = true → x = 0%float) → assoc f l = o →
  get f 0%float as_float (members l) = Some x.
Proof using Hn.
  unfold float_json. intros Ho Hz Ha. destruct (PrimFloat.eqb x 0%float).
  - simplify_eq. rewrite Hz by done. by apply get_absent.
  - destruct (PrimFloat.is_finite x); simplify_eq/=. by eapply get_present.
Qed.

(** A nested struct, through a pointer or by value. *)
Lemma read_ptr {A} (enc : A → option json) (dec : json → option A) (p : option A) o :
  ptr_json enc p = Some o → assoc f l = o →
  (∀ a j, p = Some a → enc a = Some j → dec j = Some a ∧ j ≠ JNull) →
  get f None (λ j, Some <$> dec j) (members l) = Some p.
Proof using Hn.
  unfold ptr_json. intros Hp Ha Hdec. destruct p as [a|]; [|simplify_eq; by eapply get_absent].
  destruct (enc a) as [j|] eqn:He; simplify_eq/=. destruct (Hdec a j) as [Hd Hj]; [done..|].
  eapply get_present; [done..|]. by rewrite Hd.
Qed.

Lemma read_value {A} (zero a : A) (dec : json → option A) j :
  assoc f l = Some j → dec j = Some a ∧ j ≠ JNull → get f zero dec (members l) = Some a.
Proof using Hn. intros Ha [Hd Hj]. by eapply get_present. Qed.

End readers.

#[export] Hint Resolve read_str read_str_omit read_int read_int_omit read_uint64 read_dur_omit read_bool_omit
  read_bytes_omit read_strs_omit read_labels_omit read_time read_ptr_time read_float_omit : codec.
#[export] Hint Extern 1 (names_ok _) => (apply (bool_decide_unpack _); vm_compute; exact I) : codec.
#[export] Hint Extern 1 (assoc _ _ = _) => reflexivity : codec.

Lemma bind_intro {A B} (mx : option A) (f : A → option B) (a : A) (r : option B) :
  mx = Some a → f a = r → mx ≫= f = r.
Proof. intros -> Hf. exact Hf. Qed.

(** Read the next member of a struct; [done] closes the reassembled value. *)
Ltac read_member := eapply bind_intro; [solve [eauto with codec]|].

(** What the wire can carry of a scope's limits. *)
Record limits_codable (l : Limits) : Prop := {
  lc_points : int64_range (MaxPoints l);
  lc_series : int64_range (MaxSeries l);
  lc_bytes : int64_range (MaxResponseBytes l);
  lc_concurrent : int64_range (MaxConcurrentPerCluster l);
  lc_burst : int64_range (RateBurst l);
  lc_rps : PrimFloat.eqb (RateRPS l) 0%float = true → RateRPS l = 0%float
}.

Lemma Limits_roundtrip l j :
  limits_codable l → Limits_json l = Some j → as_Limits j = Some l ∧ j ≠ JNull.
Proof.
  intros [] (rps & Hrps & <-%(inj Some))%bind_Some. split; [|done]. cbn [as_Limits].
  do 8 read_member. by destruct l.
Qed.

Lemma ClusterScope_roundtrip c j :
  ClusterScope_json c = Some j → as_ClusterScope j = Some c ∧ j ≠ JNull.
Proof.
  intros (ml & Hml & <-%(inj Some))%bind_Some. split; [|done]. cbn [as_ClusterScope].
  do 3 read_member. by destruct c.
Qed.

Lemma ToolScope_roundtrip t : as_ToolScope (ToolScope_json t) = Some t ∧ ToolScope_json t ≠ JNull.
Proof. split; [|done]. cbn [as_ToolScope ToolScope_json]. do 2 read_member. by destruct t. Qed.

(** Read a nested struct with its own round trip. *)
Ltac read_struct lem := eapply bind_intro; [eapply read_value; [solve [eauto with codec]..|by apply lem]|].

Lemma Scope_roundtrip s j :
  limits_codable (Scope_Limits s) → Scope_json s = Some j → as_Scope j = Some s ∧ j ≠ JNull.
Proof.
  intros Hl (c & Hc & (l & Hli & <-%(inj Some))%bind_Some)%bind_Some. split; [|done]. cbn [as_Scope].
  read_member. read_struct ClusterScope_roundtrip. read_struct ToolScope_roundtrip.
  read_struct Limits_roundtrip. by destruct s.
Qed.

Lemma EnrollmentGrant_roundtrip g j :
  grant_ints_ok g → EnrollmentGrant_json g = Some j → as_EnrollmentGrant j = Some g ∧ j ≠ JNull.
Proof.
  intros [] (lb & Hlb & (u & Hu & <-%(inj Some))%bind_Some)%bind_Some. split; [|done].
  cbn [as_EnrollmentGrant]. do 7 read_member. by destruct g.
Qed.

(** What the wire can carry of a key. *)
Record key_codable (k : Key) : Prop := {
  kc_scope : ∀ s, Key_Scope k = Some s → limits_codable (Scope_Limits s);
  kc_grant : ∀ g, Enrollment k = Some g → grant_ints_ok g
}.

Lemma Key_roundtrip k j :
  key_codable k → Key_json k = Some j → as_Key j = Some (set_SecretHMAC [] k) ∧ j ≠ JNull.
Proof.
  intros [Hsc Hgr] Hj. unfold Key_json in Hj.
  apply bind_Some in Hj as (sc & Hscj & (en & Hen & (cr & Hcr & (ex & Hex & Hj)%bind_Some)%bind_Some)%bind_Some).
  apply bind_Some in Hj as (lu & Hlu & (rv & Hrv & <-%(inj Some))%bind_Some). split; [|done]. cbn [as_Key].
  do 4 read_member.
  eapply bind_intro. { eapply (read_ptr _ "scope"); eauto using Scope_roundtrip with codec. }
  eapply bind_intro. { eapply (read_ptr _ "enrollment"); eauto using EnrollmentGrant_roundtrip with codec. }
  do 5 read_member. by destruct k.
Qed.

Lemma KeyRecord_roundtrip r j :
  key_codable (rec_Key r) → int64_range (rec_V r) → KeyRecord_json r = Some j →
  as_KeyRecord j = Some (set_rec_Key (set_SecretHMAC []) r) ∧ j ≠ JNull.
Proof.
  intros Hk Hv (jk & Hjk & <-%(inj Some))%bind_Some. split; [|done]. cbn [as_KeyRecord].
  read_member. read_struct Key_roundtrip. read_member. by destruct r.
Qed.

Lemma RevokedCert_roundtrip rc j :
  RevokedCert_json rc = Some j → as_RevokedCert j = Some rc ∧ j ≠ JNull.
Proof.
  intros (at_ & Hat & (na & Hna & <-%(inj Some))%bind_Some)%bind_Some. split; [|done].
  cbn [as_RevokedCert]. do 4 read_member. by destruct rc.
Qed.

Lemma set_SecretHMAC_id k : SecretHMAC k = [] → set_SecretHMAC [] k = k.
Proof. destruct k; simpl. by intros ->. Qed.

Lemma set_rec_Key_id r : set_rec_Key (λ k, k) r = r.
Proof. by destruct r. Qed.

(** What the wire can carry of a document. *)
Definition state_codable (s : State) : Prop := map_Forall (λ _ r, key_codable (rec_Key r)) (Keys s).

Lemma SchemaVersion_range : int64_range SchemaVersion.
Proof. split; vm_compute; discriminate. Qed.

Lemma State_roundtrip s j :
  state_ok s → state_codable s → State_json s = Some j → as_State j = Some s.
Proof.
  intros [Hkeys Hcerts Hep Hv] Hcod (ks & Hks & (rcs & Hrcs & <-%(inj Some))%bind_Some)%bind_Some.
  pose proof SchemaVersion_range. rewrite <- Hv in *. cbn [as_State]. do 2 read_member.
  eapply bind_intro.
  { eapply (read_map_omit _ "keys"); eauto with codec. intros kid r j' Hr Hj'.
    destruct (Hkeys _ _ Hr) as [_ _ _ Hd Hrv].
    destruct (KeyRecord_roundtrip r j') as [-> _]; [by eapply Hcod|by rewrite Hrv, <- Hv|done|].
    f_equal. destruct r as [v k h]. unfold set_rec_Key. simpl in *. by rewrite set_SecretHMAC_id. }
  eapply bind_intro.
  { eapply (read_map_omit _ "revokedCerts"); eauto with codec. intros serial rc j' _ Hj'.
    by apply RevokedCert_roundtrip. }
  by destruct s.
Qed.

(** ** Documents that JSON can express *)

Definition ptr_time_ok (t : option Z) : Prop := from_option (λ t, time_ok t = true) True t.

Record grant_rep (g : EnrollmentGrant) : Prop := {
  gr_ints : grant_ints_ok g;
  gr_used : ptr_time_ok (UsedAt g)
}.

Record scope_rep (s : Scope) : Prop := {
  sr_limits : limits_codable (Scope_Limits s);
  sr_rps : PrimFloat.is_finite (RateRPS (Scope_Limits s)) = true
}.

Record key_rep (k : Key) : Prop := {
  kr_scope : ∀ s, Key_Scope k = Some s → scope_rep s;
  kr_grant : ∀ g, Enrollment k = Some g → grant_rep g;
  kr_created : time_ok (CreatedAt k) = true;
  kr_expires : time_ok (ExpiresAt k) = true;
  kr_used : ptr_time_ok (LastUsed k);
  kr_revoked : ptr_time_ok (RevokedAt k)
}.

Record cert_rep (rc : RevokedCert) : Prop := {
  cr_at : time_ok (rc_RevokedAt rc) = true;
  cr_after : time_ok (rc_NotAfter rc) = true
}.

Record state_rep (s : State) : Prop := {
  rep_Keys : map_Forall (λ _ r, key_rep (rec_Key r)) (Keys s);
  rep_Certs : map_Forall (λ _ rc, cert_rep rc) (RevokedCerts s)
}.

Lemma time_json_ok t : time_ok t = true → time_json t = Some (JTime t).
Proof. unfold time_json. by intros ->. Qed.

Lemma ptr_time_json_ok t : ptr_time_ok t → is_Some (ptr_time_json t).
Proof. destruct t as [t|]; simpl; [|by eexists]. intros ->%time_json_ok. by eexists. Qed.

Lemma map_json_ok {A} (enc : A → option json) (m : gmap string A) :
  map_Forall (λ _ a, is_Some (enc a)) m → is_Some (map_json enc m).
Proof.
  intros Hm. unfold map_json. apply fmap_is_Some, mapM_is_Some, Forall_forall. intros [k a] Hin.
  rewrite (merge_sort_Permutation entry_le) in Hin. apply elem_of_map_to_list in Hin.
  destruct (Hm _ _ Hin) as [j Hj]. simpl. rewrite Hj. by eexists.
Qed.

Lemma labels_json_ok m : is_Some (labels_json m).
Proof. apply map_json_ok. intros ???. by eexists. Qed.

Lemma bind_is_Some {A B} (mx : option A) (f : A → option B) :
  is_Some mx → (∀ a, mx = Some a → is_Some (f a)) → is_Some (mx ≫= f).
Proof. intros [a Ha] Hf. rewrite Ha. simpl. by apply Hf. Qed.

(** Marshal the parts of a struct one after the other. *)
Ltac marshal_parts :=
  repeat (apply bind_is_Some; [solve [auto using labels_json_ok, ptr_time_json_ok, time_json_ok]|intros ? _]);
  try by eexists.

Lemma grant_rep_json g : grant_rep g → is_Some (EnrollmentGrant_json g).
Proof. intros []. unfold EnrollmentGrant_json. marshal_parts. Qed.

Lemma scope_rep_json s : scope_rep s → is_Some (Scope_json s).
Proof.
  intros [Hl Hf]. unfold Scope_json, ClusterScope_json, Limits_json, float_json.
  apply bind_is_Some; [marshal_parts|intros ? _]. apply bind_is_Some; [|intros ? _; by eexists].
  apply bind_is_Some; [|intros ? _; by eexists].
  rewrite Hf. destruct (PrimFloat.eqb _ _); by eexists.
Qed.

Lemma ptr_json_ok {A} (enc : A → option json) (p : option A) :
  (∀ a, p = Some a → is_Some (enc a)) → is_Some (ptr_json enc p).
Proof. destruct p as [a|]; [|by eexists]. intros H. destruct (H a) as [j Hj]; [done|]. simpl. rewrite Hj. by eexists. Qed.

Lemma time_is_Some t : time_ok t = true → is_Some (time_json t).
Proof. intros ->%time_json_ok. by eexists. Qed.

Lemma key_rep_json k : key_rep k → is_Some (Key_json k).
Proof.
  intros []. unfold Key_json.
  apply bind_is_Some; [apply ptr_json_ok; auto using scope_rep_json|intros ? _].
  apply bind_is_Some; [apply ptr_json_ok; auto using grant_rep_json|intros ? _].
  do 2 (apply bind_is_Some; [by apply time_is_Some|intros ? _]). marshal_parts.
Qed.

Lemma state_rep_json s : state_rep s → is_Some (State_json s).
Proof.
  intros [Hk Hc]. unfold State_json. apply bind_is_Some; [apply map_json_ok|intros ? _].
  { intros kid r Hr. apply bind_is_Some; [apply key_rep_json; by eapply Hk|intros ? _; by eexists]. }
  apply bind_is_Some; [apply map_json_ok|intros ? _; by eexists].
  intros serial rc Hrc. destruct (Hc _ _ Hrc).
  do 2 (apply bind_is_Some; [by apply time_is_Some|intros ? _]). by eexists.
Qed.

Lemma state_rep_codable s : state_rep s → state_codable s.
Proof.
  intros [Hk _] kid r Hr. destruct (Hk _ _ Hr) as [Hs Hg _ _ _ _]. constructor; intros; [by apply Hs|by apply Hg].
Qed.

(** What a mutation may bring into the document. *)
Definition mutation_rep (m : Mutation) (now : Z) : Prop :=
  time_ok now = true ∧
  match m with
  | MPutKey k | MPutKeyIfNoUsable k _ => ∀ k', k = Some k' → key_rep k'
  | MReplaceKey k _ _ at_ => (∀ k', k = Some k' → key_rep k') ∧ time_ok at_ = true
  | MRevokeKey _ _ at_ | MTouchKey _ at_ | MBurnEnrollment _ _ at_ => time_ok at_ = true
  | MRevokeCert rc => cert_rep rc
  | MDeleteKey _ | MPrune _ => True
  end.

Lemma when_ok at_ now : time_ok at_ = true → time_ok now = true → time_ok (when_ at_ now) = true.
Proof. unfold when_. by destruct (IsZero at_). Qed.

Lemma insert_rep s kid r :
  state_rep s → key_rep (rec_Key r) → state_rep (set_Keys (<[kid := r]> (Keys s)) s).
Proof. intros [] ?. constructor; simpl; [|done]. by apply map_Forall_insert_2. Qed.

Lemma bump_rep s : state_rep s → state_rep (bump s).
Proof. by intros []. Qed.

Lemma putKey_rep k s : key_rep k → state_rep s → state_rep (putKey k s).
Proof. intros Hk Hs. apply insert_rep; [done|]. simpl. rewrite cloneKey_id. by destruct Hk. Qed.

Lemma redeem_rep g serial t : grant_rep g → time_ok t = true → grant_rep (redeem g serial t).
Proof. intros [[] ?] ?. constructor; [|done]. split; [apply wrap_int64_range|done]. Qed.

Lemma lookup_rep s kid r : state_rep s → Keys s !! kid = Some r → key_rep (rec_Key r).
Proof. intros [Hk _]. apply Hk. Qed.

Lemma grant_at_rep s kid g : state_rep s → grant_at kid s = Some g → grant_ints_ok g.
Proof.
  intros Hs. unfold grant_at. destruct (Keys s !! kid) as [r|] eqn:Hr; [|done]. simpl. intros Hg.
  exact (gr_ints _ (kr_grant _ (lookup_rep _ _ _ Hs Hr) _ Hg)).
Qed.

Lemma update_rep s kid r f :
  state_rep s → Keys s !! kid = Some r → (key_rep (rec_Key r) → key_rep (f (rec_Key r))) →
  state_rep (set_Keys (<[kid := set_rec_Key f r]> (Keys s)) s).
Proof. intros Hs Hr Hf. apply insert_rep; [done|]. eauto using lookup_rep. Qed.

(** Mutations fed with expressible values keep the document expressible. *)
Lemma run_mutation_rep m now s s' r :
  run_mutation m now s = (s', r) → mutation_rep m now → state_rep s → state_rep s'.
Proof.
  destruct r as [b|e]; [|by intros ->%run_mutation_Err].
  destruct m; cbn [run_mutation]; intros H [Hnow Hm] Hs.
  - apply PutKey_Ok in H as (k' & -> & ? & ? & -> & ->). auto using bump_rep, putKey_rep.
  - apply PutKeyIfNoUsable_Ok in H as (k' & -> & ? & [(-> & -> & _)|(-> & -> & _)]); auto using bump_rep, putKey_rep.
  - apply ReplaceKey_Ok in H as (k' & old & -> & ? & ? & Ho & ? & -> & ->). destruct Hm as [Hk Hat].
    apply insert_rep; [auto using bump_rep, putKey_rep|].
    destruct (lookup_rep _ _ _ Hs Ho). constructor; simpl; auto using when_ok.
  - apply RevokeKey_Ok in H as (r & Hr & [(-> & -> & _)|(-> & ? & ->)]); [done|].
    apply bump_rep, update_rep; [done..|]. intros []. constructor; simpl; auto using when_ok.
  - apply DeleteKey_Ok in H as (? & -> & ->). apply bump_rep. destruct Hs.
    constructor; simpl; [by apply map_Forall_delete|done].
  - apply TouchKey_Ok in H as (r & Hr & -> & ->).
    apply update_rep; [done..|]. intros []. constructor; simpl; auto using when_ok.
  - destruct (BurnEnrollment _ _ _ _ _) as [s1 [[]|]] eqn:Hb; simplify_eq/=.
    apply BurnEnrollment_inv in Hb as (r & g & Hr & Hg & ? & ? & ? & ? & ? & ? & ->).
    apply bump_rep, update_rep; [done..|]. intros []. constructor; simpl; auto.
    intros g' [= <-]. auto using redeem_rep, when_ok.
  - unfold RevokeCert in H. destruct (String.eqb (Serial rc) ""); simplify_eq.
    apply bump_rep. destruct Hs. constructor; simpl; [done|].
    apply map_Forall_insert_2; [|done]. destruct Hm, (IsZero (rc_RevokedAt rc)); by constructor.
  - destruct (Prune _ _ _) as [s1 [[res ch]|]] eqn:Hb; simplify_eq/=.
    destruct (Prune_eq now retain s) as (res' & Heq & _); [by eapply Prune_retain|].
    rewrite Heq in Hb. simplify_eq. destruct Hs.
    constructor; simpl; intros ?? [? _]%map_lookup_filter_Some; eauto.
Qed.

(** * The document's round trip *)

Lemma migrate_loop_none rounds v s :
  migrate_loop migrations rounds v s = match rounds with O => Ok s | S _ => Err ErrCorrupt end.
Proof. destruct rounds; [done|]. cbn [migrate_loop]. unfold migrations. by rewrite lookup_empty. Qed.

Lemma migrate_current s : st_SchemaVersion s = SchemaVersion → migrate s = Ok s.
Proof.
  intros Hv. unfold migrate, migrateTo. rewrite Hv. cbn [SchemaVersion]. simpl. by rewrite Hv.
Qed.

Lemma set_SchemaVersion_id s : st_SchemaVersion s = SchemaVersion → set_SchemaVersion SchemaVersion s = s.
Proof. destruct s; simpl. by intros ->. Qed.

Section roundtrip.
Context {Bytes : Type} `{JsonText Bytes}.

Lemma decode_encode s : state_ok s → state_rep s → Decode (Encode s) = Ok s.
Proof.
  intros Hs Hr. destruct (state_rep_json s Hr) as [j Hj].
  pose proof (ok_Schema s Hs) as Hv. unfold Encode. rewrite set_SchemaVersion_id, Hj by done.
  unfold Decode. pose proof (print_json_len j).
  destruct (Z.eqb_spec (bytes_len (print_json j)) 0); [lia|].
  rewrite parse_print. simpl.
  rewrite (State_roundtrip s j) by eauto using state_rep_codable. by apply migrate_current.
Qed.


(** A document JSON cannot express is encoded as nothing at all.  The error
of [json.Marshal] is dropped, so [EncodeWithin] reports success with no bytes,
and the next [Decode] reads an empty document: every credential and every
revocation is gone.  An instant after the year 9999 is enough. *)
Theorem Encode_drops_unrepresentable (s : State) (max : Z) :
  State_json (set_SchemaVersion SchemaVersion s) = None →
  EncodeWithin max s = Ok bytes_nil ∧ Decode (Encode s) = Ok NewState.
Proof.
  intros Hs. unfold EncodeWithin, Encode, Decode. rewrite Hs, bytes_nil_len. split; [|done].
  destruct (Z.ltb_spec 0 max), (Z.ltb_spec max 0); simpl; [lia|done..].
Qed.


End roundtrip.

(** * Concrete instances *)

(** A text layer whose byte strings are the values themselves. *)
#[export, refine] Instance value_text : JsonText (option json) := {|
  bytes_len o := match o with None => 0%Z | Some _ => 1%Z end;
  bytes_nil := None;
  print_json := Some;
  parse_json o := o
|}.
Proof. all: done. Defined.

Lemma ex_token_rep : key_rep ex_token.
Proof.
  constructor; try done. intros g [= <-]. constructor; [|done]. split; split; vm_compute; discriminate.
Qed.

Lemma ex_put_rep : mutation_rep (MPutKey (Some ex_token)) 10.
Proof. split; [done|]. intros k [= <-]. apply ex_token_rep. Qed.

Lemma NewState_rep : state_rep NewState.
Proof. constructor; apply map_Forall_empty. Qed.

Lemma ex_state_rep : state_rep ex_state.
Proof. eapply run_mutation_rep; [apply surjective_pairing|apply ex_put_rep|apply NewState_rep]. Qed.


(** An enrollment token that expires in the year 10000. *)
Definition ex_far_token : Key :=
  {| KID := "tok0000002"; Class := ClassEnrollment; Name := "far"; Owner := "";
     SecretHMAC := [Byte.x03]; Key_Scope := None; Enrollment := None;
     CreatedAt := 10; ExpiresAt := 3652059 * day; LastUsed := None; RevokedAt := None; RevokedReason := "" |}.

Lemma Encode_drops_unrepresentable_witness :
  size (Keys (PutKey (Some ex_far_token) ex_state).1) = 2
  ∧ Decode (Encode (Bytes := option json) (PutKey (Some ex_far_token) ex_state).1) = Ok NewState.
Proof.
  split; [vm_compute; reflexivity|].
  apply (Encode_drops_unrepresentable (Bytes := option json) (PutKey (Some ex_far_token) ex_state).1 MaxStateBytes).
  vm_compute. reflexivity.
Defined.
