(* ===== verification/FileStore.v ===== *)
(** The single-file backend of [src/internal/store/filestore/filestore.go]:
the document lives in one file, mutations run under one mutex and replace the
file by a temporary file and a rename.

Every method holds the mutex for its whole body, so a method is one step on
the store's state.  The operating system's answers are inputs: how far a write
gets, and whether the caller's context has ended. *)

From S2P Require Import Prelude Fleet State Codec.
Open Scope string_scope.

(** * Errors shared by the backends *)

Inductive BackendError :=
| BContext                     (** the context's own error *)
| BStore (e : StoreError)      (** a sentinel of the store package *)
| BIO                          (** the operating system refused *)
| BInsecureFile
| BConflict                    (** another writer won every attempt *)
| BKube.                       (** any other answer of the API server *)

(** [CheckContext]: a cancelled call does no work, a closed store says so. *)
Definition CheckContext (ctx_err closed : bool) : option BackendError :=
  if ctx_err then Some BContext
  else if closed then Some (BStore ErrClosed)
  else None.

(** What a mutation callback returns: the document, and the captured result
with the changed flag, or an error. *)
Abbreviation Callback A := (State → State * result StoreError (A * bool)) (only parsing).

Definition changed_only (f : State → State * result StoreError bool) : Callback unit :=
  λ s, let '(s', r) := f s in (s', pair tt <$> r).

(** * The file and the store *)

Section file.
Context {Bytes : Type} `{JsonText Bytes}.

Record FileStore := {
  fs_maxBytes : Z;
  fs_data : Bytes;         (** the in-memory copy *)
  fs_closed : bool;
  fs_disk : Bytes          (** the file under the store's path *)
}.

(** How far replacing the file got. *)
Inductive WriteOutcome :=
| CreateTempFails | WriteFails | SyncFails | CloseFails | RenameFails | WriteSucceeds.

Definition set_data (b disk : Bytes) (s : FileStore) : FileStore :=
  {| fs_maxBytes := fs_maxBytes s; fs_data := b; fs_closed := fs_closed s; fs_disk := disk |}.

(** [write]: nothing before the rename touches the file under the path. *)
Definition FS_write (out : WriteOutcome) (b : Bytes) (s : FileStore) : FileStore * result BackendError unit :=
  match out with
  | CreateTempFails | WriteFails | SyncFails | CloseFails | RenameFails => (s, Err BIO)
  | WriteSucceeds => (set_data b b s, Ok tt)
  end.

(** [Open] on what reading the path gave: absent, unreadable, or its bytes and
permission bits. *)
Inductive FileRead :=
| FileAbsent
| FileUnreadable
| FileBytes (b : Bytes) (stat : option Z).

Definition FileMode : Z := 384.  (** 0600 *)

Definition FS_Open (path : string) (maxBytes : Z) (mkdir_ok : bool) (file : FileRead) (out : WriteOutcome)
  : result BackendError FileStore :=
  if String.eqb path "" then Err BIO
  else
    let maxBytes := if (maxBytes =? 0)%Z then MaxStateBytes else maxBytes in
    let s := {| fs_maxBytes := maxBytes; fs_data := bytes_nil; fs_closed := false; fs_disk := bytes_nil |} in
    if negb mkdir_ok then Err BIO
    else match file with
    | FileAbsent =>
      match FS_write out (Encode NewState) s with
      | (_, Err e) => Err e
      | (s, Ok _) => Ok s
      end
    | FileUnreadable => Err BIO
    | FileBytes _ None => Err BIO
    | FileBytes raw (Some perm) =>
      if negb (Z.ldiff perm FileMode =? 0)%Z then Err BInsecureFile
      else match Decode raw with
      | Err e => Err (BStore e)
      | Ok _ => Ok (set_data raw raw s)
      end
    end.

Definition FS_Size (s : FileStore) : Z := bytes_len (fs_data s).

Definition FS_Close (s : FileStore) : FileStore :=
  {| fs_maxBytes := fs_maxBytes s; fs_data := fs_data s; fs_closed := true; fs_disk := fs_disk s |}.

Definition FS_read (ctx_err : bool) (s : FileStore) : result BackendError State :=
  match CheckContext ctx_err (fs_closed s) with
  | Some e => Err e
  | None => match Decode (fs_data s) with Err e => Err (BStore e) | Ok st => Ok st end
  end.

Definition FS_mutate {A} (ctx_err : bool) (fn : Callback A) (out : WriteOutcome) (s : FileStore)
  : FileStore * result BackendError A :=
  match FS_read ctx_err s with
  | Err e => (s, Err e)
  | Ok st =>
    match fn st with
    | (_, Err e) => (s, Err (BStore e))
    | (_, Ok (a, false)) => (s, Ok a)
    | (st', Ok (a, true)) =>
      match EncodeWithin (fs_maxBytes s) st' with
      | Err e => (s, Err (BStore e))
      | Ok encoded =>
        match FS_write out encoded s with
        | (s', Err e) => (s', Err e)
        | (s', Ok _) => (s', Ok a)
        end
      end
    end
  end.

(** * The methods of the store *)

Section methods.
Context (ctx_err : bool) (now : Z) (out : WriteOutcome).

Definition FS_PutKey (k : option Key) := FS_mutate ctx_err (changed_only (PutKey k)) out.

Definition FS_PutKeyIfNoUsable (k : option Key) (at_ : Z) : FileStore → FileStore * result BackendError bool :=
  FS_mutate ctx_err
    (λ st, let '(st', r) := PutKeyIfNoUsable k (when_ at_ now) st in (st', (λ b, (b, b)) <$> r)) out.

Definition FS_ReplaceKey (fresh : option Key) (oldKID reason : string) (at_ : Z) :=
  FS_mutate ctx_err (changed_only (ReplaceKey fresh oldKID reason at_ now)) out.

Definition FS_Prune (retain : Z) : FileStore → FileStore * result BackendError PruneResult :=
  FS_mutate ctx_err (Prune now retain) out.

Definition FS_RevokeKey (kid reason : string) (at_ : Z) :=
  FS_mutate ctx_err (changed_only (RevokeKey kid reason at_ now)) out.

Definition FS_DeleteKey (kid : string) := FS_mutate ctx_err (changed_only (DeleteKey kid)) out.

Definition FS_TouchKey (kid : string) (at_ : Z) := FS_mutate ctx_err (changed_only (TouchKey kid at_ now)) out.

Definition FS_BurnEnrollment (kid serial : string) (at_ : Z) : FileStore → FileStore * result BackendError Key :=
  FS_mutate ctx_err (BurnEnrollment kid serial at_ now) out.

Definition FS_RevokeCert (rc : RevokedCert) := FS_mutate ctx_err (changed_only (RevokeCert rc now)) out.

Definition FS_GetKey (kid : string) (s : FileStore) : result BackendError Key :=
  match FS_read ctx_err s with
  | Err e => Err e
  | Ok st => match GetKey kid st with Ok k => Ok k | Err e => Err (BStore e) end
  end.

Definition FS_ListKeys (class : KeyClass) (s : FileStore) : result BackendError (list Key) :=
  match FS_read ctx_err s with Err e => Err e | Ok st => Ok (ListKeys class st) end.

Definition FS_ListRevokedCerts (s : FileStore) : result BackendError (list RevokedCert) :=
  match FS_read ctx_err s with Err e => Err e | Ok st => Ok (ListRevokedCerts st) end.

Definition FS_Epoch (s : FileStore) : result BackendError Z :=
  match FS_read ctx_err s with Err e => Err e | Ok st => Ok (Epoch st) end.

End methods.

(** Any mutation as the store's methods run it. *)
Definition FS_run (m : Mutation) (ctx_err : bool) (now : Z) (out : WriteOutcome) (s : FileStore)
  : FileStore * result BackendError bool :=
  FS_mutate ctx_err
    (λ st, let '(st', r) := run_mutation m now st in (st', (λ b, (b, b)) <$> r)) out s.

(** * Refinement of the abstract document *)

(** The store holds document [s], in memory and on disk. *)
Record fs_holds (fs : FileStore) (s : State) : Prop := {
  fh_doc : Decode (fs_data fs) = Ok s;
  fh_disk : fs_disk fs = fs_data fs;
  fh_ok : state_ok s;
  fh_rep : state_rep s
}.

Lemma EncodeWithin_Ok max s b : EncodeWithin max s = Ok b → b = Encode s.
Proof. unfold EncodeWithin. intros [_ [= ->]]%guard_ok. done. Qed.

Lemma FS_read_holds ctx_err fs s :
  fs_holds fs s → fs_closed fs = false → FS_read ctx_err fs = if ctx_err then Err BContext else Ok s.
Proof. intros [Hd _ _ _] Hc. unfold FS_read, CheckContext. rewrite Hc, Hd. by destruct ctx_err. Qed.

(** The file backend refines the document.  If the store holds document [s]
and is open, a mutation that answers success leaves it holding, in memory and
on disk, exactly the document the mutation makes of [s]; one that answers an
error, whatever the cause, leaves the store and the file exactly as they were;
and it succeeds whenever the context is live, the mutation itself succeeds, the
encoded document fits and the write goes through. *)
Theorem FS_run_refines (m : Mutation) (ctx_err : bool) (now : Z) (out : WriteOutcome) (fs fs' : FileStore)
    (s : State) (r : result BackendError bool) :
  fs_holds fs s → fs_closed fs = false → mutation_rep m now → FS_run m ctx_err now out fs = (fs', r) →
  match r with
  | Ok b => run_mutation m now s = ((run_mutation m now s).1, Ok b)
            ∧ fs_holds fs' (run_mutation m now s).1 ∧ fs_closed fs' = false
  | Err e => fs' = fs
             ∧ (ctx_err = false → out = WriteSucceeds →
                e = BStore ErrStateTooLarge ∨ ∃ se, (run_mutation m now s).2 = Err se ∧ e = BStore se)
  end.
Proof.
  intros Hh Hc Hm Hrun. unfold FS_run, FS_mutate in Hrun. rewrite (FS_read_holds _ _ _ Hh Hc) in Hrun.
  destruct ctx_err; [simplify_eq; by split|].
  destruct (run_mutation m now s) as [s' [b|e]] eqn:Hrm; simpl in *.
  2:{ simplify_eq. split; [done|]. eauto. }
  destruct b; simpl in Hrun.
  - destruct (EncodeWithin (fs_maxBytes fs) s') as [enc|e] eqn:He.
    + apply EncodeWithin_Ok in He as ->.
      destruct out; simpl in Hrun; simplify_eq; [by split..|].
      destruct Hh as [Hd Hdisk Hok Hrep]. split_and!; [done| |done].
      assert (state_ok s') by eauto using run_mutation_ok.
      assert (state_rep s') by eauto using run_mutation_rep.
      constructor; simpl; auto using decode_encode.
    + simplify_eq. unfold EncodeWithin in He. split; [done|]. intros _ _. left.
      destruct (_ && _); by simplify_eq.
  - pose proof (epoch_unchanged _ _ _ _ Hrm) as ->. simplify_eq. done.
Qed.

(** Opening never discards credentials.  [Open] succeeds only on an absent
file, which it creates holding the empty document, or on a file whose bytes
decode and whose permissions grant nobody but the owner, whose bytes it keeps
as they are; every other case is an error. *)
Theorem FS_Open_correct (path : string) (maxBytes : Z) (mkdir_ok : bool) (file : FileRead) (out : WriteOutcome)
    (fs : FileStore) :
  FS_Open path maxBytes mkdir_ok file out = Ok fs →
  path ≠ "" ∧ mkdir_ok = true ∧ fs_closed fs = false ∧ fs_disk fs = fs_data fs
  ∧ ((file = FileAbsent ∧ out = WriteSucceeds ∧ fs_data fs = Encode NewState ∧ Decode (fs_data fs) = Ok NewState)
     ∨ ∃ raw perm s, file = FileBytes raw (Some perm) ∧ (∀ i, (0 ≤ i)%Z → Z.testbit perm i = true → Z.testbit FileMode i = true)
         ∧ fs_data fs = raw ∧ Decode raw = Ok s).
Proof.
  unfold FS_Open. destruct (String.eqb_spec path "") as [|Hp]; [done|].
  destruct mkdir_ok; [|done]. cbn [negb].
  destruct file as [| |raw [perm|]]; [| |destruct (Z.eqb_spec (Z.ldiff perm FileMode) 0) as [Hperm|]|]; try done.
  - destruct out; [done..|]. intros [= <-]. split_and!; [done..|]. left. split_and!; [done..|]. simpl.
    apply decode_encode; [apply NewState_ok|apply NewState_rep].
  - cbn [negb]. destruct (Decode raw) as [s|e] eqn:Hd; [|done]. intros [= <-]. split_and!; [done..|].
    right. exists raw, perm, s. split_and!; try done. intros i Hi Hbit.
    assert (Z.testbit (Z.ldiff perm FileMode) i = false) as Hz by (rewrite Hperm; apply Z.testbit_0_l).
    rewrite Z.ldiff_spec, Hbit in Hz by done. by apply negb_false_iff in Hz.
Qed.

End file.

Arguments FileStore : clear implicits.
Arguments FileRead : clear implicits.

(** * Concrete instances *)

Definition ex_fs : FileStore (option json) :=
  {| fs_maxBytes := MaxStateBytes; fs_data := Encode ex_state; fs_closed := false; fs_disk := Encode ex_state |}.

Lemma ex_fs_holds : fs_holds ex_fs ex_state.
Proof.
  assert (state_ok ex_state) by apply NewState_run_ok.
  constructor; simpl; auto using ex_state_rep, decode_encode.
Qed.

Lemma FS_run_refines_witness :
  fs_holds (FS_run (MRevokeKey "tok0000001" "leaked" 20) false 20 WriteSucceeds ex_fs).1
    (run_mutation (MRevokeKey "tok0000001" "leaked" 20) 20 ex_state).1.
Proof.
  destruct (FS_run_refines (MRevokeKey "tok0000001" "leaked" 20) false 20 WriteSucceeds ex_fs
    (FS_run (MRevokeKey "tok0000001" "leaked" 20) false 20 WriteSucceeds ex_fs).1 ex_state (Ok true))
    as (_ & Hh & _); [apply ex_fs_holds|reflexivity|split; vm_compute; reflexivity| |exact Hh].
  vm_compute. reflexivity.
Defined.

Lemma FS_Open_correct_witness :
  FS_Open (Bytes := option json) "state.json" 0 true FileAbsent WriteSucceeds
  = Ok {| fs_maxBytes := MaxStateBytes; fs_data := Encode NewState; fs_closed := false; fs_disk := Encode NewState |}
  ∧ "state.json" ≠ "".
Proof.
  split; [vm_compute; reflexivity|].
  eapply (FS_Open_correct (Bytes := option json) "state.json" 0 true FileAbsent WriteSucceeds).
  vm_compute. reflexivity.
Defined.
