(* ===== verification/SecretStore.v ===== *)
(** The Kubernetes Secret backend of
[src/internal/store/secretstore/secretstore.go], with the client calls of
[src/internal/kube/secret.go] and [errors.go] it makes.

Several hub replicas share one Secret.  A mutation is a loop of reads and
conditional writes, and replicas interleave between any two API calls, so a
call in progress is a small state machine and the system is a step relation.
The API server is outside the repository: it is the interface [SecretAPI],
whose laws are the documented optimistic concurrency of a Kubernetes object
(a resource version names one version of the object, and a conditional update
succeeds only against the current one). *)

From S2P Require Import Prelude Fleet State Codec FileStore.
Open Scope string_scope.

(** * The client's errors (kube/errors.go) *)

Inductive KubeError :=
| KNotFound
| KAlreadyExists
| KConflict
| KForbidden
| KUnauthorized
| KOther.

#[export] Instance KubeError_eq_dec : EqDecision KubeError.
Proof. solve_decision. Defined.

Definition verbCreateSecret : string := "create secret".
Definition reasonAlreadyExists : string := "AlreadyExists".
Definition reasonConflict : string := "Conflict".

(** [APIError.Unwrap]: the sentinel a status, reason and verb stand for. *)
Definition APIError_Unwrap (status : Z) (reason verb : string) : KubeError :=
  if (status =? 404)%Z then KNotFound
  else if (status =? 403)%Z then KForbidden
  else if (status =? 401)%Z then KUnauthorized
  else if (status =? 409)%Z then
    if String.eqb reason reasonAlreadyExists then KAlreadyExists
    else if String.eqb reason reasonConflict then KConflict
    else if String.eqb verb verbCreateSecret then KAlreadyExists
    else KConflict
  else KOther.

(** [ValidateName]: the grammar of an object name, [nameRE]. *)
Definition name_edge (c : ascii) : bool :=
  let n := nat_of_ascii c in
  ((97 <=? n) && (n <=? 122) || (48 <=? n) && (n <=? 57))%nat.
Definition name_inner (c : ascii) : bool := name_edge c || Ascii.eqb c "-" || Ascii.eqb c ".".

Definition ValidateName (name : string) : bool :=
  let l := list_ascii_of_string name in
  match l with
  | [] => false
  | c :: rest =>
    name_edge c && forallb name_inner rest && name_edge (List.last rest c) && (length l <=? 253)%nat
  end.

(** * Secrets and the server *)

Section secret.
Context {Bytes : Type} `{JsonText Bytes}.

Record Secret := {
  sec_Name : string;
  ResourceVersion : string;
  sec_Data : gmap string Bytes;
  sec_Labels : gmap string string;
  sec_Annotations : gmap string string
}.

(** What the code relies on of the API server. *)
Class SecretAPI (Srv : Type) := {
  (** the object under the store's name, and every version it has had *)
  srv_secret : Srv → option Secret;
  srv_seen : Srv → Secret → Prop;
  (** the answers a request may get *)
  api_get : Srv → result KubeError Secret → Prop;
  api_create : Srv → Secret → Srv → result KubeError Secret → Prop;
  api_update : Srv → Secret → Srv → result KubeError Secret → Prop;
  seen_current srv s : srv_secret srv = Some s → srv_seen srv s;
  seen_unique srv s1 s2 :
    srv_seen srv s1 → srv_seen srv s2 → ResourceVersion s1 = ResourceVersion s2 → s1 = s2;
  seen_create srv s srv' r s1 : api_create srv s srv' r → srv_seen srv s1 → srv_seen srv' s1;
  seen_update srv s srv' r s1 : api_update srv s srv' r → srv_seen srv s1 → srv_seen srv' s1;
  get_ok srv s : api_get srv (Ok s) → srv_secret srv = Some s;
  create_ok srv s srv' s' :
    api_create srv s srv' (Ok s') →
    srv_secret srv = None ∧ srv_secret srv' = Some s' ∧ sec_Data s' = sec_Data s;
  (** a refused create changes nothing; a lost answer may hide one that happened *)
  create_err srv s srv' e :
    api_create srv s srv' (Err e) →
    srv_secret srv' = srv_secret srv ∨ (e ≠ KAlreadyExists ∧ ∃ s', api_create srv s srv' (Ok s'));
  update_ok srv s srv' s' :
    api_update srv s srv' (Ok s') → ResourceVersion s ≠ "" →
    (∃ cur, srv_secret srv = Some cur ∧ ResourceVersion cur = ResourceVersion s)
    ∧ srv_secret srv' = Some s' ∧ sec_Data s' = sec_Data s;
  (** a conflict changes nothing; a lost answer may hide an update that happened *)
  update_err srv s srv' e :
    api_update srv s srv' (Err e) →
    srv_secret srv' = srv_secret srv ∨ (e ≠ KConflict ∧ ∃ s', api_update srv s srv' (Ok s'))
}.

(** * The store of one replica *)

Record SecretStore := {
  ss_name : string;
  ss_key : string;
  ss_labels : gmap string string;
  ss_ttl : Z;
  ss_maxAttempts : nat;
  ss_maxBytes : Z;
  ss_backoff : Z;
  ss_cached : option Secret;
  ss_cachedAt : Z;
  ss_size : Z;
  ss_closed : bool
}.

Definition DefaultSecretName : string := "prometheus-mcp-fleet-state".
Definition DefaultKey : string := "state.json".
Definition DefaultCacheTTL : Z := Second.
Definition DefaultMaxAttempts : Z := 5.
Definition DefaultBackoff : Z := (20 * Millisecond)%Z.
Definition maxBackoff : Z := (500 * Millisecond)%Z.

Inductive OpenError := NoClient | BadName | BadAttempts.

Definition SS_Open (client : bool) (name key : string) (labels : gmap string string)
    (ttl attempts maxBytes backoff : Z) : result OpenError SecretStore :=
  if negb client then Err NoClient
  else
    let name := if String.eqb name "" then DefaultSecretName else name in
    if negb (ValidateName name) then Err BadName
    else
      let key := if String.eqb key "" then DefaultKey else key in
      let ttl := if (ttl =? 0)%Z then DefaultCacheTTL else ttl in
      let attempts := if (attempts =? 0)%Z then DefaultMaxAttempts else attempts in
      if (attempts <? 1)%Z then Err BadAttempts
      else
        let maxBytes := if (maxBytes =? 0)%Z then MaxStateBytes else maxBytes in
        let backoff := if (backoff =? 0)%Z then DefaultBackoff else backoff in
        Ok {| ss_name := name; ss_key := key; ss_labels := labels; ss_ttl := ttl;
              ss_maxAttempts := Z.to_nat attempts; ss_maxBytes := maxBytes; ss_backoff := backoff;
              ss_cached := None; ss_cachedAt := 0; ss_size := 0; ss_closed := false |}.

Definition with_cache (c : option Secret) (at_ size : Z) (st : SecretStore) : SecretStore :=
  {| ss_name := ss_name st; ss_key := ss_key st; ss_labels := ss_labels st; ss_ttl := ss_ttl st;
     ss_maxAttempts := ss_maxAttempts st; ss_maxBytes := ss_maxBytes st; ss_backoff := ss_backoff st;
     ss_cached := c; ss_cachedAt := at_; ss_size := size; ss_closed := ss_closed st |}.

(** [sec.Data[s.key]]: no bytes when the key is absent. *)
Definition doc_bytes (key : string) (sec : Secret) : Bytes := default bytes_nil (sec_Data sec !! key).

Definition ss_cache (sec : Secret) (now : Z) (st : SecretStore) : SecretStore :=
  with_cache (Some sec) now (bytes_len (doc_bytes (ss_key st) sec)) st.

Definition ss_invalidate (st : SecretStore) : SecretStore :=
  with_cache None (ss_cachedAt st) (ss_size st) st.

Definition cachedSecret (now : Z) (st : SecretStore) : option Secret :=
  match ss_cached st with
  | None => None
  | Some sec =>
    if (ss_ttl st <=? 0)%Z || (ss_ttl st <=? Sub now (ss_cachedAt st))%Z then None else Some sec
  end.

Definition SS_Close (st : SecretStore) : SecretStore :=
  {| ss_name := ss_name st; ss_key := ss_key st; ss_labels := ss_labels st; ss_ttl := ss_ttl st;
     ss_maxAttempts := ss_maxAttempts st; ss_maxBytes := ss_maxBytes st; ss_backoff := ss_backoff st;
     ss_cached := None; ss_cachedAt := ss_cachedAt st; ss_size := ss_size st; ss_closed := true |}.

Definition ss_decode (st : SecretStore) (sec : Secret) : result BackendError State :=
  match Decode (doc_bytes (ss_key st) sec) with Err e => Err (BStore e) | Ok s => Ok s end.

(** The delay [backoffFor] scales by the jitter. *)
Definition backoff_ceiling (st : SecretStore) (attempt : nat) : Z :=
  let d := wrap_int64 (Z.shiftl (ss_backoff st) (Z.of_nat attempt)) in
  if (maxBackoff <? d)%Z || (d <=? 0)%Z then maxBackoff else d.

(** The Secret written on first use. *)
Definition first_secret (st : SecretStore) : Secret :=
  {| sec_Name := ss_name st; ResourceVersion := ""; sec_Data := {[ss_key st := Encode NewState]};
     sec_Labels := ss_labels st; sec_Annotations := ∅ |}.

(** The body of one attempt after the Secret is in hand: answer at once, or
the object to write. *)
Definition prepare (m : Mutation) (now : Z) (st : SecretStore) (sec : Secret)
  : result BackendError bool + Secret :=
  match ss_decode st sec with
  | Err e => inl (Err e)
  | Ok doc =>
    match run_mutation m now doc with
    | (_, Err e) => inl (Err (BStore e))
    | (_, Ok false) => inl (Ok false)
    | (doc', Ok true) =>
      match EncodeWithin (ss_maxBytes st) doc' with
      | Err e => inl (Err (BStore e))
      | Ok encoded =>
        inr {| sec_Name := sec_Name sec; ResourceVersion := ResourceVersion sec;
               sec_Data := <[ss_key st := encoded]> (sec_Data sec);
               sec_Labels := sec_Labels sec; sec_Annotations := sec_Annotations sec |}
      end
    end
  end.

(** * Calls in progress *)

(** A caller's operation: [read], whose document the getters then query, or
[mutate]. *)
Inductive Op := OpRead | OpMutate (m : Mutation).

Inductive Phase :=
| PLoad                              (** about to load the Secret *)
| PCreate                            (** the Secret is missing *)
| PReread                            (** another replica created it first *)
| PGot (sec : Secret)                (** the Secret is in hand *)
| PUpdate (sec upd : Secret) (m : Mutation) (now : Z). (** the write is prepared *)

Record Call := {
  c_op : Op;
  c_attempt : nat;
  c_phase : Phase
}.

(** What a step shows: nothing, an answer that wrote nothing, or a write with
the answer the caller got. *)
Inductive label :=
| LSilent
| LFail (op : Op) (e : BackendError)
| LRead (s : State)
| LUnchanged (m : Mutation)
| LCommit (m : Mutation) (now : Z) (answer : result BackendError bool).

Context {Srv : Type} `{!SecretAPI Srv}.

(** [UpdateSecret] refuses to send an unconditional overwrite. *)
Definition sendable (s : Secret) : bool := ValidateName (sec_Name s) && negb (String.eqb (ResourceVersion s) "").

Definition UpdateSecret (srv : Srv) (s : Secret) (srv' : Srv) (r : result KubeError Secret) : Prop :=
  if sendable s then api_update srv s srv' r else srv' = srv ∧ r = Err KOther.

Definition next_phase (c : Call) (p : Phase) : option Call :=
  Some {| c_op := c_op c; c_attempt := c_attempt c; c_phase := p |}.

(** The Secret is in hand: a read answers; a mutation answers or prepares its
write. *)
Definition on_secret (st : SecretStore) (c : Call) (sec : Secret) (now : Z) : label * option Call :=
  match c_op c with
  | OpRead => (match ss_decode st sec with Ok s => LRead s | Err e => LFail OpRead e end, None)
  | OpMutate m =>
    match prepare m now st sec with
    | inl (Err e) => (LFail (OpMutate m) e, None)
    | inl (Ok _) => (LUnchanged m, None)
    | inr upd => (LSilent, next_phase c (PUpdate sec upd m now))
    end
  end.

(** After a conflict: try again, or give up when the attempts are used. *)
Definition after_conflict (st : SecretStore) (c : Call) : label * option Call :=
  if (S (c_attempt c) <? ss_maxAttempts st)%nat
  then (LSilent, Some {| c_op := c_op c; c_attempt := S (c_attempt c); c_phase := PLoad |})
  else (LFail (c_op c) BConflict, None).

(** Whether [load] may use the cache: only a first attempt does. *)
Definition cache_allowed (st : SecretStore) (c : Call) (now : Z) : option Secret :=
  match c_attempt c with O => cachedSecret now st | S _ => None end.

(** One step of a replica: [read] or [mutate] up to and including its next
request. *)
Inductive replica_step (srv : Srv) (st : SecretStore) :
  option Call → label → Srv → SecretStore → option Call → Prop :=
| R_start op :
    CheckContext false (ss_closed st) = None →
    replica_step srv st None LSilent srv st (Some {| c_op := op; c_attempt := 0; c_phase := PLoad |})
| R_refused op ctx_err e :
    CheckContext ctx_err (ss_closed st) = Some e →
    replica_step srv st None (LFail op e) srv st None
| R_load_cached c now sec :
    c_phase c = PLoad → cache_allowed st c now = Some sec →
    replica_step srv st (Some c) LSilent srv st (next_phase c (PGot sec))
| R_load_get c now sec :
    c_phase c = PLoad → cache_allowed st c now = None → api_get srv (Ok sec) →
    replica_step srv st (Some c) LSilent srv (ss_cache sec now st) (next_phase c (PGot sec))
| R_load_missing c now :
    c_phase c = PLoad → cache_allowed st c now = None → api_get srv (Err KNotFound) →
    replica_step srv st (Some c) LSilent srv st (next_phase c PCreate)
| R_load_err c now e :
    c_phase c = PLoad → cache_allowed st c now = None → api_get srv (Err e) → e ≠ KNotFound →
    replica_step srv st (Some c) (LFail (c_op c) BKube) srv st None
| R_create_ok c now srv' sec :
    c_phase c = PCreate → api_create srv (first_secret st) srv' (Ok sec) →
    replica_step srv st (Some c) LSilent srv' (ss_cache sec now st) (next_phase c (PGot sec))
| R_create_lost c srv' :
    c_phase c = PCreate → api_create srv (first_secret st) srv' (Err KAlreadyExists) →
    replica_step srv st (Some c) LSilent srv' st (next_phase c PReread)
| R_create_err c srv' e :
    c_phase c = PCreate → api_create srv (first_secret st) srv' (Err e) → e ≠ KAlreadyExists →
    replica_step srv st (Some c) (LFail (c_op c) BKube) srv' st None
| R_reread_ok c now sec :
    c_phase c = PReread → api_get srv (Ok sec) →
    replica_step srv st (Some c) LSilent srv (ss_cache sec now st) (next_phase c (PGot sec))
| R_reread_err c e :
    c_phase c = PReread → api_get srv (Err e) →
    replica_step srv st (Some c) (LFail (c_op c) BKube) srv st None
| R_got c sec now :
    c_phase c = PGot sec →
    replica_step srv st (Some c) (on_secret st c sec now).1 srv st (on_secret st c sec now).2
| R_update_ok c sec upd m now now' srv' sec' :
    c_phase c = PUpdate sec upd m now → UpdateSecret srv upd srv' (Ok sec') →
    replica_step srv st (Some c) (LCommit m now (Ok true)) srv' (ss_cache sec' now' st) None
| R_update_conflict c sec upd m now srv' :
    c_phase c = PUpdate sec upd m now → UpdateSecret srv upd srv' (Err KConflict) →
    replica_step srv st (Some c) (after_conflict st c).1 srv' (ss_invalidate st) (after_conflict st c).2
| R_update_interrupted c sec upd m now srv' :
    (** the context ends during the backoff *)
    c_phase c = PUpdate sec upd m now → UpdateSecret srv upd srv' (Err KConflict) →
    replica_step srv st (Some c) (LFail (c_op c) BContext) srv' (ss_invalidate st) None
| R_update_err c sec upd m now srv' e :
    c_phase c = PUpdate sec upd m now → UpdateSecret srv upd srv' (Err e) → e ≠ KConflict →
    srv_secret srv' = srv_secret srv →
    replica_step srv st (Some c) (LFail (c_op c) BKube) srv' st None
| R_update_unsure c sec upd m now srv' e sec' :
    (** the write happened and its answer was lost *)
    c_phase c = PUpdate sec upd m now → sendable upd = true → api_update srv upd srv' (Err e) → e ≠ KConflict →
    api_update srv upd srv' (Ok sec') →
    replica_step srv st (Some c) (LCommit m now (Err BKube)) srv' st None.

(** * The replicas together *)

Record System := {
  sys_srv : Srv;
  sys_replicas : gmap nat (SecretStore * option Call)
}.

(** The document the server holds under [key]. *)
Definition doc_of (key : string) (srv : Srv) : result StoreError State :=
  match srv_secret srv with
  | None => Ok NewState
  | Some sec => Decode (doc_bytes key sec)
  end.

Inductive sys_step (key : string) : System → label → System → Prop :=
| sys_replica srv reps i st c l srv' st' c' :
    reps !! i = Some (st, c) → replica_step srv st c l srv' st' c' →
    sys_step key {| sys_srv := srv; sys_replicas := reps |} l
                 {| sys_srv := srv'; sys_replicas := <[i := (st', c')]> reps |}
| sys_close srv reps i st c :
    reps !! i = Some (st, c) →
    sys_step key {| sys_srv := srv; sys_replicas := reps |} LSilent
                 {| sys_srv := srv; sys_replicas := <[i := (SS_Close st, c)]> reps |}
| sys_other_keys srv reps srv' :
    (** another writer of the object, which leaves the document alone *)
    doc_of key srv' = doc_of key srv → (∀ s, srv_seen srv s → srv_seen srv' s) →
    sys_step key {| sys_srv := srv; sys_replicas := reps |} LSilent
                 {| sys_srv := srv'; sys_replicas := reps |}.

Inductive sys_run (key : string) : System → list label → System → Prop :=
| run_nil y : sys_run key y [] y
| run_cons y l y' tr y'' : sys_step key y l y' → sys_run key y' tr y'' → sys_run key y (l :: tr) y''.

(** The mutations a trace wrote to the server, in order. *)
Definition commit_of (l : label) : option (Mutation * Z) :=
  match l with LCommit m now _ => Some (m, now) | _ => None end.
Definition commits (tr : list label) : list (Mutation * Z) := omap commit_of tr.

(** The redemptions of [kid] a trace answered with success. *)
Definition grants (kid : string) (l : label) : bool :=
  match l with
  | LCommit m _ (Ok _) | LUnchanged m => burns kid m
  | _ => false
  end.
Definition granted (kid : string) (tr : list label) : nat := length (List.filter (grants kid) tr).

(** * Linearizability *)

Open Scope list_scope.

Section linear.
Context (key : string) (s0 : State).

(** [sec] is a version of the object, and its document a past one. *)
Definition past (h : list (Mutation * Z)) (srv : Srv) (sec : Secret) : Prop :=
  srv_seen srv sec ∧ ∃ h1, h1 `prefix_of` h ∧ Decode (doc_bytes key sec) = Ok (run_history h1 s0).

(** The prepared write is the mutation applied to the version it was read from. *)
Definition prepared (sec upd : Secret) (m : Mutation) (now : Z) : Prop :=
  ResourceVersion upd = ResourceVersion sec ∧
  ∃ d d', Decode (doc_bytes key sec) = Ok d ∧ run_mutation m now d = (d', Ok true)
          ∧ doc_bytes key upd = Encode d'.

Definition phase_ok (h : list (Mutation * Z)) (srv : Srv) (p : Phase) : Prop :=
  match p with
  | PGot sec => past h srv sec
  | PUpdate sec upd m now => past h srv sec ∧ prepared sec upd m now
  | _ => True
  end.

Record replica_ok (h : list (Mutation * Z)) (srv : Srv) (st : SecretStore) (c : option Call) : Prop := {
  ro_key : ss_key st = key;
  ro_cache : ∀ sec, ss_cached st = Some sec → past h srv sec;
  ro_phase : ∀ c', c = Some c' → phase_ok h srv (c_phase c')
}.

Record sys_inv (h : list (Mutation * Z)) (y : System) : Prop := {
  si_doc : doc_of key (sys_srv y) = Ok (run_history h s0);
  si_ok : state_ok (run_history h s0);
  si_rep : state_rep (run_history h s0);
  si_replicas : map_Forall (λ _ e, replica_ok h (sys_srv y) e.1 e.2) (sys_replicas y)
}.

(** What an observed step says of the history written before it. *)
Definition explained (h : list (Mutation * Z)) (l : label) : Prop :=
  match l with
  | LCommit m now _ => (run_mutation m now (run_history h s0)).2 = Ok true
  | LRead d => ∃ h1, h1 `prefix_of` h ∧ d = run_history h1 s0
  | LUnchanged m =>
    ∃ h1 now, h1 `prefix_of` h ∧ (run_mutation m now (run_history h1 s0)).2 = Ok false
  | LFail (OpMutate m) (BStore e) =>
    e = ErrClosed ∨ e = ErrStateTooLarge
    ∨ ∃ h1 now, h1 `prefix_of` h ∧ (run_mutation m now (run_history h1 s0)).2 = Err e
  | LFail OpRead (BStore e) => e = ErrClosed
  | LFail _ _ | LSilent => True
  end.

Definition label_rep (l : label) : Prop :=
  match l with LCommit m now _ => mutation_rep m now | _ => True end.

Lemma run_history_snoc h m now s :
  run_history (h ++ [(m, now)]) s = (run_mutation m now (run_history h s)).1.
Proof. revert s. by induction h as [|[m' now'] h IH]; intros s; simpl. Qed.

Lemma past_mono h h' srv srv' sec :
  h `prefix_of` h' → (∀ s, srv_seen srv s → srv_seen srv' s) → past h srv sec → past h' srv' sec.
Proof. intros Hh Hs [Hsec (h1 & Hh1 & Hd)]. split; [auto|]. exists h1. split; [by etrans|done]. Qed.

Lemma replica_mono h h' srv srv' st c :
  h `prefix_of` h' → (∀ s, srv_seen srv s → srv_seen srv' s) →
  replica_ok h srv st c → replica_ok h' srv' st c.
Proof.
  intros Hh Hs [Hk Hc Hp]. split; [done|eauto using past_mono|].
  intros c' Hc'. specialize (Hp c' Hc'). destruct (c_phase c'); simpl in *; try done; [eauto using past_mono|].
  destruct Hp; eauto using past_mono.
Qed.

Lemma past_current h srv sec :
  doc_of key srv = Ok (run_history h s0) → srv_secret srv = Some sec → past h srv sec.
Proof.
  intros Hd Hs. split; [by apply seen_current|]. exists h. split; [done|]. unfold doc_of in Hd. by rewrite Hs in Hd.
Qed.

(** A fresh secret enters the cache and the call. *)
Lemma replica_cached h srv st c sec now p :
  ss_key st = key → past h srv sec → phase_ok h srv p →
  replica_ok h srv (ss_cache sec now st) (next_phase c p).
Proof. intros Hk Hp Hph. split; [done|by intros ? [= <-]|by intros c' [= <-]]. Qed.

Lemma replica_phase h srv st c c' p :
  replica_ok h srv st c → phase_ok h srv p → replica_ok h srv st (next_phase c' p).
Proof. intros [Hk Hc Hp] Hph. split; [done..|by intros c'' [= <-]]. Qed.

Lemma replica_done h srv st c : replica_ok h srv st c → replica_ok h srv st None.
Proof. intros [Hk Hc Hp]. by split. Qed.

Lemma prepare_inr m now st sec upd :
  ss_key st = key → prepare m now st sec = inr upd → prepared sec upd m now.
Proof.
  intros Hk. unfold prepare, ss_decode. rewrite Hk.
  destruct (Decode _) as [d|] eqn:Hd; [|done].
  destruct (run_mutation m now d) as [d' [[]|]] eqn:Hm; try done.
  destruct (EncodeWithin _ d') as [b|] eqn:He; [|done]. apply EncodeWithin_Ok in He as ->.
  intros [= <-]. split; [done|]. exists d, d'. split_and!; [done..|]. unfold doc_bytes. simpl.
  by rewrite lookup_insert_eq.
Qed.

(** An update accepted by the server applies the mutation to the current document. *)
Lemma commit_sound h srv upd srv' sec' sec m now :
  doc_of key srv = Ok (run_history h s0) → state_ok (run_history h s0) → state_rep (run_history h s0) →
  srv_seen srv sec → prepared sec upd m now → ResourceVersion upd ≠ "" → mutation_rep m now →
  api_update srv upd srv' (Ok sec') →
  (run_mutation m now (run_history h s0)).2 = Ok true
  ∧ doc_of key srv' = Ok (run_history (h ++ [(m, now)]) s0)
  ∧ state_ok (run_history (h ++ [(m, now)]) s0) ∧ state_rep (run_history (h ++ [(m, now)]) s0)
  ∧ srv_secret srv' = Some sec'.
Proof.
  intros Hdoc Hok Hrep Hseen (Hrv & d & d' & Hd & Hm & Hupd) Hne Hmr Hup.
  destruct (update_ok _ _ _ _ Hup Hne) as ((cur & Hcur & Hcrv) & Hsec' & Hdata).
  assert (cur = sec) as -> by (eapply seen_unique; [by apply seen_current|done|congruence]).
  unfold doc_of in Hdoc. rewrite Hcur, Hd in Hdoc. injection Hdoc as ->.
  rewrite run_history_snoc, Hm. simpl.
  assert (state_ok d') by eauto using run_mutation_ok. assert (state_rep d') by eauto using run_mutation_rep.
  split_and!; [done| |done..]. unfold doc_of. rewrite Hsec'. unfold doc_bytes in *. rewrite Hdata, Hupd.
  by apply decode_encode.
Qed.

Lemma UpdateSecret_seen srv upd srv' r s :
  UpdateSecret srv upd srv' r → srv_seen srv s → srv_seen srv' s.
Proof. unfold UpdateSecret. destruct (sendable upd); [by apply seen_update|by intros [-> _]]. Qed.

Lemma UpdateSecret_conflict srv upd srv' :
  UpdateSecret srv upd srv' (Err KConflict) → srv_secret srv' = srv_secret srv.
Proof.
  unfold UpdateSecret. destruct (sendable upd); [|by intros [-> _]].
  by intros [|[? _]]%update_err.
Qed.

(** Creating the object leaves the document empty. *)
Lemma create_doc srv st srv' sec d :
  ss_key st = key → doc_of key srv = Ok d → api_create srv (first_secret st) srv' (Ok sec) →
  doc_of key srv' = Ok d ∧ srv_secret srv' = Some sec.
Proof.
  intros Hk Hdoc (Hnone & Hsome & Hdata)%create_ok. unfold doc_of in *. rewrite Hnone in Hdoc. rewrite Hsome.
  injection Hdoc as <-. split; [|done]. unfold doc_bytes. rewrite Hdata. simpl. rewrite Hk, lookup_singleton_eq. simpl.
  apply decode_encode; [apply NewState_ok|apply NewState_rep].
Qed.

Lemma create_err_doc srv st srv' e d :
  ss_key st = key → doc_of key srv = Ok d → api_create srv (first_secret st) srv' (Err e) →
  doc_of key srv' = Ok d.
Proof.
  intros Hk Hd Hc. destruct (create_err _ _ _ _ Hc) as [Heq|(_ & s' & Hok)].
  - unfold doc_of. by rewrite Heq.
  - by eapply create_doc.
Qed.

Lemma doc_of_same srv srv' : srv_secret srv' = srv_secret srv → doc_of key srv' = doc_of key srv.
Proof. intros Heq. unfold doc_of. by rewrite Heq. Qed.

Definition doc_holds (h : list (Mutation * Z)) (srv : Srv) : Prop :=
  doc_of key srv = Ok (run_history h s0) ∧ state_ok (run_history h s0) ∧ state_rep (run_history h s0).

Lemma on_secret_explained h srv st c sec now :
  replica_ok h srv st (Some c) → c_phase c = PGot sec →
  explained h (on_secret st c sec now).1 ∧ commit_of (on_secret st c sec now).1 = None
  ∧ replica_ok h srv st (on_secret st c sec now).2.
Proof.
  intros Hr Hph. pose proof Hr as [Hk Hc Hp]. specialize (Hp c eq_refl). rewrite Hph in Hp.
  pose proof Hp as [Hseen (h1 & Hh1 & Hd)]. unfold on_secret. destruct (c_op c) as [|m].
  { unfold ss_decode. rewrite Hk, Hd. simpl. split_and!; [by exists h1|done|by eapply replica_done]. }
  destruct (prepare m now st sec) as [[b|e]|upd] eqn:Hpr; simpl.
  - split_and!; [|done|by eapply replica_done]. exists h1, now. split; [done|]. revert Hpr.
    unfold prepare, ss_decode. rewrite Hk, Hd. destruct (run_mutation _ _ _) as [d [[]|]]; try done.
    by destruct (EncodeWithin _ _).
  - split_and!; [|done|by eapply replica_done]. revert Hpr. unfold prepare, ss_decode. rewrite Hk, Hd.
    destruct (run_mutation m now (run_history h1 s0)) as [d [[]|e']] eqn:Hm; [|done|].
    + unfold EncodeWithin. destruct (_ && _); [|done]. intros [= <-]. auto.
    + intros [= <-]. right; right. exists h1, now. by rewrite Hm.
  - split_and!; [done..|]. apply prepare_inr in Hpr; [|done]. by eapply replica_phase.
Qed.

(** What a step from history [h] must establish. *)
Definition step_ok (h : list (Mutation * Z)) (srv : Srv) (l : label) (srv' : Srv) (st' : SecretStore)
    (c' : option Call) : Prop :=
  explained h l ∧ doc_holds (h ++ commits [l]) srv' ∧ (∀ s, srv_seen srv s → srv_seen srv' s)
  ∧ replica_ok (h ++ commits [l]) srv' st' c'.

Lemma step_quiet h srv l srv' st' c' :
  doc_holds h srv → commit_of l = None → explained h l → doc_of key srv' = doc_of key srv →
  (∀ s, srv_seen srv s → srv_seen srv' s) → replica_ok h srv' st' c' → step_ok h srv l srv' st' c'.
Proof.
  intros (Hd & Hok & Hrep) Hl He Hsame Hseen Hr. unfold step_ok, commits. simpl. rewrite Hl, app_nil_r.
  split_and!; [done| |done..]. split; [by rewrite Hsame|done].
Qed.

Lemma explained_kube h op : explained h (LFail op BKube).
Proof. by destruct op. Qed.
Lemma explained_context h op : explained h (LFail op BContext).
Proof. by destruct op. Qed.
Lemma explained_conflict h op : explained h (LFail op BConflict).
Proof. by destruct op. Qed.
Hint Resolve explained_kube explained_context explained_conflict : store.

Lemma start_ok h srv st op ctx_err e :
  doc_holds h srv → replica_ok h srv st None → CheckContext ctx_err (ss_closed st) = Some e →
  step_ok h srv (LFail op e) srv st None.
Proof.
  intros Hd Hr Hcl. apply step_quiet; try done. unfold CheckContext in Hcl.
  destruct ctx_err; [simplify_eq; by destruct op|]. destruct (ss_closed st); simplify_eq. destruct op; simpl; auto.
Qed.

Lemma get_step_ok h srv st c sec now :
  doc_holds h srv → ss_key st = key → api_get srv (Ok sec) →
  step_ok h srv LSilent srv (ss_cache sec now st) (next_phase c (PGot sec)).
Proof.
  intros Hd Hk Hg%get_ok. apply step_quiet; try done.
  apply replica_cached; [done|eapply past_current; [apply Hd|done]..].
Qed.

Lemma conflict_step_ok h srv st c upd srv' :
  doc_holds h srv → replica_ok h srv st (Some c) → UpdateSecret srv upd srv' (Err KConflict) →
  step_ok h srv (after_conflict st c).1 srv' (ss_invalidate st) (after_conflict st c).2
  ∧ step_ok h srv (LFail (c_op c) BContext) srv' (ss_invalidate st) None.
Proof.
  intros Hd [Hk Hc Hp] Hu. pose proof (doc_of_same _ _ (UpdateSecret_conflict _ _ _ Hu)) as Hsame.
  assert (∀ s, srv_seen srv s → srv_seen srv' s) by eauto using UpdateSecret_seen.
  split; [|apply step_quiet; auto with store; by split].
  unfold after_conflict. destruct (_ <? _)%nat; apply step_quiet; cbn [fst snd]; try done; auto with store.
  split; [done..|by intros ? [= <-]].
Qed.

Lemma commit_step_ok h srv sec upd m now srv' sec' a st c :
  doc_holds h srv → past h srv sec → prepared sec upd m now → sendable upd = true → mutation_rep m now →
  api_update srv upd srv' (Ok sec') → (∀ s, srv_seen srv s → srv_seen srv' s) →
  replica_ok h srv st c →
  step_ok h srv (LCommit m now a) srv' st None
  ∧ ∀ now', step_ok h srv (LCommit m now a) srv' (ss_cache sec' now' st) None.
Proof.
  intros (Hd & Hok & Hrep) Hp Hprep Hsend Hm Hu Hseen [Hk Hc Hph].
  assert (ResourceVersion upd ≠ "") as Hne.
  { unfold sendable in Hsend. apply andb_true_iff in Hsend as [_ Hn%negb_true_iff].
    by destruct (String.eqb_spec (ResourceVersion upd) ""). }
  destruct (commit_sound h srv upd srv' sec' sec m now) as (? & Hd' & ? & ? & Hs'); try done; [apply Hp|].
  assert (h `prefix_of` h ++ [(m, now)]) by by apply prefix_app_r.
  split; [|intros now']; split_and!; try done; split; try done.
  - eauto using past_mono.
  - intros ? [= <-]. by eapply past_current.
Qed.

Lemma replica_step_ok h srv st c l srv' st' c' :
  replica_step srv st c l srv' st' c' → doc_holds h srv → replica_ok h srv st c → label_rep l →
  step_ok h srv l srv' st' c'.
Proof.
  intros Hstep Hd Hr Hl. pose proof Hr as [Hk Hcache Hphase].
  assert (∀ r s srv', api_create srv (first_secret st) srv' r → srv_seen srv s → srv_seen srv' s) as Hcs
    by eauto using seen_create.
  assert (∀ c, replica_ok h srv st (next_phase c PCreate)) by (intros; by eapply replica_phase).
  assert (replica_ok h srv st None) by eauto using replica_done.
  destruct Hstep as [op Hcl|op ctx_err e Hcl|c now sec Hc Hal|c now sec Hc Hal Hg|c now Hc Hal Hg|c now e Hc Hal Hg Hne
    |c now srv' sec Hc Hcr|c srv' Hc Hcr|c srv' e Hc Hcr Hne|c now sec Hc Hg|c e Hc Hg|c sec now Hc
    |c sec upd m now now' srv' sec' Hc Hu|c sec upd m now srv' Hc Hu|c sec upd m now srv' Hc Hu
    |c sec upd m now srv' e Hc Hu Hne Hsame|c sec upd m now srv' e sec' Hc Hsend Hu Hne Hok'];
    try specialize (Hphase _ eq_refl); try rewrite Hc in Hphase; simpl in Hphase;
    try (apply step_quiet; first [done | by auto with store]; fail).
  - apply step_quiet; try done. split; [done..|by intros ? [= <-]].
  - by eapply start_ok.
  - apply step_quiet; try done. eapply replica_phase; [done|]. apply Hcache. revert Hal.
    unfold cache_allowed, cachedSecret. destruct (c_attempt c); [|done]. destruct (ss_cached st); [|done]. by case_match.
  - by apply get_step_ok.
  - destruct (create_doc _ _ _ _ _ Hk (proj1 Hd) Hcr) as [Hd' Hs'].
    apply step_quiet; try done; [rewrite Hd'; symmetry; apply Hd|eauto|].
    apply replica_cached; [done|by eapply past_current..].
  - apply step_quiet; try done; [rewrite (create_err_doc _ _ _ _ _ Hk (proj1 Hd) Hcr); symmetry; apply Hd|eauto|].
    eapply (replica_phase _ _ _ None); [|done]. apply (replica_mono h h srv srv'); [done|eauto|done].
  - apply step_quiet; eauto with store; [rewrite (create_err_doc _ _ _ _ _ Hk (proj1 Hd) Hcr); symmetry; apply Hd|].
    apply (replica_mono h h srv srv'); [done|eauto|done].
  - by apply get_step_ok.
  - destruct (on_secret_explained h srv st c sec now Hr Hc) as (? & Hco & ?). by apply step_quiet.
  - unfold UpdateSecret in Hu. destruct (sendable upd) eqn:Hsend; [|by destruct Hu]. destruct Hphase.
    eapply commit_step_ok; eauto using seen_update.
  - by eapply conflict_step_ok.
  - by eapply conflict_step_ok.
  - assert (∀ s, srv_seen srv s → srv_seen srv' s) by eauto using UpdateSecret_seen.
    apply step_quiet; eauto using doc_of_same with store. by eapply replica_mono.
  - destruct Hphase. eapply commit_step_ok; eauto using seen_update.
Qed.

Lemma sys_step_ok h y l y' :
  sys_step key y l y' → sys_inv h y → label_rep l → explained h l ∧ sys_inv (h ++ commits [l]) y'.
Proof.
  intros Hstep [Hd Hok Hrep Hreps] Hl.
  destruct Hstep as [srv reps i st c l srv' st' c' Hi Hs|srv reps i st c Hi|srv reps srv' Hsame Hseen];
    simpl in *; try (rewrite app_nil_r; split; [done|]).
  - destruct (replica_step_ok h srv st c l srv' st' c' Hs) as (He & (? & ? & ?) & Hseen & Hr);
      [done|exact (Hreps _ _ Hi)|done|].
    split; [done|]. split; [done..|]. simpl. apply map_Forall_insert_2; [done|].
    intros j e Hj. eapply replica_mono; [|done|exact (Hreps _ _ Hj)]. by apply prefix_app_r.
  - split; [done..|]. simpl. apply map_Forall_insert_2; [|done].
    destruct (Hreps _ _ Hi) as [Hk Hc Hp]. by split.
  - split; simpl; [by rewrite Hsame|done..|]. intros j e Hj. by eapply replica_mono; [|exact Hseen|exact (Hreps _ _ Hj)].
Qed.

Lemma commits_app tr1 tr2 : commits (tr1 ++ tr2) = commits tr1 ++ commits tr2.
Proof. unfold commits. by rewrite omap_app. Qed.

Lemma sys_run_ok h y tr y' :
  sys_run key y tr y' → sys_inv h y → Forall label_rep tr →
  sys_inv (h ++ commits tr) y'
  ∧ ∀ tr1 l tr2, tr = tr1 ++ l :: tr2 → explained (h ++ commits tr1) l.
Proof.
  intros Hrun. revert h. induction Hrun as [y|y l y' tr y'' Hs Hrun IH]; intros h Hinv Hrep.
  { rewrite app_nil_r. split; [done|]. by intros [|??]. }
  apply Forall_cons in Hrep as [Hl Hrep]. destruct (sys_step_ok _ _ _ _ Hs Hinv Hl) as [He Hinv'].
  destruct (IH _ Hinv' Hrep) as [Hfin Hex].
  change (l :: tr) with ([l] ++ tr). rewrite commits_app, app_assoc. split; [done|].
  intros [|l' tr1] l'' tr2; intros [= <- Heq]; [by rewrite app_nil_r|].
  change (l :: tr1) with ([l] ++ tr1). rewrite commits_app, app_assoc. by eapply Hex.
Qed.

(** Replicas that have just been opened satisfy the invariant. *)
Definition fresh_replica (e : SecretStore * option Call) : Prop :=
  ss_key e.1 = key ∧ ss_cached e.1 = None ∧ e.2 = None.

Lemma fresh_sys_inv y :
  doc_of key (sys_srv y) = Ok s0 → state_ok s0 → state_rep s0 →
  map_Forall (λ _ e, fresh_replica e) (sys_replicas y) → sys_inv [] y.
Proof.
  intros Hd Hok Hrep Hf. split; [done..|]. intros i e Hi. destruct (Hf _ _ Hi) as (Hk & Hc & Hn).
  split; [done|by rewrite Hc|by rewrite Hn].
Qed.

End linear.

(** C1: The replicas behave as one document.  Any number of hub replicas, each
with its own cache, interleaved at every request they make of the API server
with lost races, refused and lost answers, closing stores and other writers of
the same object: the server's document is at every moment the result of running
the committed mutations one after another on the initial document, each of
which succeeded and changed it; and every answer a caller gets is the answer of
a document in that one history (a read returns one of its documents, an
unchanged or refused mutation was judged on one of them). *)
Theorem replicas_linearize (key : string) (s0 : State) (y y' : System) (tr : list label) :
  doc_of key (sys_srv y) = Ok s0 → state_ok s0 → state_rep s0 →
  map_Forall (λ _ e, fresh_replica key e) (sys_replicas y) →
  sys_run key y tr y' → Forall label_rep tr →
  doc_of key (sys_srv y') = Ok (run_history (commits tr) s0)
  ∧ (∀ tr1 l tr2, tr = tr1 ++ l :: tr2 → explained s0 (commits tr1) l).
Proof.
  intros Hd Hok Hrep Hf Hrun Hl.
  destruct (sys_run_ok key s0 [] y tr y' Hrun) as [[Hd' _ _ _] Hex]; [by apply fresh_sys_inv|done|by split].
Qed.

Lemma granted_cons kid l tr : granted kid (l :: tr) = (if grants kid l then 1 else 0) + granted kid tr.
Proof. unfold granted. simpl. by destruct (grants kid l). Qed.

Lemma burn_changes kid m now s : burns kid m = true → (run_mutation m now s).2 ≠ Ok false.
Proof.
  destruct m; try done. intros _. cbn [run_mutation].
  destruct (BurnEnrollment _ _ _ _ _) as [s' [[k b]|e]] eqn:Hb; simpl; [|done].
  by apply BurnEnrollment_inv in Hb as (? & ? & _ & _ & _ & _ & _ & _ & -> & _).
Qed.

Lemma granted_burns key s0 kid h y tr y' :
  sys_run key y tr y' → sys_inv key s0 h y → Forall label_rep tr →
  (granted kid tr ≤ burn_count kid (commits tr) (run_history h s0))%nat.
Proof.
  intros Hrun. revert h. induction Hrun as [y|y l y' tr y'' Hs Hrun IH]; intros h Hinv Hrep; [done|].
  apply Forall_cons in Hrep as [Hl Hrep]. destruct (sys_step_ok _ _ _ _ _ _ Hs Hinv Hl) as [He Hinv'].
  specialize (IH _ Hinv' Hrep). rewrite granted_cons. destruct l as [|op e|d|m|m now a]; simpl in *;
    rewrite ?app_nil_r in IH; try done.
  - destruct (burns kid m) eqn:Hb; [|done]. destruct He as (h1 & now & _ & He). by apply (burn_changes kid) in He.
  - rewrite run_history_snoc in IH. destruct (run_mutation m now (run_history h s0)) as [s' r]. simpl in *. subst r.
    simpl. destruct a, (burns kid m); simpl; lia.
Qed.

(** C10: One redemption per single-use token, across all replicas.  Whatever the
interleaving, the redemptions of an enrollment token that callers were told
succeeded number at most what its grant allows at the start: two replicas
redeeming the same single-use token cannot both be answered success. *)
Theorem replicas_burn_within_budget (key kid : string) (s0 : State) (y y' : System) (tr : list label)
    (g : EnrollmentGrant) (b : Z) :
  doc_of key (sys_srv y) = Ok s0 → state_ok s0 → state_rep s0 →
  map_Forall (λ _ e, fresh_replica key e) (sys_replicas y) →
  sys_run key y tr y' → Forall label_rep tr →
  Forall (λ e, stores kid e.1 = false) (commits tr) →
  grant_at kid s0 = Some g → grant_budget g = Some b →
  (Z.of_nat (granted kid tr) ≤ b)%Z.
Proof.
  intros Hd Hok Hrep Hf Hrun Hl Hst Hg Hb.
  pose proof (granted_burns key s0 kid [] y tr y' Hrun (fresh_sys_inv _ _ _ Hd Hok Hrep Hf) Hl) as Hle.
  transitivity (Z.of_nat (burn_count kid (commits tr) s0)); [simpl in Hle; lia|].
  apply burn_count_bound; [done| |unfold budget_at; by rewrite Hg].
  intros g' Hg'. by eapply grant_at_rep.
Qed.

Open Scope nat_scope.

(** * Termination *)

(** Requests a call may still make, counting down through its phases. *)
Definition phase_rank (p : Phase) : nat :=
  match p with PLoad => 5 | PCreate => 4 | PReread => 3 | PGot _ => 2 | PUpdate _ _ _ _ => 1 end.

Definition call_rank (st : SecretStore) (c : Call) : nat :=
  (ss_maxAttempts st - c_attempt c) * 5 + phase_rank (c_phase c).

Inductive call_steps : SecretStore → option Call → nat → Prop :=
| steps_none st c : call_steps st c 0
| steps_more srv st c l srv' st' c' n :
    replica_step srv st (Some c) l srv' st' c' → call_steps st' c' n → call_steps st (Some c) (S n).

Lemma replica_step_rank srv st c l srv' st' c' :
  replica_step srv st (Some c) l srv' st' (Some c') →
  c_attempt c < ss_maxAttempts st →
  call_rank st' c' < call_rank st c ∧ c_attempt c' < ss_maxAttempts st' ∧ ss_maxAttempts st' = ss_maxAttempts st.
Proof.
  intros Hs Ha. unfold call_rank. inversion Hs; subst; simpl in *; unfold next_phase in *; simplify_eq;
    repeat match goal with Hp : c_phase _ = _ |- _ => rewrite Hp end; simpl; try lia.
  - unfold on_secret, next_phase in *. destruct (c_op c); simplify_eq/=. destruct (prepare _ _ _ _) as [[]|]; simplify_eq/=. lia.
  - unfold after_conflict in *. destruct (Nat.ltb_spec (S (c_attempt c)) (ss_maxAttempts st)); simplify_eq/=. lia.
Qed.

Lemma backoff_bounds st attempt : (0 < backoff_ceiling st attempt ≤ maxBackoff)%Z.
Proof.
  unfold backoff_ceiling. generalize (wrap_int64 (Z.shiftl (ss_backoff st) (Z.of_nat attempt))) as d. intros d.
  assert (0 < maxBackoff)%Z by done.
  destruct (Z.ltb_spec maxBackoff d), (Z.leb_spec d 0); simpl; lia.
Qed.

Lemma call_steps_bound st c n :
  call_steps st (Some c) n → c_attempt c < ss_maxAttempts st → n ≤ call_rank st c.
Proof.
  revert st c. induction n as [|n IH]; intros st c Hs Ha; [lia|].
  inversion Hs as [|srv ? ? l srv' st' c' ? Hstep Hn]; subst.
  destruct c' as [c'|].
  - destruct (replica_step_rank _ _ _ _ _ _ _ Hstep Ha) as (Hr & Ha' & _). specialize (IH _ _ Hn Ha'). lia.
  - inversion Hn; subst. unfold call_rank. destruct (c_phase c); simpl; lia.
Qed.

Lemma replica_progress srv st c :
  (∀ srv, ∃ r, api_get srv r) → (∀ srv s, ∃ srv' r, api_create srv s srv' r) →
  (∀ srv s, ∃ srv' r, api_update srv s srv' r) →
  ∃ l srv' st' c', replica_step srv st (Some c) l srv' st' c'.
Proof.
  intros Hget Hcreate Hupd. destruct (c_phase c) as [| | |sec|sec upd m now] eqn:Hp.
  - destruct (cache_allowed st c 0) as [sec|] eqn:Hc; [do 4 eexists; by eapply R_load_cached|].
    destruct (Hget srv) as [[sec|e] Hr]; [do 4 eexists; by eapply R_load_get|].
    destruct (decide (e = KNotFound)) as [->|]; do 4 eexists; [by eapply R_load_missing|by eapply R_load_err].
  - destruct (Hcreate srv (first_secret st)) as (srv' & [sec|e] & Hr); [do 4 eexists; by eapply (R_create_ok _ _ _ 0)|].
    destruct (decide (e = KAlreadyExists)) as [->|]; do 4 eexists; [by eapply R_create_lost|by eapply R_create_err].
  - destruct (Hget srv) as [[sec|e] Hr]; do 4 eexists; [by eapply (R_reread_ok _ _ _ 0)|by eapply R_reread_err].
  - do 4 eexists. by eapply (R_got _ _ _ _ 0).
  - assert (∃ srv' r, UpdateSecret srv upd srv' r) as (srv' & [sec'|e] & Hr).
    { unfold UpdateSecret. destruct (sendable upd); eauto. }
    { do 4 eexists. by eapply (R_update_ok _ _ _ _ _ _ _ 0). }
    destruct (decide (e = KConflict)) as [->|Hne]; [do 4 eexists; by eapply R_update_conflict|].
    unfold UpdateSecret in Hr. destruct (sendable upd) eqn:Hs.
    + destruct (update_err _ _ _ _ Hr) as [Hsame|(_ & sec' & Hok)]; do 4 eexists;
        [eapply R_update_err|eapply R_update_unsure]; unfold UpdateSecret; rewrite ?Hs; done.
    + destruct Hr as [-> [= ->]]. do 4 eexists. eapply R_update_err; [done|unfold UpdateSecret; by rewrite Hs|done..].
Qed.

(** Every call returns.  With at least one attempt configured, a call makes
at most five steps per attempt, so it ends after finitely many requests
whatever the API server answers and whatever other replicas do; and it is never
stuck: as long as the server answers its requests, a call in progress has a
next step.  The wait between two attempts is positive and at most
[maxBackoff], also when the doubling overflows. *)
Theorem mutate_terminates (st : SecretStore) (op : Op) :
  0 < ss_maxAttempts st →
  (∀ srv, ∃ r, api_get srv r) → (∀ srv s, ∃ srv' r, api_create srv s srv' r) →
  (∀ srv s, ∃ srv' r, api_update srv s srv' r) →
  (∀ n, call_steps st (Some {| c_op := op; c_attempt := 0; c_phase := PLoad |}) n → n ≤ ss_maxAttempts st * 5 + 5)
  ∧ (∀ srv st' c, ∃ l srv' st'' c', replica_step srv st' (Some c) l srv' st'' c')
  ∧ (∀ attempt, 0 < backoff_ceiling st attempt ≤ maxBackoff)%Z.
Proof.
  intros Hpos Hget Hcreate Hupd. split_and!; [| |intros attempt; apply backoff_bounds].
  - intros n Hn. transitivity (call_rank st {| c_op := op; c_attempt := 0; c_phase := PLoad |});
      [|unfold call_rank; simpl; lia].
    by apply call_steps_bound.
  - intros srv st' c. by apply replica_progress.
Qed.

End secret.

Arguments Secret : clear implicits.
Arguments SecretStore : clear implicits.
Arguments Call : clear implicits.
Arguments Phase : clear implicits.
Arguments System : clear implicits.

(** * A concrete API server *)

(** The contents of one version of the object. *)
Record Obj := {
  o_Name : string;
  o_Data : gmap string (option json);
  o_Labels : gmap string string;
  o_Annotations : gmap string string
}.

Fixpoint unary (n : nat) : string :=
  match n with O => "" | S n => String "1" (unary n) end.

Lemma unary_inj n m : unary n = unary m → n = m.
Proof. revert m. induction n; intros [|m]; simpl; intros [=]; auto. Qed.

(** The server keeps every version, oldest first; version [i] is named by [i+1]. *)
Definition version (i : nat) (o : Obj) : Secret (option json) :=
  {| sec_Name := o_Name o; ResourceVersion := unary (S i); sec_Data := o_Data o;
     sec_Labels := o_Labels o; sec_Annotations := o_Annotations o |}.

Definition obj_of (s : Secret (option json)) : Obj :=
  {| o_Name := sec_Name s; o_Data := sec_Data s; o_Labels := sec_Labels s; o_Annotations := sec_Annotations s |}.

Definition list_secret (srv : list Obj) : option (Secret (option json)) :=
  version (pred (length srv)) <$> srv !! pred (length srv).

Definition list_create (srv : list Obj) (s : Secret (option json)) : list Obj * result KubeError (Secret (option json)) :=
  match srv with
  | [] => ([obj_of s], Ok (version 0 (obj_of s)))
  | _ => (srv, Err KAlreadyExists)
  end.

Definition list_update (srv : list Obj) (s : Secret (option json)) : list Obj * result KubeError (Secret (option json)) :=
  match list_secret srv with
  | None => (srv, Err KNotFound)
  | Some cur =>
    if String.eqb (ResourceVersion cur) (ResourceVersion s)
    then ((srv ++ [obj_of s])%list, Ok (version (length srv) (obj_of s)))
    else (srv, Err KConflict)
  end.

Definition list_seen (srv : list Obj) (s : Secret (option json)) : Prop :=
  ∃ i o, srv !! i = Some o ∧ s = version i o.

Lemma list_seen_app srv srv' s : list_seen srv s → list_seen (srv ++ srv')%list s.
Proof. intros (i & o & Hi & ->). exists i, o. split; [by apply lookup_app_l_Some|done]. Qed.

Lemma list_secret_snoc srv o : list_secret (srv ++ [o])%list = Some (version (length srv) o).
Proof.
  unfold list_secret. rewrite length_app. simpl. replace (pred (length srv + 1)) with (length srv) by lia.
  by rewrite list_lookup_middle.
Qed.

#[export, refine] Instance list_api : SecretAPI (list Obj) := {|
  srv_secret := list_secret;
  srv_seen := list_seen;
  api_get srv r := r = match list_secret srv with Some s => Ok s | None => Err KNotFound end;
  api_create srv s srv' r := list_create srv s = (srv', r);
  api_update srv s srv' r := list_update srv s = (srv', r)
|}.
Proof.
  - unfold list_secret. intros srv s. destruct (srv !! _) as [o|] eqn:Ho; [|done].
    intros <-%(inj Some). exists (pred (length srv)), o. by split.
  - intros srv s1 s2 (i & o & Hi & ->) (j & o' & Hj & ->) [= ->%unary_inj]. by simplify_eq.
  - intros [|o srv] s srv' r s1 [= <- <-]; [intros (i & o & Hi & _); by rewrite lookup_nil in Hi|done].
  - unfold list_update. intros srv s srv' r s1 Hu Hs. destruct (list_secret srv); [|by injection Hu as <- <-].
    case_match; injection Hu as <- <-; [by apply list_seen_app|done].
  - intros srv s. by destruct (list_secret srv) as [s'|]; intros [= ->].
  - intros [|o srv] s srv' s' [= <- <-]. done.
  - intros [|o srv] s srv' e [= <- <-]. by left.
  - unfold list_update. intros srv s srv' s' Hu Hne. destruct (list_secret srv) as [cur|]; [|done].
    destruct (String.eqb_spec (ResourceVersion cur) (ResourceVersion s)); simplify_eq.
    split_and!; [by eexists|apply list_secret_snoc|done].
  - unfold list_update. intros srv s srv' e Hu. left. assert (srv' = srv) as ->; [|done].
    destruct (list_secret srv); [|by injection Hu as <- <-]. case_match; [done|by injection Hu as <- <-].
Defined.

(** ** Playing a script *)

Definition exec (now : Z) (srv : list Obj) (st : SecretStore (option json)) (c : Call (option json))
  : label * list Obj * SecretStore (option json) * option (Call (option json)) :=
  match c_phase c with
  | PLoad =>
    match cache_allowed st c now, list_secret srv with
    | Some sec, _ => (LSilent, srv, st, next_phase c (PGot sec))
    | None, Some sec => (LSilent, srv, ss_cache sec now st, next_phase c (PGot sec))
    | None, None => (LSilent, srv, st, next_phase c PCreate)
    end
  | PCreate =>
    match list_create srv (first_secret st) with
    | (srv', Ok sec) => (LSilent, srv', ss_cache sec now st, next_phase c (PGot sec))
    | (srv', Err e) =>
      if decide (e = KAlreadyExists) then (LSilent, srv', st, next_phase c PReread)
      else (LFail (c_op c) BKube, srv', st, None)
    end
  | PReread =>
    match list_secret srv with
    | Some sec => (LSilent, srv, ss_cache sec now st, next_phase c (PGot sec))
    | None => (LFail (c_op c) BKube, srv, st, None)
    end
  | PGot sec => ((on_secret st c sec now).1, srv, st, (on_secret st c sec now).2)
  | PUpdate sec upd m t =>
    if sendable upd then
      match list_update srv upd with
      | (srv', Ok sec') => (LCommit m t (Ok true), srv', ss_cache sec' now st, None)
      | (srv', Err e) =>
        if decide (e = KConflict) then ((after_conflict st c).1, srv', ss_invalidate st, (after_conflict st c).2)
        else (LFail (c_op c) BKube, srv', st, None)
      end
    else (LFail (c_op c) BKube, srv, st, None)
  end.

Lemma list_update_err srv s srv' e : list_update srv s = (srv', Err e) → srv' = srv.
Proof. unfold list_update. repeat case_match; congruence. Qed.

Lemma exec_sound now srv st c l srv' st' c' :
  exec now srv st c = (l, srv', st', c') → replica_step srv st (Some c) l srv' st' c'.
Proof.
  unfold exec. destruct (c_phase c) as [| | |sec|sec upd m t] eqn:Hp.
  - destruct (cache_allowed st c now) as [sec|] eqn:Hc; [|destruct (list_secret srv) as [sec|] eqn:Hs];
      intros Heq; injection Heq as <- <- <- <-.
    + by eapply R_load_cached.
    + eapply R_load_get; [done..|]. simpl. by rewrite Hs.
    + eapply R_load_missing; [done..|]. simpl. by rewrite Hs.
  - destruct (list_create srv (first_secret st)) as [srv1 [sec|e]] eqn:Hc; [|case_decide; subst];
      intros Heq; injection Heq as <- <- <- <-.
    + eapply R_create_ok; [done|exact Hc].
    + eapply R_create_lost; [done|exact Hc].
    + eapply R_create_err; [done|exact Hc|done].
  - destruct (list_secret srv) as [sec|] eqn:Hs; intros Heq; injection Heq as <- <- <- <-.
    + eapply R_reread_ok; [done|]. simpl. by rewrite Hs.
    + eapply (R_reread_err _ _ _ KNotFound); [done|]. simpl. by rewrite Hs.
  - intros Heq; injection Heq as <- <- <- <-. by eapply R_got.
  - destruct (sendable upd) eqn:Hsend; [destruct (list_update srv upd) as [srv1 [sec'|e]] eqn:Hu; [|case_decide; subst]|];
      intros Heq; injection Heq as <- <- <- <-.
    + eapply R_update_ok; [done|]. unfold UpdateSecret. by rewrite Hsend.
    + eapply R_update_conflict; [done|]. unfold UpdateSecret. by rewrite Hsend.
    + eapply R_update_err; [done| |done|by rewrite (list_update_err _ _ _ _ Hu)]. unfold UpdateSecret. by rewrite Hsend.
    + eapply (R_update_err _ _ _ _ _ _ _ _ KOther); [done| |done..]. unfold UpdateSecret. by rewrite Hsend.
Qed.

(** Each entry lets one replica take a step at a clock reading, starting the
given operation when it has no call in progress. *)
Fixpoint play (script : list (nat * Op * Z)) (y : System (option json) (list Obj))
  : list label * System (option json) (list Obj) :=
  match script with
  | [] => ([], y)
  | (i, op, now) :: script =>
    match sys_replicas y !! i with
    | None => play script y
    | Some (st, o) =>
      let '(l, srv', st', o') :=
        match o with
        | Some c => exec now (sys_srv y) st c
        | None =>
          match CheckContext false (ss_closed st) with
          | None => (LSilent, sys_srv y, st, Some {| c_op := op; c_attempt := 0; c_phase := PLoad |})
          | Some e => (LFail op e, sys_srv y, st, None)
          end
        end in
      let '(tr, y') := play script {| sys_srv := srv'; sys_replicas := <[i := (st', o')]> (sys_replicas y) |} in
      (l :: tr, y')
    end
  end.

Lemma play_sound key script y : sys_run key y (play script y).1 (play script y).2.
Proof.
  revert y. induction script as [|[[i op] now] script IH]; intros [srv reps]; cbn [play sys_replicas sys_srv]; [constructor|].
  destruct (reps !! i) as [[st o]|] eqn:Hi; [|apply IH].
  destruct o as [c|].
  - destruct (exec now srv st c) as [[[l srv'] st'] c'] eqn:He.
    specialize (IH {| sys_srv := srv'; sys_replicas := <[i := (st', c')]> reps |}).
    destruct (play _ _) as [tr y']. eapply run_cons; [|exact IH]. eapply sys_replica; [done|]. by eapply exec_sound.
  - destruct (CheckContext false (ss_closed st)) as [e|] eqn:Hc; cbv beta iota zeta;
      match goal with |- context [play script ?y] => specialize (IH y); destruct (play script y) as [tr y'] end;
      (eapply run_cons; [|exact IH]); (eapply sys_replica; [done|]); [by eapply R_refused|by eapply R_start].
Qed.

(** ** Two replicas *)

Definition ex_store : SecretStore (option json) :=
  {| ss_name := DefaultSecretName; ss_key := DefaultKey; ss_labels := ∅; ss_ttl := DefaultCacheTTL;
     ss_maxAttempts := 5; ss_maxBytes := MaxStateBytes; ss_backoff := DefaultBackoff;
     ss_cached := None; ss_cachedAt := 0; ss_size := 0; ss_closed := false |}.

Lemma ex_store_open : SS_Open true "" "" ∅ 0 0 0 0 = Ok ex_store.
Proof. vm_compute. reflexivity. Qed.

Definition ex_system (srv : list Obj) : System (option json) (list Obj) :=
  {| sys_srv := srv; sys_replicas := {[0 := (ex_store, None); 1 := (ex_store, None)]} |}.

Lemma ex_system_fresh srv : map_Forall (λ _ e, fresh_replica DefaultKey e) (sys_replicas (ex_system srv)).
Proof.
  simpl. apply map_Forall_insert_2; [done|]. apply map_Forall_insert_2; [done|]. apply map_Forall_empty.
Qed.

(** The object holding [ex_state]. *)
Definition ex_server : list Obj :=
  [ {| o_Name := DefaultSecretName; o_Data := {[DefaultKey := Encode ex_state]}; o_Labels := ∅; o_Annotations := ∅ |} ].

Definition ex_burn (serial : string) : Op := OpMutate (MBurnEnrollment "tok0000001" serial 20).

(** Both replicas read the same version, then race to redeem the token. *)
Definition ex_race : list (nat * Op * Z) :=
  [(0, ex_burn "s0", 20%Z); (0, ex_burn "s0", 20%Z); (1, ex_burn "s1", 20%Z); (1, ex_burn "s1", 20%Z);
   (0, ex_burn "s0", 20%Z); (1, ex_burn "s1", 20%Z); (1, ex_burn "s1", 20%Z); (0, ex_burn "s0", 20%Z);
   (0, ex_burn "s0", 20%Z); (0, ex_burn "s0", 20%Z)].

Definition ex_trace : list label := (play ex_race (ex_system ex_server)).1.

Lemma ex_trace_labels :
  ex_trace = [LSilent; LSilent; LSilent; LSilent; LSilent; LSilent;
              LCommit (MBurnEnrollment "tok0000001" "s1" 20) 20 (Ok true); LSilent; LSilent;
              LFail (ex_burn "s0") (BStore ErrEnrollmentUsed)].
Proof. vm_compute. reflexivity. Qed.

Lemma ex_server_doc : doc_of DefaultKey ex_server = Ok ex_state.
Proof. vm_compute. reflexivity. Qed.

Lemma ex_trace_rep : Forall label_rep ex_trace.
Proof. rewrite ex_trace_labels. repeat constructor. Qed.

Lemma replicas_linearize_witness :
  doc_of DefaultKey (sys_srv (play ex_race (ex_system ex_server)).2)
  = Ok (run_history [(MBurnEnrollment "tok0000001" "s1" 20, 20%Z)] ex_state).
Proof.
  destruct (replicas_linearize DefaultKey ex_state (ex_system ex_server) (play ex_race (ex_system ex_server)).2 ex_trace)
    as [Hd _].
  - exact ex_server_doc.
  - apply NewState_run_ok.
  - apply ex_state_rep.
  - apply ex_system_fresh.
  - apply play_sound.
  - apply ex_trace_rep.
  - rewrite Hd, ex_trace_labels. reflexivity.
Defined.

Lemma replicas_burn_within_budget_witness :
  granted "tok0000001" ex_trace = 1 ∧ (Z.of_nat (granted "tok0000001" ex_trace) ≤ 1)%Z.
Proof.
  split; [by rewrite ex_trace_labels|].
  apply (replicas_burn_within_budget DefaultKey "tok0000001" ex_state (ex_system ex_server)
           (play ex_race (ex_system ex_server)).2 ex_trace ex_grant).
  - exact ex_server_doc.
  - apply NewState_run_ok.
  - apply ex_state_rep.
  - apply ex_system_fresh.
  - apply play_sound.
  - apply ex_trace_rep.
  - rewrite ex_trace_labels. repeat constructor.
  - vm_compute. reflexivity.
  - reflexivity.
Defined.

Lemma mutate_terminates_witness : (0 < backoff_ceiling ex_store 70 ≤ maxBackoff)%Z.
Proof.
  refine (proj2 (proj2 (mutate_terminates (Srv := list Obj) ex_store (ex_burn "s0") _ _ _ _)) 70%nat).
  - simpl. lia.
  - intros srv. by eexists.
  - intros srv s. exists (list_create srv s).1, (list_create srv s).2. apply surjective_pairing.
  - intros srv s. exists (list_update srv s).1, (list_update srv s).2. apply surjective_pairing.
Defined.

(** Replica 0 reads the empty document; replica 1 mints a token; within the
cache's lifetime replica 0 is asked to redeem it. *)
Definition ex_mint : Op := OpMutate (MPutKey (Some ex_token)).
Definition ex_stale : list (nat * Op * Z) :=
  [(0, OpRead, 20%Z); (0, OpRead, 20%Z); (0, OpRead, 20%Z); (0, OpRead, 20%Z);
   (1, ex_mint, 21%Z); (1, ex_mint, 21%Z); (1, ex_mint, 21%Z); (1, ex_mint, 21%Z);
   (0, ex_burn "s0", 22%Z); (0, ex_burn "s0", 22%Z); (0, ex_burn "s0", 22%Z)].

(** A refusal can be stale.  [mutate] returns an error of the callback at
once, on the ground that a fresher read would give the same answer; but a first
attempt may read the cached Secret.  There is a run of two replicas in which a
token is minted on one and acknowledged, and a redemption on the other, started
after that and within the cache's lifetime, is refused as unknown although the
document on the server would have granted it. *)
Theorem stale_refusal :
  ∃ tr y, sys_run DefaultKey (ex_system []) tr y
  ∧ (∃ tr1 tr2, tr = tr1 ++ LCommit (MPutKey (Some ex_token)) 21 (Ok true) :: tr2
      ∧ tr2 = [LSilent; LSilent; LFail (ex_burn "s0") (BStore ErrNotFound)])%list
  ∧ ∃ s, doc_of DefaultKey (sys_srv y) = Ok s
         ∧ (run_mutation (MBurnEnrollment "tok0000001" "s0" 20) 22 s).2 = Ok true.
Proof.
  exists (play ex_stale (ex_system [])).1, (play ex_stale (ex_system [])).2. split_and!.
  - apply play_sound.
  - eexists (_ :: _ :: _ :: _ :: _ :: _ :: _ :: []), _. split; [|reflexivity]. vm_compute. reflexivity.
  - exists ex_state. split; vm_compute; reflexivity.
Qed.
