(* ===== verification/Hub.v ===== *)
(** The hub's own use of the state document: the labels that decide which
agent keys reach a cluster ([enrollmentLabels] of [src/internal/hub/hub.go]),
the pruning pass ([prune.go]) and the first admin credential
([bootstrapkey.go]).  Each reads or changes the document through the store, so
each is a function of the documents its calls saw. *)

From S2P Require Import Prelude Fleet State.
Open Scope string_scope.

(** * Enrollment labels *)

(** One round of the loop over the listed keys. *)
Definition newest_step (clusterID : string) (newest : option Key) (k : Key) : option Key :=
  match Enrollment k with
  | None => newest
  | Some g =>
    if negb (String.eqb (ClusterID g) clusterID) then newest
    else if Revoked k then newest
    else match newest with
    | None => Some k
    | Some cur => if After (CreatedAt k) (CreatedAt cur) then Some k else newest
    end
  end.

Definition newest_for (clusterID : string) (keys : list Key) : option Key :=
  foldl (newest_step clusterID) None keys.

(** [listed] is the store's answer to [ListKeys]; no labels is the nil map. *)
Definition enrollmentLabels {E} (has_store : bool) (clusterID : string) (listed : result E (list Key))
  : result E (gmap string string) :=
  if negb has_store || String.eqb clusterID "" then Ok ∅
  else match listed with
  | Err e => Err e
  | Ok keys =>
    match newest_for clusterID keys with
    | None => Ok ∅
    | Some k => Ok (match Enrollment k with Some g => grant_Labels g | None => ∅ end)
    end
  end.

(** * Pruning *)

Definition jitterPercent : Z := 20.

(** [draw] is the answer of [rand.Int64N] for its argument. *)
Definition jitterAround (d : Z) (draw : Z → Z) : Z :=
  let spread := Z.quot (wrap_int64 (d * jitterPercent)) 100 in
  if (spread <=? 0)%Z then d
  else wrap_int64 (d + wrap_int64 (draw (wrap_int64 (2 * spread)) - spread)).

(** How long a record outlives its credential. *)
Definition prune_retain (stateRetention renewGrace : Z) : Z := wrap_int64 (stateRetention + renewGrace).

(** One pass: the document and the pair of counts the metrics get, if any. *)
Definition pruneOnce (now retain : Z) (s : State) : State * option (Z * Z) :=
  match Prune now retain s with
  | (s', Err _) => (s', None)
  | (s', Ok (res, _)) => if PruneResult_Empty res then (s', None) else (s', Some (pr_Keys res, pr_RevokedCerts res))
  end.

(** * The first admin credential *)

Definition bootstrapKeyName : string := "bootstrap".
Definition bootstrapKID : string := "bootstrap0".
Definition DefaultAdminKeyTTL : Z := (90 * 24 * Hour)%Z.

Definition bootstrapTTL (adminKeyTTL : Z) : Z :=
  if (0 <? adminKeyTTL)%Z then adminKeyTTL else DefaultAdminKeyTTL.

Definition bootstrap_record (hmac : list Byte.byte) (now ttl : Z) : Key :=
  {| KID := bootstrapKID; Class := ClassAdmin; Name := bootstrapKeyName; Owner := ""; SecretHMAC := hmac;
     Key_Scope := None; Enrollment := None; CreatedAt := now; ExpiresAt := Add now ttl; LastUsed := None;
     RevokedAt := None; RevokedReason := "" |}.

(** [seen] is the document [ListKeys] read, [s] the one the conditional write
ran on; the answer says whether the token was printed. *)
Definition bootstrapAdminKey (adminKeyTTL now : Z) (hmac : list Byte.byte) (seen s : State)
  : State * result StoreError bool :=
  if existsb (λ k, Usable k now) (ListKeys ClassAdmin seen) then (s, Ok false)
  else PutKeyIfNoUsable (Some (bootstrap_record hmac now (bootstrapTTL adminKeyTTL))) now s.

(** * Labels: the reader agrees with the pruner *)

Lemma label_source_value r : label_source (rec_value r) = label_source (rec_Key r).
Proof. by rewrite rec_value_eq. Qed.

(** A listed key that speaks for [c]. *)
Definition speaks (c : string) (k : Key) : Prop :=
  Revoked k = false ∧ ∃ g, Enrollment k = Some g ∧ ClusterID g = c.

Lemma newest_step_silent c newest k : ¬ speaks c k → newest_step c newest k = newest.
Proof.
  intros Hn. unfold newest_step, speaks in *. destruct (Enrollment k) as [g|]; [|done].
  destruct (String.eqb_spec (ClusterID g) c); [|done]. cbn [negb].
  destruct (Revoked k); [done|]. exfalso. apply Hn. eauto.
Qed.

Lemma newest_step_speaks c newest k :
  speaks c k →
  newest_step c newest k =
  match newest with None => Some k | Some cur => if After (CreatedAt k) (CreatedAt cur) then Some k else newest end.
Proof.
  intros (Hr & g & Hg & <-). unfold newest_step. rewrite Hg, String.eqb_refl, Hr. done.
Qed.

#[export] Instance speaks_dec c k : Decision (speaks c k).
Proof.
  destruct (Revoked k) eqn:Hr; [right; by intros [? _]; congruence|].
  destruct (Enrollment k) as [g|] eqn:Hg; [|right; intros (_ & g & ? & _); congruence].
  destruct (decide (ClusterID g = c)); [left|right].
  - split; eauto.
  - intros (_ & g' & ? & ?); congruence.
Defined.

(** On a sorted listing the loop ends on the most preferred speaker. *)
Lemma newest_for_spec c keys :
  StronglySorted key_le keys →
  match newest_for c keys with
  | Some k => k ∈ keys ∧ speaks c k ∧ ∀ k', k' ∈ keys → speaks c k' → ¬ label_better k' k
  | None => ∀ k, k ∈ keys → ¬ speaks c k
  end.
Proof.
  unfold newest_for. induction keys as [|e keys IH] using rev_ind; intros Hs.
  { by intros k ?%elem_of_nil. }
  apply StronglySorted_app in Hs as (Hle & Hs & _). specialize (IH Hs). rewrite foldl_app. cbn [foldl].
  destruct (decide (speaks c e)) as [Hsp|Hsp].
  2:{ rewrite newest_step_silent by done. destruct (foldl _ _ _) as [k|].
      - destruct IH as (Hin & Hk & Hb). split_and!; [set_solver|done|].
        intros k' [?|Heq%list_elem_of_singleton]%elem_of_app; [auto|by subst].
      - intros k [?|Heq%list_elem_of_singleton]%elem_of_app; [auto|by subst]. }
  rewrite newest_step_speaks by done. destruct (foldl _ _ _) as [k|].
  - destruct IH as (Hin & Hk & Hb). specialize (Hle k e Hin (list_elem_of_here _ _)).
    unfold After. destruct (Z.ltb_spec (CreatedAt k) (CreatedAt e)) as [Hlt|Hge].
    + split_and!; [set_solver|done|]. intros k' [Hk'|Hk'%list_elem_of_singleton]%elem_of_app Hsp' [Hx|[Hx Hy]]; subst.
      * apply (Hb _ Hk' Hsp'). left. lia.
      * apply (Hb _ Hk' Hsp'). left. lia.
      * lia.
      * by apply Hy.
    + split_and!; [set_solver|done|]. intros k' [Hk'|Hk'%list_elem_of_singleton]%elem_of_app Hsp'; [auto|subst].
      intros [Hx|[Hx Hy]]; [lia|]. apply Hy. destruct Hle as [?|[_ ?]]; [lia|done].
  - split_and!; [set_solver|done|]. intros k' [Hk'|Hk'%list_elem_of_singleton]%elem_of_app Hsp'; [by destruct (IH k')|subst].
    intros [Hx|[Hx Hy]]; [lia|]. by apply Hy.
Qed.

Lemma speaks_candidate c r s kid :
  Keys s !! kid = Some r → Class (rec_Key r) = ClassEnrollment →
  speaks c (rec_value r) → label_candidate (map_to_list (Keys s)) c (rec_Key r).
Proof.
  intros Hr Hc (Hrev & g & Hg & Hcl). rewrite rec_value_eq in Hrev, Hg. simpl in *.
  exists kid, r, g. split_and!; [by apply elem_of_map_to_list|done| |done].
  unfold label_source. rewrite Hc. unfold Revoked in *. simpl in *. by rewrite Hrev.
Qed.

Lemma candidate_speaks c k s :
  state_ok s → label_candidate (map_to_list (Keys s)) c k →
  ∃ r, Keys s !! KID k = Some r ∧ rec_Key r = k ∧ speaks c (rec_value r)
       ∧ rec_value r ∈ ListKeys ClassEnrollment s.
Proof.
  intros Hs (kid & r & g & Hin%elem_of_map_to_list & <- & Hsrc & Hc).
  pose proof (lookup_record_ok _ _ _ Hs Hin) as [Hkid _ _ _ _]. exists r. rewrite Hkid.
  unfold label_source in Hsrc. destruct (String.eqb_spec (Class (rec_Key r)) ClassEnrollment) as [Hcl|]; [|done].
  simpl in Hsrc. destruct (Revoked (rec_Key r)) eqn:Hrev; [done|].
  split_and!; [done..| |].
  - rewrite rec_value_eq. split; [done|]. by exists g.
  - apply ListKeys_spec; [done|]. exists r. rewrite rec_value_eq. simpl. rewrite Hkid. auto.
Qed.

(** The record [enrollmentLabels] picks is the one [labelAuthorities] protects. *)
Lemma newest_doc c s :
  state_ok s →
  match newest_for c (ListKeys ClassEnrollment s) with
  | Some k => ∃ r, Keys s !! KID k = Some r ∧ k = rec_value r ∧ label_best (map_to_list (Keys s)) c (rec_Key r)
  | None => ∀ k, ¬ label_candidate (map_to_list (Keys s)) c k
  end.
Proof.
  intros Hs. destruct (ListKeys_spec s ClassEnrollment Hs) as (Hsort & _ & Hin).
  pose proof (newest_for_spec c _ Hsort) as Hn. destruct (newest_for c _) as [k|].
  - destruct Hn as ((r & Hr & Heq & Hcl)%Hin & Hsp & Hbest). exists r. split_and!; [done..|].
    assert (Class (rec_Key r) = ClassEnrollment) by (rewrite Heq, rec_value_eq in Hcl; by destruct Hcl).
    split; [eapply speaks_candidate; eauto; by rewrite <- Heq|].
    intros k' Hk' Hb. destruct (candidate_speaks c k' s Hs Hk') as (r' & _ & <- & Hsp' & Hin').
    apply (Hbest _ Hin' Hsp'). rewrite Heq. unfold label_better in *. by rewrite !rec_value_eq.
  - intros k Hk. destruct (candidate_speaks c k s Hs Hk) as (r & _ & _ & Hsp & Hin'). by eapply Hn.
Qed.

Lemma prune_candidates now retain s s' res c k :
  state_ok s → Prune now retain s = (s', Ok res) →
  label_candidate (map_to_list (Keys s')) c k → label_candidate (map_to_list (Keys s)) c k.
Proof.
  intros Hs Hp (kid & r & g & Hin%elem_of_map_to_list & Heq & Hsrc & Hc).
  destruct (Keys s !! kid) as [r0|] eqn:Hr0; [|by rewrite (Prune_lookup_None _ _ _ _ _ _ Hp Hr0) in Hin].
  rewrite (Prune_lookup _ _ _ _ _ _ _ Hp Hr0) in Hin. case_match; simplify_eq.
  exists kid, r, g. split_and!; [by apply elem_of_map_to_list|done..].
Qed.

Lemma prune_best now retain s s' res c r :
  state_ok s → Prune now retain s = (s', Ok res) → Keys s !! KID (rec_Key r) = Some r →
  label_best (map_to_list (Keys s)) c (rec_Key r) →
  Keys s' !! KID (rec_Key r) = Some r ∧ label_best (map_to_list (Keys s')) c (rec_Key r).
Proof.
  intros Hs Hp Hr Hbest. assert (Keys s' !! KID (rec_Key r) = Some r) as Hr'.
  { rewrite (Prune_lookup _ _ _ _ _ _ _ Hp Hr). unfold keep_key.
    rewrite (bool_decide_eq_true_2 (_ ∈ _)); [by rewrite orb_true_r|].
    apply labelAuthorities_spec. by exists c, (rec_Key r). }
  split; [done|]. destruct Hbest as [(kid & r0 & g & Hin & Heq & Hsrc & Hc) Hb]. split.
  - exists (KID (rec_Key r)), r, g. split_and!; [by apply elem_of_map_to_list|done..].
  - intros k' Hk'. by eapply Hb, prune_candidates.
Qed.

(** Pruning never changes a cluster's labels.  Whatever the clock, the
retention and the document, the labels the hub reads for a cluster after a
prune are the ones it would have read before, also when the token that carries
them expired long ago: the record the reader would pick, the newest unrevoked
enrollment token of the cluster with ties to the smaller identifier, is one the
pruner keeps. *)
Theorem Prune_keeps_labels (now retain : Z) (s s' : State) (res : PruneResult * bool) (c : string) :
  state_ok s → Prune now retain s = (s', Ok res) →
  enrollmentLabels (E := StoreError) true c (Ok (ListKeys ClassEnrollment s'))
  = enrollmentLabels true c (Ok (ListKeys ClassEnrollment s)).
Proof.
  intros Hs Hp. assert (state_ok s') as Hs' by eauto using Prune_ok.
  unfold enrollmentLabels. cbn [negb orb]. destruct (String.eqb_spec c ""); [done|].
  pose proof (newest_doc c s Hs) as Hn. pose proof (newest_doc c s' Hs') as Hn'.
  destruct (newest_for c (ListKeys _ s)) as [k|].
  - destruct Hn as (r & Hr & -> & Hbest). rewrite rec_value_eq in Hr. simpl in Hr.
    destruct (prune_best _ _ _ _ _ c r Hs Hp Hr Hbest) as [Hr' Hbest'].
    destruct (newest_for c (ListKeys _ s')) as [k'|]; [|by destruct (Hn' (rec_Key r)), Hbest'].
    destruct Hn' as (r1 & Hr1 & -> & Hbest1). rewrite rec_value_eq in Hr1. simpl in Hr1.
    destruct (label_best_unique _ _ _ _ Hbest' Hbest1) as [_ Hkid]. rewrite Hkid in Hr'. by simplify_eq.
  - destruct (newest_for c (ListKeys _ s')) as [k'|]; [|done].
    destruct Hn' as (r1 & _ & _ & [Hc1 _]). exfalso. by eapply Hn, prune_candidates.
Qed.

(** * The bootstrap credential is printed once *)

(** A record under [kid] that is unrevoked and expires at [t]. *)
Definition kept (kid : string) (t : Z) (s : State) : Prop :=
  ∃ r, Keys s !! kid = Some r ∧ RevokedAt (rec_Key r) = None ∧ ExpiresAt (rec_Key r) = t.

(** The mutation leaves [kid] alone: it neither revokes nor deletes it, and
where the clock matters it is at most [t]. *)
Definition spares (kid : string) (t : Z) (e : Mutation * Z) : Prop :=
  match e.1 with
  | MRevokeKey k _ _ | MDeleteKey k | MReplaceKey _ k _ _ => k ≠ kid
  | MPutKeyIfNoUsable _ at_ => (when_ at_ e.2 ≤ t)%Z
  | MPrune _ => (e.2 ≤ t)%Z
  | _ => True
  end.

Lemma kept_insert kid t s kid' r :
  kept kid t s → (kid' = kid → RevokedAt (rec_Key r) = None ∧ ExpiresAt (rec_Key r) = t) →
  kept kid t (set_Keys (<[kid' := r]> (Keys s)) s).
Proof.
  intros (r0 & Hr0 & ? & ?) Hr. unfold kept. simpl. destruct (decide (kid' = kid)) as [->|Hne].
  - exists r. rewrite lookup_insert_eq. naive_solver.
  - exists r0. rewrite lookup_insert_ne by done. done.
Qed.

Lemma kept_bump kid t s : kept kid t (bump s) ↔ kept kid t s.
Proof. done. Qed.

Lemma kept_update kid t s kid' r f :
  kept kid t s → Keys s !! kid' = Some r →
  (kid' = kid → RevokedAt (f (rec_Key r)) = RevokedAt (rec_Key r)) →
  ExpiresAt (f (rec_Key r)) = ExpiresAt (rec_Key r) →
  kept kid t (set_Keys (<[kid' := set_rec_Key f r]> (Keys s)) s).
Proof.
  intros Hk Hr Hf He. apply kept_insert; [done|]. intros ->. destruct Hk as (r0 & Hr0 & ? & ?). simplify_eq. simpl.
  rewrite Hf by done. done.
Qed.

Lemma kept_putKey kid t s k :
  kept kid t s → (Keys s !! KID k = None ∨ KID k ≠ kid) → kept kid t (putKey k s).
Proof.
  intros Hk Hn. apply kept_insert; [done|]. intros Heq. destruct Hk as (r & Hr & _). naive_solver.
Qed.

Lemma kept_usable kid t s r t' :
  kept kid t s → Keys s !! kid = Some r → (t' ≤ t)%Z → Usable (rec_value r) t' = true.
Proof.
  intros (r0 & Hr0 & Hrev & Hexp) Hr Ht. simplify_eq. rewrite rec_value_eq.
  unfold Usable, Revoked, Expired, IsZero, After. simpl. rewrite Hrev. simpl.
  destruct (Z.eqb_spec (ExpiresAt (rec_Key r0)) 0); [done|]. simpl. by rewrite (proj2 (Z.ltb_ge _ _)).
Qed.

Lemma run_kept kid t m now s :
  kept kid t s → spares kid t (m, now) → kept kid t (run_mutation m now s).1.
Proof.
  intros Hk Hsp. destruct (run_mutation m now s) as [s' [b|e]] eqn:Hrun; simpl;
    [|by apply run_mutation_Err in Hrun as ->].
  destruct m; cbn [run_mutation] in Hrun; unfold spares in Hsp; cbn [fst snd] in Hsp.
  - apply PutKey_Ok in Hrun as (k' & -> & _ & Hn & _ & ->). apply kept_putKey; auto.
  - apply PutKeyIfNoUsable_Ok in Hrun as (k' & -> & _ & [(_ & -> & _)|(_ & -> & Hu)]); [done|].
    apply kept_putKey; [done|]. right. intros Heq. pose proof Hk as (r & Hr & _). rewrite <- Heq in Hr.
    specialize (Hu _ Hr). rewrite Heq in Hr. by rewrite (kept_usable _ _ _ _ _ Hk Hr Hsp) in Hu.
  - apply ReplaceKey_Ok in Hrun as (k' & old & -> & _ & Hn & Ho & _ & _ & ->).
    apply kept_insert; [apply kept_bump, kept_putKey; auto|done].
  - apply RevokeKey_Ok in Hrun as (r & Hr & [(_ & -> & _)|(_ & _ & ->)]); [done|].
    by apply kept_bump, kept_insert.
  - apply DeleteKey_Ok in Hrun as (_ & _ & ->). destruct Hk as (r & Hr & ?). exists r. simpl.
    by rewrite lookup_delete_ne.
  - apply TouchKey_Ok in Hrun as (r & Hr & _ & ->). by apply kept_update.
  - destruct (BurnEnrollment _ _ _ _ _) as [s1 [[k b1]|]] eqn:Hb; simplify_eq/=.
    apply BurnEnrollment_inv in Hb as (r & g & Hr & _ & _ & _ & _ & _ & _ & _ & ->).
    by apply kept_bump, kept_update.
  - by apply RevokeCert_Ok in Hrun as (_ & _ & t' & ->).
  - destruct (Prune _ _ _) as [s1 [res|]] eqn:Hp; simplify_eq/=. pose proof (Prune_retain _ _ _ _ _ Hp).
    destruct Hk as (r & Hr & Hrev & Hexp). exists r. rewrite (Prune_lookup _ _ _ _ _ _ _ Hp Hr).
    destruct (keep_key _ _ _ _ _) eqn:Hkeep; [done|]. apply keep_key_false in Hkeep. lia.
Qed.

Lemma history_kept kid t h s : kept kid t s → Forall (spares kid t) h → kept kid t (run_history h s).
Proof.
  revert s. induction h as [|[m now] h IH]; intros s Hk Hf; [done|].
  apply Forall_cons in Hf as [Hm Hf]. simpl. apply IH; [by apply run_kept|done].
Qed.

(** At most one bootstrap token is revealed.  Suppose a replica's bootstrap
stored the credential and printed its token.  Whatever the other replicas and
callers then do to the document short of revoking, deleting or replacing that
credential, any bootstrap that runs before it expires prints nothing and
changes nothing, even one that listed the keys of an older document in which no
admin key existed. *)
Theorem bootstrap_reveals_once (ttl now now' : Z) (hmac hmac' : list Byte.byte) (seen seen' s s1 : State)
    (h : list (Mutation * Z)) :
  bootstrapAdminKey ttl now hmac seen s = (s1, Ok true) →
  Forall (spares bootstrapKID (now + bootstrapTTL ttl)) h → (now' ≤ now + bootstrapTTL ttl)%Z → hmac' ≠ [] →
  bootstrapAdminKey ttl now' hmac' seen' (run_history h s1) = (run_history h s1, Ok false).
Proof.
  unfold bootstrapAdminKey at 1. destruct (existsb _ _); [done|].
  intros (k & Hk & _ & [(? & _)|(_ & -> & _)])%PutKeyIfNoUsable_Ok Hh Hnow Hmac; [done|]. injection Hk as <-.
  assert (kept bootstrapKID (now + bootstrapTTL ttl) (run_history h (bump (putKey (bootstrap_record hmac now (bootstrapTTL ttl)) s))))
    as Hkept.
  { apply history_kept; [|done]. eexists. simpl. rewrite lookup_insert_eq. done. }
  unfold bootstrapAdminKey. destruct (existsb _ _); [done|]. unfold PutKeyIfNoUsable.
  assert (validateKey (Some (bootstrap_record hmac' now' (bootstrapTTL ttl))) = None) as -> by (by destruct hmac').
  pose proof Hkept as (r & Hr & _). cbn [KID bootstrap_record]. rewrite Hr.
  by rewrite (kept_usable _ _ _ _ now' Hkept Hr).
Qed.

Lemma Prune_keeps_labels_witness :
  enrollmentLabels (E := StoreError) true "c1" (Ok (ListKeys ClassEnrollment (Prune 1000 5 ex_state).1))
  = Ok {["env" := "prod"]}.
Proof.
  rewrite (Prune_keeps_labels 1000 5 ex_state (Prune 1000 5 ex_state).1 ({| pr_Keys := 0; pr_RevokedCerts := 0 |}, false)).
  - vm_compute. reflexivity.
  - apply NewState_run_ok.
  - vm_compute. reflexivity.
Defined.

Lemma bootstrap_reveals_once_witness :
  let s1 := (bootstrapAdminKey 0 50 [Byte.x01] NewState NewState).1 in
  bootstrapAdminKey 0 60 [Byte.x02] NewState s1 = (s1, Ok false).
Proof.
  cbv zeta.
  apply (bootstrap_reveals_once 0 50 60 [Byte.x01] [Byte.x02] NewState NewState NewState
    (bootstrapAdminKey 0 50 [Byte.x01] NewState NewState).1 []).
  - vm_compute. reflexivity.
  - constructor.
  - vm_compute. discriminate.
  - discriminate.
Defined.
