(* ===== verification/Token.v ===== *)
(** Credentials: [src/internal/token/token.go] and [hasher.go].

A token is 68 bytes: the prefix, a class, a public key identifier, a secret in
base 62 and a CRC-32C checksum in base 62.  Go strings are byte sequences, here
[list ascii]; [math/big] integers are [Z]; the checksum is computed bit by
bit.  HMAC-SHA256 is an argument of the definitions that use it. *)

From S2P Require Import Prelude Fleet.
From Stdlib Require Import Strings.Byte.
Open Scope list_scope.
Open Scope Z_scope.

#[export] Instance byte_eq_dec : EqDecision byte := Byte.byte_eq_dec.

(** * Constants *)

Definition bytes_of (s : string) : list ascii := list_ascii_of_string s.

Definition Prefix : list ascii := bytes_of "pmf_".
Definition ClassLen : nat := 3.
Definition KIDLen : nat := 10.
Definition SecretBytes : nat := 32.
Definition SecretLen : nat := 43.
Definition CRCLen : nat := 6.
Definition headLen : nat := length Prefix + ClassLen + 1.
Definition kidEnd : nat := headLen + KIDLen.
Definition crcSep : nat := kidEnd + SecretLen.
Definition bodyLen : nat := crcSep.
Definition Len : nat := headLen + KIDLen + SecretLen + 1 + CRCLen.

Definition alphabet : list ascii :=
  bytes_of "0123456789ABCDEFGHIJKLMNOPQRSTUVWXYZabcdefghijklmnopqrstuvwxyz".

Inductive TokenError := ErrMalformed | ErrBadChecksum | ErrUnknownClass | ErrEntropy.

(** [b62Index]: the table filled by the loop over the alphabet. *)
Fixpoint index_from (i : Z) (l : list ascii) (c : ascii) : Z :=
  match l with
  | [] => -1
  | a :: l => if Ascii.eqb a c then i else index_from (i + 1) l c
  end.
Definition b62Index (c : ascii) : Z := index_from 0 alphabet c.

Definition digit_char (d : Z) : ascii := nth (Z.to_nat d) alphabet "0"%char.

(** * Base 62 *)

(** [big.Int.SetBytes] and [FillBytes], big-endian. *)
Definition SetBytes (b : list byte) : Z := foldl (λ n x, n * 256 + Z.of_N (Byte.to_N x)) 0 b.

Definition byte_of_Z (z : Z) : byte := default Byte.x00 (Byte.of_N (Z.to_N z)).

Fixpoint FillBytes (len : nat) (n : Z) : list byte :=
  match len with
  | O => []
  | S len => FillBytes len (n / 256) ++ [byte_of_Z (n mod 256)]
  end.

(** The loop that fills the output from the right; it leaves the quotient. *)
Fixpoint digits (width : nat) (n : Z) : list ascii * Z :=
  match width with
  | O => ([], n)
  | S width => let '(out, q) := digits width (n / 62) in (out ++ [digit_char (n mod 62)], q)
  end.

Definition encodeBase62 (b : list byte) (width : nat) : list ascii * bool :=
  let '(out, q) := digits width (SetBytes b) in (out, q =? 0).

(** The loop of [decodeBase62] from the left. *)
Fixpoint undigits (n : Z) (s : list ascii) : option Z :=
  match s with
  | [] => Some n
  | c :: s => if b62Index c <? 0 then None else undigits (n * 62 + b62Index c) s
  end.

(** [n.BitLen() > byteLen*8] for a non-negative [n]. *)
Definition decodeBase62 (s : list ascii) (byteLen : nat) : option (list byte) :=
  match undigits 0 s with
  | None => None
  | Some n => if 2 ^ (8 * Z.of_nat byteLen) <=? n then None else Some (FillBytes byteLen n)
  end.

(** * CRC-32C *)

Definition castagnoli : Z := 0x82f63b78.

Definition crc_shift (x : Z) : Z :=
  if Z.odd x then Z.lxor (Z.shiftr x 1) castagnoli else Z.shiftr x 1.

Definition crc_byte (crc : Z) (c : ascii) : Z :=
  Nat.iter 8 crc_shift (Z.lxor crc (Z.of_N (N_of_ascii c))).

Definition Checksum (b : list ascii) : Z :=
  Z.lxor (foldl crc_byte (Z.ones 32) b) (Z.ones 32).

Definition encodeCRC (sum : Z) : list ascii := (digits CRCLen sum).1.

(** * Parsing *)

(** [s[i:j]]. *)
Definition slice (i j : nat) (s : list ascii) : list ascii := take (j - i) (drop i s).

Definition in_alphabet (s : list ascii) : bool := forallb (λ c, 0 <=? b62Index c) s.

Record Parsed := { tok_class : KeyClass; tok_kid : string; tok_secret : list byte }.

Definition Parse (text : string) : result TokenError Parsed :=
  let raw := bytes_of text in
  if negb (length raw =? Len)%nat then Err ErrMalformed
  else if negb (bool_decide (slice 0 (length Prefix) raw = Prefix)) then Err ErrMalformed
  else if negb (bool_decide (raw !! (headLen - 1)%nat = Some "_"%char))
       || negb (bool_decide (raw !! crcSep = Some "_"%char)) then Err ErrMalformed
  else if negb (in_alphabet (slice (length Prefix) (headLen - 1) raw)) then Err ErrMalformed
  else if negb (in_alphabet (slice headLen crcSep raw)) then Err ErrMalformed
  else if negb (in_alphabet (slice (crcSep + 1) Len raw)) then Err ErrMalformed
  else
    let want := encodeCRC (Checksum (slice 0 bodyLen raw)) in
    if negb (bool_decide (want = slice (crcSep + 1) Len raw)) then Err ErrBadChecksum
    else
      let class := string_of_list_ascii (slice (length Prefix) (headLen - 1) raw) in
      if negb (KeyClass_Valid class) then Err ErrUnknownClass
      else match decodeBase62 (slice kidEnd crcSep raw) SecretBytes with
      | None => Err ErrMalformed
      | Some secret =>
        Ok {| tok_class := class; tok_kid := string_of_list_ascii (slice headLen kidEnd raw); tok_secret := secret |}
      end.

(** * Minting *)

Record Minted := { m_Raw : string; m_KID : string; m_Secret : list byte }.

(** An entropy source: what each successive read returns for a buffer of the
given size; [None] is an error. *)
Abbreviation Entropy := (nat → nat → option (list byte)) (only parsing).

(** The inner loop of [randomBase62] over one buffer. *)
Fixpoint sample (n : nat) (out : list ascii) (buf : list byte) : list ascii :=
  match buf with
  | [] => out
  | b :: buf =>
    if (n <=? length out)%nat then out
    else let v := Z.of_N (Byte.to_N b) in
         if 248 <=? v then sample n out buf else sample n (out ++ [digit_char (v mod 62)]) buf
  end.

(** [randomBase62] after some reads: the text and the number of reads made.
[None] when the fuel runs out before the source gave enough usable bytes. *)
Fixpoint randomBase62 (fuel : nat) (n : nat) (read : Entropy) (i : nat) (out : list ascii)
  : option (result TokenError (list ascii * nat)) :=
  if (n <=? length out)%nat then Some (Ok (out, i))
  else match fuel with
  | O => None
  | S fuel =>
    match read i n with
    | None => Some (Err ErrEntropy)
    | Some buf => randomBase62 fuel n read (S i) (sample n out buf)
    end
  end.

(** The text of a token. *)
Definition assemble (class kid : string) (secret : list byte) : list ascii :=
  let enc := (encodeBase62 secret SecretLen).1 in
  let body := Prefix ++ bytes_of class ++ ["_"%char] ++ bytes_of kid ++ enc in
  body ++ ["_"%char] ++ encodeCRC (Checksum (take bodyLen body)).

Definition mintWith (fuel : nat) (class : KeyClass) (kid : string) (read : Entropy)
  : option (result TokenError Minted) :=
  if negb (KeyClass_Valid class) then Some (Err ErrUnknownClass)
  else
    match (if String.eqb kid "" then
             match randomBase62 fuel KIDLen read 0 [] with
             | None => None
             | Some (Err e) => Some (Err e)
             | Some (Ok (out, i)) => Some (Ok (string_of_list_ascii out, i))
             end
           else Some (Ok (kid, O)))
    with
    | None => None
    | Some (Err e) => Some (Err e)
    | Some (Ok (kid, i)) =>
      match read i SecretBytes with
      | None => Some (Err ErrEntropy)
      | Some secret =>
        Some (Ok {| m_Raw := string_of_list_ascii (assemble class kid secret); m_KID := kid; m_Secret := secret |})
      end
    end.

Definition Mint (fuel : nat) (class : KeyClass) (read : Entropy) : option (result TokenError Minted) :=
  mintWith fuel class "" read.

(** [isBase62] by character ranges. *)
Definition isBase62 (s : list ascii) : bool :=
  forallb (λ c, let n := nat_of_ascii c in
    negb (((n <? 48) || (57 <? n)) && ((n <? 65) || (90 <? n)) && ((n <? 97) || (122 <? n))))%nat s
  && (0 <? length s)%nat.

Definition MintWithKID (fuel : nat) (class : KeyClass) (kid : string) (read : Entropy)
  : option (result TokenError Minted) :=
  if negb (String.length kid =? KIDLen)%nat || negb (isBase62 (bytes_of kid)) then Some (Err ErrMalformed)
  else mintWith fuel class kid read.

(** * Hashing *)

Section hasher.
Context (hmac_sha256 : list byte → list byte → list byte).

Definition MinPepperBytes : nat := 32.

Definition decoySecret : list byte :=
  map byte_of_ascii (bytes_of "prometheus-mcp-fleet/decoy/v1___").

Record Hasher := { pepper : list byte; decoyHMAC : list byte }.

(** A nil hasher hashes to nothing and accepts nothing. *)
Definition Sum (h : option Hasher) (secret : list byte) : list byte :=
  match h with None => [] | Some h => hmac_sha256 (pepper h) secret end.

Definition NewHasher (p : list byte) : option Hasher :=
  if (length p <? MinPepperBytes)%nat then None
  else Some {| pepper := p; decoyHMAC := hmac_sha256 p decoySecret |}.

Definition Hasher_Equal (h : option Hasher) (storedHMAC secret : list byte) : bool :=
  match h with None => false | Some _ => bool_decide (storedHMAC = Sum h secret) end.

End hasher.

(** The check value of CRC-32C. *)
Example crc_check : Checksum (bytes_of "123456789") = 0xE3069283.
Proof. vm_compute. reflexivity. Qed.

(** * The alphabet *)

Lemma b62_digit d : 0 ≤ d < 62 → b62Index (digit_char d) = d.
Proof.
  intros Hd. assert (forallb (λ n, b62Index (digit_char (Z.of_nat n)) =? Z.of_nat n) (seq 0 62) = true) as Hall
    by (vm_compute; reflexivity).
  rewrite forallb_forall in Hall. specialize (Hall (Z.to_nat d)). rewrite Z2Nat.id in Hall by lia.
  apply Z.eqb_eq, Hall, in_seq. lia.
Qed.

Lemma digit_b62 c : 0 ≤ b62Index c → digit_char (b62Index c) = c ∧ b62Index c < 62.
Proof. destruct c as [[] [] [] [] [] [] [] []]; vm_compute; intros H; first [done|by destruct (H eq_refl)]. Qed.

Lemma isBase62_alphabet s : isBase62 s = in_alphabet s && (0 <? length s)%nat.
Proof.
  unfold isBase62, in_alphabet. f_equal. induction s as [|c s IH]; [done|]. cbn [forallb]. f_equal; [|exact IH].
  by destruct c as [[] [] [] [] [] [] [] []].
Qed.

(** * Positional notation *)

Lemma digits_length w n : length (digits w n).1 = w.
Proof.
  revert n. induction w as [|w IH]; intros n; [done|]. cbn [digits]. specialize (IH (n / 62)).
  destruct (digits w (n / 62)) as [out q]. simpl in *. rewrite length_app. simpl. lia.
Qed.

Lemma digits_quotient w n : 0 ≤ n → (digits w n).2 = n / 62 ^ Z.of_nat w.
Proof.
  revert n. induction w as [|w IH]; intros n Hn; [by rewrite Z.div_1_r|]. cbn [digits].
  specialize (IH (n / 62)). destruct (digits w (n / 62)) as [out q]. simpl in *.
  rewrite IH by (apply Z.div_pos; lia). rewrite Nat2Z.inj_succ, Z.pow_succ_r by lia.
  apply Z.div_div; [lia|]. apply Z.pow_pos_nonneg; lia.
Qed.

Lemma digits_alphabet w n : 0 ≤ n → in_alphabet (digits w n).1 = true.
Proof.
  revert n. induction w as [|w IH]; intros n Hn; [done|]. cbn [digits].
  specialize (IH (n / 62)). destruct (digits w (n / 62)) as [out q]. simpl in *.
  unfold in_alphabet in *. rewrite forallb_app, IH by (apply Z.div_pos; lia). simpl.
  rewrite b62_digit by (apply Z.mod_pos_bound; lia). rewrite andb_true_r. apply Z.leb_le.
  apply Z.mod_pos_bound. lia.
Qed.

Lemma undigits_snoc n s c :
  undigits n (s ++ [c]) = m ← undigits n s; if b62Index c <? 0 then None else Some (m * 62 + b62Index c).
Proof.
  revert n. induction s as [|d s IH]; intros n; cbn [undigits app]; [done|].
  destruct (b62Index d <? 0); [done|apply IH].
Qed.

(** Reading the digits of a number gives it back. *)
Lemma undigits_digits w n : 0 ≤ n → undigits 0 (digits w n).1 = Some (n mod 62 ^ Z.of_nat w).
Proof.
  revert n. induction w as [|w IH]; intros n Hn; [by rewrite Z.mod_1_r|]. cbn [digits].
  specialize (IH (n / 62)). destruct (digits w (n / 62)) as [out q]. simpl in *.
  rewrite undigits_snoc, IH by (apply Z.div_pos; lia). simpl.
  pose proof (Z.mod_pos_bound n 62 ltac:(lia)). rewrite b62_digit by lia.
  rewrite (proj2 (Z.ltb_ge _ _)) by lia. f_equal.
  rewrite Nat2Z.inj_succ, Z.pow_succ_r by lia. rewrite Z.rem_mul_r by lia. lia.
Qed.

(** The digits of a number that was read are the text it was read from. *)
Lemma digits_undigits s n m : 0 ≤ m → undigits m s = Some n → digits (length s) n = (s, m) ∧ 0 ≤ n.
Proof.
  revert n. induction s as [|c s IH] using rev_ind; intros n Hm; [by intros [= <-]|].
  rewrite undigits_snoc. destruct (undigits m s) as [k|] eqn:Hu; [|done]. simpl.
  destruct (Z.ltb_spec (b62Index c) 0) as [|Hc]; [done|]. intros [= <-].
  destruct (IH k Hm eq_refl) as [Hd Hk]. destruct (digit_b62 c Hc) as [Hch Hlt].
  rewrite length_app, Nat.add_comm. cbn [length Nat.add digits].
  rewrite (Z.add_comm (k * 62)), Z.div_add, Z.div_small, Z.mod_add, Z.mod_small, Z.add_0_l by lia.
  rewrite Hd, Hch. split; [done|lia].
Qed.

(** * Bytes *)

Lemma byte_of_Z_value z : 0 ≤ z < 256 → Z.of_N (Byte.to_N (byte_of_Z z)) = z.
Proof.
  intros Hz. unfold byte_of_Z. destruct (Byte.of_N (Z.to_N z)) as [b|] eqn:Hb; simpl.
  - apply Byte.to_of_N in Hb. rewrite Hb. lia.
  - apply Byte.of_N_None_iff in Hb. lia.
Qed.

Lemma byte_value b : 0 ≤ Z.of_N (Byte.to_N b) < 256.
Proof. pose proof (Byte.to_N_bounded b). lia. Qed.

Lemma byte_of_Z_of b : byte_of_Z (Z.of_N (Byte.to_N b)) = b.
Proof. unfold byte_of_Z. rewrite N2Z.id. by rewrite Byte.of_to_N. Qed.

Lemma SetBytes_snoc b x : SetBytes (b ++ [x]) = SetBytes b * 256 + Z.of_N (Byte.to_N x).
Proof. unfold SetBytes. by rewrite foldl_app. Qed.

Lemma SetBytes_range b : 0 ≤ SetBytes b < 256 ^ Z.of_nat (length b).
Proof.
  induction b as [|x b IH] using rev_ind; [done|]. rewrite SetBytes_snoc, length_app. simpl.
  pose proof (byte_value x). rewrite Nat2Z.inj_add, Z.pow_add_r by lia. simpl. rewrite Z.pow_1_r. lia.
Qed.

Lemma FillBytes_length len n : length (FillBytes len n) = len.
Proof. revert n. induction len as [|len IH]; intros n; [done|]. simpl. rewrite length_app, IH. simpl. lia. Qed.

Lemma SetBytes_FillBytes len n : 0 ≤ n < 256 ^ Z.of_nat len → SetBytes (FillBytes len n) = n.
Proof.
  revert n. induction len as [|len IH]; intros n Hn; [simpl in *; unfold SetBytes; simpl; lia|].
  cbn [FillBytes]. rewrite Nat2Z.inj_succ, Z.pow_succ_r in Hn by lia.
  rewrite SetBytes_snoc, byte_of_Z_value, IH; [pose proof (Z.div_mod n 256 ltac:(lia)); lia| |apply Z.mod_pos_bound; lia].
  split; [apply Z.div_pos; lia|]. apply Z.div_lt_upper_bound; lia.
Qed.

Lemma FillBytes_SetBytes b : FillBytes (length b) (SetBytes b) = b.
Proof.
  induction b as [|x b IH] using rev_ind; [done|]. rewrite length_app, Nat.add_comm. cbn [length Nat.add FillBytes].
  pose proof (byte_value x). rewrite SetBytes_snoc.
  rewrite (Z.add_comm (SetBytes b * 256)), Z.div_add, Z.div_small, Z.mod_add, Z.mod_small, Z.add_0_l by lia.
  by rewrite IH, byte_of_Z_of.
Qed.

(** [encodeBase62] and [decodeBase62] are inverse on the widths the format uses. *)
Lemma secret_fits : 256 ^ Z.of_nat SecretBytes <= 62 ^ Z.of_nat SecretLen.
Proof. vm_compute. discriminate. Qed.

Lemma secret_width : 2 ^ (8 * Z.of_nat SecretBytes) = 256 ^ Z.of_nat SecretBytes.
Proof. vm_compute. reflexivity. Qed.

Lemma decode_encodeBase62 secret :
  length secret = SecretBytes →
  encodeBase62 secret SecretLen = ((encodeBase62 secret SecretLen).1, true)
  ∧ decodeBase62 (encodeBase62 secret SecretLen).1 SecretBytes = Some secret.
Proof.
  intros Hlen. pose proof (SetBytes_range secret) as Hr. rewrite Hlen in Hr. pose proof secret_fits.
  unfold encodeBase62, decodeBase62.
  pose proof (digits_quotient SecretLen (SetBytes secret) ltac:(lia)) as Hq.
  pose proof (undigits_digits SecretLen (SetBytes secret) ltac:(lia)) as Hu.
  destruct (digits SecretLen (SetBytes secret)) as [out q]. simpl in Hq, Hu. simpl fst.
  rewrite Z.div_small in Hq by lia. rewrite Z.mod_small in Hu by lia. subst q. split; [done|].
  rewrite Hu, secret_width. rewrite (proj2 (Z.leb_gt _ _)) by lia. rewrite <- Hlen. by rewrite FillBytes_SetBytes.
Qed.

Lemma encode_decodeBase62 s secret :
  length s = SecretLen → decodeBase62 s SecretBytes = Some secret →
  (encodeBase62 secret SecretLen).1 = s ∧ length secret = SecretBytes.
Proof.
  intros Hlen. unfold decodeBase62. destruct (undigits 0 s) as [n|] eqn:Hu; [|done].
  rewrite secret_width. destruct (Z.leb_spec (256 ^ Z.of_nat SecretBytes) n); [done|].
  intros <-%(inj Some). destruct (digits_undigits s n 0 ltac:(lia) Hu) as [Hd Hn].
  split; [|apply FillBytes_length]. unfold encodeBase62. rewrite SetBytes_FillBytes by lia. rewrite <- Hlen, Hd. done.
Qed.

(** * The checksum separates texts that differ in one byte *)

Lemma log2_below n a : 0 < n → 0 ≤ a < 2 ^ n → Z.log2 a < n.
Proof.
  intros Hn Ha. destruct (Z.eq_dec a 0) as [->|]; [done|]. apply Z.log2_lt_pow2; lia.
Qed.

Lemma lxor_range n a b : 0 ≤ n → 0 ≤ a < 2 ^ n → 0 ≤ b < 2 ^ n → 0 ≤ Z.lxor a b < 2 ^ n.
Proof.
  intros Hn Ha Hb. assert (0 ≤ Z.lxor a b) as Hnn by (apply Z.lxor_nonneg; lia). split; [done|].
  destruct (Z.eq_dec (Z.lxor a b) 0) as [->|Hne]; [apply Z.pow_pos_nonneg; lia|].
  apply Z.log2_lt_pow2; [lia|]. eapply Z.le_lt_trans; [apply Z.log2_lxor; lia|].
  destruct (Z.eq_dec n 0) as [->|]; [simpl in *; assert (a = 0) as -> by lia; assert (b = 0) as -> by lia; done|].
  apply Z.max_lub_lt; apply log2_below; lia.
Qed.

Definition word32 (x : Z) : Prop := 0 ≤ x < 2 ^ 32.

Lemma shift_range x : word32 x → 0 ≤ Z.shiftr x 1 < 2 ^ 31.
Proof. unfold word32. intros Hx. rewrite Z.shiftr_div_pow2 by lia. change (2 ^ 1) with 2.
  split; [apply Z.div_pos; lia|]. apply Z.div_lt_upper_bound; lia. Qed.

Lemma crc_shift_range x : word32 x → word32 (crc_shift x).
Proof.
  intros Hx. pose proof (shift_range x Hx). unfold crc_shift. destruct (Z.odd x); [|unfold word32; lia].
  apply lxor_range; [lia|lia|done].
Qed.

Lemma low_bit31 y : 0 ≤ y < 2 ^ 31 → Z.testbit y 31 = false.
Proof.
  intros Hy. apply Z.testbit_false; [lia|]. by rewrite Z.div_small.
Qed.

(** The top bit of the result tells whether the polynomial was added. *)
Lemma crc_shift_top x : word32 x → Z.testbit (crc_shift x) 31 = Z.odd x.
Proof.
  intros Hx. pose proof (low_bit31 _ (shift_range x Hx)) as Hb. unfold crc_shift.
  destruct (Z.odd x); [|done]. by rewrite Z.lxor_spec, Hb.
Qed.

Lemma crc_shift_inj x y : word32 x → word32 y → crc_shift x = crc_shift y → x = y.
Proof.
  intros Hx Hy Heq. assert (Z.odd x = Z.odd y) as Hodd.
  { rewrite <- (crc_shift_top x), <- (crc_shift_top y) by done. by rewrite Heq. }
  assert (Z.shiftr x 1 = Z.shiftr y 1) as Hs.
  { unfold crc_shift in Heq. rewrite Hodd in Heq. destruct (Z.odd y); [|done].
    apply (f_equal (λ z, Z.lxor z castagnoli)) in Heq. by rewrite !Z.lxor_assoc, Z.lxor_nilpotent, !Z.lxor_0_r in Heq. }
  rewrite !Z.shiftr_div_pow2 in Hs by lia. change (2 ^ 1) with 2 in Hs.
  rewrite (Z.div_mod x 2), (Z.div_mod y 2), Hs, !Zmod_odd, Hodd by lia. done.
Qed.

Lemma crc_iter n x y :
  word32 x → word32 y →
  word32 (Nat.iter n crc_shift x) ∧ (Nat.iter n crc_shift x = Nat.iter n crc_shift y → x = y).
Proof.
  intros Hx Hy. induction n as [|n IH]; [done|]. destruct IH as [Hr Hi]. simpl. split; [by apply crc_shift_range|].
  intros Heq. apply Hi. apply crc_shift_inj; [done| |done]. clear -Hy. induction n; [done|]. by apply crc_shift_range.
Qed.

Lemma ascii_word c : word32 (Z.of_N (N_of_ascii c)).
Proof. pose proof (N_ascii_bounded c). unfold word32. lia. Qed.

Lemma crc_byte_range x c : word32 x → word32 (crc_byte x c).
Proof. intros Hx. unfold crc_byte. apply (crc_iter 8 _ 0); [|done]. apply lxor_range; [lia|done|apply ascii_word]. Qed.

Lemma crc_byte_inj x y c d :
  word32 x → word32 y → crc_byte x c = crc_byte y d → Z.lxor x (Z.of_N (N_of_ascii c)) = Z.lxor y (Z.of_N (N_of_ascii d)).
Proof.
  intros Hx Hy. unfold crc_byte. apply crc_iter; (apply lxor_range; [lia|done|apply ascii_word]).
Qed.

Lemma lxor_cancel_l a b c : Z.lxor a b = Z.lxor a c → b = c.
Proof.
  intros Heq. apply (f_equal (Z.lxor a)) in Heq. by rewrite <- !Z.lxor_assoc, Z.lxor_nilpotent, !Z.lxor_0_l in Heq.
Qed.

Lemma lxor_cancel_r a b c : Z.lxor b a = Z.lxor c a → b = c.
Proof. rewrite !(Z.lxor_comm _ a). apply lxor_cancel_l. Qed.

Lemma crc_fold_range b x : word32 x → word32 (foldl crc_byte x b).
Proof. revert x. induction b as [|c b IH]; intros x Hx; [done|]. apply IH, crc_byte_range, Hx. Qed.

Lemma crc_fold_inj b x y : word32 x → word32 y → foldl crc_byte x b = foldl crc_byte y b → x = y.
Proof.
  revert x y. induction b as [|c b IH]; intros x y Hx Hy Heq; [done|]. apply IH in Heq; [|by apply crc_byte_range..].
  apply crc_byte_inj in Heq; [|done..]. by apply lxor_cancel_r in Heq.
Qed.

Lemma Checksum_range b : word32 (Checksum b).
Proof. unfold Checksum. apply lxor_range; [lia| |done]. by apply crc_fold_range. Qed.

Lemma Checksum_typo a b c d : Checksum (a ++ c :: b) = Checksum (a ++ d :: b) → c = d.
Proof.
  unfold Checksum. intros Heq%lxor_cancel_r. rewrite !foldl_app in Heq. cbn [foldl] in Heq.
  assert (word32 (foldl crc_byte (Z.ones 32) a)) by by apply crc_fold_range.
  apply crc_fold_inj in Heq; [|by apply crc_byte_range..].
  apply crc_byte_inj in Heq; [|done..]. apply lxor_cancel_l in Heq.
  apply N2Z.inj in Heq. apply (f_equal ascii_of_N) in Heq. by rewrite !ascii_N_embedding in Heq.
Qed.

Lemma encodeCRC_inj x y : word32 x → word32 y → encodeCRC x = encodeCRC y → x = y.
Proof.
  unfold word32, encodeCRC. intros Hx Hy Heq.
  pose proof (undigits_digits CRCLen x ltac:(lia)) as Hux. pose proof (undigits_digits CRCLen y ltac:(lia)) as Huy.
  rewrite Heq, Huy in Hux. assert (2 ^ 32 < 62 ^ Z.of_nat CRCLen) by done.
  injection Hux as Hmod. rewrite !Z.mod_small in Hmod by lia. done.
Qed.

(** * What [Parse] accepts *)

Lemma bytes_of_string l : bytes_of (string_of_list_ascii l) = l.
Proof. apply list_ascii_of_string_of_list_ascii. Qed.

Lemma string_of_bytes s : string_of_list_ascii (bytes_of s) = s.
Proof. apply string_of_list_ascii_of_string. Qed.

Lemma bytes_of_length s : length (bytes_of s) = String.length s.
Proof. induction s; simpl; [done|by f_equal]. Qed.

Lemma slice_length i j s : (i ≤ j)%nat → (j ≤ length s)%nat → length (slice i j s) = (j - i)%nat.
Proof. intros. unfold slice. rewrite length_take, length_drop. lia. Qed.

Lemma slice_split i j k s : (i ≤ j)%nat → (j ≤ k)%nat → slice i k s = slice i j s ++ slice j k s.
Proof.
  intros. unfold slice. rewrite <- (take_drop (j - i) (take (k - i) (drop i s))) at 1.
  rewrite take_take, Nat.min_l by lia. f_equal. rewrite skipn_firstn_comm, drop_drop. f_equal; [lia|]. f_equal. lia.
Qed.

Lemma slice_all s : slice 0 (length s) s = s.
Proof. unfold slice. rewrite Nat.sub_0_r. apply take_ge. done. Qed.

Lemma slice_mid s a b c i j : s = a ++ b ++ c → length a = i → length b = (j - i)%nat → slice i j s = b.
Proof. intros -> <- Hb. unfold slice. rewrite drop_app_length, <- Hb. apply take_app_length. Qed.

Lemma slice_one i s x : s !! i = Some x → slice i (S i) s = [x].
Proof.
  intros Hx. unfold slice. replace (S i - i)%nat with 1%nat by lia.
  by rewrite (drop_S _ _ _ Hx).
Qed.

(** The part of a token the checksum covers. *)
Definition body (class kid : string) (secret : list byte) : list ascii :=
  Prefix ++ bytes_of class ++ ["_"%char] ++ bytes_of kid ++ (encodeBase62 secret SecretLen).1.

Lemma class_length c : KeyClass_Valid c = true → length (bytes_of c) = ClassLen ∧ in_alphabet (bytes_of c) = true.
Proof.
  unfold KeyClass_Valid. intros H. repeat (apply orb_true_iff in H as [H|H]); apply String.eqb_eq in H; subst; done.
Qed.

Lemma encode_length secret : length (encodeBase62 secret SecretLen).1 = SecretLen.
Proof.
  unfold encodeBase62. pose proof (digits_length SecretLen (SetBytes secret)) as Hl. by destruct (digits _ _).
Qed.

Lemma encode_alphabet secret : in_alphabet (encodeBase62 secret SecretLen).1 = true.
Proof.
  unfold encodeBase62. pose proof (digits_alphabet SecretLen (SetBytes secret)) as Hl. pose proof (SetBytes_range secret).
  destruct (digits _ _). simpl in *. apply Hl. lia.
Qed.

Lemma body_length class kid secret :
  KeyClass_Valid class = true → String.length kid = KIDLen → length (body class kid secret) = bodyLen.
Proof.
  intros [Hc _]%class_length Hk. unfold body. rewrite !length_app, Hc, bytes_of_length, Hk, encode_length. done.
Qed.

Lemma assemble_body class kid secret :
  KeyClass_Valid class = true → String.length kid = KIDLen →
  assemble class kid secret = body class kid secret ++ ["_"%char] ++ encodeCRC (Checksum (body class kid secret)).
Proof.
  intros Hc Hk. unfold assemble. fold (body class kid secret).
  by rewrite take_ge by (rewrite body_length; done).
Qed.

(** A credential the format can carry. *)
Record valid_token (p : Parsed) : Prop := {
  vt_class : KeyClass_Valid (tok_class p) = true;
  vt_kid : String.length (tok_kid p) = KIDLen;
  vt_kid_alphabet : in_alphabet (bytes_of (tok_kid p)) = true;
  vt_secret : length (tok_secret p) = SecretBytes
}.

Definition text_of (p : Parsed) : list ascii := assemble (tok_class p) (tok_kid p) (tok_secret p).

Lemma in_alphabet_app a b : in_alphabet (a ++ b) = in_alphabet a && in_alphabet b.
Proof. apply forallb_app. Qed.

Lemma Parse_text p : valid_token p → Parse (string_of_list_ascii (text_of p)) = Ok p.
Proof.
  destruct p as [class kid secret]. intros [Hc Hk Hka Hs]. unfold text_of. cbn [tok_class tok_kid tok_secret] in *.
  destruct (class_length _ Hc) as [Hcl Hca]. pose proof (encode_length secret) as He.
  pose proof (bytes_of_length kid) as Hkl. rewrite Hk in Hkl.
  pose proof (body_length class kid secret Hc Hk) as Hb. pose proof (digits_length CRCLen (Checksum (body class kid secret))) as Hr.
  fold (encodeCRC (Checksum (body class kid secret))) in Hr.
  unfold Parse. rewrite bytes_of_string, (assemble_body _ _ _ Hc Hk).
  set (raw := body class kid secret ++ _). set (crc := encodeCRC _) in *. set (enc := (encodeBase62 secret SecretLen).1) in *.
  assert (raw = Prefix ++ bytes_of class ++ ["_"%char] ++ bytes_of kid ++ enc ++ ["_"%char] ++ crc) as Hraw
    by (unfold raw, body; by rewrite <- !app_assoc).
  assert (length raw = Len) as -> by (unfold raw; rewrite !length_app, Hb, Hr; done).
  rewrite (slice_mid raw [] Prefix (drop (length Prefix) raw) 0 (length Prefix)) by (rewrite ?Hraw; done).
  rewrite (slice_mid raw Prefix (bytes_of class) (["_"%char] ++ bytes_of kid ++ enc ++ ["_"%char] ++ crc)) by done.
  rewrite (slice_mid raw (Prefix ++ bytes_of class ++ ["_"%char]) (bytes_of kid ++ enc) (["_"%char] ++ crc) headLen crcSep)
    by (rewrite ?Hraw, <- ?app_assoc, ?length_app, ?Hcl, ?Hkl, ?He; done).
  rewrite (slice_mid raw (body class kid secret ++ ["_"%char]) crc [] (crcSep + 1) Len)
    by (unfold raw; rewrite ?app_nil_r, <- ?app_assoc, ?length_app, ?Hb, ?Hr; done).
  rewrite (slice_mid raw [] (body class kid secret) (["_"%char] ++ crc) 0 bodyLen) by done.
  rewrite (slice_mid raw (Prefix ++ bytes_of class ++ ["_"%char]) (bytes_of kid) (enc ++ ["_"%char] ++ crc) headLen kidEnd)
    by (rewrite ?Hraw, <- ?app_assoc, ?length_app, ?Hcl, ?Hkl, ?He; done).
  rewrite (slice_mid raw (Prefix ++ bytes_of class ++ ["_"%char] ++ bytes_of kid) enc (["_"%char] ++ crc) kidEnd crcSep)
    by (rewrite ?Hraw, <- ?app_assoc, ?length_app, ?Hcl, ?Hkl, ?He; done).
  assert (raw !! (headLen - 1)%nat = Some "_"%char) as ->.
  { rewrite Hraw, app_assoc, lookup_app_r by (rewrite length_app, Hcl; done). by rewrite length_app, Hcl. }
  assert (raw !! crcSep = Some "_"%char) as -> by (unfold raw; rewrite lookup_app_r by (by rewrite Hb); by rewrite Hb).
  assert (in_alphabet crc = true) as -> by (apply digits_alphabet, Checksum_range).
  assert (in_alphabet enc = true) as He' by apply encode_alphabet.
  rewrite !string_of_bytes, Hca, in_alphabet_app, Hka, He', Hc.
  assert (decodeBase62 enc SecretBytes = Some secret) as -> by apply (decode_encodeBase62 secret Hs).
  by rewrite !bool_decide_eq_true_2.
Qed.

(** The shape checks [Parse] makes before it looks at the checksum. *)
Definition well_shaped (raw : list ascii) : Prop :=
  length raw = Len ∧ slice 0 (length Prefix) raw = Prefix
  ∧ raw !! (headLen - 1)%nat = Some "_"%char ∧ raw !! crcSep = Some "_"%char
  ∧ in_alphabet (slice (length Prefix) (headLen - 1) raw) = true
  ∧ in_alphabet (slice headLen crcSep raw) = true ∧ in_alphabet (slice (crcSep + 1) Len raw) = true.

#[export] Instance well_shaped_dec raw : Decision (well_shaped raw).
Proof. apply _. Defined.

(** [Parse] with its shape checks gathered. *)
Lemma Parse_unfold text :
  Parse text =
  let raw := bytes_of text in
  if bool_decide (well_shaped raw) then
    if bool_decide (encodeCRC (Checksum (slice 0 bodyLen raw)) = slice (crcSep + 1) Len raw) then
      let class := string_of_list_ascii (slice (length Prefix) (headLen - 1) raw) in
      if KeyClass_Valid class then
        match decodeBase62 (slice kidEnd crcSep raw) SecretBytes with
        | None => Err ErrMalformed
        | Some secret =>
          Ok {| tok_class := class; tok_kid := string_of_list_ascii (slice headLen kidEnd raw); tok_secret := secret |}
        end
      else Err ErrUnknownClass
    else Err ErrBadChecksum
  else Err ErrMalformed.
Proof.
  unfold Parse. cbv zeta. generalize (bytes_of text). intros raw.
  destruct (Nat.eqb_spec (length raw) Len) as [Hl|]; cbn [negb]; [|by rewrite bool_decide_eq_false_2 by (by intros [? _])].
  destruct (bool_decide_reflect (slice 0 (length Prefix) raw = Prefix)); cbn [negb];
    [|by rewrite bool_decide_eq_false_2 by (by intros (_ & ? & _))].
  destruct (bool_decide_reflect (raw !! (headLen - 1)%nat = Some "_"%char)); cbn [negb orb];
    [|by rewrite bool_decide_eq_false_2 by (by intros (_ & _ & ? & _))].
  destruct (bool_decide_reflect (raw !! crcSep = Some "_"%char)); cbn [negb];
    [|by rewrite bool_decide_eq_false_2 by (by intros (_ & _ & _ & ? & _))].
  destruct (in_alphabet (slice (length Prefix) (headLen - 1) raw)) eqn:Ha1; cbn [negb];
    [|by rewrite bool_decide_eq_false_2 by (intros (_ & _ & _ & _ & ? & _); congruence)].
  destruct (in_alphabet (slice headLen crcSep raw)) eqn:Ha2; cbn [negb];
    [|by rewrite bool_decide_eq_false_2 by (intros (_ & _ & _ & _ & _ & ? & _); congruence)].
  destruct (in_alphabet (slice (crcSep + 1) Len raw)) eqn:Ha3; cbn [negb];
    [|by rewrite bool_decide_eq_false_2 by (intros (_ & _ & _ & _ & _ & _ & ?); congruence)].
  rewrite (bool_decide_eq_true_2 (well_shaped raw)) by done.
  destruct (bool_decide _); [|done]. cbn [negb]. by destruct (KeyClass_Valid _).
Qed.

Lemma shaped_split raw :
  well_shaped raw →
  raw = slice 0 bodyLen raw ++ ["_"%char] ++ slice (crcSep + 1) Len raw
  ∧ slice 0 bodyLen raw = Prefix ++ slice (length Prefix) (headLen - 1) raw ++ ["_"%char]
                          ++ slice headLen kidEnd raw ++ slice kidEnd crcSep raw.
Proof.
  intros (Hl & Hp & Hs1 & Hs2 & _). split.
  - rewrite <- (slice_all raw) at 1. rewrite Hl, (slice_split 0 bodyLen Len), (slice_split bodyLen (crcSep + 1) Len) by (vm_compute; lia).
    change (slice bodyLen (crcSep + 1) raw) with (slice crcSep (S crcSep) raw). by rewrite (slice_one _ _ _ Hs2).
  - rewrite (slice_split 0 (length Prefix) bodyLen), Hp by (vm_compute; lia). f_equal.
    rewrite (slice_split _ (headLen - 1) bodyLen) by (vm_compute; lia). f_equal.
    rewrite (slice_split _ headLen bodyLen) by (vm_compute; lia). rewrite <- (slice_split headLen kidEnd crcSep) by (vm_compute; lia).
    change (slice (headLen - 1) headLen raw) with (slice (headLen - 1) (S (headLen - 1)) raw).
    by rewrite (slice_one _ _ _ Hs1).
Qed.

Lemma Parse_inv text p : Parse text = Ok p → valid_token p ∧ bytes_of text = text_of p.
Proof.
  rewrite Parse_unfold. cbv zeta. set (raw := bytes_of text).
  destruct (bool_decide_reflect (well_shaped raw)) as [Hw|]; [|done].
  destruct (bool_decide_reflect (encodeCRC (Checksum (slice 0 bodyLen raw)) = slice (crcSep + 1) Len raw)) as [Hcrc|]; [|done].
  destruct (KeyClass_Valid _) eqn:Hc; [|done].
  destruct (decodeBase62 _ _) as [secret|] eqn:Hd; [|done]. intros [= <-].
  destruct (shaped_split raw Hw) as [Hraw Hbody]. pose proof Hw as (Hl & _ & _ & _ & _ & Ha & _).
  apply encode_decodeBase62 in Hd as [He Hs]; [|rewrite slice_length; rewrite ?Hl; done || (vm_compute; lia)].
  assert (String.length (string_of_list_ascii (slice headLen kidEnd raw)) = KIDLen) as Hk.
  { rewrite <- bytes_of_length, bytes_of_string, slice_length; rewrite ?Hl; done || (vm_compute; lia). }
  split.
  - split; cbn [tok_class tok_kid tok_secret]; [exact Hc|exact Hk| |exact Hs]. rewrite bytes_of_string.
    rewrite (slice_split headLen kidEnd crcSep), in_alphabet_app in Ha by (vm_compute; lia).
    by apply andb_true_iff in Ha as [Ha _].
  - unfold text_of. cbn [tok_class tok_kid tok_secret]. rewrite assemble_body by done.
    match goal with |- _ = ?b ++ _ => assert (b = slice 0 bodyLen raw) as -> end.
    + unfold body. rewrite !bytes_of_string, He. symmetry. exact Hbody.
    + rewrite Hcrc. exact Hraw.
Qed.

(** C38: The credential format is a bijection.  A text parses to a class, an
identifier and a secret exactly when the class is a known one, the identifier
is ten base-62 characters, the secret is 32 bytes and the text is the one the
minter writes for them: every minted credential parses back to its parts, and
every credential has exactly one accepted text. *)
Theorem Parse_correct (text : string) (p : Parsed) :
  Parse text = Ok p ↔ valid_token p ∧ text = string_of_list_ascii (text_of p).
Proof.
  split.
  - intros [Hv Ht]%Parse_inv. split; [done|]. by rewrite <- Ht, string_of_bytes.
  - intros [Hv ->]. by apply Parse_text.
Qed.

(** A single mistyped character is always caught.  Change one character of
an accepted token, anywhere in it, to any other byte: the result is refused. *)
Theorem Parse_catches_typo (text text' : string) (p : Parsed) (i : nat) (c d : ascii) :
  Parse text = Ok p → bytes_of text !! i = Some c → c ≠ d → bytes_of text' = <[i := d]> (bytes_of text) →
  is_ok (Parse text') = false.
Proof.
  intros Hp Hi Hne Htext'. destruct (Parse text') as [p'|] eqn:Hp'; [exfalso|done].
  apply Parse_inv in Hp as [[Hc Hk _ _] Ht]. apply Parse_inv in Hp' as [[Hc' Hk' _ _] Ht'].
  unfold text_of in Ht, Ht'. rewrite assemble_body in Ht, Ht' by done.
  pose proof (body_length _ _ (tok_secret p) Hc Hk) as Hb. pose proof (body_length _ _ (tok_secret p') Hc' Hk') as Hb'.
  revert Ht Ht' Hb Hb'. generalize (body (tok_class p) (tok_kid p) (tok_secret p)) as b,
    (body (tok_class p') (tok_kid p') (tok_secret p')) as b'. intros b b' Ht Ht' Hb Hb'.
  rewrite Ht in Hi. rewrite Ht, Ht' in Htext'. destruct (decide (i < bodyLen)%nat) as [Hlt|Hge].
  - rewrite insert_app_l in Htext' by lia. rewrite lookup_app_l in Hi by lia.
    apply app_inj_1 in Htext' as [Heq Hcrc]; [|by rewrite length_insert, Hb, Hb'].
    apply (app_inv_head ["_"%char]), encodeCRC_inj in Hcrc; [|apply Checksum_range..].
    subst b'. rewrite insert_take_drop in Hcrc by lia. rewrite <- (take_drop_middle b i c Hi) in Hcrc at 3.
    by apply Checksum_typo in Hcrc.
  - rewrite insert_app_r_alt in Htext' by lia. apply app_inj_1 in Htext' as [<- Hcrc]; [|by rewrite Hb, Hb'].
    rewrite lookup_app_r in Hi by lia. apply (f_equal (λ l, l !! (i - length b')%nat)) in Hcrc.
    rewrite Hi, list_lookup_insert_eq in Hcrc by (by eapply lookup_lt_Some). congruence.
Qed.

(** * What [Mint] produces *)

(** The bytes rejection sampling keeps. *)
Definition accepted (buf : list byte) : nat :=
  length (List.filter (λ b, negb (248 <=? Z.of_N (Byte.to_N b))) buf).

Lemma sample_spec n out buf :
  (length out ≤ n)%nat → in_alphabet out = true →
  length (sample n out buf) = Nat.min n (length out + accepted buf) ∧ in_alphabet (sample n out buf) = true.
Proof.
  revert out. induction buf as [|b buf IH]; intros out Hl Ha; cbn [sample].
  { split; [|done]. unfold accepted. simpl. lia. }
  destruct (Nat.leb_spec n (length out)); [split; [lia|done]|].
  unfold accepted. cbn [List.filter]. fold (accepted buf).
  destruct (248 <=? Z.of_N (Byte.to_N b)); cbn [negb]; [by apply IH|].
  destruct (IH (out ++ [digit_char (Z.of_N (Byte.to_N b) mod 62)])) as [IHl IHa].
  - rewrite length_app. simpl. lia.
  - rewrite in_alphabet_app, Ha. simpl. pose proof (Z.mod_pos_bound (Z.of_N (Byte.to_N b)) 62 ltac:(lia)).
    rewrite b62_digit by lia. rewrite andb_true_r. apply Z.leb_le. lia.
  - split; [|done]. rewrite IHl, length_app. unfold accepted. simpl. lia.
Qed.

Lemma randomBase62_spec fuel n read i out r j :
  (length out ≤ n)%nat → in_alphabet out = true →
  randomBase62 fuel n read i out = Some (Ok (r, j)) → length r = n ∧ in_alphabet r = true.
Proof.
  revert i out. induction fuel as [|fuel IH]; intros i out Hl Ha; cbn [randomBase62];
    (destruct (Nat.leb_spec n (length out)); [intros [= <- <-]; split; [lia|done]|]); [done|].
  destruct (read i n) as [buf|]; [|done]. destruct (sample_spec n out buf Hl Ha) as [Hl' Ha'].
  apply IH; [lia|done].
Qed.

(** How many usable bytes the reads [i .. i+fuel-1] give, up to a failure. *)
Fixpoint supply (fuel n : nat) (read : Entropy) (i : nat) : nat :=
  match fuel with
  | O => 0
  | S fuel => match read i n with None => n | Some buf => accepted buf + supply fuel n read (S i) end
  end%nat.

Lemma randomBase62_returns fuel n read i out :
  (length out ≤ n)%nat → in_alphabet out = true → (n ≤ length out + supply fuel n read i)%nat →
  is_Some (randomBase62 fuel n read i out).
Proof.
  revert i out. induction fuel as [|fuel IH]; intros i out Hl Ha Hs; cbn [randomBase62 supply] in *;
    (destruct (Nat.leb_spec n (length out)); [by eexists|]); [lia|].
  destruct (read i n) as [buf|]; [|by eexists]. destruct (sample_spec n out buf Hl Ha) as [Hl' Ha'].
  apply IH; [lia|done|]. rewrite Hl'. lia.
Qed.

Lemma mintWith_Parse fuel class kid read m :
  (∀ i n b, read i n = Some b → length b = n) →
  (kid = ""%string ∨ String.length kid = KIDLen ∧ in_alphabet (bytes_of kid) = true) →
  mintWith fuel class kid read = Some (Ok m) →
  Parse (m_Raw m) = Ok {| tok_class := class; tok_kid := m_KID m; tok_secret := m_Secret m |}
  ∧ (kid ≠ ""%string → m_KID m = kid).
Proof.
  intros Hread Hkid. unfold mintWith. destruct (KeyClass_Valid class) eqn:Hc; [|done]. cbn [negb].
  destruct (if String.eqb kid "" then _ else _) as [[[kid' i]|e]|] eqn:Hk; [|done..].
  destruct (read i SecretBytes) as [secret|] eqn:Hr; [|done]. intros [= <-]. cbn [m_Raw m_KID m_Secret].
  destruct (String.eqb_spec kid "") as [->|Hne].
  - destruct (randomBase62 _ _ _ _ _) as [[[out j]|]|] eqn:Hb; [|done..]. injection Hk as <- <-.
    apply randomBase62_spec in Hb as [Hl Ha]; [|simpl; lia|done]. split; [|done].
    apply (Parse_text {| tok_class := class; tok_kid := string_of_list_ascii out; tok_secret := secret |}).
    split; cbn [tok_class tok_kid tok_secret]; [done| | |by eapply Hread].
    + by rewrite <- bytes_of_length, bytes_of_string.
    + by rewrite bytes_of_string.
  - injection Hk as <- <-. destruct Hkid as [|[Hl Ha]]; [done|]. split; [|done].
    apply (Parse_text {| tok_class := class; tok_kid := kid; tok_secret := secret |}).
    split; cbn [tok_class tok_kid tok_secret]; [done..|]. by eapply Hread.
Qed.

(** What the minters return.  With an entropy source that fills the buffer
it is given, a minted token, with a random identifier or a fixed one, parses
back to its class, its identifier and its secret; an identifier that is not ten
base-62 characters and an unknown class are refused; and minting returns as
soon as the source has given ten usable bytes or failed. *)
Theorem Mint_correct (fuel : nat) (class kid : string) (read : Entropy) (m : Minted) :
  (∀ i n b, read i n = Some b → length b = n) →
  (Mint fuel class read = Some (Ok m) →
   Parse (m_Raw m) = Ok {| tok_class := class; tok_kid := m_KID m; tok_secret := m_Secret m |})
  ∧ (MintWithKID fuel class kid read = Some (Ok m) →
     Parse (m_Raw m) = Ok {| tok_class := class; tok_kid := kid; tok_secret := m_Secret m |})
  ∧ (String.length kid ≠ KIDLen ∨ in_alphabet (bytes_of kid) = false →
     MintWithKID fuel class kid read = Some (Err ErrMalformed))
  ∧ (KeyClass_Valid class = false → Mint fuel class read = Some (Err ErrUnknownClass))
  ∧ ((KIDLen ≤ supply fuel KIDLen read 0)%nat → is_Some (Mint fuel class read)).
Proof.
  intros Hread. split_and!.
  - intros Hm. eapply mintWith_Parse in Hm; [|done|by left]. tauto.
  - unfold MintWithKID. rewrite isBase62_alphabet.
    destruct (Nat.eqb_spec (String.length kid) KIDLen) as [Hl|]; [|done]. cbn [negb orb].
    destruct (in_alphabet (bytes_of kid)) eqn:Ha; [|done]. rewrite bytes_of_length, Hl. cbn [negb andb]. intros Hm.
    eapply mintWith_Parse in Hm as [Hp Hk]; [|done|by right]. rewrite Hp, Hk; [done|]. by intros ->.
  - intros Hbad. unfold MintWithKID. rewrite isBase62_alphabet. destruct (Nat.eqb_spec (String.length kid) KIDLen); [|done].
    destruct Hbad as [|Hbad]; [done|]. by rewrite Hbad.
  - unfold Mint, mintWith. by intros ->.
  - intros Hs. unfold Mint, mintWith. destruct (KeyClass_Valid class); [|by eexists]. cbn [negb String.eqb].
    destruct (randomBase62_returns fuel KIDLen read 0 []) as [r ->]; [simpl; lia|done|simpl; lia|].
    destruct r as [[out i]|]; [destruct (read i SecretBytes)|]; by eexists.
Qed.

(** * Concrete instances *)

(** An entropy source of ascending bytes. *)
Definition ex_entropy (i n : nat) : option (list byte) :=
  Some (map (λ k, byte_of_Z (Z.of_nat (i * 7 + k))) (seq 0 n)).

Definition ex_minted : Minted :=
  match Mint 5 ClassAgent ex_entropy with
  | Some (Ok m) => m
  | _ => {| m_Raw := ""; m_KID := ""; m_Secret := [] |}
  end.

Definition ex_parsed : Parsed :=
  {| tok_class := ClassAgent; tok_kid := m_KID ex_minted; tok_secret := m_Secret ex_minted |}.

Lemma Mint_correct_witness : Parse (m_Raw ex_minted) = Ok ex_parsed.
Proof.
  apply (Mint_correct 5 ClassAgent "" ex_entropy ex_minted).
  - intros i n b [= <-]. by rewrite length_map, length_seq.
  - vm_compute. reflexivity.
Defined.

Lemma Parse_catches_typo_witness :
  is_ok (Parse (string_of_list_ascii (<[12%nat := "z"%char]> (bytes_of (m_Raw ex_minted))))) = false.
Proof.
  apply (Parse_catches_typo (m_Raw ex_minted) _ ex_parsed 12 "4" "z").
  - vm_compute. reflexivity.
  - vm_compute. reflexivity.
  - discriminate.
  - apply list_ascii_of_string_of_list_ascii.
Defined.
