(* ===== verification/Lru.v ===== *)
(** The bounded least-recently-used map of [src/internal/authn/lru.go], at the
level of its pointers: a heap of nodes linked both ways, the map from keys to
nodes, and the head and tail of the recency list.  A nil dereference, which is
a panic, is [None].

The client-facing contract is the class [BoundedCache]; the linked structure
is shown to refine the list of entries from most to least recently used, which
satisfies it. *)

From S2P Require Import Prelude.
Open Scope list_scope.
Open Scope nat_scope.

Section lru.
Context {K V : Type} `{Countable K}.

Abbreviation loc := nat (only parsing).

Record lruNode := {
  n_key : K;
  n_val : V;
  n_prev : option loc;
  n_next : option loc
}.

Record lruCache := {
  lru_cap : nat;
  lru_m : gmap K loc;
  lru_head : option loc;
  lru_tail : option loc;
  lru_heap : gmap loc lruNode;
  lru_fresh : loc             (** the allocator: every node lies below *)
}.

(** ** Assignments *)

Definition with_prev (p : option loc) (n : lruNode) : lruNode :=
  {| n_key := n_key n; n_val := n_val n; n_prev := p; n_next := n_next n |}.
Definition with_next (p : option loc) (n : lruNode) : lruNode :=
  {| n_key := n_key n; n_val := n_val n; n_prev := n_prev n; n_next := p |}.
Definition with_val (v : V) (n : lruNode) : lruNode :=
  {| n_key := n_key n; n_val := v; n_prev := n_prev n; n_next := n_next n |}.

Definition set_head (p : option loc) (c : lruCache) : lruCache :=
  {| lru_cap := lru_cap c; lru_m := lru_m c; lru_head := p; lru_tail := lru_tail c;
     lru_heap := lru_heap c; lru_fresh := lru_fresh c |}.
Definition set_tail (p : option loc) (c : lruCache) : lruCache :=
  {| lru_cap := lru_cap c; lru_m := lru_m c; lru_head := lru_head c; lru_tail := p;
     lru_heap := lru_heap c; lru_fresh := lru_fresh c |}.
Definition set_m (m : gmap K loc) (c : lruCache) : lruCache :=
  {| lru_cap := lru_cap c; lru_m := m; lru_head := lru_head c; lru_tail := lru_tail c;
     lru_heap := lru_heap c; lru_fresh := lru_fresh c |}.

(** [*l = f( *l )], a panic when there is no such node. *)
Definition store_node (l : loc) (f : lruNode → lruNode) (c : lruCache) : option lruCache :=
  n ← lru_heap c !! l;
  Some {| lru_cap := lru_cap c; lru_m := lru_m c; lru_head := lru_head c; lru_tail := lru_tail c;
          lru_heap := <[l := f n]> (lru_heap c); lru_fresh := lru_fresh c |}.

Definition new_node (n : lruNode) (c : lruCache) : loc * lruCache :=
  (lru_fresh c,
   {| lru_cap := lru_cap c; lru_m := lru_m c; lru_head := lru_head c; lru_tail := lru_tail c;
      lru_heap := <[lru_fresh c := n]> (lru_heap c); lru_fresh := S (lru_fresh c) |}).

(** ** The operations *)

Definition newLRU (capacity : Z) : lruCache :=
  {| lru_cap := Z.to_nat (if (capacity <? 1)%Z then 1 else capacity);
     lru_m := ∅; lru_head := None; lru_tail := None; lru_heap := ∅; lru_fresh := 0 |}.

Definition pushFront (n : loc) (c : lruCache) : option lruCache :=
  c ← store_node n (λ x, with_next (lru_head c) (with_prev None x)) c;
  c ← match lru_head c with
      | Some h => store_node h (with_prev (Some n)) c
      | None => Some c
      end;
  let c := set_head (Some n) c in
  Some (match lru_tail c with None => set_tail (Some n) c | Some _ => c end).

Definition unlink (n : loc) (c : lruCache) : option lruCache :=
  x ← lru_heap c !! n;
  c ← match n_prev x with
      | Some p => store_node p (with_next (n_next x)) c
      | None => Some (set_head (n_next x) c)
      end;
  c ← match n_next x with
      | Some q => store_node q (with_prev (n_prev x)) c
      | None => Some (set_tail (n_prev x) c)
      end;
  store_node n (λ x, with_next None (with_prev None x)) c.

Definition moveToFront (n : loc) (c : lruCache) : option lruCache :=
  if bool_decide (lru_head c = Some n) then Some c
  else c ← unlink n c; pushFront n c.

Definition evictTail (c : lruCache) : option lruCache :=
  n ← lru_tail c;
  c ← unlink n c;
  x ← lru_heap c !! n;
  Some (set_m (delete (n_key x) (lru_m c)) c).

Definition lru_Get (key : K) (c : lruCache) : option (option V * lruCache) :=
  match lru_m c !! key with
  | None => Some (None, c)
  | Some n =>
    c ← moveToFront n c;
    x ← lru_heap c !! n;
    Some (Some (n_val x), c)
  end.

(** The loop that evicts while the map is over capacity. *)
Fixpoint evict_loop (fuel : nat) (c : lruCache) : option lruCache :=
  if lru_cap c <? size (lru_m c)
  then match fuel with O => None | S fuel => c ← evictTail c; evict_loop fuel c end
  else Some c.

Definition lru_Put (key : K) (val : V) (c : lruCache) : option lruCache :=
  match lru_m c !! key with
  | Some n => c ← store_node n (with_val val) c; moveToFront n c
  | None =>
    let '(n, c) := new_node {| n_key := key; n_val := val; n_prev := None; n_next := None |} c in
    let c := set_m (<[key := n]> (lru_m c)) c in
    c ← pushFront n c;
    evict_loop (size (lru_m c)) c
  end.

Definition lru_Remove (key : K) (c : lruCache) : option (bool * lruCache) :=
  match lru_m c !! key with
  | None => Some (false, c)
  | Some n => c ← unlink n c; Some (true, set_m (delete key (lru_m c)) c)
  end.

Definition lru_Purge (c : lruCache) : lruCache :=
  {| lru_cap := lru_cap c; lru_m := ∅; lru_head := None; lru_tail := None;
     lru_heap := lru_heap c; lru_fresh := lru_fresh c |}.

(** * The list of entries, most recently used first *)

Definition drop_key (k : K) (l : list (K * V)) : list (K * V) := filter (λ e, e.1 ≠ k) l.

Fixpoint find_key (k : K) (l : list (K * V)) : option V :=
  match l with
  | [] => None
  | (k', v) :: l => if decide (k' = k) then Some v else find_key k l
  end.

(** What the operations do to it. *)
Definition list_Get (k : K) (l : list (K * V)) : option V * list (K * V) :=
  match find_key k l with
  | None => (None, l)
  | Some v => (Some v, (k, v) :: drop_key k l)
  end.

Definition list_Put (cap : nat) (k : K) (v : V) (l : list (K * V)) : list (K * V) :=
  take cap ((k, v) :: drop_key k l).

Definition list_Remove (k : K) (l : list (K * V)) : bool * list (K * V) :=
  (bool_decide (find_key k l ≠ None), drop_key k l).

(** ** Segments of the linked list *)

Definition first (ls : list loc) (nx : option loc) : option loc :=
  match ls with [] => nx | l :: _ => Some l end.

(** [ls] are the nodes of the entries [kvs] in order, linked both ways, with
[pr] before and [nx] after. *)
Fixpoint dseg (h : gmap loc lruNode) (pr : option loc) (ls : list loc) (kvs : list (K * V)) (nx : option loc) : Prop :=
  match ls, kvs with
  | [], [] => True
  | l :: ls, (k, v) :: kvs =>
    h !! l = Some {| n_key := k; n_val := v; n_prev := pr; n_next := first ls nx |} ∧ dseg h (Some l) ls kvs nx
  | _, _ => False
  end.

Definition last_of (pr : option loc) (ls : list loc) : option loc :=
  match last ls with Some l => Some l | None => pr end.

Lemma dseg_length h pr ls kvs nx : dseg h pr ls kvs nx → length ls = length kvs.
Proof.
  revert pr kvs. induction ls as [|l ls IH]; intros pr [|[k v] kvs]; simpl; try done. intros [_ Hs]. f_equal. eauto.
Qed.

Lemma dseg_app h pr ls1 ls2 kv1 kv2 nx :
  length ls1 = length kv1 →
  dseg h pr (ls1 ++ ls2) (kv1 ++ kv2) nx
  ↔ dseg h pr ls1 kv1 (first ls2 nx) ∧ dseg h (last_of pr ls1) ls2 kv2 nx.
Proof.
  revert pr kv1. induction ls1 as [|l ls1 IH]; intros pr [|[k v] kv1]; simpl; try done.
  { intros _. unfold last_of. simpl. tauto. }
  intros [= Hl]. rewrite (IH (Some l) kv1 Hl).
  assert (last_of (Some l) ls1 = last_of pr (l :: ls1)) as -> by (unfold last_of; rewrite last_cons; by destruct (last ls1)).
  assert (first (ls1 ++ ls2) nx = first ls1 (first ls2 nx)) as -> by (by destruct ls1).
  tauto.
Qed.

Lemma dseg_frame h l n pr ls kvs nx : l ∉ ls → dseg (<[l := n]> h) pr ls kvs nx ↔ dseg h pr ls kvs nx.
Proof.
  revert pr kvs. induction ls as [|l' ls IH]; intros pr [|[k v] kvs] Hl; simpl; try done.
  apply not_elem_of_cons in Hl as [Hne Hl]. rewrite lookup_insert_ne by done. by rewrite IH.
Qed.

(** Changing what comes before a segment. *)
Lemma dseg_set_prev h pr pr' q ls kvs nx :
  NoDup (q :: ls) → dseg h pr (q :: ls) kvs nx →
  ∃ x, h !! q = Some x ∧ dseg (<[q := with_prev pr' x]> h) pr' (q :: ls) kvs nx.
Proof.
  intros [Hq _]%NoDup_cons. destruct kvs as [|[k v] kvs]; [done|]. intros [Hx Hs]. eexists. split; [done|].
  split; [by rewrite lookup_insert_eq|]. by rewrite dseg_frame.
Qed.

(** Changing what comes after it. *)
Lemma dseg_set_next h pr ls p kvs nx nx' :
  NoDup (ls ++ [p]) → dseg h pr (ls ++ [p]) kvs nx →
  ∃ x, h !! p = Some x ∧ dseg (<[p := with_next nx' x]> h) pr (ls ++ [p]) kvs nx'.
Proof.
  intros Hnd Hs. assert (∃ kv1 k v, kvs = kv1 ++ [(k, v)] ∧ length ls = length kv1) as (kv1 & k & v & -> & Hl).
  { pose proof (dseg_length _ _ _ _ _ Hs) as Hl. rewrite length_app in Hl. simpl in Hl.
    destruct kvs as [|[k v] kv1 _] using rev_ind; [simpl in Hl; lia|]. exists kv1, k, v. split; [done|].
    rewrite length_app in Hl. simpl in Hl. lia. }
  apply dseg_app in Hs as [Hs1 [Hx _]]; [|done]. eexists. split; [done|].
  apply NoDup_app in Hnd as (_ & Hp & _). apply dseg_app; [done|]. split.
  - apply dseg_frame; [|done]. intros Hin. by apply (Hp p Hin), list_elem_of_here.
  - split; [|done]. by rewrite lookup_insert_eq.
Qed.

(** ** The whole list *)

Record linked (c : lruCache) (ls : list loc) (kvs : list (K * V)) : Prop := {
  lk_seg : dseg (lru_heap c) None ls kvs None;
  lk_head : lru_head c = first ls None;
  lk_tail : lru_tail c = last_of None ls;
  lk_nodup : NoDup ls;
  lk_fresh : ∀ l, l ∈ ls → l < lru_fresh c
}.

(** What an operation on the links leaves alone. *)
Definition same_rest (c c' : lruCache) : Prop :=
  lru_m c' = lru_m c ∧ lru_cap c' = lru_cap c ∧ lru_fresh c' = lru_fresh c.

Lemma store_node_Some l f c x :
  lru_heap c !! l = Some x →
  ∃ c', store_node l f c = Some c' ∧ lru_heap c' = <[l := f x]> (lru_heap c)
    ∧ lru_head c' = lru_head c ∧ lru_tail c' = lru_tail c ∧ same_rest c c'.
Proof. intros Hx. unfold store_node. rewrite Hx. simpl. by eexists. Qed.

Lemma last_of_snoc pr ls p : last_of pr (ls ++ [p]) = Some p.
Proof. unfold last_of. by rewrite last_snoc. Qed.

Lemma last_of_app pr ls1 ls2 : last_of pr (ls1 ++ ls2) = last_of (last_of pr ls1) ls2.
Proof. unfold last_of. rewrite last_app. by destruct (last ls2). Qed.

(** Redirecting the successor of the part before a node. *)
Lemma relink_before c ls1 kv1 nx nx' :
  dseg (lru_heap c) None ls1 kv1 nx → NoDup ls1 →
  ∃ c', match last_of None ls1 with
        | Some p => store_node p (with_next nx') c
        | None => Some (set_head nx' c)
        end = Some c'
    ∧ dseg (lru_heap c') None ls1 kv1 nx' ∧ lru_tail c' = lru_tail c
    ∧ lru_head c' = (if decide (ls1 = []) then nx' else lru_head c)
    ∧ (∀ l, l ∉ ls1 → lru_heap c' !! l = lru_heap c !! l)
    ∧ (∀ pr ls kvs nx, (∀ l, l ∈ ls → l ∉ ls1) → dseg (lru_heap c) pr ls kvs nx → dseg (lru_heap c') pr ls kvs nx)
    ∧ same_rest c c'.
Proof.
  destruct ls1 as [|p ls1 _] using rev_ind; intros Hs Hnd.
  { exists (set_head nx' c). by split_and!. }
  rewrite last_of_snoc. destruct (dseg_set_next _ _ _ _ _ _ nx' Hnd Hs) as (x & Hx & Hs').
  destruct (store_node_Some p (with_next nx') c x Hx) as (c' & Hc' & Hh & Hhd & Htl & Hr).
  exists c'. rewrite Hh. split_and!; try done.
  - rewrite Hhd, decide_False; [done|]. by destruct ls1.
  - intros l Hl. rewrite lookup_insert_ne; [done|]. intros ->. apply Hl. set_solver.
  - intros pr ls kvs nx0 Hd Hs0. apply dseg_frame; [|done]. intros Hin. apply (Hd p Hin). set_solver.
Qed.

(** Redirecting the predecessor of the part after it. *)
Lemma relink_after c ls2 kv2 pr pr' :
  dseg (lru_heap c) pr ls2 kv2 None → NoDup ls2 →
  ∃ c', match first ls2 None with
        | Some q => store_node q (with_prev pr') c
        | None => Some (set_tail pr' c)
        end = Some c'
    ∧ dseg (lru_heap c') pr' ls2 kv2 None ∧ lru_head c' = lru_head c
    ∧ lru_tail c' = (if decide (ls2 = []) then pr' else lru_tail c)
    ∧ (∀ l, l ∉ ls2 → lru_heap c' !! l = lru_heap c !! l)
    ∧ (∀ pr ls kvs nx, (∀ l, l ∈ ls → l ∉ ls2) → dseg (lru_heap c) pr ls kvs nx → dseg (lru_heap c') pr ls kvs nx)
    ∧ same_rest c c'.
Proof.
  destruct ls2 as [|q ls2]; intros Hs Hnd; simpl first.
  { exists (set_tail pr' c). by split_and!. }
  destruct (dseg_set_prev _ _ pr' _ _ _ _ Hnd Hs) as (x & Hx & Hs').
  destruct (store_node_Some q (with_prev pr') c x Hx) as (c' & Hc' & Hh & Hhd & Htl & Hr).
  exists c'. rewrite Hh. split_and!; try done.
  - intros l Hl. rewrite lookup_insert_ne; [done|]. intros ->. apply Hl. set_solver.
  - intros pr0 ls kvs nx0 Hd Hs0. apply dseg_frame; [|done]. intros Hin. apply (Hd q Hin). set_solver.
Qed.

Lemma unlink_linked c ls1 n ls2 kv1 k v kv2 :
  linked c (ls1 ++ n :: ls2) (kv1 ++ (k, v) :: kv2) → length ls1 = length kv1 →
  ∃ c', unlink n c = Some c' ∧ linked c' (ls1 ++ ls2) (kv1 ++ kv2)
    ∧ lru_heap c' !! n = Some {| n_key := k; n_val := v; n_prev := None; n_next := None |} ∧ same_rest c c'.
Proof.
  intros [Hseg Hhd Htl Hnd Hfr] Hlen. apply dseg_app in Hseg as [Hs1 [Hn Hs2]]; [|done]. simpl first in Hs1.
  apply NoDup_app in Hnd as (Hnd1 & Hdisj & [Hn2 Hnd2]%NoDup_cons).
  assert (n ∉ ls1) as Hn1 by (intros Hin; apply (Hdisj n Hin); set_solver).
  destruct (relink_before c ls1 kv1 (Some n) (first ls2 None) Hs1 Hnd1) as (c1 & Hc1 & Hs1' & Ht1 & Hh1 & Hk1 & Hfr1 & Hr1).
  destruct (relink_after c1 ls2 kv2 (Some n) (last_of None ls1)) as (c2 & Hc2 & Hs2' & Hh2 & Ht2 & Hk2 & Hfr2 & Hr2);
    [apply Hfr1; [set_solver|done]|done|].
  assert (lru_heap c2 !! n = Some {| n_key := k; n_val := v; n_prev := last_of None ls1; n_next := first ls2 None |}) as Hn'
    by (rewrite Hk2, Hk1; done).
  destruct (store_node_Some n (λ x, with_next None (with_prev None x)) c2 _ Hn') as (c3 & Hc3 & Hh3 & Hhd3 & Htl3 & Hr3).
  exists c3. unfold unlink. rewrite Hn. simpl. rewrite Hc1. simpl. rewrite Hc2. simpl. split; [exact Hc3|].
  split; [|split; [rewrite Hh3; by rewrite lookup_insert_eq|]].
  - split.
    + rewrite Hh3. apply dseg_frame; [set_solver|]. apply dseg_app; [done|]. split; [|done].
      apply Hfr2; [set_solver|done].
    + rewrite Hhd3, Hh2, Hh1, Hhd. destruct ls1; [done|]. by rewrite decide_False.
    + rewrite Htl3, Ht2, Ht1, Htl, !last_of_app. destruct ls2 as [|q ls2]; [by rewrite decide_True|].
      rewrite decide_False by done. change (n :: q :: ls2) with ([n] ++ q :: ls2). rewrite last_of_app.
      unfold last_of. rewrite last_cons. by destruct (last ls2).
    + apply NoDup_app. split_and!; [done| |done]. intros l Hl Hl2. apply (Hdisj l Hl). set_solver.
    + destruct Hr1 as (_ & _ & Hf1), Hr2 as (_ & _ & Hf2), Hr3 as (_ & _ & Hf3). rewrite Hf3, Hf2, Hf1. set_solver.
  - unfold same_rest in *. intuition congruence.
Qed.

Lemma pushFront_linked c n ls kvs x :
  linked c ls kvs → n ∉ ls → lru_heap c !! n = Some x → n < lru_fresh c →
  ∃ c', pushFront n c = Some c' ∧ linked c' (n :: ls) ((n_key x, n_val x) :: kvs) ∧ same_rest c c'.
Proof.
  intros [Hseg Hhd Htl Hnd Hfr] Hn Hx Hlt.
  destruct (store_node_Some n (λ x, with_next (lru_head c) (with_prev None x)) c x Hx) as (c1 & Hc1 & Hh1 & Hhd1 & Htl1 & Hr1).
  unfold pushFront. rewrite Hc1. simpl. rewrite Hhd1, Hhd.
  assert (dseg (lru_heap c1) None ls kvs None) as Hs1 by (rewrite Hh1; by apply dseg_frame).
  assert (∀ h, h !! n = lru_heap c1 !! n → dseg h (Some n) ls kvs None → dseg h None (n :: ls) ((n_key x, n_val x) :: kvs) None)
    as Hcons by (intros h Hhn Hs; split; [rewrite Hhn, Hh1, lookup_insert_eq, Hhd; done|done]).
  assert (NoDup (n :: ls)) by by apply NoDup_cons.
  destruct ls as [|q ls]; simpl first.
  - simpl. rewrite Htl1, Htl. simpl. eexists. split; [done|]. split; [|unfold same_rest in *; simpl; tauto].
    split; simpl; try done; [by apply Hcons|]. destruct Hr1 as (_ & _ & ->). set_solver.
  - apply NoDup_cons in Hnd as Hnd'. destruct (dseg_set_prev _ _ (Some n) _ _ _ _ Hnd Hs1) as (y & Hy & Hs2).
    destruct (store_node_Some q (with_prev (Some n)) c1 y Hy) as (c2 & Hc2 & Hh2 & Hhd2 & Htl2 & Hr2).
    rewrite Hc2. simpl. rewrite Htl2, Htl1, Htl. unfold last_of. rewrite last_cons.
    assert (∃ t, match last ls with Some y => Some y | None => Some q end = Some t) as [t Ht] by (destruct (last ls); eauto).
    rewrite Ht. eexists. split; [done|]. split; [|unfold same_rest in *; simpl; intuition congruence].
    split; simpl; try done.
    + rewrite Hh2. apply Hcons; [|done]. rewrite lookup_insert_ne; [done|]. set_solver.
    + rewrite Htl2, Htl1, Htl. unfold last_of. rewrite !last_cons. by destruct (last ls).
    + destruct Hr1 as (_ & _ & Hf1), Hr2 as (_ & _ & Hf2). rewrite Hf2, Hf1. set_solver.
Qed.

(** ** The cache refines the list *)

Definition index_map (kvs : list (K * V)) (ls : list loc) : gmap K loc := list_to_map (zip kvs.*1 ls).

Record indexed (c : lruCache) (ls : list loc) (kvs : list (K * V)) : Prop := {
  ix_linked : linked c ls kvs;
  ix_keys : NoDup kvs.*1;
  ix_map : lru_m c = index_map kvs ls
}.

(** The cache holds the entries [kvs], most recently used first. *)
Definition lru_repr (c : lruCache) (kvs : list (K * V)) : Prop :=
  (∃ ls, indexed c ls kvs) ∧ length kvs ≤ lru_cap c ∧ 1 ≤ lru_cap c.

Lemma zip_keys (kvs : list (K * V)) (ls : list loc) : length ls = length kvs → (zip kvs.*1 ls).*1 = kvs.*1.
Proof. intros Hl. apply fst_zip. rewrite length_fmap. lia. Qed.

Lemma index_map_split (kv1 : list (K * V)) k v kv2 (ls1 : list loc) n ls2 :
  length ls1 = length kv1 →
  zip (kv1 ++ (k, v) :: kv2).*1 (ls1 ++ n :: ls2) = zip kv1.*1 ls1 ++ (k, n) :: zip kv2.*1 ls2.
Proof. intros Hl. rewrite fmap_app. simpl. rewrite zip_with_app by (by rewrite length_fmap). done. Qed.

Lemma drop_key_absent k (kvs : list (K * V)) : k ∉ kvs.*1 → drop_key k kvs = kvs ∧ find_key k kvs = None.
Proof.
  induction kvs as [|[k' v] kvs IH]; simpl; [done|]. intros [Hne Hin]%not_elem_of_cons. destruct (IH Hin) as [Hd Hf].
  unfold drop_key in *. rewrite filter_cons_True by (simpl; congruence). rewrite Hd, decide_False by congruence. done.
Qed.

Lemma drop_key_present k v (kv1 kv2 : list (K * V)) :
  NoDup (kv1 ++ (k, v) :: kv2).*1 →
  drop_key k (kv1 ++ (k, v) :: kv2) = kv1 ++ kv2 ∧ find_key k (kv1 ++ (k, v) :: kv2) = Some v.
Proof.
  rewrite fmap_app. simpl. intros (_ & Hdisj & [Hk2 _]%NoDup_cons)%NoDup_app.
  assert (k ∉ kv1.*1) as Hk1 by (intros Hin; apply (Hdisj k Hin); set_solver).
  destruct (drop_key_absent k kv1 Hk1) as [Hd1 _]. destruct (drop_key_absent k kv2 Hk2) as [Hd2 _]. split.
  - unfold drop_key in *. rewrite filter_app, Hd1, filter_cons_False by (simpl; tauto). by rewrite Hd2.
  - clear -Hk1. induction kv1 as [|[k' v'] kv1 IH]; simpl; [by rewrite decide_True|].
    simpl in Hk1. apply not_elem_of_cons in Hk1 as [? ?]. rewrite decide_False by congruence. auto.
Qed.

Lemma indexed_Some c ls kvs k n :
  indexed c ls kvs → lru_m c !! k = Some n →
  ∃ ls1 ls2 kv1 v kv2, ls = ls1 ++ n :: ls2 ∧ kvs = kv1 ++ (k, v) :: kv2 ∧ length ls1 = length kv1
    ∧ drop_key k kvs = kv1 ++ kv2 ∧ find_key k kvs = Some v.
Proof.
  intros [Hl Hk Hm] Hn. pose proof (dseg_length _ _ _ _ _ (lk_seg _ _ _ Hl)) as Hlen.
  rewrite Hm in Hn. unfold index_map in Hn. apply elem_of_list_to_map in Hn; [|by rewrite zip_keys].
  apply list_elem_of_lookup in Hn as [i Hi]. apply lookup_zip_with_Some in Hi as (k' & n' & [= <- <-] & Hki & Hni).
  rewrite list_lookup_fmap in Hki. destruct (kvs !! i) as [[k0 v]|] eqn:Hkv; [|done]. injection Hki as <-.
  exists (take i ls), (drop (S i) ls), (take i kvs), v, (drop (S i) kvs).
  rewrite !take_drop_middle by done. split_and!; [done..| | |].
  - rewrite !length_take. lia.
  - rewrite <- (take_drop_middle _ _ _ Hkv) in Hk. rewrite <- (take_drop_middle _ _ _ Hkv) at 1. by apply drop_key_present.
  - rewrite <- (take_drop_middle _ _ _ Hkv) in Hk. rewrite <- (take_drop_middle _ _ _ Hkv) at 1. by apply drop_key_present.
Qed.

Lemma indexed_None c ls kvs k :
  indexed c ls kvs → lru_m c !! k = None → k ∉ kvs.*1 ∧ drop_key k kvs = kvs ∧ find_key k kvs = None.
Proof.
  intros [Hl Hk Hm] Hn. pose proof (dseg_length _ _ _ _ _ (lk_seg _ _ _ Hl)) as Hlen.
  rewrite Hm in Hn. apply not_elem_of_list_to_map in Hn. rewrite zip_keys in Hn by done.
  split; [done|]. by apply drop_key_absent.
Qed.

Lemma indexed_size c ls kvs : indexed c ls kvs → size (lru_m c) = length kvs.
Proof.
  intros [Hl Hk Hm]. pose proof (dseg_length _ _ _ _ _ (lk_seg _ _ _ Hl)) as Hlen.
  rewrite Hm. unfold index_map. rewrite map_size_list_to_map by (by rewrite zip_keys).
  rewrite length_zip_with, length_fmap. lia.
Qed.

(** Moving a present entry to the front, with a new value. *)
Lemma moveToFront_indexed c ls1 n ls2 kv1 k v kv2 :
  indexed c (ls1 ++ n :: ls2) (kv1 ++ (k, v) :: kv2) → length ls1 = length kv1 →
  ∃ c', moveToFront n c = Some c' ∧ indexed c' (n :: ls1 ++ ls2) ((k, v) :: kv1 ++ kv2)
    ∧ (n_val <$> lru_heap c' !! n) = Some v ∧ lru_cap c' = lru_cap c.
Proof.
  intros [Hl Hk Hm] Hlen. unfold moveToFront.
  destruct (bool_decide_reflect (lru_head c = Some n)) as [Hh|Hh].
  { destruct ls1 as [|l ls1].
    - destruct kv1; [|done]. exists c. split; [done|]. split; [by split|]. split; [|done].
      destruct Hl as [[Hn _] _ _ _ _]. simpl in Hn. by rewrite Hn.
    - destruct Hl as [_ Hhd _ Hnd _]. simpl in Hhd, Hnd. rewrite Hhd in Hh. injection Hh as ->.
      apply NoDup_cons in Hnd as [Hnd _]. set_solver. }
  destruct (unlink_linked _ _ _ _ _ _ _ _ Hl Hlen) as (c1 & Hc1 & Hl1 & Hn1 & Hm1 & Hcap1 & Hfr1).
  assert (n < lru_fresh c1) by (rewrite Hfr1; apply Hl; set_solver).
  assert (n ∉ ls1 ++ ls2).
  { destruct Hl as [_ _ _ Hnd _]. apply NoDup_app in Hnd as (_ & Hd & [Hn2 _]%NoDup_cons). intros [Hin|Hin]%elem_of_app; [|done].
    apply (Hd n Hin). set_solver. }
  destruct (pushFront_linked c1 n (ls1 ++ ls2) (kv1 ++ kv2) _ Hl1 ltac:(done) Hn1 ltac:(done)) as (c2 & Hc2 & Hl2 & Hm2 & Hcap2 & Hfr2).
  exists c2. rewrite Hc1. simpl. split; [done|]. simpl in Hl2.
  assert (kv1 ++ (k, v) :: kv2 ≡ₚ (k, v) :: kv1 ++ kv2) as Hperm by (by rewrite <- Permutation_middle).
  assert (NoDup ((k, v) :: kv1 ++ kv2).*1) by (by rewrite <- Hperm).
  split; [split; [done..|]|split; [|congruence]].
  - rewrite Hm2, Hm1, Hm. unfold index_map. rewrite index_map_split by done. symmetry. apply list_to_map_proper.
    + rewrite zip_keys; [done|]. simpl. by rewrite (dseg_length _ _ _ _ _ (lk_seg _ _ _ Hl1)).
    + simpl. rewrite fmap_app, zip_with_app by (by rewrite length_fmap). by rewrite Permutation_middle.
  - destruct Hl2 as [[Hx _] _ _ _ _]. by rewrite Hx.
Qed.

(** Dropping an entry. *)
Lemma unlink_indexed c ls1 n ls2 kv1 k v kv2 :
  indexed c (ls1 ++ n :: ls2) (kv1 ++ (k, v) :: kv2) → length ls1 = length kv1 →
  ∃ c', unlink n c = Some c' ∧ indexed (set_m (delete k (lru_m c')) c') (ls1 ++ ls2) (kv1 ++ kv2)
    ∧ (n_key <$> lru_heap c' !! n) = Some k ∧ lru_cap c' = lru_cap c.
Proof.
  intros [Hl Hk Hm] Hlen. destruct (unlink_linked _ _ _ _ _ _ _ _ Hl Hlen) as (c1 & Hc1 & Hl1 & Hn1 & Hm1 & Hcap1 & Hfr1).
  exists c1. split; [done|]. split; [|split; [by rewrite Hn1|done]].
  assert (kv1 ++ (k, v) :: kv2 ≡ₚ (k, v) :: kv1 ++ kv2) as Hperm by (by rewrite <- Permutation_middle).
  rewrite Hperm in Hk. simpl in Hk. apply NoDup_cons in Hk as [Hnk Hk]. split.
  - by destruct Hl1; split.
  - done.
  - simpl. rewrite Hm1, Hm. unfold index_map. rewrite index_map_split by done.
    rewrite list_to_map_app. simpl. rewrite fmap_app, zip_with_app by (by rewrite length_fmap). rewrite list_to_map_app.
    assert (∀ (kv : list (K * V)) ls, k ∉ kv.*1 → list_to_map (M := gmap K loc) (zip kv.*1 ls) !! k = None) as Hnone.
    { intros kv ls Hkv. apply not_elem_of_list_to_map. intros Hin%list_elem_of_fmap. destruct Hin as ([k' l'] & -> & Hin).
      apply elem_of_zip_l in Hin. done. }
    rewrite fmap_app in Hnk. apply not_elem_of_app in Hnk as [Hnk1 Hnk2].
    rewrite delete_union, delete_insert_eq, !delete_id; [done|by apply Hnone..].
Qed.

Lemma evictTail_indexed c ls kvs kv :
  indexed c ls (kvs ++ [kv]) → ∃ c' ls', evictTail c = Some c' ∧ indexed c' ls' kvs ∧ lru_cap c' = lru_cap c.
Proof.
  intros Hix. pose proof (dseg_length _ _ _ _ _ (lk_seg _ _ _ (ix_linked _ _ _ Hix))) as Hlen.
  rewrite length_app in Hlen. simpl in Hlen. destruct kv as [k v].
  destruct ls as [|n ls _] using rev_ind; [simpl in Hlen; lia|]. rewrite length_app in Hlen. simpl in Hlen.
  pose proof (lk_tail _ _ _ (ix_linked _ _ _ Hix)) as Ht. rewrite last_of_snoc in Ht.
  destruct (unlink_indexed c ls n [] kvs k v [] Hix ltac:(lia)) as (c1 & Hc1 & Hix1 & Hn1 & Hcap).
  destruct (lru_heap c1 !! n) as [x|] eqn:Hx; [|done]. injection Hn1 as Hkx.
  unfold evictTail. rewrite Ht. simpl. rewrite Hc1. simpl. rewrite Hx. simpl. rewrite Hkx.
  rewrite !app_nil_r in Hix1. eauto.
Qed.

(** Replacing the value of a present entry. *)
Lemma store_val_indexed c ls1 n ls2 kv1 k v v' kv2 :
  indexed c (ls1 ++ n :: ls2) (kv1 ++ (k, v) :: kv2) → length ls1 = length kv1 →
  ∃ c', store_node n (with_val v') c = Some c' ∧ indexed c' (ls1 ++ n :: ls2) (kv1 ++ (k, v') :: kv2)
    ∧ lru_cap c' = lru_cap c.
Proof.
  intros [[Hseg Hhd Htl Hnd Hfr] Hk Hm] Hlen. pose proof Hseg as [Hs1 [Hn Hs2]]%dseg_app; [|done].
  destruct (store_node_Some n (with_val v') c _ Hn) as (c' & Hc' & Hh' & Hhd' & Htl' & Hm' & Hcap' & Hfr').
  exists c'. split; [done|]. split; [|done]. pose proof Hnd as (_ & Hdisj & [Hn2 _]%NoDup_cons)%NoDup_app.
  assert (n ∉ ls1) by (intros Hin; apply (Hdisj n Hin); set_solver). split; [split|..].
  - rewrite Hh'. apply dseg_app; [done|]. split; [by apply dseg_frame|]. split; [by rewrite lookup_insert_eq|].
    by apply dseg_frame.
  - by rewrite Hhd'.
  - by rewrite Htl'.
  - done.
  - by rewrite Hfr'.
  - rewrite fmap_app in *. done.
  - rewrite Hm', Hm. unfold index_map. by rewrite !fmap_app.
Qed.

(** Inserting a new entry at the front. *)
Lemma insert_indexed c ls kvs k v :
  indexed c ls kvs → k ∉ kvs.*1 →
  let '(n, c1) := new_node {| n_key := k; n_val := v; n_prev := None; n_next := None |} c in
  ∃ c' ls', pushFront n (set_m (<[k := n]> (lru_m c1)) c1) = Some c' ∧ indexed c' ls' ((k, v) :: kvs)
    ∧ lru_cap c' = lru_cap c.
Proof.
  intros [[Hseg Hhd Htl Hnd Hfr] Hk Hm] Hnk. simpl.
  assert (lru_fresh c ∉ ls) as Hf by (intros Hin; specialize (Hfr _ Hin); lia).
  set (x := {| n_key := k; n_val := v; n_prev := None; n_next := None |}).
  match goal with |- context [pushFront _ ?c1] =>
    destruct (pushFront_linked c1 (lru_fresh c) ls kvs x) as (c' & Hc' & Hl' & Hm' & Hcap' & Hfr') end.
  - split; simpl; try done; [by apply dseg_frame|]. intros l Hl. specialize (Hfr l Hl). lia.
  - done.
  - simpl. by rewrite lookup_insert_eq.
  - simpl. lia.
  - exists c', (lru_fresh c :: ls). split; [done|]. split; [|by rewrite Hcap']. split; [done| |].
    + simpl. by apply NoDup_cons.
    + rewrite Hm'. simpl. by rewrite Hm.
Qed.

Lemma evict_loop_spec fuel c ls kvs :
  indexed c ls kvs → length kvs ≤ lru_cap c + fuel →
  ∃ c' ls', evict_loop fuel c = Some c' ∧ indexed c' ls' (take (lru_cap c) kvs) ∧ lru_cap c' = lru_cap c.
Proof.
  revert c ls kvs. induction fuel as [|fuel IH]; intros c ls kvs Hix Hlen; cbn [evict_loop];
    rewrite (indexed_size _ _ _ Hix); (destruct (Nat.ltb_spec (lru_cap c) (length kvs)) as [Hlt|Hge];
      [|rewrite take_ge by done; eauto]); [lia|].
  destruct kvs as [|kv kvs _] using rev_ind; [simpl in Hlt; lia|]. rewrite length_app in *. simpl in *.
  destruct (evictTail_indexed _ _ _ _ Hix) as (c1 & ls1 & Hc1 & Hix1 & Hcap). rewrite Hc1. simpl.
  destruct (IH c1 ls1 kvs Hix1) as (c2 & ls2 & Hc2 & Hix2 & Hcap2); [lia|].
  exists c2, ls2. split; [done|]. rewrite Hcap in *. split; [|done]. by rewrite take_app_le by lia.
Qed.

Lemma drop_key_length k (kvs : list (K * V)) : length (drop_key k kvs) ≤ length kvs.
Proof. apply length_filter. Qed.

Lemma lru_Get_repr c kvs k :
  lru_repr c kvs →
  ∃ c', lru_Get k c = Some ((list_Get k kvs).1, c') ∧ lru_repr c' (list_Get k kvs).2 ∧ lru_cap c' = lru_cap c.
Proof.
  intros ((ls & Hix) & Hlen & Hcap). unfold lru_Get, list_Get. destruct (lru_m c !! k) as [n|] eqn:Hn.
  - destruct (indexed_Some _ _ _ _ _ Hix Hn) as (ls1 & ls2 & kv1 & v & kv2 & -> & -> & Hl & Hd & Hf).
    destruct (moveToFront_indexed _ _ _ _ _ _ _ _ Hix Hl) as (c1 & Hc1 & Hix1 & Hv & Hcap1).
    rewrite Hc1, Hf, Hd. simpl. destruct (lru_heap c1 !! n) as [x|]; [|done]. injection Hv as Hv. simpl. rewrite Hv.
    exists c1. split; [done|]. split; [|done]. split; [by eexists|]. rewrite Hcap1.
    rewrite length_app in Hlen. simpl in *. rewrite length_app. lia.
  - destruct (indexed_None _ _ _ _ Hix Hn) as (_ & _ & ->). exists c. split; [done|]. split; [|done]. split; [by eexists|done].
Qed.

Lemma lru_Put_repr c kvs k v :
  lru_repr c kvs →
  ∃ c', lru_Put k v c = Some c' ∧ lru_repr c' (list_Put (lru_cap c) k v kvs) ∧ lru_cap c' = lru_cap c.
Proof.
  intros ((ls & Hix) & Hlen & Hcap). unfold lru_Put, list_Put. destruct (lru_m c !! k) as [n|] eqn:Hn.
  - destruct (indexed_Some _ _ _ _ _ Hix Hn) as (ls1 & ls2 & kv1 & v0 & kv2 & -> & -> & Hl & -> & _).
    destruct (store_val_indexed _ _ _ _ _ _ _ v _ Hix Hl) as (c1 & Hc1 & Hix1 & Hcap1).
    destruct (moveToFront_indexed _ _ _ _ _ _ _ _ Hix1 Hl) as (c2 & Hc2 & Hix2 & _ & Hcap2).
    rewrite Hc1. simpl. exists c2. rewrite length_app in Hlen. simpl in Hlen.
    assert (length ((k, v) :: kv1 ++ kv2) ≤ lru_cap c) by (simpl; rewrite length_app; lia).
    rewrite take_ge by done. split; [done|]. split; [|congruence]. split; [by eexists|]. rewrite Hcap2, Hcap1. done.
  - destruct (indexed_None _ _ _ _ Hix Hn) as (Hnk & -> & _).
    pose proof (insert_indexed c ls kvs k v Hix Hnk) as Hins. destruct (new_node _ c) as [n c1].
    destruct Hins as (c2 & ls2 & Hc2 & Hix2 & Hcap2). rewrite Hc2. simpl.
    destruct (evict_loop_spec (size (lru_m c2)) c2 ls2 ((k, v) :: kvs) Hix2) as (c3 & ls3 & Hc3 & Hix3 & Hcap3).
    { rewrite (indexed_size _ _ _ Hix2). lia. }
    exists c3. rewrite Hcap2 in *. split; [done|]. split; [|done]. split; [by eexists|]. rewrite Hcap3, length_take. lia.
Qed.

Lemma lru_Remove_repr c kvs k :
  lru_repr c kvs →
  ∃ c', lru_Remove k c = Some ((list_Remove k kvs).1, c') ∧ lru_repr c' (list_Remove k kvs).2 ∧ lru_cap c' = lru_cap c.
Proof.
  intros ((ls & Hix) & Hlen & Hcap). unfold lru_Remove, list_Remove. destruct (lru_m c !! k) as [n|] eqn:Hn.
  - destruct (indexed_Some _ _ _ _ _ Hix Hn) as (ls1 & ls2 & kv1 & v & kv2 & -> & -> & Hl & Hd & Hf).
    destruct (unlink_indexed _ _ _ _ _ _ _ _ Hix Hl) as (c1 & Hc1 & Hix1 & _ & Hcap1).
    rewrite Hc1, Hf, Hd. simpl. rewrite ?bool_decide_eq_true_2 by done. eexists. split; [done|]. split; [|done].
    split; [by eexists|]. simpl. rewrite Hcap1. rewrite length_app in *. simpl in Hlen. lia.
  - destruct (indexed_None _ _ _ _ Hix Hn) as (_ & -> & ->). exists c. simpl. rewrite ?bool_decide_eq_false_2 by tauto.
    split; [done|]. split; [|done]. split; [by eexists|done].
Qed.

Lemma lru_empty_repr c : lru_m c = ∅ → lru_head c = None → lru_tail c = None → 1 ≤ lru_cap c → lru_repr c [].
Proof.
  intros Hm Hh Ht Hc. split; [|simpl; lia]. exists []. split; [|by constructor|done].
  split; simpl; [done..|constructor|]. intros l ?%elem_of_nil. done.
Qed.

(** C37: The linked cache is a recency list.  Every operation on the pointer
structure runs without a nil dereference and does to the list of entries, from
most to least recently used, what it should: [Get] finds an entry and moves it
to the front, [Put] places it at the front and keeps the [cap] most recent,
[Remove] deletes it, [Purge] empties the cache; a new cache is empty, holds at
least one entry, and no operation lets it hold more than its capacity. *)
Theorem lru_refines (c : lruCache) (kvs : list (K * V)) (k : K) (v : V) (capacity : Z) :
  lru_repr c kvs →
  (∃ c', lru_Get k c = Some ((list_Get k kvs).1, c') ∧ lru_repr c' (list_Get k kvs).2)
  ∧ (∃ c', lru_Put k v c = Some c' ∧ lru_repr c' (list_Put (lru_cap c) k v kvs))
  ∧ (∃ c', lru_Remove k c = Some ((list_Remove k kvs).1, c') ∧ lru_repr c' (list_Remove k kvs).2)
  ∧ lru_repr (lru_Purge c) []
  ∧ lru_repr (newLRU capacity) [] ∧ lru_cap (newLRU capacity) = Z.to_nat (Z.max 1 capacity)
  ∧ size (lru_m c) ≤ lru_cap c.
Proof.
  intros Hr. split_and!.
  - destruct (lru_Get_repr c kvs k Hr) as (c' & ? & ? & _). eauto.
  - destruct (lru_Put_repr c kvs k v Hr) as (c' & ? & ? & _). eauto.
  - destruct (lru_Remove_repr c kvs k Hr) as (c' & ? & ? & _). eauto.
  - by apply lru_empty_repr; try apply Hr.
  - apply lru_empty_repr; try done. simpl. destruct (Z.ltb_spec capacity 1); lia.
  - simpl. destruct (Z.ltb_spec capacity 1); lia.
  - destruct Hr as ((ls & Hix) & Hlen & _). by rewrite (indexed_size _ _ _ Hix).
Qed.

End lru.

Arguments lruNode : clear implicits.
Arguments lruCache K V {_ _}.

(** * What clients may rely on *)

(** A bounded cache may forget at any time, and never makes an entry up. *)
Class BoundedCache (K V C : Type) := {
  bc_new : Z → C;
  bc_get : K → C → option V * C;
  bc_put : K → V → C → C;
  bc_remove : K → C → C;
  bc_purge : C → C;
  (** the entries held *)
  bc_holds : C → K → V → Prop;
  bc_new_holds n k v : ¬ bc_holds (bc_new n) k v;
  bc_get_holds k c v : (bc_get k c).1 = Some v → bc_holds c k v;
  bc_get_miss k c v : (bc_get k c).1 = None → ¬ bc_holds c k v;
  bc_get_keeps k c k' v' : bc_holds (bc_get k c).2 k' v' → bc_holds c k' v';
  bc_put_holds k v c k' v' : bc_holds (bc_put k v c) k' v' → (k' = k ∧ v' = v) ∨ (k' ≠ k ∧ bc_holds c k' v');
  bc_remove_holds k c k' v' : bc_holds (bc_remove k c) k' v' → k' ≠ k ∧ bc_holds c k' v';
  bc_purge_holds c k v : ¬ bc_holds (bc_purge c) k v
}.

Section instance.
Context {K V : Type} `{Countable K}.

(** Linked caches in a state the operations can reach, with their entries. *)
Record LRU := {
  lru_cache : lruCache K V;
  lru_entries : list (K * V);
  lru_ok : lru_repr lru_cache lru_entries
}.

Lemma find_key_elem k v (l : list (K * V)) : find_key k l = Some v → (k, v) ∈ l.
Proof.
  induction l as [|[k' v'] l IH]; simpl; [done|]. case_decide as Hd; [intros [= <-]; subst; apply list_elem_of_here|].
  intros Hf. apply list_elem_of_further. auto.
Qed.

Lemma find_key_None k v (l : list (K * V)) : find_key k l = None → (k, v) ∉ l.
Proof.
  induction l as [|[k' v'] l IH]; simpl; [intros _; apply not_elem_of_nil|].
  case_decide; [done|]. intros Hf. apply not_elem_of_cons. split; [congruence|auto].
Qed.

Lemma drop_key_elem k k' v (l : list (K * V)) : (k', v) ∈ drop_key k l ↔ k' ≠ k ∧ (k', v) ∈ l.
Proof. unfold drop_key. rewrite list_elem_of_filter. done. Qed.

Definition lru_run {A} (o : option A) (d : A) : A := match o with Some a => a | None => d end.

Lemma lru_get_ok (c : LRU) k :
  lru_repr (lru_run (lru_Get k (lru_cache c)) (None, lru_cache c)).2 (list_Get k (lru_entries c)).2.
Proof. destruct (lru_Get_repr _ _ k (lru_ok c)) as (c' & -> & Hr & _). done. Qed.

Lemma lru_put_ok (c : LRU) k v :
  lru_repr (lru_run (lru_Put k v (lru_cache c)) (lru_cache c)) (list_Put (lru_cap (lru_cache c)) k v (lru_entries c)).
Proof. destruct (lru_Put_repr _ _ k v (lru_ok c)) as (c' & -> & Hr & _). done. Qed.

Lemma lru_remove_ok (c : LRU) k :
  lru_repr (lru_run (lru_Remove k (lru_cache c)) (false, lru_cache c)).2 (list_Remove k (lru_entries c)).2.
Proof. destruct (lru_Remove_repr _ _ k (lru_ok c)) as (c' & -> & Hr & _). done. Qed.

Lemma lru_purge_ok (c : LRU) : lru_repr (lru_Purge (lru_cache c)) [].
Proof. apply lru_empty_repr; try done. apply (lru_ok c). Qed.

Lemma lru_new_ok n : lru_repr (newLRU (K := K) (V := V) n) [].
Proof. apply lru_empty_repr; try done. simpl. destruct (Z.ltb_spec n 1); lia. Qed.

(** The linked cache keeps the contract: [Get] returns what the structure
returns, and the entries are those of the recency list. *)
#[export, refine] Instance lru_bounded : BoundedCache K V LRU := {|
  bc_new n := {| lru_ok := lru_new_ok n |};
  bc_get k c := ((lru_run (lru_Get k (lru_cache c)) (None, lru_cache c)).1, {| lru_ok := lru_get_ok c k |});
  bc_put k v c := {| lru_ok := lru_put_ok c k v |};
  bc_remove k c := {| lru_ok := lru_remove_ok c k |};
  bc_purge c := {| lru_ok := lru_purge_ok c |};
  bc_holds c k v := (k, v) ∈ lru_entries c
|}.
Proof.
  - intros n k v. apply not_elem_of_nil.
  - intros k c v. simpl. destruct (lru_Get_repr _ _ k (lru_ok c)) as (c' & -> & _ & _). simpl. unfold list_Get.
    destruct (find_key k (lru_entries c)) eqn:Hf; simpl; [|done]. intros [= <-]. by apply find_key_elem.
  - intros k c v. simpl. destruct (lru_Get_repr _ _ k (lru_ok c)) as (c' & -> & _ & _). simpl. unfold list_Get.
    destruct (find_key k (lru_entries c)) eqn:Hf; simpl; [done|]. intros _. by apply find_key_None.
  - intros k c k' v'. simpl. unfold list_Get. destruct (find_key k (lru_entries c)) eqn:Hf; simpl; [|done].
    intros [Heq|[_ Hin]%drop_key_elem]%elem_of_cons; [|done]. simplify_eq. by apply find_key_elem.
  - intros k v c k' v'. cbn [lru_entries]. unfold list_Put. intros Hin%elem_of_take. destruct Hin as (i & Hi & _).
    apply list_elem_of_lookup_2, elem_of_cons in Hi as [Heq|[Hne Hin]%drop_key_elem]; [left; by simplify_eq|by right].
  - intros k c k' v'. simpl. by intros [Hne Hin]%drop_key_elem.
  - intros c k v. apply not_elem_of_nil.
Defined.

End instance.

Arguments LRU K V {_ _}.

(** * Concrete instances *)

Definition ex_lru : LRU nat nat := bc_put 3 30 (bc_put 2 20 (bc_put 1 10 (bc_new 2))).

Lemma lru_refines_witness :
  lru_entries ex_lru = [(3, 30); (2, 20)]
  ∧ ∃ c', lru_Put 2 21 (lru_cache ex_lru) = Some c' ∧ lru_repr c' [(2, 21); (3, 30)].
Proof.
  split; [reflexivity|].
  destruct (lru_refines (lru_cache ex_lru) (lru_entries ex_lru) 2 21 2 (lru_ok ex_lru)) as (_ & Hput & _).
  exact Hput.
Defined.
