(* ===== verification/GoFloat.v ===== *)
(** Go's [float64]: conversions, the functions of [math] the packages use, and
[cmp.Compare].

Floats are Rocq's primitive binary64 numbers; what has no primitive
([math.FMA], [math.Round]) is computed exactly on the mantissas of [SpecFloat]. *)

From S2P Require Import Prelude.
From Stdlib Require Import Floats.PrimFloat Floats.FloatOps Floats.SpecFloat Floats.FloatAxioms Uint63.
Open Scope Z_scope.

(** * Conversions *)

(** [float64(d)] for an [int64]. *)
Definition float64_of (d : Z) : float :=
  if d =? min_int64 then (- 0x1p63)%float
  else if d <? 0 then PrimFloat.opp (PrimFloat.of_uint63 (Uint63.of_Z (- d)))
  else PrimFloat.of_uint63 (Uint63.of_Z d).

(** The nearest binary64 number of any integer: a JSON number without a
fraction. *)
Definition float_of_Z (z : Z) : float := SF2Prim (binary_normalize 53 1024 z 0 false).

(** Conversion to an integer, towards zero. *)
Definition trunc_float (f : float) : Z :=
  match Prim2SF f with
  | S754_finite s m e =>
    let n := if (0 <=? e)%Z then (Zpos m * 2 ^ e)%Z else (Zpos m / 2 ^ (- e))%Z in if s then (- n)%Z else n
  | _ => 0%Z
  end.

(** [time.Duration.Seconds]. *)
Definition Seconds (d : Z) : float := (float64_of (Z.quot d Second) + float64_of (Z.rem d Second) / 1e9)%float.

(** * [math] *)

Definition IsNaN (f : float) : bool := PrimFloat.is_nan f.
Definition IsInf (f : float) : bool := PrimFloat.is_infinity f.

(** [math.FMA]: [x * y + z] rounded once. *)
Definition SFfma (x y z : spec_float) : spec_float :=
  match x, y with
  | S754_finite sx mx ex, S754_finite sy my ey =>
    match z with
    | S754_finite sz mz ez =>
      let e := Z.min (ex + ey) ez in
      let p := (if xorb sx sy then -1 else 1) * Zpos mx * Zpos my * 2 ^ (ex + ey - e) in
      let c := (if sz then -1 else 1) * Zpos mz * 2 ^ (ez - e) in
      binary_normalize 53 1024 (p + c) e false
    | S754_zero _ => SFmul 53 1024 x y
    | _ => z
    end
  | _, _ => SFadd 53 1024 (SFmul 53 1024 x y) z
  end.
Definition FMA (x y z : float) : float := SF2Prim (SFfma (Prim2SF x) (Prim2SF y) (Prim2SF z)).

(** [math.Round]: to the nearest integer, halves away from zero. *)
Definition SFround (x : spec_float) : spec_float :=
  match x with
  | S754_finite s m e =>
    if 0 <=? e then x
    else
      let n := (2 * Zpos m + 2 ^ (- e)) / (2 * 2 ^ (- e)) in
      if n =? 0 then S754_zero s else binary_normalize 53 1024 (if s then - n else n) 0 s
  | _ => x
  end.
Definition Round (x : float) : float := SF2Prim (SFround (Prim2SF x)).

(** [int(math.Floor(x))]. *)
Definition floor_float (f : float) : Z :=
  match Prim2SF f with
  | S754_finite s m e =>
    let z := if s then Zneg m else Zpos m in if 0 <=? e then z * 2 ^ e else z / 2 ^ (- e)
  | _ => 0
  end.

(** [math.Mod(r, 2) != 0] for an integral [r]. *)
Definition odd_float (r : float) : bool := Z.odd (trunc_float r).

(** [math.Pow10] of a non-negative exponent, from the library's two tables. *)
Definition pow10tab : list float :=
  [1e0; 1e1; 1e2; 1e3; 1e4; 1e5; 1e6; 1e7; 1e8; 1e9; 1e10; 1e11; 1e12; 1e13; 1e14; 1e15;
   1e16; 1e17; 1e18; 1e19; 1e20; 1e21; 1e22;
   0x1.52d02c7e14af6p76; 0x1.a784379d99db4p79; 0x1.08b2a2c280291p83; 0x1.4adf4b7320335p86; 0x1.9d971e4fe8402p89;
   0x1.027e72f1f1281p93; 0x1.431e0fae6d721p96; 0x1.93e5939a08ceap99; 0x1.f8def8808b024p102]%float.

(** The powers 0, 32, 64, ..., 288. *)
Definition pow10postab32 : list float :=
  [1e0; 0x1.3b8b5b5056e17p106; 0x1.84f03e93ff9f5p212; 0x1.df67562d8b363p318; 0x1.27748f9301d32p425;
   0x1.6c2d4256ffcc3p531; 0x1.c0e1ef1a724ebp637; 0x1.14a52dffc6799p744; 0x1.54fdd7f73bf3cp850; 0x1.a44df832b8d46p956]%float.
Definition Pow10 (n : nat) : float :=
  if (308 <? n)%nat then PrimFloat.infinity
  else PrimFloat.mul (nth (n / 32) pow10postab32 PrimFloat.zero) (nth (n mod 32) pow10tab PrimFloat.zero).

(** * Comparison *)

(** [cmp.Compare] on floats: NaN is below everything and equal to itself. *)
Definition cmp_float (x y : float) : comparison :=
  if IsNaN x then (if IsNaN y then Eq else Lt)
  else if IsNaN y then Gt
  else if (x <? y)%float then Lt
  else if (y <? x)%float then Gt
  else Eq.

Example float_examples :
  float64_of (-3) = (-3)%float ∧ FMA 0x1.999999999999ap-4 10 (-1) = 0x1p-54%float ∧ map Round [2.5; -2.5; 0x1.fffffffffffffp-2; 0x1p70]%float = [3; -3; 0; 0x1p70]%float
  ∧ Pow10 22 = 1e22%float ∧ Pow10 300 = 0x1.7e43c8800759cp996%float ∧ floor_float (-0.5) = -1 ∧ Seconds (1500 * Millisecond) = 1.5%float
  ∧ float_of_Z 1700000000 = 1700000000%float ∧ float_of_Z (-7) = (-7)%float.
Proof. vm_compute. done. Qed.

(** [cmp.Compare] orders by a key: the class, then the exponent and the mantissa
with the sign. *)
Definition float_key (f : float) : Z * Z * Z :=
  match Prim2SF f with
  | S754_nan => (0, 0, 0)
  | S754_infinity true => (1, 0, 0)
  | S754_finite true m e => (2, - e, Zneg m)
  | S754_zero _ => (3, 0, 0)
  | S754_finite false m e => (4, e, Zpos m)
  | S754_infinity false => (5, 0, 0)
  end.

Definition lex_compare (p q : Z * Z * Z) : comparison :=
  match p.1.1 ?= q.1.1 with
  | Eq => match p.1.2 ?= q.1.2 with Eq => p.2 ?= q.2 | c => c end
  | c => c
  end.

Lemma IsNaN_key x : IsNaN x = ((float_key x).1.1 =? 0).
Proof.
  unfold IsNaN, PrimFloat.is_nan, float_key. rewrite FloatAxioms.eqb_spec. unfold SFeqb, SFcompare.
  destruct (Prim2SF x) as [[]|[]| |[] m e]; try done; rewrite Z.compare_refl; change (Pos.compare_cont Eq m m) with (m ?= m)%positive;
    by rewrite Pos.compare_refl.
Qed.

Lemma cmp_float_key x y : cmp_float x y = lex_compare (float_key x) (float_key y).
Proof.
  unfold cmp_float. rewrite !IsNaN_key, !FloatAxioms.ltb_spec. unfold float_key, SFltb, SFcompare, lex_compare.
  destruct (Prim2SF x) as [[]|[]| |[] m e], (Prim2SF y) as [[]|[]| |[] m' e']; try done; cbn [fst snd];
    change (Pos.compare_cont Eq m m') with (m ?= m')%positive; change (Pos.compare_cont Eq m' m) with (m' ?= m)%positive;
    rewrite ?Z.compare_refl; simpl (_ =? _).
  - rewrite Z.compare_opp, (Z.compare_antisym e e'). cbn [Z.compare].
    rewrite (Pos.compare_antisym m m'). destruct (Z.compare_spec e e'), (Pos.compare_spec m m'); done.
  - cbn [Z.compare]. rewrite (Z.compare_antisym e e'), (Pos.compare_antisym m m').
    destruct (Z.compare_spec e e'), (Pos.compare_spec m m'); done.
Qed.

Lemma cmp_float_antisym x y : cmp_float y x = CompOpp (cmp_float x y).
Proof.
  rewrite !cmp_float_key. unfold lex_compare. destruct (float_key x) as [[a b] c], (float_key y) as [[a' b'] c']. cbn [fst snd].
  rewrite (Z.compare_antisym a a'), (Z.compare_antisym b b'), (Z.compare_antisym c c').
  by destruct (a ?= a'), (b ?= b'), (c ?= c').
Qed.

(** Equal or below, transitively; and equal floats compare alike with a third. *)
Lemma cmp_float_trans x y z : cmp_float x y ≠ Gt → cmp_float y z ≠ Gt → cmp_float x z ≠ Gt.
Proof.
  rewrite !cmp_float_key. unfold lex_compare. destruct (float_key x) as [[a b] c], (float_key y) as [[a' b'] c'], (float_key z) as [[a'' b''] c''].
  cbn [fst snd]. destruct (Z.compare_spec a a'), (Z.compare_spec b b'), (Z.compare_spec c c'), (Z.compare_spec a' a''), (Z.compare_spec b' b''),
    (Z.compare_spec c' c''); try done; intros _ _;
    destruct (Z.compare_spec a a''); try lia; try done; destruct (Z.compare_spec b b''); try lia; try done;
    destruct (Z.compare_spec c c''); try lia; done.
Qed.

Lemma cmp_float_eq x y z : cmp_float x y = Eq → cmp_float x z = cmp_float y z.
Proof.
  rewrite !cmp_float_key. unfold lex_compare. destruct (float_key x) as [[a b] c], (float_key y) as [[a' b'] c']. cbn [fst snd].
  destruct (Z.compare_spec a a') as [->| |]; try done. destruct (Z.compare_spec b b') as [->| |]; try done.
  by intros ->%Z.compare_eq.
Qed.

(** * Whole numbers

Below 2^53 an integer is exactly a float, and [trunc_float] gives it back. *)

Lemma digits2_pos_spec m : 2 ^ (Zpos (digits2_pos m) - 1) ≤ Zpos m < 2 ^ Zpos (digits2_pos m).
Proof.
  induction m as [m IH|m IH|]; cbn [digits2_pos]; [| |done];
    rewrite Pos2Z.inj_succ; replace (Z.succ (Zpos (digits2_pos m)) - 1) with (Zpos (digits2_pos m) - 1 + 1) by lia;
    rewrite !Z.pow_add_r, Z.pow_succ_r by lia; lia.
Qed.

Lemma digits2_pos_unique m d : 0 < d → 2 ^ (d - 1) ≤ Zpos m < 2 ^ d → Zpos (digits2_pos m) = d.
Proof.
  intros Hd Hm. pose proof (digits2_pos_spec m) as Hs.
  destruct (Z.lt_trichotomy (Zpos (digits2_pos m)) d) as [Hlt|[?|Hgt]]; [|done|].
  - assert (2 ^ Zpos (digits2_pos m) ≤ 2 ^ (d - 1)) by (apply Z.pow_le_mono_r; lia). lia.
  - assert (2 ^ d ≤ 2 ^ (Zpos (digits2_pos m) - 1)) by (apply Z.pow_le_mono_r; lia). lia.
Qed.

Lemma iter_xO n m : Zpos (Pos.iter xO m n) = Zpos m * 2 ^ Zpos n.
Proof. change (Pos.iter xO m n) with (shift_pos n m). rewrite shift_pos_correct, Z.pow_pos_fold. lia. Qed.

Lemma shr_none prec emax m e : 0 < m → fexp prec emax (Zdigits2 m + e) = e → shr_fexp prec emax m e loc_Exact = ({| shr_m := m; shr_r := false; shr_s := false |}, e).
Proof. intros Hm He. unfold shr_fexp. rewrite He, Z.sub_diag. done. Qed.

Lemma binary_round_exact sx m e : Zpos m < 2 ^ 53 → 2 ^ 52 ≤ Zpos m → -1074 ≤ e ≤ 971 → binary_round_aux 53 1024 sx (Zpos m) e loc_Exact = S754_finite sx m e.
Proof.
  intros H1 H2 He. assert (fexp 53 1024 (Zdigits2 (Zpos m) + e) = e) as Hf.
  { cbn [Zdigits2]. rewrite (digits2_pos_unique m 53) by lia. unfold fexp, emin. lia. }
  unfold binary_round_aux. rewrite shr_none by (done || lia). cbn [shr_m loc_of_shr_record round_nearest_even].
  rewrite shr_none by (done || lia). cbn [shr_m]. by rewrite (proj2 (Z.leb_le e (1024 - 53))) by lia.
Qed.

Lemma binary_normalize_exact m : Zpos m < 2 ^ 53 →
  ∃ m' e, binary_normalize 53 1024 (Zpos m) 0 false = S754_finite false m' e ∧ -52 ≤ e ≤ 0 ∧ Zpos m' = Zpos m * 2 ^ (- e).
Proof.
  intros Hm. pose proof (digits2_pos_spec m) as Hd. cbn [binary_normalize]. unfold binary_round, shl_align.
  assert (Zpos (digits2_pos m) ≤ 53) as Hle.
  { destruct (Z.le_gt_cases (Zpos (digits2_pos m)) 53); [done|]. assert (2 ^ 53 ≤ 2 ^ (Zpos (digits2_pos m) - 1)) by (apply Z.pow_le_mono_r; lia). lia. }
  assert (fexp 53 1024 (Zpos (digits2_pos m) + 0) - 0 = Zpos (digits2_pos m) - 53) as He by (unfold fexp, emin; lia).
  rewrite He. assert (fexp 53 1024 (Zpos (digits2_pos m) + 0) = Zpos (digits2_pos m) - 53) as He' by (unfold fexp, emin; lia). rewrite He'.
  destruct (Zpos (digits2_pos m) - 53) as [|d|d] eqn:Hx; [|lia|].
  - rewrite binary_round_exact; [exists m, 0; split_and!; [done|lia..]|done|replace 52 with (Zpos (digits2_pos m) - 1) by lia; lia|lia].
  - rewrite binary_round_exact.
    + eexists _, (Zneg d). split; [done|]. split; [lia|]. by rewrite iter_xO.
    + rewrite iter_xO. replace 53 with (Zpos (digits2_pos m) + Zpos d) by lia. rewrite Z.pow_add_r by lia. nia.
    + rewrite iter_xO. replace 52 with (Zpos (digits2_pos m) - 1 + Zpos d) by lia. rewrite Z.pow_add_r by lia. nia.
    + lia.
Qed.

Lemma float64_exact z : 0 ≤ z < 2 ^ 53 →
  (z = 0 ∧ Prim2SF (float64_of z) = S754_zero false)
  ∨ ∃ m e, Prim2SF (float64_of z) = S754_finite false m e ∧ -52 ≤ e ≤ 0 ∧ Zpos m = z * 2 ^ (- e).
Proof.
  intros Hz. unfold float64_of. rewrite (proj2 (Z.eqb_neq z min_int64)), (proj2 (Z.ltb_ge z 0)) by (unfold min_int64; lia).
  rewrite of_uint63_spec, Uint63.of_Z_spec, Z.mod_small by (split; [lia|]; eapply Z.lt_trans; [apply Hz|reflexivity]).
  destruct z as [|m|]; [left; done|right|lia]. apply binary_normalize_exact. lia.
Qed.

(** [Seconds] of a whole number of seconds. *)
Lemma Seconds_whole k : 0 ≤ k < 2 ^ 53 → trunc_float (Seconds (k * Second)) = k.
Proof.
  intros Hk. unfold Seconds. rewrite Z.quot_mul, Z.rem_mul by done. unfold trunc_float. rewrite FloatAxioms.add_spec.
  change (Prim2SF (float64_of 0 / 1e9)) with (S754_zero false).
  destruct (float64_exact k Hk) as [[-> ->]|(m & e & -> & He & Hm)]; [done|]. unfold SF64add, SFadd.
  destruct (Z.leb_spec 0 e) as [H0|H0]; [assert (e = 0) as -> by lia; rewrite Hm; simpl; lia|].
  rewrite Hm. apply Z.div_mul. lia.
Qed.
