(* ===== verification/Limiter.v ===== *)
(** The failure limiter of [src/internal/authn/ratelimit.go]: a token bucket
over authentication failures per source, with an exponentially growing penalty.
The buckets live in the cache of [Lru]; a bucket is mutated in place under the
limiter's lock right after the cache returned it, so an update is a [Put] of
the entry that is already in front.  The budget is a [float64], modelled by
Rocq's primitive floats. *)

From S2P Require Import Prelude GoFloat Lru.
From Stdlib Require Import Floats Uint63.
Open Scope Z_scope.

Definition failureBurst : float := 10%float.
Definition failureWindow : Z := Minute.
Definition firstPenalty : Z := Second.
Definition maxPenalty : Z := (5 * Minute)%Z.
Definition limiterEntries : Z := 8192.

Record failureBucket := {
  tokens : float;
  b_last : Z;
  penalty : Z;
  penaltyUntil : Z
}.

(** The built-in [min] on floats. *)
Definition fmin (a b : float) : float :=
  if is_nan a then a else if is_nan b then b else if (b <? a)%float then b else a.

Definition refill (now : Z) (b : failureBucket) : failureBucket :=
  let elapsed := Sub now (b_last b) in
  if elapsed <=? 0 then b
  else {| tokens := fmin (tokens b + float64_of elapsed / float64_of failureWindow * failureBurst) failureBurst;
          b_last := now; penalty := penalty b; penaltyUntil := penaltyUntil b |}.

Definition new_bucket (now : Z) : failureBucket :=
  {| tokens := failureBurst; b_last := now; penalty := 0; penaltyUntil := 0 |}.

(** [Fail] on a bucket. *)
Definition bucket_fail (now : Z) (b : failureBucket) : failureBucket :=
  let b := refill now b in
  if (1 <=? tokens b)%float
  then {| tokens := tokens b - 1; b_last := b_last b; penalty := penalty b; penaltyUntil := penaltyUntil b |}
  else
    let p := if penalty b =? 0 then firstPenalty
             else if After now (penaltyUntil b) then Z.min (wrap_int64 (penalty b * 2)) maxPenalty
             else penalty b in
    let until := Add now p in
    {| tokens := tokens b; b_last := b_last b; penalty := p;
       penaltyUntil := if After until (penaltyUntil b) then until else penaltyUntil b |}.

Definition bucket_succeed (now : Z) : failureBucket :=
  {| tokens := failureBurst; b_last := now; penalty := 0; penaltyUntil := 0 |}.

Section limiter.
Context {C : Type} `{!BoundedCache string failureBucket C}.

Definition newFailureLimiter : C := bc_new limiterEntries.

Definition Allow (src : string) (now : Z) (l : C) : bool * C :=
  if String.eqb src "" then (true, l)
  else match bc_get src l with
  | (None, l) => (true, l)
  | (Some b, l) => let b := refill now b in (negb (Before now (penaltyUntil b)), bc_put src b l)
  end.

Definition Fail (src : string) (now : Z) (l : C) : C :=
  if String.eqb src "" then l
  else
    let '(o, l) := bc_get src l in
    let '(b, l) := match o with
                   | Some b => (b, l)
                   | None => (new_bucket now, bc_put src (new_bucket now) l)
                   end in
    bc_put src (bucket_fail now b) l.

Definition Succeed (src : string) (now : Z) (l : C) : C :=
  if String.eqb src "" then l
  else match bc_get src l with
  | (Some _, l) => bc_put src (bucket_succeed now) l
  | (None, l) => l
  end.

(** A history of calls on the limiter, each at its time. *)
Inductive LimiterCall := CAllow (src : string) | CFail (src : string) | CSucceed (src : string).

Definition run_call (e : LimiterCall * Z) (l : C) : C :=
  match e.1 with
  | CAllow src => (Allow src e.2 l).2
  | CFail src => Fail src e.2 l
  | CSucceed src => Succeed src e.2 l
  end.

Definition run_calls (h : list (LimiterCall * Z)) (l : C) : C := foldl (λ l e, run_call e l) l h.

(** * Recovery in bounded time *)

(** A bucket whose penalty ends at most [maxPenalty] after [t]. *)
Record bucket_ok (t : Z) (b : failureBucket) : Prop := {
  bo_penalty : penalty b = 0 ∨ firstPenalty ≤ penalty b ≤ maxPenalty;
  bo_until : penaltyUntil b ≤ t + maxPenalty
}.

Lemma refill_ok t now b : bucket_ok t b → bucket_ok t (refill now b).
Proof. intros [Hp Hu]. unfold refill. destruct (_ <=? 0); by split. Qed.

Lemma bucket_fail_ok t now b : now ≤ t → bucket_ok t b → bucket_ok t (bucket_fail now b).
Proof.
  intros Hn Hb. unfold bucket_fail. pose proof (refill_ok t now b Hb) as [Hp Hu]. revert Hp Hu.
  generalize (refill now b) as b'. clear b Hb. intros b Hp Hu.
  destruct (1 <=? tokens b)%float; [by split|].
  set (p := if penalty b =? 0 then _ else _).
  assert (firstPenalty ≤ p ≤ maxPenalty) as Hpp.
  { unfold p. destruct (Z.eqb_spec (penalty b) 0) as [|Hne]; [done|]. destruct Hp as [|Hp]; [done|].
    assert (wrap_int64 (penalty b * 2) = penalty b * 2) as ->.
    { apply wrap_int64_id. unfold int64_range, min_int64, max_int64. revert Hp. unfold firstPenalty, maxPenalty, Minute, Second. lia. }
    destruct (After now (penaltyUntil b)); [|done].
    assert (firstPenalty ≤ maxPenalty) by done. assert (0 < firstPenalty) by done. lia. }
  clearbody p. split; simpl; [by right|]. unfold Add. destruct (After (now + p) (penaltyUntil b)); lia.
Qed.

Lemma new_bucket_ok t now : 0 ≤ t → bucket_ok t (new_bucket now).
Proof. intros Ht. assert (0 < maxPenalty) by done. split; simpl; [by left|lia]. Qed.

Lemma bucket_succeed_ok t now : 0 ≤ t → bucket_ok t (bucket_succeed now).
Proof. apply new_bucket_ok. Qed.

Definition limiter_ok (t : Z) (l : C) : Prop := ∀ src b, bc_holds l src b → bucket_ok t b.

Lemma limiter_ok_get t l src : limiter_ok t l → limiter_ok t (bc_get src l).2.
Proof. intros Hl src' b Hb. eapply Hl, bc_get_keeps, Hb. Qed.

Lemma limiter_ok_put t l src b : limiter_ok t l → bucket_ok t b → limiter_ok t (bc_put src b l).
Proof. intros Hl Hb src' b' [[-> ->]|[_ Hh]]%bc_put_holds; [done|by eapply Hl]. Qed.

Lemma limiter_found t l src b : limiter_ok t l → (bc_get src l).1 = Some b → bucket_ok t b.
Proof. intros Hl Hg. by eapply Hl, bc_get_holds. Qed.

Lemma run_call_ok t e l : 0 ≤ t → e.2 ≤ t → limiter_ok t l → limiter_ok t (run_call e l).
Proof.
  destruct e as [[src|src|src] now]; unfold run_call; cbn [fst snd]; intros Ht Hn Hl.
  - unfold Allow. destruct (String.eqb src ""); [done|].
    pose proof (limiter_ok_get t l src Hl) as Hg. pose proof (limiter_found t l src) as Hf.
    destruct (bc_get src l) as [[b|] l']; simpl in *; [|done]. auto using limiter_ok_put, refill_ok.
  - unfold Fail. destruct (String.eqb src ""); [done|].
    pose proof (limiter_ok_get t l src Hl) as Hg. pose proof (limiter_found t l src) as Hf.
    destruct (bc_get src l) as [[b|] l']; simpl in *; auto using limiter_ok_put, bucket_fail_ok, new_bucket_ok.
  - unfold Succeed. destruct (String.eqb src ""); [done|].
    pose proof (limiter_ok_get t l src Hl) as Hg.
    destruct (bc_get src l) as [[b|] l']; simpl in *; auto using limiter_ok_put, bucket_succeed_ok.
Qed.

Lemma run_calls_ok t h l :
  0 ≤ t → Forall (λ e, e.2 ≤ t) h → limiter_ok t l → limiter_ok t (run_calls h l).
Proof.
  intros Ht. revert l. induction h as [|e h IH]; intros l Hh Hl; [done|]. apply Forall_cons in Hh as [He Hh].
  simpl. apply IH; [done|]. by apply run_call_ok.
Qed.

Lemma refill_until now b : penaltyUntil (refill now b) = penaltyUntil b.
Proof. unfold refill. by destruct (_ <=? 0). Qed.

(** The limiter cannot lock a source out for good.  After any history of
attempts, failures and successes of any sources up to time [t], every source is
allowed again from [t + maxPenalty] on; a source that succeeds is allowed at
once, and an unattributable one always. *)
Theorem limiter_recovers (h : list (LimiterCall * Z)) (t now : Z) (src : string) :
  0 ≤ t → Forall (λ e, e.2 ≤ t) h → t + maxPenalty ≤ now →
  (Allow src now (run_calls h newFailureLimiter)).1 = true
  ∧ (Allow src t (Succeed src t (run_calls h newFailureLimiter))).1 = true
  ∧ (∀ l, (Allow "" now l).1 = true).
Proof.
  intros Ht Hh Hnow. split_and!; [| |done].
  - assert (limiter_ok t (run_calls h newFailureLimiter)) as Hl.
    { apply run_calls_ok; [done..|]. intros s b Hb. by apply bc_new_holds in Hb. }
    unfold Allow. destruct (String.eqb src ""); [done|]. pose proof (limiter_found t (run_calls h newFailureLimiter) src) as Hf.
    destruct (bc_get src _) as [[b|] l']; simpl in *; [|done]. rewrite refill_until. apply negb_true_iff, Z.ltb_ge.
    destruct (Hf b Hl eq_refl) as [_ Hu]. lia.
  - unfold Succeed, Allow. destruct (String.eqb src ""); [done|].
    destruct (bc_get src (run_calls h newFailureLimiter)) as [[b|] l'] eqn:Hg.
    + pose proof (bc_get_holds src (bc_put src (bucket_succeed t) l')) as Hh2.
      destruct (bc_get src (bc_put src (bucket_succeed t) l')) as [[b'|] l2]; simpl in *; [|done].
      specialize (Hh2 b' eq_refl). apply bc_put_holds in Hh2 as [[_ ->]|[? _]]; [|done].
      rewrite refill_until. by apply negb_true_iff, Z.ltb_ge.
    + pose proof (bc_get_miss src (run_calls h newFailureLimiter)) as Hmiss. rewrite Hg in Hmiss. simpl in Hmiss.
      pose proof (bc_get_keeps src (run_calls h newFailureLimiter)) as Hkeep. rewrite Hg in Hkeep. simpl in Hkeep.
      pose proof (bc_get_holds src l') as Hh2. destruct (bc_get src l') as [[b'|] l2]; simpl in *; [|done].
      by destruct (Hmiss b' eq_refl (Hkeep _ _ (Hh2 _ eq_refl))).
Qed.

End limiter.

(** * The budget *)

(** [n] failures at one instant. *)
Definition fail_times (n : nat) (now : Z) : failureBucket := Nat.iter n (bucket_fail now) (new_bucket now).

Lemma refill_same now b : b_last b = now → refill now b = b.
Proof. intros <-. unfold refill, Sub. rewrite Z.sub_diag. done. Qed.

(** The budget left after [n] failures. *)
Definition budget (n : nat) : float := Nat.iter n (λ t, t - 1)%float failureBurst.

Definition bucket_at (now : Z) (t : float) : failureBucket :=
  {| tokens := t; b_last := now; penalty := 0; penaltyUntil := 0 |}.

Lemma budget_left n : (n < 10)%nat → (1 <=? budget n)%float = true.
Proof.
  intros Hn. assert (forallb (λ n, (1 <=? budget n)%float) (seq 0 10) = true) as Hall by (vm_compute; reflexivity).
  rewrite forallb_forall in Hall. apply Hall, in_seq. lia.
Qed.

Lemma fail_times_budget now n : (n ≤ 10)%nat → fail_times n now = bucket_at now (budget n).
Proof.
  induction n as [|n IH]; intros Hn; [done|]. unfold fail_times in *. cbn [Nat.iter nat_rect].
  change (bucket_fail now (Nat.iter n (bucket_fail now) (new_bucket now)) = bucket_at now (budget (S n))).
  rewrite IH by lia. unfold bucket_fail. rewrite refill_same by done. cbn [tokens bucket_at].
  rewrite budget_left by lia. done.
Qed.

Lemma fail_times_S n now : fail_times (S n) now = bucket_fail now (fail_times n now).
Proof. done. Qed.

(** The budget of failures.  A source with no record may fail ten times in
the same instant without being refused; the eleventh failure starts the first
penalty, which refuses every attempt for exactly one second. *)
Theorem failure_budget (n : nat) (now now' : Z) :
  (n ≤ 10)%nat → 0 ≤ now →
  negb (Before now (penaltyUntil (fail_times n now))) = true
  ∧ negb (Before now' (penaltyUntil (refill now' (fail_times 11 now)))) = (now + firstPenalty <=? now').
Proof.
  intros Hn Hnow. split.
  - rewrite fail_times_budget by done. simpl. by apply negb_true_iff, Z.ltb_ge.
  - rewrite refill_until, fail_times_S, fail_times_budget by lia. unfold bucket_fail.
    rewrite refill_same by done. cbn [tokens bucket_at]. replace (1 <=? budget 10)%float with false by (vm_compute; reflexivity).
    cbn [penalty penaltyUntil bucket_at]. unfold After, Before, Add. cbn [Z.eqb].
    assert (0 < firstPenalty) by done. rewrite (proj2 (Z.ltb_lt 0 (now + firstPenalty))) by lia.
    destruct (Z.ltb_spec now' (now + firstPenalty)), (Z.leb_spec (now + firstPenalty) now'); simpl; lia || done.
Qed.

(** * Concrete instances *)

Lemma limiter_recovers_witness :
  (Allow "10.0.0.1" (400 * Second) (run_calls (C := LRU string failureBucket)
     (repeat (CFail "10.0.0.1", 60 * Second) 12) newFailureLimiter)).1 = true.
Proof.
  refine (proj1 (limiter_recovers (C := LRU string failureBucket)
    (repeat (CFail "10.0.0.1", 60 * Second) 12) (60 * Second) (400 * Second) "10.0.0.1" _ _ _)).
  - vm_compute. discriminate.
  - repeat constructor; vm_compute; discriminate.
  - vm_compute. discriminate.
Defined.

Lemma failure_budget_witness : negb (Before 7 (penaltyUntil (fail_times 10 7))) = true.
Proof.
  refine (proj1 (failure_budget 10 7 8 _ _)); lia.
Defined.
