(* ===== verification/Authn.v ===== *)
(** The verifier of [src/internal/authn/verifier.go].

[verify] and its parts are given as functions of the verifier's state and of
what the store answered.  Requests run concurrently and take the caches' locks
one at a time, so a request in progress is also a small state machine, and the
system interleaves requests with mutations of the document.  SHA-256 of the
token text and HMAC-SHA256 are arguments; the caches are those of [Lru] through
their contract. *)

From S2P Require Import Prelude Fleet State Token Lru Limiter.
Open Scope string_scope.

Inductive AuthError := ErrUnauthenticated | ErrWrongClass | ErrExpired | ErrRevoked | ErrRateLimited.

Inductive Reason :=
| ReasonMalformed | ReasonMissing | ReasonUnknownKey | ReasonBadSecret | ReasonWrongClass
| ReasonExpired | ReasonRevoked | ReasonRateLimited | ReasonStoreError.

Record cacheEntry := {
  ce_principal : Principal;
  ce_keyExpiry : Z;
  ce_cachedAt : Z;
  ce_epoch : Z
}.

Record negEntry := {
  ne_err : AuthError;
  ne_reason : Reason;
  ne_cachedAt : Z
}.

(** What [GetKey] of the store answers. *)
Inductive KeyAnswer := KeyFound (k : Key) | KeyMissing | KeyUnreadable.

Definition key_answer (kid : string) (s : State) : KeyAnswer :=
  match GetKey kid s with Ok k => KeyFound k | Err _ => KeyMissing end.

Definition principalFor (k : Key) : Principal :=
  {| p_KID := KID k; p_Name := Name k; p_Class := Class k;
     p_Role := if String.eqb (Class k) ClassAdmin then RoleAdmin
               else match Key_Scope k with Some s => Scope_Role s | None => "" end;
     p_Scope := Key_Scope k; p_Epoch := 0 |}.

Definition with_epoch (e : Z) (p : Principal) : Principal :=
  {| p_KID := p_KID p; p_Name := p_Name p; p_Class := p_Class p; p_Role := p_Role p;
     p_Scope := p_Scope p; p_Epoch := e |}.

Definition limiterKey (ip kid : string) : string :=
  if String.eqb ip "" then "" else ip +:+ String "000" kid.

Section verifier.
Context (hmac_sha256 : list Byte.byte → list Byte.byte → list Byte.byte) (hasher : option Hasher).
Context {Sum : Type} (sum256 : string → Sum).
Context {CP CN CL : Type} `{!BoundedCache Sum cacheEntry CP} `{!BoundedCache Sum negEntry CN}
  `{!BoundedCache string failureBucket CL}.

Record Verifier := {
  v_cacheTTL : Z;
  v_negativeTTL : Z;
  v_pos : CP;
  v_neg : CN;
  v_limiter : CL;
  v_epoch : Z;
  v_epochOK : bool
}.

Definition set_pos (c : CP) (v : Verifier) : Verifier :=
  {| v_cacheTTL := v_cacheTTL v; v_negativeTTL := v_negativeTTL v; v_pos := c; v_neg := v_neg v;
     v_limiter := v_limiter v; v_epoch := v_epoch v; v_epochOK := v_epochOK v |}.
Definition set_neg (c : CN) (v : Verifier) : Verifier :=
  {| v_cacheTTL := v_cacheTTL v; v_negativeTTL := v_negativeTTL v; v_pos := v_pos v; v_neg := c;
     v_limiter := v_limiter v; v_epoch := v_epoch v; v_epochOK := v_epochOK v |}.
Definition set_limiter (c : CL) (v : Verifier) : Verifier :=
  {| v_cacheTTL := v_cacheTTL v; v_negativeTTL := v_negativeTTL v; v_pos := v_pos v; v_neg := v_neg v;
     v_limiter := c; v_epoch := v_epoch v; v_epochOK := v_epochOK v |}.
Definition set_epoch (e : Z) (v : Verifier) : Verifier :=
  {| v_cacheTTL := v_cacheTTL v; v_negativeTTL := v_negativeTTL v; v_pos := v_pos v; v_neg := v_neg v;
     v_limiter := v_limiter v; v_epoch := e; v_epochOK := true |}.

Definition DefaultCacheSize : Z := 10000.
Definition DefaultCacheTTL : Z := (60 * Second)%Z.
Definition DefaultNegativeTTL : Z := (5 * Second)%Z.

(** [New], with the store and the hasher it requires. *)
Definition Verifier_New (has_store has_hasher : bool) (cacheSize cacheTTL negativeTTL : Z) : option Verifier :=
  if negb has_store || negb has_hasher then None
  else
    let size := if (cacheSize <=? 0)%Z then DefaultCacheSize else cacheSize in
    Some {| v_cacheTTL := if (cacheTTL <=? 0)%Z then DefaultCacheTTL else cacheTTL;
            v_negativeTTL := if (negativeTTL <=? 0)%Z then DefaultNegativeTTL else negativeTTL;
            v_pos := bc_new size; v_neg := bc_new size; v_limiter := newFailureLimiter;
            v_epoch := 0; v_epochOK := false |}.

(** ** The parts of [verify] *)

Definition epoch_changed (e : Z) (v : Verifier) : bool := negb (v_epochOK v) || negb (v_epoch v =? e)%Z.

(** [syncEpoch] on the store's answer. *)
Definition syncEpoch (answer : option Z) (v : Verifier) : option Z * Verifier :=
  match answer with
  | None => (None, v)
  | Some e =>
    let changed := epoch_changed e v in
    let v := set_epoch e v in
    (Some e, if changed then set_neg (bc_purge (v_neg v)) (set_pos (bc_purge (v_pos v)) v) else v)
  end.

(** What the positive cache decides: nothing, or an answer; the flag says the
entry is dropped. *)
Definition pos_verdict (epoch now cacheTTL : Z) (e : cacheEntry) : bool * option (result AuthError (Principal * Z)) :=
  if negb (ce_epoch e =? epoch)%Z || (cacheTTL <=? Sub now (ce_cachedAt e))%Z then (true, None)
  else if negb (IsZero (ce_keyExpiry e)) && After now (ce_keyExpiry e) then (true, Some (Err ErrExpired))
  else (false, Some (Ok (ce_principal e, ce_keyExpiry e))).

Definition fromPos (sum : Sum) (epoch now : Z) (v : Verifier)
  : option (result AuthError (Principal * Z)) * Verifier :=
  match bc_get sum (v_pos v) with
  | (None, c) => (None, set_pos c v)
  | (Some e, c) =>
    let '(drop, answer) := pos_verdict epoch now (v_cacheTTL v) e in
    (answer, set_pos (if drop then bc_remove sum c else c) v)
  end.

Definition fromNeg (sum : Sum) (now : Z) (v : Verifier)
  : option (result AuthError (Principal * Z)) * Verifier :=
  match bc_get sum (v_neg v) with
  | (None, c) => (None, set_neg c v)
  | (Some e, c) =>
    if (Sub now (ne_cachedAt e) <? v_negativeTTL v)%Z then (Some (Err (ne_err e)), set_neg c v)
    else (None, set_neg (bc_remove sum c) v)
  end.

Definition fromCache (sum : Sum) (epoch now : Z) (v : Verifier)
  : option (result AuthError (Principal * Z)) * Verifier :=
  match fromPos sum epoch now v with
  | (Some r, v) => (Some r, v)
  | (None, v) => fromNeg sum now v
  end.

(** [verifyAgainstStore] on the store's answer. *)
Definition verifyAgainstStore (answer : KeyAnswer) (secret : list Byte.byte) (want : KeyClass) (now : Z)
  : result (Reason * AuthError) (Principal * Z) :=
  match answer with
  | KeyMissing => Err (ReasonUnknownKey, ErrUnauthenticated)
  | KeyUnreadable => Err (ReasonStoreError, ErrUnauthenticated)
  | KeyFound key =>
    if negb (Hasher_Equal hmac_sha256 hasher (SecretHMAC key) secret) then Err (ReasonBadSecret, ErrUnauthenticated)
    else if negb (String.eqb (Class key) want) then Err (ReasonWrongClass, ErrWrongClass)
    else if Revoked key then Err (ReasonRevoked, ErrRevoked)
    else if Expired key now then Err (ReasonExpired, ErrExpired)
    else Ok (principalFor key, ExpiresAt key)
  end.

Definition auth_fail (src : string) (now : Z) (sum : Sum) (reason : Reason) (err : AuthError) (v : Verifier) : Verifier :=
  set_limiter (Fail src now (v_limiter v))
    (set_neg (bc_put sum {| ne_err := err; ne_reason := reason; ne_cachedAt := now |} (v_neg v)) v).

Definition auth_succeed (src : string) (now : Z) (sum : Sum) (epoch : Z) (p : Principal) (exp : Z) (v : Verifier) : Verifier :=
  let v := set_pos (bc_put sum {| ce_principal := p; ce_keyExpiry := exp; ce_cachedAt := now; ce_epoch := epoch |} (v_pos v)) v in
  let v := set_neg (bc_remove sum (v_neg v)) v in
  set_limiter (Succeed src now (v_limiter v)) v.

(** [verify] run alone: the epoch and the key are what the store answered. *)
Definition verify (raw : string) (want : KeyClass) (ip : string) (now : Z) (epoch_answer : option Z)
    (get : string → KeyAnswer) (v : Verifier) : result AuthError (Principal * Z) * Verifier :=
  match Parse raw with
  | Err _ => (Err ErrUnauthenticated, v)
  | Ok tok =>
    if negb (String.eqb (tok_class tok) want) then (Err ErrWrongClass, v)
    else
      let sum := sum256 raw in
      let '(epoch, v) := syncEpoch epoch_answer v in
      let '(decided, v) := match epoch with Some e => fromCache sum e now v | None => (None, v) end in
      match decided with
      | Some r => (r, v)
      | None =>
        let src := limiterKey ip (tok_kid tok) in
        let '(allowed, l) := Allow src now (v_limiter v) in
        let v := set_limiter l v in
        if negb allowed then (Err ErrRateLimited, v)
        else match epoch with
        | None => (Err ErrUnauthenticated, set_limiter (Fail src now (v_limiter v)) v)
        | Some e =>
          match verifyAgainstStore (get (tok_kid tok)) (tok_secret tok) want now with
          | Err (reason, err) => (Err err, auth_fail src now sum reason err v)
          | Ok (p, exp) => let p := with_epoch e p in (Ok (p, exp), auth_succeed src now sum e p exp v)
          end
        end
      end
  end.

(** The reference: what document [d] says of the token at [now]. *)
Definition authenticate (d : State) (raw : string) (want : KeyClass) (now : Z) : result AuthError (Principal * Z) :=
  match Parse raw with
  | Err _ => Err ErrUnauthenticated
  | Ok tok =>
    if negb (String.eqb (tok_class tok) want) then Err ErrWrongClass
    else match verifyAgainstStore (key_answer (tok_kid tok) d) (tok_secret tok) want now with
    | Err (_, e) => Err e
    | Ok r => Ok r
    end
  end.

(** * Histories of documents *)

Open Scope list_scope.
Open Scope nat_scope.

(** What authentication reads of a key. *)
Definition auth_part (k : Key) : list Byte.byte * KeyClass * option Z * Z * Principal :=
  (SecretHMAC k, Class k, RevokedAt k, ExpiresAt k, principalFor k).

(** The documents the store served, with the time each was installed. *)
Definition hist_step (e e' : State * Z) : Prop :=
  (e.2 ≤ e'.2)%Z ∧ (0 ≤ Epoch e.1)%Z ∧ (Epoch e.1 + 1 < 2 ^ 64)%Z
  ∧ ∃ m r, run_mutation m e'.2 e.1 = (e'.1, r).

Definition hist_ok (h : list (State * Z)) : Prop :=
  ∀ i e e', h !! i = Some e → h !! S i = Some e' → hist_step e e'.

(** The key is unchanged for authentication, or gone because it expired. *)
Definition key_stable (kid : string) (e e' : State * Z) : Prop :=
  ∀ k, GetKey kid e.1 = Ok k →
    (∃ k', GetKey kid e'.1 = Ok k' ∧ auth_part k' = auth_part k) ∨ (ExpiresAt k ≠ 0 ∧ ExpiresAt k < e'.2)%Z.

Lemma hist_step_epoch e e' : hist_step e e' → (Epoch e.1 ≤ Epoch e'.1)%Z.
Proof.
  intros (_ & H0 & Hb & m & r & Hrun). apply epoch_step in Hrun. destruct r as [[]|]; [|by rewrite Hrun..].
  destruct (bumps m); [|lia]. rewrite Hrun, wrap_uint64_id; lia.
Qed.

Lemma GetKey_Ok kid s k : GetKey kid s = Ok k ↔ ∃ r, Keys s !! kid = Some r ∧ k = rec_value r.
Proof. unfold GetKey. destruct (Keys s !! kid) as [r|]; naive_solver. Qed.

Lemma auth_part_touch t k : auth_part (set_LastUsed t k) = auth_part k.
Proof. done. Qed.

Lemma hist_step_stable kid e e' : hist_step e e' → Epoch e.1 = Epoch e'.1 → key_stable kid e e'.
Proof.
  intros (Ht & H0 & Hb & m & r & Hrun) Heq k Hk. pose proof (epoch_step _ _ _ _ _ Hrun) as He.
  destruct r as [[]|]; [|left; rewrite He; eauto..].
  destruct (bumps m) eqn:Hm; [rewrite wrap_uint64_id in He by lia; lia|].
  apply GetKey_Ok in Hk as (rec & Hrec & ->). destruct m; try done; cbn [run_mutation] in Hrun.
  - apply TouchKey_Ok in Hrun as (r & Hr & _ & ->). left. destruct (decide (kid0 = kid)) as [->|Hne].
    + exists (rec_value (set_rec_Key (set_LastUsed (when_ at_ e'.2)) r)). simplify_eq. split.
      * apply GetKey_Ok. eexists. simpl. by rewrite lookup_insert_eq.
      * by rewrite !rec_value_eq.
    + exists (rec_value rec). split; [|done]. apply GetKey_Ok. exists rec. simpl. by rewrite lookup_insert_ne.
  - destruct (Prune e'.2 retain e.1) as [s1 [res|]] eqn:Hp; simplify_eq/=. pose proof (Prune_retain _ _ _ _ _ Hp).
    pose proof (Prune_lookup _ _ _ _ _ _ _ Hp Hrec) as Hl. destruct (keep_key _ _ _ _ _) eqn:Hkeep.
    + left. exists (rec_value rec). split; [|done]. apply GetKey_Ok. eauto.
    + right. apply keep_key_false in Hkeep. rewrite ?rec_value_eq. simpl. lia.
Qed.

Lemma hist_mono h i j e e' :
  hist_ok h → i ≤ j → h !! i = Some e → h !! j = Some e' → (Epoch e.1 ≤ Epoch e'.1)%Z ∧ (e.2 ≤ e'.2)%Z.
Proof.
  intros Hok Hij. revert e'. induction Hij as [|j Hij IH]; intros e' Hi Hj; [by simplify_eq|].
  destruct (lookup_lt_is_Some_2 h j) as [e1 Hj1]; [apply lookup_lt_Some in Hj; lia|].
  destruct (IH e1 Hi Hj1). pose proof (Hok _ _ _ Hj1 Hj) as Hs. pose proof (hist_step_epoch _ _ Hs). destruct Hs. lia.
Qed.

Lemma hist_stable h kid i j e e' :
  hist_ok h → i ≤ j → h !! i = Some e → h !! j = Some e' → Epoch e.1 = Epoch e'.1 → key_stable kid e e'.
Proof.
  intros Hok Hij. revert e'. induction Hij as [|j Hij IH]; intros e' Hi Hj Heq.
  { simplify_eq. intros k Hk. left. eauto. }
  destruct (lookup_lt_is_Some_2 h j) as [e1 Hj1]; [apply lookup_lt_Some in Hj; lia|].
  destruct (hist_mono h i j e e1 Hok Hij Hi Hj1) as [Hm1 _]. pose proof (Hok _ _ _ Hj1 Hj) as Hs.
  pose proof (hist_step_epoch _ _ Hs). assert (Epoch e.1 = Epoch e1.1) as He1 by lia.
  assert (Epoch e1.1 = Epoch e'.1) as He2 by lia. pose proof (proj1 Hs) as Ht.
  intros k Hk. destruct (IH e1 Hi Hj1 He1 k Hk) as [(k1 & Hk1 & Ha)|Hex]; [|right; lia].
  destruct (hist_step_stable kid _ _ Hs He2 k1 Hk1) as [(k2 & Hk2 & Ha2)|Hex]; [left; exists k2; split; [done|congruence]|].
  right. unfold auth_part in Ha. simplify_eq. lia.
Qed.

(** * Requests in progress *)

Inductive VPhase :=
| VEpoch                                   (** about to read the epoch *)
| VSync (e : Z)                            (** about to record it *)
| VPurgePos (e : Z) | VPurgeNeg (e : Z)    (** it moved: drop both caches *)
| VPos (e : Z)                             (** about to ask the positive cache *)
| VDrop (e : Z) (answer : option AuthError) (** drop a stale entry *)
| VNeg (e : Z) | VNegDrop (e : Z)          (** the negative cache *)
| VAllow (e : option Z)                    (** the limiter *)
| VGet (e : Z)                             (** about to read the key *)
| VPut (e : Z) (p : Principal) (exp : Z)   (** verified: three updates follow *)
| VForget (p : Principal) (exp : Z)
| VSucceed (p : Principal) (exp : Z)
| VReject (reason : Reason) (err : AuthError) (** refused: two updates follow *)
| VDebit (err : AuthError).

Record Request := {
  q_raw : string;
  q_want : KeyClass;
  q_ip : string;
  q_now : Z;        (** the clock when the request began *)
  q_start : nat;    (** the document that was current then *)
  q_tok : Parsed;
  q_phase : VPhase
}.

Definition at_phase (p : VPhase) (q : Request) : Request :=
  {| q_raw := q_raw q; q_want := q_want q; q_ip := q_ip q; q_now := q_now q; q_start := q_start q;
     q_tok := q_tok q; q_phase := p |}.

Definition q_sum (q : Request) : Sum := sum256 (q_raw q).
Definition q_src (q : Request) : string := limiterKey (q_ip q) (tok_kid (q_tok q)).

(** One locked section of a request on the verifier, given the current
document: the next phase or the answer. *)
Inductive req_step (q : Request) (d : State) (v : Verifier) :
  VPhase + result AuthError (Principal * Z) → Verifier → Prop :=
| Q_epoch : q_phase q = VEpoch → req_step q d v (inl (VSync (Epoch d))) v
| Q_epoch_err : q_phase q = VEpoch → req_step q d v (inl (VAllow None)) v
| Q_sync e :
    q_phase q = VSync e →
    req_step q d v (inl (if epoch_changed e v then VPurgePos e else VPos e)) (set_epoch e v)
| Q_purge_pos e : q_phase q = VPurgePos e → req_step q d v (inl (VPurgeNeg e)) (set_pos (bc_purge (v_pos v)) v)
| Q_purge_neg e : q_phase q = VPurgeNeg e → req_step q d v (inl (VPos e)) (set_neg (bc_purge (v_neg v)) v)
| Q_pos_miss e c :
    q_phase q = VPos e → bc_get (q_sum q) (v_pos v) = (None, c) → req_step q d v (inl (VNeg e)) (set_pos c v)
| Q_pos_hit e c x r :
    q_phase q = VPos e → bc_get (q_sum q) (v_pos v) = (Some x, c) →
    pos_verdict e (q_now q) (v_cacheTTL v) x = (false, Some (Ok r)) →
    req_step q d v (inr (Ok r)) (set_pos c v)
| Q_pos_stale e c x answer :
    q_phase q = VPos e → bc_get (q_sum q) (v_pos v) = (Some x, c) →
    (pos_verdict e (q_now q) (v_cacheTTL v) x).1 = true →
    (pos_verdict e (q_now q) (v_cacheTTL v) x).2 = option_map Err answer →
    req_step q d v (inl (VDrop e answer)) (set_pos c v)
| Q_drop e answer :
    q_phase q = VDrop e answer →
    req_step q d v (match answer with Some err => inr (Err err) | None => inl (VNeg e) end)
      (set_pos (bc_remove (q_sum q) (v_pos v)) v)
| Q_neg_miss e c :
    q_phase q = VNeg e → bc_get (q_sum q) (v_neg v) = (None, c) → req_step q d v (inl (VAllow (Some e))) (set_neg c v)
| Q_neg_hit e c x :
    q_phase q = VNeg e → bc_get (q_sum q) (v_neg v) = (Some x, c) →
    req_step q d v
      (if (Sub (q_now q) (ne_cachedAt x) <? v_negativeTTL v)%Z then inr (Err (ne_err x)) else inl (VNegDrop e)) (set_neg c v)
| Q_neg_drop e :
    q_phase q = VNegDrop e → req_step q d v (inl (VAllow (Some e))) (set_neg (bc_remove (q_sum q) (v_neg v)) v)
| Q_allow e l allowed :
    q_phase q = VAllow e → Allow (q_src q) (q_now q) (v_limiter v) = (allowed, l) →
    req_step q d v
      (if allowed then inl (match e with Some e => VGet e | None => VDebit ErrUnauthenticated end)
       else inr (Err ErrRateLimited)) (set_limiter l v)
| Q_get e answer :
    q_phase q = VGet e → answer = key_answer (tok_kid (q_tok q)) d ∨ answer = KeyUnreadable →
    req_step q d v
      (inl match verifyAgainstStore answer (tok_secret (q_tok q)) (q_want q) (q_now q) with
           | Ok (p, exp) => VPut e (with_epoch e p) exp
           | Err (reason, err) => VReject reason err
           end) v
| Q_put e p exp :
    q_phase q = VPut e p exp →
    req_step q d v (inl (VForget p exp))
      (set_pos (bc_put (q_sum q) {| ce_principal := p; ce_keyExpiry := exp; ce_cachedAt := q_now q; ce_epoch := e |} (v_pos v)) v)
| Q_forget p exp :
    q_phase q = VForget p exp →
    req_step q d v (inl (VSucceed p exp)) (set_neg (bc_remove (q_sum q) (v_neg v)) v)
| Q_succeed p exp :
    q_phase q = VSucceed p exp →
    req_step q d v (inr (Ok (p, exp))) (set_limiter (Succeed (q_src q) (q_now q) (v_limiter v)) v)
| Q_reject reason err :
    q_phase q = VReject reason err →
    req_step q d v (inl (VDebit err))
      (set_neg (bc_put (q_sum q) {| ne_err := err; ne_reason := reason; ne_cachedAt := q_now q |} (v_neg v)) v)
| Q_debit err :
    q_phase q = VDebit err →
    req_step q d v (inr (Err err)) (set_limiter (Fail (q_src q) (q_now q) (v_limiter v)) v).

Record World := {
  w_hist : list (State * Z);
  w_clock : Z;
  w_ver : Verifier;
  w_reqs : gmap nat Request
}.

(** An answered request, with the answer. *)
Abbreviation Answer := (option (Request * result AuthError (Principal * Z))) (only parsing).

(** The texts presented to the verifier. *)
Context (presented : string → Prop).

Inductive world_step : World → Answer → World → Prop :=
| W_tick h t t' v reqs :
    (t ≤ t')%Z →
    world_step {| w_hist := h; w_clock := t; w_ver := v; w_reqs := reqs |} None
               {| w_hist := h; w_clock := t'; w_ver := v; w_reqs := reqs |}
| W_mutate h t v reqs d t0 m :
    last h = Some (d, t0) → (Epoch d + 1 < 2 ^ 64)%Z →
    world_step {| w_hist := h; w_clock := t; w_ver := v; w_reqs := reqs |} None
               {| w_hist := h ++ [((run_mutation m t d).1, t)]; w_clock := t; w_ver := v; w_reqs := reqs |}
| W_begin h t v reqs i raw want ip tok :
    reqs !! i = None → presented raw → Parse raw = Ok tok → tok_class tok = want →
    world_step {| w_hist := h; w_clock := t; w_ver := v; w_reqs := reqs |} None
               {| w_hist := h; w_clock := t; w_ver := v;
                  w_reqs := <[i := {| q_raw := raw; q_want := want; q_ip := ip; q_now := t;
                                      q_start := pred (length h); q_tok := tok; q_phase := VEpoch |}]> reqs |}
| W_next h t v reqs i q d t0 p v' :
    reqs !! i = Some q → last h = Some (d, t0) → req_step q d v (inl p) v' →
    world_step {| w_hist := h; w_clock := t; w_ver := v; w_reqs := reqs |} None
               {| w_hist := h; w_clock := t; w_ver := v'; w_reqs := <[i := at_phase p q]> reqs |}
| W_answer h t v reqs i q d t0 r v' :
    reqs !! i = Some q → last h = Some (d, t0) → req_step q d v (inr r) v' →
    world_step {| w_hist := h; w_clock := t; w_ver := v; w_reqs := reqs |} (Some (q, r))
               {| w_hist := h; w_clock := t; w_ver := v'; w_reqs := delete i reqs |}.

Inductive world_run : World → list (Request * result AuthError (Principal * Z)) → World → Prop :=
| wr_nil w : world_run w [] w
| wr_step w o w' tr w'' :
    world_step w o w' → world_run w' tr w'' →
    world_run w (match o with Some a => a :: tr | None => tr end) w''.


(** * Every success is current *)

(** No two presented texts collide under the digest the caches are keyed by. *)
Context (no_collision : ∀ raw raw', presented raw → presented raw' → sum256 raw = sum256 raw' → raw = raw').

Definition good_key (tok : Parsed) (k : Key) : Prop :=
  Hasher_Equal hmac_sha256 hasher (SecretHMAC k) (tok_secret tok) = true ∧ Class k = tok_class tok ∧ Revoked k = false.

(** The entry was made from a document served after the one its epoch was read from. *)
Definition entry_ok (h : list (State * Z)) (sum : Sum) (x : cacheEntry) : Prop :=
  ∃ raw tok j1 j2 d1 d2 k,
    presented raw ∧ sum256 raw = sum ∧ Parse raw = Ok tok
    ∧ j1 ≤ j2 ∧ h !! j1 = Some d1 ∧ h !! j2 = Some d2 ∧ Epoch d1.1 = ce_epoch x
    ∧ GetKey (tok_kid tok) d2.1 = Ok k ∧ good_key tok k
    ∧ ce_principal x = with_epoch (ce_epoch x) (principalFor k) ∧ ce_keyExpiry x = ExpiresAt k.

(** A document served since the request began grants this answer. *)
Definition answer_ok (h : list (State * Z)) (q : Request) (p : Principal) (exp : Z) : Prop :=
  ∃ j d p0 e, q_start q ≤ j ∧ h !! j = Some d
    ∧ authenticate d.1 (q_raw q) (q_want q) (q_now q) = Ok (p0, exp) ∧ p = with_epoch e p0.

Definition epoch_seen (h : list (State * Z)) (q : Request) (e : Z) : Prop :=
  ∃ j d, q_start q ≤ j ∧ h !! j = Some d ∧ Epoch d.1 = e.

Definition vphase_ok (h : list (State * Z)) (q : Request) (p : VPhase) : Prop :=
  match p with
  | VSync e | VPurgePos e | VPurgeNeg e | VPos e | VDrop e _ | VNeg e | VNegDrop e | VAllow (Some e) | VGet e =>
    epoch_seen h q e
  | VPut e p exp =>
    ∃ j1 j2 d1 d2 k, q_start q ≤ j1 ∧ j1 ≤ j2 ∧ h !! j1 = Some d1 ∧ h !! j2 = Some d2 ∧ Epoch d1.1 = e
      ∧ GetKey (tok_kid (q_tok q)) d2.1 = Ok k ∧ good_key (q_tok q) k ∧ Expired k (q_now q) = false
      ∧ p = with_epoch e (principalFor k) ∧ exp = ExpiresAt k
  | VForget p exp | VSucceed p exp => answer_ok h q p exp
  | _ => True
  end.

Record req_ok (h : list (State * Z)) (q : Request) : Prop := {
  rq_presented : presented (q_raw q);
  rq_parse : Parse (q_raw q) = Ok (q_tok q);
  rq_class : tok_class (q_tok q) = q_want q;
  rq_start : ∃ d0, h !! q_start q = Some d0 ∧ (d0.2 ≤ q_now q)%Z;
  rq_phase : vphase_ok h q (q_phase q)
}.

Definition pos_ok (h : list (State * Z)) (v : Verifier) : Prop :=
  ∀ sum x, bc_holds (v_pos v) sum x → entry_ok h sum x.

Record world_ok (w : World) : Prop := {
  wo_hist : hist_ok (w_hist w);
  wo_last : is_Some (last (w_hist w));
  wo_epochs : ∀ i d, w_hist w !! i = Some d → (0 ≤ Epoch d.1)%Z;
  wo_clock : ∀ i d, w_hist w !! i = Some d → (d.2 ≤ w_clock w)%Z;
  wo_reqs : map_Forall (λ _ q, req_ok (w_hist w) q) (w_reqs w);
  wo_pos : pos_ok (w_hist w) (w_ver w)
}.

(** ** The checks against one record *)

Lemma verify_found tok k now p exp :
  verifyAgainstStore (KeyFound k) (tok_secret tok) (tok_class tok) now = Ok (p, exp)
  ↔ good_key tok k ∧ Expired k now = false ∧ p = principalFor k ∧ exp = ExpiresAt k.
Proof.
  unfold verifyAgainstStore, good_key. destruct (Hasher_Equal _ _ _ _); simpl; [|naive_solver].
  destruct (String.eqb_spec (Class k) (tok_class tok)); simpl; [|naive_solver].
  destruct (Revoked k); simpl; [naive_solver|]. destruct (Expired k now); naive_solver.
Qed.

Lemma authenticate_key d raw tok k now :
  Parse raw = Ok tok → GetKey (tok_kid tok) d = Ok k → good_key tok k → Expired k now = false →
  authenticate d raw (tok_class tok) now = Ok (principalFor k, ExpiresAt k).
Proof.
  intros Hp Hk Hg He. unfold authenticate, key_answer. rewrite Hp, String.eqb_refl, Hk. cbn [negb].
  by rewrite (proj2 (verify_found tok k now (principalFor k) (ExpiresAt k))).
Qed.

Lemma good_key_same tok k k' : auth_part k' = auth_part k → good_key tok k → good_key tok k'.
Proof.
  unfold auth_part, good_key, Revoked. intros [= Hs Hc Hr He _ _ _ _] (? & ? & ?). by rewrite Hs, Hc, Hr.
Qed.

Lemma pos_verdict_Ok e now ttl x r :
  pos_verdict e now ttl x = (false, Some (Ok r)) →
  ce_epoch x = e ∧ r = (ce_principal x, ce_keyExpiry x) ∧ (ce_keyExpiry x = 0 ∨ now ≤ ce_keyExpiry x)%Z.
Proof.
  unfold pos_verdict, IsZero, After. destruct (Z.eqb_spec (ce_epoch x) e); [|done]. simpl.
  destruct (ttl <=? _)%Z; [done|]. destruct (Z.eqb_spec (ce_keyExpiry x) 0); simpl; [intros [= <-]; auto|].
  destruct (Z.ltb_spec (ce_keyExpiry x) now); [done|]. intros [= <-]. auto.
Qed.

(** ** Serving from the cache *)

Lemma cached_answer h q x :
  hist_ok h → req_ok h q → epoch_seen h q (ce_epoch x) → entry_ok h (q_sum q) x →
  (ce_keyExpiry x = 0 ∨ q_now q ≤ ce_keyExpiry x)%Z → answer_ok h q (ce_principal x) (ce_keyExpiry x).
Proof.
  intros Hh [Hpr Hparse Hcl (d0 & Hd0 & Ht0) _] (j3 & d3 & Hj3 & Hd3 & He3) Hx Hexp.
  destruct Hx as (raw & tok & j1 & j2 & d1 & d2 & k & Hpr' & Hsum & Hparse' & Hj12 & Hd1 & Hd2 & He1 & Hk & Hg & Hp & Hex).
  assert (raw = q_raw q) as -> by (apply no_collision; done). assert (tok = q_tok q) as -> by congruence.
  assert (Expired k (q_now q) = false) as Hne.
  { unfold Expired, IsZero, After. rewrite <- Hex. destruct Hexp as [->|Hle]; [done|].
    by rewrite (proj2 (Z.ltb_ge _ _) Hle), andb_false_r. }
  unfold answer_ok. rewrite <- Hcl, Hp, Hex. destruct (decide (q_start q ≤ j2)) as [Hle|Hlt].
  - exists j2, d2, (principalFor k), (ce_epoch x). split_and!; [done..| |done]. by apply authenticate_key.
  - assert (Epoch d2.1 = Epoch d0.1) as Heq.
    { destruct (hist_mono h j1 j2 d1 d2) as [H1 _]; [done..|]. destruct (hist_mono h j2 (q_start q) d2 d0) as [H2 _]; [done|lia|done..|].
      destruct (hist_mono h (q_start q) j3 d0 d3) as [H3 _]; [done..|]. lia. }
    destruct (hist_stable h (tok_kid (q_tok q)) j2 (q_start q) d2 d0 Hh ltac:(lia) Hd2 Hd0 Heq k Hk) as [(k' & Hk' & Ha)|Hgone].
    + exists (q_start q), d0, (principalFor k'), (ce_epoch x). split_and!; [done..| |].
      * assert (ExpiresAt k = ExpiresAt k') as -> by (unfold auth_part in Ha; congruence).
        apply authenticate_key; [done..|by eapply good_key_same|].
        unfold Expired in *. by replace (ExpiresAt k') with (ExpiresAt k) by (unfold auth_part in Ha; congruence).
      * f_equal. unfold auth_part in Ha. congruence.
    + exfalso. rewrite Hex in Hexp. lia.
Qed.

(** ** Preservation *)

Lemma at_phase_ok h q p : req_ok h q → vphase_ok h q p → req_ok h (at_phase p q).
Proof. intros [] Hp. split; try done. Qed.

Lemma pos_ok_get h v sum c o : pos_ok h v → bc_get sum (v_pos v) = (o, c) → pos_ok h (set_pos c v).
Proof.
  intros Hp Hg s x Hx. apply Hp. eapply bc_get_keeps. rewrite Hg. exact Hx.
Qed.

Lemma put_entry h q e p exp :
  req_ok h q → vphase_ok h q (VPut e p exp) →
  answer_ok h q p exp
  ∧ entry_ok h (q_sum q) {| ce_principal := p; ce_keyExpiry := exp; ce_cachedAt := q_now q; ce_epoch := e |}.
Proof.
  intros [Hpr Hparse Hcl _ _] (j1 & j2 & d1 & d2 & k & Hs & Hj & Hd1 & Hd2 & He & Hk & Hg & Hne & -> & ->). split.
  - exists j2, d2, (principalFor k), e. split_and!; [lia|done| |done]. rewrite <- Hcl. by apply authenticate_key.
  - exists (q_raw q), (q_tok q), j1, j2, d1, d2, k. by split_and!.
Qed.

(** What a step of a request must establish. *)
Definition outcome_ok (h : list (State * Z)) (q : Request) (o : VPhase + result AuthError (Principal * Z)) : Prop :=
  match o with
  | inl p => vphase_ok h q p
  | inr (Ok (p, exp)) => answer_ok h q p exp
  | inr (Err _) => True
  end.

Lemma get_phase h q e d t0 j answer :
  req_ok h q → vphase_ok h q (VGet e) → h !! j = Some (d, t0) → (∀ i d', h !! i = Some d' → i ≤ j) →
  answer = key_answer (tok_kid (q_tok q)) d ∨ answer = KeyUnreadable →
  vphase_ok h q match verifyAgainstStore answer (tok_secret (q_tok q)) (q_want q) (q_now q) with
                | Ok (p, exp) => VPut e (with_epoch e p) exp
                | Err (reason, err) => VReject reason err
                end.
Proof.
  intros [_ _ Hcl _ _] (j1 & d1 & Hs & Hd1 & He) Hj Hlast Hans.
  destruct (verifyAgainstStore _ _ _ _) as [[p exp]|[reason err]] eqn:Hv; [|done].
  destruct Hans as [-> | ->]; [|done]. unfold key_answer in Hv. destruct (GetKey _ _) as [k|] eqn:Hk; [|done].
  rewrite <- Hcl in Hv. apply verify_found in Hv as (Hg & Hne & -> & ->).
  exists j1, j, d1, (d, t0), k. split_and!; eauto.
Qed.

Lemma req_step_ok h q d t0 v o v' :
  req_step q d v o v' → hist_ok h → last h = Some (d, t0) → req_ok h q → pos_ok h v →
  outcome_ok h q o ∧ pos_ok h v'.
Proof.
  intros Hstep Hh Hlast Hq Hpos.
  assert (h !! pred (length h) = Some (d, t0)) as Hj by (by rewrite <- last_lookup).
  assert (∀ i d', h !! i = Some d' → i ≤ pred (length h)) as Hmax by (intros i d' Hi%lookup_lt_Some; lia).
  pose proof (rq_phase _ _ Hq) as Hph. destruct (rq_start _ _ Hq) as (d0 & Hd0 & _).
  destruct Hstep as [Hp|Hp|e Hp|e Hp|e Hp|e c Hp Hg|e c x r Hp Hg Hv|e c x a Hp Hg Hv1 Hv2|e a Hp|e c Hp Hg|e c x Hp Hg|e Hp
    |e l al Hp Ha|e a Hp Ha|e p exp Hp|p exp Hp|p exp Hp|reason err Hp|err Hp]; rewrite Hp in Hph;
    try (split; [|by eapply pos_ok_get]); try (split; [|exact Hpos]); simpl; try done.
  - exists (pred (length h)), (d, t0). split_and!; [by eapply Hmax|done..].
  - by destruct (epoch_changed e v).
  - split; [exact Hph|]. intros s x Hx. by apply bc_purge_holds in Hx.
  - apply pos_verdict_Ok in Hv as (He & -> & Hexp). simpl in Hph. rewrite <- He in Hph.
    apply cached_answer; try done. apply Hpos. apply bc_get_holds. by rewrite Hg.
  - split; [by destruct a|]. intros s x Hx. apply bc_remove_holds in Hx as [_ Hx]. by apply Hpos.
  - by destruct (_ <? _)%Z.
  - destruct al; [|done]. by destruct e.
  - by eapply get_phase.
  - destruct (put_entry _ _ _ _ _ Hq Hph) as [Ha He]. split; [done|].
    intros s x [[-> ->]|[_ Hx]]%bc_put_holds; [done|by apply Hpos].
Qed.

(** ** Growing histories *)

Lemma entry_ok_app h l s x : entry_ok h s x → entry_ok (h ++ l) s x.
Proof.
  intros (raw & tok & j1 & j2 & d1 & d2 & k & ? & ? & ? & ? & ? & ? & ?).
  exists raw, tok, j1, j2, d1, d2, k. split_and!; try tauto; by apply lookup_app_l_Some.
Qed.

Lemma answer_ok_app h l q p exp : answer_ok h q p exp → answer_ok (h ++ l) q p exp.
Proof. intros (j & d & p0 & e & ? & ? & ?). exists j, d, p0, e. split_and!; try tauto. by apply lookup_app_l_Some. Qed.

Lemma epoch_seen_app h l q e : epoch_seen h q e → epoch_seen (h ++ l) q e.
Proof. intros (j & d & ? & ? & ?). exists j, d. split_and!; try done. by apply lookup_app_l_Some. Qed.

Lemma req_ok_app h l q : req_ok h q → req_ok (h ++ l) q.
Proof.
  intros [? ? ? (d0 & Hd0 & Ht) Hp]. split; try done.
  - exists d0. split; [by apply lookup_app_l_Some|done].
  - destruct (q_phase q) as [| | | | | | | |[]| | | | | |]; simpl in *; auto using epoch_seen_app, answer_ok_app.
    destruct Hp as (j1 & j2 & d1 & d2 & k & ? & ? & ? & ? & ?). exists j1, j2, d1, d2, k.
    split_and!; try tauto; by apply lookup_app_l_Some.
Qed.

Lemma hist_ok_snoc h d t0 t m :
  hist_ok h → last h = Some (d, t0) → (t0 ≤ t)%Z → (0 ≤ Epoch d)%Z → (Epoch d + 1 < 2 ^ 64)%Z →
  hist_ok (h ++ [((run_mutation m t d).1, t)]).
Proof.
  intros Hh Hlast Ht H0 Hb i e e' Hi Hi'. rewrite last_lookup in Hlast.
  apply lookup_app_Some in Hi' as [Hi'|[Hge Hi']].
  - eapply Hh; [|done]. rewrite lookup_app_l in Hi; [done|]. apply lookup_lt_Some in Hi'. lia.
  - apply list_lookup_singleton_Some in Hi' as [Heq <-].
    assert (i = pred (length h)) as -> by lia. rewrite lookup_app_l in Hi by (apply lookup_lt_Some in Hlast; lia).
    simplify_eq. split_and!; simpl; try done. exists m, (run_mutation m t d).2. apply surjective_pairing.
Qed.

Lemma run_epoch_nonneg m t d : (0 ≤ Epoch d)%Z → (0 ≤ Epoch (run_mutation m t d).1)%Z.
Proof.
  intros H0. destruct (run_mutation m t d) as [d' r] eqn:Hrun. simpl. apply epoch_step in Hrun.
  destruct r as [[]|]; [|by rewrite Hrun..]. rewrite Hrun. destruct (bumps m); [|done].
  unfold wrap_uint64. apply Z.mod_pos_bound. lia.
Qed.

Lemma world_step_ok w o w' :
  world_step w o w' → world_ok w →
  world_ok w' ∧ (∀ q p exp, o = Some (q, Ok (p, exp)) → answer_ok (w_hist w) q p exp).
Proof.
  intros Hstep [Hh Hlast He Hc Hr Hp].
  destruct Hstep as [h t t' v reqs Ht|h t v reqs d t0 m Hl Hb|h t v reqs i raw want ip tok Hi Hpr Hparse Hcl
    |h t v reqs i q d t0 p v' Hi Hl Hs|h t v reqs i q d t0 r v' Hi Hl Hs]; simpl in *.
  - split; [|done]. split; simpl; try done. intros i d Hi. specialize (Hc i d Hi). lia.
  - split; [|done]. pose proof Hl as Hl'. rewrite last_lookup in Hl'.
    pose proof (He _ _ Hl') as H0. pose proof (Hc _ _ Hl') as Hct. simpl in H0, Hct. split; simpl.
    + by eapply hist_ok_snoc.
    + rewrite last_snoc. by eexists.
    + intros i e [Hi|[_ [_ <-]%list_lookup_singleton_Some]]%lookup_app_Some; [by eapply He|]. by apply run_epoch_nonneg.
    + intros i e [Hi|[_ [_ <-]%list_lookup_singleton_Some]]%lookup_app_Some; [by eapply Hc|]. done.
    + intros i q Hi. apply req_ok_app. by eapply Hr.
    + intros s x Hx. apply entry_ok_app. by apply Hp.
  - split; [|done]. split; simpl; try done. apply map_Forall_insert_2; [|done]. split; try done. simpl.
    destruct Hlast as [d0 Hd0]. rewrite last_lookup in Hd0. exists d0. split; [done|]. by eapply Hc.
  - destruct (req_step_ok h q d t0 v (inl p) v' Hs) as [Ho Hv]; [done..|by eapply Hr|done|].
    split; [|done]. split; simpl; try done. apply map_Forall_insert_2; [|done]. apply at_phase_ok; [by eapply Hr|done].
  - destruct (req_step_ok h q d t0 v (inr r) v' Hs) as [Ho Hv]; [done..|by eapply Hr|done|].
    split; [|by intros q' p exp [= <- ->]]. split; simpl; try done. by apply map_Forall_delete.
Qed.

Lemma world_hist_grows w o w' : world_step w o w' → w_hist w `prefix_of` w_hist w'.
Proof. destruct 1; simpl; try done. by apply prefix_app_r. Qed.

Lemma world_run_ok w tr w' :
  world_run w tr w' → world_ok w →
  ∀ q p exp, (q, Ok (p, exp)) ∈ tr → answer_ok (w_hist w') q p exp.
Proof.
  induction 1 as [w|w o w' tr w'' Hs Hrun IH]; intros Hok q p exp Hin; [by apply elem_of_nil in Hin|].
  destruct (world_step_ok _ _ _ Hs Hok) as [Hok' Ha].
  assert (w_hist w' `prefix_of` w_hist w'') as [l2 Hl2].
  { clear -Hrun. induction Hrun as [w|w o w' tr w'' Hs Hrun IH]; [done|]. etrans; [by eapply world_hist_grows|done]. }
  destruct (world_hist_grows _ _ _ Hs) as [l1 Hl1].
  destruct o as [a|]; [|by eapply IH]. apply elem_of_cons in Hin as [<-|Hin]; [|by eapply IH].
  rewrite Hl2, Hl1. by eapply answer_ok_app, answer_ok_app, Ha.
Qed.

(** C5: A success is never stale.  Requests run concurrently, share the caches
and interleave with every mutation of the document, prunes and revocations
included.  Whenever a request is answered with a principal, some document that
was served between the moment the request began and its answer itself grants
the token at the request's time: its record holds the matching digest and the
required class and is neither revoked nor expired.  So a revocation takes
effect for every request that begins after it, cache or no cache. *)
Theorem success_is_current (w w' : World) (tr : list (Request * result AuthError (Principal * Z)))
    (q : Request) (p : Principal) (exp : Z) :
  hist_ok (w_hist w) → is_Some (last (w_hist w)) →
  (∀ i d, w_hist w !! i = Some d → 0 ≤ Epoch d.1 ∧ d.2 ≤ w_clock w)%Z →
  w_reqs w = ∅ → (∀ sum x, ¬ bc_holds (v_pos (w_ver w)) sum x) →
  world_run w tr w' → (q, Ok (p, exp)) ∈ tr →
  ∃ j d p0 e, q_start q ≤ j ∧ w_hist w' !! j = Some d
    ∧ authenticate d.1 (q_raw q) (q_want q) (q_now q) = Ok (p0, exp) ∧ p = with_epoch e p0.
Proof.
  intros Hh Hl Hd Hr Hp Hrun Hin. eapply world_run_ok; [done| |done]. split; try done.
  - intros i d Hi. by apply (Hd i).
  - intros i d Hi. by apply (Hd i).
  - rewrite Hr. apply map_Forall_empty.
  - intros s x Hx. by destruct (Hp s x).
Qed.

(** * One request alone *)

Lemma get_absent_pos sum (v : Verifier) :
  (∀ x, ¬ bc_holds (v_pos v) sum x) → ∃ c, bc_get sum (v_pos v) = (None, c).
Proof.
  intros Hn. pose proof (bc_get_holds sum (v_pos v)) as Hg. destruct (bc_get sum (v_pos v)) as [[x|] c]; [|by eexists].
  by destruct (Hn x (Hg x eq_refl)).
Qed.

Lemma get_absent_neg sum (v : Verifier) :
  (∀ x, ¬ bc_holds (v_neg v) sum x) → ∃ c, bc_get sum (v_neg v) = (None, c).
Proof.
  intros Hn. pose proof (bc_get_holds sum (v_neg v)) as Hg. destruct (bc_get sum (v_neg v)) as [[x|] c]; [|by eexists].
  by destruct (Hn x (Hg x eq_refl)).
Qed.

(** Synchronising adds no entry and leaves the limiter. *)
Lemma syncEpoch_spec e v :
  ∃ v', syncEpoch (Some e) v = (Some e, v') ∧ v_limiter v' = v_limiter v
    ∧ (∀ s x, bc_holds (v_pos v') s x → bc_holds (v_pos v) s x)
    ∧ (∀ s x, bc_holds (v_neg v') s x → bc_holds (v_neg v) s x).
Proof.
  unfold syncEpoch. eexists. split; [done|]. destruct (epoch_changed e v); simpl; [|done].
  split_and!; [done|by intros s x ?%bc_purge_holds..].
Qed.

(** What a request that misses the caches is told.  When the caches hold
nothing for the token and its source is not in backoff, [verify] answers
exactly what the document says, and stamps the principal with the document's
epoch; when the epoch cannot be read it never succeeds, whatever the caches
hold. *)
Theorem verify_uncached (raw ip : string) (want : KeyClass) (now : Z) (d : State) (v : Verifier) (get : string → KeyAnswer) :
  (∀ x, ¬ bc_holds (v_pos v) (sum256 raw) x) → (∀ x, ¬ bc_holds (v_neg v) (sum256 raw) x) →
  (∀ tok, Parse raw = Ok tok → (Allow (limiterKey ip (tok_kid tok)) now (v_limiter v)).1 = true) →
  (verify raw want ip now (Some (Epoch d)) (λ kid, key_answer kid d) v).1
  = (λ '(p, exp), (with_epoch (Epoch d) p, exp)) <$> authenticate d raw want now
  ∧ is_ok (verify raw want ip now None get v).1 = false.
Proof.
  intros Hpos Hneg Hallow. unfold verify, authenticate. destruct (Parse raw) as [tok|] eqn:Hparse; [|done].
  destruct (String.eqb (tok_class tok) want); [|done]. cbn [negb]. specialize (Hallow tok eq_refl). split.
  - destruct (syncEpoch_spec (Epoch d) v) as (v' & -> & Hl & Hp & Hn).
    destruct (get_absent_pos (sum256 raw) v') as [c Hc]; [intros x Hx; by eapply Hpos, Hp|].
    destruct (get_absent_neg (sum256 raw) (set_pos c v')) as [c' Hc']; [intros x Hx; by eapply Hneg, Hn|].
    unfold fromCache, fromPos, fromNeg. rewrite Hc, Hc'. simpl. rewrite Hl.
    destruct (Allow _ _ _) as [[] l]; [|done]. simpl.
    by destruct (verifyAgainstStore _ _ _ _) as [[p exp]|[]].
  - simpl. destruct (Allow _ _ _) as [[] l]; done.
Qed.

End verifier.

Arguments Verifier CP CN CL : clear implicits.
Arguments World CP CN CL : clear implicits.

(** * Concrete instances *)

(** A cache that never forgets. *)
#[export, refine] Instance list_cache {K V} `{Countable K} : BoundedCache K V (list (K * V)) := {|
  bc_new _ := [];
  bc_get k c := (find_key k c, c);
  bc_put k v c := (k, v) :: drop_key k c;
  bc_remove k c := drop_key k c;
  bc_purge _ := [];
  bc_holds c k v := (k, v) ∈ c
|}.
Proof.
  - intros n k v. apply not_elem_of_nil.
  - intros k c v. apply find_key_elem.
  - intros k c v. apply find_key_None.
  - done.
  - intros k v c k' v' [Heq|[Hne Hin]%drop_key_elem]%elem_of_cons; [left; by simplify_eq|by right].
  - intros k c k' v'. by intros [Hne Hin]%drop_key_elem.
  - intros c k v. apply not_elem_of_nil.
Defined.

Definition ex_hmac (pepper secret : list Byte.byte) : list Byte.byte := secret.
Definition ex_hasher : option Hasher := NewHasher ex_hmac (repeat Byte.x07 32).

Definition ex_agent : Key :=
  {| KID := m_KID ex_minted; Class := ClassAgent; Name := "agent"; Owner := "";
     SecretHMAC := m_Secret ex_minted;
     Key_Scope := None; Enrollment := None; CreatedAt := 10; ExpiresAt := 1000; LastUsed := None;
     RevokedAt := None; RevokedReason := "" |}.

Definition ex_doc : State := (PutKey (Some ex_agent) NewState).1.

Definition ex_verifier : Verifier (list (string * cacheEntry)) (list (string * negEntry)) (list (string * failureBucket)) :=
  {| v_cacheTTL := DefaultCacheTTL; v_negativeTTL := DefaultNegativeTTL; v_pos := []; v_neg := []; v_limiter := [];
     v_epoch := 0; v_epochOK := false |}.

Lemma verify_uncached_witness :
  is_ok (verify ex_hmac ex_hasher (λ s, s) (m_Raw ex_minted) ClassAgent "10.0.0.9" 50 (Some (Epoch ex_doc))
           (λ kid, key_answer kid ex_doc) ex_verifier).1 = true.
Proof.
  destruct (verify_uncached ex_hmac ex_hasher (λ s : string, s) (m_Raw ex_minted) "10.0.0.9" ClassAgent 50 ex_doc
    ex_verifier (λ kid, key_answer kid ex_doc)) as [-> _].
  - intros x. apply not_elem_of_nil.
  - intros x. apply not_elem_of_nil.
  - reflexivity.
  - vm_compute. reflexivity.
Defined.

(** ** Playing a script *)

Section play.
Context (hmac_sha256 : list Byte.byte → list Byte.byte → list Byte.byte) (hasher : option Hasher).
Context {Sum : Type} (sum256 : string → Sum).
Context {CP CN CL : Type} `{!BoundedCache Sum cacheEntry CP} `{!BoundedCache Sum negEntry CN}
  `{!BoundedCache string failureBucket CL}.
Context (presented : string → Prop).

(** The next step of a request when the store answers. *)
Definition req_exec (q : Request) (d : State) (v : Verifier CP CN CL)
  : (VPhase + result AuthError (Principal * Z)) * Verifier CP CN CL :=
  let sum := sum256 (q_raw q) in
  match q_phase q with
  | VEpoch => (inl (VSync (Epoch d)), v)
  | VSync e => (inl (if epoch_changed e v then VPurgePos e else VPos e), set_epoch e v)
  | VPurgePos e => (inl (VPurgeNeg e), set_pos (bc_purge (v_pos v)) v)
  | VPurgeNeg e => (inl (VPos e), set_neg (bc_purge (v_neg v)) v)
  | VPos e =>
    match bc_get sum (v_pos v) with
    | (None, c) => (inl (VNeg e), set_pos c v)
    | (Some x, c) =>
      match pos_verdict e (q_now q) (v_cacheTTL v) x with
      | (false, Some (Ok r)) => (inr (Ok r), set_pos c v)
      | (_, Some (Err err)) => (inl (VDrop e (Some err)), set_pos c v)
      | (_, _) => (inl (VDrop e None), set_pos c v)
      end
    end
  | VDrop e answer =>
    (match answer with Some err => inr (Err err) | None => inl (VNeg e) end, set_pos (bc_remove sum (v_pos v)) v)
  | VNeg e =>
    match bc_get sum (v_neg v) with
    | (None, c) => (inl (VAllow (Some e)), set_neg c v)
    | (Some x, c) =>
      (if (Sub (q_now q) (ne_cachedAt x) <? v_negativeTTL v)%Z then inr (Err (ne_err x)) else inl (VNegDrop e), set_neg c v)
    end
  | VNegDrop e => (inl (VAllow (Some e)), set_neg (bc_remove sum (v_neg v)) v)
  | VAllow e =>
    let '(allowed, l) := Allow (limiterKey (q_ip q) (tok_kid (q_tok q))) (q_now q) (v_limiter v) in
    (if allowed then inl (match e with Some e => VGet e | None => VDebit ErrUnauthenticated end)
     else inr (Err ErrRateLimited), set_limiter l v)
  | VGet e =>
    (inl match verifyAgainstStore hmac_sha256 hasher (key_answer (tok_kid (q_tok q)) d) (tok_secret (q_tok q)) (q_want q) (q_now q) with
         | Ok (p, exp) => VPut e (with_epoch e p) exp
         | Err (reason, err) => VReject reason err
         end, v)
  | VPut e p exp =>
    (inl (VForget p exp),
     set_pos (bc_put sum {| ce_principal := p; ce_keyExpiry := exp; ce_cachedAt := q_now q; ce_epoch := e |} (v_pos v)) v)
  | VForget p exp => (inl (VSucceed p exp), set_neg (bc_remove sum (v_neg v)) v)
  | VSucceed p exp =>
    (inr (Ok (p, exp)), set_limiter (Succeed (limiterKey (q_ip q) (tok_kid (q_tok q))) (q_now q) (v_limiter v)) v)
  | VReject reason err =>
    (inl (VDebit err), set_neg (bc_put sum {| ne_err := err; ne_reason := reason; ne_cachedAt := q_now q |} (v_neg v)) v)
  | VDebit err =>
    (inr (Err err), set_limiter (Fail (limiterKey (q_ip q) (tok_kid (q_tok q))) (q_now q) (v_limiter v)) v)
  end.

Lemma req_exec_sound q d v :
  req_step hmac_sha256 hasher sum256 q d v (req_exec q d v).1 (req_exec q d v).2.
Proof.
  unfold req_exec. destruct (q_phase q) eqn:Hp; cbn [fst snd]; try (by econstructor).
  - destruct (bc_get _ _) as [[x|] c] eqn:Hg; [|by eapply Q_pos_miss].
    destruct (pos_verdict _ _ _ x) as [drop a] eqn:Hv. unfold pos_verdict in Hv. repeat case_match; simplify_eq; simpl.
    + eapply (Q_pos_stale _ _ _ _ _ _ _ _ x None); [done..| |]; unfold pos_verdict; rewrite H; done.
    + eapply (Q_pos_stale _ _ _ _ _ _ _ _ x (Some ErrExpired)); [done..| |]; unfold pos_verdict; rewrite H, H0; done.
    + eapply (Q_pos_hit _ _ _ _ _ _ _ _ x); [done..|]. unfold pos_verdict. by rewrite H, H0.
  - destruct (bc_get _ _) as [[x|] c] eqn:Hg; [by eapply Q_neg_hit|by eapply Q_neg_miss].
  - destruct (Allow _ _ _) as [al l] eqn:Ha. simpl. by eapply Q_allow.
  - eapply Q_get; [done|by left].
Qed.

Inductive Event := EBegin (i : nat) (raw want ip : string) | ENext (i : nat) | EMutate (m : Mutation) | ETick (t : Z).

Definition play_event (e : Event) (w : World CP CN CL)
  : option (option (Request * result AuthError (Principal * Z)) * World CP CN CL) :=
  match e with
  | ETick t =>
    if (w_clock w <=? t)%Z
    then Some (None, {| w_hist := w_hist w; w_clock := t; w_ver := w_ver w; w_reqs := w_reqs w |}) else None
  | EMutate m =>
    match last (w_hist w) with
    | Some (d, _) =>
      if (Epoch d + 1 <? 2 ^ 64)%Z
      then Some (None, {| w_hist := w_hist w ++ [((run_mutation m (w_clock w) d).1, w_clock w)]; w_clock := w_clock w;
                          w_ver := w_ver w; w_reqs := w_reqs w |})
      else None
    | None => None
    end
  | EBegin i raw want ip =>
    match w_reqs w !! i, Parse raw with
    | None, Ok tok =>
      if String.eqb (tok_class tok) want
      then Some (None, {| w_hist := w_hist w; w_clock := w_clock w; w_ver := w_ver w;
                          w_reqs := <[i := {| q_raw := raw; q_want := want; q_ip := ip; q_now := w_clock w;
                                              q_start := pred (length (w_hist w)); q_tok := tok; q_phase := VEpoch |}]> (w_reqs w) |})
      else None
    | _, _ => None
    end
  | ENext i =>
    match w_reqs w !! i, last (w_hist w) with
    | Some q, Some (d, _) =>
      match req_exec q d (w_ver w) with
      | (inl p, v) => Some (None, {| w_hist := w_hist w; w_clock := w_clock w; w_ver := v;
                                     w_reqs := <[i := at_phase p q]> (w_reqs w) |})
      | (inr r, v) => Some (Some (q, r), {| w_hist := w_hist w; w_clock := w_clock w; w_ver := v;
                                            w_reqs := delete i (w_reqs w) |})
      end
    | _, _ => None
    end
  end.

(** Events that cannot happen are skipped. *)
Fixpoint play_events (es : list Event) (w : World CP CN CL)
  : list (Request * result AuthError (Principal * Z)) * World CP CN CL :=
  match es with
  | [] => ([], w)
  | e :: es =>
    match play_event e w with
    | None => play_events es w
    | Some (o, w) => let '(tr, w) := play_events es w in (match o with Some a => a :: tr | None => tr end, w)
    end
  end.

Lemma play_event_sound e w o w' :
  (∀ i raw want ip, e = EBegin i raw want ip → presented raw) →
  play_event e w = Some (o, w') → world_step hmac_sha256 hasher sum256 presented w o w'.
Proof.
  intros Hpr. destruct w as [h t v reqs]. destruct e as [i raw want ip|i|m|t']; cbn [play_event w_hist w_clock w_ver w_reqs].
  - destruct (reqs !! i) eqn:Hi; [done|]. destruct (Parse raw) as [tok|] eqn:Hp; [|done].
    destruct (String.eqb_spec (tok_class tok) want); [|done]. intros [= <- <-]. eapply W_begin; eauto.
  - destruct (reqs !! i) as [q|] eqn:Hi; [|done]. destruct (last h) as [[d t0]|] eqn:Hl; [|done].
    pose proof (req_exec_sound q d v) as Hs. destruct (req_exec q d v) as [[p|r] v']; intros [= <- <-].
    + by eapply W_next.
    + by eapply W_answer.
  - destruct (last h) as [[d t0]|] eqn:Hl; [|done]. destruct (Z.ltb_spec (Epoch d + 1) (2 ^ 64)); [|done].
    intros Heq. injection Heq as <- <-. by eapply W_mutate.
  - destruct (Z.leb_spec t t'); [|done]. intros [= <- <-]. by apply W_tick.
Qed.

Lemma play_events_sound es w :
  (∀ i raw want ip, EBegin i raw want ip ∈ es → presented raw) →
  world_run hmac_sha256 hasher sum256 presented w (play_events es w).1 (play_events es w).2.
Proof.
  revert w. induction es as [|e es IH]; intros w Hpr; cbn [play_events]; [constructor|].
  destruct (play_event e w) as [[o w']|] eqn:He; [|apply IH; set_solver].
  specialize (IH w' ltac:(set_solver)). destruct (play_events es w') as [tr w'']. simpl in *.
  eapply wr_step; [|exact IH]. eapply play_event_sound; [|done]. intros i raw want ip ->. eapply Hpr, list_elem_of_here.
Qed.

End play.

(** A request that reaches the store, one served from the cache, then the key
is revoked and a third request is refused. *)
Definition ex_world : World (list (string * cacheEntry)) (list (string * negEntry)) (list (string * failureBucket)) :=
  {| w_hist := [(ex_doc, 20%Z)]; w_clock := 50; w_ver := ex_verifier; w_reqs := ∅ |}.

Definition ex_begin (i : nat) : Event := EBegin i (m_Raw ex_minted) ClassAgent "10.0.0.9".

Definition ex_script : list Event :=
  ex_begin 0 :: repeat (ENext 0) 11 ++ ex_begin 1 :: repeat (ENext 1) 3
  ++ EMutate (MRevokeKey (m_KID ex_minted) "leaked" 60) :: ex_begin 2 :: repeat (ENext 2) 10.

Definition ex_answers : list (Request * result AuthError (Principal * Z)) :=
  (play_events ex_hmac ex_hasher (λ s : string, s) ex_script ex_world).1.

Lemma ex_answers_are :
  (λ a : Request * result AuthError (Principal * Z), (q_phase a.1, a.2)) <$> ex_answers
  = [(VSucceed (with_epoch 1 (principalFor ex_agent)) 1000, Ok (with_epoch 1 (principalFor ex_agent), 1000%Z));
     (VPos 1, Ok (with_epoch 1 (principalFor ex_agent), 1000%Z));
     (VDebit ErrRevoked, Err ErrRevoked)].
Proof. vm_compute. reflexivity. Qed.

Definition ex_cached_request : Request :=
  {| q_raw := m_Raw ex_minted; q_want := ClassAgent; q_ip := "10.0.0.9"; q_now := 50; q_start := 0;
     q_tok := ex_parsed; q_phase := VPos 1 |}.

Lemma success_is_current_witness :
  ∃ j d p0 e, (0 ≤ j)%nat ∧ w_hist (play_events ex_hmac ex_hasher (λ s : string, s) ex_script ex_world).2 !! j = Some d
    ∧ authenticate ex_hmac ex_hasher d.1 (m_Raw ex_minted) ClassAgent 50 = Ok (p0, 1000%Z)
    ∧ with_epoch 1 (principalFor ex_agent) = with_epoch e p0.
Proof.
  apply (success_is_current ex_hmac ex_hasher (λ s : string, s) (λ raw, raw = m_Raw ex_minted) (λ raw raw' _ _ Heq, Heq)
    ex_world (play_events ex_hmac ex_hasher (λ s : string, s) ex_script ex_world).2 ex_answers ex_cached_request).
  - intros i e e' Hi Hi'. destruct i; [|done]. done.
  - by eexists.
  - intros i d Hi. destruct i as [|i]; [|done]. injection Hi as <-. split; vm_compute; discriminate.
  - reflexivity.
  - intros s x Hx. by apply not_elem_of_nil in Hx.
  - apply play_events_sound. intros i raw want ip Hin. apply list_elem_of_In in Hin.
    assert (forallb (λ e, match e with EBegin _ raw _ _ => String.eqb raw (m_Raw ex_minted) | _ => true end) ex_script = true)
      as Hall by (vm_compute; reflexivity).
    rewrite forallb_forall in Hall. specialize (Hall _ Hin). by apply String.eqb_eq in Hall.
  - apply list_elem_of_lookup. exists 1%nat. vm_compute. reflexivity.
Defined.
