(* ===== verification/Registry.v ===== *)
(** The hub's in-memory view of the fleet: [src/internal/registry/registry.go].

A cluster's entry is a pool of slots, one per spoke pod; a slot is a pointer,
so slots carry an identity, which is what [release], [applyFacts] and
[closeVictims] compare.  Every method's work happens in one section under the
registry's lock; what the spoke and the label lookup answered before the lock
was taken are arguments.  Loops over Go maps run over a list of the map's
entries in some order. *)

From S2P Require Import Prelude Fleet.
From stdpp Require Import pretty.
Open Scope string_scope.

(** * Data *)

(** [tunnel.Identity] and [tunnel.Facts]. *)
Record Identity := {
  id_ClusterID : string;
  id_CertSerial : string;
  id_CertNotAfter : Z;
  id_RemoteAddr : string;
  id_InstanceID : string
}.

Record Facts := {
  f_Fingerprint : string;
  f_Changed : bool;
  f_Cluster : Cluster;
  f_Generation : Z
}.

Record slot := {
  sl_ptr : nat;         (** the pointer *)
  sl_session : nat;     (** the session, by number *)
  sl_generation : Z;
  sl_fingerprint : string;
  sl_certSerial : string;
  sl_facts : Cluster;
  sl_spokeLabels : gmap string string
}.

Record entry := {
  e_slots : gmap string slot;
  e_rr : Z;
  e_lastCluster : Cluster
}.

Record Registry := {
  r_grace : Z;
  r_entries : gmap string entry;
  r_closed : bool;
  r_anonSeq : Z;
  r_next : nat          (** the next unused slot pointer *)
}.

Definition with_entries (es : gmap string entry) (r : Registry) : Registry :=
  {| r_grace := r_grace r; r_entries := es; r_closed := r_closed r; r_anonSeq := r_anonSeq r; r_next := r_next r |}.

Inductive RegistryError :=
| ErrRejectedSession
| ErrRejectedClosed        (** rejected, because closed *)
| ErrStaleGeneration
| ErrUnknownCluster        (** unknown, and so not connected *)
| ErrNotConnected.

(** * Construction *)

Definition DefaultFactsPollInterval : Z := (60 * Second)%Z.
Definition DefaultFactsPollTimeout : Z := (10 * Second)%Z.
Definition DefaultDisconnectGrace : Z := (5 * Minute)%Z.

Record Intervals := { i_poll : Z; i_pollTimeout : Z; i_sweep : Z }.

Definition Registry_New (poll pollTimeout sweepInterval grace : Z) : option (Registry * Intervals) :=
  if (poll <? 0)%Z then None
  else if (pollTimeout <? 0)%Z then None
  else if (sweepInterval <? 0)%Z then None
  else
    let grace := if (grace =? 0)%Z then DefaultDisconnectGrace else grace in
    let grace := if (grace <? 0)%Z then 0%Z else grace in
    Some ({| r_grace := grace; r_entries := ∅; r_closed := false; r_anonSeq := 0; r_next := 0 |},
          {| i_poll := if (poll =? 0)%Z then DefaultFactsPollInterval else poll;
             i_pollTimeout := if (pollTimeout =? 0)%Z then DefaultFactsPollTimeout else pollTimeout;
             i_sweep := if (sweepInterval =? 0)%Z then Z.min (Z.max (Z.quot grace 4) Second) Minute else sweepInterval |}).

(** * Clusters *)

(** Deep copies: the values are the same. *)
Definition copyCluster (c : Cluster) : Cluster := c.

Definition set_cluster (id : string) (labels : gmap string string) (st : ClusterState) (seen since notAfter : Z)
    (c : Cluster) : Cluster :=
  {| ID := id; DisplayName := DisplayName c; Description := Description c; Labels := labels; Cluster_State := st;
     LastSeen := seen; ConnectedSince := since; AgentVersion := AgentVersion c; ProtocolVersion := ProtocolVersion c;
     CertNotAfter := notAfter; Kubernetes := Kubernetes c; Prometheus := Prometheus c |}.

Definition connectedState (c : Cluster) : ClusterState :=
  if Reachable (Prometheus c) then StateConnected else StateDegraded.

(** [owned] is the answer of the lookup: none configured, an error, or the
operator's labels. *)
Inductive LabelAnswer := NoLookup | LookupFails | Owned (labels : gmap string string).

Definition mergeLabels (owned : LabelAnswer) (reported : gmap string string) : option (gmap string string) :=
  match owned with
  | NoLookup => Some reported
  | LookupFails => None
  | Owned owned =>
    if (size owned =? 0)%nat then Some reported
    else
      let merged := foldl (λ m '(k, v), <[k := v]> m) ∅ (map_to_list reported) in
      Some (foldl (λ m '(k, v), <[k := v]> m) merged (map_to_list owned))
  end.

Definition clusterFrom (id : string) (ident : Identity) (reported : Cluster) (owned : LabelAnswer) (now : Z)
  : option Cluster :=
  match mergeLabels owned (Labels reported) with
  | None => None
  | Some labels =>
    Some (set_cluster id labels (connectedState reported) now now (id_CertNotAfter ident) (copyCluster reported))
  end.

(** * Admission *)

Definition slotKey (ident : Identity) (r : Registry) : string * Registry :=
  if negb (String.eqb (id_InstanceID ident) "") then ("instance:" +:+ id_InstanceID ident, r)
  else if negb (String.eqb (id_CertSerial ident) "") then ("cert:" +:+ id_CertSerial ident, r)
  else
    let n := wrap_uint64 (r_anonSeq r + 1) in
    ("anon:" +:+ pretty n,
     {| r_grace := r_grace r; r_entries := r_entries r; r_closed := r_closed r; r_anonSeq := n; r_next := r_next r |}).

Definition new_slot (session : nat) (gen : Z) (facts : Facts) (ident : Identity) (cluster : Cluster) (r : Registry)
  : slot * Registry :=
  ({| sl_ptr := r_next r; sl_session := session; sl_generation := gen; sl_fingerprint := f_Fingerprint facts;
      sl_certSerial := id_CertSerial ident; sl_facts := cluster; sl_spokeLabels := Labels (f_Cluster facts) |},
   {| r_grace := r_grace r; r_entries := r_entries r; r_closed := r_closed r; r_anonSeq := r_anonSeq r;
      r_next := S (r_next r) |}).

Definition set_slots (m : gmap string slot) (e : entry) : entry :=
  {| e_slots := m; e_rr := e_rr e; e_lastCluster := e_lastCluster e |}.

Definition zero_Cluster : Cluster :=
  {| ID := ""; DisplayName := ""; Description := ""; Labels := ∅; Cluster_State := StateConnected; LastSeen := 0;
     ConnectedSince := 0; AgentVersion := ""; ProtocolVersion := ""; CertNotAfter := 0;
     Kubernetes := {| Available := false; UnavailableReason := ""; k8s_Version := ""; ClusterUID := ""; NodeCount := 0 |};
     Prometheus := {| Reachable := false; UnreachableReason := ""; Flavor := ""; prom_Version := ""; Retention := "";
                      ScrapeInterval := ""; LookbackDelta := ""; ExternalLabels := ∅; ActiveSeries := 0; MetricNames := 0;
                      Jobs := []; Namespaces := []; MetricPrefixes := []; RuleGroups := 0; AlertingRules := 0;
                      FiringAlerts := 0; HasAlertmanager := false |} |}.

Definition empty_entry : entry := {| e_slots := ∅; e_rr := 0; e_lastCluster := zero_Cluster |}.

(** What an admission hands back: the slot under its cluster and key, and the
session it displaced. *)
Record Admission := { a_id : string; a_key : string; a_slot : slot; a_displaced : option slot }.

(** [OnSession], given nil or a session: [early] is the closed flag read before [Describe], [described]
its answer, [generation] what the session then reports. *)
Definition OnSession (session : option nat) (ident : Identity) (early : bool) (described : option Facts) (generation : Z)
    (owned : LabelAnswer) (now : Z) (r : Registry) : Registry * result RegistryError Admission :=
  match session with None => (r, Err ErrRejectedSession) | Some session =>
  if String.eqb (id_ClusterID ident) "" then (r, Err ErrRejectedSession)
  else
    let id := id_ClusterID ident in
    if early then (r, Err ErrRejectedClosed)
    else match described with
    | None => (r, Err ErrRejectedSession)
    | Some facts =>
      let gen := if (generation =? 0)%Z then f_Generation facts else generation in
      let '(key, r) := slotKey ident r in
      match clusterFrom id ident (f_Cluster facts) owned now with
      | None => (r, Err ErrRejectedSession)
      | Some cluster =>
        let '(sl, r) := new_slot session gen facts ident cluster r in
        if r_closed r then (r, Err ErrRejectedClosed)
        else
          let e := default empty_entry (r_entries r !! id) in
          let r := with_entries (<[id := e]> (r_entries r)) r in
          let prev := e_slots e !! key in
          if match prev with Some p => (gen <? sl_generation p)%Z | None => false end
          then (r, Err ErrStaleGeneration)
          else (with_entries (<[id := set_slots (<[key := sl]> (e_slots e)) e]> (r_entries r)) r,
                Ok {| a_id := id; a_key := key; a_slot := sl; a_displaced := prev |})
      end
    end
  end.

(** * Facts *)

(** Whether [e.slots[key] == sl]. *)
Definition holds_slot (key : string) (ptr : nat) (e : entry) : bool :=
  match e_slots e !! key with Some sl => (sl_ptr sl =? ptr)%nat | None => false end.

Definition refresh_slot (id : string) (facts : Facts) (reported merged : gmap string string) (now : Z) (sl : slot) : slot :=
  let old := sl_facts sl in
  if f_Changed facts then
    {| sl_ptr := sl_ptr sl; sl_session := sl_session sl; sl_generation := sl_generation sl;
       sl_fingerprint := f_Fingerprint facts; sl_certSerial := sl_certSerial sl;
       sl_facts := set_cluster id merged (connectedState (f_Cluster facts)) now (ConnectedSince old) (CertNotAfter old)
                     (copyCluster (f_Cluster facts));
       sl_spokeLabels := reported |}
  else
    {| sl_ptr := sl_ptr sl; sl_session := sl_session sl; sl_generation := sl_generation sl;
       sl_fingerprint := sl_fingerprint sl; sl_certSerial := sl_certSerial sl;
       sl_facts := set_cluster (ID old) merged (Cluster_State old) now (ConnectedSince old) (CertNotAfter old) old;
       sl_spokeLabels := sl_spokeLabels sl |}.

(** [applyFacts] for the slot with pointer [ptr]; [spoke] are the labels that
slot kept when the refresh read them. *)
Definition applyFacts (id key : string) (ptr : nat) (spoke : gmap string string) (facts : Facts) (owned : LabelAnswer)
    (now : Z) (r : Registry) : Registry :=
  let reported := if f_Changed facts then Labels (f_Cluster facts) else spoke in
  match mergeLabels owned reported with
  | None => r
  | Some merged =>
    match r_entries r !! id with
    | None => r
    | Some e =>
      if holds_slot key ptr e
      then with_entries (<[id := set_slots (alter (refresh_slot id facts reported merged now) key (e_slots e)) e]> (r_entries r)) r
      else r
    end
  end.

(** * Detaching *)

Definition freeze (now : Z) (c : Cluster) : Cluster :=
  set_cluster (ID c) (Labels c) StateDisconnected now 0 (CertNotAfter c) (copyCluster c).

(** [detachLocked]: the registry and the pool's remaining size. *)
Definition detachLocked (id key : string) (sl : slot) (now : Z) (e : entry) (r : Registry) : Registry * nat :=
  let slots := delete key (e_slots e) in
  if (size slots =? 0)%nat then
    if (r_grace r =? 0)%Z then (with_entries (delete id (r_entries r)) r, 0%nat)
    else (with_entries (<[id := {| e_slots := slots; e_rr := e_rr e; e_lastCluster := freeze now (sl_facts sl) |}]> (r_entries r)) r, 0%nat)
  else (with_entries (<[id := set_slots slots e]> (r_entries r)) r, size slots).

Definition release (id key : string) (ptr : nat) (now : Z) (r : Registry) : Registry :=
  match r_entries r !! id with
  | None => r
  | Some e =>
    match e_slots e !! key with
    | Some sl => if (sl_ptr sl =? ptr)%nat then (detachLocked id key sl now e r).1 else r
    | None => r
    end
  end.

(** * Revocation *)

Record victim := { vi_id : string; vi_key : string; vi_ptr : nat; vi_serial : string }.

(** The snapshot [CloseRevokedBy] takes, over the entries in some order. *)
Definition candidates_of (es : list (string * entry)) : list victim :=
  es ≫= λ '(id, e),
    omap (λ '(key, sl), if String.eqb (sl_certSerial sl) "" then None
                        else Some {| vi_id := id; vi_key := key; vi_ptr := sl_ptr sl; vi_serial := sl_certSerial sl |})
      (map_to_list (e_slots e)).

(** One verdict per distinct serial: the memo of the verdicts so far, the
number of calls made, and the victims. *)
Definition judge_step (isRevoked : string → bool) (acc : gmap string bool * nat * list victim) (c : victim)
  : gmap string bool * nat * list victim :=
  let '(verdict, calls, victims) := acc in
  let '(revoked, verdict, calls) :=
    match verdict !! vi_serial c with
    | Some b => (b, verdict, calls)
    | None => let b := isRevoked (vi_serial c) in (b, <[vi_serial c := b]> verdict, S calls)
    end in
  (verdict, calls, if revoked then (victims ++ [c])%list else victims).

Definition judge (isRevoked : string → bool) (cs : list victim) : gmap string bool * nat * list victim :=
  foldl (judge_step isRevoked) (∅, 0%nat, []) cs.

Definition close_step (now : Z) (acc : Registry * list string) (v : victim) : Registry * list string :=
  let '(r, out) := acc in
  match r_entries r !! vi_id v with
  | None => (r, out)
  | Some e =>
    match e_slots e !! vi_key v with
    | Some sl =>
      if (sl_ptr sl =? vi_ptr v)%nat
      then ((detachLocked (vi_id v) (vi_key v) sl now e r).1, (out ++ [vi_id v])%list)
      else (r, out)
    | None => (r, out)
    end
  end.

(** [closeVictims] under the lock; the sessions of the returned clusters are
closed outside it. *)
Definition closeVictims (victims : list victim) (now : Z) (r : Registry) : Registry * list string :=
  let '(r, out) := foldl (close_step now) (r, []) victims in (r, merge_sort String.le out).

(** [CloseRevokedBy]: the snapshot is taken from [seen], the victims closed in
the registry [r] that is current when the lock is taken. *)
Definition CloseRevokedBy (isRevoked : option (string → bool)) (es : list (string * entry)) (now : Z) (r : Registry)
  : Registry * list string :=
  match isRevoked with
  | None => (r, [])
  | Some isRevoked => closeVictims (judge isRevoked (candidates_of es)).2 now r
  end.

Definition CloseRevoked (serials : list string) (es : list (string * entry)) (now : Z) (r : Registry)
  : Registry * list string :=
  if (length serials =? 0)%nat then (r, [])
  else CloseRevokedBy (Some (λ s, Contains serials s)) es now r.

(** * Reading *)

Definition presentLocked (now : Z) (e : entry) (r : Registry) : bool :=
  (0 <? size (e_slots e))%nat || (Sub now (LastSeen (e_lastCluster e)) <=? r_grace r)%Z.

(** [done s] when session [s] has ended. *)
Definition live_keys (done : nat → bool) (slots : list (string * slot)) : list string :=
  omap (λ '(k, sl), if done (sl_session sl) then None else Some k) slots.
Definition healthy_keys (done : nat → bool) (slots : list (string * slot)) : list string :=
  omap (λ '(k, sl), if done (sl_session sl) then None
                    else if Reachable (Prometheus (sl_facts sl)) then Some k else None) slots.

Definition MaxInt32 : Z := (2 ^ 31 - 1)%Z.

Definition set_rr (n : Z) (e : entry) : entry := {| e_slots := e_slots e; e_rr := n; e_lastCluster := e_lastCluster e |}.

(** [pickLocked]: the key picked, and the entry with its cursor advanced. *)
Definition pick_of (done : nat → bool) (slots : list (string * slot)) (e : entry) : option string * entry :=
  let healthy := healthy_keys done slots in
  let keys := if (0 <? length healthy)%nat then healthy else live_keys done slots in
  if (length keys =? 0)%nat then (None, e)
  else
    let keys := merge_sort String.le keys in
    let e := set_rr (wrap_uint64 (e_rr e + 1)) e in
    let start := Z.land (wrap_uint64 (e_rr e - 1)) MaxInt32 in
    (keys !! Z.to_nat (start mod Z.of_nat (length keys)), e).

Definition pickLocked (done : nat → bool) (e : entry) : option string * entry := pick_of done (map_to_list (e_slots e)) e.

Definition Session (done : nat → bool) (clusterID : string) (now : Z) (r : Registry)
  : Registry * result RegistryError nat :=
  match r_entries r !! clusterID with
  | None => (r, Err ErrUnknownCluster)
  | Some e =>
    if negb (presentLocked now e r) then (r, Err ErrUnknownCluster)
    else
      let '(k, e) := pickLocked done e in
      let r := with_entries (<[clusterID := e]> (r_entries r)) r in
      match k ≫= λ k, e_slots e !! k with
      | None => (r, Err ErrNotConnected)
      | Some sl => (r, Ok (sl_session sl))
      end
  end.

(** The accumulator of [mergedLocked]'s loop. *)
Record Merge := { mg_freshest : option slot; mg_lastSeen : Z; mg_connectedSince : Z; mg_reachable : bool }.

Definition merge_step (m : Merge) (sl : slot) : Merge :=
  {| mg_freshest := match mg_freshest m with
                    | None => Some sl
                    | Some f => if After (LastSeen (sl_facts sl)) (LastSeen (sl_facts f)) then Some sl else Some f
                    end;
     mg_lastSeen := if After (LastSeen (sl_facts sl)) (mg_lastSeen m) then LastSeen (sl_facts sl) else mg_lastSeen m;
     mg_connectedSince := if IsZero (mg_connectedSince m) || Before (ConnectedSince (sl_facts sl)) (mg_connectedSince m)
                          then ConnectedSince (sl_facts sl) else mg_connectedSince m;
     mg_reachable := Reachable (Prometheus (sl_facts sl)) || mg_reachable m |}.

Definition merge_slots (sls : list slot) : Merge :=
  foldl merge_step {| mg_freshest := None; mg_lastSeen := 0; mg_connectedSince := 0; mg_reachable := false |} sls.

(** [mergedLocked] with the slots visited in the given order. *)
Definition merged_of (id : string) (sls : list slot) (e : entry) : Cluster :=
  if (size (e_slots e) =? 0)%nat then copyCluster (e_lastCluster e)
  else
    let m := merge_slots sls in
    let c := match mg_freshest m with Some sl => sl_facts sl | None => zero_Cluster end in
    set_cluster id (Labels c) (if mg_reachable m then StateConnected else StateDegraded) (mg_lastSeen m)
      (mg_connectedSince m) (CertNotAfter c) (copyCluster c).

Definition mergedLocked (id : string) (e : entry) : Cluster := merged_of id ((map_to_list (e_slots e)).*2) e.

Definition Registry_Cluster (clusterID : string) (now : Z) (r : Registry) : option Cluster :=
  match r_entries r !! clusterID with
  | None => None
  | Some e => if presentLocked now e r then Some (mergedLocked clusterID e) else None
  end.

Definition cluster_le (a b : Cluster) : Prop := String.le (ID a) (ID b).

#[export] Instance cluster_le_dec : RelDecision cluster_le.
Proof. intros a b. unfold cluster_le. apply _. Defined.

Definition registry_filter (keep : Cluster → bool) (now : Z) (r : Registry) : list Cluster :=
  merge_sort cluster_le
    (omap (λ '(id, e), if presentLocked now e r
                       then let c := mergedLocked id e in if keep c then Some c else None
                       else None) (map_to_list (r_entries r))).

Definition List_ (now : Z) (r : Registry) : list Cluster := registry_filter (λ _, true) now r.

Definition Visible (p : option Principal) (now : Z) (r : Registry) : list Cluster :=
  match p with
  | None => []
  | Some p =>
    match p_Scope p with
    | None => []
    | Some s => registry_filter (λ c, AllowsCluster (Some s) (ID c) (Labels c)) now r
    end
  end.

Definition LiveCertSerials (r : Registry) : gset string :=
  list_to_set (map_to_list (r_entries r) ≫= λ '(_, e),
    omap (λ '(_, sl), if String.eqb (sl_certSerial sl) "" then None else Some (sl_certSerial sl)) (map_to_list (e_slots e))).

Definition connectedLocked (r : Registry) : nat :=
  length (List.filter (λ e : string * entry, (0 <? size (e_slots e.2))%nat) (map_to_list (r_entries r))).

(** * Eviction and shutdown *)

Definition sweep (now : Z) (r : Registry) : Registry * Z :=
  let '(es, n) := prune_loop (λ _ e, presentLocked now e r) (map_to_list (r_entries r)) (r_entries r) in
  (with_entries es r, n).

(** The sessions to close, and the emptied registry. *)
Definition Registry_Close (r : Registry) : Registry * list (string * nat) :=
  if r_closed r then (r, [])
  else
    ({| r_grace := r_grace r; r_entries := ∅; r_closed := true; r_anonSeq := r_anonSeq r; r_next := r_next r |},
     map_to_list (r_entries r) ≫= λ '(id, e), (λ sl, (id, sl_session sl)) <$> (map_to_list (e_slots e)).*2).

(** * Slots across operations *)

Definition slot_at (r : Registry) (id key : string) : option slot := r_entries r !! id ≫= λ e, e_slots e !! key.

Lemma slot_at_entry r id key sl :
  slot_at r id key = Some sl ↔ ∃ e, r_entries r !! id = Some e ∧ e_slots e !! key = Some sl.
Proof. unfold slot_at. destruct (r_entries r !! id); naive_solver. Qed.

Lemma slot_at_insert r id e id' key :
  slot_at (with_entries (<[id := e]> (r_entries r)) r) id' key = if decide (id' = id) then e_slots e !! key else slot_at r id' key.
Proof.
  unfold slot_at. simpl. case_decide as Hd; [subst; by rewrite lookup_insert_eq|by rewrite lookup_insert_ne].
Qed.

Lemma slot_at_delete r id id' key :
  slot_at (with_entries (delete id (r_entries r)) r) id' key = if decide (id' = id) then None else slot_at r id' key.
Proof.
  unfold slot_at. simpl. case_decide as Hd; [subst; by rewrite lookup_delete_eq|by rewrite lookup_delete_ne].
Qed.

(** Detaching removes the one slot. *)
Lemma detach_slot_at r id key sl now e id' key' :
  r_entries r !! id = Some e →
  slot_at (detachLocked id key sl now e r).1 id' key'
  = if decide (id' = id ∧ key' = key) then None else slot_at r id' key'.
Proof.
  intros He. unfold detachLocked. assert (∀ k, e_slots e !! k = slot_at r id k) as Hsl by (intros k; unfold slot_at; by rewrite He).
  destruct (Nat.eqb_spec (size (delete key (e_slots e))) 0) as [Hz|Hz].
  - apply map_size_empty_iff in Hz. assert (∀ k, k ≠ key → slot_at r id k = None) as Hnone.
    { intros k Hk. rewrite <- Hsl. rewrite <- (lookup_delete_ne _ key k) by done. by rewrite Hz, lookup_empty. }
    destruct (r_grace r =? 0)%Z; simpl.
    + rewrite slot_at_delete. repeat case_decide; naive_solver.
    + rewrite slot_at_insert. simpl. rewrite Hz, lookup_empty. repeat case_decide; naive_solver.
  - simpl. rewrite slot_at_insert. simpl. repeat case_decide; subst; try tauto; try naive_solver.
    + destruct_and!. subst. by rewrite lookup_delete_eq.
    + rewrite lookup_delete_ne by naive_solver. by rewrite Hsl.
Qed.

Lemma detach_frame id key sl now e r :
  r_closed (detachLocked id key sl now e r).1 = r_closed r ∧ r_next (detachLocked id key sl now e r).1 = r_next r
  ∧ r_grace (detachLocked id key sl now e r).1 = r_grace r.
Proof. unfold detachLocked. repeat case_match; done. Qed.

(** Whether a victim names the slot found under its cluster and key. *)
Definition names (v : victim) (id key : string) (sl : slot) : Prop := vi_id v = id ∧ vi_key v = key ∧ vi_ptr v = sl_ptr sl.

#[export] Instance names_dec v id key sl : Decision (names v id key sl).
Proof. unfold names. apply _. Defined.

Lemma close_step_slot now r out v id key sl :
  slot_at (close_step now (r, out) v).1 id key = Some sl ↔ slot_at r id key = Some sl ∧ ¬ names v id key sl.
Proof.
  unfold close_step, names. destruct (r_entries r !! vi_id v) as [e|] eqn:He; simpl.
  2:{ split; [|tauto]. intros Hs. split; [done|]. intros (<- & _). unfold slot_at in Hs. by rewrite He in Hs. }
  destruct (e_slots e !! vi_key v) as [sl0|] eqn:Hsl; simpl.
  2:{ split; [|tauto]. intros Hs. split; [done|]. intros (<- & <- & _). unfold slot_at in Hs. rewrite He in Hs. naive_solver. }
  assert (slot_at r (vi_id v) (vi_key v) = Some sl0) as Hat by (unfold slot_at; by rewrite He).
  destruct (Nat.eqb_spec (sl_ptr sl0) (vi_ptr v)) as [Hp|Hp]; simpl.
  - rewrite detach_slot_at by done. case_decide as Hd; [destruct Hd; subst; split; [done|]; intros [Hs Hn]; exfalso; apply Hn; naive_solver|].
    naive_solver.
  - split; [|tauto]. intros Hs. split; [done|]. intros (<- & <- & Hv). simplify_eq.
Qed.

Lemma close_fold_slot now r out vs id key sl :
  slot_at (foldl (close_step now) (r, out) vs).1 id key = Some sl
  ↔ slot_at r id key = Some sl ∧ ∀ v, v ∈ vs → ¬ names v id key sl.
Proof.
  revert r out. induction vs as [|v vs IH]; intros r out; cbn [foldl].
  { split; [|tauto]. intros Hs. split; [done|]. by intros v ?%elem_of_nil. }
  pose proof (close_step_slot now r out v id key sl) as Hv. destruct (close_step now (r, out) v) as [r' out'].
  rewrite IH. simpl in Hv. rewrite Hv. set_solver.
Qed.

Lemma closeVictims_slot vs now r id key sl :
  slot_at (closeVictims vs now r).1 id key = Some sl
  ↔ slot_at r id key = Some sl ∧ ∀ v, v ∈ vs → ¬ names v id key sl.
Proof.
  unfold closeVictims. pose proof (close_fold_slot now r [] vs id key sl) as Hs.
  destruct (foldl _ _ _). exact Hs.
Qed.

(** ** The verdicts *)

Lemma judge_spec isRevoked cs :
  let '(verdict, calls, victims) := judge isRevoked cs in
  victims = List.filter (λ c, isRevoked (vi_serial c)) cs
  ∧ calls = size verdict ∧ dom verdict = list_to_set (vi_serial <$> cs)
  ∧ map_Forall (λ s b, b = isRevoked s) verdict.
Proof.
  unfold judge. induction cs as [|c cs IH] using rev_ind; [simpl; split_and!; [done|done|set_solver|apply map_Forall_empty]|].
  rewrite foldl_app. cbn [foldl]. destruct (foldl _ _ cs) as [[verdict calls] victims].
  destruct IH as (-> & -> & Hdom & Hall). unfold judge_step. rewrite List.filter_app, fmap_app, list_to_set_app_L. simpl.
  destruct (verdict !! vi_serial c) as [b|] eqn:Hb.
  - rewrite (Hall _ _ Hb). split_and!; [by destruct (isRevoked _); rewrite ?app_nil_r|done| |done].
    assert (vi_serial c ∈ dom verdict) by (by apply elem_of_dom). set_solver.
  - split_and!; [by destruct (isRevoked _); rewrite ?app_nil_r|by rewrite map_size_insert_None| |by apply map_Forall_insert_2].
    rewrite dom_insert_L, Hdom. set_solver.
Qed.

Lemma candidates_spec es v :
  v ∈ candidates_of es ↔
  ∃ id e key sl, (id, e) ∈ es ∧ e_slots e !! key = Some sl ∧ sl_certSerial sl ≠ ""
    ∧ v = {| vi_id := id; vi_key := key; vi_ptr := sl_ptr sl; vi_serial := sl_certSerial sl |}.
Proof.
  unfold candidates_of. rewrite list_elem_of_bind. split.
  - intros ([id e] & Hv & Hin). apply list_elem_of_omap in Hv as ([key sl] & Hsl%elem_of_map_to_list & Hv).
    destruct (String.eqb_spec (sl_certSerial sl) ""); [done|]. injection Hv as <-. exists id, e, key, sl. done.
  - intros (id & e & key & sl & Hin & Hsl & Hne & ->). exists (id, e). split; [|done]. apply list_elem_of_omap.
    exists (key, sl). split; [by apply elem_of_map_to_list|]. by destruct (String.eqb_spec (sl_certSerial sl) "").
Qed.

(** Revocation tears down exactly the revoked sessions.  The snapshot is
taken without the write lock, and the pools may have changed by the time it is
acted on.  Afterwards a session is attached exactly when it was before and is
not one of the snapshot's sessions whose certificate is revoked: every session
of the snapshot with a revoked serial is detached unless it had already left,
a session that replaced one of them keeps its slot, sessions without a serial
are never touched, and the revocation list is asked once per distinct serial. *)
Theorem CloseRevokedBy_correct (isRevoked : string → bool) (es : list (string * entry)) (now : Z) (r : Registry)
    (id key : string) (sl : slot) :
  (slot_at (CloseRevokedBy (Some isRevoked) es now r).1 id key = Some sl
   ↔ slot_at r id key = Some sl
     ∧ ¬ ∃ e sl0, (id, e) ∈ es ∧ e_slots e !! key = Some sl0 ∧ sl_ptr sl0 = sl_ptr sl
                  ∧ sl_certSerial sl0 ≠ "" ∧ isRevoked (sl_certSerial sl0) = true)
  ∧ (judge isRevoked (candidates_of es)).1.2 = size (list_to_set (vi_serial <$> candidates_of es) : gset string).
Proof.
  pose proof (judge_spec isRevoked (candidates_of es)) as Hj. unfold CloseRevokedBy.
  destruct (judge isRevoked (candidates_of es)) as [[verdict calls] victims]. destruct Hj as (-> & -> & Hdom & _). simpl.
  split; [|by rewrite <- Hdom, size_dom]. rewrite closeVictims_slot. apply and_iff_compat_l. split.
  - intros Hno (e & sl0 & Hin & Hsl & Hp & Hne & Hrev).
    apply (Hno {| vi_id := id; vi_key := key; vi_ptr := sl_ptr sl0; vi_serial := sl_certSerial sl0 |}); [|done].
    apply list_elem_of_In, filter_In. split; [|done]. apply list_elem_of_In, candidates_spec. eauto 10.
  - intros Hno v Hv (<- & <- & Hp). apply Hno. apply list_elem_of_In, filter_In in Hv as [Hv Hrev].
    apply list_elem_of_In, candidates_spec in Hv as (id & e & key & sl0 & Hin & Hsl & Hne & ->). simpl in *. eauto 10.
Qed.

(** * Admission *)

Lemma slotKey_frame ident r :
  r_entries (slotKey ident r).2 = r_entries r ∧ r_closed (slotKey ident r).2 = r_closed r
  ∧ r_grace (slotKey ident r).2 = r_grace r ∧ r_next (slotKey ident r).2 = r_next r.
Proof. unfold slotKey. by repeat case_match. Qed.

(** The reconnect race.  Admission succeeds only for a described session
with a certificate identity on an open registry, takes exactly its own slot of
its own cluster, and only from an occupant whose generation is not newer; it
reports the occupant it displaced.  It is refused only for a reason: no session,
identity, description or label answer, a closed registry, or an occupant of a
newer generation.  Whatever the outcome, every other pod's session is where it
was, and a refused session changes no slot at all. *)
Theorem OnSession_correct (session : option nat) (ident : Identity) (early : bool) (described : option Facts) (generation : Z)
    (owned : LabelAnswer) (now : Z) (r r' : Registry) (res : result RegistryError Admission) :
  OnSession session ident early described generation owned now r = (r', res) →
  match res with
  | Ok a =>
    a_id a = id_ClusterID ident ∧ a_id a ≠ "" ∧ r_closed r = false
    ∧ a_key a = (slotKey ident r).1 ∧ a_displaced a = slot_at r (a_id a) (a_key a)
    ∧ (∀ p, a_displaced a = Some p → (sl_generation p ≤ sl_generation (a_slot a))%Z)
    ∧ sl_ptr (a_slot a) = r_next r ∧ sl_certSerial (a_slot a) = id_CertSerial ident
    ∧ ID (sl_facts (a_slot a)) = id_ClusterID ident
    ∧ ∀ id key, slot_at r' id key
                = if decide (id = a_id a ∧ key = a_key a) then Some (a_slot a) else slot_at r id key
  | Err e =>
    (∀ id key, slot_at r' id key = slot_at r id key)
    ∧ match e with
      | ErrRejectedSession => session = None ∨ id_ClusterID ident = "" ∨ described = None ∨ owned = LookupFails
      | ErrRejectedClosed => early = true ∨ r_closed r = true
      | ErrStaleGeneration =>
        ∃ facts p, described = Some facts ∧ slot_at r (id_ClusterID ident) (slotKey ident r).1 = Some p
          ∧ ((if (generation =? 0)%Z then f_Generation facts else generation) < sl_generation p)%Z
      | ErrUnknownCluster | ErrNotConnected => False
      end
  end.
Proof.
  unfold OnSession. destruct session as [session|]; [|intros [= <- <-]; auto].
  destruct (String.eqb_spec (id_ClusterID ident) ""); [intros [= <- <-]; auto|].
  destruct early; [intros [= <- <-]; auto|]. destruct described as [facts|]; [|intros [= <- <-]; auto].
  pose proof (slotKey_frame ident r) as (Hent & Hcl & Hgr & Hnx). destruct (slotKey ident r) as [key r1]. simpl in *.
  assert (∀ id k, slot_at r1 id k = slot_at r id k) as Hsame by (intros; unfold slot_at; by rewrite Hent).
  destruct (clusterFrom _ _ _ _ _) as [cluster|] eqn:Hcf.
  2:{ intros [= <- <-]. split; [done|]. do 3 right. unfold clusterFrom in Hcf. destruct owned; simpl in Hcf; [done|done|].
      by repeat case_match. }
  rewrite Hcl, Hent. destruct (r_closed r) eqn:Hclosed; [intros [= <- <-]; split; [done|by right]|].
  set (e := default empty_entry (r_entries r !! id_ClusterID ident)).
  assert (∀ k, e_slots e !! k = slot_at r (id_ClusterID ident) k) as He.
  { intros k. unfold e, slot_at. destruct (r_entries r !! id_ClusterID ident); simpl; [done|apply lookup_empty]. }
  set (gen := if (generation =? 0)%Z then _ else _). rewrite He.
  destruct (match slot_at r (id_ClusterID ident) key with Some p => _ | None => false end) eqn:Hgen;
    intros Heq; injection Heq as <- <-.
  - split.
    + intros id k. unfold slot_at. simpl. destruct (decide (id = id_ClusterID ident)) as [->|Hne].
      * rewrite lookup_insert_eq. simpl. apply He.
      * by rewrite lookup_insert_ne.
    + destruct (slot_at r (id_ClusterID ident) key) as [p|]; [|done]. exists facts, p. split_and!; [done..|].
      by apply Z.ltb_lt.
  - cbn [a_id a_key a_slot a_displaced sl_ptr sl_certSerial sl_facts sl_generation]. split_and!; try done.
    + intros p Hp. rewrite Hp in Hgen. by apply Z.ltb_ge in Hgen.
    + unfold clusterFrom in Hcf. destruct (mergeLabels _ _); [|done]. by injection Hcf as <-.
    + intros id k. unfold slot_at at 1. simpl. destruct (decide (id = id_ClusterID ident)) as [->|Hne].
      * rewrite insert_insert_eq, lookup_insert_eq. simpl. destruct (decide (k = key)) as [->|Hk].
        -- rewrite lookup_insert_eq, decide_True by done. done.
        -- rewrite lookup_insert_ne, decide_False by naive_solver. apply He.
      * rewrite insert_insert_eq, lookup_insert_ne, decide_False by naive_solver. done.
Qed.

(** ** Slot keys *)

(** Pods never collide.  Two sessions of one cluster are given the same slot
only when they report the same instance, or when neither reports one and they
hold the same certificate; an anonymous session never shares a slot with an
identified one, nor with an anonymous one admitted before the counter wraps. *)
Theorem slotKey_separates (i1 i2 : Identity) (r1 r2 : Registry) :
  (slotKey i1 r1).1 = (slotKey i2 r2).1 ↔
  if decide (id_InstanceID i1 = "" ∧ id_CertSerial i1 = "") then
    id_InstanceID i2 = "" ∧ id_CertSerial i2 = "" ∧ wrap_uint64 (r_anonSeq r1 + 1) = wrap_uint64 (r_anonSeq r2 + 1)
  else id_InstanceID i1 = id_InstanceID i2 ∧ (id_InstanceID i1 = "" → id_CertSerial i1 = id_CertSerial i2).
Proof.
  assert (∀ a b : string, "instance:" +:+ a = "instance:" +:+ b → a = b) as Hi by (intros a b; simpl; by intros [=]).
  assert (∀ a b : string, "cert:" +:+ a = "cert:" +:+ b → a = b) as Hc by (intros a b; simpl; by intros [=]).
  assert (∀ a b : Z, "anon:" +:+ pretty a = "anon:" +:+ pretty b → a = b) as Ha
    by (intros a b; simpl; intros [= Heq]; by apply (inj pretty)).
  unfold slotKey.
  destruct (String.eqb_spec (id_InstanceID i1) "") as [E1|E1], (String.eqb_spec (id_InstanceID i2) "") as [E2|E2];
    destruct (String.eqb_spec (id_CertSerial i1) "") as [F1|F1], (String.eqb_spec (id_CertSerial i2) "") as [F2|F2];
    cbn [negb fst]; case_decide as Hd; try (exfalso; tauto); rewrite ?E1, ?E2;
    (split; [intros Heq; try discriminate Heq|intros Hr]); 
    try (apply Hi in Heq); try (apply Hc in Heq); try (apply Ha in Heq);
    try (destruct_and?); try congruence; try (split_and!; congruence).
  all: match goal with Hx : "" = "" → _ |- _ => specialize (Hx eq_refl) end; congruence.
Qed.

(** * Histories of the registry *)

Inductive RegOp :=
| RO_OnSession (session : option nat) (ident : Identity) (early : bool) (described : option Facts) (generation : Z)
    (owned : LabelAnswer) (now : Z)
| RO_applyFacts (id key : string) (ptr : nat) (spoke : gmap string string) (facts : Facts) (owned : LabelAnswer) (now : Z)
| RO_release (id key : string) (ptr : nat) (now : Z)
| RO_closeVictims (victims : list victim) (now : Z)
| RO_Session (done : nat → bool) (id : string) (now : Z)
| RO_sweep (now : Z)
| RO_Close.

Definition run_op (o : RegOp) (r : Registry) : Registry :=
  match o with
  | RO_OnSession s ident early d g owned now => (OnSession s ident early d g owned now r).1
  | RO_applyFacts id key ptr spoke facts owned now => applyFacts id key ptr spoke facts owned now r
  | RO_release id key ptr now => release id key ptr now r
  | RO_closeVictims vs now => (closeVictims vs now r).1
  | RO_Session done id now => (Session done id now r).1
  | RO_sweep now => (sweep now r).1
  | RO_Close => (Registry_Close r).1
  end.

Definition run_ops (ops : list RegOp) (r : Registry) : Registry := foldl (λ r o, run_op o r) r ops.

(** ** A property of every cluster view *)

Section views.
Context (P : string → Cluster → Prop).

(** [P] holds of the facts of every slot, and of the frozen view of every
empty pool. *)
Definition entry_views (id : string) (e : entry) : Prop :=
  (∀ key sl, e_slots e !! key = Some sl → P id (sl_facts sl)) ∧ (e_slots e = ∅ → P id (e_lastCluster e)).

Definition views (r : Registry) : Prop := map_Forall entry_views (r_entries r).

Lemma views_insert r id e : views r → entry_views id e → views (with_entries (<[id := e]> (r_entries r)) r).
Proof. intros Hv He. by apply map_Forall_insert_2. Qed.

Lemma views_slots r id key sl : views r → slot_at r id key = Some sl → P id (sl_facts sl).
Proof. intros Hv (e & He & Hsl)%slot_at_entry. by apply (proj1 (Hv _ _ He) key). Qed.

(** [P] depends only on the certificate's identity and the labels. *)
Context (P_same : ∀ id c id' lbls st seen since notAfter,
  P id c → id' = ID c → lbls = Labels c → P id (set_cluster id' lbls st seen since notAfter c)).
Context (P_id : ∀ id c, P id c → ID c = id).

Lemma views_detach r id key sl now e :
  views r → r_entries r !! id = Some e → e_slots e !! key = Some sl → views (detachLocked id key sl now e r).1.
Proof.
  intros Hv He Hsl. pose proof (Hv _ _ He) as [Hs _]. unfold detachLocked.
  destruct (Nat.eqb_spec (size (delete key (e_slots e))) 0) as [Hz|Hz].
  - apply map_size_empty_iff in Hz. destruct (r_grace r =? 0)%Z; simpl; [by apply map_Forall_delete|].
    apply views_insert; [done|]. split; simpl.
    + intros k s. by rewrite Hz, lookup_empty.
    + intros _. apply P_same; [|done..]. by eapply Hs.
  - simpl. apply views_insert; [done|]. split; simpl.
    + intros k s [_ Hk]%lookup_delete_Some. by eapply Hs.
    + intros Hz'. by rewrite Hz' in Hz.
Qed.

Lemma views_release id key ptr now r : views r → views (release id key ptr now r).
Proof.
  intros Hv. unfold release. destruct (r_entries r !! id) as [e|] eqn:He; [|done].
  destruct (e_slots e !! key) as [sl|] eqn:Hsl; [|done]. case_match; [by apply views_detach|done].
Qed.

Lemma views_close vs now r : views r → views (closeVictims vs now r).1.
Proof.
  intros Hv. unfold closeVictims. assert (views (foldl (close_step now) (r, []) vs).1) as Hf; [|by destruct (foldl _ _ _)].
  generalize ([] : list string) as out. revert r Hv. induction vs as [|v vs IH]; intros r Hv out; [done|]. cbn [foldl].
  assert (views (close_step now (r, out) v).1) as Hs; [|destruct (close_step now (r, out) v); by apply IH].
  unfold close_step. destruct (r_entries r !! vi_id v) as [e|] eqn:He; [|done].
  destruct (e_slots e !! vi_key v) as [sl|] eqn:Hsl; [|done]. case_match; [by apply views_detach|done].
Qed.

Lemma views_Session done id now r : views r → views (Session done id now r).1.
Proof.
  intros Hv. unfold Session. destruct (r_entries r !! id) as [e|] eqn:He; [|done].
  destruct (presentLocked now e r); [|done]. cbn [negb].
  assert (∀ k e', pickLocked done e = (k, e') → entry_views id e') as Hp.
  { unfold pickLocked, pick_of. intros k e'. case_match; intros [= _ <-]; [by apply Hv|]. exact (Hv _ _ He). }
  destruct (pickLocked done e) as [k e'] eqn:Hpick. specialize (Hp _ _ eq_refl).
  destruct (k ≫= _); by apply views_insert.
Qed.

Lemma sweep_entries now r :
  r_entries (sweep now r).1 = filter (λ x, presentLocked now x.2 r = true) (r_entries r).
Proof.
  unfold sweep. by rewrite prune_loop_spec.
Qed.

Lemma views_sweep now r : views r → views (sweep now r).1.
Proof.
  intros Hv id e. rewrite sweep_entries. intros [He _]%map_lookup_filter_Some. by apply Hv.
Qed.

Lemma views_Close r : views r → views (Registry_Close r).1.
Proof. intros Hv. unfold Registry_Close. destruct (r_closed r); [done|]. apply map_Forall_empty. Qed.

(** The view handed out satisfies [P]. *)
Lemma merge_freshest sls m :
  match mg_freshest (foldl merge_step m sls) with
  | Some sl => sl ∈ sls ∨ mg_freshest m = Some sl
  | None => sls = []
  end.
Proof.
  revert m. induction sls as [|sl sls IH]; intros m; [destruct (mg_freshest m) eqn:Hm; simpl; rewrite Hm; auto|].
  cbn [foldl]. specialize (IH (merge_step m sl)). destruct (mg_freshest (foldl _ _ _)) as [f|] eqn:Hf.
  - destruct IH as [Hin|Hin]; [left; set_solver|]. simpl in Hin. destruct (mg_freshest m) as [g|]; [|left; set_solver].
    case_match; [left; set_solver|by right].
  - exfalso. subst sls. simpl in Hf. by repeat case_match.
Qed.

Lemma views_merged id e : entry_views id e → P id (mergedLocked id e).
Proof.
  intros [Hs Hl]. unfold mergedLocked, merged_of. destruct (Nat.eqb_spec (size (e_slots e)) 0) as [Hz|Hz].
  { apply map_size_empty_iff in Hz. by apply Hl. }
  pose proof (merge_freshest (map_to_list (e_slots e)).*2
    {| mg_freshest := None; mg_lastSeen := 0; mg_connectedSince := 0; mg_reachable := false |}) as Hm.
  unfold merge_slots. destruct (mg_freshest _) as [sl|].
  - destruct Hm as [Hin|]; [|done]. apply list_elem_of_fmap in Hin as ([key sl'] & -> & Hin%elem_of_map_to_list).
    specialize (Hs _ _ Hin). apply P_same; [done| |done]. symmetry. by apply P_id.
  - apply fmap_nil_inv, map_to_list_empty_iff in Hm. by rewrite Hm in Hz.
Qed.

(** What an operation brings in satisfies [P]. *)
Definition op_views (o : RegOp) : Prop :=
  match o with
  | RO_OnSession _ ident _ (Some facts) _ owned now =>
    ∀ c, clusterFrom (id_ClusterID ident) ident (f_Cluster facts) owned now = Some c → P (id_ClusterID ident) c
  | RO_applyFacts id _ _ spoke facts owned now =>
    let reported := if f_Changed facts then Labels (f_Cluster facts) else spoke in
    ∀ merged sl, mergeLabels owned reported = Some merged → P id (sl_facts sl) →
      P id (sl_facts (refresh_slot id facts reported merged now sl))
  | _ => True
  end.

Lemma views_OnSession s ident early d g owned now r :
  views r → op_views (RO_OnSession s ident early d g owned now) → views (OnSession s ident early d g owned now r).1.
Proof.
  intros Hv Hop. unfold OnSession. destruct s as [s|]; [|done]. destruct (String.eqb _ _); [done|]. destruct early; [done|].
  destruct d as [facts|]; [|done]. simpl in Hop. pose proof (slotKey_frame ident r) as (Hent & _).
  destruct (slotKey ident r) as [key r1]. simpl in Hent.
  assert (views r1) as Hv1 by (unfold views; by rewrite Hent).
  destruct (clusterFrom _ _ _ _ _) as [c|]; [|done]. specialize (Hop c eq_refl). cbn [new_slot].
  destruct (r_closed r1) eqn:Hcl; cbn [r_closed]; rewrite ?Hcl; [done|]. cbn [r_entries].
  set (e := default empty_entry (r_entries r1 !! id_ClusterID ident)).
  assert (∀ k sl, e_slots e !! k = Some sl → P (id_ClusterID ident) (sl_facts sl)) as Hs.
  { intros k sl Hk. eapply views_slots; [exact Hv1|]. unfold slot_at. unfold e in Hk.
    destruct (r_entries r1 !! id_ClusterID ident); [done|]. simpl in Hk. by rewrite lookup_empty in Hk. }
  destruct (match e_slots e !! key with Some p => _ | None => false end) eqn:Hgen.
  - cbn [fst]. apply (map_Forall_insert_2 _ _ (id_ClusterID ident) e); [|done]. split; [done|].
    intros Hz. unfold e in *. destruct (r_entries r1 !! id_ClusterID ident) as [e0|] eqn:He0; [by apply (Hv1 _ _ He0)|].
    simpl in Hgen. by rewrite lookup_empty in Hgen.
  - cbn [fst]. unfold views. cbn [r_entries with_entries]. rewrite insert_insert_eq.
    apply map_Forall_insert_2; [|done]. split; cbn [e_slots set_slots].
    + intros k sl. rewrite lookup_insert_Some. intros [[_ <-]|[_ Hk]]; [done|by eapply Hs].
    + intros Hz. by apply insert_non_empty in Hz.
Qed.

Lemma views_applyFacts id key ptr spoke facts owned now r :
  views r → op_views (RO_applyFacts id key ptr spoke facts owned now) → views (applyFacts id key ptr spoke facts owned now r).
Proof.
  intros Hv Hop. unfold applyFacts. simpl in Hop. destruct (mergeLabels _ _) as [merged|]; [|done].
  destruct (r_entries r !! id) as [e|] eqn:He; [|done]. destruct (holds_slot key ptr e); [|done].
  pose proof (Hv _ _ He) as [Hs Hl]. apply views_insert; [done|]. split; cbn [e_slots set_slots].
  - intros k sl. rewrite lookup_alter_Some. intros [(_ & sl0 & Hk & ->)|[_ Hk]]; [|by eapply Hs].
    apply Hop; [done|]. by eapply Hs.
  - intros Hz. apply Hl. apply map_empty. intros k. apply (f_equal (lookup k)) in Hz.
    rewrite lookup_alter, lookup_empty in Hz. case_decide; [subst; by destruct (e_slots e !! k)|done].
Qed.

Lemma views_run ops r : Forall op_views ops → views r → views (run_ops ops r).
Proof.
  revert r. induction ops as [|o ops IH]; intros r Hf Hv; [done|]. apply Forall_cons in Hf as [Ho Hf]. cbn [run_ops foldl].
  apply IH; [done|]. destruct o; cbn [run_op];
    auto using views_OnSession, views_applyFacts, views_release, views_close, views_Session, views_sweep, views_Close.
Qed.

End views.


(** ** Operator labels *)

Lemma foldl_insert_union (m m2 : gmap string string) :
  foldl (λ m '(k, v), <[k := v]> m) m (map_to_list m2) = m2 ∪ m.
Proof.
  rewrite <- (list_to_map_to_list m2) at 2. pose proof (NoDup_fst_map_to_list m2) as Hnd. revert m Hnd.
  generalize (map_to_list m2) as l. induction l as [|[k v] l IH]; intros m Hnd; [simpl; by rewrite map_empty_union|].
  cbn [fmap list_fmap fst] in Hnd. apply NoDup_cons in Hnd as [Hk Hnd]. cbn [foldl]. rewrite IH, list_to_map_cons by done.
  rewrite <- insert_union_l, <- insert_union_r; [done|]. by apply not_elem_of_list_to_map.
Qed.

Lemma mergeLabels_spec owned reported merged :
  mergeLabels owned reported = Some merged ↔
  match owned with NoLookup => merged = reported | LookupFails => False | Owned o => merged = o ∪ reported end.
Proof.
  destruct owned as [| |o]; simpl; [naive_solver|naive_solver|].
  destruct (Nat.eqb_spec (size o) 0) as [Hz|Hz].
  - apply map_size_empty_iff in Hz as ->. rewrite map_empty_union. naive_solver.
  - rewrite !foldl_insert_union, map_union_empty. naive_solver.
Qed.

(** The lookup, asked about [id0] during the operation, answers [L] or fails. *)
Definition asks_operator (id0 : string) (L : gmap string string) (o : RegOp) : Prop :=
  match o with
  | RO_OnSession _ ident _ _ _ owned _ => id_ClusterID ident = id0 → owned = Owned L ∨ owned = LookupFails
  | RO_applyFacts id _ _ _ _ owned _ => id = id0 → owned = Owned L ∨ owned = LookupFails
  | _ => True
  end.

(** A cluster's view carries its certificate's id, and [id0]'s carries [L]. *)
Definition labelled (id0 : string) (L : gmap string string) (id : string) (c : Cluster) : Prop :=
  ID c = id ∧ (id = id0 → L ⊆ Labels c).

Lemma mergeLabels_keeps L owned reported merged :
  owned = Owned L ∨ owned = LookupFails → mergeLabels owned reported = Some merged → L ⊆ merged.
Proof.
  rewrite mergeLabels_spec. intros [-> | ->]; [|done]. intros ->. apply map_union_subseteq_l.
Qed.

Lemma asks_views id0 L o : asks_operator id0 L o → op_views (labelled id0 L) o.
Proof.
  destruct o as [s ident early [facts|] g owned now|id key ptr spoke facts owned now| | | | |]; simpl; try done.
  - intros Ho c Hc. unfold clusterFrom in Hc. destruct (mergeLabels _ _) as [lbls|] eqn:Hm; [|done]. injection Hc as <-.
    split; [done|]. intros Hid. simpl. eapply mergeLabels_keeps; [by apply Ho|done].
  - intros Ho merged sl Hm [Hid _]. unfold refresh_slot.
    split; [by destruct (f_Changed facts)|]. intros ->.
    assert (L ⊆ merged) by (eapply mergeLabels_keeps; [by apply Ho|done]). by destruct (f_Changed facts).
Qed.

Lemma labelled_run id0 L poll pollTimeout sweepInterval grace r iv ops :
  Registry_New poll pollTimeout sweepInterval grace = Some (r, iv) → Forall (asks_operator id0 L) ops →
  views (labelled id0 L) (run_ops ops r).
Proof.
  intros Hnew Hops. apply views_run.
  - unfold labelled. intros id c id' lbls st seen since na [H1 H2] -> ->. by split.
  - eapply Forall_impl; [exact Hops|]. intros o. apply asks_views.
  - unfold Registry_New in Hnew. repeat (case_match; [done|]). injection Hnew as <- _. apply map_Forall_empty.
Qed.

Lemma registry_filter_elem keep now r c :
  c ∈ registry_filter keep now r ↔
  ∃ id e, r_entries r !! id = Some e ∧ presentLocked now e r = true ∧ c = mergedLocked id e ∧ keep c = true.
Proof.
  unfold registry_filter. rewrite merge_sort_Permutation, list_elem_of_omap. split.
  - intros ([id e] & Hin%elem_of_map_to_list & Hc). destruct (presentLocked now e r) eqn:Hp; [|done].
    destruct (keep _) eqn:Hk; [|done]. injection Hc as <-. eauto 10.
  - intros (id & e & He & Hp & -> & Hk). exists (id, e). split; [by apply elem_of_map_to_list|]. by rewrite Hp, Hk.
Qed.

Lemma labelled_merged id0 L id e : entry_views (labelled id0 L) id e → labelled id0 L id (mergedLocked id e).
Proof.
  apply views_merged; [|by intros ? ? []]. unfold labelled. intros id' c id1 lbls st seen since na [H1 H2] -> ->. by split.
Qed.

(** A spoke cannot relabel itself.  After any history of a fresh registry
in which the operator's labels for a cluster are [L], every view of it that the
registry hands out bears the identity of its certificate and all of [L],
whatever its spokes reported; in particular whoever sees it through [Visible]
was admitted on labels that agree with [L]. *)
Theorem operator_labels_win (id0 : string) (L : gmap string string) (poll pollTimeout sweepInterval grace : Z)
    (r : Registry) (iv : Intervals) (ops : list RegOp) (p : option Principal) (now : Z) (c : Cluster) :
  Registry_New poll pollTimeout sweepInterval grace = Some (r, iv) → Forall (asks_operator id0 L) ops →
  let r := run_ops ops r in
  (Registry_Cluster id0 now r = Some c → ID c = id0 ∧ L ⊆ Labels c)
  ∧ (c ∈ List_ now r → ID c = id0 → L ⊆ Labels c ∧ Registry_Cluster id0 now r = Some c)
  ∧ (c ∈ Visible p now r → ID c = id0 →
     L ⊆ Labels c ∧ ∃ p', p = Some p' ∧ AllowsCluster (p_Scope p') id0 (Labels c) = true).
Proof.
  intros Hnew Hops r'. pose proof (labelled_run _ _ _ _ _ _ _ _ _ Hnew Hops) as Hv. fold r' in Hv.
  assert (∀ id e, r_entries r' !! id = Some e → labelled id0 L id (mergedLocked id e)) as Hm
    by (intros id e He; by apply labelled_merged, Hv). split_and!.
  - unfold Registry_Cluster. destruct (r_entries r' !! id0) as [e|] eqn:He; [|done].
    destruct (presentLocked now e r'); [|done]. intros [= <-]. destruct (Hm _ _ He); auto.
  - unfold List_. rewrite registry_filter_elem. intros (id & e & He & Hp & -> & _) Hid.
    destruct (Hm _ _ He) as [H1 H2]. rewrite Hid in H1. subst id. split; [auto|]. unfold Registry_Cluster. by rewrite He, Hp.
  - unfold Visible. destruct p as [p|]; [|by intros ?%elem_of_nil]. destruct (p_Scope p) as [s|] eqn:Hs; [|by intros ?%elem_of_nil].
    rewrite registry_filter_elem. intros (id & e & He & Hp & -> & Hk) Hid.
    destruct (Hm _ _ He) as [H1 H2]. rewrite Hid in H1, Hk. subst id. split; [auto|]. exists p. by rewrite Hs.
Qed.

(** A two-pod cluster admitted and refreshed on an empty registry. *)
Definition pod (instance serial : string) : Identity :=
  {| id_ClusterID := "eu-1"; id_CertSerial := serial; id_CertNotAfter := 1000; id_RemoteAddr := "10.0.0.7"; id_InstanceID := instance |}.
Definition reports (lbls : gmap string string) (up : bool) : Cluster :=
  {| ID := "forged"; DisplayName := ""; Description := ""; Labels := lbls; Cluster_State := StateDisconnected; LastSeen := 0;
     ConnectedSince := 0; AgentVersion := ""; ProtocolVersion := ""; CertNotAfter := 0; Kubernetes := Kubernetes zero_Cluster;
     Prometheus := {| Reachable := up; UnreachableReason := ""; Flavor := ""; prom_Version := ""; Retention := "";
                      ScrapeInterval := ""; LookbackDelta := ""; ExternalLabels := ∅; ActiveSeries := 0; MetricNames := 0;
                      Jobs := []; Namespaces := []; MetricPrefixes := []; RuleGroups := 0; AlertingRules := 0;
                      FiringAlerts := 0; HasAlertmanager := false |} |}.
Definition says (lbls : gmap string string) : Facts :=
  {| f_Fingerprint := "f"; f_Changed := true; f_Cluster := reports lbls true; f_Generation := 1 |}.
Definition fresh_registry : Registry :=
  {| r_grace := DefaultDisconnectGrace; r_entries := ∅; r_closed := false; r_anonSeq := 0; r_next := 0 |}.
Definition env_is (v : string) : gmap string string := {[ "env" := v ]}.

Lemma operator_labels_win_witness :
  let ops := [ RO_OnSession (Some 0) (pod "a" "s1") false (Some (says (env_is "dev"))) 0 (Owned (env_is "prod")) 10;
               RO_OnSession (Some 1) (pod "b" "s2") false (Some (says ∅)) 0 (Owned (env_is "prod")) 11;
               RO_applyFacts "eu-1" "instance:b" 1 ∅ (says (env_is "dev")) (Owned (env_is "prod")) 12;
               RO_release "eu-1" "instance:a" 0 13; RO_sweep 14 ] in
  let c := mergedLocked "eu-1" (default empty_entry (r_entries (run_ops ops fresh_registry) !! "eu-1")) in
  ID c = "eu-1" ∧ env_is "prod" ⊆ Labels c.
Proof.
  intros ops c.
  assert (Registry_New 0 0 0 0 = Some (fresh_registry, {| i_poll := DefaultFactsPollInterval;
    i_pollTimeout := DefaultFactsPollTimeout; i_sweep := Minute |})) as Hnew by (vm_compute; reflexivity).
  assert (Forall (asks_operator "eu-1" (env_is "prod")) ops) as Hops by (repeat constructor).
  refine (proj1 (operator_labels_win "eu-1" (env_is "prod") 0 0 0 0 fresh_registry _ ops None 20 c Hnew Hops) _).
  vm_compute. reflexivity.
Defined.

Lemma OnSession_correct_witness :
  let r1 := (OnSession (Some 0) (pod "a" "s1") false (Some (says ∅)) 5 NoLookup 10 fresh_registry).1 in
  ∃ a, OnSession (Some 1) (pod "a" "s2") false (Some (says ∅)) 6 NoLookup 11 r1
       = ((OnSession (Some 1) (pod "a" "s2") false (Some (says ∅)) 6 NoLookup 11 r1).1, Ok a)
    ∧ a_displaced a = slot_at r1 "eu-1" "instance:a".
Proof.
  intros r1. eexists. split; [vm_compute; reflexivity|].
  refine (proj1 (proj2 (proj2 (proj2 (proj2 (OnSession_correct (Some 1) (pod "a" "s2") false (Some (says ∅)) 6 NoLookup 11 r1 _ (Ok _) _)))))).
  vm_compute. reflexivity.
Defined.

(** * Eviction is invisible *)

Lemma present_mono now now' e r : (now ≤ now')%Z → presentLocked now e r = false → presentLocked now' e r = false.
Proof.
  unfold presentLocked, Sub. intros Hle. rewrite !orb_false_iff, !Z.leb_gt. intros [? ?]. split; [done|].
  unfold min_int64, max_int64 in *. lia.
Qed.

(** Reading through [presentLocked] sees the same entries after a sweep. *)
Lemma sweep_lookup now now' r id : (now ≤ now')%Z →
  (r_entries (sweep now r).1 !! id ≫= λ e, if presentLocked now' e r then Some e else None)
  = (r_entries r !! id ≫= λ e, if presentLocked now' e r then Some e else None).
Proof.
  intros Hle. rewrite sweep_entries. destruct (r_entries r !! id) as [e|] eqn:He.
  - destruct (presentLocked now e r) eqn:Hp.
    + by rewrite (map_lookup_filter_Some_2 _ _ _ e).
    + rewrite map_lookup_filter_None_2; [simpl; by rewrite (present_mono now)|]. right. intros e' Hs. simplify_eq. simpl. congruence.
  - rewrite map_lookup_filter_None_2; [done|by left].
Qed.

Lemma sweep_grace now r : r_grace (sweep now r).1 = r_grace r.
Proof. unfold sweep. by destruct (prune_loop _ _ _). Qed.

Lemma present_sweep now now' e r : presentLocked now' e (sweep now r).1 = presentLocked now' e r.
Proof. unfold presentLocked. by rewrite sweep_grace. Qed.

Lemma Session_answer done id now r :
  (Session done id now r).2 =
  match r_entries r !! id ≫= λ e, if presentLocked now e r then Some e else None with
  | None => Err ErrUnknownCluster
  | Some e => match (pickLocked done e).1 ≫= λ k, e_slots (pickLocked done e).2 !! k with
              | None => Err ErrNotConnected
              | Some sl => Ok (sl_session sl)
              end
  end.
Proof.
  unfold Session. destruct (r_entries r !! id) as [e|]; [|done]. simpl. destruct (presentLocked now e r); [|done]. simpl.
  destruct (pickLocked done e) as [k e']. simpl. by destruct (k ≫= _).
Qed.

(** Visibility does not depend on the sweeper.  An eviction pass at any
time leaves the answers of every later read as they were: the view of each
cluster, the set of clusters listed or visible to a principal, and the session
[Session] hands out or the error it returns. *)
Theorem sweep_is_invisible (now now' : Z) (r : Registry) :
  (now ≤ now')%Z →
  (∀ id, Registry_Cluster id now' (sweep now r).1 = Registry_Cluster id now' r)
  ∧ (∀ done id, (Session done id now' (sweep now r).1).2 = (Session done id now' r).2)
  ∧ (∀ c, c ∈ List_ now' (sweep now r).1 ↔ c ∈ List_ now' r)
  ∧ (∀ p c, c ∈ Visible p now' (sweep now r).1 ↔ c ∈ Visible p now' r).
Proof.
  intros Hle.
  assert (∀ keep c, c ∈ registry_filter keep now' (sweep now r).1 ↔ c ∈ registry_filter keep now' r) as Hf.
  { intros keep c. rewrite !registry_filter_elem. apply exist_proper. intros id.
    pose proof (sweep_lookup now now' r id Hle) as Hl. split; intros (e & He & Hp & Hc & Hk); exists e.
    - rewrite present_sweep in Hp. rewrite He in Hl. simpl in Hl. rewrite Hp in Hl.
      destruct (r_entries r !! id) as [e'|]; [|done]. simpl in Hl. case_match; [|done]. by simplify_eq.
    - rewrite present_sweep. rewrite He in Hl. simpl in Hl. rewrite Hp in Hl.
      destruct (r_entries (sweep now r).1 !! id) as [e'|]; [|done]. simpl in Hl. case_match; [|done]. by simplify_eq. }
  split_and!; [| |intros; apply Hf|].
  - intros id. pose proof (sweep_lookup now now' r id Hle) as Hl. unfold Registry_Cluster.
    destruct (r_entries (sweep now r).1 !! id) as [e|], (r_entries r !! id) as [e'|]; simpl in Hl;
      rewrite ?present_sweep; repeat case_match; congruence.
  - intros done id. rewrite !Session_answer, <- (sweep_lookup now now' r id Hle). f_equal.
    destruct (r_entries (sweep now r).1 !! id); [simpl; by rewrite present_sweep|done].
  - intros [p|] c; simpl; [|done]. destruct (p_Scope p); [apply Hf|done].
Qed.

Lemma sweep_is_invisible_witness :
  let r := run_ops [ RO_OnSession (Some 0) (pod "a" "s1") false (Some (says ∅)) 0 NoLookup 10; RO_release "eu-1" "instance:a" 0 13 ] fresh_registry in
  let now := (DefaultDisconnectGrace + 14)%Z in
  r_entries r ≠ ∅ ∧ (sweep now r).2 = 1%Z ∧ Registry_Cluster "eu-1" now (sweep now r).1 = Registry_Cluster "eu-1" now r.
Proof.
  intros r now. split; [intros He; apply map_size_empty_iff in He; vm_compute in He; discriminate He|].
  split; [vm_compute; reflexivity|]. refine (proj1 (sweep_is_invisible now now r _) "eu-1"). lia.
Defined.

(** * Round robin *)

(** The pods [pickLocked] chooses from: those whose session is live, and of
these the ones that reach Prometheus when there are any. *)
Definition eligible (done : nat → bool) (e : entry) (k : string) : Prop :=
  ∃ sl, e_slots e !! k = Some sl ∧ done (sl_session sl) = false
    ∧ (Reachable (Prometheus (sl_facts sl)) = true
       ∨ ∀ k' sl', e_slots e !! k' = Some sl' → done (sl_session sl') = false → Reachable (Prometheus (sl_facts sl')) = false).

Definition pick_keys (done : nat → bool) (e : entry) : list string :=
  let slots := map_to_list (e_slots e) in
  merge_sort String.le (if (0 <? length (healthy_keys done slots))%nat then healthy_keys done slots else live_keys done slots).

Lemma live_keys_elem done e k :
  k ∈ live_keys done (map_to_list (e_slots e)) ↔ ∃ sl, e_slots e !! k = Some sl ∧ done (sl_session sl) = false.
Proof.
  unfold live_keys. rewrite list_elem_of_omap. split.
  - intros ([k' sl] & Hin%elem_of_map_to_list & Hk). destruct (done _) eqn:Hd; [done|]. injection Hk as <-. eauto.
  - intros (sl & Hsl & Hd). exists (k, sl). split; [by apply elem_of_map_to_list|]. by rewrite Hd.
Qed.

Lemma healthy_keys_elem done e k :
  k ∈ healthy_keys done (map_to_list (e_slots e)) ↔
  ∃ sl, e_slots e !! k = Some sl ∧ done (sl_session sl) = false ∧ Reachable (Prometheus (sl_facts sl)) = true.
Proof.
  unfold healthy_keys. rewrite list_elem_of_omap. split.
  - intros ([k' sl] & Hin%elem_of_map_to_list & Hk). destruct (done _) eqn:Hd; [done|].
    destruct (Reachable _) eqn:Hr; [|done]. injection Hk as <-. eauto.
  - intros (sl & Hsl & Hd & Hr). exists (k, sl). split; [by apply elem_of_map_to_list|]. by rewrite Hd, Hr.
Qed.

Lemma omap_keys_NoDup {A} (f : string * A → option string) (m : gmap string A) :
  (∀ x k, f x = Some k → k = x.1) → NoDup (omap f (map_to_list m)).
Proof.
  intros Hf. pose proof (NoDup_fst_map_to_list m) as Hnd. revert Hnd. generalize (map_to_list m) as l.
  induction l as [|x l IH]; intros Hnd; [constructor|]. cbn [fmap list_fmap] in Hnd. apply NoDup_cons in Hnd as [Hx Hnd].
  cbn [omap list_omap]. destruct (f x) as [k|] eqn:Hk; [|by apply IH]. apply NoDup_cons. split; [|by apply IH].
  rewrite (Hf _ _ Hk). intros (y & Hy & Hfy)%list_elem_of_omap. apply Hx. rewrite (Hf _ _ Hfy). by apply list_elem_of_fmap_2.
Qed.

Lemma pick_keys_spec done e : NoDup (pick_keys done e) ∧ ∀ k, k ∈ pick_keys done e ↔ eligible done e k.
Proof.
  unfold pick_keys. set (h := healthy_keys done (map_to_list (e_slots e))). split.
  - rewrite merge_sort_Permutation. destruct (0 <? length h)%nat; apply omap_keys_NoDup; intros [k sl] k'; simpl;
      by repeat case_match; intros [= <-].
  - intros k. rewrite merge_sort_Permutation. unfold eligible. destruct (Nat.ltb_spec 0 (length h)) as [Hl|Hl].
    + destruct h as [|k0 h'] eqn:Hh; [simpl in Hl; lia|]. assert (k0 ∈ h) as Hk0 by (rewrite Hh; set_solver).
      rewrite <- Hh. apply healthy_keys_elem in Hk0 as (sl0 & H1 & H2 & H3). unfold h. rewrite healthy_keys_elem. split.
      * intros (sl & ? & ? & ?). exists sl. auto.
      * intros (sl & ? & ? & [?|Hno]); [eauto|]. specialize (Hno _ _ H1 H2). congruence.
    + rewrite live_keys_elem. split; [|naive_solver]. intros (sl & ? & ?). exists sl. split_and!; [done..|]. right.
      intros k' sl' Hk' Hd'. destruct (Reachable _) eqn:Hr; [|done]. assert (k' ∈ h) as Hin by (apply healthy_keys_elem; eauto).
      destruct h; [by apply elem_of_nil in Hin|simpl in Hl; lia].
Qed.

Lemma pickLocked_spec done e :
  (0 ≤ e_rr e < 2 ^ 31)%Z →
  pickLocked done e =
  match pick_keys done e with
  | [] => (None, e)
  | _ => (pick_keys done e !! Z.to_nat (e_rr e mod Z.of_nat (length (pick_keys done e))), set_rr (e_rr e + 1) e)
  end.
Proof.
  intros Hrr. unfold pickLocked, pick_of. fold (pick_keys done e).
  set (ks := if (0 <? length (healthy_keys _ _))%nat then _ else _).
  assert (length (pick_keys done e) = length ks) as Hlen by (apply Permutation_length, merge_sort_Permutation).
  change (merge_sort String.le ks) with (pick_keys done e). cbn [e_rr set_rr].
  assert (wrap_uint64 (e_rr e + 1) = e_rr e + 1)%Z as -> by (unfold wrap_uint64; apply Z.mod_small; lia).
  replace (e_rr e + 1 - 1)%Z with (e_rr e) by lia.
  assert (wrap_uint64 (e_rr e) = e_rr e)%Z as -> by (unfold wrap_uint64; apply Z.mod_small; lia).
  assert (Z.land (e_rr e) MaxInt32 = e_rr e)%Z as ->.
  { change MaxInt32 with (Z.ones 31). rewrite Z.land_ones by lia. apply Z.mod_small. lia. }
  destruct (pick_keys done e) eqn:Hp; destruct (Nat.eqb_spec (length ks) 0) as [Hz|Hz]; simpl in *; try lia; done.
Qed.

(** Consecutive picks, while the pool stays as it is. *)
Fixpoint picks (n : nat) (done : nat → bool) (e : entry) : list (option string) :=
  match n with
  | O => []
  | S n => let '(k, e) := pickLocked done e in k :: picks n done e
  end.

Lemma picks_spec n done e : pick_keys done e ≠ [] → (0 ≤ e_rr e)%Z → (e_rr e + Z.of_nat n ≤ 2 ^ 31)%Z →
  picks n done e =
  (λ i, pick_keys done e !! Z.to_nat ((e_rr e + Z.of_nat i) mod Z.of_nat (length (pick_keys done e)))) <$> seq 0 n.
Proof.
  revert e. induction n as [|n IH]; intros e Hne Hlo Hhi; [done|]. cbn [picks]. rewrite pickLocked_spec by lia.
  destruct (pick_keys done e) as [|k0 ks] eqn:Hp; [done|]. cbn [seq fmap list_fmap].
  rewrite (IH (set_rr (e_rr e + 1) e));
    [|change (pick_keys done (set_rr (e_rr e + 1) e)) with (pick_keys done e); by rewrite Hp|simpl; lia..].
  change (pick_keys done (set_rr (e_rr e + 1) e)) with (pick_keys done e). rewrite Hp, Z.add_0_r. f_equal.
  rewrite <- fmap_S_seq, <- list_fmap_compose. apply list_fmap_ext. intros _ i _. unfold compose. cbn [e_rr set_rr].
  do 3 f_equal. lia.
Qed.

Lemma rotate_perm (r : Z) (n : nat) : (0 ≤ r)%Z →
  (λ i, Z.to_nat ((r + Z.of_nat i) mod Z.of_nat n)) <$> seq 0 n ≡ₚ seq 0 n.
Proof.
  intros Hr. apply NoDup_Permutation_bis.
  - apply NoDup_ListNoDup, NoDup_fmap_2_strong; [|apply NoDup_seq]. intros x y Hx%elem_of_seq Hy%elem_of_seq Heq.
    assert (0 < Z.of_nat n)%Z as Hn by lia.
    pose proof (Z.mod_pos_bound (r + Z.of_nat x) _ Hn). pose proof (Z.mod_pos_bound (r + Z.of_nat y) _ Hn).
    apply Z2Nat.inj in Heq; [|lia..].
    pose proof (Z.div_mod (r + Z.of_nat x) (Z.of_nat n)). pose proof (Z.div_mod (r + Z.of_nat y) (Z.of_nat n)).
    set (q1 := ((r + Z.of_nat x) / Z.of_nat n)%Z) in *. set (q2 := ((r + Z.of_nat y) / Z.of_nat n)%Z) in *.
    assert (Z.of_nat n * (q1 - q2) = Z.of_nat x - Z.of_nat y)%Z as Hd by lia.
    assert (q1 - q2 = 0)%Z by nia. nia.
  - by rewrite length_fmap.
  - intros x. rewrite <- !list_elem_of_In, list_elem_of_fmap. intros (i & -> & Hi%elem_of_seq). apply elem_of_seq.
    pose proof (Z.mod_pos_bound (r + Z.of_nat i) (Z.of_nat n)). lia.
Qed.

Lemma lookup_all {A} (l : list A) : (λ i, l !! i) <$> seq 0 (length l) = Some <$> l.
Proof.
  induction l as [|x l IH]; [done|]. cbn [length seq fmap list_fmap]. f_equal.
  by rewrite <- fmap_S_seq, <- list_fmap_compose, <- IH.
Qed.

(** Round robin is fair.  When [l] lists the pods that may be chosen, once
each (the live ones that reach Prometheus, or every live one when none does),
the next [length l] picks of an unchanged pool are those pods, each exactly
once; with no live pod nothing is picked.  The cursor is below its mask. *)
Theorem pickLocked_fair (done : nat → bool) (e : entry) (l : list string) :
  NoDup l → (∀ k, k ∈ l ↔ eligible done e k) →
  (0 ≤ e_rr e)%Z → (e_rr e + Z.of_nat (length l) < 2 ^ 31)%Z →
  picks (length l) done e ≡ₚ Some <$> l ∧ (l = [] ↔ (pickLocked done e).1 = None).
Proof.
  intros Hnd Hl Hlo Hhi. pose proof (pick_keys_spec done e) as [Hnd' Hl'].
  assert (l ≡ₚ pick_keys done e) as Hperm by (apply NoDup_Permutation; [done..|]; intros k; by rewrite Hl, Hl').
  pose proof (Permutation_length Hperm) as Hlen. split.
  - destruct (pick_keys done e) as [|k0 ks] eqn:Hp.
    { apply Permutation_nil_r in Hperm as ->. done. }
    rewrite <- Hp in *. rewrite picks_spec by (rewrite ?Hp; first [done|lia]). rewrite Hlen.
    trans ((λ i, pick_keys done e !! i) <$> ((λ i, Z.to_nat ((e_rr e + Z.of_nat i) mod Z.of_nat (length (pick_keys done e)))) <$> seq 0 (length (pick_keys done e)))).
    { by rewrite <- list_fmap_compose. }
    rewrite rotate_perm by done. rewrite lookup_all. by apply fmap_Permutation.
  - rewrite pickLocked_spec by lia. destruct (pick_keys done e) as [|k0 ks] eqn:Hp.
    { apply Permutation_nil_r in Hperm as ->. done. }
    split; [intros ->; by apply Permutation_nil_l in Hperm|]. intros Hnone. simpl in Hnone.
    exfalso. apply lookup_ge_None in Hnone.
    pose proof (Z.mod_pos_bound (e_rr e) (Z.of_nat (length (k0 :: ks)))). cbn [length] in *. lia.
Qed.

Lemma pickLocked_fair_witness :
  let e := {| e_slots := {[ "a" := {| sl_ptr := 0; sl_session := 0; sl_generation := 1; sl_fingerprint := ""; sl_certSerial := ""; sl_facts := reports ∅ true; sl_spokeLabels := ∅ |};
                            "b" := {| sl_ptr := 1; sl_session := 1; sl_generation := 1; sl_fingerprint := ""; sl_certSerial := ""; sl_facts := reports ∅ true; sl_spokeLabels := ∅ |};
                            "c" := {| sl_ptr := 2; sl_session := 2; sl_generation := 1; sl_fingerprint := ""; sl_certSerial := ""; sl_facts := reports ∅ false; sl_spokeLabels := ∅ |} ]};
              e_rr := 7; e_lastCluster := zero_Cluster |} in
  pick_keys (λ _, false) e = ["a"; "b"] ∧ picks 2 (λ _, false) e = [Some "b"; Some "a"]
  ∧ picks 2 (λ _, false) e ≡ₚ Some <$> ["a"; "b"].
Proof.
  intros e. assert (pick_keys (λ _, false) e = ["a"; "b"]) as Hk by (vm_compute; reflexivity).
  split; [exact Hk|]. split; [vm_compute; reflexivity|].
  refine (proj1 (pickLocked_fair (λ _, false) e ["a"; "b"] _ _ _ _)); [|intros k|vm_compute; done..].
  - rewrite <- Hk. apply pick_keys_spec.
  - rewrite <- Hk. apply pick_keys_spec.
Defined.
