(* ===== verification/Text.v ===== *)
(** Go's strings beyond [Prelude]: searching and cutting ([strings]), UTF-8
([unicode/utf8] and [range] over a string), case folding and [strconv.ParseInt],
as far as the packages modelled here use them. *)

From S2P Require Import Prelude.
Open Scope string_scope.

(** * Searching *)

Fixpoint str_Contains (s sub : string) : bool :=
  HasPrefix s sub || match s with EmptyString => false | String _ s' => str_Contains s' sub end.

Definition byte_val (c : ascii) : Z := Z.of_nat (nat_of_ascii c).

Fixpoint str_exists (f : ascii → bool) (s : string) : bool :=
  match s with EmptyString => false | String c s' => f c || str_exists f s' end.

Definition str_forall (f : ascii → bool) (s : string) : bool := negb (str_exists (λ c, negb (f c)) s).

(** [strings.ContainsAny] for a set of ASCII characters. *)
Definition ContainsAny (s : string) (chars : list ascii) : bool := str_exists (λ c, existsb (Ascii.eqb c) chars) s.

(** [s[n:]] and [s[n:m]]. *)
Fixpoint str_drop (n : nat) (s : string) : string :=
  match n, s with S n, String _ s' => str_drop n s' | _, _ => s end.
Fixpoint str_take (n : nat) (s : string) : string :=
  match n, s with S n, String c s' => String c (str_take n s') | _, _ => EmptyString end.
Definition str_slice (n m : nat) (s : string) : string := str_take (m - n) (str_drop n s).

(** [strings.Cut]. *)
Fixpoint Cut (s sep : string) : option (string * string) :=
  if HasPrefix s sep then Some (EmptyString, str_drop (String.length sep) s)
  else match s with
  | EmptyString => None
  | String c s' => match Cut s' sep with Some (a, b) => Some (String c a, b) | None => None end
  end.

(** [strings.Replace] with [n = 1]. *)
Definition Replace1 (s old new : string) : string :=
  match Cut s old with Some (a, b) => a +:+ new +:+ b | None => s end.

(** [strings.IndexByte]. *)
Fixpoint IndexByte (s : string) (c : ascii) : option nat :=
  match s with EmptyString => None | String d s => if Ascii.eqb d c then Some 0%nat else S <$> IndexByte s c end.

(** [strings.Split] at one byte. *)
Fixpoint SplitByte (s : string) (c : ascii) : list string :=
  match s with
  | EmptyString => [""]
  | String d s =>
    if Ascii.eqb d c then "" :: SplitByte s c
    else match SplitByte s c with part :: parts => String d part :: parts | [] => [String d ""] end
  end.

(** * UTF-8 *)

Definition RuneError : Z := 0xFFFD.

Definition in_range (lo hi : Z) (c : ascii) : bool := (lo <=? byte_val c)%Z && (byte_val c <=? hi)%Z.

(** The size announced by a leading byte, and the range its second byte must
be in. *)
Definition first_byte (c : ascii) : option (nat * Z * Z) :=
  let b := byte_val c in
  if (b <? 0xC2)%Z then None
  else if (b <=? 0xDF)%Z then Some (2%nat, 0x80, 0xBF)%Z
  else if (b =? 0xE0)%Z then Some (3%nat, 0xA0, 0xBF)%Z
  else if (b =? 0xED)%Z then Some (3%nat, 0x80, 0x9F)%Z
  else if (b <=? 0xEF)%Z then Some (3%nat, 0x80, 0xBF)%Z
  else if (b =? 0xF0)%Z then Some (4%nat, 0x90, 0xBF)%Z
  else if (b <=? 0xF3)%Z then Some (4%nat, 0x80, 0xBF)%Z
  else if (b =? 0xF4)%Z then Some (4%nat, 0x80, 0x8F)%Z
  else None.

Definition cont (c : ascii) : Z := Z.land (byte_val c) 0x3F.

(** [utf8.DecodeRuneInString] on a non-empty string: the rune, and what
follows it. *)
Definition DecodeRune (c0 : ascii) (s : string) : Z * string :=
  if (byte_val c0 <? 0x80)%Z then (byte_val c0, s)
  else match first_byte c0, s with
  | Some (n, lo, hi), String c1 s1 =>
    if negb (in_range lo hi c1) then (RuneError, s)
    else if (n =? 2)%nat
    then (Z.lor (Z.shiftl (Z.land (byte_val c0) 0x1F) 6) (cont c1), s1)
    else match s1 with
    | String c2 s2 =>
      if negb (in_range 0x80 0xBF c2) then (RuneError, s)
      else if (n =? 3)%nat
      then (Z.lor (Z.lor (Z.shiftl (Z.land (byte_val c0) 0x0F) 12) (Z.shiftl (cont c1) 6)) (cont c2), s2)
      else match s2 with
      | String c3 s3 =>
        if negb (in_range 0x80 0xBF c3) then (RuneError, s)
        else (Z.lor (Z.lor (Z.lor (Z.shiftl (Z.land (byte_val c0) 0x07) 18) (Z.shiftl (cont c1) 12)) (Z.shiftl (cont c2) 6)) (cont c3), s3)
      | EmptyString => (RuneError, s)
      end
    | EmptyString => (RuneError, s)
    end
  | _, _ => (RuneError, s)
  end.

(** The runes [range] visits, and the elements of [[]rune(s)]; a rune takes at
least one byte, so the length of the string is enough fuel. *)
Fixpoint runes_fuel (n : nat) (s : string) : list Z :=
  match n, s with
  | S n, String c s' => let '(r, rest) := DecodeRune c s' in r :: runes_fuel n rest
  | _, _ => []
  end.
Definition runes (s : string) : list Z := runes_fuel (String.length s) s.

(** [unicode.IsSpace]. *)
Definition IsSpace (r : Z) : bool :=
  ((0x09 <=? r) && (r <=? 0x0D) || (r =? 0x20) || (r =? 0x85) || (r =? 0xA0) || (r =? 0x1680)
   || (0x2000 <=? r) && (r <=? 0x200A) || (r =? 0x2028) || (r =? 0x2029) || (r =? 0x202F) || (r =? 0x205F) || (r =? 0x3000))%Z.

(** [strings.TrimSpace(s) == ""]. *)
Definition blank (s : string) : bool := forallb IsSpace (runes s).

(** [strings.TrimSpace]: the runes with their bytes, without the white space at
both ends. *)
Fixpoint pieces (fuel : nat) (s : string) : list (Z * string) :=
  match fuel, s with
  | S fuel, String c s' =>
    let '(r, rest) := DecodeRune c s' in
    (r, str_take (String.length s - String.length rest) s) :: pieces fuel rest
  | _, _ => []
  end.
Fixpoint drop_spaces (l : list (Z * string)) : list (Z * string) :=
  match l with [] => [] | x :: l' => if IsSpace x.1 then drop_spaces l' else l end.
Definition TrimSpace (s : string) : string :=
  foldr (λ x acc, x.2 +:+ acc) "" (reverse (drop_spaces (reverse (drop_spaces (pieces (String.length s) s))))).

(** [strings.EqualFold] of an ASCII string with any string: the runes pair up
and each pair is in one orbit of [unicode.SimpleFold].  The orbit of an ASCII
rune is its letter's two cases, with U+212A for K and U+017F for S. *)
Definition upper_ascii (r : Z) : Z := if (0x61 <=? r)%Z && (r <=? 0x7A)%Z then (r - 0x20)%Z else r.
Definition fold_ascii (r : Z) : Z :=
  if (r =? 0x212A)%Z then 0x4B else if (r =? 0x17F)%Z then 0x53 else upper_ascii r.
Definition EqualFold (s t : string) : bool :=
  bool_decide (fold_ascii <$> runes s = fold_ascii <$> runes t).

(** * Numbers *)

Definition is_digit (c : ascii) : bool := in_range 0x30 0x39 c.

Fixpoint decimal (acc : Z) (s : string) : Z :=
  match s with EmptyString => acc | String c s' => decimal (acc * 10 + (byte_val c - 0x30)) s' end.

(** [strconv.ParseInt(s, 10, 64)]. *)
Definition ParseInt (s : string) : option Z :=
  let '(neg, body) := match s with
                      | String c s' => if Ascii.eqb c "-" then (true, s') else if Ascii.eqb c "+" then (false, s') else (false, s)
                      | EmptyString => (false, s)
                      end in
  if String.eqb body "" || negb (str_forall is_digit body) then None
  else
    let n := if neg then (- decimal 0 body)%Z else decimal 0 body in
    if (min_int64 <=? n)%Z && (n <=? max_int64)%Z then Some n else None.

(** * Laws *)

Lemma HasPrefix_app p r : HasPrefix (p +:+ r) p = true.
Proof. apply HasPrefix_spec. by exists r. Qed.

Lemma str_drop_app p r : str_drop (String.length p) (p +:+ r) = r.
Proof. induction p; simpl; [by destruct r|done]. Qed.

Lemma str_take_app p r : str_take (String.length p) (p +:+ r) = p.
Proof. induction p; simpl; [done|congruence]. Qed.

Lemma str_slice_mid a b c : str_slice (String.length a) (String.length (a +:+ b +:+ c) - String.length c) (a +:+ b +:+ c) = b.
Proof.
  unfold str_slice. rewrite str_drop_app, !string_length_app.
  replace (_ - _ - _)%nat with (String.length b) by lia. apply str_take_app.
Qed.

Lemma str_exists_app f a b : str_exists f (a +:+ b) = str_exists f a || str_exists f b.
Proof. induction a as [|c a IH]; simpl; [done|]. by rewrite IH, orb_assoc. Qed.

Lemma str_forall_spec f s : str_forall f s = true ↔ ∀ a c b, s = a +:+ String c b → f c = true.
Proof.
  unfold str_forall. rewrite negb_true_iff. induction s as [|c s IH]; simpl.
  - split; [|done]. intros _ a c b Hs. by destruct a.
  - rewrite orb_false_iff, negb_false_iff, IH. split.
    + intros [Hc Hs] a d b Heq. destruct a as [|e a]; simpl in Heq; [by injection Heq as <- _|].
      injection Heq as <- Heq. by eapply Hs.
    + intros Hs. split; [by apply (Hs "" c s)|]. intros a d b ->. by apply (Hs (String c a) d b).
Qed.

Lemma str_forall_impl f g s : (∀ c, f c = true → g c = true) → str_forall f s = true → str_forall g s = true.
Proof. rewrite !str_forall_spec. eauto. Qed.

Lemma str_forall_app f a b : str_forall f (a +:+ b) = str_forall f a && str_forall f b.
Proof. unfold str_forall. by rewrite str_exists_app, negb_orb. Qed.

Lemma str_Contains_spec s sub : str_Contains s sub = true ↔ ∃ a b, s = a +:+ sub +:+ b.
Proof.
  induction s as [|c s IH].
  - cbn [str_Contains]. rewrite orb_false_r, HasPrefix_spec. split.
    + intros [r Hr]. by exists "", r.
    + intros (a & b & Hs). destruct a; [|done]. by exists b.
  - cbn [str_Contains]. rewrite orb_true_iff, HasPrefix_spec, IH. split.
    + intros [[r Hr]|(a & b & ->)]; [by exists "", r|by exists (String c a), b].
    + intros (a & b & Hs). destruct a as [|d a]; [left; by exists b|]. right. injection Hs as <- ->. by exists a, b.
Qed.

(** A suffix no longer than what follows a prefix is a suffix of that. *)
Lemma string_split_suffix p rest a suf :
  p +:+ rest = a +:+ suf → (String.length suf ≤ String.length rest)%nat → ∃ m, rest = m +:+ suf.
Proof.
  revert a. induction p as [|c p IH]; intros a Heq Hlen; [by exists a|].
  destruct a as [|d a].
  - simpl in Heq. subst suf. simpl in Hlen. rewrite string_length_app in Hlen. lia.
  - simpl in Heq. injection Heq as _ Heq. by apply (IH a).
Qed.

(** Two adjacent bytes of a concatenation that share its middle byte. *)
Lemma str_Contains2 a d b x y :
  str_Contains (a +:+ String d b) (String x (String y "")) =
  str_Contains (a +:+ String d "") (String x (String y "")) || str_Contains (String d b) (String x (String y "")).
Proof.
  induction a as [|e a IH].
  - assert (str_Contains (String d "") (String x (String y "")) = false) as Hf.
    { unfold str_Contains, HasPrefix. simpl. by destruct (ascii_dec x d). }
    simpl (_ +:+ _). by rewrite Hf.
  - assert (HasPrefix (String e (a +:+ String d b)) (String x (String y "")) = HasPrefix (String e (a +:+ String d "")) (String x (String y ""))) as Hp.
    { unfold HasPrefix. simpl. destruct (ascii_dec x e); [|done]. destruct a as [|f a]; simpl; destruct (ascii_dec _ _); try done;
        [by destruct b|by destruct (a +:+ _), (a +:+ _)]. }
    simpl (_ +:+ _). cbn [str_Contains]. rewrite Hp, <- orb_assoc. f_equal. exact IH.
Qed.

(** ** UTF-8 *)

(** A byte below 128 is decoded as itself wherever it stands. *)
Lemma DecodeRune_ascii c s c' : (byte_val c' < 0x80)%Z → str_exists (Ascii.eqb c') (String c s) = true →
  let '(r, rest) := DecodeRune c s in r = byte_val c' ∨ str_exists (Ascii.eqb c') rest = true.
Proof.
  intros Hlow. assert (∀ lo hi d, in_range lo hi d = true → (0x80 <= lo)%Z → Ascii.eqb c' d = false) as Hhigh.
  { intros lo hi d Hd Hlo. unfold in_range in Hd. apply andb_true_iff in Hd as [Hd _]. apply Z.leb_le in Hd.
    destruct (Ascii.eqb_spec c' d) as [->|]; [lia|done]. }
  cbn [str_exists]. intros Hin. unfold DecodeRune. destruct (Z.ltb_spec (byte_val c) 0x80) as [Hc|Hc].
  { apply orb_true_iff in Hin as [->%Ascii.eqb_eq|Hin]; auto. }
  assert (Ascii.eqb c' c = false) as Hne by (destruct (Ascii.eqb_spec c' c) as [->|]; [lia|done]). rewrite Hne in Hin. simpl in Hin.
  destruct (first_byte c) as [[[n lo] hi]|] eqn:Hf; [|by right].
  assert (0x80 <= lo)%Z as Hlo by (unfold first_byte in Hf; repeat (case_match; [simplify_eq; lia|]); simplify_eq).
  destruct s as [|c1 s1]; [by right|]. destruct (in_range lo hi c1) eqn:H1; simpl; [|by right].
  pose proof (Hhigh _ _ _ H1 Hlo) as Hn1. cbn [str_exists] in Hin. rewrite Hn1 in Hin. simpl in Hin.
  destruct (n =? 2)%nat; [by right|]. destruct s1 as [|c2 s2]; [done|].
  destruct (in_range 0x80 0xBF c2) eqn:H2; simpl; [|right; cbn [str_exists] in *; by rewrite Hn1].
  pose proof (Hhigh _ _ _ H2 ltac:(lia)) as Hn2. cbn [str_exists] in Hin. rewrite Hn2 in Hin. simpl in Hin.
  destruct (n =? 3)%nat; [by right|]. destruct s2 as [|c3 s3]; [done|].
  destruct (in_range 0x80 0xBF c3) eqn:H3; simpl; [|right; cbn [str_exists] in *; by rewrite Hn1, Hn2].
  pose proof (Hhigh _ _ _ H3 ltac:(lia)) as Hn3. cbn [str_exists] in Hin. rewrite Hn3 in Hin. by right.
Qed.

Lemma DecodeRune_shorter c s : (String.length (DecodeRune c s).2 ≤ String.length s)%nat.
Proof. unfold DecodeRune. repeat case_match; simpl; lia. Qed.

Lemma runes_ascii n s c : (String.length s ≤ n)%nat → (byte_val c < 0x80)%Z → str_exists (Ascii.eqb c) s = true → byte_val c ∈ runes_fuel n s.
Proof.
  revert s. induction n as [|n IH]; intros [|c0 s] Hn Hc Hin; try done; simpl in Hn; [lia|]. cbn [runes_fuel].
  pose proof (DecodeRune_ascii c0 s c Hc Hin) as Hd. pose proof (DecodeRune_shorter c0 s) as Hs.
  destruct (DecodeRune c0 s) as [r rest]. simpl in Hs. destruct Hd as [->|Hd]; [apply list_elem_of_here|].
  apply list_elem_of_further, IH; [lia|done..].
Qed.
