(* ===== verification/Utf8.v ===== *)
(** Writing runes as UTF-8, and that reading undoes it: what [strings.Builder],
[string([]rune)] and [unicode/utf8] do for the packages that rewrite text. *)

From S2P Require Import Prelude Text.
Open Scope string_scope.
Open Scope Z_scope.

(** * Writing runes *)

Definition byte (b : Z) : ascii := ascii_of_nat (Z.to_nat b).

(** [strings.Builder.WriteRune], as [utf8.AppendRune] encodes. *)
Definition EncodeRune (r : Z) : string :=
  let tail k := byte (Z.lor 0x80 (Z.land (Z.shiftr r k) 0x3F)) in
  let three r :=
    String (byte (Z.lor 0xE0 (Z.shiftr r 12)))
      (String (byte (Z.lor 0x80 (Z.land (Z.shiftr r 6) 0x3F))) (String (byte (Z.lor 0x80 (Z.land r 0x3F))) "")) in
  if (0 <=? r) && (r <=? 0x7F) then String (byte r) ""
  else if (0 <=? r) && (r <=? 0x7FF) then String (byte (Z.lor 0xC0 (Z.shiftr r 6))) (String (tail 0) "")
  else if (r <? 0) || (0x10FFFF <? r) || (0xD800 <=? r) && (r <=? 0xDFFF) then three RuneError
  else if r <=? 0xFFFF then three r
  else String (byte (Z.lor 0xF0 (Z.shiftr r 18))) (String (tail 12) (String (tail 6) (String (tail 0) ""))).

Definition utf8 (rs : list Z) : string := foldr (λ r acc, EncodeRune r +:+ acc) "" rs.

(** [utf8.RuneCountInString]. *)
Definition RuneCount (s : string) : Z := Z.of_nat (length (runes s)).

(** [utf8.RuneStart]. *)
Definition RuneStart (c : ascii) : bool := negb (Z.land (byte_val c) 0xC0 =? 0x80).

(** * Reading back *)

Definition scalar (r : Z) : Prop := 0 ≤ r ≤ 0x10FFFF ∧ ¬ 0xD800 ≤ r ≤ 0xDFFF.

Lemma byte_val_range c : 0 ≤ byte_val c < 256.
Proof. unfold byte_val. pose proof (nat_ascii_bounded c). lia. Qed.

Lemma byte_val_byte b : 0 ≤ b < 256 → byte_val (byte b) = b.
Proof. intros Hb. unfold byte_val, byte. rewrite nat_ascii_embedding by lia. lia. Qed.

Lemma byte_byte_val c b : b = byte_val c → byte b = c.
Proof. intros ->. unfold byte_val, byte. rewrite Nat2Z.id. apply ascii_nat_embedding. Qed.

Lemma lor_high k n b : 0 ≤ n → 0 ≤ b < 2 ^ n → Z.lor (k * 2 ^ n) b = k * 2 ^ n + b.
Proof.
  intros Hn Hb. rewrite <- Z.shiftl_mul_pow2 by done.
  assert (Z.land (Z.shiftl k n) b = 0) as Hl.
  { apply Z.bits_inj'. intros i Hi. rewrite Z.land_spec, Z.bits_0. destruct (Z.lt_ge_cases i n).
    - by rewrite Z.shiftl_spec_low.
    - rewrite <- (Z.mod_small b (2 ^ n)), Z.mod_pow2_bits_high, andb_false_r by lia. done. }
  pose proof (Z.lxor_lor _ _ Hl) as Hx. rewrite <- Hx. symmetry. by apply Z.add_nocarry_lxor.
Qed.

Lemma land_low b n : 0 ≤ n → Z.land b (Z.pred (2 ^ n)) = b mod 2 ^ n.
Proof. intros. rewrite <- Z.ones_equiv. by apply Z.land_ones. Qed.

(** A continuation byte, and the payload of one. *)
Lemma tail_byte r : Z.lor 0x80 (Z.land r 0x3F) = 0x80 + r mod 64.
Proof.
  change 0x3F with (Z.pred (2 ^ 6)). rewrite land_low by lia. change 0x80 with (2 * 2 ^ 6). change 64 with (2 ^ 6).
  apply lor_high; [lia|]. by apply Z.mod_pos_bound.
Qed.
Lemma cont_val c : cont c = byte_val c mod 64.
Proof. unfold cont. change 0x3F with (Z.pred (2 ^ 6)). by rewrite land_low. Qed.

(** The encoding, with its bytes as numbers. *)
Lemma EncodeRune_bytes r : scalar r →
  EncodeRune r =
    if r <? 0x80 then String (byte r) ""
    else if r <? 0x800 then String (byte (0xC0 + r / 64)) (String (byte (0x80 + r mod 64)) "")
    else if r <? 0x10000 then
      String (byte (0xE0 + r / 4096)) (String (byte (0x80 + (r / 64) mod 64)) (String (byte (0x80 + r mod 64)) ""))
    else String (byte (0xF0 + r / 262144)) (String (byte (0x80 + (r / 4096) mod 64))
           (String (byte (0x80 + (r / 64) mod 64)) (String (byte (0x80 + r mod 64)) ""))).
Proof.
  intros [Hr Hs]. unfold EncodeRune. rewrite !tail_byte, !Z.shiftr_div_pow2 by lia.
  change (2 ^ 0) with 1. change (2 ^ 6) with 64. change (2 ^ 12) with 4096. change (2 ^ 18) with 262144. rewrite Z.div_1_r.
  rewrite (proj2 (Z.leb_le 0 r)), (proj2 (Z.ltb_ge r 0)), (proj2 (Z.ltb_ge 0x10FFFF r)) by lia. simpl (true && _). simpl (false || _).
  destruct (Z.leb_spec r 0x7F), (Z.ltb_spec r 0x80); try lia; [done|].
  destruct (Z.leb_spec r 0x7FF), (Z.ltb_spec r 0x800); try lia.
  { change 0xC0 with (3 * 2 ^ 6) at 1. rewrite lor_high by (Z.to_euclidean_division_equations; lia). done. }
  assert ((0xD800 <=? r) && (r <=? 0xDFFF) = false) as ->.
  { destruct (Z.leb_spec 0xD800 r), (Z.leb_spec r 0xDFFF); try done. lia. }
  cbn [orb]. destruct (Z.leb_spec r 0xFFFF), (Z.ltb_spec r 0x10000); try lia.
  - change 0xE0 with (14 * 2 ^ 4) at 1. rewrite lor_high by (Z.to_euclidean_division_equations; lia). done.
  - change 0xF0 with (30 * 2 ^ 3) at 1. rewrite lor_high by (Z.to_euclidean_division_equations; lia). done.
Qed.

(** [DecodeRune]'s arithmetic. *)
Lemma decode2 b c : Z.lor (Z.shiftl (Z.land b 0x1F) 6) (cont c) = (b mod 32) * 64 + byte_val c mod 64.
Proof.
  rewrite cont_val, Z.shiftl_mul_pow2 by lia. change 0x1F with (Z.pred (2 ^ 5)). rewrite land_low by lia.
  apply lor_high; [lia|]. by apply Z.mod_pos_bound.
Qed.
Lemma decode3 b c d : Z.lor (Z.lor (Z.shiftl (Z.land b 0x0F) 12) (Z.shiftl (cont c) 6)) (cont d)
  = (b mod 16) * 4096 + (byte_val c mod 64) * 64 + byte_val d mod 64.
Proof.
  rewrite !cont_val, !Z.shiftl_mul_pow2 by lia. change 0x0F with (Z.pred (2 ^ 4)). rewrite land_low by lia.
  pose proof (Z.mod_pos_bound (byte_val c) 64 ltac:(lia)). pose proof (Z.mod_pos_bound (byte_val d) 64 ltac:(lia)).
  rewrite (lor_high _ 12) by lia. replace (_ * 2 ^ 12 + _ * 2 ^ 6) with (((b mod 2 ^ 4) * 64 + byte_val c mod 64) * 2 ^ 6) by lia.
  rewrite (lor_high _ 6) by lia. change (2 ^ 4) with 16. change (2 ^ 6) with 64. lia.
Qed.
Lemma decode4 b c d e :
  Z.lor (Z.lor (Z.lor (Z.shiftl (Z.land b 0x07) 18) (Z.shiftl (cont c) 12)) (Z.shiftl (cont d) 6)) (cont e)
  = (b mod 8) * 262144 + (byte_val c mod 64) * 4096 + (byte_val d mod 64) * 64 + byte_val e mod 64.
Proof.
  rewrite !cont_val, !Z.shiftl_mul_pow2 by lia. change 0x07 with (Z.pred (2 ^ 3)). rewrite land_low by lia.
  pose proof (Z.mod_pos_bound (byte_val c) 64 ltac:(lia)). pose proof (Z.mod_pos_bound (byte_val d) 64 ltac:(lia)).
  pose proof (Z.mod_pos_bound (byte_val e) 64 ltac:(lia)).
  rewrite (lor_high _ 18) by lia. replace (_ * 2 ^ 18 + _ * 2 ^ 12) with (((b mod 2 ^ 3) * 64 + byte_val c mod 64) * 2 ^ 12) by lia.
  rewrite (lor_high _ 12) by lia.
  replace (_ * 2 ^ 12 + _ * 2 ^ 6) with ((((b mod 2 ^ 3) * 64 + byte_val c mod 64) * 64 + byte_val d mod 64) * 2 ^ 6) by lia.
  rewrite (lor_high _ 6) by lia. change (2 ^ 3) with 8. change (2 ^ 6) with 64. lia.
Qed.


(** Every comparison of the goal, with the impossible outcomes closed. *)
Ltac decide_bytes :=
  repeat match goal with
  | |- context [(?a <? ?b)%Z] => destruct (Z.ltb_spec a b); try (exfalso; lia)
  | |- context [(?a <=? ?b)%Z] => destruct (Z.leb_spec a b); try (exfalso; lia)
  | |- context [(?a =? ?b)%Z] => destruct (Z.eqb_spec a b); try (exfalso; lia)
  end.

(** The well-formed sequences: the payload [x], [y], [z], [w] of each byte. *)
Lemma DecodeRune_2 x y s : 2 ≤ x < 32 → 0 ≤ y < 64 → DecodeRune (byte (0xC0 + x)) (String (byte (0x80 + y)) s) = (x * 64 + y, s).
Proof.
  intros. unfold DecodeRune, first_byte, in_range. rewrite decode2, !byte_val_byte by lia. decide_bytes. simpl.
  f_equal. Z.to_euclidean_division_equations; lia.
Qed.

Lemma DecodeRune_3 x y z s : 0 ≤ x < 16 → 0 ≤ y < 64 → 0 ≤ z < 64 → (x = 0 → 32 ≤ y) → (x = 13 → y < 32) →
  DecodeRune (byte (0xE0 + x)) (String (byte (0x80 + y)) (String (byte (0x80 + z)) s)) = (x * 4096 + y * 64 + z, s).
Proof.
  intros. unfold DecodeRune, first_byte, in_range. rewrite decode3, !byte_val_byte by lia. decide_bytes. all: simpl.
  all: f_equal; Z.to_euclidean_division_equations; lia.
Qed.

Lemma DecodeRune_4 x y z w s : 0 ≤ x < 5 → 0 ≤ y < 64 → 0 ≤ z < 64 → 0 ≤ w < 64 → (x = 0 → 16 ≤ y) → (x = 4 → y < 16) →
  DecodeRune (byte (0xF0 + x)) (String (byte (0x80 + y)) (String (byte (0x80 + z)) (String (byte (0x80 + w)) s)))
  = (x * 262144 + y * 4096 + z * 64 + w, s).
Proof.
  intros. unfold DecodeRune, first_byte, in_range. rewrite decode4, !byte_val_byte by lia. decide_bytes. all: simpl.
  all: f_equal; Z.to_euclidean_division_equations; lia.
Qed.

Lemma rune_decode_encode r rest : scalar r → ∃ c s, EncodeRune r = String c s ∧ DecodeRune c (s +:+ rest) = (r, rest).
Proof.
  intros Hr. rewrite EncodeRune_bytes by done. destruct Hr as [Hr Hs].
  destruct (Z.ltb_spec r 0x80); [|destruct (Z.ltb_spec r 0x800); [|destruct (Z.ltb_spec r 0x10000)]]; eexists _, _; (split; [reflexivity|]);
    simpl (_ +:+ _).
  - unfold DecodeRune. rewrite byte_val_byte by lia. by destruct (Z.ltb_spec r 0x80); [|lia].
  - rewrite DecodeRune_2 by (Z.to_euclidean_division_equations; lia). f_equal. Z.to_euclidean_division_equations; lia.
  - rewrite DecodeRune_3 by (Z.to_euclidean_division_equations; lia). f_equal. Z.to_euclidean_division_equations; lia.
  - rewrite DecodeRune_4 by (Z.to_euclidean_division_equations; lia). f_equal. Z.to_euclidean_division_equations; lia.
Qed.

(** Conversely, a rune read without an error is the encoding of that rune. *)
Lemma encode_read c s r rest x : scalar x → String c s = EncodeRune x +:+ rest → DecodeRune c s = (r, rest) → scalar r ∧ String c s = EncodeRune r +:+ rest.
Proof.
  intros Hx Hs Hd. destruct (rune_decode_encode x rest Hx) as (c' & s' & He & Hd'). rewrite He in Hs. simpl in Hs. injection Hs as -> ->.
  rewrite Hd' in Hd. injection Hd as <-. split; [done|]. by rewrite He.
Qed.

Lemma first_byte_2 c lo hi : first_byte c = Some (2%nat, lo, hi) → 0xC2 ≤ byte_val c ≤ 0xDF ∧ lo = 0x80 ∧ hi = 0xBF.
Proof. unfold first_byte. decide_bytes; intros [= <- <-]; lia. Qed.
Lemma first_byte_3 c lo hi : first_byte c = Some (3%nat, lo, hi) →
  0xE0 ≤ byte_val c ≤ 0xEF ∧ 0x80 ≤ lo ∧ hi ≤ 0xBF ∧ (byte_val c = 0xE0 → lo = 0xA0) ∧ (byte_val c = 0xED → hi = 0x9F).
Proof. unfold first_byte. decide_bytes; intros [= <- <-]; lia. Qed.
Lemma first_byte_4 c n lo hi : first_byte c = Some (n, lo, hi) → n ≠ 2%nat → n ≠ 3%nat →
  0xF0 ≤ byte_val c ≤ 0xF4 ∧ 0x80 ≤ lo ∧ hi ≤ 0xBF ∧ (byte_val c = 0xF0 → lo = 0x90) ∧ (byte_val c = 0xF4 → hi = 0x8F).
Proof. unfold first_byte. decide_bytes; intros [= <- <- <-] ??; first [done|lia]. Qed.

Lemma in_range_spec lo hi c : negb (in_range lo hi c) = false ↔ lo ≤ byte_val c ≤ hi.
Proof. unfold in_range. rewrite negb_false_iff, andb_true_iff, !Z.leb_le. done. Qed.

Lemma rune_encode_decode c s r rest : DecodeRune c s = (r, rest) → r ≠ RuneError → scalar r ∧ String c s = EncodeRune r +:+ rest.
Proof.
  intros Hd Hne. pose proof Hd as Hd'. unfold DecodeRune in Hd'. pose proof (byte_val_range c).
  destruct (Z.ltb_spec (byte_val c) 0x80).
  { injection Hd' as <- <-. apply (encode_read _ _ _ _ (byte_val c)); [split; lia| |done]. rewrite EncodeRune_bytes by (split; lia).
    destruct (Z.ltb_spec (byte_val c) 0x80); [|lia]. simpl. f_equal. symmetry. by apply byte_byte_val. }
  destruct (first_byte c) as [[[n lo] hi]|] eqn:Hf; [|by simplify_eq]. destruct s as [|c1 s1]; [by simplify_eq|].
  destruct (negb (in_range lo hi c1)) eqn:H1; [by simplify_eq|]. apply in_range_spec in H1.
  destruct (Nat.eqb_spec n 2) as [->|Hn2].
  { injection Hd' as _ <-. apply first_byte_2 in Hf as (Hb & -> & ->).
    apply (encode_read _ _ _ _ ((byte_val c - 0xC0) * 64 + (byte_val c1 - 0x80))); [split; lia| |done].
    rewrite EncodeRune_bytes by (split; lia). decide_bytes. simpl.
    rewrite (byte_byte_val c), (byte_byte_val c1) by (Z.to_euclidean_division_equations; lia). done. }
  destruct s1 as [|c2 s2]; [by simplify_eq|]. destruct (negb (in_range 0x80 0xBF c2)) eqn:H2; [by simplify_eq|]. apply in_range_spec in H2.
  destruct (Nat.eqb_spec n 3) as [->|Hn3].
  { injection Hd' as _ <-. apply first_byte_3 in Hf as (Hb & ? & ? & ? & ?).
    apply (encode_read _ _ _ _ ((byte_val c - 0xE0) * 4096 + (byte_val c1 - 0x80) * 64 + (byte_val c2 - 0x80))); [split; lia| |done].
    rewrite EncodeRune_bytes by (split; lia). decide_bytes. simpl.
    rewrite (byte_byte_val c), (byte_byte_val c1), (byte_byte_val c2) by (Z.to_euclidean_division_equations; lia). done. }
  destruct s2 as [|c3 s3]; [by simplify_eq|]. destruct (negb (in_range 0x80 0xBF c3)) eqn:H3; [by simplify_eq|]. apply in_range_spec in H3.
  injection Hd' as _ <-. apply first_byte_4 in Hf as (Hb & ? & ? & ? & ?); [|done..].
  apply (encode_read _ _ _ _ ((byte_val c - 0xF0) * 262144 + (byte_val c1 - 0x80) * 4096 + (byte_val c2 - 0x80) * 64 + (byte_val c3 - 0x80))); [split; lia| |done].
  rewrite EncodeRune_bytes by (split; lia). decide_bytes. simpl.
  rewrite (byte_byte_val c), (byte_byte_val c1), (byte_byte_val c2), (byte_byte_val c3) by (Z.to_euclidean_division_equations; lia). done.
Qed.

(** Reading what was written. *)
Lemma runes_fuel_enough n s : (String.length s ≤ n)%nat → runes_fuel n s = runes s.
Proof.
  unfold runes. revert s. cut (∀ k s, (String.length s ≤ k)%nat → ∀ n m, (String.length s ≤ n)%nat → (String.length s ≤ m)%nat → runes_fuel n s = runes_fuel m s).
  { intros H s Hn. by apply (H (String.length s)). }
  intros k. induction k as [|k IH]; intros [|c s] Hk n' m Hn Hm; simpl in *; try lia; try (by destruct n', m).
  destruct n' as [|n'], m as [|m]; try lia. simpl. destruct (DecodeRune c s) as [r rest] eqn:Hd. f_equal.
  pose proof (DecodeRune_shorter c s) as Hsh. rewrite Hd in Hsh. simpl in Hsh.
  apply IH; lia.
Qed.

Lemma runes_encode r s : scalar r → runes (EncodeRune r +:+ s) = r :: runes s.
Proof.
  intros Hr. destruct (rune_decode_encode r s Hr) as (c & t & -> & Hd). unfold runes at 1. simpl. rewrite Hd. f_equal.
  apply runes_fuel_enough. rewrite string_length_app. lia.
Qed.

Lemma runes_utf8 rs s : Forall scalar rs → runes (utf8 rs +:+ s) = (rs ++ runes s)%list.
Proof. induction 1 as [|r rs Hr _ IH]; [done|]. cbn [utf8 foldr]. rewrite string_app_assoc, runes_encode by done. simpl. by f_equal. Qed.

Lemma utf8_app a b : utf8 (a ++ b)%list = utf8 a +:+ utf8 b.
Proof. induction a as [|r a IH]; [done|]. simpl. rewrite string_app_assoc. by f_equal. Qed.

(** The runes other than errors are scalar values. *)
Lemma runes_scalar s : Forall (λ r, r = RuneError ∨ scalar r) (runes s).
Proof.
  unfold runes. generalize (String.length s). intros n. revert s. induction n as [|n IH]; intros [|c s]; simpl; [constructor..|].
  destruct (DecodeRune c s) as [r rest] eqn:Hd. constructor; [|done].
  destruct (decide (r = RuneError)) as [|Hne]; [by left|]. right. by apply (rune_encode_decode c s r rest Hd Hne).
Qed.

(** A string without errors is the encoding of its runes. *)
Lemma utf8_runes s : RuneError ∉ runes s → utf8 (runes s) = s.
Proof.
  unfold runes. cut (∀ n, (String.length s ≤ n)%nat → RuneError ∉ runes_fuel n s → utf8 (runes_fuel n s) = s); [eauto|].
  intros n. revert s. induction n as [|n IH]; intros [|c s] Hn Hin; simpl in *; try done; [lia|].
  destruct (DecodeRune c s) as [r rest] eqn:Hd. apply not_elem_of_cons in Hin as [Hr Hin].
  destruct (rune_encode_decode c s r rest Hd ltac:(done)) as [_ ->]. simpl. f_equal. apply IH; [|done].
  pose proof (DecodeRune_shorter c s) as Hsh. rewrite Hd in Hsh. simpl in Hsh. lia.
Qed.

(** Only ASCII runes are written with ASCII bytes. *)
Definition high (c : ascii) : bool := 0x80 <=? byte_val c.

Lemma encode_ascii r : 0 ≤ r < 0x80 → EncodeRune r = String (byte r) "".
Proof. intros Hr. rewrite EncodeRune_bytes by (split; lia). by destruct (Z.ltb_spec r 0x80); [|lia]. Qed.

Lemma encode_high r : scalar r → 0x80 ≤ r → ∃ c s, EncodeRune r = String c s ∧ high c = true ∧ str_forall high s = true.
Proof.
  intros Hr Hge. rewrite EncodeRune_bytes by done. destruct Hr as [Hr _].
  assert (∀ b, 0x80 ≤ b < 256 → high (byte b) = true) as Hb by (intros; unfold high; rewrite byte_val_byte by lia; lia).
  destruct (Z.ltb_spec r 0x80); [lia|]. unfold str_forall.
  destruct (Z.ltb_spec r 0x800); [|destruct (Z.ltb_spec r 0x10000)]; eexists _, _; (split; [reflexivity|]); cbn [str_exists];
    rewrite !Hb by (Z.to_euclidean_division_equations; lia); done.
Qed.

Lemma RuneCount_utf8 rs : Forall scalar rs → RuneCount (utf8 rs) = Z.of_nat (length rs).
Proof.
  intros Hrs. unfold RuneCount. pose proof (runes_utf8 rs "" Hrs) as H.
  rewrite string_app_nil_r in H. rewrite H, length_app. simpl. lia.
Qed.
