(* ===== verification/Nearest.v ===== *)
(** Suggestions for an unknown cluster: [src/internal/registry/nearest.go].

The working row of [levenshtein] is a list; the inner loop carries the two
values it needs of the previous row and the one just written.  The distance is
compared with its definition: the least number of single-rune edits. *)

From S2P Require Import Prelude Fleet Registry Text.
From stdpp Require Import relations.
Open Scope string_scope.
Open Scope list_scope.
Open Scope nat_scope.

(** * The distance *)

Definition MaxNearestInputRunes : nat := 64.

Definition truncateRunes (s : string) (max : nat) : list Z :=
  let rs := runes s in if max <? length rs then take max rs else rs.

Definition cost (x y : Z) : nat := if (x =? y)%Z then 0 else 1.

(** The inner loop at row [i], where [x] is [a[i-1]]: from [j] on, [prev] and
[left] are the old and the new [row[j-1]], and [row] holds [row[j]] onwards. *)
Fixpoint lev_inner (x : Z) (b : list Z) (prev left : nat) (row : list nat) : list nat :=
  match b, row with
  | y :: b, cur :: row =>
    let v := Nat.min (Nat.min (cur + 1) (left + 1)) (prev + cost x y) in
    v :: lev_inner x b cur v row
  | _, _ => []
  end.

(** The outer loop, [row] on entry to row [i]. *)
Fixpoint lev_outer (i : nat) (a b : list Z) (row : list nat) : list nat :=
  match a with
  | [] => row
  | x :: a =>
    match row with
    | prev :: row => lev_outer (S i) a b (i :: lev_inner x b prev i row)
    | [] => []
    end
  end.

Definition levenshtein (a b : list Z) : nat :=
  let '(a, b) := if length a <? length b then (b, a) else (a, b) in
  if length b =? 0 then length a
  else default 0 (lev_outer 1 a b (seq 0 (S (length b))) !! length b).

(** * Suggestions *)

Record scored := { sc_id : string; sc_dist : nat }.

Definition scored_le (x y : scored) : Prop :=
  sc_dist x < sc_dist y ∨ (sc_dist x = sc_dist y ∧ String.le (sc_id x) (sc_id y)).

#[export] Instance scored_le_dec : RelDecision scored_le.
Proof. intros x y. unfold scored_le. apply _. Defined.

Definition lower_byte (c : ascii) : ascii :=
  if in_range 0x41 0x5A c then ascii_of_nat (nat_of_ascii c + 32) else c.

Fixpoint map_bytes (f : ascii → ascii) (s : string) : string :=
  match s with EmptyString => EmptyString | String c s => String (f c) (map_bytes f s) end.

Section nearest.
(** The case mapping of strings with a byte above 127, from Unicode's tables. *)
Context (unicode_lower : string → string).

(** [strings.ToLower]. *)
Definition ToLower (s : string) : string :=
  if str_forall (in_range 0 0x7F) s then map_bytes lower_byte s else unicode_lower s.

Definition nearest_key (s : string) : list Z := truncateRunes (ToLower s) MaxNearestInputRunes.

(** [Nearest] with the entries visited in the given order. *)
Definition Nearest_of (entries : list (string * entry)) (id : string) (n now : Z) (r : Registry) : list string :=
  if (n <=? 0)%Z then []
  else
    let target := nearest_key id in
    let cands := omap (λ '(cid, e), if negb (presentLocked now e r) then None
                                    else Some {| sc_id := cid; sc_dist := levenshtein target (nearest_key cid) |}) entries in
    let cands := merge_sort scored_le cands in
    let cands := if (n <? Z.of_nat (length cands))%Z then take (Z.to_nat n) cands else cands in
    sc_id <$> cands.

Definition Nearest (id : string) (n now : Z) (r : Registry) : list string :=
  Nearest_of (map_to_list (r_entries r)) id n now r.

End nearest.

(** * Edits *)

(** One insertion, deletion or replacement of a rune. *)
Inductive edit1 : list Z → list Z → Prop :=
| edit_del x l : edit1 (x :: l) l
| edit_ins x l : edit1 l (x :: l)
| edit_sub x y l : edit1 (x :: l) (y :: l)
| edit_later x l k : edit1 l k → edit1 (x :: l) (x :: k).

(** The least number of edits from one text to the other. *)
Definition edit_distance (a b : list Z) (d : nat) : Prop :=
  nsteps edit1 d a b ∧ ∀ m, nsteps edit1 m a b → d ≤ m.

Inductive align : list Z → list Z → nat → Prop :=
| al_nil : align [] [] 0
| al_del x a b n : align a b n → align (x :: a) b (S n)
| al_ins y a b n : align a b n → align a (y :: b) (S n)
| al_sub x y a b n : align a b n → align (x :: a) (y :: b) (n + cost x y).

#[local] Hint Constructors edit1 align : core.

Lemma cost_le x y : cost x y ≤ 1.
Proof. unfold cost. destruct (x =? y)%Z; lia. Qed.

Lemma align_refl a : align a a 0.
Proof.
  induction a as [|x a IH]; [done|]. replace 0 with (0 + cost x x) by (unfold cost; by rewrite Z.eqb_refl). by apply al_sub.
Qed.

Lemma align_sym a b n : align a b n → align b a n.
Proof. intros H. induction H as [| | |x y a b n H IH]; auto. replace (cost x y) with (cost y x); [auto|]. unfold cost. by rewrite Z.eqb_sym. Qed.

Lemma align_app a b n a' b' n' : align a b n → align a' b' n' → align (a ++ a') (b ++ b') (n + n').
Proof.
  intros H H'. induction H as [| | |x y a b n H IH]; simpl; auto.
  replace (n + cost x y + n') with (n + n' + cost x y) by lia. by apply al_sub.
Qed.

Lemma align_rev a b n : align a b n → align (reverse a) (reverse b) n.
Proof.
  intros H. induction H as [|x a b n H IH|y a b n H IH|x y a b n H IH]; rewrite ?reverse_cons; [done|..].
  - rewrite <- (app_nil_r (reverse b)). replace (S n) with (n + 1) by lia. apply align_app; auto.
  - rewrite <- (app_nil_r (reverse a)). replace (S n) with (n + 1) by lia. apply align_app; auto.
  - apply align_app; [done|]. replace (cost x y) with (0 + cost x y) by lia. auto.
Qed.

(** An alignment is a sequence of edits, of its cost. *)
Lemma edits_later x a b n : nsteps edit1 n a b → nsteps edit1 n (x :: a) (x :: b).
Proof. intros H. induction H; [constructor|]. econstructor; [by apply edit_later|done]. Qed.

Lemma align_edits a b n : align a b n → nsteps edit1 n a b.
Proof.
  intros H. induction H as [|x a b n H IH|y a b n H IH|x y a b n H IH]; [constructor|econstructor; [apply edit_del|done]|..].
  - replace (S n) with (n + 1) by lia. apply (nsteps_trans n 1 _ b); [done|]. econstructor; [apply edit_ins|constructor].
  - unfold cost. destruct (Z.eqb_spec x y) as [->|]; [rewrite Nat.add_0_r; by apply edits_later|].
    apply (nsteps_trans n 1 _ (x :: b)); [by apply edits_later|]. econstructor; [apply edit_sub|constructor].
Qed.

(** An edit in front of an alignment costs at most one more. *)
Lemma align_edit a c : edit1 a c → ∀ b n, align c b n → ∃ m, m ≤ S n ∧ align a b m.
Proof.
  intros He. induction He as [x l|x l|x y l|x l k He IHe]; intros b n H.
  - eauto.
  - remember (x :: l) as c eqn:Hc. revert x l Hc. induction H as [|x' a b n H IH|y a b n H IH|x' y a b n H IH]; intros x l Hc; simplify_eq.
    + exists n. auto.
    + destruct (IH x l eq_refl) as (m & Hm & Hal). exists (S m). split; [lia|auto].
    + exists (S n). split; [lia|auto].
  - remember (y :: l) as c eqn:Hc. revert y l Hc. induction H as [|x' a b n H IH|z a b n H IH|x' z a b n H IH]; intros y l Hc; simplify_eq.
    + exists (S n). auto.
    + destruct (IH y l eq_refl) as (m & Hm & Hal). exists (S m). split; [lia|auto].
    + exists (n + cost x z). pose proof (cost_le x z). split; [lia|auto].
  - remember (x :: k) as c eqn:Hc. revert x k l He IHe Hc.
    induction H as [|x' a b n H IH|z a b n H IH|x' z a b n H IH]; intros x k l He IHe Hc; simplify_eq.
    + destruct (IHe _ _ H) as (m & Hm & Hal). exists (S m). split; [lia|auto].
    + destruct (IH x k l He IHe eq_refl) as (m & Hm & Hal). exists (S m). split; [lia|auto].
    + destruct (IHe _ _ H) as (m & Hm & Hal). exists (m + cost x z). split; [lia|auto].
Qed.

Lemma edits_align a b n : nsteps edit1 n a b → ∃ m, m ≤ n ∧ align a b m.
Proof.
  intros H. induction H as [a|n a c b He H (m & Hm & Hal)]; [exists 0; split; [done|apply align_refl]|].
  destruct (align_edit _ _ He _ _ Hal) as (m' & Hm' & Hal'). exists m'. split; [lia|done].
Qed.

(** ** The recursive distance *)

Fixpoint lev (a : list Z) : list Z → nat :=
  match a with
  | [] => λ b, length b
  | x :: a => fix go b :=
      match b with
      | [] => S (length a)
      | y :: b' => Nat.min (Nat.min (lev a b + 1) (go b' + 1)) (lev a b' + cost x y)
      end
  end.

Lemma lev_nil_r a : lev a [] = length a.
Proof. by destruct a. Qed.

Lemma lev_cons x a y b :
  lev (x :: a) (y :: b) = Nat.min (Nat.min (lev a (y :: b) + 1) (lev (x :: a) b + 1)) (lev a b + cost x y).
Proof. done. Qed.

Lemma lev_align a b : align a b (lev a b).
Proof.
  revert b. induction a as [|x a IHa]; intros b; [induction b; simpl; auto|].
  induction b as [|y b IHb]; [rewrite lev_nil_r; specialize (IHa []); rewrite lev_nil_r in IHa; simpl; auto|].
  rewrite lev_cons.
  destruct (Nat.min_spec (Nat.min (lev a (y :: b) + 1) (lev (x :: a) b + 1)) (lev a b + cost x y)) as [[_ ->]|[_ ->]]; [|auto].
  destruct (Nat.min_spec (lev a (y :: b) + 1) (lev (x :: a) b + 1)) as [[_ ->]|[_ ->]]; rewrite Nat.add_1_r; auto.
Qed.

Lemma lev_least a b n : align a b n → lev a b ≤ n.
Proof.
  intros H. induction H as [|x a b n H IH|y a b n H IH|x y a b n H IH]; [done|..].
  - destruct b as [|y b]; [rewrite lev_nil_r in *; simpl; lia|]. rewrite lev_cons. lia.
  - destruct a as [|x a]; [simpl in *; lia|]. rewrite lev_cons. lia.
  - rewrite lev_cons. lia.
Qed.

Lemma lev_unique a b n : align a b n → (∀ m, align a b m → n ≤ m) → n = lev a b.
Proof. intros H Hmin. pose proof (lev_least _ _ _ H). pose proof (Hmin _ (lev_align a b)). lia. Qed.

Lemma lev_sym a b : lev a b = lev b a.
Proof. symmetry. apply lev_unique; [apply align_sym, lev_align|]. intros m Hm. by apply lev_least, align_sym. Qed.

Lemma lev_reverse a b : lev (reverse a) (reverse b) = lev a b.
Proof.
  apply lev_unique; [rewrite <- (reverse_involutive a), <- (reverse_involutive b) at 1; apply align_rev, lev_align|].
  intros m Hm. by apply lev_least, align_rev.
Qed.

Lemma lev_distance a b : edit_distance a b (lev a b).
Proof.
  split; [apply align_edits, lev_align|]. intros m (m' & Hm & Hal)%edits_align. etrans; [by apply lev_least|done].
Qed.

(** ** The loops *)

(** The row for the runes [ra] read so far, latest first: its entries at the
prefixes of [b], of which [rb] has been passed. *)
Fixpoint spec_row (ra rb b : list Z) : list nat :=
  match b with
  | [] => []
  | y :: b => lev ra (y :: rb) :: spec_row ra (y :: rb) b
  end.

Lemma inner_spec x ra rb b : lev_inner x b (lev ra rb) (lev (x :: ra) rb) (spec_row ra rb b) = spec_row (x :: ra) rb b.
Proof.
  revert rb. induction b as [|y b IH]; intros rb; [done|]. cbn [spec_row lev_inner]. rewrite <- lev_cons. f_equal. apply IH.
Qed.

Lemma outer_spec a ra b :
  lev_outer (S (length ra)) a b (length ra :: spec_row ra [] b)
  = (length ra + length a) :: spec_row (reverse a ++ ra) [] b.
Proof.
  revert ra. induction a as [|x a IH]; intros ra; [simpl; by rewrite Nat.add_0_r|]. cbn [lev_outer].
  pose proof (inner_spec x ra [] b) as Hin. rewrite !lev_nil_r in Hin. change (length (x :: ra)) with (S (length ra)) in Hin. rewrite Hin.
  specialize (IH (x :: ra)). simpl in IH. rewrite IH. rewrite reverse_cons, <- app_assoc. simpl. f_equal. lia.
Qed.

Lemma spec_row_start rb b : spec_row [] rb b = seq (S (length rb)) (length b).
Proof. revert rb. induction b as [|y b IH]; intros rb; [done|]. cbn [spec_row length seq]. by rewrite IH. Qed.

Lemma spec_row_last ra rb b : b ≠ [] → spec_row ra rb b !! (length b - 1) = Some (lev ra (reverse b ++ rb)).
Proof.
  revert rb. induction b as [|y b IH]; intros rb Hb; [done|]. destruct b as [|z b]; [done|].
  replace (length (y :: z :: b) - 1) with (S (length (z :: b) - 1)) by (simpl; lia). 
  etrans; [exact (IH (y :: rb) ltac:(done))|]. do 2 f_equal. by rewrite (reverse_cons (z :: b)), <- app_assoc.
Qed.

Lemma levenshtein_lev a b : levenshtein a b = lev a b.
Proof.
  unfold levenshtein.
  assert (∀ a b, (if length b =? 0 then length a else default 0 (lev_outer 1 a b (seq 0 (S (length b))) !! length b)) = lev a b) as Hc.
  { clear a b. intros a b. destruct (Nat.eqb_spec (length b) 0) as [Hb|Hb].
    - apply nil_length_inv in Hb as ->. by rewrite lev_nil_r.
    - pose proof (outer_spec a [] b) as Ho. rewrite spec_row_start in Ho. cbn [length] in Ho. cbn [seq]. rewrite Ho, app_nil_r.
      destruct (length b) as [|k] eqn:Hk; [done|]. rewrite lookup_cons.
      pose proof (spec_row_last (reverse a) [] b) as Hl. rewrite Hk, app_nil_r in Hl.
      replace (S k - 1) with k in Hl by lia. rewrite Hl by (by intros ->). apply lev_reverse. }
  destruct (length a <? length b); rewrite Hc; [apply lev_sym|done].
Qed.

(** * The suggestions *)

Section suggestions.
Context (unicode_lower : string → string) (id : string) (now : Z) (r : Registry).

Definition known (x : string) : Prop := ∃ e, r_entries r !! x = Some e ∧ presentLocked now e r = true.

(** [x] is to be suggested before [y]: fewer edits away, ties by name. *)
Definition nearer (x y : string) : Prop :=
  ∃ dx dy, edit_distance (nearest_key unicode_lower id) (nearest_key unicode_lower x) dx
    ∧ edit_distance (nearest_key unicode_lower id) (nearest_key unicode_lower y) dy
    ∧ (dx < dy ∨ (dx = dy ∧ String.le x y)).

Definition score (x : string) : scored :=
  {| sc_id := x; sc_dist := levenshtein (nearest_key unicode_lower id) (nearest_key unicode_lower x) |}.

Definition candidates (entries : list (string * entry)) : list scored :=
  omap (λ '(cid, e), if negb (presentLocked now e r) then None else Some (score cid)) entries.

#[local] Instance scored_le_trans : Transitive scored_le.
Proof.
  intros x y z [Hxy|[Hxy Hs]] [Hyz|[Hyz Hs']]; unfold scored_le; try (left; lia). right. split; [lia|].
  by transitivity (sc_id y).
Qed.

#[local] Instance scored_le_total : Total scored_le.
Proof.
  intros x y. unfold scored_le. destruct (total String.le (sc_id x) (sc_id y));
    destruct (Nat.lt_trichotomy (sc_dist x) (sc_dist y)) as [|[|]]; auto.
Qed.

Lemma candidates_elem entries s : entries ≡ₚ map_to_list (r_entries r) →
  s ∈ candidates entries ↔ ∃ x, known x ∧ s = score x.
Proof.
  intros Hp. unfold candidates, known. rewrite list_elem_of_omap. split.
  - intros ([x e] & Hin & Hs). rewrite Hp, elem_of_map_to_list in Hin. destruct (presentLocked now e r) eqn:Hpr; [|done].
    injection Hs as <-. eauto.
  - intros (x & (e & He & Hpr) & ->). exists (x, e). rewrite Hp, elem_of_map_to_list. split; [done|]. by rewrite Hpr.
Qed.

Lemma candidates_NoDup entries : entries ≡ₚ map_to_list (r_entries r) → NoDup (sc_id <$> candidates entries).
Proof.
  intros Hp%map_entries_NoDup. unfold candidates. induction entries as [|[x e] es IH]; [constructor|].
  cbn [fmap list_fmap fst] in Hp. apply NoDup_cons in Hp as [Hx Hp]. cbn [omap list_omap].
  destruct (presentLocked now e r); simpl; [|by apply IH]. apply NoDup_cons. split; [|by apply IH].
  intros (s & Hs & Hin)%list_elem_of_fmap. apply list_elem_of_omap in Hin as ([y e'] & Hin & Hy). case_match; [done|].
  simplify_eq. apply Hx. by apply (list_elem_of_fmap_2 fst) in Hin.
Qed.

Lemma score_nearer x y : scored_le (score x) (score y) → nearer x y.
Proof.
  intros H. exists (sc_dist (score x)), (sc_dist (score y)). simpl. rewrite !levenshtein_lev.
  split_and!; [apply lev_distance..|]. rewrite <- !levenshtein_lev. exact H.
Qed.

(** The sorted candidates, cut at [k]. *)
Lemma sorted_scores entries : entries ≡ₚ map_to_list (r_entries r) →
  let s := merge_sort scored_le (candidates entries) in
  StronglySorted scored_le s ∧ NoDup (sc_id <$> s) ∧ (∀ x, x ∈ sc_id <$> s ↔ known x) ∧ s = score <$> (sc_id <$> s).
Proof.
  intros Hp s. pose proof (merge_sort_Permutation scored_le (candidates entries)) as Hs. fold s in Hs. split_and!.
  - apply Sorted_StronglySorted; [apply _|]. apply (Sorted_merge_sort scored_le).
  - rewrite Hs. by apply candidates_NoDup.
  - intros x. rewrite Hs, list_elem_of_fmap. split.
    + intros (c & -> & Hc). apply candidates_elem in Hc as (y & Hy & ->); done.
    + intros Hx. exists (score x). split; [done|]. apply candidates_elem; eauto.
  - rewrite <- list_fmap_compose. symmetry. rewrite <- (list_fmap_id s) at 2. apply list_fmap_ext. intros i c Hc.
    apply list_elem_of_lookup_2 in Hc. rewrite Hs in Hc. apply candidates_elem in Hc as (y & _ & ->); done.
Qed.

Lemma StronglySorted_scores l : StronglySorted scored_le (score <$> l) → StronglySorted nearer l.
Proof.
  induction l as [|x l IH]; intros H; [constructor|]. cbn [fmap list_fmap] in H. apply StronglySorted_inv in H as [H Hall].
  constructor; [by apply IH|]. apply Forall_forall. intros y Hy. rewrite Forall_forall in Hall. by apply score_nearer, Hall, list_elem_of_fmap_2.
Qed.

End suggestions.

(** Did-you-mean suggests the nearest clusters.  Whatever order the entries
are visited in, the suggestions are distinct clusters that are present, at most
[n] of them, each nearer than the ones after it, and a present cluster is left
out only when [n] were found that are all nearer.  Nearness is the least number
of single-rune edits between the folded names, ties broken by name. *)
Theorem Nearest_correct (unicode_lower : string → string) (entries : list (string * entry)) (id : string) (n now : Z)
    (r : Registry) (out : list string) :
  entries ≡ₚ map_to_list (r_entries r) → Nearest_of unicode_lower entries id n now r = out →
  NoDup out ∧ (∀ x, x ∈ out → known now r x) ∧ (Z.of_nat (length out) ≤ Z.max 0 n)%Z
  ∧ StronglySorted (nearer unicode_lower id) out
  ∧ (0 < n → ∀ y, known now r y → y ∉ out → Z.of_nat (length out) = n ∧ ∀ x, x ∈ out → nearer unicode_lower id x y)%Z.
Proof.
  intros Hp <-. unfold Nearest_of. destruct (Z.leb_spec n 0) as [Hn|Hn].
  { split_and!; [constructor|by intros x ?%elem_of_nil|simpl; lia|constructor|lia]. }
  pose proof (sorted_scores unicode_lower id now r entries Hp) as (Hsort & Hnd & Hin & Hsc).
  change (omap _ entries) with (candidates unicode_lower id now r entries).
  set (s := merge_sort scored_le (candidates unicode_lower id now r entries)) in *. set (names := sc_id <$> s) in *.
  assert ((if (n <? Z.of_nat (length s))%Z then take (Z.to_nat n) s else s) = take (Z.to_nat n) s) as ->.
  { destruct (Z.ltb_spec n (Z.of_nat (length s))); [done|]. rewrite take_ge by lia. done. }
  rewrite fmap_take. fold names. assert (length names = length s) as Hlen by (apply length_fmap).
  assert (StronglySorted (nearer unicode_lower id) names) as Hss by (apply StronglySorted_scores; by rewrite <- Hsc).
  rewrite <- (take_drop (Z.to_nat n) names) in Hss, Hnd. split_and!.
  - by apply NoDup_app in Hnd as (? & _).
  - intros x Hx. apply Hin. rewrite <- (take_drop (Z.to_nat n) names). apply elem_of_app. by left.
  - rewrite length_take. lia.
  - by eapply StronglySorted_app_1_l.
  - intros _ y Hy Hout. apply Hin in Hy. rewrite <- (take_drop (Z.to_nat n) names) in Hy.
    apply elem_of_app in Hy as [Hy|Hy]; [done|]. split.
    + assert (drop (Z.to_nat n) names ≠ []) as Hne by (intros He; rewrite He in Hy; by apply elem_of_nil in Hy).
      rewrite length_take. pose proof (length_drop names (Z.to_nat n)).
      destruct (drop (Z.to_nat n) names); [done|]. simpl in *. lia.
    + intros x Hx. by eapply StronglySorted_app_1_elem_of.
Qed.

Definition known_entry : entry := {| e_slots := ∅; e_rr := 0; e_lastCluster := zero_Cluster |}.
Definition some_registry : Registry :=
  {| r_grace := DefaultDisconnectGrace;
     r_entries := {[ "prod-eu" := known_entry; "prod-us" := known_entry; "staging" := known_entry ]};
     r_closed := false; r_anonSeq := 0; r_next := 0 |}.

Lemma Nearest_correct_witness :
  Nearest (λ s, s) "Prod-EU1" 2 0 some_registry = ["prod-eu"; "prod-us"]
  ∧ StronglySorted (nearer (λ s, s) "Prod-EU1") (["prod-eu"; "prod-us"] : list string)
  ∧ nearer (λ s, s) "Prod-EU1" "prod-us" "staging".
Proof.
  assert (Nearest_of (λ s, s) (map_to_list (r_entries some_registry)) "Prod-EU1" 2 0 some_registry = ["prod-eu"; "prod-us"]) as He
    by (vm_compute; reflexivity).
  split; [exact He|].
  destruct (Nearest_correct (λ s, s) (map_to_list (r_entries some_registry)) "Prod-EU1" 2 0 some_registry _ (Permutation_refl _) He)
    as (_ & _ & _ & Hs & Hleft). split; [exact Hs|].
  assert (known 0 some_registry "staging") as Hk by (exists known_entry; split; vm_compute; reflexivity).
  assert (¬ "staging" ∈ (["prod-eu"; "prod-us"] : list string)) as Hn by (apply (bool_decide_unpack _); vm_compute; exact I).
  assert ("prod-us" ∈ (["prod-eu"; "prod-us"] : list string)) as Hi by (apply (bool_decide_unpack _); vm_compute; exact I).
  exact (proj2 (Hleft (eq_refl : (0 < 2)%Z) "staging" Hk Hn) "prod-us" Hi).
Defined.
