(* ===== verification/PromApi.v ===== *)
(** The allow-list of Prometheus calls: [src/internal/promapi/promapi.go].

The table of routes, the construction of request paths on the hub, the
resolution of a received path on the spoke, and the validation of parameters.
Go maps are visited in some order, given as a list.  The parsers of
[time.Parse] and [strconv.ParseFloat] are arguments; error texts are not
modelled, errors are the sentinels they wrap. *)

From S2P Require Import Prelude Text.
From Stdlib Require Import Floats.PrimFloat.
Open Scope string_scope.

(** * Data *)

Inductive PromError := ErrUnknownEndpoint | ErrEndpointGated | ErrInvalidParam | ErrInvalidLabelName.

Definition Endpoint : Type := string.

Inductive ParamKind :=
| KindPromQL | KindTime | KindDuration | KindMatcher | KindLabelName | KindMetricName | KindInt | KindEnum.

#[export] Instance ParamKind_eq_dec : EqDecision ParamKind.
Proof. solve_decision. Defined.

Record Param := {
  pa_Name : string;
  pa_Kind : ParamKind;
  pa_Required : bool;
  pa_Repeated : bool;
  pa_Enum : list string
}.

Record Route := {
  ro_Endpoint : Endpoint;
  ro_Method : string;
  ro_PathTemplate : string;
  ro_Params : list Param;
  ro_Gated : bool
}.

#[export] Instance Param_eq_dec : EqDecision Param.
Proof. solve_decision. Defined.
#[export] Instance Route_eq_dec : EqDecision Route.
Proof. solve_decision. Defined.

Definition HasPathParam (r : Route) : bool := str_Contains (ro_PathTemplate r) "{label}".

(** * The table *)

Definition param (name : string) (k : ParamKind) : Param :=
  {| pa_Name := name; pa_Kind := k; pa_Required := false; pa_Repeated := false; pa_Enum := [] |}.
Definition required (p : Param) : Param :=
  {| pa_Name := pa_Name p; pa_Kind := pa_Kind p; pa_Required := true; pa_Repeated := pa_Repeated p; pa_Enum := pa_Enum p |}.
Definition repeated (p : Param) : Param :=
  {| pa_Name := pa_Name p; pa_Kind := pa_Kind p; pa_Required := pa_Required p; pa_Repeated := true; pa_Enum := pa_Enum p |}.
Definition enum (name : string) (vs : list string) : Param :=
  {| pa_Name := name; pa_Kind := KindEnum; pa_Required := false; pa_Repeated := false; pa_Enum := vs |}.

Definition commonSelectorParams : list Param :=
  [ repeated (param "match[]" KindMatcher); param "start" KindTime; param "end" KindTime; param "limit" KindInt ].

Definition route (e : Endpoint) (method path : string) (ps : list Param) : Endpoint * Route :=
  (e, {| ro_Endpoint := e; ro_Method := method; ro_PathTemplate := path; ro_Params := ps; ro_Gated := false |}).
Definition gated_route (e : Endpoint) (method path : string) : Endpoint * Route :=
  (e, {| ro_Endpoint := e; ro_Method := method; ro_PathTemplate := path; ro_Params := []; ro_Gated := true |}).

Definition route_table : list (Endpoint * Route) :=
  [ route "query" "POST" "/api/v1/query"
      [ required (param "query" KindPromQL); param "time" KindTime; param "timeout" KindDuration; param "limit" KindInt ];
    route "query_range" "POST" "/api/v1/query_range"
      [ required (param "query" KindPromQL); required (param "start" KindTime); required (param "end" KindTime);
        required (param "step" KindDuration); param "timeout" KindDuration; param "limit" KindInt ];
    route "query_exemplars" "POST" "/api/v1/query_exemplars"
      [ required (param "query" KindPromQL); required (param "start" KindTime); required (param "end" KindTime) ];
    route "series" "POST" "/api/v1/series"
      [ required (repeated (param "match[]" KindMatcher)); param "start" KindTime; param "end" KindTime; param "limit" KindInt ];
    route "labels" "POST" "/api/v1/labels" commonSelectorParams;
    route "label_values" "GET" "/api/v1/label/{label}/values" commonSelectorParams;
    route "metadata" "GET" "/api/v1/metadata"
      [ param "metric" KindMetricName; param "limit" KindInt; param "limit_per_metric" KindInt ];
    route "targets" "GET" "/api/v1/targets"
      [ enum "state" ["active"; "dropped"; "any"]; param "scrapePool" KindLabelName ];
    route "targets_metadata" "GET" "/api/v1/targets/metadata"
      [ param "match_target" KindMatcher; param "metric" KindMetricName; param "limit" KindInt ];
    route "rules" "GET" "/api/v1/rules"
      [ enum "type" ["alert"; "record"]; repeated (param "rule_name[]" KindMetricName);
        repeated (param "rule_group[]" KindMetricName); repeated (param "file[]" KindMetricName);
        enum "exclude_alerts" ["true"; "false"] ];
    route "alerts" "GET" "/api/v1/alerts" [];
    route "alertmanagers" "GET" "/api/v1/alertmanagers" [];
    route "tsdb_status" "GET" "/api/v1/status/tsdb" [ param "limit" KindInt ];
    route "runtime_info" "GET" "/api/v1/status/runtimeinfo" [];
    route "build_info" "GET" "/api/v1/status/buildinfo" [];
    route "flags" "GET" "/api/v1/status/flags" [];
    gated_route "config" "GET" "/api/v1/status/config" ].

Definition routes : gmap Endpoint Route := list_to_map route_table.

Definition Endpoints_of (rs : list (Endpoint * Route)) : list Endpoint := merge_sort String.le rs.*1.
Definition Endpoints : list Endpoint := Endpoints_of (map_to_list routes).

Definition Get (e : Endpoint) : result PromError Route :=
  match routes !! e with Some r => Ok r | None => Err ErrUnknownEndpoint end.

(** * Names *)

Definition is_alpha (c : ascii) : bool := in_range 0x61 0x7A c || in_range 0x41 0x5A c.
Definition label_first (c : ascii) : bool := is_alpha c || Ascii.eqb c "_".
Definition label_rest (c : ascii) : bool := label_first c || is_digit c.
Definition metric_first (c : ascii) : bool := label_first c || Ascii.eqb c ":".
Definition metric_rest (c : ascii) : bool := metric_first c || is_digit c.

Definition name_matches (first rest : ascii → bool) (s : string) : bool :=
  match s with EmptyString => false | String c s => first c && str_forall rest s end.

Definition labelNameRE (s : string) : bool := name_matches label_first label_rest s.
Definition metricNameRE (s : string) : bool := name_matches metric_first metric_rest s.

Definition MaxLabelNameBytes : nat := 128.

Definition ValidateLabelName (name : string) : result PromError () :=
  if (MaxLabelNameBytes <? String.length name)%nat then Err ErrInvalidLabelName
  else if negb (labelNameRE name) then Err ErrInvalidLabelName
  else Ok ().

(** * Paths *)

Definition hex_digit (n : nat) : ascii := default "0"%char (String.get n "0123456789ABCDEF").

(** [url.PathEscape]. *)
Definition path_unescaped (c : ascii) : bool :=
  is_alpha c || is_digit c || existsb (Ascii.eqb c) ["-"; "_"; "."; "~"; "$"; "&"; "+"; ":"; "="; "@"]%char.
Fixpoint PathEscape (s : string) : string :=
  match s with
  | EmptyString => EmptyString
  | String c s =>
    if path_unescaped c then String c (PathEscape s)
    else String "%" (String (hex_digit (nat_of_ascii c / 16)) (String (hex_digit (nat_of_ascii c mod 16)) (PathEscape s)))
  end.

Definition BuildPath (e : Endpoint) (labelName : string) : result PromError string :=
  match Get e with
  | Err er => Err er
  | Ok r =>
    if negb (HasPathParam r) then
      if negb (String.eqb labelName "") then Err ErrInvalidParam
      else Ok (ro_PathTemplate r)
    else match ValidateLabelName labelName with
    | Err er => Err er
    | Ok _ => Ok (Replace1 (ro_PathTemplate r) "{label}" (PathEscape labelName))
    end
  end.

(** The screen of [Lookup]: relative, doubled and escaped components. *)
Definition bad_path (path : string) : bool :=
  match path with
  | EmptyString => true
  | String c _ => negb (Ascii.eqb c "/") || str_Contains path ".." || str_Contains path "//"
                  || ContainsAny path ["\"%char; Ascii.zero; "%"%char]
  end.

(** One turn of [Lookup]'s loop. *)
Definition lookup_route (method path : string) (r : Route) : option (Route * string) :=
  if negb (EqualFold (ro_Method r) method) then None
  else if negb (HasPathParam r) then
    if String.eqb (ro_PathTemplate r) path then Some (r, "") else None
  else
    let '(prefix, suffix) := default (ro_PathTemplate r, "") (Cut (ro_PathTemplate r) "{label}") in
    if (String.length path <=? String.length prefix + String.length suffix)%nat
       || negb (HasPrefix path prefix) || negb (HasSuffix path suffix) then None
    else
      let mid := str_slice (String.length prefix) (String.length path - String.length suffix) path in
      match ValidateLabelName mid with Err _ => None | Ok _ => Some (r, mid) end.

Fixpoint lookup_loop (method path : string) (rs : list (Endpoint * Route)) : option (Route * string) :=
  match rs with
  | [] => None
  | (_, r) :: rs => match lookup_route method path r with Some x => Some x | None => lookup_loop method path rs end
  end.

(** [Lookup] with the table visited in the given order. *)
Definition Lookup_of (rs : list (Endpoint * Route)) (method path : string) : option (Route * string) :=
  if bad_path path then None else lookup_loop method path rs.

Definition Lookup (method path : string) : option (Route * string) := Lookup_of (map_to_list routes) method path.

(** * Paths and routes correspond *)

(** What the proofs use of the table, checked by evaluation. *)
Definition label_route : Route := (route "label_values" "GET" "/api/v1/label/{label}/values" commonSelectorParams).2.

Definition fixed_ok (r : Route) : bool :=
  negb (HasPathParam r) && negb (bad_path (ro_PathTemplate r)) && negb (HasPrefix (ro_PathTemplate r) "/api/v1/label/")
  && (String.eqb (ro_Method r) "GET" || String.eqb (ro_Method r) "POST").

Lemma table_ok :
  forallb (λ x : Endpoint * Route, String.eqb (ro_Endpoint x.2) x.1 && (fixed_ok x.2 || bool_decide (x.2 = label_route))) route_table = true.
Proof. vm_compute. reflexivity. Qed.

Lemma templates_NoDup : NoDup ((λ x : Endpoint * Route, ro_PathTemplate x.2) <$> route_table).
Proof. apply (bool_decide_unpack _). vm_compute. exact I. Qed.

Lemma endpoints_NoDup : NoDup route_table.*1.
Proof. apply (bool_decide_unpack _). vm_compute. exact I. Qed.

Lemma routes_elem e r : routes !! e = Some r ↔ (e, r) ∈ route_table.
Proof. symmetry. apply elem_of_list_to_map, endpoints_NoDup. Qed.

Lemma routes_ok e r : routes !! e = Some r → ro_Endpoint r = e ∧ (fixed_ok r = true ∨ r = label_route).
Proof.
  intros Hin%routes_elem%list_elem_of_In. pose proof table_ok as Ht. rewrite forallb_forall in Ht. apply Ht in Hin. simpl in Hin.
  apply andb_true_iff in Hin as [He Hf]. apply String.eqb_eq in He. split; [done|].
  apply orb_true_iff in Hf as [?|Hl]; [by left|right]. by apply bool_decide_eq_true in Hl.
Qed.

Lemma routes_template_inj e1 e2 r1 r2 :
  routes !! e1 = Some r1 → routes !! e2 = Some r2 → ro_PathTemplate r1 = ro_PathTemplate r2 → r1 = r2.
Proof.
  intros (i & Hi)%routes_elem%list_elem_of_lookup (j & Hj)%routes_elem%list_elem_of_lookup Heq.
  assert (i = j) as ->.
  { eapply (NoDup_lookup _ i j); [apply templates_NoDup|rewrite list_lookup_fmap, Hi; simpl; reflexivity|].
    rewrite list_lookup_fmap, Hj. simpl. congruence. }
  congruence.
Qed.

(** ** Label names in paths *)

Lemma label_rest_facts c : label_rest c = true →
  path_unescaped c = true ∧ Ascii.eqb c "/" = false ∧ Ascii.eqb c "." = false
  ∧ existsb (Ascii.eqb c) ["\"%char; Ascii.zero; "%"%char] = false.
Proof. destruct c as [[] [] [] [] [] [] [] []]; vm_compute; intuition discriminate. Qed.

Lemma label_first_rest c : label_first c = true → label_rest c = true.
Proof. unfold label_rest. by intros ->. Qed.

Lemma str_forall_cons f c s : str_forall f (String c s) = f c && str_forall f s.
Proof. unfold str_forall. simpl. by rewrite negb_orb, negb_involutive. Qed.

Lemma label_valid l : ValidateLabelName l = Ok () ↔ (String.length l ≤ MaxLabelNameBytes)%nat ∧ labelNameRE l = true.
Proof.
  unfold ValidateLabelName. rewrite !guard_ok, Nat.ltb_ge, negb_false_iff. naive_solver.
Qed.

Lemma label_chars l : labelNameRE l = true → ∃ c l', l = String c l' ∧ str_forall label_rest l = true.
Proof.
  destruct l as [|c l]; [done|]. simpl. rewrite andb_true_iff. intros [Hc Hl]. exists c, l. split; [done|].
  by rewrite str_forall_cons, Hl, (label_first_rest c).
Qed.

Lemma PathEscape_label l : str_forall label_rest l = true → PathEscape l = l.
Proof.
  induction l as [|c l IH]; [done|]. rewrite str_forall_cons, andb_true_iff. intros [Hc Hl]. simpl.
  destruct (label_rest_facts c Hc) as (-> & _). by rewrite IH.
Qed.

Lemma label_clean (l s : string) sub : str_forall label_rest l = true → str_Contains s sub = false →
  (∃ c sub', sub = String c sub' ∧ (c = "/" ∨ c = ".")%char) → str_Contains (l +:+ s) sub = false.
Proof.
  intros Hl Hs (c & sub' & -> & Hc). induction l as [|d l IH]; [done|].
  rewrite str_forall_cons, andb_true_iff in Hl. destruct Hl as [Hd Hl]. cbn [String.append str_Contains].
  rewrite IH by done. rewrite orb_false_r. unfold HasPrefix. simpl.
  destruct (label_rest_facts d Hd) as (_ & H1 & H2 & _). destruct (ascii_dec c d) as [->|]; [|done].
  destruct Hc as [-> | ->]; [by rewrite Ascii.eqb_refl in H1|by rewrite Ascii.eqb_refl in H2].
Qed.

Lemma label_any l : str_forall label_rest l = true → ContainsAny l ["\"%char; Ascii.zero; "%"%char] = false.
Proof.
  unfold ContainsAny. induction l as [|c l IH]; [done|]. rewrite str_forall_cons, andb_true_iff. intros [Hc Hl]. cbn [str_exists].
  destruct (label_rest_facts c Hc) as (_ & _ & _ & ->). by apply IH.
Qed.

Definition label_path (l : string) : string := "/api/v1/label/" +:+ l +:+ "/values".

Lemma label_path_clean l : labelNameRE l = true → bad_path (label_path l) = false.
Proof.
  intros Hl. destruct (label_chars l Hl) as (c & l' & -> & Hr). pose proof Hr as Hr'.
  rewrite str_forall_cons, andb_true_iff in Hr'. destruct Hr' as [Hc Hl'].
  destruct (label_rest_facts c Hc) as (_ & Hslash & Hdot & _).
  assert (str_Contains (String c l' +:+ "/values") "//" = false) as H1 by (apply label_clean; [done|done|eauto]).
  assert (str_Contains (String c l' +:+ "/values") ".." = false) as H2 by (apply label_clean; [done|done|eauto]).
  assert (ContainsAny (String c l' +:+ "/values") ["\"%char; Ascii.zero; "%"%char] = false) as H3.
  { pose proof (label_any _ Hr) as Ha. unfold ContainsAny in *. by rewrite str_exists_app, Ha. }
  change (bad_path (label_path (String c l'))) with
    (str_Contains (label_path (String c l')) ".." || str_Contains (label_path (String c l')) "//"
     || ContainsAny (label_path (String c l')) ["\"%char; Ascii.zero; "%"%char]).
  unfold label_path.
  change ("/api/v1/label/" +:+ String c l' +:+ "/values") with ("/api/v1/label/" +:+ String c (l' +:+ "/values")).
  rewrite (str_Contains2 "/api/v1/label/" c _ "." "."), (str_Contains2 "/api/v1/label/" c _ "/" "/").
  change (String c l' +:+ "/values") with (String c (l' +:+ "/values")) in *. rewrite H1, H2.
  assert (∀ x y, str_Contains "/api/v1/label/" (String x (String y "")) = false → (Ascii.eqb x "/" && Ascii.eqb c y) = false →
    str_Contains ("/api/v1/label/" +:+ String c "") (String x (String y "")) = false) as Hb.
  { intros x y Hpre Hxy. change ("/api/v1/label/" +:+ String c "") with ("/api/v1/label" +:+ String "/" (String c "")).
    rewrite (str_Contains2 "/api/v1/label" "/" (String c "")). change ("/api/v1/label" +:+ String "/" "") with "/api/v1/label/". rewrite Hpre. cbn [orb str_Contains].
    unfold HasPrefix. simpl. destruct (ascii_dec x "/"), (ascii_dec y c), (ascii_dec x c); simpl; try done.
    all: subst; by rewrite !Ascii.eqb_refl in Hxy. }
  rewrite (Hb "."%char), (Hb "/"%char); [exact H3|done|by rewrite andb_comm; simpl; rewrite Hslash|done|done].
Qed.

(** ** Building and resolving *)

Lemma Build_fixed e r l path : routes !! e = Some r → fixed_ok r = true →
  BuildPath e l = Ok path ↔ l = "" ∧ path = ro_PathTemplate r.
Proof.
  intros He Hf. unfold fixed_ok in Hf. rewrite !andb_true_iff in Hf. destruct Hf as [[[Hf _] _] _].
  unfold BuildPath, Get. rewrite He, Hf, guard_ok, negb_false_iff, String.eqb_eq. split; intros [? Hp]; (split; [done|]); congruence.
Qed.

Lemma Build_label l path : BuildPath "label_values" l = Ok path ↔ ValidateLabelName l = Ok () ∧ path = label_path l.
Proof.
  assert (∀ l, BuildPath "label_values" l = match ValidateLabelName l with
    Err er => Err er | Ok _ => Ok ("/api/v1/label/" +:+ PathEscape l +:+ "/values") end) as -> by done.
  destruct (ValidateLabelName l) as [[]|er] eqn:Hv; [|naive_solver]. pose proof Hv as Hv'.
  apply label_valid in Hv' as [_ Hl]. destruct (label_chars l Hl) as (_ & _ & _ & Hr). rewrite (PathEscape_label _ Hr).
  unfold label_path. naive_solver.
Qed.

Lemma lookup_route_spec e r method path l : routes !! e = Some r →
  (∃ r', lookup_route method path r = Some (r', l)) ↔ EqualFold (ro_Method r) method = true ∧ BuildPath e l = Ok path.
Proof.
  intros He. pose proof (routes_ok _ _ He) as [Hend [Hf| ->]]; unfold lookup_route.
  - rewrite (Build_fixed _ _ _ _ He Hf). unfold fixed_ok in Hf. rewrite !andb_true_iff, !negb_true_iff in Hf.
    destruct Hf as [[[Hf _] _] _]. rewrite Hf. destruct (EqualFold _ _); simpl; [|split; [by intros [? ?]|by intros [? _]]].
    destruct (String.eqb_spec (ro_PathTemplate r) path) as [Hpath|Hpath].
    + split; [by intros [r' [= _ <-]]|]. intros (_ & -> & _). by exists r.
    + split; [by intros [r' ?]|]. by intros (_ & _ & ->).
  - simpl in Hend. subst e. rewrite Build_label. destruct (EqualFold _ _); [|split; [by intros [? ?]|by intros [? _]]].
    change (negb (HasPathParam label_route)) with false.
    change (Cut (ro_PathTemplate label_route) "{label}") with (Some ("/api/v1/label/", "/values")).
    cbn [negb default from_option id].
    split.
    + intros (r' & Hs). revert Hs. destruct (Nat.leb_spec (String.length path) (String.length "/api/v1/label/" + String.length "/values")) as [|Hlen]; [by intros|].
      intros Hs. cbn [orb] in Hs. destruct (HasPrefix path "/api/v1/label/") eqn:Hp; [|done]. destruct (HasSuffix path "/values") eqn:Hsuf; [|done].
      cbn [orb negb] in Hs. apply HasPrefix_spec in Hp as [rest ->]. apply HasSuffix_spec in Hsuf as [a Ha].
      assert (∃ m, rest = m +:+ "/values") as [m ->].
      { rewrite string_length_app in Hlen. clear Hs. change ("/api/v1/label/" +:+ rest) with (String.append "/api/v1/label/" rest) in Ha.
        destruct (string_split_suffix "/api/v1/label/" rest a "/values" Ha) as [m ->]; [lia|by exists m]. }
      rewrite str_slice_mid in Hs. destruct (ValidateLabelName m) as [[]|] eqn:Hv; [|done]. by simplify_eq.
    + intros [_ [Hv ->]]. unfold label_path. pose proof Hv as Hv'. apply label_valid in Hv' as [_ Hl].
      destruct (label_chars l Hl) as (c & l' & Hcl & _).
      destruct (Nat.leb_spec (String.length ("/api/v1/label/" +:+ l +:+ "/values")) (String.length "/api/v1/label/" + String.length "/values")) as [Hle|_].
      { rewrite !string_length_app in Hle. subst l. simpl in Hle. lia. }
      rewrite HasPrefix_app. replace (HasSuffix ("/api/v1/label/" +:+ l +:+ "/values") "/values") with true.
      2:{ symmetry. apply HasSuffix_spec. exists ("/api/v1/label/" +:+ l). by rewrite string_app_assoc. }
      cbn [orb negb]. rewrite str_slice_mid, Hv. by exists label_route.
Qed.

Lemma lookup_route_same method path r r' l : lookup_route method path r = Some (r', l) → r' = r.
Proof.
  unfold lookup_route. destruct (negb (EqualFold _ _)); [done|]. destruct (negb (HasPathParam r)).
  - destruct (String.eqb _ _); [|done]. congruence.
  - destruct (default _ _) as [p s]. destruct (_ || _); [done|]. destruct (ValidateLabelName _); [|done]. congruence.
Qed.

Lemma Build_clean e l path : BuildPath e l = Ok path → bad_path path = false.
Proof.
  intros Hb. destruct (routes !! e) as [r|] eqn:He; [|unfold BuildPath, Get in Hb; by rewrite He in Hb].
  destruct (routes_ok _ _ He) as [Hend [Hf| ->]].
  - destruct (proj1 (Build_fixed _ _ _ _ He Hf) Hb) as [_ Hb']. rewrite Hb'. unfold fixed_ok in Hf. rewrite !andb_true_iff, !negb_true_iff in Hf. tauto.
  - simpl in Hend. subst e. apply Build_label in Hb as [Hv ->]. apply label_valid in Hv as [_ Hv]. by apply label_path_clean.
Qed.

(** A path is built for one endpoint and one label only. *)
Lemma Build_inj e1 e2 r1 r2 l1 l2 path : routes !! e1 = Some r1 → routes !! e2 = Some r2 →
  BuildPath e1 l1 = Ok path → BuildPath e2 l2 = Ok path → r1 = r2 ∧ l1 = l2.
Proof.
  assert (∀ e r l l' path, routes !! e = Some r → fixed_ok r = true → BuildPath e l = Ok path →
    BuildPath "label_values" l' = Ok path → False) as Hmix.
  { intros e r l l' p He Hf Hb Hl. destruct (proj1 (Build_fixed _ _ _ _ He Hf) Hb) as [_ Hb']. apply Build_label in Hl as [_ Hp]. rewrite Hb' in Hp.
    unfold fixed_ok in Hf. rewrite !andb_true_iff, !negb_true_iff in Hf. destruct Hf as [[_ Hpre] _].
    unfold label_path in Hp. by rewrite Hp, HasPrefix_app in Hpre. }
  intros H1 H2 B1 B2. destruct (routes_ok _ _ H1) as [E1 [F1| ->]], (routes_ok _ _ H2) as [E2 [F2| ->]].
  - destruct (proj1 (Build_fixed _ _ _ _ H1 F1) B1) as [L1 Hp1']. destruct (proj1 (Build_fixed _ _ _ _ H2 F2) B2) as [L2 Hp2'].
    split; [|congruence]. eapply routes_template_inj; [done..|congruence].
  - simpl in E2. subst e2. exfalso. exact (Hmix _ _ _ _ _ H1 F1 B1 B2).
  - simpl in E1. subst e1. exfalso. exact (Hmix _ _ _ _ _ H2 F2 B2 B1).
  - simpl in E1, E2. subst e1 e2. apply Build_label in B1 as [_ ->]. apply Build_label in B2 as [_ Hp]. split; [done|].
    unfold label_path in Hp. apply (f_equal (str_drop 14)) in Hp. simpl in Hp.
    by apply (f_equal (λ s, TrimSuffix s "/values")) in Hp; rewrite !TrimSuffix_app in Hp.
Qed.

(** What a request resolves to, in whatever order the table is visited. *)
Lemma Lookup_of_spec (rs : list (Endpoint * Route)) (method path : string) (r : Route) (label : string) :
  rs ≡ₚ map_to_list routes →
  Lookup_of rs method path = Some (r, label) ↔
  routes !! ro_Endpoint r = Some r ∧ EqualFold (ro_Method r) method = true ∧ BuildPath (ro_Endpoint r) label = Ok path.
Proof.
  intros Hp. assert (∀ e r, (e, r) ∈ rs → routes !! e = Some r ∧ ro_Endpoint r = e) as Hrs.
  { intros e r' Hin. apply (map_entries_elem _ _ _ _ Hp) in Hin. split; [done|]. by destruct (routes_ok _ _ Hin). }
  assert (∀ e r l, (e, r) ∈ rs → lookup_route method path r = Some (r, l) ↔ EqualFold (ro_Method r) method = true ∧ BuildPath e l = Ok path) as Hone.
  { intros e r' l Hin. destruct (Hrs _ _ Hin) as [He _]. rewrite <- (lookup_route_spec _ _ _ _ _ He). split; [eauto|].
    intros [r'' Hs]. by rewrite (lookup_route_same _ _ _ _ _ Hs) in Hs. }
  unfold Lookup_of. split.
  - destruct (bad_path path); [done|]. clear Hp. induction rs as [|[e r'] rs' IH]; [done|]. cbn [lookup_loop].
    destruct (lookup_route method path r') as [[r'' l'']|] eqn:Hl.
    + intros [= -> ->]. pose proof (lookup_route_same _ _ _ _ _ Hl) as ->. destruct (Hrs e r') as [He Hend]; [apply list_elem_of_here|].
      rewrite Hend. split; [done|]. apply Hone; [apply list_elem_of_here|done].
    + apply IH; intros; [apply Hrs|apply Hone]; by apply list_elem_of_further.
  - intros (He & Hm & Hb). rewrite (Build_clean _ _ _ Hb).
    assert ((ro_Endpoint r, r) ∈ rs) as Hin by (by apply (map_entries_elem _ _ _ _ Hp)). clear Hp.
    revert Hin. induction rs as [|[e r'] rs' IH]; intros Hin; [by apply elem_of_nil in Hin|]. cbn [lookup_loop].
    destruct (lookup_route method path r') as [[r'' l'']|] eqn:Hl.
    + pose proof (lookup_route_same _ _ _ _ _ Hl) as ->. destruct (Hrs e r') as [He' Hend]; [apply list_elem_of_here|].
      apply (Hone e) in Hl as [_ Hb']; [|apply list_elem_of_here]. by destruct (Build_inj _ _ _ _ _ _ _ He' He Hb' Hb) as [-> ->].
    + apply elem_of_cons in Hin as [[= <- <-]|Hin]; [|apply IH; [..|done]; intros; [apply Hrs|apply Hone]; by apply list_elem_of_further].
      assert (lookup_route method path r = Some (r, label)) as Hs by (apply (Hone (ro_Endpoint r)); [apply list_elem_of_here|done]). congruence.
Qed.

(** The spoke's check is byte-equivalent to the hub's construction.  In
whatever order the table is visited, [Lookup] resolves a request to a route and
label exactly when the route is the table's, its method is the request's up to
case, and the path is the one [BuildPath] builds for that endpoint and label:
no other byte string reaches any route, and none reaches two. *)
Theorem Lookup_exact (rs : list (Endpoint * Route)) (method path : string) (r : Route) (label : string) :
  rs ≡ₚ map_to_list routes →
  Lookup_of rs method path = Some (r, label) ↔
  routes !! ro_Endpoint r = Some r ∧ EqualFold (ro_Method r) method = true ∧ BuildPath (ro_Endpoint r) label = Ok path.
Proof. apply Lookup_of_spec. Qed.

Lemma Lookup_exact_witness :
  Lookup "get" "/api/v1/label/job/values" = Some (label_route, "job")
  ∧ BuildPath "label_values" "job" = Ok "/api/v1/label/job/values"
  ∧ Lookup "GET" "/api/v1/label/values" = None.
Proof.
  split; [|split; vm_compute; reflexivity].
  refine (proj2 (Lookup_exact (map_to_list routes) "get" "/api/v1/label/job/values" label_route "job" (Permutation_refl _)) _).
  split; [vm_compute; reflexivity|]. split; vm_compute; reflexivity.
Defined.

(** * Parameters *)

Definition MaxPromQLBytes : Z := 8192.
Definition MaxParamBytes : Z := 2048.
Definition MaxRepeatedParams : nat := 64.

Definition isForbiddenRune (r : Z) : bool := (r <? 0x20)%Z || ((0x7f <=? r)%Z && (r <=? 0x9f)%Z).

(** [promDurationRE]: optional groups of digits and a unit, in this order. *)
Fixpoint span_digits (s : string) : nat :=
  match s with EmptyString => 0%nat | String c s => if is_digit c then S (span_digits s) else 0%nat end.
Fixpoint match_groups (units : list string) (s : string) : bool :=
  match units with
  | [] => String.eqb s ""
  | u :: units =>
    let n := span_digits s in
    (0 <? n)%nat && HasPrefix (str_drop n s) u && match_groups units (str_drop (n + String.length u) s)
    || match_groups units s
  end.
Definition promDurationRE (s : string) : bool := match_groups ["y"; "w"; "d"; "h"; "m"; "s"; "ms"] s.

Section validate.
(** Whether [time.Parse(time.RFC3339, v)] succeeds, and [strconv.ParseFloat(v, 64)]. *)
Context (time_parses : string → bool) (ParseFloat : string → option float).

Definition validateTime (v : string) : bool :=
  if time_parses v then true
  else match ParseFloat v with Some _ => true | None => false end.

Definition validateDuration (v : string) : bool :=
  if String.eqb v "" then false
  else match ParseFloat v with
  | Some n => negb (n <=? 0)%float
  | None => promDurationRE v
  end.

Definition validateValue (p : Param) (v : string) : bool :=
  let limit := if bool_decide (pa_Kind p = KindPromQL) then MaxPromQLBytes else MaxParamBytes in
  if (limit <? Z.of_nat (String.length v))%Z then false
  else if existsb isForbiddenRune (runes v) then false
  else match pa_Kind p with
  | KindPromQL | KindMatcher => negb (blank v)
  | KindTime => validateTime v
  | KindDuration => validateDuration v
  | KindLabelName => labelNameRE v
  | KindMetricName => metricNameRE v
  | KindInt => match ParseInt v with Some n => negb (n <? 0)%Z | None => false end
  | KindEnum => Contains (pa_Enum p) v
  end.

Definition byName (ps : list Param) : gmap string Param := foldl (λ m p, <[pa_Name p := p]> m) ∅ ps.

Definition check_values (byName : gmap string Param) (name : string) (values : list string) : bool :=
  match byName !! name with
  | None => false
  | Some p =>
    if negb (pa_Repeated p) && (1 <? length values)%nat then false
    else if (MaxRepeatedParams <? length values)%nat then false
    else forallb (validateValue p) values
  end.

Definition form_get (form : gmap string (list string)) (name : string) : list string := default [] (form !! name).

(** [Validate] with the form visited in the given order. *)
Definition Validate_of (entries : list (string * list string)) (e : Endpoint) (form : gmap string (list string))
    (gatedEnabled : bool) : result PromError () :=
  match Get e with
  | Err er => Err er
  | Ok r =>
    if ro_Gated r && negb gatedEnabled then Err ErrEndpointGated
    else if negb (forallb (λ '(name, values), check_values (byName (ro_Params r)) name values) entries) then Err ErrInvalidParam
    else if negb (forallb (λ p, negb (pa_Required p && (length (form_get form (pa_Name p)) =? 0)%nat)) (ro_Params r))
    then Err ErrInvalidParam
    else Ok ()
  end.

Definition Validate (e : Endpoint) (form : gmap string (list string)) (gatedEnabled : bool) : result PromError () :=
  Validate_of (map_to_list form) e form gatedEnabled.

(** ** What is accepted *)

Lemma params_NoDup :
  forallb (λ x : Endpoint * Route, bool_decide (NoDup (pa_Name <$> ro_Params x.2))) route_table = true.
Proof. vm_compute. reflexivity. Qed.

Lemma byName_lookup ps name p : NoDup (pa_Name <$> ps) → byName ps !! name = Some p ↔ p ∈ ps ∧ pa_Name p = name.
Proof.
  unfold byName. induction ps as [|q ps IH] using rev_ind; intros Hnd.
  { simpl. rewrite lookup_empty. split; [done|]. by intros [?%elem_of_nil _]. }
  rewrite fmap_app in Hnd. apply NoDup_app in Hnd as (Hnd & Hdis & _). rewrite foldl_app. cbn [foldl].
  rewrite lookup_insert_Some, IH by done. rewrite elem_of_app, list_elem_of_singleton. split.
  - intros [[<- <-]|[Hne [Hin <-]]]; auto.
  - intros [[Hin| ->] <-]; [|by left]. right. split; [|done]. intros Heq. eapply (Hdis (pa_Name p)).
    + by apply list_elem_of_fmap_2.
    + simpl. rewrite Heq. apply list_elem_of_here.
Qed.

(** An accepted value holds no control byte. *)
Lemma validateValue_no_control p v c : validateValue p v = true → (byte_val c < 0x20 ∨ byte_val c = 0x7F)%Z →
  str_exists (Ascii.eqb c) v = false.
Proof.
  intros Hv Hc. destruct (str_exists (Ascii.eqb c) v) eqn:Hin; [|done]. exfalso. unfold validateValue in Hv.
  destruct (_ <? _)%Z; [done|]. assert (existsb isForbiddenRune (runes v) = true) as He; [|by rewrite He in Hv].
  apply existsb_exists. exists (byte_val c). split; [apply list_elem_of_In, runes_ascii; [done|lia|done]|].
  unfold isForbiddenRune. apply orb_true_iff. rewrite andb_true_iff, Z.ltb_lt, !Z.leb_le. lia.
Qed.

(** The parameter table admits the form. *)
Definition form_ok (r : Route) (form : gmap string (list string)) : Prop :=
  (∀ name values, form !! name = Some values →
     ∃ p, p ∈ ro_Params r ∧ pa_Name p = name ∧ (pa_Repeated p = false → (length values ≤ 1)%nat)
       ∧ (length values ≤ MaxRepeatedParams)%nat ∧ ∀ v, v ∈ values → validateValue p v = true)
  ∧ ∀ p, p ∈ ro_Params r → pa_Required p = true → form_get form (pa_Name p) ≠ [].

Lemma check_values_spec r name values : NoDup (pa_Name <$> ro_Params r) →
  check_values (byName (ro_Params r)) name values = true ↔
  ∃ p, p ∈ ro_Params r ∧ pa_Name p = name ∧ (pa_Repeated p = false → (length values ≤ 1)%nat)
    ∧ (length values ≤ MaxRepeatedParams)%nat ∧ ∀ v, v ∈ values → validateValue p v = true.
Proof.
  intros Hnd. unfold check_values. destruct (byName (ro_Params r) !! name) as [p|] eqn:Hp.
  - apply byName_lookup in Hp as [Hin Hname]; [|done]. split.
    + intros H. exists p. split; [done|]. split; [done|]. destruct (negb (pa_Repeated p) && _) eqn:Hrep; [done|].
      destruct (Nat.ltb_spec MaxRepeatedParams (length values)); [done|]. split_and!; [|done|].
      * intros Hr. rewrite Hr in Hrep. by apply Nat.ltb_ge in Hrep.
      * intros v Hv. rewrite forallb_forall in H. by apply H, list_elem_of_In.
    + intros (q & Hq & Hqn & Hrep & Hlen & Hv). assert (q = p) as ->.
      { assert (byName (ro_Params r) !! name = Some q) as H1 by (by apply byName_lookup).
        assert (byName (ro_Params r) !! name = Some p) as H2 by (by apply byName_lookup). congruence. }
      destruct (negb (pa_Repeated p) && _) eqn:Hr.
      { apply andb_true_iff in Hr as [Hr Hl]. apply negb_true_iff in Hr. apply Nat.ltb_lt in Hl. specialize (Hrep Hr). lia. }
      destruct (Nat.ltb_spec MaxRepeatedParams (length values)); [lia|]. apply forallb_forall.
      intros v Hin'. by apply Hv, list_elem_of_In.
  - split; [done|]. intros (p & Hin & Hn & _). assert (byName (ro_Params r) !! name = Some p) by (by apply byName_lookup). congruence.
Qed.

Lemma Validate_spec entries e form gatedEnabled : entries ≡ₚ map_to_list form →
  match Validate_of entries e form gatedEnabled with
  | Err ErrUnknownEndpoint => routes !! e = None
  | Err ErrEndpointGated => ∃ r, routes !! e = Some r ∧ ro_Gated r = true ∧ gatedEnabled = false
  | Ok _ => ∃ r, routes !! e = Some r ∧ (ro_Gated r = true → gatedEnabled = true) ∧ form_ok r form
  | Err ErrInvalidParam => ∃ r, routes !! e = Some r ∧ (ro_Gated r = true → gatedEnabled = true) ∧ ¬ form_ok r form
  | Err ErrInvalidLabelName => False
  end.
Proof.
  intros Hp. unfold Validate_of, Get. destruct (routes !! e) as [r|] eqn:He; [|done].
  destruct (ro_Gated r && negb gatedEnabled) eqn:Hg.
  { apply andb_true_iff in Hg as [? ?%negb_true_iff]. by exists r. }
  assert (ro_Gated r = true → gatedEnabled = true) as Hgate by (intros Hr; rewrite Hr in Hg; by destruct gatedEnabled).
  assert (NoDup (pa_Name <$> ro_Params r)) as Hnd.
  { pose proof params_NoDup as Ht. rewrite forallb_forall in Ht. apply routes_elem, list_elem_of_In in He. apply Ht in He.
    by apply bool_decide_eq_true in He. }
  assert (∀ name values, (name, values) ∈ entries ↔ form !! name = Some values) as Hent by (intros; by apply map_entries_elem).
  destruct (forallb _ entries) eqn:Hf; cbn [negb].
  - assert (∀ name values, form !! name = Some values → check_values (byName (ro_Params r)) name values = true) as Hall.
    { intros name values Hin%Hent%list_elem_of_In. rewrite forallb_forall in Hf. by apply (Hf (name, values)). }
    destruct (forallb _ (ro_Params r)) eqn:Hreq; cbn [negb].
    + exists r. split_and!; [done..|]. split; [intros; apply check_values_spec; auto|].
      intros p Hin Hr Hz. rewrite forallb_forall in Hreq. apply list_elem_of_In in Hin. specialize (Hreq p Hin).
      by rewrite Hr, Hz in Hreq.
    + exists r. split_and!; [done..|]. intros [_ Hok]. apply not_true_iff_false in Hreq. apply Hreq, forallb_forall.
      intros p Hin. destruct (pa_Required p) eqn:Hr; [|done]. simpl. specialize (Hok p ltac:(by apply list_elem_of_In) Hr).
      by destruct (form_get form (pa_Name p)).
  - exists r. split_and!; [done..|]. intros [Hok _]. apply not_true_iff_false in Hf. apply Hf, forallb_forall.
    intros [name values] Hin. apply check_values_spec; [done|]. apply Hok, Hent. by apply list_elem_of_In.
Qed.

End validate.

(** What reaches Prometheus is validated.  In whatever order the form is
visited, validation accepts exactly the forms of a known endpoint, gated ones
only when enabled, in which every parameter is one of the route's, no more
often than it may be repeated, with values of its kind, and every required
parameter is given; otherwise the error says which check failed.  No value of
an accepted form holds a control byte. *)
Theorem promapi_Validate_correct (time_parses : string → bool) (ParseFloat : string → option float)
    (entries : list (string * list string)) (e : Endpoint) (form : gmap string (list string)) (gatedEnabled : bool) :
  entries ≡ₚ map_to_list form →
  match Validate_of time_parses ParseFloat entries e form gatedEnabled with
  | Ok _ =>
    (∃ r, routes !! e = Some r ∧ (ro_Gated r = true → gatedEnabled = true) ∧ form_ok time_parses ParseFloat r form)
    ∧ ∀ name values v c, form !! name = Some values → v ∈ values → (byte_val c < 0x20 ∨ byte_val c = 0x7F)%Z →
        str_exists (Ascii.eqb c) v = false
  | Err ErrUnknownEndpoint => routes !! e = None
  | Err ErrEndpointGated => ∃ r, routes !! e = Some r ∧ ro_Gated r = true ∧ gatedEnabled = false
  | Err ErrInvalidParam =>
    ∃ r, routes !! e = Some r ∧ (ro_Gated r = true → gatedEnabled = true) ∧ ¬ form_ok time_parses ParseFloat r form
  | Err ErrInvalidLabelName => False
  end.
Proof.
  intros Hp. pose proof (Validate_spec time_parses ParseFloat entries e form gatedEnabled Hp) as Hv.
  destruct (Validate_of _ _ _ _ _ _) as [[]|[]]; try done. split; [done|].
  destruct Hv as (r & _ & _ & Hok & _). intros name values v c Hf Hin Hc.
  destruct (Hok _ _ Hf) as (p & _ & _ & _ & _ & Hall). by eapply validateValue_no_control, Hc; apply Hall.
Qed.

(** Parsers that accept decimal seconds only. *)
Definition no_time (s : string) : bool := false.
Definition digits_only (s : string) : option float := if negb (String.eqb s "") && str_forall is_digit s then Some 1%float else None.

Lemma promapi_Validate_correct_witness :
  let form : gmap string (list string) := {[ "query" := ["up"]; "timeout" := ["1m30s"] ]} in
  Validate no_time digits_only "query" form false = Ok () ∧ str_exists (Ascii.eqb "010"%char) "up" = false.
Proof.
  intros form. assert (Validate_of no_time digits_only (map_to_list form) "query" form false = Ok ()) as Hv by (vm_compute; reflexivity).
  split; [exact Hv|].
  pose proof (promapi_Validate_correct no_time digits_only (map_to_list form) "query" form false (Permutation_refl _)) as Hc.
  rewrite Hv in Hc. refine (proj2 Hc "query" ["up"] "up" _ _ _ _); [vm_compute; reflexivity|apply list_elem_of_here|].
  left. vm_compute. reflexivity.
Defined.
