(* ===== verification/Step.v ===== *)
(** Steps of range queries: [src/internal/render/step.go].

Durations are [int64] nanoseconds with their wrap-around; [/] on them
truncates, and here all operands are non-negative or the code has excluded the
rest. *)

From S2P Require Import Prelude Text.
From Stdlib Require Import Floats.PrimFloat.
Open Scope string_scope.
Open Scope Z_scope.

(** * Choosing a step *)

Definition Day : Z := 24 * Hour.
Definition DefaultMaxPoints : Z := 120.

Definition StepLadder : list Z :=
  [ 15 * Second; 30 * Second; Minute; 5 * Minute; 15 * Minute; Hour; 6 * Hour; 24 * Hour ].

Inductive StepReason := StepReasonRequested | StepReasonMaxPoints | StepReasonScrapeInterval | StepReasonLadder.

Record StepRequest := {
  st_Start : Z;
  st_End : Z;
  st_UserStep : Z;
  st_ScrapeInterval : Z;
  st_MaxPoints : Z
}.

Fixpoint first_rung (ladder : list Z) (d : Z) : option Z :=
  match ladder with
  | [] => None
  | rung :: ladder => if d <=? rung then Some rung else first_rung ladder d
  end.

Definition snapUp (d : Z) : Z :=
  match first_rung StepLadder d with
  | Some rung => rung
  | None => let n := Z.quot (wrap_int64 (wrap_int64 (d + Day) - 1)) Day in wrap_int64 (n * Day)
  end.

(** The step and the reason of [SelectStep]; the texts of [Downsampled] are
[FormatDuration] of the user's step and of the result. *)
Definition SelectStep (r : StepRequest) : Z * StepReason :=
  let maxPoints := if st_MaxPoints r <=? 0 then DefaultMaxPoints else st_MaxPoints r in
  let span := Sub (st_End r) (st_Start r) in
  let span := if span <? 0 then 0 else span in
  let step := st_UserStep r in
  let reason := if step <=? 0 then StepReasonMaxPoints else StepReasonRequested in
  let '(step, reason) :=
    if 0 <? span then
      let needed := wrap_int64 (Z.quot span maxPoints + Nanosecond) in
      if step <? needed then (needed, StepReasonMaxPoints) else (step, reason)
    else (step, reason) in
  let '(step, reason) := if step <=? 0 then (15 * Second, StepReasonMaxPoints) else (step, reason) in
  let snapped := snapUp step in
  let '(step, reason) :=
    if negb (snapped =? step)
    then (snapped, match reason with StepReasonRequested => StepReasonLadder | _ => reason end)
    else (step, reason) in
  if (0 <? st_ScrapeInterval r) && (step <? st_ScrapeInterval r)
  then (st_ScrapeInterval r, StepReasonScrapeInterval)
  else (step, reason).

(** * Printing *)

Definition digit (n : Z) : ascii := ascii_of_nat (Z.to_nat (n + 0x30)).

(** [strconv.FormatInt(n, 10)] for [0 <= n < 10^20], from the right. *)
Fixpoint format_digits (fuel : nat) (n : Z) (acc : string) : string :=
  match fuel with
  | O => acc
  | S fuel =>
    let acc := String (digit (n mod 10)) acc in
    if n / 10 =? 0 then acc else format_digits fuel (n / 10) acc
  end.
Definition FormatInt (n : Z) : string := format_digits 20 n "".

(** The fraction [v / 10^prec] without trailing zeros, and [v]'s integer part:
[time.fmtFrac]. *)
Fixpoint fmtFrac (prec : nat) (v : Z) (print : bool) (acc : string) : string * Z :=
  match prec with
  | O => (if print then String "." acc else acc, v)
  | S prec =>
    let d := v mod 10 in
    let print := print || negb (d =? 0) in
    fmtFrac prec (v / 10) print (if print then String (digit d) acc else acc)
  end.

Definition micro_sign : string := String (ascii_of_nat 0xC2) (String (ascii_of_nat 0xB5) "").

(** [time.Duration.String] of a positive duration. *)
Definition Duration_String (u : Z) : string :=
  if u <? Second then
    if u <? Microsecond then FormatInt u +:+ "ns"
    else if u <? Millisecond then let '(f, n) := fmtFrac 3 u false "" in FormatInt n +:+ f +:+ micro_sign +:+ "s"
    else let '(f, n) := fmtFrac 6 u false "" in FormatInt n +:+ f +:+ "ms"
  else
    let '(f, n) := fmtFrac 9 u false "" in
    let secs := FormatInt (n mod 60) +:+ f +:+ "s" in
    let m := n / 60 in
    if m =? 0 then secs
    else
      let mins := FormatInt (m mod 60) +:+ "m" +:+ secs in
      let h := m / 60 in
      if h =? 0 then mins else FormatInt h +:+ "h" +:+ mins.

Definition format_units : list (Z * string) :=
  [ (24 * Hour, "d"); (Hour, "h"); (Minute, "m"); (Second, "s"); (Millisecond, "ms") ].

Fixpoint format_in (units : list (Z * string)) (d : Z) : option string :=
  match units with
  | [] => None
  | (size, suffix) :: units =>
    if (size <=? d) && (d mod size =? 0) then Some (FormatInt (d / size) +:+ suffix) else format_in units d
  end.

Definition FormatDuration (d : Z) : string :=
  if d <=? 0 then "0s"
  else match format_in format_units d with
  | Some s => s
  | None => TrimSuffix (Duration_String d) "0s"
  end.

(** * Parsing *)

Fixpoint count_digits (s : string) : nat :=
  match s with EmptyString => 0%nat | String c s => if is_digit c then S (count_digits s) else 0%nat end.

(** The switch on the unit: [ms] before [s] and [m]. *)
Definition parse_unit (rest : string) : option (Z * string) :=
  if HasPrefix rest "ms" then Some (Millisecond, str_drop 2 rest)
  else if HasPrefix rest "s" then Some (Second, str_drop 1 rest)
  else if HasPrefix rest "m" then Some (Minute, str_drop 1 rest)
  else if HasPrefix rest "h" then Some (Hour, str_drop 1 rest)
  else if HasPrefix rest "d" then Some (Day, str_drop 1 rest)
  else if HasPrefix rest "w" then Some (7 * Day, str_drop 1 rest)
  else if HasPrefix rest "y" then Some (365 * Day, str_drop 1 rest)
  else None.

(** The loop over groups; each takes at least two bytes of [rest], so its
length is enough fuel. *)
Fixpoint parse_groups (fuel : nat) (total : Z) (rest : string) : option Z :=
  match fuel with
  | O => if String.eqb rest "" then Some total else None
  | S fuel =>
    if String.eqb rest "" then Some total
    else
      let i := count_digits rest in
      if (i =? 0)%nat then None
      else match ParseInt (str_take i rest) with
      | None => None
      | Some n =>
        match parse_unit (str_drop i rest) with
        | None => None
        | Some (unit, rest) => parse_groups fuel (wrap_int64 (total + wrap_int64 (n * unit))) rest
        end
      end
  end.

Section parse.
(** [strconv.ParseFloat(s, 64)], and the conversion of seconds to a duration. *)
Context (ParseFloat : string → option float) (seconds : float → Z).

Definition ParsePromDuration (s : string) : option Z :=
  let s := TrimSpace s in
  if String.eqb s "" then None
  else match ParseFloat s with
  | Some secs => if PrimFloat.is_nan secs || PrimFloat.is_infinity secs then None else Some (seconds secs)
  | None => parse_groups (String.length s) 0 s
  end.

End parse.

Example format_examples :
  map FormatDuration [0; 15 * Second; 90 * Second; 36 * Hour; 2 * Day; 1500 * Microsecond; 90 * Second + 1; 250]
  = ["0s"; "15s"; "90s"; "36h"; "2d"; "1.5ms"; "1m30.000000001s"; "250ns"].
Proof. vm_compute. reflexivity. Qed.

(** * The step chosen *)

(** The values a step is snapped to. *)
Definition on_ladder (s : Z) : Prop := s ∈ StepLadder ∨ (Day < s ∧ s mod Day = 0).

Definition points (r : StepRequest) : Z := if st_MaxPoints r <=? 0 then DefaultMaxPoints else st_MaxPoints r.
Definition span (r : StepRequest) : Z := Z.max 0 (Sub (st_End r) (st_Start r)).

(** The number of samples of a range query: both ends are evaluated. *)
Definition samples (span step : Z) : Z := span / step + 1.

Lemma first_rung_spec ladder d :
  match first_rung ladder d with
  | Some s => s ∈ ladder ∧ d ≤ s
  | None => ∀ s, s ∈ ladder → s < d
  end.
Proof.
  induction ladder as [|g l IH]; [by intros s ?%elem_of_nil|]. cbn [first_rung]. destruct (Z.leb_spec d g).
  - split; [apply list_elem_of_here|done].
  - destruct (first_rung l d); [destruct IH; split; [by apply list_elem_of_further|done]|].
    intros s [->|Hs]%elem_of_cons; auto.
Qed.

Lemma first_rung_least ladder d s s' : StronglySorted Z.lt ladder → first_rung ladder d = Some s → s' ∈ ladder → d ≤ s' → s ≤ s'.
Proof.
  intros Hs. revert s. induction Hs as [|g l Hs IH Hall]; intros s Hf Hin Hle; [by apply elem_of_nil in Hin|]. cbn [first_rung] in Hf.
  rewrite Forall_forall in Hall. destruct (Z.leb_spec d g).
  - injection Hf as <-. apply elem_of_cons in Hin as [->|Hin]; [done|]. apply Hall in Hin. lia.
  - apply elem_of_cons in Hin as [->|Hin]; [lia|]. by apply IH.
Qed.

Lemma StepLadder_sorted : StronglySorted Z.lt StepLadder.
Proof. repeat constructor. Qed.

Lemma StepLadder_bounds s : s ∈ StepLadder → 15 * Second ≤ s ≤ Day.
Proof. unfold StepLadder, Day, Hour, Minute, Second. intros H. repeat (apply elem_of_cons in H as [->|H]; [lia|]). by apply elem_of_nil in H. Qed.

Lemma on_ladder_pos s : on_ladder s → 15 * Second ≤ s.
Proof. intros [Hs|[Hs _]]; [by apply StepLadder_bounds|]. unfold Day, Hour, Minute, Second in *. lia. Qed.

Lemma Day_in : Day ∈ StepLadder.
Proof. apply (bool_decide_unpack _). vm_compute. exact I. Qed.

(** Snapping gives the least admissible value, as long as a day can be added. *)
Lemma snapUp_spec d : 0 < d → d + Day ≤ max_int64 →
  on_ladder (snapUp d) ∧ d ≤ snapUp d ∧ ∀ s, on_ladder s → d ≤ s → snapUp d ≤ s.
Proof.
  intros Hd Hmax. assert (0 < Day) as Hday by (unfold Day, Hour, Minute, Second; lia). unfold snapUp.
  pose proof (first_rung_spec StepLadder d) as Hf. destruct (first_rung StepLadder d) as [g|] eqn:He.
  - destruct Hf as [Hin Hle]. split_and!; [by left|done|]. intros s [Hs|[Hs _]] Hds; [by eapply first_rung_least; [apply StepLadder_sorted|..]|].
    apply StepLadder_bounds in Hin. lia.
  - pose proof (Hf _ Day_in) as Hbig. rewrite !(wrap_int64_id (d + Day)), (wrap_int64_id (d + Day - 1))
      by (unfold int64_range, min_int64, max_int64 in *; lia).
    rewrite Z.quot_div_nonneg by lia. set (n := (d + Day - 1) / Day).
    pose proof (Z.div_mod (d + Day - 1) Day ltac:(lia)) as Hdm. fold n in Hdm. pose proof (Z.mod_pos_bound (d + Day - 1) Day Hday) as Hb.
    assert (n * Day = Day * n) as Hcomm by lia.
    rewrite wrap_int64_id by (unfold int64_range, min_int64, max_int64 in *; nia).
    split_and!; [right; split; [lia|by apply Z.mod_mul; lia]|lia|].
    intros s [Hs|[Hs Hmod]] Hds; [apply Hf in Hs; lia|].
    pose proof (Z.div_mod s Day ltac:(lia)) as Hsd. rewrite Hmod in Hsd. assert (n ≤ s / Day); [|nia].
    apply Z.lt_succ_r. unfold n. apply Z.div_lt_upper_bound; nia.
Qed.

(** A step keeps the budget exactly when it exceeds the quotient. *)
Lemma samples_budget span step n : 0 ≤ span → 0 < n → 0 < step → samples span step ≤ n ↔ span / n + 1 ≤ step.
Proof.
  intros Hspan Hn Hstep. unfold samples. split; intros H.
  - assert (span / n < step); [|lia]. apply Z.div_lt_upper_bound; [lia|].
    pose proof (Z.div_mod span step ltac:(lia)). pose proof (Z.mod_pos_bound span step Hstep). nia.
  - assert (span / step < n); [|lia]. apply Z.div_lt_upper_bound; [lia|].
    pose proof (Z.div_mod span n ltac:(lia)). pose proof (Z.mod_pos_bound span n Hn). nia.
Qed.

(** The step before it is snapped, with the reason so far. *)
Definition wanted (r : StepRequest) : Z :=
  let w := if 0 <? span r then Z.max (st_UserStep r) (span r / points r + 1) else st_UserStep r in
  if w <=? 0 then 15 * Second else w.

Lemma points_pos r : 0 < points r.
Proof. unfold points, DefaultMaxPoints. destruct (Z.leb_spec (st_MaxPoints r) 0); lia. Qed.

Lemma SelectStep_shape r : span r / points r + 1 ≤ max_int64 →
  (SelectStep r).1 = (if (0 <? st_ScrapeInterval r) && (snapUp (wanted r) <? st_ScrapeInterval r)
                      then st_ScrapeInterval r else snapUp (wanted r))
  ∧ ((SelectStep r).2 = StepReasonRequested → (SelectStep r).1 = st_UserStep r).
Proof.
  intros Hmax. assert (0 ≤ span r) as Hspan by (unfold span; lia). pose proof (points_pos r) as Hpts.
  assert (wrap_int64 (Z.quot (span r) (points r) + Nanosecond) = span r / points r + 1) as Hneed.
  { rewrite Z.quot_div_nonneg by lia. unfold Nanosecond. apply wrap_int64_id. pose proof (Z.div_pos (span r) (points r) Hspan Hpts).
    unfold int64_range, min_int64, max_int64 in *. lia. }
  unfold SelectStep. fold (points r).
  assert ((if Sub (st_End r) (st_Start r) <? 0 then 0 else Sub (st_End r) (st_Start r)) = span r) as ->.
  { unfold span. destruct (Z.ltb_spec (Sub (st_End r) (st_Start r)) 0); lia. }
  rewrite Hneed. unfold wanted. set (u := st_UserStep r). set (k := span r / points r + 1).
  destruct (0 <? span r); [destruct (Z.ltb_spec u k)|].
  - rewrite Z.max_r by lia. destruct (k <=? 0); cbv zeta.
    + destruct (Z.eqb_spec (snapUp (15 * Second)) (15 * Second)); simpl; destruct (_ && _); naive_solver.
    + destruct (Z.eqb_spec (snapUp k) k) as [Hk|Hk]; simpl; rewrite ?Hk; destruct (_ && _); naive_solver.
  - rewrite Z.max_l by lia. destruct (u <=? 0) eqn:Hu; cbv zeta.
    + destruct (Z.eqb_spec (snapUp (15 * Second)) (15 * Second)); simpl; destruct (_ && _); naive_solver.
    + destruct (Z.eqb_spec (snapUp u) u) as [Hk|Hk]; simpl; rewrite ?Hk; destruct (_ && _); naive_solver.
  - destruct (u <=? 0) eqn:Hu; cbv zeta.
    + destruct (Z.eqb_spec (snapUp (15 * Second)) (15 * Second)); simpl; destruct (_ && _); naive_solver.
    + destruct (Z.eqb_spec (snapUp u) u) as [Hk|Hk]; simpl; rewrite ?Hk; destruct (_ && _); naive_solver.
Qed.

(** The step of a range query keeps the point budget.  Unless a day cannot
be added to the least step that would do, the chosen step is positive, no
smaller than the user's or the scrape interval, yields at most the budgeted
number of samples, and is a rung of the ladder, a whole number of days or the
scrape interval; no admissible rung is smaller.  It is reported as honoured
only when it is the user's. *)
Theorem SelectStep_correct (r : StepRequest) (step : Z) (reason : StepReason) :
  SelectStep r = (step, reason) →
  st_UserStep r + Day ≤ max_int64 → span r / points r + 1 + Day ≤ max_int64 →
  0 < step ∧ st_UserStep r ≤ step ∧ st_ScrapeInterval r ≤ step
  ∧ samples (span r) step ≤ points r
  ∧ (on_ladder step ∨ step = st_ScrapeInterval r)
  ∧ (∀ s, on_ladder s → st_UserStep r ≤ s → st_ScrapeInterval r ≤ s → samples (span r) s ≤ points r → step ≤ s)
  ∧ (reason = StepReasonRequested → step = st_UserStep r).
Proof.
  intros Hsel Hu Hk. assert (0 < Day) as Hday by (unfold Day, Hour, Minute, Second; lia).
  pose proof (SelectStep_shape r ltac:(lia)) as [Hs Hr]. rewrite Hsel in Hs, Hr. simpl in Hs, Hr.
  pose proof (points_pos r) as Hpts. assert (0 ≤ span r) as Hspan by (unfold span; lia).
  assert (0 ≤ span r / points r) as Hq by (apply Z.div_pos; lia).
  assert (0 < wanted r ∧ wanted r + Day ≤ max_int64 ∧ st_UserStep r ≤ wanted r
    ∧ (0 < span r → span r / points r + 1 ≤ wanted r)
    ∧ ∀ s, on_ladder s → st_UserStep r ≤ s → span r / points r + 1 ≤ s → wanted r ≤ s) as (Hw & Hwm & Hwu & Hwk & Hwl).
  { unfold wanted. assert (15 * Second + Day ≤ max_int64) by (unfold Day, Hour, Minute, Second, max_int64; lia).
    assert (0 < Second) by (unfold Second; lia).
    destruct (Z.ltb_spec 0 (span r)); cbv zeta;
      match goal with |- context [?w <=? 0] => destruct (Z.leb_spec w 0) end; split_and!; try lia;
      intros s Hl ? ?; pose proof (on_ladder_pos _ Hl); lia. }
  destruct (snapUp_spec (wanted r) Hw Hwm) as (Hgrid & Hge & Hleast).
  assert (snapUp (wanted r) ≤ step) as Hle.
  { rewrite Hs. destruct (0 <? st_ScrapeInterval r); simpl; [|lia]. destruct (Z.ltb_spec (snapUp (wanted r)) (st_ScrapeInterval r)); lia. }
  split_and!; [lia|lia| | | | |done].
  - rewrite Hs. destruct (Z.ltb_spec 0 (st_ScrapeInterval r)); simpl; [|lia].
    destruct (Z.ltb_spec (snapUp (wanted r)) (st_ScrapeInterval r)); lia.
  - apply samples_budget; [done|done|lia|]. destruct (Z.ltb_spec 0 (span r)); [lia|].
    assert (span r = 0) as Hz by lia. rewrite Hz, Z.div_0_l by lia. lia.
  - rewrite Hs. destruct (_ && _); auto.
  - intros s Hl Hus Hss Hsm. pose proof (on_ladder_pos _ Hl) as Hpos. assert (0 < s) by (unfold Second in *; lia).
    apply samples_budget in Hsm; [|done..]. pose proof (Hleast s Hl (Hwl s Hl Hus Hsm)).
    rewrite Hs. destruct (_ && _); lia.
Qed.

Lemma SelectStep_correct_witness :
  let r := {| st_Start := 0; st_End := 6 * Hour; st_UserStep := 15 * Second; st_ScrapeInterval := 30 * Second; st_MaxPoints := 0 |} in
  SelectStep r = (5 * Minute, StepReasonMaxPoints) ∧ samples (6 * Hour) (5 * Minute) ≤ 120.
Proof.
  intros r. assert (SelectStep r = (5 * Minute, StepReasonMaxPoints)) as Hs by (vm_compute; reflexivity). split; [exact Hs|].
  refine (proj1 (proj2 (proj2 (proj2 (SelectStep_correct r _ _ Hs _ _))))); vm_compute; discriminate.
Defined.

(** * Printing and parsing *)

Lemma digit_facts n : 0 ≤ n < 10 → is_digit (digit n) = true ∧ byte_val (digit n) = n + 0x30.
Proof.
  intros Hn. assert (n = 0 ∨ n = 1 ∨ n = 2 ∨ n = 3 ∨ n = 4 ∨ n = 5 ∨ n = 6 ∨ n = 7 ∨ n = 8 ∨ n = 9) as H by lia.
  by repeat (destruct H as [->|H]; [by vm_compute|]); subst.
Qed.

Lemma format_digits_spec fuel n acc : 0 ≤ n < 10 ^ Z.of_nat fuel → (0 < fuel)%nat →
  ∃ ds, format_digits fuel n acc = ds +:+ acc ∧ ds ≠ "" ∧ str_forall is_digit ds = true
    ∧ ∃ k, ∀ a, decimal a ds = a * k + n.
Proof.
  revert n acc. induction fuel as [|fuel IH]; intros n acc Hn Hf; [lia|]. cbn [format_digits].
  pose proof (Z.mod_pos_bound n 10 ltac:(lia)) as Hm. destruct (digit_facts (n mod 10) Hm) as [Hd Hb].
  pose proof (Z.div_mod n 10 ltac:(lia)) as Hdm. destruct (Z.eqb_spec (n / 10) 0) as [Hz|Hz].
  - exists (String (digit (n mod 10)) ""). split_and!; [done|done|by unfold str_forall; simpl; rewrite Hd|].
    exists 10. intros a. simpl. rewrite Hb. lia.
  - assert (0 ≤ n / 10) by (apply Z.div_pos; lia).
    destruct (IH (n / 10) (String (digit (n mod 10)) acc)) as (ds & He & Hne & Hall & k & Hk).
    { rewrite Nat2Z.inj_succ, Z.pow_succ_r in Hn by lia. split; [done|]. apply Z.div_lt_upper_bound; lia. }
    { destruct fuel; [|lia]. change (10 ^ Z.of_nat 1) with 10 in Hn. exfalso. apply Hz, Z.div_small. lia. }
    exists (ds +:+ String (digit (n mod 10)) ""). split_and!.
    + by rewrite He, string_app_assoc.
    + by destruct ds.
    + unfold str_forall in *. rewrite str_exists_app. simpl. rewrite Hd. by apply negb_true_iff in Hall as ->.
    + exists (k * 10). intros a. assert (∀ s t b, decimal b (s +:+ t) = decimal (decimal b s) t) as Happ.
      { intros s. induction s; intros; simpl; [done|]. done. }
      rewrite Happ, Hk. simpl. rewrite Hb. lia.
Qed.

Lemma FormatInt_spec n : 0 ≤ n ≤ max_int64 →
  FormatInt n ≠ "" ∧ str_forall is_digit (FormatInt n) = true ∧ ParseInt (FormatInt n) = Some n.
Proof.
  intros Hn. unfold FormatInt.
  destruct (format_digits_spec 20 n "") as (ds & -> & Hne & Hall & k & Hk); [unfold max_int64 in Hn; lia|lia|].
  rewrite string_app_nil_r. split_and!; [done|done|].
  unfold ParseInt. destruct ds as [|c ds]; [done|]. pose proof Hall as Hall'. unfold str_forall in Hall'. cbn [str_exists] in Hall'.
  apply negb_true_iff, orb_false_iff in Hall' as [Hc%negb_false_iff _].
  assert (Ascii.eqb c "-" = false ∧ Ascii.eqb c "+" = false) as [-> ->].
  { clear -Hc. destruct c as [[] [] [] [] [] [] [] []]; by vm_compute in Hc |- *. }
  rewrite Hall, Hk. cbn [String.eqb negb orb]. rewrite Z.mul_0_l, Z.add_0_l.
  rewrite (proj2 (Z.leb_le min_int64 n)) by (unfold min_int64; lia). by rewrite (proj2 (Z.leb_le n max_int64)) by lia.
Qed.

(** ** White space *)

Definition plain (c : ascii) : bool := (byte_val c <? 0x80) && negb (IsSpace (byte_val c)).

Lemma pieces_plain s fuel : (String.length s ≤ fuel)%nat → str_forall plain s = true →
  foldr (λ x acc, x.2 +:+ acc) "" (pieces fuel s) = s ∧ Forall (λ x, IsSpace x.1 = false) (pieces fuel s).
Proof.
  revert s. induction fuel as [|fuel IH]; intros [|c s] Hlen Hall; try done; simpl in Hlen; [lia|].
  unfold str_forall in Hall. cbn [str_exists] in Hall. apply negb_true_iff, orb_false_iff in Hall as [Hc%negb_false_iff Hs].
  unfold plain in Hc. apply andb_true_iff in Hc as [Hlow Hsp%negb_true_iff].
  destruct (IH s) as [Hcat Hfor]; [lia|unfold str_forall; by rewrite Hs|]. cbn [pieces]. unfold DecodeRune. rewrite Hlow.
  cbn [String.length]. replace (S (String.length s) - String.length s)%nat with 1%nat by lia. cbn [foldr snd str_take String.append].
  split; [by rewrite Hcat|]. by constructor.
Qed.

Lemma drop_spaces_none l : Forall (λ x : Z * string, IsSpace x.1 = false) l → drop_spaces l = l.
Proof. intros H. destruct H as [|x l Hx _]; [done|]. cbn [drop_spaces]. by rewrite Hx. Qed.

Lemma TrimSpace_plain s : str_forall plain s = true → TrimSpace s = s.
Proof.
  intros Hs. destruct (pieces_plain s (String.length s) ltac:(lia) Hs) as [Hcat Hfor]. unfold TrimSpace.
  rewrite (drop_spaces_none (pieces _ s)) by done. rewrite drop_spaces_none by (by apply Forall_reverse).
  by rewrite reverse_involutive.
Qed.

Lemma digit_plain c : is_digit c = true → plain c = true.
Proof. destruct c as [[] [] [] [] [] [] [] []]; by vm_compute. Qed.

Lemma count_digits_app ds c u : str_forall is_digit ds = true → is_digit c = false →
  count_digits (ds +:+ String c u) = String.length ds.
Proof.
  intros Hds Hc. induction ds as [|d ds IH]; [simpl; by rewrite Hc|]. unfold str_forall in *. cbn [str_exists] in Hds.
  apply negb_true_iff, orb_false_iff in Hds as [Hd%negb_false_iff Hds]. simpl. rewrite Hd, IH; [done|by rewrite Hds].
Qed.

(** The units [FormatDuration] uses. *)
Lemma unit_facts size u : (size, u) ∈ format_units →
  parse_unit u = Some (size, "") ∧ str_forall plain u = true ∧ 0 < size ∧ size mod Millisecond = 0
  ∧ u ∈ ["d"; "h"; "m"; "s"; "ms"] ∧ ∃ c u', u = String c u' ∧ is_digit c = false.
Proof.
  unfold format_units. intros H. repeat (apply elem_of_cons in H as [[= -> ->]|H]; [|]); [..|by apply elem_of_nil in H].
  all: split_and!; [done|done|done|done|apply (bool_decide_unpack _); vm_compute; exact I|by eexists _, _].
Qed.

Lemma format_in_spec units d s : format_in units d = Some s →
  ∃ size u, (size, u) ∈ units ∧ size ≤ d ∧ d mod size = 0 ∧ s = FormatInt (d / size) +:+ u.
Proof.
  induction units as [|[size u] units IH]; [done|]. cbn [format_in]. destruct ((size <=? d) && (d mod size =? 0)) eqn:Hc.
  - intros [= <-]. apply andb_true_iff in Hc as [Hle%Z.leb_le Hm%Z.eqb_eq]. exists size, u. split_and!; [apply list_elem_of_here|done..].
  - intros (size' & u' & Hin & H)%IH. exists size', u'. split; [by apply list_elem_of_further|done].
Qed.

Lemma format_in_ms d : 0 < d → d mod Millisecond = 0 → format_in format_units d ≠ None.
Proof.
  intros Hd Hm. assert (Millisecond ≤ d).
  { destruct (Z.lt_ge_cases d Millisecond); [|done]. rewrite Z.mod_small in Hm by lia. lia. }
  unfold format_units. cbn [format_in].
  repeat (match goal with |- (if ?b then _ else _) ≠ None => destruct b eqn:?; [done|] end).
  match goal with H : (Millisecond <=? d) && _ = false |- _ => rewrite Hm, andb_true_r in H; apply Z.leb_gt in H end. lia.
Qed.

(** Durations round trip.  What [FormatDuration] prints for a whole number
of milliseconds parses back to it: the printed text has no float reading and is
one group of digits with its unit. *)
Theorem ParsePromDuration_FormatDuration (ParseFloat : string → option float) (seconds : float → Z) (d : Z) :
  (∀ ds u, str_forall is_digit ds = true → u ∈ ["d"; "h"; "m"; "s"; "ms"] → ParseFloat (ds +:+ u) = None) →
  0 < d ≤ max_int64 → d mod Millisecond = 0 →
  ParsePromDuration ParseFloat seconds (FormatDuration d) = Some d.
Proof.
  intros Hpf Hd Hm. unfold FormatDuration. destruct (Z.leb_spec d 0); [lia|].
  destruct (format_in format_units d) as [s|] eqn:Hf; [|by apply format_in_ms in Hf; [|lia|]].
  apply format_in_spec in Hf as (size & u & Hin & Hle & Hmod & ->).
  destruct (unit_facts _ _ Hin) as (Hpu & Hplain & Hpos & _ & Hu & c & u' & Huc & Hc).
  pose proof (Z.div_mod d size ltac:(lia)) as Hdm. rewrite Hmod in Hdm.
  assert (0 ≤ d / size) by (apply Z.div_pos; lia).
  assert (d / size ≤ max_int64) by (apply Z.div_le_upper_bound; [lia|nia]).
  destruct (FormatInt_spec (d / size) ltac:(lia)) as (Hne & Hdig & Hparse). set (ds := FormatInt (d / size)) in *.
  unfold ParsePromDuration. rewrite TrimSpace_plain
    by (rewrite str_forall_app, Hplain, (str_forall_impl _ _ _ digit_plain Hdig); done).
  destruct (String.eqb_spec (ds +:+ u) "") as [He|_]; [by destruct ds|]. rewrite Hpf by done.
  destruct (String.length (ds +:+ u)) as [|fuel] eqn:Hlen; [rewrite string_length_app in Hlen; destruct ds; simpl in Hlen; [done|lia]|].
  cbn [parse_groups]. destruct (String.eqb_spec (ds +:+ u) "") as [He|_]; [by destruct ds|].
  assert (count_digits (ds +:+ u) = String.length ds) as -> by (rewrite Huc; by apply count_digits_app).
  destruct (Nat.eqb_spec (String.length ds) 0) as [Hz|_]; [by destruct ds|].
  rewrite str_take_app, Hparse, str_drop_app, Hpu, Z.add_0_l.
  rewrite !(wrap_int64_id (d / size * size)) by (unfold int64_range, min_int64, max_int64 in *; nia).
  replace (d / size * size) with d by lia. by destruct fuel.
Qed.

(** A parser that knows only plain digits. *)
Definition digits_float (s : string) : option float := if negb (String.eqb s "") && str_forall is_digit s then Some 1%float else None.

Lemma digits_float_units ds u : str_forall is_digit ds = true → u ∈ ["d"; "h"; "m"; "s"; "ms"] → digits_float (ds +:+ u) = None.
Proof.
  intros Hds Hu. unfold digits_float. rewrite str_forall_app.
  repeat (apply elem_of_cons in Hu as [->|Hu]; [change (str_forall is_digit _ && str_forall is_digit _) with (str_forall is_digit ds && false); by rewrite !andb_false_r|]).
  by apply elem_of_nil in Hu.
Qed.

Lemma ParsePromDuration_FormatDuration_witness :
  FormatDuration (90 * Minute) = "90m" ∧ ParsePromDuration digits_float (λ _, 0) (FormatDuration (90 * Minute)) = Some (90 * Minute).
Proof.
  split; [vm_compute; reflexivity|].
  refine (ParsePromDuration_FormatDuration digits_float (λ _, 0) (90 * Minute) digits_float_units _ _); [|vm_compute; reflexivity].
  split; vm_compute; [reflexivity|discriminate].
Defined.

(** ** Outside these bounds *)

(** A fraction of a millisecond is printed in a form the parser refuses. *)
Lemma fraction_not_parsed (seconds : float → Z) :
  FormatDuration (1500 * Microsecond) = "1.5ms" ∧ ParsePromDuration digits_float seconds "1.5ms" = None.
Proof. split; vm_compute; reflexivity. Qed.

(** Within a day of the largest duration the snap wraps around: a step the
parser accepts becomes negative. *)
Lemma SelectStep_wraps :
  ParsePromDuration digits_float (λ _, 0) "106751d" = Some (106751 * Day)
  ∧ (SelectStep {| st_Start := 0; st_End := Hour; st_UserStep := 106751 * Day; st_ScrapeInterval := 0; st_MaxPoints := 0 |}).1 < 0.
Proof. split; vm_compute; reflexivity. Qed.
