(* ===== verification/Sanitize.v ===== *)
(** Text from monitored clusters: [src/internal/render/sanitize.go] and
[table.go].

A string is a sequence of bytes and its runes are what [range] visits.  The
proofs work on runes: [utf8] writes them, [runes] reads them back, and the
byte-wise replacements of [Sanitize] commute with [utf8] because they look for
ASCII only.  [strings.Repeat] panics on a negative count, which [Table] has to
exclude. *)

From S2P Require Import Prelude Text Utf8.
Open Scope string_scope.
Open Scope Z_scope.

(** * [Sanitize] *)

Definition MaxLabelValueBytes : Z := 256.
Definition MaxHelpRunes : Z := 200.
Definition MaxScrapeErrorRunes : Z := 300.
Definition MaxAnnotationRunes : Z := 500.
Definition MaxURLRunes : Z := 512.
Definition ClipMarker : string := utf8 [0x2026] +:+ "[clipped]".

Definition Forbidden (r : Z) : bool :=
  if r =? RuneError then true
  else if (r <? 0x20) || (r =? 0x7F) || (0x80 <=? r) && (r <=? 0x9F) then true
  else if (0x200B <=? r) && (r <=? 0x200F) then true
  else if (0x202A <=? r) && (r <=? 0x202E) then true
  else if (0x2066 <=? r) && (r <=? 0x2069) then true
  else if r =? 0xFEFF then true
  else false.

(** [strings.ReplaceAll] for a non-empty [old]; [skip] bytes belong to the
match already replaced. *)
Fixpoint replace_all (old new : string) (skip : nat) (s : string) : string :=
  match s with
  | EmptyString => ""
  | String c s' =>
    match skip with
    | S skip => replace_all old new skip s'
    | O => if HasPrefix s old then new +:+ replace_all old new (String.length old - 1) s'
           else String c (replace_all old new 0 s')
    end
  end.
Definition ReplaceAll (s old new : string) : string := replace_all old new 0 s.

Definition backtick : ascii := "`".

(** A run of [n] backticks as [tripleBacktick.ReplaceAllStringFunc] leaves it:
escaped when it is a fence. *)
Fixpoint ticks (n : nat) (s : string) : string := match n with O => s | S n => String backtick (ticks n s) end.
Fixpoint escaped_ticks (n : nat) (s : string) : string := match n with O => s | S n => String "\" (String backtick (escaped_ticks n s)) end.
Definition run_of (n : nat) (s : string) : string := if (3 <=? n)%nat then escaped_ticks n s else ticks n s.

(** The replacement, [n] backticks into a run. *)
Fixpoint defence (n : nat) (s : string) : string :=
  match s with
  | EmptyString => run_of n ""
  | String c s => if Ascii.eqb c backtick then defence (S n) s else run_of n (String c (defence 0 s))
  end.

(** The loop over the runes: the builder, [pendingSpace] and [wrote]. *)
Definition fold_rune (st : string * bool * bool) (r : Z) : string * bool * bool :=
  let '(b, pendingSpace, wrote) := st in
  if IsSpace r || (r =? 0x85) then (b, if wrote then true else pendingSpace, wrote)
  else if Forbidden r then (b, pendingSpace, wrote)
  else ((if pendingSpace then b +:+ " " else b) +:+ EncodeRune r, false, true).

Definition Sanitize (s : string) : string :=
  if String.eqb s "" then ""
  else
    let '(out, _, _) := foldl fold_rune ("", false, false) (runes s) in
    let out := defence 0 out in
    let out := ReplaceAll out "<|" "<\|" in
    ReplaceAll out "|>" "|\>".

(** * Clipping *)

Definition ClipRunes (s : string) (max : Z) : string :=
  let s := Sanitize s in
  if max <=? 0 then ""
  else if RuneCount s <=? max then s
  else utf8 (take (Z.to_nat max) (runes s)) +:+ ClipMarker.

(** The loop that moves [cut] back to the start of a rune. *)
Fixpoint back_to_start (s : string) (cut : nat) : nat :=
  match cut with
  | O => O
  | S cut' => match str_drop cut s with
              | String c _ => if RuneStart c then cut else back_to_start s cut'
              | EmptyString => cut
              end
  end.

Definition ClipBytes (s : string) (max : Z) : string :=
  let s := Sanitize s in
  if max <=? 0 then ""
  else if Z.of_nat (String.length s) <=? max then s
  else str_take (back_to_start s (Z.to_nat max)) s +:+ ClipMarker.

Definition LabelValue (s : string) : string := ClipBytes s MaxLabelValueBytes.
Definition Help (s : string) : string := ClipRunes s MaxHelpRunes.
Definition ScrapeError (s : string) : string := ClipRunes s MaxScrapeErrorRunes.
Definition Annotation (s : string) : string := ClipRunes s MaxAnnotationRunes.

(** * Label sets *)

Definition name_start (c : ascii) : bool := in_range 0x61 0x7A c || in_range 0x41 0x5A c || Ascii.eqb c "_".
Definition name_inner (c : ascii) : bool := name_start c || is_digit c.

(** [labelNameRE]. *)
Definition render_labelNameRE (s : string) : bool :=
  match s with EmptyString => false | String c s => name_start c && str_forall name_inner s end.
Definition ValidLabelName (name : string) : bool := (String.length name <=? 128)%nat && render_labelNameRE name.

(** [Labels], over the entries in the order the map yields them; a nil map and
an empty one are the same here. *)
Definition label_loop (entries : list (string * string)) : gmap string string :=
  foldl (λ out '(k, v), if negb (ValidLabelName k) then out else <[k := LabelValue v]> out) ∅ entries.
Definition render_Labels (m : gmap string string) : gmap string string := label_loop (map_to_list m).

Record URLRef := { URL : string; URLHost : string; Followable : bool }.

Section urls.
(** [url.Parse] followed by [Hostname]. *)
Context (url_Hostname : string → option string).

Definition NewURLRef (raw : string) : option URLRef :=
  let clean := ClipRunes raw MaxURLRunes in
  if String.eqb clean "" then None
  else Some {| URL := clean; Followable := false;
               URLHost := match url_Hostname clean with Some h => ClipRunes h 253 | None => "" end |}.
End urls.

(** * Tables *)

Definition MaxTableCellRunes : Z := 64.

(** [strings.Repeat] of one byte: [None] is its panic. *)
Fixpoint rep (c : ascii) (n : nat) : string := match n with O => "" | S n => String c (rep c n) end.
Definition Repeat (c : ascii) (n : Z) : option string := if n <? 0 then None else Some (rep c (Z.to_nat n)).

Definition clean (s : string) : string := ClipRunes s MaxTableCellRunes.

Definition lf : ascii := ascii_of_nat 10.

(** The cells of a row, padded to [cols]. *)
Definition cells (cols : nat) (r : list string) : list string := (λ i, match r !! i with Some s => clean s | None => "" end) <$> seq 0 cols.

(** The widths after a row was seen. *)
Definition widen (widths : list Z) (row : list string) : list Z := zip_with (λ w c, Z.max w (RuneCount c)) widths row.

(** [writeRow], from column [i] on. *)
Fixpoint writeRow (widths : list Z) (row : list string) : option string :=
  match row, widths with
  | [], _ => Some (String lf "")
  | [c], _ => Some (c +:+ String lf "")
  | c :: row, w :: widths =>
    pad ← Repeat " " (w - RuneCount c + 2);
    rest ← writeRow widths row;
    Some (c +:+ pad +:+ rest)
  | _, [] => None
  end.

Definition Table (headers : list string) (rows : list (list string)) : option string :=
  let cols := foldl (λ n r, Nat.max n (length r)) (length headers) rows in
  if (cols =? 0)%nat then Some ""
  else
    let head := cells cols headers in
    let body := cells cols <$> rows in
    let widths := foldl widen (RuneCount <$> head) body in
    sep ← mapM (λ w, Repeat "-" w) widths;
    lines ← mapM (writeRow widths) (head :: sep :: body);
    Some (foldr String.append "" lines).

Example sanitize_examples :
  Sanitize (String lf "a" +:+ String lf (String " " "b ") +:+ String (ascii_of_nat 7) "c") = "a b c"
  ∧ Sanitize "x```y``<|im|>" = "x\`\`\`y``<\|im|\>" ∧ Sanitize "<|>" = "<\|\>"
  ∧ ClipBytes "abcdef" 3 = "abc" +:+ ClipMarker ∧ ClipRunes (utf8 [0xE9; 0xE9; 0xE9]) 2 = utf8 [0xE9; 0xE9] +:+ ClipMarker
  ∧ Table ["a"; "bb"] [["ccc"]] = Some ("a    bb" +:+ String lf "---  --" +:+ String lf "ccc  " +:+ String lf "").
Proof. vm_compute. done. Qed.

(** * What is left is inert

Nothing a terminal, a transcript or a chat template would act on, and no white
space but spaces. *)

Definition inert (s : string) : bool :=
  forallb (λ r, negb (Forbidden r) && (negb (IsSpace r) || (r =? 0x20))) (runes s)
  && negb (str_Contains s "```") && negb (str_Contains s "<|") && negb (str_Contains s "|>").

(** Spaces stand alone and inside. *)
Definition tidy (s : string) : bool :=
  negb (str_Contains s "  ") && negb (HasPrefix s " ") && negb (HasSuffix s " ").

(** The runes that must come through unchanged. *)
Definition visible (r : Z) : bool := negb (IsSpace r) && negb (Forbidden r) && negb (r =? 0x5C).

Definition allowed (r : Z) : Prop := scalar r ∧ Forbidden r = false ∧ (IsSpace r = true → r = 0x20).

(** ** Escaping a pair of bytes *)

Fixpoint split_pair (x y : ascii) (s : string) : string :=
  match s with
  | EmptyString => ""
  | String c s' =>
    String c ((if Ascii.eqb c x && match s' with String d _ => Ascii.eqb d y | "" => false end then String "\" "" else "") +:+ split_pair x y s')
  end.

Lemma HasPrefix_pair c s x y : HasPrefix (String c s) (String x (String y "")) = Ascii.eqb c x && match s with String d _ => Ascii.eqb d y | "" => false end.
Proof.
  unfold HasPrefix. simpl. destruct (Ascii.eqb_spec c x) as [->|Hne]; [|by destruct (ascii_dec x c)].
  destruct (ascii_dec x x); [|done]. destruct s as [|d s]; [done|]. simpl.
  destruct (Ascii.eqb_spec d y) as [->|Hne]; [|by destruct (ascii_dec y d)]. destruct (ascii_dec y y); [|done]. by destruct s.
Qed.

Lemma ReplaceAll_pair x y s : x ≠ y →
  ReplaceAll s (String x (String y "")) (String x (String "\" (String y ""))) = split_pair x y s.
Proof.
  intros Hne. unfold ReplaceAll. cut (∀ s, replace_all (String x (String y "")) (String x (String "\" (String y ""))) 0 s = split_pair x y s
    ∧ ∀ s', s = String y s' → replace_all (String x (String y "")) (String x (String "\" (String y ""))) 1 s = split_pair x y s'); [naive_solver|].
  clear s. intros s. induction s as [|c s [IH1 IH2]]; [done|]. split.
  - cbn [replace_all]. rewrite HasPrefix_pair. cbn [split_pair]. destruct (Ascii.eqb c x && _) eqn:Hc.
    + apply andb_true_iff in Hc as [->%Ascii.eqb_eq Hd]. destruct s as [|d s]; [done|]. apply Ascii.eqb_eq in Hd as ->.
      cbn [String.length Nat.sub]. rewrite (IH2 s eq_refl). simpl. f_equal. f_equal. f_equal.
      destruct (Ascii.eqb_spec y x); [congruence|]. done.
    + simpl. by rewrite IH1.
  - intros s' [= -> <-]. cbn [replace_all]. apply IH1.
Qed.

(** It separates the pair, and is the identity where there is none. *)
Lemma split_pair_separates x y s : x ≠ "\"%char → y ≠ "\"%char → str_Contains (split_pair x y s) (String x (String y "")) = false.
Proof.
  intros Hx Hy. induction s as [|c s IH]; [done|]. cbn [split_pair].
  destruct (Ascii.eqb c x && match s with String d _ => Ascii.eqb d y | "" => false end) eqn:Hc.
  - simpl (_ +:+ _). cbn [str_Contains]. rewrite !HasPrefix_pair, IH.
    destruct (Ascii.eqb_spec "\"%char y); [congruence|]. destruct (Ascii.eqb_spec "\"%char x); [congruence|].
    by rewrite andb_false_r.
  - simpl (_ +:+ _). cbn [str_Contains]. rewrite HasPrefix_pair, IH, orb_false_r. by destruct s.
Qed.

Lemma split_pair_id x y s : str_Contains s (String x (String y "")) = false → split_pair x y s = s.
Proof.
  induction s as [|c s IH]; [done|]. cbn [str_Contains split_pair]. rewrite orb_false_iff, HasPrefix_pair. intros [-> Hs].
  simpl. by rewrite IH.
Qed.

(** ** Fences *)

Lemma ticks_S n s : ticks (S n) s = ticks n (String backtick s).
Proof. induction n as [|n IH]; [done|]. cbn [ticks] in *. by rewrite IH. Qed.

Lemma HasPrefix_cons c s d p : HasPrefix (String c s) (String d p) = Ascii.eqb c d && HasPrefix s p.
Proof.
  unfold HasPrefix. simpl. destruct (Ascii.eqb_spec c d) as [->|Hne]; [by destruct (ascii_dec d d)|]. by destruct (ascii_dec d c).
Qed.

Lemma HasPrefix_nil s : HasPrefix s "" = true.
Proof. by destruct s. Qed.

Lemma run_of_no_fence n t : HasPrefix t "`" = false → str_Contains t "```" = false → str_Contains (run_of n t) "```" = false.
Proof.
  intros Hp Ht. unfold run_of. destruct (Nat.leb_spec 3 n) as [_|Hn].
  - induction n as [|n IH]; [done|]. cbn [escaped_ticks]. cbn [str_Contains]. rewrite !HasPrefix_cons, IH, orb_false_r.
    destruct n; cbn [escaped_ticks]; [|by rewrite !HasPrefix_cons].
    assert (HasPrefix t "``" = false) as ->; [|by rewrite andb_false_r].
    destruct t as [|c t]; [done|]. rewrite HasPrefix_cons in Hp |- *. rewrite HasPrefix_nil, andb_true_r in Hp. by rewrite Hp.
  - destruct t as [|c t]; [by destruct n as [|[|[|]]]; try lia|].
    rewrite HasPrefix_cons, HasPrefix_nil, andb_true_r in Hp.
    destruct n as [|[|[|]]]; try lia; [done| |]; cbn [ticks str_Contains]; rewrite !HasPrefix_cons, Hp; cbn [str_Contains] in Ht;
      rewrite ?HasPrefix_cons, ?Hp in Ht; rewrite ?andb_false_r; exact Ht.
Qed.

Lemma defence_no_fence n s : str_Contains (defence n s) "```" = false.
Proof.
  revert n. induction s as [|c s IH]; intros n; cbn [defence]; [by apply run_of_no_fence|].
  destruct (Ascii.eqb c backtick) eqn:Hc; [done|]. unfold backtick in Hc. apply run_of_no_fence.
  - by rewrite HasPrefix_cons, Hc.
  - cbn [str_Contains]. by rewrite HasPrefix_cons, Hc, IH.
Qed.

Lemma ticks_fence n s : (3 ≤ n)%nat → str_Contains (ticks n s) "```" = true.
Proof. intros Hn. do 3 (destruct n as [|n]; [lia|]). cbn [ticks str_Contains]. rewrite !HasPrefix_cons. by destruct (ticks n s). Qed.

Lemma Contains_ticks n s p : str_Contains (ticks n s) p = false → str_Contains s p = false.
Proof. induction n as [|n IH]; [done|]. cbn [ticks str_Contains]. intros [_ H]%orb_false_iff. auto. Qed.

Lemma defence_id n s : str_Contains (ticks n s) "```" = false → defence n s = ticks n s.
Proof.
  assert (∀ n t, str_Contains (ticks n t) "```" = false → run_of n t = ticks n t) as Hrun.
  { intros m t Hm. unfold run_of. destruct (Nat.leb_spec 3 m); [|done]. by rewrite ticks_fence in Hm. }
  revert n. induction s as [|c s IH]; intros n Hn; cbn [defence]; [by apply Hrun|].
  destruct (Ascii.eqb_spec c backtick) as [->|Hc]; [by rewrite <- ticks_S; apply IH; rewrite ticks_S|].
  assert (defence 0 s = s) as ->; [|by apply Hrun]. apply IH. apply Contains_ticks in Hn. cbn [str_Contains] in Hn. by apply orb_false_iff in Hn as [_ ?].
Qed.

(** ** Backslashes before visible ASCII *)

Inductive escapes : string → string → Prop :=
| escapes_nil : escapes "" ""
| escapes_keep c s t : escapes s t → escapes (String c s) (String c t)
| escapes_add c s t : high c = false → c ≠ " "%char → escapes (String c s) t → escapes (String c s) (String "\" t).

Lemma escapes_refl s : escapes s s.
Proof. induction s; by constructor. Qed.

Lemma defence_escapes n s : escapes (ticks n s) (defence n s).
Proof.
  assert (∀ n s t, escapes s t → escapes (ticks n s) (run_of n t)) as Hrun.
  { intros m s' t H. unfold run_of. destruct (3 <=? m)%nat; induction m; cbn [ticks escaped_ticks]; try done; [|by constructor].
    apply escapes_add; [done..|]. by constructor. }
  revert n. induction s as [|c s IH]; intros n; cbn [defence]; [apply Hrun; constructor|].
  destruct (Ascii.eqb_spec c backtick) as [->|Hc]; [rewrite <- ticks_S; apply IH|]. apply Hrun. constructor. apply (IH 0%nat).
Qed.

Lemma split_pair_escapes x y s : high y = false → y ≠ " "%char → escapes s (split_pair x y s).
Proof.
  intros Hy Hsp. induction s as [|c s IH]; [constructor|]. cbn [split_pair]. constructor.
  destruct (Ascii.eqb c x && _) eqn:Hc; [|done]. apply andb_true_iff in Hc as [_ Hd]. destruct s as [|d s]; [done|].
  apply Ascii.eqb_eq in Hd as ->. by constructor.
Qed.

Lemma escapes_HasPrefix s t p : escapes s t → str_forall (λ c, negb (Ascii.eqb c "\")) p = true → HasPrefix t p = true → HasPrefix s p = true.
Proof.
  intros Hst. revert p. induction Hst as [|c s t _ IH|c s t Hc Hsp _ IH]; intros p Hp Ht; [done|..].
  - destruct p as [|d p]; [done|]. rewrite HasPrefix_cons in *. apply andb_true_iff in Ht as [-> Ht].
    unfold str_forall in Hp. cbn [str_exists] in Hp. rewrite negb_orb in Hp. apply andb_true_iff in Hp as [_ Hp]. by apply IH.
  - destruct p as [|d p]; [done|]. rewrite HasPrefix_cons in Ht. apply andb_true_iff in Ht as [Hd%Ascii.eqb_eq _]. by subst d.
Qed.

Lemma escapes_Contains s t p : escapes s t → str_forall (λ c, negb (Ascii.eqb c "\")) p = true → p ≠ "" →
  str_Contains s p = false → str_Contains t p = false.
Proof.
  intros Hst Hp Hne Hs. destruct (str_Contains t p) eqn:Ht; [|done]. rewrite <- Hs. symmetry.
  assert (HasPrefix t p = true → str_Contains s p = true) as Hhead.
  { intros H. apply (escapes_HasPrefix s) in H; [|done..]. destruct s; cbn [str_Contains]; by rewrite H. }
  clear Hs. induction Hst as [|c s t Hst IH|c s t Hc Hsp Hst IH]; [done|..]; cbn [str_Contains] in Ht.
  - cbn [str_Contains]. apply orb_true_iff in Ht as [Ht|Ht]; [by apply Hhead|]. rewrite IH; [apply orb_true_r|done|].
    intros H. apply (escapes_HasPrefix s) in H; [|done..]. destruct s; cbn [str_Contains]; by rewrite H.
  - apply orb_true_iff in Ht as [Ht|Ht]; [by apply Hhead|]. apply IH; [done|].
    intros H. apply (escapes_HasPrefix _ _ _ Hst) in H; [|done]. cbn [str_Contains]. by rewrite H.
Qed.

Lemma escapes_HasSuffix s t : escapes s t → HasSuffix s " " = false → HasSuffix t " " = false.
Proof.
  assert (∀ c s, HasSuffix (String c s) " " = (if String.eqb s "" then Ascii.eqb c " " else HasSuffix s " ")) as Hcons.
  { intros c [|d s']; cbn [HasSuffix String.eqb]; [by destruct (Ascii.eqb_spec c " ")|]. by destruct (Ascii.eqb c " "). }
  induction 1 as [|c s t Hst IH|c s t Hc Hsp Hst IH]; [done|..]; rewrite !Hcons.
  - destruct Hst; [done|..]; exact IH.
  - intros H. rewrite Hcons in IH. apply IH in H. destruct (String.eqb t ""); done.
Qed.

Lemma escapes_tidy s t : escapes s t → tidy s = true → tidy t = true.
Proof.
  intros Hst. unfold tidy. rewrite !andb_true_iff, !negb_true_iff. intros [[H1 H2] H3]. split_and!.
  - by apply (escapes_Contains s).
  - destruct (HasPrefix t " ") eqn:Ht; [|done]. by rewrite (escapes_HasPrefix s t " ") in H2.
  - by apply (escapes_HasSuffix s).
Qed.

Lemma escapes_high h s t : str_forall high h = true → escapes (h +:+ s) t → ∃ t', t = h +:+ t' ∧ escapes s t'.
Proof.
  revert t. induction h as [|c h IH]; intros t Hh Ht; [by exists t|]. unfold str_forall in Hh. cbn [str_exists] in Hh.
  rewrite negb_orb, negb_involutive in Hh. apply andb_true_iff in Hh as [Hc Hh]. simpl in Ht. inversion Ht as [|? ? t' Ht'|? ? ? Hlow]; subst; [|congruence].
  destruct (IH _ Hh Ht') as (t'' & -> & ?). by exists t''.
Qed.

Lemma escapes_utf8 o t : Forall scalar o → escapes (utf8 o) t →
  ∃ o', t = utf8 o' ∧ Forall scalar o' ∧ filter (λ r, r ≠ 0x5C) o' = filter (λ r, r ≠ 0x5C) o ∧ ∀ r, r ∈ o' → r ∈ o ∨ r = 0x5C.
Proof.
  intros Ho. revert t. induction Ho as [|r o Hr Ho IH]; intros t Ht.
  { inversion Ht. subst. exists []. split_and!; [done|constructor|done|]. by intros r ?%elem_of_nil. }
  cbn [utf8 foldr] in Ht. fold (utf8 o) in Ht. destruct (Z.lt_ge_cases r 0x80) as [Hlow|Hge].
  - rewrite encode_ascii in Ht by (destruct Hr; lia). simpl in Ht. remember (String (byte r) (utf8 o)) as s eqn:Hs.
    induction Ht as [|c s t Ht _|c s t Hc Hsp Ht IH']; [done|..].
    + injection Hs as -> ->. destruct (IH t Ht) as (o' & -> & Hsc & Hf & Hin). exists (r :: o'). split_and!.
      * cbn [utf8 foldr]. rewrite encode_ascii by (destruct Hr; lia). done.
      * by constructor.
      * rewrite !filter_cons. by rewrite Hf.
      * intros x [->|Hx]%elem_of_cons; [left; apply list_elem_of_here|]. destruct (Hin x Hx); [left; by apply list_elem_of_further|by right].
    + destruct (IH' Hs) as (o' & -> & Hsc & Hf & Hin). exists (0x5C :: o'). split_and!.
      * done.
      * constructor; [|done]. split; lia.
      * by rewrite filter_cons_False by (by intros H).
      * intros x [->|Hx]%elem_of_cons; [by right|auto].
  - destruct (encode_high r Hr Hge) as (c & h & He & Hc & Hh). rewrite He in Ht.
    destruct (escapes_high (String c h) (utf8 o) t) as (t' & -> & Ht').
    { unfold str_forall in *. cbn [str_exists]. by rewrite Hc. } { done. }
    destruct (IH t' Ht') as (o' & -> & Hsc & Hf & Hin). exists (r :: o'). split_and!.
    + cbn [utf8 foldr]. by rewrite He.
    + by constructor.
    + rewrite !filter_cons. by rewrite Hf.
    + intros x [->|Hx]%elem_of_cons; [left; apply list_elem_of_here|]. destruct (Hin x Hx); [left; by apply list_elem_of_further|by right].
Qed.

(** ** Spaces, one rune or byte at a time *)

(** [gap]: at the start or after a space. *)
Fixpoint neat (gap : bool) (o : list Z) : bool :=
  match o with [] => negb gap | r :: o => if r =? 0x20 then negb gap && neat true o else neat false o end.

Fixpoint neat_bytes (gap : bool) (s : string) : bool :=
  match s with
  | EmptyString => negb gap
  | String c s => if Ascii.eqb c " " then negb gap && neat_bytes true s else neat_bytes false s
  end.

Lemma neat_utf8 gap o : Forall scalar o → neat_bytes gap (utf8 o) = neat gap o.
Proof.
  intros Ho. revert gap. induction Ho as [|r o Hr Ho IH]; intros gap; [done|]. cbn [utf8 foldr neat]. fold (utf8 o).
  assert (∀ c h s, high c = true → str_forall high h = true → neat_bytes gap (String c h +:+ s) = neat_bytes false s) as Hskip.
  { intros c h s Hc Hh. revert c Hc gap. unfold str_forall in Hh. induction h as [|d h IHh]; intros c Hc gap.
    - simpl. destruct (Ascii.eqb_spec c " ") as [->|]; done.
    - cbn [str_exists] in Hh. rewrite negb_orb, negb_involutive in Hh. apply andb_true_iff in Hh as [Hd Hh].
      change (String c (String d h) +:+ s) with (String c (String d h +:+ s)). cbn [neat_bytes].
      destruct (Ascii.eqb_spec c " ") as [->|]; [done|]. by apply IHh. }
  destruct (Z.lt_ge_cases r 0x80) as [Hlow|Hge].
  - rewrite encode_ascii by (destruct Hr; lia). simpl. destruct (Z.eqb_spec r 0x20) as [->|Hne]; [simpl; by rewrite IH|].
    destruct (Ascii.eqb_spec (byte r) " ") as [He|]; [|by rewrite IH]. apply (f_equal byte_val) in He.
    rewrite byte_val_byte in He by (destruct Hr; lia). by change (byte_val " ") with 0x20 in He.
  - destruct (encode_high r Hr Hge) as (c & h & -> & Hc & Hh). rewrite Hskip, IH by done. by destruct (Z.eqb_spec r 0x20); [lia|].
Qed.

Lemma neat_bytes_spec gap s :
  neat_bytes gap s = true ↔ str_Contains s "  " = false ∧ HasSuffix s " " = false ∧ (gap = true → HasPrefix s " " = false ∧ s ≠ "").
Proof.
  revert gap. induction s as [|c s IH]; intros gap; [destruct gap; naive_solver|]. cbn [neat_bytes str_Contains].
  rewrite !HasPrefix_cons, HasPrefix_nil, andb_true_r, orb_false_iff.
  assert (HasSuffix (String c s) " " = if String.eqb s "" then Ascii.eqb c " " else HasSuffix s " ") as ->.
  { destruct s as [|d s]; cbn [HasSuffix String.eqb]; [by destruct (Ascii.eqb_spec c " ")|]. by destruct (Ascii.eqb c " "). }
  destruct (Ascii.eqb c " "); simpl.
  - rewrite andb_true_iff, negb_true_iff, IH. destruct (String.eqb_spec s "") as [->|]; [naive_solver|]. destruct gap; naive_solver.
  - rewrite IH. destruct (String.eqb_spec s "") as [->|]; naive_solver.
Qed.

Lemma tidy_neat s : tidy s = true ↔ s = "" ∨ neat_bytes true s = true.
Proof.
  unfold tidy. rewrite neat_bytes_spec, !andb_true_iff, !negb_true_iff. destruct (decide (s = "")) as [->|]; naive_solver.
Qed.

Lemma neat_snoc gap o r : r ≠ 0x20 → o = [] ∨ neat gap o = true → neat gap (o ++ [r])%list = true.
Proof.
  intros Hr. revert gap. induction o as [|x o IH]; intros gap Ho; simpl; [by destruct (Z.eqb_spec r 0x20)|].
  destruct Ho as [|Ho]; [done|]. simpl in Ho. destruct (x =? 0x20).
  - apply andb_true_iff in Ho as [-> Ho]. simpl. auto.
  - auto.
Qed.

Lemma neat_gap_snoc gap o r : r ≠ 0x20 → o ≠ [] → neat gap o = true → neat gap (o ++ [0x20; r])%list = true.
Proof.
  intros Hr. revert gap. induction o as [|x o IH]; intros gap Hne Ho; [done|]. simpl in Ho |- *. destruct (x =? 0x20).
  - apply andb_true_iff in Ho as [-> Ho]. simpl. apply IH; [|done]. by destruct o.
  - destruct o as [|y o]; [simpl; by destruct (Z.eqb_spec r 0x20)|]. by apply IH.
Qed.

(** ** The loop *)

Lemma fold_rune_spec rs o p w : Forall (λ r, r = RuneError ∨ scalar r) rs →
  Forall allowed o → (o = [] ∨ neat true o = true) → (w = true ↔ o ≠ []) → (p = true → w = true) →
  ∃ o' p' w', foldl fold_rune (utf8 o, p, w) rs = (utf8 o', p', w') ∧ Forall allowed o' ∧ (o' = [] ∨ neat true o' = true)
    ∧ filter (λ r, visible r = true) o' = (filter (λ r, visible r = true) o ++ filter (λ r, visible r = true) rs)%list.
Proof.
  intros Hrs. revert o p w. induction Hrs as [|r rs Hr Hrs IH]; intros o p w Ho Hn Hw Hp.
  { exists o, p, w. rewrite filter_nil, app_nil_r. done. }
  cbn [foldl]. unfold fold_rune at 2. destruct (IsSpace r || (r =? 0x85)) eqn:Hsp.
  { assert (visible r = false) as Hv.
    { apply orb_true_iff in Hsp as [Hsp| ->%Z.eqb_eq]; [|done]. unfold visible. by rewrite Hsp. }
    rewrite filter_cons_False by congruence. apply IH; [done..|]. destruct w; [done|]. auto. }
  apply orb_false_iff in Hsp as [Hsp _].
  destruct (Forbidden r) eqn:Hf.
  { rewrite filter_cons_False by (unfold visible; by rewrite Hf, andb_false_r). by apply IH. }
  assert (scalar r) as Hsc by (destruct Hr as [->|]; done). assert (r ≠ 0x20) as H20 by (by intros ->).
  assert (allowed r) as Har by (split_and!; [done|done|congruence]).
  assert (utf8 [r] = EncodeRune r) as Hone by (cbn [utf8 foldr]; generalize (EncodeRune r); intros s; induction s; simpl; congruence).
  destruct p.
  - assert (o ≠ []) as Hne by (apply Hw, Hp; done).
    assert ((utf8 o +:+ " ") +:+ EncodeRune r = utf8 (o ++ [0x20; r])%list) as ->.
    { rewrite utf8_app, string_app_assoc. f_equal. rewrite <- Hone. done. }
    destruct (IH (o ++ [0x20; r])%list false true) as (o' & p' & w' & He & Hal & Hn' & Hfil).
    + apply Forall_app. split; [done|]. repeat apply Forall_cons_2; [|done|by apply Forall_nil_2]. split_and!; [split; lia|done|done].
    + right. apply neat_gap_snoc; [done|done|]. by destruct Hn.
    + split; [|done]. by destruct o.
    + done.
    + exists o', p', w'. split_and!; [done..|]. rewrite Hfil, filter_app, filter_cons_False, (filter_cons _ r []), filter_nil by done.
      rewrite (filter_cons _ r rs), <- app_assoc. by destruct (decide _).
  - assert (utf8 o +:+ EncodeRune r = utf8 (o ++ [r])%list) as -> by (by rewrite utf8_app, Hone).
    destruct (IH (o ++ [r])%list false true) as (o' & p' & w' & He & Hal & Hn' & Hfil).
    + apply Forall_app. split; [done|]. apply Forall_cons_2; [done|by apply Forall_nil_2].
    + right. by apply neat_snoc.
    + split; [|done]. by destruct o.
    + done.
    + exists o', p', w'. split_and!; [done..|]. rewrite Hfil, filter_app, (filter_cons _ r []), filter_nil.
      rewrite (filter_cons _ r rs), <- app_assoc. by destruct (decide _).
Qed.

Lemma fold_rune_id rs b p w : Forall allowed rs → neat (p || negb w) rs = true ∨ (rs = [] ∧ p = false) → (p = true → w = true) →
  (foldl fold_rune (b, p, w) rs).1.1 = (if p then b +:+ " " else b) +:+ utf8 rs.
Proof.
  intros Hrs. pose proof string_app_nil_r as Hnil.
  revert b p w. induction Hrs as [|r rs (Hsc & Hf & Hs) Hrs IH]; intros b p w Hn Hp.
  { destruct Hn as [Hn|[_ ->]]; [|simpl; by rewrite Hnil]. simpl in Hn. destruct p; [done|]. simpl. by rewrite Hnil. }
  destruct Hn as [Hn|[? _]]; [|done]. cbn [foldl]. unfold fold_rune at 2. cbn [neat] in Hn.
  destruct (Z.eqb_spec r 0x20) as [->|H20].
  - change (IsSpace 0x20 || (0x20 =? 0x85)) with true. cbn match. apply andb_true_iff in Hn as [Hg Hn]. destruct p; [done|]. destruct w; [|done].
    rewrite IH by (try done; by left). cbn [utf8 foldr]. by rewrite string_app_assoc.
  - assert (IsSpace r = false) as -> by (destruct (IsSpace r); [by exfalso; apply H20, Hs|done]).
    destruct (Z.eqb_spec r 0x85) as [->|_]; [done|]. simpl orb. cbn match. rewrite Hf.
    rewrite IH; [|by left|done]. cbn [utf8 foldr]. fold (utf8 rs). by rewrite string_app_assoc.
Qed.

(** ** The result *)

Lemma allowed_scalar o : Forall allowed o → Forall scalar o.
Proof. intros H. eapply Forall_impl; [exact H|]. by intros r []. Qed.

Lemma inert_spec s : inert s = true ↔
  Forall allowed (runes s) ∧ str_Contains s "```" = false ∧ str_Contains s "<|" = false ∧ str_Contains s "|>" = false.
Proof.
  unfold inert. rewrite !andb_true_iff, !negb_true_iff, forallb_forall, Forall_forall.
  assert ((∀ r, In r (runes s) → negb (Forbidden r) && (negb (IsSpace r) || (r =? 0x20)) = true) ↔ ∀ r, r ∈ runes s → allowed r) as ->; [|tauto].
  split; intros H r Hr.
  - apply list_elem_of_In in Hr as Hin. apply H in Hin. apply andb_true_iff in Hin as [Hf%negb_true_iff Hs]. split_and!; [|done|].
    + destruct (proj1 (Forall_forall _ _) (runes_scalar s) r Hr) as [->|]; done.
    + intros Hsp. rewrite Hsp in Hs. by apply Z.eqb_eq in Hs.
  - apply list_elem_of_In, H in Hr as (_ & Hf & Hs). rewrite Hf. simpl. destruct (IsSpace r); [|done]. by rewrite Hs.
Qed.

Lemma utf8_back o : Forall scalar o → runes (utf8 o) = o.
Proof. intros Ho. pose proof (runes_utf8 o "" Ho) as H. rewrite app_nil_r in H. rewrite <- H at 2. f_equal. generalize (utf8 o). intros s. induction s; simpl; congruence. Qed.

Lemma visible_filter (o : list Z) : filter (λ r, visible r = true) (filter (λ r, r ≠ 0x5C) o) = filter (λ r, visible r = true) o.
Proof.
  rewrite list_filter_filter. apply list_filter_iff. intros r. split; [by intros []|]. intros H. split; [done|]. intros ->. done.
Qed.

Lemma escapes_allowed o t : Forall allowed o → escapes (utf8 o) t →
  ∃ o', t = utf8 o' ∧ Forall allowed o' ∧ filter (λ r, visible r = true) o' = filter (λ r, visible r = true) o.
Proof.
  intros Ho Ht. destruct (escapes_utf8 o t (allowed_scalar _ Ho) Ht) as (o' & -> & Hsc & Hf & Hin). exists o'. split_and!; [done|..].
  - apply Forall_forall. intros r Hr. rewrite Forall_forall in Ho. destruct (Hin r Hr) as [| ->]; [by apply Ho|].
    split_and!; [split; lia|done|done].
  - by rewrite <- visible_filter, Hf, visible_filter.
Qed.

Lemma Sanitize_shape s : ∃ o, Sanitize s = utf8 o ∧ Forall allowed o ∧ tidy (Sanitize s) = true
  ∧ str_Contains (Sanitize s) "```" = false ∧ str_Contains (Sanitize s) "<|" = false ∧ str_Contains (Sanitize s) "|>" = false
  ∧ filter (λ r, visible r = true) o = filter (λ r, visible r = true) (runes s).
Proof.
  unfold Sanitize. destruct (String.eqb_spec s "") as [->|_]; [by exists []|].
  destruct (fold_rune_spec (runes s) [] false false (runes_scalar s)) as (o & p & w & He & Hal & Hn & Hfil);
    [by apply Forall_nil_2|by left|done|done|]. simpl in He. rewrite He. rewrite filter_nil in Hfil. simpl in Hfil.
  rewrite !ReplaceAll_pair by done. set (d := defence 0 (utf8 o)). set (e := split_pair "<" "|" d).
  pose proof (defence_escapes 0 (utf8 o)) as E1. fold d in E1. simpl in E1.
  pose proof (split_pair_escapes "<" "|" d eq_refl ltac:(done)) as E2. fold e in E2.
  pose proof (split_pair_escapes "|" ">" e eq_refl ltac:(done)) as E3.
  destruct (escapes_allowed _ _ Hal E1) as (o1 & Hd & Hal1 & Hf1). rewrite Hd in E2.
  destruct (escapes_allowed _ _ Hal1 E2) as (o2 & He2 & Hal2 & Hf2). rewrite He2 in E3.
  destruct (escapes_allowed _ _ Hal2 E3) as (o3 & Ho3 & Hal3 & Hf3). rewrite <- He2 in Ho3, E3. rewrite <- Hd in E2.
  exists o3. split_and!; [done|done|..].
  - apply (escapes_tidy _ _ E3), (escapes_tidy _ _ E2), (escapes_tidy _ _ E1), tidy_neat.
    destruct Hn as [->|Hn]; [by left|]. right. by rewrite neat_utf8 by (by apply allowed_scalar).
  - apply (escapes_Contains _ _ _ E3); [done..|]. apply (escapes_Contains _ _ _ E2); [done..|]. apply defence_no_fence.
  - apply (escapes_Contains _ _ _ E3); [done..|]. by apply split_pair_separates.
  - by apply split_pair_separates.
  - by rewrite Hf3, Hf2, Hf1.
Qed.

(** C33: Text that reaches an agent carries no control, zero-width,
bidirectional or replacement character, no code fence and no chat-template
sentinel, and its white space is single spaces between words.  Everything else
comes through: the visible characters of the input appear in the output in the
same order, apart from the backslashes that escape, and text that is already
clean is returned byte for byte (so sanitising twice changes nothing). *)
Theorem Sanitize_correct (s : string) :
  inert (Sanitize s) = true ∧ tidy (Sanitize s) = true
  ∧ filter (λ r, visible r = true) (runes (Sanitize s)) = filter (λ r, visible r = true) (runes s)
  ∧ (inert s = true → tidy s = true → Sanitize s = s).
Proof.
  destruct (Sanitize_shape s) as (o & Ho & Hal & Ht & H1 & H2 & H3 & Hf). split_and!; [|done|..].
  - apply inert_spec. split_and!; [|done..]. rewrite Ho, utf8_back by (by apply allowed_scalar). done.
  - by rewrite Ho, utf8_back by (by apply allowed_scalar).
  - clear. intros (Hal & H1 & H2 & H3)%inert_spec Ht. unfold Sanitize. destruct (String.eqb_spec s "") as [->|Hne]; [done|].
    pose proof (allowed_scalar _ Hal) as Hsc.
    assert (utf8 (runes s) = s) as Hs.
    { apply utf8_runes. intros Hin. rewrite Forall_forall in Hal. by apply Hal in Hin as (_ & ? & _). }
    apply tidy_neat in Ht as [|Ht]; [done|]. rewrite <- Hs, neat_utf8 in Ht by done.
    pose proof (fold_rune_id (runes s) "" false false Hal ltac:(by left) ltac:(done)) as Hfold. rewrite Hs in Hfold.
    destruct (foldl fold_rune ("", false, false) (runes s)) as [[b p] w]. simpl in Hfold. subst b.
    rewrite !ReplaceAll_pair by done. rewrite (defence_id 0) by done. simpl. rewrite (split_pair_id "<" "|" s) by done. by apply split_pair_id.
Qed.

Lemma Sanitize_correct_witness : Sanitize "up{job}" = "up{job}" ∧ inert (Sanitize "<|x|>```") = true.
Proof.
  split.
  - refine (proj2 (proj2 (proj2 (Sanitize_correct "up{job}"))) _ _); vm_compute; reflexivity.
  - exact (proj1 (Sanitize_correct "<|x|>```")).
Defined.

(** * Clipping keeps it inert *)

Lemma Contains_prefix a b p : str_Contains (a +:+ b) p = false → str_Contains a p = false.
Proof.
  intros H. destruct (str_Contains a p) eqn:Ha; [|done]. rewrite <- H. symmetry. apply str_Contains_spec.
  apply str_Contains_spec in Ha as (u & v & ->). exists u, (v +:+ b). by rewrite !string_app_assoc.
Qed.

(** A match cannot straddle a byte the pattern does not have. *)
Lemma Contains_apart a c b p : p ≠ "" → str_exists (Ascii.eqb c) p = false →
  str_Contains a p = false → str_Contains (String c b) p = false → str_Contains (a +:+ String c b) p = false.
Proof.
  intros Hne Hc Ha Hb. induction a as [|d a IH]; [done|]. cbn [str_Contains] in Ha. apply orb_false_iff in Ha as [Hp Ha].
  change (String d a +:+ String c b) with (String d (a +:+ String c b)). cbn [str_Contains]. rewrite (IH Ha), orb_false_r.
  revert Hp. change (String d (a +:+ String c b)) with (String d a +:+ String c b). generalize (String d a). clear -Hc Hne.
  intros e. revert p Hc Hne. induction e as [|x e IH]; intros [|y p] Hc Hne; try done; cbn [str_exists] in Hc; apply orb_false_iff in Hc as [Hcy Hc].
  - simpl (_ +:+ _). rewrite HasPrefix_cons, Hcy. done.
  - simpl (_ +:+ _). rewrite !HasPrefix_cons. destruct (Ascii.eqb x y); [|done]. simpl. destruct p as [|z p].
    + by rewrite !HasPrefix_nil.
    + by apply IH.
Qed.

(** A clean text cut between runes, with the marker. *)
Lemma inert_marked o k : Forall allowed o →
  str_Contains (utf8 o) "```" = false → str_Contains (utf8 o) "<|" = false → str_Contains (utf8 o) "|>" = false →
  inert (utf8 (take k o) +:+ ClipMarker) = true.
Proof.
  intros Ho H1 H2 H3. apply inert_spec. assert (Forall allowed (take k o)) as Hk by (by apply Forall_take).
  rewrite runes_utf8 by (by apply allowed_scalar). rewrite <- (take_drop k o), utf8_app in H1, H2, H3.
  apply Contains_prefix in H1, H2, H3.
  split_and!; [|by apply Contains_apart..]. apply Forall_app. split; [done|].
  change (runes ClipMarker) with [0x2026; 0x5B; 0x63; 0x6C; 0x69; 0x70; 0x70; 0x65; 0x64; 0x5D].
  repeat (apply Forall_cons_2; [split_and!; [split; lia|done|done]|]). by apply Forall_nil_2.
Qed.

Lemma RuneStart_tail y : 0 ≤ y < 64 → RuneStart (byte (0x80 + y)) = false.
Proof.
  intros Hy. cut (∀ c, 0x80 ≤ byte_val c ≤ 0xBF → RuneStart c = false).
  { intros H. apply H. rewrite byte_val_byte; lia. }
  intros [[] [] [] [] [] [] [] []] [H1 H2]; first [by vm_compute|by destruct (H1 eq_refl)|by destruct (H2 eq_refl)].
Qed.

Lemma encode_starts r : scalar r → ∃ c t, EncodeRune r = String c t ∧ str_exists RuneStart t = false.
Proof.
  intros Hr. rewrite EncodeRune_bytes by done. destruct Hr as [Hr _].
  destruct (r <? 0x80); [|destruct (r <? 0x800); [|destruct (r <? 0x10000)]]; eexists _, _; (split; [reflexivity|]); cbn [str_exists];
    rewrite ?RuneStart_tail by (Z.to_euclidean_division_equations; lia); done.
Qed.

(** The start of a rune is the end of a prefix of the runes. *)
Lemma RuneStart_boundary o n c t : Forall scalar o → str_drop n (utf8 o) = String c t → RuneStart c = true →
  ∃ k, n = String.length (utf8 (take k o)).
Proof.
  intros Ho. revert n. induction Ho as [|r o Hr Ho IH]; intros n Hd Hc; [by destruct n|].
  destruct n as [|n]; [by exists 0%nat|]. cbn [utf8 foldr] in Hd. fold (utf8 o) in Hd.
  destruct (encode_starts r Hr) as (d & e & He & Hns). rewrite He in Hd. simpl in Hd.
  assert (∀ e n, str_exists RuneStart e = false → str_drop n (e +:+ utf8 o) = String c t →
    ∃ m, n = (String.length e + m)%nat ∧ str_drop m (utf8 o) = String c t) as Hskip.
  { clear e He Hns Hd n. intros e. induction e as [|x e IHe]; intros n Hns Hd; [by exists n|]. cbn [str_exists] in Hns.
    apply orb_false_iff in Hns as [Hx Hns]. destruct n as [|n]; simpl in Hd; [congruence|].
    destruct (IHe n Hns Hd) as (m & -> & ?). exists m. split; [simpl; lia|done]. }
  destruct (Hskip e n Hns Hd) as (m & -> & Hm). destruct (IH m Hm Hc) as [k ->]. exists (S k).
  cbn [take utf8 foldr]. fold (utf8 (take k o)). rewrite He, string_length_app. simpl. lia.
Qed.

Lemma back_to_start_boundary o n : Forall scalar o → (n < String.length (utf8 o))%nat →
  ∃ k, back_to_start (utf8 o) n = String.length (utf8 (take k o)) ∧ (back_to_start (utf8 o) n ≤ n)%nat.
Proof.
  intros Ho. induction n as [|n IH]; intros Hn; [by exists 0%nat|]. cbn [back_to_start].
  destruct (str_drop (S n) (utf8 o)) as [|c t] eqn:Hd.
  { exfalso. assert (∀ k s, (k < String.length s)%nat → str_drop k s ≠ "") as Hx; [|by apply (Hx (S n) (utf8 o))].
    clear. intros k. induction k as [|k IHk]; intros [|c s] Hk; simpl in *; try lia; [done|]. apply IHk. lia. }
  destruct (RuneStart c) eqn:Hc.
  - destruct (RuneStart_boundary o (S n) c t Ho Hd Hc) as [k Hk]. by exists k.
  - destruct IH as (k & -> & Hle); [lia|]. exists k. split; [done|lia].
Qed.

(** Clipped text stays inert and is bounded, whatever a cluster sends.
Clipping to a number of runes or of bytes never splits a character and never
re-creates a fence, a sentinel or a control character; the result has at most
the given number of runes or bytes and the marker that says it is a prefix. *)
Theorem clip_inert_and_bounded (s : string) (max : Z) :
  inert (ClipRunes s max) = true ∧ RuneCount (ClipRunes s max) ≤ Z.max 0 max + RuneCount ClipMarker
  ∧ inert (ClipBytes s max) = true
  ∧ Z.of_nat (String.length (ClipBytes s max)) ≤ Z.max 0 max + Z.of_nat (String.length ClipMarker).
Proof.
  destruct (Sanitize_shape s) as (o & Ho & Hal & _ & H1 & H2 & H3 & _). rewrite Ho in H1, H2, H3. pose proof (allowed_scalar _ Hal) as Hsc.
  assert (inert (utf8 o) = true) as Hin by (apply inert_spec; split_and!; [by rewrite utf8_back|done..]).
  assert (0 ≤ RuneCount ClipMarker) as Hm by (unfold RuneCount; lia).
  unfold ClipRunes, ClipBytes. rewrite Ho. destruct (Z.leb_spec max 0) as [Hle|Hpos]; [split_and!; try done; change (RuneCount "") with 0; cbn [String.length]; lia|].
  rewrite utf8_back by done. split_and!.
  - destruct (RuneCount (utf8 o) <=? max); [done|]. by apply inert_marked.
  - destruct (Z.leb_spec (RuneCount (utf8 o)) max); [lia|]. unfold RuneCount at 1.
    rewrite runes_utf8, length_app by (by apply Forall_take). pose proof (length_take o (Z.to_nat max)). fold (RuneCount ClipMarker). unfold RuneCount. lia.
  - destruct (Z.leb_spec (Z.of_nat (String.length (utf8 o))) max); [done|].
    destruct (back_to_start_boundary o (Z.to_nat max) Hsc) as (k & -> & _); [lia|].
    rewrite <- (take_drop k o) at 2. rewrite utf8_app, str_take_app. by apply inert_marked.
  - destruct (Z.leb_spec (Z.of_nat (String.length (utf8 o))) max); [lia|].
    destruct (back_to_start_boundary o (Z.to_nat max) Hsc) as (k & Hk & Hle); [lia|]. rewrite Hk in *.
    rewrite <- (take_drop k o) at 2. rewrite utf8_app, str_take_app, string_length_app. lia.
Qed.

(** * A cell cannot forge a row *)

Fixpoint lines_of (s : string) : nat :=
  match s with EmptyString => 0%nat | String c s => ((if Ascii.eqb c lf then 1 else 0) + lines_of s)%nat end.

Lemma lines_app a b : lines_of (a +:+ b) = (lines_of a + lines_of b)%nat.
Proof. induction a as [|c a IH]; simpl; [done|]. rewrite IH. lia. Qed.

Lemma clip_inert s max : inert (ClipRunes s max) = true.
Proof.
  destruct (Sanitize_shape s) as (o & Ho & Hal & _ & H1 & H2 & H3 & _). rewrite Ho in H1, H2, H3.
  unfold ClipRunes. rewrite Ho, utf8_back by (by apply allowed_scalar). destruct (max <=? 0); [done|].
  destruct (_ <=? _); [|by apply inert_marked]. apply inert_spec. by rewrite utf8_back by (by apply allowed_scalar).
Qed.

Lemma inert_one_line s : inert s = true → lines_of s = 0%nat.
Proof.
  intros (Hal & _)%inert_spec. destruct (str_exists (Ascii.eqb lf) s) eqn:He.
  - apply (runes_ascii (String.length s)) in He; [|lia|done]. rewrite Forall_forall in Hal. by apply Hal in He as (_ & ? & _).
  - clear Hal. induction s as [|c s IH]; [done|]. cbn [str_exists] in He. apply orb_false_iff in He as [Hc He]. simpl.
    rewrite IH by done. by destruct (Ascii.eqb_spec c lf) as [->|].
Qed.

Lemma cells_length cols r : length (cells cols r) = cols.
Proof. unfold cells. by rewrite length_fmap, length_seq. Qed.

Lemma cells_one_line cols r : Forall (λ c, lines_of c = 0%nat) (cells cols r).
Proof. unfold cells. apply Forall_fmap, Forall_true. intros i. simpl. destruct (r !! i); [apply inert_one_line, clip_inert|done]. Qed.

Lemma rep_utf8 c n : 0 ≤ c < 0x80 → rep (byte c) n = utf8 (replicate n c).
Proof. intros Hc. induction n as [|n IH]; [done|]. cbn [rep replicate utf8 foldr]. rewrite encode_ascii by done. simpl. by rewrite IH. Qed.

Lemma rep_count c n : 0 ≤ c < 0x80 → RuneCount (rep (byte c) n) = Z.of_nat n.
Proof. intros Hc. rewrite rep_utf8, RuneCount_utf8, length_replicate; [done| |done]. apply Forall_replicate. split; lia. Qed.

Lemma rep_lines c n : c ≠ lf → lines_of (rep c n) = 0%nat.
Proof. intros Hc. induction n as [|n IH]; [done|]. simpl. rewrite IH. by destruct (Ascii.eqb_spec c lf). Qed.

Lemma writeRow_cons w ws c d row : writeRow (w :: ws) (c :: d :: row) =
  (pad ← Repeat " " (w - RuneCount c + 2); rest ← writeRow ws (d :: row); Some (c +:+ pad +:+ rest)).
Proof. done. Qed.

(** A row whose cells fit their columns is written as one line. *)
Lemma writeRow_line widths row : Forall2 (λ w c, RuneCount c ≤ w) widths row → Forall (λ c, lines_of c = 0%nat) row →
  ∃ t, writeRow widths row = Some t ∧ lines_of t = 1%nat.
Proof.
  intros Hf. induction Hf as [|w c widths row Hw Hf IH]; intros Hl; [by exists (String lf "")|]. apply Forall_cons in Hl as [Hc Hl].
  destruct Hf as [|w' c' widths row Hw' Hf].
  { exists (c +:+ String lf ""). by rewrite lines_app, Hc. }
  destruct (IH Hl) as (t & Ht & Hn). rewrite writeRow_cons. unfold Repeat. destruct (Z.ltb_spec (w - RuneCount c + 2) 0); [lia|].
  cbn [mbind option_bind]. rewrite Ht. cbn [mbind option_bind]. eexists. split; [reflexivity|].
  by rewrite !lines_app, Hc, rep_lines, Hn.
Qed.

Lemma widen_ge widths rows : Forall (λ r, length r = length widths) rows →
  Forall2 Z.le widths (foldl widen widths rows) ∧ Forall (λ r, Forall2 (λ w c, RuneCount c ≤ w) (foldl widen widths rows) r) rows.
Proof.
  assert (∀ ws row, length row = length ws → Forall2 Z.le ws (widen ws row) ∧ Forall2 (λ w c, RuneCount c ≤ w) (widen ws row) row) as Hone.
  { intros ws. induction ws as [|w ws IH]; intros [|c row] Hlen; simpl in Hlen; try lia; [by repeat constructor|].
    destruct (IH row) as [? ?]; [lia|]. split; constructor; try done; lia. }
  revert widths. induction rows as [|r rows IH]; intros widths Hl.
  { split; [|constructor]. cbn [foldl]. induction widths; constructor; [lia|done]. }
  apply Forall_cons in Hl as [Hr Hl]. cbn [foldl]. destruct (Hone widths r Hr) as [Hle Hge].
  destruct (IH (widen widths r)) as [Hle' Hge'].
  { rewrite <- (Forall2_length _ _ _ Hle). done. }
  split; [by etrans|]. constructor; [|done].
  revert Hge Hle'. generalize (widen widths r) as ws, (foldl widen (widen widths r) rows) as vs. clear. intros ws vs Hge Hle'. revert r Hge. induction Hle' as [|x y ? ? Hxy _ IH]; intros r Hge; inversion Hge; subst; constructor; [lia|auto].
Qed.

Lemma mapM_lines (widths : list Z) (rows : list (list string)) :
  Forall (λ r, Forall2 (λ w c, RuneCount c ≤ w) widths r) rows → Forall (λ r, Forall (λ c, lines_of c = 0%nat) r) rows →
  ∃ ls, mapM (writeRow widths) rows = Some ls ∧ lines_of (foldr String.append "" ls) = length rows.
Proof.
  induction rows as [|r rows IH]; intros Hf Hl; [by exists []|]. apply Forall_cons in Hf as [Hr Hf]. apply Forall_cons in Hl as [Hr' Hl].
  destruct (writeRow_line widths r Hr Hr') as (t & Ht & Hn). destruct (IH Hf Hl) as (ls & Hls & Hc). exists (t :: ls).
  split; [apply mapM_Some; constructor; [done|by apply mapM_Some]|]. simpl. rewrite lines_app, Hn, Hc. done.
Qed.

(** A table is always rendered, and has exactly one line per row after the
header and the rule, whatever bytes the cells carry: no padding count is
negative, and a cell cannot forge a row.  Only a table without columns is
empty. *)
Theorem Table_rows (headers : list string) (rows : list (list string)) :
  ∃ t, Table headers rows = Some t
    ∧ lines_of t = (if bool_decide (headers = [] ∧ Forall (λ r, r = []) rows) then 0 else length rows + 2)%nat.
Proof.
  unfold Table. set (cols := foldl _ _ rows).
  assert (∀ n, foldl (λ n (r : list string), Nat.max n (length r)) n rows = 0%nat ↔ n = 0%nat ∧ Forall (λ r, r = []) rows) as Hcols.
  { induction rows as [|r rows' IH]; intros n; simpl; [by rewrite Forall_nil; naive_solver|].
    rewrite IH by done. rewrite Forall_cons. assert (r = [] ↔ length r = 0%nat) as -> by (symmetry; apply length_zero_iff_nil).
    assert (Nat.max n (length r) = 0 ↔ n = 0 ∧ length r = 0)%nat as -> by lia. tauto. }
  specialize (Hcols (length headers)). fold cols in Hcols. rewrite length_zero_iff_nil in Hcols.
  rewrite (bool_decide_ext _ (cols = 0%nat)) by (symmetry; exact Hcols). destruct (Nat.eqb_spec cols 0) as [Hz|Hnz].
  { exists "". by rewrite bool_decide_true. }
  rewrite bool_decide_false by done. set (head := cells cols headers). set (body := cells cols <$> rows).
  destruct (widen_ge (RuneCount <$> head) body) as [Hle Hge].
  { unfold body. apply Forall_fmap, Forall_true. intros r. unfold compose, head. by rewrite length_fmap, !cells_length. }
  set (widths := foldl widen _ body) in *.
  assert (Forall2 (λ w c, RuneCount c ≤ w) widths head) as Hhead.
  { rewrite Forall2_fmap_l in Hle. by apply Forall2_flip. }
  assert (Forall (λ w, 0 ≤ w) widths) as Hpos.
  { eapply Forall2_Forall_l; [exact Hhead|]. apply Forall_true. intros c w ?. unfold RuneCount in *. lia. }
  assert (mapM (λ w, Repeat "-" w) widths = Some ((λ w, rep "-" (Z.to_nat w)) <$> widths)) as Hsep.
  { apply mapM_Some. clear -Hpos. induction Hpos; constructor; [|done]. unfold Repeat. by destruct (Z.ltb_spec x 0); [lia|]. }
  rewrite Hsep. cbn [mbind option_bind].
  destruct (mapM_lines widths (head :: ((λ w, rep "-" (Z.to_nat w)) <$> widths) :: body)) as (ls & Hls & Hn).
  - repeat apply Forall_cons_2; [done| |done]. clear -Hpos. induction Hpos; constructor; [|done].
    change "-"%char with (byte 0x2D). rewrite rep_count by lia. lia.
  - repeat apply Forall_cons_2; [apply cells_one_line| |].
    + apply Forall_fmap, Forall_true. intros w. by apply rep_lines.
    + apply Forall_fmap, Forall_true. intros r. apply cells_one_line.
  - rewrite Hls. cbn [mbind option_bind]. eexists. split; [reflexivity|]. rewrite Hn. simpl. unfold body. rewrite length_fmap. lia.
Qed.
