(* ===== verification/PromData.v ===== *)
(** The responses of a Prometheus server: [src/internal/render/prom.go].

A body is parsed by the text layer of [encoding/json] ([JsonText]); what each
struct takes from the parsed value, and what is refused, is defined here.  A
[json.RawMessage] is the value it holds, [None] when the member is absent; a
null member is held as null.  [Point] has its own [UnmarshalJSON], which
[encoding/json] calls for null too. *)

From S2P Require Import Prelude Codec GoFloat.
From Stdlib Require Import Floats.PrimFloat.
Open Scope string_scope.

Inductive DecodeError := ErrMalformedUpstream | ErrNativeHistogram.

(** * Values *)

(** Null leaves a string or a number at its zero value. *)
Definition str_value (j : json) : option string := match j with JNull => Some "" | JStr s => Some s | _ => None end.
Definition float_value (j : json) : option float :=
  match j with
  | JNull => Some 0%float
  | JInt z => let f := float_of_Z z in if PrimFloat.is_finite f then Some f else None
  | JFloat f => Some f
  | _ => None
  end.
Definition list_value {A} (dec : json → option A) (j : json) : option (list A) :=
  match j with JNull => Some [] | JArr l => mapM dec l | _ => None end.
Definition map_value (j : json) : option (gmap string string) :=
  match j with JNull => Some ∅ | JObj _ => as_map str_value j | _ => None end.

(** The members of an object; null is an object without members. *)
Definition object (j : json) : option (list (string * json)) :=
  match j with JNull => Some [] | JObj o => Some o | _ => None end.

(** * The envelope *)

Record APIResponse := {
  ar_Status : string;
  ar_Data : option json;
  ar_ErrorType : string;
  ar_Error : string;
  ar_Warnings : list string;
  ar_Infos : list string
}.

Definition Failed (r : option APIResponse) : bool :=
  match r with None => true | Some r => negb (String.eqb (ar_Status r) "success") end.

Definition api_response (j : json) : option APIResponse :=
  o ← object j;
  status ← get "status" "" str_value o;
  errorType ← get "errorType" "" str_value o;
  error ← get "error" "" str_value o;
  warnings ← get "warnings" [] (list_value str_value) o;
  infos ← get "infos" [] (list_value str_value) o;
  Some {| ar_Status := status; ar_Data := field "data" o; ar_ErrorType := errorType; ar_Error := error;
          ar_Warnings := warnings; ar_Infos := infos |}.

Definition DecodeAPIResponse `{!JsonText Bytes} (body : Bytes) : result DecodeError APIResponse :=
  if (bytes_len body =? 0)%Z then Err ErrMalformedUpstream
  else match parse_json body ≫= api_response with
  | None => Err ErrMalformedUpstream
  | Some r => if String.eqb (ar_Status r) "" then Err ErrMalformedUpstream else Ok r
  end.

Record QueryData := { qd_ResultType : string; qd_Result : option json; qd_Stats : option json }.

Definition query_data (j : json) : option QueryData :=
  o ← object j;
  rt ← get "resultType" "" str_value o;
  Some {| qd_ResultType := rt; qd_Result := field "result" o; qd_Stats := field "stats" o |}.

Definition DecodeQueryData (data : option json) : result DecodeError QueryData :=
  match data ≫= query_data with Some q => Ok q | None => Err ErrMalformedUpstream end.

(** * Samples *)

Record Point := { pt_T : float; pt_V : float }.
Definition zero_Point : Point := {| pt_T := 0%float; pt_V := 0%float |}.

Record SeriesStream := { ss_Metric : gmap string string; ss_Values : list Point; ss_Histograms : list json }.
Record VectorSample := { vs_Metric : gmap string string; vs_Value : Point; vs_Histogram : list json }.

Section decode.
(** [strconv.ParseFloat(s, 64)]. *)
Context (ParseFloat : string → option float).

(** [Point.UnmarshalJSON]. *)
Definition point_value (j : json) : option Point :=
  match j with
  | JArr (t :: v :: _) =>
    t ← float_value t;
    v ← (match str_value v with Some s => ParseFloat s | None => float_value v end);
    Some {| pt_T := t; pt_V := v |}
  | _ => None
  end.

Definition series_stream (j : json) : option SeriesStream :=
  o ← object j;
  metric ← get "metric" ∅ map_value o;
  values ← get "values" [] (list_value point_value) o;
  hists ← get "histograms" [] (list_value Some) o;
  Some {| ss_Metric := metric; ss_Values := values; ss_Histograms := hists |}.

Definition vector_sample (j : json) : option VectorSample :=
  o ← object j;
  metric ← get "metric" ∅ map_value o;
  value ← (match field "value" o with None => Some zero_Point | Some v => point_value v end);
  hist ← get "histogram" [] (list_value Some) o;
  Some {| vs_Metric := metric; vs_Value := value; vs_Histogram := hist |}.

Definition DecodeMatrix (res : option json) : result DecodeError (list SeriesStream) :=
  match res with
  | None => Ok []
  | Some j =>
    match list_value series_stream j with
    | None => Err ErrMalformedUpstream
    | Some m => if existsb (λ s, (0 <? length (ss_Histograms s))%nat) m then Err ErrNativeHistogram else Ok m
    end
  end.

Definition DecodeVector (res : option json) : result DecodeError (list VectorSample) :=
  match res with
  | None => Ok []
  | Some j =>
    match list_value vector_sample j with
    | None => Err ErrMalformedUpstream
    | Some v => if existsb (λ s, (0 <? length (vs_Histogram s))%nat) v then Err ErrNativeHistogram else Ok v
    end
  end.

Definition DecodeScalar (res : option json) : result DecodeError Point :=
  match res ≫= point_value with Some p => Ok p | None => Err ErrMalformedUpstream end.

End decode.

(** Null in place of a sample is refused, in place of a series it is an empty
series. *)
Example null_examples (pf : string → option float) :
  DecodeScalar pf (Some JNull) = Err ErrMalformedUpstream
  ∧ DecodeVector pf (Some (JArr [JObj [("value", JNull)]])) = Err ErrMalformedUpstream
  ∧ DecodeMatrix pf (Some (JArr [JNull])) = Ok [{| ss_Metric := ∅; ss_Values := []; ss_Histograms := [] |}]
  ∧ DecodeMatrix pf (Some (JArr [JObj [("histograms", JArr [JNull])]])) = Err ErrNativeHistogram.
Proof. done. Qed.

(** [jsonNumber]: NaN and the infinities have no JSON form. *)
Definition jsonNumber (v : float) : option float := if IsNaN v || IsInf v then None else Some v.
