(* ===== verification/Render.v ===== *)
(** Compact results: [src/internal/render/options.go], [tokens.go],
[truncate.go], [instant.go] and [range.go].

What [json.Marshal] measures is an argument, the number of bytes it would
produce; [math.Log10], a library function, is another.  Label sets are maps; a
nil map and an empty one are the same.  [slices.SortStableFunc] is stdpp's
stable [merge_sort]. *)

From S2P Require Import Prelude GoFloat Text Utf8 Step Sanitize PromData.
From Stdlib Require Import Floats.PrimFloat.
Open Scope string_scope.
Open Scope Z_scope.

(** * Options *)

Definition FormatCompact : string := "compact".
Definition FormatJSON : string := "json".
Definition FormatTable : string := "table".

(** [ParseFormat]; [None] is [ErrUnknownFormat]. *)
Definition ParseFormat (s : string) : option string :=
  if String.eqb s "" then Some FormatCompact
  else if String.eqb s FormatCompact then Some FormatCompact
  else if String.eqb s FormatJSON then Some FormatJSON
  else if String.eqb s FormatTable then Some FormatTable
  else None.

Definition DefaultMaxSeries : Z := 20.
Definition DefaultMaxItems : Z := 100.
Definition DefaultTokenCeiling : Z := 25000.
Definition BytesPerToken : Z := 4.

Record Options := {
  op_Format : string;
  op_MaxSeries : Z;
  op_MaxPoints : Z;
  op_MaxItems : Z;
  op_TokenCeiling : Z
}.

Definition WithDefaults (o : Options) : Options :=
  {| op_Format := if String.eqb (op_Format o) "" then FormatCompact else op_Format o;
     op_MaxSeries := if op_MaxSeries o <=? 0 then DefaultMaxSeries else op_MaxSeries o;
     op_MaxPoints := if op_MaxPoints o <=? 0 then DefaultMaxPoints else op_MaxPoints o;
     op_MaxItems := if op_MaxItems o <=? 0 then DefaultMaxItems else op_MaxItems o;
     op_TokenCeiling := if op_TokenCeiling o =? 0 then DefaultTokenCeiling else op_TokenCeiling o |}.

(** * Truncation *)

Definition ReasonLimit : string := "limit".
Definition ReasonMaxSeries : string := "max_series".
Definition ReasonTokenCeiling : string := "hub_token_ceiling".
Definition ReasonUpstreamTruncated : string := "upstream_response_too_large".

Record Truncation := {
  tr_Returned : Z;
  tr_Total : Z;
  tr_Reason : string;
  tr_Hint : string;
  tr_Selection : string
}.

Definition zero_Truncation : Truncation := {| tr_Returned := 0; tr_Total := 0; tr_Reason := ""; tr_Hint := ""; tr_Selection := "" |}.

Definition SelectionTopNByMax (n : Z) : string := "top_" +:+ FormatInt n +:+ "_by_max".

Definition TruncateItems {T} (items : list T) (limit : Z) (hint : string) : list T * option Truncation :=
  if (limit <=? 0) || (Z.of_nat (length items) <=? limit) then (items, None)
  else (take (Z.to_nat limit) items,
        Some {| tr_Returned := limit; tr_Total := Z.of_nat (length items); tr_Reason := ReasonLimit; tr_Hint := hint; tr_Selection := "" |}).

Definition Escalate (t : option Truncation) (returned : Z) (reason hint : string) : Truncation :=
  match t with
  | None => {| tr_Returned := returned; tr_Total := returned; tr_Reason := reason; tr_Hint := hint; tr_Selection := "" |}
  | Some t => {| tr_Returned := returned; tr_Total := tr_Total t; tr_Reason := reason;
                 tr_Hint := if String.eqb hint "" then tr_Hint t else hint; tr_Selection := tr_Selection t |}
  end.

Definition with_total (n : Z) (t : Truncation) : Truncation :=
  {| tr_Returned := tr_Returned t; tr_Total := n; tr_Reason := tr_Reason t; tr_Hint := tr_Hint t; tr_Selection := tr_Selection t |}.
Definition with_selection (s : string) (t : Truncation) : Truncation :=
  {| tr_Returned := tr_Returned t; tr_Total := tr_Total t; tr_Reason := tr_Reason t; tr_Hint := tr_Hint t; tr_Selection := s |}.

(** * Tokens *)

Definition EstimateTokensOfBytes (n : Z) : Z := if n <=? 0 then 0 else Z.quot (n + BytesPerToken - 1) BytesPerToken.

(** The size [json.Marshal] gives, [None] when it fails. *)
Definition EstimateTokens (marshalled : option Z) : Z := from_option EstimateTokensOfBytes 0 marshalled.

(** The loop of [FitTokens]; [n] decreases on every turn, so as many turns as
items are enough ([fit_loop_fuel]). *)
Fixpoint fit_loop {T} (fuel : nat) (marshal : list T → option Z) (items : list T) (ceiling n : Z) : list T :=
  match fuel with
  | O => []
  | S fuel =>
    if n <=? 0 then []
    else
      let size := EstimateTokens (marshal (take (Z.to_nat n) items)) in
      if size <=? ceiling then take (Z.to_nat n) items
      else fit_loop fuel marshal items ceiling (Z.quot (wrap_int64 (n * ceiling)) (Z.max size 1))
  end.

Definition FitTokens {T} (marshal : list T → option Z) (items : list T) (ceiling : Z) : list T * bool :=
  if (ceiling <=? 0) || (length items =? 0)%nat then (items, false)
  else if EstimateTokens (marshal items) <=? ceiling then (items, false)
  else (fit_loop (S (length items)) marshal items ceiling (Z.of_nat (length items)), true).

(** * Rounding *)

Definition ValueSignificantDigits : Z := 6.
Definition sigLoBound : float := Pow10 5.
Definition sigHiBound : float := Pow10 6.
Definition pow10ChunkExp : nat := 300.
Definition minNormalFloat64 : float := 0x1p-1022%float.
Definition subnormalRescale : float := 0x1p60%float.
Definition chunk300 : float := Pow10 300.

Definition exactProduct (a b : float) : float * float :=
  let hi := (a * b)%float in (hi, FMA a b (PrimFloat.opp hi)).
Definition exactQuotient (a b : float) : float * float :=
  let hi := (a / b)%float in (hi, (FMA (PrimFloat.opp hi) b a / b)%float).

(** The four loops over chunks of the exponent; [k] decreases by a chunk. *)
Fixpoint chunks (fuel : nat) (step : float → float) (av : float) (k : nat) : float * nat :=
  match fuel with
  | O => (av, k)
  | S fuel => if (pow10ChunkExp <? k)%nat then chunks fuel step (step av) (k - pow10ChunkExp) else (av, k)
  end.

Definition scaleUp (av : float) (k : nat) : float * float :=
  let '(av, k) := chunks k (λ av, (exactProduct av chunk300).1) av k in exactProduct av (Pow10 k).
Definition scaleDown (av : float) (k : nat) : float * float :=
  let '(av, k) := chunks k (λ av, (exactQuotient av chunk300).1) av k in exactQuotient av (Pow10 k).
Definition unscaleDown (r : float) (k : nat) : float :=
  let '(r, k) := chunks k (λ r, (r / chunk300)%float) r k in (r / Pow10 k)%float.
Definition unscaleUp (r : float) (k : nat) : float :=
  let '(r, k) := chunks k (λ r, (r * chunk300)%float) r k in (r * Pow10 k)%float.

Section encode.
Context (Log10 : float → float).

Definition roundSignificant (v : float) : float :=
  let '(sign, av) := if (v <? 0)%float then ((-1)%float, PrimFloat.opp v) else (1%float, v) in
  let boosted := (av <? minNormalFloat64)%float in
  let av := if boosted then (av * subnormalRescale)%float else av in
  let exp := floor_float (Log10 av) in
  let scale (k : Z) := if 0 <=? k then scaleUp av (Z.to_nat k) else scaleDown av (Z.to_nat (- k)) in
  let k := ValueSignificantDigits - 1 - exp in
  let '(hi, lo) := scale k in
  let '(k, hi, lo) :=
    if (sigHiBound <=? hi)%float then
      let k := ValueSignificantDigits - 1 - (exp + 1) in let '(hi, lo) := scale k in (k, hi, lo)
    else if (hi <? sigLoBound)%float then
      let k := ValueSignificantDigits - 1 - (exp - 1) in let '(hi, lo) := scale k in (k, hi, lo)
    else (k, hi, lo) in
  let r := Round hi in
  let delta := ((hi - r) + lo)%float in
  let r := if (delta <? -0.5)%float then (r - 1)%float
           else if (delta =? -0.5)%float && odd_float r then (r - 1)%float
           else r in
  let result := if 0 <=? k then unscaleDown r (Z.to_nat k) else unscaleUp r (Z.to_nat (- k)) in
  let result := if boosted then (result / subnormalRescale)%float else result in
  (sign * result)%float.

Definition round (v : float) : float :=
  if (v =? 0)%float || IsNaN v || IsInf v then v else roundSignificant v.

(** [sanitizeAll]. *)
Definition sanitizeAll (l : list string) : list string :=
  filter (λ c, negb (String.eqb c "") = true) ((λ s, ClipRunes s MaxAnnotationRunes) <$> l).

(** [labelKey]. *)
Definition labelKey_of (entries : list (string * string)) : string :=
  foldr (λ '(k, v) acc, k +:+ "=" +:+ v +:+ "," +:+ acc) "" entries.
Definition key_le (a b : string * string) : Prop := String.le a.1 b.1.
#[export] Instance key_le_dec : RelDecision key_le.
Proof. intros a b. unfold key_le. apply _. Defined.
Definition labelKey (m : gmap string string) : string := labelKey_of (merge_sort key_le (map_to_list m)).

(** * Instant results *)

Definition InstantColumns : list string := ["__name__"; "labels"; "value"].

Inductive Cell := CellNumber (v : option float) | CellText (s : string).
Definition Row : Type := string * gmap string string * Cell.

Record InstantResult := {
  ir_ResultType : string;
  ir_Time : Z;
  ir_Columns : list string;
  ir_Rows : list Row;
  ir_SharedLabels : gmap string string;
  ir_Total : Z;
  ir_Truncated : option Truncation;
  ir_Warnings : list string
}.

Record InstantInput := {
  ii_Vector : list VectorSample;
  ii_Scalar : option Point;
  ii_StringValue : string;
  ii_ResultType : string;
  ii_At : Z;
  ii_Warnings : list string
}.

(** Seconds from Go's zero time to the Unix epoch; [time.Time.Unix]. *)
Definition unix_epoch : Z := 62135596800.
Definition Unix (t : Z) : Z := t / Second - unix_epoch.

(** The comparison of [EncodeInstant]'s sort. *)
Definition cmp_sample (a b : VectorSample) : comparison :=
  if negb (pt_V (vs_Value a) =? pt_V (vs_Value b))%float then cmp_float (pt_V (vs_Value b)) (pt_V (vs_Value a))
  else String.compare (labelKey (vs_Metric a)) (labelKey (vs_Metric b)).
Definition sample_le (a b : VectorSample) : Prop := cmp_sample a b ≠ Gt.
#[export] Instance sample_le_dec : RelDecision sample_le.
Proof. intros a b. unfold sample_le. apply _. Defined.

(** The loop that drops from [shared] what [other] does not have. *)
Definition keep_common (other shared : gmap string string) : gmap string string :=
  (prune_loop (λ k v, String.eqb (map_get other k) v) (map_to_list shared) shared).1.

(** The loop over the remaining samples, which ends once nothing is shared. *)
Fixpoint shared_loop (shared : gmap string string) (l : list (gmap string string)) : gmap string string :=
  match l with
  | [] => shared
  | other :: l => let shared := keep_common other shared in if (size shared =? 0)%nat then ∅ else shared_loop shared l
  end.

Definition sharedVectorLabels (samples : list VectorSample) : gmap string string :=
  match samples with
  | s :: ((_ :: _) as rest) => shared_loop (delete "__name__" (render_Labels (vs_Metric s))) ((λ s, render_Labels (vs_Metric s)) <$> rest)
  | _ => ∅
  end.

(** [delete] of every key of [shared]. *)
Definition without (shared m : gmap string string) : gmap string string := foldl (λ m '(k, _), delete k m) m (map_to_list shared).

Definition vectorRows (samples : list VectorSample) (shared : gmap string string) : list Row :=
  (λ s, let labels := render_Labels (vs_Metric s) in
        (map_get labels "__name__", without shared (delete "__name__" labels), CellNumber (jsonNumber (round (pt_V (vs_Value s)))))) <$> samples.

Definition EncodeInstant (marshal : list Row → option Z) (in_ : InstantInput) (opts : Options) : InstantResult :=
  let opts := WithDefaults opts in
  let res rows shared total trunc :=
    {| ir_ResultType := Sanitize (ii_ResultType in_); ir_Time := Unix (ii_At in_); ir_Columns := InstantColumns; ir_Rows := rows;
       ir_SharedLabels := shared; ir_Total := total; ir_Truncated := trunc; ir_Warnings := sanitizeAll (ii_Warnings in_) |} in
  match ii_Scalar in_ with
  | Some p => res [("", ∅, CellNumber (jsonNumber (round (pt_V p))))] ∅ 1 None
  | None =>
    if String.eqb (ii_ResultType in_) "string" then res [("", ∅, CellText (ClipBytes (ii_StringValue in_) MaxLabelValueBytes))] ∅ 1 None
    else
      let samples := merge_sort sample_le (ii_Vector in_) in
      let total := Z.of_nat (length samples) in
      let '(kept, trunc) := TruncateItems samples (op_MaxItems opts)
        (FormatInt total +:+ " samples matched. Add label matchers or aggregate with sum by(...) to narrow the result; raising limit past "
         +:+ FormatInt (op_MaxItems opts) +:+ " will hit the hub token ceiling.") in
      let trunc := with_selection (SelectionTopNByMax (Z.of_nat (length kept))) <$> trunc in
      let '(fitted, hit) := FitTokens (λ sel, marshal (vectorRows sel ∅)) kept (op_TokenCeiling opts) in
      let trunc :=
        if hit then
          Some (with_selection (SelectionTopNByMax (Z.of_nat (length fitted)))
            (with_total total
              (Escalate trunc (Z.of_nat (length fitted)) ReasonTokenCeiling
                ("The hub caps a result at about " +:+ FormatInt (op_TokenCeiling opts)
                 +:+ " estimated tokens regardless of the requested limit. Narrow the query or aggregate."))))
        else trunc in
      let shared := sharedVectorLabels fitted in
      res (vectorRows fitted shared) shared total trunc
  end.

(** * Range results *)

Record Downsampled := { ds_RequestedStep : string; ds_AppliedStep : string; ds_Reason : string }.

Record RangeSeries := { rs_Labels : gmap string string; rs_Values : list (option float); rs_Max : option float }.

Record RangeResult := {
  rr_Start : Z;
  rr_StepSeconds : float;
  rr_Points : Z;
  rr_SharedLabels : gmap string string;
  rr_Series : list RangeSeries;
  rr_SeriesTotal : Z;
  rr_Truncated : option Truncation;
  rr_Downsampled : Downsampled;
  rr_Warnings : list string
}.

Record RangeInput := {
  ri_Matrix : list SeriesStream;
  ri_Start : Z;
  ri_End : Z;
  ri_Step : Z;
  ri_Downsampled : Downsampled;
  ri_Warnings : list string;
  ri_SeriesTotalHint : Z
}.

Record rankedSeries := { rk_s : SeriesStream; rk_max : float; rk_ok : bool; rk_key : string }.

(** The loop over a series' samples: its largest finite value. *)
Definition max_step (acc : float * bool) (p : Point) : float * bool :=
  let '(m, ok) := acc in
  if IsNaN (pt_V p) || IsInf (pt_V p) then acc
  else if negb ok || (m <? pt_V p)%float then (pt_V p, true)
  else acc.

Definition rank (s : SeriesStream) : rankedSeries :=
  let '(m, ok) := foldl max_step (0%float, false) (ss_Values s) in
  {| rk_s := s; rk_max := m; rk_ok := ok; rk_key := labelKey (ss_Metric s) |}.

Definition cmp_ranked (a b : rankedSeries) : comparison :=
  if rk_ok a && negb (rk_ok b) then Lt
  else if negb (rk_ok a) && rk_ok b then Gt
  else if rk_ok a && rk_ok b && negb (rk_max a =? rk_max b)%float then cmp_float (rk_max b) (rk_max a)
  else String.compare (rk_key a) (rk_key b).
Definition ranked_le (a b : rankedSeries) : Prop := cmp_ranked a b ≠ Gt.
#[export] Instance ranked_le_dec : RelDecision ranked_le.
Proof. intros a b. unfold ranked_le. apply _. Defined.

Definition rankByMax (m : list SeriesStream) : list rankedSeries := merge_sort ranked_le (rank <$> m).

(** [time.Time.UnixNano], which wraps outside the years it can express. *)
Definition UnixNano (t : Z) : Z := wrap_int64 (t - unix_epoch * Second).

(** The loop that puts a series' samples on the grid. *)
Definition place (startSec stepSec : float) (points : Z) (values : list (option float)) (p : Point) : list (option float) :=
  if (stepSec <=? 0)%float || (points =? 0) then values
  else
    let idx := trunc_float (Round ((pt_T p - startSec) / stepSec)) in
    if (idx <? 0) || (points <=? idx) then values
    else <[Z.to_nat idx := jsonNumber (round (pt_V p))]> values.

Definition buildSeries (ranked : list rankedSeries) (start step points : Z) : list RangeSeries :=
  let startSec := (float64_of (UnixNano start) / 1e9)%float in
  let stepSec := Seconds step in
  (λ r, {| rs_Labels := render_Labels (ss_Metric (rk_s r));
           rs_Values := foldl (place startSec stepSec points) (replicate (Z.to_nat points) None) (ss_Values (rk_s r));
           rs_Max := if rk_ok r then jsonNumber (round (rk_max r)) else None |}) <$> ranked.

(** The loop of [factorShared] over the other series. *)
Fixpoint factor_loop (shared : gmap string string) (l : list (gmap string string)) : gmap string string :=
  match l with
  | [] => shared
  | other :: l => let shared := keep_common other shared in if (size shared =? 0)%nat then shared else factor_loop shared l
  end.

Definition factorShared (series : list RangeSeries) : gmap string string * list RangeSeries :=
  match series with
  | [] => (∅, series)
  | s :: rest =>
    let shared := factor_loop (rs_Labels s) (rs_Labels <$> rest) in
    if (size shared =? 0)%nat then (∅, series)
    else (shared, (λ s, {| rs_Labels := without shared (rs_Labels s); rs_Values := rs_Values s; rs_Max := rs_Max s |}) <$> series)
  end.

Definition EncodeRange (marshal : list RangeSeries → option Z) (in_ : RangeInput) (opts : Options) : RangeResult :=
  let opts := WithDefaults opts in
  let stepSecs := if (Seconds (ri_Step in_) <=? 0)%float then 1%float else Seconds (ri_Step in_) in
  let span := Sub (ri_End in_) (ri_Start in_) in
  let points := if (0 <=? span) && (0 <? ri_Step in_) then Z.quot span (ri_Step in_) + 1 else 0 in
  let n := Z.of_nat (length (ri_Matrix in_)) in
  let total := if ri_SeriesTotalHint in_ <? n then n else ri_SeriesTotalHint in_ in
  let res shared series trunc :=
    {| rr_Start := Unix (ri_Start in_); rr_StepSeconds := stepSecs; rr_Points := points; rr_SharedLabels := shared; rr_Series := series;
       rr_SeriesTotal := total; rr_Truncated := trunc; rr_Downsampled := ri_Downsampled in_; rr_Warnings := sanitizeAll (ri_Warnings in_) |} in
  if (length (ri_Matrix in_) =? 0)%nat then res ∅ [] None
  else
    let ranked := rankByMax (ri_Matrix in_) in
    let '(kept, trunc) :=
      if op_MaxSeries opts <? Z.of_nat (length ranked) then
        (take (Z.to_nat (op_MaxSeries opts)) ranked,
         Some {| tr_Returned := op_MaxSeries opts; tr_Total := total; tr_Reason := ReasonMaxSeries;
                 tr_Selection := SelectionTopNByMax (op_MaxSeries opts);
                 tr_Hint := FormatInt total +:+ " series matched. Narrow the query with label matchers, or aggregate with sum by(...), rather than raising maxSeries: top-N by maximum drops a series that flatlined when it should have spiked." |})
      else (ranked, None) in
    let '(fitted, hit) := FitTokens (λ sel, marshal (buildSeries sel (ri_Start in_) (ri_Step in_) points)) kept (op_TokenCeiling opts) in
    let trunc :=
      if hit then
        let t := with_total total
          (Escalate trunc (Z.of_nat (length fitted)) ReasonTokenCeiling
            ("The hub caps a result at about " +:+ FormatInt (op_TokenCeiling opts)
             +:+ " estimated tokens regardless of the requested limit. Narrow the query, shorten the range, or aggregate.")) in
        Some (if String.eqb (tr_Selection t) "" then with_selection (SelectionTopNByMax (Z.of_nat (length fitted))) t else t)
      else trunc in
    let '(shared, series) := factorShared (buildSeries fitted (ri_Start in_) (ri_Step in_) points) in
    res shared series trunc.

End encode.

(** * Fitting the ceiling *)

Lemma fit_loop_spec {T} (marshal : list T → option Z) items ceiling fuel n : 0 < ceiling → 0 ≤ n → n * ceiling ≤ max_int64 → n < Z.of_nat fuel →
  ∃ k, fit_loop fuel marshal items ceiling n = take k items ∧ Z.of_nat k ≤ n
    ∧ (k = 0%nat ∨ EstimateTokens (marshal (take k items)) ≤ ceiling)
    ∧ (ceiling < EstimateTokens (marshal (take (Z.to_nat n) items)) → Z.of_nat k < n ∨ n = 0)
    ∧ ∀ more, fit_loop (fuel + more) marshal items ceiling n = fit_loop fuel marshal items ceiling n.
Proof.
  intros Hc. revert n. induction fuel as [|fuel IH]; intros n Hn Hmax Hf; [lia|]. cbn [fit_loop Nat.add].
  destruct (Z.leb_spec n 0).
  { exists 0%nat. split_and!; [done|lia|by left|lia|done]. }
  destruct (Z.leb_spec (EstimateTokens (marshal (take (Z.to_nat n) items))) ceiling).
  { exists (Z.to_nat n). split_and!; [done|lia|by right|lia|done]. }
  set (size := EstimateTokens _) in *.
  rewrite wrap_int64_id by (unfold int64_range, min_int64; nia). rewrite Z.quot_div_nonneg by nia. set (n' := _ / _).
  assert (0 ≤ n') by (apply Z.div_pos; nia).
  assert (n' < n) by (apply Z.div_lt_upper_bound; [lia|]; rewrite Z.max_l by lia; nia).
  destruct (IH n') as (k & -> & Hk & Hfit & _ & Hmore); [lia|nia|lia|]. exists k. split_and!; [done|lia|done|lia|done].
Qed.

(** What [FitTokens] returns. *)
Lemma FitTokens_spec {T} (marshal : list T → option Z) items ceiling : Z.of_nat (length items) * ceiling ≤ max_int64 →
  ∃ k, FitTokens marshal items ceiling = (take k items, bool_decide (0 < ceiling ∧ items ≠ [] ∧ ceiling < EstimateTokens (marshal items)))
    ∧ (k ≤ length items)%nat ∧ (k = length items ↔ ¬ (0 < ceiling ∧ items ≠ [] ∧ ceiling < EstimateTokens (marshal items)))
    ∧ (0 < ceiling → k = 0%nat ∨ EstimateTokens (marshal (take k items)) ≤ ceiling).
Proof.
  intros Hmax. unfold FitTokens. assert (take (length items) items = items) as Hall by (by apply take_ge).
  destruct (Z.leb_spec ceiling 0); cbn [orb].
  { exists (length items). rewrite Hall, bool_decide_false by lia. split_and!; [done|lia|split; [lia|done]|lia]. }
  destruct (Nat.eqb_spec (length items) 0) as [H0|H0].
  { apply nil_length_inv in H0 as ->. exists 0%nat. rewrite bool_decide_false by naive_solver. split_and!; [done|lia|naive_solver|by left]. }
  assert (items ≠ []) as Hne by (by intros ->). destruct (Z.leb_spec (EstimateTokens (marshal items)) ceiling).
  { exists (length items). rewrite Hall, bool_decide_false by lia. split_and!; [done|lia|split; [lia|done]|by right]. }
  destruct (fit_loop_spec marshal items ceiling (S (length items)) (Z.of_nat (length items))) as (k & -> & Hk & Hfit & Hlt & _); [lia|lia|lia|lia|].
  rewrite Nat2Z.id, Hall in Hlt. exists k. rewrite bool_decide_true by done. split_and!; [done|lia| |done]. split; [lia|tauto].
Qed.

(** The token ceiling is enforced and reported.  [FitTokens] returns the
whole list unreported exactly when the ceiling is off, the list is empty or its
result fits; otherwise it reports the cut and returns a strictly shorter prefix
that fits, or nothing.  Its loop ends: more turns than there are items change
nothing. *)
Theorem FitTokens_correct {T} (marshal : list T → option Z) (items : list T) (ceiling : Z) :
  Z.of_nat (length items) * ceiling ≤ max_int64 →
  let '(out, hit) := FitTokens marshal items ceiling in
  (hit = false ↔ ceiling ≤ 0 ∨ items = [] ∨ EstimateTokens (marshal items) ≤ ceiling)
  ∧ (hit = false → out = items)
  ∧ (hit = true → ∃ k, (k < length items)%nat ∧ out = take k items ∧ (out = [] ∨ EstimateTokens (marshal out) ≤ ceiling))
  ∧ (0 < ceiling → ∀ more, fit_loop (S (length items) + more) marshal items ceiling (Z.of_nat (length items))
                          = fit_loop (S (length items)) marshal items ceiling (Z.of_nat (length items))).
Proof.
  intros Hmax. destruct (FitTokens_spec marshal items ceiling Hmax) as (k & -> & Hk & Hall & Hfit).
  assert (items = [] ∨ items ≠ []) as Hdec by (destruct items; auto).
  split_and!.
  - rewrite bool_decide_eq_false. split; [|intros [?|[?|?]]; naive_solver lia]. intros Hn.
    destruct (Z.le_gt_cases ceiling 0); [by left|]. destruct Hdec; [by right; left|]. right; right.
    destruct (Z.le_gt_cases (EstimateTokens (marshal items)) ceiling); [done|]. exfalso. apply Hn. split_and!; [lia|done|lia].
  - rewrite bool_decide_eq_false. intros Hn%Hall. subst k. by apply take_ge.
  - rewrite bool_decide_eq_true. intros Hy. exists k. split; [|split; [done|]].
    + assert (k ≠ length items) by tauto. lia.
    + destruct (Hfit (proj1 Hy)) as [->|]; [by left|by right].
  - intros Hc. destruct (fit_loop_spec marshal items ceiling (S (length items)) (Z.of_nat (length items))) as (_ & _ & _ & _ & _ & Hm); [lia..|done].
Qed.

Lemma FitTokens_correct_witness :
  FitTokens (λ l : list Z, Some (100 * Z.of_nat (length l))) [1; 2; 3; 4; 5] 60 = ([1; 2], true)
  ∧ ∃ k, (k < 5)%nat ∧ [1; 2] = take k [1; 2; 3; 4; 5] ∧ (@nil Z = [1; 2] ∨ EstimateTokens (Some 200) ≤ 60).
Proof.
  assert (FitTokens (λ l : list Z, Some (100 * Z.of_nat (length l))) [1; 2; 3; 4; 5] 60 = ([1; 2], true)) as He by (vm_compute; reflexivity).
  split; [exact He|].
  pose proof (FitTokens_correct (λ l : list Z, Some (100 * Z.of_nat (length l))) [1; 2; 3; 4; 5] 60 ltac:(vm_compute; discriminate)) as H.
  rewrite He in H. destruct (proj1 (proj2 (proj2 H)) eq_refl) as (k & Hk & Hout & Hor). exists k. split; [exact Hk|]. split; [exact Hout|].
  right. destruct Hor as [Hn|Hfit]; [discriminate Hn|exact Hfit].
Defined.

(** * Ranking *)

Lemma feqb_cmp x y : (x =? y)%float = true ↔ cmp_float x y = Eq ∧ IsNaN x = false.
Proof.
  rewrite cmp_float_key, IsNaN_key, FloatAxioms.eqb_spec. unfold SpecFloat.SFeqb, SpecFloat.SFcompare, float_key, lex_compare.
  destruct (FloatOps.Prim2SF x) as [[]|[]| |[] m e], (FloatOps.Prim2SF y) as [[]|[]| |[] m' e']; cbn [fst snd]; try (split; [done|by intros []]); try done.
  - change (Pos.compare_cont Eq m m') with (m ?= m')%positive. change (Zneg m ?= Zneg m') with (CompOpp (m ?= m')%positive).
    change (2 ?= 2) with Eq. rewrite Z.compare_opp, (Z.compare_antisym e e').
    destruct (Z.compare_spec e e'), (Pos.compare_spec m m'); simpl; naive_solver.
  - change (Pos.compare_cont Eq m m') with (m ?= m')%positive. change (Zpos m ?= Zpos m') with (m ?= m')%positive. change (4 ?= 4) with Eq.
    destruct (Z.compare_spec e e'), (Pos.compare_spec m m'); simpl; naive_solver.
Qed.

Lemma compare_le a b : String.compare a b ≠ Gt ↔ String.le a b.
Proof. unfold String.le, String.leb. destruct (String.compare a b); simpl; naive_solver. Qed.

(** Descending by value, then ascending by key: the order of both rankings. *)
Definition value_key_le (x : float) (kx : string) (y : float) (ky : string) : Prop :=
  (if negb (x =? y)%float then cmp_float y x else String.compare kx ky) ≠ Gt.

Lemma value_key_desc x kx y ky : value_key_le x kx y ky → cmp_float y x ≠ Gt.
Proof.
  unfold value_key_le. destruct (x =? y)%float eqn:He; simpl; [|done]. apply feqb_cmp in He as [He _].
  rewrite cmp_float_antisym, He. done.
Qed.

Lemma value_key_total x kx y ky : value_key_le x kx y ky ∨ value_key_le y ky x kx.
Proof.
  unfold value_key_le. assert ((x =? y)%float = (y =? x)%float) as <-.
  { apply eq_bool_prop_intro. rewrite !Is_true_true, !feqb_cmp. rewrite (cmp_float_antisym x y).
    assert (cmp_float x y = Eq → IsNaN x = IsNaN y) as Hn.
    { rewrite cmp_float_key, !IsNaN_key. unfold lex_compare. destruct (Z.compare_spec (float_key x).1.1 (float_key y).1.1); try done. by rewrite H. }
    destruct (cmp_float x y); simpl; naive_solver. }
  destruct (x =? y)%float; simpl.
  - rewrite !compare_le. apply (total String.le).
  - rewrite (cmp_float_antisym x y). destruct (cmp_float x y); simpl; auto.
Qed.

Lemma value_key_trans x kx y ky z kz : value_key_le x kx y ky → value_key_le y ky z kz → value_key_le x kx z kz.
Proof.
  intros H1 H2. pose proof (value_key_desc _ _ _ _ H1) as D1. pose proof (value_key_desc _ _ _ _ H2) as D2.
  unfold value_key_le in *. destruct (x =? z)%float eqn:Hxz; simpl; [|by apply (cmp_float_trans _ y)].
  apply feqb_cmp in Hxz as [Hxz Hnan].
  assert (cmp_float x y = Eq) as Hxy.
  { rewrite (cmp_float_eq x z y Hxz). rewrite cmp_float_antisym in D1. rewrite (cmp_float_eq x z y Hxz) in D1. destruct (cmp_float z y); done. }
  assert (cmp_float y z = Eq) as Hyz.
  { rewrite <- (cmp_float_eq x y z Hxy). done. }
  assert (IsNaN y = false) as Hny.
  { revert Hxy Hnan. rewrite cmp_float_key, !IsNaN_key. unfold lex_compare. destruct (Z.compare_spec (float_key x).1.1 (float_key y).1.1); try done. by rewrite H. }
  rewrite (proj2 (feqb_cmp x y)) in H1 by done. rewrite (proj2 (feqb_cmp y z)) in H2 by done. simpl in *.
  rewrite compare_le in *. by etrans.
Qed.

#[export] Instance sample_le_trans : Transitive sample_le.
Proof. intros a b c. apply value_key_trans. Qed.
#[export] Instance sample_le_total : Total sample_le.
Proof. intros a b. apply value_key_total. Qed.

#[export] Instance ranked_le_trans : Transitive ranked_le.
Proof.
  intros a b c. unfold ranked_le, cmp_ranked. destruct (rk_ok a), (rk_ok b), (rk_ok c); simpl; try done.
  - apply value_key_trans.
  - rewrite !compare_le. apply transitivity.
Qed.
#[export] Instance ranked_le_total : Total ranked_le.
Proof.
  intros a b. unfold ranked_le, cmp_ranked. destruct (rk_ok a), (rk_ok b); simpl; try auto.
  - apply value_key_total.
  - rewrite !compare_le. apply (total String.le).
Qed.

(** A sorted list, cut: what is kept ranks before what is dropped. *)
Lemma cut_ranked {A} (R : relation A) `{!Transitive R} k (l : list A) a b :
  Sorted R l → a ∈ take k l → b ∈ drop k l → R a b.
Proof.
  intros Hs%Sorted_StronglySorted Ha Hb; [|done]. rewrite <- (take_drop k l) in Hs.
  revert Ha. induction (take k l) as [|x t IH]; [by intros ?%elem_of_nil|]. simpl in Hs. inversion Hs as [|? ? Hs' Hall]; subst.
  intros [->|Ha]%elem_of_cons; [|by apply IH]. rewrite Forall_forall in Hall. apply Hall. apply elem_of_app. by right.
Qed.

(** * Shared labels *)

Lemma keep_common_lookup other shared k v :
  keep_common other shared !! k = Some v ↔ shared !! k = Some v ∧ map_get other k = v.
Proof.
  unfold keep_common. rewrite prune_loop_spec by done. cbn [fst]. rewrite map_lookup_filter_Some. simpl.
  by rewrite String.eqb_eq.
Qed.

Lemma without_lookup shared m k : without shared m !! k = if decide (is_Some (shared !! k)) then None else m !! k.
Proof.
  unfold without.
  assert (∀ (l : list (string * string)) (m : gmap string string), foldl (λ m '(k, _), delete k m) m l !! k = if decide (k ∈ l.*1) then None else m !! k) as Hl.
  { intros l. induction l as [|[k' v'] l IH]; intros m'; cbn [foldl fmap list_fmap fst].
    { rewrite decide_False; [done|]. by apply not_elem_of_nil. }
    rewrite IH. destruct (decide (k' = k)) as [->|Hne].
    - rewrite lookup_delete_eq, (decide_True _ _ (list_elem_of_here _ _)). by case_decide.
    - rewrite lookup_delete_ne by done. apply decide_ext. rewrite elem_of_cons. naive_solver. }
  rewrite Hl. apply decide_ext. rewrite list_elem_of_fmap. split.
  - intros ([k' v'] & -> & Hin%elem_of_map_to_list). simpl. by eexists.
  - intros [v Hv]. exists (k, v). split; [done|]. by apply elem_of_map_to_list.
Qed.

(** Both loops keep what every other label set reads the same, and nothing that
was not there. *)
Lemma shared_loop_lookup shared l k v : shared_loop shared l !! k = Some v →
  shared !! k = Some v ∧ Forall (λ other, map_get other k = v) l.
Proof.
  revert shared. induction l as [|other l IH]; intros shared; cbn [shared_loop]; [by intros ->|].
  destruct (Nat.eqb_spec (size (keep_common other shared)) 0); [by rewrite lookup_empty|]. intros [H1%keep_common_lookup H2]%IH.
  destruct H1. split; [done|]. by constructor.
Qed.

Lemma factor_loop_lookup shared l k v : factor_loop shared l !! k = Some v →
  shared !! k = Some v ∧ Forall (λ other, map_get other k = v) l.
Proof.
  revert shared. induction l as [|other l IH]; intros shared; cbn [factor_loop]; [by intros ->|].
  destruct (Nat.eqb_spec (size (keep_common other shared)) 0) as [Hz|].
  - apply map_size_empty_inv in Hz. rewrite Hz, lookup_empty. done.
  - intros [H1%keep_common_lookup H2]%IH. destruct H1. split; [done|]. by constructor.
Qed.

(** The labels of a row with the shared ones and the name put back. *)
Definition whole_labels (shared : gmap string string) (name : string) (labels : gmap string string) : gmap string string :=
  <["__name__" := name]> (labels ∪ shared).

Lemma whole_labels_get (shared full : gmap string string) k :
  (∀ k v, shared !! k = Some v → map_get full k = v) →
  map_get (whole_labels shared (map_get full "__name__") (without shared (delete "__name__" full))) k = map_get full k.
Proof.
  intros Hsh. unfold whole_labels, map_get at 1. destruct (decide (k = "__name__")) as [->|Hne]; [by rewrite lookup_insert_eq|].
  rewrite lookup_insert_ne by done. rewrite lookup_union, without_lookup. destruct (shared !! k) as [v|] eqn:Hv.
  - rewrite decide_True by (by eexists). simpl. symmetry. by apply Hsh.
  - rewrite decide_False by (by intros []). rewrite lookup_delete_ne by done. unfold map_get. by destruct (full !! k).
Qed.

Lemma sharedVectorLabels_common samples k v s : sharedVectorLabels samples !! k = Some v → s ∈ samples →
  map_get (render_Labels (vs_Metric s)) k = v.
Proof.
  destruct samples as [|s0 [|s1 rest]]; simpl; [by rewrite lookup_empty..|].
  intros [H1 H2]%(shared_loop_lookup _ (render_Labels (vs_Metric s1) :: ((λ s, render_Labels (vs_Metric s)) <$> rest))).
  apply lookup_delete_Some in H1 as [_ H1]. intros [->|Hs]%elem_of_cons; [unfold map_get; by rewrite H1|].
  rewrite Forall_forall in H2. apply (H2 (render_Labels (vs_Metric s))). change (_ :: _) with ((λ s, render_Labels (vs_Metric s)) <$> s1 :: rest).
  by apply (list_elem_of_fmap_2 (λ s, render_Labels (vs_Metric s))).
Qed.

Section theorems.
Context (Log10 : float → float).

Lemma vectorRows_lossless samples : Forall2 (λ (s : VectorSample) (row : Row),
    row.2 = CellNumber (jsonNumber (round Log10 (pt_V (vs_Value s))))
    ∧ ∀ k, map_get (whole_labels (sharedVectorLabels samples) row.1.1 row.1.2) k = map_get (render_Labels (vs_Metric s)) k)
  samples (vectorRows Log10 samples (sharedVectorLabels samples)).
Proof.
  unfold vectorRows. apply Forall2_fmap_r, Forall2_same_length_lookup. split; [done|]. intros i s s' Hs Hs'. simplify_eq. simpl. split; [done|].
  intros k. apply whole_labels_get. intros k' v Hk. eapply sharedVectorLabels_common; [done|]. by eapply list_elem_of_lookup_2.
Qed.

(** Cutting at a limit, then at the ceiling. *)
Lemma take_fit {T} (marshal : list T → option Z) (l : list T) (n ceiling : Z) : 0 < n → n * ceiling ≤ max_int64 →
  ∃ k, (FitTokens marshal (take (Z.to_nat n) l) ceiling).1 = take k l ∧ (k ≤ length l)%nat ∧ Z.of_nat k ≤ n
    ∧ ((FitTokens marshal (take (Z.to_nat n) l) ceiling).2 = false → k = Nat.min (Z.to_nat n) (length l))
    ∧ ((FitTokens marshal (take (Z.to_nat n) l) ceiling).2 = true → (k < length l)%nat).
Proof.
  intros Hn Hmax. pose proof (length_take l (Z.to_nat n)) as Hlen.
  destruct (FitTokens_spec marshal (take (Z.to_nat n) l) ceiling) as (k & -> & Hk & Hall & _).
  { destruct (Z.le_gt_cases 0 ceiling); [nia|]. unfold max_int64. nia. }
  cbn [fst snd]. exists k. rewrite take_take. split_and!; [f_equal; lia|lia|lia|..].
  - rewrite bool_decide_eq_false. intros Hf%Hall. lia.
  - rewrite bool_decide_eq_true. intros Ht. assert (k ≠ length (take (Z.to_nat n) l)) by tauto. lia.
Qed.

Lemma TruncateItems_spec {T} (items : list T) n hint : 0 < n →
  TruncateItems items n hint =
    (take (Z.to_nat n) items,
     if Z.of_nat (length items) <=? n then None
     else Some {| tr_Returned := n; tr_Total := Z.of_nat (length items); tr_Reason := ReasonLimit; tr_Hint := hint; tr_Selection := "" |}).
Proof.
  intros Hn. unfold TruncateItems. destruct (Z.leb_spec n 0); [lia|]. simpl. destruct (Z.leb_spec (Z.of_nat (length items)) n); [|done].
  by rewrite take_ge by lia.
Qed.

Lemma defaults_pos o : 0 < op_MaxItems (WithDefaults o) ∧ 0 < op_MaxSeries (WithDefaults o).
Proof.
  unfold WithDefaults, DefaultMaxItems, DefaultMaxSeries. cbn [op_MaxItems op_MaxSeries].
  destruct (Z.leb_spec (op_MaxItems o) 0), (Z.leb_spec (op_MaxSeries o) 0); lia.
Qed.

(** What a reported truncation says of a result that kept [n] of [total]. *)
Definition honest (trunc : option Truncation) (n total : nat) : Prop :=
  match trunc with
  | None => n = total
  | Some t => (n < total)%nat ∧ tr_Returned t = Z.of_nat n ∧ tr_Total t = Z.of_nat total
  end.

(** An instant result is the top of the ranking, without losing a label and
with an honest count.  The rows are the first ones of the samples sorted by
descending value (no dropped sample has a greater value than a kept one), at
most as many as the limit; each row carries its rounded value, and its name, its
own labels and the shared labels together read, label by label, as the sanitised
labels of its sample.  [Total] counts every sample, and a truncation is reported
exactly when samples were dropped, with how many are left of how many. *)
Theorem EncodeInstant_correct (marshal : list Row → option Z) (in_ : InstantInput) (opts : Options) :
  ii_Scalar in_ = None → ii_ResultType in_ ≠ "string" →
  op_MaxItems (WithDefaults opts) * op_TokenCeiling (WithDefaults opts) ≤ max_int64 →
  let r := EncodeInstant Log10 marshal in_ opts in
  ∃ kept dropped, (kept ++ dropped)%list ≡ₚ ii_Vector in_
    ∧ (∀ a b, a ∈ kept → b ∈ dropped → cmp_float (pt_V (vs_Value b)) (pt_V (vs_Value a)) ≠ Gt)
    ∧ Z.of_nat (length kept) ≤ op_MaxItems (WithDefaults opts)
    ∧ Forall2 (λ s (row : Row),
        row.2 = CellNumber (jsonNumber (round Log10 (pt_V (vs_Value s))))
        ∧ ∀ k, map_get (whole_labels (ir_SharedLabels r) row.1.1 row.1.2) k = map_get (render_Labels (vs_Metric s)) k) kept (ir_Rows r)
    ∧ ir_Total r = Z.of_nat (length (ii_Vector in_))
    ∧ honest (ir_Truncated r) (length kept) (length (ii_Vector in_)).
Proof.
  intros Hsc Hty Hmax. unfold EncodeInstant. rewrite Hsc, (proj2 (String.eqb_neq _ _) Hty).
  destruct (defaults_pos opts) as [Hpos _]. set (n := op_MaxItems (WithDefaults opts)) in *. set (ceiling := op_TokenCeiling (WithDefaults opts)) in *.
  set (samples := merge_sort sample_le (ii_Vector in_)). rewrite TruncateItems_spec by done.
  assert (samples ≡ₚ ii_Vector in_) as Hperm by apply merge_sort_Permutation. pose proof (Permutation_length Hperm) as Hlen.
  set (m := λ sel, marshal (vectorRows Log10 sel ∅)).
  destruct (take_fit m samples n ceiling Hpos Hmax) as (k & Hfit & Hk & Hkn & Hall & Hlt).
  destruct (FitTokens m (take (Z.to_nat n) samples) ceiling) as [fitted hit]. cbn [fst snd] in *. subst fitted.
  exists (take k samples), (drop k samples). cbn [ir_SharedLabels ir_Rows ir_Total ir_Truncated]. pose proof (length_take samples k) as Hlk. split_and!.
  - by rewrite take_drop.
  - intros a b Ha Hb. apply (value_key_desc _ (labelKey (vs_Metric a)) _ (labelKey (vs_Metric b))).
    change (sample_le a b). eapply cut_ranked; [apply _|apply Sorted_merge_sort; apply _|done|done].
  - lia.
  - apply vectorRows_lossless.
  - by rewrite Hlen.
  - rewrite <- Hlen. destruct hit; simpl.
    + specialize (Hlt eq_refl). rewrite Hlk, Nat.min_l by lia. split_and!; [lia|by destruct (_ <=? _)|done].
    + specialize (Hall eq_refl). destruct (Z.leb_spec (Z.of_nat (length samples)) n); simpl; [lia|]. split_and!; lia.
Qed.

(** * Range results *)

Lemma place_length startSec stepSec points values p : length (place Log10 startSec stepSec points values p) = length values.
Proof. unfold place. repeat case_match; [done..|]. apply length_insert. Qed.

Lemma placed_length startSec stepSec points ps values : length (foldl (place Log10 startSec stepSec points) values ps) = length values.
Proof. revert values. induction ps as [|p ps IH]; intros values; simpl; [done|]. by rewrite IH, place_length. Qed.

(** A cell of the grid holds the value of a sample whose time is nearest to it,
or nothing. *)
Definition on_grid (startSec stepSec : float) (ps : list Point) (i : nat) (v : option float) : Prop :=
  v = None ∨ ∃ p, p ∈ ps ∧ trunc_float (Round ((pt_T p - startSec) / stepSec)) = Z.of_nat i ∧ v = jsonNumber (round Log10 (pt_V p)).

Lemma placed_on_grid startSec stepSec points ps i v :
  foldl (place Log10 startSec stepSec points) (replicate (Z.to_nat points) None) ps !! i = Some v → on_grid startSec stepSec ps i v.
Proof.
  revert v. induction ps as [|p ps IH] using rev_ind; intros v.
  { intros [-> _]%lookup_replicate. by left. }
  rewrite foldl_app. cbn [foldl]. unfold place at 1.
  assert (∀ v, on_grid startSec stepSec ps i v → on_grid startSec stepSec (ps ++ [p])%list i v) as Hmono.
  { intros v' [->|(q & Hq & H)]; [by left|]. right. exists q. split; [set_solver|done]. }
  destruct (_ || (points =? 0)); [eauto|]. destruct (Z.ltb_spec (trunc_float (Round ((pt_T p - startSec) / stepSec))) 0); [simpl; eauto|].
  destruct (points <=? _); simpl; [eauto|]. intros [(<- & <- & _)|[_ Hv]]%list_lookup_insert_Some; [|eauto].
  right. exists p. split_and!; [set_solver|by rewrite Z2Nat.id|done].
Qed.

Lemma factorShared_lossless series shared out : factorShared series = (shared, out) →
  Forall2 (λ s o, rs_Values o = rs_Values s ∧ rs_Max o = rs_Max s ∧ ∀ k, map_get (rs_Labels o ∪ shared) k = map_get (rs_Labels s) k) series out.
Proof.
  unfold factorShared. destruct series as [|s0 rest]; [intros [= <- <-]; constructor|].
  set (sh := factor_loop (rs_Labels s0) (rs_Labels <$> rest)). destruct (Nat.eqb_spec (size sh) 0); intros [= <- <-].
  { apply Forall_Forall2_diag, Forall_true. intros s. by rewrite map_union_empty. }
  rewrite <- (fmap_cons (λ s, {| rs_Labels := without sh (rs_Labels s); rs_Values := rs_Values s; rs_Max := rs_Max s |})).
  apply Forall2_fmap_r, Forall2_same_length_lookup. split; [done|]. intros i s s' Hs Hs'. simplify_eq. cbn [rs_Values rs_Max rs_Labels]. split_and!; [done..|].
  intros k. unfold map_get at 1. cbn [rs_Labels]. rewrite lookup_union, without_lookup. destruct (sh !! k) as [v|] eqn:Hv.
  - rewrite decide_True by (by eexists). simpl. apply factor_loop_lookup in Hv as [H1 H2].
    apply list_elem_of_lookup_2, elem_of_cons in Hs as [->|Hs]; [unfold map_get; by rewrite H1|].
    rewrite Forall_forall in H2. symmetry. apply H2. by apply list_elem_of_fmap_2.
  - rewrite decide_False by (by intros []). unfold map_get. by destruct (rs_Labels s !! k).
Qed.

(** A range result puts the top of the ranking on one grid.  The series are
the first ones of the matched series ranked by their largest finite value, at
most as many as the limit; each has exactly [Points] entries, and the entry at
an index is the rounded value of a sample of that series whose time is nearest
to that step, or a gap; its labels and the shared ones together read as its
sanitised labels.  A truncation is reported exactly when series were dropped. *)
Theorem EncodeRange_correct (marshal : list RangeSeries → option Z) (in_ : RangeInput) (opts : Options) :
  ri_SeriesTotalHint in_ ≤ Z.of_nat (length (ri_Matrix in_)) →
  op_MaxSeries (WithDefaults opts) * op_TokenCeiling (WithDefaults opts) ≤ max_int64 →
  let r := EncodeRange Log10 marshal in_ opts in
  let startSec := (float64_of (UnixNano (ri_Start in_)) / 1e9)%float in
  ∃ kept dropped, (kept ++ dropped)%list ≡ₚ rank <$> ri_Matrix in_
    ∧ (∀ a b, a ∈ kept → b ∈ dropped → ranked_le a b)
    ∧ Z.of_nat (length kept) ≤ op_MaxSeries (WithDefaults opts)
    ∧ Forall2 (λ a s,
        length (rs_Values s) = Z.to_nat (rr_Points r)
        ∧ (∀ i v, rs_Values s !! i = Some v → on_grid startSec (Seconds (ri_Step in_)) (ss_Values (rk_s a)) i v)
        ∧ ∀ k, map_get (rs_Labels s ∪ rr_SharedLabels r) k = map_get (render_Labels (ss_Metric (rk_s a))) k) kept (rr_Series r)
    ∧ rr_SeriesTotal r = Z.of_nat (length (ri_Matrix in_))
    ∧ honest (rr_Truncated r) (length kept) (length (ri_Matrix in_)).
Proof.
  intros Hhint Hmax. unfold EncodeRange. set (n := op_MaxSeries (WithDefaults opts)) in *. set (ceiling := op_TokenCeiling (WithDefaults opts)) in *.
  destruct (defaults_pos opts) as [_ Hpos]. fold n in Hpos.
  set (points := if _ && _ then Z.quot _ _ + 1 else 0).
  assert ((if ri_SeriesTotalHint in_ <? Z.of_nat (length (ri_Matrix in_)) then Z.of_nat (length (ri_Matrix in_)) else ri_SeriesTotalHint in_)
    = Z.of_nat (length (ri_Matrix in_))) as -> by (destruct (Z.ltb_spec (ri_SeriesTotalHint in_) (Z.of_nat (length (ri_Matrix in_)))); lia).
  destruct (Nat.eqb_spec (length (ri_Matrix in_)) 0) as [H0|H0].
  { apply nil_length_inv in H0 as ->. exists [], []. simpl. split_and!; [done|by intros ? ? ?%elem_of_nil|lia|constructor|done|done]. }
  set (ranked := rankByMax (ri_Matrix in_)). assert (ranked ≡ₚ rank <$> ri_Matrix in_) as Hperm by apply merge_sort_Permutation.
  pose proof (Permutation_length Hperm) as Hlen. rewrite length_fmap in Hlen.
  set (m := λ sel, marshal (buildSeries Log10 sel (ri_Start in_) (ri_Step in_) points)).
  destruct (take_fit m ranked n ceiling Hpos Hmax) as (k & Hfit & Hk & Hkn & Hall & Hlt). pose proof (length_take ranked k) as Hlk.
  assert (∀ trunc : option Truncation,
    (if n <? Z.of_nat (length ranked) then (take (Z.to_nat n) ranked, trunc) else (ranked, None))
    = (take (Z.to_nat n) ranked, if n <? Z.of_nat (length ranked) then trunc else None)) as ->.
  { intros trunc. destruct (Z.ltb_spec n (Z.of_nat (length ranked))); [done|]. by rewrite take_ge by lia. }
  destruct (FitTokens m (take (Z.to_nat n) ranked) ceiling) as [fitted hit]. cbn [fst snd] in *. subst fitted.
  destruct (factorShared _) as [shared series] eqn:Hf.
  exists (take k ranked), (drop k ranked). cbn [rr_SharedLabels rr_Series rr_SeriesTotal rr_Truncated rr_Points]. split_and!.
  - by rewrite take_drop.
  - intros a b Ha Hb. eapply cut_ranked; [apply _|apply Sorted_merge_sort; apply _|done|done].
  - lia.
  - apply factorShared_lossless in Hf. unfold buildSeries in Hf. rewrite Forall2_fmap_l in Hf. eapply Forall2_impl; [exact Hf|].
    intros a s (Hv & _ & Hlab). cbn [rs_Values rs_Labels] in Hv, Hlab. rewrite Hv. split_and!; [by rewrite placed_length, length_replicate| |done].
    intros i v. apply placed_on_grid.
  - done.
  - rewrite <- Hlen. destruct hit; simpl.
    + specialize (Hlt eq_refl). rewrite Hlk, Nat.min_l by lia. destruct (n <? _); simpl; split_and!; try done; lia.
    + specialize (Hall eq_refl). destruct (Z.ltb_spec n (Z.of_nat (length ranked))); simpl; [split_and!; lia|lia].
Qed.

End theorems.

(** * Examples *)

Definition sample_of (job : string) (v : float) : VectorSample :=
  {| vs_Metric := {[ "__name__" := "up"; "job" := job; "env" := "prod" ]}; vs_Value := {| pt_T := 0; pt_V := v |}; vs_Histogram := [] |}.
Definition two_samples : InstantInput :=
  {| ii_Vector := [sample_of "a" 1; sample_of "b" 2]; ii_Scalar := None; ii_StringValue := ""; ii_ResultType := "vector"; ii_At := 0; ii_Warnings := [] |}.
Definition at_most (n : Z) : Options := {| op_Format := ""; op_MaxSeries := n; op_MaxPoints := 0; op_MaxItems := n; op_TokenCeiling := -1 |}.
Definition stream_of (job : string) (ps : list (float * float)) : SeriesStream :=
  {| ss_Metric := {[ "job" := job; "env" := "prod" ]}; ss_Values := (λ p, {| pt_T := p.1; pt_V := p.2 |}) <$> ps; ss_Histograms := [] |}.
Definition two_series : RangeInput :=
  {| ri_Matrix := [stream_of "a" [(0, 1)]; stream_of "b" [(0, 1); (60, 2)]]%float; ri_Start := unix_epoch * Second; ri_End := (unix_epoch + 60) * Second;
     ri_Step := Minute; ri_Downsampled := {| ds_RequestedStep := ""; ds_AppliedStep := ""; ds_Reason := "" |}; ri_Warnings := []; ri_SeriesTotalHint := 0 |}.

Lemma EncodeInstant_correct_witness :
  let r := EncodeInstant (λ x, x) (λ _, None) two_samples (at_most 1) in
  ∃ kept dropped, (kept ++ dropped)%list ≡ₚ ii_Vector two_samples ∧ honest (ir_Truncated r) (length kept) 2.
Proof.
  intros r.
  destruct (EncodeInstant_correct (λ x, x) (λ _, None) two_samples (at_most 1)) as (kept & dropped & Hp & _ & _ & _ & _ & Hh);
    [reflexivity|discriminate|vm_compute; discriminate|]. exists kept, dropped. split; [exact Hp|exact Hh].
Defined.

Lemma EncodeRange_correct_witness :
  let r := EncodeRange (λ x, x) (λ _, None) two_series (at_most 1) in
  ∃ kept dropped, (kept ++ dropped)%list ≡ₚ rank <$> ri_Matrix two_series ∧ honest (rr_Truncated r) (length kept) 2.
Proof.
  intros r.
  destruct (EncodeRange_correct (λ x, x) (λ _, None) two_series (at_most 1)) as (kept & dropped & Hp & _ & _ & _ & _ & Hh);
    [vm_compute; discriminate|vm_compute; discriminate|]. exists kept, dropped. split; [exact Hp|exact Hh].
Defined.

Example shared_are_factored :
  ir_SharedLabels (EncodeInstant (λ x, x) (λ _, None) two_samples (at_most 0)) = {[ "env" := "prod" ]}
  ∧ tr_Selection <$> ir_Truncated (EncodeInstant (λ x, x) (λ _, None) two_samples (at_most 1)) = Some "top_1_by_max".
Proof. vm_compute. done. Qed.
