(* ===== verification/Sem.v ===== *)
(** The proxy's semaphores: [src/internal/promproxy/sem.go].

[byteSem.acquire] releases the mutex while it waits, so a call is a small state
machine: each critical section, and each observation of a channel, is one step,
and the theorems range over all interleavings of any number of calls.  A
waiter's [ready] channel is the flag of its call; closing it sets the flag. *)

From S2P Require Import Prelude.
Open Scope Z_scope.

(** * The refusing semaphore *)

Definition inflightSem : Type := gmap string Z.

Definition newInflightSem : inflightSem := ∅.

Definition inflight_acquire (clusterID : string) (limit : Z) (s : inflightSem) : bool * inflightSem :=
  if limit <=? default 0 (s !! clusterID) then (false, s)
  else (true, <[clusterID := wrap_int64 (default 0 (s !! clusterID) + 1)]> s).

Definition inflight_release (clusterID : string) (s : inflightSem) : inflightSem :=
  let n := wrap_int64 (default 0 (s !! clusterID) - 1) in
  if n <=? 0 then delete clusterID s else <[clusterID := n]> s.

(** * The byte budget *)

Record byteWaiter := { bw_id : nat; bw_n : Z }.

Record byteSem := {
  bs_capacity : Z;
  bs_free : Z;
  bs_waiters : list byteWaiter
}.

Definition newByteSem (capacity : Z) : byteSem :=
  {| bs_capacity := capacity; bs_free := capacity; bs_waiters := [] |}.

(** The loop of [grantLocked]: the free bytes and the queue left, and the
waiters granted. *)
Fixpoint grant_loop (free : Z) (ws : list byteWaiter) : Z * list byteWaiter * list byteWaiter :=
  match ws with
  | w :: ws' =>
    if bw_n w <=? free
    then let '(free', rest, granted) := grant_loop (wrap_int64 (free - bw_n w)) ws' in (free', rest, w :: granted)
    else (free, ws, [])
  | [] => (free, [], [])
  end.

Definition grantLocked (s : byteSem) : byteSem * list byteWaiter :=
  let '(free, rest, granted) := grant_loop (bs_free s) (bs_waiters s) in
  ({| bs_capacity := bs_capacity s; bs_free := free; bs_waiters := rest |}, granted).

Definition with_free (f : Z) (s : byteSem) : byteSem :=
  {| bs_capacity := bs_capacity s; bs_free := f; bs_waiters := bs_waiters s |}.
Definition with_waiters (ws : list byteWaiter) (s : byteSem) : byteSem :=
  {| bs_capacity := bs_capacity s; bs_free := bs_free s; bs_waiters := ws |}.

Definition byte_release (n : Z) (s : byteSem) : byteSem * list byteWaiter :=
  if n <=? 0 then (s, []) else grantLocked (with_free (wrap_int64 (bs_free s + n)) s).

(** The first half of [acquire]: what is decided before the wait. *)
Inductive Entered := EnterOk | EnterTooLarge | EnterQueued.

Definition acquire_enter (id : nat) (n : Z) (s : byteSem) : Entered * byteSem :=
  if n <=? 0 then (EnterOk, s)
  else if bs_capacity s <? n then (EnterTooLarge, s)
  else if (length (bs_waiters s) =? 0)%nat && (n <=? bs_free s)
  then (EnterOk, with_free (wrap_int64 (bs_free s - n)) s)
  else (EnterQueued, with_waiters (bs_waiters s ++ [{| bw_id := id; bw_n := n |}]) s).

(** [slices.Index] of the waiter. *)
Fixpoint waiter_index (id : nat) (ws : list byteWaiter) : option nat :=
  match ws with
  | [] => None
  | w :: ws => if (bw_id w =? id)%nat then Some 0%nat else S <$> waiter_index id ws
  end.

(** The critical section after [ctx.Done]: whether the waiter was still queued,
and the waiters granted by its leaving. *)
Definition acquire_cancel (id : nat) (s : byteSem) : bool * byteSem * list byteWaiter :=
  match waiter_index id (bs_waiters s) with
  | Some i => let '(s, granted) := grantLocked (with_waiters (delete i (bs_waiters s)) s) in (true, s, granted)
  | None => (false, s, [])
  end.

(** * Calls *)

Inductive Phase :=
| CWait (n : Z) (ready : bool)   (** in the select *)
| CBack (n : Z) (ready : bool)   (** cancelled but no longer queued, about to receive from [ready] *)
| CHold (n : Z)                  (** acquired *)
| CDone.                         (** released, refused or cancelled *)

Record World := { wo_sem : byteSem; wo_calls : gmap nat Phase }.

Definition mark (calls : gmap nat Phase) (w : byteWaiter) : gmap nat Phase :=
  alter (λ p, match p with CWait n _ => CWait n true | CBack n _ => CBack n true | p => p end) (bw_id w) calls.

(** The world after a critical section that left [s] and closed the channels of
[granted], with the running call at [p]. *)
Definition settle (id : nat) (p : Phase) (s : byteSem) (granted : list byteWaiter) (w : World) : World :=
  {| wo_sem := s; wo_calls := foldl mark (<[id := p]> (wo_calls w)) granted |}.

Inductive sem_label := LEnter (id : nat) (n : Z) | LWake (id : nat) | LCancel (id : nat) | LBack (id : nat) | LRelease (id : nat).

(** Each step of a call, as a function: [None] when it cannot be taken. *)
Definition sem_exec (l : sem_label) (w : World) : option World :=
  match l with
  | LEnter id n =>
    match wo_calls w !! id with
    | Some _ => None
    | None =>
      let '(e, s) := acquire_enter id n (wo_sem w) in
      Some (settle id (match e with EnterOk => CHold n | EnterTooLarge => CDone | EnterQueued => CWait n false end) s [] w)
    end
  | LWake id =>
    match wo_calls w !! id with Some (CWait n true) => Some (settle id (CHold n) (wo_sem w) [] w) | _ => None end
  | LCancel id =>
    match wo_calls w !! id with
    | Some (CWait n ready) =>
      let '(found, s, granted) := acquire_cancel id (wo_sem w) in
      Some (settle id (if found then CDone else CBack n ready) s granted w)
    | _ => None
    end
  | LBack id =>
    match wo_calls w !! id with
    | Some (CBack n true) => let '(s, granted) := byte_release n (wo_sem w) in Some (settle id CDone s granted w)
    | _ => None
    end
  | LRelease id =>
    match wo_calls w !! id with
    | Some (CHold n) => let '(s, granted) := byte_release n (wo_sem w) in Some (settle id CDone s granted w)
    | _ => None
    end
  end.

Fixpoint sem_run (ls : list sem_label) (w : World) : option World :=
  match ls with [] => Some w | l :: ls => w ← sem_exec l w; sem_run ls w end.

Definition sem_start (capacity : Z) : World := {| wo_sem := newByteSem capacity; wo_calls := ∅ |}.

(** * Accounting *)

(** The bytes a call has been given. *)
Definition reserved (p : Phase) : Z :=
  match p with
  | CWait n true | CBack n _ => n
  | CHold n => Z.max 0 n
  | CWait _ false | CDone => 0
  end.

Definition total (calls : gmap nat Phase) : Z := map_fold (λ _ p a, reserved p + a) 0 calls.

Definition queued (ws : list byteWaiter) : Z := foldr (λ w a, bw_n w + a) 0 ws.

Definition phase_ok (cap : Z) (p : Phase) : Prop :=
  match p with
  | CWait n _ => 0 < n ≤ cap
  | CBack n ready => 0 < n ≤ cap ∧ ready = true
  | CHold _ | CDone => True
  end.

(** What holds inside the critical sections, before [grantLocked]. *)
Record sem_mid (cap : Z) (s : byteSem) (calls : gmap nat Phase) : Prop := {
  sm_cap : bs_capacity s = cap;
  sm_range : cap ≤ max_int64;
  sm_sum : bs_free s + total calls = cap;
  sm_free : 0 ≤ bs_free s;
  sm_nodup : NoDup (bw_id <$> bs_waiters s);
  sm_wait : ∀ id n, {| bw_id := id; bw_n := n |} ∈ bs_waiters s ↔ calls !! id = Some (CWait n false);
  sm_phase : map_Forall (λ _ p, phase_ok cap p) calls
}.

(** The head of the queue does not fit. *)
Definition head_blocked (s : byteSem) : Prop :=
  match bs_waiters s with w :: _ => bs_free s < bw_n w | [] => True end.

Definition sem_inv (cap : Z) (w : World) : Prop := sem_mid cap (wo_sem w) (wo_calls w) ∧ head_blocked (wo_sem w).

Lemma total_insert_new id p calls : calls !! id = None → total (<[id := p]> calls) = reserved p + total calls.
Proof. intros Hn. unfold total. rewrite map_fold_insert_L; [done| |done]. intros. lia. Qed.

Lemma total_insert id p calls :
  total (<[id := p]> calls) = total calls - from_option reserved 0 (calls !! id) + reserved p.
Proof.
  destruct (calls !! id) as [q|] eqn:Hq; simpl.
  - rewrite <- insert_delete_eq, total_insert_new by (by rewrite lookup_delete_eq).
    rewrite <- (insert_id calls id q) at 2 by done. rewrite <- (insert_delete_eq calls id q).
    rewrite total_insert_new by (by rewrite lookup_delete_eq). lia.
  - rewrite total_insert_new by done. lia.
Qed.

Lemma reserved_nonneg cap p : phase_ok cap p → 0 ≤ reserved p.
Proof. destruct p as [n []|n b|n|]; simpl; lia. Qed.

Lemma total_nonneg cap calls : map_Forall (λ _ p, phase_ok cap p) calls → 0 ≤ total calls.
Proof.
  induction calls as [|id p calls Hn IH] using map_ind; intros Hf; [done|].
  apply map_Forall_insert_1_1 in Hf as Hp. apply map_Forall_insert_1_2 in Hf as Hc; [|done].
  rewrite total_insert_new by done. specialize (IH Hc). apply reserved_nonneg in Hp. lia.
Qed.

(** A call accounts for at most the whole. *)
Lemma total_ge cap calls id p : map_Forall (λ _ p, phase_ok cap p) calls → calls !! id = Some p → reserved p ≤ total calls.
Proof.
  intros Hf Hp. rewrite <- (insert_id calls id p), <- insert_delete_eq, total_insert_new by (by rewrite ?lookup_delete_eq).
  pose proof (total_nonneg cap (delete id calls) (map_Forall_delete _ _ _ Hf)). lia.
Qed.

(** ** Granting *)

Lemma grant_loop_spec free ws : 0 ≤ free ≤ max_int64 → Forall (λ w, 0 < bw_n w) ws →
  let '(free', rest, granted) := grant_loop free ws in
  ws = (granted ++ rest)%list ∧ free' + queued granted = free ∧ 0 ≤ free'
  ∧ match rest with w :: _ => free' < bw_n w | [] => True end.
Proof.
  revert free. induction ws as [|w ws IH]; intros free Hf Hall; simpl; [split_and!; try done; lia|].
  apply Forall_cons in Hall as [Hw Hall]. destruct (Z.leb_spec (bw_n w) free); [|simpl; split_and!; try done; lia].
  rewrite wrap_int64_id by (unfold int64_range, min_int64 in *; lia). specialize (IH (free - bw_n w) ltac:(lia) Hall).
  destruct (grant_loop (free - bw_n w) ws) as [[free' rest] granted]. destruct IH as (-> & Hsum & Hpos & Hhead).
  split_and!; [done|simpl; lia|done|done].
Qed.

Lemma mark_all calls gs : NoDup (bw_id <$> gs) →
  (∀ w, w ∈ gs → calls !! bw_id w = Some (CWait (bw_n w) false)) →
  total (foldl mark calls gs) = total calls + queued gs
  ∧ ∀ id, foldl mark calls gs !! id
          = if decide (id ∈ bw_id <$> gs) then (λ p, match p with CWait n _ => CWait n true | p => p end) <$> calls !! id else calls !! id.
Proof.
  revert calls. induction gs as [|w gs IH]; intros calls Hnd Hall.
  { split; [simpl; lia|]. intros id. rewrite decide_False; [done|]. by intros ?%elem_of_nil. }
  cbn [fmap list_fmap] in Hnd. apply NoDup_cons in Hnd as [Hw Hnd]. cbn [foldl].
  pose proof (Hall w (list_elem_of_here _ _)) as Hwc.
  assert (mark calls w = <[bw_id w := CWait (bw_n w) true]> calls) as Hm.
  { unfold mark. apply map_eq. intros i. destruct (decide (i = bw_id w)) as [->|].
    - by rewrite lookup_alter_eq, lookup_insert_eq, Hwc.
    - by rewrite lookup_alter_ne, lookup_insert_ne. }
  rewrite Hm. destruct (IH (<[bw_id w := CWait (bw_n w) true]> calls)) as [Ht Hl]; [done| |].
  { intros w' Hw'. rewrite lookup_insert_ne; [apply Hall; by apply list_elem_of_further|].
    intros Heq. apply Hw. rewrite Heq. by apply list_elem_of_fmap_2. }
  split.
  - rewrite Ht, total_insert, Hwc. simpl. lia.
  - intros id. rewrite Hl. cbn [fmap list_fmap]. destruct (decide (id = bw_id w)) as [->|Hne].
    + rewrite lookup_insert_eq, (decide_True _ _ (list_elem_of_here _ _)), Hwc. by case_decide.
    + rewrite lookup_insert_ne by done. apply decide_ext. rewrite elem_of_cons. tauto.
Qed.

Lemma grant_inv cap s calls : sem_mid cap s calls →
  let '(s', granted) := grantLocked s in
  sem_inv cap {| wo_sem := s'; wo_calls := foldl mark calls granted |} ∧ bs_waiters s = (granted ++ bs_waiters s')%list.
Proof.
  intros [Hcap Hrange Hsum Hfree Hnd Hwait Hph]. unfold grantLocked.
  assert (∀ w, w ∈ bs_waiters s → calls !! bw_id w = Some (CWait (bw_n w) false)) as Hin.
  { intros [id n] Hw. by apply Hwait. }
  assert (Forall (λ w, 0 < bw_n w) (bs_waiters s)) as Hpos.
  { apply Forall_forall. intros w Hw. specialize (Hph _ _ (Hin w Hw)). simpl in Hph. lia. }
  pose proof (total_nonneg _ _ Hph) as Htot.
  pose proof (grant_loop_spec (bs_free s) (bs_waiters s) ltac:(lia) Hpos) as Hg.
  destruct (grant_loop (bs_free s) (bs_waiters s)) as [[free rest] granted]. destruct Hg as (Hws & Hs & Hf & Hhead).
  rewrite Hws, fmap_app in Hnd. apply NoDup_app in Hnd as (Hnd & Hdis & Hnd').
  destruct (mark_all calls granted Hnd) as [Ht Hl]; [intros w Hw; apply Hin; rewrite Hws; set_solver|].
  split; [|done]. split; [|done]. split; simpl; try done.
  - rewrite Ht. lia.
  - intros id n. rewrite Hl. case_decide as Hd.
    + apply list_elem_of_fmap in Hd as (w & -> & Hw). rewrite (Hin w) by (rewrite Hws; set_solver). simpl. split; [|done].
      intros Hr. exfalso. eapply (Hdis (bw_id w)); [by apply list_elem_of_fmap_2|]. by apply (list_elem_of_fmap_2 bw_id) in Hr.
    + rewrite <- Hwait, Hws, elem_of_app. split; [auto|]. intros [Hg|]; [|done]. exfalso. apply Hd.
      by apply (list_elem_of_fmap_2 bw_id) in Hg.
  - intros id p. rewrite Hl. case_decide as Hd; [|by apply Hph].
    apply list_elem_of_fmap in Hd as (w & -> & Hw). rewrite (Hin w) by (rewrite Hws; set_solver). intros [= <-].
    exact (Hph _ _ (Hin w ltac:(rewrite Hws; set_solver))).
Qed.

(** ** The steps *)

Definition is_queued (p : Phase) : bool := match p with CWait _ false => true | _ => false end.

(** A call that is not queued moves on, and the free bytes with it. *)
Lemma mid_update cap s calls id p free : sem_mid cap s calls →
  from_option is_queued false (calls !! id) = false → is_queued p = false → phase_ok cap p →
  free = bs_free s + from_option reserved 0 (calls !! id) - reserved p → 0 ≤ free →
  sem_mid cap (with_free free s) (<[id := p]> calls).
Proof.
  intros [Hcap Hrange Hsum Hfree Hnd Hwait Hph] Hold Hnew Hok Hf Hpos. split; simpl; try done.
  - rewrite total_insert. lia.
  - intros id' n. rewrite Hwait. destruct (decide (id' = id)) as [->|Hne]; [|by rewrite lookup_insert_ne].
    rewrite lookup_insert_eq. split; [intros Hc; by rewrite Hc in Hold|]. intros [= ->]. done.
  - by apply map_Forall_insert_2.
Qed.

Lemma with_free_id s : with_free (bs_free s) s = s.
Proof. by destruct s. Qed.

Lemma waiter_index_spec id ws :
  match waiter_index id ws with
  | Some i => ∃ a w b, ws = (a ++ w :: b)%list ∧ bw_id w = id ∧ delete i ws = (a ++ b)%list
  | None => id ∉ bw_id <$> ws
  end.
Proof.
  induction ws as [|w ws IH]; simpl; [by apply not_elem_of_nil|]. destruct (Nat.eqb_spec (bw_id w) id) as [He|He].
  - by exists [], w, ws.
  - destruct (waiter_index id ws) as [i|]; simpl.
    + destruct IH as (a & w' & b & -> & Hid & Hd). exists (w :: a), w', b. split_and!; [done|done|]. simpl. by rewrite <- Hd.
    + rewrite elem_of_cons. intros [?|?]; [congruence|done].
Qed.

(** A queued call leaves the queue. *)
Lemma mid_cancel cap s calls a w b : sem_mid cap s calls → bs_waiters s = (a ++ w :: b)%list →
  sem_mid cap (with_waiters (a ++ b)%list s) (<[bw_id w := CDone]> calls).
Proof.
  intros [Hcap Hrange Hsum Hfree Hnd Hwait Hph] Hws.
  assert (calls !! bw_id w = Some (CWait (bw_n w) false)) as Hc.
  { apply Hwait. rewrite Hws. destruct w. apply elem_of_app. right. apply list_elem_of_here. }
  rewrite Hws, fmap_app, fmap_cons in Hnd. rewrite NoDup_app in Hnd. destruct Hnd as (Ha & Hdis & Hb). apply NoDup_cons in Hb as [Hwb Hb].
  split; simpl; try done.
  - rewrite total_insert, Hc. simpl. lia.
  - rewrite fmap_app. apply NoDup_app. split_and!; [done| |done]. intros x Hx Hx'. by eapply Hdis; [|apply list_elem_of_further].
  - intros id n. destruct (decide (id = bw_id w)) as [->|Hne].
    + rewrite lookup_insert_eq. split; [|done]. intros Hin. exfalso. apply elem_of_app in Hin as [Hin|Hin];
        apply (list_elem_of_fmap_2 bw_id) in Hin; [|done]. eapply Hdis; [done|apply list_elem_of_here].
    + rewrite lookup_insert_ne, <- Hwait, Hws by done. rewrite !elem_of_app, elem_of_cons.
      split; [tauto|]. intros [?|[Heq|?]]; [by left| |by right]. by subst w.
  - by apply map_Forall_insert_2.
Qed.

Lemma enter_inv cap w id n : sem_inv cap w → wo_calls w !! id = None →
  let '(e, s) := acquire_enter id n (wo_sem w) in
  sem_inv cap (settle id (match e with EnterOk => CHold n | EnterTooLarge => CDone | EnterQueued => CWait n false end) s [] w).
Proof.
  intros [Hm Hh] Hid. pose proof Hm as [Hcap Hrange Hsum Hfree Hnd Hwait Hph]. pose proof (total_nonneg _ _ Hph).
  unfold acquire_enter, settle. cbn [foldl]. destruct (Z.leb_spec n 0).
  { split; [|done]. cbn [wo_sem wo_calls]. rewrite <- (with_free_id (wo_sem w)). apply mid_update; rewrite ?Hid; simpl; try done; lia. }
  destruct (Z.ltb_spec (bs_capacity (wo_sem w)) n).
  { split; [|done]. cbn [wo_sem wo_calls]. rewrite <- (with_free_id (wo_sem w)). apply mid_update; rewrite ?Hid; simpl; try done; lia. }
  destruct ((length (bs_waiters (wo_sem w)) =? 0)%nat && (n <=? bs_free (wo_sem w))) eqn:Hfit.
  - apply andb_true_iff in Hfit as [Hlen%Nat.eqb_eq%nil_length_inv Hle%Z.leb_le].
    rewrite wrap_int64_id by (unfold int64_range, min_int64 in *; lia). split.
    + cbn [wo_sem wo_calls]. apply mid_update; rewrite ?Hid; simpl; try done; lia.
    + unfold head_blocked. simpl. by rewrite Hlen.
  - split; [split; simpl; try done|].
    + rewrite total_insert_new by done. simpl. lia.
    + rewrite fmap_app. apply NoDup_app. split_and!; [done| |apply NoDup_singleton]. simpl. intros x Hx Hx'%list_elem_of_singleton. subst x.
      apply list_elem_of_fmap in Hx as ([id' n'] & Heq & Hin). simpl in Heq. subst id'. apply Hwait in Hin. congruence.
    + intros id' n'. rewrite elem_of_app, list_elem_of_singleton, Hwait. destruct (decide (id' = id)) as [->|Hne].
      * rewrite lookup_insert_eq, Hid. split; [intros [?|Heq]; [done|]; by injection Heq as ->|]. intros [= ->]. by right.
      * rewrite lookup_insert_ne by done. split; [|by left]. intros [?|Heq]; [done|]. by injection Heq.
    + apply map_Forall_insert_2; [simpl; lia|done].
    + unfold head_blocked in *. simpl. destruct (bs_waiters (wo_sem w)) as [|w0 ws]; [|done]. simpl in *.
      by apply Z.leb_gt in Hfit.
Qed.

(** Handing bytes back. *)
Lemma release_inv cap w id n p : sem_inv cap w → wo_calls w !! id = Some p → is_queued p = false → reserved p = Z.max 0 n →
  let '(s, granted) := byte_release n (wo_sem w) in
  sem_inv cap (settle id CDone s granted w) ∧ bs_waiters (wo_sem w) = (granted ++ bs_waiters s)%list.
Proof.
  intros [Hm Hh] Hp Hq Hres. pose proof Hm as [Hcap Hrange Hsum Hfree Hnd Hwait Hph].
  pose proof (total_ge _ _ _ _ Hph Hp). unfold byte_release, settle. destruct (Z.leb_spec n 0).
  - split; [|done]. split; [|done]. cbn [wo_sem wo_calls foldl]. rewrite <- (with_free_id (wo_sem w)).
    apply mid_update; rewrite ?Hp; simpl; try done; lia.
  - rewrite wrap_int64_id by (unfold int64_range, min_int64 in *; lia).
    pose proof (grant_inv cap (with_free (bs_free (wo_sem w) + n) (wo_sem w)) (<[id := CDone]> (wo_calls w))) as Hg.
    destruct (grantLocked _) as [s granted]. apply Hg. apply mid_update; rewrite ?Hp; simpl; try done; lia.
Qed.

Lemma cancel_inv cap w id n ready : sem_inv cap w → wo_calls w !! id = Some (CWait n ready) →
  let '(found, s, granted) := acquire_cancel id (wo_sem w) in
  sem_inv cap (settle id (if found then CDone else CBack n ready) s granted w) ∧ found = negb ready
  ∧ ∃ a b, bs_waiters (wo_sem w) = (a ++ (if found then [{| bw_id := id; bw_n := n |}] else []) ++ b)%list
           ∧ (a ++ b)%list = (granted ++ bs_waiters s)%list.
Proof.
  intros [Hm Hh] Hp. pose proof Hm as [Hcap Hrange Hsum Hfree Hnd Hwait Hph]. unfold acquire_cancel, settle.
  pose proof (waiter_index_spec id (bs_waiters (wo_sem w))) as Hi. destruct (waiter_index id (bs_waiters (wo_sem w))) as [i|].
  - destruct Hi as (a & [id' n'] & b & Hws & Hid & Hd). simpl in Hid. subst id'. rewrite Hd.
    assert (n' = n ∧ ready = false) as [-> ->].
    { assert (wo_calls w !! id = Some (CWait n' false)) as Hc by (apply Hwait; rewrite Hws, elem_of_app; right; apply list_elem_of_here).
      by simplify_eq. }
    pose proof (grant_inv cap _ _ (mid_cancel _ _ _ _ _ _ Hm Hws)) as Hg. destruct (grantLocked _) as [s granted].
    destruct Hg as [Hg Hwg]. split; [exact Hg|]. split; [done|]. by exists a, b.
  - destruct ready.
    + split; [|split; [done|by exists (bs_waiters (wo_sem w)), []; rewrite !app_nil_r]].
      split; [|done]. cbn [wo_sem wo_calls foldl]. rewrite <- (with_free_id (wo_sem w)). specialize (Hph _ _ Hp) as Hok. simpl in Hok.
      apply mid_update; rewrite ?Hp; simpl; try done; lia.
    + exfalso. apply Hi. apply Hwait in Hp. by apply (list_elem_of_fmap_2 bw_id) in Hp.
Qed.

Lemma sem_exec_inv cap l w w' : sem_inv cap w → sem_exec l w = Some w' → sem_inv cap w'.
Proof.
  intros Hi. destruct l as [id n|id|id|id|id]; cbn [sem_exec]; destruct (wo_calls w !! id) as [p|] eqn:Hp; try done.
  - pose proof (enter_inv cap w id n Hi Hp) as He. destruct (acquire_enter id n (wo_sem w)) as [e s]. by intros [= <-].
  - destruct p as [n []| | |]; try done. intros [= <-]. destruct Hi as [Hm Hh]. split; [|done]. unfold settle. cbn [wo_sem wo_calls foldl].
    pose proof (sm_phase _ _ _ Hm _ _ Hp) as Hok. simpl in Hok. pose proof (sm_free _ _ _ Hm). rewrite <- (with_free_id (wo_sem w)).
    apply mid_update; rewrite ?Hp; simpl; try done; lia.
  - destruct p as [n ready| | |]; try done. pose proof (cancel_inv cap w id n ready Hi Hp) as Hc.
    destruct (acquire_cancel id (wo_sem w)) as [[found s] granted]. intros [= <-]. tauto.
  - destruct p as [|n []| |]; try done. pose proof (proj1 (sm_phase _ _ _ (proj1 Hi) _ _ Hp)) as Hok.
    pose proof (release_inv cap w id n _ Hi Hp eq_refl ltac:(simpl; lia)) as Hr.
    destruct (byte_release n (wo_sem w)) as [s granted]. intros [= <-]. tauto.
  - destruct p as [| |n|]; try done. pose proof (release_inv cap w id n _ Hi Hp eq_refl eq_refl) as Hr.
    destruct (byte_release n (wo_sem w)) as [s granted]. intros [= <-]. tauto.
Qed.

Lemma sem_start_inv cap : 0 ≤ cap ≤ max_int64 → sem_inv cap (sem_start cap).
Proof.
  intros Hc. split; [|done]. split; simpl; [done|lia| |lia|constructor| |apply map_Forall_empty].
  { unfold total. rewrite map_fold_empty. lia. }
  intros id n. rewrite lookup_empty. split; [by intros ?%elem_of_nil|done].
Qed.

Lemma sem_run_inv cap ls w w' : sem_inv cap w → sem_run ls w = Some w' → sem_inv cap w'.
Proof.
  revert w. induction ls as [|l ls IH]; intros w Hi Hr; simpl in Hr; [by simplify_eq|].
  destruct (sem_exec l w) as [w1|] eqn:He; [|done]. by eapply IH, Hr; eapply sem_exec_inv.
Qed.

(** * Safety *)

(** The byte budget is respected and never leaks.  After any interleaving of
calls, wake-ups, cancellations and releases, the bytes given to calls and the
free bytes add up to the capacity and neither is negative; the queue holds
exactly the calls that wait ungranted, and its head does not fit, so no call
waits for bytes that are free; and once every call has ended the whole budget is
free and the queue empty. *)
Theorem byteSem_within_budget (cap : Z) (ls : list sem_label) (w : World) :
  0 ≤ cap ≤ max_int64 → sem_run ls (sem_start cap) = Some w →
  bs_free (wo_sem w) + total (wo_calls w) = cap ∧ 0 ≤ bs_free (wo_sem w) ∧ 0 ≤ total (wo_calls w)
  ∧ (∀ id n, {| bw_id := id; bw_n := n |} ∈ bs_waiters (wo_sem w) ↔ wo_calls w !! id = Some (CWait n false))
  ∧ head_blocked (wo_sem w)
  ∧ (map_Forall (λ _ p, p = CDone) (wo_calls w) → bs_free (wo_sem w) = cap ∧ bs_waiters (wo_sem w) = []).
Proof.
  intros Hcap Hrun. destruct (sem_run_inv _ _ _ _ (sem_start_inv cap Hcap) Hrun) as [[Hc Hr Hsum Hfree Hnd Hwait Hph] Hh].
  pose proof (total_nonneg _ _ Hph) as Ht. split_and!; try done. intros Hdone. split.
  - assert (total (wo_calls w) = 0) as Hz; [|lia]. clear -Hdone. induction (wo_calls w) as [|id p m Hn IH] using map_ind; [done|].
    apply map_Forall_insert_1_1 in Hdone as Hp. apply map_Forall_insert_1_2 in Hdone as Hm; [|done].
    rewrite total_insert_new by done. rewrite Hp, (IH Hm). done.
  - destruct (bs_waiters (wo_sem w)) as [|[id n] ws]; [done|]. exfalso.
    pose proof (proj1 (Hwait id n) (list_elem_of_here _ _)) as Hin. by apply Hdone in Hin.
Qed.

(** Three calls: one holds, one is granted as it is cancelled and hands its
bytes back, one waits. *)
Definition ex_sem_script : list sem_label :=
  [ LEnter 0 8; LEnter 1 6; LEnter 2 5; LRelease 0; LCancel 1; LBack 1; LWake 2 ].

Lemma byteSem_within_budget_witness :
  ∃ w, sem_run ex_sem_script (sem_start 10) = Some w ∧ bs_free (wo_sem w) + total (wo_calls w) = 10 ∧ total (wo_calls w) = 5.
Proof.
  eexists. split; [vm_compute; reflexivity|]. split; [|vm_compute; reflexivity].
  refine (proj1 (byteSem_within_budget 10 ex_sem_script _ _ _)); [split; vm_compute; discriminate|vm_compute; reflexivity].
Defined.

(** * Order and progress *)

Definition stays (l : sem_label) (x : byteWaiter) : bool :=
  match l with LCancel id => negb (bw_id x =? id)%nat | _ => true end.

(** What a step leaves of the queue: the waiters that stay, with the one that
joins, are those granted followed by those still queued. *)
Lemma sem_exec_queue cap l w w' : sem_inv cap w → sem_exec l w = Some w' →
  ∃ joined granted, (List.filter (stays l) (bs_waiters (wo_sem w)) ++ joined)%list = (granted ++ bs_waiters (wo_sem w'))%list
    ∧ NoDup (bw_id <$> granted ++ bs_waiters (wo_sem w')).
Proof.
  intros Hi He. pose proof (sm_nodup _ _ _ (proj1 Hi)) as Hnd. pose proof (sm_nodup _ _ _ (proj1 (sem_exec_inv _ _ _ _ Hi He))) as Hnd'.
  revert He. unfold stays. assert (∀ ws : list byteWaiter, List.filter (λ _, true) ws = ws) as Hall by (induction ws; simpl; congruence).
  destruct l as [id n|id|id|id|id]; cbn [sem_exec]; destruct (wo_calls w !! id) as [p|] eqn:Hp; try done; rewrite ?Hall.
  - unfold acquire_enter, settle. repeat case_match; intros [= <-]; simplify_eq; cbn [wo_sem bs_waiters with_free with_waiters];
      first [by exists [], []; rewrite app_nil_r|by eexists _, []].
  - destruct p as [n []| | |]; try done. intros [= <-]. exists [], []. by rewrite app_nil_r.
  - destruct p as [n ready| | |]; try done. pose proof (cancel_inv cap w id n ready Hi Hp) as Hc.
    destruct (acquire_cancel id (wo_sem w)) as [[found s] granted]. intros [= <-]. destruct Hc as (_ & Hfound & a & b & Hws & Hab).
    exists [], granted. rewrite app_nil_r. cbn [settle wo_sem]. rewrite <- Hab.
    assert (∀ ws : list byteWaiter, id ∉ bw_id <$> ws → List.filter (λ x, negb (bw_id x =? id)%nat) ws = ws) as Hkeep.
    { induction ws as [|x ws IH]; [done|]. cbn [fmap list_fmap]. rewrite not_elem_of_cons. intros [Hx Hws']. simpl.
      destruct (Nat.eqb_spec (bw_id x) id); [congruence|]. simpl. by rewrite IH. }
    destruct found.
    + rewrite Hws in Hnd |- *. rewrite !fmap_app in Hnd. apply NoDup_app in Hnd as (Hna & Hdis & Hnd). simpl in Hnd. apply NoDup_cons in Hnd as [Hb Hnb].
      rewrite !List.filter_app. simpl. rewrite Nat.eqb_refl. simpl. rewrite !Hkeep; [|done|intros Ha; eapply Hdis; [done|simpl; apply list_elem_of_here]].
      split; [done|]. rewrite fmap_app. apply NoDup_app. split_and!; [done| |done]. intros x Hx Hx'. eapply Hdis; [done|]. simpl. by apply list_elem_of_further.
    + simpl in Hws. rewrite <- Hws. split; [|done]. apply Hkeep. intros (x & Hx & Hin)%list_elem_of_fmap. destruct x as [id' n']. simpl in Hx. subst id'.
      apply (sm_wait _ _ _ (proj1 Hi)) in Hin. assert (ready = false) as -> by congruence. done.
  - destruct p as [|n []| |]; try done. pose proof (proj1 (sm_phase _ _ _ (proj1 Hi) _ _ Hp)) as Hok.
    pose proof (release_inv cap w id n _ Hi Hp eq_refl ltac:(simpl; lia)) as Hr.
    destruct (byte_release n (wo_sem w)) as [s granted]. intros [= <-]. exists [], granted. rewrite app_nil_r. destruct Hr as [_ Hr].
    cbn [settle wo_sem]. by rewrite <- Hr.
  - destruct p as [| |n|]; try done. pose proof (release_inv cap w id n _ Hi Hp eq_refl eq_refl) as Hr.
    destruct (byte_release n (wo_sem w)) as [s granted]. intros [= <-]. exists [], granted. rewrite app_nil_r. destruct Hr as [_ Hr].
    cbn [settle wo_sem]. by rewrite <- Hr.
Qed.

(** In a queue cut in two, what follows an element of the second part is in the
second part. *)
Lemma queue_cut {A} (f : A → nat) (granted rest p q r : list A) x y :
  (granted ++ rest)%list = (p ++ x :: q ++ y :: r)%list → NoDup (f <$> granted ++ rest) → x ∈ rest → y ∈ rest.
Proof.
  intros Heq Hnd Hx. apply app_eq_app in Heq as [l [[-> Hr]|[-> ->]]].
  - destruct l as [|z l]; simpl in Hr.
    + rewrite <- Hr. apply list_elem_of_further, elem_of_app. right. apply list_elem_of_here.
    + injection Hr as <- Hr. exfalso. rewrite !fmap_app in Hnd. apply NoDup_app in Hnd as (_ & Hdis & _).
      apply (Hdis (f x)); [|by apply list_elem_of_fmap_2]. apply elem_of_app. right. simpl. apply list_elem_of_here.
  - apply elem_of_app. right. apply list_elem_of_further, elem_of_app. right. apply list_elem_of_here.
Qed.

Lemma filter_two (f : byteWaiter → bool) p x q y r : f x = true → f y = true →
  ∃ p' q' r', List.filter f (p ++ x :: q ++ y :: r)%list = (p' ++ x :: q' ++ y :: r')%list.
Proof.
  intros Hx Hy. exists (List.filter f p), (List.filter f q), (List.filter f r).
  rewrite List.filter_app. simpl. rewrite Hx, List.filter_app. simpl. by rewrite Hy.
Qed.

(** Steps left to a call. *)
Definition steps_left (p : Phase) : nat := match p with CWait _ _ => 2 | CBack _ _ | CHold _ => 1 | CDone => 0 end.
Definition all_steps (calls : gmap nat Phase) : nat := map_fold (λ _ p a, steps_left p + a)%nat 0%nat calls.

Lemma all_steps_insert id p calls :
  all_steps (<[id := p]> calls) = (all_steps calls - from_option steps_left 0 (calls !! id) + steps_left p)%nat
  ∧ (from_option steps_left 0 (calls !! id) ≤ all_steps calls)%nat.
Proof.
  assert (∀ id p calls, calls !! id = None → all_steps (<[id := p]> calls) = (steps_left p + all_steps calls)%nat) as Hnew.
  { intros id' p' calls' Hn. unfold all_steps. rewrite map_fold_insert_L; [done| |done]. intros. lia. }
  destruct (calls !! id) as [q|] eqn:Hq; simpl.
  - rewrite <- insert_delete_eq, Hnew by (by rewrite lookup_delete_eq).
    rewrite <- (insert_id calls id q) at 2 3 by done. rewrite <- (insert_delete_eq calls id q).
    rewrite Hnew by (by rewrite lookup_delete_eq). lia.
  - rewrite Hnew by done. lia.
Qed.

Lemma mark_steps calls gs : all_steps (foldl mark calls gs) = all_steps calls.
Proof.
  revert calls. induction gs as [|w gs IH]; intros calls; [done|]. cbn [foldl]. rewrite IH. unfold mark.
  destruct (calls !! bw_id w) as [p|] eqn:Hp; [|by rewrite alter_id'].
  assert (alter (λ p, match p with CWait n _ => CWait n true | CBack n _ => CBack n true | p => p end) (bw_id w) calls
    = <[bw_id w := match p with CWait n _ => CWait n true | CBack n _ => CBack n true | p => p end]> calls) as ->.
  { apply map_eq. intros i. destruct (decide (i = bw_id w)) as [->|]; [by rewrite lookup_alter_eq, lookup_insert_eq, Hp|].
    by rewrite lookup_alter_ne, lookup_insert_ne. }
  destruct (all_steps_insert (bw_id w) (match p with CWait n _ => CWait n true | CBack n _ => CBack n true | p => p end) calls) as [-> Hle].
  rewrite Hp in *. simpl in *. destruct p; simpl in *; lia.
Qed.

Definition entering (l : sem_label) : bool := match l with LEnter _ _ => true | _ => false end.

Lemma sem_exec_steps l w w' : entering l = false → sem_exec l w = Some w' → (all_steps (wo_calls w') < all_steps (wo_calls w))%nat.
Proof.
  assert (∀ id p q s granted, wo_calls w !! id = Some p → (steps_left q < steps_left p)%nat →
    (all_steps (wo_calls (settle id q s granted w)) < all_steps (wo_calls w))%nat) as Hs.
  { intros id p q s granted Hp Hlt. unfold settle. cbn [wo_calls]. rewrite mark_steps.
    destruct (all_steps_insert id q (wo_calls w)) as [-> Hle]. rewrite Hp in *. simpl in *. lia. }
  intros Hl. destruct l as [id n|id|id|id|id]; try done; cbn [sem_exec]; destruct (wo_calls w !! id) as [p|] eqn:Hp; try done.
  - destruct p as [n []| | |]; try done. intros [= <-]. eapply Hs; [done|simpl; lia].
  - destruct p as [n ready| | |]; try done. destruct (acquire_cancel id (wo_sem w)) as [[found s] granted]. intros [= <-].
    eapply Hs; [done|]. destruct found; simpl; lia.
  - destruct p as [|n []| |]; try done. destruct (byte_release n (wo_sem w)). intros [= <-]. eapply Hs; [done|simpl; lia].
  - destruct p as [| |n|]; try done. destruct (byte_release n (wo_sem w)). intros [= <-]. eapply Hs; [done|simpl; lia].
Qed.

Lemma sem_run_steps ls w w' : Forall (λ l, entering l = false) ls → sem_run ls w = Some w' → (length ls + all_steps (wo_calls w') ≤ all_steps (wo_calls w))%nat.
Proof.
  revert w. induction ls as [|l ls IH]; intros w Hf Hr; simpl in Hr; [by simplify_eq|]. apply Forall_cons in Hf as [Hl Hf].
  destruct (sem_exec l w) as [w1|] eqn:He; [|done]. specialize (IH w1 Hf Hr). pose proof (sem_exec_steps _ _ _ Hl He). simpl. lia.
Qed.

(** The calls that cannot move by themselves. *)
Definition idle (p : Phase) : bool := match p with CWait _ false | CDone => true | _ => false end.

(** With a call left, one of them can move without being cancelled. *)
Lemma sem_progress cap w : sem_inv cap w → ¬ map_Forall (λ _ p, p = CDone) (wo_calls w) →
  ∃ l w', sem_exec l w = Some w' ∧ match l with LWake _ | LBack _ | LRelease _ => True | _ => False end.
Proof.
  intros [[Hcap Hrange Hsum Hfree Hnd Hwait Hph] Hh] Hnot.
  destruct (decide (map_Forall (λ (_ : nat) p, idle p = true) (wo_calls w))) as [Hall|Hsome].
  - exfalso. assert (total (wo_calls w) = 0) as Hz.
    { clear -Hall. induction (wo_calls w) as [|id p m Hn IH] using map_ind; [done|].
      apply map_Forall_insert_1_1 in Hall as Hp. apply map_Forall_insert_1_2 in Hall as Hm; [|done].
      rewrite total_insert_new, (IH Hm) by done. by destruct p as [n []| | |]. }
    destruct (bs_waiters (wo_sem w)) as [|[id n] ws] eqn:Hws.
    + apply Hnot. intros id p Hp. pose proof (Hall _ _ Hp) as Hq. destruct p as [n []| | |]; try done.
      apply Hwait in Hp. by apply elem_of_nil in Hp.
    + unfold head_blocked in Hh. rewrite Hws in Hh. simpl in Hh.
      pose proof (proj1 (Hwait id n) (list_elem_of_here _ _)) as Hin. apply Hph in Hin. simpl in Hin. lia.
  - apply map_not_Forall in Hsome as (id & p & Hp & Hn); [|apply _].
    pose proof (Hph _ _ Hp) as Hok. destruct p as [n []|n b|n|]; try (by exfalso; apply Hn).
    + exists (LWake id). simpl. rewrite Hp. eauto.
    + destruct Hok as [_ ->]. exists (LBack id). simpl. rewrite Hp. destruct (byte_release n (wo_sem w)). eauto.
    + exists (LRelease id). simpl. rewrite Hp. destruct (byte_release n (wo_sem w)). eauto.
Qed.

(** A waiter that is cancelled does not wait afterwards. *)
Lemma sem_cancelled cap l w w' x ready : sem_inv cap w → sem_exec l w = Some w' → x ∈ bs_waiters (wo_sem w) →
  wo_calls w' !! bw_id x = Some (CWait (bw_n x) ready) → stays l x = true.
Proof.
  intros Hi He Hx Hw'. destruct l as [| |id| |]; try done. simpl. destruct (Nat.eqb_spec (bw_id x) id) as [Hid|]; [|done]. exfalso.
  cbn [sem_exec] in He. destruct (wo_calls w !! id) as [[n b| | |]|] eqn:Hp; try done.
  destruct x as [id' n']. simpl in *. subst id'. apply (sm_wait _ _ _ (proj1 Hi)) in Hx. assert (b = false) as -> by congruence.
  pose proof (cancel_inv cap w id n false Hi Hp) as Hc. destruct (acquire_cancel id (wo_sem w)) as [[found s] granted].
  destruct Hc as (_ & -> & _). injection He as <-. unfold settle in Hw'. cbn [negb wo_calls] in Hw'.
  assert (∀ gs calls, calls !! id = Some CDone → foldl mark calls gs !! id = Some CDone) as Hdone.
  { induction gs as [|g gs IH]; intros calls Hc; [done|]. cbn [foldl]. apply IH. unfold mark.
    destruct (decide (id = bw_id g)) as [<-|]; [by rewrite lookup_alter_eq, Hc|by rewrite lookup_alter_ne]. }
  specialize (Hdone granted (<[id := CDone]> (wo_calls w)) (lookup_insert_eq _ _ _)). congruence.
Qed.

(** Waiters are served first in, first out, and every call ends.  From any
reachable state: a step never grants a waiter while one that queued before it
stays queued, and a call that enters is served at once only when nobody waits.
Without new calls, calls take at most two steps each, however they are
scheduled; and as long as one has not ended some call can go on without being
cancelled, so a run that cannot go on has ended every call and freed the whole
budget. *)
Theorem byteSem_serves_in_order (cap : Z) (ls : list sem_label) (w : World) :
  0 ≤ cap ≤ max_int64 → sem_run ls (sem_start cap) = Some w →
  (∀ l w' p w1 q w2 r, sem_exec l w = Some w' → bs_waiters (wo_sem w) = (p ++ w1 :: q ++ w2 :: r)%list →
     wo_calls w' !! bw_id w2 = Some (CWait (bw_n w2) true) → wo_calls w' !! bw_id w1 ≠ Some (CWait (bw_n w1) false))
  ∧ (∀ id n w', 0 < n → sem_exec (LEnter id n) w = Some w' → wo_calls w' !! id = Some (CHold n) → bs_waiters (wo_sem w) = [])
  ∧ (∀ ls' w', Forall (λ l, entering l = false) ls' → sem_run ls' w = Some w' → (length ls' ≤ all_steps (wo_calls w))%nat)
  ∧ (map_Forall (λ _ p, p = CDone) (wo_calls w)
     ∨ ∃ l w', sem_exec l w = Some w' ∧ match l with LWake _ | LBack _ | LRelease _ => True | _ => False end).
Proof.
  intros Hcap Hrun. pose proof (sem_run_inv _ _ _ _ (sem_start_inv cap Hcap) Hrun) as Hi. split_and!.
  - intros l w' p w1 q w2 r He Hws H2 H1. pose proof (sem_exec_inv _ _ _ _ Hi He) as [Hm' _].
    assert (w1 ∈ bs_waiters (wo_sem w')) as Hin1 by (destruct w1; by apply (sm_wait _ _ _ Hm')).
    assert (∀ x ready, x ∈ bs_waiters (wo_sem w) → wo_calls w' !! bw_id x = Some (CWait (bw_n x) ready) → stays l x = true) as Hkeep
      by (intros; by eapply sem_cancelled).
    destruct (sem_exec_queue _ _ _ _ Hi He) as (joined & granted & Hq & Hnd). rewrite Hws in Hq.
    destruct (filter_two (stays l) p w1 q w2 r) as (p' & q' & r' & Hf);
      [eapply Hkeep; [rewrite Hws, elem_of_app, elem_of_cons; naive_solver|done]
      |eapply Hkeep; [rewrite Hws, elem_of_app, elem_of_cons, elem_of_app, elem_of_cons; naive_solver|done]|].
    rewrite Hf, <- app_assoc, <- app_comm_cons, <- app_assoc, <- app_comm_cons in Hq. symmetry in Hq.
    pose proof (queue_cut _ _ _ _ _ _ _ _ Hq Hnd Hin1) as Hin2. destruct w2. apply (sm_wait _ _ _ Hm') in Hin2. simpl in H2. congruence.
  - intros id n w' Hn He Hc. cbn [sem_exec] in He. destruct (wo_calls w !! id); [done|]. unfold acquire_enter in He.
    destruct (Z.leb_spec n 0); [lia|]. destruct (_ <? n).
    { injection He as <-. unfold settle in Hc. simpl in Hc. by rewrite lookup_insert_eq in Hc. }
    destruct (_ && _) eqn:Hfit; [apply andb_true_iff in Hfit as [Hl _]; by apply Nat.eqb_eq, nil_length_inv in Hl|].
    injection He as <-. unfold settle in Hc. simpl in Hc. by rewrite lookup_insert_eq in Hc.
  - intros ls' w' Hf Hr. pose proof (sem_run_steps _ _ _ Hf Hr). lia.
  - destruct (decide (map_Forall (λ _ p, match p with CDone => true | _ => false end = true) (wo_calls w))) as [Hd|Hd].
    + left. intros id p Hp. specialize (Hd _ _ Hp). by destruct p.
    + right. eapply sem_progress; [exact Hi|]. intros Hall. apply Hd. intros id p Hp. by rewrite (Hall _ _ Hp).
Qed.

Lemma byteSem_serves_in_order_witness :
  ∃ w, sem_run [LEnter 0 8; LEnter 1 6; LEnter 2 1; LEnter 3 2] (sem_start 10) = Some w
    ∧ bs_waiters (wo_sem w) = [{| bw_id := 1; bw_n := 6 |}; {| bw_id := 2; bw_n := 1 |}; {| bw_id := 3; bw_n := 2 |}]
    ∧ (map_Forall (λ _ p, p = CDone) (wo_calls w)
       ∨ ∃ l w', sem_exec l w = Some w' ∧ match l with LWake _ | LBack _ | LRelease _ => True | _ => False end).
Proof.
  eexists. split; [vm_compute; reflexivity|]. split; [vm_compute; reflexivity|].
  refine (proj2 (proj2 (proj2 (byteSem_serves_in_order 10 [LEnter 0 8; LEnter 1 6; LEnter 2 1; LEnter 3 2] _ _ _))));
    [split; vm_compute; discriminate|vm_compute; reflexivity].
Defined.
