(* ===== verification/Proxy.v ===== *)
(** Authorized, budgeted calls to a cluster: [src/internal/promproxy/proxy.go]
and [errors.go].

[Proxy.Do] reads the registry twice, takes a slot of the cluster, waits for
bytes of the hub's budget, calls the tunnel session and gives both back.  Each
of these is a step of a call, [proxy_exec] is the whole machine, with the byte
semaphore of [Sem] inside it, and the theorems range over all interleavings of
calls and of changes to the registry.

An error is known by the sentinels [errors.Is] finds in it.  A body is a stream:
its bytes, and the error that ends it or [None] for [io.EOF]; [gunzip] is the
inflater of [compress/gzip]. *)

From S2P Require Import Prelude Fleet Registry Text PromApi Sem.
From Stdlib Require Import Floats.PrimFloat.
Open Scope string_scope.
Open Scope Z_scope.

(** * Errors *)

Inductive Sentinel :=
| SForbidden | STooLarge | SBusy | SUpstream
| SUnknownCluster | SNotConnected | SResponseTooLarge
| SCanceled | SDeadlineExceeded
| SProm (e : PromError).

#[export] Instance PromError_eq_dec : EqDecision PromError.
Proof. solve_decision. Defined.
#[export] Instance Sentinel_eq_dec : EqDecision Sentinel.
Proof. solve_decision. Defined.

(** What an error of the tunnel or of a read is known by. *)
Definition Cause : Type := list Sentinel.

Inductive ProxyError :=
| EForbidden (clusterID : string)
| EUnknownCluster (clusterID : string)
| ENotConnected (clusterID : string) (lastSeen since : Z)
| EBusy (clusterID budget : string) (limit retryAfter : Z)
| ETooLarge (clusterID : string) (cause : Cause)
| EContext (clusterID : string) (cause : Cause)
| EUpstream (clusterID : string) (cause : Cause)
| EProm (e : PromError).

(** The sentinels in the error's chain. *)
Definition chain (e : ProxyError) : list Sentinel :=
  match e with
  | EForbidden _ => [SForbidden]
  | EUnknownCluster _ => [SUnknownCluster; SNotConnected]
  | ENotConnected _ _ _ => [SNotConnected; SUpstream]
  | EBusy _ _ _ _ => [SBusy]
  | ETooLarge _ c => STooLarge :: c
  | EContext _ c => c
  | EUpstream _ c => SUpstream :: c
  | EProm e => [SProm e]
  end.
Definition Is (c : list Sentinel) (s : Sentinel) : bool := bool_decide (s ∈ c).

Definition ClusterBusyRetryAfter : Z := 500 * Millisecond.
Definition HubBusyRetryAfter : Z := 2 * Second.

(** The metric code of an error. *)
Definition codeFor (err : option ProxyError) : string :=
  match err with
  | None => "2xx"
  | Some e =>
    let has := Is (chain e) in
    if has SForbidden then "forbidden"
    else if has SBusy then "busy"
    else if has STooLarge then "too_large"
    else if has SUnknownCluster || has SNotConnected then "unavailable"
    else if has SDeadlineExceeded || has SCanceled then "timeout"
    else if has (SProm ErrInvalidParam) || has (SProm ErrUnknownEndpoint) || has (SProm ErrEndpointGated) || has (SProm ErrInvalidLabelName) then "invalid"
    else "upstream"
  end.

Definition statusCode (status : Z) : string :=
  if (200 <=? status) && (status <? 300) then "2xx"
  else if (400 <=? status) && (status <? 500) then "4xx"
  else if 500 <=? status then "5xx"
  else "upstream".

(** * Configuration *)

Definition DefaultTimeout : Z := 30 * Second.
Definition DefaultMaxTimeout : Z := 120 * Second.
Definition DefaultMaxResponseBytes : Z := Z.shiftl 32 20.
Definition DefaultGlobalResponseBudget : Z := Z.shiftl 256 20.
Definition DefaultMaxInflightPerCluster : Z := 8.

Record Options := {
  po_DefaultTimeout : Z;
  po_MaxTimeout : Z;
  po_MaxResponseBytes : Z;
  po_GlobalResponseBudget : Z;
  po_MaxInflightPerCluster : Z;
  po_EnableStatusConfig : bool
}.

Record Proxy := {
  px_defaultTimeout : Z;
  px_maxTimeout : Z;
  px_maxResponseBytes : Z;
  px_maxInflight : Z;
  px_enableConfig : bool;
  px_capacity : Z
}.

(** [New], for a registry that is not nil; [None] is an error. *)
Definition New (o : Options) : option Proxy :=
  if (po_DefaultTimeout o <? 0) || (po_MaxTimeout o <? 0) then None
  else if (po_MaxResponseBytes o <? 0) || (po_GlobalResponseBudget o <? 0) then None
  else if po_MaxInflightPerCluster o <? 0 then None
  else
    let or_default v d := if v =? 0 then d else v in
    let defaultTimeout := or_default (po_DefaultTimeout o) DefaultTimeout in
    let maxTimeout := or_default (po_MaxTimeout o) DefaultMaxTimeout in
    let maxResponseBytes := or_default (po_MaxResponseBytes o) DefaultMaxResponseBytes in
    let maxInflight := or_default (po_MaxInflightPerCluster o) DefaultMaxInflightPerCluster in
    let budget := or_default (po_GlobalResponseBudget o) DefaultGlobalResponseBudget in
    if budget <? maxResponseBytes then None
    else if maxTimeout <? defaultTimeout then None
    else Some {| px_defaultTimeout := defaultTimeout; px_maxTimeout := maxTimeout; px_maxResponseBytes := maxResponseBytes;
                 px_maxInflight := maxInflight; px_enableConfig := po_EnableStatusConfig o; px_capacity := budget |}.

(** * Calls *)

Record Call := {
  ca_ClusterID : string;
  ca_Endpoint : Endpoint;
  ca_LabelName : string;
  ca_Form : gmap string (list string);
  ca_Timeout : Z;
  ca_MaxBytes : Z;
  ca_RequestID : string
}.

Record Result := {
  re_Body : string;
  re_Status : Z;
  re_Warnings : list string;
  re_Truncated : bool;
  re_Bytes : Z
}.

Definition allows (p : option Principal) (id : string) (labels : gmap string string) : bool :=
  match p with None => false | Some p => AllowsCluster (p_Scope p) id labels end.

Definition zero_Limits : Limits :=
  {| MaxLookback := 0; MaxPoints := 0; MaxSeries := 0; Timeout := 0; MaxResponseBytes := 0; MaxConcurrentPerCluster := 0; RateRPS := 0%float; RateBurst := 0 |}.

Definition limitsOf (p : option Principal) : Limits :=
  match p with Some p => from_option Scope_Limits zero_Limits (p_Scope p) | None => zero_Limits end.

Definition effectiveTimeout (px : Proxy) (lim : Limits) (want : Z) : Z :=
  let t := if want <=? 0 then px_defaultTimeout px else want in
  let t := Z.min t (px_maxTimeout px) in
  if 0 <? Timeout lim then Z.min t (Timeout lim) else t.

Definition effectiveMaxBytes (px : Proxy) (lim : Limits) (want : Z) : Z :=
  let b := if want <=? 0 then px_maxResponseBytes px else want in
  let b := Z.min b (px_maxResponseBytes px) in
  if 0 <? MaxResponseBytes lim then Z.min b (MaxResponseBytes lim) else b.

Definition effectiveInflight (px : Proxy) (lim : Limits) : Z :=
  if 0 <? MaxConcurrentPerCluster lim then Z.min (px_maxInflight px) (MaxConcurrentPerCluster lim) else px_maxInflight px.

Section proxy.
(** [time.Parse(time.RFC3339, v)] succeeds, and [strconv.ParseFloat]. *)
Context (time_parses : string → bool) (ParseFloat : string → option float).

Definition authorizeAndBuild (px : Proxy) (p : option Principal) (c : Call) (now : Z) (r : Registry) : result ProxyError (Route * string) :=
  if String.eqb (ca_ClusterID c) "" then Err (EProm ErrInvalidParam)
  else
    let cluster := Registry_Cluster (ca_ClusterID c) now r in
    if negb (allows p (ca_ClusterID c) (from_option Labels ∅ cluster)) then Err (EForbidden (ca_ClusterID c))
    else match cluster with
    | None => Err (EUnknownCluster (ca_ClusterID c))
    | Some _ =>
      match Get (ca_Endpoint c) with
      | Err e => Err (EProm e)
      | Ok route =>
        match BuildPath (ca_Endpoint c) (ca_LabelName c) with
        | Err e => Err (EProm e)
        | Ok path =>
          match Validate time_parses ParseFloat (ca_Endpoint c) (ca_Form c) (px_enableConfig px) with
          | Err e => Err (EProm e)
          | Ok _ => Ok (route, path)
          end
        end
      end
    end.

(** The error for a cluster without a tunnel, with the last contact. *)
Definition notConnected (id : string) (now : Z) (r : Registry) : ProxyError :=
  match Registry_Cluster id now r with
  | None => ENotConnected id 0 0
  | Some c => ENotConnected id (LastSeen c) (if IsZero (LastSeen c) then 0 else Sub now (LastSeen c))
  end.

Definition session (done : nat → bool) (id : string) (now : Z) (r : Registry) : Registry * result ProxyError nat :=
  let '(r, s) := Session done id now r in
  (r, match s with
      | Ok sess => Ok sess
      | Err ErrUnknownCluster => Err (EUnknownCluster id)
      | Err _ => Err (notConnected id now r)
      end).

Definition wrapCallError (c : Call) (cause : Cause) (now : Z) (r : Registry) : ProxyError :=
  if Is cause SNotConnected then notConnected (ca_ClusterID c) now r
  else if Is cause SResponseTooLarge then ETooLarge (ca_ClusterID c) cause
  else if Is cause SCanceled || Is cause SDeadlineExceeded then EContext (ca_ClusterID c) cause
  else EUpstream (ca_ClusterID c) cause.

(** ** Reading the body *)

Record Stream := { st_data : string; st_end : option Cause }.

Record Trailer := { tl_Warnings : list string; tl_Truncated : bool; tl_Err : option Cause }.

Record Response := {
  rp_StatusCode : Z;
  rp_Body : option Stream;
  rp_ContentEncoding : string;
  rp_Trailer : option Trailer
}.

(** Inflating a stream: the error of [gzip.NewReader], or the inflated bytes and
how they end; and whether the input was read past its last byte. *)
Record Inflated := { zi_past : bool; zi_read : result Cause Stream }.
Context (gunzip : Stream → Inflated).

(** [io.ReadAll]'s outcome, judged against the cap. *)
Definition judge (hit : bool) (b : string) (rerr : option Cause) (maxBytes : Z) : result Cause (string * bool) :=
  if maxBytes <? Z.of_nat (String.length b) then Ok (str_take (Z.to_nat maxBytes) b, true)
  else match rerr with
  | None => Ok (b, false)
  | Some cause => if hit || Is cause SResponseTooLarge then Ok (b, true) else Err cause
  end.

Definition readCapped (resp : Response) (maxBytes : Z) : result Cause (string * bool) :=
  match rp_Body resp with
  | None => Ok ("", false)
  | Some s =>
    let room := wrap_int64 (maxBytes + 1) in
    let cut := room <=? Z.of_nat (String.length (st_data s)) in
    let capped := if cut then {| st_data := str_take (Z.to_nat room) (st_data s); st_end := None |} else s in
    if String.eqb (rp_ContentEncoding resp) "gzip" then
      let z := gunzip capped in
      let hit := cut && zi_past z in
      match zi_read z with
      | Err cause => if hit then Ok ("", true) else Err cause
      | Ok out =>
        (** [io.LimitReader] *)
        let full := room <=? Z.of_nat (String.length (st_data out)) in
        judge hit (str_take (Z.to_nat room) (st_data out)) (if full then None else st_end out) maxBytes
      end
    else judge cut (st_data capped) (st_end capped) maxBytes
  end.

(** What [Do] makes of the session's answer. *)
Definition conclude (c : Call) (answer : result Cause Response) (maxBytes now : Z) (r : Registry) : option Result * option ProxyError :=
  let fail cause := (None, Some (wrapCallError c cause now r)) in
  match answer with
  | Err cause => fail cause
  | Ok resp =>
    match readCapped resp maxBytes with
    | Err cause => fail cause
    | Ok (body, truncated) =>
      let tr := if truncated then None else rp_Trailer resp in
      match tr ≫= tl_Err with
      | Some cause => fail cause
      | None =>
        let truncated := truncated || from_option tl_Truncated false tr in
        (Some {| re_Body := body; re_Status := rp_StatusCode resp; re_Warnings := from_option tl_Warnings [] tr;
                 re_Truncated := truncated; re_Bytes := Z.of_nat (String.length body) |},
         if truncated then Some (ETooLarge (ca_ClusterID c) []) else None)
      end
    end
  end.

(** * The calls in progress *)

Definition Answer : Type := option Result * option ProxyError.
Definition refuse (e : ProxyError) : Answer := (None, Some e).

Inductive CallPhase :=
| PNew                                        (** before authorization *)
| PAuthorized (route : Route) (path : string)
| PRouted (route : Route) (path : string) (sess : nat)
| PAdmitted (route : Route) (path : string) (sess : nat)   (** holds a slot *)
| PWaiting (route : Route) (path : string) (sess : nat)    (** in [bytes.acquire] *)
| PReserved (route : Route) (path : string) (sess : nat)   (** holds its bytes too *)
| PReleasing (a : Answer)                     (** about to return the slot *)
| PFinished (a : Answer).

Record InCall := { ic_principal : option Principal; ic_call : Call; ic_phase : CallPhase }.

Definition at_phase (ph : CallPhase) (i : InCall) : InCall := {| ic_principal := ic_principal i; ic_call := ic_call i; ic_phase := ph |}.

Record ProxyWorld := {
  pw_reg : Registry;
  pw_inflight : inflightSem;
  pw_bytes : World;
  pw_calls : gmap nat InCall
}.

Definition reserve (px : Proxy) (i : InCall) : Z := effectiveMaxBytes px (limitsOf (ic_principal i)) (ca_MaxBytes (ic_call i)).

(** Why [bytes.acquire] failed: the caller's context ended, or the budget did
not free up within the call's own deadline. *)
Definition bytes_refused (px : Proxy) (i : InCall) (ctx_err : option Cause) : ProxyError :=
  match ctx_err with
  | Some cause => EContext (ca_ClusterID (ic_call i)) cause
  | None => EBusy (ca_ClusterID (ic_call i)) "hub-response-bytes" (px_capacity px) HubBusyRetryAfter
  end.

Inductive proxy_label :=
| QRegistry (r : Registry)                                  (** the registry changes *)
| QArrive (id : nat) (p : option Principal) (c : Call)
| QAuthorize (id : nat) (now : Z)
| QSession (id : nat) (now : Z) (done : nat → bool)
| QInflight (id : nat)
| QBytes (id : nat) (ctx_err : option Cause)                (** [bytes.acquire] up to the wait *)
| QWake (id : nat)
| QCancel (id : nat) (ctx_err : option Cause)
| QBack (id : nat) (ctx_err : option Cause)
| QAnswer (id : nat) (answer : result Cause Response) (now : Z)
| QRelease (id : nat).

Definition step_to (id : nat) (i : InCall) (ph : CallPhase) (w : ProxyWorld) : ProxyWorld :=
  {| pw_reg := pw_reg w; pw_inflight := pw_inflight w; pw_bytes := pw_bytes w; pw_calls := <[id := at_phase ph i]> (pw_calls w) |}.
Definition with_bytes (b : World) (w : ProxyWorld) : ProxyWorld :=
  {| pw_reg := pw_reg w; pw_inflight := pw_inflight w; pw_bytes := b; pw_calls := pw_calls w |}.
Definition with_inflight (s : inflightSem) (w : ProxyWorld) : ProxyWorld :=
  {| pw_reg := pw_reg w; pw_inflight := s; pw_bytes := pw_bytes w; pw_calls := pw_calls w |}.
Definition with_reg (r : Registry) (w : ProxyWorld) : ProxyWorld :=
  {| pw_reg := r; pw_inflight := pw_inflight w; pw_bytes := pw_bytes w; pw_calls := pw_calls w |}.

(** [Do], one step at a time; [None] when the step cannot be taken. *)
Definition proxy_exec (px : Proxy) (l : proxy_label) (w : ProxyWorld) : option ProxyWorld :=
  match l with
  | QRegistry r => Some (with_reg r w)
  | QArrive id p c =>
    match pw_calls w !! id with
    | Some _ => None
    | None => Some {| pw_reg := pw_reg w; pw_inflight := pw_inflight w; pw_bytes := pw_bytes w;
                      pw_calls := <[id := {| ic_principal := p; ic_call := c; ic_phase := PNew |}]> (pw_calls w) |}
    end
  | QAuthorize id now =>
    i ← pw_calls w !! id;
    match ic_phase i with
    | PNew =>
      Some (step_to id i (match authorizeAndBuild px (ic_principal i) (ic_call i) now (pw_reg w) with
                          | Ok (route, path) => PAuthorized route path
                          | Err e => PFinished (refuse e)
                          end) w)
    | _ => None
    end
  | QSession id now done =>
    i ← pw_calls w !! id;
    match ic_phase i with
    | PAuthorized route path =>
      let '(r, s) := session done (ca_ClusterID (ic_call i)) now (pw_reg w) in
      Some (with_reg r (step_to id i (match s with Ok sess => PRouted route path sess | Err e => PFinished (refuse e) end) w))
    | _ => None
    end
  | QInflight id =>
    i ← pw_calls w !! id;
    match ic_phase i with
    | PRouted route path sess =>
      let limit := effectiveInflight px (limitsOf (ic_principal i)) in
      let '(ok, s) := inflight_acquire (ca_ClusterID (ic_call i)) limit (pw_inflight w) in
      Some (with_inflight s (step_to id i (if ok then PAdmitted route path sess
        else PFinished (refuse (EBusy (ca_ClusterID (ic_call i)) "cluster-inflight" limit ClusterBusyRetryAfter))) w))
    | _ => None
    end
  | QBytes id ctx_err =>
    i ← pw_calls w !! id;
    match ic_phase i with
    | PAdmitted route path sess =>
      b ← sem_exec (LEnter id (reserve px i)) (pw_bytes w);
      Some (with_bytes b (step_to id i (match wo_calls b !! id with
                                        | Some (CHold _) => PReserved route path sess
                                        | Some (CWait _ _) => PWaiting route path sess
                                        | _ => PReleasing (refuse (bytes_refused px i ctx_err))
                                        end) w))
    | _ => None
    end
  | QWake id =>
    i ← pw_calls w !! id;
    match ic_phase i with
    | PWaiting route path sess => b ← sem_exec (LWake id) (pw_bytes w); Some (with_bytes b (step_to id i (PReserved route path sess) w))
    | _ => None
    end
  | QCancel id ctx_err =>
    i ← pw_calls w !! id;
    match ic_phase i with
    | PWaiting route path sess =>
      b ← sem_exec (LCancel id) (pw_bytes w);
      Some (with_bytes b (step_to id i (match wo_calls b !! id with
                                        | Some CDone => PReleasing (refuse (bytes_refused px i ctx_err))
                                        | _ => PWaiting route path sess
                                        end) w))
    | _ => None
    end
  | QBack id ctx_err =>
    i ← pw_calls w !! id;
    match ic_phase i with
    | PWaiting _ _ _ =>
      b ← sem_exec (LBack id) (pw_bytes w); Some (with_bytes b (step_to id i (PReleasing (refuse (bytes_refused px i ctx_err))) w))
    | _ => None
    end
  | QAnswer id answer now =>
    i ← pw_calls w !! id;
    match ic_phase i with
    | PReserved _ _ _ =>
      b ← sem_exec (LRelease id) (pw_bytes w);
      Some (with_bytes b (step_to id i (PReleasing (conclude (ic_call i) answer (reserve px i) now (pw_reg w))) w))
    | _ => None
    end
  | QRelease id =>
    i ← pw_calls w !! id;
    match ic_phase i with
    | PReleasing a => Some (with_inflight (inflight_release (ca_ClusterID (ic_call i)) (pw_inflight w)) (step_to id i (PFinished a) w))
    | _ => None
    end
  end.

Fixpoint proxy_run (px : Proxy) (ls : list proxy_label) (w : ProxyWorld) : option ProxyWorld :=
  match ls with [] => Some w | l :: ls => w ← proxy_exec px l w; proxy_run px ls w end.

Definition proxy_start (px : Proxy) (r : Registry) : ProxyWorld :=
  {| pw_reg := r; pw_inflight := newInflightSem; pw_bytes := sem_start (px_capacity px); pw_calls := ∅ |}.

End proxy.

(** * Other calls

A step of the semaphore moves its own call; of the others it can only close the
channels. *)

Definition label_id (l : sem_label) : nat :=
  match l with LEnter id _ | LWake id | LCancel id | LBack id | LRelease id => id end.

Definition same_place (p q : option Phase) : Prop :=
  match p, q with
  | None, None => True
  | Some (CWait n _), Some (CWait m _) | Some (CBack n _), Some (CBack m _) | Some (CHold n), Some (CHold m) => n = m
  | Some CDone, Some CDone => True
  | _, _ => False
  end.

#[export] Instance same_place_refl : Reflexive same_place.
Proof. by intros [[]|]. Qed.

Lemma same_place_marks calls gs id : same_place (calls !! id) (foldl mark calls gs !! id).
Proof.
  revert calls. induction gs as [|g gs IH]; intros calls; [done|]. cbn [foldl]. specialize (IH (mark calls g)). revert IH. unfold mark.
  destruct (decide (id = bw_id g)) as [->|]; [rewrite lookup_alter_eq|by rewrite lookup_alter_ne].
  destruct (calls !! bw_id g) as [[]|], (foldl _ _ gs !! bw_id g) as [[]|]; done.
Qed.

Lemma settle_other id p s gs w id' : id' ≠ id → same_place (wo_calls w !! id') (wo_calls (settle id p s gs w) !! id').
Proof. intros Hne. unfold settle. cbn [wo_calls]. rewrite <- (lookup_insert_ne (wo_calls w) id id' p) at 1 by done. apply same_place_marks. Qed.

Lemma settle_own id p s gs w : same_place (Some p) (wo_calls (settle id p s gs w) !! id).
Proof. unfold settle. cbn [wo_calls]. rewrite <- (lookup_insert_eq (wo_calls w) id p) at 1. apply same_place_marks. Qed.

(** Where a step takes its own call from and leaves it. *)
Definition moved (l : sem_label) (p q : option Phase) : Prop :=
  match l with
  | LEnter _ n => p = None ∧ (q = Some CDone ∨ q = Some (CHold n) ∨ ∃ b, q = Some (CWait n b))
  | LWake _ => ∃ n b, p = Some (CWait n b) ∧ q = Some (CHold n)
  | LCancel _ => ∃ n b, p = Some (CWait n b) ∧ (q = Some CDone ∨ ∃ b', q = Some (CBack n b'))
  | LBack _ => (∃ n b, p = Some (CBack n b)) ∧ q = Some CDone
  | LRelease _ => (∃ n, p = Some (CHold n)) ∧ q = Some CDone
  end.

Lemma same_done q : same_place (Some CDone) q → q = Some CDone.
Proof. by destruct q as [[]|]. Qed.

Lemma same_hold n q : same_place (Some (CHold n)) q → q = Some (CHold n).
Proof. destruct q as [[]|]; simpl; intros H; by subst. Qed.
Lemma same_back n b q : same_place (Some (CBack n b)) q → ∃ b', q = Some (CBack n b').
Proof. destruct q as [[]|]; simpl; intros H; try done. subst. by eexists. Qed.
Lemma same_wait n b q : same_place (Some (CWait n b)) q → ∃ b', q = Some (CWait n b').
Proof. destruct q as [[]|]; simpl; intros H; try done. subst. by eexists. Qed.

Lemma sem_exec_places l w w' : sem_exec l w = Some w' →
  (∀ id, id ≠ label_id l → same_place (wo_calls w !! id) (wo_calls w' !! id))
  ∧ moved l (wo_calls w !! label_id l) (wo_calls w' !! label_id l).
Proof.
  intros He. destruct l as [id n|id|id|id|id]; cbn [sem_exec label_id moved] in *; destruct (wo_calls w !! id) as [p|] eqn:Hp; try done.
  - destruct (acquire_enter id n (wo_sem w)) as [e s]. injection He as <-. split; [intros; by apply settle_other|]. split; [done|].
    pose proof (settle_own id (match e with EnterOk => CHold n | EnterTooLarge => CDone | EnterQueued => CWait n false end) s [] w) as Ho.
    destruct e; [right; left; by apply same_hold|left; by apply same_done|right; right; by eapply same_wait].
  - destruct p as [n []| | |]; try done. injection He as <-. split; [intros; by apply settle_other|].
    exists n, true. split; [done|]. apply same_hold, settle_own.
  - destruct p as [n ready| | |]; try done. destruct (acquire_cancel id (wo_sem w)) as [[found s] granted]. injection He as <-.
    split; [intros; by apply settle_other|]. pose proof (settle_own id (if found then CDone else CBack n ready) s granted w) as Ho.
    exists n, ready. split; [done|]. destruct found; [left; by apply same_done|]. right. by eapply same_back.
  - destruct p as [|n []| |]; try done. destruct (byte_release n (wo_sem w)) as [s granted]. injection He as <-.
    split; [intros; by apply settle_other|]. split; [eauto|]. apply same_done, settle_own.
  - destruct p as [| |n|]; try done. destruct (byte_release n (wo_sem w)) as [s granted]. injection He as <-.
    split; [intros; by apply settle_other|]. split; [eauto|]. apply same_done, settle_own.
Qed.

(** * The budgets *)

Definition holds_slot (i : InCall) : bool :=
  match ic_phase i with PAdmitted _ _ _ | PWaiting _ _ _ | PReserved _ _ _ | PReleasing _ => true | _ => false end.

(** The calls of a cluster that hold a slot. *)
Definition holding (id : string) (calls : gmap nat InCall) : Z := map_count (λ i, holds_slot i && String.eqb (ca_ClusterID (ic_call i)) id) calls.

Lemma holding_insert_new cl id i calls : calls !! id = None →
  holding cl (<[id := i]> calls) = (if holds_slot i && String.eqb (ca_ClusterID (ic_call i)) cl then 1 else 0) + holding cl calls.
Proof. intros Hn. unfold holding. by rewrite map_count_new. Qed.

Lemma holding_insert cl id i j calls : calls !! id = Some j → ic_call i = ic_call j →
  holding cl (<[id := i]> calls) = holding cl calls
    + (if String.eqb (ca_ClusterID (ic_call j)) cl then (if holds_slot i then 1 else 0) - (if holds_slot j then 1 else 0) else 0).
Proof.
  intros Hj Hc. unfold holding. rewrite (map_count_move _ _ _ _ _ Hj), Hc.
  destruct (holds_slot i), (holds_slot j), (String.eqb (ca_ClusterID (ic_call j)) cl); simpl; lia.
Qed.

Lemma holding_nonneg cl calls : 0 ≤ holding cl calls.
Proof. apply map_count_nonneg. Qed.

Lemma holding_pos cl id i calls : calls !! id = Some i → holds_slot i = true → ca_ClusterID (ic_call i) = cl → 0 < holding cl calls.
Proof. intros Hi Hh Hc. unfold holding. eapply map_count_pos; [exact Hi|]. cbn. by rewrite Hh, Hc, String.eqb_refl. Qed.

(** What [New] guarantees of a proxy configured with [int64] options. *)
Record proxy_ok (px : Proxy) : Prop := {
  po_bytes : 0 < px_maxResponseBytes px ≤ px_capacity px;
  po_capacity : px_capacity px ≤ max_int64;
  po_inflight : 0 < px_maxInflight px ≤ max_int64;
  po_timeout : 0 < px_defaultTimeout px ≤ px_maxTimeout px
}.

Lemma New_ok o px : New o = Some px → po_GlobalResponseBudget o ≤ max_int64 → po_MaxInflightPerCluster o ≤ max_int64 → proxy_ok px.
Proof.
  unfold New. intros Hn Hb Hi. destruct (Z.ltb_spec (po_DefaultTimeout o) 0), (Z.ltb_spec (po_MaxTimeout o) 0); try done. simpl in Hn.
  destruct (Z.ltb_spec (po_MaxResponseBytes o) 0), (Z.ltb_spec (po_GlobalResponseBudget o) 0); try done. simpl in Hn.
  destruct (Z.ltb_spec (po_MaxInflightPerCluster o) 0); try done. revert Hn.
  assert (∀ v d, 0 ≤ v → 0 < d → 0 < (if v =? 0 then d else v)) as Hpos by (intros v d ??; destruct (Z.eqb_spec v 0); lia).
  assert (∀ v d, v ≤ max_int64 → d ≤ max_int64 → (if v =? 0 then d else v) ≤ max_int64) as Hmax by (intros v d ??; destruct (v =? 0); lia).
  destruct (Z.ltb_spec (if po_GlobalResponseBudget o =? 0 then DefaultGlobalResponseBudget else po_GlobalResponseBudget o)
             (if po_MaxResponseBytes o =? 0 then DefaultMaxResponseBytes else po_MaxResponseBytes o)); [done|].
  destruct (Z.ltb_spec (if po_MaxTimeout o =? 0 then DefaultMaxTimeout else po_MaxTimeout o)
             (if po_DefaultTimeout o =? 0 then DefaultTimeout else po_DefaultTimeout o)); [done|].
  intros [= <-]. split; cbn [px_maxResponseBytes px_capacity px_maxInflight px_defaultTimeout px_maxTimeout]; repeat split;
    first [apply Hpos; [lia|done]|apply Hmax; [lia|done]|lia].
Qed.

(** The reservation of a call: within the hub's cap and the principal's. *)
Lemma effectiveMaxBytes_bounds px lim want : proxy_ok px →
  0 < effectiveMaxBytes px lim want ≤ px_maxResponseBytes px
  ∧ (0 < want → effectiveMaxBytes px lim want ≤ want) ∧ (0 < MaxResponseBytes lim → effectiveMaxBytes px lim want ≤ MaxResponseBytes lim).
Proof.
  intros [Hb _ _ _]. unfold effectiveMaxBytes. destruct (Z.leb_spec want 0), (Z.ltb_spec 0 (MaxResponseBytes lim)); lia.
Qed.

Lemma effectiveInflight_bounds px lim : proxy_ok px → 0 < effectiveInflight px lim ≤ px_maxInflight px.
Proof. intros [_ _ Hi _]. unfold effectiveInflight. destruct (Z.ltb_spec 0 (MaxConcurrentPerCluster lim)); lia. Qed.

Section invariant.
Context (time_parses : string → bool) (ParseFloat : string → option float) (gunzip : Stream → Inflated).
Notation exec := (proxy_exec time_parses ParseFloat gunzip).

Lemma str_take_length n s : (String.length (str_take n s) ≤ n)%nat.
Proof. revert s. induction n as [|n IH]; intros [|c s]; simpl; try lia. specialize (IH s). lia. Qed.

Lemma readCapped_bound resp maxBytes body truncated : 0 ≤ maxBytes → readCapped gunzip resp maxBytes = Ok (body, truncated) →
  Z.of_nat (String.length body) ≤ maxBytes.
Proof.
  intros Hm. assert (∀ hit b rerr, judge hit b rerr maxBytes = Ok (body, truncated) → Z.of_nat (String.length body) ≤ maxBytes) as Hj.
  { intros hit b rerr. unfold judge. destruct (Z.ltb_spec maxBytes (Z.of_nat (String.length b))).
    - intros [= <- _]. pose proof (str_take_length (Z.to_nat maxBytes) b). lia.
    - destruct rerr; [destruct (_ || _)|]; intros [= <- _]; lia. }
  unfold readCapped. destruct (rp_Body resp) as [s|]; [|intros [= <- _]; simpl; lia].
  destruct (String.eqb _ _); [|apply Hj]. destruct (zi_read _); [apply Hj|]. destruct (_ && _); [intros [= <- _]; simpl; lia|done].
Qed.

(** The body held is within the reservation. *)
Definition answer_ok (px : Proxy) (i : InCall) (a : Answer) : Prop :=
  match a.1 with Some r => re_Bytes r = Z.of_nat (String.length (re_Body r)) ∧ re_Bytes r ≤ reserve px i | None => True end.

Lemma conclude_ok px i answer now r : proxy_ok px → answer_ok px i (conclude gunzip (ic_call i) answer (reserve px i) now r).
Proof.
  intros Hpx. unfold conclude, answer_ok. destruct answer as [resp|]; [|done]. destruct (readCapped _ _ _) as [[body truncated]|] eqn:Hr; [|done].
  destruct (_ ≫= tl_Err); [done|]. simpl. split; [done|]. eapply readCapped_bound; [|done].
  pose proof (effectiveMaxBytes_bounds px (limitsOf (ic_principal i)) (ca_MaxBytes (ic_call i)) Hpx). unfold reserve. lia.
Qed.

(** Where the semaphore has a call in each phase. *)
Definition place_ok (px : Proxy) (i : option InCall) (p : option Phase) : Prop :=
  match i with
  | None => p = None
  | Some i =>
    match ic_phase i with
    | PNew | PAuthorized _ _ | PRouted _ _ _ | PAdmitted _ _ _ => p = None
    | PWaiting _ _ _ => ∃ b, p = Some (CWait (reserve px i) b) ∨ p = Some (CBack (reserve px i) b)
    | PReserved _ _ _ => p = Some (CHold (reserve px i))
    | PReleasing a | PFinished a => (p = None ∨ p = Some CDone) ∧ answer_ok px i a
    end
  end.

Lemma place_ok_same px i p q : place_ok px i p → same_place p q → place_ok px i q.
Proof.
  destruct i as [i|]; simpl; [|by intros ->; destruct q as [[]|]]. destruct (ic_phase i); try (by intros ->; destruct q as [[]|]).
  - intros [b [-> | ->]] H; [apply same_wait in H as [b' ->]|apply same_back in H as [b' ->]]; eauto.
  - intros -> H%same_hold. by subst.
  - intros [[-> | ->] Ha] H; (split; [|done]); [left; by destruct q as [[]|]|right; by apply same_done].
  - intros [[-> | ->] Ha] H; (split; [|done]); [left; by destruct q as [[]|]|right; by apply same_done].
Qed.

Record slots_ok (px : Proxy) (s : gmap string Z) (calls : gmap nat InCall) : Prop := {
  so_count : ∀ cl, default 0 (s !! cl) = holding cl calls;
  so_pos : ∀ cl n, s !! cl = Some n → 0 < n;
  so_limit : ∀ cl, holding cl calls ≤ px_maxInflight px
}.

Record proxy_inv (px : Proxy) (w : ProxyWorld) : Prop := {
  pi_sem : sem_inv (px_capacity px) (pw_bytes w);
  pi_place : ∀ id, place_ok px (pw_calls w !! id) (wo_calls (pw_bytes w) !! id);
  pi_slots : slots_ok px (pw_inflight w) (pw_calls w)
}.

Lemma proxy_start_inv px r : proxy_ok px → proxy_inv px (proxy_start px r).
Proof.
  intros [Hb Hc Hi _]. split; cbn [proxy_start pw_bytes pw_calls pw_inflight].
  - apply sem_start_inv. lia.
  - intros id. simpl. by rewrite !lookup_empty.
  - split; intros cl; unfold newInflightSem, holding, map_count; rewrite ?lookup_empty, ?map_fold_empty; try done. lia.
Qed.

(** A call that keeps or does not take its slot. *)
Lemma slots_keep px s calls id i ph : slots_ok px s calls → calls !! id = Some i → holds_slot (at_phase ph i) = holds_slot i →
  slots_ok px s (<[id := at_phase ph i]> calls).
Proof.
  intros [H1 H2 H3] Hi Hh. assert (∀ cl, holding cl (<[id := at_phase ph i]> calls) = holding cl calls) as He.
  { intros cl. rewrite (holding_insert _ _ _ i) by done. rewrite Hh. destruct (String.eqb _ _); lia. }
  split; [intros cl; by rewrite He|done|intros cl; by rewrite He].
Qed.

Lemma slots_acquire px s calls id i ph limit s' : slots_ok px s calls → calls !! id = Some i → holds_slot i = false →
  limit ≤ px_maxInflight px → px_maxInflight px ≤ max_int64 → inflight_acquire (ca_ClusterID (ic_call i)) limit s = (true, s') →
  holds_slot (at_phase ph i) = true → slots_ok px s' (<[id := at_phase ph i]> calls).
Proof.
  intros [H1 H2 H3] Hi Hh Hl Hmax Ha Hh'. unfold inflight_acquire, inflightSem in *. set (cl0 := ca_ClusterID (ic_call i)) in *.
  destruct (Z.leb_spec limit (default 0 (s !! cl0))); [done|]. injection Ha as <-.
  pose proof (holding_nonneg cl0 calls) as Hnn. rewrite H1 in *. rewrite wrap_int64_id by (unfold int64_range, min_int64; lia).
  assert (∀ cl, holding cl (<[id := at_phase ph i]> calls) = holding cl calls + if String.eqb cl0 cl then 1 else 0) as He.
  { intros cl. rewrite (holding_insert _ _ _ i) by done. rewrite Hh, Hh'. fold cl0. destruct (String.eqb cl0 cl); lia. }
  clearbody cl0. split; intros cl; rewrite ?He.
  - destruct (String.eqb_spec cl0 cl) as [<-|]; [by rewrite lookup_insert_eq|]. rewrite lookup_insert_ne, H1 by done. lia.
  - intros n. destruct (decide (cl0 = cl)) as [<-|]; [rewrite lookup_insert_eq; intros [= <-]; lia|]. rewrite lookup_insert_ne by done. apply H2.
  - destruct (String.eqb_spec cl0 cl) as [<-|]; [lia|]. specialize (H3 cl). lia.
Qed.

Lemma slots_release px s calls id i ph : slots_ok px s calls → calls !! id = Some i → holds_slot i = true → px_maxInflight px ≤ max_int64 →
  holds_slot (at_phase ph i) = false → slots_ok px (inflight_release (ca_ClusterID (ic_call i)) s) (<[id := at_phase ph i]> calls).
Proof.
  intros [H1 H2 H3] Hi Hh Hmax Hh'. set (cl0 := ca_ClusterID (ic_call i)).
  pose proof (holding_pos cl0 id i calls Hi Hh eq_refl) as Hpos. pose proof (H3 cl0) as Hlim.
  assert (∀ cl, holding cl (<[id := at_phase ph i]> calls) = holding cl calls - if String.eqb cl0 cl then 1 else 0) as He.
  { intros cl. rewrite (holding_insert _ _ _ i) by done. rewrite Hh, Hh'. fold cl0. destruct (String.eqb cl0 cl); lia. }
  clearbody cl0. unfold inflight_release, inflightSem in *. rewrite H1, wrap_int64_id by (unfold int64_range, min_int64; lia).
  destruct (Z.leb_spec (holding cl0 calls - 1) 0); split; intros cl; rewrite ?He; try (destruct (String.eqb_spec cl0 cl) as [<-|]; [specialize (H3 cl0); lia|specialize (H3 cl); lia]).
  - destruct (String.eqb_spec cl0 cl) as [<-|]; [rewrite lookup_delete_eq; simpl; lia|]. rewrite lookup_delete_ne, H1 by done. lia.
  - intros n [_ Hn]%lookup_delete_Some. by apply (H2 cl).
  - destruct (String.eqb_spec cl0 cl) as [<-|]; [by rewrite lookup_insert_eq|]. rewrite lookup_insert_ne, H1 by done. lia.
  - intros n. destruct (decide (cl0 = cl)) as [<-|]; [rewrite lookup_insert_eq; intros [= <-]; lia|]. rewrite lookup_insert_ne by done. apply H2.
Qed.

(** A step of one call. *)
Lemma inv_step px w id i ph r s b : proxy_inv px w → pw_calls w !! id = Some i →
  sem_inv (px_capacity px) b → (∀ id', id' ≠ id → same_place (wo_calls (pw_bytes w) !! id') (wo_calls b !! id')) →
  place_ok px (Some (at_phase ph i)) (wo_calls b !! id) → slots_ok px s (<[id := at_phase ph i]> (pw_calls w)) →
  proxy_inv px {| pw_reg := r; pw_inflight := s; pw_bytes := b; pw_calls := <[id := at_phase ph i]> (pw_calls w) |}.
Proof.
  intros [H1 H2 H3] Hi Hsem Hoth Hown Hslots. split; cbn [pw_bytes pw_calls pw_inflight]; [done| |done].
  intros id'. destruct (decide (id' = id)) as [->|Hne]; [by rewrite lookup_insert_eq|]. rewrite lookup_insert_ne by done.
  eapply place_ok_same; [apply H2|by apply Hoth].
Qed.

Lemma same_refl w id : ∀ id', id' ≠ id → same_place (wo_calls w !! id') (wo_calls w !! id').
Proof. by intros. Qed.

(** The call a step is about and its phase; the semaphore's part of the step. *)
Ltac open_call w id Hplace He i Hi Hp Hph :=
  destruct (pw_calls w !! id) as [i|] eqn:Hi; [|done]; pose proof (Hplace id) as Hp; rewrite Hi in Hp;
  cbn [mbind option_bind] in He; simpl in Hp; destruct (ic_phase i) eqn:Hph; try done.
Ltac open_sem He b Hs :=
  match type of He with context [sem_exec ?l ?w] => destruct (sem_exec l w) as [b|] eqn:Hs; [|done] end;
  cbn [mbind option_bind] in He; injection He as <-; unfold step_to, with_bytes.

Lemma proxy_exec_inv px l w w' : proxy_ok px → proxy_inv px w → exec px l w = Some w' → proxy_inv px w'.
Proof.
  intros Hpx Hinv He. pose proof Hinv as [Hsem Hplace Hslots].
  destruct l as [r|id p c|id now|id now done_|id|id ctx|id|id ctx|id ctx|id answer now|id]; cbn [proxy_exec] in He.
  - injection He as <-. done.
  - destruct (pw_calls w !! id) eqn:Hi; [done|]. injection He as <-. split; cbn [pw_bytes pw_calls pw_inflight]; [done| |].
    + intros id'. specialize (Hplace id'). destruct (decide (id' = id)) as [->|]; [rewrite lookup_insert_eq; by rewrite Hi in Hplace|by rewrite lookup_insert_ne].
    + destruct Hslots as [H1 H2 H3]. split; [intros cl; rewrite holding_insert_new by done; apply H1|done|intros cl; rewrite holding_insert_new by done; apply H3].
  - open_call w id Hplace He i Hi Hp Hph. injection He as <-. unfold step_to. eapply inv_step; [done..|apply same_refl| |].
    + destruct (authorizeAndBuild _ _ _ _ _ _ _) as [[route path]|e]; simpl; [done|]. rewrite Hp. split; [by left|done].
    + apply slots_keep; [done..|]. unfold holds_slot. rewrite Hph. by destruct (authorizeAndBuild _ _ _ _ _ _ _) as [[]|].
  - open_call w id Hplace He i Hi Hp Hph. destruct (session _ _ _ _) as [r s]. injection He as <-. unfold step_to, with_reg. eapply inv_step; [done..|apply same_refl| |].
    + destruct s as [sess|e]; simpl; [done|]. rewrite Hp. split; [by left|done].
    + apply slots_keep; [done..|]. unfold holds_slot. rewrite Hph. by destruct s.
  - open_call w id Hplace He i Hi Hp Hph. destruct (inflight_acquire _ _ _) as [ok s] eqn:Ha. injection He as <-. unfold step_to, with_inflight.
    eapply inv_step; [done..|apply same_refl| |].
    + destruct ok; simpl; [done|]. rewrite Hp. split; [by left|done].
    + pose proof (effectiveInflight_bounds px (limitsOf (ic_principal i)) Hpx). destruct Hpx as [_ _ Hmax _]. cbn [pw_calls]. destruct ok.
      * eapply slots_acquire; [done|done|unfold holds_slot; by rewrite Hph| | |exact Ha|done]; lia.
      * assert (s = pw_inflight w) as ->. { unfold inflight_acquire in Ha. destruct (_ <=? _); by simplify_eq. }
        apply slots_keep; [done..|]. unfold holds_slot. by rewrite Hph.
  - open_call w id Hplace He i Hi Hp Hph. open_sem He b Hs.
    destruct (sem_exec_places _ _ _ Hs) as [Hoth [_ Hown]]. cbn [label_id] in *.
    eapply inv_step; [done|done|by eapply sem_exec_inv|done| |].
    + destruct Hown as [-> |[-> |[b' ->]]]; simpl; [split; [by right|done]|done|eauto].
    + apply slots_keep; [done..|]. unfold holds_slot. rewrite Hph. destruct Hown as [-> |[-> |[b' ->]]]; done.
  - open_call w id Hplace He i Hi Hp Hph. open_sem He b Hs.
    destruct (sem_exec_places _ _ _ Hs) as [Hoth (n & b0 & Hold & Hown)]. cbn [label_id] in *.
    eapply inv_step; [done|done|by eapply sem_exec_inv|done| |].
    + destruct Hp as [b1 [Hp|Hp]]; rewrite Hp in Hold; simplify_eq. rewrite Hown. done.
    + apply slots_keep; [done..|]. unfold holds_slot. by rewrite Hph.
  - open_call w id Hplace He i Hi Hp Hph. open_sem He b Hs.
    destruct (sem_exec_places _ _ _ Hs) as [Hoth (n & b0 & Hold & Hown)]. cbn [label_id] in *.
    eapply inv_step; [done|done|by eapply sem_exec_inv|done| |].
    + destruct Hp as [b1 [Hp|Hp]]; rewrite Hp in Hold; simplify_eq. destruct Hown as [-> |[b' ->]]; simpl; [split; [by right|done]|eauto].
    + apply slots_keep; [done..|]. unfold holds_slot. rewrite Hph. destruct Hown as [-> |[b' ->]]; done.
  - open_call w id Hplace He i Hi Hp Hph. open_sem He b Hs.
    destruct (sem_exec_places _ _ _ Hs) as [Hoth [_ Hown]]. cbn [label_id] in *.
    eapply inv_step; [done|done|by eapply sem_exec_inv|done| |].
    + rewrite Hown. split; [by right|done].
    + apply slots_keep; [done..|]. unfold holds_slot. by rewrite Hph.
  - open_call w id Hplace He i Hi Hp Hph. open_sem He b Hs.
    destruct (sem_exec_places _ _ _ Hs) as [Hoth [_ Hown]]. cbn [label_id] in *.
    eapply inv_step; [done|done|by eapply sem_exec_inv|done| |].
    + rewrite Hown. split; [by right|]. exact (conclude_ok px i answer now (pw_reg w) Hpx).
    + apply slots_keep; [done..|]. unfold holds_slot. by rewrite Hph.
  - open_call w id Hplace He i Hi Hp Hph. injection He as <-. unfold step_to, with_inflight.
    eapply inv_step; [done..|apply same_refl| |].
    + exact Hp.
    + apply slots_release; [done..|unfold holds_slot; by rewrite Hph|by destruct Hpx as [_ _ [] _]|done].
Qed.

Notation run := (proxy_run time_parses ParseFloat gunzip).

Lemma proxy_run_inv px ls w w' : proxy_ok px → proxy_inv px w → run px ls w = Some w' → proxy_inv px w'.
Proof.
  intros Hpx. revert w. induction ls as [|l ls IH]; intros w Hw Hr; cbn [proxy_run] in Hr; [by simplify_eq|].
  destruct (exec px l w) as [w1|] eqn:He; [|done]. cbn [mbind option_bind] in Hr. by eapply IH, Hr; eapply proxy_exec_inv.
Qed.

Definition finished (i : InCall) : bool := match ic_phase i with PFinished _ => true | _ => false end.

Lemma slots_idle px (s : gmap string Z) calls : slots_ok px s calls → map_Forall (λ _ i, finished i = true) calls → s = ∅.
Proof.
  intros [H1 H2 _] Hall. apply map_eq. intros cl. rewrite lookup_empty. destruct (s !! cl) as [n|] eqn:Hn; [|done]. exfalso.
  pose proof (H2 _ _ Hn). specialize (H1 cl). rewrite Hn in H1. simpl in H1. assert (holding cl calls = 0); [|lia]. clear -Hall.
  induction calls as [|id i m Hm IH] using map_ind; [done|].
  apply map_Forall_insert_1_1 in Hall as Hf. apply map_Forall_insert_1_2 in Hall as Hr; [|done].
  rewrite holding_insert_new, (IH Hr) by done. unfold finished, holds_slot in *. by destruct (ic_phase i).
Qed.

Lemma total_idle (m : gmap nat Phase) : (∀ id, m !! id = None ∨ m !! id = Some CDone) → total m = 0.
Proof.
  induction m as [|id p m Hm IH] using map_ind; intros Hdone; [done|]. rewrite total_insert_new, IH; [|intros id'|done].
  - specialize (Hdone id). rewrite lookup_insert_eq in Hdone. by destruct Hdone as [?|[= ->]].
  - destruct (decide (id = id')) as [<-|]; [by left|]. specialize (Hdone id'). by rewrite lookup_insert_ne in Hdone.
Qed.

(** C3: The budgets hold under any interleaving, and nothing leaks.  After any
sequence of steps of any number of calls and any changes of the registry: a
cluster's counter is the number of its calls in progress and within the hub's
limit; the bytes reserved and the free bytes add up to the hub's budget; a call
that talks to a cluster holds its reservation, which is positive and within the
hub's cap and the principal's; a body that is returned is no longer than its
call's reservation; and when every call has finished both budgets are back where
they started. *)
Theorem proxy_budgets (px : Proxy) (r : Registry) (ls : list proxy_label) (w : ProxyWorld) :
  proxy_ok px → run px ls (proxy_start px r) = Some w →
  (∀ cl, default 0 (pw_inflight w !! cl) = holding cl (pw_calls w) ∧ holding cl (pw_calls w) ≤ px_maxInflight px)
  ∧ total (wo_calls (pw_bytes w)) + bs_free (wo_sem (pw_bytes w)) = px_capacity px ∧ 0 ≤ bs_free (wo_sem (pw_bytes w))
  ∧ (∀ id i route path sess, pw_calls w !! id = Some i → ic_phase i = PReserved route path sess →
       wo_calls (pw_bytes w) !! id = Some (CHold (reserve px i)) ∧ 0 < reserve px i ≤ px_maxResponseBytes px
       ∧ (0 < MaxResponseBytes (limitsOf (ic_principal i)) → reserve px i ≤ MaxResponseBytes (limitsOf (ic_principal i))))
  ∧ (∀ id i res e, pw_calls w !! id = Some i → ic_phase i = PFinished (Some res, e) → Z.of_nat (String.length (re_Body res)) ≤ reserve px i)
  ∧ (map_Forall (λ _ i, finished i = true) (pw_calls w) →
       pw_inflight w = ∅ ∧ bs_free (wo_sem (pw_bytes w)) = px_capacity px ∧ bs_waiters (wo_sem (pw_bytes w)) = []).
Proof.
  intros Hpx Hrun. pose proof (proxy_run_inv _ _ _ _ Hpx (proxy_start_inv px r Hpx) Hrun) as [[Hmid Hhead] Hplace [H1 H2 H3]].
  pose proof Hmid as [Hcap Hrange Hsum Hfree Hnd Hwait Hph]. split_and!.
  - intros cl. split; [apply H1|apply H3].
  - lia.
  - done.
  - intros id i route path sess Hi Hp. pose proof (Hplace id) as Hpl. rewrite Hi in Hpl. simpl in Hpl. rewrite Hp in Hpl.
    destruct (effectiveMaxBytes_bounds px (limitsOf (ic_principal i)) (ca_MaxBytes (ic_call i)) Hpx) as (Hb & _ & Hl). done.
  - intros id i res e Hi Hp. pose proof (Hplace id) as Hpl. rewrite Hi in Hpl. simpl in Hpl. rewrite Hp in Hpl.
    destruct Hpl as [_ [He Hle]]. simpl in He, Hle. lia.
  - intros Hall. assert (∀ id, wo_calls (pw_bytes w) !! id = None ∨ wo_calls (pw_bytes w) !! id = Some CDone) as Hdone.
    { intros id. pose proof (Hplace id) as Hpl. destruct (pw_calls w !! id) as [i|] eqn:Hi; simpl in Hpl; [|by left].
      specialize (Hall _ _ Hi). unfold finished in Hall. destruct (ic_phase i); try done. by destruct Hpl. }
    split_and!.
    + apply (slots_idle px _ (pw_calls w)); [by split|done].
    + rewrite (total_idle _ Hdone) in *. lia.
    + destruct (bs_waiters (wo_sem (pw_bytes w))) as [|[id n] ws] eqn:Hw; [done|]. exfalso.
      assert (wo_calls (pw_bytes w) !! id = Some (CWait n false)) as Hc by (apply Hwait; apply list_elem_of_here). destruct (Hdone id); congruence.
Qed.

(** ** Every call ends *)

Definition weight (i : InCall) : nat :=
  match ic_phase i with
  | PNew => 9 | PAuthorized _ _ => 8 | PRouted _ _ _ => 7 | PAdmitted _ _ _ => 6 | PWaiting _ _ _ => 3 | PReserved _ _ _ => 3
  | PReleasing _ => 1 | PFinished _ => 0
  end.
Definition weights (calls : gmap nat InCall) : nat := map_fold (λ _ i a, weight i + a)%nat 0%nat calls.
Definition work (w : ProxyWorld) : nat := (weights (pw_calls w) + all_steps (wo_calls (pw_bytes w)))%nat.

(** Steps that calls take themselves. *)
Definition own_step (l : proxy_label) : bool := match l with QRegistry _ | QArrive _ _ _ => false | _ => true end.
Definition arrives (l : proxy_label) : bool := match l with QArrive _ _ _ => true | _ => false end.

Lemma weights_insert id i j calls : calls !! id = Some j →
  (weights (<[id := i]> calls) + weight j = weights calls + weight i)%nat.
Proof.
  assert (∀ id i calls, calls !! id = None → weights (<[id := i]> calls) = (weight i + weights calls)%nat) as Hnew.
  { intros id' i' calls' Hn. unfold weights. rewrite map_fold_insert_L; [done| |done]. intros. lia. }
  intros Hj. rewrite <- insert_delete_eq, Hnew by (by rewrite lookup_delete_eq).
  rewrite <- (insert_id calls id j) at 2 by done. rewrite <- (insert_delete_eq calls id j), Hnew by (by rewrite lookup_delete_eq). lia.
Qed.

Lemma enter_steps id n b b' : sem_exec (LEnter id n) b = Some b' →
  (all_steps (wo_calls b') = all_steps (wo_calls b) + from_option steps_left 0 (wo_calls b' !! id))%nat.
Proof.
  cbn [sem_exec]. destruct (wo_calls b !! id) eqn:Hi; [done|]. destruct (acquire_enter id n (wo_sem b)) as [e s]. intros [= <-].
  unfold settle. cbn [wo_calls foldl]. rewrite lookup_insert_eq.
  destruct (all_steps_insert id (match e with EnterOk => CHold n | EnterTooLarge => CDone | EnterQueued => CWait n false end) (wo_calls b)) as [-> _].
  rewrite Hi. simpl. lia.
Qed.

Lemma proxy_exec_work px l w w' : own_step l = true → exec px l w = Some w' → (work w' < work w)%nat.
Proof.
  assert (∀ id i ph w b, pw_calls w !! id = Some i →
    (weight (at_phase ph i) + all_steps (wo_calls b) < weight i + all_steps (wo_calls (pw_bytes w)))%nat →
    (weights (<[id := at_phase ph i]> (pw_calls w)) + all_steps (wo_calls b) < work w)%nat) as Hstep.
  { intros id i ph w0 b Hi Hlt. pose proof (weights_insert id (at_phase ph i) i (pw_calls w0) Hi). unfold work. lia. }
  intros Hl He. destruct l as [r|id p c|id now|id now done_|id|id ctx|id|id ctx|id ctx|id answer now|id]; try done; cbn [proxy_exec] in He;
    destruct (pw_calls w !! id) as [i|] eqn:Hi; try done; cbn [mbind option_bind] in He; destruct (ic_phase i) eqn:Hph; try done.
  - injection He as <-. apply Hstep; [done|]. unfold weight. rewrite Hph. cbn [at_phase ic_phase]. destruct (authorizeAndBuild _ _ _ _ _ _ _) as [[]|]; simpl; lia.
  - destruct (session _ _ _ _) as [r s]. injection He as <-. apply Hstep; [done|]. unfold weight. rewrite Hph. cbn [at_phase ic_phase]. destruct s; simpl; lia.
  - destruct (inflight_acquire _ _ _) as [ok s]. injection He as <-. apply Hstep; [done|]. unfold weight. rewrite Hph. cbn [at_phase ic_phase]. destruct ok; simpl; lia.
  - open_sem He b Hs. apply Hstep; [done|]. cbn [with_bytes step_to pw_bytes]. rewrite (enter_steps _ _ _ _ Hs). unfold weight. rewrite Hph. cbn [at_phase ic_phase].
    destruct (wo_calls b !! id) as [[]|]; simpl; lia.
  - open_sem He b Hs. apply Hstep; [done|]. pose proof (λ H, sem_exec_steps _ _ _ H Hs) as Hd. specialize (Hd eq_refl). unfold weight. rewrite Hph. simpl. lia.
  - open_sem He b Hs. apply Hstep; [done|]. pose proof (λ H, sem_exec_steps _ _ _ H Hs) as Hd. specialize (Hd eq_refl). unfold weight. rewrite Hph. cbn [at_phase ic_phase].
    destruct (wo_calls b !! id) as [[]|]; simpl; lia.
  - open_sem He b Hs. apply Hstep; [done|]. pose proof (λ H, sem_exec_steps _ _ _ H Hs) as Hd. specialize (Hd eq_refl). unfold weight. rewrite Hph. simpl. lia.
  - open_sem He b Hs. apply Hstep; [done|]. pose proof (λ H, sem_exec_steps _ _ _ H Hs) as Hd. specialize (Hd eq_refl). unfold weight. rewrite Hph. simpl. lia.
  - injection He as <-. apply Hstep; [done|]. unfold weight. rewrite Hph. simpl. lia.
Qed.

Lemma proxy_run_work px ls w w' : Forall (λ l, arrives l = false) ls → run px ls w = Some w' →
  (length (filter (λ l, own_step l = true) ls) + work w' ≤ work w)%nat.
Proof.
  intros Hf. revert w. induction Hf as [|l ls Hl Hf IH]; intros w Hr; cbn [proxy_run] in Hr; [simplify_eq; simpl; lia|].
  destruct (exec px l w) as [w1|] eqn:He; [|done]. cbn [mbind option_bind] in Hr. specialize (IH _ Hr). rewrite filter_cons.
  destruct (own_step l) eqn:Ho.
  - pose proof (proxy_exec_work _ _ _ _ Ho He). simpl. lia.
  - rewrite decide_False by done. destruct l; try done. cbn [proxy_exec] in He. injection He as <-. exact IH.
Qed.

Ltac listed := repeat first [apply list_elem_of_here|apply list_elem_of_further].

(** As long as a call is not finished, one can go on, whatever its session
answers. *)
Lemma proxy_progress px w : proxy_inv px w → ¬ map_Forall (λ _ i, finished i = true) (pw_calls w) →
  ∃ id, ∀ answer now done_ ctx, ∃ l w', exec px l w = Some w' ∧ own_step l = true
    ∧ l ∈ [QAuthorize id now; QSession id now done_; QInflight id; QBytes id ctx; QWake id; QBack id ctx; QAnswer id answer now; QRelease id].
Proof.
  intros [Hsem Hplace _] Hnot. apply map_not_Forall in Hnot as (id & i & Hi & Hf); [|apply _].
  assert (∀ l answer now done_ ctx id, own_step l = true → is_Some (exec px l w) →
    l ∈ [QAuthorize id now; QSession id now done_; QInflight id; QBytes id ctx; QWake id; QBack id ctx; QAnswer id answer now; QRelease id] →
    ∃ l w', exec px l w = Some w' ∧ own_step l = true
      ∧ l ∈ [QAuthorize id now; QSession id now done_; QInflight id; QBytes id ctx; QWake id; QBack id ctx; QAnswer id answer now; QRelease id]) as Hgo.
  { intros l answer now done_ ctx id' Ho [w' He] Hin. by exists l, w'. }
  assert (∀ id n, wo_calls (pw_bytes w) !! id = Some (CHold n) → ∃ i route path sess, pw_calls w !! id = Some i ∧ ic_phase i = PReserved route path sess) as Hres.
  { intros id' n Hn. pose proof (Hplace id') as Hp. rewrite Hn in Hp. destruct (pw_calls w !! id') as [i'|]; [|done]. simpl in Hp. exists i'.
    destruct (ic_phase i'); try done; [by destruct Hp as [? [|]]|by eexists _, _, _|by destruct Hp as [[|] _]|by destruct Hp as [[|] _]]. }
  assert (∀ id p, wo_calls (pw_bytes w) !! id = Some p → (∃ n b, p = CWait n b ∨ p = CBack n b) →
    ∃ i route path sess, pw_calls w !! id = Some i ∧ ic_phase i = PWaiting route path sess) as Hwt.
  { intros id' p Hn Hsh. pose proof (Hplace id') as Hp. rewrite Hn in Hp. destruct Hsh as (n & b & [-> | ->]);
      (destruct (pw_calls w !! id') as [i'|]; [|done]; simpl in Hp; exists i';
       destruct (ic_phase i'); try done; [by eexists _, _, _|by destruct Hp as [[|] _]|by destruct Hp as [[|] _]]). }
  destruct (ic_phase i) eqn:Hph.
  - exists id. intros. apply (Hgo (QAuthorize id now)); [done| |listed]. cbn [proxy_exec]. rewrite Hi. cbn [mbind option_bind]. rewrite Hph. eauto.
  - exists id. intros. apply (Hgo (QSession id now done_)); [done| |listed]. cbn [proxy_exec]. rewrite Hi. cbn [mbind option_bind]. rewrite Hph.
    destruct (session _ _ _ _). eauto.
  - exists id. intros. apply (Hgo (QInflight id)); [done| |listed]. cbn [proxy_exec]. rewrite Hi. cbn [mbind option_bind]. rewrite Hph.
    destruct (inflight_acquire _ _ _). eauto.
  - exists id. intros. apply (Hgo (QBytes id ctx)); [done| |listed]. cbn [proxy_exec]. rewrite Hi. cbn [mbind option_bind]. rewrite Hph.
    pose proof (Hplace id) as Hp. rewrite Hi in Hp. simpl in Hp. rewrite Hph in Hp. cbn [sem_exec]. rewrite Hp. destruct (acquire_enter _ _ _). simpl. eauto.
  - destruct (sem_progress _ _ Hsem) as (l & b & Hl & Hlab).
    { pose proof (Hplace id) as Hp. rewrite Hi in Hp. simpl in Hp. rewrite Hph in Hp. intros Hall. by destruct Hp as [b [Hp|Hp]]; apply Hall in Hp. }
    destruct l as [|id'| |id'|id']; try done; exists id'; intros.
    + destruct (sem_exec_places _ _ _ Hl) as [_ (n & b0 & Hold & _)]. cbn [label_id] in Hold.
      destruct (Hwt id' _ Hold) as (i' & route' & path' & sess' & Hi' & Hph'); [eauto|].
      apply (Hgo (QWake id')); [done| |listed]. cbn [proxy_exec]. rewrite Hi'. cbn [mbind option_bind]. rewrite Hph', Hl. simpl. eauto.
    + destruct (sem_exec_places _ _ _ Hl) as [_ [(n & b0 & Hold) _]]. cbn [label_id] in Hold.
      destruct (Hwt id' _ Hold) as (i' & route' & path' & sess' & Hi' & Hph'); [eauto|].
      apply (Hgo (QBack id' ctx)); [done| |listed]. cbn [proxy_exec]. rewrite Hi'. cbn [mbind option_bind]. rewrite Hph', Hl. simpl. eauto.
    + destruct (sem_exec_places _ _ _ Hl) as [_ [[n Hold] _]]. cbn [label_id] in Hold.
      destruct (Hres id' _ Hold) as (i' & route' & path' & sess' & Hi' & Hph').
      apply (Hgo (QAnswer id' answer now)); [done| |listed]. cbn [proxy_exec]. rewrite Hi'. cbn [mbind option_bind]. rewrite Hph', Hl. simpl. eauto.
  - exists id. intros. apply (Hgo (QAnswer id answer now)); [done| |listed]. cbn [proxy_exec]. rewrite Hi. cbn [mbind option_bind]. rewrite Hph.
    pose proof (Hplace id) as Hp. rewrite Hi in Hp. simpl in Hp. rewrite Hph in Hp. cbn [sem_exec]. rewrite Hp. destruct (byte_release _ _). simpl. eauto.
  - exists id. intros. apply (Hgo (QRelease id)); [done| |listed]. cbn [proxy_exec]. rewrite Hi. cbn [mbind option_bind]. rewrite Hph. eauto.
  - exfalso. apply Hf. unfold finished. by rewrite Hph.
Qed.

(** C8: Every call ends.  From any world calls can reach, the calls present take
at most [work] more steps, however their steps interleave with each other and
with changes of the registry; and until all have finished one of them can take
its next step, whatever its session answers and whatever the registry and the
clock say. *)
Theorem proxy_calls_end (px : Proxy) (r : Registry) (ls : list proxy_label) (w : ProxyWorld) :
  proxy_ok px → run px ls (proxy_start px r) = Some w →
  (∀ ls' w', Forall (λ l, arrives l = false) ls' → run px ls' w = Some w' → (length (filter (λ l, own_step l = true) ls') ≤ work w)%nat)
  ∧ (¬ map_Forall (λ _ i, finished i = true) (pw_calls w) →
     ∃ id, ∀ answer now done_ ctx, ∃ l w', exec px l w = Some w' ∧ own_step l = true
       ∧ l ∈ [QAuthorize id now; QSession id now done_; QInflight id; QBytes id ctx; QWake id; QBack id ctx; QAnswer id answer now; QRelease id]).
Proof.
  intros Hpx Hrun. split.
  - intros ls' w' Hf Hr. pose proof (proxy_run_work _ _ _ _ Hf Hr). lia.
  - apply proxy_progress. by eapply proxy_run_inv, Hrun; [|apply proxy_start_inv].
Qed.

(** * Authorization *)

(** The call is past authorization, with this route and path where the phase
still shows them. *)
Definition cleared (rp : Route * string) (ph : CallPhase) : Prop :=
  match ph with
  | PAuthorized route path | PRouted route path _ | PAdmitted route path _ | PWaiting route path _ | PReserved route path _ => rp = (route, path)
  | PReleasing _ | PFinished (Some _, _) => True
  | PNew | PFinished (None, _) => False
  end.

(** A call is cleared by its own authorization and by nothing else. *)
Lemma cleared_step px l w w' id i' rp0 : exec px l w = Some w' → pw_calls w' !! id = Some i' → cleared rp0 (ic_phase i') →
  ∃ i, pw_calls w !! id = Some i ∧ ic_principal i = ic_principal i' ∧ ic_call i = ic_call i'
    ∧ ((∃ rp, cleared rp (ic_phase i) ∧ ∀ rp, cleared rp (ic_phase i) → cleared rp (ic_phase i'))
       ∨ ∃ now, l = QAuthorize id now ∧ authorizeAndBuild time_parses ParseFloat px (ic_principal i') (ic_call i') now (pw_reg w) = Ok rp0).
Proof.
  intros He Hi' Hc. assert (pw_calls w !! id = Some i' → ∃ i, pw_calls w !! id = Some i ∧ ic_principal i = ic_principal i' ∧ ic_call i = ic_call i'
    ∧ ((∃ rp, cleared rp (ic_phase i) ∧ ∀ rp, cleared rp (ic_phase i) → cleared rp (ic_phase i'))
       ∨ ∃ now, l = QAuthorize id now ∧ authorizeAndBuild time_parses ParseFloat px (ic_principal i') (ic_call i') now (pw_reg w) = Ok rp0)) as Hsame
    by (intros H; exists i'; split_and!; [done..|left; eauto]).
  assert (∀ id' i ph, pw_calls w !! id' = Some i → <[id' := at_phase ph i]> (pw_calls w) !! id = Some i' →
     pw_calls w !! id = Some i' ∨ (id' = id ∧ i' = at_phase ph i)) as Hmove.
  { intros id' i ph Hi H. destruct (decide (id' = id)) as [->|]; [rewrite lookup_insert_eq in H; by simplify_eq; right|rewrite lookup_insert_ne in H by done; by left]. }
  destruct l as [r|id' p c|id' now|id' now done_|id'|id' ctx|id'|id' ctx|id' ctx|id' answer now|id']; cbn [proxy_exec] in He;
    [by injection He as <-; apply Hsame| |..].
  { destruct (pw_calls w !! id') eqn:Hn; [done|]. injection He as <-. cbn [pw_calls] in Hi'.
    destruct (decide (id' = id)) as [->|]; [rewrite lookup_insert_eq in Hi'; by simplify_eq|rewrite lookup_insert_ne in Hi' by done; by apply Hsame]. }
  all: destruct (pw_calls w !! id') as [i|] eqn:Hi; [|done]; cbn [mbind option_bind] in He; destruct (ic_phase i) eqn:Hph; try done;
    repeat match type of He with
    | context [sem_exec ?l ?w] => let H := fresh in destruct (sem_exec l w) eqn:H; [|done]; cbn [mbind option_bind] in He
    | context [let '(_, _) := ?x in _] => destruct x
    end; injection He as <-; cbn [with_bytes with_inflight with_reg step_to pw_calls] in Hi';
    destruct (Hmove _ _ _ Hi Hi') as [Hin|[-> ->]]; try (by apply Hsame); exists i; cbn [at_phase ic_phase ic_principal ic_call] in *;
    rewrite Hph; split_and!; try done; try (left; eexists; split; [done|]; intros rp' ->; by repeat case_match).
  - right. exists now. split; [done|]. destruct (authorizeAndBuild _ _ _ _ _ _ _) as [[route path]|e]; simpl in Hc; [by subst|done].
  - left. exists rp0. split; [done|]. by destruct a as [[res|] e].
Qed.

Lemma run_snoc px ls l w : run px (ls ++ [l])%list w = run px ls w ≫= exec px l.
Proof.
  revert w. induction ls as [|l' ls IH]; intros w; cbn [app proxy_run].
  - destruct (exec px l w) eqn:He; cbn [mbind option_bind]; by rewrite He.
  - destruct (exec px l' w); cbn [mbind option_bind]; [apply IH|done].
Qed.

Lemma cleared_run px ls r w id i rp0 : run px ls (proxy_start px r) = Some w → pw_calls w !! id = Some i → cleared rp0 (ic_phase i) →
  ∃ ls1 now ls2 w1 rp, ls = (ls1 ++ QAuthorize id now :: ls2)%list ∧ run px ls1 (proxy_start px r) = Some w1
    ∧ authorizeAndBuild time_parses ParseFloat px (ic_principal i) (ic_call i) now (pw_reg w1) = Ok rp ∧ cleared rp (ic_phase i).
Proof.
  revert w i rp0. induction ls as [|l ls IH] using rev_ind; intros w i rp0.
  - intros [= <-]. simpl. by rewrite lookup_empty.
  - rewrite run_snoc. destruct (run px ls (proxy_start px r)) as [w0|] eqn:Hrun; [|done]. cbn [mbind option_bind]. intros He Hi Hc.
    destruct (cleared_step _ _ _ _ _ _ _ He Hi Hc) as (i0 & Hi0 & Hp & Hcall & [(rp & Hrp & Hkeep)|(now & -> & Ha)]).
    + destruct (IH _ _ _ eq_refl Hi0 Hrp) as (ls1 & now & ls2 & w1 & rp1 & -> & Hr1 & Ha & Hc1). rewrite Hp, Hcall in Ha.
      exists ls1, now, (ls2 ++ [l])%list, w1, rp1. split_and!; [by rewrite <- app_assoc|done|done|by apply Hkeep].
    + exists ls, now, [], w0, rp0. done.
Qed.

(** A call is let through only for a principal, a cluster and an endpoint that
may meet. *)
Lemma authorizeAndBuild_Ok px p c now r route path :
  authorizeAndBuild time_parses ParseFloat px p c now r = Ok (route, path) →
  (∃ cluster, Registry_Cluster (ca_ClusterID c) now r = Some cluster ∧ allows p (ca_ClusterID c) (Labels cluster) = true)
  ∧ Get (ca_Endpoint c) = Ok route ∧ BuildPath (ca_Endpoint c) (ca_LabelName c) = Ok path
  ∧ ∃ u, Validate time_parses ParseFloat (ca_Endpoint c) (ca_Form c) (px_enableConfig px) = Ok u.
Proof.
  unfold authorizeAndBuild. destruct (String.eqb _ _); [done|].
  destruct (Registry_Cluster (ca_ClusterID c) now r) as [cluster|]; cbn [from_option];
    (destruct (allows p (ca_ClusterID c) _) eqn:Ha; cbn [negb]; [|done]); [|done].
  destruct (Get _) as [rt|]; [|done]. destruct (BuildPath _ _) as [pa|]; [|done]. destruct (Validate _ _ _ _ _) as [u|]; [|done].
  intros H. injection H as <- <-. split; [by exists cluster|]. split; [done|]. split; [done|]. by exists u.
Qed.

(** C7: Nothing is asked of a cluster without authorization.  Take a call that
holds a slot or bytes, or has an answer with a body, after any interleaving: at
one earlier point of that interleaving the registry knew its cluster, the scope
of its own principal admitted the cluster under the labels it had then, and its
endpoint, path and form passed the allow-list; the route and path it goes on
with are the ones built there. *)
Theorem proxy_authorized (px : Proxy) (r : Registry) (ls : list proxy_label) (w : ProxyWorld) (id : nat) (i : InCall) (rp : Route * string) :
  run px ls (proxy_start px r) = Some w → pw_calls w !! id = Some i → cleared rp (ic_phase i) →
  ∃ ls1 now ls2 w1 cluster route path, ls = (ls1 ++ QAuthorize id now :: ls2)%list ∧ run px ls1 (proxy_start px r) = Some w1
    ∧ Registry_Cluster (ca_ClusterID (ic_call i)) now (pw_reg w1) = Some cluster
    ∧ allows (ic_principal i) (ca_ClusterID (ic_call i)) (Labels cluster) = true
    ∧ Get (ca_Endpoint (ic_call i)) = Ok route ∧ BuildPath (ca_Endpoint (ic_call i)) (ca_LabelName (ic_call i)) = Ok path
    ∧ Validate time_parses ParseFloat (ca_Endpoint (ic_call i)) (ca_Form (ic_call i)) (px_enableConfig px) = Ok tt
    ∧ cleared (route, path) (ic_phase i).
Proof.
  intros Hrun Hi Hc. destruct (cleared_run _ _ _ _ _ _ _ Hrun Hi Hc) as (ls1 & now & ls2 & w1 & [route path] & -> & Hr & Ha & Hc').
  apply authorizeAndBuild_Ok in Ha as ((cluster & Hcl & Hal) & Hg & Hb & [[] Hv]). exists ls1, now, ls2, w1, cluster, route, path. exact (conj eq_refl (conj Hr (conj Hcl (conj Hal (conj Hg (conj Hb (conj Hv Hc'))))))).
Qed.

End invariant.

(** ** Denials *)

(** Where every value of the selector is non-empty, a principal who is denied a
cluster the hub knows is denied in the same way when the hub does not know it:
the answer does not tell the two apart. *)
Lemma denial_uniform (time_parses : string → bool) (ParseFloat : string → option float) px p c now r now' r' :
  (∀ s k v, p_Scope p = Some s → cs_MatchLabels (Scope_Clusters s) !! k = Some v → v ≠ "") →
  authorizeAndBuild time_parses ParseFloat px (Some p) c now r = Err (EForbidden (ca_ClusterID c)) →
  Registry_Cluster (ca_ClusterID c) now' r' = None →
  authorizeAndBuild time_parses ParseFloat px (Some p) c now' r' = Err (EForbidden (ca_ClusterID c)).
Proof.
  intros Hsel Hd Hn. unfold authorizeAndBuild in *. destruct (String.eqb _ _); [done|]. rewrite Hn. cbn [from_option].
  assert (∀ labels, allows (Some p) (ca_ClusterID c) labels = false → allows (Some p) (ca_ClusterID c) ∅ = false) as Hempty.
  { intros labels. unfold allows. destruct (p_Scope p) as [s|] eqn:Hs; [|done]. intros Hf. apply not_true_iff_false. intros Ht.
    apply not_true_iff_false in Hf. apply Hf. apply AllowsCluster_correct in Ht as (H1 & H2 & H3). apply AllowsCluster_correct.
    split_and!; [done| |done]. intros k v Hk. specialize (H2 k v Hk). unfold map_get in H2. rewrite lookup_empty in H2.
    by destruct (Hsel s k v eq_refl Hk). }
  destruct (allows (Some p) (ca_ClusterID c) (from_option Labels ∅ (Registry_Cluster (ca_ClusterID c) now r))) eqn:Ha; cbn [negb] in Hd.
  - exfalso. revert Hd. destruct (Registry_Cluster _ now r); [|done]. destruct (Get _); [|done]. destruct (BuildPath _ _); [|done]. by destruct (Validate _ _ _ _ _).
  - by rewrite (Hempty _ Ha).
Qed.

(** ** Examples *)

Definition toy_proxy : Proxy :=
  {| px_defaultTimeout := Second; px_maxTimeout := Second; px_maxResponseBytes := 2; px_maxInflight := 8; px_enableConfig := false; px_capacity := 2 |}.
Definition toy_caller (clusters : ClusterScope) : Principal :=
  {| p_KID := "k1"; p_Name := ""; p_Class := ClassAgent; p_Role := RoleViewer; p_Epoch := 0;
     p_Scope := Some {| Scope_Role := RoleViewer; Scope_Clusters := clusters; Scope_Tools := {| ts_Allow := ["*"]; ts_Deny := [] |}; Scope_Limits := zero_Limits |} |}.
Definition toy_registry (labels : gmap string string) : Registry :=
  (OnSession (Some 0%nat) {| id_ClusterID := "prod-eu"; id_CertSerial := "s"; id_CertNotAfter := 1000; id_RemoteAddr := "10.0.0.7"; id_InstanceID := "a" |}
     false (Some (says labels)) 0 NoLookup 10 fresh_registry).1.
Definition toy_call : Call :=
  {| ca_ClusterID := "prod-eu"; ca_Endpoint := "query"; ca_LabelName := ""; ca_Form := {[ "query" := ["up"] ]}; ca_Timeout := 0; ca_MaxBytes := 0; ca_RequestID := "" |}.

(** Two calls for the whole budget: the second waits for the first. *)
Definition toy_schedule : list proxy_label :=
  let caller := Some (toy_caller {| cs_Allow := ["prod-eu"]; cs_MatchLabels := ∅; cs_Deny := [] |}) in
  [QArrive 0 caller toy_call; QAuthorize 0 20; QArrive 1 caller toy_call; QSession 0 20 (λ _, false); QInflight 0; QBytes 0 None;
   QAuthorize 1 21; QSession 1 21 (λ _, false); QInflight 1; QBytes 1 None].
Definition toy_finish : list proxy_label :=
  [QAnswer 0 (Ok {| rp_StatusCode := 200; rp_Body := Some {| st_data := "abc"; st_end := None |}; rp_ContentEncoding := ""; rp_Trailer := None |}) 22;
   QWake 1; QRelease 0; QAnswer 1 (Err [SDeadlineExceeded]) 23; QRelease 1].
Definition no_gzip (s : Stream) : Inflated := {| zi_past := false; zi_read := Err [] |}.
Notation toy_run ls w := (proxy_run no_time digits_only no_gzip toy_proxy ls w).
Definition toy_start : ProxyWorld := proxy_start toy_proxy (toy_registry ∅).
Definition toy_midway : ProxyWorld := default toy_start (toy_run toy_schedule toy_start).
Definition toy_end : ProxyWorld := default toy_start (toy_run toy_finish toy_midway).

Lemma toy_proxy_ok : proxy_ok toy_proxy.
Proof. split; vm_compute; repeat split; discriminate. Qed.
Lemma toy_midway_reached : toy_run toy_schedule toy_start = Some toy_midway.
Proof. vm_compute. reflexivity. Qed.
Lemma toy_end_reached : toy_run (toy_schedule ++ toy_finish)%list toy_start = Some toy_end.
Proof. vm_compute. reflexivity. Qed.

Lemma proxy_budgets_witness :
  (∃ i0 i1 res, pw_calls toy_end !! 0%nat = Some i0 ∧ ic_phase i0 = PFinished (Some res, Some (ETooLarge "prod-eu" [])) ∧ re_Body res = "ab"
     ∧ pw_calls toy_end !! 1%nat = Some i1 ∧ ic_phase i1 = PFinished (None, Some (EContext "prod-eu" [SDeadlineExceeded])))
  ∧ holding "prod-eu" (pw_calls toy_midway) = 2 ∧ pw_inflight toy_end = ∅ ∧ bs_free (wo_sem (pw_bytes toy_end)) = 2.
Proof.
  split_and!.
  - eexists _, _, _. split_and!; vm_compute; reflexivity.
  - vm_compute. reflexivity.
  - refine (proj1 (proj2 (proj2 (proj2 (proj2 (proj2 (proxy_budgets no_time digits_only no_gzip toy_proxy _ _ _ toy_proxy_ok toy_end_reached))))) _)).
    apply (bool_decide_unpack (map_Forall (λ _ i, finished i = true) (pw_calls toy_end))). vm_compute. exact I.
  - vm_compute. reflexivity.
Defined.

Lemma proxy_calls_end_witness :
  work toy_midway = 9%nat ∧ ∃ id, ∀ answer now done_ ctx, ∃ l w', proxy_exec no_time digits_only no_gzip toy_proxy l toy_midway = Some w' ∧ own_step l = true
    ∧ l ∈ [QAuthorize id now; QSession id now done_; QInflight id; QBytes id ctx; QWake id; QBack id ctx; QAnswer id answer now; QRelease id].
Proof.
  split; [vm_compute; reflexivity|].
  refine (proj2 (proxy_calls_end no_time digits_only no_gzip toy_proxy _ _ _ toy_proxy_ok toy_midway_reached) _).
  apply (bool_decide_eq_false (map_Forall (λ _ i, finished i = true) (pw_calls toy_midway))). vm_compute. reflexivity.
Defined.

Definition toy_second : InCall := default {| ic_principal := None; ic_call := toy_call; ic_phase := PNew |} (pw_calls toy_midway !! 1%nat).

Lemma toy_second_waits : pw_calls toy_midway !! 1%nat = Some toy_second ∧ ∃ rp, cleared rp (ic_phase toy_second).
Proof. split; [vm_compute; reflexivity|]. eexists (_, _). vm_compute. reflexivity. Qed.

Lemma proxy_authorized_witness :
  ∃ ls1 now ls2 w1 cluster route path, toy_schedule = (ls1 ++ QAuthorize 1 now :: ls2)%list ∧ toy_run ls1 toy_start = Some w1
    ∧ Registry_Cluster "prod-eu" now (pw_reg w1) = Some cluster
    ∧ allows (ic_principal toy_second) "prod-eu" (Labels cluster) = true
    ∧ Get "query" = Ok route ∧ BuildPath "query" "" = Ok path
    ∧ Validate no_time digits_only "query" {[ "query" := ["up"] ]} false = Ok tt
    ∧ cleared (route, path) (ic_phase toy_second).
Proof.
  destruct toy_second_waits as [Hi [rp Hc]].
  exact (proxy_authorized no_time digits_only no_gzip toy_proxy _ _ _ 1%nat toy_second rp toy_midway_reached Hi Hc).
Defined.

(** A selector that asks for an empty value selects clusters without the label,
the ones the hub does not know among them: a principal so scoped is told which
of the clusters it may not read exist. *)
Lemma denial_tells :
  let caller := Some (toy_caller {| cs_Allow := ["*"]; cs_MatchLabels := {[ "tenant" := "" ]}; cs_Deny := [] |}) in
  authorizeAndBuild no_time digits_only toy_proxy caller toy_call 20 (toy_registry {[ "tenant" := "acme" ]}) = Err (EForbidden "prod-eu")
  ∧ authorizeAndBuild no_time digits_only toy_proxy caller toy_call 20 fresh_registry = Err (EUnknownCluster "prod-eu").
Proof. split; vm_compute; reflexivity. Qed.
