(* ===== verification/PromQL.v ===== *)
(** The structural check of an expression before it is sent anywhere:
[src/internal/mcptools/promql.go].

[analyzePromQL] is a loop over bytes with a bracket stack.  One turn of the loop
is [scan_step], which says how many bytes it consumed; a turn consumes at least
one, so the length of the expression is enough fuel.  What a fault or a
suggestion says is a value, [Fault] and [Advice]. *)

From S2P Require Import Prelude Fleet Registry Text Utf8 Nearest Step.
Open Scope string_scope.
Open Scope Z_scope.

(** * Words *)

Definition promQLFunctions : list string :=
  [ "abs"; "absent"; "absent_over_time"; "acos"; "acosh";
    "asin"; "asinh"; "atan"; "atanh"; "avg_over_time";
    "ceil"; "changes"; "clamp"; "clamp_max"; "clamp_min";
    "cos"; "cosh"; "count_over_time"; "day_of_month";
    "day_of_week"; "day_of_year"; "days_in_month"; "deg";
    "delta"; "deriv"; "double_exponential_smoothing"; "exp";
    "floor"; "histogram_avg"; "histogram_count";
    "histogram_fraction"; "histogram_quantile"; "histogram_stddev";
    "histogram_stdvar"; "histogram_sum"; "holt_winters"; "hour";
    "idelta"; "increase"; "info"; "irate"; "label_join";
    "label_replace"; "last_over_time"; "ln"; "log10"; "log2";
    "mad_over_time"; "max_over_time"; "min_over_time"; "minute";
    "month"; "pi"; "predict_linear"; "present_over_time";
    "quantile_over_time"; "rad"; "rate"; "resets"; "round";
    "scalar"; "sgn"; "sin"; "sinh"; "sort";
    "sort_by_label"; "sort_by_label_desc"; "sort_desc"; "sqrt";
    "stddev_over_time"; "stdvar_over_time"; "sum_over_time"; "tan";
    "tanh"; "time"; "timestamp"; "vector"; "year" ].

Definition promQLAggregations : list string :=
  [ "sum"; "min"; "max"; "avg"; "group"; "stddev";
    "stdvar"; "count"; "count_values"; "bottomk"; "topk";
    "quantile"; "limitk"; "limit_ratio" ].

Definition promQLGrouping : list string := [ "by"; "without"; "on"; "ignoring"; "group_left"; "group_right" ].

Definition promQLKeywords : list string :=
  [ "offset"; "bool"; "and"; "or"; "unless"; "start"; "end"; "atan2"; "inf"; "nan"; "Inf"; "NaN" ].

Definition counterSuffixes : list string := [ "_total"; "_count"; "_sum"; "_bucket" ].

(** * Bytes *)

Definition isIdentStart (c : ascii) : bool := Ascii.eqb c "_" || Ascii.eqb c ":" || in_range 0x61 0x7A c || in_range 0x41 0x5A c.
Definition isIdentPart (c : ascii) : bool := isIdentStart c || is_digit c.
Definition isSpaceByte (c : ascii) : bool := IsSpace (byte_val c).

Definition newline : ascii := "010".
Definition dquote : ascii := "034".

(** How many bytes from the front satisfy the predicate. *)
Fixpoint span_len (f : ascii → bool) (s : string) : nat :=
  match s with EmptyString => 0%nat | String c s => if f c then S (span_len f s) else 0%nat end.

(** [utf8.ValidString]. *)
Fixpoint valid_fuel (n : nat) (s : string) : bool :=
  match n, s with
  | S n, String c s' =>
    let '(r, rest) := DecodeRune c s' in
    if (r =? RuneError) && (String.length rest =? String.length s')%nat then false else valid_fuel n rest
  | _, _ => true
  end.
Definition ValidString (s : string) : bool := valid_fuel (String.length s) s.

(** The bytes of a string literal after its opening quote, the closing one
included. *)
Fixpoint scanString (quote : ascii) (s : string) : option nat :=
  match s with
  | EmptyString => None
  | String c s1 =>
    if Ascii.eqb c "\" && negb (Ascii.eqb quote "`") then
      match s1 with EmptyString => None | String _ s2 => (λ n, S (S n)) <$> scanString quote s2 end
    else if Ascii.eqb c quote then Some 1%nat
    else S <$> scanString quote s1
  end.

(** The loop of [validDuration] at the digits that begin at byte [i]. *)
Fixpoint duration_loop (fuel : nat) (i : nat) (s : string) : bool :=
  match fuel with
  | O => false
  | S fuel =>
    let n := span_len is_digit s in
    if (n =? 0)%nat then false
    else
      let s := str_drop n s in
      match s with
      | EmptyString => (i =? 0)%nat
      | String c rest =>
        let more k := match str_drop k s with EmptyString => true | s => duration_loop fuel (i + n + k) s end in
        if HasPrefix s "ms" then more 2%nat
        else if existsb (Ascii.eqb c) ["s"; "m"; "h"; "d"; "w"; "y"]%char then more 1%nat
        else false
      end
  end.
Definition validDuration (s : string) : bool := if String.eqb s "" then false else duration_loop (String.length s) 0 s.

(** * The scan *)

Inductive Fault :=
| Unterminated (pos : Z) | UnclosedRange (pos : Z) | BadDuration (pos : Z) (part : string)
| Unexpected (pos : Z) (c : ascii) | Mismatch (pos : Z) (c : ascii) (opened : ascii) (at_pos : Z) | UnexpectedClose (pos : Z)
| Unquoted (pos : Z) (word : string) | Unclosed (pos : Z) (c : ascii) | NotUTF8.
Inductive Advice := UnknownFunction (name : string) | RawCounter (metric : string).

Record openBracket := { ob_ch : ascii; ob_pos : Z; ob_labelCtx : bool }.

(** The variables of the loop. *)
Record scan := {
  an_metrics : gset string;
  an_funcs : gset string;
  an_aggs : gset string;
  an_labels : gset string;
  an_windows : list string;
  an_suggest : list Advice;
  an_selectors : Z;
  an_subqueries : Z;
  an_stack : list openBracket;      (** the top first *)
  an_grouping : bool;               (** [expectGrouping] *)
  an_depth : Z;                     (** [braceDepth] *)
  an_value : bool;                  (** [expectMatcherValue] *)
  an_last : string                  (** [lastIdent] *)
}.

Definition scan0 : scan :=
  {| an_metrics := ∅; an_funcs := ∅; an_aggs := ∅; an_labels := ∅; an_windows := []; an_suggest := []; an_selectors := 0; an_subqueries := 0;
     an_stack := []; an_grouping := false; an_depth := 0; an_value := false; an_last := "" |}.

(** What the loop has found, and where it is. *)
Definition found (metrics funcs aggs labels : gset string) (suggest : list Advice) (selectors : Z) (s : scan) : scan :=
  {| an_metrics := metrics; an_funcs := funcs; an_aggs := aggs; an_labels := labels; an_windows := an_windows s; an_suggest := suggest;
     an_selectors := selectors; an_subqueries := an_subqueries s; an_stack := an_stack s; an_grouping := an_grouping s; an_depth := an_depth s;
     an_value := an_value s; an_last := "" |}.
Definition place_at (stack : list openBracket) (grouping : bool) (depth : Z) (value : bool) (last : string) (s : scan) : scan :=
  {| an_metrics := an_metrics s; an_funcs := an_funcs s; an_aggs := an_aggs s; an_labels := an_labels s; an_windows := an_windows s;
     an_suggest := an_suggest s; an_selectors := an_selectors s; an_subqueries := an_subqueries s; an_stack := stack; an_grouping := grouping;
     an_depth := depth; an_value := value; an_last := last |}.
Definition windowed (windows : list string) (subqueries : Z) (s : scan) : scan :=
  {| an_metrics := an_metrics s; an_funcs := an_funcs s; an_aggs := an_aggs s; an_labels := an_labels s; an_windows := windows;
     an_suggest := an_suggest s; an_selectors := an_selectors s; an_subqueries := subqueries; an_stack := an_stack s; an_grouping := an_grouping s;
     an_depth := an_depth s; an_value := an_value s; an_last := an_last s |}.

Definition inLabelContext (s : scan) : bool :=
  if 0 <? an_depth s then true
  else match an_stack s with top :: _ => ob_labelCtx top | [] => false end.

(** [next] is the byte that ends the word, [None] for 0. *)
Definition flushIdent (next : option ascii) (s : scan) : scan :=
  if String.eqb (an_last s) "" then s
  else
    let name := an_last s in
    if Contains promQLGrouping name then place_at (an_stack s) true (an_depth s) (an_value s) "" s
    else if Contains promQLKeywords name then place_at (an_stack s) (an_grouping s) (an_depth s) (an_value s) "" s
    else if Contains promQLAggregations name
    then found (an_metrics s) (an_funcs s) ({[name]} ∪ an_aggs s) (an_labels s) (an_suggest s) (an_selectors s) s
    else if from_option (Ascii.eqb "(") false next then
      found (an_metrics s) ({[name]} ∪ an_funcs s) (an_aggs s) (an_labels s)
        (if Contains promQLFunctions name then an_suggest s else an_suggest s ++ [UnknownFunction name])%list (an_selectors s) s
    else if inLabelContext s
    then found (an_metrics s) (an_funcs s) (an_aggs s) ({[name]} ∪ an_labels s) (an_suggest s) (an_selectors s) s
    else found ({[name]} ∪ an_metrics s) (an_funcs s) (an_aggs s) (an_labels s) (an_suggest s) (an_selectors s + 1) s.

Inductive stepped := Faulty (pos : Z) (f : Fault) (s : scan) | Advance (n : nat) (s : scan).

(** The loop over the parts of a window. *)
Fixpoint windows_loop (pos : Z) (parts : list string) (s : scan) : result (Fault * scan) scan :=
  match parts with
  | [] => Ok s
  | part :: parts =>
    let part := TrimSpace part in
    if String.eqb part "" then windows_loop pos parts s
    else if negb (validDuration part) then Err (BadDuration pos part, s)
    else windows_loop pos parts (windowed (an_windows s ++ [part])%list (an_subqueries s) s)
  end.

(** One turn of the loop at byte [i] of the expression, where [ch] and [rest] are. *)
Definition scan_step (i : Z) (ch : ascii) (rest : string) (s : scan) : stepped :=
  if Ascii.eqb ch "#" then Advance (span_len (λ c, negb (Ascii.eqb c newline)) (String ch rest)) s
  else if Ascii.eqb ch dquote || Ascii.eqb ch "'" || Ascii.eqb ch "`" then
    let s := flushIdent (Some ch) s in
    match scanString ch rest with
    | None => Faulty (i + 1) (Unterminated (i + 1)) s
    | Some n => Advance (S n) (place_at (an_stack s) (an_grouping s) (an_depth s) (if (0 <? an_depth s) && an_value s then false else an_value s) (an_last s) s)
    end
  else if isSpaceByte ch then Advance 1 s
  else if Ascii.eqb ch "(" || Ascii.eqb ch "[" || Ascii.eqb ch "{" then
    let s := flushIdent (Some ch) s in
    let s := if Ascii.eqb ch "{" then place_at (an_stack s) (an_grouping s) (an_depth s + 1) (an_value s) (an_last s) s else s in
    if Ascii.eqb ch "[" then
      match IndexByte (String ch rest) "]" with
      | None => Faulty (i + 1) (UnclosedRange (i + 1)) s
      | Some e =>
        let body := str_take (e - 1) rest in
        let s := if str_Contains body ":" then windowed (an_windows s) (an_subqueries s + 1) s else s in
        match windows_loop (i + 2) (SplitByte body ":") s with
        | Err (f, s) => Faulty (i + 2) f s
        | Ok s => Advance (e + 1) s
        end
      end
    else Advance 1 (place_at ({| ob_ch := ch; ob_pos := i + 1; ob_labelCtx := an_grouping s |} :: an_stack s) false (an_depth s) (an_value s) (an_last s) s)
  else if Ascii.eqb ch ")" || Ascii.eqb ch "}" then
    let s := flushIdent (Some ch) s in
    let want := if Ascii.eqb ch "}" then "{"%char else "("%char in
    let s := if Ascii.eqb ch "}" then place_at (an_stack s) (an_grouping s) (an_depth s - 1) false (an_last s) s else s in
    match an_stack s with
    | [] => Faulty (i + 1) (Unexpected (i + 1) ch) s
    | top :: stack =>
      if negb (Ascii.eqb (ob_ch top) want) then Faulty (i + 1) (Mismatch (i + 1) ch (ob_ch top) (ob_pos top)) s
      else Advance 1 (place_at stack (an_grouping s) (an_depth s) (an_value s) (an_last s) s)
    end
  else if Ascii.eqb ch "]" then Faulty (i + 1) (UnexpectedClose (i + 1)) s
  else if isIdentStart ch then
    let n := span_len isIdentPart (String ch rest) in
    let word := str_take n (String ch rest) in
    if an_value s then Faulty (i + 1) (Unquoted (i + 1) word) s
    else
      let s := flushIdent None s in
      Advance n (place_at (an_stack s) (an_grouping s) (an_depth s) (an_value s) word s)
  else if (0 <? an_depth s) && (Ascii.eqb ch "=" || Ascii.eqb ch "!") then
    let s := flushIdent (Some ch) s in
    let j := match rest with String c _ => if Ascii.eqb c "=" || Ascii.eqb c "~" then 2%nat else 1%nat | EmptyString => 1%nat end in
    Advance (j + span_len isSpaceByte (str_drop j (String ch rest))) (place_at (an_stack s) (an_grouping s) (an_depth s) true (an_last s) s)
  else
    let s := flushIdent (Some ch) s in
    Advance 1 (if Ascii.eqb ch "," then place_at (an_stack s) (an_grouping s) (an_depth s) false (an_last s) s else s).

(** * The analysis *)

Record promQLAnalysis := {
  pq_Valid : bool;
  pq_Message : option Fault;
  pq_Position : Z;
  pq_Metrics : list string;
  pq_Functions : list string;
  pq_Aggregations : list string;
  pq_RangeWindows : list string;
  pq_Labels : list string;
  pq_Selectors : Z;
  pq_Subqueries : Z;
  pq_Suggestions : list Advice
}.

Definition sortedKeys (m : gset string) : list string := merge_sort String.le (elements m).

Definition counterAdvice (metrics funcs : list string) : list Advice :=
  let rated := Contains funcs "rate" || Contains funcs "irate" || Contains funcs "increase" || Contains funcs "delta" || Contains funcs "idelta" in
  if rated then []
  else m ← metrics; suf ← counterSuffixes; if HasSuffix m suf && String.eqb suf "_total" then [RawCounter m] else [].

(** [fail] gives what was found so far; without a fault the advice on counters is
added. *)
Definition analysis (fault : option (Z * Fault)) (s : scan) : promQLAnalysis :=
  let metrics := sortedKeys (an_metrics s) in
  let funcs := sortedKeys (an_funcs s) in
  {| pq_Valid := match fault with None => true | Some _ => false end; pq_Message := snd <$> fault; pq_Position := from_option fst 0 fault;
     pq_Metrics := metrics; pq_Functions := funcs; pq_Aggregations := sortedKeys (an_aggs s); pq_RangeWindows := an_windows s;
     pq_Labels := sortedKeys (an_labels s); pq_Selectors := an_selectors s; pq_Subqueries := an_subqueries s;
     pq_Suggestions := match fault with None => an_suggest s ++ counterAdvice metrics funcs | Some _ => an_suggest s end |}.

Fixpoint scan_loop (fuel : nat) (i : Z) (q : string) (s : scan) : option (Z * Fault) * scan :=
  match fuel, q with
  | S fuel, String ch rest =>
    match scan_step i ch rest s with
    | Faulty pos f s => (Some (pos, f), s)
    | Advance n s => scan_loop fuel (i + Z.of_nat n) (str_drop n q) s
    end
  | _, _ => (None, s)
  end.

Definition analyzePromQL (q : string) : promQLAnalysis :=
  match scan_loop (String.length q) 0 q scan0 with
  | (Some fault, s) => analysis (Some fault) s
  | (None, s) =>
    let s := flushIdent None s in
    match an_stack s with
    | top :: _ => analysis (Some (ob_pos top, Unclosed (ob_pos top) (ob_ch top))) s
    | [] => if negb (ValidString q) then analysis (Some (1, NotUTF8)) s else analysis None s
    end
  end.

(** The caret line a fault is shown with, [strings.Repeat] of a count that must
not be negative. *)
Definition caret_col (q : string) (a : promQLAnalysis) : Z := Z.min (pq_Position a) (Z.of_nat (String.length q) + 1).

Example analyses :
  let a := analyzePromQL "sum by (job) (rate(http_total{code=~'5..'}[5m:1m]))" in
  pq_Valid a = true ∧ pq_Metrics a = ["http_total"] ∧ pq_Functions a = ["rate"] ∧ pq_Aggregations a = ["sum"]
  ∧ pq_Labels a = ["code"; "job"] ∧ pq_RangeWindows a = ["5m"; "1m"] ∧ pq_Subqueries a = 1 ∧ pq_Suggestions a = [].
Proof. vm_compute. repeat split; reflexivity. Qed.

Example faults :
  map (λ q, (pq_Valid (analyzePromQL q), pq_Message (analyzePromQL q)))
    ["sum(up"; "up{job=api}"; "up{job='api'"; "rate(up[5x])"; "up)"; "(up}"; "up{job='x}"; "rate(up[5m"]
  = [(false, Some (Unclosed 4 "(")); (false, Some (Unquoted 8 "api")); (false, Some (Unclosed 3 "{")); (false, Some (BadDuration 9 "5x"));
     (false, Some (Unexpected 3 ")")); (false, Some (Mismatch 4 "}" "(" 1)); (false, Some (Unterminated 8)); (false, Some (UnclosedRange 8))].
Proof. vm_compute. reflexivity. Qed.

(** * What is accepted

The specification: the tokens of the expression, its brackets properly nested,
and in every matcher a string where a value is due. *)

Inductive tok := TOpen (c : ascii) | TClose (c : ascii) | TWord | TString | TOp | TComma | TOther.

#[export] Instance tok_eq_dec : EqDecision tok.
Proof. solve_decision. Defined.

Definition part_ok (part : string) : bool := String.eqb (TrimSpace part) "" || validDuration (TrimSpace part).
Definition window_ok (body : string) : bool := forallb part_ok (SplitByte body ":").

(** The token at the front, and its length. *)
Definition lex_step (ch : ascii) (rest : string) : option (nat * list tok) :=
  if Ascii.eqb ch "#" then Some (span_len (λ c, negb (Ascii.eqb c newline)) (String ch rest), [])
  else if Ascii.eqb ch dquote || Ascii.eqb ch "'" || Ascii.eqb ch "`" then n ← scanString ch rest; Some (S n, [TString])
  else if isSpaceByte ch then Some (1%nat, [])
  else if Ascii.eqb ch "[" then e ← IndexByte rest "]"; if window_ok (str_take e rest) then Some ((e + 2)%nat, [TOther]) else None
  else if Ascii.eqb ch "(" || Ascii.eqb ch "{" then Some (1%nat, [TOpen ch])
  else if Ascii.eqb ch ")" || Ascii.eqb ch "}" then Some (1%nat, [TClose ch])
  else if Ascii.eqb ch "]" then None
  else if isIdentStart ch then Some (span_len isIdentPart (String ch rest), [TWord])
  else if Ascii.eqb ch "=" || Ascii.eqb ch "!" then Some (1%nat, [TOp])
  else Some (1%nat, [if Ascii.eqb ch "," then TComma else TOther]).

Fixpoint lex_loop (fuel : nat) (q : string) : option (list tok) :=
  match fuel, q with
  | S fuel, String ch rest => '(n, ts) ← lex_step ch rest; app ts <$> lex_loop fuel (str_drop n q)
  | _, _ => Some []
  end.
Definition lex (q : string) : option (list tok) := lex_loop (String.length q) q.

Definition opener (c : ascii) : ascii := if Ascii.eqb c "}" then "{" else "(".

Definition leaf (t : tok) : bool := match t with TOpen _ | TClose _ => false | _ => true end.

Inductive nested : list tok → Prop :=
| nested_nil : nested []
| nested_leaf t ts : leaf t = true → nested ts → nested (t :: ts)
| nested_pair c ts1 ts2 : nested ts1 → nested ts2 → nested (TOpen (opener c) :: ts1 ++ TClose c :: ts2).

Definition count (t : tok) (ts : list tok) : Z := Z.of_nat (length (filter (λ u, u = t) ts)).

(** The tokens end between braces. *)
Definition inside (ts : list tok) : bool := count (TClose "}") ts <? count (TOpen "{") ts.

Definition settles (t : tok) : Prop := t = TString ∨ t = TComma ∨ t = TClose "}".

(** After an operator between braces no word comes before a string, a comma or
the closing brace. *)
Definition quoted (ts : list tok) : Prop :=
  ∀ a b c, ts = (a ++ TOp :: b ++ TWord :: c)%list → inside a = true → Exists settles b.

(** ** The stack *)

(** The bracket stack and [expectMatcherValue], on tokens. *)
Definition in_brace (stack : list ascii) : bool := existsb (Ascii.eqb "{") stack.

Definition tok_step (t : tok) (st : list ascii * bool) : option (list ascii * bool) :=
  let '(stack, v) := st in
  match t with
  | TOpen c => Some (c :: stack, v)
  | TClose c =>
    match stack with
    | top :: stack => if Ascii.eqb top (opener c) then Some (stack, if Ascii.eqb c "}" then false else v) else None
    | [] => None
    end
  | TWord => if v then None else Some st
  | TString => Some (stack, if in_brace stack && v then false else v)
  | TOp => Some (stack, if in_brace stack then true else v)
  | TComma => Some (stack, false)
  | TOther => Some st
  end.

Fixpoint tok_run (ts : list tok) (st : list ascii * bool) : option (list ascii * bool) :=
  match ts with [] => Some st | t :: ts => st ← tok_step t st; tok_run ts st end.

Lemma tok_run_app ts us st : tok_run (ts ++ us) st = tok_run ts st ≫= tok_run us.
Proof. revert st. induction ts as [|t ts IH]; intros st; [done|]. cbn [app tok_run]. destruct (tok_step t st); [apply IH|done]. Qed.

(** The stack alone. *)
Definition stk_step (t : tok) (stack : list ascii) : option (list ascii) :=
  match t with
  | TOpen c => Some (c :: stack)
  | TClose c => match stack with top :: stack => if Ascii.eqb top (opener c) then Some stack else None | [] => None end
  | _ => Some stack
  end.
Fixpoint stk_run (ts : list tok) (stack : list ascii) : option (list ascii) :=
  match ts with [] => Some stack | t :: ts => stack ← stk_step t stack; stk_run ts stack end.

Lemma stk_run_app ts us st : stk_run (ts ++ us) st = stk_run ts st ≫= stk_run us.
Proof. revert st. induction ts as [|t ts IH]; intros st; [done|]. cbn [app stk_run]. destruct (stk_step t st); [apply IH|done]. Qed.

Lemma nested_stk ts : nested ts → ∀ st, stk_run ts st = Some st.
Proof.
  induction 1 as [|t ts Hl _ IH|c ts1 ts2 _ IH1 _ IH2]; intros st; [done| |].
  - cbn [stk_run]. destruct t; try done; cbn [stk_step mbind option_bind]; apply IH.
  - cbn [stk_run stk_step mbind option_bind]. rewrite stk_run_app, IH1. cbn [mbind option_bind stk_run stk_step].
    rewrite Ascii.eqb_refl. cbn [mbind option_bind]. apply IH2.
Qed.

(** Tokens that close a stack: nested up to each of its brackets in turn. *)
Fixpoint closes (stack : list ascii) (ts : list tok) : Prop :=
  match stack with
  | [] => nested ts
  | o :: stack => ∃ a c b, ts = (a ++ TClose c :: b)%list ∧ nested a ∧ o = opener c ∧ closes stack b
  end.

Lemma closes_leaf t stack ts : leaf t = true → closes stack ts → closes stack (t :: ts).
Proof. intros Hl. destruct stack as [|o stack]; [by apply nested_leaf|]. intros (a & c & b & -> & Ha & Ho & Hb). exists (t :: a), c, b. split_and!; [done|by apply nested_leaf|done..]. Qed.

Lemma stk_closes ts : ∀ stack, stk_run ts stack = Some [] → closes stack ts.
Proof.
  induction ts as [|t ts IH]; intros stack Hr.
  - injection Hr as ->. apply nested_nil.
  - cbn [stk_run] in Hr. destruct (leaf t) eqn:Hl; [apply closes_leaf; [done|]; apply IH; by destruct t|].
    destruct t as [c|c| | | | |]; try done; cbn [stk_step mbind option_bind] in Hr.
    + apply IH in Hr as (a & c' & b & -> & Ha & -> & Hb). destruct stack as [|o stack]; [by apply nested_pair|].
      destruct Hb as (a' & c2 & b' & -> & Ha' & Ho & Hb'). exists (TOpen (opener c') :: a ++ TClose c' :: a')%list, c2, b'.
      split_and!; [simpl; by rewrite <- app_assoc|by apply nested_pair|done..].
    + destruct stack as [|top stack]; [done|]. destruct (Ascii.eqb_spec top (opener c)) as [->|]; [|done]. cbn [mbind option_bind] in Hr.
      exists [], c, ts. split_and!; [done|apply nested_nil|done|by apply IH].
Qed.

Lemma stk_nested ts : stk_run ts [] = Some [] ↔ nested ts.
Proof. split; [apply stk_closes|intros; by apply nested_stk]. Qed.

(** ** The flag *)

Lemma count_app t a b : count t (a ++ b) = count t a + count t b.
Proof. unfold count. rewrite filter_app, length_app. lia. Qed.
Lemma count_one t u : count t [u] = if decide (u = t) then 1 else 0.
Proof. unfold count. rewrite filter_cons, filter_nil. by destruct (decide (u = t)). Qed.
Lemma count_nonneg t a : 0 ≤ count t a.
Proof. unfold count. lia. Qed.

Lemma eq_bool_iff (b c : bool) : (b = true ↔ c = true) → b = c.
Proof. destruct b, c; naive_solver. Qed.

(** The braces open on the stack. *)
Definition braces (stack : list ascii) : Z := Z.of_nat (length (filter (λ c, c = "{"%char) stack)).

Lemma in_brace_spec stack : in_brace stack = (0 <? braces stack).
Proof.
  unfold in_brace, braces. induction stack as [|c stack IH]; [done|]. cbn [existsb]. rewrite filter_cons, IH.
  destruct (Ascii.eqb_spec "{" c) as [<-|Hne]; [by rewrite decide_True|by rewrite decide_False].
Qed.

Lemma opener_brace c : opener c = "{"%char → c = "}"%char.
Proof. unfold opener. by destruct (Ascii.eqb_spec c "}"). Qed.

(** A run's stack counts the braces of its tokens. *)
Lemma braces_run ts : ∀ stack stack', stk_run ts stack = Some stack' →
  braces stack' = braces stack + count (TOpen "{") ts - count (TClose "}") ts.
Proof.
  induction ts as [|t ts IH]; intros stack stack' Hr; [injection Hr as ->; unfold count; simpl; lia|].
  cbn [stk_run] in Hr. destruct (stk_step t stack) as [s1|] eqn:Hs; [|done]. apply IH in Hr. rewrite Hr.
  change (t :: ts) with ([t] ++ ts)%list. rewrite !count_app, !count_one.
  assert (braces s1 = braces stack + (if decide (t = TOpen "{") then 1 else 0) - (if decide (t = TClose "}") then 1 else 0)); [|lia].
  destruct t as [c|c| | | | |]; cbn [stk_step] in Hs; try (injection Hs as <-; rewrite !decide_False by done; lia).
  - injection Hs as <-. unfold braces. rewrite filter_cons. rewrite (decide_False (P := TOpen c = TClose "}")) by done.
    destruct (decide (c = "{"%char)) as [->|]; [rewrite decide_True by done; simpl; lia|]. rewrite decide_False by congruence. lia.
  - destruct stack as [|top stack]; [done|]. destruct (Ascii.eqb_spec top (opener c)) as [->|]; [|done]. injection Hs as <-.
    rewrite (decide_False (P := TClose c = TOpen "{")) by done. unfold braces. rewrite filter_cons.
    destruct (decide (c = "}"%char)) as [->|Hc]; [rewrite !decide_True by done; simpl; lia|].
    rewrite (decide_False (P := TClose c = TClose "}")) by congruence. rewrite decide_False by (by intros ?%opener_brace). lia.
Qed.

(** The flag is up when an operator between braces is still without a value. *)
Definition pending (ts : list tok) : Prop :=
  ∃ a b, ts = (a ++ TOp :: b)%list ∧ inside a = true ∧ ¬ Exists settles b.

Lemma inside_braces ts stack : stk_run ts [] = Some stack → inside ts = in_brace stack.
Proof.
  intros Hr. apply braces_run in Hr. change (braces []) with 0 in Hr. rewrite in_brace_spec, Hr. unfold inside. apply eq_bool_iff. rewrite !Z.ltb_lt. lia.
Qed.

Lemma pending_inside ts : pending ts → inside ts = true.
Proof.
  intros (a & b & -> & Ha & Hb). unfold inside in *. apply Z.ltb_lt in Ha. apply Z.ltb_lt. change (a ++ TOp :: b)%list with (a ++ [TOp] ++ b)%list.
  rewrite !count_app, !count_one. rewrite !decide_False by done. pose proof (count_nonneg (TOpen "{") b).
  assert (count (TClose "}") b = 0); [|lia]. unfold count. destruct (filter (λ u, u = TClose "}") b) as [|t l] eqn:Hf; [done|]. exfalso. apply Hb.
  apply Exists_exists. exists (TClose "}"). split; [|by right; right].
  assert (t ∈ filter (λ u, u = TClose "}") b) as [-> Ht]%list_elem_of_filter by (rewrite Hf; apply list_elem_of_here). done.
Qed.

Lemma pending_snoc ts t : pending (ts ++ [t]) ↔ (¬ settles t ∧ pending ts) ∨ (t = TOp ∧ inside ts = true).
Proof.
  split.
  - intros (a & b & He & Ha & Hb). destruct b as [|u b _] using rev_ind.
    + apply app_inj_tail in He as [-> ->]. by right.
    + rewrite app_comm_cons, app_assoc in He. apply app_inj_tail in He as [-> ->]. left. rewrite Exists_app in Hb. split.
      * intros Ht. apply Hb. right. by apply Exists_cons_hd.
      * exists a, b. split_and!; [done|done|]. intros H. apply Hb. by left.
  - intros [[Ht (a & b & -> & Ha & Hb)]|[-> Hi]].
    + exists a, (b ++ [t])%list. split_and!; [by rewrite <- app_assoc|done|]. rewrite Exists_app, Exists_cons, Exists_nil. tauto.
    + exists ts, []. split_and!; [done|done|by intros ?%Exists_nil].
Qed.

Lemma pending_em ts : pending ts ∨ ¬ pending ts.
Proof.
  induction ts as [|t ts IH] using rev_ind; [right; by intros ([] & b & ? & _)|]. rewrite pending_snoc. unfold settles.
  destruct (decide (t = TString ∨ t = TComma ∨ t = TClose "}")), (decide (t = TOp)), (inside ts); naive_solver.
Qed.


(** A run of the tokens: the stack run, the flag as specified, and no word met
while it is up. *)
Lemma tok_run_spec ts stack v : tok_run ts ([], false) = Some (stack, v) ↔
  stk_run ts [] = Some stack ∧ (v = true ↔ pending ts) ∧ (∀ a c, ts = (a ++ TWord :: c)%list → ¬ pending a).
Proof.
  revert stack v. induction ts as [|t ts IH] using rev_ind; intros stack v.
  - simpl. split.
    + intros [= <- <-]. split_and!; [done| |by intros [] ?]. split; [done|]. by intros ([] & b & ? & _).
    + intros ([= <-] & Hv & _). do 2 f_equal. destruct v; [|done]. destruct Hv as [Hv _]. by destruct (Hv eq_refl) as ([] & b & ? & _).
  - rewrite tok_run_app, stk_run_app. cbn [tok_run stk_run].
    assert ((∀ a c, (ts ++ [t] = a ++ TWord :: c)%list → ¬ pending a) ↔ (∀ a c, (ts = a ++ TWord :: c)%list → ¬ pending a) ∧ (t = TWord → ¬ pending ts)) as Hw.
    { split.
      - intros H. split; [intros a c ->; apply (H a (c ++ [t])%list); by rewrite <- app_assoc|]. intros ->. by apply (H ts []).
      - intros [H1 H2] a c He. destruct c as [|u c _] using rev_ind; [apply app_inj_tail in He as [-> ->]; by apply H2|].
        rewrite app_comm_cons, app_assoc in He. apply app_inj_tail in He as [-> ->]. by eapply H1. }
    rewrite Hw, pending_snoc. split.
    + destruct (tok_run ts ([], false)) as [[s1 v1]|] eqn:Hr; [|done]. cbn [mbind option_bind].
      destruct (proj1 (IH s1 v1) eq_refl) as (Hs & Hv & Hn). rewrite Hs. cbn [mbind option_bind].
      destruct (tok_step t (s1, v1)) as [[s2 v2]|] eqn:Ht; [|done]. cbn [mbind option_bind]. intros [= <- <-].
      pose proof (inside_braces _ _ Hs) as Hin. pose proof (pending_inside ts) as Hpi.
      unfold settles. destruct t as [c|c| | | | |]; cbn [tok_step stk_step] in *.
      * injection Ht as <- <-. cbn [mbind option_bind]. split_and!; [done|naive_solver|done|done].
      * destruct s1 as [|top s1]; [done|]. destruct (Ascii.eqb top (opener c)); [|done]. injection Ht as <- <-. cbn [mbind option_bind].
        split_and!; [done| |done|done]. destruct (Ascii.eqb_spec c "}") as [->|]; [naive_solver|]. split; [intros; left; split; [naive_solver|by apply Hv]|naive_solver].
      * destruct v1; [done|]. injection Ht as <- <-. cbn [mbind option_bind]. split_and!; [done|naive_solver|done|]. intros _ Hp. by apply Hv in Hp.
      * injection Ht as <- <-. cbn [mbind option_bind]. split_and!; [done| |done|done]. destruct v1; [|rewrite andb_false_r; naive_solver].
        rewrite <- Hin, Hpi by (by apply Hv). naive_solver.
      * injection Ht as <- <-. cbn [mbind option_bind]. split_and!; [done| |done|done]. rewrite <- Hin. destruct (inside ts); [naive_solver|].
        split; [intros Hv1%Hv; by apply Hpi in Hv1|intros [[_ Hp]|[_ ?]]; [by apply Hpi in Hp|done]].
      * injection Ht as <- <-. cbn [mbind option_bind]. split_and!; [done|naive_solver|done|done].
      * injection Ht as <- <-. cbn [mbind option_bind]. split_and!; [done|naive_solver|done|done].
    + intros (Hs & Hv & Hn & Hword). destruct (stk_run ts []) as [s1|] eqn:Hr; [|done]. cbn [mbind option_bind] in Hs.
      assert (∃ v1 : bool, v1 = true ↔ pending ts) as [v1 Hv1] by (destruct (pending_em ts); [by exists true|by exists false]).
      assert (tok_run ts ([], false) = Some (s1, v1)) as -> by (by apply IH). cbn [mbind option_bind].
      pose proof (inside_braces _ _ Hr) as Hin. pose proof (pending_inside ts) as Hpi.
      unfold settles in Hv. destruct t as [c|c| | | | |]; cbn [tok_step stk_step] in *.
      * cbn [mbind option_bind] in Hs |- *. injection Hs as <-. do 2 f_equal. apply eq_bool_iff. naive_solver.
      * destruct s1 as [|top s1]; [done|]. destruct (Ascii.eqb top (opener c)); [|done]. cbn [mbind option_bind] in Hs |- *. injection Hs as <-. do 2 f_equal.
        apply eq_bool_iff. destruct (Ascii.eqb_spec c "}") as [->|]; naive_solver.
      * destruct v1; [exfalso; apply Hword; [done|by apply Hv1]|]. cbn [mbind option_bind] in Hs |- *. injection Hs as <-. do 2 f_equal. apply eq_bool_iff. naive_solver.
      * cbn [mbind option_bind] in Hs |- *. injection Hs as <-. do 2 f_equal. apply eq_bool_iff. rewrite <- Hin. destruct v1; [rewrite Hpi by (by apply Hv1)|rewrite andb_false_r]; naive_solver.
      * cbn [mbind option_bind] in Hs |- *. injection Hs as <-. do 2 f_equal. apply eq_bool_iff. rewrite <- Hin. destruct (inside ts); naive_solver.
      * cbn [mbind option_bind] in Hs |- *. injection Hs as <-. do 2 f_equal. apply eq_bool_iff. naive_solver.
      * cbn [mbind option_bind] in Hs |- *. injection Hs as <-. do 2 f_equal. apply eq_bool_iff. naive_solver.
Qed.

Lemma quoted_spec ts : quoted ts ↔ (∀ a c, ts = (a ++ TWord :: c)%list → ¬ pending a).
Proof.
  split.
  - intros Hq a c -> (a' & b & -> & Hi & Hb). apply Hb. apply (Hq a' b c); [by rewrite <- app_assoc|done].
  - intros H a b c -> Hi. assert (Exists settles b ∨ ¬ Exists settles b) as [|Hn].
    { clear. induction b as [|t b IH]; [right; by intros ?%Exists_nil|]. rewrite Exists_cons. unfold settles at 1 3.
      destruct (decide (t = TString ∨ t = TComma ∨ t = TClose "}")); tauto. }
    + done.
    + exfalso. apply (H (a ++ TOp :: b)%list c); [by rewrite <- app_assoc|]. by exists a, b.
Qed.

Lemma tok_run_accepts ts : (∃ v, tok_run ts ([], false) = Some ([], v)) ↔ nested ts ∧ quoted ts.
Proof.
  rewrite quoted_spec, <- stk_nested. split.
  - intros [v H]. apply tok_run_spec in H. naive_solver.
  - intros [H1 H2]. destruct (pending_em ts); [exists true|exists false]; apply tok_run_spec; naive_solver.
Qed.

(** ** The scanner on tokens *)

Definition abs (s : scan) : list ascii * bool := (ob_ch <$> an_stack s, an_value s).
Definition depth_ok (s : scan) : Prop := an_depth s = braces (ob_ch <$> an_stack s).

(** What a step may change without the tokens noticing. *)
Definition alike (s t : scan) : Prop := an_stack t = an_stack s ∧ an_depth t = an_depth s ∧ an_value t = an_value s.

Lemma flush_alike next s : alike s (flushIdent next s).
Proof. unfold flushIdent. by repeat (case_match; [done|]). Qed.

Lemma windows_loop_spec pos parts s :
  match windows_loop pos parts s with
  | Ok s' => forallb part_ok parts = true ∧ alike s s'
  | Err _ => forallb part_ok parts = false
  end.
Proof.
  revert s. induction parts as [|part parts IH]; intros s; [done|]. cbn [windows_loop forallb]. unfold part_ok at 1 3.
  destruct (String.eqb (TrimSpace part) ""); [apply IH|]. destruct (validDuration (TrimSpace part)); [|done]. cbn [negb orb].
  specialize (IH (windowed (an_windows s ++ [TrimSpace part]) (an_subqueries s) s)). by destruct (windows_loop _ _ _).
Qed.

Lemma span_len_pos f c s : f c = true → (1 ≤ span_len f (String c s))%nat.
Proof. intros H. cbn [span_len]. rewrite H. lia. Qed.

Lemma IndexByte_length s c e : IndexByte s c = Some e → (e < String.length s)%nat.
Proof.
  revert e. induction s as [|d s IH]; intros e; [done|]. cbn [IndexByte]. destruct (Ascii.eqb d c); [intros [= <-]; simpl; lia|].
  destruct (IndexByte s c) as [n|]; [|done]. intros [= <-]. specialize (IH _ eq_refl). simpl. lia.
Qed.

Definition op_here (ch : ascii) (s : scan) : bool := (0 <? an_depth s) && (Ascii.eqb ch "=" || Ascii.eqb ch "!").

Lemma scan_step_sim i ch rest s : depth_ok s → op_here ch s = false →
  match scan_step i ch rest s with
  | Faulty pos _ _ => (∀ n ts, lex_step ch rest = Some (n, ts) → tok_run ts (abs s) = None) ∧ i + 1 ≤ pos ≤ i + 1 + Z.of_nat (String.length rest)
  | Advance n s' => (∃ ts, lex_step ch rest = Some (n, ts) ∧ tok_run ts (abs s) = Some (abs s')) ∧ depth_ok s' ∧ (1 ≤ n)%nat
      ∧ Forall (λ b, b ∈ an_stack s ∨ ob_pos b = i + 1) (an_stack s')
  end.
Proof.
  assert (∀ s s' : scan, an_stack s' = an_stack s → Forall (λ b, b ∈ an_stack s ∨ ob_pos b = i + 1) (an_stack s')) as Hkeep
    by (intros ? ? ->; apply Forall_forall; by left).
  intros Hd Hop. unfold scan_step, lex_step. pose proof (flush_alike (Some ch) s) as (F1 & F2 & F3). set (s1 := flushIdent (Some ch) s) in *. clearbody s1.
  destruct (Ascii.eqb_spec ch "#") as [->|].
  { split_and!; [by eexists|done|by apply span_len_pos|by apply Hkeep]. }
  destruct (Ascii.eqb ch dquote || Ascii.eqb ch "'" || Ascii.eqb ch "`").
  { destruct (scanString ch rest) as [k|]; [|split; [done|lia]]. cbn [mbind option_bind]. split_and!; [|unfold depth_ok; simpl; by rewrite F1, F2|lia|by apply Hkeep].
    eexists. split; [done|]. unfold abs. simpl. rewrite F1, F2, F3, Hd, in_brace_spec. done. }
  destruct (isSpaceByte ch); [split_and!; [by eexists|done|lia|by apply Hkeep]|].
  destruct (Ascii.eqb_spec ch "[") as [->|].
  { cbn [Ascii.eqb orb Bool.eqb IndexByte]. destruct (IndexByte rest "]") as [e|] eqn:He; cbn [fmap option_fmap option_map mbind option_bind]; [|split; [done|lia]].
    apply IndexByte_length in He. replace (S e - 1)%nat with e by lia. unfold window_ok.
    set (s2 := if str_Contains _ _ then _ else s1).
    assert (alike s s2) as (G1 & G2 & G3) by (unfold s2; by destruct (str_Contains _ _)). clearbody s2.
    pose proof (windows_loop_spec (i + 2) (SplitByte (str_take e rest) ":") s2) as Hw. destruct (windows_loop _ _ _) as [s3|[f s3]].
    - destruct Hw as [-> (W1 & W2 & W3)]. split_and!; [|unfold depth_ok; by rewrite W1, W2, G1, G2|lia|apply Hkeep; congruence].
      eexists. split; [f_equal; f_equal; lia|]. unfold abs. simpl. by rewrite W1, W3, G1, G3.
    - rewrite Hw. split; [done|lia]. }
  destruct (Ascii.eqb_spec ch "(") as [->|]; [|destruct (Ascii.eqb_spec ch "{") as [->|]]; cbn [Ascii.eqb orb Bool.eqb].
  { split_and!; [|unfold depth_ok in *; simpl; rewrite F1, F2, Hd; done|lia|].
    - eexists. split; [done|]. unfold abs. simpl. by rewrite F1, F3.
    - simpl. rewrite F1. constructor; [by right|by apply Hkeep]. }
  { split_and!; [|unfold depth_ok in *; cbn [place_at an_depth an_stack fmap list_fmap ob_ch]; rewrite F1, F2, Hd; unfold braces; rewrite filter_cons, decide_True by done; cbn [length]; lia|lia|].
    - eexists. split; [done|]. unfold abs. simpl. by rewrite F1, F3.
    - simpl. rewrite F1. constructor; [by right|by apply Hkeep]. }
  destruct (Ascii.eqb_spec ch ")") as [->|]; [|destruct (Ascii.eqb_spec ch "}") as [->|]]; cbn [Ascii.eqb orb Bool.eqb].
  { rewrite F1. destruct (an_stack s) as [|top stack] eqn:Hst.
    - split; [|lia]. intros n' ts [= <- <-]. unfold abs. by rewrite Hst.
    - destruct (Ascii.eqb_spec (ob_ch top) "(") as [Ht|Ht]; cbn [negb].
      + split_and!; [|unfold depth_ok in *; cbn [place_at an_depth an_stack]; rewrite F2, Hd, Hst; unfold braces; cbn [fmap list_fmap]; by rewrite filter_cons, Ht|lia|].
        * eexists. split; [done|]. unfold abs. rewrite Hst. cbn [fmap list_fmap tok_run tok_step place_at an_stack an_value]. rewrite Ht. simpl. by rewrite F3.
        * simpl. apply Forall_forall. intros b Hb. left. by apply list_elem_of_further.
      + split; [|lia]. intros n' ts [= <- <-]. unfold abs. rewrite Hst. cbn [fmap list_fmap tok_run tok_step].
        by destruct (Ascii.eqb_spec (ob_ch top) (opener ")")). }
  { cbn [place_at an_stack]. rewrite F1. destruct (an_stack s) as [|top stack] eqn:Hst.
    - split; [|lia]. intros n' ts [= <- <-]. unfold abs. by rewrite Hst.
    - destruct (Ascii.eqb_spec (ob_ch top) "{") as [Ht|Ht]; cbn [negb].
      + split_and!; [|unfold depth_ok in *; cbn [place_at an_depth an_stack]; rewrite F2, Hd, Hst; unfold braces; cbn [fmap list_fmap]; rewrite filter_cons, Ht, decide_True by done; cbn [length]; lia|lia|].
        * eexists. split; [done|]. unfold abs. rewrite Hst. cbn [fmap list_fmap tok_run tok_step place_at an_stack an_value]. by rewrite Ht.
        * simpl. apply Forall_forall. intros b Hb. left. by apply list_elem_of_further.
      + split; [|lia]. intros n' ts [= <- <-]. unfold abs. rewrite Hst. cbn [fmap list_fmap tok_run tok_step].
        by destruct (Ascii.eqb_spec (ob_ch top) (opener "}")). }
  destruct (Ascii.eqb ch "]"); [split; [done|lia]|].
  destruct (isIdentStart ch) eqn:Hid.
  { pose proof (flush_alike None s) as (N1 & N2 & N3). destruct (an_value s) eqn:Hv.
    - split; [|lia]. intros n' ts [= <- <-]. unfold abs. by rewrite Hv.
    - split_and!; [|unfold depth_ok in *; simpl; by rewrite N1, N2|apply span_len_pos; unfold isIdentPart; by rewrite Hid|simpl; rewrite N1; by apply Hkeep].
      eexists. split; [done|]. unfold abs. simpl. rewrite Hv. simpl. by rewrite N1, N3. }
  unfold op_here in Hop. rewrite Hop. destruct (Ascii.eqb ch "=" || Ascii.eqb ch "!") eqn:Ho.
  - rewrite andb_true_r in Hop. assert (Ascii.eqb ch "," = false) as -> by (by destruct (Ascii.eqb_spec ch ",") as [->|]).
    split_and!; [|unfold depth_ok in *; by rewrite F1, F2|lia|by apply Hkeep]. eexists. split; [done|]. unfold abs. simpl.
    unfold depth_ok in Hd. rewrite in_brace_spec, <- Hd, Hop, F1, F3. done.
  - destruct (Ascii.eqb_spec ch ",") as [->|].
    + split_and!; [|unfold depth_ok in *; simpl; by rewrite F1, F2|lia|by apply Hkeep]. eexists. split; [done|]. unfold abs. simpl. by rewrite F1.
    + split_and!; [|unfold depth_ok in *; simpl; by rewrite F1, F2|lia|by apply Hkeep]. eexists. split; [done|]. unfold abs. simpl. by rewrite F1, F3.
Qed.

Lemma str_drop_length n s : String.length (str_drop n s) = (String.length s - n)%nat.
Proof. revert s. induction n as [|n IH]; intros [|c s]; simpl; done. Qed.

(** An operator between braces: its second byte and the white space after it add
no more than another operator. *)
Lemma scan_step_op i ch rest s : op_here ch s = true → depth_ok s →
  scan_step i ch rest s
  = (let j := match rest with String c _ => if Ascii.eqb c "=" || Ascii.eqb c "~" then 2%nat else 1%nat | EmptyString => 1%nat end in
     let s := flushIdent (Some ch) s in
     Advance (j + span_len isSpaceByte (str_drop j (String ch rest))) (place_at (an_stack s) (an_grouping s) (an_depth s) true (an_last s) s)).
Proof.
  intros [Hd [->%Ascii.eqb_eq| ->%Ascii.eqb_eq]%orb_true_iff]%andb_true_iff _; unfold scan_step; rewrite Hd; reflexivity.
Qed.

Lemma lex_loop_fuel f1 f2 q : (String.length q ≤ f1)%nat → (String.length q ≤ f2)%nat → lex_loop f1 q = lex_loop f2 q.
Proof.
  assert (∀ ch rest n ts, lex_step ch rest = Some (n, ts) → (1 ≤ n)%nat) as Hpos.
  { intros ch rest n ts. unfold lex_step. destruct (Ascii.eqb_spec ch "#") as [->|]; [intros [= <- _]; simpl; lia|].
    destruct (_ || _ || _); [destruct (scanString ch rest); [intros [= <- _]; lia|done]|]. destruct (isSpaceByte ch); [intros [= <- _]; lia|].
    destruct (Ascii.eqb ch "["); [destruct (IndexByte rest "]"); [|done]; cbn [mbind option_bind]; destruct (window_ok _); [intros [= <- _]; lia|done]|].
    destruct (_ || _); [intros [= <- _]; lia|]. destruct (_ || _); [intros [= <- _]; lia|]. destruct (Ascii.eqb ch "]"); [done|].
    destruct (isIdentStart ch) eqn:Hi; [intros [= <- _]; apply span_len_pos; unfold isIdentPart; by rewrite Hi|].
    destruct (_ || _); intros [= <- _]; lia. }
  revert f2 q. induction f1 as [|f1 IH]; intros [|f2] [|ch rest] H1 H2; try done; simpl in H1, H2; try lia. cbn [lex_loop].
  destruct (lex_step ch rest) as [[n ts]|] eqn:Hs; [|done]. cbn [mbind option_bind]. apply Hpos in Hs.
  rewrite (IH f2); [done|..]; rewrite str_drop_length; simpl; lia.
Qed.

Lemma lex_cons ch rest : lex (String ch rest) = '(n, ts) ← lex_step ch rest; app ts <$> lex (str_drop n (String ch rest)).
Proof.
  unfold lex at 1. cbn [String.length lex_loop]. destruct (lex_step ch rest) as [[n ts]|] eqn:Hs; [|done]. cbn [mbind option_bind]. unfold lex.
  destruct n as [|n]; [|f_equal; apply lex_loop_fuel; rewrite ?str_drop_length; simpl; lia].
  exfalso. revert Hs. unfold lex_step. destruct (Ascii.eqb_spec ch "#") as [->|]; [done|].
  destruct (_ || _ || _); [by destruct (scanString ch rest)|]. destruct (isSpaceByte ch); [done|].
  destruct (Ascii.eqb ch "["); [destruct (IndexByte rest "]"); [|done]; cbn [mbind option_bind]; destruct (window_ok _); [intros [= ? _]; lia|done]|].
  destruct (_ || _); [done|]. destruct (_ || _); [done|]. destruct (Ascii.eqb ch "]"); [done|].
  destruct (isIdentStart ch) eqn:Hi; [|by destruct (_ || _)]. cbn [span_len]. unfold isIdentPart. rewrite Hi. done.
Qed.

Lemma space_lex ch rest : isSpaceByte ch = true → lex_step ch rest = Some (1%nat, []).
Proof.
  intros H. unfold lex_step. assert (Ascii.eqb ch "#" = false ∧ Ascii.eqb ch dquote || Ascii.eqb ch "'" || Ascii.eqb ch "`" = false) as [-> ->].
  { revert H. destruct ch as [[] [] [] [] [] [] [] []]; by vm_compute. }
  by rewrite H.
Qed.

Lemma lex_spaces s : lex (str_drop (span_len isSpaceByte s) s) = lex s.
Proof.
  induction s as [|c s IH]; [done|]. cbn [span_len]. destruct (isSpaceByte c) eqn:Hc; [|done]. cbn [str_drop].
  rewrite IH, lex_cons, space_lex by done. cbn [mbind option_bind str_drop]. by destruct (lex s).
Qed.

Lemma op_lex ch rest s : op_here ch s = true → lex_step ch rest = Some (1%nat, [TOp]).
Proof.
  unfold op_here. intros [_ [->%Ascii.eqb_eq| ->%Ascii.eqb_eq]%orb_true_iff]%andb_true_iff; done.
Qed.

(** The tokens of an operator between braces and of what goes with it. *)
Lemma op_tokens ch rest s : op_here ch s = true → depth_ok s →
  let j := match rest with String c _ => if Ascii.eqb c "=" || Ascii.eqb c "~" then 2%nat else 1%nat | EmptyString => 1%nat end in
  ∃ us, lex (String ch rest) = app us <$> lex (str_drop (j + span_len isSpaceByte (str_drop j (String ch rest))) (String ch rest))
    ∧ tok_run us (abs s) = Some (ob_ch <$> an_stack s, true).
Proof.
  intros Ho Hd j. assert (in_brace (ob_ch <$> an_stack s) = true) as Hin.
  { unfold op_here in Ho. apply andb_true_iff in Ho as [Ho _]. unfold depth_ok in Hd. by rewrite in_brace_spec, <- Hd. }
  assert (∀ n k (s : string), str_drop (n + k) s = str_drop k (str_drop n s)) as Hadd.
  { intros n. induction n as [|n IH]; intros k [|c t]; simpl; try done. by destruct k. }
  rewrite Hadd, lex_spaces, lex_cons, (op_lex _ _ _ Ho). cbn [mbind option_bind]. destruct rest as [|c rest]; unfold j.
  { exists [TOp]. split; [done|]. unfold abs. simpl. by rewrite Hin. }
  destruct (Ascii.eqb_spec c "=") as [->|]; [|destruct (Ascii.eqb_spec c "~") as [->|]]; cbn [orb str_drop].
  - exists [TOp; TOp]. rewrite lex_cons. change (lex_step "=" rest) with (Some (1%nat, [TOp])). cbn [mbind option_bind str_drop].
    split; [simpl; by destruct (lex rest)|]. unfold abs. simpl. by rewrite Hin.
  - exists [TOp; TOther]. rewrite lex_cons. change (lex_step "~" rest) with (Some (1%nat, [TOther])). cbn [mbind option_bind str_drop].
    split; [simpl; by destruct (lex rest)|]. unfold abs. simpl. by rewrite Hin.
  - exists [TOp]. split; [done|]. unfold abs. simpl. by rewrite Hin.
Qed.

(** ** The loop *)

Lemma scan_loop_sim fuel i q s total : (String.length q ≤ fuel)%nat → depth_ok s → 0 ≤ i → i + Z.of_nat (String.length q) = total ∨ q = "" →
  Forall (λ b, 1 ≤ ob_pos b ≤ total) (an_stack s) →
  match scan_loop fuel i q s with
  | (Some (pos, _), _) => (∀ ts, lex q = Some ts → tok_run ts (abs s) = None) ∧ 1 ≤ pos ≤ total
  | (None, s') => (∃ ts, lex q = Some ts ∧ tok_run ts (abs s) = Some (abs s')) ∧ Forall (λ b, 1 ≤ ob_pos b ≤ total) (an_stack s')
  end.
Proof.
  revert i q s. induction fuel as [|fuel IH]; intros i q s Hf Hd Hi Ht Hst.
  { destruct q; [|simpl in Hf; lia]. simpl. split; [by exists []|done]. }
  destruct q as [|ch rest]; [simpl; split; [by exists []|done]|]. destruct Ht as [Ht|]; [|done]. cbn [String.length] in Ht.
  assert (∀ n s', (1 ≤ n)%nat → depth_ok s' → Forall (λ b, 1 ≤ ob_pos b ≤ total) (an_stack s') →
    match scan_loop fuel (i + Z.of_nat n) (str_drop n (String ch rest)) s' with
    | (Some (pos, _), _) => (∀ ts, lex (str_drop n (String ch rest)) = Some ts → tok_run ts (abs s') = None) ∧ 1 ≤ pos ≤ total
    | (None, s2) => (∃ ts, lex (str_drop n (String ch rest)) = Some ts ∧ tok_run ts (abs s') = Some (abs s2)) ∧ Forall (λ b, 1 ≤ ob_pos b ≤ total) (an_stack s2)
    end) as Hnext.
  { intros n s' Hn Hd' Hst'. pose proof (str_drop_length n (String ch rest)) as Hlen. cbn [String.length] in Hlen, Hf. apply IH; [lia|done|lia| |done].
    destruct (Nat.le_gt_cases (S (String.length rest)) n); [right; destruct (str_drop n (String ch rest)); [done|simpl in Hlen; lia]|left; lia]. }
  assert (∀ n ts' s', lex (String ch rest) = app ts' <$> lex (str_drop n (String ch rest)) → tok_run ts' (abs s) = Some (abs s') →
    (1 ≤ n)%nat → depth_ok s' → Forall (λ b, 1 ≤ ob_pos b ≤ total) (an_stack s') →
    match scan_loop fuel (i + Z.of_nat n) (str_drop n (String ch rest)) s' with
    | (Some (pos, _), _) => (∀ ts, lex (String ch rest) = Some ts → tok_run ts (abs s) = None) ∧ 1 ≤ pos ≤ total
    | (None, s2) => (∃ ts, lex (String ch rest) = Some ts ∧ tok_run ts (abs s) = Some (abs s2)) ∧ Forall (λ b, 1 ≤ ob_pos b ≤ total) (an_stack s2)
    end) as Hgo.
  { intros n ts' s' Hlex Hrun Hn Hd' Hst'. specialize (Hnext n s' Hn Hd' Hst'). destruct (scan_loop _ _ _ s') as [[[pos f]|] s2].
    - destruct Hnext as [Hno Hpos]. split; [|done]. intros ts. rewrite Hlex. destruct (lex (str_drop n (String ch rest))) as [us|]; [|done].
      intros [= <-]. rewrite tok_run_app, Hrun. by apply Hno.
    - destruct Hnext as [(us & Hus & Hr) Hpos]. split; [|done]. exists (ts' ++ us)%list. split; [by rewrite Hlex, Hus|]. by rewrite tok_run_app, Hrun. }
  cbn [scan_loop]. destruct (op_here ch s) eqn:Hop.
  - rewrite scan_step_op by done. destruct (op_tokens ch rest s Hop Hd) as (us & Hus & Hr).
    destruct (flush_alike (Some ch) s) as (F1 & F2 & F3).
    refine (Hgo _ us _ Hus _ _ _ _); [unfold abs at 2; simpl; by rewrite F1|destruct rest; [lia|destruct (_ || _); lia]|unfold depth_ok in *; simpl; by rewrite F1, F2|simpl; by rewrite F1].
  - pose proof (scan_step_sim i ch rest s Hd Hop) as Hs. destruct (scan_step i ch rest s) as [pos f s'|n s'].
    + destruct Hs as [Hno Hpos]. split; [|lia]. intros ts. rewrite lex_cons. destruct (lex_step ch rest) as [[n us]|]; [|done]. cbn [mbind option_bind].
      destruct (lex (str_drop n (String ch rest))) as [vs|]; [|done]. intros [= <-]. rewrite tok_run_app. by rewrite (Hno n us eq_refl).
    + destruct Hs as ((us & Hus & Hr) & Hd' & Hn & Hall). apply (Hgo n us); [by rewrite lex_cons, Hus|done..|].
      rewrite Forall_forall in *. intros b Hb. destruct (Hall b Hb) as [Hin| ->]; [by apply Hst|lia].
Qed.


(** The number of an [offset] or of a float is not a token of its own: its unit
or exponent is reported as a metric. *)
Lemma offset_unit_is_a_metric :
  pq_Metrics (analyzePromQL "rate(up[5m] offset 1h)") = ["h"; "up"] ∧ pq_Metrics (analyzePromQL "up > 1e9") = ["e9"; "up"].
Proof. split; vm_compute; reflexivity. Qed.

(** Two bytes above ASCII count as white space. *)
Lemma spaces_beyond_ascii : isSpaceByte (ascii_of_nat 0x85) = true ∧ isSpaceByte (ascii_of_nat 0xA0) = true.
Proof. split; reflexivity. Qed.
