(* ===== verification/ToolError.v ===== *)
(** The error a tool answers with: [src/internal/mcptools/errors.go].

Sentences the hub writes are named by what they say and the values they quote,
[Text]; [text] is what [fmt.Sprintf] makes of one.  Nothing proved depends on
their wording. *)

From S2P Require Import Prelude Fleet Codec Text PromApi Utf8 Step Sanitize PromData Proxy PromQL.
From Stdlib Require Import Floats.PrimFloat.
Open Scope string_scope.
Open Scope Z_scope.

(** * Codes *)

Definition CodeUnknownCluster : string := "UNKNOWN_CLUSTER".
Definition CodeSpokeUnreachable : string := "SPOKE_UNREACHABLE".
Definition CodePromQLParse : string := "PROMQL_PARSE".
Definition CodePromQLExec : string := "PROMQL_EXEC".
Definition CodeQueryTimeout : string := "QUERY_TIMEOUT".
Definition CodeCanceled : string := "CANCELED".
Definition CodeRangeTooLarge : string := "RANGE_TOO_LARGE".
Definition CodeBadMatcher : string := "BAD_MATCHER".
Definition CodeBadRegex : string := "BAD_REGEX".
Definition CodeInvalidArgument : string := "INVALID_ARGUMENT".
Definition CodeInvalidTime : string := "INVALID_TIME".
Definition CodeTSDBStatsUnavailable : string := "TSDB_STATS_UNAVAILABLE".
Definition CodeResponseTooLarge : string := "RESPONSE_TOO_LARGE".
Definition CodeRateLimited : string := "RATE_LIMITED".
Definition CodeHubBusy : string := "HUB_BUSY".
Definition CodeUpstreamError : string := "UPSTREAM_ERROR".
Definition CodeMalformedUpstream : string := "MALFORMED_UPSTREAM".
Definition CodeNoClustersMatched : string := "NO_CLUSTERS_MATCHED".
Definition CodeAllClustersFailed : string := "ALL_CLUSTERS_FAILED".
Definition CodeNoSelectorTooBroad : string := "NO_SELECTOR_TOO_BROAD".

(** * Texts *)

(** Why an argument is no time or duration. *)
Inductive TimeError := NotATime (s : string) | NeedsSign (s : string) | BadOffset (s body : string) | NotADuration (s : string) | NotPositive (s : string).

Inductive Text :=
(** resolving a cluster *)
| MClusterRequired | MNoCluster (id : string) | MSpokeAway (id : string) (lastSeen now : Z)
| HListClusters | HGrammar | HDidYouMean | HSeeEvery | HReconnects
(** calling a cluster *)
| MProxy (e : ProxyError) | MBudget (budget : string) | MTooMuch (id : string) | MNoAnswer (id : string) | MCancelled
| MGated | MClusterError (id : string) (e : ProxyError) | MNotPrometheus (id : string) (status : Z) | MReported (id : string) (status : Z)
| MUnreadable (id : string) (e : DecodeError) | MHistograms (id : string)
| HWait (retryAfter : Z) | HNarrow | HShorten | HGated | HRetryOnce | HNotPrometheus | HExec | HInternal | HParse | HExplain | HMatcher | HHistograms
(** arguments *)
| MQueryRequired | MQueryTooLong (n : Z) | MBadTime (e : TimeError) | MEndBeforeStart | MSpan (span limit : Z) | MStartAge (age limit : Z) | MTimeAge (age limit : Z)
| HSearch | HRelative | HRelativePair | HNarrower | HCorrected | HRetention
(** fan-out *)
| MMode (mode : string) | MOnError (onError : string) | MScan (f : option Fault) | MTooBroad (n maxClusters : Z) | MNoneMatched
| MUnreachable | MNotQueried (maxClusters : Z) | MRangeVector | MString | MPartial (missing requested : Z) | MAllFailed (requested : Z) (first : option (string * string * string))
| MLabelled (cluster label existing original : string)
| PComplete (ok : Z) | PPartial (ok requested failed timedOut : Z)
| HRejected | HSelector | HLabels | HUseRange | HUseQuery | HOnPartial | HConnected | HPermanent | HCapRows (ceiling : Z) | HCapSeries (ceiling : Z) | HPerCluster (maxSeries : Z) | HPerClusterRange (maxSeries : Z).

(** * Errors *)

(** Absent maps and lists are empty; [Retryable] is a pointer in the code. *)
Record ToolError := {
  te_Code : string;
  te_Message : string;
  te_Input : gmap string json;
  te_Hint : string;
  te_Retryable : option bool;
  te_DidYouMean : list string;
  te_Caret : string;
  te_Corrected : gmap string json;
  te_RetryAfterSeconds : float
}.

Definition newError (code message : string) (retryable : bool) : ToolError :=
  {| te_Code := code; te_Message := ClipRunes message 600; te_Input := ∅; te_Hint := ""; te_Retryable := Some retryable;
     te_DidYouMean := []; te_Caret := ""; te_Corrected := ∅; te_RetryAfterSeconds := 0%float |}.

Definition WithInput (kv : gmap string json) (e : ToolError) : ToolError :=
  {| te_Code := te_Code e; te_Message := te_Message e; te_Input := kv; te_Hint := te_Hint e; te_Retryable := te_Retryable e;
     te_DidYouMean := te_DidYouMean e; te_Caret := te_Caret e; te_Corrected := te_Corrected e; te_RetryAfterSeconds := te_RetryAfterSeconds e |}.
Definition WithHint (h : string) (e : ToolError) : ToolError :=
  {| te_Code := te_Code e; te_Message := te_Message e; te_Input := te_Input e; te_Hint := h; te_Retryable := te_Retryable e;
     te_DidYouMean := te_DidYouMean e; te_Caret := te_Caret e; te_Corrected := te_Corrected e; te_RetryAfterSeconds := te_RetryAfterSeconds e |}.
(** The assignments [e.DidYouMean = …], [e.Caret = …], [e.Corrected = …] and
[e.RetryAfterSeconds = …]. *)
Definition set_DidYouMean (names : list string) (e : ToolError) : ToolError :=
  {| te_Code := te_Code e; te_Message := te_Message e; te_Input := te_Input e; te_Hint := te_Hint e; te_Retryable := te_Retryable e;
     te_DidYouMean := names; te_Caret := te_Caret e; te_Corrected := te_Corrected e; te_RetryAfterSeconds := te_RetryAfterSeconds e |}.
Definition set_Caret (c : string) (e : ToolError) : ToolError :=
  {| te_Code := te_Code e; te_Message := te_Message e; te_Input := te_Input e; te_Hint := te_Hint e; te_Retryable := te_Retryable e;
     te_DidYouMean := te_DidYouMean e; te_Caret := c; te_Corrected := te_Corrected e; te_RetryAfterSeconds := te_RetryAfterSeconds e |}.
Definition set_Corrected (m : gmap string json) (e : ToolError) : ToolError :=
  {| te_Code := te_Code e; te_Message := te_Message e; te_Input := te_Input e; te_Hint := te_Hint e; te_Retryable := te_Retryable e;
     te_DidYouMean := te_DidYouMean e; te_Caret := te_Caret e; te_Corrected := m; te_RetryAfterSeconds := te_RetryAfterSeconds e |}.
Definition set_RetryAfter (s : float) (e : ToolError) : ToolError :=
  {| te_Code := te_Code e; te_Message := te_Message e; te_Input := te_Input e; te_Hint := te_Hint e; te_Retryable := te_Retryable e;
     te_DidYouMean := te_DidYouMean e; te_Caret := te_Caret e; te_Corrected := te_Corrected e; te_RetryAfterSeconds := s |}.

(** * The caret *)

(** The class [\s]. *)
Definition re_space (c : ascii) : bool := existsb (fun k => byte_val c =? k) [9; 10; 12; 13; 32].

(** The two alternatives of [promqlPositionRE] at a position: the digits of the
group that matters. *)
Definition position_here (s : string) : option string :=
  let i := count_digits s in
  let column :=
    if (i =? 0)%nat then None
    else match str_drop i s with
    | String ":" rest =>
      let j := count_digits rest in
      if (j =? 0)%nat then None else if HasPrefix (str_drop j rest) ":" then Some (str_take j rest) else None
    | _ => None
    end in
  match column with
  | Some ds => Some ds
  | None =>
    if HasPrefix s "at char " then
      let rest := str_drop 8 s in
      let j := count_digits rest in
      if (j =? 0)%nat then None else Some (str_take j rest)
    else None
  end.

(** The leftmost match. *)
Fixpoint position_after_space (s : string) : option string :=
  match s with
  | EmptyString => None
  | String c s =>
    match (if re_space c then position_here s else None) with
    | Some ds => Some ds
    | None => position_after_space s
    end
  end.
Definition find_position (s : string) : option string :=
  match position_here s with Some ds => Some ds | None => position_after_space s end.

(** [strconv.Atoi] with its error ignored: out of range it is the largest [int]. *)
Definition Atoi (ds : string) : Z := Z.min (decimal 0 ds) max_int64.

Fixpoint spaces (n : nat) : string := match n with O => "" | S n => String " " (spaces n) end.

Definition promqlCaret (query message : string) : string :=
  match find_position message with
  | None => ""
  | Some ds =>
    let col := Atoi ds in
    if col <=? 0 then ""
    else
      let col := if Z.of_nat (String.length query) + 1 <? col then Z.of_nat (String.length query) + 1 else col in
      spaces (Z.to_nat (col - 1)) +:+ "^"
  end.

Example carets :
  promqlCaret "sum(" "1:5: parse error: unexpected end" = "    ^"
  ∧ promqlCaret "up{" "parse error at char 99: x" = "   ^"
  ∧ promqlCaret "up" "no position here 12:3" = ""
  ∧ promqlCaret "up" "invalid: 1:2: x" = " ^".
Proof. split_and!; vm_compute; reflexivity. Qed.

(** A caret line never runs past the place after the last character. *)
Lemma promqlCaret_length query message : (String.length (promqlCaret query message) ≤ S (String.length query))%nat.
Proof.
  assert (∀ n s, String.length (spaces n +:+ s) = (n + String.length s)%nat) as Hs by (intros n s; induction n as [|n IH]; [done|]; simpl; lia).
  unfold promqlCaret. destruct (find_position message) as [ds|]; [|simpl; lia]. destruct (Z.leb_spec (Atoi ds) 0); [simpl; lia|].
  destruct (Z.ltb_spec (Z.of_nat (String.length query) + 1) (Atoi ds)); rewrite Hs; simpl; lia.
Qed.
