(* ===== verification/Guard.v ===== *)
(** The checks every tool call passes: [src/internal/mcptools/guard.go] and
[ratelimit.go].

The rate limiter computes in binary64, as the code does.  [run] is the decision
made before the tool's own function is called.  The registry is read at one
instant. *)

From S2P Require Import Prelude GoFloat Fleet Codec Limiter Registry Text Nearest Sanitize ToolError.
From Stdlib Require Import Floats.PrimFloat Floats.FloatOps Floats.SpecFloat.
Open Scope string_scope.

(** * The rate limit *)

Record bucket := { bk_tokens : float; bk_last : Z; bk_seen : Z }.

Definition rateLimiter : Type := gmap string bucket.

Definition bucketIdleEviction : Z := Hour.

Definition newRateLimiter : rateLimiter := ∅.

Definition evictIdleLocked (now : Z) (entries : list (string * bucket)) (m : rateLimiter) : rateLimiter :=
  (prune_loop (λ _ b, negb (negb (IsZero (bk_seen b)) && (bucketIdleEviction <? Sub now (bk_seen b))%Z)) entries m).1.

(** [allow] for a principal: whether it may call, how long to wait if not. *)
Definition allow (p : option Principal) (now : Z) (l : rateLimiter) : bool * Z * rateLimiter :=
  match p with
  | Some p =>
    match p_Scope p with
    | Some s =>
      let rps := RateRPS (Scope_Limits s) in
      if (rps <=? 0)%float then (true, 0%Z, l)
      else
        let burst := float64_of (RateBurst (Scope_Limits s)) in
        let burst := if (RateBurst (Scope_Limits s) <? 1)%Z then 1%float else burst in
        let '(b, l) := match l !! p_KID p with
                       | Some b => (b, l)
                       | None => let b := {| bk_tokens := burst; bk_last := now; bk_seen := 0 |} in
                                 let l := <[p_KID p := b]> l in (b, evictIdleLocked now (map_to_list l) l)
                       end in
        let elapsed := Sub now (bk_last b) in
        let b := if (0 <? elapsed)%Z
                 then {| bk_tokens := fmin burst (bk_tokens b + Seconds elapsed * rps); bk_last := now; bk_seen := bk_seen b |}
                 else b in
        if (bk_tokens b <? 1)%float
        then (false, trunc_float ((1 - bk_tokens b) / rps * float64_of Second),
              <[p_KID p := {| bk_tokens := bk_tokens b; bk_last := bk_last b; bk_seen := now |}]> l)
        else (true, 0%Z, <[p_KID p := {| bk_tokens := bk_tokens b - 1; bk_last := bk_last b; bk_seen := now |}]> l)
    | None => (true, 0%Z, l)
    end
  | None => (true, 0%Z, l)
  end.

(** * Tools and roles *)

Definition operationalTools : list string :=
  [ "targets"; "target_metadata"; "alertmanagers"; "tsdb_stats"; "runtime_info" ].

Definition roleAllows (s : option Scope) (name : string) : bool :=
  match s with
  | None => false
  | Some sc =>
    if negb (Contains operationalTools name) then true
    else if String.eqb (Scope_Role sc) RoleOperator || String.eqb (Scope_Role sc) RoleAdmin then true
    else ToolExplicitlyAllowed s name
  end.

(** How [run] answers before the tool is called, or that it calls it. *)
Inductive Verdict := Unauthenticated | RateLimited (retry : Z) | ForbiddenByScope | ForbiddenByRole | Called (p : Principal).

Definition run (name : string) (p : option Principal) (now : Z) (l : rateLimiter) : Verdict * rateLimiter :=
  match p with
  | None => (Unauthenticated, l)
  | Some pr =>
    let '(ok, retry, l) := allow p now l in
    if negb ok then (RateLimited retry, l)
    else if negb (AllowsTool (p_Scope pr) name) then (ForbiddenByScope, l)
    else if negb (roleAllows (p_Scope pr) name) then (ForbiddenByRole, l)
    else (Called pr, l)
  end.

(** * Resolving a cluster *)

Definition DidYouMeanCount : nat := 5.

(** [clusterIDRE]. *)
Definition id_edge (c : ascii) : bool := in_range 0x61 0x7A c || is_digit c.
Definition id_inner (c : ascii) : bool := id_edge c || Ascii.eqb c "-".
Fixpoint id_tail (s : string) : bool :=
  match s with
  | EmptyString => true
  | String c EmptyString => id_edge c
  | String c s => id_inner c && id_tail s
  end.
Definition clusterIDRE (s : string) : bool :=
  match s with EmptyString => false | String c s => id_edge c && id_tail s && (String.length s <=? 62)%nat end.

Section resolve.
Context (unicode_lower : string → string) (text : Text → string).

(** The loop that keeps the allowed candidates, until it has enough. *)
Fixpoint keep_allowed (allowed : list string) (room : nat) (cands : list string) : list string :=
  match room, cands with
  | S room', c :: cands => if Contains allowed c then c :: keep_allowed allowed room' cands else keep_allowed allowed room cands
  | _, _ => []
  end.

Definition didYouMean (p : Principal) (id : string) (now : Z) (r : Registry) : list string :=
  let visible := Visible (Some p) now r in
  if (length visible =? 0)%nat then []
  else keep_allowed (ID <$> visible) DidYouMeanCount (Nearest unicode_lower id (Z.of_nat DidYouMeanCount * 4) now r).

Definition unknownCluster (p : Principal) (id : string) (now : Z) (r : Registry) : ToolError :=
  let e := newError CodeUnknownCluster (text (MNoCluster (ClipRunes id 128))) false in
  let e := WithInput {[ "cluster" := JStr (ClipRunes id 128) ]} e in
  let e := set_DidYouMean (didYouMean p id now r) e in
  WithHint (text (if (0 <? length (te_DidYouMean e))%nat then HDidYouMean else HSeeEvery)) e.

Definition resolveCluster (p : Principal) (id : string) (now : Z) (r : Registry) : result ToolError Cluster :=
  if String.eqb id "" then Err (WithHint (text HListClusters) (newError CodeInvalidArgument (text MClusterRequired) false))
  else if negb (clusterIDRE id) then Err (WithHint (text HGrammar) (unknownCluster p id now r))
  else match Registry_Cluster id now r with
  | Some c => if negb (AllowsCluster (p_Scope p) (ID c) (Labels c)) then Err (unknownCluster p id now r) else Ok c
  | None => Err (unknownCluster p id now r)
  end.

Definition requireConnected (c : Cluster) (now : Z) : option ToolError :=
  match Cluster_State c with
  | StateConnected | StateDegraded => None
  | _ => Some (WithHint (text HReconnects) (WithInput {[ "cluster" := JStr (ID c) ]}
      (newError CodeSpokeUnreachable (text (MSpokeAway (ID c) (LastSeen c) now)) true)))
  end.

Definition factsAge (c : Cluster) (now : Z) : Z :=
  if IsZero (LastSeen c) then 0%Z
  else let d := Sub now (LastSeen c) in if (d <? 0)%Z then 0%Z else d.

End resolve.

(** * What an answer discloses *)

(** The cluster as the principal may see it. *)
Definition visible_at (p : Principal) (now : Z) (r : Registry) (id : string) : option Cluster :=
  match Registry_Cluster id now r with
  | Some c => if AllowsCluster (p_Scope p) (ID c) (Labels c) then Some c else None
  | None => None
  end.

(** Every view carries its certificate's identity. *)
Definition identified (r : Registry) : Prop := views (λ id c, ID c = id) r.

Lemma identified_run poll pollTimeout sweepInterval grace r iv ops :
  Registry_New poll pollTimeout sweepInterval grace = Some (r, iv) → identified (run_ops ops r).
Proof.
  intros Hnew. apply views_run.
  - by intros id c id' lbls st seen since na <- -> _.
  - apply Forall_forall. intros o _. destruct o as [s ident early [facts|] g owned now|id key ptr spoke facts owned now| | | | |]; simpl; try done.
    + intros c Hc. unfold clusterFrom in Hc. destruct (mergeLabels _ _); [|done]. by injection Hc as <-.
    + intros merged sl _ Hid. unfold refresh_slot. by destruct (f_Changed facts).
  - unfold Registry_New in Hnew. repeat (case_match; [done|]). injection Hnew as <- _. apply map_Forall_empty.
Qed.

Lemma identified_merged r id e : identified r → r_entries r !! id = Some e → ID (mergedLocked id e) = id.
Proof.
  intros Hi He. apply (views_merged (λ id c, ID c = id)); [|done|by apply Hi].
  by intros id' c id1 lbls st seen since na <- -> _.
Qed.

Lemma Visible_ids p now r x : identified r → x ∈ ID <$> Visible (Some p) now r ↔ visible_at p now r x ≠ None.
Proof.
  intros Hi. unfold visible_at, Registry_Cluster. rewrite list_elem_of_fmap. unfold Visible.
  destruct (p_Scope p) as [s|] eqn:Hs.
  - split.
    + intros (c & -> & Hc). apply registry_filter_elem in Hc as (id & e & He & Hp & -> & Hk).
      rewrite (identified_merged r id e Hi He) in Hk |- *. by rewrite He, Hp, (identified_merged r id e Hi He), Hk.
    + intros Hv. destruct (r_entries r !! x) as [e|] eqn:He; [|done]. destruct (presentLocked now e r) eqn:Hp; [|done].
      destruct (AllowsCluster _ _ _) eqn:Ha; [|done]. exists (mergedLocked x e). split; [by rewrite (identified_merged r x e Hi He)|].
      apply registry_filter_elem. exists x, e. done.
  - split; [by intros (c & _ & ?%elem_of_nil)|]. intros Hv. exfalso. apply Hv. by repeat case_match.
Qed.

Lemma keep_allowed_spec allowed room cands : keep_allowed allowed room cands = take room (List.filter (Contains allowed) cands).
Proof.
  revert room. induction cands as [|c cands IH]; intros [|room]; cbn [keep_allowed List.filter]; try done.
  destruct (Contains allowed c); [by rewrite IH|apply IH].
Qed.

(** ** The order of suggestions *)

Section order.
Context (unicode_lower : string → string) (id : string).

Definition before (x y : string) : Prop := scored_le (score unicode_lower id x) (score unicode_lower id y).

#[local] Instance before_antisymm : AntiSymm (=) before.
Proof.
  intros x y [Hxy|[Hd Hxy]] [Hyx|[Hd' Hyx]]; simpl in *; try lia. by apply string_le_antisym.
Qed.

Lemma before_sorted l : StronglySorted scored_le (score unicode_lower id <$> l) → StronglySorted before l.
Proof.
  induction l as [|x l IH]; intros H; [constructor|]. cbn [fmap list_fmap] in H. apply StronglySorted_inv in H as [H Hall].
  constructor; [by apply IH|]. apply Forall_forall. intros y Hy. rewrite Forall_forall in Hall. by apply Hall, list_elem_of_fmap_2.
Qed.

Lemma filter_sorted f l : StronglySorted before l → StronglySorted before (List.filter f l).
Proof.
  induction 1 as [|x l Hs IH Hall]; simpl; [constructor|]. destruct (f x); [|done]. constructor; [done|].
  rewrite Forall_forall in *. intros y Hy. apply Hall. apply list_elem_of_In in Hy. apply filter_In in Hy as [Hy _]. by apply list_elem_of_In.
Qed.

(** With few clusters, the suggestions are the visible ones in order. *)
Lemma Nearest_all now r : (size (r_entries r) ≤ 20)%nat →
  let l := Nearest unicode_lower id 20 now r in
  StronglySorted before l ∧ NoDup l ∧ ∀ x, x ∈ l ↔ known now r x.
Proof.
  intros Hsize. unfold Nearest, Nearest_of. change (20 <=? 0)%Z with false. cbv zeta.
  destruct (sorted_scores unicode_lower id now r (map_to_list (r_entries r)) (Permutation_refl _)) as (Hs & Hnd & Hin & Hsc).
  change (omap _ (map_to_list (r_entries r))) with (candidates unicode_lower id now r (map_to_list (r_entries r))).
  set (s := merge_sort scored_le (candidates unicode_lower id now r (map_to_list (r_entries r)))) in *.
  assert ((if (20 <? Z.of_nat (length s))%Z then take (Z.to_nat 20) s else s) = s) as ->.
  { destruct (Z.ltb_spec 20 (Z.of_nat (length s))) as [Hl|]; [|done]. exfalso.
    assert (length s ≤ size (r_entries r))%nat; [|lia]. unfold s. rewrite merge_sort_Permutation. unfold candidates.
    rewrite <- length_map_to_list. clear. induction (map_to_list (r_entries r)) as [|[x e] es IH]; [done|].
    cbn [omap list_omap]. destruct (presentLocked now e r); simpl; lia. }
  split_and!; [|done|done]. apply before_sorted. by rewrite <- Hsc.
Qed.

Lemma filtered_unique f1 f2 l1 l2 : StronglySorted before l1 → StronglySorted before l2 → NoDup l1 → NoDup l2 →
  (∀ x, x ∈ l1 ∧ f1 x = true ↔ x ∈ l2 ∧ f2 x = true) → List.filter f1 l1 = List.filter f2 l2.
Proof.
  intros H1 H2 N1 N2 Heq. apply (StronglySorted_unique before); [by apply filter_sorted..|].
  apply NoDup_Permutation; [apply NoDup_ListNoDup, List.NoDup_filter, NoDup_ListNoDup; done..|].
  intros x. rewrite !list_elem_of_In, !filter_In, <- !list_elem_of_In. apply Heq.
Qed.

End order.

Lemma didYouMean_same unicode_lower p id now r1 r2 : identified r1 → identified r2 →
  (size (r_entries r1) ≤ 20)%nat → (size (r_entries r2) ≤ 20)%nat → (∀ x, visible_at p now r1 x = visible_at p now r2 x) →
  didYouMean unicode_lower p id now r1 = didYouMean unicode_lower p id now r2.
Proof.
  intros I1 I2 S1 S2 Hv.
  assert (∀ r, identified r → (size (r_entries r) ≤ 20)%nat → didYouMean unicode_lower p id now r
    = take 5 (List.filter (Contains (ID <$> Visible (Some p) now r)) (Nearest unicode_lower id 20 now r))) as Hd.
  { intros r Hi Hs. unfold didYouMean. rewrite keep_allowed_spec. change (Z.of_nat DidYouMeanCount * 4)%Z with 20%Z.
    destruct (Nat.eqb_spec (length (Visible (Some p) now r)) 0) as [Hz|]; [|done]. apply nil_length_inv in Hz. rewrite Hz.
    cbn [fmap list_fmap]. generalize (Nearest unicode_lower id 20 now r) as l. intros l. assert (List.filter (Contains []) l = []) as ->; [|done].
    induction l as [|x l IH]; [done|]. simpl. exact IH. }
  rewrite !Hd by done. f_equal. destruct (Nearest_all unicode_lower id now r1 S1) as (A1 & B1 & C1).
  destruct (Nearest_all unicode_lower id now r2 S2) as (A2 & B2 & C2). apply (filtered_unique unicode_lower id); try done.
  assert (∀ r x, identified r → visible_at p now r x ≠ None → known now r x) as Hk.
  { intros r x _ Hx. unfold visible_at, Registry_Cluster in Hx. unfold known. destruct (r_entries r !! x) as [e|] eqn:He; [|done].
    exists e. split; [done|]. by destruct (presentLocked now e r). }
  intros x. rewrite !Contains_spec, !Visible_ids, C1, C2, Hv by done. split; intros [_ Hx]; split; auto. rewrite <- Hv in Hx. auto.
Qed.

(** A cluster out of scope answers as one that does not exist.  Take two
registries with at most twenty clusters each, in which the principal sees the
same clusters; whatever else they hold, resolving any name gives the same
cluster or the same error, suggestions included.  And a cluster is resolved
only if its scope admits it. *)
Theorem resolveCluster_hides (unicode_lower : string → string) (text : Text → string) (p : Principal) (id : string) (now : Z)
    (poll1 timeout1 sweep1 grace1 poll2 timeout2 sweep2 grace2 : Z) (r1 r2 : Registry) (iv1 iv2 : Intervals) (ops1 ops2 : list RegOp) :
  Registry_New poll1 timeout1 sweep1 grace1 = Some (r1, iv1) → Registry_New poll2 timeout2 sweep2 grace2 = Some (r2, iv2) →
  (size (r_entries (run_ops ops1 r1)) ≤ 20)%nat → (size (r_entries (run_ops ops2 r2)) ≤ 20)%nat →
  (∀ x, visible_at p now (run_ops ops1 r1) x = visible_at p now (run_ops ops2 r2) x) →
  resolveCluster unicode_lower text p id now (run_ops ops1 r1) = resolveCluster unicode_lower text p id now (run_ops ops2 r2)
  ∧ ∀ c, resolveCluster unicode_lower text p id now (run_ops ops1 r1) = Ok c → ID c = id ∧ AllowsCluster (p_Scope p) id (Labels c) = true.
Proof.
  intros N1 N2 S1 S2 Hv. pose proof (identified_run _ _ _ _ _ _ ops1 N1) as I1. pose proof (identified_run _ _ _ _ _ _ ops2 N2) as I2.
  assert (unknownCluster unicode_lower text p id now (run_ops ops1 r1) = unknownCluster unicode_lower text p id now (run_ops ops2 r2)) as Hu
    by (unfold unknownCluster; by rewrite (didYouMean_same _ _ _ _ _ _ I1 I2 S1 S2 Hv)).
  split.
  - unfold resolveCluster. rewrite Hu. destruct (String.eqb id ""); [done|]. destruct (clusterIDRE id); [|done]. cbn [negb].
    specialize (Hv id). unfold visible_at in Hv.
    destruct (Registry_Cluster id now (run_ops ops1 r1)), (Registry_Cluster id now (run_ops ops2 r2)); repeat case_match; simpl in *; congruence.
  - intros c. unfold resolveCluster. destruct (String.eqb id ""); [done|]. destruct (clusterIDRE id); [|done]. cbn [negb].
    unfold Registry_Cluster. destruct (r_entries (run_ops ops1 r1) !! id) as [e|] eqn:He; [|done].
    destruct (presentLocked now e (run_ops ops1 r1)); [|done]. destruct (AllowsCluster _ _ _) eqn:Ha; [|done]. intros [= <-].
    rewrite (identified_merged _ _ _ I1 He) in Ha. by rewrite (identified_merged _ _ _ I1 He).
Qed.

(** ** Examples *)

Definition pod_of (cluster : string) : Identity :=
  {| id_ClusterID := cluster; id_CertSerial := "s"; id_CertNotAfter := 1000; id_RemoteAddr := "10.0.0.7"; id_InstanceID := "a" |}.
Definition joins (cluster : string) : RegOp := RO_OnSession (Some 0%nat) (pod_of cluster) false (Some (says ∅)) 0 NoLookup 10.

Definition no_limits : Limits :=
  {| MaxLookback := 0; MaxPoints := 0; MaxSeries := 0; Timeout := 0; MaxResponseBytes := 0; MaxConcurrentPerCluster := 0;
     RateRPS := 0%float; RateBurst := 0 |}.
Definition agent_for (kid : string) (clusters : list string) (l : Limits) : Principal :=
  {| p_KID := kid; p_Name := ""; p_Class := ClassAgent; p_Role := RoleViewer; p_Epoch := 0;
     p_Scope := Some {| Scope_Role := RoleViewer; Scope_Clusters := {| cs_Allow := clusters; cs_MatchLabels := ∅; cs_Deny := [] |};
                        Scope_Tools := {| ts_Allow := ["*"]; ts_Deny := [] |}; Scope_Limits := l |} |}.

Definition agent : Principal := agent_for "k1" ["prod-eu"] no_limits.

Lemma not_in_pair (x a b : string) : x ≠ a → x ≠ b → x ∉ ({[a; b]} : gset string).
Proof. set_solver. Qed.

Lemma not_in_one (x a : string) : x ≠ a → x ∉ ({[a]} : gset string).
Proof. set_solver. Qed.

Lemma resolveCluster_hides_witness :
  let r1 := run_ops [joins "prod-eu"; joins "prod-us"] fresh_registry in
  let r2 := run_ops [joins "prod-eu"] fresh_registry in
  resolveCluster (λ s, s) (λ _, EmptyString) agent "prod-us" 20 r1 = resolveCluster (λ s, s) (λ _, EmptyString) agent "prod-us" 20 r2
  ∧ te_DidYouMean (unknownCluster (λ s, s) (λ _, EmptyString) agent "prod-us" 20 r1) = ["prod-eu"].
Proof.
  intros r1 r2. split; [|vm_compute; reflexivity].
  assert (Registry_New 0 0 0 0 = Some (fresh_registry, {| i_poll := DefaultFactsPollInterval;
    i_pollTimeout := DefaultFactsPollTimeout; i_sweep := Minute |})) as Hnew by (vm_compute; reflexivity).
  refine (proj1 (resolveCluster_hides (λ s, s) (λ _, EmptyString) agent "prod-us" 20 0 0 0 0 0 0 0 0 fresh_registry fresh_registry _ _
    [joins "prod-eu"; joins "prod-us"] [joins "prod-eu"] Hnew Hnew _ _ _));
    [apply Nat.leb_le; vm_compute; reflexivity|apply Nat.leb_le; vm_compute; reflexivity|].
  intros x. destruct (decide (x = "prod-eu")) as [->|H1]; [vm_compute; reflexivity|].
  destruct (decide (x = "prod-us")) as [->|H2]; [vm_compute; reflexivity|].
  assert (dom (r_entries r1) = {["prod-eu"; "prod-us"]}) as D1 by (vm_compute; reflexivity).
  assert (dom (r_entries r2) = {["prod-eu"]}) as D2 by (vm_compute; reflexivity).
  assert (r_entries r1 !! x = None) as E1 by (apply not_elem_of_dom; rewrite D1; exact (not_in_pair _ _ _ H1 H2)).
  assert (r_entries r2 !! x = None) as E2 by (apply not_elem_of_dom; rewrite D2; exact (not_in_one _ _ H1)).
  unfold visible_at, Registry_Cluster. fold r1 r2. by rewrite E1, E2.
Defined.

(** Beyond twenty clusters the suggestions tell: twenty hidden clusters with
names close to the one asked for take the places of a visible one. *)
Definition crowd : list string :=
  (λ c, "prod-x" +:+ String (ascii_of_nat c) "") <$> seq 97 20.

Lemma suggestions_tell :
  let r1 := run_ops (joins <$> "prod-eu" :: crowd) fresh_registry in
  let r2 := run_ops [joins "prod-eu"] fresh_registry in
  Visible (Some agent) 20 r1 = Visible (Some agent) 20 r2
  ∧ didYouMean (λ s, s) agent "prod-xx" 20 r1 = [] ∧ didYouMean (λ s, s) agent "prod-xx" 20 r2 = ["prod-eu"].
Proof. split; [vm_compute; reflexivity|]. split; vm_compute; reflexivity. Qed.

(** Evicting an idle bucket forgives it: a key limited to ten calls and then one
per 1024 seconds is given its whole burst again after an hour, when another
key's first call sweeps its bucket away. *)
Definition slow : Limits :=
  {| MaxLookback := 0; MaxPoints := 0; MaxSeries := 0; Timeout := 0; MaxResponseBytes := 0; MaxConcurrentPerCluster := 0;
     RateRPS := 0x1p-10%float; RateBurst := 10 |}.

(** How many of [n] calls at one instant are admitted. *)
Fixpoint admitted (n : nat) (p : Principal) (now : Z) (l : rateLimiter) : nat * rateLimiter :=
  match n with
  | O => (0%nat, l)
  | S n => let '(ok, _, l) := allow (Some p) now l in
           let '(k, l) := admitted n p now l in (if ok then S k else k, l)
  end.

Lemma eviction_forgives :
  let key := agent_for "k1" ["prod-eu"] slow in
  let l := (admitted 20 key Second newRateLimiter).2 in
  let later := (Second + Hour + Second)%Z in
  (admitted 20 key Second newRateLimiter).1 = 10%nat ∧ (admitted 20 key later l).1 = 3%nat
  ∧ (admitted 20 key later (allow (Some (agent_for "k2" ["prod-eu"] slow)) later l).2).1 = 10%nat.
Proof. split; [vm_compute; reflexivity|]. split; vm_compute; reflexivity. Qed.

(** A tool is called only for an authenticated principal whose scope admits it;
an operational one only if the role is above viewer's or the scope names it;
and nothing but the key's own bucket is charged for a refusal. *)
Lemma run_called name p now l l' pr : run name p now l = (Called pr, l') →
  p = Some pr ∧ (allow p now l).1.1 = true ∧ AllowsTool (p_Scope pr) name = true
  ∧ (name ∈ operationalTools → ∃ s, p_Scope pr = Some s
       ∧ (Scope_Role s = RoleOperator ∨ Scope_Role s = RoleAdmin ∨ name ∈ ts_Allow (Scope_Tools s))).
Proof.
  unfold run. destruct p as [q|]; [|done]. destruct (allow (Some q) now l) as [[ok retry] l1] eqn:Ha. cbn [fst].
  destruct ok; [|done]. cbn [negb]. destruct (AllowsTool (p_Scope q) name) eqn:Ht; [|done].
  destruct (roleAllows (p_Scope q) name) eqn:Hr; [|done]. intros [= <- <-]. split_and!; [done..|]. intros Hop.
  unfold roleAllows in Hr. destruct (p_Scope q) as [s|] eqn:Hs; [|done]. exists s. split; [done|].
  apply Contains_spec in Hop. rewrite Hop in Hr. cbn [negb] in Hr.
  destruct (String.eqb_spec (Scope_Role s) RoleOperator); [by left|]. destruct (String.eqb_spec (Scope_Role s) RoleAdmin); [by right; left|].
  right; right. cbn [orb] in Hr. unfold ToolExplicitlyAllowed in Hr. rewrite Ht in Hr. cbn [negb] in Hr. by apply Contains_spec in Hr.
Qed.
