(* ===== verification/Tools.v ===== *)
(** What the tools share: [src/internal/mcptools/deps.go], [call.go],
[times.go], and the helpers of [guard.go] and [query.go].

A clock reading is an argument.  [time_parse] is [time.Parse] for the two RFC 3339
layouts, [int64_of] the conversion of a float to [int64], which Go leaves to the
implementation out of range, and [FormatFloat] is [strconv.FormatFloat(·, 'f', -1, 64)].
A result of [Prometheus.Do] is an [Answer] of [Proxy]; [body] is a body as the text
layer of [encoding/json] reads it. *)

From S2P Require Import Prelude GoFloat Fleet Codec Registry Text PromApi Nearest Step Sanitize PromData Render Proxy ToolError Guard.
From Stdlib Require Import Floats.PrimFloat.
Open Scope string_scope.
Open Scope Z_scope.

(** * Configuration *)

Definition DefaultFanoutConcurrency : Z := 8.
Definition MaxFanoutConcurrency : Z := 32.
Definition DefaultFanoutDeadline : Z := 60 * Second.
Definition MaxFanoutDeadline : Z := 300 * Second.
Definition DefaultMaxClusters : Z := 25.
Definition MaxClustersCeiling : Z := 100.
Definition DefaultMaxLookback : Z := 90 * 24 * Hour.
Definition DefaultQueryTimeout : Z := 30 * Second.
Definition DefaultRangeTimeout : Z := 60 * Second.
Definition MaxQueryTimeout : Z := 120 * Second.

(** [Tools] without what it calls; the [Options] of [New] are the same values
before the defaults. *)
Record Tools := { tl_tokenCeiling : Z; tl_maxLookback : Z; tl_fanoutConcurrency : Z }.

Definition Tools_New (o : Tools) : Tools :=
  let concurrency := if tl_fanoutConcurrency o <=? 0 then DefaultFanoutConcurrency else tl_fanoutConcurrency o in
  {| tl_tokenCeiling := if tl_tokenCeiling o =? 0 then DefaultTokenCeiling else tl_tokenCeiling o;
     tl_maxLookback := if tl_maxLookback o <=? 0 then DefaultMaxLookback else tl_maxLookback o;
     tl_fanoutConcurrency := if MaxFanoutConcurrency <? concurrency then MaxFanoutConcurrency else concurrency |}.

(** * Small helpers *)

Definition clampInt (n def lo hi : Z) : Z := Z.min (Z.max (if n <=? 0 then def else n) lo) hi.

Definition matchesSelector (labels sel : gmap string string) : bool := forallb (λ '(k, v), String.eqb (map_get labels k) v) (map_to_list sel).

Fixpoint dedupe_loop (seen : gset string) (s : list string) : list string :=
  match s with
  | [] => []
  | v :: s => if bool_decide (v ∈ seen) then dedupe_loop seen s else v :: dedupe_loop ({[v]} ∪ seen) s
  end.
Definition dedupe (s : list string) : list string := if (length s <? 2)%nat then s else dedupe_loop ∅ s.

Definition includes (l : list string) (want : string) : bool := Contains l want.

(** [call.go]'s [effectiveTimeout]. *)
Definition tool_effectiveTimeout (want def : Z) : Z := Z.min (if want <=? 0 then def else want) MaxQueryTimeout.

Definition lookbackLimit (t : Tools) (p : option Principal) : Z :=
  match p ≫= p_Scope with
  | Some s => let l := MaxLookback (Scope_Limits s) in if 0 <? l then Z.min (tl_maxLookback t) l else tl_maxLookback t
  | None => tl_maxLookback t
  end.

Inductive callKind := kindQuery | kindSelector | kindPlain.

Section tools.
Context (text : Text → string) (unicode_lower : string → string).
Context (time_parse : string → option Z) (ParseFloat : string → option float) (seconds : float → Z) (int64_of : float → Z) (FormatFloat : float → string).

(** * Times *)

(** [time.Unix(sec, nsec)], for nanoseconds of less than a second. *)
Definition time_Unix (sec nsec : Z) : Z :=
  let sec := if nsec <? 0 then sec - 1 else sec in
  let nsec := if nsec <? 0 then nsec + Second else nsec in
  wrap_int64 (sec + unix_epoch) * Second + nsec.

(** [None] when [s] is not a relative form. *)
Definition parseRelative (s : string) (now : Z) : option (result TimeError Z) :=
  let offset body :=
    let signed := if HasPrefix body "-" then Some (true, str_drop 1 body) else if HasPrefix body "+" then Some (false, str_drop 1 body) else None in
    match signed with
    | None => Err (NeedsSign s)
    | Some (negative, body) =>
      match ParsePromDuration ParseFloat seconds (TrimSpace body) with
      | None => Err (BadOffset s body)
      | Some d => Ok (Add now (if negative : bool then wrap_int64 (- d) else d))
      end
    end in
  if String.eqb s "now" then Some (Ok now)
  else if HasPrefix s "now" then
    let body := TrimSpace (str_drop 3 s) in
    Some (if String.eqb body "" then Ok now else offset body)
  else if HasPrefix s "-" || HasPrefix s "+" then Some (offset s)
  else None.

Definition ParseTime (s : string) (now : Z) : result TimeError Z :=
  let s := TrimSpace s in
  if String.eqb s "" then Ok 0
  else match parseRelative s now with
  | Some r => r
  | None =>
    match time_parse s with
    | Some t => Ok t
    | None =>
      match ParseFloat s with
      | Some secs =>
        let sec := int64_of secs in
        let frac := (secs - float64_of sec)%float in
        Ok (time_Unix sec (int64_of (frac * 1e9)%float))
      | None => Err (NotATime s)
      end
    end
  end.

Definition ParseDuration (s : string) : result TimeError Z :=
  let s := TrimSpace s in
  if String.eqb s "" then Ok 0
  else match ParsePromDuration ParseFloat seconds s with
  | None => Err (NotADuration s)
  | Some d => if d <=? 0 then Err (NotPositive s) else Ok d
  end.

Definition formatUpstreamTime (t : Z) : string := FormatFloat (float64_of (UnixNano t) / 1e9)%float.

(** * Arguments *)

Definition invalidTime (field value cluster : string) (err : TimeError) : ToolError :=
  WithHint (text HRelative)
    (WithInput (<[field := JStr (ClipRunes value 128)]> {[ "cluster" := JStr cluster ]})
      (newError CodeInvalidTime (text (MBadTime err)) false)).

Definition str_of (v : option json) : string := match v with Some (JStr s) => s | _ => "" end.

Definition validateExpr (q cluster : string) : option ToolError :=
  if String.eqb q "" then
    Some (WithHint (text HSearch) (WithInput {[ "cluster" := JStr cluster ]} (newError CodeInvalidArgument (text MQueryRequired) false)))
  else if MaxPromQLBytes <? Z.of_nat (String.length q) then
    Some (WithInput {[ "cluster" := JStr cluster ]} (newError CodeInvalidArgument (text (MQueryTooLong (Z.of_nat (String.length q)))) false))
  else None.

Definition defaultRangeSpan : Z := Hour.

Definition resolveRange (t : Tools) (p : option Principal) (startArg endArg : string) (now : Z) (echo : gmap string json) : result ToolError (Z * Z) :=
  match ParseTime endArg now with
  | Err err => Err (invalidTime "end" endArg (str_of (echo !! "cluster")) err)
  | Ok end_ =>
    let end_ := if IsZero end_ then now else end_ in
    match ParseTime startArg now with
    | Err err => Err (invalidTime "start" startArg (str_of (echo !! "cluster")) err)
    | Ok start =>
      let start := if IsZero start then Add end_ (- defaultRangeSpan) else start in
      if negb (After end_ start) then
        Err (WithHint (text HRelativePair) (WithInput echo (newError CodeInvalidArgument (text MEndBeforeStart) false)))
      else
        let limit := lookbackLimit t p in
        let span := Sub end_ start in
        let age := Sub now start in
        if limit <? span then
          let corrected := <["end" := JStr "now"]> (<["start" := JStr ("now-" +:+ FormatDuration limit)]> echo) in
          Err (set_Corrected corrected (WithHint (text HNarrower) (WithInput echo (newError CodeRangeTooLarge (text (MSpan span limit)) false))))
        else if limit <? age then
          let corrected := <["start" := JStr ("now-" +:+ FormatDuration limit)]> echo in
          Err (set_Corrected corrected (WithHint (text HRetention) (WithInput echo (newError CodeRangeTooLarge (text (MStartAge age limit)) false))))
        else Ok (start, end_)
    end
  end.

(** [now] is the clock when [checkLookback] reads it. *)
Definition checkLookback (t : Tools) (p : option Principal) (at_ now : Z) (echo : gmap string json) : option ToolError :=
  let limit := lookbackLimit t p in
  let age := Sub now at_ in
  if age <=? limit then None
  else
    let corrected := <["time" := JStr ("now-" +:+ FormatDuration limit)]> echo in
    Some (set_Corrected corrected (WithHint (text HCorrected) (WithInput echo (newError CodeRangeTooLarge (text (MTimeAge age limit)) false)))).

(** * Calls *)

Definition mapProxyError (p : Principal) (call : Call) (err : ProxyError) (now : Z) (r : Registry) : ToolError :=
  let input : gmap string json := {[ "cluster" := JStr (ca_ClusterID call) ]} in
  let has := Is (chain err) in
  if has SForbidden then unknownCluster unicode_lower text p (ca_ClusterID call) now r
  else match err with
  | ENotConnected _ _ _ => WithHint (text HReconnects) (WithInput input (newError CodeSpokeUnreachable (text (MProxy err)) true))
  | EBusy _ budget _ retryAfter =>
    WithHint (text (HWait retryAfter)) (set_RetryAfter (Seconds retryAfter) (WithInput input (newError CodeHubBusy (text (MBudget budget)) true)))
  | _ =>
    if has STooLarge then WithHint (text HNarrow) (WithInput input (newError CodeResponseTooLarge (text (MTooMuch (ca_ClusterID call))) false))
    else if has SDeadlineExceeded then WithHint (text HShorten) (WithInput input (newError CodeQueryTimeout (text (MNoAnswer (ca_ClusterID call))) true))
    else if has SCanceled then WithInput input (newError CodeCanceled (text MCancelled) false)
    else if has (SProm ErrInvalidParam) || has (SProm ErrInvalidLabelName) || has (SProm ErrUnknownEndpoint)
    then WithInput input (newError CodeInvalidArgument (text (MProxy err)) false)
    else if has (SProm ErrEndpointGated) then WithHint (text HGated) (WithInput input (newError CodeInvalidArgument (text MGated) false))
    else WithHint (text HRetryOnce) (WithInput input (newError CodeUpstreamError (text (MClusterError (ca_ClusterID call) err)) true))
  end.

Definition isParseError (msg : string) : bool :=
  let l := ToLower unicode_lower msg in
  str_Contains l "parse error" || (str_Contains l "invalid parameter" && str_Contains l "query") || str_Contains l "unexpected".

Definition classifyUpstream (call : Call) (env : APIResponse) (status : Z) (kind : callKind) : ToolError :=
  let msg := if String.eqb (ar_Error env) "" then text (MReported (ca_ClusterID call) status) else ar_Error env in
  let input : gmap string json := {[ "cluster" := JStr (ca_ClusterID call) ]} in
  let query := default "" (head (form_get (ca_Form call) "query")) in
  let input := if String.eqb query "" then input else <["query" := JStr (ClipRunes query 1024)]> input in
  let m := form_get (ca_Form call) "match[]" in
  let input := if (0 <? length m)%nat then <["matchers" := JArr (JStr <$> m)]> input else input in
  if String.eqb (ar_ErrorType env) "timeout" then WithHint (text HShorten) (WithInput input (newError CodeQueryTimeout msg true))
  else if String.eqb (ar_ErrorType env) "canceled" then WithInput input (newError CodeCanceled msg false)
  else if String.eqb (ar_ErrorType env) "execution" then
    WithHint (text HExec) (set_Caret (promqlCaret query msg) (WithInput input (newError CodePromQLExec msg false)))
  else if String.eqb (ar_ErrorType env) "unavailable" || String.eqb (ar_ErrorType env) "internal" then
    WithHint (text HInternal) (WithInput input (newError CodeUpstreamError msg true))
  else match kind with
  | kindQuery =>
    if isParseError msg then WithHint (text HParse) (set_Caret (promqlCaret query msg) (WithInput input (newError CodePromQLParse msg false)))
    else WithHint (text HExplain) (set_Caret (promqlCaret query msg) (WithInput input (newError CodePromQLExec msg false)))
  | kindSelector => WithHint (text HMatcher) (WithInput input (newError CodeBadMatcher msg false))
  | kindPlain => WithInput input (newError CodeInvalidArgument msg false)
  end.

Definition malformed (cluster : string) (err : DecodeError) : ToolError :=
  match err with
  | ErrNativeHistogram =>
    WithHint (text HHistograms) (WithInput {[ "cluster" := JStr cluster ]} (newError CodeInvalidArgument (text (MHistograms cluster)) false))
  | ErrMalformedUpstream =>
    WithInput {[ "cluster" := JStr cluster ]} (newError CodeMalformedUpstream (text (MUnreadable cluster err)) false)
  end.

Context {Bytes : Type} `{!JsonText Bytes} (body : string → Bytes).

(** [fetch], given what [Do] returned, which is never neither a result nor an
error. *)
Definition fetch (p : Principal) (call : Call) (kind : callKind) (answer : Answer) (now : Z) (r : Registry) : result ToolError APIResponse :=
  match answer with
  | (_, Some err) => Err (mapProxyError p call err now r)
  | (None, None) => Err (WithHint (text HNotPrometheus) (newError CodeMalformedUpstream (text (MNotPrometheus (ca_ClusterID call) 0)) false))
  | (Some res, None) =>
    match DecodeAPIResponse (body (re_Body res)) with
    | Err _ => Err (WithHint (text HNotPrometheus) (newError CodeMalformedUpstream (text (MNotPrometheus (ca_ClusterID call) (re_Status res))) false))
    | Ok env => if Failed (Some env) then Err (classifyUpstream call env (re_Status res) kind) else Ok env
    end
  end.

End tools.

(** * Duplicates *)

Lemma dedupe_loop_elem seen s v : v ∈ dedupe_loop seen s ↔ v ∈ s ∧ v ∉ seen.
Proof.
  revert seen. induction s as [|x s IH]; intros seen; cbn [dedupe_loop]; [split; [by intros ?%elem_of_nil|by intros [?%elem_of_nil _]]|].
  case_bool_decide as Hx; rewrite ?elem_of_cons, IH; rewrite ?not_elem_of_union, ?not_elem_of_singleton; [naive_solver|].
  destruct (decide (v = x)) as [->|]; naive_solver.
Qed.

Lemma dedupe_elem s v : v ∈ dedupe s ↔ v ∈ s.
Proof. unfold dedupe. destruct (length s <? 2)%nat; [done|]. rewrite dedupe_loop_elem. split; [by intros [? _]|]. intros; split; [done|apply not_elem_of_empty]. Qed.

Lemma dedupe_loop_NoDup seen s : NoDup (dedupe_loop seen s).
Proof.
  revert seen. induction s as [|x s IH]; intros seen; cbn [dedupe_loop]; [apply NoDup_nil_2|]. case_bool_decide; [done|].
  apply NoDup_cons. split; [|done]. rewrite dedupe_loop_elem. intros [_ Hn]. apply Hn, elem_of_union_l, elem_of_singleton. done.
Qed.

Lemma dedupe_NoDup s : NoDup (dedupe s).
Proof.
  unfold dedupe. destruct (Nat.ltb_spec (length s) 2); [|apply dedupe_loop_NoDup]. destruct s as [|x [|y s]]; cbn in *; [constructor|apply NoDup_singleton|lia].
Qed.

(** * Lookback *)

Lemma Sub_bound a b l : Sub a b ≤ l → l < max_int64 → a - b ≤ l.
Proof. unfold Sub, min_int64, max_int64. lia. Qed.

Lemma lookbackLimit_tightens t p s : p_Scope p = Some s → 0 < MaxLookback (Scope_Limits s) → lookbackLimit t (Some p) ≤ MaxLookback (Scope_Limits s).
Proof. intros Hs Hl. unfold lookbackLimit. cbn [mbind option_bind]. rewrite Hs. cbv zeta. destruct (Z.ltb_spec 0 (MaxLookback (Scope_Limits s))); lia. Qed.

Section lookback.
Context (text : Text → string) (time_parse : string → option Z) (ParseFloat : string → option float) (seconds : float → Z) (int64_of : float → Z).
Notation resolve := (resolveRange text time_parse ParseFloat seconds int64_of).
Notation parse_time := (ParseTime time_parse ParseFloat seconds int64_of).

(** A window that is let through is not empty and starts within the limit. *)
Lemma resolveRange_Ok t p startArg endArg now echo start end_ : resolve t p startArg endArg now echo = Ok (start, end_) →
  lookbackLimit t p < max_int64 → start < end_ ∧ end_ - start ≤ lookbackLimit t p ∧ now - start ≤ lookbackLimit t p.
Proof.
  intros Hr Hl. revert Hr. unfold resolveRange. destruct (parse_time endArg now) as [e|]; [|done]. destruct (parse_time startArg now) as [s|]; [|done]. cbv zeta.
  set (e' := if IsZero e then now else e). set (s' := if IsZero s then _ else s). clearbody e' s'.
  destruct (After e' s') eqn:Ha; cbn [negb]; [|done]. destruct (Z.ltb_spec (lookbackLimit t p) (Sub e' s')); [done|].
  destruct (Z.ltb_spec (lookbackLimit t p) (Sub now s')); [done|]. intros [= <- <-]. unfold After in Ha. apply Z.ltb_lt in Ha.
  split_and!; [done|by apply Sub_bound..].
Qed.

Lemma checkLookback_None t p at_ now echo : checkLookback text t p at_ now echo = None → lookbackLimit t p < max_int64 → now - at_ ≤ lookbackLimit t p.
Proof. unfold checkLookback. cbv zeta. destruct (Z.leb_spec (Sub now at_) (lookbackLimit t p)); [|done]. intros _ Hl. by apply Sub_bound. Qed.

(** ** The corrected arguments *)

Context (ParseFloat_units : ∀ ds u, str_forall is_digit ds = true → u ∈ ["d"; "h"; "m"; "s"; "ms"] → ParseFloat (ds +:+ u) = None).

Lemma FormatDuration_plain d : 0 < d → d mod Millisecond = 0 → d ≤ max_int64 → str_forall plain (FormatDuration d) = true.
Proof.
  intros Hd Hm Hmax. unfold FormatDuration. destruct (Z.leb_spec d 0); [lia|]. destruct (format_in format_units d) as [s|] eqn:Hf; [|by apply format_in_ms in Hf].
  apply format_in_spec in Hf as (size & u & Hin & Hle & Hmod & ->). apply unit_facts in Hin as (_ & Hu & Hpos & _). rewrite str_forall_app, Hu, andb_true_r.
  assert (0 ≤ d / size ≤ max_int64) as Hq. { split; [apply Z.div_pos; lia|]. etrans; [apply Z.div_le_upper_bound with (q := d)|]; nia. }
  destruct (FormatInt_spec _ Hq) as (_ & Hdig & _). revert Hdig. generalize (FormatInt (d / size)) as ds. induction ds as [|c ds IH]; [done|].
  unfold str_forall in *. cbn [str_exists]. rewrite !negb_orb, !negb_involutive, !andb_true_iff. intros [Hc Hds]. split; [by apply digit_plain|by apply IH].
Qed.

Lemma parse_corrected limit now : 0 < limit ≤ max_int64 → limit mod Millisecond = 0 → parse_time ("now-" +:+ FormatDuration limit) now = Ok (now - limit).
Proof.
  intros Hl Hm. pose proof (FormatDuration_plain limit ltac:(lia) Hm ltac:(lia)) as Hp.
  assert (∀ pre, str_forall plain pre = true → TrimSpace (pre +:+ FormatDuration limit) = pre +:+ FormatDuration limit) as Ht
    by (intros pre Hpre; apply TrimSpace_plain; by rewrite str_forall_app, Hpre, Hp).
  unfold ParseTime. rewrite (Ht "now-") by done. cbv zeta. change (String.eqb ("now-" +:+ FormatDuration limit) "") with false. cbv iota.
  unfold parseRelative. cbv zeta. change (String.eqb ("now-" +:+ FormatDuration limit) "now") with false. change (HasPrefix ("now-" +:+ FormatDuration limit) "now") with true. cbv iota.
  change (str_drop 3 ("now-" +:+ FormatDuration limit)) with ("-" +:+ FormatDuration limit). rewrite (Ht "-") by done.
  change (String.eqb ("-" +:+ FormatDuration limit) "") with false. assert (HasPrefix ("-" +:+ FormatDuration limit) "-" = true) as -> by (by destruct (FormatDuration limit)). cbv iota.
  change (str_drop 1 ("-" +:+ FormatDuration limit)) with (FormatDuration limit). pose proof (Ht "" eq_refl) as Ht0. cbn [String.append] in Ht0. rewrite Ht0.
  rewrite ParsePromDuration_FormatDuration by done. unfold Add. rewrite wrap_int64_id; [f_equal; lia|]. unfold int64_range, min_int64, max_int64 in *. lia.
Qed.

(** The arguments offered in place of too long a range are accepted. *)
Lemma corrected_range_works t p now echo : let limit := lookbackLimit t p in
  0 < limit ≤ max_int64 → limit mod Millisecond = 0 → limit < now →
  resolve t p ("now-" +:+ FormatDuration limit) "now" now echo = Ok (now - limit, now).
Proof.
  intros limit Hl Hm Hn. unfold resolveRange. assert (parse_time "now" now = Ok now) as -> by reflexivity. rewrite parse_corrected by done. cbv zeta. fold limit.
  assert (IsZero now = false) as -> by (apply Z.eqb_neq; lia). assert (IsZero (now - limit) = false) as -> by (apply Z.eqb_neq; lia).
  assert (After now (now - limit) = true) as -> by (apply Z.ltb_lt; lia). cbn [negb]. assert (Sub now (now - limit) = limit) as ->.
  { unfold Sub, min_int64, max_int64 in *. lia. }
  by rewrite Z.ltb_irrefl.
Qed.

(** The time offered in place of too old an instant is refused again: the clock
has moved on between the parse and the check. *)
Lemma corrected_time_is_late t p now later echo : let limit := lookbackLimit t p in
  0 < limit < max_int64 → limit mod Millisecond = 0 → now < later →
  ∃ at_, parse_time ("now-" +:+ FormatDuration limit) now = Ok at_ ∧ checkLookback text t p at_ later echo ≠ None.
Proof.
  intros limit Hl Hm Hlt. exists (now - limit). split; [apply parse_corrected; [lia|done]|]. intros Hc%checkLookback_None; [fold limit in Hc; lia|apply Hl].
Qed.

End lookback.

(** ** Where the limit does not hold *)

Lemma UnixNano_wraps t : UnixNano (t + 2 ^ 64) = UnixNano t.
Proof. unfold UnixNano, wrap_int64. replace (t + 2 ^ 64 - unix_epoch * Second + 2 ^ 63) with (t - unix_epoch * Second + 2 ^ 63 + 1 * 2 ^ 64) by lia. by rewrite Z.mod_add. Qed.

Definition toy_now : Z := (unix_epoch + 1788000000) * Second.
Definition toy_tools : Tools := Tools_New {| tl_tokenCeiling := 0; tl_maxLookback := 0; tl_fanoutConcurrency := 0 |}.
Definition toy_recent : Principal := agent_for "k1" ["prod-eu"] {| MaxLookback := Hour; MaxPoints := 0; MaxSeries := 0; Timeout := 0; MaxResponseBytes := 0; MaxConcurrentPerCluster := 0; RateRPS := 0%float; RateBurst := 0 |}.
(** Two instants of the year 2611, 2^64 nanoseconds after the ones ten days ago. *)
Definition toy_parse (s : string) : option Z :=
  if String.eqb s "2611-01-11T00:00:00Z" then Some (toy_now - 10 * Day + 2 ^ 64)
  else if String.eqb s "2611-01-11T00:30:00Z" then Some (toy_now - 10 * Day + 2 ^ 64 + 30 * Minute) else None.
Definition toy_text (_ : Text) : string := "".

(** A principal held to the last hour asks for half an hour in the far future, and
the times sent to the cluster are those of ten days ago. *)
Lemma future_reads_the_past (FormatFloat : float → string) :
  ∃ start end_, resolveRange toy_text toy_parse digits_float (λ _, 0) (λ _, 0) toy_tools (Some toy_recent) "2611-01-11T00:00:00Z" "2611-01-11T00:30:00Z" toy_now ∅ = Ok (start, end_)
  ∧ lookbackLimit toy_tools (Some toy_recent) = Hour
  ∧ formatUpstreamTime FormatFloat start = formatUpstreamTime FormatFloat (toy_now - 10 * Day)
  ∧ formatUpstreamTime FormatFloat end_ = formatUpstreamTime FormatFloat (toy_now - 10 * Day + 30 * Minute).
Proof.
  exists (toy_now - 10 * Day + 2 ^ 64), (toy_now - 10 * Day + 30 * Minute + 2 ^ 64). split_and!; [vm_compute; reflexivity|vm_compute; reflexivity|..];
    unfold formatUpstreamTime; by rewrite UnixNano_wraps.
Qed.

(** The start offered in place of too old a start leaves the end as it was, which
may lie before it. *)
Lemma corrected_start_fails : ∃ e,
  resolveRange toy_text toy_parse digits_float (λ _, 0) (λ _, 0) toy_tools (Some toy_recent) "now-10h" "now-570m" toy_now (<["start" := JStr "now-10h"]> {[ "end" := JStr "now-570m" ]}) = Err e
  ∧ te_Code e = CodeRangeTooLarge ∧ te_Corrected e !! "start" = Some (JStr "now-1h") ∧ te_Corrected e !! "end" = Some (JStr "now-570m")
  ∧ ∃ e', resolveRange toy_text toy_parse digits_float (λ _, 0) (λ _, 0) toy_tools (Some toy_recent) "now-1h" "now-570m" toy_now (te_Corrected e) = Err e' ∧ te_Code e' = CodeInvalidArgument.
Proof. eexists. split_and!; [vm_compute; reflexivity..|]. eexists. split; vm_compute; reflexivity. Qed.
