(* ===== verification/Fanout.v ===== *)
(** One expression on many clusters: [src/internal/mcptools/fanout.go].

[fanoutQuery] is its three parts: [fanout_plan], everything up to the dispatch;
[dispatch], goroutines over a channel, a machine whose steps interleave freely;
and [fanout_finish], the merge and the account of who answered.  What a cluster
answers is an [Answer] of [Proxy].  The sizes of marshalled values and [Log10] are
parameters as in [Render]. *)

From S2P Require Import Prelude GoFloat Fleet Codec Registry Text PromApi Nearest Step Sanitize PromData Render Proxy PromQL ToolError Guard Tools.
From Stdlib Require Import Floats.PrimFloat.
Open Scope string_scope.
Open Scope Z_scope.

Definition FanoutInstant : string := "instant".
Definition FanoutRange : string := "range".
Definition OnErrorPartial : string := "partial".
Definition OnErrorFail : string := "fail".
Definition ClusterLabel : string := "cluster".
Definition ClusterOriginalLabel : string := "cluster_original".

Record FanoutQueryIn := {
  fi_Query : string;
  fi_Clusters : list string;
  fi_LabelSelector : gmap string string;
  fi_Mode : string;
  fi_Time : string;
  fi_Start : string;
  fi_End : string;
  fi_Step : string;
  fi_MaxClusters : Z;
  fi_MaxSeriesPerCluster : Z;
  fi_Concurrency : Z;
  fi_Deadline : string;
  fi_OnError : string
}.

Record ClusterFailure := { cf_Cluster : string; cf_Code : string; cf_Message : string; cf_Retryable : bool }.
Record Coverage := { cv_Requested : Z; cv_OK : Z; cv_Failed : Z; cv_TimedOut : Z; cv_Complete : bool }.
Record PerCluster := { pc_OK : list string; pc_Failed : list ClusterFailure; pc_TimedOut : list string }.
Record FanoutSeries := { fs_Cluster : string; fs_Labels : gmap string string; fs_Values : list (option float); fs_Max : option float }.

(** A row: cluster, metric name, labels, value. *)
Definition FanoutRow : Type := string * string * gmap string string * Cell.

Record FanoutQueryOut := {
  fo_Mode : string;
  fo_Preamble : string;
  fo_Coverage : Coverage;
  fo_PerCluster : PerCluster;
  fo_Rows : list FanoutRow;
  fo_Start : Z;
  fo_StepSeconds : float;
  fo_Points : Z;
  fo_Series : list FanoutSeries;
  fo_Total : Z;
  fo_Truncated : option Truncation;
  fo_Downsampled : option Downsampled;
  fo_Warnings : list string
}.

Record fanoutResult := {
  fr_cluster : string;
  fr_instant : InstantResult;
  fr_range : RangeResult;
  fr_err : option ToolError;
  fr_timedOut : bool
}.

Record fanoutEncoding := { fe_maxSeries : Z; fe_start : Z; fe_end : Z; fe_step : Z }.

(** Zero values. *)
Definition no_instant : InstantResult :=
  {| ir_ResultType := ""; ir_Time := 0; ir_Columns := []; ir_Rows := []; ir_SharedLabels := ∅; ir_Total := 0; ir_Truncated := None; ir_Warnings := [] |}.
Definition no_downsampled : Downsampled := {| ds_RequestedStep := ""; ds_AppliedStep := ""; ds_Reason := "" |}.
Definition no_range : RangeResult :=
  {| rr_Start := 0; rr_StepSeconds := 0%float; rr_Points := 0; rr_SharedLabels := ∅; rr_Series := []; rr_SeriesTotal := 0; rr_Truncated := None;
     rr_Downsampled := no_downsampled; rr_Warnings := [] |}.
Definition answered (cluster : string) : fanoutResult :=
  {| fr_cluster := cluster; fr_instant := no_instant; fr_range := no_range; fr_err := None; fr_timedOut := false |}.
Definition failing (cluster : string) (e : ToolError) : fanoutResult :=
  {| fr_cluster := cluster; fr_instant := no_instant; fr_range := no_range; fr_err := Some e; fr_timedOut := false |}.
Definition with_instant (i : InstantResult) (r : fanoutResult) : fanoutResult :=
  {| fr_cluster := fr_cluster r; fr_instant := i; fr_range := fr_range r; fr_err := fr_err r; fr_timedOut := fr_timedOut r |}.
Definition with_range (i : RangeResult) (r : fanoutResult) : fanoutResult :=
  {| fr_cluster := fr_cluster r; fr_instant := fr_instant r; fr_range := i; fr_err := fr_err r; fr_timedOut := fr_timedOut r |}.
Definition with_timedOut (b : bool) (r : fanoutResult) : fanoutResult :=
  {| fr_cluster := fr_cluster r; fr_instant := fr_instant r; fr_range := fr_range r; fr_err := fr_err r; fr_timedOut := b |}.

(** * The step *)

Definition reason_text (r : StepReason) : string :=
  match r with
  | StepReasonRequested => "requested_step_honoured"
  | StepReasonMaxPoints => "max_points"
  | StepReasonScrapeInterval => "scrape_interval_floor"
  | StepReasonLadder => "snapped_to_ladder"
  end.

(** The second result of [SelectStep]. *)
Definition downsampled (r : StepRequest) : Downsampled :=
  {| ds_RequestedStep := if 0 <? st_UserStep r then FormatDuration (st_UserStep r) else "auto";
     ds_AppliedStep := FormatDuration (SelectStep r).1; ds_Reason := reason_text (SelectStep r).2 |}.

(** [alignUp]; [None] is the panic of a division by zero. *)
Definition alignUp (t step : Z) : option Z :=
  let sec := trunc_float (Seconds step) in
  if sec =? 0 then None
  else
    let rem := Z.rem (Unix t) sec in
    Some (if rem =? 0 then time_Unix (Unix t) 0 else time_Unix (wrap_int64 (wrap_int64 (Unix t - rem) + sec)) 0).

Section fanout.
Context (text : Text → string) (unicode_lower : string → string).
Context (time_parse : string → option Z) (ParseFloat : string → option float) (seconds : float → Z) (int64_of : float → Z) (FormatFloat : float → string).
Context (Log10 : float → float) (marshal_instant : list Row → option Z) (marshal_range : list RangeSeries → option Z).
Context (marshal_rows : list FanoutRow → option Z) (marshal_series : list FanoutSeries → option Z).
Context {Bytes : Type} `{!JsonText Bytes} (body : string → Bytes).

Definition step_request (start end_ userStep maxPoints : Z) (c : Cluster) : StepRequest :=
  {| st_Start := start; st_End := end_; st_UserStep := userStep;
     st_ScrapeInterval := default 0 (ParsePromDuration ParseFloat seconds (ScrapeInterval (Prometheus c))); st_MaxPoints := maxPoints |}.

Definition commonStep (targets : list Cluster) (start end_ userStep maxPoints : Z) : Z * Downsampled :=
  let '(best, chosen) :=
    foldl (λ '(best, chosen) c,
      let r := step_request start end_ userStep maxPoints c in
      if best <? (SelectStep r).1 then ((SelectStep r).1, downsampled r) else (best, chosen)) (0, no_downsampled) targets in
  (best, {| ds_RequestedStep := ds_RequestedStep chosen; ds_AppliedStep := FormatDuration best;
            ds_Reason := if (1 <? length targets)%nat
                         then ds_Reason chosen +:+ "; common step across " +:+ FormatInt (Z.of_nat (length targets)) +:+ " clusters" else ds_Reason chosen |}).

(** * The selection *)

Definition id_le (a b : Cluster) : Prop := String.le (ID a) (ID b).
#[export] Instance id_le_dec : RelDecision id_le.
Proof. intros a b. unfold id_le. apply _. Defined.

(** The loop over the names asked for. *)
Fixpoint pick_named (byID : gmap string Cluster) (names : list string) : list Cluster * list ClusterFailure :=
  match names with
  | [] => ([], [])
  | name :: names =>
    let '(targets, failures) := pick_named byID names in
    match byID !! name with
    | None => (targets, {| cf_Cluster := ClipRunes name 128; cf_Code := CodeUnknownCluster; cf_Message := text MUnreachable; cf_Retryable := false |} :: failures)
    | Some c => (c :: targets, failures)
    end
  end.

(** What follows the switch: an empty selection is refused, the rest sorted and
cut to size. *)
Definition finish_selection (p : Principal) (in_ : FanoutQueryIn) (maxClusters now : Z) (r : Registry)
    (targets : list Cluster) (failures : list ClusterFailure) : result ToolError (list Cluster * list ClusterFailure) :=
  if (length targets =? 0)%nat then
    let e := WithHint (text HLabels)
      (WithInput (<["clusters" := JArr ((λ s, JStr (ClipRunes s 128)) <$> fi_Clusters in_)]>
                   {[ "labelSelector" := JObj ((λ '(k, v), (k, JStr v)) <$> map_to_list (fi_LabelSelector in_)) ]})
        (newError CodeNoClustersMatched (text MNoneMatched) false)) in
    Err (match fi_Clusters in_ with
         | [] => e
         | name :: _ => set_DidYouMean (didYouMean unicode_lower p name now r) e
         end)
  else
    let targets := merge_sort id_le targets in
    let n := Z.to_nat maxClusters in
    Ok (take n targets,
        (failures ++ ((λ c, {| cf_Cluster := ID c; cf_Code := CodeInvalidArgument; cf_Message := text (MNotQueried maxClusters); cf_Retryable := false |})
                       <$> drop n targets))%list).

Definition selectClusters (p : Principal) (in_ : FanoutQueryIn) (maxClusters now : Z) (r : Registry) : result ToolError (list Cluster * list ClusterFailure) :=
  let visible := Visible (Some p) now r in
  let byID : gmap string Cluster := foldl (λ m c, <[ID c := c]> m) ∅ visible in
  if (0 <? length (fi_Clusters in_))%nat then
    let '(targets, failures) := pick_named byID (dedupe (fi_Clusters in_)) in finish_selection p in_ maxClusters now r targets failures
  else if (0 <? size (fi_LabelSelector in_))%nat then
    finish_selection p in_ maxClusters now r (List.filter (λ c, matchesSelector (Labels c) (fi_LabelSelector in_)) visible) []
  else if maxClusters <? Z.of_nat (length visible) then
    Err (WithHint (text HSelector)
      (WithInput (<["query" := JStr (ClipRunes (fi_Query in_) 512)]> {[ "maxClusters" := JInt maxClusters ]})
        (newError CodeNoSelectorTooBroad (text (MTooBroad (Z.of_nat (length visible)) maxClusters)) false)))
  else finish_selection p in_ maxClusters now r visible [].

(** * The plan *)

Record Plan := {
  pl_mode : string;
  pl_onError : string;
  pl_targets : list Cluster;
  pl_failures : list ClusterFailure;
  pl_concurrency : Z;
  pl_deadline : Z;
  pl_perCluster : Z;
  pl_endpoint : Endpoint;
  pl_form : gmap string (list string);
  pl_encoding : fanoutEncoding;
  pl_downsampled : option Downsampled
}.

Inductive Planned := PlanError (e : ToolError) | PlanPanic | PlanOk (p : Plan).

(** Up to the dispatch; [now] is the clock read for the times and [later] the
reading of [checkLookback].  A principal that reaches a tool has a scope, so
[p.Scope.Limits] is [limitsOf]. *)
Definition fanout_plan (t : Tools) (p : Principal) (in_ : FanoutQueryIn) (now later : Z) (r : Registry) : Planned :=
  let mode := if String.eqb (fi_Mode in_) "" then FanoutInstant else fi_Mode in_ in
  let onError := if String.eqb (fi_OnError in_) "" then OnErrorPartial else fi_OnError in_ in
  if negb (includes [FanoutInstant; FanoutRange] mode) then
    PlanError (WithInput {[ "mode" := JStr (ClipRunes mode 32) ]} (newError CodeInvalidArgument (text (MMode (ClipRunes mode 32))) false))
  else if negb (includes [OnErrorPartial; OnErrorFail] onError) then
    PlanError (WithInput {[ "onError" := JStr (ClipRunes onError 32) ]} (newError CodeInvalidArgument (text (MOnError (ClipRunes onError 32))) false))
  else match validateExpr text (fi_Query in_) "" with
  | Some e => PlanError e
  | None =>
    let a := analyzePromQL (fi_Query in_) in
    if negb (pq_Valid a) then
      let e := WithHint (text HRejected) (WithInput {[ "query" := JStr (ClipRunes (fi_Query in_) 1024) ]}
                 (newError CodePromQLParse (text (MScan (pq_Message a))) false)) in
      PlanError (if 0 <? pq_Position a then set_Caret (spaces (Z.to_nat (caret_col (fi_Query in_) a - 1)) +:+ "^") e else e)
    else
      let maxClusters := clampInt (fi_MaxClusters in_) DefaultMaxClusters 1 MaxClustersCeiling in
      match selectClusters p in_ maxClusters now r with
      | Err e => PlanError e
      | Ok (targets, failures) =>
        match ParseDuration ParseFloat seconds (fi_Deadline in_) with
        | Err err => PlanError (invalidTime text "deadline" (fi_Deadline in_) "" err)
        | Ok deadline =>
          let deadline := Z.min (if deadline <=? 0 then DefaultFanoutDeadline else deadline) MaxFanoutDeadline in
          let limits := limitsOf (Some p) in
          let maxSeries := clampInt (fi_MaxSeriesPerCluster in_) 5 1 50 in
          let maxSeries := if 0 <? MaxSeries limits then Z.min maxSeries (MaxSeries limits) else maxSeries in
          let plan endpoint form start end_ step down :=
            PlanOk {| pl_mode := mode; pl_onError := onError; pl_targets := targets; pl_failures := failures;
                      pl_concurrency := clampInt (fi_Concurrency in_) (tl_fanoutConcurrency t) 1 MaxFanoutConcurrency;
                      pl_deadline := deadline; pl_perCluster := Z.max (Z.quot deadline 2) Second;
                      pl_endpoint := endpoint; pl_form := form;
                      pl_encoding := {| fe_maxSeries := maxSeries; fe_start := start; fe_end := end_; fe_step := step |};
                      pl_downsampled := down |} in
          if String.eqb mode FanoutInstant then
            match ParseTime time_parse ParseFloat seconds int64_of (fi_Time in_) now with
            | Err err => PlanError (invalidTime text "time" (fi_Time in_) "" err)
            | Ok at_ =>
              let at_ := if IsZero at_ then now else at_ in
              match checkLookback text t (Some p) at_ later (<["query" := JStr (ClipRunes (fi_Query in_) 512)]> {[ "time" := JStr (fi_Time in_) ]}) with
              | Some e => PlanError e
              | None =>
                plan "query" (<["time" := [formatUpstreamTime FormatFloat at_]]> {[ "query" := [fi_Query in_] ]}) 0 0 0 None
              end
            end
          else
            match resolveRange text time_parse ParseFloat seconds int64_of t (Some p) (fi_Start in_) (fi_End in_) now
                    (<["query" := JStr (ClipRunes (fi_Query in_) 512)]> (<["start" := JStr (fi_Start in_)]>
                      (<["end" := JStr (fi_End in_)]> {[ "step" := JStr (fi_Step in_) ]}))) with
            | Err e => PlanError e
            | Ok (start, end_) =>
              match ParseDuration ParseFloat seconds (fi_Step in_) with
              | Err err => PlanError (invalidTime text "step" (fi_Step in_) "" err)
              | Ok userStep =>
                let maxPoints := if 0 <? MaxPoints limits then Z.min DefaultMaxPoints (MaxPoints limits) else DefaultMaxPoints in
                let '(step, down) := commonStep targets start end_ userStep maxPoints in
                match alignUp start step with
                | None => PlanPanic
                | Some start =>
                  let start := if After start end_ then end_ else start in
                  plan "query_range"
                    (<["query" := [fi_Query in_]]> (<["start" := [formatUpstreamTime FormatFloat start]]>
                      (<["end" := [formatUpstreamTime FormatFloat end_]]> {[ "step" := [FormatDuration step] ]}))) start end_ step (Some down)
                end
              end
            end
        end
      end
  end.

(** * One cluster *)

Definition the_call (pl : Plan) (c : Cluster) : Call :=
  {| ca_ClusterID := ID c; ca_Endpoint := pl_endpoint pl; ca_LabelName := ""; ca_Form := pl_form pl; ca_Timeout := pl_perCluster pl; ca_MaxBytes := 0; ca_RequestID := "" |}.

(** [queryOne], given what [Do] answered. *)
Definition queryOne (p : Principal) (pl : Plan) (c : Cluster) (answer : Answer) (now : Z) (r : Registry) : fanoutResult :=
  let enc := pl_encoding pl in
  match fetch text unicode_lower body p (the_call pl c) kindQuery answer now r with
  | Err terr => with_timedOut (String.eqb (te_Code terr) CodeQueryTimeout || String.eqb (te_Code terr) CodeCanceled) (failing (ID c) terr)
  | Ok env =>
    match DecodeQueryData (ar_Data env) with
    | Err e => failing (ID c) (malformed text (ID c) e)
    | Ok data =>
      let encode vector matrix :=
        let warnings := (ar_Warnings env ++ ar_Infos env)%list in
        if String.eqb (pl_endpoint pl) "query_range" then
          with_range (EncodeRange Log10 marshal_range
            {| ri_Matrix := matrix; ri_Start := fe_start enc; ri_End := fe_end enc; ri_Step := fe_step enc; ri_Downsampled := no_downsampled;
               ri_Warnings := warnings; ri_SeriesTotalHint := 0 |}
            {| op_Format := ""; op_MaxSeries := fe_maxSeries enc; op_MaxPoints := 0; op_MaxItems := 0; op_TokenCeiling := -1 |}) (answered (ID c))
        else
          with_instant (EncodeInstant Log10 marshal_instant
            {| ii_Vector := vector; ii_Scalar := None; ii_StringValue := ""; ii_ResultType := "vector"; ii_At := 0; ii_Warnings := warnings |}
            {| op_Format := ""; op_MaxSeries := 0; op_MaxPoints := 0; op_MaxItems := fe_maxSeries enc; op_TokenCeiling := -1 |}) (answered (ID c)) in
      if String.eqb (qd_ResultType data) "matrix" then
        if String.eqb (pl_endpoint pl) "query" then failing (ID c) (WithHint (text HUseRange) (newError CodeInvalidArgument (text MRangeVector) false))
        else match DecodeMatrix ParseFloat (qd_Result data) with Err e => failing (ID c) (malformed text (ID c) e) | Ok m => encode [] m end
      else if String.eqb (qd_ResultType data) "scalar" then
        match DecodeScalar ParseFloat (qd_Result data) with
        | Err e => failing (ID c) (malformed text (ID c) e)
        | Ok pt => encode [{| vs_Metric := ∅; vs_Value := pt; vs_Histogram := [] |}] []
        end
      else if String.eqb (qd_ResultType data) "string" then failing (ID c) (WithHint (text HUseQuery) (newError CodeInvalidArgument (text MString) false))
      else match DecodeVector ParseFloat (qd_Result data) with Err e => failing (ID c) (malformed text (ID c) e) | Ok v => encode v [] end
    end
  end.

(** * The merge *)

(** The labels of a series with its cluster's name, and the warning when it had
a cluster label of its own. *)
Definition injectCluster (labels : gmap string string) (cluster : string) (shared : gmap string string) : gmap string string * string :=
  let out := labels ∪ shared in
  let '(out, warn) :=
    match out !! ClusterLabel with
    | Some existing =>
      if negb (String.eqb existing cluster)
      then (<[ClusterOriginalLabel := existing]> out, text (MLabelled cluster ClusterLabel (LabelValue existing) ClusterOriginalLabel))
      else (out, "")
    | None => (out, "")
    end in
  (<[ClusterLabel := cluster]> out, warn).

Definition prefixWarnings (cluster : string) (l : list string) : list string := (λ w, cluster +:+ ": " +:+ w) <$> l.

Definition warned (warn : string) : list string := if String.eqb warn "" then [] else [warn].

(** The labels of a merged row: the cluster has a column of its own. *)
Definition row_labels (labels : gmap string string) (cluster : string) (shared : gmap string string) : gmap string string :=
  delete ClusterLabel (injectCluster labels cluster shared).1.

Definition instant_rows (r : fanoutResult) : list FanoutRow :=
  (λ '(name, labels, value), (fr_cluster r, name, row_labels labels (fr_cluster r) (ir_SharedLabels (fr_instant r)), value)) <$> ir_Rows (fr_instant r).
Definition instant_warnings (r : fanoutResult) : list string :=
  ((ir_Rows (fr_instant r) ≫= λ '(_, labels, _), warned (injectCluster labels (fr_cluster r) (ir_SharedLabels (fr_instant r))).2)
   ++ prefixWarnings (fr_cluster r) (ir_Warnings (fr_instant r)))%list.

Definition range_series (r : fanoutResult) : list FanoutSeries :=
  (λ s, {| fs_Cluster := fr_cluster r; fs_Labels := row_labels (rs_Labels s) (fr_cluster r) (rr_SharedLabels (fr_range r));
           fs_Values := rs_Values s; fs_Max := rs_Max s |}) <$> rr_Series (fr_range r).
Definition range_warnings (r : fanoutResult) : list string :=
  ((rr_Series (fr_range r) ≫= λ s, warned (injectCluster (rs_Labels s) (fr_cluster r) (rr_SharedLabels (fr_range r))).2)
   ++ prefixWarnings (fr_cluster r) (rr_Warnings (fr_range r)))%list.

Definition succeeded (results : list fanoutResult) : list fanoutResult := List.filter (λ r, match fr_err r with None => true | Some _ => false end) results.

(** The truncation note of both merges. *)
Definition merge_truncation (hit : bool) (fitted n total maxSeries : Z) (capHint limitHint : string) : option Truncation :=
  if hit then Some (with_total total (Escalate (Some zero_Truncation) fitted ReasonTokenCeiling capHint))
  else if n <? total then
    Some {| tr_Returned := n; tr_Total := total; tr_Reason := ReasonMaxSeries; tr_Selection := SelectionTopNByMax maxSeries; tr_Hint := limitHint |}
  else None.

Definition mergeInstant (t : Tools) (out : FanoutQueryOut) (results : list fanoutResult) (maxSeries : Z) : FanoutQueryOut :=
  let oks := succeeded results in
  let rows := oks ≫= instant_rows in
  let total := foldr (λ r a, ir_Total (fr_instant r) + a) 0 oks in
  let '(fitted, hit) := FitTokens marshal_rows rows (tl_tokenCeiling t) in
  {| fo_Mode := fo_Mode out; fo_Preamble := fo_Preamble out; fo_Coverage := fo_Coverage out; fo_PerCluster := fo_PerCluster out; fo_Rows := fitted;
     fo_Start := fo_Start out; fo_StepSeconds := fo_StepSeconds out; fo_Points := fo_Points out; fo_Series := fo_Series out; fo_Total := total;
     fo_Truncated := merge_truncation hit (Z.of_nat (length fitted)) (Z.of_nat (length rows)) total maxSeries
                       (text (HCapRows (tl_tokenCeiling t))) (text (HPerCluster maxSeries));
     fo_Downsampled := fo_Downsampled out; fo_Warnings := dedupe (fo_Warnings out ++ (oks ≫= instant_warnings)) |}.

Definition mergeRange (t : Tools) (out : FanoutQueryOut) (results : list fanoutResult) (start end_ step maxSeries : Z) : FanoutQueryOut :=
  let oks := succeeded results in
  let span := Sub end_ start in
  let points := if (0 <=? span) && (0 <? step) then Z.quot span step + 1 else 0 in
  let series := oks ≫= range_series in
  let total := foldr (λ r a, rr_SeriesTotal (fr_range r) + a) 0 oks in
  let '(fitted, hit) := FitTokens marshal_series series (tl_tokenCeiling t) in
  {| fo_Mode := fo_Mode out; fo_Preamble := fo_Preamble out; fo_Coverage := fo_Coverage out; fo_PerCluster := fo_PerCluster out; fo_Rows := fo_Rows out;
     fo_Start := Unix start; fo_StepSeconds := Seconds step; fo_Points := points; fo_Series := fitted; fo_Total := total;
     fo_Truncated := merge_truncation hit (Z.of_nat (length fitted)) (Z.of_nat (length series)) total maxSeries
                       (text (HCapSeries (tl_tokenCeiling t))) (text (HPerClusterRange maxSeries));
     fo_Downsampled := fo_Downsampled out; fo_Warnings := dedupe (fo_Warnings out ++ (oks ≫= range_warnings)) |}.

(** * The account *)

Inductive Outcome := OTimedOut | OFailed (e : ToolError) | OAnswered.
Definition outcome (r : fanoutResult) : Outcome :=
  if fr_timedOut r then OTimedOut else match fr_err r with Some e => OFailed e | None => OAnswered end.

Definition failure_of (r : fanoutResult) (e : ToolError) : ClusterFailure :=
  {| cf_Cluster := fr_cluster r; cf_Code := te_Code e; cf_Message := ClipRunes (te_Message e) 200; cf_Retryable := default false (te_Retryable e) |}.

(** The loop over the results. *)
Definition account_step (acc : Coverage * PerCluster) (r : fanoutResult) : Coverage * PerCluster :=
  let '(cov, pc) := acc in
  match outcome r with
  | OTimedOut => ({| cv_Requested := cv_Requested cov; cv_OK := cv_OK cov; cv_Failed := cv_Failed cov; cv_TimedOut := cv_TimedOut cov + 1; cv_Complete := cv_Complete cov |},
                  {| pc_OK := pc_OK pc; pc_Failed := pc_Failed pc; pc_TimedOut := pc_TimedOut pc ++ [fr_cluster r] |})
  | OFailed e => ({| cv_Requested := cv_Requested cov; cv_OK := cv_OK cov; cv_Failed := cv_Failed cov + 1; cv_TimedOut := cv_TimedOut cov; cv_Complete := cv_Complete cov |},
                  {| pc_OK := pc_OK pc; pc_Failed := pc_Failed pc ++ [failure_of r e]; pc_TimedOut := pc_TimedOut pc |})
  | OAnswered => ({| cv_Requested := cv_Requested cov; cv_OK := cv_OK cov + 1; cv_Failed := cv_Failed cov; cv_TimedOut := cv_TimedOut cov; cv_Complete := cv_Complete cov |},
                  {| pc_OK := pc_OK pc ++ [fr_cluster r]; pc_Failed := pc_Failed pc; pc_TimedOut := pc_TimedOut pc |})
  end%list.

Definition failure_le (a b : ClusterFailure) : Prop := String.le (cf_Cluster a) (cf_Cluster b).
#[export] Instance failure_le_dec : RelDecision failure_le.
Proof. intros a b. unfold failure_le. apply _. Defined.

Definition accountCoverage (out : FanoutQueryOut) (targets : list Cluster) (results : list fanoutResult) (preFailures : list ClusterFailure) : FanoutQueryOut :=
  let '(cov, pc) := foldl account_step
    ({| cv_Requested := Z.of_nat (length targets) + Z.of_nat (length preFailures); cv_OK := 0; cv_Failed := 0; cv_TimedOut := 0; cv_Complete := false |},
     {| pc_OK := []; pc_Failed := []; pc_TimedOut := [] |}) results in
  let pc := {| pc_OK := merge_sort String.le (pc_OK pc); pc_Failed := merge_sort failure_le (pc_Failed pc); pc_TimedOut := merge_sort String.le (pc_TimedOut pc) |} in
  let complete := (cv_OK cov =? cv_Requested cov) && (0 <? cv_Requested cov) in
  let cov := {| cv_Requested := cv_Requested cov; cv_OK := cv_OK cov; cv_Failed := cv_Failed cov; cv_TimedOut := cv_TimedOut cov; cv_Complete := complete |} in
  {| fo_Mode := fo_Mode out;
     fo_Preamble := text (if complete then PComplete (cv_OK cov) else PPartial (cv_OK cov) (cv_Requested cov) (cv_Failed cov) (cv_TimedOut cov));
     fo_Coverage := cov; fo_PerCluster := pc; fo_Rows := fo_Rows out; fo_Start := fo_Start out; fo_StepSeconds := fo_StepSeconds out; fo_Points := fo_Points out;
     fo_Series := fo_Series out; fo_Total := fo_Total out; fo_Truncated := fo_Truncated out; fo_Downsampled := fo_Downsampled out; fo_Warnings := fo_Warnings out |}.

Definition allClustersFailed (out : FanoutQueryOut) (query : string) : ToolError :=
  let pc := fo_PerCluster out in
  let retryable := (0 <? cv_TimedOut (fo_Coverage out)) || existsb cf_Retryable (pc_Failed pc) in
  let input : gmap string json := {[ "query" := JStr (ClipRunes query 512) ]} in
  let requested := cv_Requested (fo_Coverage out) in
  match pc_Failed pc with
  | [] => WithHint (text HConnected) (WithInput input (newError CodeAllClustersFailed (text (MAllFailed requested None)) retryable))
  | first :: _ =>
    WithHint (text (if retryable then HConnected else HPermanent))
      (WithInput (<["firstFailure" := JObj [("cluster", JStr (cf_Cluster first)); ("code", JStr (cf_Code first)); ("message", JStr (cf_Message first))]]> input)
        (newError CodeAllClustersFailed (text (MAllFailed requested (Some (cf_Cluster first, cf_Code first, cf_Message first)))) retryable))
  end.

Definition blank_out (pl : Plan) : FanoutQueryOut :=
  {| fo_Mode := pl_mode pl; fo_Preamble := ""; fo_Coverage := {| cv_Requested := 0; cv_OK := 0; cv_Failed := 0; cv_TimedOut := 0; cv_Complete := false |};
     fo_PerCluster := {| pc_OK := []; pc_Failed := []; pc_TimedOut := [] |}; fo_Rows := []; fo_Start := 0; fo_StepSeconds := 0%float; fo_Points := 0;
     fo_Series := []; fo_Total := 0; fo_Truncated := None; fo_Downsampled := pl_downsampled pl; fo_Warnings := [] |}.

(** The failures of the selection, as results. *)
Definition pre_failed (f : ClusterFailure) : fanoutResult :=
  failing (cf_Cluster f)
    {| te_Code := cf_Code f; te_Message := cf_Message f; te_Input := ∅; te_Hint := ""; te_Retryable := None; te_DidYouMean := []; te_Caret := "";
       te_Corrected := ∅; te_RetryAfterSeconds := 0%float |}.

(** From the dispatch on. *)
Definition fanout_finish (t : Tools) (in_ : FanoutQueryIn) (pl : Plan) (results : list fanoutResult) : result ToolError FanoutQueryOut :=
  let enc := pl_encoding pl in
  let out := blank_out pl in
  let out := if String.eqb (pl_mode pl) FanoutInstant then mergeInstant t out results (fe_maxSeries enc)
             else mergeRange t out results (fe_start enc) (fe_end enc) (fe_step enc) (fe_maxSeries enc) in
  let out := accountCoverage out (pl_targets pl) (results ++ (pre_failed <$> pl_failures pl)) (pl_failures pl) in
  let cov := fo_Coverage out in
  if negb (cv_Complete cov) && String.eqb (pl_onError pl) OnErrorFail then
    Err (WithHint (text HOnPartial)
      (WithInput (<["query" := JStr (ClipRunes (fi_Query in_) 512)]> {[ "onError" := JStr (pl_onError pl) ]})
        (newError CodeAllClustersFailed (text (MPartial (cv_Failed cov + cv_TimedOut cov) (cv_Requested cov))) true)))
  else if (cv_OK cov =? 0) && (0 <? cv_Requested cov) then Err (allClustersFailed out (fi_Query in_))
  else Ok out.

(** * The dispatch *)

(** The dispatcher is about to hand out [dw_next], or has closed the channel; a
worker is idle or at the job with that index; [results] as far as written. *)
Record DispatchWorld := {
  dw_next : nat;
  dw_closed : bool;
  dw_workers : list (option nat);
  dw_results : list (option fanoutResult)
}.

Definition dispatch_start (pl : Plan) : DispatchWorld :=
  {| dw_next := 0; dw_closed := false;
     dw_workers := replicate (Z.to_nat (Z.min (pl_concurrency pl) (Z.of_nat (length (pl_targets pl))))) None;
     dw_results := replicate (length (pl_targets pl)) None |}.

Inductive dispatch_label :=
| DHand (worker : nat)                                        (** an idle worker receives the next job *)
| DClose                                                      (** all jobs are handed out *)
| DDone                                                       (** the dispatcher sees the context ended *)
| DFinish (worker : nat) (answer : Answer) (now : Z) (r : Registry).   (** a worker stores its result *)

Definition not_reached (c : Cluster) : fanoutResult := with_timedOut true (answered (ID c)).

Definition dispatch_exec (p : Principal) (pl : Plan) (l : dispatch_label) (w : DispatchWorld) : option DispatchWorld :=
  match l with
  | DHand k =>
    if dw_closed w then None
    else if (dw_next w <? length (pl_targets pl))%nat then
      match dw_workers w !! k with
      | Some None => Some {| dw_next := S (dw_next w); dw_closed := false; dw_workers := <[k := Some (dw_next w)]> (dw_workers w); dw_results := dw_results w |}
      | _ => None
      end
    else None
  | DClose =>
    if dw_closed w || (dw_next w <? length (pl_targets pl))%nat then None
    else Some {| dw_next := dw_next w; dw_closed := true; dw_workers := dw_workers w; dw_results := dw_results w |}
  | DDone =>
    if dw_closed w || negb (dw_next w <? length (pl_targets pl))%nat then None
    else Some {| dw_next := dw_next w; dw_closed := true; dw_workers := dw_workers w;
                 dw_results := take (dw_next w) (dw_results w) ++ ((λ c, Some (not_reached c)) <$> drop (dw_next w) (pl_targets pl)) |}
  | DFinish k answer now r =>
    match dw_workers w !! k with
    | Some (Some j) =>
      c ← pl_targets pl !! j;
      Some {| dw_next := dw_next w; dw_closed := dw_closed w; dw_workers := <[k := None]> (dw_workers w);
              dw_results := <[j := Some (queryOne p pl c answer now r)]> (dw_results w) |}
    | _ => None
    end
  end.

Fixpoint dispatch_run (p : Principal) (pl : Plan) (ls : list dispatch_label) (w : DispatchWorld) : option DispatchWorld :=
  match ls with [] => Some w | l :: ls => w ← dispatch_exec p pl l w; dispatch_run p pl ls w end.

(** [wg.Wait] has returned. *)
Definition dispatch_over (w : DispatchWorld) : bool := dw_closed w && forallb (λ k, match k with None => true | Some _ => false end) (dw_workers w).

(** [fanoutQuery] where the dispatch took the steps [ls]; [None] when it has not
ended after them. *)
Inductive Fanned := FPanic | FAnswer (a : result ToolError FanoutQueryOut).
Definition fanoutQuery (t : Tools) (p : Principal) (in_ : FanoutQueryIn) (now later : Z) (r : Registry) (ls : list dispatch_label) : option Fanned :=
  match fanout_plan t p in_ now later r with
  | PlanError e => Some (FAnswer (Err e))
  | PlanPanic => Some FPanic
  | PlanOk pl =>
    w ← dispatch_run p pl ls (dispatch_start pl);
    if dispatch_over w then results ← mapM id (dw_results w); Some (FAnswer (fanout_finish t in_ pl results)) else None
  end.

End fanout.

(** * The dispatch fills every slot *)

Section dispatch.
Context (text : Text → string) (unicode_lower : string → string) (ParseFloat : string → option float).
Context (Log10 : float → float) (marshal_instant : list Row → option Z) (marshal_range : list RangeSeries → option Z).
Context {Bytes : Type} `{!JsonText Bytes} (body : string → Bytes).
Notation query_one := (queryOne text unicode_lower ParseFloat Log10 marshal_instant marshal_range body).
Notation exec := (dispatch_exec text unicode_lower ParseFloat Log10 marshal_instant marshal_range body).
Notation drun := (dispatch_run text unicode_lower ParseFloat Log10 marshal_instant marshal_range body).

Definition at_work (k : option nat) : bool := match k with Some _ => true | None => false end.
Definition busy (workers : list (option nat)) : nat := length (List.filter at_work workers).

(** Steps a dispatch can still take. *)
Definition to_do (pl : Plan) (w : DispatchWorld) : nat :=
  if dw_closed w then busy (dw_workers w) else (2 * (length (pl_targets pl) - dw_next w) + busy (dw_workers w) + 1)%nat.

(** What a slot may hold after the steps [ls]: the outcome of the query of its own
target, or that the target was not reached. *)
Definition slot_ok (p : Principal) (pl : Plan) (ls : list dispatch_label) (j : nat) (x : fanoutResult) : Prop :=
  ∃ c, pl_targets pl !! j = Some c ∧
    ((∃ k answer now r, DFinish k answer now r ∈ ls ∧ x = query_one p pl c answer now r) ∨ (DDone ∈ ls ∧ x = not_reached c)).

Record dispatch_inv (p : Principal) (pl : Plan) (ls : list dispatch_label) (w : DispatchWorld) : Prop := {
  di_len : length (dw_results w) = length (pl_targets pl);
  di_next : (dw_next w ≤ length (pl_targets pl))%nat;
  di_workers : length (dw_workers w) = Z.to_nat (Z.min (pl_concurrency pl) (Z.of_nat (length (pl_targets pl))));
  di_held : ∀ k j, dw_workers w !! k = Some (Some j) → (j < dw_next w)%nat ∧ dw_results w !! j = Some None;
  di_once : ∀ k k' j, dw_workers w !! k = Some (Some j) → dw_workers w !! k' = Some (Some j) → k = k';
  di_empty : ∀ j, (j < dw_next w)%nat → dw_results w !! j = Some None → ∃ k, dw_workers w !! k = Some (Some j);
  di_open : dw_closed w = false → ∀ j, (dw_next w ≤ j < length (pl_targets pl))%nat → dw_results w !! j = Some None;
  di_closed : dw_closed w = true → ∀ j, (dw_next w ≤ j)%nat → dw_results w !! j ≠ Some None;
  di_slots : ∀ j x, dw_results w !! j = Some (Some x) → slot_ok p pl ls j x
}.

Lemma busy_insert l k x y : l !! k = Some x →
  (busy (<[k := y]> l) + (if at_work x then 1 else 0) = busy l + (if at_work y then 1 else 0))%nat.
Proof.
  intros Hk. unfold busy. apply list_elem_of_split_length in Hk as (l1 & l2 & -> & ->). rewrite insert_app_r_alt, Nat.sub_diag by lia. cbn [insert list_insert].
  rewrite !List.filter_app, !length_app. simpl. destruct (at_work x), (at_work y); simpl; lia.
Qed.

Lemma dispatch_exec_to_do p pl l w w' : (dw_next w ≤ length (pl_targets pl))%nat → exec p pl l w = Some w' → (to_do pl w' < to_do pl w)%nat.
Proof.
  intros Hle He. unfold to_do. destruct l as [k| | |k answer now r]; cbn [dispatch_exec] in He.
  - destruct (dw_closed w) eqn:Hc; [done|]. destruct (Nat.ltb_spec (dw_next w) (length (pl_targets pl))); [|done].
    destruct (dw_workers w !! k) as [[|]|] eqn:Hk; try done. injection He as <-. cbn [dw_closed dw_next dw_workers].
    pose proof (busy_insert _ _ _ (Some (dw_next w)) Hk) as Hb. simpl in Hb. lia.
  - destruct (dw_closed w || _) eqn:Hc; [done|]. apply orb_false_iff in Hc as [-> _]. injection He as <-. cbn [dw_closed dw_workers]. lia.
  - destruct (dw_closed w || _) eqn:Hc; [done|]. apply orb_false_iff in Hc as [-> _]. injection He as <-. cbn [dw_closed dw_workers]. lia.
  - destruct (dw_workers w !! k) as [[j|]|] eqn:Hk; try done. destruct (pl_targets pl !! j); [|done]. injection He as <-.
    pose proof (busy_insert _ _ _ None Hk) as Hb. simpl in Hb. cbn [dw_closed dw_next dw_workers]. destruct (dw_closed w); lia.
Qed.

Lemma slot_ok_app p pl ls l j x : slot_ok p pl ls j x → slot_ok p pl (ls ++ [l]) j x.
Proof.
  intros (c & Hc & [(k & a & now & r & Hin & Hx)|[Hin Hx]]); exists c; (split; [done|]); [left; exists k, a, now, r|right]; (split; [|done]); apply elem_of_app; by left.
Qed.

Lemma dispatch_start_inv p pl : 0 ≤ pl_concurrency pl → dispatch_inv p pl [] (dispatch_start pl).
Proof.
  intros Hc. split; cbn [dispatch_start dw_results dw_next dw_closed dw_workers].
  - apply length_replicate.
  - lia.
  - apply length_replicate.
  - intros k j [? _]%lookup_replicate. done.
  - intros k k' j [? _]%lookup_replicate. done.
  - lia.
  - intros _ j Hj. apply lookup_replicate. split; [done|lia].
  - done.
  - intros j x [? _]%lookup_replicate. done.
Qed.

Lemma dispatch_exec_inv p pl ls l w w' : dispatch_inv p pl ls w → exec p pl l w = Some w' → dispatch_inv p pl (ls ++ [l]) w'.
Proof.
  intros [H1 H2 H3 H4 H5 H6 H7 H8 H9] He.
  assert (∀ j x, dw_results w !! j = Some (Some x) → slot_ok p pl (ls ++ [l])%list j x) as H9' by (intros j x Hj; apply slot_ok_app; by apply H9).
  destruct l as [k| | |k answer now r]; cbn [dispatch_exec] in He.
  - destruct (dw_closed w) eqn:Hc; [done|]. destruct (Nat.ltb_spec (dw_next w) (length (pl_targets pl))); [|done].
    destruct (dw_workers w !! k) as [[|]|] eqn:Hk; try done. injection He as <-. pose proof (lookup_lt_Some _ _ _ Hk) as Hlt.
    split; cbn [dw_results dw_next dw_closed dw_workers]; try done; [by rewrite length_insert|..].
    + intros k' j. destruct (decide (k = k')) as [<-|]; [rewrite list_lookup_insert_eq by done; intros [= <-]; split; [lia|apply H7; [done|lia]]|].
      rewrite list_lookup_insert_ne by done. intros [? ?]%H4. split; [lia|done].
    + intros k1 k2 j. destruct (decide (k = k1)) as [<-|], (decide (k = k2)) as [<-|]; try done; rewrite ?list_lookup_insert_eq, ?list_lookup_insert_ne by done.
      * intros [= <-] [? _]%H4. lia.
      * intros [? _]%H4 [= <-]. lia.
      * apply H5.
    + intros j Hj Hn. destruct (decide (j = dw_next w)) as [->|]; [exists k; by apply list_lookup_insert_eq|].
      destruct (H6 j) as [k' Hk']; [lia|done|]. exists k'. rewrite list_lookup_insert_ne; [done|]. intros <-. congruence.
    + intros _ j Hj. apply H7; [done|lia].
  - destruct (dw_closed w || _) eqn:Hc; [done|]. apply orb_false_iff in Hc as [Hc Hn]. apply Nat.ltb_ge in Hn. injection He as <-.
    split; cbn [dw_results dw_next dw_closed dw_workers]; try done. intros _ j Hj Hl. apply lookup_lt_Some in Hl. lia.
  - destruct (dw_closed w || _) eqn:Hc; [done|]. apply orb_false_iff in Hc as [Hc Hn]. apply negb_false_iff, Nat.ltb_lt in Hn. injection He as <-.
    assert (∀ j, (j < dw_next w)%nat → (take (dw_next w) (dw_results w) ++ ((λ c, Some (not_reached c)) <$> drop (dw_next w) (pl_targets pl)))%list !! j = dw_results w !! j) as Hlow.
    { intros j Hj. rewrite lookup_app_l by (rewrite length_take; lia). by apply lookup_take_lt. }
    assert (∀ j, (dw_next w ≤ j)%nat → (take (dw_next w) (dw_results w) ++ ((λ c, Some (not_reached c)) <$> drop (dw_next w) (pl_targets pl)))%list !! j = (λ c, Some (not_reached c)) <$> pl_targets pl !! j) as Hhigh.
    { intros j Hj. rewrite lookup_app_r by (rewrite length_take; lia). rewrite length_take, list_lookup_fmap, lookup_drop. do 2 f_equal. lia. }
    split; cbn [dw_results dw_next dw_closed dw_workers]; try done.
    + rewrite length_app, length_take, length_fmap, length_drop. lia.
    + intros k j Hk. destruct (H4 _ _ Hk) as [Hj Hr]. split; [done|]. by rewrite Hlow.
    + intros j Hj. rewrite Hlow by done. by apply H6.
    + intros _ j Hj. rewrite Hhigh by done. by destruct (pl_targets pl !! j).
    + intros j x. destruct (decide (j < dw_next w)%nat); [rewrite Hlow by done; apply H9'|]. rewrite Hhigh by lia.
      destruct (pl_targets pl !! j) as [c|] eqn:Hcj; [|done]. intros [= <-]. exists c. split; [done|]. right. split; [|done]. apply elem_of_app. right. apply list_elem_of_here.
  - destruct (dw_workers w !! k) as [[j|]|] eqn:Hk; try done. destruct (pl_targets pl !! j) as [c|] eqn:Hcj; [|done]. injection He as <-.
    destruct (H4 _ _ Hk) as [Hj Hr]. pose proof (lookup_lt_Some _ _ _ Hk) as Hlt. pose proof (lookup_lt_Some _ _ _ Hr) as Hlr.
    split; cbn [dw_results dw_next dw_closed dw_workers]; try done; [by rewrite length_insert|by rewrite length_insert|..].
    + intros k' j'. destruct (decide (k = k')) as [<-|]; [by rewrite list_lookup_insert_eq|]. rewrite list_lookup_insert_ne by done. intros Hk'.
      destruct (H4 _ _ Hk') as [Hj' Hr']. split; [done|]. rewrite list_lookup_insert_ne; [done|]. intros <-. by apply n, (H5 _ _ j).
    + intros k1 k2 j'. destruct (decide (k = k1)) as [<-|]; [by rewrite list_lookup_insert_eq|]. destruct (decide (k = k2)) as [<-|]; [by rewrite list_lookup_insert_eq|].
      rewrite !list_lookup_insert_ne by done. apply H5.
    + intros j' Hj'. destruct (decide (j = j')) as [<-|]; [by rewrite list_lookup_insert_eq|]. rewrite list_lookup_insert_ne by done. intros Hn.
      destruct (H6 _ Hj' Hn) as [k' Hk']. exists k'. rewrite list_lookup_insert_ne; [done|]. intros <-. congruence.
    + intros Hc j' Hj'. rewrite list_lookup_insert_ne by lia. by apply H7.
    + intros Hc j' Hj'. rewrite list_lookup_insert_ne by lia. by apply H8.
    + intros j' x. destruct (decide (j = j')) as [<-|]; [|rewrite list_lookup_insert_ne by done; apply H9'].
      rewrite list_lookup_insert_eq by done. intros [= <-]. exists c. split; [done|]. left. exists k, answer, now, r. split; [|done]. apply elem_of_app. right. apply list_elem_of_here.
Qed.

Lemma drun_snoc p pl ls l w : drun p pl (ls ++ [l])%list w = drun p pl ls w ≫= exec p pl l.
Proof.
  revert w. induction ls as [|l' ls IH]; intros w; cbn [app dispatch_run].
  - destruct (exec p pl l w) eqn:He; cbn [mbind option_bind]; by rewrite He.
  - destruct (exec p pl l' w); cbn [mbind option_bind]; [apply IH|done].
Qed.

Lemma drun_inv p pl ls w : 0 ≤ pl_concurrency pl → drun p pl ls (dispatch_start pl) = Some w →
  dispatch_inv p pl ls w ∧ (length ls + to_do pl w ≤ to_do pl (dispatch_start pl))%nat.
Proof.
  intros Hc. revert w. induction ls as [|l ls IH] using rev_ind; intros w Hr.
  - injection Hr as <-. split; [by apply dispatch_start_inv|done].
  - rewrite drun_snoc in Hr. destruct (drun p pl ls (dispatch_start pl)) as [w0|] eqn:Hr0; [|done]. cbn [mbind option_bind] in Hr.
    destruct (IH _ eq_refl) as [Hinv Hlen]. split; [by eapply dispatch_exec_inv|]. apply dispatch_exec_to_do in Hr; [|apply Hinv]. rewrite length_app. simpl. lia.
Qed.

Lemma busy_idle l : busy l = 0%nat ↔ forallb (λ k, match k with None => true | Some _ => false end) l = true.
Proof. unfold busy. induction l as [|[j|] l IH]; [done| |]; simpl; [split; [lia|done]|exact IH]. Qed.

Lemma dispatch_over_spec w : dispatch_over w = true ↔ dw_closed w = true ∧ ∀ k j, dw_workers w !! k = Some j → j = None.
Proof.
  unfold dispatch_over. rewrite andb_true_iff, forallb_forall. split; intros [H1 H2]; (split; [done|]).
  - intros k [j|] Hk; [|done]. apply list_elem_of_lookup_2, list_elem_of_In, H2 in Hk. done.
  - intros [j|] [k Hk]%list_elem_of_In%list_elem_of_lookup; [by apply H2 in Hk|done].
Qed.

(** Until the dispatch is over a step can be taken, whatever the answers are. *)
Lemma dispatch_progress p pl ls w : 0 < pl_concurrency pl → (0 < length (pl_targets pl))%nat → dispatch_inv p pl ls w → dispatch_over w = false →
  ∃ k, ∀ answer now r, ∃ l w', exec p pl l w = Some w' ∧ l ∈ [DHand k; DClose; DFinish k answer now r].
Proof.
  intros Hc Hn [H1 H2 H3 H4 H5 H6 H7 H8 H9] Hover.
  destruct (decide (Exists (λ x, at_work x = true) (dw_workers w))) as [Hb|Hb].
  - apply Exists_exists in Hb as ([j|] & Hin & Hw); [|done]. apply list_elem_of_lookup in Hin as [k Hk]. exists k. intros answer now r.
    destruct (H4 _ _ Hk) as [Hj _]. destruct (lookup_lt_is_Some_2 (pl_targets pl) j) as [c Hcj]; [lia|].
    eexists (DFinish k answer now r), _. cbn [dispatch_exec]. rewrite Hk, Hcj. split; [done|]. set_solver.
  - assert (∀ k j, dw_workers w !! k = Some j → j = None) as Hidle.
    { intros k [j|] Hk; [|done]. exfalso. apply Hb. apply Exists_exists. exists (Some j). split; [by eapply list_elem_of_lookup_2|done]. }
    destruct (dw_closed w) eqn:Hcl; [exfalso; apply not_true_iff_false in Hover; apply Hover; by apply dispatch_over_spec|].
    destruct (decide (dw_next w < length (pl_targets pl))%nat) as [Hlt|Hge].
    + destruct (lookup_lt_is_Some_2 (dw_workers w) 0%nat) as [j Hk]; [rewrite H3; lia|]. pose proof (Hidle _ _ Hk) as ->. exists 0%nat. intros answer now r.
      eexists (DHand 0), _. cbn [dispatch_exec]. rewrite Hcl, Hk. apply Nat.ltb_lt in Hlt. rewrite Hlt. split; [done|]. apply list_elem_of_here.
    + exists 0%nat. intros answer now r. eexists DClose, _. cbn [dispatch_exec]. rewrite Hcl. apply Nat.nlt_ge, Nat.ltb_ge in Hge. rewrite Hge. split; [done|].
      apply list_elem_of_further, list_elem_of_here.
Qed.

(** When it is over every slot is filled. *)
Lemma dispatch_filled p pl ls w : dispatch_inv p pl ls w → dispatch_over w = true →
  ∃ results, mapM id (dw_results w) = Some results ∧ length results = length (pl_targets pl) ∧ ∀ j x, results !! j = Some x → slot_ok p pl ls j x.
Proof.
  intros [H1 H2 H3 H4 H5 H6 H7 H8 H9] [Hcl Hidle]%dispatch_over_spec.
  assert (Forall is_Some (dw_results w)) as Hall.
  { apply Forall_lookup. intros j [x|] Hj; [by exists x|]. exfalso. destruct (decide (j < dw_next w)%nat) as [Hlt|Hge].
    - destruct (H6 _ Hlt Hj) as [k Hk]. by apply Hidle in Hk.
    - apply (H8 Hcl j); [lia|done]. }
  destruct (mapM_is_Some_2 id (dw_results w) Hall) as [results Hm]. exists results. pose proof (mapM_Some_1 _ _ _ Hm) as Hf.
  split_and!; [done|rewrite <- H1; symmetry; by eapply Forall2_length|]. intros j x Hj.
  destruct (Forall2_lookup_r _ _ _ _ _ Hf Hj) as (y & Hy & Hxy). simpl in Hxy. subst y. by apply H9.
Qed.

(** C28: The dispatch of a fan-out ends, and every slot is filled once with its own
cluster's outcome.  However workers, dispatcher and deadline interleave: no more
than the agreed number of clusters are asked at a time, and no cluster by two
workers; after at most two steps per target and one more there is nothing left to
do, and until then some step is possible whatever the clusters answer; and when
it is over each slot holds the outcome of one query of its own target, or that
the target was not reached before the deadline. *)
Theorem dispatch_complete (p : Principal) (pl : Plan) (ls : list dispatch_label) (w : DispatchWorld) :
  0 < pl_concurrency pl → (0 < length (pl_targets pl))%nat → drun p pl ls (dispatch_start pl) = Some w →
  (Z.of_nat (busy (dw_workers w)) ≤ pl_concurrency pl ∧ ∀ k k' j, dw_workers w !! k = Some (Some j) → dw_workers w !! k' = Some (Some j) → k = k')
  ∧ (length ls ≤ 2 * length (pl_targets pl) + 1)%nat
  ∧ (dispatch_over w = false → ∃ k, ∀ answer now r, ∃ l w', exec p pl l w = Some w' ∧ l ∈ [DHand k; DClose; DFinish k answer now r])
  ∧ (dispatch_over w = true → ∃ results, mapM id (dw_results w) = Some results ∧ length results = length (pl_targets pl)
       ∧ ∀ j x, results !! j = Some x → slot_ok p pl ls j x).
Proof.
  intros Hc Hn Hrun. destruct (drun_inv p pl ls w ltac:(lia) Hrun) as [Hinv Hlen]. split_and!.
  - pose proof (di_workers _ _ _ _ Hinv) as Hw. assert (busy (dw_workers w) ≤ length (dw_workers w))%nat; [|lia]. unfold busy. apply List.filter_length_le.
  - apply (di_once _ _ _ _ Hinv).
  - assert (busy (replicate (Z.to_nat (Z.min (pl_concurrency pl) (Z.of_nat (length (pl_targets pl))))) None) = 0%nat) as Hb.
    { apply busy_idle, forallb_forall. intros x Hx. apply list_elem_of_In, list_elem_of_lookup in Hx as [k [-> _]%lookup_replicate]. done. }
    unfold to_do at 2 in Hlen. cbn [dispatch_start dw_closed dw_next dw_workers] in Hlen. rewrite Hb in Hlen. lia.
  - by eapply dispatch_progress.
  - by apply dispatch_filled.
Qed.

End dispatch.

(** * The account is complete *)

Section account.
Context (text : Text → string).

Definition ok_of (r : fanoutResult) : option string := match outcome r with OAnswered => Some (fr_cluster r) | _ => None end.
Definition fail_of (r : fanoutResult) : option ClusterFailure := match outcome r with OFailed e => Some (failure_of r e) | _ => None end.
Definition late_of (r : fanoutResult) : option string := match outcome r with OTimedOut => Some (fr_cluster r) | _ => None end.

Lemma omap_cons_eq {A B} (f : A → option B) x l : omap f (x :: l) = match f x with Some y => y :: omap f l | None => omap f l end.
Proof. done. Qed.

Lemma outcome_cases r :
  (outcome r = OTimedOut ∧ ok_of r = None ∧ fail_of r = None ∧ late_of r = Some (fr_cluster r))
  ∨ (∃ e, outcome r = OFailed e ∧ ok_of r = None ∧ fail_of r = Some (failure_of r e) ∧ late_of r = None)
  ∨ (outcome r = OAnswered ∧ ok_of r = Some (fr_cluster r) ∧ fail_of r = None ∧ late_of r = None).
Proof. unfold ok_of, fail_of, late_of. destruct (outcome r) as [|e|]; naive_solver. Qed.

Lemma account_fold results cov pc :
  foldl account_step (cov, pc) results
  = ({| cv_Requested := cv_Requested cov; cv_OK := cv_OK cov + Z.of_nat (length (omap ok_of results));
        cv_Failed := cv_Failed cov + Z.of_nat (length (omap fail_of results));
        cv_TimedOut := cv_TimedOut cov + Z.of_nat (length (omap late_of results)); cv_Complete := cv_Complete cov |},
     {| pc_OK := pc_OK pc ++ omap ok_of results; pc_Failed := pc_Failed pc ++ omap fail_of results; pc_TimedOut := pc_TimedOut pc ++ omap late_of results |}%list).
Proof.
  revert cov pc. induction results as [|r results IH]; intros cov pc.
  - destruct cov, pc. simpl. rewrite !app_nil_r, !Z.add_0_r. done.
  - cbn [foldl]. unfold account_step at 2. rewrite !omap_cons_eq.
    destruct (outcome_cases r) as [(-> & -> & -> & ->)|[(e & -> & -> & -> & ->)|(-> & -> & -> & ->)]]; rewrite IH; cbn [cv_Requested cv_OK cv_Failed cv_TimedOut cv_Complete pc_OK pc_Failed pc_TimedOut length];
      rewrite <- ?app_assoc; cbn [app]; f_equal; f_equal; try done; lia.
Qed.

(** Every result is in exactly one of the three lists. *)
Lemma buckets_perm results :
  (omap ok_of results ++ (cf_Cluster <$> omap fail_of results) ++ omap late_of results)%list ≡ₚ fr_cluster <$> results.
Proof.
  induction results as [|r results IH]; [done|]. cbn [fmap list_fmap]. rewrite <- IH.
  rewrite !omap_cons_eq. destruct (outcome_cases r) as [(_ & -> & -> & ->)|[(e & _ & -> & -> & ->)|(_ & -> & -> & ->)]];
    cbn [fmap list_fmap app failure_of cf_Cluster]; [|symmetry; apply Permutation_middle|done].
  by rewrite !app_assoc, <- Permutation_middle.
Qed.
End account.

(** ** The selection *)

Section selection.
Context (text : Text → string) (unicode_lower : string → string).

(** The names a fan-out is asked for: those given, or those of the visible
clusters the selector admits. *)
Definition selected (p : Principal) (in_ : FanoutQueryIn) (now : Z) (r : Registry) : list string :=
  if (0 <? length (fi_Clusters in_))%nat then dedupe (fi_Clusters in_)
  else ID <$> List.filter (λ c, matchesSelector (Labels c) (fi_LabelSelector in_)) (Visible (Some p) now r).

(** How a name is shown: one that is not visible is clipped. *)
Definition shown (p : Principal) (now : Z) (r : Registry) (name : string) : string :=
  if Contains (ID <$> Visible (Some p) now r) name then name else ClipRunes name 128.

Lemma byID_spec cs (m : gmap string Cluster) name :
  (foldl (λ m c, <[ID c := c]> m) m cs !! name = None ↔ m !! name = None ∧ name ∉ ID <$> cs)
  ∧ ∀ c, foldl (λ m c, <[ID c := c]> m) m cs !! name = Some c → m !! name = Some c ∨ (c ∈ cs ∧ ID c = name).
Proof.
  revert m. induction cs as [|d cs IH]; intros m.
  - cbn [foldl fmap list_fmap]. split; [|by left]. split; [by intros ->; split; [|apply not_elem_of_nil]|by intros [? _]].
  - cbn [foldl fmap list_fmap]. destruct (IH (<[ID d := d]> m)) as [IH1 IH2]. rewrite IH1. split.
    + rewrite not_elem_of_cons, lookup_insert_None. naive_solver.
    + intros c [H|[H1 H2]]%IH2; [|right; split; [by apply list_elem_of_further|done]].
      apply lookup_insert_Some in H as [[<- <-]|[_ ?]]; [right; split; [apply list_elem_of_here|done]|by left].
Qed.

Lemma pick_named_spec cs names :
  let byID : gmap string Cluster := foldl (λ m c, <[ID c := c]> m) ∅ cs in
  let '(targets, failures) := pick_named text byID names in
  ((ID <$> targets) ++ (cf_Cluster <$> failures))%list ≡ₚ (λ n, if Contains (ID <$> cs) n then n else ClipRunes n 128) <$> names
  ∧ Forall (λ c, c ∈ cs) targets.
Proof.
  intros byID. induction names as [|n names IH]; cbn [pick_named]; [done|]. destruct (pick_named text byID names) as [targets failures].
  destruct IH as [IHp IHf]. destruct (byID_spec cs ∅ n) as [Hnone Hsome]. fold byID in Hnone, Hsome. destruct (byID !! n) as [c|] eqn:Hn.
  - destruct (Hsome c eq_refl) as [Hc|[Hc Hid]]; [by rewrite lookup_empty in Hc|]. split; [|by constructor].
    cbn [fmap list_fmap app]. rewrite IHp, Hid. assert (Contains (ID <$> cs) n = true) as ->; [|done].
    apply Contains_spec. rewrite <- Hid. by apply list_elem_of_fmap_2.
  - split; [|done]. cbn [fmap list_fmap]. rewrite <- Permutation_middle, IHp. cbn [cf_Cluster].
    destruct Hnone as [[_ Hnot] _]; [done|]. destruct (Contains (ID <$> cs) n) eqn:Hc; [by apply Contains_spec in Hc|done].
Qed.

#[export] Instance id_le_total : Total id_le.
Proof. intros a b. unfold id_le. apply String.le_total. Qed.
#[export] Instance id_le_trans : Transitive id_le.
Proof. intros a b c. unfold id_le. intros. by etrans. Qed.

Lemma finish_selection_spec p in_ maxClusters now r cs fs targets failures : 1 ≤ maxClusters →
  finish_selection text unicode_lower p in_ maxClusters now r cs fs = Ok (targets, failures) →
  ((ID <$> targets) ++ (cf_Cluster <$> failures))%list ≡ₚ ((ID <$> cs) ++ (cf_Cluster <$> fs))%list
  ∧ (∀ c, c ∈ targets → c ∈ cs) ∧ (0 < length targets)%nat ∧ Z.of_nat (length targets) ≤ maxClusters ∧ StronglySorted id_le targets.
Proof.
  intros Hm. unfold finish_selection. destruct (Nat.eqb_spec (length cs) 0) as [|Hne]; [done|]. intros [= <- <-].
  pose proof (merge_sort_Permutation id_le cs) as Hp. pose proof (StronglySorted_merge_sort id_le cs) as Hs.
  set (l := merge_sort id_le cs) in *. set (n := Z.to_nat maxClusters).
  assert ((ID <$> take n l) ++ (ID <$> drop n l) ≡ₚ ID <$> cs)%list as Hsplit by (by rewrite <- fmap_app, take_drop, Hp).
  rewrite <- Hsplit, fmap_app, <- list_fmap_compose. split_and!.
  - rewrite <- !app_assoc. apply Permutation_app_head. rewrite (Permutation_app_comm (cf_Cluster <$> fs)). done.
  - intros c Hc%elem_of_take. destruct Hc as (i & Hc & _). rewrite <- Hp. by eapply list_elem_of_lookup_2.
  - rewrite length_take, (Permutation_length Hp). lia.
  - rewrite length_take. lia.
  - rewrite <- (take_drop n l) in Hs. by apply StronglySorted_app_1_l in Hs.
Qed.

(** Every name asked for is a target or a failure, once; the targets are visible
to the principal, there is at least one, no more than asked for, in order. *)
Lemma selectClusters_spec p in_ maxClusters now r targets failures : 1 ≤ maxClusters →
  selectClusters text unicode_lower p in_ maxClusters now r = Ok (targets, failures) →
  ((ID <$> targets) ++ (cf_Cluster <$> failures))%list ≡ₚ shown p now r <$> selected p in_ now r
  ∧ (∀ c, c ∈ targets → c ∈ Visible (Some p) now r) ∧ (0 < length targets)%nat ∧ Z.of_nat (length targets) ≤ maxClusters ∧ StronglySorted id_le targets.
Proof.
  intros Hm. unfold selectClusters, selected. cbv zeta. set (visible := Visible (Some p) now r).
  assert (∀ cs, (∀ c, c ∈ cs → c ∈ visible) → (ID <$> cs) ≡ₚ shown p now r <$> (ID <$> cs)) as Hshown.
  { intros cs Hin. rewrite <- list_fmap_compose. assert (ID <$> cs = shown p now r ∘ ID <$> cs) as <-; [|done]. apply list_fmap_ext.
    intros i c Hc. unfold shown, compose. fold visible. assert (Contains (ID <$> visible) (ID c) = true) as ->; [|done].
    apply Contains_spec, list_elem_of_fmap_2, Hin. by eapply list_elem_of_lookup_2. }
  assert (∀ cs, (∀ c, c ∈ cs → c ∈ visible) → finish_selection text unicode_lower p in_ maxClusters now r cs [] = Ok (targets, failures) →
    ((ID <$> targets) ++ (cf_Cluster <$> failures))%list ≡ₚ shown p now r <$> (ID <$> cs)
    ∧ (∀ c, c ∈ targets → c ∈ visible) ∧ (0 < length targets)%nat ∧ Z.of_nat (length targets) ≤ maxClusters ∧ StronglySorted id_le targets) as Hgo.
  { intros cs Hin (H1 & H2 & H3 & H4 & H5)%finish_selection_spec; [|done]. rewrite H1, <- Hshown by done. cbn [fmap list_fmap]. rewrite app_nil_r. naive_solver. }
  destruct (0 <? length (fi_Clusters in_))%nat.
  - pose proof (pick_named_spec visible (dedupe (fi_Clusters in_))) as Hp. cbv zeta in Hp. destruct (pick_named _ _ _) as [cs fs]. destruct Hp as [Hp Hf].
    intros (H1 & H2 & H3 & H4 & H5)%finish_selection_spec; [|done]. rewrite H1, Hp. rewrite Forall_forall in Hf. naive_solver.
  - assert (∀ c, c ∈ List.filter (λ c, matchesSelector (Labels c) (fi_LabelSelector in_)) visible → c ∈ visible) as Hin.
    { intros c [Hc _]%list_elem_of_In%filter_In. by apply list_elem_of_In. }
    destruct (Nat.ltb_spec 0 (size (fi_LabelSelector in_))) as [|Hsz]; [by apply Hgo|]. destruct (_ <? _); [done|]. intros Hf. apply Hgo; [done|].
    assert (fi_LabelSelector in_ = ∅) as -> by (apply map_size_empty_inv; lia). assert (List.filter (λ c, matchesSelector (Labels c) ∅) visible = visible) as ->; [|done].
    clear. induction visible as [|c l IH]; [done|]. cbn [List.filter]. unfold matchesSelector at 1. rewrite map_to_list_empty. simpl. by rewrite IH.
Qed.

End selection.

(** ** The result *)

Lemma FitTokens_prefix {T} (marshal : list T → option Z) items ceiling : ∃ k, (FitTokens marshal items ceiling).1 = take k items.
Proof.
  assert (∀ fuel n, ∃ k, fit_loop fuel marshal items ceiling n = take k items) as Hloop.
  { induction fuel as [|fuel IH]; intros n; [by exists 0%nat|]. cbn [fit_loop]. destruct (n <=? 0); [by exists 0%nat|]. cbv zeta. destruct (_ <=? _); [by eexists|apply IH]. }
  unfold FitTokens. destruct (_ || _); [exists (length items); by rewrite take_ge|]. destruct (_ <=? _); [exists (length items); by rewrite take_ge|]. apply Hloop.
Qed.

Lemma clampInt_bounds n def lo hi : lo ≤ hi → lo ≤ clampInt n def lo hi ≤ hi.
Proof. unfold clampInt. lia. Qed.

Section result.
Context (text : Text → string) (unicode_lower : string → string).
Context (time_parse : string → option Z) (ParseFloat : string → option float) (seconds : float → Z) (int64_of : float → Z) (FormatFloat : float → string).
Context (Log10 : float → float) (marshal_instant : list Row → option Z) (marshal_range : list RangeSeries → option Z).
Context (marshal_rows : list FanoutRow → option Z) (marshal_series : list FanoutSeries → option Z).
Context {Bytes : Type} `{!JsonText Bytes} (body : string → Bytes).
Notation plan := (fanout_plan text unicode_lower time_parse ParseFloat seconds int64_of FormatFloat).
Notation finish := (fanout_finish text marshal_rows marshal_series).
Notation query_one := (queryOne text unicode_lower ParseFloat Log10 marshal_instant marshal_range body).
Notation drun := (dispatch_run text unicode_lower ParseFloat Log10 marshal_instant marshal_range body).
Notation fanout := (fanoutQuery text unicode_lower time_parse ParseFloat seconds int64_of FormatFloat Log10 marshal_instant marshal_range marshal_rows marshal_series body).

(** What a plan is made from. *)
Lemma fanout_plan_Ok t p in_ now later r pl : plan t p in_ now later r = PlanOk pl →
  (∃ mc, 1 ≤ mc ≤ MaxClustersCeiling ∧ selectClusters text unicode_lower p in_ mc now r = Ok (pl_targets pl, pl_failures pl))
  ∧ 1 ≤ pl_concurrency pl ≤ MaxFanoutConcurrency
  ∧ pl_onError pl = (if String.eqb (fi_OnError in_) "" then OnErrorPartial else fi_OnError in_)
  ∧ pl_mode pl = (if String.eqb (fi_Mode in_) "" then FanoutInstant else fi_Mode in_)
  ∧ pq_Valid (analyzePromQL (fi_Query in_)) = true.
Proof.
  unfold fanout_plan. cbv zeta. destruct (negb (includes _ _)); [done|]. destruct (negb (includes _ _)); [done|].
  destruct (validateExpr _ _ _); [done|]. destruct (pq_Valid _); cbn [negb]; [|done].
  destruct (selectClusters _ _ _ _ _ _ _) as [[targets failures]|] eqn:Hsel; [|done].
  destruct (ParseDuration _ _ (fi_Deadline in_)); [|done]. pose proof (clampInt_bounds (fi_MaxClusters in_) DefaultMaxClusters 1 MaxClustersCeiling ltac:(done)).
  pose proof (clampInt_bounds (fi_Concurrency in_) (tl_fanoutConcurrency t) 1 MaxFanoutConcurrency ltac:(done)).
  assert (∀ pl', pl_targets pl' = targets → pl_failures pl' = failures → pl_concurrency pl' = clampInt (fi_Concurrency in_) (tl_fanoutConcurrency t) 1 MaxFanoutConcurrency →
    pl_onError pl' = (if String.eqb (fi_OnError in_) "" then OnErrorPartial else fi_OnError in_) →
    pl_mode pl' = (if String.eqb (fi_Mode in_) "" then FanoutInstant else fi_Mode in_) → PlanOk pl' = PlanOk pl →
    (∃ mc, 1 ≤ mc ≤ MaxClustersCeiling ∧ selectClusters text unicode_lower p in_ mc now r = Ok (pl_targets pl, pl_failures pl))
    ∧ 1 ≤ pl_concurrency pl ≤ MaxFanoutConcurrency ∧ pl_onError pl = (if String.eqb (fi_OnError in_) "" then OnErrorPartial else fi_OnError in_)
    ∧ pl_mode pl = (if String.eqb (fi_Mode in_) "" then FanoutInstant else fi_Mode in_) ∧ true = true) as Hgo.
  { intros pl' H1 H2 H3 H4 H5 [= <-]. rewrite H1, H2, H3, H4, H5. split_and!; try done; try lia. eexists. split; [done|exact Hsel]. }
  destruct (String.eqb _ FanoutInstant).
  - destruct (ParseTime _ _ _ _ _ _); [|done]. destruct (checkLookback _ _ _ _ _ _); [done|]. by apply Hgo.
  - destruct (resolveRange _ _ _ _ _ _ _ _ _ _ _) as [[start end_]|]; [|done]. destruct (ParseDuration _ _ (fi_Step in_)); [|done].
    destruct (commonStep _ _ _ _ _ _ _) as [step down]. destruct (alignUp _ _); [|done]. by apply Hgo.
Qed.

Lemma queryOne_shape p pl c answer now r : let x := query_one p pl c answer now r in
  fr_cluster x = ID c ∧ (fr_err x = None → fr_timedOut x = false).
Proof.
  cbv zeta. unfold queryOne. destruct (fetch _ _ _ _ _ _ _ _ _) as [env|e]; [|done]. destruct (DecodeQueryData _) as [data|e]; [|done].
  destruct (String.eqb (qd_ResultType data) "matrix"); [destruct (String.eqb (pl_endpoint pl) "query"); [done|]; destruct (DecodeMatrix _ _); [|done]; by destruct (String.eqb _ _)|].
  destruct (String.eqb (qd_ResultType data) "scalar"); [destruct (DecodeScalar _ _); [|done]; by destruct (String.eqb _ _)|].
  destruct (String.eqb (qd_ResultType data) "string"); [done|]. destruct (DecodeVector _ _); [|done]. by destruct (String.eqb _ _).
Qed.

(** A result without an error has rows only if it is an answer. *)
Definition honest_result (x : fanoutResult) : Prop :=
  fr_err x = None → fr_timedOut x = true → ir_Rows (fr_instant x) = [] ∧ rr_Series (fr_range x) = [].

Lemma slot_honest p pl ls j x : slot_ok text unicode_lower ParseFloat Log10 marshal_instant marshal_range body p pl ls j x →
  ID <$> pl_targets pl !! j = Some (fr_cluster x) ∧ honest_result x.
Proof.
  intros (c & Hc & [(k & a & n & r & _ & ->)|[_ ->]]).
  - destruct (queryOne_shape p pl c a n r) as [H1 H2]. rewrite Hc, H1. split; [done|]. intros He Ht. by rewrite (H2 He) in Ht.
  - rewrite Hc. split; [done|]. by intros _ _.
Qed.

(** Rows and series come from clusters that answered. *)
Lemma rows_answered results : Forall honest_result results →
  (∀ row, row ∈ succeeded results ≫= instant_rows text → row.1.1.1 ∈ omap ok_of results)
  ∧ (∀ s, s ∈ succeeded results ≫= range_series text → fs_Cluster s ∈ omap ok_of results).
Proof.
  intros Hall. rewrite Forall_forall in Hall.
  assert (∀ x, x ∈ succeeded results → (ir_Rows (fr_instant x) ≠ [] ∨ rr_Series (fr_range x) ≠ []) → fr_cluster x ∈ omap ok_of results) as Hin.
  { intros x Hx Hne. unfold succeeded in Hx. apply list_elem_of_In, filter_In in Hx as [Hx He]. apply list_elem_of_In in Hx.
    apply list_elem_of_omap. exists x. split; [done|]. unfold ok_of, outcome. destruct (fr_err x) eqn:Herr; [done|].
    destruct (fr_timedOut x) eqn:Ht; [|done]. destruct (Hall x Hx Herr Ht) as [H1 H2]. destruct Hne; congruence. }
  split.
  - intros row (x & Hrow & Hx)%list_elem_of_bind. unfold instant_rows in Hrow. apply list_elem_of_fmap in Hrow as ([[name labels] v] & -> & Hr). simpl.
    apply Hin; [done|]. left. intros He. rewrite He in Hr. by apply elem_of_nil in Hr.
  - intros s (x & Hs & Hx)%list_elem_of_bind. unfold range_series in Hs. apply list_elem_of_fmap in Hs as (s' & -> & Hr). simpl.
    apply Hin; [done|]. right. intros He. rewrite He in Hr. by apply elem_of_nil in Hr.
Qed.

(** What the account says of a list of results. *)
Lemma accountCoverage_spec out targets results pre : length results = (length targets + length pre)%nat →
  let out' := accountCoverage text out targets results pre in
  let pc := fo_PerCluster out' in let cov := fo_Coverage out' in
  pc_OK pc ≡ₚ omap ok_of results
  ∧ (pc_OK pc ++ (cf_Cluster <$> pc_Failed pc) ++ pc_TimedOut pc)%list ≡ₚ fr_cluster <$> results
  ∧ cv_OK cov = Z.of_nat (length (pc_OK pc)) ∧ cv_Failed cov = Z.of_nat (length (pc_Failed pc)) ∧ cv_TimedOut cov = Z.of_nat (length (pc_TimedOut pc))
  ∧ cv_Requested cov = Z.of_nat (length results)
  ∧ (cv_Complete cov = true ↔ pc_Failed pc = [] ∧ pc_TimedOut pc = [] ∧ results ≠ [])
  ∧ fo_Rows out' = fo_Rows out ∧ fo_Series out' = fo_Series out.
Proof.
  intros Hlen. unfold accountCoverage. rewrite account_fold. cbn [cv_Requested cv_OK cv_Failed cv_TimedOut pc_OK pc_Failed pc_TimedOut app fo_PerCluster fo_Coverage cv_Complete fo_Rows fo_Series].
  pose proof (merge_sort_Permutation String.le (omap ok_of results)) as P1. pose proof (merge_sort_Permutation failure_le (omap fail_of results)) as P2.
  pose proof (merge_sort_Permutation String.le (omap late_of results)) as P3. pose proof (buckets_perm results) as Hb.
  assert (length (omap ok_of results) + length (omap fail_of results) + length (omap late_of results) = length results)%nat as Hsum.
  { apply Permutation_length in Hb. rewrite !length_app, !length_fmap in Hb. lia. }
  rewrite (Permutation_length P1), (Permutation_length P2), (Permutation_length P3). split; [done|].
  split; [rewrite <- Hb; apply Permutation_app; [done|]; apply Permutation_app; [by apply Permutation_map|done]|]. split_and!; try done; try lia.
  rewrite andb_true_iff, Z.eqb_eq, Z.ltb_lt. split.
  - intros [H1 H2]. assert (length (omap fail_of results) = 0 ∧ length (omap late_of results) = 0)%nat as [F1 F2] by lia.
    apply nil_length_inv in F1, F2. rewrite F1, F2. split_and!; [done|done|]. intros ->. simpl in Hlen. lia.
  - intros (F1 & F2 & Hne). rewrite F1 in P2. rewrite F2 in P3. apply Permutation_length in P2, P3. simpl in P2, P3.
    assert (length results ≠ 0%nat) by (intros ?%nil_length_inv; done). lia.
Qed.

Lemma merge_rows t pl results : Forall honest_result results →
  let enc := pl_encoding pl in
  let out := if String.eqb (pl_mode pl) FanoutInstant then mergeInstant text marshal_rows t (blank_out pl) results (fe_maxSeries enc)
             else mergeRange text marshal_series t (blank_out pl) results (fe_start enc) (fe_end enc) (fe_step enc) (fe_maxSeries enc) in
  (∀ row, row ∈ fo_Rows out → row.1.1.1 ∈ omap ok_of results) ∧ (∀ s, s ∈ fo_Series out → fs_Cluster s ∈ omap ok_of results).
Proof.
  intros Hall. destruct (rows_answered results Hall) as [H1 H2]. cbv zeta. destruct (String.eqb _ _).
  - unfold mergeInstant. destruct (FitTokens_prefix marshal_rows (succeeded results ≫= instant_rows text) (tl_tokenCeiling t)) as [k Hk].
    destruct (FitTokens _ _ _) as [fitted hit]. simpl in Hk. subst fitted. cbn [fo_Rows fo_Series]. split; [|by intros s ?%elem_of_nil].
    intros row (i & Hr & _)%elem_of_take. apply H1. by eapply list_elem_of_lookup_2.
  - unfold mergeRange. destruct (FitTokens_prefix marshal_series (succeeded results ≫= range_series text) (tl_tokenCeiling t)) as [k Hk].
    destruct (FitTokens _ _ _) as [fitted hit]. simpl in Hk. subst fitted. cbn [fo_Rows fo_Series]. split; [by intros s ?%elem_of_nil|].
    intros s (i & Hr & _)%elem_of_take. apply H2. by eapply list_elem_of_lookup_2.
Qed.

Lemma pre_failed_clusters (fs : list ClusterFailure) : fr_cluster <$> (pre_failed <$> fs) = cf_Cluster <$> fs.
Proof. induction fs as [|f fs IH]; [done|]. cbn [fmap list_fmap]. by rewrite IH. Qed.

Lemma pre_failed_not_ok (fs : list ClusterFailure) : omap ok_of (pre_failed <$> fs) = [].
Proof. by induction fs. Qed.

Lemma slots_clusters p pl ls (results : list fanoutResult) : length results = length (pl_targets pl) →
  (∀ j x, results !! j = Some x → slot_ok text unicode_lower ParseFloat Log10 marshal_instant marshal_range body p pl ls j x) →
  fr_cluster <$> results = ID <$> pl_targets pl ∧ Forall honest_result results.
Proof.
  intros Hlen Hslots. split.
  - apply list_eq. intros j. rewrite !list_lookup_fmap. destruct (results !! j) as [x|] eqn:Hx.
    + destruct (slot_honest _ _ _ _ _ (Hslots _ _ Hx)) as [-> _]. done.
    + apply lookup_ge_None in Hx. rewrite (proj2 (lookup_ge_None (pl_targets pl) j)) by lia. done.
  - apply Forall_lookup. intros j x Hx. by destruct (slot_honest _ _ _ _ _ (Hslots _ _ Hx)).
Qed.

(** C4: A fan-out never passes off a part for the whole.  Whenever it answers,
however the queries interleaved: every cluster asked for is listed exactly once,
as answered, failed or timed out; the counts are those of the lists; the answer
is called complete exactly when no cluster failed or timed out, and always when
the caller insisted on it; at least one cluster answered; and every row and every
series belongs to a cluster listed as answered. *)
Theorem fanout_accounts (t : Tools) (p : Principal) (in_ : FanoutQueryIn) (now later : Z) (r : Registry) (ls : list dispatch_label) (out : FanoutQueryOut) :
  fanout t p in_ now later r ls = Some (FAnswer (Ok out)) →
  let pc := fo_PerCluster out in let cov := fo_Coverage out in
  (pc_OK pc ++ (cf_Cluster <$> pc_Failed pc) ++ pc_TimedOut pc)%list ≡ₚ shown p now r <$> selected p in_ now r
  ∧ (cv_Requested cov = Z.of_nat (length (selected p in_ now r)) ∧ cv_OK cov = Z.of_nat (length (pc_OK pc))
     ∧ cv_Failed cov = Z.of_nat (length (pc_Failed pc)) ∧ cv_TimedOut cov = Z.of_nat (length (pc_TimedOut pc)))
  ∧ (cv_Complete cov = true ↔ pc_Failed pc = [] ∧ pc_TimedOut pc = [])
  ∧ (fi_OnError in_ = OnErrorFail → cv_Complete cov = true)
  ∧ pc_OK pc ≠ []
  ∧ (∀ row, row ∈ fo_Rows out → row.1.1.1 ∈ pc_OK pc) ∧ (∀ s, s ∈ fo_Series out → fs_Cluster s ∈ pc_OK pc).
Proof.
  unfold fanoutQuery. destruct (plan t p in_ now later r) as [e| |pl] eqn:Hplan; [done|done|].
  destruct (drun p pl ls (dispatch_start pl)) as [w|] eqn:Hrun; [|done]. cbn [mbind option_bind]. destruct (dispatch_over w) eqn:Hover; [|done].
  destruct (fanout_plan_Ok _ _ _ _ _ _ _ Hplan) as ((mc & Hmc & Hsel) & Hconc & Hon & _).
  destruct (selectClusters_spec _ _ _ _ _ _ _ _ _ (proj1 Hmc) Hsel) as (Hperm & _ & Hpos & _ & _).
  destruct (drun_inv text unicode_lower ParseFloat Log10 marshal_instant marshal_range body p pl ls w ltac:(lia) Hrun) as [Hinv _].
  destruct (dispatch_filled _ _ _ _ _ _ _ _ _ _ _ Hinv Hover) as (results & -> & Hlen & Hslots). cbn [mbind option_bind].
  destruct (slots_clusters p pl ls results Hlen Hslots) as [Hcl Hhon].
  intros [= Hfin]. unfold fanout_finish in Hfin. cbv zeta in Hfin.
  pose proof (merge_rows t pl results Hhon) as Hrows. cbv zeta in Hrows. set (merged := if String.eqb (pl_mode pl) FanoutInstant then _ else _) in *.
  assert (length (results ++ (pre_failed <$> pl_failures pl)) = length (pl_targets pl) + length (pl_failures pl))%nat as Hl by (rewrite length_app, length_fmap; lia).
  pose proof (accountCoverage_spec merged (pl_targets pl) (results ++ (pre_failed <$> pl_failures pl)) (pl_failures pl) Hl) as Hacc. cbv zeta in Hacc.
  set (out' := accountCoverage _ _ _ _ _) in *. clearbody out' merged. destruct Hacc as (A1 & A2 & A3 & A4 & A5 & A6 & A7 & A8 & A9).
  rewrite fmap_app, Hcl, pre_failed_clusters, Hperm in A2.
  assert (omap ok_of (results ++ (pre_failed <$> pl_failures pl))%list = omap ok_of results) as Hok.
  { by rewrite omap_app, pre_failed_not_ok, app_nil_r. }
  rewrite Hok in A1. destruct (negb (cv_Complete (fo_Coverage out')) && _) eqn:Hfail; [done|]. destruct ((_ =? 0) && _) eqn:Hnone; [done|]. injection Hfin as <-.
  assert (results ++ (pre_failed <$> pl_failures pl) ≠ [])%list as Hne by (intros E; rewrite E in Hl; simpl in Hl; lia).
  split_and!; try done.
  - rewrite A6, Hl. apply Permutation_length in Hperm. rewrite length_app, !length_fmap in Hperm. lia.
  - rewrite A7. naive_solver.
  - intros Ho. rewrite Hon, Ho in Hfail. change (String.eqb OnErrorFail "") with false in Hfail. cbv iota in Hfail. rewrite String.eqb_refl, andb_true_r in Hfail. by apply negb_false_iff.
  - intros E. rewrite E in A3. rewrite A3, A6, Hl in Hnone. simpl in Hnone. apply Z.ltb_ge in Hnone. lia.
  - intros row. rewrite A8, A1. apply Hrows.
  - intros s. rewrite A9, A1. apply Hrows.
Qed.

(** ** The window *)

(** [alignUp] with a step of whole seconds, for a time within a second count of
[int64]: not more than a second back, and on the step's grid. *)
Lemma alignUp_spec start k aligned : 0 < k < 2 ^ 53 → - 2 ^ 60 ≤ start ≤ 2 ^ 68 → alignUp start (k * Second) = Some aligned →
  start - Second < aligned ∧ Z.rem (aligned / Second - unix_epoch) k = 0.
Proof.
  intros Hk Hs. unfold alignUp. rewrite Seconds_whole by lia. destruct (Z.eqb_spec k 0); [lia|]. cbv zeta. intros [= <-].
  assert (- 2 ^ 37 ≤ Unix start ≤ 2 ^ 39) as Hu.
  { unfold Unix. assert (- 2 ^ 31 ≤ start / Second) by (apply Z.div_le_lower_bound; unfold Second; lia).
    assert (start / Second ≤ 2 ^ 39) by (apply Z.div_le_upper_bound; unfold Second; lia). unfold unix_epoch. lia. }
  assert (∀ sec, - 2 ^ 55 ≤ sec ≤ 2 ^ 55 → time_Unix sec 0 = (sec + unix_epoch) * Second) as Ht.
  { intros sec Hsec. unfold time_Unix. cbv zeta. change (0 <? 0) with false. cbv iota. rewrite wrap_int64_id; [lia|]. unfold int64_range, min_int64, max_int64, unix_epoch. lia. }
  pose proof (Z.div_mod start Second ltac:(done)) as Hdm. pose proof (Z.mod_pos_bound start Second ltac:(done)) as Hmb.
  assert ((Unix start + unix_epoch) * Second = start - start mod Second) as Hfl by (unfold Unix; lia).
  assert (∀ sec, ((sec + unix_epoch) * Second) / Second - unix_epoch = sec) as Hdiv by (intros sec; rewrite Z.div_mul by done; lia).
  destruct (Z.eqb_spec (Z.rem (Unix start) k) 0) as [Hr|Hr].
  - rewrite Ht, Hdiv by lia. split; [lia|done].
  - pose proof (Z.rem_bound_abs (Unix start) k ltac:(lia)) as Hb. rewrite (Z.abs_eq k) in Hb by lia.
    rewrite (wrap_int64_id (Unix start - _)) by (unfold int64_range, min_int64, max_int64; lia).
    rewrite wrap_int64_id by (unfold int64_range, min_int64, max_int64; lia). rewrite Ht, Hdiv by lia.
    pose proof (Z.quot_rem' (Unix start) k) as Hq. split; [nia|].
    replace (Unix start - Z.rem (Unix start) k + k) with ((Z.quot (Unix start) k + 1) * k) by lia. apply Z.rem_mul. lia.
Qed.

Lemma commonStep_nonneg targets start end_ userStep maxPoints : 0 ≤ (commonStep ParseFloat seconds targets start end_ userStep maxPoints).1.
Proof.
  unfold commonStep. assert (∀ acc, 0 ≤ acc.1 → 0 ≤ (foldl (λ '(best, chosen) c, let r := step_request ParseFloat seconds start end_ userStep maxPoints c in
    if best <? (SelectStep r).1 then ((SelectStep r).1, downsampled r) else (best, chosen)) acc targets).1) as H.
  { induction targets as [|c targets IH]; intros [b d] Hb; [done|]. cbn [foldl]. cbv zeta. apply IH. simpl in Hb. destruct (Z.ltb_spec b (SelectStep (step_request ParseFloat seconds start end_ userStep maxPoints c)).1); simpl; lia. }
  specialize (H (0, no_downsampled) ltac:(done)). destruct (foldl _ _ targets). exact H.
Qed.

(** A fan-out stays within the principal's lookback.  Under a limit a second
short of the largest duration, and with the clock past 1970: the instant an instant query
evaluates at is at most the limit before the clock; and a range query, with a
common step of whole seconds and an end before the year 2262, asks for a window
that starts at most the limit and less than one second before the clock, does
not end before it starts, and starts on the step's grid or at its own end; the
times sent are those times. *)
Theorem fanout_in_window (t : Tools) (p : Principal) (in_ : FanoutQueryIn) (now later : Z) (r : Registry) (pl : Plan) :
  plan t p in_ now later r = PlanOk pl → lookbackLimit t (Some p) + Second ≤ max_int64 → unix_epoch * Second ≤ now ≤ 2 ^ 66 →
  let limit := lookbackLimit t (Some p) in
  let enc := pl_encoding pl in
  (pl_mode pl = FanoutInstant → ∃ at_, pl_form pl !! "time" = Some [formatUpstreamTime FormatFloat at_] ∧ later - at_ ≤ limit)
  ∧ (pl_mode pl ≠ FanoutInstant → (fe_step enc) mod Second = 0 → fe_step enc ≤ max_int64 → fe_end enc - unix_epoch * Second ≤ max_int64 →
     now - limit - Second < fe_start enc ≤ fe_end enc
     ∧ (fe_start enc = fe_end enc ∨ Z.rem (Unix (fe_start enc)) (fe_step enc / Second) = 0)
     ∧ pl_form pl !! "start" = Some [FormatFloat (float64_of (fe_start enc - unix_epoch * Second) / 1e9)%float]
     ∧ pl_form pl !! "end" = Some [FormatFloat (float64_of (fe_end enc - unix_epoch * Second) / 1e9)%float]).
Proof.
  intros Hplan Hl' Hnow. cbv zeta. assert (lookbackLimit t (Some p) < max_int64) as Hl by (unfold Second in Hl'; lia). revert Hplan. unfold fanout_plan. cbv zeta. destruct (negb (includes _ _)); [done|]. destruct (negb (includes _ _)); [done|].
  destruct (validateExpr _ _ _); [done|]. destruct (negb (pq_Valid _)); [done|]. destruct (selectClusters _ _ _ _ _ _ _) as [[targets failures]|]; [|done].
  destruct (ParseDuration _ _ (fi_Deadline in_)); [|done]. set (mode := if String.eqb (fi_Mode in_) "" then _ else _).
  destruct (String.eqb_spec mode FanoutInstant) as [Hmode|Hmode].
  - destruct (ParseTime _ _ _ _ _ _) as [at_|]; [|done]. destruct (checkLookback _ _ _ _ _ _) eqn:Hc; [done|]. intros [= <-]. cbn [pl_mode pl_form]. split; [|done].
    intros _. eexists. split; [by rewrite lookup_insert_eq|]. by eapply checkLookback_None.
  - destruct (resolveRange _ _ _ _ _ _ _ _ _ _ _) as [[start end_]|] eqn:Hres; [|done]. destruct (ParseDuration _ _ (fi_Step in_)) as [userStep|]; [|done].
    destruct (commonStep _ _ _ _ _ _ _) as [step down] eqn:Hstep. destruct (alignUp start step) as [aligned|] eqn:Hal; [|done]. intros [= <-]. cbn [pl_mode pl_encoding pl_form fe_step fe_end fe_start].
    split; [done|]. intros _ Hwhole Hmax Hend. apply resolveRange_Ok in Hres as (Hse & Hspan & Hage); [|done].
    match type of Hstep with commonStep _ _ ?a ?b ?c ?d ?e = _ => pose proof (commonStep_nonneg a b c d e) as Hs0 end. rewrite Hstep in Hs0. simpl in Hs0.
    set (k := step / Second). assert (step = k * Second) as Hk by (pose proof (Z.div_mod step Second ltac:(done)); unfold k; lia).
    assert (0 ≤ k < 2 ^ 53) as Hkb by (unfold k, max_int64, Second in *; split; [apply Z.div_pos; lia|apply Z.div_lt_upper_bound; lia]).
    assert (k ≠ 0) as Hk0. { intros E. rewrite Hk, E in Hal. vm_compute in Hal. done. }
    rewrite Hk in Hal. apply alignUp_spec in Hal as [Hlow Hgrid]; [|lia|unfold unix_epoch, Second, max_int64 in *; lia].
    set (start' := if After aligned end_ then end_ else aligned).
    assert (now - lookbackLimit t (Some p) - Second < start' ≤ end_) as Hwin by (unfold start', After; destruct (Z.ltb_spec end_ aligned); unfold Second in *; lia).
    split; [done|]. split; [|rewrite !(lookup_insert_ne _ "query"), lookup_insert_eq by done; rewrite (lookup_insert_ne _ "start"), lookup_insert_eq by done].
    + unfold start'. destruct (After aligned end_); [by left|]. right. unfold Unix. fold k. done.
    + unfold formatUpstreamTime, UnixNano. rewrite !wrap_int64_id by (unfold int64_range, min_int64, max_int64, unix_epoch, Second in *; lia). done.
Qed.

End result.

(** * Labels *)

(** A merged row keeps the labels of its series, except that the cluster's name
moves to its column and a cluster label of the series' own, when it says
something else, to [cluster_original]. *)
Lemma row_labels_spec text labels cluster shared k :
  row_labels text labels cluster shared !! k
  = if String.eqb k ClusterLabel then None
    else if String.eqb k ClusterOriginalLabel then
      match (labels ∪ shared) !! ClusterLabel with
      | Some existing => if String.eqb existing cluster then (labels ∪ shared) !! k else Some existing
      | None => (labels ∪ shared) !! k
      end
    else (labels ∪ shared) !! k.
Proof.
  unfold row_labels, injectCluster. destruct (String.eqb_spec k ClusterLabel) as [->|Hk].
  { destruct ((labels ∪ shared) !! ClusterLabel) as [existing|]; [destruct (negb _)|]; cbn [fst]; by rewrite lookup_delete_eq. }
  destruct ((labels ∪ shared) !! ClusterLabel) as [existing|] eqn:He; [destruct (String.eqb_spec existing cluster); cbn [negb]|];
    cbn [fst]; rewrite lookup_delete_ne, lookup_insert_ne by done; destruct (String.eqb_spec k ClusterOriginalLabel) as [->|Hk']; try done;
    [by rewrite lookup_insert_eq|by rewrite lookup_insert_ne].
Qed.

(** A [cluster_original] label the series had is lost when the name is needed. *)
Lemma cluster_original_lost text :
  let series : gmap string string := <[ClusterOriginalLabel := "a"]> {[ ClusterLabel := "b" ]} in
  row_labels text series "c" ∅ = {[ ClusterOriginalLabel := "b" ]}.
Proof. vm_compute. reflexivity. Qed.

(** * Examples *)

Definition two_clusters : Registry := run_ops [joins "prod-eu"; joins "prod-us"] fresh_registry.
Definition fleet_agent : Principal := agent_for "k1" ["prod-eu"; "prod-us"] no_limits.
Definition ask (mode start step : string) : FanoutQueryIn :=
  {| fi_Query := "up"; fi_Clusters := []; fi_LabelSelector := ∅; fi_Mode := mode; fi_Time := ""; fi_Start := start; fi_End := ""; fi_Step := step;
     fi_MaxClusters := 0; fi_MaxSeriesPerCluster := 0; fi_Concurrency := 0; fi_Deadline := ""; fi_OnError := "" |}.

Definition toy_json : json :=
  JObj [("status", JStr "success");
        ("data", JObj [("resultType", JStr "vector");
                       ("result", JArr [JObj [("metric", JObj [("__name__", JStr "up"); ("job", JStr "api")]); ("value", JArr [JInt 1; JStr "1"])]])])].
Definition toy_body (s : string) : option json := if String.eqb s "ok" then Some toy_json else None.
Definition toy_answer : Answer := (Some {| re_Body := "ok"; re_Status := 200; re_Warnings := []; re_Truncated := false; re_Bytes := 2 |}, None).
Definition toy_late : Answer := (None, Some (EContext "prod-us" [SDeadlineExceeded])).

Notation toy_fanout := (fanoutQuery toy_text (λ s, s) toy_parse digits_float (λ _, 0) (λ _, 0) (λ _, "t") (λ _, 0%float) (λ _, None) (λ _, None) (λ _, None) (λ _, None) toy_body toy_tools fleet_agent).
Notation toy_plan := (fanout_plan toy_text (λ s, s) toy_parse digits_float (λ _, 0) (λ _, 0) (λ _, "t") toy_tools fleet_agent).

Definition toy_steps : list dispatch_label :=
  [DHand 0; DHand 1; DFinish 0 toy_answer toy_now two_clusters; DClose; DFinish 1 toy_late toy_now two_clusters].
Definition no_out : FanoutQueryOut :=
  blank_out {| pl_mode := ""; pl_onError := ""; pl_targets := []; pl_failures := []; pl_concurrency := 0; pl_deadline := 0; pl_perCluster := 0; pl_endpoint := "";
               pl_form := ∅; pl_encoding := {| fe_maxSeries := 0; fe_start := 0; fe_end := 0; fe_step := 0 |}; pl_downsampled := None |}.
Definition toy_out : FanoutQueryOut :=
  match toy_fanout (ask "" "" "") 20 20 two_clusters toy_steps with Some (FAnswer (Ok out)) => out | _ => no_out end.

Lemma toy_answers : toy_fanout (ask "" "" "") 20 20 two_clusters toy_steps = Some (FAnswer (Ok toy_out)).
Proof. vm_compute. reflexivity. Qed.

Lemma fanout_accounts_witness :
  fo_Rows toy_out = [("prod-eu", "up", {[ "job" := "api" ]}, CellNumber (Some 1%float))]
  ∧ pc_OK (fo_PerCluster toy_out) = ["prod-eu"] ∧ pc_TimedOut (fo_PerCluster toy_out) = ["prod-us"]
  ∧ (cv_Complete (fo_Coverage toy_out) = true ↔ pc_Failed (fo_PerCluster toy_out) = [] ∧ pc_TimedOut (fo_PerCluster toy_out) = []).
Proof.
  split; [vm_compute; reflexivity|]. split; [vm_compute; reflexivity|]. split; [vm_compute; reflexivity|].
  exact (proj1 (proj2 (proj2 (fanout_accounts toy_text (λ s, s) toy_parse digits_float (λ _, 0) (λ _, 0) (λ _, "t") (λ _, 0%float) (λ _, None) (λ _, None) (λ _, None) (λ _, None)
    toy_body toy_tools fleet_agent (ask "" "" "") 20 20 two_clusters toy_steps toy_out toy_answers)))).
Defined.

Definition no_plan : Plan :=
  {| pl_mode := ""; pl_onError := ""; pl_targets := []; pl_failures := []; pl_concurrency := 0; pl_deadline := 0; pl_perCluster := 0; pl_endpoint := "";
     pl_form := ∅; pl_encoding := {| fe_maxSeries := 0; fe_start := 0; fe_end := 0; fe_step := 0 |}; pl_downsampled := None |}.
Definition plan_of (x : Planned) : Plan := match x with PlanOk pl => pl | _ => no_plan end.
Definition toy_instant : Plan := plan_of (toy_plan (ask "" "" "") 20 20 two_clusters).
(** A registry in which the clusters are seen now. *)
Definition live_clusters : Registry :=
  run_ops [RO_OnSession (Some 0%nat) (pod_of "prod-eu") false (Some (says ∅)) 0 NoLookup (toy_now - 10); RO_OnSession (Some 0%nat) (pod_of "prod-us") false (Some (says ∅)) 0 NoLookup (toy_now - 10)] fresh_registry.
Definition toy_range : Plan := plan_of (toy_plan (ask "range" "now-6h" "") toy_now toy_now live_clusters).

Lemma dispatch_complete_witness :
  length (pl_targets toy_instant) = 2%nat
  ∧ ∃ w, dispatch_run toy_text (λ s, s) digits_float (λ _, 0%float) (λ _, None) (λ _, None) toy_body fleet_agent toy_instant toy_steps (dispatch_start toy_instant) = Some w
    ∧ (dispatch_over w = true → ∃ results, mapM id (dw_results w) = Some results ∧ length results = 2%nat).
Proof.
  split; [vm_compute; reflexivity|].
  destruct (dispatch_run toy_text (λ s, s) digits_float (λ _, 0%float) (λ _, None) (λ _, None) toy_body fleet_agent toy_instant toy_steps (dispatch_start toy_instant)) as [w|] eqn:Hrun;
    [|vm_compute in Hrun; discriminate Hrun].
  exists w. split; [reflexivity|]. intros Hover.
  destruct (dispatch_complete toy_text (λ s, s) digits_float (λ _, 0%float) (λ _, None) (λ _, None) toy_body fleet_agent toy_instant toy_steps w) as (_ & _ & _ & Hend);
    [vm_compute; reflexivity|vm_compute; lia|exact Hrun|].
  destruct (Hend Hover) as (results & Hm & Hlen & _). exists results. split; [exact Hm|]. rewrite Hlen. vm_compute. reflexivity.
Defined.

Lemma fanout_in_window_witness :
  let enc := pl_encoding toy_range in
  fe_step enc = 5 * Minute ∧ fe_end enc = toy_now ∧ toy_now - lookbackLimit toy_tools (Some fleet_agent) - Second < fe_start enc ≤ fe_end enc.
Proof.
  intros enc. split; [vm_compute; reflexivity|]. split; [vm_compute; reflexivity|].
  refine (proj1 (proj2 (fanout_in_window toy_text (λ s, s) toy_parse digits_float (λ _, 0) (λ _, 0) (λ _, "t") toy_tools fleet_agent (ask "range" "now-6h" "") toy_now toy_now live_clusters toy_range _ _ _) _ _ _ _));
    [vm_compute; reflexivity|vm_compute; discriminate|split; vm_compute; discriminate|vm_compute; discriminate|vm_compute; reflexivity|vm_compute; discriminate|vm_compute; discriminate].
Defined.

(** ** Where alignment goes wrong *)

(** A step within a day of the largest duration makes the common step zero, and
the alignment divides by it. *)
Lemma huge_step_panics : toy_plan (ask "range" "now-6h" "106751d") toy_now toy_now live_clusters = PlanPanic.
Proof. vm_compute. reflexivity. Qed.

(** A start on a multiple of the step but for a fraction of a second is moved
down. *)
Lemma alignUp_goes_down : alignUp (toy_now + 500 * Millisecond) Minute = Some toy_now.
Proof. vm_compute. reflexivity. Qed.
