(* ===== verification/Listing.v ===== *)
(** The tools that list things: [src/internal/mcptools/metadata.go], [clusters.go]
and [format.go].

Each handler screens its arguments, resolves its cluster, makes its calls,
sanitises what came back, sorts it and cuts it to a limit and to the hub's token
ceiling.  What [Prometheus.Do] answers to a call is an argument, a function of the
call, and so are the sizes [json.Marshal] would give, the compiler of regular
expressions and Unicode's case tables.  As in [ToolError], sentences are named by
what they say; nothing proved depends on their wording. *)

From S2P Require Import Prelude GoFloat Fleet Codec Registry Text PromApi Nearest Step Sanitize PromData Render Proxy ToolError Guard Tools.
From Stdlib Require Import Floats.PrimFloat.
Open Scope string_scope.
Open Scope Z_scope.

(** * Texts *)

Inductive ListText :=
| LFormat (s : string) | LNoJSON | LFormatHint | LNoJSONHint
| LPatternRequired | LPatternHint | LPatternLong (n : Z) | LBadRegex (pattern : string) | LRegexHint | LMode (mode : string)
| LMetricName (s : string) | LMetricHint | LLabelName (s : string) | LLabelHint
| LMatcherLong (n : Z) | LNotSelector (m : string) | LSelectorHint | LMatcherRequired | LMatcherHint
| LStatus (s : string) | LUnreadable (cluster : string)
| LNarrow (tool : string) | LCeiling (tool : string) (ceiling : Z) | LRawCeiling (est ceiling : Z).

Definition ModeSubstring : string := "substring".
Definition ModeRegex : string := "regex".
Definition MetadataName : string := "__name__".

Definition StatusHealthy : string := "healthy".
Definition StatusDegraded : string := "degraded".
Definition StatusUnreachable : string := "unreachable".
Definition StatusAll : string := "all".

Definition StaleFactsAfter : Z := 5 * Minute.

(** [metadata.go]'s [metricNameRE], which is [promapi]'s. *)
Definition listing_metricNameRE : string → bool := PromApi.metricNameRE.

(** * Results *)

Record MetricInfo := { mi_Name : string; mi_Type : string; mi_Unit : string; mi_Help : string }.
Record TargetMetadataEntry := { tm_Target : gmap string string; tm_Metric : string; tm_Type : string; tm_Unit : string; tm_Help : string }.

Record SearchMetricsIn := { smi_Cluster : string; smi_Pattern : string; smi_Mode : string; smi_Limit : Z; smi_WithMetadata : bool }.
Record SearchMetricsOut := { smo_Metrics : list MetricInfo; smo_Total : Z; smo_Scanned : Z; smo_Truncated : option Truncation }.
Record MetricMetadataIn := { mmi_Cluster : string; mmi_Metric : string; mmi_Limit : Z }.
Record MetricMetadataOut := { mmo_Metadata : list MetricInfo; mmo_Total : Z; mmo_Truncated : option Truncation }.
Record TargetMetadataIn := { tmi_Cluster : string; tmi_MatchTarget : string; tmi_Metric : string; tmi_Limit : Z }.
Record TargetMetadataOut := { tmo_Metadata : list TargetMetadataEntry; tmo_Total : Z; tmo_Truncated : option Truncation }.
Record SeriesIn := { si_Cluster : string; si_Matchers : list string; si_Start : string; si_End : string; si_Limit : Z; si_Format : string }.
Record SeriesOut := { so_Columns : list string; so_Rows : list (list string); so_Total : Z; so_Truncated : option Truncation; so_Table : string; so_Raw : option json }.
Record LabelNamesIn := { lni_Cluster : string; lni_Matchers : list string; lni_Start : string; lni_End : string; lni_Limit : Z }.
Record LabelNamesOut := { lno_Names : list string; lno_Total : Z; lno_Truncated : option Truncation }.
Record LabelValuesIn := { lvi_Cluster : string; lvi_Label : string; lvi_Matchers : list string; lvi_Pattern : string; lvi_Start : string; lvi_End : string; lvi_Limit : Z }.
Record LabelValuesOut := { lvo_Label : string; lvo_Values : list string; lvo_Total : Z; lvo_Truncated : option Truncation }.

Record ListClustersIn := { lci_Filter : string; lci_LabelSelector : gmap string string; lci_Status : string; lci_Limit : Z; lci_Format : string }.
Record ClusterSummary := {
  cs_Name : string;
  cs_DisplayName : string;
  cs_Description : string;
  cs_Status : string;
  cs_Labels : gmap string string;
  cs_PromVersion : string;
  cs_PromFlavor : string;
  cs_Retention : string;
  cs_ScrapeInterval : string;
  cs_ActiveSeries : Z;
  cs_JobCount : Z;
  cs_AlertsFiring : Z;
  cs_RuleGroups : Z;
  cs_Alertmanager : bool;
  cs_FactsAgeSeconds : Z;
  cs_Stale : bool
}.
Record ListClustersOut := { lco_Clusters : list ClusterSummary; lco_Total : Z; lco_Truncated : option Truncation; lco_Table : string }.

(** * Sorting and cutting *)

(** [slices.Sort] of strings. *)
Definition sort_strings (l : list string) : list string := merge_sort String.le l.

(** The cut at the token ceiling that follows the cut at the limit: [kept] of
[total] items, [trunc] the truncation so far. *)
Definition escalated {T} (marshal : list T → option Z) (ceiling : Z) (kept : list T) (trunc : option Truncation) (total : nat) (hint : string) : list T * option Truncation :=
  let '(fitted, hit) := FitTokens marshal kept ceiling in
  if hit then (fitted, Some (with_total (Z.of_nat total) (Escalate trunc (Z.of_nat (length fitted)) ReasonTokenCeiling hint))) else (kept, trunc).

(** * Columns *)

(** [__name__] first, then in order. *)
Definition column_le (a b : string) : Prop := String.eqb a MetadataName = true ∨ String.eqb b MetadataName = false ∧ String.le a b.
#[export] Instance column_le_dec a b : Decision (column_le a b).
Proof. unfold column_le. apply _. Defined.

(** The columns for the keys of a map in some order, and the rows. *)
Definition columns_of (sets : list (gmap string string)) : list string :=
  merge_sort column_le (elements (list_to_set (filter (λ k, ValidLabelName k = true) (sets ≫= λ s, (map_to_list s).*1)) : gset string)).
Definition columnar (sets : list (gmap string string)) : list string * list (list string) :=
  let cols := columns_of sets in (cols, (λ s, (λ c, LabelValue (map_get s c)) <$> cols) <$> sets).

(** * What a cluster sends *)

Definition metadata_entry (j : json) : option (string * string * string) :=
  o ← object j; ty ← get "type" "" str_value o; help ← get "help" "" str_value o; unit ← get "unit" "" str_value o; Some (ty, help, unit).
Definition upstreamMetadata (j : json) : option (gmap string (list (string * string * string))) :=
  match j with JNull => Some ∅ | JObj _ => as_map (list_value metadata_entry) j | _ => None end.

Record upstreamTarget := { ut_Target : gmap string string; ut_Metric : string; ut_Type : string; ut_Help : string; ut_Unit : string }.
Definition upstream_target (j : json) : option upstreamTarget :=
  o ← object j; target ← get "target" ∅ map_value o; metric ← get "metric" "" str_value o;
  ty ← get "type" "" str_value o; help ← get "help" "" str_value o; unit ← get "unit" "" str_value o;
  Some {| ut_Target := target; ut_Metric := metric; ut_Type := ty; ut_Help := help; ut_Unit := unit |}.
Definition upstreamTargetMetadata : json → option (list upstreamTarget) := list_value upstream_target.

(** One metric of [metadataOf]: its first entry, sanitised. *)
Definition metric_info (name : string) (entries : list (string * string * string)) : MetricInfo :=
  match entries with
  | [] => {| mi_Name := name; mi_Type := ""; mi_Unit := ""; mi_Help := "" |}
  | (ty, help, unit) :: _ => {| mi_Name := name; mi_Type := ClipRunes ty 32; mi_Unit := ClipRunes unit 32; mi_Help := Help help |}
  end.

(** [labelsText]. *)
Definition labelsText (m : gmap string string) : string :=
  match merge_sort key_le (map_to_list m) with
  | [] => ""
  | (k, v) :: l => foldl (λ acc e, acc +:+ "," +:+ e.1 +:+ "=" +:+ e.2) (k +:+ "=" +:+ v) l
  end.

Definition target_le (a b : TargetMetadataEntry) : Prop :=
  match String.compare (tm_Metric a) (tm_Metric b) with Lt => True | Gt => False | Eq => String.compare (labelsText (tm_Target a)) (labelsText (tm_Target b)) ≠ Gt end.
#[export] Instance target_le_dec a b : Decision (target_le a b).
Proof. unfold target_le. destruct (String.compare _ _); apply _. Defined.

Definition target_entry (metric : string) (e : upstreamTarget) : option TargetMetadataEntry :=
  let name := if String.eqb (ut_Metric e) "" then metric else ut_Metric e in
  if String.eqb name "" || negb (listing_metricNameRE name) then None
  else Some {| tm_Target := render_Labels (ut_Target e); tm_Metric := name; tm_Type := ClipRunes (ut_Type e) 32; tm_Unit := ClipRunes (ut_Unit e) 32; tm_Help := Help (ut_Help e) |}.

(** * Handlers *)

(** What a handler meets: the registry when it resolves its cluster, the clock
when it resolves a window, the answer to each call, and the registry when a call
has failed. *)
Record ListEnv := { le_seen : Z; le_registry : Registry; le_clock : Z; le_do : Call → Answer; le_failed : Z; le_later : Registry }.

Definition call_of (cluster : string) (e : Endpoint) (label : string) (form : gmap string (list string)) : Call :=
  {| ca_ClusterID := cluster; ca_Endpoint := e; ca_LabelName := label; ca_Form := form; ca_Timeout := 0; ca_MaxBytes := 0; ca_RequestID := "" |}.

Definition clipAll (l : list string) (max : Z) : list string := (λ s, ClipRunes s max) <$> l.

Section handlers.
Context (text : Text → string) (say : ListText → string) (unicode_lower unicode_upper : string → string).
Context (time_parse : string → option Z) (ParseFloat : string → option float) (seconds : float → Z) (int64_of : float → Z) (FormatFloat : float → string).
Context {Bytes : Type} `{!JsonText Bytes} (body : string → Bytes).
(** [regexp.Compile], and the length of a raw message. *)
Context (Compile : string → option (string → bool)) (raw_len : option json → Z).
(** What [json.Marshal] makes of the results. *)
Context (size_metrics size_metadata : list MetricInfo → option Z) (size_targets : list TargetMetadataEntry → option Z).
Context (size_series : list string * list (list string) → option Z) (size_values : list string → option Z) (size_clusters : list ClusterSummary → option Z).

Local Abbreviation resolve := (resolveCluster unicode_lower text).
Local Abbreviation range := (resolveRange text time_parse ParseFloat seconds int64_of).
Local Abbreviation upstream_time := (formatUpstreamTime FormatFloat).
Local Abbreviation lower := (ToLower unicode_lower).

(** [parseFormat]. *)
Definition parseFormat (s : string) (allowJSON : bool) : result ToolError string :=
  match ParseFormat s with
  | None => Err (WithHint (say LFormatHint) (WithInput {[ "format" := JStr (ClipRunes s 32) ]} (newError CodeInvalidArgument (say (LFormat (ClipRunes s 32))) false)))
  | Some f =>
    if String.eqb f FormatJSON && negb allowJSON then
      Err (WithHint (say LNoJSONHint) (WithInput {[ "format" := JStr "json" ]} (newError CodeInvalidArgument (say LNoJSON) false)))
    else Ok f
  end.

Definition decodeData {A} (env : APIResponse) (cluster : string) (dec : json → option A) (zero : A) : result ToolError A :=
  match ar_Data env with
  | None => Ok zero
  | Some j => match dec j with Some a => Ok a | None => Err (newError CodeMalformedUpstream (say (LUnreadable cluster)) false) end
  end.

(** The loop of [validateMatchers] over what is left of [orig]. *)
Fixpoint screen_matchers (orig : list string) (cluster : string) (l : list string) : result ToolError (list string) :=
  match l with
  | [] => Ok []
  | m :: l =>
    let m := TrimSpace m in
    if String.eqb m "" then screen_matchers orig cluster l
    else if MaxParamBytes <? Z.of_nat (String.length m) then
      Err (WithInput {[ "cluster" := JStr cluster ]} (newError CodeBadMatcher (say (LMatcherLong (Z.of_nat (String.length m)))) false))
    else if negb (ContainsAny m ["{"; "}"]%char) && negb (listing_metricNameRE m) then
      Err (WithHint (say LSelectorHint) (WithInput (<["matchers" := JArr (JStr <$> clipAll orig 200)]> {[ "cluster" := JStr cluster ]})
            (newError CodeBadMatcher (say (LNotSelector (ClipRunes m 200))) false)))
    else out ← screen_matchers orig cluster l; Ok (m :: out)
  end.

Definition validateMatchers (l : list string) (cluster : string) (required : bool) : result ToolError (list string) :=
  out ← screen_matchers l cluster l;
  if required && (length out =? 0)%nat then
    Err (WithHint (say LMatcherHint) (WithInput {[ "cluster" := JStr cluster ]} (newError CodeBadMatcher (say LMatcherRequired) false)))
  else Ok out.

Section handler.
Context (t : Tools) (p : Principal) (env : ListEnv).

(** [t.resolveCluster] and [t.fetch] here. *)
Definition resolved (cluster : string) : result ToolError Cluster := resolve p cluster (le_seen env) (le_registry env).
Definition fetched (call : Call) (kind : callKind) : result ToolError APIResponse :=
  Tools.fetch text unicode_lower body p call kind (le_do env call) (le_failed env) (le_later env).

(** The form of a window, of matchers. *)
Definition window_form (matchers : list string) (start end_ : Z) : gmap string (list string) :=
  let form : gmap string (list string) := if (0 <? length matchers)%nat then {[ "match[]" := matchers ]} else ∅ in
  let form := if negb (IsZero start) then <["start" := [upstream_time start]]> form else form in
  if negb (IsZero end_) then <["end" := [upstream_time end_]]> form else form.

Definition label_values_call (cluster label : string) (matchers : list string) (start end_ : Z) : Call :=
  call_of cluster "label_values" label (window_form matchers start end_).

Definition labelValuesOf (cluster label : string) (matchers : list string) (start end_ : Z) : result ToolError (list string) :=
  env' ← fetched (label_values_call cluster label matchers start end_) kindSelector;
  values ← decodeData env' cluster (list_value str_value) [];
  Ok (sort_strings (filter (λ c, c ≠ "") (LabelValue <$> values))).

Definition metadata_call (cluster metric : string) : Call := call_of cluster "metadata" "" (if String.eqb metric "" then ∅ else {[ "metric" := [metric] ]}).

Definition sanitised_metadata (raw : gmap string (list (string * string * string))) : gmap string MetricInfo :=
  map_imap (λ name entries, if listing_metricNameRE name then Some (metric_info name entries) else None) raw.

Definition metadataOf (cluster metric : string) : result ToolError (gmap string MetricInfo) :=
  env' ← fetched (metadata_call cluster metric) kindPlain;
  raw ← decodeData env' cluster upstreamMetadata ∅;
  Ok (sanitised_metadata raw).

(** How names are matched. *)
Definition search_match (cluster : string) (in_ : SearchMetricsIn) : result ToolError (string → bool) :=
  let mode := if String.eqb (smi_Mode in_) "" then ModeSubstring else smi_Mode in_ in
  if String.eqb mode ModeSubstring then Ok (λ s, str_Contains (lower s) (lower (smi_Pattern in_)))
  else if String.eqb mode ModeRegex then
    match Compile (smi_Pattern in_) with
    | Some re => Ok re
    | None => Err (WithHint (say LRegexHint) (WithInput (<["mode" := JStr mode]> (<["pattern" := JStr (ClipRunes (smi_Pattern in_) 200)]> {[ "cluster" := JStr cluster ]}))
                (newError CodeBadRegex (say (LBadRegex (smi_Pattern in_))) false)))
    end
  else Err (WithInput (<["mode" := JStr (ClipRunes mode 32)]> {[ "cluster" := JStr cluster ]}) (newError CodeInvalidArgument (say (LMode (ClipRunes mode 32))) false)).

Definition with_metadata (meta : gmap string MetricInfo) (m : MetricInfo) : MetricInfo :=
  match meta !! mi_Name m with
  | Some i => {| mi_Name := mi_Name m; mi_Type := mi_Type i; mi_Unit := mi_Unit i; mi_Help := mi_Help i |}
  | None => m
  end.

Definition searchMetrics (in_ : SearchMetricsIn) : result ToolError SearchMetricsOut :=
  c ← resolved (smi_Cluster in_);
  if String.eqb (smi_Pattern in_) "" then
    Err (WithHint (say LPatternHint) (WithInput {[ "cluster" := JStr (ID c) ]} (newError CodeInvalidArgument (say LPatternRequired) false)))
  else if 200 <? Z.of_nat (String.length (smi_Pattern in_)) then
    Err (WithInput {[ "cluster" := JStr (ID c) ]} (newError CodeInvalidArgument (say (LPatternLong (Z.of_nat (String.length (smi_Pattern in_))))) false))
  else
    match_ ← search_match (ID c) in_;
    names ← labelValuesOf (ID c) MetadataName [] 0 0;
    let matched := sort_strings (filter (λ n, match_ n = true) names) in
    let '(kept, trunc) := TruncateItems matched (clampInt (smi_Limit in_) 50 1 500) (say (LNarrow "search_metrics")) in
    let metrics := (λ n, {| mi_Name := ClipRunes n 256; mi_Type := ""; mi_Unit := ""; mi_Help := "" |}) <$> kept in
    let metrics := if smi_WithMetadata in_ && (0 <? length metrics)%nat then
        match metadataOf (ID c) "" with Err _ => metrics | Ok meta => with_metadata meta <$> metrics end
      else metrics in
    let '(out, trunc) := escalated size_metrics (tl_tokenCeiling t) metrics trunc (length matched) (say (LCeiling "search_metrics" (tl_tokenCeiling t))) in
    Ok {| smo_Metrics := out; smo_Total := Z.of_nat (length matched); smo_Scanned := Z.of_nat (length names); smo_Truncated := trunc |}.

Definition bad_metric (cluster metric : string) : ToolError :=
  WithHint (say LMetricHint) (WithInput (<["metric" := JStr (ClipRunes metric 128)]> {[ "cluster" := JStr cluster ]})
    (newError CodeInvalidArgument (say (LMetricName (ClipRunes metric 128))) false)).

Definition metricMetadata (in_ : MetricMetadataIn) : result ToolError MetricMetadataOut :=
  c ← resolved (mmi_Cluster in_);
  if negb (String.eqb (mmi_Metric in_) "") && negb (listing_metricNameRE (mmi_Metric in_)) then Err (bad_metric (ID c) (mmi_Metric in_))
  else
    meta ← metadataOf (ID c) (mmi_Metric in_);
    let names := sort_strings (map_to_list meta).*1 in
    let '(kept, trunc) := TruncateItems names (clampInt (mmi_Limit in_) 100 1 1000) (say (LNarrow "metric_metadata")) in
    let infos := (λ n, default (metric_info "" []) (meta !! n)) <$> kept in
    let '(out, trunc) := escalated size_metadata (tl_tokenCeiling t) infos trunc (length names) (say (LCeiling "metric_metadata" (tl_tokenCeiling t))) in
    Ok {| mmo_Metadata := out; mmo_Total := Z.of_nat (length names); mmo_Truncated := trunc |}.

Definition targets_call (cluster : string) (matchers : list string) (metric : string) : Call :=
  let form : gmap string (list string) := match matchers with [] => ∅ | m :: _ => {[ "match_target" := [m] ]} end in
  call_of cluster "targets_metadata" "" (if String.eqb metric "" then form else <["metric" := [metric]]> form).

Definition targetMetadata (in_ : TargetMetadataIn) : result ToolError TargetMetadataOut :=
  c ← resolved (tmi_Cluster in_);
  if negb (String.eqb (tmi_Metric in_) "") && negb (listing_metricNameRE (tmi_Metric in_)) then Err (bad_metric (ID c) (tmi_Metric in_))
  else
    matchers ← validateMatchers [tmi_MatchTarget in_] (ID c) false;
    env' ← fetched (targets_call (ID c) matchers (tmi_Metric in_)) kindSelector;
    raw ← decodeData env' (ID c) upstreamTargetMetadata [];
    let entries := merge_sort target_le (omap (target_entry (tmi_Metric in_)) raw) in
    let '(kept, trunc) := TruncateItems entries (clampInt (tmi_Limit in_) 100 1 1000) (say (LNarrow "target_metadata")) in
    let '(out, trunc) := escalated size_targets (tl_tokenCeiling t) kept trunc (length entries) (say (LCeiling "target_metadata" (tl_tokenCeiling t))) in
    Ok {| tmo_Metadata := out; tmo_Total := Z.of_nat (length entries); tmo_Truncated := trunc |}.

Definition series_call (cluster : string) (matchers : list string) (start end_ : Z) : Call :=
  call_of cluster "series" "" (<["end" := [upstream_time end_]]> (<["start" := [upstream_time start]]> {[ "match[]" := matchers ]})).

Definition window_echo (cluster start end_ : string) (name : string) (v : json) : gmap string json :=
  <["end" := JStr end_]> (<["start" := JStr start]> (<[name := v]> {[ "cluster" := JStr cluster ]})).

(** [tokenCeilingTruncation]. *)
Definition tokenCeilingTruncation (total ceiling : Z) : Truncation :=
  {| tr_Returned := 0; tr_Total := total; tr_Reason := ReasonTokenCeiling; tr_Hint := say (LRawCeiling total ceiling); tr_Selection := "" |}.

(** [strings.ToUpper] of a column. *)
Definition ToUpper (s : string) : string :=
  if str_forall (in_range 0 0x7F) s then map_bytes (λ c, if in_range 0x61 0x7A c then ascii_of_nat (nat_of_ascii c - 32) else c) s else unicode_upper s.

(** [None] in place of a result is a panic of [Table]. *)
Definition series (in_ : SeriesIn) : option (result ToolError SeriesOut) :=
  let run :=
    c ← resolved (si_Cluster in_);
    format ← parseFormat (si_Format in_) true;
    matchers ← validateMatchers (si_Matchers in_) (ID c) true;
    '(start, end_) ← range t (Some p) (si_Start in_) (si_End in_) (le_clock env) (window_echo (ID c) (si_Start in_) (si_End in_) "matchers" (JArr (JStr <$> matchers)));
    env' ← fetched (series_call (ID c) matchers start end_) kindSelector;
    Ok (c, format, env') in
  match run with
  | Err e => Some (Err e)
  | Ok (c, format, env') =>
    if String.eqb format FormatJSON then
      let est := EstimateTokensOfBytes (raw_len (ar_Data env')) in
      if (0 <? tl_tokenCeiling t) && (tl_tokenCeiling t <? est) then
        Some (Ok {| so_Columns := []; so_Rows := []; so_Total := 0; so_Truncated := Some (tokenCeilingTruncation est (tl_tokenCeiling t)); so_Table := ""; so_Raw := None |})
      else Some (Ok {| so_Columns := []; so_Rows := []; so_Total := 0; so_Truncated := None; so_Table := ""; so_Raw := ar_Data env' |})
    else match decodeData env' (ID c) (list_value map_value) [] with
    | Err e => Some (Err e)
    | Ok sets =>
      let '(kept, trunc) := TruncateItems sets (clampInt (si_Limit in_) 100 1 1000) (say (LNarrow "series")) in
      let '(fitted, trunc) := escalated (λ s, size_series (columnar s)) (tl_tokenCeiling t) kept trunc (length sets) (say (LCeiling "series" (tl_tokenCeiling t))) in
      let '(cols, rows) := columnar fitted in
      if String.eqb format FormatTable then
        table ← Table (ToUpper <$> cols) rows;
        Some (Ok {| so_Columns := []; so_Rows := []; so_Total := Z.of_nat (length sets); so_Truncated := trunc; so_Table := table; so_Raw := None |})
      else Some (Ok {| so_Columns := cols; so_Rows := rows; so_Total := Z.of_nat (length sets); so_Truncated := trunc; so_Table := ""; so_Raw := None |})
    end
  end.

Definition labels_call (cluster : string) (matchers : list string) (start end_ : Z) : Call :=
  let form : gmap string (list string) := if (0 <? length matchers)%nat then {[ "match[]" := matchers ]} else ∅ in
  call_of cluster "labels" "" (<["end" := [upstream_time end_]]> (<["start" := [upstream_time start]]> form)).

Definition labelNames (in_ : LabelNamesIn) : result ToolError LabelNamesOut :=
  c ← resolved (lni_Cluster in_);
  matchers ← validateMatchers (lni_Matchers in_) (ID c) false;
  '(start, end_) ← range t (Some p) (lni_Start in_) (lni_End in_) (le_clock env) (window_echo (ID c) (lni_Start in_) (lni_End in_) "matchers" (JArr (JStr <$> matchers)));
  env' ← fetched (labels_call (ID c) matchers start end_) kindSelector;
  names ← decodeData env' (ID c) (list_value str_value) [];
  let clean := sort_strings (filter (λ n, ValidLabelName n = true) names) in
  let '(kept, trunc) := TruncateItems clean (clampInt (lni_Limit in_) 200 1 2000) (say (LNarrow "label_names")) in
  Ok {| lno_Names := kept; lno_Total := Z.of_nat (length clean); lno_Truncated := trunc |}.

Definition labelValues (in_ : LabelValuesIn) : result ToolError LabelValuesOut :=
  c ← resolved (lvi_Cluster in_);
  match ValidateLabelName (lvi_Label in_) with
  | Err _ => Err (WithHint (say LLabelHint) (WithInput (<["label" := JStr (ClipRunes (lvi_Label in_) 128)]> {[ "cluster" := JStr (ID c) ]})
               (newError CodeInvalidArgument (say (LLabelName (ClipRunes (lvi_Label in_) 128))) false)))
  | Ok _ =>
    matchers ← validateMatchers (lvi_Matchers in_) (ID c) false;
    '(start, end_) ← range t (Some p) (lvi_Start in_) (lvi_End in_) (le_clock env) (window_echo (ID c) (lvi_Start in_) (lvi_End in_) "label" (JStr (lvi_Label in_)));
    values ← labelValuesOf (ID c) (lvi_Label in_) matchers start end_;
    let values := if String.eqb (lvi_Pattern in_) "" then values else filter (λ v, str_Contains (lower v) (lower (lvi_Pattern in_)) = true) values in
    let '(kept, trunc) := TruncateItems values (clampInt (lvi_Limit in_) 100 1 2000) (say (LNarrow "label_values")) in
    let '(out, trunc) := escalated size_values (tl_tokenCeiling t) kept trunc (length values) (say (LCeiling "label_values" (tl_tokenCeiling t))) in
    Ok {| lvo_Label := lvi_Label in_; lvo_Values := out; lvo_Total := Z.of_nat (length values); lvo_Truncated := trunc |}
  end.

(** ** Clusters *)

Definition matchesFilter (c : Cluster) (needle : string) : bool :=
  str_Contains (lower (ID c)) needle || str_Contains (lower (DisplayName c)) needle || str_Contains (lower (Description c)) needle.

Definition clusterStatus (c : Cluster) : string :=
  match Cluster_State c with
  | StateConnected => if Reachable (Prometheus c) then StatusHealthy else StatusDegraded
  | StateDegraded => StatusDegraded
  | _ => StatusUnreachable
  end.

Definition summarize (c : Cluster) (now : Z) : ClusterSummary :=
  let age := factsAge c now in
  {| cs_Name := ID c; cs_DisplayName := ClipRunes (DisplayName c) 128; cs_Description := ClipRunes (Description c) 200; cs_Status := clusterStatus c;
     cs_Labels := render_Labels (Labels c); cs_PromVersion := ClipRunes (prom_Version (Prometheus c)) 64; cs_PromFlavor := ClipRunes (Flavor (Prometheus c)) 32;
     cs_Retention := ClipRunes (Retention (Prometheus c)) 32; cs_ScrapeInterval := ClipRunes (ScrapeInterval (Prometheus c)) 32;
     cs_ActiveSeries := if 0 <? ActiveSeries (Prometheus c) then ActiveSeries (Prometheus c) else 0; cs_JobCount := Z.of_nat (length (Jobs (Prometheus c)));
     cs_AlertsFiring := FiringAlerts (Prometheus c); cs_RuleGroups := RuleGroups (Prometheus c); cs_Alertmanager := HasAlertmanager (Prometheus c);
     cs_FactsAgeSeconds := int64_of (Seconds age); cs_Stale := StaleFactsAfter <? age |}.

Definition cluster_row (c : ClusterSummary) : list string :=
  [cs_Name c; cs_Status c; cs_PromVersion c; FormatInt (cs_ActiveSeries c); FormatInt (cs_JobCount c); FormatInt (cs_AlertsFiring c); if cs_Alertmanager c then "true" else "false"].
Definition clusterTable (cs : list ClusterSummary) : option string := Table ["NAME"; "STATUS"; "VERSION"; "SERIES"; "JOBS"; "FIRING"; "AM"] (cluster_row <$> cs).

(** The filters of the loop over the visible clusters. *)
Definition listed (in_ : ListClustersIn) (status filter : string) (c : Cluster) : bool :=
  matchesSelector (Labels c) (lci_LabelSelector in_) && (String.eqb filter "" || matchesFilter c filter) && (String.eqb status StatusAll || String.eqb (clusterStatus c) status).

Definition listClusters (in_ : ListClustersIn) : option (result ToolError ListClustersOut) :=
  match parseFormat (lci_Format in_) false with
  | Err e => Some (Err e)
  | Ok format =>
    let status := if String.eqb (lci_Status in_) "" then StatusAll else lci_Status in_ in
    if negb (Contains [StatusAll; StatusHealthy; StatusDegraded; StatusUnreachable] status) then
      Some (Err (WithInput {[ "status" := JStr (ClipRunes status 64) ]} (newError CodeInvalidArgument (say (LStatus (ClipRunes status 64))) false)))
    else
      let needle := lower (TrimSpace (lci_Filter in_)) in
      let matched := (λ c, summarize c (le_clock env)) <$> filter (λ c, listed in_ status needle c = true) (Visible (Some p) (le_seen env) (le_registry env)) in
      let '(kept, trunc) := TruncateItems matched (clampInt (lci_Limit in_) 100 1 500) (say (LNarrow "list_clusters")) in
      let '(out, trunc) := escalated size_clusters (tl_tokenCeiling t) kept trunc (length matched) (say (LCeiling "list_clusters" (tl_tokenCeiling t))) in
      if String.eqb format FormatTable then
        table ← clusterTable out; Some (Ok {| lco_Clusters := []; lco_Total := Z.of_nat (length matched); lco_Truncated := trunc; lco_Table := table |})
      else Some (Ok {| lco_Clusters := out; lco_Total := Z.of_nat (length matched); lco_Truncated := trunc; lco_Table := "" |})
  end.
End handler.
End handlers.

(** * What a listing keeps *)

(** The ceiling is one the products in [FitTokens] stay in range for. *)
Definition ceiling_ok (t : Tools) : Prop := 2000 * tl_tokenCeiling t ≤ max_int64.

Lemma listing_limit n def hi : 1 ≤ hi → 1 ≤ clampInt n def 1 hi ≤ hi.
Proof. unfold clampInt. lia. Qed.

(** Of a whole list [l], shown through [f], a prefix is kept: as long as the limit
allows, or shorter where the ceiling asks for it, and what is said of it is so. *)
Definition kept_of {T U} (f : T → U) (l : list T) (limit ceiling : Z) (marshal : list U → option Z) (out : list U) (trunc : option Truncation) : Prop :=
  ∃ k, out = f <$> take k l ∧ Z.of_nat k ≤ limit ∧ (k ≤ length l)%nat ∧ honest trunc k (length l) ∧ (0 < ceiling → out = [] ∨ EstimateTokens (marshal out) ≤ ceiling) ∧
    (k = Nat.min (Z.to_nat limit) (length l) ∨ 0 < ceiling < EstimateTokens (marshal (f <$> take (Z.to_nat limit) l))).

Lemma listing_cut {T U} (f : T → U) (l : list T) limit ceiling marshal hint chint : 1 ≤ limit ≤ 2000 → 2000 * ceiling ≤ max_int64 →
  let '(kept, trunc) := TruncateItems l limit hint in
  let '(out, trunc) := escalated marshal ceiling (f <$> kept) trunc (length l) chint in
  kept_of f l limit ceiling marshal out trunc.
Proof.
  intros Hl Hc. rewrite TruncateItems_spec by lia. unfold escalated. pose proof (length_take l (Z.to_nat limit)) as Hlen.
  destruct (FitTokens_spec marshal (f <$> take (Z.to_nat limit) l) ceiling) as (k & Hfit & Hk & Hall & Hcap).
  { rewrite length_fmap. destruct (Z.le_gt_cases 0 ceiling); [nia|]. unfold max_int64. nia. }
  rewrite length_fmap in *. rewrite Hfit. case_bool_decide as Hhit.
  - assert (k ≠ length (take (Z.to_nat limit) l)) as Hne by tauto. exists k. rewrite <- fmap_take in *. rewrite take_take in *.
    replace (k `min` Z.to_nat limit)%nat with k in * by lia. split_and!; [done|lia|lia| | |right; lia].
    + unfold honest. rewrite length_fmap, length_take. replace (k `min` length l)%nat with k by lia. split; [lia|]. by destruct (_ <=? _).
    + intros H0. destruct (Hcap H0) as [->|?]; [by left|by right].
  - exists (Nat.min (Z.to_nat limit) (length l)). assert (take (Z.to_nat limit `min` length l) l = take (Z.to_nat limit) l) as Ht.
    { destruct (Nat.min_spec (Z.to_nat limit) (length l)) as [[_ ->]|[? ->]]; [done|]. by rewrite !take_ge by lia. }
    rewrite Ht. split_and!; [done|lia|lia| | |by left].
    + unfold honest. destruct (Z.leb_spec (Z.of_nat (length l)) limit); [lia|]. cbn [tr_Returned tr_Total]. lia.
    + intros H0. destruct (decide (f <$> take (Z.to_nat limit) l = [])); [by left|]. right. apply Z.nlt_ge. intros ?. by apply Hhit.
Qed.

Lemma metric_info_inert name entries : listing_metricNameRE name = true → 
  mi_Name (metric_info name entries) = name ∧ inert (mi_Type (metric_info name entries)) = true ∧ inert (mi_Unit (metric_info name entries)) = true ∧ inert (mi_Help (metric_info name entries)) = true.
Proof. intros _. destruct entries as [|[[ty help] unit] l]; [done|]. cbn [metric_info mi_Name mi_Type mi_Unit mi_Help]. unfold Help. split_and!; [done|apply clip_inert..]. Qed.

Lemma sanitised_lookup raw n i : sanitised_metadata raw !! n = Some i → listing_metricNameRE n = true ∧ ∃ entries, raw !! n = Some entries ∧ i = metric_info n entries.
Proof.
  unfold sanitised_metadata. rewrite map_lookup_imap. intros (entries & Hr & H)%bind_Some. destruct (listing_metricNameRE n) eqn:Hn; [|done].
  injection H as <-. split; [done|]. by exists entries.
Qed.

Lemma sort_strings_perm l : sort_strings l ≡ₚ l.
Proof. apply merge_sort_Permutation. Qed.

Section listings.
Context (text : Text → string) (say : ListText → string) (unicode_lower unicode_upper : string → string).
Context (time_parse : string → option Z) (ParseFloat : string → option float) (seconds : float → Z) (int64_of : float → Z) (FormatFloat : float → string).
Context {Bytes : Type} `{!JsonText Bytes} (body : string → Bytes).
Context (Compile : string → option (string → bool)) (raw_len : option json → Z).
Context (size_metrics : list MetricInfo → option Z) (size_series : list string * list (list string) → option Z) (size_clusters : list ClusterSummary → option Z).
Context (t : Tools) (p : Principal) (env : ListEnv).

Local Abbreviation search := (searchMetrics text say unicode_lower FormatFloat body Compile size_metrics t p env).
Local Abbreviation find_cluster := (resolved text unicode_lower p env).
Local Abbreviation matcher := (search_match say unicode_lower Compile).
Local Abbreviation values_of := (labelValuesOf text say unicode_lower FormatFloat body p env).
Local Abbreviation meta_of := (metadataOf text say unicode_lower body p env).

Lemma meta_of_inert cluster metric meta n i : meta_of cluster metric = Ok meta → meta !! n = Some i →
  mi_Name i = n ∧ inert (mi_Type i) = true ∧ inert (mi_Unit i) = true ∧ inert (mi_Help i) = true.
Proof.
  unfold metadataOf. destruct (fetched _ _ _ _ _ _ _) as [env'|]; [|done]. cbn [mbind result_bind]. destruct (decodeData _ _ _ _ _) as [raw|]; [|done]. cbn [mbind result_bind].
  intros [= <-] (Hn & entries & _ & ->)%sanitised_lookup. by apply metric_info_inert.
Qed.

(** C31: A search answers with the names that match, in order, and says what it
left out.  It succeeds exactly when the cluster is one the principal sees, the
pattern is not empty, within 200 bytes and good for its mode, and the cluster lists
its names; then the names kept are a prefix of the sorted matches, within the
limit and the token ceiling, with an honest count, sanitised text only, and each
with the metadata the cluster published under that name.  Metadata that cannot be
had never costs the answer. *)
Theorem search_metrics_exact (in_ : SearchMetricsIn) : ceiling_ok t →
  match search in_ with
  | Ok out =>
    ∃ c m names f, find_cluster (smi_Cluster in_) = Ok c ∧ 0 < Z.of_nat (String.length (smi_Pattern in_)) ≤ 200 ∧ matcher (ID c) in_ = Ok m ∧
      values_of (ID c) MetadataName [] 0 0 = Ok names ∧
      let matched := sort_strings (filter (λ n, m n = true) names) in
      kept_of f matched (clampInt (smi_Limit in_) 50 1 500) (tl_tokenCeiling t) size_metrics (smo_Metrics out) (smo_Truncated out) ∧
      smo_Total out = Z.of_nat (length matched) ∧ smo_Scanned out = Z.of_nat (length names) ∧
      ∀ n, mi_Name (f n) = ClipRunes n 256 ∧ inert (mi_Type (f n)) = true ∧ inert (mi_Unit (f n)) = true ∧ inert (mi_Help (f n)) = true ∧
        (smi_WithMetadata in_ = true → ∀ meta i, meta_of (ID c) "" = Ok meta → meta !! ClipRunes n 256 = Some i → f n = i)
  | Err e =>
    find_cluster (smi_Cluster in_) = Err e ∨
    ∃ c, find_cluster (smi_Cluster in_) = Ok c ∧
      (smi_Pattern in_ = "" ∨ 200 < Z.of_nat (String.length (smi_Pattern in_)) ∨ matcher (ID c) in_ = Err e ∨ values_of (ID c) MetadataName [] 0 0 = Err e)
  end.
Proof.
  intros Hc. unfold searchMetrics. destruct (find_cluster _) as [c|e]; cbn [mbind result_bind]; [|by left].
  destruct (String.eqb_spec (smi_Pattern in_) "") as [Hp|Hp]; [right; exists c; split; [done|by left]|].
  destruct (Z.ltb_spec 200 (Z.of_nat (String.length (smi_Pattern in_)))) as [Hl|Hl]; [right; exists c; split; [done|by right; left]|].
  destruct (matcher (ID c) in_) as [m|e] eqn:Hm; cbn [mbind result_bind]; [|right; exists c; split; [done|by right; right; left]].
  destruct (values_of _ _ _ _ _) as [names|e] eqn:Hn; cbn [mbind result_bind]; [|right; exists c; split; [done|by right; right; right]].
  cbv zeta. set (matched := sort_strings (filter (λ n, m n = true) names)).
  set (bare := λ n, {| mi_Name := ClipRunes n 256; mi_Type := ""; mi_Unit := ""; mi_Help := "" |}).
  set (f := λ n, if smi_WithMetadata in_ then match meta_of (ID c) "" with Ok meta => with_metadata meta (bare n) | Err _ => bare n end else bare n).
  pose proof (listing_cut f matched (clampInt (smi_Limit in_) 50 1 500) (tl_tokenCeiling t) size_metrics (say (LNarrow "search_metrics")) (say (LCeiling "search_metrics" (tl_tokenCeiling t)))) as Hcut.
  destruct (TruncateItems matched _ _) as [kept trunc].
  replace (if _ && _ then _ else _) with (f <$> kept).
  2: { unfold f. destruct (smi_WithMetadata in_); [|done]. destruct kept as [|n kept]; [done|]. cbn [andb fmap list_fmap length Nat.ltb Nat.leb].
    destruct (meta_of (ID c) ""); [|done]. cbn [fmap list_fmap]. f_equal. by rewrite <- list_fmap_compose. }
  destruct (escalated _ _ _ _ _ _) as [out trunc']. exists c, m, names, f.
  assert (0 < Z.of_nat (String.length (smi_Pattern in_))) by (destruct (smi_Pattern in_); [done|cbn; lia]).
  split_and!; try done; [apply Hcut; [|done]; pose proof (listing_limit (smi_Limit in_) 50 500); lia|].
  intros n. unfold f. destruct (smi_WithMetadata in_); [|by cbn; split_and!].
  destruct (meta_of (ID c) "") as [meta|] eqn:Hmeta; [|by cbn; split_and!]. unfold with_metadata. change (mi_Name (bare n)) with (ClipRunes n 256).
  destruct (meta !! ClipRunes n 256) as [i|] eqn:Hi; cbn [mi_Name mi_Type mi_Unit mi_Help].
  - destruct (meta_of_inert _ _ _ _ _ Hmeta Hi) as (Hname & ? & ? & ?). split_and!; [done..|]. intros _ meta' i' [= <-]. rewrite Hi. intros [= <-]. by destruct i; cbn in *; subst.
  - split_and!; [done..|]. intros _ meta' i' [= <-]. by rewrite Hi.
Qed.
End listings.

(** * Columns *)

#[export] Instance column_le_total : Total column_le.
Proof.
  intros a b. unfold column_le. destruct (String.eqb a MetadataName) eqn:Ha; [by left; left|]. destruct (String.eqb b MetadataName) eqn:Hb; [by right; left|].
  destruct (base.total String.le a b); [left|right]; by right.
Qed.
#[export] Instance column_le_trans : Transitive column_le.
Proof.
  intros a b c. unfold column_le. intros [Ha|[Hb Hab]] [Hb'|[Hc Hbc]]; try (by left); [congruence|]. right. split; [done|]. by transitivity b.
Qed.

Lemma columns_elem sets k : k ∈ columns_of sets ↔ ValidLabelName k = true ∧ ∃ s, s ∈ sets ∧ is_Some (s !! k).
Proof.
  unfold columns_of. rewrite merge_sort_Permutation, elem_of_elements, elem_of_list_to_set, list_elem_of_filter, list_elem_of_bind. apply and_iff_compat_l.
  split.
  - intros (s & Hk & Hs). exists s. split; [done|]. apply list_elem_of_fmap in Hk as ([k' v] & -> & Hin%elem_of_map_to_list). by exists v.
  - intros (s & Hs & [v Hv]). exists s. split; [|done]. apply list_elem_of_fmap. exists (k, v). split; [done|]. by apply elem_of_map_to_list.
Qed.

Lemma columns_NoDup sets : NoDup (columns_of sets).
Proof. unfold columns_of. rewrite merge_sort_Permutation. apply NoDup_elements. Qed.

Lemma columns_sorted sets : StronglySorted column_le (columns_of sets).
Proof. apply StronglySorted_merge_sort; apply _. Qed.

(** A row read back: the labels with a value. *)
Definition read_row (cols row : list string) : gmap string string := list_to_map (filter (λ e : string * string, e.2 ≠ "") (zip cols row)).

Lemma label_loop_lookup l acc k : NoDup l.*1 →
  foldl (λ out '(k, v), if negb (ValidLabelName k) then out else <[k := LabelValue v]> out) acc l !! k =
  match (list_to_map l : gmap string string) !! k with Some v => if ValidLabelName k then Some (LabelValue v) else acc !! k | None => (acc : gmap string string) !! k end.
Proof.
  revert acc. induction l as [|[k' v] l IH]; intros acc Hnd; [done|]. cbn [fmap list_fmap fst] in Hnd. apply NoDup_cons in Hnd as [Hk' Hnd].
  cbn [foldl list_to_map foldr fst snd]. rewrite IH by done. destruct (decide (k' = k)) as [->|Hne].
  - rewrite lookup_insert_eq, (not_elem_of_list_to_map_1 l k Hk'). destruct (ValidLabelName k); cbn [negb]; [by rewrite lookup_insert_eq|done].
  - rewrite lookup_insert_ne by done. assert ((if negb (ValidLabelName k') then acc else <[k':=LabelValue v]> acc) !! k = acc !! k) as Hacc
      by (destruct (ValidLabelName k'); cbn [negb]; [by rewrite lookup_insert_ne|done]). by rewrite Hacc.
Qed.

Lemma render_Labels_lookup m k : render_Labels m !! k = if ValidLabelName k then LabelValue <$> m !! k else None.
Proof.
  unfold render_Labels, label_loop. rewrite label_loop_lookup by apply NoDup_fst_map_to_list. rewrite list_to_map_to_list, lookup_empty.
  by destruct (m !! k), (ValidLabelName k).
Qed.

Lemma read_row_lookup (f : string → string) cols k : NoDup cols →
  read_row cols (f <$> cols) !! k = if bool_decide (k ∈ cols ∧ f k ≠ "") then Some (f k) else None.
Proof.
  unfold read_row. induction cols as [|c cols IH]; intros Hnd.
  { rewrite bool_decide_false; [done|]. by intros [?%not_elem_of_nil _]. }
  apply NoDup_cons in Hnd as [Hc Hnd]. cbn [fmap list_fmap zip zip_with]. destruct (decide (k = c)) as [->|Hne].
  - destruct (decide (f c = "")) as [Hz|Hz].
    + rewrite filter_cons_False by (cbn; tauto). rewrite IH, !bool_decide_false by naive_solver. done.
    + rewrite filter_cons_True by done. cbn [list_to_map foldr fst snd]. rewrite lookup_insert_eq, bool_decide_true by (split; [left|done]). done.
  - rewrite (bool_decide_ext (k ∈ c :: cols ∧ f k ≠ "") (k ∈ cols ∧ f k ≠ "")) by (rewrite elem_of_cons; naive_solver). rewrite <- IH by done.
    destruct (decide (f c = "")); [by rewrite filter_cons_False by (cbn; tauto)|]. rewrite filter_cons_True by done. cbn [list_to_map foldr fst snd]. by rewrite lookup_insert_ne.
Qed.

(** Reading a row back gives the sanitised labels of its set that have a value. *)
Lemma columnar_row sets s : s ∈ sets →
  read_row (columns_of sets) ((λ c, LabelValue (map_get s c)) <$> columns_of sets) = filter (λ e : string * string, e.2 ≠ "") (render_Labels s).
Proof.
  intros Hs. apply map_eq. intros k. rewrite read_row_lookup by apply columns_NoDup. rewrite map_lookup_filter, render_Labels_lookup.
  unfold map_get. destruct (s !! k) as [v|] eqn:Hk; cbn [default].
  - destruct (ValidLabelName k) eqn:Hv; cbn [fmap option_fmap option_map mbind option_bind].
    + assert (k ∈ columns_of sets) by (apply columns_elem; split; [done|]; exists s; split; [done|by exists v]).
      case_guard as Hg; cbn [mbind option_bind]; [by rewrite bool_decide_true|]. rewrite bool_decide_false by tauto. done.
    + rewrite bool_decide_false; [done|]. intros [[Hv' _]%columns_elem _]. congruence.
  - rewrite bool_decide_false by (intros [_ H]; by destruct H). by destruct (ValidLabelName k).
Qed.

Section series.
Context (text : Text → string) (say : ListText → string) (unicode_lower unicode_upper : string → string).
Context (time_parse : string → option Z) (ParseFloat : string → option float) (seconds : float → Z) (int64_of : float → Z) (FormatFloat : float → string).
Context {Bytes : Type} `{!JsonText Bytes} (body : string → Bytes) (raw_len : option json → Z) (size_series : list string * list (list string) → option Z).
Context (t : Tools) (p : Principal) (env : ListEnv).

Local Abbreviation run_series := (series text say unicode_lower unicode_upper time_parse ParseFloat seconds int64_of FormatFloat body raw_len size_series t p env).
Local Abbreviation window := (resolveRange text time_parse ParseFloat seconds int64_of).

(** The columns of some sets, the rows and what they are worth. *)
Definition faithful (sets : list (gmap string string)) (cols : list string) (rows : list (list string)) : Prop :=
  StronglySorted column_le cols ∧ NoDup cols ∧ (∀ k, k ∈ cols ↔ ValidLabelName k = true ∧ ∃ s, s ∈ sets ∧ is_Some (s !! k)) ∧
  Forall2 (λ s row, length row = length cols ∧ read_row cols row = filter (λ e : string * string, e.2 ≠ "") (render_Labels s)) sets rows.

Lemma columnar_faithful sets : faithful sets (columnar sets).1 (columnar sets).2.
Proof.
  unfold columnar. cbn [fst snd]. split_and!; [apply columns_sorted|apply columns_NoDup|apply columns_elem|].
  apply Forall2_fmap_r, Forall_Forall2_diag, Forall_forall. intros s Hs. split; [by rewrite length_fmap|by apply columnar_row].
Qed.

(** C29: A series listing loses no label.  It never fails to draw its table; a
result comes from the window the principal may ask for and from matchers that were
screened; the raw form is passed on only within the token ceiling, and otherwise
the sets shown are a prefix of what the cluster sent, within limit and ceiling,
with an honest count: as rows over sorted columns, the metric name first, that
read back to the sanitised labels of each set, or as the table of those rows. *)
Theorem series_exact (in_ : SeriesIn) : ceiling_ok t →
  ∃ r, run_series in_ = Some r ∧ ∀ out, r = Ok out →
  ∃ c format matchers start end_ echo env', resolved text unicode_lower p env (si_Cluster in_) = Ok c ∧ ParseFormat (si_Format in_) = Some format ∧
    validateMatchers say (si_Matchers in_) (ID c) true = Ok matchers ∧ window t (Some p) (si_Start in_) (si_End in_) (le_clock env) echo = Ok (start, end_) ∧
    fetched text unicode_lower body p env (series_call FormatFloat (ID c) matchers start end_) kindSelector = Ok env' ∧
    if String.eqb format FormatJSON then
      so_Columns out = [] ∧ so_Rows out = [] ∧ so_Table out = "" ∧
      (so_Raw out = ar_Data env' ∧ so_Truncated out = None ∨ so_Raw out = None ∧ is_Some (so_Truncated out)) ∧
      (0 < tl_tokenCeiling t → so_Truncated out = None → EstimateTokensOfBytes (raw_len (so_Raw out)) ≤ tl_tokenCeiling t)
    else ∃ sets kept cols rows, decodeData say env' (ID c) (list_value map_value) [] = Ok sets ∧ so_Raw out = None ∧ so_Total out = Z.of_nat (length sets) ∧
      kept_of id sets (clampInt (si_Limit in_) 100 1 1000) (tl_tokenCeiling t) (λ s, size_series (columnar s)) kept (so_Truncated out) ∧ faithful kept cols rows ∧
      if String.eqb format FormatTable then Table (ToUpper unicode_upper <$> cols) rows = Some (so_Table out) else so_Columns out = cols ∧ so_Rows out = rows.
Proof.
  intros Hc. unfold series. cbv zeta. destruct (resolved _ _ _ _ _) as [c|e]; cbn [mbind result_bind]; [|by eexists].
  unfold parseFormat. destruct (ParseFormat (si_Format in_)) as [format|] eqn:Hformat; cbn [negb mbind result_bind]; [|by eexists]. rewrite andb_false_r.
  destruct (validateMatchers _ _ _ _) as [matchers|e] eqn:Hmatch; cbn [mbind result_bind]; [|by eexists].
  destruct (window t _ _ _ _ _) as [[start end_]|e] eqn:Hwin; cbn [mbind result_bind]; [|by eexists].
  destruct (fetched _ _ _ _ _ _ _) as [env'|e] eqn:Hfetch; cbn [mbind result_bind]; [|by eexists].
  destruct (String.eqb format FormatJSON) eqn:Hjson.
  - destruct ((0 <? tl_tokenCeiling t) && (tl_tokenCeiling t <? _)) eqn:Hbig; (eexists; split; [reflexivity|]); intros out [= <-];
      exists c, format, matchers, start, end_; eexists _, env'; rewrite Hjson; (split; [done|]; split; [done|]; split; [exact Hmatch|]; split; [exact Hwin|]; split; [exact Hfetch|]);
      cbn [so_Columns so_Rows so_Table so_Raw so_Truncated]; (split; [done|]; split; [done|]; split; [done|]).
    + split; [right; split; [done|by eexists]|done].
    + split; [by left|]. intros H0 _. apply andb_false_iff in Hbig as [Hb|Hb]; [by apply Z.ltb_ge in Hb; lia|by apply Z.ltb_ge in Hb].
  - destruct (decodeData _ _ _ _ _) as [sets|e] eqn:Hdec; [|by eexists].
    pose proof (listing_cut id sets (clampInt (si_Limit in_) 100 1 1000) (tl_tokenCeiling t) (λ s, size_series (columnar s)) (say (LNarrow "series")) (say (LCeiling "series" (tl_tokenCeiling t)))) as Hcut.
    destruct (TruncateItems sets _ _) as [kept trunc]. rewrite list_fmap_id in Hcut. destruct (escalated _ _ _ _ _ _) as [fitted trunc']. pose proof (columnar_faithful fitted) as Hfaith.
    destruct (columnar fitted) as [cols rows]. cbn [fst snd] in Hfaith. pose proof (listing_limit (si_Limit in_) 100 1000 ltac:(lia)) as Hlim. specialize (Hcut ltac:(lia) Hc).
    destruct (Table_rows (ToUpper unicode_upper <$> cols) rows) as (table & Htable & _).
    destruct (String.eqb format FormatTable) eqn:Htab; [rewrite Htable; cbn [mbind option_bind]|]; (eexists; split; [reflexivity|]); intros out [= <-];
      exists c, format, matchers, start, end_; eexists _, env'; rewrite Hjson; (split; [done|]; split; [done|]; split; [exact Hmatch|]; split; [exact Hwin|]; split; [exact Hfetch|]); exists sets, fitted, cols, rows; rewrite Htab; by split_and!.
Qed.
End series.

(** * The calls of the listings pass the allow-list *)

Lemma not_blank s c : str_exists (Ascii.eqb c) s = true → (byte_val c < 0x80) → IsSpace (byte_val c) = false → blank s = false.
Proof.
  intros Hin Hc Hs. destruct (blank s) eqn:Hb; [|done]. unfold blank in Hb. rewrite forallb_forall in Hb.
  rewrite <- (Hb (byte_val c)), Hs; [done|]. by apply list_elem_of_In, runes_ascii.
Qed.

Lemma str_exists_witness f s : str_exists f s = true → ∃ c, f c = true ∧ str_exists (Ascii.eqb c) s = true.
Proof.
  induction s as [|c s IH]; [done|]. cbn [str_exists]. intros [Hc|Hs]%orb_true_iff.
  - exists c. split; [done|]. by rewrite Ascii.eqb_refl.
  - destruct (IH Hs) as (d & Hd & Hin). exists d. split; [done|]. rewrite Hin. apply orb_true_r.
Qed.

(** A byte a selector must hold. *)
Definition selector_byte (c : ascii) : bool := metric_first c || Ascii.eqb c "{" || Ascii.eqb c "}".
Lemma selector_byte_shows c : selector_byte c = true → byte_val c < 0x80 ∧ IsSpace (byte_val c) = false.
Proof. destruct c as [[] [] [] [] [] [] [] []]; vm_compute; done. Qed.

Lemma screened_shows say orig cluster l out m : screen_matchers say orig cluster l = Ok out → m ∈ out → Z.of_nat (String.length m) ≤ MaxParamBytes ∧ blank m = false.
Proof.
  revert out. induction l as [|x l IH]; intros out; cbn [screen_matchers].
  { intros [= <-]. by intros ?%not_elem_of_nil. }
  destruct (String.eqb (TrimSpace x) ""); [apply IH|]. destruct (Z.ltb_spec MaxParamBytes (Z.of_nat (String.length (TrimSpace x)))) as [|Hlen]; [done|].
  destruct (negb (ContainsAny (TrimSpace x) ["{"; "}"]%char) && negb (listing_metricNameRE (TrimSpace x))) eqn:Hsel; [done|].
  destruct (screen_matchers say orig cluster l) as [out'|]; [|done]. cbn [mbind result_bind]. intros [= <-] [->|Hin]%elem_of_cons; [|by eapply IH]. split; [done|].
  assert (∃ c, selector_byte c = true ∧ str_exists (Ascii.eqb c) (TrimSpace x) = true) as (c & Hc & Hin).
  { apply andb_false_iff in Hsel as [Hb%negb_false_iff|Hn%negb_false_iff].
    - apply str_exists_witness in Hb as (c & Hc & Hin). exists c. split; [|done]. cbn [existsb] in Hc. rewrite orb_false_r in Hc. unfold selector_byte.
      apply orb_true_iff in Hc as [-> | ->]; [by rewrite orb_true_r|apply orb_true_r].
    - unfold listing_metricNameRE, PromApi.metricNameRE, name_matches in Hn. destruct (TrimSpace x) as [|c s]; [done|]. apply andb_true_iff in Hn as [Hc _].
      exists c. unfold selector_byte. rewrite Hc. split; [done|]. cbn [str_exists]. by rewrite Ascii.eqb_refl. }
  destruct (selector_byte_shows c Hc). by eapply not_blank.
Qed.

Lemma validated_shows say l cluster required matchers : validateMatchers say l cluster required = Ok matchers →
  (∀ m, m ∈ matchers → Z.of_nat (String.length m) ≤ MaxParamBytes ∧ blank m = false) ∧ (required = true → matchers ≠ []).
Proof.
  unfold validateMatchers. destruct (screen_matchers _ _ _ _) as [out|] eqn:Hs; [|done]. cbn [mbind result_bind].
  destruct (required && (length out =? 0)%nat) eqn:Hr; [done|]. intros [= <-]. split; [intros m; by eapply screened_shows|].
  intros -> ->. done.
Qed.

(** The characters and the number that are fit for a request. *)
Definition fit_to_send (matchers : list string) : Prop := (length matchers ≤ MaxRepeatedParams)%nat ∧ ∀ m, m ∈ matchers → existsb isForbiddenRune (runes m) = false.

Section allowed.
Context (time_parses : string → bool) (ParseFloat : string → option float) (FormatFloat : float → string).
(** [strconv.FormatFloat] writes numbers [strconv.ParseFloat] reads, without
control characters, and the longest has some eleven hundred bytes. *)
Hypothesis FormatFloat_parses : ∀ f, is_Some (ParseFloat (FormatFloat f)) ∧ Z.of_nat (String.length (FormatFloat f)) ≤ MaxParamBytes ∧ existsb isForbiddenRune (runes (FormatFloat f)) = false.

Local Abbreviation good := (validateValue time_parses ParseFloat).
Local Abbreviation accepts := (Validate time_parses ParseFloat).

Lemma accepts_form e r form : routes !! e = Some r → ro_Gated r = false → accepts e form false = Ok () ↔ form_ok time_parses ParseFloat r form.
Proof.
  intros Hr Hg. pose proof (Validate_spec time_parses ParseFloat (map_to_list form) e form false (Permutation_refl _)) as Hv. unfold Validate.
  destruct (Validate_of _ _ _ _ _ _) as [[]|[]]; [..|destruct Hv].
  - destruct Hv as (r' & Hr' & _ & Hok). assert (r' = r) as -> by congruence. done.
  - congruence.
  - destruct Hv as (r' & Hr' & Hg' & _). congruence.
  - destruct Hv as (r' & Hr' & _ & Hok). assert (r' = r) as -> by congruence. done.
Qed.

Lemma good_time p z : pa_Kind p = KindTime → good p (formatUpstreamTime FormatFloat z) = true.
Proof.
  intros Hk. unfold formatUpstreamTime. set (f := (_ / _)%float). destruct (FormatFloat_parses f) as ([x Hx] & Hlen & Hrunes). unfold validateValue. rewrite Hk, Hrunes.
  rewrite bool_decide_false by done. rewrite (proj2 (Z.ltb_ge _ _) Hlen). unfold validateTime. rewrite Hx. by destruct (time_parses _).
Qed.

Lemma good_matcher p m : pa_Kind p = KindMatcher → Z.of_nat (String.length m) ≤ MaxParamBytes → blank m = false → good p m = negb (existsb isForbiddenRune (runes m)).
Proof.
  intros Hk Hlen Hb. unfold validateValue. rewrite Hk, Hb. rewrite bool_decide_false by done. rewrite (proj2 (Z.ltb_ge _ _) Hlen). by destruct (existsb _ _).
Qed.

Lemma selector_route e : e ∈ ["series"; "labels"; "label_values"] → ∃ r, routes !! e = Some r ∧ ro_Gated r = false ∧
  (∃ p, p ∈ ro_Params r ∧ pa_Name p = "match[]" ∧ pa_Kind p = KindMatcher ∧ pa_Repeated p = true) ∧
  (∀ n, n ∈ ["start"; "end"] → ∃ p, p ∈ ro_Params r ∧ pa_Name p = n ∧ pa_Kind p = KindTime ∧ pa_Repeated p = false) ∧
  (∀ p, p ∈ ro_Params r → pa_Required p = true → e = "series" ∧ pa_Name p = "match[]") ∧
  (∀ p, p ∈ ro_Params r → pa_Name p = "match[]" → pa_Kind p = KindMatcher).
Proof.
  assert (∀ ps q, ps = q :: [param "start" KindTime; param "end" KindTime; param "limit" KindInt] → pa_Name q = "match[]" → pa_Kind q = KindMatcher → pa_Repeated q = true →
    (pa_Required q = true → e = "series") →
    (∃ p, p ∈ ps ∧ pa_Name p = "match[]" ∧ pa_Kind p = KindMatcher ∧ pa_Repeated p = true) ∧
    (∀ n, n ∈ ["start"; "end"] → ∃ p, p ∈ ps ∧ pa_Name p = n ∧ pa_Kind p = KindTime ∧ pa_Repeated p = false) ∧
    (∀ p, p ∈ ps → pa_Required p = true → e = "series" ∧ pa_Name p = "match[]") ∧ (∀ p, p ∈ ps → pa_Name p = "match[]" → pa_Kind p = KindMatcher)) as Hps.
  { intros ps q -> Hn Hk Hr Hreq. split_and!.
    - exists q. split; [left|done].
    - intros n Hin. apply elem_of_cons in Hin as [->|Hin]; [exists (param "start" KindTime); split; [right; left|done]|].
      apply list_elem_of_singleton in Hin as ->. exists (param "end" KindTime). split; [right; right; left|done].
    - intros p Hp. repeat (apply elem_of_cons in Hp as [->|Hp]; [auto; done|]). by apply not_elem_of_nil in Hp.
    - intros p Hp. repeat (apply elem_of_cons in Hp as [->|Hp]; [done|]). by apply not_elem_of_nil in Hp. }
  intros He. repeat (apply elem_of_cons in He as [->|He]; [eexists; split;
    [apply routes_elem; unfold route_table; repeat first [apply list_elem_of_here|apply list_elem_of_further]|split; [reflexivity|eapply Hps; [reflexivity|done..]]]|]).
  by apply not_elem_of_nil in He.
Qed.

(** A form of matchers and a window. *)
Definition selector_form (matchers : list string) (form : gmap string (list string)) : Prop :=
  (form !! "match[]" = Some matchers ∨ form !! "match[]" = None ∧ matchers = []) ∧
  ∀ name values, form !! name = Some values → name = "match[]" ∨ name ∈ ["start"; "end"] ∧ ∃ z, values = [formatUpstreamTime FormatFloat z].

Lemma selector_accepts e form say l cluster required matchers : e ∈ ["series"; "labels"; "label_values"] → selector_form matchers form →
  validateMatchers say l cluster required = Ok matchers → (e = "series" → required = true ∧ form !! "match[]" = Some matchers) →
  accepts e form false = Ok () ↔ fit_to_send matchers.
Proof.
  intros He [Hm Hform] Hval Hreq. apply validated_shows in Hval as [Hshow Hne].
  destruct (selector_route e He) as (r & Hr & Hg & (pm & Hpm & Hnm & Hkm & Hrm) & Htime & Hrequired & Hkind). rewrite (accepts_form e r form Hr Hg). split.
  - intros [Hok _]. destruct Hm as [Hm|[_ ->]]; [|split; [cbn; lia|by intros ? ?%not_elem_of_nil]].
    destruct (Hok _ _ Hm) as (p & Hp & Hname & _ & Hlen & Hvals). split; [done|]. intros m Hin. pose proof (Hvals m Hin) as Hv. destruct (Hshow m Hin) as [H1 H2].
    rewrite (good_matcher p m (Hkind p Hp Hname) H1 H2) in Hv. by apply negb_true_iff in Hv.
  - intros [Hlen Hrunes]. split.
    + intros name values Hl. destruct (Hform _ _ Hl) as [->|[Hn [z ->]]].
      * destruct Hm as [Hm|[Hm _]]; [|congruence]. assert (values = matchers) as -> by congruence. exists pm. split_and!; [done|done|by rewrite Hrm|done|].
        intros m Hin. destruct (Hshow m Hin) as [H1 H2]. rewrite (good_matcher pm m Hkm H1 H2). by rewrite Hrunes.
      * destruct (Htime name Hn) as (p & Hp & Hname & Hk & _). exists p. split_and!; [done|done|cbn; lia|cbn; unfold MaxRepeatedParams; lia|].
        intros v Hv%list_elem_of_singleton. subst v. by apply good_time.
    + intros p Hp Hpr. destruct (Hrequired p Hp Hpr) as [-> ->]. destruct (Hreq eq_refl) as [-> Hmm]. unfold form_get. rewrite Hmm. by apply Hne.
Qed.

Lemma window_selector matchers start end_ : selector_form matchers (window_form FormatFloat matchers start end_).
Proof.
  unfold window_form. cbv zeta. split.
  - assert (∀ form : gmap string (list string), (if negb (IsZero end_) then <["end":=[formatUpstreamTime FormatFloat end_]]> form else form) !! "match[]" = form !! "match[]") as ->
      by (intros form; destruct (negb (IsZero end_)); [by rewrite lookup_insert_ne|done]).
    assert (∀ form : gmap string (list string), (if negb (IsZero start) then <["start":=[formatUpstreamTime FormatFloat start]]> form else form) !! "match[]" = form !! "match[]") as ->
      by (intros form; destruct (negb (IsZero start)); [by rewrite lookup_insert_ne|done]).
    destruct matchers; [by right|left]. apply lookup_singleton_eq.
  - intros name values Hl. destruct (negb (IsZero end_)); [apply lookup_insert_Some in Hl as [[<- <-]|[_ Hl]]; [right; split; [right; left|by eexists]|]|];
      (destruct (negb (IsZero start)); [apply lookup_insert_Some in Hl as [[<- <-]|[_ Hl]]; [right; split; [left|by eexists]|]|]);
      (destruct matchers; [done|]; apply lookup_singleton_Some in Hl as [<- <-]; by left).
Qed.

Lemma whole_window_selector matchers start end_ (base : gmap string (list string)) : base = {[ "match[]" := matchers ]} ∨ matchers = [] ∧ base = ∅ →
  selector_form matchers (<["end" := [formatUpstreamTime FormatFloat end_]]> (<["start" := [formatUpstreamTime FormatFloat start]]> base)).
Proof.
  intros Hb. split.
  - rewrite !lookup_insert_ne by done. destruct Hb as [->|[-> ->]]; [left; apply lookup_singleton_eq|by right].
  - intros name values [[<- <-]|[_ [[<- <-]|[_ Hl]]%lookup_insert_Some]]%lookup_insert_Some; [right; split; [right; left|by eexists]|right; split; [left|by eexists]|].
    destruct Hb as [->|[_ ->]]; [|done]. apply lookup_singleton_Some in Hl as [<- _]. by left.
Qed.

Lemma metric_rest_clean c : metric_rest c = true → byte_val c < 0x80 ∧ isForbiddenRune (byte_val c) = false.
Proof. destruct c as [[] [] [] [] [] [] [] []]; vm_compute; done. Qed.

Lemma metric_name_clean s : PromApi.metricNameRE s = true → existsb isForbiddenRune (runes s) = false.
Proof.
  intros Hs. assert (str_forall metric_rest s = true) as Hall.
  { destruct s as [|c s]; [done|]. apply andb_true_iff in Hs as [Hc Hs]. unfold str_forall in *. cbn [str_exists]. rewrite negb_orb. unfold metric_rest at 1. by rewrite Hc. }
  clear Hs. unfold runes. induction s as [|c s IH]; [done|]. unfold str_forall in Hall. cbn [str_exists] in Hall. rewrite negb_orb, negb_involutive in Hall. apply andb_true_iff in Hall as [Hc Hs].
  destruct (metric_rest_clean c Hc) as [Hb Hf]. cbn [String.length runes_fuel]. unfold DecodeRune. rewrite (proj2 (Z.ltb_lt _ _) Hb). cbn [existsb]. rewrite Hf. by apply IH.
Qed.

Lemma good_metric p metric : pa_Kind p = KindMetricName → PromApi.metricNameRE metric = true → Z.of_nat (String.length metric) ≤ MaxParamBytes → good p metric = true.
Proof. intros Hk Hm Hl. unfold validateValue. rewrite Hk, bool_decide_false by done. by rewrite (proj2 (Z.ltb_ge _ _) Hl), (metric_name_clean _ Hm), Hm. Qed.

Lemma fixed_paths e : e ∈ ["series"; "labels"; "metadata"; "targets_metadata"] → ∃ path, BuildPath e "" = Ok path.
Proof.
  assert (forallb (λ e, match BuildPath e "" with Ok _ => true | Err _ => false end) ["series"; "labels"; "metadata"; "targets_metadata"] = true) as H by (vm_compute; reflexivity).
  rewrite forallb_forall in H. intros Hin. apply list_elem_of_In, H in Hin. destruct (BuildPath e ""); [by eexists|done].
Qed.

Lemma metadata_route : ∃ r, routes !! "metadata" = Some r ∧ ro_Gated r = false ∧ param "metric" KindMetricName ∈ ro_Params r ∧ Forall (λ p, pa_Required p = false) (ro_Params r).
Proof.
  eexists. split; [apply routes_elem; unfold route_table; repeat first [apply list_elem_of_here|apply list_elem_of_further]|]. split; [reflexivity|]. split; [left|]. by repeat constructor.
Qed.

Lemma targets_route : ∃ r, routes !! "targets_metadata" = Some r ∧ ro_Gated r = false ∧ param "match_target" KindMatcher ∈ ro_Params r ∧ param "metric" KindMetricName ∈ ro_Params r ∧
  Forall (λ p, pa_Required p = false ∧ (pa_Name p = "match_target" → p = param "match_target" KindMatcher)) (ro_Params r).
Proof.
  eexists. split; [apply routes_elem; unfold route_table; repeat first [apply list_elem_of_here|apply list_elem_of_further]|]. split; [reflexivity|]. split; [left|]. split; [right; left|]. by repeat constructor.
Qed.

End allowed.

(** * Clusters *)

#[export] Instance cluster_le_total : Total cluster_le.
Proof. intros a b. apply (base.total String.le). Qed.
#[export] Instance cluster_le_trans : Transitive cluster_le.
Proof. intros a b c. unfold cluster_le. apply transitivity. Qed.

Lemma StronglySorted_keep {A} (R : relation A) (P : A → Prop) `{∀ x, Decision (P x)} (l : list A) : StronglySorted R l → StronglySorted R (filter P l).
Proof.
  induction 1 as [|x l Hl IH Hx]; [constructor|]. destruct (decide (P x)); [rewrite filter_cons_True by done; constructor; [done|]|by rewrite filter_cons_False].
  apply Forall_forall. intros y [_ Hy]%list_elem_of_filter. by apply (proj1 (Forall_forall _ _) Hx).
Qed.

Section clusters.
Context (say : ListText → string) (unicode_lower : string → string) (int64_of : float → Z) (size_clusters : list ClusterSummary → option Z).
Context (t : Tools) (p : Principal) (env : ListEnv).
Local Abbreviation list_clusters := (listClusters say unicode_lower int64_of size_clusters t p env).

(** A listing of clusters shows those the principal may reach and that match, in
the order of their names, and no others; it draws its table, and refuses nothing
but its own arguments. *)
Theorem list_clusters_exact (in_ : ListClustersIn) : ceiling_ok t →
  match list_clusters in_ with
  | None => False
  | Some (Err e) => te_Code e = CodeInvalidArgument
  | Some (Ok out) =>
    ∃ status kept, status = (if String.eqb (lci_Status in_) "" then StatusAll else lci_Status in_) ∧
      let matched := filter (λ c, listed unicode_lower in_ status (ToLower unicode_lower (TrimSpace (lci_Filter in_))) c = true) (Visible (Some p) (le_seen env) (le_registry env)) in
      kept_of (λ c, summarize int64_of c (le_clock env)) matched (clampInt (lci_Limit in_) 100 1 500) (tl_tokenCeiling t) size_clusters kept (lco_Truncated out) ∧
      StronglySorted cluster_le matched ∧ lco_Total out = Z.of_nat (length matched) ∧
      (∀ s, s ∈ kept → ∃ c, s = summarize int64_of c (le_clock env) ∧ AllowsCluster (p_Scope p) (ID c) (Labels c) = true) ∧
      (lco_Clusters out = kept ∨ lco_Clusters out = [] ∧ clusterTable kept = Some (lco_Table out))
  end.
Proof.
  intros Hc. unfold listClusters. unfold parseFormat. destruct (ParseFormat (lci_Format in_)) as [format|]; [|done].
  destruct (String.eqb format FormatJSON && negb false); [done|]. cbv zeta. set (status := if String.eqb (lci_Status in_) "" then StatusAll else lci_Status in_).
  destruct (negb (Contains _ status)); [done|]. set (needle := ToLower unicode_lower (TrimSpace (lci_Filter in_))).
  set (matched := filter (λ c, listed unicode_lower in_ status needle c = true) (Visible (Some p) (le_seen env) (le_registry env))). rewrite length_fmap.
  pose proof (listing_cut id ((λ c, summarize int64_of c (le_clock env)) <$> matched) (clampInt (lci_Limit in_) 100 1 500) (tl_tokenCeiling t) size_clusters (say (LNarrow "list_clusters")) (say (LCeiling "list_clusters" (tl_tokenCeiling t)))) as Hcut.
  destruct (TruncateItems _ _ _) as [kept trunc]. rewrite list_fmap_id, length_fmap in Hcut. destruct (escalated _ _ _ _ _ _) as [out trunc'].
  pose proof (listing_limit (lci_Limit in_) 100 500 ltac:(lia)) as Hlim. specialize (Hcut ltac:(lia) Hc).
  assert (kept_of (λ c, summarize int64_of c (le_clock env)) matched (clampInt (lci_Limit in_) 100 1 500) (tl_tokenCeiling t) size_clusters out trunc') as Hkept.
  { destruct Hcut as (k & Hout & Hk & Hlen & Hh & Hfit & Hall). rewrite list_fmap_id, length_fmap in *. rewrite <- fmap_take in *. exists k. by split_and!. }
  assert (StronglySorted cluster_le matched) as Hsort.
  { apply StronglySorted_keep. unfold Visible. destruct (p_Scope p); [|constructor]. apply StronglySorted_merge_sort; apply _. }
  assert (∀ s, s ∈ out → ∃ c, s = summarize int64_of c (le_clock env) ∧ AllowsCluster (p_Scope p) (ID c) (Labels c) = true) as Hallow.
  { destruct Hkept as (k & -> & _). intros s (c & -> & Hin)%list_elem_of_fmap. exists c. split; [done|]. apply elem_of_take in Hin as (i & Hi & _). apply list_elem_of_lookup_2 in Hi.
    unfold matched in Hi. apply list_elem_of_filter in Hi as [_ Hi]. unfold Visible in Hi. destruct (p_Scope p) as [s|]; [|by apply not_elem_of_nil in Hi].
    apply registry_filter_elem in Hi as (id & e & _ & _ & _ & Hk). done. }
  destruct (String.eqb format FormatTable).
  - unfold clusterTable. destruct (Table_rows ["NAME"; "STATUS"; "VERSION"; "SERIES"; "JOBS"; "FIRING"; "AM"] (cluster_row <$> out)) as (table & Htable & _). rewrite Htable. cbn [mbind option_bind].
    exists status, out. split_and!; try done. right. done.
  - exists status, out. split_and!; try done. by left.
Qed.
End clusters.

(** Label names are not cut at the token ceiling. *)
Lemma label_names_uncapped text say unicode_lower time_parse ParseFloat seconds int64_of FormatFloat {Bytes} `{!JsonText Bytes} (body : string → Bytes) t p env in_ ceiling :
  labelNames text say unicode_lower time_parse ParseFloat seconds int64_of FormatFloat body {| tl_tokenCeiling := ceiling; tl_maxLookback := tl_maxLookback t; tl_fanoutConcurrency := tl_fanoutConcurrency t |} p env in_ =
  labelNames text say unicode_lower time_parse ParseFloat seconds int64_of FormatFloat body t p env in_.
Proof. reflexivity. Qed.

(** * Examples *)

Definition one_cluster : Registry := run_ops [joins "prod-eu"] fresh_registry.
Definition list_agent : Principal := agent_for "k1" ["prod-eu"] no_limits.
Definition list_json (data : json) : json := JObj [("status", JStr "success"); ("data", data)].
Definition list_body (s : string) : option json :=
  if String.eqb s "names" then Some (list_json (JArr [JStr "up"; JStr "node_cpu"; JStr "UP_total"]))
  else if String.eqb s "series" then Some (list_json (JArr [JObj [("job", JStr "api"); ("__name__", JStr "up")]; JObj [("__name__", JStr "up"); ("az", JStr "b")]])) else None.
Definition list_answer (b : string) : Answer := (Some {| re_Body := b; re_Status := 200; re_Warnings := []; re_Truncated := false; re_Bytes := 2 |}, None).
(** Names and series are served, metadata is not. *)
Definition list_env : ListEnv :=
  {| le_seen := 20; le_registry := one_cluster; le_clock := toy_now;
     le_do := λ call, if String.eqb (ca_Endpoint call) "label_values" then list_answer "names" else if String.eqb (ca_Endpoint call) "series" then list_answer "series" else (None, Some (EContext "prod-eu" [SDeadlineExceeded]));
     le_failed := 20; le_later := one_cluster |}.
Definition no_say (_ : ListText) : string := "".
Definition search_up : SearchMetricsIn := {| smi_Cluster := "prod-eu"; smi_Pattern := "up"; smi_Mode := ""; smi_Limit := 1; smi_WithMetadata := true |}.
Definition toy_search_metrics : result ToolError SearchMetricsOut := searchMetrics toy_text no_say (λ s, s) (λ _, "1") list_body (λ _, None) (λ _, None) toy_tools list_agent list_env search_up.
Definition list_series (format : string) : SeriesIn := {| si_Cluster := "prod-eu"; si_Matchers := [" up "]; si_Start := ""; si_End := ""; si_Limit := 0; si_Format := format |}.
Definition toy_series (format : string) : option (result ToolError SeriesOut) :=
  series toy_text no_say (λ s, s) (λ s, s) toy_parse digits_float (λ _, 0) (λ _, 0) (λ _, "1") list_body (λ _, 0) (λ _, None) toy_tools list_agent list_env (list_series format).

Lemma toy_ceiling_ok : ceiling_ok toy_tools.
Proof. unfold ceiling_ok. vm_compute. discriminate. Qed.

Lemma search_metrics_exact_witness :
  toy_search_metrics = Ok {| smo_Metrics := [{| mi_Name := "UP_total"; mi_Type := ""; mi_Unit := ""; mi_Help := "" |}]; smo_Total := 2; smo_Scanned := 3;
                     smo_Truncated := Some {| tr_Returned := 1; tr_Total := 2; tr_Reason := ReasonLimit; tr_Hint := ""; tr_Selection := "" |} |} ∧
  ∃ c, resolved toy_text (λ s, s) list_agent list_env "prod-eu" = Ok c.
Proof.
  assert (toy_search_metrics = Ok {| smo_Metrics := [{| mi_Name := "UP_total"; mi_Type := ""; mi_Unit := ""; mi_Help := "" |}]; smo_Total := 2; smo_Scanned := 3;
    smo_Truncated := Some {| tr_Returned := 1; tr_Total := 2; tr_Reason := ReasonLimit; tr_Hint := ""; tr_Selection := "" |} |}) as Hs by (vm_compute; reflexivity).
  split; [exact Hs|].
  pose proof (search_metrics_exact toy_text no_say (λ s, s) (λ _, "1") list_body (λ _, None) (λ _, None) toy_tools list_agent list_env search_up toy_ceiling_ok) as H.
  unfold toy_search_metrics in Hs. rewrite Hs in H. destruct H as (c & m & names & f & Hc & _). exists c. exact Hc.
Defined.

Lemma series_exact_witness :
  toy_series "compact" = Some (Ok {| so_Columns := ["__name__"; "az"; "job"]; so_Rows := [["up"; ""; "api"]; ["up"; "b"; ""]]; so_Total := 2; so_Truncated := None; so_Table := ""; so_Raw := None |}) ∧
  ∃ r, toy_series "table" = Some r.
Proof.
  split; [vm_compute; reflexivity|].
  destruct (series_exact toy_text no_say (λ s, s) (λ s, s) toy_parse digits_float (λ _, 0) (λ _, 0) (λ _, "1") list_body (λ _, 0) (λ _, None) toy_tools list_agent list_env (list_series "table") toy_ceiling_ok)
    as (r & Hr & _). exists r. exact Hr.
Defined.

