(* ===== verification/Query.v ===== *)
(** The query tools: [query] and [query_range] of [src/internal/mcptools/query.go],
with [refuseRawUnderLimits] of [format.go].

A handler reads the clock when it parses its arguments and, for an instant, again
when it checks the lookback; [None] in place of an answer is a panic.  What
[Prometheus.Do] answers is an argument as in [Listing]; the time a call took is
left out. *)

From S2P Require Import Prelude GoFloat Fleet Codec Registry Text PromApi Nearest Step Sanitize PromData Render Proxy ToolError Guard Tools Fanout Listing.
From Stdlib Require Import Floats.PrimFloat.
Open Scope string_scope.
Open Scope Z_scope.

Inductive QueryText := QNoRaw | QNoRawHint | QRangeVector | QRangeVectorHint | QNotRange (resultType : string) | QNotRangeHint.

Record QueryIn := { qi_Cluster : string; qi_Query : string; qi_Time : string; qi_Timeout : string; qi_Limit : Z; qi_Format : string }.
Record QueryOut := {
  qo_ResultType : string;
  qo_Time : Z;
  qo_Columns : list string;
  qo_Rows : list Row;
  qo_SharedLabels : gmap string string;
  qo_Total : Z;
  qo_Truncated : option Truncation;
  qo_Warnings : list string;
  qo_Raw : option json;
  qo_Table : string
}.
Record QueryRangeIn := {
  qr_Cluster : string;
  qr_Query : string;
  qr_Start : string;
  qr_End : string;
  qr_Step : string;
  qr_MaxPoints : Z;
  qr_MaxSeries : Z;
  qr_Timeout : string;
  qr_Format : string
}.
Record QueryRangeOut := {
  qro_Start : Z;
  qro_StepSeconds : float;
  qro_Points : Z;
  qro_SharedLabels : gmap string string;
  qro_Series : list RangeSeries;
  qro_SeriesTotal : Z;
  qro_Truncated : option Truncation;
  qro_Downsampled : Downsampled;
  qro_Warnings : list string;
  qro_Raw : option json
}.

(** [p.Scope.Limits], where a nil scope is a panic. *)
Definition limits_of (p : Principal) : option Limits := Scope_Limits <$> p_Scope p.

(** The second member of a string result. *)
Definition string_value (res : option json) : string := match res with Some (JArr [_; JStr s]) => s | _ => "" end.

Section queries.
Context (text : Text → string) (say : ListText → string) (qsay : QueryText → string) (unicode_lower : string → string).
Context (time_parse : string → option Z) (ParseFloat : string → option float) (seconds : float → Z) (int64_of : float → Z) (FormatFloat FormatG : float → string) (Log10 : float → float).
Context {Bytes : Type} `{!JsonText Bytes} (body : string → Bytes) (raw_len : option json → Z).
(** What [json.Marshal] makes of rows and of series. *)
Context (size_rows : list Row → option Z) (size_range : list RangeSeries → option Z).

Definition refuseRawUnderLimits (format : string) (p : Principal) (points : bool) : option (option ToolError) :=
  if negb (String.eqb format FormatJSON) then Some None
  else
    l ← limits_of p;
    if negb ((0 <? MaxSeries l) || points && (0 <? MaxPoints l)) then Some None
    else Some (Some (WithHint (qsay QNoRawHint) (WithInput {[ "format" := JStr "json" ]} (newError CodeInvalidArgument (qsay QNoRaw) false)))).

Definition valueText (c : Cell) : string :=
  match c with CellNumber None => "" | CellNumber (Some f) => FormatG f | CellText s => s end.
Definition instantTable (rows : list Row) : option string :=
  Table ["METRIC"; "LABELS"; "VALUE"] ((λ r : Row, [r.1.1; labelsText r.1.2; valueText r.2]) <$> rows).

Section query.
Context (t : Tools) (p : Principal) (env : ListEnv).

Definition query_call (cluster : string) (in_ : QueryIn) (at_ timeout : Z) : Call :=
  {| ca_ClusterID := cluster; ca_Endpoint := "query"; ca_LabelName := "";
     ca_Form := <["timeout" := [FormatDuration timeout]]> (<["time" := [formatUpstreamTime FormatFloat at_]]> {[ "query" := [qi_Query in_] ]});
     ca_Timeout := timeout; ca_MaxBytes := 0; ca_RequestID := "" |}.

Definition passthroughInstant (at_ : Z) (resp : APIResponse) : QueryOut :=
  let est := EstimateTokensOfBytes (raw_len (ar_Data resp)) in
  if (0 <? tl_tokenCeiling t) && (tl_tokenCeiling t <? est) then
    {| qo_ResultType := ""; qo_Time := Unix at_; qo_Columns := []; qo_Rows := []; qo_SharedLabels := ∅; qo_Total := 0;
       qo_Truncated := Some (tokenCeilingTruncation say est (tl_tokenCeiling t)); qo_Warnings := []; qo_Raw := None; qo_Table := "" |}
  else
    {| qo_ResultType := ""; qo_Time := Unix at_; qo_Columns := []; qo_Rows := []; qo_SharedLabels := ∅; qo_Total := 0; qo_Truncated := None;
       qo_Warnings := (ar_Warnings resp ++ ar_Infos resp)%list; qo_Raw := ar_Data resp; qo_Table := "" |}.

(** The input of the encoder. *)
Definition instant_input (cluster query : string) (at_ : Z) (resp : APIResponse) : result ToolError InstantInput :=
  match DecodeQueryData (ar_Data resp) with
  | Err e => Err (malformed text cluster e)
  | Ok data =>
    let input scalar str vec := {| ii_ResultType := qd_ResultType data; ii_Vector := vec; ii_Scalar := scalar; ii_StringValue := str; ii_At := at_; ii_Warnings := (ar_Warnings resp ++ ar_Infos resp)%list |} in
    if String.eqb (qd_ResultType data) "matrix" then
      Err (WithHint (qsay QRangeVectorHint) (WithInput (<["query" := JStr (ClipRunes query 512)]> {[ "cluster" := JStr cluster ]}) (newError CodeInvalidArgument (qsay QRangeVector) false)))
    else if String.eqb (qd_ResultType data) "scalar" then
      match DecodeScalar ParseFloat (qd_Result data) with Err e => Err (malformed text cluster e) | Ok pt => Ok (input (Some pt) "" []) end
    else if String.eqb (qd_ResultType data) "string" then Ok (input None (string_value (qd_Result data)) [])
    else match DecodeVector ParseFloat (qd_Result data) with Err e => Err (malformed text cluster e) | Ok vec => Ok (input None "" vec) end
  end.

Definition row_limit (l : Limits) (limit : Z) : Z :=
  let limit := clampInt limit 100 1 1000 in if 0 <? MaxSeries l then Z.min limit (MaxSeries l) else limit.

(** [later] is the clock when the lookback is checked. *)
Definition query_args (in_ : QueryIn) (later : Z) : result ToolError (Z * Z) :=
  match ParseTime time_parse ParseFloat seconds int64_of (qi_Time in_) (le_clock env) with
  | Err err => Err (invalidTime text "time" (qi_Time in_) (qi_Cluster in_) err)
  | Ok at_ =>
    let at_ := if IsZero at_ then le_clock env else at_ in
    match checkLookback text t (Some p) at_ later (<["time" := JStr (qi_Time in_)]> (<["query" := JStr (ClipRunes (qi_Query in_) 512)]> {[ "cluster" := JStr (qi_Cluster in_) ]})) with
    | Some e => Err e
    | None =>
      match ParseDuration ParseFloat seconds (qi_Timeout in_) with
      | Err err => Err (invalidTime text "timeout" (qi_Timeout in_) (qi_Cluster in_) err)
      | Ok timeout => Ok (at_, tool_effectiveTimeout timeout DefaultQueryTimeout)
      end
    end
  end.

Definition query (in_ : QueryIn) (later : Z) : option (result ToolError QueryOut) :=
  match resolved text unicode_lower p env (qi_Cluster in_) with
  | Err e => Some (Err e)
  | Ok c =>
    match parseFormat say (qi_Format in_) true with
    | Err e => Some (Err e)
    | Ok format =>
      match refuseRawUnderLimits format p false with
      | None => None
      | Some (Some e) => Some (Err e)
      | Some None =>
        match validateExpr text (qi_Query in_) (qi_Cluster in_) with
        | Some e => Some (Err e)
        | None =>
          match query_args in_ later with
          | Err e => Some (Err e)
          | Ok (at_, timeout) =>
            match fetched text unicode_lower body p env (query_call (ID c) in_ at_ timeout) kindQuery with
            | Err e => Some (Err e)
            | Ok resp =>
              if String.eqb format FormatJSON then Some (Ok (passthroughInstant at_ resp))
              else match instant_input (ID c) (qi_Query in_) at_ resp with
              | Err e => Some (Err e)
              | Ok input =>
                l ← limits_of p;
                let enc := EncodeInstant Log10 size_rows input {| op_Format := ""; op_MaxSeries := 0; op_MaxPoints := 0; op_MaxItems := row_limit l (qi_Limit in_); op_TokenCeiling := tl_tokenCeiling t |} in
                let out cols rows table :=
                  {| qo_ResultType := ir_ResultType enc; qo_Time := Unix at_; qo_Columns := cols; qo_Rows := rows; qo_SharedLabels := ir_SharedLabels enc; qo_Total := ir_Total enc;
                     qo_Truncated := ir_Truncated enc; qo_Warnings := ir_Warnings enc; qo_Raw := None; qo_Table := table |} in
                if String.eqb format FormatTable then table ← instantTable (ir_Rows enc); Some (Ok (out [] [] table))
                else Some (Ok (out (ir_Columns enc) (ir_Rows enc) ""))
              end
            end
          end
        end
      end
    end
  end.

(** ** Ranges *)

Definition range_call (cluster : string) (in_ : QueryRangeIn) (start end_ step timeout : Z) : Call :=
  {| ca_ClusterID := cluster; ca_Endpoint := "query_range"; ca_LabelName := "";
     ca_Form := <["timeout" := [FormatDuration timeout]]> (<["step" := [FormatDuration step]]> (<["end" := [formatUpstreamTime FormatFloat end_]]>
       (<["start" := [formatUpstreamTime FormatFloat start]]> {[ "query" := [qr_Query in_] ]})));
     ca_Timeout := timeout; ca_MaxBytes := 0; ca_RequestID := "" |}.

Definition range_echo (in_ : QueryRangeIn) : gmap string json :=
  <["step" := JStr (qr_Step in_)]> (<["end" := JStr (qr_End in_)]> (<["start" := JStr (qr_Start in_)]> (<["query" := JStr (ClipRunes (qr_Query in_) 512)]> {[ "cluster" := JStr (qr_Cluster in_) ]}))).

(** The window, the user's step and the timeout. *)
Definition range_args (in_ : QueryRangeIn) : result ToolError (Z * Z * Z * Z) :=
  '(start, end_) ← resolveRange text time_parse ParseFloat seconds int64_of t (Some p) (qr_Start in_) (qr_End in_) (le_clock env) (range_echo in_);
  match ParseDuration ParseFloat seconds (qr_Step in_) with
  | Err err => Err (invalidTime text "step" (qr_Step in_) (qr_Cluster in_) err)
  | Ok userStep =>
    match ParseDuration ParseFloat seconds (qr_Timeout in_) with
    | Err err => Err (invalidTime text "timeout" (qr_Timeout in_) (qr_Cluster in_) err)
    | Ok timeout => Ok (start, end_, userStep, tool_effectiveTimeout timeout DefaultRangeTimeout)
    end
  end.

Definition point_budget (l : Limits) (n : Z) : Z := let n := clampInt n DefaultMaxPoints 10 500 in if 0 <? MaxPoints l then Z.min n (MaxPoints l) else n.
Definition series_budget (l : Limits) (n : Z) : Z := let n := clampInt n DefaultMaxSeries 1 200 in if 0 <? MaxSeries l then Z.min n (MaxSeries l) else n.

Definition raw_range (down : Downsampled) (resp : APIResponse) : QueryRangeOut :=
  let est := EstimateTokensOfBytes (raw_len (ar_Data resp)) in
  let out trunc warnings raw :=
    {| qro_Start := 0; qro_StepSeconds := 0%float; qro_Points := 0; qro_SharedLabels := ∅; qro_Series := []; qro_SeriesTotal := 0; qro_Truncated := trunc;
       qro_Downsampled := down; qro_Warnings := warnings; qro_Raw := raw |} in
  if (0 <? tl_tokenCeiling t) && (tl_tokenCeiling t <? est) then out (Some (tokenCeilingTruncation say est (tl_tokenCeiling t))) [] None
  else out None (ar_Warnings resp ++ ar_Infos resp)%list (ar_Data resp).

Definition decoded_matrix (cluster query : string) (resp : APIResponse) : result ToolError (list SeriesStream) :=
  match DecodeQueryData (ar_Data resp) with
  | Err e => Err (malformed text cluster e)
  | Ok data =>
    if negb (String.eqb (qd_ResultType data) "matrix") then
      Err (WithHint (qsay QNotRangeHint) (WithInput (<["query" := JStr (ClipRunes query 512)]> {[ "cluster" := JStr cluster ]})
            (newError CodeInvalidArgument (qsay (QNotRange (ClipRunes (qd_ResultType data) 32))) false)))
    else match DecodeMatrix ParseFloat (qd_Result data) with Err e => Err (malformed text cluster e) | Ok m => Ok m end
  end.

Definition queryRange (in_ : QueryRangeIn) : option (result ToolError QueryRangeOut) :=
  match resolved text unicode_lower p env (qr_Cluster in_) with
  | Err e => Some (Err e)
  | Ok c =>
    match parseFormat say (qr_Format in_) true with
    | Err e => Some (Err e)
    | Ok format =>
      match refuseRawUnderLimits format p true with
      | None => None
      | Some (Some e) => Some (Err e)
      | Some None =>
        match validateExpr text (qr_Query in_) (qr_Cluster in_) with
        | Some e => Some (Err e)
        | None =>
          match range_args in_ with
          | Err e => Some (Err e)
          | Ok (start, end_, userStep, timeout) =>
            l ← limits_of p;
            let maxPoints := point_budget l (qr_MaxPoints in_) in
            let req := step_request ParseFloat seconds start end_ userStep maxPoints c in
            let step := (SelectStep req).1 in
            match fetched text unicode_lower body p env (range_call (ID c) in_ start end_ step timeout) kindQuery with
            | Err e => Some (Err e)
            | Ok resp =>
              if String.eqb format FormatJSON then Some (Ok (raw_range (downsampled req) resp))
              else match decoded_matrix (ID c) (qr_Query in_) resp with
              | Err e => Some (Err e)
              | Ok matrix =>
                let enc := EncodeRange Log10 size_range
                  {| ri_Matrix := matrix; ri_Start := start; ri_End := end_; ri_Step := step; ri_Downsampled := downsampled req; ri_Warnings := (ar_Warnings resp ++ ar_Infos resp)%list; ri_SeriesTotalHint := 0 |}
                  {| op_Format := ""; op_MaxSeries := series_budget l (qr_MaxSeries in_); op_MaxPoints := maxPoints; op_MaxItems := 0; op_TokenCeiling := tl_tokenCeiling t |} in
                Some (Ok {| qro_Start := rr_Start enc; qro_StepSeconds := rr_StepSeconds enc; qro_Points := rr_Points enc; qro_SharedLabels := rr_SharedLabels enc; qro_Series := rr_Series enc;
                            qro_SeriesTotal := rr_SeriesTotal enc; qro_Truncated := rr_Truncated enc; qro_Downsampled := rr_Downsampled enc; qro_Warnings := rr_Warnings enc; qro_Raw := None |})
              end
            end
          end
        end
      end
    end
  end.
End query.
End queries.

(** * Within the scope *)

Lemma resolved_scope text unicode_lower p env id c : resolved text unicode_lower p env id = Ok c → ∃ s, p_Scope p = Some s ∧ AllowsCluster (Some s) (ID c) (Labels c) = true.
Proof.
  unfold resolved, resolveCluster. destruct (String.eqb id ""); [done|]. destruct (negb (clusterIDRE id)); [done|]. destruct (Registry_Cluster _ _ _) as [c'|]; [|done].
  destruct (AllowsCluster _ _ _) eqn:Ha; cbn [negb]; [|done]. intros [= <-]. destruct (p_Scope p) as [s|]; [by exists s|done].
Qed.

Lemma effective_timeout_bounds want def : 0 < def → 0 < tool_effectiveTimeout want def ≤ MaxQueryTimeout.
Proof. intros Hd. unfold tool_effectiveTimeout. assert (0 < MaxQueryTimeout) by (vm_compute; done). destruct (Z.leb_spec want 0); lia. Qed.

Lemma budget_bounds (n cap hi : Z) : 1 ≤ n ≤ hi → let b := if 0 <? cap then Z.min n cap else n in 1 ≤ b ≤ hi ∧ (0 < cap → b ≤ cap).
Proof. intros Hn. cbv zeta. destruct (Z.ltb_spec 0 cap); lia. Qed.

Lemma row_limit_bounds l n : 1 ≤ row_limit l n ≤ 1000 ∧ (0 < MaxSeries l → row_limit l n ≤ MaxSeries l).
Proof. apply budget_bounds, listing_limit. lia. Qed.
Lemma series_budget_bounds l n : 1 ≤ series_budget l n ≤ 200 ∧ (0 < MaxSeries l → series_budget l n ≤ MaxSeries l).
Proof. apply budget_bounds, listing_limit. lia. Qed.
Lemma point_budget_bounds l n : 1 ≤ point_budget l n ≤ 500 ∧ (0 < MaxPoints l → point_budget l n ≤ MaxPoints l).
Proof. apply budget_bounds. unfold clampInt. lia. Qed.

(** The products of the encoders stay in range. *)
Lemma ceiling_product t n : ceiling_ok t → 1 ≤ n ≤ 1000 → n * (if tl_tokenCeiling t =? 0 then DefaultTokenCeiling else tl_tokenCeiling t) ≤ max_int64.
Proof.
  unfold ceiling_ok. intros Hc Hn. destruct (Z.eqb_spec (tl_tokenCeiling t) 0); [unfold DefaultTokenCeiling, max_int64; lia|].
  destruct (Z.le_gt_cases 0 (tl_tokenCeiling t)); [nia|]. unfold max_int64. nia.
Qed.

Lemma EncodeRange_points Log10 marshal in_ opts :
  rr_Points (EncodeRange Log10 marshal in_ opts) = if (0 <=? Sub (ri_End in_) (ri_Start in_)) && (0 <? ri_Step in_) then Z.quot (Sub (ri_End in_) (ri_Start in_)) (ri_Step in_) + 1 else 0.
Proof.
  unfold EncodeRange. cbv zeta. destruct (Nat.eqb _ _); [done|]. destruct (if _ <? _ then _ else _) as [kept trunc]. destruct (FitTokens _ _ _) as [fitted hit]. by destruct (factorShared _) as [shared series].
Qed.

Lemma instant_rows Log10 marshal in_ limit ceiling : 1 ≤ limit ≤ 1000 → limit * (if ceiling =? 0 then DefaultTokenCeiling else ceiling) ≤ max_int64 →
  Z.of_nat (length (ir_Rows (EncodeInstant Log10 marshal in_ {| op_Format := ""; op_MaxSeries := 0; op_MaxPoints := 0; op_MaxItems := limit; op_TokenCeiling := ceiling |}))) ≤ limit.
Proof.
  intros Hl Hc. set (opts := {| op_Format := ""; op_MaxSeries := 0; op_MaxPoints := 0; op_MaxItems := limit; op_TokenCeiling := ceiling |}).
  assert (op_MaxItems (WithDefaults opts) = limit) as Hmi by (cbn; destruct (Z.leb_spec limit 0); [lia|done]).
  destruct (ii_Scalar in_) as [pt|] eqn:Hs; [unfold EncodeInstant; rewrite Hs; cbn; lia|].
  destruct (String.eqb_spec (ii_ResultType in_) "string") as [Ht|Ht]; [unfold EncodeInstant; rewrite Hs, Ht; cbn [String.eqb Ascii.eqb Bool.eqb ir_Rows length]; lia|].
  destruct (EncodeInstant_correct Log10 marshal in_ opts Hs Ht) as (kept & dropped & _ & _ & Hk & Hrows & _); [by rewrite Hmi|].
  rewrite Hmi in Hk. apply Forall2_length in Hrows. unfold opts in *. lia.
Qed.

Section scope.
Context (text : Text → string) (say : ListText → string) (qsay : QueryText → string) (unicode_lower : string → string).
Context (time_parse : string → option Z) (ParseFloat : string → option float) (seconds : float → Z) (int64_of : float → Z) (FormatFloat FormatG : float → string) (Log10 : float → float).
Context {Bytes : Type} `{!JsonText Bytes} (body : string → Bytes) (raw_len : option json → Z).
Context (size_rows : list Row → option Z) (size_range : list RangeSeries → option Z).
Context (t : Tools) (p : Principal) (env : ListEnv).

Local Abbreviation run_query := (query text say qsay unicode_lower time_parse ParseFloat seconds int64_of FormatFloat FormatG Log10 body raw_len size_rows t p env).
Local Abbreviation run_range := (queryRange text say qsay unicode_lower time_parse ParseFloat seconds int64_of FormatFloat Log10 body raw_len size_range t p env).
Local Abbreviation decode := (instant_input text qsay ParseFloat).

Lemma refuse_raw format points : is_Some (limits_of p) → ∃ r, refuseRawUnderLimits qsay format p points = Some r ∧
  (r = None → format = FormatJSON → ∀ l, limits_of p = Some l → MaxSeries l ≤ 0 ∧ (points = true → MaxPoints l ≤ 0)).
Proof.
  intros [l Hl]. unfold refuseRawUnderLimits. destruct (String.eqb_spec format FormatJSON) as [Hf|Hf]; cbn [negb]; [|by eexists].
  rewrite Hl. cbn [mbind option_bind]. destruct ((0 <? MaxSeries l) || points && (0 <? MaxPoints l)) eqn:Hc; cbn [negb]; eexists; (split; [reflexivity|]); [done|].
  intros _ _ l' [= <-]. apply orb_false_iff in Hc as [H1%Z.ltb_ge H2]. split; [done|]. intros ->. by apply Z.ltb_ge in H2.
Qed.

Lemma query_args_ok in_ later at_ timeout : query_args text time_parse ParseFloat seconds int64_of t p env in_ later = Ok (at_, timeout) → lookbackLimit t (Some p) < max_int64 →
  later - at_ ≤ lookbackLimit t (Some p) ∧ 0 < timeout ≤ MaxQueryTimeout.
Proof.
  unfold query_args. intros H Hl. destruct (ParseTime _ _ _ _ _ _) as [a|]; [|done]. cbv zeta in H. destruct (checkLookback _ _ _ _ _ _) eqn:Hc; [done|].
  destruct (ParseDuration _ _ _) as [d|]; [|done]. injection H as <- <-. split; [by eapply checkLookback_None|]. apply effective_timeout_bounds. by vm_compute.
Qed.

(** An answer that is given: the call it came from, then the bounds from [Hend]. *)
Local Ltac answer Hend c s at_ timeout resp :=
  eexists; split; [reflexivity|]; intros out [= <-]; exists c, s, at_, timeout, resp; split; [done|]; split; [done|]; split; [done|]; eapply Hend; [exact id|..].

(** What an answer to an instant query is held to. *)
Definition query_within (in_ : QueryIn) (later : Z) (c : Cluster) (s : Scope) (at_ timeout : Z) (resp : APIResponse) (out : QueryOut) : Prop :=
  let l := Scope_Limits s in
  later - at_ ≤ lookbackLimit t (Some p) ∧ (0 < MaxLookback l → later - at_ ≤ MaxLookback l) ∧ 0 < timeout ≤ MaxQueryTimeout ∧
  fetched text unicode_lower body p env (query_call FormatFloat (ID c) in_ at_ timeout) kindQuery = Ok resp ∧
  Z.of_nat (length (qo_Rows out)) ≤ row_limit l (qi_Limit in_) ∧ (0 < MaxSeries l → Z.of_nat (length (qo_Rows out)) ≤ MaxSeries l) ∧
  (is_Some (qo_Raw out) → MaxSeries l ≤ 0) ∧
  (ParseFormat (qi_Format in_) = Some FormatCompact → ∀ input, decode (ID c) (qi_Query in_) at_ resp = Ok input → ii_Scalar input = None → ii_ResultType input ≠ "string" →
     qo_Total out = Z.of_nat (length (ii_Vector input)) ∧ honest (qo_Truncated out) (length (qo_Rows out)) (length (ii_Vector input))).


Local Abbreviation args := (range_args text time_parse ParseFloat seconds int64_of t p env).

Lemma range_args_ok in_ start end_ userStep timeout : args in_ = Ok (start, end_, userStep, timeout) → lookbackLimit t (Some p) < max_int64 →
  (start < end_ ∧ end_ - start ≤ lookbackLimit t (Some p) ∧ le_clock env - start ≤ lookbackLimit t (Some p)) ∧ ParseDuration ParseFloat seconds (qr_Step in_) = Ok userStep ∧ 0 < timeout ≤ MaxQueryTimeout.
Proof.
  unfold range_args. intros H Hl. destruct (resolveRange _ _ _ _ _ _ _ _ _ _ _) as [[a b]|] eqn:Hr; [|done]. cbn [mbind result_bind] in H.
  destruct (ParseDuration _ _ (qr_Step in_)) as [u|]; [|done]. destruct (ParseDuration _ _ (qr_Timeout in_)) as [d|]; [|done]. injection H as <- <- <- <-.
  split; [by eapply resolveRange_Ok|]. split; [done|]. apply effective_timeout_bounds. by vm_compute.
Qed.

(** The step keeps the point budget, but for a step within a day of the largest
duration. *)
Lemma range_step_points start end_ userStep c l n : start < end_ → end_ - start + 2 * Day ≤ max_int64 → userStep + Day ≤ max_int64 →
  let step := (SelectStep (step_request ParseFloat seconds start end_ userStep (point_budget l n) c)).1 in
  0 < step ∧ (if (0 <=? Sub end_ start) && (0 <? step) then Z.quot (Sub end_ start) step + 1 else 0) ≤ point_budget l n.
Proof.
  intros Hlt Hspan Hu. cbv zeta. set (req := step_request _ _ _ _ _ _ _). destruct (SelectStep req) as [step reason] eqn:Hsel. cbn [fst].
  destruct (point_budget_bounds l n) as [Hpb _]. assert (points req = point_budget l n) as Hpts by (unfold points; cbn [req step_request st_MaxPoints]; destruct (Z.leb_spec (point_budget l n) 0); [lia|done]).
  assert (0 < Day) as Hday by (by vm_compute). assert (Sub end_ start = end_ - start) as Hsub by (unfold Sub, min_int64, max_int64 in *; lia).
  assert (span req = end_ - start) as Hsp by (unfold span; cbn [req step_request st_Start st_End]; rewrite Hsub; lia).
  destruct (SelectStep_correct req step reason Hsel) as (Hpos & _ & _ & Hsamples & _); [done| |].
  { rewrite Hsp, Hpts. assert ((end_ - start) / point_budget l n ≤ end_ - start) by (apply Z.div_le_upper_bound; nia). unfold max_int64 in *. unfold Day, Hour, Minute, Second in *. lia. }
  split; [done|]. rewrite Hsp, Hpts in Hsamples. unfold samples in Hsamples. rewrite Hsub, (proj2 (Z.ltb_lt _ _) Hpos), (proj2 (Z.leb_le 0 (end_ - start))) by lia. cbn [andb].
  by rewrite Z.quot_div_nonneg by lia.
Qed.

(** What an answer to a range query is held to. *)
Definition range_within (in_ : QueryRangeIn) (c : Cluster) (s : Scope) (start end_ step timeout : Z) (resp : APIResponse) (out : QueryRangeOut) : Prop :=
  let l := Scope_Limits s in
  start < end_ ∧ end_ - start ≤ lookbackLimit t (Some p) ∧ le_clock env - start ≤ lookbackLimit t (Some p) ∧ (0 < MaxLookback l → le_clock env - start ≤ MaxLookback l) ∧
  0 < step ∧ 0 < timeout ≤ MaxQueryTimeout ∧ fetched text unicode_lower body p env (range_call FormatFloat (ID c) in_ start end_ step timeout) kindQuery = Ok resp ∧
  Z.of_nat (length (qro_Series out)) ≤ series_budget l (qr_MaxSeries in_) ∧ (0 < MaxSeries l → Z.of_nat (length (qro_Series out)) ≤ MaxSeries l) ∧
  qro_Points out ≤ point_budget l (qr_MaxPoints in_) ∧ (0 < MaxPoints l → qro_Points out ≤ MaxPoints l) ∧
  Forall (λ sr, length (rs_Values sr) = Z.to_nat (qro_Points out)) (qro_Series out) ∧
  (is_Some (qro_Raw out) → MaxSeries l ≤ 0 ∧ MaxPoints l ≤ 0).

End scope.

(** * Examples *)

(** A cluster that scrapes every fifteen seconds. *)
Definition scraping : Facts :=
  {| f_Fingerprint := "f"; f_Changed := true; f_Generation := 1; f_Cluster :=
    {| ID := "prod-eu"; DisplayName := ""; Description := ""; Labels := ∅; Cluster_State := StateConnected; LastSeen := 0; ConnectedSince := 0; AgentVersion := ""; ProtocolVersion := "";
       CertNotAfter := 0; Kubernetes := Kubernetes zero_Cluster;
       Prometheus := {| Reachable := true; UnreachableReason := ""; Flavor := ""; prom_Version := ""; Retention := ""; ScrapeInterval := "15s"; LookbackDelta := ""; ExternalLabels := ∅;
                        ActiveSeries := 0; MetricNames := 0; Jobs := []; Namespaces := []; MetricPrefixes := []; RuleGroups := 0; AlertingRules := 0; FiringAlerts := 0; HasAlertmanager := false |} |} |}.
Definition scraped : Registry := run_ops [RO_OnSession (Some 0%nat) (pod_of "prod-eu") false (Some scraping) 0 NoLookup 10] fresh_registry.

(** A key held to one series of a hundred points. *)
Definition capped_agent : Principal :=
  agent_for "k1" ["prod-eu"] {| MaxLookback := 0; MaxPoints := 100; MaxSeries := 1; Timeout := 0; MaxResponseBytes := 0; MaxConcurrentPerCluster := 0; RateRPS := 0%float; RateBurst := 0 |}.
Definition sample_json (job : string) : json := JObj [("metric", JObj [("job", JStr job)]); ("value", JArr [JInt 1; JStr "1"])].
Definition query_body (s : string) : option json :=
  if String.eqb s "vector" then Some (list_json (JObj [("resultType", JStr "vector"); ("result", JArr [sample_json "a"; sample_json "b"])]))
  else if String.eqb s "matrix" then Some (list_json (JObj [("resultType", JStr "matrix"); ("result", JArr [])])) else None.
Definition query_env : ListEnv :=
  {| le_seen := 20; le_registry := scraped; le_clock := toy_now; le_do := λ call, list_answer (if String.eqb (ca_Endpoint call) "query" then "vector" else "matrix"); le_failed := 20; le_later := scraped |}.
Definition no_qsay (_ : QueryText) : string := "".
Definition ask_up (format : string) : QueryIn := {| qi_Cluster := "prod-eu"; qi_Query := "up"; qi_Time := ""; qi_Timeout := ""; qi_Limit := 0; qi_Format := format |}.
Definition ask_range (step : string) : QueryRangeIn :=
  {| qr_Cluster := "prod-eu"; qr_Query := "up"; qr_Start := "now-89d"; qr_End := ""; qr_Step := step; qr_MaxPoints := 0; qr_MaxSeries := 0; qr_Timeout := ""; qr_Format := "" |}.
Definition toy_query (format : string) : option (result ToolError QueryOut) :=
  query toy_text no_say no_qsay (λ s, s) toy_parse digits_float (λ _, 0) (λ _, 0) (λ _, "1") (λ _, "1") (λ _, 0%float) query_body (λ _, 0) (λ _, None) toy_tools capped_agent query_env (ask_up format) toy_now.
Definition toy_query_range (step : string) : option (result ToolError QueryRangeOut) :=
  queryRange toy_text no_say no_qsay (λ s, s) toy_parse digits_float (λ _, 0) (λ _, 0) (λ _, "1") (λ _, 0%float) query_body (λ _, 0) (λ _, None) toy_tools capped_agent query_env (ask_range step).



(** Within a day of the largest duration the step wraps, falls back to the scrape
interval and the cap of a hundred points is passed five thousand times over. *)
Lemma huge_step_breaks_the_cap : ∃ out, toy_query_range "106751d" = Some (Ok out) ∧ qro_Points out = 512641 ∧ ds_AppliedStep (qro_Downsampled out) = "15s".
Proof. eexists. split; [vm_compute; reflexivity|]. split; vm_compute; reflexivity. Qed.
