(* ===== verification/Targets.v ===== *)
(** The tools that report on monitoring itself: [src/internal/mcptools/targets.go],
[alerting.go] and [runtime_info] of [status.go].

What a cluster sends here can hold credentials: Prometheus renders scrape URLs in
full, in fields of their own and inside error messages.  The first group of
theorems is that what the tools answer does not depend on them; the second, that
the summaries count what they say and that a cut keeps what is broken.

[url_Host] is [url.Parse] followed by [Host], [FormatFixed] is
[strconv.FormatFloat(·, 'f', prec, 64)], and the sizes are what [json.Marshal]
makes of a result.  Texts are named by what they say, as in [Listing]. *)

From S2P Require Import Prelude GoFloat Fleet Codec Registry Text PromApi Nearest Step Sanitize PromData Render Proxy ToolError Guard Tools Listing.
From Stdlib Require Import Floats.PrimFloat.
Open Scope string_scope.
Open Scope Z_scope.

Inductive OpsText := OState (s : string) | OHealth (s : string) | ORuleType (s : string) | OSection (s : string) | ONarrow (tool : string) | OCeiling (tool : string) (ceiling : Z).

Definition HealthUp : string := "up".
Definition HealthDown : string := "down".
Definition HealthUnknown : string := "unknown".
Definition HealthAny : string := "any".

Definition TargetStateActive : string := "active".
Definition TargetStateDropped : string := "dropped".
Definition TargetStateAny : string := "any".

Definition AlertFiring : string := "firing".
Definition AlertPending : string := "pending".
Definition AlertInactive : string := "inactive".
Definition AlertAll : string := "all".

Definition RuleTypeAlert : string := "alert".
Definition RuleTypeRecord : string := "record".
Definition RuleTypeAll : string := "all".

(** * What is removed *)

(** The characters no URL in a message contains: [\s] and the three quotes. *)
Definition url_stop (c : ascii) : bool := existsb (Ascii.eqb c) ["009"; "010"; "012"; "013"; " "; "034"; "'"; "`"]%char.
Definition query_mark (c : ascii) : bool := Ascii.eqb c "?" || Ascii.eqb c "#".

(** Whether the run of characters ahead holds a mark. *)
Fixpoint mark_ahead (s : string) : bool :=
  match s with
  | EmptyString => false
  | String c s => if query_mark c then true else if url_stop c then false else mark_ahead s
  end.

(** [urlWithQueryRE] matches at the head of [s]: a scheme, the shortest run up to
a mark, the mark, and the longest run after it. *)
Definition url_starts (s : string) : bool := HasPrefix s "http://" || HasPrefix s "https://".
Definition urlWithQueryRE (s : string) : bool := url_starts s && mark_ahead s.

(** Where a replacement is: outside a match, in what is kept of one, in what is
dropped of one.  A match ends at a stop or at the end, and the next is looked for
from there. *)
Inductive RedactMode := Outside | Kept | Dropped.

Fixpoint redact (m : RedactMode) (s : string) : string :=
  match s with
  | EmptyString => EmptyString
  | String c s' =>
    match m with
    | Outside => String c (redact (if urlWithQueryRE s then Kept else Outside) s')
    | Kept => if query_mark c then "?[redacted]" +:+ redact Dropped s' else String c (redact Kept s')
    | Dropped => if url_stop c then String c (redact Outside s') else redact Dropped s'
    end
  end.

(** [ReplaceAllString(s, "$1?[redacted]")]. *)
Definition RedactURLQueries (s : string) : string := redact Outside s.

(** What comes before the first mark. *)
Fixpoint before_mark (s : string) : option string :=
  match s with
  | EmptyString => None
  | String c s => if query_mark c then Some EmptyString else String c <$> before_mark s
  end.

Definition redactPool (pool : string) : string :=
  ClipRunes (match before_mark pool with Some p => p +:+ "?[redacted]" | None => pool end) 200.

(** * Arguments and results *)

Record TargetsIn := { tgi_Cluster : string; tgi_State : string; tgi_Health : string; tgi_Job : string; tgi_Limit : Z; tgi_Format : string }.
Record JobHealth := { jh_Up : Z; jh_Down : Z; jh_Unknown : Z }.
Record TargetSummary := { ts_Up : Z; ts_Down : Z; ts_Unknown : Z; ts_ByJob : gmap string JobHealth }.
Record TargetInfo := {
  ti_Job : string;
  ti_Instance : string;
  ti_Health : string;
  ti_Pool : string;
  ti_EndpointHost : string;
  ti_LastScrape : string;
  ti_ScrapeDurationMs : float;
  ti_ScrapeInterval : string;
  ti_LastError : string;
  ti_Labels : gmap string string
}.
Record TargetsOut := { tgo_Summary : TargetSummary; tgo_Targets : list TargetInfo; tgo_Total : Z; tgo_Truncated : option Truncation; tgo_Redacted : list string; tgo_Table : string }.

Definition redactedTargetFields : list string := ["scrapeUrl"; "globalUrl"; "discoveredLabels"; "scrapePool query string"].

Record AlertsIn := {
  ali_Cluster : string;
  ali_State : string;
  ali_Alertname : string;
  ali_Severity : string;
  ali_LabelSelector : gmap string string;
  ali_IncludeAnnotations : bool;
  ali_Limit : Z;
  ali_Format : string
}.
Record AlertSummary := { as_Firing : Z; as_Pending : Z; as_BySeverity : gmap string Z }.
Record AlertInfo := {
  al_Alertname : string;
  al_State : string;
  al_Severity : string;
  al_ActiveSince : string;
  al_Value : string;
  al_Labels : gmap string string;
  al_Annotations : gmap string string;
  al_Runbook : option URLRef
}.
Record AlertsOut := { alo_Summary : AlertSummary; alo_Alerts : list AlertInfo; alo_Total : Z; alo_Truncated : option Truncation; alo_Table : string }.

Record RulesIn := { rli_Cluster : string; rli_Type : string; rli_Group : string; rli_RuleName : string; rli_IncludeExpr : bool; rli_Limit : Z; rli_Format : string }.
Record RuleInfo := {
  ri_Group : string;
  ri_File : string;
  ri_Name : string;
  ri_Type : string;
  ri_State : string;
  ri_Health : string;
  ri_EvalMillis : float;
  ri_LastError : string;
  ri_Expr : string;
  ri_Labels : gmap string string
}.
Record RuleGroupInfo := { rg_Name : string; rg_File : string; rg_IntervalSeconds : float; rg_EvalMillis : float; rg_Rules : Z }.
Record RulesOut := { rlo_Groups : list RuleGroupInfo; rlo_Rules : list RuleInfo; rlo_Total : Z; rlo_Truncated : option Truncation; rlo_Table : string }.

Record AlertmanagerInfo := { am_Host : string; am_Dropped : bool }.
Record AlertmanagersOut := { amo_Alertmanagers : list AlertmanagerInfo; amo_ActiveCount : Z; amo_DroppedCount : Z; amo_Redacted : list string }.
Definition redactedAlertmanagerFields : list string := ["url"].

(** * What a cluster sends *)

Record upstreamActive := {
  ua_Labels : gmap string string;
  ua_ScrapePool : string;
  ua_ScrapeURL : string;
  ua_GlobalURL : string;
  ua_LastError : string;
  ua_LastScrape : string;
  ua_LastScrapeDuration : float;
  ua_Health : string;
  ua_ScrapeInterval : string
}.
Record upstreamDropped := { ud_DiscoveredLabels : gmap string string; ud_ScrapePool : string }.
Record upstreamTargets := { ActiveTargets : list upstreamActive; DroppedTargets : list upstreamDropped }.

Definition active_value (j : json) : option upstreamActive :=
  o ← object j;
  labels ← get "labels" ∅ map_value o; pool ← get "scrapePool" "" str_value o; url ← get "scrapeUrl" "" str_value o; global ← get "globalUrl" "" str_value o;
  err ← get "lastError" "" str_value o; last ← get "lastScrape" "" str_value o; dur ← get "lastScrapeDuration" 0%float float_value o;
  health ← get "health" "" str_value o; interval ← get "scrapeInterval" "" str_value o;
  Some {| ua_Labels := labels; ua_ScrapePool := pool; ua_ScrapeURL := url; ua_GlobalURL := global; ua_LastError := err; ua_LastScrape := last;
          ua_LastScrapeDuration := dur; ua_Health := health; ua_ScrapeInterval := interval |}.
Definition dropped_value (j : json) : option upstreamDropped :=
  o ← object j; labels ← get "discoveredLabels" ∅ map_value o; pool ← get "scrapePool" "" str_value o; Some {| ud_DiscoveredLabels := labels; ud_ScrapePool := pool |}.
Definition upstream_targets (j : json) : option upstreamTargets :=
  o ← object j; active ← get "activeTargets" [] (list_value active_value) o; dropped ← get "droppedTargets" [] (list_value dropped_value) o;
  Some {| ActiveTargets := active; DroppedTargets := dropped |}.
Definition no_targets : upstreamTargets := {| ActiveTargets := []; DroppedTargets := [] |}.

Record upstreamAlert := { up_Labels : gmap string string; up_Annotations : gmap string string; up_State : string; up_ActiveAt : string; up_Value : string }.
Definition alert_value (j : json) : option upstreamAlert :=
  o ← object j;
  labels ← get "labels" ∅ map_value o; ann ← get "annotations" ∅ map_value o; state ← get "state" "" str_value o; at_ ← get "activeAt" "" str_value o; value ← get "value" "" str_value o;
  Some {| up_Labels := labels; up_Annotations := ann; up_State := state; up_ActiveAt := at_; up_Value := value |}.
Definition upstreamAlerts (j : json) : option (list upstreamAlert) := o ← object j; get "alerts" [] (list_value alert_value) o.

Record upstreamRule := {
  ur_Name : string;
  ur_Query : string;
  ur_Type : string;
  ur_State : string;
  ur_Health : string;
  ur_LastError : string;
  ur_EvaluationTime : float;
  ur_Labels : gmap string string
}.
Record upstreamGroup := { ug_Name : string; ug_File : string; ug_Interval : float; ug_EvaluationTime : float; ug_Rules : list upstreamRule }.
Definition rule_value (j : json) : option upstreamRule :=
  o ← object j;
  name ← get "name" "" str_value o; query ← get "query" "" str_value o; ty ← get "type" "" str_value o; state ← get "state" "" str_value o; health ← get "health" "" str_value o;
  err ← get "lastError" "" str_value o; eval ← get "evaluationTime" 0%float float_value o; labels ← get "labels" ∅ map_value o;
  Some {| ur_Name := name; ur_Query := query; ur_Type := ty; ur_State := state; ur_Health := health; ur_LastError := err; ur_EvaluationTime := eval; ur_Labels := labels |}.
Definition group_value (j : json) : option upstreamGroup :=
  o ← object j;
  name ← get "name" "" str_value o; file ← get "file" "" str_value o; interval ← get "interval" 0%float float_value o; eval ← get "evaluationTime" 0%float float_value o;
  rules ← get "rules" [] (list_value rule_value) o;
  Some {| ug_Name := name; ug_File := file; ug_Interval := interval; ug_EvaluationTime := eval; ug_Rules := rules |}.
Definition upstreamRules (j : json) : option (list upstreamGroup) := o ← object j; get "groups" [] (list_value group_value) o.

(** The URLs of the two lists of [upstreamAlertmanagers]. *)
Definition peer_value (j : json) : option string := o ← object j; get "url" "" str_value o.
Definition upstreamAlertmanagers (j : json) : option (list string * list string) :=
  o ← object j; active ← get "activeAlertmanagers" [] (list_value peer_value) o; dropped ← get "droppedAlertmanagers" [] (list_value peer_value) o; Some (active, dropped).

(** ** Sections of [runtime_info] *)

Definition SectionBuild : string := "build".
Definition SectionRuntime : string := "runtime".
Definition SectionFlags : string := "flags".
Definition allSections : list string := [SectionBuild; SectionRuntime; SectionFlags].
Definition defaultSections : list string := [SectionBuild; SectionRuntime].

Record RuntimeInfoIn := { rii_Cluster : string; rii_Include : list string }.
Record BuildInfo := { bi_Version : string; bi_Revision : string; bi_Branch : string; bi_GoVersion : string }.
Record RuntimeState := {
  rs_StartTime : string;
  rs_ReloadSuccess : bool;
  rs_LastConfigTime : string;
  rs_StorageRetention : string;
  rs_Goroutines : Z;
  rs_GOMAXPROCS : Z;
  rs_GOMEMLIMIT : Z;
  rs_CorruptionCount : Z
}.
Record RuntimeInfoOut := { rio_Build : option BuildInfo; rio_Runtime : option RuntimeState; rio_Flags : gmap string string; rio_Partial : list string }.
Definition zero_RuntimeInfoOut : RuntimeInfoOut := {| rio_Build := None; rio_Runtime := None; rio_Flags := ∅; rio_Partial := [] |}.

(** The structs the sections are decoded into, clipped as they are reported. *)
Definition build_value (j : json) : option BuildInfo :=
  o ← object j;
  version ← get "version" "" str_value o; revision ← get "revision" "" str_value o; branch ← get "branch" "" str_value o; go ← get "goVersion" "" str_value o;
  Some {| bi_Version := version; bi_Revision := revision; bi_Branch := branch; bi_GoVersion := go |}.
Definition clip_build (b : BuildInfo) : BuildInfo :=
  {| bi_Version := ClipRunes (bi_Version b) 64; bi_Revision := ClipRunes (bi_Revision b) 64; bi_Branch := ClipRunes (bi_Branch b) 64; bi_GoVersion := ClipRunes (bi_GoVersion b) 32 |}.
Definition zero_BuildInfo : BuildInfo := {| bi_Version := ""; bi_Revision := ""; bi_Branch := ""; bi_GoVersion := "" |}.

Definition runtime_value (j : json) : option RuntimeState :=
  o ← object j;
  start ← get "startTime" "" str_value o; reload ← get "reloadConfigSuccess" false as_bool o; config ← get "lastConfigTime" "" str_value o; corruption ← get "corruptionCount" 0 as_int o;
  goroutines ← get "goroutineCount" 0 as_int o; procs ← get "GOMAXPROCS" 0 as_int o; limit ← get "GOMEMLIMIT" 0 as_int o; retention ← get "storageRetention" "" str_value o;
  Some {| rs_StartTime := start; rs_ReloadSuccess := reload; rs_LastConfigTime := config; rs_StorageRetention := retention; rs_Goroutines := goroutines; rs_GOMAXPROCS := procs;
          rs_GOMEMLIMIT := limit; rs_CorruptionCount := corruption |}.
Definition clip_runtime (r : RuntimeState) : RuntimeState :=
  {| rs_StartTime := ClipRunes (rs_StartTime r) 40; rs_ReloadSuccess := rs_ReloadSuccess r; rs_LastConfigTime := ClipRunes (rs_LastConfigTime r) 40;
     rs_StorageRetention := ClipRunes (rs_StorageRetention r) 32; rs_Goroutines := rs_Goroutines r; rs_GOMAXPROCS := rs_GOMAXPROCS r; rs_GOMEMLIMIT := rs_GOMEMLIMIT r;
     rs_CorruptionCount := rs_CorruptionCount r |}.
Definition zero_RuntimeState : RuntimeState :=
  {| rs_StartTime := ""; rs_ReloadSuccess := false; rs_LastConfigTime := ""; rs_StorageRetention := ""; rs_Goroutines := 0; rs_GOMAXPROCS := 0; rs_GOMEMLIMIT := 0; rs_CorruptionCount := 0 |}.

(** The flags, with the entries visited in the given order: clipped names may
collide. *)
Definition clip_flags (entries : list (string * string)) : gmap string string :=
  foldl (λ clean e, <[ClipRunes e.1 128 := ClipRunes e.2 256]> clean) ∅ entries.

Definition firstErr (first : option ToolError) (next : ToolError) : option ToolError := match first with Some e => Some e | None => Some next end.

(** A section that was asked for: what it adds, or its name among those that
failed, and the first failure. *)
Definition section {A} (wanted : bool) (name : string) (r : result ToolError A) (add : A → RuntimeInfoOut → RuntimeInfoOut) (st : RuntimeInfoOut * option ToolError) : RuntimeInfoOut * option ToolError :=
  if wanted then
    match r with
    | Err e => ({| rio_Build := rio_Build st.1; rio_Runtime := rio_Runtime st.1; rio_Flags := rio_Flags st.1; rio_Partial := (rio_Partial st.1 ++ [name])%list |}, firstErr st.2 e)
    | Ok a => (add a st.1, st.2)
    end
  else st.

(** * Ranked lists *)

(** [strings.Compare] on one key after the other. *)
Fixpoint keys_le (a b : list string) : Prop :=
  match a, b with
  | [], _ => True
  | _ :: _, [] => False
  | x :: a, y :: b => x ≠ y ∧ String.le x y ∨ x = y ∧ keys_le a b
  end.
#[export] Instance keys_le_dec a b : Decision (keys_le a b).
Proof. revert b. induction a as [|x a IH]; intros [|y b]; cbn; [solve_decision..|]. specialize (IH b). solve_decision. Defined.

(** The comparisons of the sorts: by rank, then by the keys. *)
Definition ranked_le {T} (rank : T → Z) (keys : T → list string) (a b : T) : Prop := rank a < rank b ∨ rank a = rank b ∧ keys_le (keys a) (keys b).
#[export] Instance ranked_le_dec {T} rank (keys : T → list string) a b : Decision (ranked_le rank keys a b).
Proof. unfold ranked_le. apply _. Defined.

Definition healthRank (h : string) : Z := if String.eqb h HealthDown then 0 else if String.eqb h HealthUnknown then 1 else 2.
Definition target_info_le : TargetInfo → TargetInfo → Prop := ranked_le (λ t, healthRank (ti_Health t)) (λ t, [ti_Job t; ti_Instance t]).

Definition alertRank (a : AlertInfo) : Z :=
  let base := if String.eqb (al_State a) AlertFiring then 0 else 10 in
  if String.eqb (al_Severity a) "critical" then base else if String.eqb (al_Severity a) "warning" then base + 1 else base + 2.
Definition alert_le : AlertInfo → AlertInfo → Prop := ranked_le alertRank (λ a, [al_Alertname a]).

Definition ruleRank (r : RuleInfo) : Z :=
  if negb (String.eqb (ri_Health r) "") && negb (String.eqb (ri_Health r) "ok") then 0
  else if String.eqb (ri_State r) AlertFiring then 1
  else if String.eqb (ri_State r) AlertPending then 2
  else 3.
Definition rule_le : RuleInfo → RuleInfo → Prop := ranked_le ruleRank (λ r, [ri_Group r; ri_Name r]).

(** What follows a sort: the cut at the limit, then the cut at the token ceiling,
and how what is left was selected. *)
Definition selected {T} (marshal : list T → option Z) (ceiling : Z) (items : list T) (limit : Z) (hint chint selection : string) : list T * option Truncation :=
  let '(kept, trunc) := TruncateItems items limit hint in
  let trunc := with_selection selection <$> trunc in
  let '(fitted, trunc) := escalated marshal ceiling kept trunc (length items) chint in
  (fitted, with_selection selection <$> trunc).

(** * Counting *)

Definition zero_JobHealth : JobHealth := {| jh_Up := 0; jh_Down := 0; jh_Unknown := 0 |}.
Definition zero_TargetSummary : TargetSummary := {| ts_Up := 0; ts_Down := 0; ts_Unknown := 0; ts_ByJob := ∅ |}.

Definition countTarget (s : TargetSummary) (ti : TargetInfo) : TargetSummary :=
  let jh := default zero_JobHealth (ts_ByJob s !! ti_Job ti) in
  if String.eqb (ti_Health ti) HealthUp then
    {| ts_Up := ts_Up s + 1; ts_Down := ts_Down s; ts_Unknown := ts_Unknown s; ts_ByJob := <[ti_Job ti := {| jh_Up := jh_Up jh + 1; jh_Down := jh_Down jh; jh_Unknown := jh_Unknown jh |}]> (ts_ByJob s) |}
  else if String.eqb (ti_Health ti) HealthDown then
    {| ts_Up := ts_Up s; ts_Down := ts_Down s + 1; ts_Unknown := ts_Unknown s; ts_ByJob := <[ti_Job ti := {| jh_Up := jh_Up jh; jh_Down := jh_Down jh + 1; jh_Unknown := jh_Unknown jh |}]> (ts_ByJob s) |}
  else
    {| ts_Up := ts_Up s; ts_Down := ts_Down s; ts_Unknown := ts_Unknown s + 1; ts_ByJob := <[ti_Job ti := {| jh_Up := jh_Up jh; jh_Down := jh_Down jh; jh_Unknown := jh_Unknown jh + 1 |}]> (ts_ByJob s) |}.

(** The body of the two loops of [targets]. *)
Definition target_step (job health : string) (st : TargetSummary * list TargetInfo) (ti : TargetInfo) : TargetSummary * list TargetInfo :=
  let '(summary, matched) := st in
  if negb (String.eqb job "") && negb (String.eqb (ti_Job ti) job) then st
  else
    let summary := countTarget summary ti in
    if negb (String.eqb health HealthAny) && negb (String.eqb (ti_Health ti) health) then (summary, matched) else (summary, (matched ++ [ti])%list).

Definition zero_AlertSummary : AlertSummary := {| as_Firing := 0; as_Pending := 0; as_BySeverity := ∅ |}.

Definition countAlert (s : AlertSummary) (ai : AlertInfo) : AlertSummary :=
  let sev := if String.eqb (al_Severity ai) "" then "unset" else al_Severity ai in
  {| as_Firing := if String.eqb (al_State ai) AlertFiring then as_Firing s + 1 else as_Firing s;
     as_Pending := if negb (String.eqb (al_State ai) AlertFiring) && String.eqb (al_State ai) AlertPending then as_Pending s + 1 else as_Pending s;
     as_BySeverity := <[sev := default 0 (as_BySeverity s !! sev) + 1]> (as_BySeverity s) |}.

(** * Handlers *)

Section ops.
Context (text : Text → string) (say : ListText → string) (osay : OpsText → string) (unicode_lower : string → string).
Context (ParseFloat : string → option float) (FormatFixed : Z → float → string).
Context {Bytes : Type} `{!JsonText Bytes} (body : string → Bytes).
Context (url_Host url_Hostname : string → option string).
Context (size_targets : list TargetInfo → option Z) (size_alerts : list AlertInfo → option Z) (size_rules : list RuleInfo → option Z).

Local Abbreviation lower := (ToLower unicode_lower).

Definition round2 (v : float) : float := default 0%float (ParseFloat (FormatFixed 2 v)).

Definition hostOnly (raw : string) : string :=
  if String.eqb raw "" then ""
  else match url_Host raw with
  | None => ""
  | Some host => if String.eqb host "" then "" else ClipRunes host 253
  end.

Definition normalizeHealth (h : string) : string :=
  let h := lower (TrimSpace h) in
  if String.eqb h HealthUp then HealthUp else if String.eqb h HealthDown then HealthDown else HealthUnknown.

Definition redactTarget (labels : gmap string string) (pool scrapeURL health lastScrape lastError interval : string) (durSecs : float) : TargetInfo :=
  let clean := render_Labels labels in
  {| ti_Job := map_get clean "job"; ti_Instance := map_get clean "instance"; ti_Health := normalizeHealth health; ti_Pool := redactPool pool; ti_EndpointHost := hostOnly scrapeURL;
     ti_LastScrape := ClipRunes lastScrape 40; ti_ScrapeDurationMs := round2 (durSecs * 1000)%float; ti_ScrapeInterval := ClipRunes interval 32;
     ti_LastError := ScrapeError (RedactURLQueries lastError);
     ti_Labels := filter (λ e, HasPrefix e.1 "__" = false) (delete "instance" (delete "job" clean)) |}.

(** The targets of the two loops. *)
Definition active_target (at_ : upstreamActive) : TargetInfo :=
  redactTarget (ua_Labels at_) (ua_ScrapePool at_) (ua_ScrapeURL at_) (ua_Health at_) (ua_LastScrape at_) (ua_LastError at_) (ua_ScrapeInterval at_) (ua_LastScrapeDuration at_).
Definition dropped_target (dt : upstreamDropped) : TargetInfo :=
  let ti := redactTarget (ud_DiscoveredLabels dt) (ud_ScrapePool dt) "" HealthUnknown "" "" "" 0%float in
  {| ti_Job := ti_Job ti; ti_Instance := ti_Instance ti; ti_Health := HealthUnknown; ti_Pool := ti_Pool ti; ti_EndpointHost := ti_EndpointHost ti; ti_LastScrape := ti_LastScrape ti;
     ti_ScrapeDurationMs := ti_ScrapeDurationMs ti; ti_ScrapeInterval := ti_ScrapeInterval ti; ti_LastError := ti_LastError ti; ti_Labels := ti_Labels ti |}.

Definition target_row (t : TargetInfo) : list string := [ti_Job t; ti_Instance t; ti_Health t; FormatFixed 1 (ti_ScrapeDurationMs t); ti_LastError t].
Definition targetTable (ts : list TargetInfo) : option string := Table ["JOB"; "INSTANCE"; "HEALTH"; "MS"; "LAST_ERROR"] (target_row <$> ts).

Definition normalizeAlertState (s : string) : string :=
  let s := lower (TrimSpace s) in
  if String.eqb s AlertFiring then AlertFiring else if String.eqb s AlertPending then AlertPending else AlertInactive.

Definition convertAlert (a : upstreamAlert) (withAnnotations : bool) : AlertInfo :=
  let labels := render_Labels (up_Labels a) in
  let ann := filter (λ e, ValidLabelName e.1 = true ∧ e.1 ≠ "runbook_url") (up_Annotations a) in
  {| al_Alertname := map_get labels "alertname"; al_State := normalizeAlertState (up_State a); al_Severity := map_get labels "severity";
     al_ActiveSince := ClipRunes (up_ActiveAt a) 40; al_Value := ClipRunes (up_Value a) 64; al_Labels := delete "severity" (delete "alertname" labels);
     al_Annotations := if withAnnotations then filter (λ e, e.2 ≠ "") (Annotation <$> ann) else ∅;
     al_Runbook := if withAnnotations then up_Annotations a !! "runbook_url" ≫= NewURLRef url_Hostname else None |}.

(** The filters of the loop over the alerts. *)
Definition alert_matches (in_ : AlertsIn) (state : string) (a : upstreamAlert) (ai : AlertInfo) : bool :=
  (String.eqb (ali_Alertname in_) "" || String.eqb (al_Alertname ai) (ali_Alertname in_)) && (String.eqb (ali_Severity in_) "" || String.eqb (al_Severity ai) (ali_Severity in_)) &&
  matchesSelector (up_Labels a) (ali_LabelSelector in_) && (String.eqb state AlertAll || String.eqb (al_State ai) state).

Definition alert_step (in_ : AlertsIn) (state : string) (st : AlertSummary * list AlertInfo) (a : upstreamAlert) : AlertSummary * list AlertInfo :=
  let ai := convertAlert a (ali_IncludeAnnotations in_) in
  if alert_matches in_ state a ai then (countAlert st.1 ai, (st.2 ++ [ai])%list) else st.

Definition alert_row (a : AlertInfo) : list string := [al_Alertname a; al_State a; al_Severity a; al_ActiveSince a; labelsText (al_Labels a); map_get (al_Annotations a) "summary"].
Definition alertTable (l : list AlertInfo) : option string := Table ["ALERT"; "STATE"; "SEVERITY"; "SINCE"; "LABELS"; "SUMMARY"] (alert_row <$> l).

(** One rule of a group that is reported under [name]. *)
Definition rule_info (includeExpr : bool) (name file : string) (r : upstreamRule) : RuleInfo :=
  {| ri_Group := name; ri_File := ClipRunes file 256; ri_Name := ClipRunes (ur_Name r) 200; ri_Type := ClipRunes (ur_Type r) 32; ri_State := ClipRunes (ur_State r) 32;
     ri_Health := ClipRunes (ur_Health r) 32; ri_EvalMillis := round2 (ur_EvaluationTime r * 1000)%float; ri_LastError := ScrapeError (RedactURLQueries (ur_LastError r));
     ri_Expr := if includeExpr then ClipRunes (ur_Query r) 1000 else ""; ri_Labels := render_Labels (ur_Labels r) |}.
Definition group_info (g : upstreamGroup) : RuleGroupInfo :=
  {| rg_Name := ClipRunes (ug_Name g) 200; rg_File := ClipRunes (ug_File g) 256; rg_IntervalSeconds := ug_Interval g; rg_EvalMillis := round2 (ug_EvaluationTime g * 1000)%float;
     rg_Rules := Z.of_nat (length (ug_Rules g)) |}.

(** The loop over the groups: their summaries and the rules that match. *)
Fixpoint rule_loop (in_ : RulesIn) (gs : list upstreamGroup) : list RuleGroupInfo * list RuleInfo :=
  match gs with
  | [] => ([], [])
  | g :: gs =>
    let '(groups, matched) := rule_loop in_ gs in
    if negb (String.eqb (rli_Group in_) "") && negb (String.eqb (rg_Name (group_info g)) (rli_Group in_)) then (groups, matched)
    else
      let infos := rule_info (rli_IncludeExpr in_) (rg_Name (group_info g)) (ug_File g) <$> ug_Rules g in
      (group_info g :: groups, (filter (λ ri, String.eqb (rli_RuleName in_) "" || String.eqb (ri_Name ri) (rli_RuleName in_) = true) infos ++ matched)%list)
  end.

Definition rule_row (r : RuleInfo) : list string := [ri_Group r; ri_Name r; ri_Type r; ri_State r; ri_Health r; FormatFixed 1 (ri_EvalMillis r); ri_LastError r].
Definition ruleTable (l : list RuleInfo) : option string := Table ["GROUP"; "RULE"; "TYPE"; "STATE"; "HEALTH"; "MS"; "LAST_ERROR"] (rule_row <$> l).

Definition bad_choice (cluster name value : string) (t : OpsText) : ToolError :=
  WithInput (<[name := JStr (ClipRunes value 32)]> {[ "cluster" := JStr cluster ]}) (newError CodeInvalidArgument (osay t) false).

Section handler.
Context (t : Tools) (p : Principal) (env : ListEnv).
Local Abbreviation find_cluster := (resolved text unicode_lower p env).
Local Abbreviation get_from := (fetched text unicode_lower body p env).

Definition scrape_call (cluster state : string) : Call := call_of cluster "targets" "" {[ "state" := [state] ]}.

(** [targets] before the payload is looked at: the format, the health asked for
and the payload. *)
Definition targets_payload (in_ : TargetsIn) : result ToolError (string * string * upstreamTargets) :=
  c ← find_cluster (tgi_Cluster in_);
  format ← parseFormat say (tgi_Format in_) false;
  let state := if String.eqb (tgi_State in_) "" then TargetStateActive else tgi_State in_ in
  if negb (includes [TargetStateActive; TargetStateDropped; TargetStateAny] state) then Err (bad_choice (ID c) "state" state (OState (ClipRunes state 32)))
  else
    let health := if String.eqb (tgi_Health in_) "" then HealthAny else tgi_Health in_ in
    if negb (includes [HealthAny; HealthUp; HealthDown; HealthUnknown] health) then Err (bad_choice (ID c) "health" health (OHealth (ClipRunes health 32)))
    else
      env' ← get_from (scrape_call (ID c) state) kindPlain;
      raw ← decodeData say env' (ID c) upstream_targets no_targets;
      Ok (format, health, raw).

Definition targets_loop (job health : string) (raw : upstreamTargets) : TargetSummary * list TargetInfo :=
  foldl (target_step job health) (foldl (target_step job health) (zero_TargetSummary, []) (active_target <$> ActiveTargets raw)) (dropped_target <$> DroppedTargets raw).

(** [None] in place of a result is a panic of [Table]. *)
Definition targets (in_ : TargetsIn) : option (result ToolError TargetsOut) :=
  match targets_payload in_ with
  | Err e => Some (Err e)
  | Ok (format, health, raw) =>
    let '(summary, matched) := targets_loop (tgi_Job in_) health raw in
    let matched := merge_sort target_info_le matched in
    let '(fitted, trunc) := selected size_targets (tl_tokenCeiling t) matched (clampInt (tgi_Limit in_) 50 1 500) (osay (ONarrow "targets")) (osay (OCeiling "targets" (tl_tokenCeiling t))) "down_first_then_job_instance" in
    let out shown table := {| tgo_Summary := summary; tgo_Targets := shown; tgo_Total := Z.of_nat (length matched); tgo_Truncated := trunc; tgo_Redacted := redactedTargetFields; tgo_Table := table |} in
    if String.eqb format FormatTable then table ← targetTable fitted; Some (Ok (out [] table)) else Some (Ok (out fitted ""))
  end.

Definition alerts_payload (in_ : AlertsIn) : result ToolError (string * string * list upstreamAlert) :=
  c ← find_cluster (ali_Cluster in_);
  format ← parseFormat say (ali_Format in_) false;
  let state := if String.eqb (ali_State in_) "" then AlertFiring else ali_State in_ in
  if negb (includes [AlertAll; AlertFiring; AlertPending] state) then Err (bad_choice (ID c) "state" state (OState (ClipRunes state 32)))
  else
    env' ← get_from (call_of (ID c) "alerts" "" ∅) kindPlain;
    raw ← decodeData say env' (ID c) upstreamAlerts [];
    Ok (format, state, raw).

Definition alerts (in_ : AlertsIn) : option (result ToolError AlertsOut) :=
  match alerts_payload in_ with
  | Err e => Some (Err e)
  | Ok (format, state, raw) =>
    let '(summary, matched) := foldl (alert_step in_ state) (zero_AlertSummary, []) raw in
    let matched := merge_sort alert_le matched in
    let '(fitted, trunc) := selected size_alerts (tl_tokenCeiling t) matched (clampInt (ali_Limit in_) 50 1 300) (osay (ONarrow "alerts")) (osay (OCeiling "alerts" (tl_tokenCeiling t))) "firing_first_then_severity" in
    let out shown table := {| alo_Summary := summary; alo_Alerts := shown; alo_Total := Z.of_nat (length matched); alo_Truncated := trunc; alo_Table := table |} in
    if String.eqb format FormatTable then table ← alertTable fitted; Some (Ok (out [] table)) else Some (Ok (out fitted ""))
  end.

Definition rules_call (cluster kind : string) : Call :=
  call_of cluster "rules" "" (<["exclude_alerts" := ["true"]]> (if String.eqb kind RuleTypeAll then ∅ else {[ "type" := [kind] ]})).

Definition rules_payload (in_ : RulesIn) : result ToolError (string * list upstreamGroup) :=
  c ← find_cluster (rli_Cluster in_);
  format ← parseFormat say (rli_Format in_) false;
  let kind := if String.eqb (rli_Type in_) "" then RuleTypeAll else rli_Type in_ in
  if negb (includes [RuleTypeAll; RuleTypeAlert; RuleTypeRecord] kind) then Err (bad_choice (ID c) "type" kind (ORuleType (ClipRunes kind 32)))
  else
    env' ← get_from (rules_call (ID c) kind) kindPlain;
    raw ← decodeData say env' (ID c) upstreamRules [];
    Ok (format, raw).

Definition rules (in_ : RulesIn) : option (result ToolError RulesOut) :=
  match rules_payload in_ with
  | Err e => Some (Err e)
  | Ok (format, raw) =>
    let '(groups, matched) := rule_loop in_ raw in
    let matched := merge_sort rule_le matched in
    let '(fitted, trunc) := selected size_rules (tl_tokenCeiling t) matched (clampInt (rli_Limit in_) 50 1 500) (osay (ONarrow "rules")) (osay (OCeiling "rules" (tl_tokenCeiling t))) "unhealthy_first_then_group_name" in
    let out shown table := {| rlo_Groups := groups; rlo_Rules := shown; rlo_Total := Z.of_nat (length matched); rlo_Truncated := trunc; rlo_Table := table |} in
    if String.eqb format FormatTable then table ← ruleTable fitted; Some (Ok (out [] table)) else Some (Ok (out fitted ""))
  end.

(** [status]: one status endpoint, decoded. *)
Definition status {A} (cluster endpoint : string) (dec : json → option A) (zero : A) : result ToolError A :=
  env' ← get_from (call_of cluster endpoint "" ∅) kindPlain; decodeData say env' cluster dec zero.

Definition alertmanagers (cluster : string) : result ToolError AlertmanagersOut :=
  c ← find_cluster cluster;
  '(active, dropped) ← status (ID c) "alertmanagers" upstreamAlertmanagers ([], []);
  Ok {| amo_Alertmanagers := (((λ u, {| am_Host := hostOnly u; am_Dropped := false |}) <$> active) ++ ((λ u, {| am_Host := hostOnly u; am_Dropped := true |}) <$> dropped))%list;
        amo_ActiveCount := Z.of_nat (length active); amo_DroppedCount := Z.of_nat (length dropped); amo_Redacted := redactedAlertmanagerFields |}.

(** [order] is the order in which the map of flags is visited. *)
Definition runtimeInfo (order : gmap string string → list (string * string)) (in_ : RuntimeInfoIn) : result ToolError RuntimeInfoOut :=
  c ← find_cluster (rii_Cluster in_);
  let include := dedupe (rii_Include in_) in
  let include := if (length include =? 0)%nat then defaultSections else include in
  match List.find (λ s, negb (includes allSections s)) include with
  | Some s => Err (WithInput (<["include" := JArr (JStr <$> rii_Include in_)]> {[ "cluster" := JStr (ID c) ]}) (newError CodeInvalidArgument (osay (OSection (ClipRunes s 32))) false))
  | None =>
    let st := section (includes include SectionBuild) SectionBuild (status (ID c) "build_info" build_value zero_BuildInfo)
                (λ b out, {| rio_Build := Some (clip_build b); rio_Runtime := rio_Runtime out; rio_Flags := rio_Flags out; rio_Partial := rio_Partial out |}) (zero_RuntimeInfoOut, None) in
    let st := section (includes include SectionRuntime) SectionRuntime (status (ID c) "runtime_info" runtime_value zero_RuntimeState)
                (λ r out, {| rio_Build := rio_Build out; rio_Runtime := Some (clip_runtime r); rio_Flags := rio_Flags out; rio_Partial := rio_Partial out |}) st in
    let '(out, first) := section (includes include SectionFlags) SectionFlags (status (ID c) "flags" map_value ∅)
                (λ f out, {| rio_Build := rio_Build out; rio_Runtime := rio_Runtime out; rio_Flags := clip_flags (order f); rio_Partial := rio_Partial out |}) st in
    match first with
    | Some e => if (length (rio_Partial out) =? length include)%nat then Err e else Ok out
    | None => Ok out
    end
  end.
End handler.
End ops.

(** * Messages without their queries *)

(** Where a match may end. *)
Definition at_stop (s : string) : Prop := match s with EmptyString => True | String c _ => url_stop c = true end.
Definition in_url (c : ascii) : bool := negb (url_stop c) && negb (query_mark c).
Definition url_scheme (s : string) : Prop := s = "http://" ∨ s = "https://".

Lemma mark_no_stop c : query_mark c = true → url_stop c = false.
Proof. unfold query_mark. intros [->%Ascii.eqb_eq| ->%Ascii.eqb_eq]%orb_true_iff; reflexivity. Qed.

Lemma redact_Dropped d rest : str_exists url_stop d = false → redact Dropped (d +:+ rest) = redact Dropped rest.
Proof. induction d as [|c d IH]; [done|]. cbn. intros [-> Hd]%orb_false_iff. by apply IH. Qed.

Lemma redact_Kept u rest : str_forall in_url u = true → redact Kept (u +:+ rest) = u +:+ redact Kept rest.
Proof.
  induction u as [|c u IH]; [done|]. rewrite str_forall_cons, andb_true_iff. intros [[_ Hc]%andb_true_iff Hu]. cbn [String.append redact]. apply negb_true_iff in Hc. rewrite Hc. f_equal. by apply IH.
Qed.

Lemma at_stop_outside s : at_stop s → redact Dropped s = redact Outside s.
Proof.
  destruct s as [|c s]; [done|]. cbn [at_stop]. intros Hc. cbn [redact]. rewrite Hc. assert (urlWithQueryRE (String c s) = false) as ->; [|done].
  unfold urlWithQueryRE, url_starts, HasPrefix. cbn [String.prefix]. by destruct (ascii_dec "h" c) as [<-|].
Qed.

Lemma url_scheme_plain scheme : url_scheme scheme → str_forall in_url scheme = true.
Proof. by intros [->| ->]. Qed.

Lemma mark_ahead_app u q rest : str_forall in_url u = true → query_mark q = true → mark_ahead (u +:+ String q rest) = true.
Proof.
  intros Hu Hq. induction u as [|c u IH]; [cbn; by rewrite Hq|]. rewrite str_forall_cons, andb_true_iff in Hu. destruct Hu as [[Hs Hc]%andb_true_iff Hu].
  cbn [String.append mark_ahead]. rewrite (IH Hu). apply negb_true_iff in Hs. rewrite Hs. by destruct (query_mark c).
Qed.

Lemma in_url_no_stop u : str_forall in_url u = true → str_exists url_stop u = false.
Proof.
  induction u as [|c u IH]; [done|]. rewrite str_forall_cons, andb_true_iff. intros [[Hs _]%andb_true_iff Hu]. cbn [str_exists]. apply negb_true_iff in Hs. by rewrite Hs, IH.
Qed.

(** A match is replaced as the expression says, and what follows is searched
again. *)
Lemma redact_match scheme u q d rest : url_scheme scheme → str_forall in_url u = true → query_mark q = true → str_exists url_stop d = false → at_stop rest →
  RedactURLQueries (scheme +:+ u +:+ String q (d +:+ rest)) = scheme +:+ u +:+ "?[redacted]" +:+ RedactURLQueries rest.
Proof.
  intros Hs Hu Hq Hd Hr. unfold RedactURLQueries.
  assert (urlWithQueryRE (scheme +:+ u +:+ String q (d +:+ rest)) = true) as Hm.
  { unfold urlWithQueryRE. rewrite <- string_app_assoc, mark_ahead_app by (by rewrite ?str_forall_app, ?(url_scheme_plain _ Hs), ?Hu). rewrite string_app_assoc, andb_true_r. unfold url_starts. destruct Hs as [->| ->]; rewrite HasPrefix_app; [done|apply orb_true_r]. }
  assert (redact Outside (scheme +:+ u +:+ String q (d +:+ rest)) = redact Kept (scheme +:+ u +:+ String q (d +:+ rest))) as ->.
  { destruct Hs as [->| ->]; cbn [String.append redact] in *; by rewrite Hm. }
  rewrite <- string_app_assoc, redact_Kept by (by rewrite ?str_forall_app, ?(url_scheme_plain _ Hs), ?Hu). cbn [redact]. rewrite Hq, redact_Dropped by done.
  by rewrite (at_stop_outside _ Hr), string_app_assoc.
Qed.

(** Two messages that are the same but for the queries of the URLs in them. *)
Inductive same_urls : string → string → Prop :=
| same_end : same_urls "" ""
| same_char c s s' : same_urls s s' → same_urls (String c s) (String c s')
| same_query scheme u q q' d d' rest rest' :
  url_scheme scheme → str_forall in_url u = true → query_mark q = true → query_mark q' = true → str_exists url_stop d = false → str_exists url_stop d' = false →
  at_stop rest → at_stop rest' → same_urls rest rest' → same_urls (scheme +:+ u +:+ String q (d +:+ rest)) (scheme +:+ u +:+ String q' (d' +:+ rest')).

Lemma same_urls_refl s : same_urls s s.
Proof. induction s as [|c s IH]; by constructor. Qed.

Lemma same_urls_mark s s' : same_urls s s' → mark_ahead s = mark_ahead s'.
Proof.
  induction 1 as [|c s s' _ IH|scheme u q q' d d' rest rest' Hs Hu Hq Hq' _ _ _ _ _ _]; [done|cbn; by rewrite IH|].
  by rewrite <- !(string_app_assoc scheme), !mark_ahead_app by (by rewrite ?str_forall_app, ?(url_scheme_plain _ Hs), ?Hu).
Qed.

Lemma prefix_mark u p q q' y y' : str_exists query_mark p = false → query_mark q = true → query_mark q' = true → String.prefix p (u +:+ String q y) = String.prefix p (u +:+ String q' y').
Proof.
  intros Hp Hq Hq'. revert p Hp. induction u as [|c u IH]; (intros [|x p]; [done|]); cbn [str_exists]; intros [Hx Hp]%orb_false_iff; cbn [String.append String.prefix].
  - destruct (ascii_dec x q) as [->|]; [congruence|]. by destruct (ascii_dec x q') as [->|]; [congruence|].
  - destruct (ascii_dec x c); [by apply IH|done].
Qed.

Lemma same_urls_prefix s s' p : same_urls s s' → str_exists query_mark p = false → HasPrefix s p = HasPrefix s' p.
Proof.
  intros H. unfold HasPrefix. revert p. induction H as [|c s s' _ IH|scheme u q q' d d' rest rest' Hs Hu Hq Hq' _ _ _ _ _ _]; intros p Hp; [done| |].
  - destruct p as [|x p]; [done|]. cbn in *. apply orb_false_iff in Hp as [_ Hp]. destruct (ascii_dec x c); [by apply IH|done].
  - rewrite <- !(string_app_assoc scheme). by apply prefix_mark.
Qed.

(** What is left of a message does not depend on the queries. *)
Lemma redact_same m s s' : same_urls s s' → redact m s = redact m s'.
Proof.
  intros H. revert m. induction H as [|c s s' H IH|scheme u q q' d d' rest rest' Hs Hu Hq Hq' Hd Hd' Hr Hr' H IH]; intros m; [done| |].
  - destruct m; cbn [redact].
    + assert (urlWithQueryRE (String c s) = urlWithQueryRE (String c s')) as ->; [|by rewrite IH]. apply (same_char c) in H. unfold urlWithQueryRE, url_starts.
      by rewrite !(same_urls_prefix _ _ _ H), (same_urls_mark _ _ H).
    + destruct (query_mark c); by rewrite IH.
    + destruct (url_stop c); by rewrite IH.
  - assert (str_forall in_url (scheme +:+ u) = true) as Hsu by (by rewrite str_forall_app, url_scheme_plain, Hu).
    destruct m.
    + pose proof (redact_match scheme u q d rest Hs Hu Hq Hd Hr) as H1. pose proof (redact_match scheme u q' d' rest' Hs Hu Hq' Hd' Hr') as H2. unfold RedactURLQueries in *. by rewrite H1, H2, IH.
    + rewrite <- !(string_app_assoc scheme), !redact_Kept by done. cbn [redact]. rewrite Hq, Hq', !redact_Dropped by done. by rewrite IH.
    + rewrite <- !(string_app_assoc scheme), !redact_Dropped by (by apply in_url_no_stop). cbn [redact]. rewrite !mark_no_stop, !redact_Dropped by done. apply IH.
Qed.

(** * Payloads without their credentials *)

(** Label sets that agree on the labels that are shown. *)
Definition same_labels (l l' : gmap string string) : Prop := ∀ k, HasPrefix k "__" = false → l !! k = l' !! k.
(** Pool names that agree up to a mark. *)
Definition same_pool (p p' : string) : Prop := p = p' ∨ ∃ b, before_mark p = Some b ∧ before_mark p' = Some b.

Lemma same_labels_insert l l' k v : same_labels l l' → same_labels (<[k := v]> l) (<[k := v]> l').
Proof. intros Hl k' Hk. destruct (decide (k' = k)) as [->|]; [by rewrite !lookup_insert_eq|]. rewrite !lookup_insert_ne by done. by apply Hl. Qed.
Lemma same_labels_hidden l k v v' : HasPrefix k "__" = true → same_labels (<[k := v]> l) (<[k := v']> l).
Proof. intros Hk k' Hk'. by rewrite !lookup_insert_ne by congruence. Qed.

Lemma redactPool_same p p' : same_pool p p' → redactPool p = redactPool p'.
Proof. intros [->|(b & Hp & Hp')]; [done|]. unfold redactPool. by rewrite Hp, Hp'. Qed.

Lemma ScrapeError_same s s' : same_urls s s' → ScrapeError (RedactURLQueries s) = ScrapeError (RedactURLQueries s').
Proof. intros H. unfold RedactURLQueries. by rewrite (redact_same _ _ _ H). Qed.

Section hidden.
Context (url_Host : string → option string).

(** URLs with the same host. *)
Definition same_host (u u' : string) : Prop := (u = "" ↔ u' = "") ∧ url_Host u = url_Host u'.

Record same_active (a a' : upstreamActive) : Prop := {
  sa_Labels : same_labels (ua_Labels a) (ua_Labels a');
  sa_Pool : same_pool (ua_ScrapePool a) (ua_ScrapePool a');
  sa_URL : same_host (ua_ScrapeURL a) (ua_ScrapeURL a');
  sa_LastError : same_urls (ua_LastError a) (ua_LastError a');
  sa_rest : (ua_LastScrape a, ua_LastScrapeDuration a, ua_Health a, ua_ScrapeInterval a) = (ua_LastScrape a', ua_LastScrapeDuration a', ua_Health a', ua_ScrapeInterval a')
}.
Definition same_dropped (d d' : upstreamDropped) : Prop := same_labels (ud_DiscoveredLabels d) (ud_DiscoveredLabels d') ∧ same_pool (ud_ScrapePool d) (ud_ScrapePool d').
(** Payloads that differ in nothing but where a credential can be: the scrape URLs
but for their hosts, the labels of discovery, the queries of the pool names and of
the URLs in the errors. *)
Definition same_targets (r r' : upstreamTargets) : Prop := Forall2 same_active (ActiveTargets r) (ActiveTargets r') ∧ Forall2 same_dropped (DroppedTargets r) (DroppedTargets r').

Record same_rule (r r' : upstreamRule) : Prop := {
  sr_LastError : same_urls (ur_LastError r) (ur_LastError r');
  sr_rest : (ur_Name r, ur_Query r, ur_Type r, ur_State r, ur_Health r, ur_EvaluationTime r, ur_Labels r) = (ur_Name r', ur_Query r', ur_Type r', ur_State r', ur_Health r', ur_EvaluationTime r', ur_Labels r')
}.
Record same_group (g g' : upstreamGroup) : Prop := {
  sg_Rules : Forall2 same_rule (ug_Rules g) (ug_Rules g');
  sg_rest : (ug_Name g, ug_File g, ug_Interval g, ug_EvaluationTime g) = (ug_Name g', ug_File g', ug_Interval g', ug_EvaluationTime g')
}.

Lemma hostOnly_same u u' : same_host u u' → hostOnly url_Host u = hostOnly url_Host u'.
Proof.
  intros [He Hh]. unfold hostOnly. rewrite Hh. destruct (String.eqb_spec u ""), (String.eqb_spec u' ""); try done; tauto.
Qed.
End hidden.

(** The same environment with other answers. *)
Definition with_do (env : ListEnv) (do : Call → Answer) : ListEnv :=
  {| le_seen := le_seen env; le_registry := le_registry env; le_clock := le_clock env; le_do := do; le_failed := le_failed env; le_later := le_later env |}.

Section credentials.
Context (text : Text → string) (say : ListText → string) (osay : OpsText → string) (unicode_lower : string → string).
Context (ParseFloat : string → option float) (FormatFixed : Z → float → string).
Context {Bytes : Type} `{!JsonText Bytes} (body : string → Bytes).
Context (url_Host url_Hostname : string → option string).
Context (size_targets : list TargetInfo → option Z) (size_rules : list RuleInfo → option Z).
Context (t : Tools) (p : Principal).

Local Abbreviation show_active := (active_target unicode_lower ParseFloat FormatFixed url_Host).
Local Abbreviation show_dropped := (dropped_target unicode_lower ParseFloat FormatFixed url_Host).
Local Abbreviation payload := (targets_payload text say osay unicode_lower body p).
Local Abbreviation rule_payload := (rules_payload text say osay unicode_lower body p).
Local Abbreviation run_targets := (targets text say osay unicode_lower ParseFloat FormatFixed body url_Host size_targets t p).
Local Abbreviation run_rules := (rules text say osay unicode_lower ParseFloat FormatFixed body size_rules t p).
Local Abbreviation peers env cluster := (status text say unicode_lower body p env cluster "alertmanagers" upstreamAlertmanagers ([], [])).
Local Abbreviation run_alertmanagers := (alertmanagers text say unicode_lower body url_Host p).

Lemma shown_labels_same l l' : same_labels l l' →
  map_get (render_Labels l) "job" = map_get (render_Labels l') "job" ∧ map_get (render_Labels l) "instance" = map_get (render_Labels l') "instance" ∧
  filter (λ e, HasPrefix e.1 "__" = false) (delete "instance" (delete "job" (render_Labels l))) = filter (λ e, HasPrefix e.1 "__" = false) (delete "instance" (delete "job" (render_Labels l'))).
Proof.
  intros Hl. unfold map_get. rewrite !render_Labels_lookup. split_and!; [by rewrite Hl..|]. apply map_eq. intros k. rewrite !map_lookup_filter.
  destruct (decide (k = "instance")) as [->|]; [by rewrite !lookup_delete_eq|]. destruct (decide (k = "job")) as [->|]; [by rewrite !(lookup_delete_ne _ "instance"), !lookup_delete_eq by done|].
  rewrite !lookup_delete_ne, !render_Labels_lookup by done. destruct (HasPrefix k "__") eqn:Hk; [|by rewrite Hl].
  destruct (ValidLabelName k); [|done]. by destruct (l !! k), (l' !! k); cbn [fmap option_fmap option_map mbind option_bind]; repeat case_guard; cbn [fst] in *; first [done|congruence].
Qed.

Lemma show_active_same a a' : same_active url_Host a a' → show_active a = show_active a'.
Proof.
  intros [Hl Hp Hu He [= H1 H2 H3 H4]]. destruct (shown_labels_same _ _ Hl) as (Hj & Hi & Hf). unfold active_target, redactTarget.
  by rewrite H1, H2, H3, H4, Hj, Hi, Hf, (redactPool_same _ _ Hp), (hostOnly_same _ _ _ Hu), (ScrapeError_same _ _ He).
Qed.

Lemma show_dropped_same d d' : same_dropped d d' → show_dropped d = show_dropped d'.
Proof.
  intros [Hl Hp]. destruct (shown_labels_same _ _ Hl) as (Hj & Hi & Hf). unfold dropped_target, redactTarget. cbv zeta. cbn [ti_Job ti_Instance ti_Health ti_Pool ti_EndpointHost ti_LastScrape ti_ScrapeDurationMs ti_ScrapeInterval ti_LastError ti_Labels].
  by rewrite Hj, Hi, Hf, (redactPool_same _ _ Hp).
Qed.

Lemma Forall2_map {A B} (R : A → A → Prop) (f : A → B) l l' : (∀ x y, R x y → f x = f y) → Forall2 R l l' → f <$> l = f <$> l'.
Proof. intros Hf. induction 1 as [|x y l l' Hxy _ IH]; [done|]. cbn. by rewrite (Hf _ _ Hxy), IH. Qed.

Lemma payload_args env in_ f h raw : payload env in_ = Ok (f, h, raw) →
  parseFormat say (tgi_Format in_) false = Ok f ∧ h = if String.eqb (tgi_Health in_) "" then HealthAny else tgi_Health in_.
Proof.
  unfold targets_payload. destruct (resolved _ _ _ _ _) as [c|]; [|done]. cbn [mbind result_bind]. destruct (parseFormat _ _ _) as [f'|]; [|done]. cbn [mbind result_bind]. cbv zeta.
  destruct (negb _); [done|]. destruct (negb _); [done|]. destruct (fetched _ _ _ _ _ _ _) as [r|]; [|done]. cbn [mbind result_bind]. by destruct (decodeData _ _ _ _ _) as [raw'|]; cbn; [|done]; intros [= <- <- <-].
Qed.

Lemma rule_payload_args env in_ f raw : rule_payload env in_ = Ok (f, raw) → parseFormat say (rli_Format in_) false = Ok f.
Proof.
  unfold rules_payload. destruct (resolved _ _ _ _ _) as [c|]; [|done]. cbn [mbind result_bind]. destruct (parseFormat _ _ _) as [f'|]; [|done]. cbn [mbind result_bind]. cbv zeta.
  destruct (negb _); [done|]. destruct (fetched _ _ _ _ _ _ _) as [r|]; [|done]. cbn [mbind result_bind]. by destruct (decodeData _ _ _ _ _) as [raw'|]; cbn; [|done]; intros [= <- <-].
Qed.

Lemma rule_loop_same in_ gs gs' : Forall2 same_group gs gs' → rule_loop ParseFloat FormatFixed in_ gs = rule_loop ParseFloat FormatFixed in_ gs'.
Proof.
  induction 1 as [|g g' gs gs' [Hr [= Hn Hf Hi He]] _ IH]; [done|]. cbn [rule_loop]. rewrite IH.
  assert (group_info ParseFloat FormatFixed g = group_info ParseFloat FormatFixed g') as -> by (unfold group_info; by rewrite Hn, Hf, Hi, He, (Forall2_length _ _ _ Hr)).
  rewrite Hf. erewrite (Forall2_map same_rule); [done| |exact Hr]. intros r r' [Hl [= H1 H2 H3 H4 H5 H6 H7]]. unfold rule_info. by rewrite H1, H2, H3, H4, H5, H6, H7, (ScrapeError_same _ _ Hl).
Qed.

(** C0: Credentials do not reach an agent.  Two answers of a cluster that differ in
nothing but where a credential can be (a scrape or Alertmanager URL but for its
host, a label of discovery, the query of a pool name or of a URL inside an error)
make the same result, byte for byte: of the targets tool, of the rules tool and of
the alertmanagers tool, whatever was asked for. *)
Theorem credentials_hidden (env : ListEnv) (do' : Call → Answer) : let env' := with_do env do' in
  (∀ in_ f h raw f' h' raw', payload env in_ = Ok (f, h, raw) → payload env' in_ = Ok (f', h', raw') → same_targets url_Host raw raw' → run_targets env in_ = run_targets env' in_) ∧
  (∀ in_ f raw f' raw', rule_payload env in_ = Ok (f, raw) → rule_payload env' in_ = Ok (f', raw') → Forall2 same_group raw raw' → run_rules env in_ = run_rules env' in_) ∧
  (∀ cluster c active dropped active' dropped', resolved text unicode_lower p env cluster = Ok c →
     peers env (ID c) = Ok (active, dropped) → peers env' (ID c) = Ok (active', dropped') → Forall2 (same_host url_Host) active active' → Forall2 (same_host url_Host) dropped dropped' →
     run_alertmanagers env cluster = run_alertmanagers env' cluster).
Proof.
  intros env'. split_and!.
  - intros in_ f h raw f' h' raw' H H' [Ha Hd]. destruct (payload_args _ _ _ _ _ H) as [Hf Hh]. destruct (payload_args _ _ _ _ _ H') as [Hf' Hh']. rewrite Hf in Hf'. injection Hf' as <-. rewrite <- Hh' in Hh. subst h'.
    unfold targets. rewrite H, H'. unfold targets_loop. by rewrite (Forall2_map _ _ _ _ show_active_same Ha), (Forall2_map _ _ _ _ show_dropped_same Hd).
  - intros in_ f raw f' raw' H H' Hg. pose proof (rule_payload_args _ _ _ _ H) as Hf. rewrite (rule_payload_args _ _ _ _ H') in Hf. injection Hf as ->.
    unfold rules. by rewrite H, H', (rule_loop_same in_ _ _ Hg).
  - intros cluster c active dropped active' dropped' Hc H H' Ha Hd. unfold alertmanagers. rewrite Hc. change (resolved text unicode_lower p env' cluster) with (resolved text unicode_lower p env cluster). rewrite Hc. cbn [mbind result_bind]. rewrite H, H'. cbn [mbind result_bind].
    rewrite (Forall2_length _ _ _ Ha), (Forall2_length _ _ _ Hd). do 2 f_equal. f_equal; (eapply (Forall2_map (same_host url_Host)); [|done]); intros x y Hxy; by rewrite (hostOnly_same _ _ _ Hxy).
Qed.
End credentials.

(** * What a cut keeps *)

Lemma keys_le_total a b : keys_le a b ∨ keys_le b a.
Proof.
  revert b. induction a as [|x a IH]; intros [|y b]; cbn; [by left..|by right|]. destruct (decide (x = y)) as [->|Hne]; [destruct (IH b); [left|right]; by right|].
  destruct (base.total String.le x y); [left|right]; left; by split.
Qed.
Lemma keys_le_trans a b c : keys_le a b → keys_le b c → keys_le a c.
Proof.
  revert b c. induction a as [|x a IH]; intros [|y b] [|z c]; cbn; try done. intros [[Hxy Hle]|[-> Hab]] [[Hyz Hle']|[-> Hbc]].
  - left. split; [|by transitivity y]. intros ->. apply Hxy. by apply string_le_antisym.
  - left. by split.
  - left. by split.
  - right. split; [done|]. by apply (IH b).
Qed.

#[export] Instance ranked_le_total {T} rank (keys : T → list string) : Total (ranked_le rank keys).
Proof. intros a b. unfold ranked_le. destruct (Z.lt_total (rank a) (rank b)) as [?|[?|?]]; [by left; left| |by right; left]. destruct (keys_le_total (keys a) (keys b)); [left|right]; by right. Qed.
#[export] Instance ranked_le_trans {T} rank (keys : T → list string) : Transitive (ranked_le rank keys).
Proof. intros a b c. unfold ranked_le. intros [?|[? ?]] [?|[? ?]]; [left; lia..|right]. split; [lia|]. by eapply keys_le_trans. Qed.

(** Nothing that was cut ranks before anything that was kept. *)
Lemma kept_before_cut {T} rank (keys : T → list string) l k x y : x ∈ take k (merge_sort (ranked_le rank keys) l) → y ∈ drop k (merge_sort (ranked_le rank keys) l) → rank x ≤ rank y.
Proof.
  pose proof (StronglySorted_merge_sort (ranked_le rank keys) l) as Hs. rewrite <- (take_drop k (merge_sort _ l)) in Hs. intros Hx Hy.
  assert (ranked_le rank keys x y) as [?|[? _]]; [|lia..]. by eapply StronglySorted_app_1_elem_of.
Qed.

Lemma sorted_total {T} rank (keys : T → list string) l : Z.of_nat (length (merge_sort (ranked_le rank keys) l)) = Z.of_nat (length l).
Proof. f_equal. apply Permutation_length, merge_sort_Permutation. Qed.

Lemma honest_selection s tr k n : honest (with_selection s <$> tr) k n ↔ honest tr k n.
Proof. by destruct tr. Qed.

Lemma selected_spec {T} (marshal : list T → option Z) ceiling (items : list T) limit hint chint s out trunc : 1 ≤ limit ≤ 2000 → 2000 * ceiling ≤ max_int64 →
  selected marshal ceiling items limit hint chint s = (out, trunc) → kept_of id items limit ceiling marshal out trunc ∧ ∀ tr, trunc = Some tr → tr_Selection tr = s.
Proof.
  intros Hl Hc. pose proof (listing_cut id items limit ceiling marshal hint chint Hl Hc) as Hcut. revert Hcut. unfold selected. destruct (TruncateItems items limit hint) as [kept tr]. rewrite list_fmap_id.
  unfold escalated. destruct (FitTokens marshal kept ceiling) as [fitted hit].
  assert (∀ o a b, with_selection s <$> b = a → kept_of id items limit ceiling marshal o b → kept_of id items limit ceiling marshal o a ∧ ∀ tr, a = Some tr → tr_Selection tr = s) as Hend.
  { intros o a b <- (k & H1 & H2 & H3 & H4 & H5 & H6). split; [|by destruct b; intros ? [= <-]]. exists k. rewrite honest_selection. by split_and!. }
  destruct hit; intros Hk [= <- <-]; (eapply Hend; [|exact Hk]); [by destruct tr|by destruct tr].
Qed.

(** * What the summaries count *)

Definition count_if {T} (f : T → bool) (l : list T) : Z := Z.of_nat (length (List.filter f l)).
Lemma count_if_snoc {T} (f : T → bool) l x : count_if f (l ++ [x]) = count_if f l + if f x then 1 else 0.
Proof. unfold count_if. rewrite List.filter_app, length_app. cbn. destruct (f x); cbn; lia. Qed.

Definition healthy_as (h : string) (ti : TargetInfo) : bool := String.eqb (ti_Health ti) h.
Definition of_job (j : string) (ti : TargetInfo) : bool := String.eqb (ti_Job ti) j.
Definition known_health (ti : TargetInfo) : Prop := ti_Health ti = HealthUp ∨ ti_Health ti = HealthDown ∨ ti_Health ti = HealthUnknown.

(** A summary counts the targets of [l], in all and job by job. *)
Definition summary_of (l : list TargetInfo) (s : TargetSummary) : Prop :=
  ts_Up s = count_if (healthy_as HealthUp) l ∧ ts_Down s = count_if (healthy_as HealthDown) l ∧ ts_Unknown s = count_if (healthy_as HealthUnknown) l ∧
  ∀ j, let n h := count_if (λ ti, of_job j ti && healthy_as h ti) l in
    default zero_JobHealth (ts_ByJob s !! j) = {| jh_Up := n HealthUp; jh_Down := n HealthDown; jh_Unknown := n HealthUnknown |}.

Lemma countTarget_spec l s ti : known_health ti → summary_of l s → summary_of (l ++ [ti]) (countTarget s ti).
Proof.
  intros Hk (Hu & Hd & Hn & Hj). unfold summary_of. rewrite !count_if_snoc. unfold countTarget, healthy_as at 2 4 6.
  assert (∀ j (f : JobHealth → JobHealth), default zero_JobHealth (<[ti_Job ti := f (default zero_JobHealth (ts_ByJob s !! ti_Job ti))]> (ts_ByJob s) !! j) =
    if of_job j ti then f (default zero_JobHealth (ts_ByJob s !! j)) else default zero_JobHealth (ts_ByJob s !! j)) as Hins.
  { intros j f. unfold of_job. destruct (String.eqb_spec (ti_Job ti) j) as [->|Hne]; [by rewrite lookup_insert_eq|by rewrite lookup_insert_ne]. }
  assert (∀ h j, count_if (λ ti, of_job j ti && healthy_as h ti) (l ++ [ti]) = count_if (λ ti, of_job j ti && healthy_as h ti) l + if of_job j ti && healthy_as h ti then 1 else 0) as Hc by (intros h j; apply (count_if_snoc (λ ti, of_job j ti && healthy_as h ti))).
  destruct Hk as [H|[H|H]]; rewrite H; cbn [String.eqb Ascii.eqb Bool.eqb HealthUp HealthDown HealthUnknown]; cbn [ts_Up ts_Down ts_Unknown ts_ByJob]; (split_and!; [by rewrite ?Hu, ?Hd, ?Hn; cbn; lia..|]);
    intros j; cbv zeta; rewrite !Hc; unfold healthy_as at 2 4 6; rewrite H;
    [rewrite (Hins j (λ jh, {| jh_Up := jh_Up jh + 1; jh_Down := jh_Down jh; jh_Unknown := jh_Unknown jh |}))
    |rewrite (Hins j (λ jh, {| jh_Up := jh_Up jh; jh_Down := jh_Down jh + 1; jh_Unknown := jh_Unknown jh |}))
    |rewrite (Hins j (λ jh, {| jh_Up := jh_Up jh; jh_Down := jh_Down jh; jh_Unknown := jh_Unknown jh + 1 |}))];
    rewrite Hj; destruct (of_job j ti); cbn; f_equal; lia.
Qed.

Definition severity_of (ai : AlertInfo) : string := if String.eqb (al_Severity ai) "" then "unset" else al_Severity ai.

(** A summary counts the alerts of [l] by state and by severity. *)
Definition alert_summary_of (l : list AlertInfo) (s : AlertSummary) : Prop :=
  as_Firing s = count_if (λ a, String.eqb (al_State a) AlertFiring) l ∧ as_Pending s = count_if (λ a, String.eqb (al_State a) AlertPending) l ∧
  ∀ sev, default 0 (as_BySeverity s !! sev) = count_if (λ a, String.eqb (severity_of a) sev) l.

Lemma countAlert_spec l s ai : alert_summary_of l s → alert_summary_of (l ++ [ai]) (countAlert s ai).
Proof.
  intros (Hf & Hp & Hs). unfold alert_summary_of, countAlert. cbn [as_Firing as_Pending as_BySeverity]. rewrite !count_if_snoc, <- Hf, <- Hp. split_and!.
  - destruct (String.eqb _ _); lia.
  - destruct (String.eqb_spec (al_State ai) AlertFiring) as [->|]; cbn [negb andb]; [change (String.eqb AlertFiring AlertPending) with false; cbv iota; lia|]. destruct (String.eqb _ _); lia.
  - intros sev. rewrite (count_if_snoc (λ a, String.eqb (severity_of a) sev)), <- Hs. fold (severity_of ai).
    destruct (String.eqb_spec (severity_of ai) sev) as [->|Hne]; [by rewrite lookup_insert_eq|]. rewrite lookup_insert_ne by done. lia.
Qed.

(** The filters on targets. *)
Definition in_job (job : string) (ti : TargetInfo) : bool := String.eqb job "" || String.eqb (ti_Job ti) job.
Definition in_health (health : string) (ti : TargetInfo) : bool := String.eqb health HealthAny || String.eqb (ti_Health ti) health.

Lemma target_steps job health l seen s m : Forall known_health l → summary_of seen s → m = List.filter (in_health health) seen →
  ∃ s', foldl (target_step job health) (s, m) l = (s', List.filter (in_health health) (seen ++ List.filter (in_job job) l)) ∧ summary_of (seen ++ List.filter (in_job job) l) s'.
Proof.
  revert seen s m. induction l as [|ti l IH]; intros seen s m Hk Hs ->; cbn [foldl List.filter]; [rewrite app_nil_r; by exists s|]. apply Forall_cons in Hk as [Hti Hk].
  unfold target_step at 2. rewrite <- negb_orb. fold (in_job job ti). destruct (in_job job ti); cbn [negb]; [|by apply IH]. rewrite <- negb_orb. fold (in_health health ti).
  rewrite (cons_middle ti seen (List.filter (in_job job) l)), (app_assoc seen). replace (if negb (in_health health ti) then _ else _) with (countTarget s ti, List.filter (in_health health) (seen ++ [ti])).
  - apply IH; [done|by apply countTarget_spec|done].
  - rewrite List.filter_app. cbn. destruct (in_health health ti); [done|]. by rewrite app_nil_r.
Qed.

Section exact.
Context (text : Text → string) (say : ListText → string) (osay : OpsText → string) (unicode_lower : string → string).
Context (ParseFloat : string → option float) (FormatFixed : Z → float → string).
Context {Bytes : Type} `{!JsonText Bytes} (body : string → Bytes).
Context (url_Host url_Hostname : string → option string).
Context (size_targets : list TargetInfo → option Z) (size_alerts : list AlertInfo → option Z) (size_rules : list RuleInfo → option Z).
Context (t : Tools) (p : Principal) (env : ListEnv).

Local Abbreviation show_active := (active_target unicode_lower ParseFloat FormatFixed url_Host).
Local Abbreviation show_dropped := (dropped_target unicode_lower ParseFloat FormatFixed url_Host).
Local Abbreviation show_alert := (convertAlert unicode_lower url_Hostname).
Local Abbreviation run_targets := (targets text say osay unicode_lower ParseFloat FormatFixed body url_Host size_targets t p env).
Local Abbreviation run_alerts := (alerts text say osay unicode_lower body url_Hostname size_alerts t p env).
Local Abbreviation run_rules := (rules text say osay unicode_lower ParseFloat FormatFixed body size_rules t p env).

Lemma active_known a : known_health (show_active a).
Proof. unfold known_health, active_target, redactTarget, normalizeHealth. cbn [ti_Health]. destruct (String.eqb _ HealthUp); [by left|]. destruct (String.eqb _ HealthDown); [by right; left|by right; right]. Qed.
Lemma dropped_known d : known_health (show_dropped d).
Proof. by right; right. Qed.

Definition all_targets (raw : upstreamTargets) : list TargetInfo := ((show_active <$> ActiveTargets raw) ++ (show_dropped <$> DroppedTargets raw))%list.

Lemma targets_loop_spec job health raw : let seen := List.filter (in_job job) (all_targets raw) in
  ∃ s, targets_loop unicode_lower ParseFloat FormatFixed url_Host job health raw = (s, List.filter (in_health health) seen) ∧ summary_of seen s.
Proof.
  intros seen. unfold targets_loop. rewrite <- foldl_app. destruct (target_steps job health (all_targets raw) [] zero_TargetSummary []) as (s & Hs & Hsum).
  - apply Forall_app. split; apply Forall_fmap, Forall_true; intros x; [apply active_known|apply dropped_known].
  - by split_and!.
  - done.
  - by exists s.
Qed.

(** What is shown of a sorted list and what is said of it: a prefix within the
limit and the token ceiling, an honest count, and nothing cut that ranks before
anything shown. *)
Definition shows {T} (rank : T → Z) (keys : T → list string) (l : list T) (limit : Z) (marshal : list T → option Z) (shown : list T) (trunc : option Truncation) : Prop :=
  let sorted := merge_sort (ranked_le rank keys) l in
  kept_of id sorted limit (tl_tokenCeiling t) marshal shown trunc ∧ ∀ x y, x ∈ shown → y ∈ drop (length shown) sorted → rank x ≤ rank y.

Lemma selected_shows {T} rank keys (l : list T) limit marshal hint chint s shown trunc : ceiling_ok t → 1 ≤ limit ≤ 2000 →
  selected marshal (tl_tokenCeiling t) (merge_sort (ranked_le rank keys) l) limit hint chint s = (shown, trunc) → shows rank keys l limit marshal shown trunc.
Proof.
  intros Hc Hl Hsel. apply selected_spec in Hsel as [Hk _]; [|done..]. split; [done|]. destruct Hk as (k & -> & _ & Hle & _). rewrite list_fmap_id, length_take, Nat.min_l by done. intros x y. apply kept_before_cut.
Qed.

(** C0: A report on targets is exact.  The handler never panics; what it answers is
made of the targets the cluster sent that are of the job asked for: the summary
counts every one of them, in all and job by job, and of those with the health
asked for it shows as many as the limit and the token ceiling allow, with an
honest count.  A target that was cut is no worse than any that is shown, so while
any target that is down was cut nothing but targets that are down is shown. *)
Theorem targets_exact (in_ : TargetsIn) : ceiling_ok t → ∃ r, run_targets in_ = Some r ∧ ∀ out, r = Ok out →
  ∃ f h raw shown, targets_payload text say osay unicode_lower body p env in_ = Ok (f, h, raw) ∧
    let seen := List.filter (in_job (tgi_Job in_)) (all_targets raw) in
    let matched := List.filter (in_health h) seen in
    summary_of seen (tgo_Summary out) ∧ tgo_Total out = Z.of_nat (length matched) ∧
    shows (λ x, healthRank (ti_Health x)) (λ x, [ti_Job x; ti_Instance x]) matched (clampInt (tgi_Limit in_) 50 1 500) size_targets shown (tgo_Truncated out) ∧
    (tgo_Targets out = shown ∨ tgo_Targets out = [] ∧ targetTable FormatFixed shown = Some (tgo_Table out)).
Proof.
  intros Hc. unfold targets. destruct (targets_payload _ _ _ _ _ _ _ _) as [[[f h] raw]|e]; [|by eexists]. destruct (targets_loop_spec (tgi_Job in_) h raw) as (s & -> & Hsum).
  destruct (selected _ _ _ _ _ _ _) as [shown trunc] eqn:Hsel. apply selected_shows in Hsel; [|done|pose proof (listing_limit (tgi_Limit in_) 50 500); lia].
  cbv zeta. destruct (String.eqb f FormatTable).
  - unfold targetTable. destruct (Table_rows ["JOB"; "INSTANCE"; "HEALTH"; "MS"; "LAST_ERROR"] (target_row FormatFixed <$> shown)) as (table & Ht & _). rewrite Ht. cbn [mbind option_bind].
    eexists. split; [done|]. intros out [= <-]. exists f, h, raw, shown. split_and!; [done|done|apply sorted_total|done|by right].
  - eexists. split; [done|]. intros out [= <-]. exists f, h, raw, shown. split_and!; [done|done|apply sorted_total|done|by left].
Qed.

Lemma alert_steps in_ state raw s m : let ok a := alert_matches in_ state a (show_alert a (ali_IncludeAnnotations in_)) in
  alert_summary_of m s → ∃ s', foldl (alert_step unicode_lower url_Hostname in_ state) (s, m) raw = (s', m ++ ((λ a, show_alert a (ali_IncludeAnnotations in_)) <$> List.filter ok raw))%list ∧
    alert_summary_of (m ++ ((λ a, show_alert a (ali_IncludeAnnotations in_)) <$> List.filter ok raw)) s'.
Proof.
  intros ok. revert s m. induction raw as [|a raw IH]; intros s m Hs; cbn [foldl List.filter fmap list_fmap]; [rewrite app_nil_r; by exists s|].
  unfold alert_step at 2. cbv zeta. fold (ok a). destruct (ok a); [|by apply IH]. cbn [fst snd fmap list_fmap]. rewrite (cons_middle (show_alert a _) m (_ <$> List.filter ok raw)), (app_assoc m). apply IH. by apply countAlert_spec.
Qed.

(** C0: A report on alerts is exact.  The handler never panics; of the alerts the
cluster sent it takes those that pass every filter, the summary counts all of
them by state and by severity whatever the limit, and it shows as many as the
limit and the token ceiling allow, with an honest count.  What was cut ranks
behind what is shown: no firing alert is cut while one that is not is shown, and
among the firing no critical one while another is. *)
Theorem alerts_exact (in_ : AlertsIn) : ceiling_ok t → ∃ r, run_alerts in_ = Some r ∧ ∀ out, r = Ok out →
  ∃ f state raw shown, alerts_payload text say osay unicode_lower body p env in_ = Ok (f, state, raw) ∧
    let matched := (λ a, show_alert a (ali_IncludeAnnotations in_)) <$> List.filter (λ a, alert_matches in_ state a (show_alert a (ali_IncludeAnnotations in_))) raw in
    alert_summary_of matched (alo_Summary out) ∧ alo_Total out = Z.of_nat (length matched) ∧
    shows alertRank (λ a, [al_Alertname a]) matched (clampInt (ali_Limit in_) 50 1 300) size_alerts shown (alo_Truncated out) ∧
    (∀ x y, x ∈ shown → y ∈ drop (length shown) (merge_sort alert_le matched) → al_State y = AlertFiring → al_State x = AlertFiring ∧ (al_Severity y = "critical" → al_Severity x = "critical")) ∧
    (alo_Alerts out = shown ∨ alo_Alerts out = [] ∧ alertTable shown = Some (alo_Table out)).
Proof.
  intros Hc. unfold alerts. destruct (alerts_payload _ _ _ _ _ _ _ _) as [[[f state] raw]|e]; [|by eexists].
  destruct (alert_steps in_ state raw zero_AlertSummary []) as (s & -> & Hsum); [by split_and!|]. cbn [app] in *. cbv zeta in *. set (matched := _ <$> List.filter _ raw) in *.
  destruct (selected _ _ _ _ _ _ _) as [shown trunc] eqn:Hsel. apply selected_shows in Hsel; [|done|pose proof (listing_limit (ali_Limit in_) 50 300); lia].
  assert (∀ x y, x ∈ shown → y ∈ drop (length shown) (merge_sort alert_le matched) → al_State y = AlertFiring → al_State x = AlertFiring ∧ (al_Severity y = "critical" → al_Severity x = "critical")) as Hfirst.
  { intros x y Hx Hy Hst. pose proof (proj2 Hsel x y Hx Hy) as Hr. unfold alertRank in Hr. rewrite Hst in Hr. change (String.eqb AlertFiring AlertFiring) with true in Hr. cbv iota in Hr.
    destruct (String.eqb_spec (al_State x) AlertFiring) as [|_]; [|by repeat (destruct (String.eqb _ _)); lia]. split; [done|]. intros Hcr. rewrite Hcr in Hr. change (String.eqb "critical" "critical") with true in Hr. cbv iota in Hr.
    destruct (String.eqb_spec (al_Severity x) "critical"); [done|]. destruct (String.eqb _ _); lia. }
  destruct (String.eqb f FormatTable).
  - unfold alertTable. destruct (Table_rows ["ALERT"; "STATE"; "SEVERITY"; "SINCE"; "LABELS"; "SUMMARY"] (alert_row <$> shown)) as (table & Ht & _). rewrite Ht. cbn [mbind option_bind].
    eexists. split; [done|]. intros out [= <-]. exists f, state, raw, shown. split_and!; [done|done|apply sorted_total|apply Hsel..|done|by right].
  - eexists. split; [done|]. intros out [= <-]. exists f, state, raw, shown. split_and!; [done|done|apply sorted_total|apply Hsel..|done|by left].
Qed.

Lemma rule_loop_elem in_ gs x : x ∈ (rule_loop ParseFloat FormatFixed in_ gs).2 ↔ ∃ g r, g ∈ gs ∧ r ∈ ug_Rules g ∧ (rli_Group in_ = "" ∨ ClipRunes (ug_Name g) 200 = rli_Group in_) ∧
  x = rule_info ParseFloat FormatFixed (rli_IncludeExpr in_) (ClipRunes (ug_Name g) 200) (ug_File g) r ∧ (rli_RuleName in_ = "" ∨ ri_Name x = rli_RuleName in_).
Proof.
  induction gs as [|g gs IH]; cbn [rule_loop]; [split; [by intros ?%not_elem_of_nil|by intros (g & r & ?%not_elem_of_nil & _)]|]. destruct (rule_loop ParseFloat FormatFixed in_ gs) as [groups matched]. cbn [snd] in IH.
  change (rg_Name (group_info ParseFloat FormatFixed g)) with (ClipRunes (ug_Name g) 200). rewrite <- negb_orb.
  assert (String.eqb (rli_Group in_) "" || String.eqb (ClipRunes (ug_Name g) 200) (rli_Group in_) = true ↔ rli_Group in_ = "" ∨ ClipRunes (ug_Name g) 200 = rli_Group in_) as Hg by (by rewrite orb_true_iff, !String.eqb_eq).
  destruct (String.eqb (rli_Group in_) "" || _); cbn [negb snd]; [rewrite elem_of_app, list_elem_of_filter, list_elem_of_fmap, orb_true_iff, !String.eqb_eq|]; rewrite IH; clear IH; split.
  - intros [[Hn (r & Hx & Hr)]|(g' & r & Hg' & ?)]; [exists g, r; split; [left|]; tauto|exists g', r; split; [by right|tauto]].
  - intros (g' & r & [->|Hg']%elem_of_cons & Hr & Hgr & Hx & Hn); [left; split; [done|by exists r]|right; by exists g', r].
  - intros (g' & r & Hg' & ?). exists g', r. split; [by right|tauto].
  - intros (g' & r & [->|Hg']%elem_of_cons & Hr & Hgr & Hx & Hn); [by apply Hg in Hgr|by exists g', r].
Qed.

(** A report on rules is exact in the same way, and a broken rule is never cut
while a healthy one is shown. *)
Theorem rules_exact (in_ : RulesIn) : ceiling_ok t → ∃ r, run_rules in_ = Some r ∧ ∀ out, r = Ok out →
  ∃ f raw matched shown, rules_payload text say osay unicode_lower body p env in_ = Ok (f, raw) ∧ rule_loop ParseFloat FormatFixed in_ raw = (rlo_Groups out, matched) ∧
    rlo_Total out = Z.of_nat (length matched) ∧
    shows ruleRank (λ r, [ri_Group r; ri_Name r]) matched (clampInt (rli_Limit in_) 50 1 500) size_rules shown (rlo_Truncated out) ∧
    (rlo_Rules out = shown ∨ rlo_Rules out = [] ∧ ruleTable FormatFixed shown = Some (rlo_Table out)).
Proof.
  intros Hc. unfold rules. destruct (rules_payload _ _ _ _ _ _ _ _) as [[f raw]|e]; [|by eexists]. destruct (rule_loop _ _ in_ raw) as [groups matched] eqn:Hloop.
  destruct (selected _ _ _ _ _ _ _) as [shown trunc] eqn:Hsel. apply selected_shows in Hsel; [|done|pose proof (listing_limit (rli_Limit in_) 50 500); lia]. cbv zeta. destruct (String.eqb f FormatTable).
  - unfold ruleTable. destruct (Table_rows ["GROUP"; "RULE"; "TYPE"; "STATE"; "HEALTH"; "MS"; "LAST_ERROR"] (rule_row FormatFixed <$> shown)) as (table & Ht & _). rewrite Ht. cbn [mbind option_bind].
    eexists. split; [done|]. intros out [= <-]. exists f, raw, matched, shown. split_and!; [done|done|apply sorted_total|apply Hsel..|by right].
  - eexists. split; [done|]. intros out [= <-]. exists f, raw, matched, shown. split_and!; [done|done|apply sorted_total|apply Hsel..|by left].
Qed.
End exact.

(** * Sections that could not be had *)

Section runtime.
Context (text : Text → string) (say : ListText → string) (osay : OpsText → string) (unicode_lower : string → string).
Context {Bytes : Type} `{!JsonText Bytes} (body : string → Bytes).
Context (p : Principal) (env : ListEnv) (order : gmap string string → list (string * string)).
Local Abbreviation ask := (status text say unicode_lower body p env).

(** Why a section of a cluster cannot be had. *)
Definition section_error (cluster s : string) : option ToolError :=
  let err {A} (r : result ToolError A) := match r with Ok _ => None | Err e => Some e end in
  if String.eqb s SectionBuild then err (ask cluster "build_info" build_value zero_BuildInfo)
  else if String.eqb s SectionRuntime then err (ask cluster "runtime_info" runtime_value zero_RuntimeState)
  else err (ask cluster "flags" map_value ∅).

Definition sections_of (in_ : RuntimeInfoIn) : list string := if (length (dedupe (rii_Include in_)) =? 0)%nat then defaultSections else dedupe (rii_Include in_).

Lemma sections_wanted in_ : (∀ s, s ∈ sections_of in_ → s ∈ allSections) → sections_of in_ ≡ₚ List.filter (includes (sections_of in_)) allSections.
Proof.
  intros Hall. apply NoDup_Permutation; [| |intros s; rewrite !list_elem_of_In, filter_In, <- !list_elem_of_In; unfold includes; rewrite Contains_spec; naive_solver].
  - unfold sections_of. destruct (_ =? 0)%nat; [by apply (bool_decide_unpack (NoDup defaultSections)); vm_compute|apply dedupe_NoDup].
  - apply NoDup_ListNoDup, List.NoDup_filter, NoDup_ListNoDup. by apply (bool_decide_unpack (NoDup allSections)); vm_compute.
Qed.

(** What the runtime of a server is reported as: the sections that could be had,
the names of those asked for that could not, and an error only when none could:
the one that was met first. *)
Theorem runtime_info_exact (in_ : RuntimeInfoIn) (c : Cluster) : resolved text unicode_lower p env (rii_Cluster in_) = Ok c → (∀ s, s ∈ sections_of in_ → s ∈ allSections) →
  let wanted := includes (sections_of in_) in
  let failures := List.filter (λ s, bool_decide (is_Some (section_error (ID c) s))) (List.filter wanted allSections) in
  match runtimeInfo text say osay unicode_lower body p env order in_ with
  | Ok out => rio_Partial out = failures ∧ (length failures < length (sections_of in_))%nat ∧
      (is_Some (rio_Build out) ↔ wanted SectionBuild = true ∧ section_error (ID c) SectionBuild = None) ∧ (is_Some (rio_Runtime out) ↔ wanted SectionRuntime = true ∧ section_error (ID c) SectionRuntime = None)
  | Err e => failures = List.filter wanted allSections ∧ ∃ s, head failures = Some s ∧ section_error (ID c) s = Some e
  end.
Proof.
  intros Hc Hall wanted. pose proof (Permutation_length (sections_wanted in_ Hall)) as Hlen. unfold runtimeInfo. rewrite Hc. cbn [mbind result_bind]. cbv zeta. fold (sections_of in_). fold wanted in Hlen |- *.
  destruct (List.find _ (sections_of in_)) as [s|] eqn:Hf.
  { apply List.find_some in Hf as [Hin%list_elem_of_In Hs]. apply Hall, Contains_spec in Hin. unfold includes in Hs. by rewrite Hin in Hs. }
  assert (∃ s, s ∈ sections_of in_) as [s0 Hs0].
  { unfold sections_of. destruct (dedupe (rii_Include in_)) as [|s l]; cbn; [exists SectionBuild; left|exists s; left]. }
  assert (0 < length (sections_of in_))%nat as Hpos by (destruct (sections_of in_); [by apply not_elem_of_nil in Hs0|cbn; lia]). clear Hf Hall Hs0 s0.
  rewrite Hlen in *. unfold section_error. cbv zeta. unfold section.
  change (String.eqb SectionBuild SectionBuild) with true. change (String.eqb SectionRuntime SectionBuild) with false. change (String.eqb SectionRuntime SectionRuntime) with true.
  cbn [List.filter allSections] in *. fold (wanted SectionBuild) (wanted SectionRuntime) (wanted SectionFlags).
  destruct (wanted SectionBuild), (wanted SectionRuntime), (wanted SectionFlags), (ask (ID c) "build_info" build_value zero_BuildInfo) as [b|e1], (ask (ID c) "runtime_info" runtime_value zero_RuntimeState) as [r|e2], (ask (ID c) "flags" map_value ∅) as [f|e3];
    cbn in *; try lia; split_and!; try done; try lia; try (split; [by intros [? [=]]|by intros [? ?]]); eauto.
Qed.
End runtime.

(** * Examples *)

(** A cluster with a target that fails, scraped with a token, a healthy one and a
dropped one, of which discovery knows the token. *)
Definition scraped_url (token : string) : string := "http://node:9100/metrics?token=" +:+ token.
Definition scrape_error (token : string) : string := "Get '" +:+ scraped_url token +:+ "': EOF".
Definition toy_down (token : string) : upstreamActive :=
  {| ua_Labels := list_to_map [("instance", "node:9100"); ("job", "node"); ("__param_token", token)]; ua_ScrapePool := "sd?token=" +:+ token; ua_ScrapeURL := scraped_url token; ua_GlobalURL := scraped_url token;
     ua_LastError := scrape_error token; ua_LastScrape := "2026-01-01T00:00:00Z"; ua_LastScrapeDuration := 0%float; ua_Health := " DOWN"; ua_ScrapeInterval := "30s" |}.
Definition toy_up : upstreamActive :=
  {| ua_Labels := list_to_map [("instance", "https://web/probe?key=k"); ("job", "blackbox")]; ua_ScrapePool := "web"; ua_ScrapeURL := ""; ua_GlobalURL := ""; ua_LastError := ""; ua_LastScrape := "";
     ua_LastScrapeDuration := 0%float; ua_Health := "up"; ua_ScrapeInterval := "" |}.
Definition toy_targets (token : string) : upstreamTargets :=
  {| ActiveTargets := [toy_up; toy_down token]; DroppedTargets := [{| ud_DiscoveredLabels := list_to_map [("job", "node"); ("__meta_token", token)]; ud_ScrapePool := "sd#" +:+ token |}] |}.

Definition active_json (a : upstreamActive) : json :=
  JObj [("labels", JObj (prod_map id JStr <$> map_to_list (ua_Labels a))); ("scrapePool", JStr (ua_ScrapePool a)); ("scrapeUrl", JStr (ua_ScrapeURL a)); ("globalUrl", JStr (ua_GlobalURL a)); ("lastError", JStr (ua_LastError a));
        ("lastScrape", JStr (ua_LastScrape a)); ("lastScrapeDuration", JInt 0); ("health", JStr (ua_Health a)); ("scrapeInterval", JStr (ua_ScrapeInterval a))].
Definition targets_json (r : upstreamTargets) : json :=
  JObj [("activeTargets", JArr (active_json <$> ActiveTargets r));
        ("droppedTargets", JArr ((λ d, JObj [("discoveredLabels", JObj (prod_map id JStr <$> map_to_list (ud_DiscoveredLabels d))); ("scrapePool", JStr (ud_ScrapePool d))]) <$> DroppedTargets r))].
Definition alerts_json : json :=
  JObj [("alerts", JArr [JObj [("labels", JObj [("alertname", JStr "Slow")]); ("state", JStr "pending")];
                         JObj [("labels", JObj [("alertname", JStr "Full"); ("severity", JStr "warning")]); ("state", JStr "firing")];
                         JObj [("labels", JObj [("alertname", JStr "Down"); ("severity", JStr "critical")]); ("state", JStr "firing"); ("annotations", JObj [("summary", JStr "node is down")])]])].
(** The body of an answer names what it holds: a token, or the alerts. *)
Definition ops_body (s : string) : option json := Some (list_json (if String.eqb s "alerts" then alerts_json else targets_json (toy_targets s))).
Definition ops_env (b : string) : ListEnv := {| le_seen := 20; le_registry := one_cluster; le_clock := toy_now; le_do := λ _, list_answer b; le_failed := 20; le_later := one_cluster |}.
Definition toy_Host (u : string) : option string := if HasPrefix u "http://node:9100" then Some "node:9100" else None.
Definition no_ops_say (_ : OpsText) : string := "".
Definition ask_targets (health : string) : TargetsIn := {| tgi_Cluster := "prod-eu"; tgi_State := "any"; tgi_Health := health; tgi_Job := ""; tgi_Limit := 1; tgi_Format := "" |}.
Definition toy_report (token health : string) : option (result ToolError TargetsOut) :=
  targets toy_text no_say no_ops_say (λ s, s) (λ _, Some 0%float) (λ _ _, "0") ops_body toy_Host (λ _, None) toy_tools list_agent (ops_env token) (ask_targets health).
Definition ask_alerts : AlertsIn :=
  {| ali_Cluster := "prod-eu"; ali_State := "all"; ali_Alertname := ""; ali_Severity := ""; ali_LabelSelector := ∅; ali_IncludeAnnotations := true; ali_Limit := 1; ali_Format := "" |}.
Definition toy_alerts : option (result ToolError AlertsOut) := alerts toy_text no_say no_ops_say (λ s, s) ops_body (λ _, None) (λ _, None) toy_tools list_agent (ops_env "alerts") ask_alerts.

Definition shown_down : TargetInfo :=
  {| ti_Job := "node"; ti_Instance := "node:9100"; ti_Health := "down"; ti_Pool := "sd?[redacted]"; ti_EndpointHost := "node:9100"; ti_LastScrape := "2026-01-01T00:00:00Z"; ti_ScrapeDurationMs := 0%float;
     ti_ScrapeInterval := "30s"; ti_LastError := "Get 'http://node:9100/metrics?[redacted]': EOF"; ti_Labels := ∅ |}.

Lemma toy_targets_same : same_targets toy_Host (toy_targets "A") (toy_targets "B").
Proof.
  split; cbn [ActiveTargets DroppedTargets toy_targets].
  - apply Forall2_cons; split; [split; try done; [by left|apply same_end]|]. apply Forall2_cons; split; [|constructor]. split; try done.
    + cbn [ua_Labels toy_down list_to_map foldr uncurry]. do 2 apply same_labels_insert. by apply same_labels_hidden.
    + right. exists "sd". by split.
    + cbn [toy_down ua_LastError]. do 5 apply same_char. apply (same_query "http://" "node:9100/metrics" "?" "?" "token=A" "token=B" "': EOF" "': EOF"); try done; [by left|apply same_urls_refl].
  - apply Forall2_cons; split; [|constructor]. split; [|right; exists "sd"; by split].
    cbn [ud_DiscoveredLabels list_to_map foldr uncurry]. apply same_labels_insert. by apply same_labels_hidden.
Qed.

Lemma credentials_hidden_witness :
  (∃ out, toy_report "A" "" = Some (Ok out) ∧ tgo_Targets out = [shown_down] ∧ tgo_Total out = 3) ∧ toy_report "A" "" = toy_report "B" "".
Proof.
  split; [eexists; split; [vm_compute; reflexivity|]; vm_compute; by split|].
  destruct (credentials_hidden toy_text no_say no_ops_say (λ s, s) (λ _, Some 0%float) (λ _ _, "0") ops_body toy_Host (λ _, None) (λ _, None) toy_tools list_agent (ops_env "A") (λ _, list_answer "B")) as [H _].
  apply (H (ask_targets "") "compact" "any" (toy_targets "A") "compact" "any" (toy_targets "B")); [vm_compute; reflexivity|vm_compute; reflexivity|exact toy_targets_same].
Defined.

Lemma targets_exact_witness : ceiling_ok toy_tools ∧ ∃ r, toy_report "A" "down" = Some r.
Proof.
  split; [exact toy_ceiling_ok|].
  destruct (targets_exact toy_text no_say no_ops_say (λ s, s) (λ _, Some 0%float) (λ _ _, "0") ops_body toy_Host (λ _, None) toy_tools list_agent (ops_env "A") (ask_targets "down") toy_ceiling_ok) as (r & Hr & _).
  exists r. exact Hr.
Defined.

Lemma alerts_exact_witness :
  (∃ out, toy_alerts = Some (Ok out) ∧ al_Alertname <$> alo_Alerts out = ["Down"] ∧ alo_Total out = 3 ∧ as_Firing (alo_Summary out) = 2 ∧ as_Pending (alo_Summary out) = 1) ∧ ∃ r, toy_alerts = Some r.
Proof.
  split; [eexists; split; [vm_compute; reflexivity|]; vm_compute; by split_and!|].
  destruct (alerts_exact toy_text no_say no_ops_say (λ s, s) ops_body (λ _, None) (λ _, None) toy_tools list_agent (ops_env "alerts") ask_alerts toy_ceiling_ok) as (r & Hr & _).
  exists r. exact Hr.
Defined.

(** With the health asked for, the summary still counts the targets that do not
have it. *)
Lemma summary_ignores_health : ∃ out, toy_report "A" "down" = Some (Ok out) ∧ tgo_Total out = 1 ∧ ts_Up (tgo_Summary out) = 1 ∧ ts_Down (tgo_Summary out) = 1 ∧ ts_Unknown (tgo_Summary out) = 1.
Proof. eexists. split; [vm_compute; reflexivity|]. vm_compute. by split_and!. Qed.

(** A URL that is a label, as the instance of a probe, keeps its query; so does one
in an error that is not in small letters. *)
Lemma queries_that_survive :
  ti_Instance (active_target (λ s, s) (λ _, Some 0%float) (λ _ _, "0") toy_Host toy_up) = "https://web/probe?key=k" ∧
  RedactURLQueries "Get HTTPS://web/probe?key=k: EOF" = "Get HTTPS://web/probe?key=k: EOF".
Proof. by vm_compute. Qed.
