(* ===== verification/Ca.v ===== *)
(** The certificate authority: [src/internal/ca].

PEM, X.509 parsing, signature creation and chain verification are Go's
[encoding/pem] and [crypto/x509]: the interface [X509] lists the calls the
package makes and the documented behaviour it relies on, and [toy_x509] is an
instance.  Everything the package itself decides is defined here: what counts as
a root, how a signer and its trust bundle are assembled and replaced, the
validity window and identity of issued certificates, and which certificates
verify, expired ones included. *)

From S2P Require Import Prelude Text.
Open Scope string_scope.
Open Scope Z_scope.

(** * Certificates *)

(** The parts of [url.URL] a SAN is checked for; [url_User] is whether the
pointer is set. *)
Record url := {
  url_Scheme : string;
  url_Opaque : string;
  url_User : bool;
  url_Host : string;
  url_Path : string;
  url_RawQuery : string;
  url_Fragment : string
}.

Inductive PublicKey :=
| PubECDSA (p256 : bool) (point : string)
| PubRSA (bits : Z)
| PubOther.

#[export] Instance url_eq_dec : EqDecision url.
Proof. solve_decision. Defined.
#[export] Instance PublicKey_eq_dec : EqDecision PublicKey.
Proof. solve_decision. Defined.

Definition KeyUsageDigitalSignature : Z := 1.
Definition KeyUsageCertSign : Z := 32.
Definition KeyUsageCRLSign : Z := 64.

(** A certificate, parsed or as a template; [Raw] is empty in a template, and
[ClientAuth] is whether [ExtKeyUsageClientAuth] is among its usages. *)
Record Certificate := {
  Raw : string;
  SerialNumber : Z;
  CommonName : string;
  NotBefore : Z;
  NotAfter : Z;
  KeyUsage : Z;
  ClientAuth : bool;
  IsCA : bool;
  URIs : list url;
  cert_PublicKey : PublicKey
}.

#[export] Instance Certificate_eq_dec : EqDecision Certificate.
Proof. solve_decision. Defined.

Record Block := { blk_Type : string; blk_Bytes : string }.

#[export] Instance Block_eq_dec : EqDecision Block.
Proof. solve_decision. Defined.

(** A private key: whether it is ECDSA on P-256, and its public half. *)
Record PrivateKey := { key_p256 : bool; key_point : string }.

#[export] Instance PrivateKey_eq_dec : EqDecision PrivateKey.
Proof. solve_decision. Defined.

Record CertificateRequest := { csr_PublicKey : PublicKey; csr_signed : bool }.

(** A certificate's times are whole seconds. *)
Definition trunc_second (t : Z) : Z := t - t mod Second.

Lemma trunc_second_bounds t : t - Second < trunc_second t ≤ t.
Proof. unfold trunc_second, Second. pose proof (Z.mod_pos_bound t 1000000000). lia. Qed.

Lemma trunc_second_mono t u : t ≤ u → trunc_second t ≤ trunc_second u.
Proof.
  intros H. unfold trunc_second, Second. rewrite !Z.mod_eq by lia.
  pose proof (Z.div_le_mono t u 1000000000 ltac:(lia) H). lia.
Qed.

Lemma trunc_second_idem t : trunc_second (trunc_second t) = trunc_second t.
Proof.
  assert (trunc_second t mod Second = 0) as H; [|unfold trunc_second at 1; lia].
  unfold trunc_second. rewrite Zminus_mod_idemp_r, Z.sub_diag. done.
Qed.

Definition newline : string := String "010" "".

(** The characters a host name or a path carries unescaped. *)
Definition plain_char (c : ascii) : bool :=
  in_range 0x61 0x7A c || in_range 0x30 0x39 c || Ascii.eqb c "-" || Ascii.eqb c "." || Ascii.eqb c "/".
Definition plain_url (u : url) : Prop :=
  url_Opaque u = "" ∧ url_User u = false ∧ url_RawQuery u = "" ∧ url_Fragment u = "" ∧
  url_Scheme u = "pmf" ∧ str_forall plain_char (url_Host u) = true ∧ str_forall plain_char (url_Path u) = true.

(** What the parsed certificate of a template says. *)
Definition certified (tmpl : Certificate) (pub : PublicKey) (der : string) : Certificate :=
  {| Raw := der; SerialNumber := SerialNumber tmpl; CommonName := CommonName tmpl;
     NotBefore := trunc_second (NotBefore tmpl); NotAfter := trunc_second (NotAfter tmpl);
     KeyUsage := KeyUsage tmpl; ClientAuth := ClientAuth tmpl; IsCA := IsCA tmpl; URIs := URIs tmpl;
     cert_PublicKey := pub |}.

Definition valid_at (c : Certificate) (t : Z) : bool := negb (Before t (NotBefore c)) && negb (After t (NotAfter c)).

(** [encoding/pem] and [crypto/x509].  [pem_blocks] is what iterating
[pem.Decode] over a text yields. *)
Class X509 := {
  pem_blocks : string → list Block;
  EncodeToMemory : Block → string;
  ParseCertificate : string → option Certificate;
  ParsePKCS8PrivateKey : string → option (option PrivateKey);
  ParseECPrivateKey : string → option PrivateKey;
  MarshalPKCS8PrivateKey : PrivateKey → string;
  ParseCertificateRequest : string → option CertificateRequest;
  CreateCertificate : Certificate → Certificate → PublicKey → PrivateKey → string;
  CheckSignatureFrom : Certificate → Certificate → bool;
  x509_Verify : Certificate → list Certificate → list Certificate → Z → bool;
  sha256_hex : string → string;

  (** blocks follow one another *)
  pem_concat : ∀ l, pem_blocks (foldr (λ b s, EncodeToMemory b +:+ s) "" l) = l;
  (** an encoded block ends its last line; a blank text holds no block *)
  pem_line : ∀ b, ∃ s c, EncodeToMemory b = s +:+ String c newline ∧ c ≠ "010"%char;
  pem_blank : ∀ s, blank s = true → pem_blocks s = [];
  ParseCertificate_raw : ∀ der c, ParseCertificate der = Some c → Raw c = der;
  ParsePKCS8_Marshal : ∀ k, key_p256 k = true → ParsePKCS8PrivateKey (MarshalPKCS8PrivateKey k) = Some (Some k);
  (** a created certificate parses, and its signature is its parent's *)
  CreateCertificate_parses : ∀ tmpl parent pub key, Forall plain_url (URIs tmpl) →
    ParseCertificate (CreateCertificate tmpl parent pub key)
    = Some (certified tmpl pub (CreateCertificate tmpl parent pub key));
  CreateCertificate_signed : ∀ tmpl parent pub key, Forall plain_url (URIs tmpl) →
    cert_PublicKey parent = PubECDSA (key_p256 key) (key_point key) → IsCA parent = true →
    Z.land (KeyUsage parent) KeyUsageCertSign ≠ 0 →
    CheckSignatureFrom (certified tmpl pub (CreateCertificate tmpl parent pub key)) parent = true;
  (** a client certificate signed by a root of the pool verifies while both are
      valid, whatever else is offered *)
  Verify_direct : ∀ leaf roots inter t root, root ∈ roots → CheckSignatureFrom leaf root = true →
    ClientAuth leaf = true → valid_at leaf t = true → valid_at root t = true →
    x509_Verify leaf roots inter t = true;
  (** a certificate outside its validity does not verify *)
  Verify_valid : ∀ leaf roots inter t, x509_Verify leaf roots inter t = true →
    valid_at leaf t = true ∧ ClientAuth leaf = true
}.

(** * Errors and options *)

Inductive ca_error :=
| ErrNoIdentity | ErrWrongTrustDomain | ErrCSRInvalid | ErrCAExists | ErrCANotFound | ErrCAIncomplete
| ErrInsecureKeyMode | ErrInvalidCA | ErrCAExpired | ErrInvalidClusterID | ErrInvalidOptions
| ErrUntrustedChain | ErrGraceExhausted
| ca_other (what : string).

Definition DefaultTrustDomain : string := "fleet.local".
Definition DefaultSpokeCertTTL : Z := 14 * 24 * Hour.
Definition DefaultCATTL : Z := 10 * 365 * 24 * Hour.
Definition clockSkew : Z := 5 * Minute.

Definition alnum_char (c : ascii) : bool := in_range 0x61 0x7A c || in_range 0x30 0x39 c.

Definition last_char (s : string) : option ascii :=
  match s with "" => None | _ => String.get (String.length s - 1) s end.

(** [^[a-z0-9]([<mid>]{0,n-2}[a-z0-9])?$]: 1 to [n] characters, the first and last
alphanumeric. *)
Definition dns_shaped (mid : ascii → bool) (n : nat) (s : string) : bool :=
  match s, last_char s with
  | String c _, Some d => alnum_char c && alnum_char d && str_forall mid s && (String.length s <=? n)%nat
  | _, _ => false
  end.

Definition ValidClusterID (id : string) : bool := dns_shaped (λ c, alnum_char c || Ascii.eqb c "-") 63 id.
Definition trustDomainRE (s : string) : bool :=
  dns_shaped (λ c, alnum_char c || Ascii.eqb c "-" || Ascii.eqb c ".") 253 s.

Record Options := { TrustDomain : string; SpokeCertTTL : Z; CATTL : Z; AdditionalRootsPEM : string }.

Definition withDefaults (o : Options) : Options :=
  {| TrustDomain := if String.eqb (TrustDomain o) "" then DefaultTrustDomain else TrustDomain o;
     SpokeCertTTL := if SpokeCertTTL o =? 0 then DefaultSpokeCertTTL else SpokeCertTTL o;
     CATTL := if CATTL o =? 0 then DefaultCATTL else CATTL o;
     AdditionalRootsPEM := AdditionalRootsPEM o |}.

Definition opts_validate (o : Options) : result ca_error unit :=
  if negb (trustDomainRE (TrustDomain o)) then Err ErrInvalidOptions
  else if SpokeCertTTL o <=? 0 then Err ErrInvalidOptions
  else if CATTL o <=? 0 then Err ErrInvalidOptions
  else Ok tt.

Definition pemTypeCertificate : string := "CERTIFICATE".
Definition pemTypePrivateKey : string := "PRIVATE KEY".
Definition pemTypeECKeyLegacy : string := "EC PRIVATE KEY".

(** * Material *)

Section ca.
Context `{X : X509}.

(** [caSigningDefect(cert) != ""]. *)
Definition caSigningDefect (c : Certificate) : bool :=
  negb (IsCA c) || (Z.land (KeyUsage c) KeyUsageCertSign =? 0).

Fixpoint parse_roots (blks : list Block) : result ca_error (list Certificate) :=
  match blks with
  | [] => Ok []
  | blk :: blks =>
    if negb (String.eqb (blk_Type blk) pemTypeCertificate) then Err ErrInvalidCA
    else match ParseCertificate (blk_Bytes blk) with
         | None => Err ErrInvalidCA
         | Some cert =>
           if caSigningDefect cert then Err ErrInvalidCA
           else match parse_roots blks with Ok roots => Ok (cert :: roots) | Err e => Err e end
         end
  end.

Definition ParseTrustBundlePEM (b : string) : result ca_error (list Certificate) :=
  match parse_roots (pem_blocks b) with
  | Err e => Err e
  | Ok [] => Err ErrInvalidCA
  | Ok roots => Ok roots
  end.

Definition opts_additionalRoots (pem : string) : result ca_error (list Certificate) :=
  if blank pem then Ok [] else ParseTrustBundlePEM pem.

Definition Fingerprint (c : option Certificate) : string :=
  match c with None => "" | Some c => sha256_hex (Raw c) end.

Definition parseCertificatePEM (b : string) : result ca_error Certificate :=
  match pem_blocks b with
  | [] => Err ErrInvalidCA
  | blk :: rest =>
    if negb (String.eqb (blk_Type blk) pemTypeCertificate) then Err ErrInvalidCA
    else match rest with
         | _ :: _ => Err ErrInvalidCA
         | [] => match ParseCertificate (blk_Bytes blk) with None => Err ErrInvalidCA | Some c => Ok c end
         end
  end.

Definition parsePrivateKeyPEM (b : string) : result ca_error PrivateKey :=
  match pem_blocks b with
  | [] => Err ErrInvalidCA
  | blk :: _ =>
    match (if String.eqb (blk_Type blk) pemTypePrivateKey
           then match ParsePKCS8PrivateKey (blk_Bytes blk) with Some (Some k) => Some k | _ => None end
           else if String.eqb (blk_Type blk) pemTypeECKeyLegacy then ParseECPrivateKey (blk_Bytes blk)
           else None) with
    | None => Err ErrInvalidCA
    | Some k => if key_p256 k then Ok k else Err ErrInvalidCA
    end
  end.

Definition checkCAUsable (c : Certificate) (k : PrivateKey) : result ca_error unit :=
  if caSigningDefect c then Err ErrInvalidCA
  else match cert_PublicKey c with
       | PubECDSA p256 pt => if bool_decide (p256 = key_p256 k ∧ pt = key_point k) then Ok tt else Err ErrInvalidCA
       | _ => Err ErrInvalidCA
       end.

Record caMaterial := {
  m_cert : Certificate;
  m_key : PrivateKey;
  m_roots : list Certificate;
  m_bundlePEM : string
}.

Definition appendRoot (acc : list Certificate * string) (root : Certificate) : list Certificate * string :=
  if existsb (λ have, String.eqb (Raw have) (Raw root)) acc.1 then acc
  else ((acc.1 ++ [root])%list,
        acc.2 +:+ EncodeToMemory {| blk_Type := pemTypeCertificate; blk_Bytes := Raw root |}).

Definition newMaterial (cert : Certificate) (key : PrivateKey) (additional : list Certificate) : caMaterial :=
  let '(roots, bundle) := fold_left appendRoot (cert :: additional) ([], "") in
  {| m_cert := cert; m_key := key; m_roots := roots; m_bundlePEM := bundle |}.

Definition parseMaterial (certPEM keyPEM additionalRootsPEM : string)
    : result ca_error (Certificate * PrivateKey * list Certificate) :=
  cert ← parseCertificatePEM certPEM;
  key ← parsePrivateKeyPEM keyPEM;
  _ ← checkCAUsable cert key;
  additional ← opts_additionalRoots additionalRootsPEM;
  Ok (cert, key, additional).

(** The authority: its options and the material in force. *)
Record CA := { ca_opts : Options; ca_material : caMaterial }.

Definition newCA (o : Options) (cert : Certificate) (key : PrivateKey) (additional : list Certificate) : CA :=
  {| ca_opts := o; ca_material := newMaterial cert key additional |}.

Definition ca_Parse (certPEM keyPEM : string) (o : Options) : result ca_error CA :=
  let o := withDefaults o in
  _ ← opts_validate o;
  m ← parseMaterial certPEM keyPEM (AdditionalRootsPEM o);
  let '(cert, key, additional) := m in Ok (newCA o cert key additional).

Definition AdoptPEM (c : CA) (certPEM keyPEM additionalRootsPEM : string) : result ca_error CA :=
  m ← parseMaterial certPEM keyPEM additionalRootsPEM;
  let '(cert, key, additional) := m in
  Ok {| ca_opts := ca_opts c; ca_material := newMaterial cert key additional |}.

Definition ca_Certificate (c : CA) : Certificate := m_cert (ca_material c).
Definition TrustBundle (c : CA) : list Certificate := m_roots (ca_material c).
Definition BundlePEM (c : CA) : string := m_bundlePEM (ca_material c).
Definition ca_NotAfter (c : CA) : Z := NotAfter (m_cert (ca_material c)).

Fixpoint issuer_among (roots : list Certificate) (leaf : Certificate) : option Certificate :=
  match roots with
  | [] => None
  | root :: roots => if CheckSignatureFrom leaf root then Some root else issuer_among roots leaf
  end.

Definition IssuerFingerprint (c : CA) (leaf : option Certificate) : string * bool :=
  match leaf with
  | None => ("", false)
  | Some leaf => match issuer_among (TrustBundle c) leaf with
                 | Some root => (Fingerprint (Some root), true)
                 | None => ("", false)
                 end
  end.

(** * Minting roots *)

(** What a call draws from [crypto/rand]: a key and a serial in
[[1, 2^128 - 1]]; [None] is a failed read. *)
Record root_entropy := { re_key : option PrivateKey; re_serial : option Z }.

Definition mintRoot (o : Options) (now : Z) (e : root_entropy)
    : result ca_error (Certificate * PrivateKey * string * string) :=
  match re_key e with
  | None => Err (ca_other "generate ca key")
  | Some key =>
    match re_serial e with
    | None => Err (ca_other "generate serial")
    | Some serial =>
      let tmpl := {| Raw := ""; SerialNumber := serial;
                     CommonName := "prometheus-mcp-fleet ca " +:+ TrustDomain o;
                     NotBefore := Add now (- clockSkew); NotAfter := Add now (CATTL o);
                     KeyUsage := Z.lor KeyUsageCertSign KeyUsageCRLSign; ClientAuth := false; IsCA := true;
                     URIs := []; cert_PublicKey := PubECDSA (key_p256 key) (key_point key) |} in
      let der := CreateCertificate tmpl tmpl (PubECDSA (key_p256 key) (key_point key)) key in
      match ParseCertificate der with
      | None => Err (ca_other "unreachable")
      | Some cert =>
        Ok (cert, key, EncodeToMemory {| blk_Type := pemTypeCertificate; blk_Bytes := der |},
            EncodeToMemory {| blk_Type := pemTypePrivateKey; blk_Bytes := MarshalPKCS8PrivateKey key |})
      end
    end
  end.

Definition NewRootPEM (o : Options) (now : Z) (e : root_entropy) : result ca_error (string * string) :=
  let o := withDefaults o in
  _ ← opts_validate o;
  m ← mintRoot o now e;
  let '(_, _, certPEM, keyPEM) := m in Ok (certPEM, keyPEM).

(** * Issuing *)

Definition minRSABits : Z := 2048.
Definition maxRSABits : Z := 8192.

Definition checkCSRPublicKey (pub : PublicKey) : result ca_error unit :=
  match pub with
  | PubECDSA p256 _ => if p256 then Ok tt else Err ErrCSRInvalid
  | PubRSA bits => if (bits <? minRSABits) || (maxRSABits <? bits) then Err ErrCSRInvalid else Ok tt
  | PubOther => Err ErrCSRInvalid
  end.

Definition SpokeURI (c : CA) (clusterID : string) : url :=
  {| url_Scheme := "pmf"; url_Opaque := ""; url_User := false; url_Host := TrustDomain (ca_opts c);
     url_Path := "/spoke/" +:+ clusterID; url_RawQuery := ""; url_Fragment := "" |}.

Definition ca_sign (c : CA) (tmpl : Certificate) (pub : PublicKey) (ttl now : Z) (serial : option Z)
    : result ca_error (string * option Certificate) :=
  let m := ca_material c in
  if negb (Before now (NotAfter (m_cert m))) then Err ErrCAExpired
  else match serial with
  | None => Err (ca_other "generate serial")
  | Some serial =>
    let notBefore := Add now (- clockSkew) in
    let notAfter := Add now ttl in
    let notAfter := if After notAfter (NotAfter (m_cert m)) then NotAfter (m_cert m) else notAfter in
    let tmpl := {| Raw := Raw tmpl; SerialNumber := serial; CommonName := CommonName tmpl;
                   NotBefore := notBefore; NotAfter := notAfter; KeyUsage := KeyUsage tmpl;
                   ClientAuth := ClientAuth tmpl; IsCA := IsCA tmpl; URIs := URIs tmpl;
                   cert_PublicKey := cert_PublicKey tmpl |} in
    let der := CreateCertificate tmpl (m_cert m) pub (m_key m) in
    Ok (der, ParseCertificate der)
  end.

Definition spoke_template (c : CA) (clusterID : string) : Certificate :=
  {| Raw := ""; SerialNumber := 0; CommonName := "spoke:" +:+ clusterID; NotBefore := 0; NotAfter := 0;
     KeyUsage := KeyUsageDigitalSignature; ClientAuth := true; IsCA := false;
     URIs := [SpokeURI c clusterID]; cert_PublicKey := PubOther |}.

Definition IssueSpokeFromCSR (c : CA) (csrDER clusterID : string) (now : Z) (serial : option Z)
    : result ca_error (string * option Certificate) :=
  if negb (ValidClusterID clusterID) then Err ErrInvalidClusterID
  else match ParseCertificateRequest csrDER with
  | None => Err ErrCSRInvalid
  | Some csr =>
    if negb (csr_signed csr) then Err ErrCSRInvalid
    else match checkCSRPublicKey (csr_PublicKey csr) with
    | Err e => Err e
    | Ok _ =>
      match ca_sign c (spoke_template c clusterID) (csr_PublicKey csr) (SpokeCertTTL (ca_opts c)) now serial with
      | Err e => Err e
      | Ok (der, leaf) => Ok (EncodeToMemory {| blk_Type := pemTypeCertificate; blk_Bytes := der |}, leaf)
      end
    end
  end.

(** * Identity and verification *)

Definition spokePathPrefix : string := "/spoke/".

Record Identity := { id_ClusterID : string; id_CertSerial : string; id_CertNotAfter : Z }.

Definition hex_digit (n : Z) : ascii :=
  ascii_of_nat (Z.to_nat (if n <? 10 then n + 0x30 else n + 0x57)).

Fixpoint hex_digits (fuel : nat) (n : Z) (acc : string) : string :=
  match fuel with
  | O => acc
  | S fuel => let acc := String (hex_digit (n mod 16)) acc in
              if n / 16 =? 0 then acc else hex_digits fuel (n / 16) acc
  end.

(** The magnitude in base 16; [Z.log2] bounds its digits. *)
Definition SerialHex (n : Z) : string := hex_digits (S (Z.to_nat (Z.log2 (Z.abs n)))) (Z.abs n) "".

Definition CutPrefix (s p : string) : option string :=
  if HasPrefix s p then Some (str_drop (String.length p) s) else None.

Definition IdentityFromCert (c : CA) (cert : Certificate) : result ca_error Identity :=
  match URIs cert with
  | [u] =>
    if negb (String.eqb (url_Scheme u) "pmf") then Err ErrNoIdentity
    else if url_User u || negb (String.eqb (url_RawQuery u) "") || negb (String.eqb (url_Fragment u) "")
            || negb (String.eqb (url_Opaque u) "") then Err ErrNoIdentity
    else if negb (String.eqb (url_Host u) (TrustDomain (ca_opts c))) then Err ErrWrongTrustDomain
    else match CutPrefix (url_Path u) spokePathPrefix with
         | None => Err ErrNoIdentity
         | Some id =>
           if negb (ValidClusterID id) then Err ErrNoIdentity
           else Ok {| id_ClusterID := id; id_CertSerial := SerialHex (SerialNumber cert);
                      id_CertNotAfter := NotAfter cert |}
         end
  | _ => Err ErrNoIdentity
  end.

Definition VerifyChain (c : CA) (chain : list Certificate) (now : Z) : result ca_error Identity :=
  match chain with
  | [] => Err ErrUntrustedChain
  | leaf :: inter =>
    if x509_Verify leaf (TrustBundle c) inter now then IdentityFromCert c leaf else Err ErrUntrustedChain
  end.

(** The code indexes [chain[0]] after a failed [VerifyChain]: [None] is the
panic on an empty chain. *)
Definition VerifyChainAllowingExpiry (c : CA) (chain : list Certificate) (grace now now' : Z)
    : option (result ca_error (Identity * bool)) :=
  match VerifyChain c chain now with
  | Ok id => Some (Ok (id, false))
  | Err err =>
    match chain with
    | [] => None
    | leaf :: inter => Some (
      if (grace <=? 0) || negb (After now' (NotAfter leaf)) then Err err
      else if After now' (Add (NotAfter leaf) grace) then Err ErrGraceExhausted
      else if x509_Verify leaf (TrustBundle c) inter (NotAfter leaf)
           then match IdentityFromCert c leaf with Ok id => Ok (id, true) | Err e => Err e end
           else Err ErrUntrustedChain)
    end
  end.

(** * Lemmas *)

Definition cert_block (c : Certificate) : Block := {| blk_Type := pemTypeCertificate; blk_Bytes := Raw c |}.
Definition cert_pem (c : Certificate) : string := EncodeToMemory (cert_block c).

(** A certificate that was parsed and can anchor trust. *)
Record root_ok (c : Certificate) : Prop := {
  ro_parsed : ParseCertificate (Raw c) = Some c;
  ro_usable : caSigningDefect c = false
}.

Lemma pem_one b : pem_blocks (EncodeToMemory b) = [b].
Proof. rewrite <- (pem_concat [b]). cbn [foldr]. by rewrite string_app_nil_r. Qed.

Lemma concat_pem_snoc l b :
  foldr (λ b s, EncodeToMemory b +:+ s) "" (l ++ [b])%list
  = foldr (λ b s, EncodeToMemory b +:+ s) "" l +:+ EncodeToMemory b.
Proof.
  induction l as [|d l IH]; cbn [app foldr]; [by rewrite string_app_nil_r|]. by rewrite string_app_assoc, IH.
Qed.

Lemma pem_visible b : blank (EncodeToMemory b) = false.
Proof.
  destruct (blank (EncodeToMemory b)) eqn:H; [|done]. apply pem_blank in H. by rewrite pem_one in H.
Qed.

Lemma root_raw_inj c d : root_ok c → root_ok d → Raw c = Raw d → c = d.
Proof. intros [Hc _] [Hd _] H. rewrite H in Hc. congruence. Qed.

Lemma parse_roots_blocks l : Forall root_ok l → parse_roots (cert_block <$> l) = Ok l.
Proof.
  induction 1 as [|c l [Hp Hu] _ IH]; [done|]. cbn. rewrite Hp, Hu.
  by rewrite IH.
Qed.

Lemma parse_roots_ok blks l : parse_roots blks = Ok l → Forall root_ok l.
Proof.
  revert l. induction blks as [|b blks IH]; intros l; cbn; [intros; simplify_eq; constructor|].
  destruct (negb _); [done|]. destruct (ParseCertificate _) as [c|] eqn:Hp; [|done].
  destruct (caSigningDefect c) eqn:Hu; [done|]. destruct (parse_roots blks) as [r|]; intros; simplify_eq.
  constructor; [|by apply IH]. split; [|done]. by rewrite (ParseCertificate_raw _ _ Hp).
Qed.

Lemma opts_additionalRoots_ok pem l : opts_additionalRoots pem = Ok l → Forall root_ok l.
Proof.
  unfold opts_additionalRoots, ParseTrustBundlePEM. destruct (blank pem); [intros; simplify_eq; constructor|].
  destruct (parse_roots _) as [[|c r]|] eqn:H; intros; simplify_eq. by eapply parse_roots_ok.
Qed.

Lemma parseMaterial_ok certPEM keyPEM pem cert key additional :
  parseMaterial certPEM keyPEM pem = Ok (cert, key, additional) →
  parseCertificatePEM certPEM = Ok cert ∧ opts_additionalRoots pem = Ok additional ∧
  cert_PublicKey cert = PubECDSA (key_p256 key) (key_point key) ∧ Forall root_ok (cert :: additional).
Proof.
  unfold parseMaterial. cbn. destruct (parseCertificatePEM _) as [c|] eqn:Hc; [|done]. cbn.
  destruct (parsePrivateKeyPEM _) as [k|]; [|done]. cbn.
  destruct (checkCAUsable c k) as [[]|] eqn:Hu; [|done]. cbn.
  destruct (opts_additionalRoots pem) as [a|] eqn:Ha; [|done]. cbn. intros; simplify_eq.
  split_and!; [done..| |].
  - revert Hu. unfold checkCAUsable. destruct (caSigningDefect _); [done|].
    destruct (cert_PublicKey _); try done. case_bool_decide as E; [|done]. by destruct E as [-> ->].
  - constructor; [|by eapply opts_additionalRoots_ok]. split.
    + revert Hc. unfold parseCertificatePEM. destruct (pem_blocks _) as [|b [|]]; [done| |by case_match].
      case_match; [done|]. case_match eqn:Hp; [|done]. intros; simplify_eq. by rewrite (ParseCertificate_raw _ _ Hp).
    + revert Hu. unfold checkCAUsable. by destruct (caSigningDefect _).
Qed.

Lemma appendRoot_present roots txt c :
  existsb (λ have, String.eqb (Raw have) (Raw c)) roots = true → appendRoot (roots, txt) c = (roots, txt).
Proof. unfold appendRoot. cbn [fst]. by intros ->. Qed.

Lemma appendRoot_absent roots txt c :
  existsb (λ have, String.eqb (Raw have) (Raw c)) roots = false →
  appendRoot (roots, txt) c = ((roots ++ [c])%list, txt +:+ EncodeToMemory (cert_block c)).
Proof. unfold appendRoot. cbn [fst snd]. by intros ->. Qed.

(** Invariant of [newMaterial]'s loop: no root twice, and the text is the
concatenation of the roots. *)
Lemma appendRoot_loop l acc :
  Forall root_ok (acc.1 ++ l) → NoDup acc.1 →
  acc.2 = foldr (λ b s, EncodeToMemory b +:+ s) "" (cert_block <$> acc.1) →
  let r := fold_left appendRoot l acc in
  NoDup r.1 ∧ Forall root_ok r.1 ∧ (∀ c, c ∈ r.1 ↔ c ∈ acc.1 ∨ c ∈ l) ∧ acc.1 `prefix_of` r.1 ∧
  r.2 = foldr (λ b s, EncodeToMemory b +:+ s) "" (cert_block <$> r.1).
Proof.
  revert acc. induction l as [|c l IH]; intros [roots txt] Hok Hnd Htxt; cbn [fst snd] in *; cbn [fold_left].
  { rewrite app_nil_r in Hok. split_and!; [done|done| |done|done]. intros d. rewrite elem_of_nil. tauto. }
  apply Forall_app in Hok as [Hr Hcl]. inversion Hcl as [|? ? Hc Hl]; subst.
  destruct (existsb (λ have, String.eqb (Raw have) (Raw c)) roots) eqn:Hex.
  - assert (c ∈ roots) as Hin.
    { apply existsb_exists in Hex as (d & Hd & He). apply list_elem_of_In in Hd. apply String.eqb_eq in He.
      rewrite Forall_forall in Hr. by rewrite <- (root_raw_inj d c (Hr _ Hd) Hc He). }
    rewrite appendRoot_present by done.
    destruct (IH (roots, foldr (λ b s, EncodeToMemory b +:+ s) "" (cert_block <$> roots)))
      as (H1 & H2 & H3 & H4 & H5); [by apply Forall_app|done|done|]. cbn [fst snd] in *.
    split_and!; try done. intros d. rewrite H3, elem_of_cons. naive_solver.
  - assert (c ∉ roots) as Hni.
    { intros Hin. apply not_true_iff_false in Hex. apply Hex, existsb_exists. exists c.
      rewrite <- list_elem_of_In. by rewrite String.eqb_refl. }
    rewrite appendRoot_absent by done.
    destruct (IH ((roots ++ [c])%list, foldr (λ b s, EncodeToMemory b +:+ s) "" (cert_block <$> roots)
                    +:+ EncodeToMemory (cert_block c)))
      as (H1 & H2 & H3 & H4 & H5); cbn [fst snd] in *.
    + rewrite <- app_assoc. by apply Forall_app.
    + apply NoDup_app. split_and!; [done| |apply NoDup_singleton]. intros d Hd ->%list_elem_of_singleton. done.
    + rewrite fmap_app. cbn [fmap list_fmap]. by rewrite concat_pem_snoc.
    + split_and!; [done|done| | |done].
      * intros d. rewrite H3, elem_of_app, list_elem_of_singleton, elem_of_cons. tauto.
      * etrans; [|exact H4]. by apply prefix_app_r.
Qed.

Lemma newMaterial_ok cert key additional :
  Forall root_ok (cert :: additional) →
  let m := newMaterial cert key additional in
  m_cert m = cert ∧ m_key m = key ∧ head (m_roots m) = Some cert ∧ NoDup (m_roots m) ∧ Forall root_ok (m_roots m) ∧
  (∀ c, c ∈ m_roots m ↔ c = cert ∨ c ∈ additional) ∧
  m_bundlePEM m = foldr (λ b s, EncodeToMemory b +:+ s) "" (cert_block <$> m_roots m).
Proof.
  intros Hok. unfold newMaterial. destruct (fold_left _ _ _) as [roots bundle] eqn:E. cbn.
  destruct (appendRoot_loop additional ([cert], EncodeToMemory (cert_block cert))) as (H1 & H2 & H3 & H4 & H5);
    [done|apply NoDup_singleton|cbn; by rewrite string_app_nil_r|].
  cbn in E. change (EncodeToMemory _) with (EncodeToMemory (cert_block cert)) in E.
  replace ("" +:+ EncodeToMemory (cert_block cert)) with (EncodeToMemory (cert_block cert)) in E by done.
  rewrite E in H1, H2, H3, H4, H5. cbn in *. destruct H4 as [k ->].
  split_and!; try done. intros c. rewrite H3, list_elem_of_singleton. done.
Qed.

(** After an adoption, the authority trusts its signer first, then exactly
the additional roots, none twice, and the bundle it serves to spokes parses to
exactly the roots it trusts. *)
Theorem AdoptPEM_correct (c c' : CA) certPEM keyPEM rootsPEM :
  AdoptPEM c certPEM keyPEM rootsPEM = Ok c' →
  ∃ additional,
    parseCertificatePEM certPEM = Ok (ca_Certificate c') ∧
    opts_additionalRoots rootsPEM = Ok additional ∧
    head (TrustBundle c') = Some (ca_Certificate c') ∧ NoDup (TrustBundle c') ∧
    (∀ r, r ∈ TrustBundle c' ↔ r = ca_Certificate c' ∨ r ∈ additional) ∧
    ParseTrustBundlePEM (BundlePEM c') = Ok (TrustBundle c') ∧ ca_opts c' = ca_opts c.
Proof.
  unfold AdoptPEM. destruct (parseMaterial _ _ _) as [[[cert key] additional]|] eqn:H; [|done]. cbn.
  intros; simplify_eq. apply parseMaterial_ok in H as (H1 & H2 & H3 & H4).
  unfold ca_Certificate, TrustBundle, BundlePEM. cbn.
  destruct (newMaterial_ok cert key additional H4) as (-> & _ & Hh & Hnd & Hr & Hin & ->).
  exists additional. split_and!; try done.
  unfold ParseTrustBundlePEM. rewrite pem_concat, parse_roots_blocks by done. by destruct (m_roots _).
Qed.

(** ** Issued certificates *)

Record material_ok (m : caMaterial) : Prop := {
  mo_key : cert_PublicKey (m_cert m) = PubECDSA (key_p256 (m_key m)) (key_point (m_key m));
  mo_root : root_ok (m_cert m);
  mo_whole : trunc_second (NotAfter (m_cert m)) = NotAfter (m_cert m)
}.

Lemma dns_shaped_chars mid n s : dns_shaped mid n s = true → str_forall mid s = true.
Proof.
  unfold dns_shaped. destruct s as [|c s]; [done|]. destruct (last_char _); [|done].
  rewrite !andb_true_iff. naive_solver.
Qed.

Lemma SpokeURI_plain c id :
  trustDomainRE (TrustDomain (ca_opts c)) = true → ValidClusterID id = true → plain_url (SpokeURI c id).
Proof.
  intros Ht Hi. unfold plain_url. cbn. split_and!; try done.
  - eapply str_forall_impl, dns_shaped_chars, Ht. intros a. unfold alnum_char, plain_char.
    rewrite !orb_true_iff. tauto.
  - change (str_forall plain_char ("/spoke/" +:+ id) = true). rewrite str_forall_app. apply andb_true_iff. split; [done|]. eapply str_forall_impl, dns_shaped_chars, Hi. intros a. unfold alnum_char, plain_char.
    rewrite !orb_true_iff. tauto.
Qed.

Lemma IdentityFromCert_spoke c id cert :
  ValidClusterID id = true → URIs cert = [SpokeURI c id] →
  IdentityFromCert c cert
  = Ok {| id_ClusterID := id; id_CertSerial := SerialHex (SerialNumber cert); id_CertNotAfter := NotAfter cert |}.
Proof.
  intros Hi Hu. unfold IdentityFromCert. rewrite Hu. cbn [SpokeURI url_Scheme url_User url_RawQuery url_Fragment
    url_Opaque url_Host url_Path]. rewrite !String.eqb_refl. cbn [negb orb].
  unfold CutPrefix, spokePathPrefix. rewrite HasPrefix_app, (str_drop_app "/spoke/"). by rewrite Hi.
Qed.

(** What [IssueSpokeFromCSR] signs, when it succeeds. *)
Lemma IssueSpokeFromCSR_leaf c csrDER id now serial pem leaf :
  material_ok (ca_material c) → trustDomainRE (TrustDomain (ca_opts c)) = true →
  IssueSpokeFromCSR c csrDER id now serial = Ok (pem, leaf) →
  ∃ l, leaf = Some l ∧ pem = cert_pem l ∧ ParseCertificate (Raw l) = Some l ∧ ValidClusterID id = true ∧
    URIs l = [SpokeURI c id] ∧ ClientAuth l = true ∧ IsCA l = false ∧ serial = Some (SerialNumber l) ∧
    CheckSignatureFrom l (ca_Certificate c) = true ∧ now < ca_NotAfter c ∧
    NotBefore l = trunc_second (now - clockSkew) ∧
    NotAfter l = trunc_second (Z.min (now + SpokeCertTTL (ca_opts c)) (ca_NotAfter c)) ∧
    checkCSRPublicKey (cert_PublicKey l) = Ok tt ∧
    csr_PublicKey <$> ParseCertificateRequest csrDER = Some (cert_PublicKey l).
Proof.
  intros [Hk [_ Hu] _] Ht. unfold IssueSpokeFromCSR.
  destruct (ValidClusterID id) eqn:Hi; [|done]. cbn [negb].
  destruct (ParseCertificateRequest csrDER) as [csr|]; [|done].
  destruct (csr_signed csr); [|done]. cbn [negb].
  destruct (checkCSRPublicKey _) as [[]|] eqn:Hp; [|done]. unfold ca_sign.
  destruct (Before now _) eqn:Hb; [|done]. cbn [negb].
  destruct serial as [serial|]; [|done].
  set (na := if After _ _ then _ else _).
  assert (na = Z.min (now + SpokeCertTTL (ca_opts c)) (ca_NotAfter c)) as Hna.
  { unfold na, After, Add, ca_NotAfter. case_match eqn:E; [apply Z.ltb_lt in E|apply Z.ltb_ge in E]; lia. }
  set (tmpl := {| Raw := _ |}).
  assert (Forall plain_url (URIs tmpl)) as Hplain.
  { constructor; [by apply SpokeURI_plain|constructor]. }
  rewrite CreateCertificate_parses by done. intros [= <- <-].
  eexists. split; [done|]. unfold cert_pem, cert_block. cbn [Raw certified].
  rewrite CreateCertificate_parses by done. unfold Before in Hb. apply Z.ltb_lt in Hb.
  split_and!; try done; [|cbn; by rewrite Hna].
  revert Hu. unfold caSigningDefect. rewrite orb_false_iff, negb_false_iff, Z.eqb_neq. intros [Hca Hcs].
  by apply CreateCertificate_signed.
Qed.

(** When [IssueSpokeFromCSR] signs. *)
Lemma IssueSpokeFromCSR_signs c csrDER csr id now n :
  ValidClusterID id = true → ParseCertificateRequest csrDER = Some csr → csr_signed csr = true →
  checkCSRPublicKey (csr_PublicKey csr) = Ok tt → now < ca_NotAfter c →
  ∃ p, IssueSpokeFromCSR c csrDER id now (Some n) = Ok p.
Proof.
  intros Hi Hc Hs Hp Hn. unfold IssueSpokeFromCSR. rewrite Hi, Hc, Hs, Hp. cbn [negb]. unfold ca_sign.
  unfold ca_NotAfter in Hn. unfold Before. rewrite (proj2 (Z.ltb_lt _ _) Hn). cbn [negb]. eauto.
Qed.

(** What a replica that trusts the issuer makes of an issued certificate. *)
Lemma issued_window (c c' : CA) csrDER id now serial pem leaf :
  material_ok (ca_material c) → trustDomainRE (TrustDomain (ca_opts c)) = true →
  IssueSpokeFromCSR c csrDER id now serial = Ok (pem, Some leaf) →
  TrustDomain (ca_opts c') = TrustDomain (ca_opts c) → ca_Certificate c ∈ TrustBundle c' →
  Second ≤ SpokeCertTTL (ca_opts c) → NotBefore (ca_Certificate c) ≤ now →
  now < NotAfter leaf ≤ now + SpokeCertTTL (ca_opts c) ∧
  IdentityFromCert c' leaf
  = Ok {| id_ClusterID := id; id_CertSerial := SerialHex (SerialNumber leaf); id_CertNotAfter := NotAfter leaf |} ∧
  ∀ inter u, now ≤ u ≤ NotAfter leaf → x509_Verify leaf (TrustBundle c') inter u = true.
Proof.
  intros Hm Htd Hissue Htd' Hin Httl Hnb.
  destruct (IssueSpokeFromCSR_leaf _ _ _ _ _ _ _ Hm Htd Hissue)
    as (l & [= <-] & _ & _ & Hid & Hu & Hca & _ & _ & Hsig & Hlt & Hlb & Hla & _ & _).
  pose proof (trunc_second_bounds (now - clockSkew)) as B1.
  assert (now < NotAfter leaf ∧ NotAfter leaf ≤ ca_NotAfter c ∧ NotAfter leaf ≤ now + SpokeCertTTL (ca_opts c))
    as (Bn & Br & Bt).
  { rewrite Hla. pose proof (mo_whole _ Hm) as Hw. fold (ca_NotAfter c) in Hw.
    destruct (Z.min_spec (now + SpokeCertTTL (ca_opts c)) (ca_NotAfter c)) as [[? ->]|[? ->]].
    - pose proof (trunc_second_bounds (now + SpokeCertTTL (ca_opts c))). lia.
    - rewrite Hw. lia. }
  split; [done|]. split.
  { apply IdentityFromCert_spoke; [done|]. rewrite Hu. unfold SpokeURI. by rewrite Htd'. }
  intros inter u Hu'. unfold clockSkew, Minute, Second in *. unfold ca_NotAfter in *.
  eapply Verify_direct; [exact Hin|done|done|..]; unfold valid_at, Before, After, ca_Certificate in *;
    rewrite andb_true_iff, !negb_true_iff, !Z.ltb_ge; lia.
Qed.

(** An expired leaf does not verify. *)
Lemma expired_unverified leaf roots inter t : NotAfter leaf < t → x509_Verify leaf roots inter t = false.
Proof.
  intros Hlate. apply not_true_iff_false. intros [E _]%Verify_valid. unfold valid_at, After in E.
  rewrite andb_true_iff, !negb_true_iff, !Z.ltb_ge in E. lia.
Qed.

(** The clock is read once, and again when the leaf does not verify. *)
Lemma Verify_in_grace (c : CA) leaf inter ident now grace t t' :
  IdentityFromCert c leaf = Ok ident → (∀ u, now ≤ u ≤ NotAfter leaf → x509_Verify leaf (TrustBundle c) inter u = true) →
  now ≤ NotAfter leaf → now ≤ t → t ≤ t' → t' ≤ NotAfter leaf + grace →
  VerifyChainAllowingExpiry c (leaf :: inter) grace t t' = Some (Ok (ident, NotAfter leaf <? t)).
Proof.
  intros Hident Hver Hn H1 H2 H3. unfold VerifyChainAllowingExpiry, VerifyChain.
  destruct (Z.ltb_spec (NotAfter leaf) t) as [Hlate|Hlive].
  - rewrite expired_unverified, Hver by lia. rewrite Hident. unfold After, Add.
    replace (grace <=? 0) with false by (symmetry; apply Z.leb_gt; lia).
    replace (NotAfter leaf <? t') with true by (symmetry; apply Z.ltb_lt; lia). cbn [orb negb].
    by replace (NotAfter leaf + grace <? t') with false by (symmetry; apply Z.ltb_ge; lia).
  - rewrite Hver by lia. by rewrite Hident.
Qed.

(** Past the grace nothing is accepted. *)
Lemma Verify_past_grace (c : CA) leaf inter grace t t' r :
  NotAfter leaf < t → NotAfter leaf + grace < t' →
  VerifyChainAllowingExpiry c (leaf :: inter) grace t t' ≠ Some (Ok r).
Proof.
  intros H1 H2. unfold VerifyChainAllowingExpiry, VerifyChain. rewrite expired_unverified by done.
  unfold After, Add. rewrite (proj2 (Z.ltb_lt _ _) H2). by destruct (_ || _).
Qed.

(** A certificate issued for a cluster verifies as that cluster's, on every
replica of the same trust domain that trusts its issuer: as a live certificate
until its expiry, which is at most the configured lifetime away, and as an
expired one for the renewal grace after it.  This holds even when the root
itself has expired by then, since no certificate outlives its issuer. *)
Theorem issued_verifies (c c' : CA) csrDER id now serial pem leaf grace t :
  material_ok (ca_material c) → trustDomainRE (TrustDomain (ca_opts c)) = true →
  IssueSpokeFromCSR c csrDER id now serial = Ok (pem, Some leaf) →
  TrustDomain (ca_opts c') = TrustDomain (ca_opts c) → ca_Certificate c ∈ TrustBundle c' →
  Second ≤ SpokeCertTTL (ca_opts c) → NotBefore (ca_Certificate c) ≤ now → now ≤ t ≤ NotAfter leaf + grace →
  NotAfter leaf ≤ now + SpokeCertTTL (ca_opts c) ∧
  VerifyChainAllowingExpiry c' [leaf] grace t t
  = Some (Ok ({| id_ClusterID := id; id_CertSerial := SerialHex (SerialNumber leaf); id_CertNotAfter := NotAfter leaf |},
              NotAfter leaf <? t)).
Proof.
  intros Hm Htd Hissue Htd' Hin Httl Hnb Ht.
  destruct (issued_window c c' _ _ _ _ _ _ Hm Htd Hissue Htd' Hin Httl Hnb) as (Hw & Hident & Hver).
  split; [lia|]. apply (Verify_in_grace c' leaf [] _ now); auto; lia.
Qed.

End ca.

(** * An instance

Blocks are lines of hexadecimal, a certificate is the encoding of its fields
and of the key that signed it.  It shows that the interface can be met and runs
the model. *)
Module Toy.

Fixpoint pos_bits (p : positive) : string :=
  match p with xH => "" | xO p => String "0" (pos_bits p) | xI p => String "1" (pos_bits p) end.
Fixpoint bits_pos (s : string) : positive :=
  match s with
  | "" => xH
  | String c s => if Ascii.eqb c "0" then xO (bits_pos s) else xI (bits_pos s)
  end.

Lemma bits_pos_bits p : bits_pos (pos_bits p) = p.
Proof. by induction p as [p IH|p IH|]; cbn; rewrite ?IH. Qed.

Definition nib (n : nat) : ascii := ascii_of_nat (97 + n).
Definition unnib (c : ascii) : nat := nat_of_ascii c - 97.
Fixpoint hex (s : string) : string :=
  match s with
  | "" => ""
  | String c s => String (nib (nat_of_ascii c / 16)) (String (nib (nat_of_ascii c mod 16)) (hex s))
  end.
Fixpoint unhex (s : string) : string :=
  match s with
  | String a (String b s) => String (ascii_of_nat (16 * unnib a + unnib b)) (unhex s)
  | _ => ""
  end.

Lemma unhex_hex s : unhex (hex s) = s.
Proof.
  induction s as [|c s IH]; [done|]. cbn. f_equal; [|done].
  destruct c as [[] [] [] [] [] [] [] []]; reflexivity.
Qed.

(** The text up to a separator, and what follows it. *)
Fixpoint split_at (sep : ascii) (s : string) : option (string * string) :=
  match s with
  | "" => None
  | String c s => if Ascii.eqb c sep then Some ("", s)
                  else match split_at sep s with Some (a, b) => Some (String c a, b) | None => None end
  end.

Definition hexish (c : ascii) : bool := (97 <=? nat_of_ascii c)%nat.

Lemma hex_hexish s : str_exists (λ c, negb (hexish c)) (hex s) = false.
Proof.
  induction s as [|c s IH]; [done|]. cbn [hex str_exists]. rewrite IH.
  destruct c as [[] [] [] [] [] [] [] []]; reflexivity.
Qed.

Lemma split_at_app sep a b :
  hexish sep = false → str_exists (λ c, negb (hexish c)) a = false → split_at sep (a +:+ String sep b) = Some (a, b).
Proof.
  intros Hsep. induction a as [|c a IH]; cbn [String.append split_at str_exists]; [by rewrite Ascii.eqb_refl|].
  rewrite orb_false_iff, negb_false_iff. intros [Hc Ha]. destruct (Ascii.eqb_spec c sep) as [->|]; [congruence|].
  by rewrite IH.
Qed.

Definition Encode (b : Block) : string :=
  "-" +:+ hex (blk_Type b) +:+ ":" +:+ hex (blk_Bytes b) +:+ "-" +:+ newline.

Fixpoint blocks (fuel : nat) (s : string) : list Block :=
  match fuel, s with
  | S fuel, String "-" s =>
    match split_at ":" s with
    | Some (ty, s) =>
      match split_at "-" s with
      | Some (bytes, String _ s) => {| blk_Type := unhex ty; blk_Bytes := unhex bytes |} :: blocks fuel s
      | _ => []
      end
    | None => []
    end
  | _, _ => []
  end.

Lemma blocks_concat l fuel :
  (length l ≤ fuel)%nat → blocks fuel (foldr (λ b s, Encode b +:+ s) "" l) = l.
Proof.
  revert fuel. induction l as [|[ty by_] l IH]; intros [|fuel] Hf; cbn in Hf; try done; [lia|].
  cbn [foldr]. unfold Encode at 1. cbn [blk_Type blk_Bytes]. rewrite !string_app_assoc. cbn [String.append].
  cbn [blocks]. rewrite split_at_app by (done || apply hex_hexish).
  rewrite split_at_app by (done || apply hex_hexish). cbn. rewrite !unhex_hex. f_equal. apply IH. lia.
Qed.

Definition pem_blocks (s : string) : list Block := blocks (String.length s) s.

Lemma pem_concat l : pem_blocks (foldr (λ b s, Encode b +:+ s) "" l) = l.
Proof.
  apply blocks_concat. induction l as [|b l IH]; cbn [length foldr]; [lia|]. rewrite string_length_app.
  assert (1 ≤ String.length (Encode b))%nat by (cbn; lia). lia.
Qed.

Definition url_tuple (u : url) : list string * bool :=
  ([url_Scheme u; url_Opaque u; url_Host u; url_Path u; url_RawQuery u; url_Fragment u], url_User u).
Definition url_of (t : list string * bool) : url :=
  match t with
  | ([a; b; c; d; e; f], g) => {| url_Scheme := a; url_Opaque := b; url_User := g; url_Host := c; url_Path := d;
                                  url_RawQuery := e; url_Fragment := f |}
  | _ => {| url_Scheme := ""; url_Opaque := ""; url_User := false; url_Host := ""; url_Path := "";
            url_RawQuery := ""; url_Fragment := "" |}
  end.
Lemma url_of_tuple u : url_of (url_tuple u) = u.
Proof. by destruct u. Qed.
Instance url_countable : Countable url := inj_countable' url_tuple url_of url_of_tuple.

Definition pub_sum (p : PublicKey) : (bool * string) + (Z + unit) :=
  match p with PubECDSA b s => inl (b, s) | PubRSA z => inr (inl z) | PubOther => inr (inr tt) end.
Definition pub_of (p : (bool * string) + (Z + unit)) : PublicKey :=
  match p with inl (b, s) => PubECDSA b s | inr (inl z) => PubRSA z | inr (inr _) => PubOther end.
Lemma pub_of_sum p : pub_of (pub_sum p) = p.
Proof. by destruct p. Qed.
Instance pub_countable : Countable PublicKey := inj_countable' pub_sum pub_of pub_of_sum.

Definition fields (c : Certificate) (signer : string) : list positive :=
  [encode (SerialNumber c); encode (CommonName c); encode (NotBefore c); encode (NotAfter c); encode (KeyUsage c);
   encode (ClientAuth c); encode (IsCA c); encode (URIs c); encode (cert_PublicKey c); encode signer].

Definition der (c : Certificate) (signer : string) : string := pos_bits (encode (fields c signer)).

Definition undo (s : string) : option (Certificate * string) :=
  l ← decode (A := list positive) (bits_pos s);
  match l with
  | [a; b; c; d; e; f; g; h; i; j] =>
    sn ← decode a; cn ← decode b; nb ← decode c; na ← decode d; ku ← decode e; eku ← decode f; isca ← decode g;
    us ← decode h; pub ← decode i; signer ← decode j;
    Some ({| Raw := s; SerialNumber := sn; CommonName := cn; NotBefore := nb; NotAfter := na; KeyUsage := ku;
             ClientAuth := eku; IsCA := isca; URIs := us; cert_PublicKey := pub |}, signer)
  | _ => None
  end.

Lemma undo_der c signer :
  undo (der c signer)
  = Some ({| Raw := der c signer; SerialNumber := SerialNumber c; CommonName := CommonName c;
             NotBefore := NotBefore c; NotAfter := NotAfter c; KeyUsage := KeyUsage c;
             ClientAuth := ClientAuth c; IsCA := IsCA c; URIs := URIs c; cert_PublicKey := cert_PublicKey c |}, signer).
Proof.
  unfold undo. replace (bits_pos (der c signer)) with (encode (fields c signer)) by (symmetry; apply bits_pos_bits).
  rewrite decode_encode. unfold fields. cbn. by rewrite !decode_encode.
Qed.

Lemma undo_raw s c signer : undo s = Some (c, signer) → Raw c = s.
Proof.
  unfold undo. destruct (decode (bits_pos s)) as [l|]; [|done]. cbn.
  do 10 (destruct l as [|? l]; [done|]). destruct l; [|done]. by intros H; simplify_option_eq.
Qed.

Definition Create (tmpl parent : Certificate) (pub : PublicKey) (key : PrivateKey) : string :=
  der (certified tmpl pub "") (key_point key).

Definition signed_by (leaf root : Certificate) : bool :=
  match undo (Raw leaf), cert_PublicKey root with
  | Some (_, signer), PubECDSA _ pt => String.eqb signer pt
  | _, _ => false
  end.

Definition MarshalKey (k : PrivateKey) : string := String (if key_p256 k then "1" else "0") (key_point k).
Definition ParseKey (s : string) : option (option PrivateKey) :=
  match s with String c s => Some (Some {| key_p256 := Ascii.eqb c "1"; key_point := s |}) | "" => None end.

End Toy.

#[local] Obligation Tactic := idtac.
#[export] Program Instance toy_x509 : X509 := {
  pem_blocks := Toy.pem_blocks;
  EncodeToMemory := Toy.Encode;
  ParseCertificate s := fst <$> Toy.undo s;
  ParsePKCS8PrivateKey := Toy.ParseKey;
  ParseECPrivateKey _ := None;
  MarshalPKCS8PrivateKey := Toy.MarshalKey;
  ParseCertificateRequest s := Some {| csr_PublicKey := PubECDSA true s; csr_signed := true |};
  CreateCertificate := Toy.Create;
  CheckSignatureFrom := Toy.signed_by;
  x509_Verify leaf roots _ t :=
    ClientAuth leaf && valid_at leaf t && existsb (λ r, Toy.signed_by leaf r && valid_at r t) roots;
  sha256_hex s := s
}.
Next Obligation. exact Toy.pem_concat. Qed.
Next Obligation.
  intros b. exists ("-" +:+ Toy.hex (blk_Type b) +:+ ":" +:+ Toy.hex (blk_Bytes b)), "-"%char.
  split; [|done]. unfold Toy.Encode. by rewrite !string_app_assoc.
Qed.
Next Obligation.
  intros s Hb. unfold Toy.pem_blocks. destruct s as [|c s]; [done|]. cbn [String.length].
  destruct (Ascii.eqb_spec c "-") as [->|Hc]; [done|]. cbn [Toy.blocks].
  destruct c as [[] [] [] [] [] [] [] []]; try reflexivity. by destruct Hc.
Qed.
Next Obligation.
  intros s c H. apply fmap_Some in H as ([d signer] & H & ->). by eapply Toy.undo_raw.
Qed.
Next Obligation. intros [[] pt]; cbn; [done|discriminate]. Qed.
Next Obligation. intros. unfold Toy.Create. by rewrite Toy.undo_der. Qed.
Next Obligation.
  intros tmpl parent pub key _ Hpub _ _. unfold Toy.signed_by, certified, Toy.Create. cbn [Raw].
  rewrite Toy.undo_der, Hpub. apply String.eqb_refl.
Qed.
Next Obligation.
  intros leaf roots inter t root Hin Hs H1 H2 Hv. cbv beta. rewrite H1, H2. cbn [andb]. apply existsb_exists. exists root.
  rewrite <- list_elem_of_In. by rewrite Hs, Hv.
Qed.
Next Obligation. intros leaf roots inter t. cbv beta. rewrite !andb_true_iff. naive_solver. Qed.

(** A root minted with a key and a serial, and the authority it makes. *)
Definition toy_root (key : string) (serial now : Z) : result ca_error (string * string) :=
  NewRootPEM {| TrustDomain := "f"; SpokeCertTTL := 0; CATTL := 0; AdditionalRootsPEM := "" |} now
    {| re_key := Some {| key_p256 := true; key_point := key |}; re_serial := Some serial |}.

Definition toy_ca (key : string) (serial now : Z) (extra : string) : result ca_error CA :=
  p ← toy_root key serial now;
  ca_Parse p.1 p.2 {| TrustDomain := "f"; SpokeCertTTL := 0; CATTL := 0; AdditionalRootsPEM := extra |}.

Definition ok_or {E A} (d : A) (r : result E A) : A := match r with Ok a => a | Err _ => d end.

Definition no_cert : Certificate :=
  {| Raw := ""; SerialNumber := 0; CommonName := ""; NotBefore := 0; NotAfter := 0; KeyUsage := 0;
     ClientAuth := false; IsCA := false; URIs := []; cert_PublicKey := PubOther |}.
Definition no_ca : CA :=
  {| ca_opts := {| TrustDomain := ""; SpokeCertTTL := 0; CATTL := 0; AdditionalRootsPEM := "" |};
     ca_material := {| m_cert := no_cert; m_key := {| key_p256 := false; key_point := "" |}; m_roots := [];
                       m_bundlePEM := "" |} |}.

(** An authority, its successor's root, and the authority once it has adopted the
successor beside its own root. *)
Definition toy_now : Z := 63900000000 * Second.
Definition toy_old : CA := ok_or no_ca (toy_ca "a" 1 toy_now "").
Definition toy_old_pem : string := fst (ok_or ("", "") (toy_root "a" 1 toy_now)).
Definition toy_next : string * string := ok_or ("", "") (toy_root "b" 2 toy_now).
Definition toy_new : CA := ok_or no_ca (AdoptPEM toy_old toy_next.1 toy_next.2 toy_old_pem).

Lemma AdoptPEM_correct_witness :
  length (TrustBundle toy_new) = 2%nat ∧ ParseTrustBundlePEM (BundlePEM toy_new) = Ok (TrustBundle toy_new).
Proof.
  split; [vm_compute; reflexivity|].
  destruct (AdoptPEM_correct toy_old toy_new toy_next.1 toy_next.2 toy_old_pem) as (a & _ & _ & _ & _ & _ & H & _);
    [vm_compute; reflexivity|exact H].
Defined.

Definition toy_leaf : option Certificate :=
  match IssueSpokeFromCSR toy_old "k" "c1" toy_now (Some 7) with Ok (_, l) => l | Err _ => None end.

Lemma toy_old_ok : material_ok (ca_material toy_old).
Proof. split; [vm_compute; reflexivity|split; vm_compute; reflexivity|vm_compute; reflexivity]. Qed.

(** The successor's authority accepts the old root's certificate twenty days later,
six days after it expired. *)
Lemma issued_verifies_witness :
  ∃ leaf, toy_leaf = Some leaf ∧
    VerifyChainAllowingExpiry toy_new [leaf] (7 * 24 * Hour) (toy_now + 20 * 24 * Hour) (toy_now + 20 * 24 * Hour)
    = Some (Ok ({| id_ClusterID := "c1"; id_CertSerial := "7"; id_CertNotAfter := NotAfter leaf |}, true)).
Proof.
  exists (default no_cert toy_leaf). split; [vm_compute; reflexivity|].
  destruct (issued_verifies toy_old toy_new "k" "c1" toy_now (Some 7)
              (match IssueSpokeFromCSR toy_old "k" "c1" toy_now (Some 7) with Ok (p, _) => p | Err _ => "" end)
              (default no_cert toy_leaf) (7 * 24 * Hour) (toy_now + 20 * 24 * Hour)) as [_ H].
  - exact toy_old_ok.
  - vm_compute; reflexivity.
  - vm_compute; reflexivity.
  - vm_compute; reflexivity.
  - apply (bool_decide_unpack _). vm_compute. exact I.
  - vm_compute. discriminate.
  - vm_compute. discriminate.
  - split; vm_compute; discriminate.
  - rewrite H. vm_compute. reflexivity.
Defined.
