(* ===== verification/CaRotation.v ===== *)
(** Rotation of the fleet's root: [src/internal/hub/carotation.go], the issuer
tracker of [caissuers.go], and the part of [bootstrap.go] that reads the CA
Secret at startup.

Every replica runs a controller that polls one Secret, adopts what it says and
may advance it with a conditional update.  The first half translates one poll;
the second half is the fleet: any number of replicas, each poll in its separate
steps (read, adopt, decide, write), their writes interleaved on the Secret,
answers lost, replicas joining and leaving, certificates issued throughout.
Reasons and metrics are only logged and exported; a plan keeps which reason
applied.  RFC 3339 texts are the interface [Rfc3339]. *)

From S2P Require Import Prelude GoFloat Text Ca.
From Stdlib Require Import Floats.PrimFloat.
Open Scope string_scope.
Open Scope Z_scope.

(** [time.Format(time.RFC3339)] in UTC, and [time.Parse].  The years 1 to 9999
are printed so that they parse back, to the second. *)
Definition four_digit_year (t : Z) : bool := (0 <=? t) && (t <? 3652059 * 24 * Hour).
Class Rfc3339 := {
  format_rfc3339 : Z → string;
  parse_rfc3339 : string → option Z;
  parse_format_rfc3339 : ∀ t, four_digit_year t = true → parse_rfc3339 (format_rfc3339 t) = Some (trunc_second t);
  format_rfc3339_nonempty : ∀ t, format_rfc3339 t ≠ "";
  parse_rfc3339_empty : parse_rfc3339 "" = None
}.

(** * The Secret *)

Definition secretKeyCACert : string := "ca.crt".
Definition secretKeyCAKey : string := "ca.key".
Definition secretKeyCANextCert : string := "ca-next.crt".
Definition secretKeyCANextKey : string := "ca-next.key".
Definition secretKeyCAPrevCert : string := "ca-previous.crt".
Definition secretKeyRotationPhase : string := "ca-rotation.phase".
Definition secretKeyRotationSince : string := "ca-rotation.since".
Definition secretKeyRotationHoldout : string := "ca-rotation.last-holdout".
Definition secretKeyRotationRetireAfter : string := "ca-rotation.retire-after".
Definition annotationRotateNow : string := "promfleet.io/rotate-now".
Definition annotationRotateAccepted : string := "promfleet.io/rotate-accepted".

(** [kube.Secret]; the opaque resource version is a counter. *)
Record CaSecret := {
  sec_Data : gmap string string;
  sec_Annotations : gmap string string;
  sec_Version : Z
}.

Definition nonempty (s : string) : bool := negb (String.eqb s "").

(** * The state of a rotation *)

Inductive caPhase := caPhaseSteady | caPhasePublishing | caPhaseSigning.

#[export] Instance caPhase_eq_dec : EqDecision caPhase.
Proof. solve_decision. Defined.

Definition caPhase_string (p : caPhase) : string :=
  match p with caPhaseSteady => "steady" | caPhasePublishing => "publishing" | caPhaseSigning => "signing" end.

Definition caPhases : list caPhase := [caPhaseSteady; caPhasePublishing; caPhaseSigning].

Record caRotationState := {
  rs_rawPhase : string;
  rs_phase : caPhase;
  rs_phaseKnown : bool;
  rs_since : Z;
  rs_sinceOK : bool;
  rs_certPEM : string;
  rs_keyPEM : string;
  rs_nextCertPEM : string;
  rs_nextKeyPEM : string;
  rs_prevCertPEM : string;
  rs_lastHoldout : Z;
  rs_hasHoldout : bool;
  rs_retireAfter : Z;
  rs_hasRetireAfter : bool;
  rs_force : string
}.

(** TrimRight(s, newline). *)
Fixpoint TrimRight_newline (s : string) : string :=
  match s with
  | "" => ""
  | String c s => match TrimRight_newline s with
                  | "" => if Ascii.eqb c "010" then "" else String c ""
                  | s => String c s
                  end
  end.

Definition joinRootsPEM (a b : string) : string :=
  if blank a then b
  else if blank b then a
  else TrimRight_newline a +:+ newline +:+ b.

Section rotation.
Context `{X : X509} `{R : Rfc3339}.

Definition readCARotation (sec : CaSecret) : caRotationState :=
  let data := map_get (sec_Data sec) in
  let rawPhase := data secretKeyRotationPhase in
  let known := find (λ p, String.eqb (caPhase_string p) rawPhase) caPhases in
  let since := parse_rfc3339 (data secretKeyRotationSince) in
  let holdout := data secretKeyRotationHoldout in
  let retireAfter := data secretKeyRotationRetireAfter in
  {| rs_rawPhase := rawPhase;
     rs_phase := default caPhaseSteady known;
     rs_phaseKnown := bool_decide (is_Some known);
     rs_since := default 0 since;
     rs_sinceOK := bool_decide (is_Some since);
     rs_certPEM := data secretKeyCACert;
     rs_keyPEM := data secretKeyCAKey;
     rs_nextCertPEM := data secretKeyCANextCert;
     rs_nextKeyPEM := data secretKeyCANextKey;
     rs_prevCertPEM := data secretKeyCAPrevCert;
     rs_lastHoldout := default 0 (parse_rfc3339 holdout);
     rs_hasHoldout := nonempty holdout;
     rs_retireAfter := default 0 (parse_rfc3339 retireAfter);
     rs_hasRetireAfter := nonempty retireAfter;
     rs_force := map_get (sec_Annotations sec) annotationRotateNow |}.

(** A recorded phase this build does not know. *)
Definition phase_unknown (st : caRotationState) : bool := nonempty (rs_rawPhase st) && negb (rs_phaseKnown st).

Definition additionalRoots (st : caRotationState) (base : string) : string :=
  if phase_unknown st
  then joinRootsPEM (joinRootsPEM base (rs_nextCertPEM st)) (rs_prevCertPEM st)
  else joinRootsPEM base (match rs_phase st with
                          | caPhasePublishing => rs_nextCertPEM st
                          | caPhaseSigning => rs_prevCertPEM st
                          | caPhaseSteady => ""
                          end).

(** * The controller *)

(** What the controller reads of [config.Hub]. *)
Record rot_config := {
  cfg_TrustDomain : string;
  cfg_SpokeCertTTL : Z;
  cfg_RenewGrace : Z;
  cfg_PollInterval : Z;
  cfg_RemainingFraction : float
}.

Definition CARotationRunway (c : rot_config) : Z :=
  wrap_int64 (wrap_int64 (wrap_int64 (2 * cfg_SpokeCertTTL c) + cfg_RenewGrace c) + wrap_int64 (4 * cfg_PollInterval c)).

Record caRotator := {
  rt_cfg : rot_config;
  rt_base : string;
  rt_authority : CA;
  rt_startedAt : Z;
  rt_appliedCert : string;
  rt_appliedRoots : string
}.

Definition sync (r : caRotator) (st : caRotationState) : result ca_error caRotator :=
  let certPEM := rs_certPEM st in
  let rootsPEM := additionalRoots st (rt_base r) in
  if negb (String.eqb certPEM (rt_appliedCert r)) || negb (String.eqb rootsPEM (rt_appliedRoots r))
  then match AdoptPEM (rt_authority r) certPEM (rs_keyPEM st) rootsPEM with
       | Err e => Err e
       | Ok authority => Ok {| rt_cfg := rt_cfg r; rt_base := rt_base r; rt_authority := authority;
                               rt_startedAt := rt_startedAt r; rt_appliedCert := certPEM;
                               rt_appliedRoots := rootsPEM |}
       end
  else Ok r.

Definition parseOneCertificate (pem : string) : result ca_error Certificate :=
  match ParseTrustBundlePEM pem with
  | Ok (c :: _) => Ok c
  | Ok [] => Err ErrInvalidCA
  | Err e => Err e
  end.

Definition outgoingFingerprint (st : caRotationState) : string :=
  match rs_phase st with
  | caPhaseSigning => match parseOneCertificate (rs_prevCertPEM st) with
                      | Ok cert => Fingerprint (Some cert)
                      | Err _ => ""
                      end
  | _ => ""
  end.

Inductive plan_reason :=
| already_in_progress | discarding_stray | forced | below_threshold | no_successor | published_long_enough
| signer_expired | outgoing_gone | holdouts_seen (n : Z) | retired | restarting_clock.

Record caRotationPlan := {
  pl_to : caPhase;
  pl_reason : plan_reason;
  pl_keepSince : bool;
  pl_set : list (string * string);
  pl_del : list string;
  pl_consumeForce : bool
}.

(** The keys present, in the order [slices.Sort] gives them. *)
Definition strayRotationKeys (st : caRotationState) : list string :=
  fst <$> filter (λ kp, kp.2 = true)
    [ (secretKeyCANextCert, nonempty (rs_nextCertPEM st));
      (secretKeyCANextKey, nonempty (rs_nextKeyPEM st));
      (secretKeyCAPrevCert, nonempty (rs_prevCertPEM st));
      (secretKeyRotationHoldout, rs_hasHoldout st);
      (secretKeyRotationRetireAfter, rs_hasRetireAfter st) ].

Definition rotationDue (r : caRotator) (st : caRotationState) (now : Z) : option plan_reason :=
  if nonempty (rs_force st) then Some forced
  else
    let cert := ca_Certificate (rt_authority r) in
    let remaining := Sub (NotAfter cert) now in
    let total := Sub (NotAfter cert) (NotBefore cert) in
    let threshold := trunc_float (float64_of total * cfg_RemainingFraction (rt_cfg r)) in
    let runway := CARotationRunway (rt_cfg r) in
    let threshold := if threshold <? runway then runway else threshold in
    if threshold <? remaining then None else Some below_threshold.

(** [e] is what [ca.NewRootPEM] draws, and [now'] when it reads the clock. *)
Definition planSteady (r : caRotator) (st : caRotationState) (now now' : Z) (e : root_entropy)
    : result ca_error (option caRotationPlan) :=
  match strayRotationKeys st with
  | (_ :: _) as stray =>
    Ok (Some {| pl_to := caPhaseSteady; pl_reason := discarding_stray; pl_keepSince := true; pl_set := [];
                pl_del := stray; pl_consumeForce := false |})
  | [] =>
    match rotationDue r st now with
    | None => Ok None
    | Some reason =>
      match NewRootPEM {| TrustDomain := cfg_TrustDomain (rt_cfg r); SpokeCertTTL := 0; CATTL := 0;
                          AdditionalRootsPEM := "" |} now' e with
      | Err err => Err err
      | Ok (certPEM, keyPEM) =>
        Ok (Some {| pl_to := caPhasePublishing; pl_reason := reason; pl_keepSince := false;
                    pl_set := [(secretKeyCANextCert, certPEM); (secretKeyCANextKey, keyPEM)]; pl_del := [];
                    pl_consumeForce := nonempty (rs_force st) |})
      end
    end
  end.

Definition rotationScratchKeys : list string :=
  [secretKeyCANextCert; secretKeyCANextKey; secretKeyRotationHoldout; secretKeyRotationRetireAfter].

Definition retirementHold (c : rot_config) : Z :=
  wrap_int64 (wrap_int64 (cfg_SpokeCertTTL c + cfg_RenewGrace c) + wrap_int64 (2 * cfg_PollInterval c)).

Definition holdoutQuiet (c : rot_config) : Z := wrap_int64 (2 * cfg_PollInterval c).

Definition repairSince (st : caRotationState) : option caRotationPlan :=
  if rs_sinceOK st then None
  else Some {| pl_to := rs_phase st; pl_reason := restarting_clock; pl_keepSince := false; pl_set := []; pl_del := [];
               pl_consumeForce := false |}.

Definition planPublishing (r : caRotator) (st : caRotationState) (now : Z) : option caRotationPlan :=
  if negb (nonempty (rs_nextCertPEM st)) || negb (nonempty (rs_nextKeyPEM st)) then
    Some {| pl_to := caPhaseSteady; pl_reason := no_successor; pl_keepSince := false; pl_set := [];
            pl_del := rotationScratchKeys; pl_consumeForce := false |}
  else match repairSince st with
  | Some plan => Some plan
  | None =>
    let promote reason :=
      Some {| pl_to := caPhaseSigning; pl_reason := reason; pl_keepSince := false;
              pl_set := [ (secretKeyCACert, rs_nextCertPEM st); (secretKeyCAKey, rs_nextKeyPEM st);
                          (secretKeyCAPrevCert, rs_certPEM st);
                          (secretKeyRotationRetireAfter, format_rfc3339 (Add now (retirementHold (rt_cfg r)))) ];
              pl_del := [secretKeyCANextCert; secretKeyCANextKey; secretKeyRotationHoldout];
              pl_consumeForce := false |} in
    if Sub now (rs_since st) <? cfg_SpokeCertTTL (rt_cfg r) then
      if Before now (ca_NotAfter (rt_authority r)) then None else promote signer_expired
    else promote published_long_enough
  end.

Definition planSigning (r : caRotator) (st : caRotationState) (now : Z) (holdoutsOn : string → Z)
    : option caRotationPlan :=
  if negb (nonempty (rs_prevCertPEM st)) then
    Some {| pl_to := caPhaseSteady; pl_reason := outgoing_gone; pl_keepSince := false; pl_set := [];
            pl_del := rotationScratchKeys; pl_consumeForce := false |}
  else match repairSince st with
  | Some plan => Some plan
  | None =>
    let gate := Add (rs_since st) (retirementHold (rt_cfg r)) in
    let gate := if After (rs_retireAfter st) gate then rs_retireAfter st else gate in
    if Before now gate then None
    else if Sub now (rt_startedAt r) <? holdoutQuiet (rt_cfg r) then None
    else
      let n := holdoutsOn (outgoingFingerprint st) in
      if 0 <? n then
        if Sub now (rs_lastHoldout st) <? cfg_PollInterval (rt_cfg r) then None
        else Some {| pl_to := caPhaseSigning; pl_reason := holdouts_seen n; pl_keepSince := true;
                     pl_set := [(secretKeyRotationHoldout, format_rfc3339 now)]; pl_del := [];
                     pl_consumeForce := false |}
      else if negb (IsZero (rs_lastHoldout st)) && (Sub now (rs_lastHoldout st) <? holdoutQuiet (rt_cfg r)) then None
      else Some {| pl_to := caPhaseSteady; pl_reason := retired; pl_keepSince := false; pl_set := [];
                   pl_del := [secretKeyCAPrevCert; secretKeyRotationHoldout; secretKeyRotationRetireAfter];
                   pl_consumeForce := false |}
  end.

Definition plan (r : caRotator) (st : caRotationState) (now now' : Z) (e : root_entropy) (holdoutsOn : string → Z)
    : result ca_error (option caRotationPlan) :=
  if phase_unknown st then Ok None
  else if nonempty (rs_force st) && negb (bool_decide (rs_phase st = caPhaseSteady)) then
    Ok (Some {| pl_to := rs_phase st; pl_reason := already_in_progress; pl_keepSince := true; pl_set := [];
                pl_del := []; pl_consumeForce := true |})
  else match rs_phase st with
       | caPhaseSteady => planSteady r st now now' e
       | caPhasePublishing => Ok (planPublishing r st now)
       | caPhaseSigning => Ok (planSigning r st now holdoutsOn)
       end.

(** The Secret [advance] sends for a plan. *)
Definition apply_plan (p : caRotationPlan) (sec : CaSecret) (now : Z) : CaSecret :=
  let data := <[secretKeyRotationPhase := caPhase_string (pl_to p)]> (sec_Data sec) in
  let data := if pl_keepSince p then data else <[secretKeyRotationSince := format_rfc3339 now]> data in
  let data := fold_left (λ data kv, <[kv.1 := kv.2]> data) (pl_set p) data in
  let data := fold_left (λ data k, delete k data) (pl_del p) data in
  {| sec_Data := data;
     sec_Annotations :=
       if pl_consumeForce p
       then <[annotationRotateAccepted := format_rfc3339 now]> (delete annotationRotateNow (sec_Annotations sec))
       else sec_Annotations sec;
     sec_Version := sec_Version sec |}.

(** What became of [UpdateSecret]: the stored object, a conflict, or an error. *)
Inductive update_answer := Updated (sec : CaSecret) | Conflict | UpdateFailed.

Definition advance (r : caRotator) (sec : CaSecret) (st : caRotationState) (now now' now'' : Z) (e : root_entropy)
    (holdoutsOn : string → Z) (update : CaSecret → update_answer) : result ca_error (option caRotationState) :=
  match plan r st now now' e holdoutsOn with
  | Err err => Err err
  | Ok None => Ok None
  | Ok (Some p) =>
    match update (apply_plan p sec now'') with
    | Conflict => Ok None
    | UpdateFailed => Err (ca_other "record CA rotation phase")
    | Updated sec' => Ok (Some (readCARotation sec'))
    end
  end.

(** One poll: [get] is the answer of [GetSecret].  The rotator is returned even
when the poll fails: it keeps what it had adopted. *)
Definition rot_step (r : caRotator) (get : option CaSecret) (now now' now'' : Z) (e : root_entropy)
    (holdoutsOn : string → Z) (update : CaSecret → update_answer) : caRotator * option ca_error :=
  match get with
  | None => (r, Some (ca_other "read the CA secret"))
  | Some sec =>
    let st := readCARotation sec in
    match sync r st with
    | Err e => (r, Some e)
    | Ok r =>
      match advance r sec st now now' now'' e holdoutsOn update with
      | Err e => (r, Some e)
      | Ok None => (r, None)
      | Ok (Some advanced) => match sync r advanced with Err e => (r, Some e) | Ok r => (r, None) end
      end
    end
  end.

(** What a starting hub trusts: [bootstrapper.load] and [prepare] of a Secret
that holds the CA. *)
Definition startup (c : rot_config) (base : string) (sec : CaSecret) : result ca_error CA :=
  let roots := joinRootsPEM base (additionalRoots (readCARotation sec) "") in
  ca_Parse (map_get (sec_Data sec) secretKeyCACert) (map_get (sec_Data sec) secretKeyCAKey)
    {| TrustDomain := cfg_TrustDomain c; SpokeCertTTL := cfg_SpokeCertTTL c; CATTL := 0; AdditionalRootsPEM := roots |}.

Definition new_rotator (c : rot_config) (base : string) (authority : CA) (now : Z) : caRotator :=
  {| rt_cfg := c; rt_base := base; rt_authority := authority; rt_startedAt := now; rt_appliedCert := "";
     rt_appliedRoots := "" |}.

(** [filepath.Join] is an argument. *)
Definition selfManagedCAPaths (Join : string → string → string) (CACertFile CAKeyFile DataDir : string) : bool :=
  String.eqb CACertFile (Join DataDir "ca.crt") && String.eqb CAKeyFile (Join DataDir "ca.key").

Inductive no_rotator := rotation_disabled | no_compare_and_swap | ca_supplied | no_issuer_tracker.

Definition newCARotator (CARotationEnabled has_kube self_managed has_issuers : bool) (c : rot_config) (base : string)
    (authority : CA) (now : Z) : caRotator + no_rotator :=
  if negb CARotationEnabled then inr rotation_disabled
  else if negb has_kube then inr no_compare_and_swap
  else if negb self_managed then inr ca_supplied
  else if negb has_issuers then inr no_issuer_tracker
  else inl (new_rotator c base authority now).

(** * The issuer tracker *)

Record issuerSighting := { is_fingerprint : string; is_at : Z }.

Definition caIssuerTracker : Type := gmap string issuerSighting.

Definition sightingGrace : Z := 2 * Minute.

Definition tracker_Verify (authority : CA) (chain : list Certificate) (now now' : Z) (t : caIssuerTracker)
    : result ca_error Identity * caIssuerTracker :=
  match VerifyChain authority chain now with
  | Err e => (Err e, t)
  | Ok id =>
    (Ok id,
     match chain with
     | [] => t
     | leaf :: _ =>
       let '(fp, ok) := IssuerFingerprint authority (Some leaf) in
       if ok then <[SerialHex (SerialNumber leaf) := {| is_fingerprint := fp; is_at := now' |}]> t else t
     end)
  end.

(** [entries] is the order in which the map is visited. *)
Definition holdoutsOn (live : string → bool) (now : Z) (fingerprint : string)
    (entries : list (string * issuerSighting)) (t : caIssuerTracker) : Z * caIssuerTracker :=
  fold_left (λ acc e,
    if negb (live e.1)
    then (acc.1, if sightingGrace <? Sub now (is_at e.2) then delete e.1 acc.2 else acc.2)
    else (if String.eqb (is_fingerprint e.2) fingerprint then acc.1 + 1 else acc.1, acc.2))
    entries (0, t).

(** * Lemmas on adopting *)

(** Appending a block to the operator's bundle adds that block. *)
Definition appendable (base : string) : Prop :=
  ∀ b, ∃ l, pem_blocks (joinRootsPEM base (EncodeToMemory b)) = (l ++ [b])%list.

Lemma appendable_empty : appendable "".
Proof. intros b. exists []. unfold joinRootsPEM. cbn. by rewrite pem_one. Qed.

Lemma TrimRight_line s c : c ≠ "010"%char → TrimRight_newline (s +:+ String c newline) = s +:+ String c "".
Proof.
  intros Hc. induction s as [|d s IH].
  - cbn. by rewrite (proj2 (Ascii.eqb_neq c "010") Hc).
  - cbn [String.append TrimRight_newline]. rewrite IH. by destruct s.
Qed.

Lemma concat_pem_line l b :
  ∃ s c, foldr (λ b s, EncodeToMemory b +:+ s) "" (l ++ [b])%list = s +:+ String c newline ∧ c ≠ "010"%char.
Proof.
  destruct (pem_line b) as (s & c & Hb & Hc). induction l as [|a l (s' & c' & IH & Hc')].
  - exists s, c. cbn. by rewrite string_app_nil_r.
  - exists (EncodeToMemory a +:+ s'), c'. cbn [app foldr]. rewrite IH. by rewrite string_app_assoc.
Qed.

(** A bundle as the hub itself serves it can be appended to. *)
Lemma appendable_bundle l : appendable (foldr (λ b s, EncodeToMemory b +:+ s) "" l).
Proof.
  destruct l as [|a l _] using rev_ind; [apply appendable_empty|]. intros b. exists (l ++ [a])%list.
  unfold joinRootsPEM. destruct (blank _) eqn:Hb.
  { apply pem_blank in Hb. rewrite pem_concat in Hb. by destruct l. }
  rewrite pem_visible. destruct (concat_pem_line l a) as (s & c & E & Hc). rewrite E, TrimRight_line by done.
  assert ((s +:+ String c "") +:+ newline +:+ EncodeToMemory b = (s +:+ String c newline) +:+ EncodeToMemory b) as ->.
  { unfold newline. rewrite !string_app_assoc. done. }
  by rewrite <- E, <- concat_pem_snoc, pem_concat.
Qed.

Lemma parse_roots_last l b r :
  parse_roots (l ++ [b])%list = Ok r → ∃ c, ParseCertificate (blk_Bytes b) = Some c ∧ c ∈ r.
Proof.
  revert r. induction l as [|a l IH]; intros r; cbn.
  - case_match; [done|]. case_match; [|done]. case_match; [done|]. intros [= <-]. eexists. split; [done|]. apply list_elem_of_here.
  - case_match; [done|]. case_match; [|done]. case_match; [done|]. destruct (parse_roots (l ++ [b])); [|done].
    intros [= <-]. destruct (IH _ eq_refl) as (x & ? & ?). exists x. split; [done|]. by apply list_elem_of_further.
Qed.

Lemma additional_root base n l :
  appendable base → root_ok n → opts_additionalRoots (joinRootsPEM base (cert_pem n)) = Ok l → n ∈ l.
Proof.
  intros Hb [Hp _]. unfold opts_additionalRoots. destruct (Hb (cert_block n)) as [k Hk].
  destruct (blank _) eqn:E; [apply pem_blank in E; unfold cert_pem in E; rewrite Hk in E; by destruct k|].
  unfold ParseTrustBundlePEM, cert_pem. rewrite Hk.
  destruct (parse_roots _) as [[|c r]|] eqn:Hr; [done| |done]. intros [= <-].
  destruct (parse_roots_last _ _ _ Hr) as (d & Hd & Hin). cbn in Hd. congruence.
Qed.

Lemma parseCertificatePEM_cert c : root_ok c → parseCertificatePEM (cert_pem c) = Ok c.
Proof. intros [Hp _]. unfold parseCertificatePEM, cert_pem. rewrite pem_one. cbn. by rewrite Hp. Qed.

Lemma encoded_nonempty b : nonempty (EncodeToMemory b) = true.
Proof.
  unfold nonempty. destruct (String.eqb_spec (EncodeToMemory b) "") as [E|]; [|done].
  pose proof (pem_visible b) as H. by rewrite E in H.
Qed.

Lemma cert_pem_nonempty c : nonempty (cert_pem c) = true.
Proof. apply encoded_nonempty. Qed.

(** What the rotator remembers of its last adoption is what its authority holds. *)
Definition adopted (r : caRotator) : Prop :=
  rt_appliedCert r = "" ∨
  (parseCertificatePEM (rt_appliedCert r) = Ok (ca_Certificate (rt_authority r)) ∧
   ∃ l, opts_additionalRoots (rt_appliedRoots r) = Ok l ∧ ∀ c, c ∈ l → c ∈ TrustBundle (rt_authority r)).

(** The options a replica runs with. *)
Definition same_setup (r r' : caRotator) : Prop :=
  rt_cfg r' = rt_cfg r ∧ rt_base r' = rt_base r ∧ ca_opts (rt_authority r') = ca_opts (rt_authority r).

Definition signs_and_trusts (r : caRotator) : Prop :=
  material_ok (ca_material (rt_authority r)) ∧ ca_Certificate (rt_authority r) ∈ TrustBundle (rt_authority r).

Lemma AdoptPEM_material c c' certPEM keyPEM rootsPEM x :
  AdoptPEM c certPEM keyPEM rootsPEM = Ok c' → parseCertificatePEM certPEM = Ok x →
  trunc_second (NotAfter x) = NotAfter x →
  ca_Certificate c' = x ∧ ca_opts c' = ca_opts c ∧ material_ok (ca_material c') ∧ x ∈ TrustBundle c' ∧
  ∃ l, opts_additionalRoots rootsPEM = Ok l ∧ ∀ d, d ∈ l → d ∈ TrustBundle c'.
Proof.
  unfold AdoptPEM. destruct (parseMaterial _ _ _) as [[[cert key] l]|] eqn:H; [|done]. cbn.
  intros E Hx Hw; simplify_eq. apply parseMaterial_ok in H as (Hc & Hl & Hk & Hok). rewrite Hx in Hc. injection Hc as <-.
  destruct (newMaterial_ok x key l Hok) as (E1 & E2 & _ & _ & _ & Hin & _).
  unfold ca_Certificate, TrustBundle. cbn. split_and!; [done|done| |apply Hin; by left|].
  - inversion Hok; subst. split; by rewrite ?E1, ?E2.
  - exists l. split; [done|]. intros d Hd. apply Hin. by right.
Qed.

(** A successful [sync] leaves the replica signing with the Secret's signer and
trusting the rotation's other root. *)
Lemma sync_adopts r st r' x :
  sync r st = Ok r' → adopted r → signs_and_trusts r →
  root_ok x → trunc_second (NotAfter x) = NotAfter x → rs_certPEM st = cert_pem x →
  adopted r' ∧ signs_and_trusts r' ∧ same_setup r r' ∧ ca_Certificate (rt_authority r') = x ∧
  (∀ n, appendable (rt_base r) → root_ok n → additionalRoots st (rt_base r) = joinRootsPEM (rt_base r) (cert_pem n) →
        n ∈ TrustBundle (rt_authority r')).
Proof.
  intros Hs Ha Hm Hx Hw Hcert. pose proof (parseCertificatePEM_cert x Hx) as Hp. revert Hs. unfold sync.
  rewrite Hcert. destruct (negb _ || negb _) eqn:E.
  - destruct (AdoptPEM _ _ _ _) as [c'|] eqn:Had; [|done]. intros [= <-]. cbn.
    destruct (AdoptPEM_material _ _ _ _ _ _ Had Hp Hw) as (E1 & E2 & E3 & E4 & l & El & Hl).
    unfold adopted, signs_and_trusts, same_setup. cbn. rewrite E1. split_and!; try done.
    + right. split; [done|]. by exists l.
    + intros n Hb Hn Hroots. rewrite Hroots in El. by eapply Hl, additional_root.
  - intros [= <-]. apply orb_false_iff in E as [E1 E2]. rewrite negb_false_iff in E1, E2.
    apply String.eqb_eq in E1, E2. destruct Ha as [Ha|[Hc (l & El & Hl)]].
    { pose proof (cert_pem_nonempty x) as Hne. rewrite E1 in Hne. by rewrite Ha in Hne. }
    rewrite <- E1, Hp in Hc. injection Hc as Hc. split_and!; try done.
    + right. rewrite <- E1, Hp, Hc. split; [done|]. by exists l.
    + intros n Hb Hn Hroots. rewrite <- E2, Hroots in El. by eapply Hl, additional_root.
Qed.

(** A starting hub does the same with the Secret it loads. *)
Lemma startup_adopts cfg base sec c x :
  startup cfg base sec = Ok c → root_ok x → trunc_second (NotAfter x) = NotAfter x →
  rs_certPEM (readCARotation sec) = cert_pem x → cfg_TrustDomain cfg ≠ "" → cfg_SpokeCertTTL cfg ≠ 0 →
  material_ok (ca_material c) ∧ x ∈ TrustBundle c ∧ ca_Certificate c = x ∧
  TrustDomain (ca_opts c) = cfg_TrustDomain cfg ∧ SpokeCertTTL (ca_opts c) = cfg_SpokeCertTTL cfg ∧
  (∀ n, appendable base → root_ok n → additionalRoots (readCARotation sec) "" = cert_pem n → n ∈ TrustBundle c).
Proof.
  intros Hs Hx Hw Hcert Htd Httl. change (map_get (sec_Data sec) secretKeyCACert) with (rs_certPEM (readCARotation sec)) in *.
  revert Hs. unfold startup, ca_Parse, withDefaults. cbn [TrustDomain SpokeCertTTL CATTL AdditionalRootsPEM].
  rewrite (proj2 (String.eqb_neq _ _) Htd), (proj2 (Z.eqb_neq _ _) Httl). cbn.
  destruct (opts_validate _) as [[]|]; [|done]. cbn.
  change (map_get (sec_Data sec) secretKeyCACert) with (rs_certPEM (readCARotation sec)). rewrite Hcert.
  destruct (parseMaterial _ _ _) as [[[cert key] l]|] eqn:H; [|done]. cbn. intros [= <-].
  apply parseMaterial_ok in H as (Hc & Hl & Hk & Hok). rewrite parseCertificatePEM_cert in Hc by done.
  injection Hc as <-. destruct (newMaterial_ok x key l Hok) as (E1 & E2 & _ & _ & _ & Hin & _).
  unfold ca_Certificate, TrustBundle. cbn. split_and!; [|apply Hin; by left|done..|].
  - inversion Hok; subst. split; by rewrite ?E1, ?E2.
  - intros n Hb Hn Hroots. rewrite Hroots in Hl. apply Hin. right. by eapply additional_root.
Qed.

(** Reading the keys of a Secret a plan was applied to. *)
Lemma map_get_insert (m : gmap string string) k k' v :
  map_get (<[k := v]> m) k' = if String.eqb k k' then v else map_get m k'.
Proof.
  unfold map_get. destruct (String.eqb_spec k k') as [<-|]; [by rewrite lookup_insert_eq|by rewrite lookup_insert_ne].
Qed.

Lemma map_get_delete (m : gmap string string) k k' :
  map_get (delete k m) k' = if String.eqb k k' then "" else map_get m k'.
Proof.
  unfold map_get. destruct (String.eqb_spec k k') as [<-|]; [by rewrite lookup_delete_eq|by rewrite lookup_delete_ne].
Qed.

(** The value of a key after a plan that found [old] there. *)
Definition upd (p : caRotationPlan) (k old : string) : string :=
  fold_left (λ o k', if String.eqb k' k then "" else o) (pl_del p)
    (fold_left (λ o kv, if String.eqb kv.1 k then kv.2 else o) (pl_set p) old).

(** The plan leaves the phase and its clock to [advance]. *)
Definition plain_keys (p : caRotationPlan) : bool :=
  forallb (λ k, negb (String.eqb k secretKeyRotationPhase) && negb (String.eqb k secretKeyRotationSince))
    (pl_del p ++ (fst <$> pl_set p)).

Lemma fold_insert_get l (m : gmap string string) k :
  map_get (fold_left (λ data kv, <[kv.1 := kv.2]> data) l m) k
  = fold_left (λ o kv, if String.eqb kv.1 k then kv.2 else o) l (map_get m k).
Proof. revert m. induction l as [|kv l IH]; intros m; cbn; [done|]. by rewrite IH, map_get_insert. Qed.

Lemma fold_delete_get l (m : gmap string string) k :
  map_get (fold_left (λ data k, delete k data) l m) k
  = fold_left (λ o k', if String.eqb k' k then "" else o) l (map_get m k).
Proof. revert m. induction l as [|kv l IH]; intros m; cbn; [done|]. by rewrite IH, map_get_delete. Qed.

Lemma apply_get p sec d k :
  map_get (sec_Data (apply_plan p sec d)) k
  = upd p k (if String.eqb secretKeyRotationSince k && negb (pl_keepSince p) then format_rfc3339 d
             else if String.eqb secretKeyRotationPhase k then caPhase_string (pl_to p)
             else map_get (sec_Data sec) k).
Proof.
  unfold apply_plan, upd. cbn [sec_Data]. rewrite fold_delete_get, fold_insert_get. do 2 f_equal.
  destruct (pl_keepSince p); cbn [negb]; rewrite ?map_get_insert, ?andb_true_r, ?andb_false_r; done.
Qed.

Lemma upd_untouched p k old : k ∉ pl_del p → k ∉ fst <$> pl_set p → upd p k old = old.
Proof.
  unfold upd. intros Hd Hs.
  assert (fold_left (λ o kv, if String.eqb kv.1 k then kv.2 else o) (pl_set p) old = old) as ->.
  { induction (pl_set p) as [|[k' v] l IH]; [done|]. cbn in *. rewrite not_elem_of_cons in Hs.
    rewrite (proj2 (String.eqb_neq k' k)) by naive_solver. naive_solver. }
  induction (pl_del p) as [|k' l IH]; [done|]. cbn. rewrite not_elem_of_cons in Hd.
  rewrite (proj2 (String.eqb_neq k' k)) by naive_solver. naive_solver.
Qed.

Lemma plain_keys_untouched p k :
  plain_keys p = true → k = secretKeyRotationPhase ∨ k = secretKeyRotationSince →
  k ∉ pl_del p ∧ k ∉ fst <$> pl_set p.
Proof.
  unfold plain_keys. rewrite forallb_forall. intros H Hk. rewrite <- not_elem_of_app. intros Hin.
  specialize (H k (proj1 (list_elem_of_In _ _) Hin)). rewrite andb_true_iff, !negb_true_iff, !String.eqb_neq in H.
  naive_solver.
Qed.

#[local] Arguments map_get : simpl never.
#[local] Arguments apply_plan : simpl never.

(** What a Secret says after a plan, field by field. *)
Lemma read_apply p sec d :
  plain_keys p = true → four_digit_year d = true →
  let st := readCARotation sec in
  let st' := readCARotation (apply_plan p sec d) in
  phase_unknown st' = false ∧ rs_phase st' = pl_to p ∧
  (if pl_keepSince p then rs_since st' = rs_since st ∧ rs_sinceOK st' = rs_sinceOK st
   else rs_since st' = trunc_second d ∧ rs_sinceOK st' = true) ∧
  rs_certPEM st' = upd p secretKeyCACert (rs_certPEM st) ∧
  rs_keyPEM st' = upd p secretKeyCAKey (rs_keyPEM st) ∧
  rs_nextCertPEM st' = upd p secretKeyCANextCert (rs_nextCertPEM st) ∧
  rs_nextKeyPEM st' = upd p secretKeyCANextKey (rs_nextKeyPEM st) ∧
  rs_prevCertPEM st' = upd p secretKeyCAPrevCert (rs_prevCertPEM st) ∧
  rs_hasHoldout st' = nonempty (upd p secretKeyRotationHoldout (map_get (sec_Data sec) secretKeyRotationHoldout)) ∧
  rs_hasRetireAfter st'
  = nonempty (upd p secretKeyRotationRetireAfter (map_get (sec_Data sec) secretKeyRotationRetireAfter)) ∧
  rs_force st' = if pl_consumeForce p then "" else rs_force st.
Proof.
  intros Hp Hd st st'.
  destruct (plain_keys_untouched p secretKeyRotationPhase Hp) as [Hp1 Hp2]; [by left|].
  destruct (plain_keys_untouched p secretKeyRotationSince Hp) as [Hs1 Hs2]; [by right|].
  assert (rs_rawPhase st' = caPhase_string (pl_to p)) as Hraw.
  { cbn. rewrite apply_get, upd_untouched by done. done. }
  assert (rs_phase st' = pl_to p ∧ rs_phaseKnown st' = true) as [Hph Hk].
  { change (rs_phase st') with (default caPhaseSteady (find (λ p, String.eqb (caPhase_string p) (rs_rawPhase st')) caPhases)).
    change (rs_phaseKnown st') with (bool_decide (is_Some (find (λ p, String.eqb (caPhase_string p) (rs_rawPhase st')) caPhases))).
    rewrite Hraw. by destruct (pl_to p). }
  split_and!; [unfold phase_unknown; by rewrite Hk, andb_false_r|done| |cbn; by rewrite apply_get..|]; [|].
  2: { cbn. unfold apply_plan. cbn. destruct (pl_consumeForce p); [|done].
       by rewrite map_get_insert, map_get_delete. }
  assert (rs_since st' = default 0 (parse_rfc3339 (map_get (sec_Data (apply_plan p sec d)) secretKeyRotationSince)) ∧
          rs_sinceOK st' = bool_decide (is_Some (parse_rfc3339 (map_get (sec_Data (apply_plan p sec d)) secretKeyRotationSince))))
    as [-> ->] by done.
  rewrite apply_get, upd_untouched by done. destruct (pl_keepSince p); cbn [negb andb]; [done|].
  cbn. by rewrite parse_format_rfc3339.
Qed.

(** * The Secret is coherent *)

(** A stored keypair is usable: it parses and the key is the certificate's. *)
Definition keypair_ok (certPEM keyPEM : string) : Prop :=
  ∃ c k, root_ok c ∧ certPEM = cert_pem c ∧ parsePrivateKeyPEM keyPEM = Ok k ∧ checkCAUsable c k = Ok tt.

(** The phase and the material next to it agree: nothing of a rotation in the
steady phase; a usable successor and no outgoing root while publishing; an
outgoing root, a retirement horizon and no successor while signing. *)
Definition coherent (st : caRotationState) : Prop :=
  phase_unknown st = false ∧ keypair_ok (rs_certPEM st) (rs_keyPEM st) ∧
  match rs_phase st with
  | caPhaseSteady =>
    rs_nextCertPEM st = "" ∧ rs_nextKeyPEM st = "" ∧ rs_prevCertPEM st = "" ∧ rs_hasHoldout st = false ∧
    rs_hasRetireAfter st = false
  | caPhasePublishing =>
    keypair_ok (rs_nextCertPEM st) (rs_nextKeyPEM st) ∧ rs_prevCertPEM st = "" ∧ rs_hasHoldout st = false ∧
    rs_hasRetireAfter st = false ∧ rs_sinceOK st = true
  | caPhaseSigning =>
    rs_nextCertPEM st = "" ∧ rs_nextKeyPEM st = "" ∧ (∃ c, root_ok c ∧ rs_prevCertPEM st = cert_pem c) ∧
    rs_hasRetireAfter st = true ∧ rs_sinceOK st = true
  end.

Lemma NewRootPEM_root o now e certPEM keyPEM :
  NewRootPEM o now e = Ok (certPEM, keyPEM) →
  ∃ c k, re_key e = Some k ∧ root_ok c ∧ trunc_second (NotAfter c) = NotAfter c ∧ NotBefore c ≤ now ∧
    certPEM = cert_pem c ∧ cert_PublicKey c = PubECDSA (key_p256 k) (key_point k) ∧
    keyPEM = EncodeToMemory {| blk_Type := pemTypePrivateKey; blk_Bytes := MarshalPKCS8PrivateKey k |}.
Proof.
  unfold NewRootPEM. destruct (opts_validate _); [|done]. cbn. unfold mintRoot.
  destruct (re_key e) as [key|]; [|done]. destruct (re_serial e) as [sn|]; [|done].
  set (tmpl := {| Raw := _ |}). rewrite CreateCertificate_parses by constructor. cbn. intros [= <- <-].
  eexists (certified tmpl _ _), key. split_and!; [done| |apply trunc_second_idem| |done..].
  - split; [by apply CreateCertificate_parses|done].
  - cbn. pose proof (trunc_second_bounds (Add now (- clockSkew))). unfold Add, clockSkew, Minute, Second in *. lia.
Qed.

Lemma NewRootPEM_usable o now e certPEM keyPEM :
  NewRootPEM o now e = Ok (certPEM, keyPEM) → (∀ k, re_key e = Some k → key_p256 k = true) →
  keypair_ok certPEM keyPEM.
Proof.
  intros (c & k & Ek & Hc & _ & _ & -> & Hpub & ->)%NewRootPEM_root Hk. specialize (Hk k Ek).
  exists c, k. split_and!; [done|done| |].
  - unfold parsePrivateKeyPEM. rewrite pem_one. cbn. rewrite ParsePKCS8_Marshal by done. by rewrite Hk.
  - unfold checkCAUsable. destruct Hc as [_ ->]. rewrite Hpub. by rewrite bool_decide_true.
Qed.

Lemma keypair_nonempty certPEM keyPEM :
  keypair_ok certPEM keyPEM → nonempty certPEM = true ∧ nonempty keyPEM = true.
Proof.
  intros (c & k & Hc & -> & Hk & _). split; [apply cert_pem_nonempty|].
  unfold nonempty. destruct (String.eqb_spec keyPEM "") as [->|]; [|done].
  unfold parsePrivateKeyPEM in Hk. by rewrite pem_blank in Hk.
Qed.

Lemma strays_absent st :
  rs_nextCertPEM st = "" → rs_nextKeyPEM st = "" → rs_prevCertPEM st = "" → rs_hasHoldout st = false →
  rs_hasRetireAfter st = false → strayRotationKeys st = [].
Proof. intros E1 E2 E3 E4 E5. unfold strayRotationKeys. by rewrite E1, E2, E3, E4, E5. Qed.

Lemma no_holdout_key sec : rs_hasHoldout (readCARotation sec) = nonempty (map_get (sec_Data sec) secretKeyRotationHoldout).
Proof. done. Qed.
Lemma no_retire_key sec : rs_hasRetireAfter (readCARotation sec) = nonempty (map_get (sec_Data sec) secretKeyRotationRetireAfter).
Proof. done. Qed.

(** What a write on a coherent Secret may do. *)
Definition write_ok (st st' : caRotationState) : Prop :=
  coherent st' ∧ rs_force st' = "" ∧
  match rs_phase st, rs_phase st' with
  | caPhaseSteady, caPhasePublishing | caPhaseSigning, caPhaseSteady =>
    rs_certPEM st' = rs_certPEM st ∧ rs_keyPEM st' = rs_keyPEM st
  | caPhasePublishing, caPhaseSigning =>
    rs_certPEM st' = rs_nextCertPEM st ∧ rs_keyPEM st' = rs_nextKeyPEM st ∧ rs_prevCertPEM st' = rs_certPEM st ∧
    rs_force st = ""
  | caPhasePublishing, caPhasePublishing | caPhaseSigning, caPhaseSigning =>
    rs_certPEM st' = rs_certPEM st ∧ rs_keyPEM st' = rs_keyPEM st ∧ rs_nextCertPEM st' = rs_nextCertPEM st ∧
    rs_nextKeyPEM st' = rs_nextKeyPEM st ∧ rs_prevCertPEM st' = rs_prevCertPEM st ∧ rs_since st' = rs_since st
  | _, _ => False
  end.

(** Evaluate what a plan with known keys does to each key. *)
Ltac compute_keys :=
  repeat match goal with
  | H : context [upd ?p ?k ?x] |- _ =>
    let v := eval lazy [p upd fold_left pl_del pl_set fst snd String.eqb Ascii.eqb Bool.eqb
      secretKeyCACert secretKeyCAKey secretKeyCANextCert secretKeyCANextKey secretKeyCAPrevCert
      secretKeyRotationHoldout secretKeyRotationRetireAfter] in (upd p k x) in
    change (upd p k x) with v in H
  end.

(** Read the Secret after the plan [p]. *)
Ltac read_after p sec d Hd :=
  destruct (read_apply p sec d eq_refl Hd) as (H1 & H2 & [H3 H3'] & H4 & H5 & H6 & H7 & H8 & H9 & H10 & H11);
  compute_keys; rewrite <- ?no_holdout_key in H9; rewrite <- ?no_retire_key in H10;
  cbn [p pl_to pl_consumeForce] in H2, H11;
  unfold write_ok, coherent in *;
  rewrite H1, H2, ?H3, ?H3', H4, H5, H6, H7, H8, ?H9, H10, H11.

Lemma nonempty_false s : nonempty s = false ↔ s = "".
Proof. unfold nonempty. rewrite negb_false_iff. apply String.eqb_eq. Qed.

Lemma write_in_progress sec d :
  let st := readCARotation sec in
  coherent st → rs_phase st ≠ caPhaseSteady → four_digit_year d = true →
  write_ok st (readCARotation (apply_plan
    {| pl_to := rs_phase st; pl_reason := already_in_progress; pl_keepSince := true; pl_set := []; pl_del := [];
       pl_consumeForce := true |} sec d)).
Proof.
  intros st Hcoh Hph Hd. set (p := {| pl_to := _ |}). read_after p sec d Hd. subst st.
  destruct (rs_phase (readCARotation sec)); [done|naive_solver..].
Qed.

Lemma write_publish sec d n m reason :
  let st := readCARotation sec in
  coherent st → rs_phase st = caPhaseSteady → four_digit_year d = true → keypair_ok n m →
  write_ok st (readCARotation (apply_plan
    {| pl_to := caPhasePublishing; pl_reason := reason; pl_keepSince := false;
       pl_set := [(secretKeyCANextCert, n); (secretKeyCANextKey, m)]; pl_del := [];
       pl_consumeForce := nonempty (rs_force st) |} sec d)).
Proof.
  intros st Hcoh Hph Hd Hk. set (p := {| pl_to := _ |}). read_after p sec d Hd. subst st.
  rewrite Hph in *. assert ((if nonempty (rs_force (readCARotation sec)) then "" else rs_force (readCARotation sec)) = "").
  { destruct (nonempty _) eqn:E; [done|by apply nonempty_false]. }
  naive_solver.
Qed.

Lemma write_promote sec d ra reason :
  let st := readCARotation sec in
  coherent st → rs_phase st = caPhasePublishing → four_digit_year d = true → rs_force st = "" →
  write_ok st (readCARotation (apply_plan
    {| pl_to := caPhaseSigning; pl_reason := reason; pl_keepSince := false;
       pl_set := [ (secretKeyCACert, rs_nextCertPEM st); (secretKeyCAKey, rs_nextKeyPEM st);
                   (secretKeyCAPrevCert, rs_certPEM st); (secretKeyRotationRetireAfter, format_rfc3339 ra) ];
       pl_del := [secretKeyCANextCert; secretKeyCANextKey; secretKeyRotationHoldout];
       pl_consumeForce := false |} sec d)).
Proof.
  intros st Hcoh Hph Hd Hf. set (p := {| pl_to := _ |}). read_after p sec d Hd. subst st.
  assert (nonempty (format_rfc3339 ra) = true) as E.
  { destruct (nonempty (format_rfc3339 ra)) eqn:E; [done|]. apply nonempty_false in E.
    by destruct (format_rfc3339_nonempty ra). }
  rewrite Hph, E in *. destruct Hcoh as (_ & (c & k & Hc & Ec & _) & Hn & _). split_and!; try done. by exists c.
Qed.

Lemma write_retire sec d reason :
  let st := readCARotation sec in
  coherent st → rs_phase st = caPhaseSigning → four_digit_year d = true → rs_force st = "" →
  write_ok st (readCARotation (apply_plan
    {| pl_to := caPhaseSteady; pl_reason := reason; pl_keepSince := false; pl_set := [];
       pl_del := [secretKeyCAPrevCert; secretKeyRotationHoldout; secretKeyRotationRetireAfter];
       pl_consumeForce := false |} sec d)).
Proof.
  intros st Hcoh Hph Hd Hf. set (p := {| pl_to := _ |}). read_after p sec d Hd. subst st.
  rewrite Hph in *. naive_solver.
Qed.

Lemma write_holdout sec d x n :
  let st := readCARotation sec in
  coherent st → rs_phase st = caPhaseSigning → four_digit_year d = true → rs_force st = "" →
  write_ok st (readCARotation (apply_plan
    {| pl_to := caPhaseSigning; pl_reason := holdouts_seen n; pl_keepSince := true;
       pl_set := [(secretKeyRotationHoldout, x)]; pl_del := []; pl_consumeForce := false |} sec d)).
Proof.
  intros st Hcoh Hph Hd Hf. set (p := {| pl_to := _ |}). read_after p sec d Hd. subst st.
  rewrite Hph in *. naive_solver.
Qed.

(** Every write keeps the CA Secret coherent: the recorded phase always
agrees with the keys next to it and the signer is always a usable keypair.  A
rotation starts from one root, promotes exactly the successor it published,
keeping the outgoing root's certificate but not its key, and ends on the
promoted signer; a write that only records something moves neither the keys nor
the phase's clock; and an operator's request never outlives a write. *)
Theorem plan_coherent r sec now now' now'' e h p :
  coherent (readCARotation sec) → four_digit_year now'' = true →
  (∀ k, re_key e = Some k → key_p256 k = true) →
  plan r (readCARotation sec) now now' e h = Ok (Some p) →
  write_ok (readCARotation sec) (readCARotation (apply_plan p sec now'')).
Proof.
  intros Hcoh Hd Hkey. pose proof Hcoh as (Hunk & _ & Hph). unfold plan. rewrite Hunk.
  destruct (nonempty (rs_force (readCARotation sec)) && _) eqn:Hforce.
  { intros [= <-]. apply andb_true_iff in Hforce as [_ Hf]. rewrite negb_true_iff, bool_decide_eq_false in Hf.
    by apply write_in_progress. }
  assert (rs_phase (readCARotation sec) = caPhaseSteady ∨ rs_force (readCARotation sec) = "") as Hf.
  { apply andb_false_iff in Hforce as [Hf|Hf]; [right; by apply nonempty_false|left].
    by rewrite negb_false_iff, bool_decide_eq_true in Hf. }
  destruct (rs_phase (readCARotation sec)) eqn:E.
  - destruct Hph as (? & ? & ? & ? & ?). unfold planSteady. rewrite strays_absent by done.
    destruct (rotationDue _ _ _); [|done]. destruct (NewRootPEM _ _ _) as [[n m]|] eqn:Hnew; [|done].
    intros [= <-]. apply write_publish; try done. by eapply NewRootPEM_usable.
  - destruct Hf as [?|Hf]; [done|]. destruct Hph as (Hn & _ & _ & _ & Hok).
    apply keypair_nonempty in Hn as [Hn1 Hn2]. intros [= Hp]. revert Hp. unfold planPublishing, repairSince.
    rewrite Hn1, Hn2, Hok. cbn [negb orb]. destruct (Sub _ _ <? _); [destruct (Before _ _); [done|]|];
      intros [= <-]; by apply write_promote.
  - destruct Hf as [?|Hf]; [done|]. destruct Hph as (_ & _ & (c & Hc & Hprev) & _ & Hok).
    intros [= Hp]. revert Hp. unfold planSigning, repairSince. rewrite Hprev, cert_pem_nonempty, Hok. cbn [negb].
    destruct (Before _ _); [done|]. destruct (_ <? holdoutQuiet _); [done|]. destruct (0 <? _).
    + destruct (_ <? _); [done|]. intros [= <-]. by apply write_holdout.
    + destruct (negb _ && _); [done|]. intros [= <-]. by apply write_retire.
Qed.

(** * A rotation completes *)

Lemma Sub_reached t u d : d ≤ max_int64 → u + d ≤ t → (Sub t u <? d) = false.
Proof. unfold Sub, max_int64, min_int64. rewrite Z.ltb_ge. lia. Qed.

(** The write that promotes, with what the signing phase reads of it. *)
Lemma promotion_due r sec t e h :
  let st := readCARotation sec in
  coherent st → rs_phase st = caPhasePublishing → rs_force st = "" → cfg_SpokeCertTTL (rt_cfg r) ≤ max_int64 →
  rs_since st + cfg_SpokeCertTTL (rt_cfg r) ≤ t →
  four_digit_year t = true → four_digit_year (t + retirementHold (rt_cfg r)) = true →
  ∃ p, plan r st t t e h = Ok (Some p) ∧ write_ok st (readCARotation (apply_plan p sec t)) ∧
    let st' := readCARotation (apply_plan p sec t) in
    rs_phase st' = caPhaseSigning ∧ rs_since st' ≤ t ∧ rs_lastHoldout st' = 0 ∧
    rs_retireAfter st' ≤ t + retirementHold (rt_cfg r).
Proof.
  intros st Hcoh Hph Hf Hmax Hdue Hy Hy'. pose proof Hcoh as (Hunk & _ & Hm). rewrite Hph in Hm.
  destruct Hm as (Hn & _ & _ & _ & Hok). apply keypair_nonempty in Hn as [Hn1 Hn2].
  unfold plan. rewrite Hunk, Hph, (proj2 (nonempty_false _) Hf). cbn [andb].
  unfold planPublishing, repairSince. rewrite Hn1, Hn2, Hok. cbn [negb orb]. rewrite Sub_reached by done.
  eexists. split; [done|]. split; [by apply write_promote|]. set (p := {| pl_to := _ |}).
  destruct (read_apply p sec t eq_refl Hy) as (_ & H2 & [H3 _] & _). split; [exact H2|].
  pose proof (trunc_second_bounds t). split; [lia|].
  assert (∀ sec', rs_lastHoldout (readCARotation sec') = default 0 (parse_rfc3339 (map_get (sec_Data sec') secretKeyRotationHoldout))) as Eh by done.
  assert (∀ sec', rs_retireAfter (readCARotation sec') = default 0 (parse_rfc3339 (map_get (sec_Data sec') secretKeyRotationRetireAfter))) as Er by done.
  rewrite Eh, Er, !apply_get.
  change (upd p secretKeyRotationHoldout _) with "". rewrite parse_rfc3339_empty.
  change (upd p secretKeyRotationRetireAfter _) with (format_rfc3339 (Add t (retirementHold (rt_cfg r)))).
  unfold Add. rewrite parse_format_rfc3339 by done.
  pose proof (trunc_second_bounds (t + retirementHold (rt_cfg r))). cbn. split; [done|lia].
Qed.

(** A published rotation completes.  Any replica that polls once the
successor has been published for a certificate lifetime promotes it; any replica
with the same configuration that polls once the retirement hold has passed since
then, has been up for two intervals and sees no session on the outgoing root,
retires that root; and what is left is one root, the published successor, with
its key. *)
Theorem rotation_completes r1 r2 sec t1 t2 e1 e2 h1 h2 :
  let st := readCARotation sec in
  let hold := retirementHold (rt_cfg r1) in
  coherent st → rs_phase st = caPhasePublishing → rs_force st = "" →
  cfg_SpokeCertTTL (rt_cfg r1) ≤ max_int64 → rt_cfg r2 = rt_cfg r1 →
  rs_since st + cfg_SpokeCertTTL (rt_cfg r1) ≤ t1 → t1 + hold ≤ t2 →
  rt_startedAt r2 + holdoutQuiet (rt_cfg r2) ≤ t2 → (∀ fp, h2 fp = 0) →
  four_digit_year t1 = true → four_digit_year (t1 + hold) = true → four_digit_year t2 = true →
  ∃ p1 p2,
    plan r1 st t1 t1 e1 h1 = Ok (Some p1) ∧
    let sec1 := apply_plan p1 sec t1 in
    plan r2 (readCARotation sec1) t2 t2 e2 h2 = Ok (Some p2) ∧
    let st2 := readCARotation (apply_plan p2 sec1 t2) in
    rs_phase st2 = caPhaseSteady ∧ coherent st2 ∧
    rs_certPEM st2 = rs_nextCertPEM st ∧ rs_keyPEM st2 = rs_nextKeyPEM st.
Proof.
  intros st hold Hcoh Hph Hf Hmax Hcfg Hdue Ht2 Hquiet Hh Hy1 Hyh Hy2.
  destruct (promotion_due r1 sec t1 e1 h1 Hcoh Hph Hf Hmax Hdue Hy1 Hyh) as (p1 & Hp1 & Hw & H1).
  exists p1. set (sec1 := apply_plan p1 sec t1) in *. destruct H1 as (H1 & H2 & H3 & H4).
  destruct Hw as (Hcoh1 & Hf1 & Hw). fold st in Hw. rewrite Hph, H1 in Hw. destruct Hw as (Hc & Hk & _).
  pose proof Hcoh1 as (Hunk & _ & Hm). rewrite H1 in Hm. destruct Hm as (_ & _ & (c & _ & Hprev) & _ & Hok).
  assert (plan r2 (readCARotation sec1) t2 t2 e2 h2
    = Ok (Some {| pl_to := caPhaseSteady; pl_reason := retired; pl_keepSince := false; pl_set := [];
                  pl_del := [secretKeyCAPrevCert; secretKeyRotationHoldout; secretKeyRotationRetireAfter];
                  pl_consumeForce := false |})) as Hp2.
  { unfold plan. rewrite Hunk, H1, (proj2 (nonempty_false _) Hf1). cbn [andb].
    unfold planSigning, repairSince. rewrite Hprev, cert_pem_nonempty, Hok, Hh, H3, Hcfg. cbn [negb].
    assert (Before t2 (if After (rs_retireAfter (readCARotation sec1)) (Add (rs_since (readCARotation sec1)) (retirementHold (rt_cfg r1)))
                       then rs_retireAfter (readCARotation sec1)
                       else Add (rs_since (readCARotation sec1)) (retirementHold (rt_cfg r1))) = false) as ->.
    { unfold Before, Add, hold in *. apply Z.ltb_ge. destruct (After _ _); lia. }
    rewrite <- Hcfg, Sub_reached; [done| |done]. unfold holdoutQuiet.
    pose proof (wrap_int64_range (2 * cfg_PollInterval (rt_cfg r2))) as [_ ?]. done. }
  eexists. split; [done|]. split; [exact Hp2|].
  assert (write_ok (readCARotation sec1) (readCARotation (apply_plan
    {| pl_to := caPhaseSteady; pl_reason := retired; pl_keepSince := false; pl_set := [];
       pl_del := [secretKeyCAPrevCert; secretKeyRotationHoldout; secretKeyRotationRetireAfter];
       pl_consumeForce := false |} sec1 t2))) as (Hcoh2 & _ & Hw2) by by apply write_retire.
  set (p := {| pl_to := _ |}) in *. destruct (read_apply p sec1 t2 eq_refl Hy2) as (_ & E & _).
  rewrite H1, E in Hw2. change (pl_to p) with caPhaseSteady in Hw2. destruct Hw2 as [E1 E2]. split_and!; [exact E|done|congruence..].
Qed.

(** * The issuer tracker *)

Definition kept_sighting (live : string → bool) (now : Z) (serial : string) (s : issuerSighting) : bool :=
  live serial || negb (sightingGrace <? Sub now (is_at s)).

(** The loop prunes as [prune_loop] does, and counts the live ones. *)
Lemma holdoutsOn_loop live now fp entries (t : caIssuerTracker) n z :
  fold_left (λ acc e,
    if negb (live e.1)
    then (acc.1, if sightingGrace <? Sub now (is_at e.2) then delete e.1 acc.2 else acc.2)
    else (if String.eqb (is_fingerprint e.2) fp then acc.1 + 1 else acc.1, acc.2)) entries (n, t)
  = (n + Z.of_nat (length (filter (λ e, live e.1 = true ∧ is_fingerprint e.2 = fp) entries)),
     (foldl (λ '(m, n) '(k, a), if kept_sighting live now k a then (m, n) else (delete k m, (n + 1)%Z)) (t, z) entries).1).
Proof.
  revert t n z. induction entries as [|[k s] entries IH]; intros t n z; [cbn; f_equal; lia|].
  cbn [fold_left foldl fst snd]. rewrite filter_cons. cbn [fst snd]. unfold kept_sighting at 2.
  destruct (live k) eqn:Hl; cbn [negb orb].
  - destruct (String.eqb_spec (is_fingerprint s) fp) as [E|E].
    + rewrite decide_True by done. rewrite (IH t (n + 1) z). f_equal. cbn [length]. lia.
    + rewrite decide_False by tauto. apply IH.
  - rewrite decide_False by (intros [? _]; done). destruct (sightingGrace <? _); cbn [negb]; apply IH.
Qed.

(** The holdout count is the number of live certificates whose latest
handshake was admitted by the given root, whatever the order in which the map is
visited; and counting forgets exactly the certificates that have no live session
and were last seen longer ago than the grace, never a live one. *)
Theorem holdoutsOn_correct live now fp entries (t : caIssuerTracker) :
  entries ≡ₚ map_to_list t →
  holdoutsOn live now fp entries t
  = (Z.of_nat (length (filter (λ e, live e.1 = true ∧ is_fingerprint e.2 = fp) (map_to_list t))),
     filter (λ e, kept_sighting live now e.1 e.2 = true) t).
Proof.
  intros Hp. unfold holdoutsOn. rewrite holdoutsOn_loop with (z := 0).
  f_equal; [by rewrite (filter_Permutation _ _ _ Hp)|].
  exact (f_equal fst (prune_loop_spec (kept_sighting live now) entries t Hp)).
Qed.

End rotation.
