(* ===== verification/CaFleet.v ===== *)
(** A fleet of hubs rotating its root: any number of replicas running
[CaRotation] on one Secret.

An event is one step of one replica, or of its surroundings: reading the Secret,
adopting what was read, deciding, writing, issuing a certificate, starting,
stopping; time passing; an operator asking for a rotation.  [fleet_exec] is the
event's effect, or [None] when it cannot happen.  Two bounds say how well the
replicas keep up: what a replica has adopted was read at most [lag] ago, and a
write reaches the API server at most [latency] after it was decided. *)

From S2P Require Import Prelude GoFloat Text Ca CaRotation.
From Stdlib Require Import Floats.PrimFloat.
Open Scope string_scope.
Open Scope Z_scope.

Section fleet.
Context `{X : X509} `{R : Rfc3339}.

(** The configuration all replicas share. *)
Variables (cfg : rot_config) (base : string).
Variables (lag latency : Z).

(** Where a replica is in a poll. *)
Inductive poll_state :=
| Idle
| Got (sec : CaSecret) (read_at : Z) (final : bool)
| Ready (sec : CaSecret)
| Writing (sec new : CaSecret) (decided_at : Z).

(** [rp_read_at] is when what the replica has adopted was read. *)
Record replica := { rp_rotator : caRotator; rp_read_at : Z; rp_poll : poll_state }.

(** An issued certificate, and the call that issued it. *)
Record issuance := {
  iss_authority : CA;
  iss_csr : string;
  iss_cluster : string;
  iss_at : Z;
  iss_serial : option Z;
  iss_leaf : Certificate
}.

Record fleet := {
  fl_now : Z;
  fl_secret : CaSecret;
  fl_replicas : gmap nat replica;
  fl_issued : list issuance
}.

Definition with_replica (w : fleet) (i : nat) (rp : replica) : fleet :=
  {| fl_now := fl_now w; fl_secret := fl_secret w; fl_replicas := <[i := rp]> (fl_replicas w);
     fl_issued := fl_issued w |}.

Definition at_poll (rp : replica) (p : poll_state) : replica :=
  {| rp_rotator := rp_rotator rp; rp_read_at := rp_read_at rp; rp_poll := p |}.

Inductive write_outcome := Acked | AnswerLost | NotApplied.

Inductive event :=
| Tick (d : Z)
| Join (i : nat)
| Leave (i : nat)
| Fetch (i : nat)
| Adopt (i : nat)
| Decide (i : nat) (e : root_entropy) (holdouts : string → Z)
| Write (i : nat) (o : write_outcome)
| Issue (i : nat) (csr cluster : string) (serial : option Z)
| RotateNow (why : string).

(** A replica that keeps up at time [t]. *)
Definition keeps_up (t : Z) (rp : replica) : bool :=
  (t <=? rp_read_at rp + lag) && match rp_poll rp with Writing _ _ d => t <=? d + latency | _ => true end.

(** The signer has not expired while its successor is published. *)
Definition in_time (rp : replica) (st : caRotationState) (now : Z) : bool :=
  match rs_phase st with caPhasePublishing => Before now (ca_NotAfter (rt_authority (rp_rotator rp))) | _ => true end.

Definition stored (w : fleet) (new : CaSecret) : CaSecret :=
  {| sec_Data := sec_Data new; sec_Annotations := sec_Annotations new; sec_Version := sec_Version (fl_secret w) + 1 |}.

Definition fleet_exec (ev : event) (w : fleet) : option fleet :=
  match ev with
  | Tick d =>
    let now := fl_now w + d in
    if (0 <=? d) && four_digit_year now && forallb (λ irp, keeps_up now irp.2) (map_to_list (fl_replicas w))
    then Some {| fl_now := now; fl_secret := fl_secret w; fl_replicas := fl_replicas w; fl_issued := fl_issued w |}
    else None
  | Join i =>
    match fl_replicas w !! i, startup cfg base (fl_secret w) with
    | None, Ok authority =>
      Some (with_replica w i {| rp_rotator := new_rotator cfg base authority (fl_now w); rp_read_at := fl_now w;
                                rp_poll := Idle |})
    | _, _ => None
    end
  | Leave i => Some {| fl_now := fl_now w; fl_secret := fl_secret w; fl_replicas := delete i (fl_replicas w);
                       fl_issued := fl_issued w |}
  | Fetch i =>
    rp ← fl_replicas w !! i;
    match rp_poll rp with
    | Idle => Some (with_replica w i (at_poll rp (Got (fl_secret w) (fl_now w) false)))
    | _ => None
    end
  | Adopt i =>
    rp ← fl_replicas w !! i;
    match rp_poll rp with
    | Got sec read_at final =>
      Some (with_replica w i
        match sync (rp_rotator rp) (readCARotation sec) with
        | Err _ => at_poll rp Idle
        | Ok r => {| rp_rotator := r; rp_read_at := read_at; rp_poll := if final then Idle else Ready sec |}
        end)
    | _ => None
    end
  | Decide i e holdouts =>
    rp ← fl_replicas w !! i;
    match rp_poll rp with
    | Ready sec =>
      let st := readCARotation sec in
      if in_time rp st (fl_now w)
      then Some (with_replica w i (at_poll rp
             match plan (rp_rotator rp) st (fl_now w) (fl_now w) e holdouts with
             | Ok (Some p) => Writing sec (apply_plan p sec (fl_now w)) (fl_now w)
             | _ => Idle
             end))
      else None
    | _ => None
    end
  | Write i o =>
    rp ← fl_replicas w !! i;
    match rp_poll rp with
    | Writing sec new _ =>
      match o with
      | NotApplied => Some (with_replica w i (at_poll rp Idle))
      | _ =>
        if sec_Version sec =? sec_Version (fl_secret w)
        then Some {| fl_now := fl_now w; fl_secret := stored w new;
                     fl_replicas := <[i := at_poll rp match o with
                                                     | Acked => Got (stored w new) (fl_now w) true
                                                     | _ => Idle
                                                     end]> (fl_replicas w);
                     fl_issued := fl_issued w |}
        else None
      end
    | _ => None
    end
  | Issue i csr cluster serial =>
    rp ← fl_replicas w !! i;
    match IssueSpokeFromCSR (rt_authority (rp_rotator rp)) csr cluster (fl_now w) serial with
    | Ok (_, Some leaf) =>
      Some {| fl_now := fl_now w; fl_secret := fl_secret w; fl_replicas := fl_replicas w;
              fl_issued := {| iss_authority := rt_authority (rp_rotator rp); iss_csr := csr; iss_cluster := cluster;
                              iss_at := fl_now w; iss_serial := serial; iss_leaf := leaf |} :: fl_issued w |}
    | _ => None
    end
  | RotateNow why =>
    Some {| fl_now := fl_now w;
            fl_secret := {| sec_Data := sec_Data (fl_secret w);
                            sec_Annotations := <[annotationRotateNow := why]> (sec_Annotations (fl_secret w));
                            sec_Version := sec_Version (fl_secret w) + 1 |};
            fl_replicas := fl_replicas w; fl_issued := fl_issued w |}
  end.

Fixpoint fleet_run (evs : list event) (w : fleet) : option fleet :=
  match evs with
  | [] => Some w
  | ev :: evs => w ← fleet_exec ev w; fleet_run evs w
  end.

(** * What the Secret says *)

(** The rotation as the Secret describes it, with the instant its last phase was
stored: one root; a signer and a successor published since; an outgoing root and
the signer promoted over it. *)
Inductive rot_view :=
| Steady (c : Certificate)
| Published (signer next : Certificate) (at_ : Z)
| Promoted (prev signer : Certificate) (at_ : Z).

Record good_root (c : Certificate) (now : Z) : Prop := {
  gr_ok : root_ok c;
  gr_whole : trunc_second (NotAfter c) = NotAfter c;
  gr_begun : NotBefore c ≤ now
}.

(** The recorded phase began no earlier than [latency] and a second before it
was stored. *)
Definition clock_ok (st : caRotationState) (at_ now : Z) : Prop :=
  rs_sinceOK st = true ∧ at_ - latency - Second < rs_since st ∧ at_ ≤ now.

Definition says (st : caRotationState) (now : Z) (v : rot_view) : Prop :=
  phase_unknown st = false ∧
  match v with
  | Steady c => rs_phase st = caPhaseSteady ∧ rs_certPEM st = cert_pem c ∧ good_root c now
  | Published o n at_ =>
    rs_phase st = caPhasePublishing ∧ rs_certPEM st = cert_pem o ∧ rs_nextCertPEM st = cert_pem n ∧
    nonempty (rs_nextKeyPEM st) = true ∧ clock_ok st at_ now ∧ good_root o now ∧ good_root n now
  | Promoted p c at_ =>
    rs_phase st = caPhaseSigning ∧ rs_certPEM st = cert_pem c ∧ rs_prevCertPEM st = cert_pem p ∧
    clock_ok st at_ now ∧ good_root p now ∧ good_root c now
  end.

(** What a stored plan changes. *)
Inductive moves (now : Z) : rot_view → rot_view → Prop :=
| moves_stay v : moves now v v
| moves_publish c n : moves now (Steady c) (Published c n now)
| moves_promote o n at_ :
    at_ + cfg_SpokeCertTTL cfg - latency - Second < now → moves now (Published o n at_) (Promoted o n now)
| moves_retire p c at_ :
    at_ + cfg_SpokeCertTTL cfg + cfg_RenewGrace cfg + 2 * cfg_PollInterval cfg - latency - Second < now →
    moves now (Promoted p c at_) (Steady c).

Record config_ok : Prop := {
  co_domain : trustDomainRE (cfg_TrustDomain cfg) = true;
  co_ttl : Second ≤ cfg_SpokeCertTTL cfg;
  co_grace : 0 ≤ cfg_RenewGrace cfg;
  co_poll : 0 ≤ cfg_PollInterval cfg;
  co_range : 2 * cfg_SpokeCertTTL cfg + cfg_RenewGrace cfg + 4 * cfg_PollInterval cfg ≤ max_int64;
  co_latency : 0 ≤ latency;
  co_lag : 0 ≤ lag;
  co_keeps_ttl : lag + latency + Second ≤ cfg_SpokeCertTTL cfg;
  co_keeps_poll : lag + latency + Second < 2 * cfg_PollInterval cfg
}.

Hypothesis Hcfg : config_ok.
Hypothesis Hbase : appendable base.

Lemma retirementHold_eq :
  retirementHold cfg = cfg_SpokeCertTTL cfg + cfg_RenewGrace cfg + 2 * cfg_PollInterval cfg.
Proof.
  destruct Hcfg. unfold retirementHold, Second in *.
  rewrite (wrap_int64_id (2 * _)), (wrap_int64_id (cfg_SpokeCertTTL cfg + _)), wrap_int64_id; [done|..];
    unfold int64_range, min_int64, max_int64 in *; lia.
Qed.

Lemma Sub_ge t u d : 0 < d → (Sub t u <? d) = false → u + d ≤ t.
Proof. unfold Sub, max_int64, min_int64. rewrite Z.ltb_ge. lia. Qed.

#[local] Arguments map_get : simpl never.
#[local] Arguments apply_plan : simpl never.

Lemma good_root_later c t u : good_root c t → t ≤ u → good_root c u.
Proof. intros [] ?. split; [done|done|lia]. Qed.

Lemma NewRootPEM_good o now e certPEM keyPEM :
  NewRootPEM o now e = Ok (certPEM, keyPEM) →
  ∃ c, certPEM = cert_pem c ∧ good_root c now ∧ nonempty keyPEM = true.
Proof.
  intros (c & k & _ & Hc & Hw & Hb & -> & _ & ->)%NewRootPEM_root. exists c.
  split_and!; [done|by split|apply encoded_nonempty].
Qed.

(** A plan that keeps the clock and the roots keeps what the Secret says. *)
Lemma says_kept p sec d now v :
  says (readCARotation sec) now v → plain_keys p = true → four_digit_year d = true →
  pl_to p = rs_phase (readCARotation sec) → pl_keepSince p = true → pl_set p = [] ∨ (∃ x, pl_set p = [(secretKeyRotationHoldout, x)]) →
  pl_del p = [] ∨ (∃ c, v = Steady c) ∧ secretKeyCACert ∉ pl_del p →
  says (readCARotation (apply_plan p sec d)) now v.
Proof.
  intros [_ Hv] Hp Hd Hto Hk Hset Hdel.
  destruct (read_apply p sec d Hp Hd) as (H1 & H2 & H3 & H4 & _ & H6 & H7 & H8 & _). rewrite Hk in H3.
  assert (∀ k old, k ≠ secretKeyRotationHoldout → k ∉ pl_del p → upd p k old = old) as Hupd.
  { intros k old Hk' Hnd. apply upd_untouched; [done|].
    destruct Hset as [-> | [x ->]]; cbn; [apply not_elem_of_nil|]. by rewrite list_elem_of_singleton. }
  split; [done|]. unfold clock_ok in *. destruct Hdel as [Hdel|[[c ->] Hdel]].
  - rewrite Hupd in H4, H6, H7, H8 by (by rewrite ?Hdel; try apply not_elem_of_nil).
    destruct v; destruct H3 as [H3 H3']; rewrite H2, H4, ?H3, ?H3', ?H6, ?H7, ?H8, Hto; exact Hv.
  - rewrite Hupd in H4 by done. rewrite H2, H4, Hto. exact Hv.
Qed.

Lemma planSteady_moves r sec d now e p v :
  says (readCARotation sec) now v → rs_phase (readCARotation sec) = caPhaseSteady → d ≤ now ≤ d + latency →
  four_digit_year d = true → planSteady r (readCARotation sec) d d e = Ok (Some p) →
  ∃ v', moves now v v' ∧ says (readCARotation (apply_plan p sec d)) now v'.
Proof.
  intros Hsays Hph Hd Hyear. assert (∃ c, v = Steady c) as [c ->].
  { destruct Hsays as [_ Hv]. destruct v as [c|? ? ?|? ? ?]; [by exists c|..]; destruct Hv as [Hv _]; congruence. }
  unfold planSteady. destruct (strayRotationKeys _) as [|k ks] eqn:Hstray.
  - destruct (rotationDue _ _ _) as [reason|]; [|done].
    destruct (NewRootPEM _ _ _) as [[certPEM keyPEM]|] eqn:Hnew; [|done]. intros [= <-].
    apply NewRootPEM_good in Hnew as (n & -> & Hn & Hkey).
    exists (Published c n now). split; [constructor|]. set (p := {| pl_to := _ |}).
    destruct (read_apply p sec d) as (H1 & H2 & [H3 H3'] & H4 & _ & H6 & H7 & _); [done|done|].
    destruct Hsays as (_ & _ & Hc & Hgood). pose proof (trunc_second_bounds d).
    split; [done|]. unfold clock_ok. rewrite H2, H3, H3', H4, H6, H7.
    split_and!; try done; try lia. apply good_root_later with d; [done|lia].
  - intros [= <-]. exists (Steady c). split; [constructor|].
    assert (∀ x, x ∈ k :: ks → x ∈ [secretKeyCANextCert; secretKeyCANextKey; secretKeyCAPrevCert; secretKeyRotationHoldout;
                                  secretKeyRotationRetireAfter]) as Hsub.
    { intros x. rewrite <- Hstray. unfold strayRotationKeys. rewrite list_elem_of_fmap.
      intros ([k' b] & -> & Hin). apply list_elem_of_filter in Hin as [_ Hin]. cbn [fst].
      apply (list_elem_of_fmap_2 fst) in Hin. exact Hin. }
    apply says_kept; try done.
    + unfold plain_keys. apply forallb_forall. intros x. rewrite <- list_elem_of_In. cbn [pl_del pl_set fmap list_fmap].
      rewrite app_nil_r. intros Hx%Hsub. repeat (apply elem_of_cons in Hx as [->|Hx]; [done|]). by apply elem_of_nil in Hx.
    + by left.
    + right. split; [by exists c|]. cbn [pl_del]. intros Hx%Hsub.
      repeat (apply elem_of_cons in Hx as [Hx|Hx]; [done|]). by apply elem_of_nil in Hx.
Qed.

Lemma planPublishing_moves r sec d now p v :
  rt_cfg r = cfg → says (readCARotation sec) now v → rs_phase (readCARotation sec) = caPhasePublishing →
  d ≤ now ≤ d + latency → four_digit_year d = true → d < ca_NotAfter (rt_authority r) →
  planPublishing r (readCARotation sec) d = Some p →
  ∃ v', moves now v v' ∧ says (readCARotation (apply_plan p sec d)) now v'.
Proof.
  intros Hr Hsays Hph Hd Hyear Htime. assert (∃ o n a, v = Published o n a) as (o & n & a & ->).
  { destruct Hsays as [_ Hv]. destruct v; [|by eauto|]; destruct Hv as [Hv _]; congruence. }
  destruct Hsays as (_ & _ & Hc & Hn & Hkey & (Hok & Hsince & Ha) & Ho & Hgn).
  unfold planPublishing, repairSince. rewrite Hn, Hkey, Hok, cert_pem_nonempty. cbn [negb orb].
  unfold Before. rewrite (proj2 (Z.ltb_lt _ _) Htime), Hr.
  destruct (Sub d _ <? _) eqn:Hsub; [done|]. intros [= <-].
  apply Sub_ge in Hsub; [|destruct Hcfg; unfold Second in *; lia].
  exists (Promoted o n now). split; [constructor; lia|]. set (p := {| pl_to := _ |}).
  destruct (read_apply p sec d) as (H1 & H2 & [H3 H3'] & H4 & _ & _ & _ & H8 & _); [done|done|].
  pose proof (trunc_second_bounds d). split; [done|]. unfold clock_ok. rewrite H2, H3, H3', H4, H8.
  split_and!; try done; lia.
Qed.

Lemma planSigning_moves r sec d now h p v :
  rt_cfg r = cfg → says (readCARotation sec) now v → rs_phase (readCARotation sec) = caPhaseSigning →
  d ≤ now ≤ d + latency → four_digit_year d = true →
  planSigning r (readCARotation sec) d h = Some p →
  ∃ v', moves now v v' ∧ says (readCARotation (apply_plan p sec d)) now v'.
Proof.
  intros Hr Hsays Hph Hd Hyear. assert (∃ q c a, v = Promoted q c a) as (q & c & a & ->).
  { destruct Hsays as [_ Hv]. destruct v; [..|by eauto]; destruct Hv as [Hv _]; congruence. }
  pose proof Hsays as (_ & _ & Hc & Hq & (Hok & Hsince & Ha) & Hgq & Hgc).
  unfold planSigning, repairSince. rewrite Hq, Hok, cert_pem_nonempty, Hr. cbn [negb].
  destruct (Before d _) eqn:Hgate; [done|].
  destruct (Sub d (rt_startedAt r) <? _); [done|].
  destruct (0 <? h _).
  - destruct (Sub d _ <? _); [done|]. intros [= <-]. exists (Promoted q c a). split; [constructor|].
    apply says_kept; try done; [right; by eexists|by left].
  - destruct (negb _ && _); [done|]. intros [= <-].
    exists (Steady c). split.
    + constructor. unfold Before, After, Add in Hgate. rewrite retirementHold_eq in Hgate.
      destruct (_ <? rs_retireAfter _) eqn:E in Hgate; rewrite ?Z.ltb_lt, ?Z.ltb_ge in *; lia.
    + set (p := {| pl_to := _ |}).
      destruct (read_apply p sec d) as (H1 & H2 & _ & H4 & _); [done|done|].
      split; [done|]. by rewrite H2, H4.
Qed.

(** The plan a replica stores at [now], decided at [d] on what the Secret says,
makes it say one of the moves. *)
Lemma plan_moves r sec d now e h p v :
  rt_cfg r = cfg → says (readCARotation sec) now v → d ≤ now ≤ d + latency → four_digit_year d = true →
  (rs_phase (readCARotation sec) = caPhasePublishing → d < ca_NotAfter (rt_authority r)) →
  plan r (readCARotation sec) d d e h = Ok (Some p) →
  ∃ v', moves now v v' ∧ says (readCARotation (apply_plan p sec d)) now v'.
Proof.
  intros Hr Hsays Hd Hyear Htime. unfold plan. pose proof Hsays as [Hunk _]. rewrite Hunk.
  destruct (nonempty (rs_force _) && _) eqn:Hforce.
  - intros [= <-]. exists v. split; [constructor|]. apply says_kept; try done; by left.
  - destruct (rs_phase (readCARotation sec)) eqn:Hph; [|intros [= Hp]..].
    + by apply planSteady_moves.
    + by eapply planPublishing_moves; eauto.
    + by eapply planSigning_moves; eauto.
Qed.

(** * The invariant *)

(** What adopting a Secret read at [a] leads to. *)
Definition snap_ok (v : rot_view) (st : caRotationState) (a : Z) : Prop :=
  match v with
  | Steady c => rs_certPEM st = cert_pem c
  | Published o n at_ =>
    rs_certPEM st = cert_pem o ∧ (at_ < a → additionalRoots st base = joinRootsPEM base (cert_pem n))
  | Promoted p c at_ =>
    rs_certPEM st = cert_pem c ∧ additionalRoots st base = joinRootsPEM base (cert_pem p) ∨
    rs_certPEM st = cert_pem p ∧ additionalRoots st base = joinRootsPEM base (cert_pem c) ∧ a ≤ at_
  end.

(** An authority that adopted what was read at [a]: it trusts a published root it
can have read of, and both roots from the promotion on; only a replica that has
not read of the promotion signs with the outgoing root. *)
Definition auth_ok (v : rot_view) (c : CA) (a : Z) : Prop :=
  match v with
  | Steady x => ca_Certificate c = x
  | Published o n at_ => ca_Certificate c = o ∧ (at_ < a → n ∈ TrustBundle c)
  | Promoted p x at_ =>
    (ca_Certificate c = x ∨ ca_Certificate c = p ∧ a ≤ at_) ∧ p ∈ TrustBundle c ∧ x ∈ TrustBundle c
  end.

(** A certificate that can still be renewed has an issuer every replica trusts. *)
Definition iss_ok (v : rot_view) (now : Z) (i : issuance) : Prop :=
  now ≤ NotAfter (iss_leaf i) + cfg_RenewGrace cfg →
  match v with
  | Steady x => ca_Certificate (iss_authority i) = x
  | Published o _ _ => ca_Certificate (iss_authority i) = o
  | Promoted p x at_ =>
    ca_Certificate (iss_authority i) = x ∨
    ca_Certificate (iss_authority i) = p ∧ NotAfter (iss_leaf i) ≤ at_ + lag + cfg_SpokeCertTTL cfg
  end.

Record authority_wf (c : CA) (now : Z) : Prop := {
  aw_material : material_ok (ca_material c);
  aw_trusted : ca_Certificate c ∈ TrustBundle c;
  aw_domain : TrustDomain (ca_opts c) = cfg_TrustDomain cfg;
  aw_ttl : SpokeCertTTL (ca_opts c) = cfg_SpokeCertTTL cfg;
  aw_begun : NotBefore (ca_Certificate c) ≤ now
}.

Record issuance_wf (now : Z) (i : issuance) : Prop := {
  iw_authority : authority_wf (iss_authority i) (iss_at i);
  iw_issued : ∃ pem, IssueSpokeFromCSR (iss_authority i) (iss_csr i) (iss_cluster i) (iss_at i) (iss_serial i)
                     = Ok (pem, Some (iss_leaf i));
  iw_past : iss_at i ≤ now
}.

(** A snapshot that still has the Secret's version is the Secret. *)
Definition current (sec s : CaSecret) : Prop :=
  sec_Version s ≤ sec_Version sec ∧ (sec_Version s = sec_Version sec → s = sec).

Definition poll_ok (now : Z) (sec : CaSecret) (v : rot_view) (rp : replica) : Prop :=
  match rp_poll rp with
  | Idle => True
  | Got s a _ => rp_read_at rp ≤ a ≤ now ∧ snap_ok v (readCARotation s) a ∧ current sec s
  | Ready s => current sec s
  | Writing s new d =>
    current sec s ∧ d ≤ now ≤ d + latency ∧ four_digit_year d = true ∧
    ∃ p e h, new = apply_plan p s d ∧ plan (rp_rotator rp) (readCARotation s) d d e h = Ok (Some p) ∧
             (rs_phase (readCARotation s) = caPhasePublishing → d < ca_NotAfter (rt_authority (rp_rotator rp)))
  end.

Record replica_ok (now : Z) (sec : CaSecret) (v : rot_view) (rp : replica) : Prop := {
  ro_cfg : rt_cfg (rp_rotator rp) = cfg;
  ro_base : rt_base (rp_rotator rp) = base;
  ro_adopted : adopted (rp_rotator rp);
  ro_authority : authority_wf (rt_authority (rp_rotator rp)) now;
  ro_fresh : rp_read_at rp ≤ now ≤ rp_read_at rp + lag;
  ro_auth : auth_ok v (rt_authority (rp_rotator rp)) (rp_read_at rp);
  ro_poll : poll_ok now sec v rp
}.

Record fleet_ok (w : fleet) (v : rot_view) : Prop := {
  fo_says : says (readCARotation (fl_secret w)) (fl_now w) v;
  fo_year : four_digit_year (fl_now w) = true;
  fo_replicas : ∀ i rp, fl_replicas w !! i = Some rp → replica_ok (fl_now w) (fl_secret w) v rp;
  fo_issued : Forall (λ i, issuance_wf (fl_now w) i ∧ iss_ok v (fl_now w) i) (fl_issued w)
}.

(** ** Moves of the Secret keep it *)

Lemma auth_moves now v v' c a :
  moves now v v' → ca_Certificate c ∈ TrustBundle c → a ≤ now ≤ a + lag → auth_ok v c a → auth_ok v' c a.
Proof.
  intros Hm Hin Ha. destruct Hcfg. inversion Hm; subst; cbn; [done|..].
  - intros <-. split; [done|lia].
  - intros [<- Hn]. split_and!; [right; split; [done|lia]|done|apply Hn; lia].
  - intros [[->|[-> Hp]] _]; [done|lia].
Qed.

Lemma snap_moves now v v' st a :
  moves now v v' → a ≤ now ≤ a + lag → snap_ok v st a → snap_ok v' st a.
Proof.
  intros Hm Ha. destruct Hcfg. inversion Hm; subst; cbn; [done|..].
  - intros ->. split; [done|lia].
  - intros [-> Hn]. right. split_and!; [done|apply Hn; lia|lia].
  - intros [[-> _]|(_ & _ & Hp)]; [done|lia].
Qed.

Lemma iss_moves now v v' i :
  moves now v v' → NotAfter (iss_leaf i) ≤ iss_at i + cfg_SpokeCertTTL cfg → iss_at i ≤ now →
  iss_ok v now i → iss_ok v' now i.
Proof.
  intros Hm Hl Hi Hok Hlive. specialize (Hok Hlive). destruct Hcfg. inversion Hm; subst; cbn in *; [done|done|..].
  - right. split; [done|lia].
  - destruct Hok as [Hok|[_ Hok]]; [done|lia].
Qed.

Lemma issued_lifetime now i :
  issuance_wf now i → NotAfter (iss_leaf i) ≤ iss_at i + cfg_SpokeCertTTL cfg.
Proof.
  intros [[Hm _ Hd Ht _] [pem Hi] _].
  apply IssueSpokeFromCSR_leaf in Hi as (l & [= <-] & _ & _ & _ & _ & _ & _ & _ & _ & _ & _ & -> & _ & _);
    [|done|rewrite Hd; by destruct Hcfg].
  rewrite Ht. pose proof (trunc_second_bounds (Z.min (iss_at i + cfg_SpokeCertTTL cfg) (ca_NotAfter (iss_authority i)))). lia.
Qed.

Lemma poll_moves now sec sec' v v' rp :
  moves now v v' → rp_read_at rp ≤ now ≤ rp_read_at rp + lag → sec_Version sec' = sec_Version sec + 1 →
  poll_ok now sec v rp → poll_ok now sec' v' rp.
Proof.
  intros Hm Hf Hver. assert (∀ s, current sec s → current sec' s) as Hcur by (intros s [? _]; split; lia).
  unfold poll_ok. destruct (rp_poll rp); [done|..].
  - intros (Ha & Hs & Hc). split_and!; [lia|lia| |by apply Hcur]. eapply snap_moves; [done|lia|done].
  - apply Hcur.
  - intros (Hc & Hrest). split; [by apply Hcur|done].
Qed.

Lemma replica_moves now sec sec' v v' rp :
  moves now v v' → sec_Version sec' = sec_Version sec + 1 →
  replica_ok now sec v rp → replica_ok now sec' v' rp.
Proof.
  intros Hm Hver [H1 H2 H3 H4 H5 H6 H7]. split; try done.
  - eapply auth_moves; eauto. apply H4.
  - by eapply poll_moves.
Qed.

(** ** Adopting keeps it *)

Lemma view_snap st now v a : says st now v → a ≤ now → snap_ok v st a.
Proof.
  intros [Hu Hv] Ha. destruct v; cbn; unfold additionalRoots; rewrite ?Hu.
  - by destruct Hv as (_ & -> & _).
  - destruct Hv as (-> & -> & -> & _). done.
  - destruct Hv as (-> & -> & -> & _). left. done.
Qed.

Lemma view_good st now v c :
  says st now v →
  match v with Steady x => c = x | Published o n _ => c = o ∨ c = n | Promoted p x _ => c = p ∨ c = x end →
  good_root c now.
Proof. intros [_ Hv]. destruct v; naive_solver. Qed.

Lemma sync_wf now sec v rp st r' x :
  replica_ok now sec v rp → sync (rp_rotator rp) st = Ok r' → good_root x now → rs_certPEM st = cert_pem x →
  rt_cfg r' = cfg ∧ rt_base r' = base ∧ adopted r' ∧ authority_wf (rt_authority r') now ∧
  ca_Certificate (rt_authority r') = x ∧
  ∀ n, good_root n now → additionalRoots st base = joinRootsPEM base (cert_pem n) → n ∈ TrustBundle (rt_authority r').
Proof.
  intros [H1 H2 H3 [A1 A2 A3 A4 A5] _ _ _] Hs [Gx Gw Gb] Hx.
  destruct (sync_adopts _ _ _ _ Hs H3 (conj A1 A2) Gx Gw Hx) as (Had & [Hm Ht] & (E1 & E2 & E3) & Ec & Hn).
  rewrite H2 in E2, Hn. split_and!; [congruence|done|done| |done|].
  - split; [done|done|congruence|congruence|by rewrite Ec].
  - intros n [Gn _ _]. by apply Hn.
Qed.

Lemma sync_ok st0 now sec v rp st a r' :
  says st0 now v → replica_ok now sec v rp → snap_ok v st a → sync (rp_rotator rp) st = Ok r' →
  rt_cfg r' = cfg ∧ rt_base r' = base ∧ adopted r' ∧ authority_wf (rt_authority r') now ∧
  auth_ok v (rt_authority r') a.
Proof.
  intros Hsays Hrp Hsnap Hs. pose proof (λ c, view_good _ _ _ c Hsays) as Hg.
  assert (∀ x, good_root x now → rs_certPEM st = cert_pem x → _) as Hwf
    by exact (λ x, sync_wf _ _ _ _ _ _ x Hrp Hs).
  destruct v as [c|o n at_|p c at_]; cbn in *.
  - destruct (Hwf c) as (? & ? & ? & ? & ? & _); [by apply Hg|done|done].
  - destruct Hsnap as [Hc Hn]. destruct (Hwf o) as (? & ? & ? & ? & ? & Hin); [apply Hg; by left|done|].
    split_and!; try done. intros Ha. apply Hin; [apply Hg; by right|by apply Hn].
  - destruct Hsnap as [[Hc Hn]|(Hc & Hn & Ha)].
    + destruct (Hwf c) as (? & ? & ? & [] & ? & Hin); [apply Hg; by right|done|].
      split_and!; try done; [by left|apply Hin; [apply Hg; by left|done]|congruence].
    + destruct (Hwf p) as (? & ? & ? & [] & ? & Hin); [apply Hg; by left|done|].
      split_and!; try done; [by right|congruence|apply Hin; [apply Hg; by right|done]].
Qed.

Lemma domain_nonempty : cfg_TrustDomain cfg ≠ "" ∧ cfg_SpokeCertTTL cfg ≠ 0.
Proof. destruct Hcfg as [Hd Ht]. split; [intros E; by rewrite E in Hd|unfold Second in *; lia]. Qed.

Lemma startup_wf sec c x now :
  startup cfg base sec = Ok c → good_root x now → rs_certPEM (readCARotation sec) = cert_pem x →
  authority_wf c now ∧ ca_Certificate c = x ∧
  ∀ n, good_root n now → additionalRoots (readCARotation sec) "" = cert_pem n → n ∈ TrustBundle c.
Proof.
  intros Hs [Gx Gw Gb] Hx. destruct domain_nonempty as [Hd Ht].
  destruct (startup_adopts _ _ _ _ _ Hs Gx Gw Hx Hd Ht) as (Hm & Hin & Ec & Ed & Et & Hn).
  split_and!; [|done|].
  - split; [done|congruence|done|done|by rewrite Ec].
  - intros n [Gn _ _] Hadd. by apply Hn.
Qed.

Lemma startup_ok sec v c now a :
  says (readCARotation sec) now v → startup cfg base sec = Ok c →
  authority_wf c now ∧ auth_ok v c a.
Proof.
  intros Hsays Hs. pose proof (λ c, view_good _ _ _ c Hsays) as Hg. destruct Hsays as [Hu Hv].
  destruct v as [x|o n at_|p x at_]; cbn [auth_ok] in *.
  - destruct Hv as (_ & Hc & _). destruct (startup_wf sec c x now) as (? & ? & _); [done|by apply Hg|done|done].
  - destruct Hv as (Hp & Hc & Hn & _). destruct (startup_wf sec c o now) as (? & ? & Hin); [done|apply Hg; by left|done|].
    split_and!; try done. intros _. apply Hin; [apply Hg; by right|].
    unfold additionalRoots. by rewrite Hu, Hp, Hn.
  - destruct Hv as (Hp & Hc & Hn & _). destruct (startup_wf sec c x now) as ([] & ? & Hin); [done|apply Hg; by right|done|].
    split_and!; try done; [by left| |congruence]. apply Hin; [apply Hg; by left|].
    unfold additionalRoots. by rewrite Hu, Hp, Hn.
Qed.

(** ** Every event keeps it *)

Lemma authority_later c t u : authority_wf c t → t ≤ u → authority_wf c u.
Proof. intros [H1 H2 H3 H4 H5] Hu. split; try done. lia. Qed.

Lemma replica_later t u sec v rp :
  replica_ok t sec v rp → t ≤ u → keeps_up u rp = true → replica_ok u sec v rp.
Proof.
  intros [H1 H2 H3 H4 H5 H6 H7] Hu. unfold keeps_up. rewrite andb_true_iff, Z.leb_le. intros [Hk1 Hk2].
  split; try done; [by eapply authority_later|lia|].
  unfold poll_ok in *. destruct (rp_poll rp); try done.
  - destruct H7 as ([? ?] & ?). split; [lia|done].
  - apply Z.leb_le in Hk2. destruct H7 as (? & [? ?] & ? & ?). split_and!; try done; lia.
Qed.

Lemma says_later st t u v : says st t v → t ≤ u → says st u v.
Proof.
  intros [H Hv] Hu. split; [done|].
  destruct v; unfold clock_ok in *; destruct_and?; split_and!; try done; try lia; by eapply good_root_later.
Qed.

Lemma tick_ok w v d w' : fleet_ok w v → fleet_exec (Tick d) w = Some w' → fleet_ok w' v.
Proof.
  intros [Hs Hy Hr Hi]. cbn. destruct (_ && _) eqn:E; [|done]. intros [= <-].
  rewrite !andb_true_iff, Z.leb_le, forallb_forall in E. destruct E as ([Hd Hy'] & Hk). split; cbn; [|done|..].
  - eapply says_later; [done|lia].
  - intros i rp Hrp. eapply replica_later; [by eapply Hr|lia|]. apply (Hk (i, rp)).
    by apply list_elem_of_In, elem_of_map_to_list.
  - eapply Forall_impl; [done|]. intros i [[] Hiss]. split; [split; try done; lia|].
    intros ?. apply Hiss. lia.
Qed.

Lemma put_replica w v i rp :
  fleet_ok w v → replica_ok (fl_now w) (fl_secret w) v rp → fleet_ok (with_replica w i rp) v.
Proof.
  intros [Hs Hy Hr Hi] Hrp. split; cbn; try done.
  intros j rp'. rewrite lookup_insert. case_decide; [by intros [= <-]|by apply Hr].
Qed.

Lemma set_poll now sec v rp p :
  replica_ok now sec v rp → poll_ok now sec v (at_poll rp p) → replica_ok now sec v (at_poll rp p).
Proof. intros []. by split. Qed.

(** A new version of the Secret that says what a move of the old one says. *)
Lemma secret_moves w v v' sec reps :
  fleet_ok w v → moves (fl_now w) v v' → says (readCARotation sec) (fl_now w) v' →
  sec_Version sec = sec_Version (fl_secret w) + 1 →
  (∀ i rp, reps !! i = Some rp → replica_ok (fl_now w) (fl_secret w) v rp ∨ replica_ok (fl_now w) sec v' rp) →
  fleet_ok {| fl_now := fl_now w; fl_secret := sec; fl_replicas := reps; fl_issued := fl_issued w |} v'.
Proof.
  intros [Hs Hy Hr Hi] Hm Hs' Hver Hreps. split; cbn; [done|done|..].
  - intros i rp Hrp. destruct (Hreps i rp Hrp); [by eapply replica_moves|done].
  - eapply Forall_impl; [done|]. intros i [Hwf Hiss]. split; [done|].
    eapply iss_moves; [done|by eapply issued_lifetime|apply Hwf|done].
Qed.

Lemma write_event_ok w v i o w' :
  fleet_ok w v → fleet_exec (Write i o) w = Some w' → ∃ v', fleet_ok w' v'.
Proof.
  intros Hw. cbn. destruct (fl_replicas w !! i) as [rp|] eqn:Hrp; [|done]. cbn.
  pose proof (fo_replicas _ _ Hw _ _ Hrp) as Hok. pose proof (ro_poll _ _ _ _ Hok) as Hpoll.
  unfold poll_ok in Hpoll. destruct (rp_poll rp) as [| | |s new d] eqn:Ep; try done.
  destruct Hpoll as ([_ Hcur] & Hd & Hyear & p & e & h & -> & Hplan & Htime).
  assert (o = NotApplied ∨ o ≠ NotApplied) as [->|Ho] by (destruct o; auto).
  { intros [= <-]. exists v. apply put_replica; [done|]. by apply set_poll. }
  intros H. assert (sec_Version s = sec_Version (fl_secret w)) as Hver.
  { by destruct (Z.eqb_spec (sec_Version s) (sec_Version (fl_secret w))); destruct o. }
  specialize (Hcur Hver). subst s. rewrite Z.eqb_refl in H.
  destruct (plan_moves (rp_rotator rp) (fl_secret w) d (fl_now w) e h p v) as (v' & Hm & Hs');
    [apply Hok|apply Hw|done|done|done|done|].
  exists v'. set (new := apply_plan p (fl_secret w) d) in *.
  assert (w' = {| fl_now := fl_now w; fl_secret := stored w new;
                  fl_replicas := <[i := at_poll rp (match o with Acked => Got (stored w new) (fl_now w) true | _ => Idle end)]> (fl_replicas w);
                  fl_issued := fl_issued w |}) as -> by (by destruct o; [injection H as <-|injection H as <-|]).
  eapply secret_moves; try done. intros j rp'. rewrite lookup_insert. case_decide as E; [|left; by eapply fo_replicas].
  intros [= <-]. right. apply set_poll; [by eapply replica_moves|].
  destruct o; [|done..]. unfold poll_ok. cbn. pose proof (ro_fresh _ _ _ _ Hok). split_and!; [lia|lia| |split; lia || done].
  by eapply view_snap.
Qed.

Lemma join_ok w v i w' : fleet_ok w v → fleet_exec (Join i) w = Some w' → fleet_ok w' v.
Proof.
  intros Hw. cbn. destruct (fl_replicas w !! i); [done|]. destruct (startup _ _ _) as [c|] eqn:Hs; [|done].
  intros [= <-]. apply put_replica; [done|].
  destruct (startup_ok _ v _ (fl_now w) (fl_now w) (fo_says _ _ Hw) Hs) as [Hwf Hauth].
  destruct Hcfg. split; cbn; try done; [by left|lia].
Qed.

Lemma adopt_ok w v i w' : fleet_ok w v → fleet_exec (Adopt i) w = Some w' → fleet_ok w' v.
Proof.
  intros Hw. cbn. destruct (fl_replicas w !! i) as [rp|] eqn:Hrp; [|done]. cbn.
  pose proof (fo_replicas _ _ Hw _ _ Hrp) as Hok. pose proof (ro_poll _ _ _ _ Hok) as Hpoll.
  unfold poll_ok in Hpoll. destruct (rp_poll rp) as [|s a fin| |] eqn:Ep; try done. intros [= <-].
  destruct Hpoll as (Ha & Hsnap & Hcur). apply put_replica; [done|].
  destruct (sync _ _) as [r'|] eqn:Hs; [|by apply set_poll].
  destruct (sync_ok _ _ _ _ _ _ a _ (fo_says _ _ Hw) Hok Hsnap Hs) as (? & ? & ? & ? & ?).
  pose proof (ro_fresh _ _ _ _ Hok). split; cbn; try done; [lia|]. by destruct fin.
Qed.

Lemma issue_ok w v i csr cluster serial w' :
  fleet_ok w v → fleet_exec (Issue i csr cluster serial) w = Some w' → fleet_ok w' v.
Proof.
  intros Hw. cbn. destruct (fl_replicas w !! i) as [rp|] eqn:Hrp; [|done]. cbn.
  pose proof (fo_replicas _ _ Hw _ _ Hrp) as [_ _ _ Hwf Hfresh Hauth _].
  destruct (IssueSpokeFromCSR _ _ _ _ _) as [[pem [leaf|]]|] eqn:Hi; try done. intros [= <-].
  destruct Hw as [Hs Hy Hr Hiss]. split; cbn; try done. constructor; [|done].
  set (i0 := {| iss_authority := _ |}). assert (issuance_wf (fl_now w) i0) as Hi0.
  { split; [done|by exists pem|cbn; lia]. }
  split; [done|]. intros _. pose proof (issued_lifetime _ _ Hi0) as Hl. cbn in *.
  destruct v; cbn in *; [done|tauto|]. destruct Hauth as [[->|[-> Ha]] _]; [by left|right]. split; [done|lia].
Qed.

Lemma decide_ok w v i e h w' : fleet_ok w v → fleet_exec (Decide i e h) w = Some w' → fleet_ok w' v.
Proof.
  intros Hw. cbn. destruct (fl_replicas w !! i) as [rp|] eqn:Hrp; [|done]. cbn.
  pose proof (fo_replicas _ _ Hw _ _ Hrp) as Hok. pose proof (ro_poll _ _ _ _ Hok) as Hpoll.
  unfold poll_ok in Hpoll. destruct (rp_poll rp) as [| |s|] eqn:Ep; try done.
  destruct (in_time _ _ _) eqn:Ht; [|done]. intros [= <-]. apply put_replica; [done|]. apply set_poll; [done|].
  destruct (plan _ _ _ _ _ _) as [[p|]|] eqn:Hp; try done. unfold poll_ok. cbn [at_poll rp_poll rp_rotator].
  destruct Hcfg. split_and!; [done|lia|lia|apply Hw|]. exists p, e, h. split_and!; try done.
  intros Hph. unfold in_time in Ht. rewrite Hph in Ht. by apply Z.ltb_lt in Ht.
Qed.

Lemma fleet_exec_ok w v ev w' : fleet_ok w v → fleet_exec ev w = Some w' → ∃ v', fleet_ok w' v'.
Proof.
  intros Hw H. destruct ev as [d|i|i|i|i|i e h|i o|i csr cl sn|why].
  - exists v. by eapply tick_ok.
  - exists v. by eapply join_ok.
  - exists v. injection H as <-. destruct Hw as [Hs Hy Hr Hi]. split; cbn; try done.
    intros j rp [_ Hrp]%lookup_delete_Some. by eapply Hr.
  - exists v. revert H. cbn. destruct (fl_replicas w !! i) as [rp|] eqn:Hrp; [|done]. cbn.
    destruct (rp_poll rp); try done. intros [= <-].
    pose proof (fo_replicas _ _ Hw _ _ Hrp) as Hok. apply put_replica; [done|]. apply set_poll; [done|].
    pose proof (ro_fresh _ _ _ _ Hok). unfold poll_ok, current. cbn [at_poll rp_poll rp_read_at].
    split_and!; [lia|lia|eapply view_snap; [by apply Hw|lia]|lia|done].
  - exists v. by eapply adopt_ok.
  - exists v. by eapply decide_ok.
  - by eapply write_event_ok.
  - exists v. by eapply issue_ok.
  - exists v. injection H as <-. eapply secret_moves; [done|constructor|apply Hw|done|].
    intros i rp Hrp. left. by eapply Hw.
Qed.

Lemma fleet_run_ok evs w v w' : fleet_ok w v → fleet_run evs w = Some w' → ∃ v', fleet_ok w' v'.
Proof.
  revert w v. induction evs as [|ev evs IH]; intros w v Hw; cbn; [intros [= <-]; by exists v|].
  destruct (fleet_exec ev w) as [w1|] eqn:H1; [|done]. cbn. destruct (fleet_exec_ok _ _ _ _ Hw H1) as [v1 Hv1].
  by apply IH with v1.
Qed.

(** A fleet about to start: a Secret that holds one root the hub generated, no
replica, nothing issued. *)
Record fleet_init (w : fleet) (root : Certificate) : Prop := {
  fi_year : four_digit_year (fl_now w) = true;
  fi_root : good_root root (fl_now w);
  fi_cert : map_get (sec_Data (fl_secret w)) secretKeyCACert = cert_pem root;
  fi_phase : map_get (sec_Data (fl_secret w)) secretKeyRotationPhase ∈ ["" ; "steady"];
  fi_replicas : fl_replicas w = ∅;
  fi_issued : fl_issued w = []
}.

Lemma fleet_init_ok w root : fleet_init w root → fleet_ok w (Steady root).
Proof.
  intros [Hy Hroot Hc Hp Hr Hi]. split; [|done| |by rewrite Hi].
  - assert (∀ raw, raw ∈ [""; "steady"] →
        default caPhaseSteady (find (λ p, String.eqb (caPhase_string p) raw) caPhases) = caPhaseSteady ∧
        nonempty raw && negb (bool_decide (is_Some (find (λ p, String.eqb (caPhase_string p) raw) caPhases))) = false)
      as Hph.
    { intros raw [->|[->|[]%elem_of_nil]%elem_of_cons]%elem_of_cons; vm_compute; done. }
    destruct (Hph _ Hp) as [H1 H2]. split; [exact H2|]. split; [exact H1|]. split; [exact Hc|done].
  - intros i rp. rewrite Hr. by rewrite lookup_empty.
Qed.


End fleet.

(** * A fleet that runs *)

(** Instants as numbers of seconds. *)
Module ToyTime.
Definition format (t : Z) : string := String "t" (Toy.pos_bits (encode (trunc_second t))).
Definition parse (s : string) : option Z :=
  match s with String "t" s => decode (Toy.bits_pos s) | _ => None end.
Lemma parse_format t : parse (format t) = Some (trunc_second t).
Proof. cbn. by rewrite Toy.bits_pos_bits, decode_encode. Qed.
End ToyTime.

#[export] Instance toy_rfc3339 : Rfc3339 := {
  format_rfc3339 := ToyTime.format;
  parse_rfc3339 := ToyTime.parse;
  parse_format_rfc3339 t _ := ToyTime.parse_format t;
  format_rfc3339_nonempty t H := ltac:(discriminate H);
  parse_rfc3339_empty := eq_refl
}.

Definition toy_cfg : rot_config :=
  {| cfg_TrustDomain := "f"; cfg_SpokeCertTTL := 20 * Second; cfg_RenewGrace := 5 * Second;
     cfg_PollInterval := 10 * Second; cfg_RemainingFraction := 0.25%float |}.
Definition toy_lag : Z := 12 * Second.
Definition toy_latency : Z := 1 * Second.

Definition toy_fleet : fleet :=
  {| fl_now := toy_now;
     fl_secret := {| sec_Data := {[ secretKeyCACert := toy_old_pem;
                                    secretKeyCAKey := snd (ok_or ("", "") (toy_root "a" 1 toy_now)) ]};
                     sec_Annotations := ∅; sec_Version := 1 |};
     fl_replicas := ∅; fl_issued := [] |}.

Definition toy_entropy : root_entropy :=
  {| re_key := Some {| key_p256 := true; key_point := "b" |}; re_serial := Some 2 |}.
Definition poll (i : nat) : list event := [Fetch i; Adopt i; Decide i toy_entropy (λ _, 0)].

(** Two replicas, an operator's request, the successor published and promoted by
the first replica, which then issues while the second still signs with the old
root. *)
Definition toy_promoting : list event :=
  ([Join 0; Join 1; RotateNow "lost laptop"] ++ poll 0 ++ [Write 0 Acked; Adopt 0] ++
   [Tick (10 * Second)] ++ poll 1 ++ poll 0 ++ [Tick (10 * Second)] ++ poll 0 ++ [Write 0 Acked; Adopt 0;
    Issue 0 "k" "c1" (Some 7)])%list.

Definition toy_run (evs : list event) : fleet :=
  default toy_fleet (fleet_run toy_cfg "" toy_lag toy_latency evs toy_fleet).

Lemma toy_config_ok : config_ok toy_cfg toy_lag toy_latency.
Proof. by split; vm_compute. Qed.

Definition toy_root_cert : Certificate := ca_Certificate toy_old.

Lemma toy_fleet_init : fleet_init toy_fleet toy_root_cert.
Proof.
  split; [vm_compute; reflexivity| |vm_compute; reflexivity| |done|done].
  - split; [split|..]; vm_compute; done.
  - vm_compute. apply list_elem_of_here.
Qed.

Definition no_rotator_state : caRotator := new_rotator toy_cfg "" no_ca 0.
Definition toy_replica (w : fleet) (i : nat) : replica :=
  default {| rp_rotator := no_rotator_state; rp_read_at := 0; rp_poll := Idle |} (fl_replicas w !! i).
Definition toy_issued (w : fleet) : issuance :=
  default {| iss_authority := no_ca; iss_csr := ""; iss_cluster := ""; iss_at := 0; iss_serial := None;
             iss_leaf := no_cert |} (head (fl_issued w)).


(** The Secret the first replica published, read as a rotation. *)
Definition toy_publishing : fleet := toy_run (take 8 toy_promoting).

Lemma toy_published_coherent : coherent (readCARotation (fl_secret toy_publishing)).
Proof.
  split; [vm_compute; reflexivity|]. split.
  - exists toy_root_cert, {| key_p256 := true; key_point := "a" |}.
    split_and!; [split|..]; vm_compute; reflexivity.
  - assert (rs_phase (readCARotation (fl_secret toy_publishing)) = caPhasePublishing) as -> by (vm_compute; reflexivity).
    split_and!; [|vm_compute; reflexivity..].
    exists (ok_or no_cert (parseCertificatePEM (rs_nextCertPEM (readCARotation (fl_secret toy_publishing))))),
      {| key_p256 := true; key_point := "b" |}.
    split_and!; [split|..]; vm_compute; reflexivity.
Qed.

Lemma plan_coherent_witness :
  let r := rp_rotator (toy_replica toy_publishing 0) in
  let sec := fl_secret toy_publishing in
  let t := toy_now + 20 * Second in
  match plan r (readCARotation sec) t t toy_entropy (λ _, 0) with
  | Ok (Some p) => write_ok (readCARotation sec) (readCARotation (apply_plan p sec t)) ∧ pl_to p = caPhaseSigning
  | _ => False
  end.
Proof.
  intros r sec t. destruct (plan r (readCARotation sec) t t toy_entropy (λ _, 0)) as [[p|]|] eqn:E;
    [|exfalso; vm_compute in E; discriminate..].
  split.
  - apply (plan_coherent r sec t t t toy_entropy (λ _, 0) p); [exact toy_published_coherent|vm_compute; reflexivity|intros k Hk; injection Hk as <-; reflexivity|exact E].
  - vm_compute in E. injection E as <-. reflexivity.
Defined.

Lemma rotation_completes_witness :
  let r := rp_rotator (toy_replica toy_publishing 0) in
  let st := readCARotation (fl_secret toy_publishing) in
  ∃ p1 p2,
    plan r st (toy_now + 20 * Second) (toy_now + 20 * Second) toy_entropy (λ _, 0) = Ok (Some p1) ∧
    let st2 := readCARotation (apply_plan p2 (apply_plan p1 (fl_secret toy_publishing) (toy_now + 20 * Second))
                                 (toy_now + 65 * Second)) in
    rs_phase st2 = caPhaseSteady ∧ rs_certPEM st2 = rs_nextCertPEM st.
Proof.
  intros r st.
  destruct (rotation_completes r r (fl_secret toy_publishing) (toy_now + 20 * Second) (toy_now + 65 * Second)
              toy_entropy toy_entropy (λ _, 0) (λ _, 0)) as (p1 & p2 & H1 & _ & H2 & _ & H3 & _);
    [exact toy_published_coherent|vm_compute; reflexivity|vm_compute; reflexivity|vm_compute; discriminate|reflexivity
    |vm_compute; discriminate|vm_compute; discriminate|vm_compute; discriminate|done
    |vm_compute; reflexivity|vm_compute; reflexivity|vm_compute; reflexivity|].
  exists p1, p2. split; [exact H1|]. split; [exact H2|exact H3].
Defined.

Lemma holdoutsOn_correct_witness :
  let t : caIssuerTracker := {[ "1" := {| is_fingerprint := "old"; is_at := 0 |};
                                "2" := {| is_fingerprint := "old"; is_at := 0 |} ]} in
  (holdoutsOn (String.eqb "1") Hour "old" (map_to_list t) t).1 = 1.
Proof. intros t. rewrite holdoutsOn_correct; [vm_compute; reflexivity|done]. Defined.

(** ** Shortening the lifetime before the promotion

A certificate is issued for 100 seconds while the successor is being published;
the hubs are then restarted with a lifetime of 20 seconds.  The successor is
promoted and the old root retired on the new clock alone, and the certificate is
refused thirty seconds before it expires. *)

Definition long_cfg : rot_config :=
  {| cfg_TrustDomain := "f"; cfg_SpokeCertTTL := 100 * Second; cfg_RenewGrace := 5 * Second;
     cfg_PollInterval := 10 * Second; cfg_RemainingFraction := cfg_RemainingFraction toy_cfg |}.
Definition beat (i : nat) : list event := Tick (10 * Second) :: poll i.
Definition before_restart : list event :=
  ([Join 0; RotateNow "key on a stick"; Issue 0 "k" "c1" (Some 7)] ++ poll 0 ++ [Write 0 Acked; Adopt 0] ++ beat 0 ++
   [Leave 0])%list.
Definition after_restart : list event :=
  ([Join 1] ++ beat 1 ++ [Write 1 Acked; Adopt 1] ++ beat 1 ++ beat 1 ++ beat 1 ++ beat 1 ++ beat 1 ++
   [Write 1 Acked; Adopt 1])%list.
Definition shortened : option fleet :=
  w ← fleet_run long_cfg "" toy_lag toy_latency before_restart toy_fleet;
  fleet_run toy_cfg "" toy_lag toy_latency after_restart w.

Lemma shortening_strands :
  ∃ w, shortened = Some w ∧
    let leaf := iss_leaf (toy_issued w) in
    fl_now w + 30 * Second = NotAfter leaf ∧
    VerifyChainAllowingExpiry (rt_authority (rp_rotator (toy_replica w 1))) [leaf] (5 * Second) (fl_now w) (fl_now w)
    = Some (Err ErrUntrustedChain).
Proof. exists (default toy_fleet shortened). split; [|cbv zeta; split]; vm_compute; reflexivity. Qed.
