(* ===== verification/Bootstrap.v ===== *)
(** First boot: [src/internal/hub/bootstrap.go], with [ca.LoadOrCreate]
([src/internal/ca/ca.go]) and the pepper file
([src/internal/token/pepper.go]).

Hubs have no volume of their own: the CA keypair and the HMAC pepper live in one
Secret, which a starting replica copies to its scratch directory and, on first
boot, fills with what it generated.  A replica's [prepare] is a sequence of steps
between which other replicas act; each call to the API server may fail, or take
effect and lose its answer.  The scratch directory is the replica's own, and
reading and writing it succeeds. *)

From S2P Require Import Prelude Text Ca CaRotation CaFleet.
Open Scope string_scope.
Open Scope Z_scope.

Definition secretKeyPepper : string := "pepper.key".
Definition MinPepperBytes : nat := 32.
Definition initPollAttempts : nat := 500.

Inductive boot_error := boot_ca (e : ca_error) | boot_pepper | boot_kube (verb : string) | boot_empty.

(** [caMaterial] of the [hub] package. *)
Record caStored := { cs_cert : string; cs_key : string; cs_pepper : string; cs_extraRoots : string }.

Definition stored_empty (m : caStored) : bool :=
  negb (nonempty (cs_cert m)) && negb (nonempty (cs_key m)) && negb (nonempty (cs_pepper m)).
Definition stored_complete (m : caStored) : bool :=
  nonempty (cs_cert m) && nonempty (cs_key m) && nonempty (cs_pepper m).

(** The scratch directory. *)
Record disk := { dk_cert : option string; dk_key : option string; dk_pepper : option string }.

Inductive get_answer := GotSecret (sec : CaSecret) | SecretNotFound | GetFailed.

(** What one replica draws: a root and a pepper. *)
Record boot_entropy := { be_root : root_entropy; be_pepper : option string }.

Section bootstrap.
Context `{X : X509} `{R : Rfc3339}.
Variables (cfg : rot_config) (base : string).

Definition stored_of (sec : CaSecret) : caStored :=
  {| cs_cert := map_get (sec_Data sec) secretKeyCACert; cs_key := map_get (sec_Data sec) secretKeyCAKey;
     cs_pepper := map_get (sec_Data sec) secretKeyPepper;
     cs_extraRoots := additionalRoots (readCARotation sec) "" |}.

Definition load (ans : get_answer) : result boot_error caStored :=
  match ans with
  | SecretNotFound => Ok {| cs_cert := ""; cs_key := ""; cs_pepper := ""; cs_extraRoots := "" |}
  | GetFailed => Err (boot_kube "read")
  | GotSecret sec => Ok (stored_of sec)
  end.

Definition write_field (old : option string) (data : string) : option string :=
  if nonempty data then Some data else old.

Definition materialise (m : caStored) (d : disk) : disk :=
  {| dk_cert := write_field (dk_cert d) (cs_cert m); dk_key := write_field (dk_key d) (cs_key m);
     dk_pepper := write_field (dk_pepper d) (cs_pepper m) |}.

Definition boot_options (roots : string) : Options :=
  {| TrustDomain := cfg_TrustDomain cfg; SpokeCertTTL := cfg_SpokeCertTTL cfg; CATTL := 0; AdditionalRootsPEM := roots |}.

(** [ca.Load]. *)
Definition ca_Load (d : disk) (o : Options) : result ca_error CA :=
  match dk_cert d, dk_key d with
  | Some certPEM, Some keyPEM => ca_Parse certPEM keyPEM o
  | _, _ => Err ErrCANotFound
  end.

(** [ca.Create] where neither file exists. *)
Definition ca_Create (d : disk) (o : Options) (now : Z) (e : root_entropy) : result ca_error (CA * disk) :=
  let o := withDefaults o in
  _ ← opts_validate o;
  additional ← opts_additionalRoots (AdditionalRootsPEM o);
  m ← mintRoot o now e;
  let '(cert, key, certPEM, keyPEM) := m in
  Ok (newCA o cert key additional, {| dk_cert := Some certPEM; dk_key := Some keyPEM; dk_pepper := dk_pepper d |}).

(** The directory does not change under the loop, so an attempt that finds one
file of the two is followed by another that does. *)
Fixpoint LoadOrCreate (attempts : nat) (d : disk) (o : Options) (now : Z) (e : root_entropy)
    : result ca_error (CA * disk) :=
  match attempts with
  | O => Err ErrCAIncomplete
  | S attempts =>
    match dk_cert d, dk_key d with
    | Some _, Some _ => c ← ca_Load d o; Ok (c, d)
    | None, None => ca_Create d o now e
    | _, _ => LoadOrCreate attempts d o now e
    end
  end.

Definition LoadOrCreatePepper (d : disk) (fresh : option string) : result boot_error (string * disk) :=
  match dk_pepper d with
  | Some p => if (String.length p <? MinPepperBytes)%nat then Err boot_pepper else Ok (p, d)
  | None => match fresh with
            | None => Err boot_pepper
            | Some p => Ok (p, {| dk_cert := dk_cert d; dk_key := dk_key d; dk_pepper := Some p |})
            end
  end.

(** [prepare] up to [persist]. *)
Definition prepare_local (stored : caStored) (d : disk) (now : Z) (e : boot_entropy)
    : disk * result boot_error (CA * string) :=
  let d := materialise stored d in
  let roots := joinRootsPEM base (cs_extraRoots stored) in
  match LoadOrCreate (S initPollAttempts) d (boot_options roots) now (be_root e) with
  | Err err => (d, Err (boot_ca err))
  | Ok (authority, d) =>
    match LoadOrCreatePepper d (be_pepper e) with
    | Err err => (d, Err err)
    | Ok (pepper, d) => (d, Ok (authority, pepper))
    end
  end.

(** What [persist] sends; [None] is a file that cannot be read. *)
Definition generated (d : disk) (pepper : string) : option (list (string * string)) :=
  cert ← dk_cert d; key ← dk_key d;
  Some [(secretKeyCACert, cert); (secretKeyCAKey, key); (secretKeyPepper, pepper)].

(** The merge of [complete]: the data to store, and whether anything was filled
in.  The keys are distinct, so their order does not matter. *)
Definition fill_missing (data : gmap string string) (gen : list (string * string)) : gmap string string * bool :=
  fold_left (λ acc kv, if nonempty (map_get acc.1 kv.1) then acc else (<[kv.1 := kv.2]> acc.1, true)) gen (data, false).

(** [reloadAfterAdoption] and the second [loadPepper]. *)
Definition reload (d : disk) (fresh : option string) : disk * result boot_error (CA * string) :=
  match ca_Load d (boot_options base) with
  | Err err => (d, Err (boot_ca err))
  | Ok authority => match LoadOrCreatePepper d fresh with
                    | Err err => (d, Err err)
                    | Ok (pepper, d) => (d, Ok (authority, pepper))
                    end
  end.

(** * The fleet *)

(** Where a replica is in [prepare]. *)
Inductive boot_pc :=
| AtLoad
| AtLocal (stored : caStored)
| AtPersist (stored : caStored) (authority : CA) (pepper : string)
| AtComplete (authority : CA) (pepper : string)
| AtUpdate (authority : CA) (pepper : string) (sec : CaSecret) (data : gmap string string)
| AtWinner
| AtReload
| Up (authority : CA) (pepper : string)
| Down (e : boot_error).

Record booting := { bt_disk : disk; bt_pc : boot_pc }.

Record boot_world := { bw_secret : option CaSecret; bw_replicas : gmap nat booting }.

(** How a call to the API server goes. *)
Inductive fault := NoFault | CallFailed | AnswerLost.

Record boot_event := { ev_replica : nat; ev_fault : fault; ev_now : Z; ev_entropy : boot_entropy; ev_restart : bool }.

Definition api_get (w : boot_world) (f : fault) : get_answer :=
  match f with
  | NoFault => match bw_secret w with None => SecretNotFound | Some sec => GotSecret sec end
  | _ => GetFailed
  end.

Definition from_local (r : disk * result boot_error (CA * string)) (k : CA → string → boot_pc) : booting :=
  {| bt_disk := r.1; bt_pc := match r.2 with Err e => Down e | Ok (a, p) => k a p end |}.

(** One step of a replica: the Secret afterwards, and the replica. *)
Definition boot_step (sec : option CaSecret) (ans : get_answer) (ev : boot_event) (b : booting)
    : option CaSecret * booting :=
  let d := bt_disk b in
  let go pc := {| bt_disk := d; bt_pc := pc |} in
  match bt_pc b with
  | AtLoad => (sec, go match load ans with Err e => Down e | Ok stored => AtLocal stored end)
  | AtLocal stored => (sec, from_local (prepare_local stored d (ev_now ev) (ev_entropy ev)) (AtPersist stored))
  | AtPersist stored a p =>
    if stored_complete stored then (sec, go (Up a p))
    else if negb (stored_empty stored) then (sec, go (AtComplete a p))
    else match generated d p with
         | None => (sec, go (Down boot_empty))
         | Some gen =>
           match sec, ev_fault ev with
           | Some _, NoFault => (sec, go AtWinner)
           | None, NoFault =>
             (Some {| sec_Data := list_to_map gen; sec_Annotations := ∅; sec_Version := 1 |}, go (Up a p))
           | None, AnswerLost =>
             (Some {| sec_Data := list_to_map gen; sec_Annotations := ∅; sec_Version := 1 |},
              go (Down (boot_kube "create")))
           | _, _ => (sec, go (Down (boot_kube "create")))
           end
         end
  | AtWinner =>
    match load ans with
    | Err e => (sec, go (Down e))
    | Ok winner =>
      if stored_empty winner then (sec, go (Down boot_empty))
      else (sec, {| bt_disk := materialise winner d; bt_pc := AtReload |})
    end
  | AtReload => (sec, from_local (reload d (be_pepper (ev_entropy ev))) Up)
  | AtComplete a p =>
    match ans, generated d p with
    | GotSecret s, Some gen =>
      let '(data, filled) := fill_missing (sec_Data s) gen in
      (sec, go (if filled then AtUpdate a p s data else Up a p))
    | _, _ => (sec, go (Down (boot_kube "read")))
    end
  | AtUpdate a p s data =>
    match sec with
    | Some cur =>
      let new := {| sec_Data := data; sec_Annotations := sec_Annotations s; sec_Version := sec_Version cur + 1 |} in
      match ev_fault ev with
      | CallFailed => (sec, go (Down (boot_kube "update")))
      | NoFault => if sec_Version s =? sec_Version cur then (Some new, go (Up a p)) else (sec, go AtReload)
      | AnswerLost => if sec_Version s =? sec_Version cur then (Some new, go (Down (boot_kube "update")))
                      else (sec, go (Down (boot_kube "update")))
      end
    | None => (sec, go (Down (boot_kube "update")))
    end
  | Up _ _ | Down _ => (sec, b)
  end.

(** A replica takes a step, or starts (again) on whatever its directory holds. *)
Definition boot_exec (ev : boot_event) (w : boot_world) : boot_world :=
  match bw_replicas w !! ev_replica ev with
  | None => w
  | Some b =>
    if ev_restart ev
    then {| bw_secret := bw_secret w;
            bw_replicas := <[ev_replica ev := {| bt_disk := bt_disk b; bt_pc := AtLoad |}]> (bw_replicas w) |}
    else
      let '(sec, b) := boot_step (bw_secret w) (api_get w (ev_fault ev)) ev b in
      {| bw_secret := sec; bw_replicas := <[ev_replica ev := b]> (bw_replicas w) |}
  end.

Definition boot_run (evs : list boot_event) (w : boot_world) : boot_world := fold_left (λ w ev, boot_exec ev w) evs w.

(** * Agreement *)

(** An authority made of a keypair's texts. *)
Definition made_of (certPEM keyPEM : string) (a : CA) : Prop :=
  parseCertificatePEM certPEM = Ok (ca_Certificate a) ∧ parsePrivateKeyPEM keyPEM = Ok (m_key (ca_material a)).

(** A replica that signs and hashes with what the Secret holds. *)
Definition runs_on (sec : CaSecret) (a : CA) (pepper : string) : Prop :=
  made_of (cs_cert (stored_of sec)) (cs_key (stored_of sec)) a ∧ cs_pepper (stored_of sec) = pepper.

Definition entropy_ok (e : boot_entropy) : Prop :=
  (∀ k, re_key (be_root e) = Some k → key_p256 k = true) ∧ (∀ p, be_pepper e = Some p → nonempty p = true).

Lemma newMaterial_signer cert key l : m_cert (newMaterial cert key l) = cert ∧ m_key (newMaterial cert key l) = key.
Proof. unfold newMaterial. by destruct (fold_left _ _ _). Qed.

Lemma made_nonempty certPEM keyPEM a : made_of certPEM keyPEM a → nonempty certPEM = true ∧ nonempty keyPEM = true.
Proof.
  intros [Hc Hk]. split; unfold nonempty.
  - destruct (String.eqb_spec certPEM "") as [->|]; [|done]. unfold parseCertificatePEM in Hc. by rewrite pem_blank in Hc.
  - destruct (String.eqb_spec keyPEM "") as [->|]; [|done]. unfold parsePrivateKeyPEM in Hk. by rewrite pem_blank in Hk.
Qed.

Lemma ca_Parse_made certPEM keyPEM o a : ca_Parse certPEM keyPEM o = Ok a → made_of certPEM keyPEM a.
Proof.
  unfold ca_Parse. destruct (opts_validate _); [|done]. cbn. unfold parseMaterial.
  destruct (parseCertificatePEM _) as [c|] eqn:Hc; [|done]. cbn. destruct (parsePrivateKeyPEM _) as [k|] eqn:Hk; [|done]. cbn.
  destruct (checkCAUsable _ _); [|done]. cbn. destruct (opts_additionalRoots _) as [l|]; [|done]. cbn. intros [= <-].
  unfold made_of, ca_Certificate. cbn. destruct (newMaterial_signer c k l) as [-> ->]. done.
Qed.

Lemma ca_Create_made d o now e a d' :
  ca_Create d o now e = Ok (a, d') → (∀ k, re_key e = Some k → key_p256 k = true) →
  dk_pepper d' = dk_pepper d ∧ ∃ c k, dk_cert d' = Some c ∧ dk_key d' = Some k ∧ made_of c k a.
Proof.
  unfold ca_Create. destruct (opts_validate _); [|done]. cbn. destruct (opts_additionalRoots _) as [l|]; [|done]. cbn.
  unfold mintRoot. destruct (re_key e) as [key|]; [|done]. destruct (re_serial e); [|done].
  set (tmpl := {| Raw := _ |}). rewrite CreateCertificate_parses by constructor. cbn. intros [= <- <-] Hk.
  specialize (Hk key eq_refl). split; [done|]. eexists _, _. split; [done|]. split; [done|].
  unfold made_of, ca_Certificate. cbn. destruct (newMaterial_signer (certified tmpl (PubECDSA (key_p256 key) (key_point key))
    (CreateCertificate tmpl tmpl (PubECDSA (key_p256 key) (key_point key)) key)) key l) as [-> ->]. split.
  - unfold parseCertificatePEM. rewrite pem_one. cbn. by rewrite CreateCertificate_parses by constructor.
  - unfold parsePrivateKeyPEM. rewrite pem_one. cbn. rewrite ParsePKCS8_Marshal by done. by rewrite Hk.
Qed.

Lemma LoadOrCreate_made n d o now e a d' :
  LoadOrCreate n d o now e = Ok (a, d') → (∀ k, re_key e = Some k → key_p256 k = true) →
  dk_pepper d' = dk_pepper d ∧ (∃ c k, dk_cert d' = Some c ∧ dk_key d' = Some k ∧ made_of c k a) ∧
  (is_Some (dk_cert d) → dk_cert d' = dk_cert d) ∧ (is_Some (dk_key d) → dk_key d' = dk_key d).
Proof.
  intros H He. induction n as [|n IH]; [done|]. revert H. cbn [LoadOrCreate].
  destruct (dk_cert d) as [c|] eqn:Ec, (dk_key d) as [k|] eqn:Ek; [|done..|].
  - unfold ca_Load. rewrite Ec, Ek. destruct (ca_Parse _ _ _) as [a'|] eqn:Hp; [|done]. cbn. intros [= <- <-].
    apply ca_Parse_made in Hp. split; [done|]. split; [by exists c, k|]. by rewrite Ec, Ek.
  - intros H. destruct (ca_Create_made _ _ _ _ _ _ H He) as (H1 & H2). split; [done|]. split; [done|].
    split; intros [? ?]; done.
Qed.

Lemma LoadOrCreatePepper_on d fresh p d' :
  LoadOrCreatePepper d fresh = Ok (p, d') → (∀ p, fresh = Some p → nonempty p = true) →
  dk_cert d' = dk_cert d ∧ dk_key d' = dk_key d ∧ dk_pepper d' = Some p ∧ nonempty p = true ∧
  (is_Some (dk_pepper d) → dk_pepper d = Some p).
Proof.
  unfold LoadOrCreatePepper. destruct (dk_pepper d) as [q|] eqn:Eq.
  - destruct (_ <? _)%nat eqn:E; [done|]. intros [= <- <-] _. split_and!; try done. by destruct q.
  - destruct fresh as [q|]; [|done]. intros [= <- <-] Hf. split_and!; try done. by apply Hf.
Qed.

(** The directory holds what the authority and the pepper were made of. *)
Definition on_disk (d : disk) (a : CA) (p : string) : Prop :=
  nonempty p = true ∧ ∃ c k, dk_cert d = Some c ∧ dk_key d = Some k ∧ made_of c k a.

Lemma prepare_local_on stored d now e d' a p :
  prepare_local stored d now e = (d', Ok (a, p)) → entropy_ok e →
  on_disk d' a p ∧ (stored_complete stored = true →
    made_of (cs_cert stored) (cs_key stored) a ∧ cs_pepper stored = p).
Proof.
  unfold prepare_local. destruct (LoadOrCreate _ _ _ _ _) as [[a' d1]|] eqn:H1; [|done].
  destruct (LoadOrCreatePepper _ _) as [[p' d2]|] eqn:H2; [|done]. intros [= <- <- <-] [He1 He2].
  destruct (LoadOrCreate_made _ _ _ _ _ _ _ H1 He1) as (E1 & (c & k & Ec & Ek & Hm) & Fc & Fk).
  destruct (LoadOrCreatePepper_on _ _ _ _ H2 He2) as (E2 & E3 & E4 & E5 & E6). rewrite E1 in E6. clear H1 H2.
  split; [split; [done|]; exists c, k; by rewrite E2, E3|].
  unfold stored_complete. rewrite !andb_true_iff. intros [[Nc Nk] Np].
  unfold materialise, write_field in *. cbn in *. rewrite Nc, Nk, Np in *.
  rewrite Fc in Ec by done. rewrite Fk in Ek by done. simplify_eq. split; [done|]. specialize (E6 ltac:(done)). by simplify_eq.
Qed.

(** ** The invariant *)

Definition pc_ok (sec : option CaSecret) (b : booting) : Prop :=
  match bt_pc b with
  | AtLoad | Down _ => True
  | AtLocal st => stored_empty st = true ∨ ∃ s, sec = Some s ∧ st = stored_of s
  | AtPersist st a p =>
    on_disk (bt_disk b) a p ∧ stored_empty st = true ∨ ∃ s, sec = Some s ∧ st = stored_of s ∧ runs_on s a p
  | AtWinner => is_Some sec
  | AtReload => ∃ s, sec = Some s ∧ dk_cert (bt_disk b) = Some (cs_cert (stored_of s)) ∧
                     dk_key (bt_disk b) = Some (cs_key (stored_of s)) ∧
                     dk_pepper (bt_disk b) = Some (cs_pepper (stored_of s))
  | AtComplete _ _ | AtUpdate _ _ _ _ => False
  | Up a p => ∃ s, sec = Some s ∧ runs_on s a p
  end.

Definition secret_ok (sec : option CaSecret) : Prop := ∀ s, sec = Some s → stored_complete (stored_of s) = true.

(** The Secret is only ever created. *)
Definition grows (sec sec' : option CaSecret) : Prop := sec = None ∨ sec' = sec.

Lemma pc_ok_grows sec sec' b : grows sec sec' → pc_ok sec b → pc_ok sec' b.
Proof.
  intros [->| ->]; [|done]. unfold pc_ok. destruct (bt_pc b); try done; try naive_solver.
Qed.

Lemma empty_not_complete m : stored_empty m = true → stored_complete m = false.
Proof. unfold stored_empty, stored_complete. by destruct (nonempty (cs_cert m)), (nonempty (cs_key m)), (nonempty (cs_pepper m)). Qed.

Lemma created_stored c k p :
  let s := {| sec_Data := list_to_map [(secretKeyCACert, c); (secretKeyCAKey, k); (secretKeyPepper, p)];
              sec_Annotations := ∅; sec_Version := 1 |} in
  cs_cert (stored_of s) = c ∧ cs_key (stored_of s) = k ∧ cs_pepper (stored_of s) = p.
Proof. done. Qed.

Lemma created_ok d a p gen :
  on_disk d a p → generated d p = Some gen →
  let s := {| sec_Data := list_to_map gen; sec_Annotations := ∅; sec_Version := 1 |} in
  runs_on s a p ∧ secret_ok (Some s).
Proof.
  intros (Hp & c & k & Hc & Hk & Hm) Hg s. unfold generated in Hg. rewrite Hc, Hk in Hg.
  cbn [mbind option_bind] in Hg. injection Hg as <-.
  destruct (created_stored c k p) as (E1 & E2 & E3). fold s in E1, E2, E3. split.
  - split; [by rewrite E1, E2|done].
  - intros s' [= <-]. unfold stored_complete. rewrite E1, E2, E3, Hp.
    by destruct (made_nonempty _ _ _ Hm) as [-> ->].
Qed.

Lemma reload_ok s d fresh d' a p :
  stored_complete (stored_of s) = true →
  dk_cert d = Some (cs_cert (stored_of s)) → dk_key d = Some (cs_key (stored_of s)) →
  dk_pepper d = Some (cs_pepper (stored_of s)) → reload d fresh = (d', Ok (a, p)) → runs_on s a p.
Proof.
  intros _ Ec Ek Ep. unfold reload, ca_Load. rewrite Ec, Ek. destruct (ca_Parse _ _ _) as [a'|] eqn:Hp; [|done].
  unfold LoadOrCreatePepper. rewrite Ep. destruct (_ <? _)%nat; [done|]. intros [= <- <- <-].
  split; [by eapply ca_Parse_made|done].
Qed.

Lemma boot_step_ok w ev b sec' b' :
  secret_ok (bw_secret w) → pc_ok (bw_secret w) b → entropy_ok (ev_entropy ev) →
  boot_step (bw_secret w) (api_get w (ev_fault ev)) ev b = (sec', b') →
  grows (bw_secret w) sec' ∧ secret_ok sec' ∧ pc_ok sec' b'.
Proof.
  intros Hs Hb He. unfold boot_step. unfold pc_ok in Hb.
  destruct (bt_pc b) as [|st|st a p| | | | |a p|e] eqn:Epc; cbn [bt_pc].
  - intros [= <- <-]. split; [by right|]. split; [done|]. unfold pc_ok. cbn.
    unfold api_get. destruct (ev_fault ev); cbn; [|done..]. destruct (bw_secret w) as [s|]; cbn; [|by left].
    right. by exists s.
  - intros [= <- <-]. split; [by right|]. split; [done|]. unfold from_local, pc_ok. cbn.
    destruct (prepare_local st (bt_disk b) (ev_now ev) (ev_entropy ev)) as [d' [[a p]|]] eqn:Hp; cbn; [|done].
    destruct (prepare_local_on _ _ _ _ _ _ _ Hp He) as [Hd Hc]. destruct Hb as [Hb|(s & E & ->)]; [by left|].
    right. exists s. split; [done|]. split; [done|]. apply Hc. by apply Hs.
  - destruct Hb as [[Hd Hemp]|(s & E & -> & Hr)].
    + rewrite (empty_not_complete _ Hemp), Hemp. cbn [negb].
      destruct (generated _ _) as [gen|] eqn:Hg; [|intros [= <- <-]; split; [by right|done]].
      destruct (created_ok _ _ _ _ Hd Hg) as [Hr Hok].
      destruct (bw_secret w) as [s|] eqn:Es, (ev_fault ev); intros [= <- <-];
        (split; [first [by left|by right]|]); (split; [done|]); unfold pc_ok; cbn; try done. eexists; split; [done|exact Hr].
    + rewrite (Hs _ E). intros [= <- <-]. split; [by right|]. split; [done|]. unfold pc_ok. cbn. by exists s.
  - done.
  - done.
  - destruct Hb as [s Es]. unfold api_get. rewrite Es. destruct (ev_fault ev); cbn.
    + pose proof (Hs _ Es) as Hc.
      destruct (stored_empty (stored_of s)) eqn:E; [apply empty_not_complete in E; congruence|].
      intros [= <- <-]. split; [by right|]. split; [by rewrite <- Es|]. unfold pc_ok. cbn. exists s.
      unfold stored_complete in Hc. rewrite !andb_true_iff in Hc. destruct Hc as [[N1 N2] N3].
      unfold write_field. cbn in N1, N2, N3. rewrite N1, N2, N3. done.
    + intros [= <- <-]. split; [by right|]. split; [by rewrite <- Es|done].
    + intros [= <- <-]. split; [by right|]. split; [by rewrite <- Es|done].
  - destruct Hb as (s & Es & H1 & H2 & H3). intros [= <- <-]. split; [by right|]. split; [done|].
    unfold from_local, pc_ok. cbn.
    destruct (reload _ _) as [d' [[a p]|]] eqn:Hr; cbn; [|done]. exists s. split; [done|].
    eapply reload_ok; eauto.
  - intros [= <- <-]. split; [by right|]. split; [done|]. unfold pc_ok. by rewrite Epc.
  - intros [= <- <-]. split; [by right|]. split; [done|]. unfold pc_ok. by rewrite Epc.
Qed.

Definition boot_ok (w : boot_world) : Prop :=
  secret_ok (bw_secret w) ∧ ∀ i b, bw_replicas w !! i = Some b → pc_ok (bw_secret w) b.

Lemma boot_exec_ok ev w : entropy_ok (ev_entropy ev) → boot_ok w → boot_ok (boot_exec ev w).
Proof.
  intros He [Hs Hr]. unfold boot_exec. destruct (bw_replicas w !! ev_replica ev) as [b|] eqn:Hb; [|done].
  destruct (ev_restart ev).
  - split; [done|]. intros i b'. cbn. rewrite lookup_insert. case_decide; [by intros [= <-]|by apply Hr].
  - destruct (boot_step _ _ _ _) as [sec' b'] eqn:Hstep.
    destruct (boot_step_ok _ _ _ _ _ Hs (Hr _ _ Hb) He Hstep) as (Hg & Hs' & Hb'). split; [done|].
    intros i b''. cbn. rewrite lookup_insert. case_decide; [by intros [= <-]|]. intros Hi. by eapply pc_ok_grows, Hr.
Qed.

Lemma boot_run_ok evs w : Forall (λ ev, entropy_ok (ev_entropy ev)) evs → boot_ok w → boot_ok (boot_run evs w).
Proof.
  unfold boot_run. intros H. revert w. induction H as [|ev evs Hev _ IH]; intros w Hw; cbn; [done|].
  by apply IH, boot_exec_ok.
Qed.

(** C11: On a Secret that is absent or complete, any number of replicas that start
together agree: however their steps interleave and whichever calls fail or lose
their answer, and however often they restart on what their directories hold,
every replica that comes up signs with the CA and hashes with the pepper that
the Secret holds, so any two replicas use the same. *)
Theorem bootstrap_agrees evs w i b a p :
  Forall (λ ev, entropy_ok (ev_entropy ev)) evs → secret_ok (bw_secret w) →
  (∀ j c, bw_replicas w !! j = Some c → bt_pc c = AtLoad) →
  bw_replicas (boot_run evs w) !! i = Some b → bt_pc b = Up a p →
  ∃ sec, bw_secret (boot_run evs w) = Some sec ∧ runs_on sec a p.
Proof.
  intros He Hs Hinit Hb Hpc. destruct (boot_run_ok evs w He) as [_ Hr].
  - split; [done|]. intros j c Hc. unfold pc_ok. by rewrite (Hinit _ _ Hc).
  - pose proof (Hr _ _ Hb) as H. unfold pc_ok in H. by rewrite Hpc in H.
Qed.

(** * Nothing stored is replaced *)

Definition keeps (m m' : gmap string string) : Prop := ∀ k, nonempty (map_get m k) = true → map_get m' k = map_get m k.

Definition extends (sec sec' : option CaSecret) : Prop :=
  match sec, sec' with
  | None, _ => True
  | Some s, Some s' => keeps (sec_Data s) (sec_Data s') ∧ sec_Version s ≤ sec_Version s'
  | Some _, None => False
  end.

Lemma extends_refl sec : extends sec sec.
Proof. destruct sec; [|done]. by split. Qed.

Lemma extends_trans a b c : extends a b → extends b c → extends a c.
Proof.
  destruct a as [a|], b as [b|], c as [c|]; try done. intros [H1 V1] [H2 V2]. split; [|lia].
  intros k Hk. rewrite H2, H1; [done|done|]. by rewrite H1.
Qed.

Lemma fill_missing_keeps data gen : keeps data (fill_missing data gen).1.
Proof.
  unfold fill_missing. generalize false. revert data. induction gen as [|[k v] gen IH]; intros data f; cbn [fold_left]; [done|].
  cbn [fst snd]. destruct (nonempty (map_get data k)) eqn:E; [apply IH|].
  intros k' Hk'. rewrite IH; [|rewrite map_get_insert; destruct (String.eqb_spec k k') as [->|]; [congruence|done]].
  rewrite map_get_insert. destruct (String.eqb_spec k k') as [->|]; [congruence|done].
Qed.

(** An update in flight completes a version of the Secret that was read. *)
Definition update_ok (sec : option CaSecret) (b : booting) : Prop :=
  match bt_pc b with
  | AtUpdate _ _ s data =>
    keeps (sec_Data s) data ∧ ∃ cur, sec = Some cur ∧ sec_Version s ≤ sec_Version cur ∧
      (sec_Version s = sec_Version cur → s = cur)
  | _ => True
  end.

Definition advances (sec sec' : option CaSecret) : Prop :=
  sec' = sec ∨ extends sec sec' ∧ ∀ s s', sec = Some s → sec' = Some s' → sec_Version s < sec_Version s'.

Lemma update_ok_advances sec sec' b : advances sec sec' → update_ok sec b → update_ok sec' b.
Proof.
  intros [->|[He Hv]]; [done|]. unfold update_ok. destruct (bt_pc b); try done.
  intros (Hk & cur & -> & Hle & _). split; [done|]. destruct sec' as [s'|]; [|done].
  specialize (Hv _ _ eq_refl eq_refl). exists s'. split; [done|]. lia.
Qed.

Lemma boot_step_keeps w ev b sec' b' :
  update_ok (bw_secret w) b → boot_step (bw_secret w) (api_get w (ev_fault ev)) ev b = (sec', b') →
  advances (bw_secret w) sec' ∧ update_ok sec' b'.
Proof.
  intros Hb. unfold boot_step. unfold update_ok in Hb.
  destruct (bt_pc b) as [|st|st a p|a p|a p s data| | |a p|e] eqn:Epc.
  - intros [= <- <-]. split; [by left|]. unfold update_ok. cbn. by destruct (load _).
  - intros [= <- <-]. split; [by left|]. unfold update_ok, from_local. cbn. by destruct (prepare_local _ _ _ _) as [? [[]|]].
  - destruct (stored_complete st); [intros [= <- <-]; by split; [left|]|].
    destruct (negb _); [intros [= <- <-]; by split; [left|]|].
    destruct (generated _ _); [|intros [= <- <-]; by split; [left|]].
    destruct (bw_secret w), (ev_fault ev); intros [= <- <-]; split; try done; try (by left); right; done.
  - destruct (api_get w (ev_fault ev)) as [s| |] eqn:Ha; [|intros [= <- <-]; by split; [left|]..].
    destruct (generated _ _) as [gen|]; [|intros [= <- <-]; by split; [left|]].
    pose proof (fill_missing_keeps (sec_Data s) gen) as Hk. destruct (fill_missing (sec_Data s) gen) as [data filled]. cbn in Hk.
    intros [= <- <-]. split; [by left|]. unfold update_ok. cbn. destruct filled; [|done].
    unfold api_get in Ha. destruct (ev_fault ev); try done. destruct (bw_secret w) as [cur|]; [|done]. simplify_eq.
    split; [done|]. exists s. split; [done|]. split; [lia|done].
  - destruct Hb as (Hk & cur & -> & Hle & Hcur).
    destruct (ev_fault ev); [..|]; try destruct (Z.eqb_spec (sec_Version s) (sec_Version cur)) as [Ev|Ev];
      intros [= <- <-]; (split; [|done]); try (by left); right; rewrite (Hcur Ev) in *;
      (split; [split; [exact Hk|cbn; lia]|intros ? ? [= <-] [= <-]; cbn; lia]).
  - destruct (load _) as [winner|]; [destruct (stored_empty winner)|]; intros [= <- <-]; by split; [left|].
  - intros [= <- <-]. split; [by left|]. unfold update_ok, from_local. cbn. by destruct (reload _ _) as [? [[]|]].
  - intros [= <- <-]. split; [by left|]. unfold update_ok. by rewrite Epc.
  - intros [= <- <-]. split; [by left|]. unfold update_ok. by rewrite Epc.
Qed.

Lemma boot_exec_keeps ev w :
  (∀ i b, bw_replicas w !! i = Some b → update_ok (bw_secret w) b) →
  extends (bw_secret w) (bw_secret (boot_exec ev w)) ∧
  ∀ i b, bw_replicas (boot_exec ev w) !! i = Some b → update_ok (bw_secret (boot_exec ev w)) b.
Proof.
  intros Hr. unfold boot_exec. destruct (bw_replicas w !! ev_replica ev) as [b|] eqn:Hb; [|split; [apply extends_refl|done]].
  destruct (ev_restart ev).
  - split; [apply extends_refl|]. intros i b'. cbn. rewrite lookup_insert. case_decide; [by intros [= <-]|by apply Hr].
  - destruct (boot_step _ _ _ _) as [sec' b'] eqn:Hstep.
    destruct (boot_step_keeps _ _ _ _ _ (Hr _ _ Hb) Hstep) as [Ha Hb']. cbn. split.
    + destruct Ha as [->|[Ha _]]; [apply extends_refl|done].
    + intros i b''. rewrite lookup_insert. case_decide; [by intros [= <-]|]. intros Hi. by eapply update_ok_advances, Hr.
Qed.

(** A starting hub never replaces what the CA Secret already holds: whatever
the Secret held when the replicas started, complete or not, and however their
steps interleave and fail, every value in it is still there afterwards. *)
Theorem bootstrap_keeps evs w s :
  (∀ j c, bw_replicas w !! j = Some c → bt_pc c = AtLoad) → bw_secret w = Some s →
  ∃ s', bw_secret (boot_run evs w) = Some s' ∧ keeps (sec_Data s) (sec_Data s').
Proof.
  intros Hinit Hs.
  assert (extends (bw_secret w) (bw_secret (boot_run evs w))) as He.
  { assert (∀ i b, bw_replicas w !! i = Some b → update_ok (bw_secret w) b) as Hr
      by (intros i b Hb; unfold update_ok; by rewrite (Hinit _ _ Hb)).
    clear Hinit Hs. unfold boot_run. revert w Hr. induction evs as [|ev evs IH]; intros w Hr; [apply extends_refl|].
    cbn. destruct (boot_exec_keeps ev w Hr) as [H1 H2]. eapply extends_trans; [exact H1|by apply IH]. }
  rewrite Hs in He. destruct (bw_secret (boot_run evs w)) as [s'|]; [|done]. exists s'. split; [done|apply He].
Qed.

End bootstrap.

(** * Runs *)

Definition toy_boot_entropy (key : string) (serial : Z) (pepper : ascii) : boot_entropy :=
  {| be_root := {| re_key := Some {| key_p256 := true; key_point := key |}; re_serial := Some serial |};
     be_pepper := Some (String.concat "" (replicate 32 (String pepper ""))) |}.
Definition toy_step (i : nat) : boot_event :=
  {| ev_replica := i; ev_fault := NoFault; ev_now := toy_now;
     ev_entropy := if decide (i = 0)%nat then toy_boot_entropy "a" 1 "x" else toy_boot_entropy "b" 2 "y";
     ev_restart := false |}.
Definition fresh_replica : booting := {| bt_disk := {| dk_cert := None; dk_key := None; dk_pepper := None |}; bt_pc := AtLoad |}.
Definition two_replicas (sec : option CaSecret) : boot_world :=
  {| bw_secret := sec; bw_replicas := {[ 0%nat := fresh_replica; 1%nat := fresh_replica ]} |}.
Lemma two_replicas_fresh sec j c : bw_replicas (two_replicas sec) !! j = Some c → bt_pc c = AtLoad.
Proof. cbn. by intros [[_ <-]|[_ [_ <-]%lookup_singleton_Some]]%lookup_insert_Some. Qed.
Definition toy_up (w : boot_world) (i : nat) : option (Z * string) :=
  b ← bw_replicas w !! i;
  match bt_pc b with Up a p => Some (SerialNumber (ca_Certificate a), p) | _ => None end.

(** Both replicas find no Secret and generate; the first creates it, the second
adopts what the first created. *)
Definition race : list nat := [0; 1; 0; 1; 0; 1; 1; 1]%nat.
Definition race_end : boot_world := boot_run toy_cfg "" (toy_step <$> race) (two_replicas None).

Lemma bootstrap_agrees_witness :
  ∃ b a p sec, bw_replicas race_end !! 1%nat = Some b ∧ bt_pc b = Up a p ∧ bw_secret race_end = Some sec ∧ runs_on sec a p ∧
    p = String.concat "" (replicate 32 "x").
Proof.
  pose (b := default fresh_replica (bw_replicas race_end !! 1%nat)).
  pose (ap := match bt_pc b with Up a p => (a, p) | _ => (no_ca, "") end).
  exists b, ap.1, ap.2.
  destruct (bootstrap_agrees toy_cfg "" (toy_step <$> race) (two_replicas None) 1 b ap.1 ap.2) as (sec & H1 & H2).
  - apply Forall_forall. intros ev (i & -> & _)%list_elem_of_fmap. unfold toy_step. cbn.
    split; intros k; destruct (decide _); cbn; intros Hk; injection Hk as <-; reflexivity.
  - done.
  - apply two_replicas_fresh.
  - vm_compute. reflexivity.
  - vm_compute. reflexivity.
  - exists sec. split_and!; [vm_compute; reflexivity|vm_compute; reflexivity|exact H1|exact H2|vm_compute; reflexivity].
Defined.

(** A Secret that holds the CA but no pepper. *)
Definition no_pepper : CaSecret :=
  {| sec_Data := {[ secretKeyCACert := toy_old_pem;
                    secretKeyCAKey := snd (ok_or ("", "") (toy_root "a" 1 toy_now)) ]};
     sec_Annotations := ∅; sec_Version := 1 |}.

Lemma bootstrap_keeps_witness :
  ∃ s', bw_secret (boot_run toy_cfg "" (toy_step <$> [0; 0; 0; 0; 0]%nat) (two_replicas (Some no_pepper))) = Some s' ∧
        map_get (sec_Data s') secretKeyCACert = toy_old_pem.
Proof.
  destruct (bootstrap_keeps toy_cfg "" (toy_step <$> [0; 0; 0; 0; 0]%nat) (two_replicas (Some no_pepper)) no_pepper)
    as (s' & H1 & H2).
  - apply two_replicas_fresh.
  - reflexivity.
  - exists s'. split; [exact H1|]. rewrite H2; vm_compute; reflexivity.
Defined.

(** Both replicas complete it at once; the second loses, reloads its own files
instead of the winner's, and comes up with a pepper the Secret does not hold.
The same happens when the first has completed the Secret before the second
reads it again. *)
Lemma completion_diverges :
  let w := boot_run toy_cfg "" (toy_step <$> [0; 1; 0; 1; 0; 1; 0; 1; 0; 1; 1]%nat) (two_replicas (Some no_pepper)) in
  let w' := boot_run toy_cfg "" (toy_step <$> [1; 0; 1; 0; 1; 0; 0; 0; 1; 1]%nat) (two_replicas (Some no_pepper)) in
  toy_up w 0 ≠ None ∧ toy_up w 1 ≠ None ∧ snd <$> toy_up w 0 ≠ snd <$> toy_up w 1 ∧
  toy_up w' 0 ≠ None ∧ toy_up w' 1 ≠ None ∧ snd <$> toy_up w' 0 ≠ snd <$> toy_up w' 1.
Proof. split_and!; vm_compute; discriminate. Qed.
