(* ===== verification/CertProof.v ===== *)
(** Proof of possession: [src/internal/certproof/certproof.go].

SHA-256 and the signature schemes are arguments; what is signed is defined
here. *)

From S2P Require Import Prelude Text Token Ca.
From Stdlib Require Import Strings.Byte.
Open Scope Z_scope.

Definition string_bytes (s : string) : list byte := map byte_of_ascii (list_ascii_of_string s).

Definition MaxFieldBytes : Z := Z.shiftl 64 10.
Definition RenewProtocolVersion : string := "renew-v2".
Definition domainTag : list byte := string_bytes ("prometheus-mcp-fleet/tunnel-auth" +:+ String "000" "").

Inductive proof_error := ErrBadSignature | ErrFieldTooLarge.

(** A field after its length as [binary.BigEndian.PutUint32] writes it. *)
Definition field_bytes (f : list byte) : list byte := (FillBytes 4 (Z.of_nat (length f)) ++ f)%list.

Definition Transcript (nonce : list byte) (protocolVersion clusterID : string) (bindings : list (list byte))
    : result proof_error (list byte) :=
  let fields := (nonce :: string_bytes protocolVersion :: string_bytes clusterID :: bindings)%list in
  if existsb (λ f, MaxFieldBytes <? Z.of_nat (length f)) fields then Err ErrFieldTooLarge
  else Ok (domainTag ++ concat (field_bytes <$> fields))%list.

Section proof.
Context (sha256 : list byte → list byte).
(** [ecdsa.VerifyASN1] and [rsa.VerifyPKCS1v15]; other keys are refused before
them. *)
Context (verifies : PublicKey → list byte → list byte → bool).

Definition CSRBinding (csrDER : list byte) : list byte := sha256 csrDER.

(** [Sign], with the signer as a function of the digest; [None] is its failure. *)
Definition Sign (sign : list byte → option (list byte)) (nonce : list byte) (protocolVersion clusterID : string)
    (bindings : list (list byte)) : option (list byte) :=
  match Transcript nonce protocolVersion clusterID bindings with
  | Err _ => None
  | Ok t => sign (sha256 t)
  end.

Definition proof_Verify (leaf : option Certificate) (sig nonce : list byte) (protocolVersion clusterID : string)
    (bindings : list (list byte)) : result proof_error unit :=
  match leaf with
  | None => Err ErrBadSignature
  | Some leaf =>
    match Transcript nonce protocolVersion clusterID bindings with
    | Err e => Err e
    | Ok t =>
      match cert_PublicKey leaf with
      | PubECDSA _ _ | PubRSA _ => if verifies (cert_PublicKey leaf) (sha256 t) sig then Ok tt else Err ErrBadSignature
      | PubOther => Err ErrBadSignature
      end
    end
  end.

End proof.

(** * The transcript is unambiguous *)

Lemma string_bytes_inj s t : string_bytes s = string_bytes t → s = t.
Proof.
  unfold string_bytes. intros H. rewrite <- (string_of_list_ascii_of_string s), <- (string_of_list_ascii_of_string t).
  f_equal. revert H. generalize (list_ascii_of_string t). induction (list_ascii_of_string s) as [|a l IH]; intros [|b k]; cbn; try done.
  intros [= H1 H2]. f_equal; [|by apply IH].
  rewrite <- (ascii_of_byte_of_ascii a), <- (ascii_of_byte_of_ascii b). by f_equal.
Qed.

Lemma FillBytes_inj w n m :
  0 ≤ n < 256 ^ Z.of_nat w → 0 ≤ m < 256 ^ Z.of_nat w → FillBytes w n = FillBytes w m → n = m.
Proof. intros Hn Hm H. rewrite <- (SetBytes_FillBytes w n), <- (SetBytes_FillBytes w m) by done. by rewrite H. Qed.

Lemma field_range (f : list byte) : Z.of_nat (length f) ≤ MaxFieldBytes → 0 ≤ Z.of_nat (length f) < 256 ^ Z.of_nat 4.
Proof. change MaxFieldBytes with 65536. change (256 ^ Z.of_nat 4) with 4294967296. lia. Qed.

Lemma fields_nonempty f l : concat (field_bytes <$> []) ≠ concat (field_bytes <$> f :: l).
Proof.
  intros H. apply (f_equal length) in H. cbn [fmap list_fmap concat length] in H. unfold field_bytes at 1 in H.
  rewrite !length_app, FillBytes_length in H. lia.
Qed.

Lemma fields_inj l k :
  Forall (λ f, Z.of_nat (length f) ≤ MaxFieldBytes) l → Forall (λ f, Z.of_nat (length f) ≤ MaxFieldBytes) k →
  concat (field_bytes <$> l) = concat (field_bytes <$> k) → l = k.
Proof.
  intros Hl. revert k. induction Hl as [|f l Hf _ IH]; intros k Hk; destruct Hk as [|g k Hg Hk]; [done|..].
  - intros H. by apply fields_nonempty in H.
  - intros H. symmetry in H. by apply fields_nonempty in H.
  - cbn [fmap list_fmap concat]. unfold field_bytes at 1 3. rewrite <- !app_assoc. intros H.
    apply app_inj_1 in H as [H1 H2]; [|by rewrite !FillBytes_length].
    apply FillBytes_inj in H1; [|by apply field_range..].
    apply app_inj_1 in H2 as [-> H2]; [|lia]. f_equal. by apply IH.
Qed.

Lemma Transcript_ok nonce v c bs t :
  Transcript nonce v c bs = Ok t →
  Forall (λ f, Z.of_nat (length f) ≤ MaxFieldBytes) (nonce :: string_bytes v :: string_bytes c :: bs)%list ∧
  t = (domainTag ++ concat (field_bytes <$> (nonce :: string_bytes v :: string_bytes c :: bs)))%list.
Proof.
  unfold Transcript. destruct (existsb _ _) eqn:E; [done|]. intros [= <-]. split; [|done].
  apply Forall_forall. intros f Hf. apply Z.nlt_ge. intros Hlt.
  apply not_true_iff_false in E. apply E, existsb_exists. exists f. rewrite <- list_elem_of_In. split; [done|].
  by apply Z.ltb_lt.
Qed.

Lemma Transcript_same nonce nonce' v v' c c' bs bs' t :
  Transcript nonce v c bs = Ok t → Transcript nonce' v' c' bs' = Ok t → nonce = nonce' ∧ v = v' ∧ c = c' ∧ bs = bs'.
Proof.
  intros [H1 ->]%Transcript_ok [H2 H]%Transcript_ok. apply app_inv_head in H. apply fields_inj in H; [|done..].
  injection H as -> Hv Hc ->. apply string_bytes_inj in Hv, Hc. done.
Qed.

(** A signature covers exactly one exchange: two transcripts are equal only if
the nonce, the protocol version, the cluster and every further field, in number
and in order, are equal, so a proof made for one of them cannot be presented for
another cluster, another exchange or another signing request. *)
Theorem Transcript_injective nonce nonce' v v' c c' bs bs' t :
  Transcript nonce v c bs = Ok t → Transcript nonce' v' c' bs' = Ok t →
  nonce = nonce' ∧ v = v' ∧ c = c' ∧ bs = bs'.
Proof. apply Transcript_same. Qed.

Lemma Transcript_injective_witness :
  ∃ t, Transcript [] RenewProtocolVersion "a" [[]] = Ok t ∧ ∀ bs, Transcript [] RenewProtocolVersion "a" bs = Ok t → bs = [[]].
Proof.
  eexists. split; [reflexivity|]. intros bs H.
  by destruct (Transcript_injective [] [] RenewProtocolVersion RenewProtocolVersion "a" "a" bs [[]] _ H eq_refl) as (_ & _ & _ & ?).
Defined.
