(* ===== verification/HubApi.v ===== *)
(** The routes spokes join and renew through: [src/internal/hubapi/public.go] and
[renewnonce.go], and the revocation of certificates of [admin.go].

A handler is a function of what it reads: the clock each time it asks, the
persisted document ([State]) each time it consults the store, with [None] for a
store that fails, the certificate authority ([Ca]) and the decoded request.  It
answers with a response or an error code.  Reading JSON and writing the
response, audit lines and metrics are not modelled; base 64 is an argument. *)

From S2P Require Import Prelude Fleet State Text Token Ca CertProof.
From Stdlib Require Import Strings.Byte.
Open Scope string_scope.
Open Scope Z_scope.

Inductive code :=
| CodeInvalidRequest | CodeNotFound | CodeConflict | CodeForbidden | CodeUnauthenticated | CodeUnavailable
| CodePayloadTooLarge | CodeInternal.

Definition DefaultAgentKeyTTL : Z := 2160 * Hour.
Definition DefaultAdminKeyTTL : Z := 2160 * Hour.
Definition DefaultEnrollmentTTL : Z := 15 * Minute.
Definition DefaultCRLValidity : Z := 24 * Hour.

(** * Renewal challenges *)

Definition RenewChallengeTTL : Z := 60 * Second.
Definition renewNonceRandomBytes : nat := 16.
Definition renewNonceExpiryBytes : nat := 8.
Definition renewNonceBodyBytes : nat := renewNonceRandomBytes + renewNonceExpiryBytes.
Definition renewNonceLen : nat := renewNonceBodyBytes + 32.

Definition renewNonceDomain : list byte := string_bytes ("prometheus-mcp-fleet/renew-nonce/v1" +:+ String "000" "").

Definition renewNonceMACInput (body : list byte) : list byte := (renewNonceDomain ++ body)%list.

(** Seconds from Go's zero time to the Unix epoch. *)
Definition unix_epoch : Z := 62135596800.
Definition Unix (t : Z) : Z := t / Second - unix_epoch.
Definition time_Unix (sec : Z) : Z := (sec + unix_epoch) * Second.

Inductive nonce_error := errRenewNonceInvalid | errRenewNonceExpired.

Section nonce.
Context (hmac_sha256 : list byte → list byte → list byte).

(** [random] is what [rand.Read] fills in. *)
Definition issueRenewNonce (hasher : option Hasher) (now : Z) (random : list byte) : list byte * Z :=
  let expiresAt := trunc_second (Add now RenewChallengeTTL) in
  let body := (random ++ FillBytes renewNonceExpiryBytes (wrap_uint64 (Unix expiresAt)))%list in
  ((body ++ Sum hmac_sha256 hasher (renewNonceMACInput body))%list, expiresAt).

Definition verifyRenewNonce (hasher : option Hasher) (nonce : list byte) (now : Z) : result nonce_error unit :=
  if negb (length nonce =? renewNonceLen)%nat then Err errRenewNonceInvalid
  else
    let body := take renewNonceBodyBytes nonce in
    if negb (Hasher_Equal hmac_sha256 hasher (drop renewNonceBodyBytes nonce) (renewNonceMACInput body))
    then Err errRenewNonceInvalid
    else
      let expiresAt := time_Unix (wrap_int64 (SetBytes (drop renewNonceRandomBytes body))) in
      if After now expiresAt then Err errRenewNonceExpired else Ok tt.

End nonce.

(** * Field checks *)

Definition MaxReasonBytes : Z := 256.

(** [unicode.IsControl]: C0, DEL and C1. *)
Definition IsControl (r : Z) : bool := (r <? 0x20) || ((0x7F <=? r) && (r <? 0xA0)).
Definition printable (s : string) : bool := forallb (λ r, negb (IsControl r)) (runes s).

Definition validateReason (reason : string) : bool :=
  negb (blank reason) && (Z.of_nat (String.length reason) <=? MaxReasonBytes) && printable reason.

(** * Signing requests *)

Definition MaxCSRBytes : Z := Z.shiftl 32 10.
Definition MaxChainCerts : Z := 8.

Record EnrollResponse := {
  er_Certificate : string;
  er_CABundle : string;
  er_NotAfter : Z;
  er_ClusterID : string;
  er_Serial : string
}.

Record RenewRequest := {
  rr_Nonce : list byte;
  rr_Chain : list string;
  rr_Signature : list byte;
  rr_CSR : string
}.

Section api.
Context `{X : X509}.
Context (hmac_sha256 : list byte → list byte → list byte) (sha256 : list byte → list byte)
  (verifies : PublicKey → list byte → list byte → bool) (StdEncoding RawStdEncoding : string → option string).

Definition decodeCSR (s : string) : option string :=
  let trimmed := TrimSpace s in
  match StdEncoding trimmed with
  | Some der => Some der
  | None => RawStdEncoding trimmed
  end.

Definition decodeCSRField (csr : string) : result code string :=
  if String.eqb csr "" then Err CodeInvalidRequest
  else if MaxCSRBytes <? Z.of_nat (String.length csr) then Err CodeInvalidRequest
  else match decodeCSR csr with None => Err CodeInvalidRequest | Some der => Ok der end.

Fixpoint parse_chain (der : list string) : result code (list Certificate) :=
  match der with
  | [] => Ok []
  | b :: der => match ParseCertificate b with
                | None => Err CodeInvalidRequest
                | Some cert => chain ← parse_chain der; Ok (cert :: chain)
                end
  end.

Definition readChain (der : list string) : result code (list Certificate) :=
  if (length der =? 0)%nat then Err CodeUnauthenticated
  else if MaxChainCerts <? Z.of_nat (length der) then Err CodeInvalidRequest
  else parse_chain der.

Definition revokedSerials (d : State) : gset string := list_to_set (Serial <$> ListRevokedCerts d).

(** The options the routes depend on: [None] for a dependency that is missing, a
lifetime that is not positive for one that is left out. *)
Record Options := {
  o_Store : bool;
  o_Hasher : option Hasher;
  o_CA : option CA;
  o_Verifier : bool;
  o_AgentKeyTTL : Z;
  o_AdminKeyTTL : Z;
  o_EnrollmentTTL : Z;
  o_SpokeCertTTL : Z;
  o_CRLValidity : Z;
  o_RenewGrace : Z;
  o_EnrollmentEnabled : bool
}.

Record server := {
  s_hasher : option Hasher;
  s_ca : CA;
  s_agentKeyTTL : Z;
  s_adminKeyTTL : Z;
  s_enrollmentTTL : Z;
  s_spokeCertTTL : Z;
  s_crlValidity : Z;
  s_renewGrace : Z;
  s_enrollmentEnabled : bool
}.

Definition newServer (o : Options) : option server :=
  if negb (o_Store o) then None
  else match o_Hasher o, o_CA o with
  | Some h, Some c =>
    if negb (o_Verifier o) then None
    else
      let or_default d def := if d <=? 0 then def else d in
      Some {| s_hasher := Some h; s_ca := c;
              s_agentKeyTTL := or_default (o_AgentKeyTTL o) DefaultAgentKeyTTL;
              s_adminKeyTTL := or_default (o_AdminKeyTTL o) DefaultAdminKeyTTL;
              s_enrollmentTTL := or_default (o_EnrollmentTTL o) DefaultEnrollmentTTL;
              s_spokeCertTTL := or_default (o_SpokeCertTTL o) DefaultSpokeCertTTL;
              s_crlValidity := or_default (o_CRLValidity o) DefaultCRLValidity;
              s_renewGrace := o_RenewGrace o; s_enrollmentEnabled := o_EnrollmentEnabled o |}
  | _, _ => None
  end.

(** * Renewing *)

(** The clocks a renewal reads: checking the nonce, verifying the chain, asking
again after a failed verification, and issuing. *)
Record renew_clocks := { t_nonce : Z; t_verify : Z; t_expiry : Z; t_issue : Z }.

(** [guard]. *)
Definition guard (draining : bool) : result code unit := if draining then Err CodeUnavailable else Ok tt.

(** [body] is what [readBody] decodes, or the code it answers with; [store] is the
document the revocation list is read from. *)
Definition handleRenew (s : server) (draining : bool) (body : result code RenewRequest) (store : option State)
    (c : renew_clocks) (serial : option Z) : result code EnrollResponse :=
  _ ← guard draining;
  match body with
  | Err e => Err e
  | Ok req =>
    match verifyRenewNonce hmac_sha256 (s_hasher s) (rr_Nonce req) (t_nonce c) with
    | Err _ => Err CodeUnauthenticated
    | Ok _ =>
      chain ← readChain (rr_Chain req);
      match VerifyChainAllowingExpiry (s_ca s) chain (s_renewGrace s) (t_verify c) (t_expiry c) with
      | None | Some (Err _) => Err CodeForbidden
      | Some (Ok (identity, expired)) =>
        match store with
        | None => Err CodeInternal
        | Some d =>
          if bool_decide (id_CertSerial identity ∈ revokedSerials d) then Err CodeForbidden
          else
            csrDER ← decodeCSRField (rr_CSR req);
            match proof_Verify sha256 verifies (head chain) (rr_Signature req) (rr_Nonce req) RenewProtocolVersion
                    (id_ClusterID identity) [CSRBinding sha256 (string_bytes csrDER)] with
            | Err _ => Err CodeForbidden
            | Ok _ =>
              match IssueSpokeFromCSR (s_ca s) csrDER (id_ClusterID identity) (t_issue c) serial with
              | Ok (certPEM, Some cert) =>
                Ok {| er_Certificate := certPEM; er_CABundle := BundlePEM (s_ca s); er_NotAfter := NotAfter cert;
                      er_ClusterID := id_ClusterID identity; er_Serial := SerialHex (SerialNumber cert) |}
              | Ok (_, None) => Err CodeInternal
              | Err ErrCSRInvalid => Err CodeInvalidRequest
              | Err _ => Err CodeInternal
              end
            end
        end
      end
    end
  end.

(** * Enrolling *)

Definition enrollmentGate (s : server) (draining : bool) : result code unit :=
  if negb (s_enrollmentEnabled s) then Err CodeUnavailable else if draining then Err CodeUnavailable else Ok tt.

(** [isConflict] as the hub configures it. *)
Definition isConflict (e : StoreError) : bool :=
  match e with State.ErrEnrollmentUsed | State.ErrAlreadyExists => true | _ => false end.

(** [store] is the document the token is read from, [store'] the one it is burned
on, which comes back with the answer; [kid] the authenticated principal's key,
[now] when the certificate is issued, [at_] when the token is burned and [clock]
the store's own reading then. *)
Definition handleEnroll (s : server) (kid : option string) (body : result code string) (store store' : option State)
    (now at_ clock : Z) (serial : option Z) : result code EnrollResponse * option State :=
  match kid with
  | None => (Err CodeUnauthenticated, store')
  | Some kid =>
    match csr ← body; decodeCSRField csr with
    | Err e => (Err e, store')
    | Ok csrDER =>
      match store with
      | None => (Err CodeInternal, store')
      | Some d =>
        match GetKey kid d with
        | Err _ => (Err CodeInternal, store')
        | Ok key =>
          match Enrollment key with
          | None => (Err CodeForbidden, store')
          | Some g =>
            if String.eqb (ClusterID g) "" then (Err CodeForbidden, store')
            else if negb (Reusable g) && bool_decide (is_Some (UsedAt g)) then (Err CodeConflict, store')
            else
              match IssueSpokeFromCSR (s_ca s) csrDER (ClusterID g) now serial with
              | Err ErrCSRInvalid | Err ErrInvalidClusterID => (Err CodeInvalidRequest, store')
              | Err _ | Ok (_, None) => (Err CodeInternal, store')
              | Ok (certPEM, Some cert) =>
                match store' with
                | None => (Err CodeInternal, store')
                | Some d' =>
                  match BurnEnrollment (KID key) (SerialHex (SerialNumber cert)) at_ clock d' with
                  | (d'', Err e) => (Err (if isConflict e then CodeConflict else CodeInternal), Some d'')
                  | (d'', Ok _) =>
                    (Ok {| er_Certificate := certPEM; er_CABundle := BundlePEM (s_ca s); er_NotAfter := NotAfter cert;
                           er_ClusterID := ClusterID g; er_Serial := SerialHex (SerialNumber cert) |}, Some d'')
                  end
                end
              end
          end
        end
      end
    end
  end.

(** * Challenges are this fleet's own *)

Lemma wrap_uint64_range z : 0 ≤ wrap_uint64 z < 2 ^ 64.
Proof. by apply Z.mod_pos_bound. Qed.

(** Converting to [uint64] and back is the identity. *)
Lemma wrap_int64_uint64 z : int64_range z → wrap_int64 (wrap_uint64 z) = z.
Proof.
  intros H. rewrite <- (wrap_int64_id z) at 2 by done. unfold wrap_int64, wrap_uint64.
  by rewrite Zplus_mod_idemp_l.
Qed.

(** What a challenge is made of. *)
Definition nonce_of (h : option Hasher) (random expiry : list byte) : list byte :=
  ((random ++ expiry) ++ Sum hmac_sha256 h (renewNonceMACInput (random ++ expiry)))%list.

Lemma Hasher_Equal_spec h a b :
  Hasher_Equal hmac_sha256 h a b = true ↔ is_Some h ∧ a = Sum hmac_sha256 h b.
Proof.
  destruct h as [h|]; cbn; [rewrite bool_decide_eq_true; naive_solver|]. split; [done|]. by intros [[] ?].
Qed.

Lemma verifyRenewNonce_Ok h nonce now :
  verifyRenewNonce hmac_sha256 h nonce now = Ok tt ↔
  is_Some h ∧ length nonce = renewNonceLen ∧
  ∃ random expiry, length random = renewNonceRandomBytes ∧ length expiry = renewNonceExpiryBytes ∧
    nonce = nonce_of h random expiry ∧ now ≤ time_Unix (wrap_int64 (SetBytes expiry)).
Proof.
  unfold verifyRenewNonce. destruct (Nat.eqb_spec (length nonce) renewNonceLen) as [Hl|Hl]; cbn [negb]; [|naive_solver].
  destruct (Hasher_Equal _ _ _ _) eqn:E; cbn [negb].
  - apply Hasher_Equal_spec in E as [Hs E]. split.
    + destruct (After _ _) eqn:A; [done|]. intros _. apply Z.ltb_ge in A. split_and!; [done..|].
      exists (take renewNonceRandomBytes nonce), (drop renewNonceRandomBytes (take renewNonceBodyBytes nonce)).
      rewrite length_drop, !length_take, Hl. split_and!; [done..| |done].
      unfold nonce_of. replace (take renewNonceRandomBytes nonce)
        with (take renewNonceRandomBytes (take renewNonceBodyBytes nonce)) by (by rewrite take_take).
      rewrite take_drop, <- E. by rewrite take_drop.
    + intros (_ & _ & random & expiry & H1 & H2 & Hn & Ht). rewrite Hn. unfold nonce_of.
      rewrite take_app_length' by (by rewrite length_app, H1, H2).
      rewrite drop_app_length' by done. unfold After. by rewrite (proj2 (Z.ltb_ge _ _) Ht).
  - split; [done|]. intros (Hs & _ & random & expiry & H1 & H2 & Hn & Ht). exfalso.
    apply not_true_iff_false in E. apply E, Hasher_Equal_spec. split; [done|].
    rewrite Hn. unfold nonce_of.
    rewrite take_app_length', drop_app_length' by (by rewrite length_app, H1, H2). done.
Qed.

(** A challenge is accepted by every replica with the same pepper, until it
expires. *)
Lemma issued_nonce_accepted h random t0 nonce expires t :
  (∀ k m, length (hmac_sha256 k m) = 32%nat) → is_Some h → length random = renewNonceRandomBytes →
  issueRenewNonce hmac_sha256 h t0 random = (nonce, expires) → int64_range (Unix expires) → t ≤ expires →
  verifyRenewNonce hmac_sha256 h nonce t = Ok tt.
Proof.
  intros Hh [h' ->] Hr [<- <-]%pair_equal_spec Hu Ht. apply verifyRenewNonce_Ok. split; [eauto|]. split.
  { rewrite !length_app, Hr, FillBytes_length. cbn [Sum]. by rewrite Hh. }
  eexists random, _. split_and!; [done|by rewrite FillBytes_length|done|].
  rewrite SetBytes_FillBytes by apply wrap_uint64_range.
  rewrite wrap_int64_uint64 by done. unfold time_Unix, Unix.
  set (e := trunc_second _) in *. replace (e / Second - unix_epoch + unix_epoch) with (e / Second) by lia.
  pose proof (trunc_second_idem (Add t0 RenewChallengeTTL)) as Hi. fold e in Hi. unfold trunc_second in Hi.
  assert (Second ≠ 0) as Hs by done. pose proof (Z.div_mod e Second Hs). lia.
Qed.

(** * Renewing *)

Lemma readChain_one der leaf : ParseCertificate der = Some leaf → readChain [der] = Ok [leaf].
Proof. intros H. unfold readChain. cbn. by rewrite H. Qed.

Lemma readChain_head der chain :
  readChain der = Ok chain → ∃ b leaf inter, head der = Some b ∧ ParseCertificate b = Some leaf ∧ chain = leaf :: inter.
Proof.
  unfold readChain. destruct der as [|b der]; [done|]. cbn [length Nat.eqb]. case_match; [done|].
  cbn [parse_chain]. destruct (ParseCertificate b) as [leaf|] eqn:E; [|done].
  destruct (parse_chain der) as [inter|]; [|done]. intros [= <-]. eauto 10.
Qed.

Lemma proof_Verify_signed leaf sign sig nonce v c bs :
  checkCSRPublicKey (cert_PublicKey leaf) = Ok tt →
  (∀ dg sg, sign dg = Some sg → verifies (cert_PublicKey leaf) dg sg = true) →
  Sign sha256 sign nonce v c bs = Some sig → proof_Verify sha256 verifies (Some leaf) sig nonce v c bs = Ok tt.
Proof.
  unfold Sign, proof_Verify. intros Hp Hs. destruct (Transcript _ _ _ _) as [t|]; [|done].
  intros ->%Hs. by destruct (cert_PublicKey leaf).
Qed.

Lemma IdentityFromCert_Ok c cert ident :
  IdentityFromCert c cert = Ok ident →
  id_CertSerial ident = SerialHex (SerialNumber cert) ∧ id_CertNotAfter ident = NotAfter cert ∧
  ValidClusterID (id_ClusterID ident) = true.
Proof.
  unfold IdentityFromCert. repeat (case_match; try done). intros [= <-]. cbn. split_and!; try done.
  by apply negb_false_iff.
Qed.

Lemma VerifyChain_Ok c chain t ident :
  VerifyChain c chain t = Ok ident →
  ∃ leaf inter, chain = leaf :: inter ∧ x509_Verify leaf (TrustBundle c) inter t = true ∧
    IdentityFromCert c leaf = Ok ident.
Proof. unfold VerifyChain. destruct chain as [|leaf inter]; [done|]. case_match; [|done]. eauto 10. Qed.

(** A chain is accepted at the instant it is checked, or at its expiry when that is
at most the grace ago. *)
Lemma VerifyAllowing_Ok c chain grace t t' ident expired :
  VerifyChainAllowingExpiry c chain grace t t' = Some (Ok (ident, expired)) →
  ∃ leaf inter u, chain = leaf :: inter ∧ x509_Verify leaf (TrustBundle c) inter u = true ∧
    IdentityFromCert c leaf = Ok ident ∧
    (u = t ∨ u = NotAfter leaf ∧ NotAfter leaf < t' ≤ NotAfter leaf + grace).
Proof.
  unfold VerifyChainAllowingExpiry. destruct (VerifyChain c chain t) as [i|] eqn:E.
  - intros [= <- <-]. apply VerifyChain_Ok in E as (leaf & inter & -> & Hv & Hi). eauto 10.
  - destruct chain as [|leaf inter]; [done|]. intros H. injection H as H. unfold After, Add in H.
    repeat (case_match; try done). simplify_eq. exists leaf, inter, (NotAfter leaf). split_and!; try done. right.
    repeat match goal with H : (_ || _) = false |- _ => apply orb_false_iff in H as [??] end.
    match goal with H : negb _ = false |- _ => apply negb_false_iff, Z.ltb_lt in H end.
    match goal with H : (_ <? _) = false |- _ => apply Z.ltb_ge in H end. lia.
Qed.

Lemma handleRenew_Ok s draining body store ck serial r :
  handleRenew s draining body store ck serial = Ok r →
  ∃ req d leaf inter ident expired csrDER pem cert,
    draining = false ∧ body = Ok req ∧ store = Some d ∧
    verifyRenewNonce hmac_sha256 (s_hasher s) (rr_Nonce req) (t_nonce ck) = Ok tt ∧
    readChain (rr_Chain req) = Ok (leaf :: inter) ∧
    VerifyChainAllowingExpiry (s_ca s) (leaf :: inter) (s_renewGrace s) (t_verify ck) (t_expiry ck)
    = Some (Ok (ident, expired)) ∧
    id_CertSerial ident ∉ revokedSerials d ∧ decodeCSRField (rr_CSR req) = Ok csrDER ∧
    proof_Verify sha256 verifies (Some leaf) (rr_Signature req) (rr_Nonce req) RenewProtocolVersion
      (id_ClusterID ident) [CSRBinding sha256 (string_bytes csrDER)] = Ok tt ∧
    IssueSpokeFromCSR (s_ca s) csrDER (id_ClusterID ident) (t_issue ck) serial = Ok (pem, Some cert) ∧
    r = {| er_Certificate := pem; er_CABundle := BundlePEM (s_ca s); er_NotAfter := NotAfter cert;
           er_ClusterID := id_ClusterID ident; er_Serial := SerialHex (SerialNumber cert) |}.
Proof.
  unfold handleRenew. destruct draining; [done|]. cbn [guard mbind result_bind].
  destruct body as [req|]; [|done]. destruct (verifyRenewNonce _ _ _ _) as [[]|] eqn:E1; [|done].
  destruct (readChain _) as [chain|] eqn:E2; [|done]. cbn [mbind result_bind].
  apply readChain_head in E2 as E2'. destruct E2' as (b & leaf & inter & _ & _ & ->).
  destruct (VerifyChainAllowingExpiry _ _ _ _ _) as [[[ident expired]|]|] eqn:E3; [|done..].
  destruct store as [d|]; [|done]. case_bool_decide; [done|].
  destruct (decodeCSRField _) as [csrDER|] eqn:E4; [|done]. cbn [mbind result_bind head].
  destruct (proof_Verify _ _ _ _ _ _ _ _) as [[]|] eqn:E5; [|done].
  destruct (IssueSpokeFromCSR _ _ _ _ _) as [[pem [cert|]]|[]] eqn:E6; try done.
  intros [= <-]. eauto 30.
Qed.

(** C12: Renewal is only for the holder of a certificate.  An answer is given only
to an unexpired challenge this fleet made, with a chain that verifies against the
trust bundle (or did when its leaf expired, at most the grace ago), whose leaf is
not revoked and whose key signed that challenge together with the very signing
request that is honoured.  What is issued is a certificate for the leaf's own
cluster and the request's key. *)
Theorem renew_sound s draining req d ck serial r :
  material_ok (ca_material (s_ca s)) → trustDomainRE (TrustDomain (ca_opts (s_ca s))) = true →
  handleRenew s draining (Ok req) (Some d) ck serial = Ok r →
  ∃ random expiry leaf inter u t csrDER csr cert,
    draining = false ∧
    (* the challenge *)
    rr_Nonce req = nonce_of (s_hasher s) random expiry ∧ t_nonce ck ≤ time_Unix (wrap_int64 (SetBytes expiry)) ∧
    (* the certificate *)
    ParseCertificate <$> head (rr_Chain req) = Some (Some leaf) ∧
    x509_Verify leaf (TrustBundle (s_ca s)) inter u = true ∧
    (u = t_verify ck ∨ u = NotAfter leaf ∧ NotAfter leaf < t_expiry ck ≤ NotAfter leaf + s_renewGrace s) ∧
    SerialHex (SerialNumber leaf) ∉ revokedSerials d ∧
    (* the proof *)
    decodeCSRField (rr_CSR req) = Ok csrDER ∧
    Transcript (rr_Nonce req) RenewProtocolVersion (er_ClusterID r) [CSRBinding sha256 (string_bytes csrDER)] = Ok t ∧
    verifies (cert_PublicKey leaf) (sha256 t) (rr_Signature req) = true ∧
    (* what is issued *)
    ParseCertificateRequest csrDER = Some csr ∧ cert_PublicKey cert = csr_PublicKey csr ∧
    er_Certificate r = cert_pem cert ∧ IsCA cert = false ∧
    id_ClusterID <$> IdentityFromCert (s_ca s) leaf = Ok (er_ClusterID r) ∧
    id_ClusterID <$> IdentityFromCert (s_ca s) cert = Ok (er_ClusterID r).
Proof.
  intros Hm Htd H. apply handleRenew_Ok in H
    as (req' & d' & leaf & inter & ident & expired & csrDER & pem & cert & -> & [= <-] & [= <-] & Hn & Hc & Hv & Hr & Hd & Hp & Hi & ->).
  apply verifyRenewNonce_Ok in Hn as (_ & _ & random & expiry & _ & _ & Hn & Hexp).
  apply readChain_head in Hc as (b & ? & ? & Hb & Hleaf & [= <- <-]).
  apply VerifyAllowing_Ok in Hv as (? & ? & u & [= <- <-] & Hx & Hident & Hu).
  apply (IssueSpokeFromCSR_leaf _ _ _ _ _ _ _ Hm Htd) in Hi
    as (? & [= <-] & Hpem & _ & Hid & Huri & _ & Hca & _ & _ & _ & _ & _ & _ & Hpk).
  apply fmap_Some in Hpk as (csr & Hcsr & Hpk). unfold proof_Verify in Hp.
  destruct (Transcript _ _ _ _) as [t|] eqn:Ht; [|done].
  exists random, expiry, leaf, inter, u, t, csrDER, csr, cert. cbn [er_ClusterID er_Certificate].
  split_and!; try done.
  - rewrite Hb. cbn. by rewrite Hleaf.
  - apply IdentityFromCert_Ok in Hident as (<- & _). done.
  - by destruct (cert_PublicKey leaf), (verifies _ _ _).
  - by rewrite Hident.
  - by rewrite (IdentityFromCert_spoke _ _ _ Hid Huri).
Qed.

(** A spoke can renew.  Take a certificate the fleet issued, at most the renewal
grace past its expiry and not revoked; a challenge drawn from any replica; and a
signature by the certificate's key over that challenge and a fresh signing
request.  Any replica with the same pepper that trusts the issuer then answers
the request, if it arrives while the challenge lasts, with a certificate for the
same cluster, which its authority verifies until it expires. *)
Theorem renewal_round_trip (s : server) (h : option Hasher) (c : CA) id csr0 t0 n0 pem0 leaf t1 random nonce expires
    sign sig csr csrDER req d ck n t :
  (∀ k m, length (hmac_sha256 k m) = 32%nat) →
  (* the certificate *)
  material_ok (ca_material c) → trustDomainRE (TrustDomain (ca_opts c)) = true →
  Second ≤ SpokeCertTTL (ca_opts c) → NotBefore (ca_Certificate c) ≤ t0 →
  IssueSpokeFromCSR c csr0 id t0 n0 = Ok (pem0, Some leaf) →
  (* the challenge *)
  is_Some h → length random = renewNonceRandomBytes → int64_range (Unix expires) →
  issueRenewNonce hmac_sha256 h t1 random = (nonce, expires) →
  (* the request and its proof *)
  (∀ dg sg, sign dg = Some sg → verifies (cert_PublicKey leaf) dg sg = true) →
  decodeCSRField csr = Ok csrDER → ParseCertificateRequest csrDER = Some req → csr_signed req = true →
  checkCSRPublicKey (csr_PublicKey req) = Ok tt →
  Sign sha256 sign nonce RenewProtocolVersion id [CSRBinding sha256 (string_bytes csrDER)] = Some sig →
  (* the replica that answers *)
  s_hasher s = h → material_ok (ca_material (s_ca s)) → Second ≤ SpokeCertTTL (ca_opts (s_ca s)) →
  TrustDomain (ca_opts (s_ca s)) = TrustDomain (ca_opts c) → ca_Certificate c ∈ TrustBundle (s_ca s) →
  ca_Certificate (s_ca s) ∈ TrustBundle (s_ca s) → NotBefore (ca_Certificate (s_ca s)) ≤ t_issue ck →
  t_issue ck < ca_NotAfter (s_ca s) → SerialHex (SerialNumber leaf) ∉ revokedSerials d →
  t_nonce ck ≤ expires → t0 ≤ t_verify ck → t_verify ck ≤ t_expiry ck →
  t_expiry ck ≤ NotAfter leaf + s_renewGrace s →
  ∃ cert,
    handleRenew s false (Ok {| rr_Nonce := nonce; rr_Chain := [Raw leaf]; rr_Signature := sig; rr_CSR := csr |}) (Some d)
      ck (Some n)
    = Ok {| er_Certificate := cert_pem cert; er_CABundle := BundlePEM (s_ca s); er_NotAfter := NotAfter cert;
            er_ClusterID := id; er_Serial := SerialHex n |} ∧
    cert_PublicKey cert = csr_PublicKey req ∧
    (t_issue ck ≤ t ≤ NotAfter cert →
     VerifyChain (s_ca s) [cert] t
     = Ok {| id_ClusterID := id; id_CertSerial := SerialHex n; id_CertNotAfter := NotAfter cert |}).
Proof.
  intros Hmac Hm Htd Httl Hnb Hi Hh Hr Hu Hn Hkey Hcsr Hreq Hsgn Hpub Hsig Hhs Hm' Httl' Htd' Hin Hin' Hnb' Hna Hrev
    T1 T2 T3 T4.
  destruct (IssueSpokeFromCSR_leaf _ _ _ _ _ _ _ Hm Htd Hi)
    as (? & [= <-] & _ & Hparse & Hid & _ & _ & _ & _ & _ & _ & _ & _ & Hpk & _).
  destruct (issued_window c (s_ca s) _ _ _ _ _ _ Hm Htd Hi Htd' Hin Httl Hnb) as (Hw & Hident & Hver).
  destruct (IssueSpokeFromCSR_signs (s_ca s) csrDER req id (t_issue ck) n) as [[pem leaf'] Hi']; [done..|].
  assert (trustDomainRE (TrustDomain (ca_opts (s_ca s))) = true) as Htd2 by (by rewrite Htd').
  destruct (IssueSpokeFromCSR_leaf _ _ _ _ _ _ _ Hm' Htd2 Hi')
    as (cert & -> & -> & _ & _ & _ & _ & _ & [= ->] & _ & _ & _ & _ & _ & Hpk').
  destruct (issued_window (s_ca s) (s_ca s) _ _ _ _ _ _ Hm' Htd2 Hi' eq_refl Hin' Httl' Hnb') as (_ & Hident' & Hver').
  exists cert. split_and!.
  - unfold handleRenew. cbn [guard rr_Nonce rr_Chain rr_Signature rr_CSR mbind result_bind].
    rewrite Hhs, (issued_nonce_accepted h random t1 nonce expires) by done.
    rewrite (readChain_one _ leaf) by done. cbn [mbind result_bind head].
    rewrite (Verify_in_grace (s_ca s) leaf [] _ t0 (s_renewGrace s) (t_verify ck) (t_expiry ck) Hident) by (auto || lia).
    cbn [id_CertSerial id_ClusterID]. rewrite bool_decide_false, Hcsr by done. cbn [mbind result_bind].
    rewrite (proof_Verify_signed leaf sign) by done. by rewrite Hi'.
  - rewrite Hreq in Hpk'. by injection Hpk'.
  - intros Ht. unfold VerifyChain. by rewrite Hver', Hident'.
Qed.

(** * Enrolling *)

(** An enrolment request: who is authenticated, the body, how many documents ago the
token was read, and the clocks. *)
Record enroll_req := {
  q_kid : string;
  q_body : result code string;
  q_back : nat;
  q_now : Z;
  q_at : Z;
  q_clock : Z;
  q_serial : option Z
}.

(** A hub's history: mutations by anybody, and enrolments. *)
Inductive hub_event := EvMutate (m : Mutation) (now : Z) | EvEnroll (q : enroll_req).

Definition enroll (s : server) (q : enroll_req) (past : list State) (d : State) :=
  handleEnroll s (Some (q_kid q)) (q_body q) ((d :: past) !! q_back q) (Some d) (q_now q) (q_at q) (q_clock q) (q_serial q).

(** The certificates handed out, each with the token it was bought with. *)
Fixpoint enroll_run (s : server) (past : list State) (evs : list hub_event) (d : State)
    : list (string * EnrollResponse) :=
  match evs with
  | [] => []
  | EvMutate m now :: evs => enroll_run s (d :: past) evs (run_mutation m now d).1
  | EvEnroll q :: evs =>
    let '(r, d') := enroll s q past d in
    (match r with Ok r => [(q_kid q, r)] | Err _ => [] end ++ enroll_run s (d :: past) evs (default d d'))%list
  end.

Lemma handleEnroll_cases s kid body store d now at_ clk n r o :
  handleEnroll s (Some kid) body store (Some d) now at_ clk n = (r, o) →
  (∃ e, r = Err e) ∧ o = Some d ∨
  ∃ x key g pem cert csrDER k d',
    store = Some x ∧ GetKey kid x = Ok key ∧ Enrollment key = Some g ∧
    IssueSpokeFromCSR (s_ca s) csrDER (ClusterID g) now n = Ok (pem, Some cert) ∧
    BurnEnrollment (KID key) (SerialHex (SerialNumber cert)) at_ clk d = (d', Ok k) ∧ o = Some d' ∧
    r = Ok {| er_Certificate := pem; er_CABundle := BundlePEM (s_ca s); er_NotAfter := NotAfter cert;
              er_ClusterID := ClusterID g; er_Serial := SerialHex (SerialNumber cert) |}.
Proof.
  unfold handleEnroll. destruct (body ≫= decodeCSRField) as [csrDER|]; [|intros [= <- <-]; eauto].
  destruct store as [x|]; [|intros [= <- <-]; eauto]. destruct (GetKey kid x) as [key|] eqn:Ek; [|intros [= <- <-]; eauto].
  destruct (Enrollment key) as [g|] eqn:Eg; [|intros [= <- <-]; eauto].
  case_match; [intros [= <- <-]; eauto|]. case_match; [intros [= <- <-]; eauto|].
  destruct (IssueSpokeFromCSR _ _ _ _ _) as [[pem [cert|]]|e] eqn:Ei;
    [|intros [= <- <-]; eauto|destruct e; intros [= <- <-]; eauto].
  destruct (BurnEnrollment _ _ _ _ _) as [d' [k|e]] eqn:Eb; intros [= <- <-].
  - right. exists x, key, g, pem, cert, csrDER, k, d'. split_and!; done.
  - apply BurnEnrollment_Err in Eb as ->. eauto.
Qed.

(** What a token's grant keeps through every document of a history. *)
Definition bound_to (kid cluster : string) (d : State) : Prop :=
  state_ok d ∧ ∀ g, grant_at kid d = Some g → ClusterID g = cluster.

Lemma bound_to_mutation kid cluster m now d :
  stores kid m = false → bound_to kid cluster d → bound_to kid cluster (run_mutation m now d).1.
Proof.
  intros Hst [Hok Hg]. destruct (run_mutation m now d) as [d' r] eqn:E. split; [by eapply run_mutation_ok|].
  destruct (burns kid m) eqn:Hb.
  - destruct m; try done. cbn in Hb. apply String.eqb_eq in Hb as ->. cbn [run_mutation] in E.
    destruct (BurnEnrollment _ _ _ _ _) as [d1 [k|e]] eqn:Eb; simplify_eq/=.
    + apply burn_budget in Eb as (g & H1 & _ & ->). intros g' [= <-]. cbn. by apply Hg.
    + by apply BurnEnrollment_Err in Eb as ->.
  - intros g. cbn [fst]. destruct (grant_frame kid m now d d' r E Hst Hb) as [-> | ->]; [apply Hg|done].
Qed.

Lemma GetKey_grant kid d key :
  state_ok d → GetKey kid d = Ok key → KID key = kid ∧ grant_at kid d = Enrollment key.
Proof.
  intros Hok. unfold GetKey, grant_at. destruct (Keys d !! kid) as [r|] eqn:E; [|done]. intros [= <-].
  rewrite rec_value_eq. cbn. apply lookup_record_ok in E; [|done]. by destruct E.
Qed.

(** An enrolment is a redemption, if it is answered, and changes nothing otherwise. *)
Lemma enroll_step s q past d r o kid cluster :
  Forall (bound_to kid cluster) (d :: past) → enroll s q past d = (r, o) →
  ∃ h, o = Some (run_history h d) ∧ Forall (λ e, stores kid e.1 = false) h ∧
    ((if is_ok r && String.eqb (q_kid q) kid then 1 else 0) ≤ burn_count kid h d)%nat ∧
    ∀ a, r = Ok a → q_kid q = kid → er_ClusterID a = cluster ∧
      ∃ csrDER pem cert, IssueSpokeFromCSR (s_ca s) csrDER cluster (q_now q) (q_serial q) = Ok (pem, Some cert) ∧
        er_Certificate a = pem ∧ er_Serial a = SerialHex (SerialNumber cert).
Proof.
  intros Hall. unfold enroll. intros H. apply handleEnroll_cases in H
    as [[[e ->] ->]|(x & key & g & pem & cert & csrDER & k & d' & Hx & Hk & Hg & Hi & Hb & -> & ->)].
  { exists []. cbn. split_and!; done. }
  exists [(MBurnEnrollment (KID key) (SerialHex (SerialNumber cert)) (q_at q), q_clock q)].
  cbn [run_history run_mutation burn_count]. rewrite Hb. cbn [fst burns]. split_and!; [done|by repeat constructor|..].
  - cbn [is_ok andb]. destruct (String.eqb_spec (q_kid q) kid) as [<-|]; [|lia].
    apply list_elem_of_lookup_2 in Hx. rewrite Forall_forall in Hall. destruct (Hall _ Hx) as [Hok _].
    apply GetKey_grant in Hk as [-> _]; [|done]. by rewrite String.eqb_refl.
  - intros a [= <-] <-. cbn. apply list_elem_of_lookup_2 in Hx. rewrite Forall_forall in Hall.
    destruct (Hall _ Hx) as [Hok Hcl]. apply GetKey_grant in Hk as [_ Hk]; [|done].
    rewrite Hg in Hk. apply Hcl in Hk as <-. eauto 10.
Qed.

Definition bought (kid : string) (l : list (string * EnrollResponse)) : list EnrollResponse :=
  omap (λ e, if String.eqb e.1 kid then Some e.2 else None) l.

Lemma burn_count_app kid h h' d : burn_count kid (h ++ h') d = (burn_count kid h d + burn_count kid h' (run_history h d))%nat.
Proof.
  revert d. induction h as [|[m now] h IH]; intros d; [done|]. cbn. destruct (run_mutation m now d) as [d' r]. cbn.
  rewrite IH. lia.
Qed.

Lemma bound_to_history kid cluster h d :
  Forall (λ e, stores kid e.1 = false) h → bound_to kid cluster d → bound_to kid cluster (run_history h d).
Proof.
  revert d. induction h as [|[m now] h IH]; intros d Hst Hd; [done|]. apply Forall_cons in Hst as [Hm Hst]. cbn.
  apply IH; [done|]. by apply bound_to_mutation.
Qed.

Lemma enroll_run_history s kid cluster evs past d :
  (∀ m now, EvMutate m now ∈ evs → stores kid m = false) → Forall (bound_to kid cluster) (d :: past) →
  ∃ h, Forall (λ e, stores kid e.1 = false) h ∧
    (length (bought kid (enroll_run s past evs d)) ≤ burn_count kid h d)%nat ∧
    Forall (λ a, er_ClusterID a = cluster ∧
      ∃ csrDER pem cert now n, IssueSpokeFromCSR (s_ca s) csrDER cluster now n = Ok (pem, Some cert) ∧
        er_Certificate a = pem ∧ er_Serial a = SerialHex (SerialNumber cert)) (bought kid (enroll_run s past evs d)).
Proof.
  revert past d. induction evs as [|ev evs IH]; intros past d Hev Hall; [by exists []; cbn|].
  assert (∀ m now, EvMutate m now ∈ evs → stores kid m = false) as Hev'.
  { intros m now Hin. apply (Hev m now). by apply list_elem_of_further. }
  apply Forall_cons in Hall as Hd. destruct Hd as [Hd _]. destruct ev as [m now|q].
  - assert (stores kid m = false) as Hm by (eapply Hev, list_elem_of_here). cbn [enroll_run].
    destruct (IH (d :: past) (run_mutation m now d).1) as (h & H1 & H2 & H3); [done|constructor; [by apply bound_to_mutation|done]|].
    exists ((m, now) :: h). split_and!; [by constructor| |done]. cbn [burn_count].
    destruct (run_mutation m now d) as [d' r]. cbn in *. lia.
  - cbn [enroll_run]. destruct (enroll s q past d) as [r o] eqn:E.
    destruct (enroll_step _ _ _ _ _ _ kid cluster Hall E) as (h & -> & H1 & H2 & H3). cbn [default].
    destruct (IH (d :: past) (run_history h d)) as (h' & H1' & H2' & H3');
      [done|constructor; [by apply bound_to_history|done]|].
    exists (h ++ h')%list. rewrite burn_count_app. split_and!; [by apply Forall_app| |].
    + unfold bought in *. rewrite omap_app, length_app. destruct r as [a|]; cbn in *; [|lia].
      destruct (String.eqb _ _); cbn in *; lia.
    + unfold bought in *. rewrite omap_app. apply Forall_app. split; [|done].
      destruct r as [a|]; cbn; [|done]. destruct (String.eqb_spec (q_kid q) kid); [|done].
      constructor; [|constructor]. destruct (H3 a) as (? & ? & ? & ? & ?); try done. naive_solver.
Qed.

(** C9: Certificates bought with an enrolment token.  In any history of the hub in
which no other record takes the token's identifier, however the enrolments and
every other mutation interleave and however stale the copy an enrolment reads,
at most as many certificates are handed out for the token as its grant allowed at
the start, and each is a certificate for the cluster the grant names. *)
Theorem enrollments_within_budget (s : server) (kid : string) (evs : list hub_event) (d : State)
    (g : EnrollmentGrant) (b : Z) :
  material_ok (ca_material (s_ca s)) → trustDomainRE (TrustDomain (ca_opts (s_ca s))) = true →
  state_ok d → (∀ m now, EvMutate m now ∈ evs → stores kid m = false) →
  grant_at kid d = Some g → int64_range (Redemptions g) → int64_range (MaxRedemptions g) → grant_budget g = Some b →
  Z.of_nat (length (bought kid (enroll_run s [] evs d))) ≤ b ∧
  ∀ a, a ∈ bought kid (enroll_run s [] evs d) →
    er_ClusterID a = ClusterID g ∧
    ∃ cert, er_Certificate a = cert_pem cert ∧ er_Serial a = SerialHex (SerialNumber cert) ∧
      id_ClusterID <$> IdentityFromCert (s_ca s) cert = Ok (ClusterID g).
Proof.
  intros Hm Htd Hok Hev Hg HR HM Hb.
  destruct (enroll_run_history s kid (ClusterID g) evs [] d) as (h & H1 & H2 & H3); [done| |].
  { constructor; [|done]. split; [done|]. intros g'. by rewrite Hg; intros [= <-]. }
  split.
  - etrans; [apply inj_le, H2|]. apply burn_count_bound; [done| |].
    + intros g' ?. by simplify_eq.
    + unfold budget_at. by rewrite Hg.
  - intros a Ha. rewrite Forall_forall in H3. destruct (H3 a Ha) as (-> & csrDER & pem & cert & now & n & Hi & -> & ->).
    split; [done|]. exists cert.
    apply (IssueSpokeFromCSR_leaf _ _ _ _ _ _ _ Hm Htd) in Hi as (? & [= <-] & -> & _ & Hid & Hu & _).
    split_and!; try done. by rewrite (IdentityFromCert_spoke _ _ _ Hid Hu).
Qed.

End api.

(** * Instances *)

Definition toy_hmac (k m : list byte) : list byte := take 32 (m ++ replicate 32 Byte.x00)%list.
Lemma toy_hmac_length k m : length (toy_hmac k m) = 32%nat.
Proof. unfold toy_hmac. rewrite length_take, length_app, length_replicate. lia. Qed.

Definition toy_hasher : option Hasher := NewHasher toy_hmac (replicate 32 Byte.x07).
Definition toy_verifies (pub : PublicKey) (digest sig : list byte) : bool := bool_decide (sig = digest).

(** A replica that has adopted the new root and grants a week. *)
Definition toy_server : server :=
  {| s_hasher := toy_hasher; s_ca := toy_new; s_agentKeyTTL := 2160 * Hour; s_adminKeyTTL := 2160 * Hour;
     s_enrollmentTTL := Hour; s_spokeCertTTL := DefaultSpokeCertTTL; s_crlValidity := Hour;
     s_renewGrace := 7 * 24 * Hour; s_enrollmentEnabled := true |}.

Definition toy_later : Z := toy_now + 20 * 24 * Hour.
Definition toy_clocks : renew_clocks := {| t_nonce := toy_later; t_verify := toy_later; t_expiry := toy_later; t_issue := toy_later |}.
Definition toy_random : list byte := replicate 16 Byte.x2a.
Definition toy_challenge : list byte * Z := issueRenewNonce toy_hmac toy_hasher toy_later toy_random.
Definition toy_sig : list byte :=
  default [] (Sign (λ b, b) Some toy_challenge.1 RenewProtocolVersion "c1" [string_bytes "k2"]).
Definition toy_request : RenewRequest :=
  {| rr_Nonce := toy_challenge.1; rr_Chain := [Raw (default no_cert toy_leaf)]; rr_Signature := toy_sig; rr_CSR := "k2" |}.

Definition toy_renew : result code EnrollResponse :=
  handleRenew toy_hmac (λ b, b) toy_verifies Some Some toy_server false (Ok toy_request) (Some NewState) toy_clocks (Some 9).

Lemma toy_server_ok : material_ok (ca_material (s_ca toy_server)).
Proof. split; [vm_compute; reflexivity|split; vm_compute; reflexivity|vm_compute; reflexivity]. Qed.

(** The challenge is drawn and answered twenty days after the certificate was
issued, under a root that has since been replaced. *)
Lemma renewal_round_trip_witness :
  ∃ r, toy_renew = Ok r ∧ er_ClusterID r = "c1".
Proof.
  destruct (renewal_round_trip toy_hmac (λ b, b) toy_verifies Some Some toy_server toy_hasher toy_old "c1" "k" toy_now
              (Some 7) (match IssueSpokeFromCSR toy_old "k" "c1" toy_now (Some 7) with Ok (p, _) => p | Err _ => "" end)
              (default no_cert toy_leaf) toy_later toy_random toy_challenge.1 toy_challenge.2 Some toy_sig "k2" "k2"
              {| csr_PublicKey := PubECDSA true "k2"; csr_signed := true |} NewState toy_clocks 9 toy_later)
    as (cert & H & _ & _).
  - exact toy_hmac_length.
  - exact toy_old_ok.
  - vm_compute. reflexivity.
  - vm_compute. discriminate.
  - vm_compute. discriminate.
  - vm_compute. reflexivity.
  - vm_compute. eauto.
  - reflexivity.
  - split; vm_compute; discriminate.
  - apply surjective_pairing.
  - intros dg sg [= <-]. by apply bool_decide_eq_true.
  - vm_compute. reflexivity.
  - reflexivity.
  - reflexivity.
  - reflexivity.
  - vm_compute. reflexivity.
  - reflexivity.
  - exact toy_server_ok.
  - vm_compute. discriminate.
  - vm_compute. reflexivity.
  - apply (bool_decide_unpack _). vm_compute. exact I.
  - apply (bool_decide_unpack _). vm_compute. exact I.
  - vm_compute. discriminate.
  - vm_compute. reflexivity.
  - unfold revokedSerials. rewrite elem_of_list_to_set, list_elem_of_fmap. intros (rc & _ & Hrc).
    vm_compute in Hrc. inversion Hrc.
  - vm_compute. discriminate.
  - vm_compute. discriminate.
  - reflexivity.
  - vm_compute. discriminate.
  - eexists. split; [exact H|]. done.
Defined.

Lemma toy_domain : trustDomainRE (TrustDomain (ca_opts (s_ca toy_server))) = true.
Proof. vm_compute. reflexivity. Qed.

Definition toy_answer : EnrollResponse :=
  ok_or {| er_Certificate := ""; er_CABundle := ""; er_NotAfter := 0; er_ClusterID := ""; er_Serial := "" |} toy_renew.

Lemma toy_renew_answers :
  handleRenew toy_hmac (λ b, b) toy_verifies Some Some toy_server false (Ok toy_request) (Some NewState) toy_clocks (Some 9)
  = Ok toy_answer.
Proof. vm_compute. reflexivity. Qed.

Lemma renew_sound_witness :
  ∃ leaf, SerialHex (SerialNumber leaf) ∉ revokedSerials NewState ∧
    id_ClusterID <$> IdentityFromCert (s_ca toy_server) leaf = Ok (er_ClusterID toy_answer).
Proof.
  pose proof (renew_sound toy_hmac (λ b, b) toy_verifies Some Some toy_server false toy_request NewState toy_clocks (Some 9)
                toy_answer toy_server_ok toy_domain toy_renew_answers)
    as (random & expiry & leaf & inter & u & t & csrDER & csr & cert & _ & _ & _ & _ & _ & _ & H1 & _ & _ & _ & _ & _ & _ & _ & H2 & _).
  exists leaf. split; [exact H1|exact H2].
Defined.

Definition toy_enroll (n : Z) : hub_event :=
  EvEnroll {| q_kid := "tok0000001"; q_body := Ok "k"; q_back := 0; q_now := toy_now; q_at := 20; q_clock := 20;
              q_serial := Some n |}.

(** Of two redemptions of a single-use token one is answered. *)
Lemma enrollments_within_budget_witness :
  let run := enroll_run Some Some toy_server [] [toy_enroll 7; toy_enroll 8] ex_state in
  er_Serial <$> bought "tok0000001" run = ["7"] ∧ Z.of_nat (length (bought "tok0000001" run)) ≤ 1.
Proof.
  cbv zeta. split; [vm_compute; reflexivity|].
  refine (proj1 (enrollments_within_budget Some Some toy_server "tok0000001" [toy_enroll 7; toy_enroll 8] ex_state
                   ex_grant 1 toy_server_ok _ (NewState_run_ok _ _) _ _ _ _ _)).
  - vm_compute. reflexivity.
  - intros m now Hin. apply list_elem_of_In in Hin as [H|[H|[]]]; discriminate H.
  - reflexivity.
  - split; vm_compute; discriminate.
  - split; vm_compute; discriminate.
  - reflexivity.
Defined.
