(* ===== verification/Admin.v ===== *)
(** The credential routes of the admin API: [src/internal/hubapi/admin.go], with the
field checks of [http.go] and the projections of [types.go].

As in [HubApi], a handler is a function of the clocks and documents it reads.  It
draws entropy from a source per minting attempt; [None] in place of an answer means
that the fuel of the minter ran out ([Token.Mint]).  A route that loads a record
and later commits takes the two documents separately: anything may happen between. *)

From S2P Require Import Prelude GoFloat Fleet State Text Token Authn Hub Ca CertProof HubApi.
From Stdlib Require Import Strings.Byte.
Open Scope string_scope.
Open Scope Z_scope.

(** * Field checks *)

Definition mintRetries : nat := 3.
Definition MaxNameBytes : Z := 128.
Definition MaxOwnerBytes : Z := 256.
Definition MaxLabels : nat := 32.
Definition MaxLabelKeyBytes : Z := 63.
Definition MaxLabelValueBytes : Z := 253.

(** [kidRE]. *)
Definition kidRE (s : string) : bool := in_alphabet (bytes_of s) && (String.length s =? KIDLen)%nat.

Definition word_char (c : ascii) : bool := in_range 0x41 0x5A c || in_range 0x61 0x7A c || in_range 0x30 0x39 c.

(** [labelKeyRE]: alphanumeric at both ends, with [-], [_] and [.] inside, 63 at most. *)
Definition labelKeyRE (s : string) : bool :=
  match s, last_char s with
  | String c _, Some d =>
    word_char c && word_char d && (String.length s <=? 63)%nat
    && str_forall (λ c, word_char c || Ascii.eqb c "-" || Ascii.eqb c "_" || Ascii.eqb c ".") s
  | _, _ => false
  end.

Definition validateName (name : string) : bool :=
  negb (blank name) && (Z.of_nat (String.length name) <=? MaxNameBytes) && printable name.

Definition validateOwner (owner : string) : bool :=
  (Z.of_nat (String.length owner) <=? MaxOwnerBytes) && printable owner.

(** One round of the loop of [validateLabels]. *)
Definition label_ok (e : string * string) : bool :=
  (Z.of_nat (String.length e.1) <=? MaxLabelKeyBytes) && labelKeyRE e.1
  && (Z.of_nat (String.length e.2) <=? MaxLabelValueBytes) && printable e.2.

Definition validateLabels (labels : gmap string string) : bool :=
  (size labels <=? MaxLabels)%nat && forallb label_ok (map_to_list labels).

(** The lifetime, or [None] when it is refused. *)
Definition resolveTTL (want def : Z) : option Z :=
  if want =? 0 then Some def
  else if want <? 0 then None
  else if def <? want then None
  else Some want.

Definition resolveExpiry (want : Z) (noExpiry : bool) (class : KeyClass) (max now : Z) : option Z :=
  if negb noExpiry then (λ ttl, Add now ttl) <$> resolveTTL want max
  else if negb (String.eqb class ClassAgent) then None
  else if negb (want =? 0) then None
  else Some 0.

(** * Requests and answers *)

Record CreateKeyRequest := {
  ck_Class : KeyClass;
  ck_Name : string;
  ck_Owner : string;
  ck_TTL : Z;
  ck_NoExpiry : bool;
  ck_Scope : option Scope
}.

Record CreateEnrollmentRequest := {
  ce_ClusterID : string;
  ce_Labels : gmap string string;
  ce_Name : string;
  ce_Owner : string;
  ce_TTL : Z;
  ce_Reusable : bool;
  ce_MaxRedemptions : Z
}.

Record rotateRequest := { ro_TTL : Z; ro_NoExpiry : bool; ro_Reason : string }.

Record EnrollmentView := {
  ev_ClusterID : string;
  ev_Labels : gmap string string;
  ev_UsedAt : option Z;
  ev_CertSerial : string;
  ev_Reusable : bool;
  ev_Redemptions : Z;
  ev_MaxRedemptions : Z
}.

Record KeyView := {
  kv_KID : string;
  kv_Class : KeyClass;
  kv_Name : string;
  kv_Owner : string;
  kv_Scope : option Scope;
  kv_Enrollment : option EnrollmentView;
  kv_CreatedAt : Z;
  kv_ExpiresAt : Z;
  kv_LastUsedAt : option Z;
  kv_RevokedAt : option Z;
  kv_RevokedReason : string;
  kv_Expired : bool;
  kv_Revoked : bool
}.

Record MintedKeyResponse := { mk_Key : KeyView; mk_Token : string }.

Definition viewKey (k : Key) (now : Z) : KeyView :=
  {| kv_KID := KID k; kv_Class := Class k; kv_Name := Name k; kv_Owner := Owner k; kv_Scope := Key_Scope k;
     kv_Enrollment :=
       (λ g, {| ev_ClusterID := ClusterID g; ev_Labels := grant_Labels g; ev_UsedAt := UsedAt g;
                ev_CertSerial := CertSerial g; ev_Reusable := Reusable g; ev_Redemptions := Redemptions g;
                ev_MaxRedemptions := MaxRedemptions g |}) <$> Enrollment k;
     kv_CreatedAt := CreatedAt k; kv_ExpiresAt := ExpiresAt k; kv_LastUsedAt := LastUsed k;
     kv_RevokedAt := RevokedAt k; kv_RevokedReason := RevokedReason k;
     kv_Expired := Expired k now; kv_Revoked := Revoked k |}.

Definition viewKeys (keys : list (option Key)) (now : Z) : list KeyView :=
  omap (λ k, (λ k, viewKey k now) <$> k) keys.

Definition mintedResponse (key : Key) (raw : string) (now : Z) : MintedKeyResponse :=
  {| mk_Key := viewKey key now; mk_Token := raw |}.

(** * Minting *)

(** What a store operation answers: [Err None] is a backend that fails. *)
Definition on_store {A} (f : State → State * result StoreError A) (store : option State)
    : option State * result (option StoreError) A :=
  match store with
  | None => (None, Err None)
  | Some d => match f d with (d', Ok a) => (Some d', Ok a) | (d', Err e) => (Some d', Err (Some e)) end
  end.

Inductive mint_error :=
| MintNoExpiry                              (** a credential that must expire *)
| MintToken (e : TokenError)
| MintStore (e : option StoreError)
| MintExhausted (e : option StoreError).    (** every attempt collided *)

Record mint_args := {
  ma_class : KeyClass;
  ma_name : string;
  ma_owner : string;
  ma_expiresAt : Z;
  ma_scope : option Scope;
  ma_grant : option EnrollmentGrant
}.

(** Where minting draws from: the fuel of an attempt, its entropy, and the document it
commits on. *)
Record mint_env := {
  me_fuel : nat;
  me_read : nat → nat → nat → option (list byte);
  me_store : nat → option State
}.

Section admin.
Context `{X : X509}.
Context (hmac_sha256 : list byte → list byte → list byte).

Definition minted_key (s : server) (a : mint_args) (now : Z) (m : Minted) : Key :=
  {| KID := m_KID m; Class := ma_class a; Name := ma_name a; Owner := ma_owner a;
     SecretHMAC := Sum hmac_sha256 (s_hasher s) (m_Secret m); Key_Scope := ma_scope a; Enrollment := ma_grant a;
     CreatedAt := now; ExpiresAt := ma_expiresAt a; LastUsed := None; RevokedAt := None; RevokedReason := "" |}.

(** The attempts left, the attempt's number, and the last error with the document it
left. *)
Fixpoint mint_loop (n attempt : nat) (last : option StoreError) (cur : option State) (env : mint_env) (s : server) (a : mint_args) (now : Z)
    (commit : Key → State → State * result StoreError bool)
    : option (result mint_error (Key * string)) * option State :=
  match n with
  | O => (Some (Err (MintExhausted last)), cur)
  | S n =>
    match Mint (me_fuel env) (ma_class a) (me_read env attempt) with
    | None => (None, me_store env attempt)
    | Some (Err e) => (Some (Err (MintToken e)), me_store env attempt)
    | Some (Ok m) =>
      let key := minted_key s a now m in
      match on_store (commit key) (me_store env attempt) with
      | (store, Ok _) => (Some (Ok (key, m_Raw m)), store)
      | (store, Err e) =>
        if match e with Some e => isConflict e | None => false end
        then mint_loop n (S attempt) e store env s a now commit
        else (Some (Err (MintStore e)), store)
      end
    end
  end.

Definition mintKeyWith (env : mint_env) (s : server) (a : mint_args) (now : Z)
    (commit : Key → State → State * result StoreError bool)
    : option (result mint_error (Key * string)) * option State :=
  if IsZero (ma_expiresAt a) && negb (String.eqb (ma_class a) ClassAgent)
  then (Some (Err MintNoExpiry), me_store env 0)
  else mint_loop mintRetries 0 None (me_store env 0) env s a now commit.

Definition mintKey (env : mint_env) (s : server) (a : mint_args) (now : Z) :=
  mintKeyWith env s a now (λ k, PutKey (Some k)).

(** * The routes *)

(** An answer, or nothing when fuel ran out, and the document left. *)
Definition answer (A : Type) : Type := option (result code A) * option State.
Definition refuse {A} (e : code) (store : option State) : answer A := (Some (Err e), store).

(** What the minting routes answer; [view] is the clock of the response. *)
Definition answer_minted (r : option (result mint_error (Key * string)) * option State) (view : Z)
    : answer MintedKeyResponse :=
  match r with
  | (None, d) => (None, d)
  | (Some (Err _), d) => refuse CodeInternal d
  | (Some (Ok (key, raw)), d) => (Some (Ok (mintedResponse key raw view)), d)
  end.

(** The clocks of a minting route: resolving the expiry, creating, answering. *)
Record mint_clocks := { t_resolve : Z; t_create : Z; t_view : Z }.

Definition handleCreateKey (s : server) (draining : bool) (body : result code CreateKeyRequest) (ck : mint_clocks)
    (env : mint_env) : answer MintedKeyResponse :=
  let d := me_store env 0 in
  match guard draining with
  | Err e => refuse e d
  | Ok _ =>
    match body with
    | Err e => refuse e d
    | Ok req =>
      match (if String.eqb (ck_Class req) ClassAgent then Some (s_agentKeyTTL s)
             else if String.eqb (ck_Class req) ClassAdmin then Some (s_adminKeyTTL s)
             else None) with
      | None => refuse CodeInvalidRequest d
      | Some maxTTL =>
        if negb (validateName (ck_Name req)) then refuse CodeInvalidRequest d
        else if negb (validateOwner (ck_Owner req)) then refuse CodeInvalidRequest d
        else if (if String.eqb (ck_Class req) ClassAgent then negb (is_ok (Validate (ck_Scope req)))
                 else bool_decide (is_Some (ck_Scope req)))
        then refuse CodeInvalidRequest d
        else match resolveExpiry (ck_TTL req) (ck_NoExpiry req) (ck_Class req) maxTTL (t_resolve ck) with
        | None => refuse CodeInvalidRequest d
        | Some expiresAt =>
          answer_minted (mintKey env s {| ma_class := ck_Class req; ma_name := ck_Name req; ma_owner := ck_Owner req;
                                          ma_expiresAt := expiresAt; ma_scope := ck_Scope req; ma_grant := None |}
                           (t_create ck)) (t_view ck)
        end
      end
    end
  end.

Definition handleCreateEnrollment (s : server) (draining : bool) (body : result code CreateEnrollmentRequest)
    (ck : mint_clocks) (env : mint_env) : answer MintedKeyResponse :=
  let d := me_store env 0 in
  match guard draining with
  | Err e => refuse e d
  | Ok _ =>
    match body with
    | Err e => refuse e d
    | Ok req =>
      if negb (ValidClusterID (ce_ClusterID req)) then refuse CodeInvalidRequest d
      else if negb (validateLabels (ce_Labels req)) then refuse CodeInvalidRequest d
      else
        let name := if String.eqb (ce_Name req) "" then "enroll:" +:+ ce_ClusterID req else ce_Name req in
        if negb (validateName name) then refuse CodeInvalidRequest d
        else if negb (validateOwner (ce_Owner req)) then refuse CodeInvalidRequest d
        else match resolveTTL (ce_TTL req) (s_enrollmentTTL s) with
        | None => refuse CodeInvalidRequest d
        | Some ttl =>
          if ce_MaxRedemptions req <? 0 then refuse CodeInvalidRequest d
          else if (0 <? ce_MaxRedemptions req) && negb (ce_Reusable req) then refuse CodeInvalidRequest d
          else
            let grant := {| ClusterID := ce_ClusterID req; grant_Labels := ce_Labels req; UsedAt := None; CertSerial := "";
                            Reusable := ce_Reusable req; Redemptions := 0; MaxRedemptions := ce_MaxRedemptions req |} in
            answer_minted (mintKey env s {| ma_class := ClassEnrollment; ma_name := name; ma_owner := ce_Owner req;
                                            ma_expiresAt := Add (t_resolve ck) ttl; ma_scope := None;
                                            ma_grant := Some grant |} (t_create ck)) (t_view ck)
        end
    end
  end.

(** [loadKey] on the store's answer; an empty [want] accepts any class. *)
Definition loadKey (kid : string) (want : KeyClass) (store : option State) : result code Key :=
  match store with
  | None => Err CodeInternal
  | Some d =>
    match GetKey kid d with
    | Err State.ErrNotFound => Err CodeNotFound
    | Err _ => Err CodeInternal
    | Ok key => if negb (String.eqb want "") && negb (String.eqb (Class key) want) then Err CodeNotFound else Ok key
    end
  end.

Definition pathKID (kid : string) : result code string := if negb (kidRE kid) then Err CodeInvalidRequest else Ok kid.

Definition handleGetKey (kid : string) (store : option State) (now : Z) : result code KeyView :=
  kid ← pathKID kid; key ← loadKey kid "" store; Ok (viewKey key now).

Definition handleListKeys (class : string) (store : option State) (now : Z) : result code (list KeyView) :=
  if negb (String.eqb class "") && negb (KeyClass_Valid class) then Err CodeInvalidRequest
  else match store with
  | None => Err CodeInternal
  | Some d => Ok (viewKeys (Some <$> ListKeys class d) now)
  end.

Definition handleListEnrollments (store : option State) (now : Z) : result code (list KeyView) :=
  match store with
  | None => Err CodeInternal
  | Some d => Ok (viewKeys (Some <$> ListKeys ClassEnrollment d) now)
  end.

(** 204, or the code of the error, with the document afterwards. *)
Definition answer_done (r : option State * result (option StoreError) bool) : result code unit * option State :=
  match r with (d, Ok _) => (Ok tt, d) | (d, Err _) => (Err CodeInternal, d) end.

(** [purge] is the parsed parameter, [None] when it is not a boolean; [store] is the
document the record is loaded from, [store'] the one it is revoked on; [at_] is the
handler's clock and [clock] the store's. *)
Definition handleRevokeKey (draining : bool) (kid reason : string) (purge : option bool) (at_ clock : Z)
    (store store' : option State) : result code unit * option State :=
  match guard draining with
  | Err e => (Err e, store')
  | Ok _ =>
    match pathKID kid with
    | Err e => (Err e, store')
    | Ok kid =>
      if negb (validateReason reason) then (Err CodeInvalidRequest, store')
      else match purge with
      | None => (Err CodeInvalidRequest, store')
      | Some purge =>
        match loadKey kid "" store with
        | Err e => (Err e, store')
        | Ok _ =>
          if purge then answer_done (on_store (DeleteKey kid) store')
          else answer_done (on_store (RevokeKey kid reason at_ clock) store')
        end
      end
    end
  end.

Definition handleRevokeEnrollment (draining : bool) (kid reason : string) (at_ clock : Z) (store store' : option State)
    : result code unit * option State :=
  match guard draining with
  | Err e => (Err e, store')
  | Ok _ =>
    match pathKID kid with
    | Err e => (Err e, store')
    | Ok kid =>
      let reason := if String.eqb reason "" then "enrollment window closed" else reason in
      if negb (validateReason reason) then (Err CodeInvalidRequest, store')
      else match loadKey kid ClassEnrollment store with
      | Err e => (Err e, store')
      | Ok key => answer_done (on_store (RevokeKey (KID key) reason at_ clock) store')
      end
    end
  end.

(** [store] is the document the old record is loaded from; [at_] and [clock] are the handler's
clock and the store's when the replacement commits. *)
Definition handleRotateKey (s : server) (draining : bool) (kid : string) (body : result code rotateRequest)
    (store : option State) (ck : mint_clocks) (at_ clock : Z) (env : mint_env) : answer MintedKeyResponse :=
  let d := me_store env 0 in
  match guard draining with
  | Err e => refuse e d
  | Ok _ =>
    match (kid ← pathKID kid; req ← body; old ← loadKey kid "" store; Ok (req, old)) with
    | Err e => refuse e d
    | Ok (req, old) =>
      if String.eqb (Class old) ClassEnrollment then refuse CodeInvalidRequest d
      else if Revoked old then refuse CodeConflict d
      else
        let maxTTL := if String.eqb (Class old) ClassAdmin then s_adminKeyTTL s else s_agentKeyTTL s in
        match resolveExpiry (ro_TTL req) (ro_NoExpiry req) (Class old) maxTTL (t_resolve ck) with
        | None => refuse CodeInvalidRequest d
        | Some expiresAt =>
          let reason := if String.eqb (ro_Reason req) "" then "rotated" else ro_Reason req in
          if negb (validateReason reason) then refuse CodeInvalidRequest d
          else
            match mintKeyWith env s {| ma_class := Class old; ma_name := Name old; ma_owner := Owner old;
                                       ma_expiresAt := expiresAt; ma_scope := Key_Scope old; ma_grant := None |} (t_create ck)
                    (λ k, ReplaceKey (Some k) (KID old) (reason +:+ " (replaced by " +:+ KID k +:+ ")") at_ clock) with
            | (None, d) => (None, d)
            | (Some (Ok (fresh, raw)), d) => (Some (Ok (mintedResponse fresh raw (t_view ck))), d)
            | (Some (Err (MintStore (Some State.ErrRevoked))), d) => refuse CodeConflict d
            | (Some (Err (MintStore (Some State.ErrNotFound))), d) => refuse CodeNotFound d
            | (Some (Err _), d) => refuse CodeInternal d
            end
        end
    end
  end.

(** * What minting does *)

(** A commit that fails leaves the document as it was. *)
Definition commit_safe (commit : Key → State → State * result StoreError bool) : Prop :=
  ∀ k x x' e, commit k x = (x', Err e) → x' = x.

Lemma PutKey_safe : commit_safe (λ k, PutKey (Some k)).
Proof. intros k x x' e H. exact (run_mutation_Err (MPutKey (Some k)) 0 x x' e H). Qed.

Lemma ReplaceKey_safe old reason at_ clock : commit_safe (λ k, ReplaceKey (Some k) old (reason k) at_ clock).
Proof. intros k x x' e H. exact (run_mutation_Err (MReplaceKey (Some k) old (reason k) at_) clock x x' e H). Qed.

(** The one attempt that counts. *)
Definition committed (env : mint_env) (s : server) (a : mint_args) (now : Z)
    (commit : Key → State → State * result StoreError bool) (key : Key) (raw : string) (x d' : State) : Prop :=
  ∃ i m b, Mint (me_fuel env) (ma_class a) (me_read env i) = Some (Ok m) ∧ raw = m_Raw m ∧
    key = minted_key s a now m ∧ me_store env i = Some x ∧ commit key x = (d', Ok b).

Lemma mint_loop_spec n attempt last cur env s a now commit r o :
  commit_safe commit → mint_loop n attempt last cur env s a now commit = (r, o) →
  match r with
  | Some (Ok (key, raw)) => ∃ x d', o = Some d' ∧ committed env s a now commit key raw x d'
  | _ => o = cur ∨ ∃ i, o = me_store env i
  end.
Proof.
  intros Hsafe. revert attempt last cur. induction n as [|n IH]; intros attempt last cur; cbn [mint_loop].
  { intros [= <- <-]. by left. }
  destruct (Mint _ _ _) as [[m|e]|] eqn:Em; [|intros [= <- <-]; eauto..]. unfold on_store.
  destruct (me_store env attempt) as [x|] eqn:Ex; [|intros [= <- <-]; eauto].
  destruct (commit _ x) as [x' [b|e]] eqn:Ec.
  - intros [= <- <-]. exists x, x'. split; [done|]. exists attempt, m, b. split_and!; done.
  - apply Hsafe in Ec as ->. destruct (isConflict e); [|intros [= <- <-]; eauto].
    intros H. apply IH in H. destruct r as [[[]|]|]; [done|..]; destruct H as [->|?]; eauto.
Qed.

Lemma mintKeyWith_spec env s a now commit r o :
  commit_safe commit → mintKeyWith env s a now commit = (r, o) →
  match r with
  | Some (Ok (key, raw)) =>
    (ma_class a ≠ ClassAgent → ma_expiresAt a ≠ 0) ∧ ∃ x d', o = Some d' ∧ committed env s a now commit key raw x d'
  | _ => ∃ i, o = me_store env i
  end.
Proof.
  intros Hsafe. unfold mintKeyWith, IsZero. destruct (_ && _) eqn:E; [intros [= <- <-]; eauto|].
  intros H. apply mint_loop_spec in H; [|done]. destruct r as [[[key raw]|]|]; [|destruct H as [->|?]; eauto..].
  split; [|done]. intros Hc Hz. rewrite Hz in E. apply andb_false_iff in E as [E|E]; [done|].
  apply negb_false_iff, String.eqb_eq in E. done.
Qed.

Lemma answer_minted_Ok r view resp o :
  answer_minted r view = (Some (Ok resp), o) → ∃ key raw, r = (Some (Ok (key, raw)), o) ∧ resp = mintedResponse key raw view.
Proof. destruct r as [[[[key raw]|]|] d]; cbn; intros [=]; simplify_eq; eauto. Qed.

(** The request and the credential a created key comes from. *)
Lemma handleCreateKey_Ok s draining body ck env resp o :
  handleCreateKey s draining body ck env = (Some (Ok resp), o) →
  ∃ req expiresAt key raw x d', draining = false ∧ body = Ok req ∧ o = Some d' ∧
    (ck_Class req = ClassAgent ∧ Validate (ck_Scope req) = Ok tt ∨
     ck_Class req = ClassAdmin ∧ ck_Scope req = None ∧ expiresAt ≠ 0) ∧
    validateName (ck_Name req) = true ∧
    resolveExpiry (ck_TTL req) (ck_NoExpiry req) (ck_Class req)
      (if String.eqb (ck_Class req) ClassAgent then s_agentKeyTTL s else s_adminKeyTTL s) (t_resolve ck) = Some expiresAt ∧
    resp = mintedResponse key raw (t_view ck) ∧
    committed env s {| ma_class := ck_Class req; ma_name := ck_Name req; ma_owner := ck_Owner req;
                       ma_expiresAt := expiresAt; ma_scope := ck_Scope req; ma_grant := None |} (t_create ck)
      (λ k, PutKey (Some k)) key raw x d'.
Proof.
  unfold handleCreateKey. destruct draining; [done|]. cbn [guard]. destruct body as [req|]; [|done].
  assert (∀ maxTTL, (if String.eqb (ck_Class req) ClassAgent then Some (s_agentKeyTTL s)
                     else if String.eqb (ck_Class req) ClassAdmin then Some (s_adminKeyTTL s) else None) = Some maxTTL →
          maxTTL = (if String.eqb (ck_Class req) ClassAgent then s_agentKeyTTL s else s_adminKeyTTL s) ∧
          (ck_Class req = ClassAgent ∨ ck_Class req = ClassAdmin)) as Hclass.
  { intros maxTTL. destruct (String.eqb_spec (ck_Class req) ClassAgent); [intros [= <-]; auto|].
    destruct (String.eqb_spec (ck_Class req) ClassAdmin); [intros [= <-]; auto|done]. }
  destruct (if String.eqb (ck_Class req) ClassAgent then Some _ else _) as [maxTTL|] eqn:E1; [|done].
  destruct (Hclass maxTTL eq_refl) as [-> Hcl]. clear E1 Hclass.
  destruct (validateName _) eqn:E2; [|done]. cbn [negb]. destruct (validateOwner _); [|done]. cbn [negb].
  destruct (if String.eqb _ _ then negb _ else _) eqn:E3; [done|].
  destruct (resolveExpiry _ _ _ _ _) as [expiresAt|] eqn:E4; [|done].
  intros (key & raw & H & ->)%answer_minted_Ok. apply mintKeyWith_spec in H as (Hexp & x & d' & -> & Hc); [|apply PutKey_safe].
  exists req, expiresAt, key, raw, x, d'. split_and!; try done. cbn [ma_class ma_expiresAt] in Hexp.
  destruct Hcl as [Hcl|Hcl]; [left|right]; rewrite Hcl in *; cbn in E3.
  - split; [done|]. by destruct (Validate (ck_Scope req)) as [[]|].
  - apply bool_decide_eq_false in E3. split_and!; [done| |by apply Hexp]. by destruct (ck_Scope req); [destruct E3|].
Qed.

(** * A minted credential works *)

Lemma GetKey_put k x : GetKey (KID k) (bump (putKey k x)) = Ok k.
Proof.
  unfold GetKey, putKey. cbn. rewrite lookup_insert_eq, rec_value_eq. cbn. rewrite cloneKey_id. by destruct k.
Qed.

(** What a document says of a token whose record it holds. *)
Lemma authenticate_held hasher d raw class k secret t :
  Parse raw = Ok {| tok_class := class; tok_kid := KID k; tok_secret := secret |} → GetKey (KID k) d = Ok k →
  is_Some hasher → SecretHMAC k = Sum hmac_sha256 hasher secret → Class k = class →
  authenticate hmac_sha256 hasher d raw class t
  = if Revoked k then Err Authn.ErrRevoked else if Expired k t then Err ErrExpired else Ok (principalFor k, ExpiresAt k).
Proof.
  intros Hp Hk Hh Hs Hc. unfold authenticate. rewrite Hp. cbn [tok_class tok_kid tok_secret]. rewrite String.eqb_refl.
  cbn [negb]. unfold key_answer. rewrite Hk. unfold verifyAgainstStore.
  assert (Hasher_Equal hmac_sha256 hasher (SecretHMAC k) secret = true) as -> by (by apply Hasher_Equal_spec).
  rewrite Hc, String.eqb_refl. cbn [negb]. by destruct (Revoked k), (Expired k t).
Qed.

(** The credential committed by a minting route. *)
Lemma committed_token env s a now commit key raw x d' :
  (∀ i j n b, me_read env i j n = Some b → length b = n) → committed env s a now commit key raw x d' →
  ∃ secret, Parse raw = Ok {| tok_class := ma_class a; tok_kid := KID key; tok_secret := secret |} ∧
    SecretHMAC key = Sum hmac_sha256 (s_hasher s) secret ∧ Class key = ma_class a ∧ Name key = ma_name a ∧
    Key_Scope key = ma_scope a ∧ Enrollment key = ma_grant a ∧ ExpiresAt key = ma_expiresAt a ∧ RevokedAt key = None ∧
    kidRE (KID key) = true.
Proof.
  intros Hread (i & m & b & Hm & -> & -> & _ & _). exists (m_Secret m). cbn.
  destruct (mintWith_Parse _ _ _ _ _ (Hread i) (or_introl eq_refl) Hm) as [Hp _]. split_and!; try done.
  apply Parse_inv in Hp as [[_ Hl Ha _] _]. cbn [tok_kid] in Hl, Ha. unfold kidRE. by rewrite Ha, Hl.
Qed.


(** * Rotation *)

Lemma loadKey_Ok kid want store key :
  loadKey kid want store = Ok key →
  ∃ d, store = Some d ∧ GetKey kid d = Ok key ∧ (want ≠ "" → Class key = want).
Proof.
  unfold loadKey. destruct store as [d|]; [|done]. destruct (GetKey kid d) as [k|[]] eqn:E; try done.
  destruct (String.eqb_spec want "") as [->|Hw]; cbn [negb andb]; [intros [= <-]; by exists d|].
  destruct (String.eqb_spec (Class k) want); [|done]. intros [= <-]. by exists d.
Qed.

Lemma handleRotateKey_cases s draining kid body store ck at_ clock env r o :
  handleRotateKey s draining kid body store ck at_ clock env = (r, o) →
  match r with
  | Some (Ok resp) =>
    ∃ req old x0 expiresAt reason key raw x d', draining = false ∧ body = Ok req ∧ o = Some d' ∧ store = Some x0 ∧
      GetKey kid x0 = Ok old ∧ Class old ≠ ClassEnrollment ∧ (Class old ≠ ClassAgent → expiresAt ≠ 0) ∧
      resp = mintedResponse key raw (t_view ck) ∧
      committed env s {| ma_class := Class old; ma_name := Name old; ma_owner := Owner old; ma_expiresAt := expiresAt;
                         ma_scope := Key_Scope old; ma_grant := None |} (t_create ck)
        (λ k, ReplaceKey (Some k) (KID old) (reason +:+ " (replaced by " +:+ KID k +:+ ")") at_ clock) key raw x d'
  | _ => ∃ i, o = me_store env i
  end.
Proof.
  unfold handleRotateKey. destruct draining; [intros [= <- <-]; eauto|]. cbn [guard]. unfold pathKID.
  destruct (kidRE kid); [|intros [= <- <-]; eauto]. cbn [negb mbind result_bind].
  destruct body as [req|]; [|intros [= <- <-]; eauto]. cbn [mbind result_bind].
  destruct (loadKey kid "" store) as [old|] eqn:El; [|intros [= <- <-]; eauto]. cbn [mbind result_bind].
  apply loadKey_Ok in El as (x0 & -> & Hold & _).
  destruct (String.eqb_spec (Class old) ClassEnrollment); [intros [= <- <-]; eauto|].
  destruct (Revoked old); [intros [= <- <-]; eauto|].
  destruct (resolveExpiry _ _ _ _ _) as [expiresAt|]; [|intros [= <- <-]; eauto].
  destruct (negb (validateReason _)); [intros [= <- <-]; eauto|].
  destruct (mintKeyWith _ _ _ _ _) as [m d] eqn:Em.
  apply mintKeyWith_spec in Em; [|apply (ReplaceKey_safe _ (λ k, _ +:+ " (replaced by " +:+ KID k +:+ ")"))].
  destruct m as [[[key raw]|e]|]; cycle 1.
  { destruct Em as [i ->]. repeat case_match; unfold refuse; intros Hx; simplify_eq; eauto. }
  { destruct Em as [i ->]. intros Hx. simplify_eq. eauto. }
  intros [= <- <-]. destruct Em as (Hexp & x & d' & -> & Hc). exists req, old, x0, expiresAt. eexists _, key, raw, x, d'.
  split_and!; try done.
Qed.

(** A rotation is all or nothing.  If it is answered, the new token authenticates
with the class, name, scope and role of the credential it replaces, until its own expiry,
and no token of the replaced identifier authenticates any more, for any class and at any
time; every other record is as it was.  Otherwise no document changes. *)
Theorem rotation_hands_over s draining kid body store ck at_ clock env r o :
  (∀ i j n b, me_read env i j n = Some b → length b = n) → is_Some (s_hasher s) →
  (∀ x, store = Some x → state_ok x) →
  handleRotateKey s draining kid body store ck at_ clock env = (r, o) →
  match r with
  | Some (Ok resp) =>
    ∃ x0 old x d', store = Some x0 ∧ GetKey kid x0 = Ok old ∧ o = Some d' ∧ (∃ i, me_store env i = Some x) ∧
      (∀ t, kv_ExpiresAt (mk_Key resp) = 0 ∨ t ≤ kv_ExpiresAt (mk_Key resp) →
         authenticate hmac_sha256 (s_hasher s) d' (mk_Token resp) (Class old) t
         = Ok ({| p_KID := kv_KID (mk_Key resp); p_Name := Name old; p_Class := Class old;
                  p_Role := p_Role (principalFor old); p_Scope := Key_Scope old; p_Epoch := 0 |},
               kv_ExpiresAt (mk_Key resp))) ∧
      (∀ raw tok want t p, Parse raw = Ok tok → tok_kid tok = kid →
         authenticate hmac_sha256 (s_hasher s) d' raw want t ≠ Ok p) ∧
      (∀ k, k ≠ kid → k ≠ kv_KID (mk_Key resp) → GetKey k d' = GetKey k x)
  | _ => ∃ i, o = me_store env i
  end.
Proof.
  intros Hread Hh Hok H. apply handleRotateKey_cases in H. destruct r as [[resp|]|]; [|done..].
  destruct H as (req & old & x0 & expiresAt & reason & key & raw & x & d' & _ & _ & -> & -> & Hold & _ & _ & -> & Hc).
  destruct (committed_token _ _ _ _ _ _ _ _ _ Hread Hc) as (secret & Hp & Hs & Hk1 & Hk2 & Hk3 & _ & Hk5 & Hk6 & _).
  cbn [ma_class ma_name ma_scope ma_expiresAt] in *.
  destruct (GetKey_grant kid x0 old (Hok x0 eq_refl) Hold) as [Hkid _]. rewrite Hkid in Hc.
  destruct Hc as (i & m & b & _ & _ & _ & Hx & Hrep).
  apply ReplaceKey_Ok in Hrep as (? & r0 & [= <-] & _ & Hnone & Hr0 & _ & _ & ->).
  assert (kid ≠ KID key) as Hne by congruence.
  exists x0, old, x. eexists. cbn [mintedResponse mk_Key mk_Token viewKey kv_KID kv_ExpiresAt].
  split_and!; [done|done|done|by exists i|..].
  - intros t Ht. rewrite (authenticate_held (s_hasher s) _ raw (Class old) key secret); [|done| |done..].
    + unfold Revoked, Expired, IsZero, After. rewrite Hk6. unfold principalFor. rewrite Hk1, Hk2, Hk3.
      cbn [p_Role]. destruct (Z.eqb_spec (ExpiresAt key) 0); [done|]. cbn [negb andb].
      by rewrite (proj2 (Z.ltb_ge _ _)) by lia.
    + unfold GetKey. cbn. rewrite lookup_insert_ne by done. exact (GetKey_put key x).
  - intros raw' tok want t p Hparse Htok. unfold authenticate. rewrite Hparse. case_match; [done|].
    unfold key_answer, GetKey. rewrite Htok. cbn. rewrite lookup_insert_eq. unfold verifyAgainstStore.
    rewrite rec_value_eq. cbn. by repeat case_match.
  - intros k Hk Hk'. unfold GetKey. cbn. by rewrite !lookup_insert_ne by done.
Qed.

(** * Every record is of its class *)

(** What a record of each class looks like: an agent's carries a valid scope; an admin's has
no scope and expires; an enrolment token names a cluster, expires, and is capped only if it
is reusable. *)
Definition grant_typed (g : EnrollmentGrant) : Prop :=
  ValidClusterID (ClusterID g) = true ∧ validateLabels (grant_Labels g) = true ∧
  0 ≤ MaxRedemptions g ∧ (0 < MaxRedemptions g → Reusable g = true).

Definition class_typed (class : KeyClass) (scope : option Scope) (grant : option EnrollmentGrant) (expiresAt : Z) : Prop :=
  class = ClassAgent ∧ Validate scope = Ok tt ∧ grant = None ∨
  class = ClassAdmin ∧ scope = None ∧ grant = None ∧ expiresAt ≠ 0 ∨
  class = ClassEnrollment ∧ scope = None ∧ expiresAt ≠ 0 ∧ ∃ g, grant = Some g ∧ grant_typed g.

Definition key_typed (k : Key) : Prop :=
  kidRE (KID k) = true ∧ validateName (Name k) = true ∧ class_typed (Class k) (Key_Scope k) (Enrollment k) (ExpiresAt k).

Definition doc_typed (d : State) : Prop := state_ok d ∧ map_Forall (λ _ r, key_typed (rec_Key r)) (Keys d).

(** The record a mutation files. *)
Definition filed (m : Mutation) : option Key :=
  match m with MPutKey k | MPutKeyIfNoUsable k _ | MReplaceKey k _ _ _ => k | _ => None end.

Lemma key_typed_redeem k g serial t :
  Enrollment k = Some g → key_typed k → key_typed (set_Enrollment (redeem g serial t) k).
Proof.
  intros Hg (H1 & H2 & H3). split_and!; [done..|]. unfold class_typed in *. cbn. rewrite Hg in H3.
  destruct H3 as [(_ & _ & [=])|[(_ & _ & [=] & _)|(H & H3 & H4 & g' & [= <-] & H5)]].
  right; right. split_and!; try done. by exists (redeem g serial t).
Qed.

Lemma typed_insert (P : KeyRecord → Prop) kid r (m : gmap string KeyRecord) :
  P r → map_Forall (λ _ r, P r) m → map_Forall (λ _ r, P r) (<[kid := r]> m).
Proof. intros. by apply map_Forall_insert_2. Qed.

Lemma typed_mutation m now d :
  (∀ k, filed m = Some k → key_typed k) → doc_typed d → doc_typed (run_mutation m now d).1.
Proof.
  intros Hf [Hok Ht]. destruct (run_mutation m now d) as [d' r] eqn:E. split; [by eapply run_mutation_ok|]. cbn [fst].
  assert (∀ kid r f, Keys d !! kid = Some r → (∀ k, key_typed k → key_typed (f k)) →
          map_Forall (λ _ r, key_typed (rec_Key r)) (<[kid := set_rec_Key f r]> (Keys d))) as Hupd.
  { intros kid r0 f Hr0 Hk. apply typed_insert; [|done]. cbn. apply Hk. by apply (Ht kid). }
  destruct r as [b|e]; [|by apply run_mutation_Err in E as ->]. destruct m; cbn [run_mutation filed] in *.
  - apply PutKey_Ok in E as (k' & -> & _ & _ & -> & ->). apply typed_insert; [|done]. cbn. rewrite cloneKey_id. exact (Hf k' eq_refl).
  - apply PutKeyIfNoUsable_Ok in E as (k' & -> & _ & [(_ & -> & _)|(_ & -> & _)]); [done|].
    apply typed_insert; [|done]. cbn. rewrite cloneKey_id. exact (Hf k' eq_refl).
  - apply ReplaceKey_Ok in E as (k' & old & -> & _ & _ & Ho & _ & _ & ->). apply typed_insert.
    + cbn. apply (Ht oldKID old Ho).
    + apply typed_insert; [|done]. cbn. rewrite cloneKey_id. exact (Hf k' eq_refl).
  - apply RevokeKey_Ok in E as (r & Hr & [(_ & -> & _)|(_ & _ & ->)]); [done|]. by apply Hupd.
  - apply DeleteKey_Ok in E as (_ & _ & ->). by apply map_Forall_delete.
  - apply TouchKey_Ok in E as (r & Hr & _ & ->). by apply Hupd.
  - destruct (BurnEnrollment _ _ _ _ _) as [s1 [[]|]] eqn:Hb; simplify_eq/=.
    apply BurnEnrollment_inv in Hb as (r & g & Hr & Hg & _ & _ & _ & _ & _ & _ & ->). apply typed_insert; [|done]. cbn.
    apply key_typed_redeem; [done|]. by apply (Ht kid).
  - by apply RevokeCert_Ok in E as (_ & _ & t & ->).
  - destruct (Prune _ _ _) as [s1 [[res ch]|]] eqn:Hb; simplify_eq/=. pose proof (Prune_retain _ _ _ _ _ Hb) as Hret.
    destruct (Prune_eq now retain d Hret) as (res' & Heq & _). rewrite Heq in Hb. simplify_eq/=.
    intros k r [Hr _]%map_lookup_filter_Some. by apply (Ht k).
Qed.

(** A minting route files what its arguments describe. *)
Lemma typed_committed env s a now commit key raw x d' :
  (∀ i j n b, me_read env i j n = Some b → length b = n) → (∀ i x, me_store env i = Some x → doc_typed x) →
  validateName (ma_name a) = true → class_typed (ma_class a) (ma_scope a) (ma_grant a) (ma_expiresAt a) →
  (∀ k y, ∃ m t, filed m = Some k ∧ run_mutation m t y = commit k y) →
  committed env s a now commit key raw x d' → doc_typed d'.
Proof.
  intros Hread Hst Hn Hty Hm Hc.
  destruct (committed_token _ _ _ _ _ _ _ _ _ Hread Hc) as (secret & _ & _ & H1 & H2 & H3 & H4 & H5 & _ & H6).
  destruct Hc as (i & mt & b & _ & _ & _ & Hx & Hcom). destruct (Hm key x) as (m & t & Hf & Hrun).
  assert (doc_typed (run_mutation m t x).1) as Hd; [|by rewrite Hrun, Hcom in Hd].
  apply typed_mutation; [|by eapply Hst]. intros k Hk. rewrite Hf in Hk. injection Hk as <-.
  split_and!; [done|by rewrite H2|]. by rewrite H1, H3, H4, H5.
Qed.

Lemma answer_minted_cases r view a o :
  answer_minted r view = (a, o) →
  (∃ key raw, r = (Some (Ok (key, raw)), o)) ∨ ∃ e, r = (e, o) ∧ ∀ x, e ≠ Some (Ok x).
Proof. destruct r as [[[[key raw]|]|] d]; cbn; intros [=]; subst; eauto; right; eexists; (split; [done|]); by intros []. Qed.

(** What a route that mints leaves, typed if its arguments are. *)
Lemma typed_minted env s a now view r d' :
  (∀ i j n b, me_read env i j n = Some b → length b = n) → (∀ i x, me_store env i = Some x → doc_typed x) →
  validateName (ma_name a) = true →
  (ma_class a ≠ ClassAgent → ma_expiresAt a ≠ 0 → class_typed (ma_class a) (ma_scope a) (ma_grant a) (ma_expiresAt a)) →
  (ma_class a = ClassAgent → class_typed (ma_class a) (ma_scope a) (ma_grant a) (ma_expiresAt a)) →
  answer_minted (mintKey env s a now) view = (r, Some d') → doc_typed d'.
Proof.
  intros Hread Hst Hn Hty Hag H. unfold mintKey in H.
  destruct (mintKeyWith env s a now _) as [m o] eqn:E. apply mintKeyWith_spec in E; [|apply PutKey_safe].
  apply answer_minted_cases in H as [(key & raw & [= -> ->])|(e & [= -> ->] & He)].
  - destruct E as (Hexp & x & y & [= <-] & Hc). eapply (typed_committed env s a now _ key raw x); try done.
    + destruct (decide (ma_class a = ClassAgent)); auto.
    + intros k y. by exists (MPutKey (Some k)), 0.
  - destruct e as [[x|]|]; [by destruct (He x)|..]; destruct E as [i Hi]; by eapply Hst.
Qed.

Lemma typed_create s draining body ck env r d' :
  (∀ i j n b, me_read env i j n = Some b → length b = n) → (∀ i x, me_store env i = Some x → doc_typed x) →
  handleCreateKey s draining body ck env = (r, Some d') → doc_typed d'.
Proof.
  intros Hread Hst. assert (∀ e, refuse (A := MintedKeyResponse) e (me_store env 0) = (r, Some d') → doc_typed d') as Href.
  { intros e [= _ He]. by eapply Hst. }
  unfold handleCreateKey. destruct (guard _); [|apply Href]. destruct body as [req|]; [|apply Href].
  destruct (if String.eqb (ck_Class req) ClassAgent then Some _ else _) as [maxTTL|] eqn:E1; [|apply Href].
  destruct (validateName _) eqn:E2; [|apply Href]. destruct (negb (validateOwner _)); [apply Href|]. cbn [negb].
  destruct (if String.eqb _ _ then negb _ else _) eqn:E3; [apply Href|].
  destruct (resolveExpiry _ _ _ _ _) as [expiresAt|]; [|apply Href].
  apply typed_minted; [done..| |]; cbn [ma_class ma_scope ma_grant ma_expiresAt]; intros Hc.
  - intros Hne. right; left. apply String.eqb_neq in Hc. rewrite Hc in E1, E3.
    destruct (String.eqb_spec (ck_Class req) ClassAdmin); [|done]. apply bool_decide_eq_false in E3.
    split_and!; try done. destruct (ck_Scope req); [by destruct E3|done].
  - left. rewrite Hc in E3. cbn in E3. split_and!; try done. by destruct (Validate (ck_Scope req)) as [[]|].
Qed.

Lemma typed_enrollment s draining body ck env r d' :
  (∀ i j n b, me_read env i j n = Some b → length b = n) → (∀ i x, me_store env i = Some x → doc_typed x) →
  handleCreateEnrollment s draining body ck env = (r, Some d') → doc_typed d'.
Proof.
  intros Hread Hst. assert (∀ e, refuse (A := MintedKeyResponse) e (me_store env 0) = (r, Some d') → doc_typed d') as Href.
  { intros e [= _ He]. by eapply Hst. }
  unfold handleCreateEnrollment. destruct (guard _); [|apply Href]. destruct body as [req|]; [|apply Href].
  destruct (ValidClusterID _) eqn:E1; [|apply Href]. destruct (validateLabels _) eqn:E2; [|apply Href]. cbn [negb].
  destruct (validateName _) eqn:E3; [|apply Href]. destruct (negb (validateOwner _)); [apply Href|]. cbn [negb].
  destruct (resolveTTL _ _) as [ttl|]; [|apply Href]. destruct (Z.ltb_spec (ce_MaxRedemptions req) 0); [apply Href|].
  destruct (_ && _) eqn:E4; [apply Href|].
  apply typed_minted; [done..| |done]; cbn [ma_class ma_scope ma_grant ma_expiresAt]. intros _ Hne. right; right.
  split_and!; try done. eexists. split; [done|]. split_and!; try done. cbn. intros Hpos.
  apply Z.ltb_lt in Hpos. rewrite Hpos in E4. by apply negb_false_iff in E4.
Qed.

Lemma typed_rotate s draining kid body store ck at_ clock env r d' :
  (∀ i j n b, me_read env i j n = Some b → length b = n) → (∀ i x, me_store env i = Some x → doc_typed x) →
  (∀ x, store = Some x → doc_typed x) →
  handleRotateKey s draining kid body store ck at_ clock env = (r, Some d') → doc_typed d'.
Proof.
  intros Hread Hst Hsto H. apply handleRotateKey_cases in H.
  destruct r as [[resp|]|]; [|destruct H as [i Hi]; by eapply Hst..].
  destruct H as (req & old & x0 & expiresAt & reason & key & raw & x & ? & _ & _ & [= <-] & -> & Hold & Hne & Hexp & -> & Hc).
  destruct (Hsto x0 eq_refl) as [_ Hty]. unfold GetKey in Hold. destruct (Keys x0 !! kid) as [r0|] eqn:Hr0; [|done].
  injection Hold as <-. rewrite rec_value_eq in *. destruct (Hty _ _ Hr0) as (_ & Hn & Hcl).
  eapply (typed_committed env s _ _ _ key raw x); try exact Hc; try done.
  - cbn in *. destruct Hcl as [(? & ? & ?)|[(? & ? & ? & ?)|(? & ? & ? & ?)]]; [left|right; left|done]; split_and!; try done.
    apply Hexp. match goal with H : _ = ClassAdmin |- _ => by rewrite H end.
  - intros k y. by exists (MReplaceKey (Some k) (KID (set_SecretHMAC (rec_SecretHMAC r0) (rec_Key r0)))
      (reason +:+ " (replaced by " +:+ KID k +:+ ")") at_), clock.
Qed.

(** The documents a hub can leave: by its routes, run on documents it left before, by
recording uses and revocations of certificates, by pruning and by minting the first
admin credential. *)
Inductive served (s : server) : State → Prop :=
| sv_new : served s NewState
| sv_create draining body ck env r d' :
    (∀ i j n b, me_read env i j n = Some b → length b = n) → (∀ i x, me_store env i = Some x → served s x) →
    handleCreateKey s draining body ck env = (r, Some d') → served s d'
| sv_create_enrollment draining body ck env r d' :
    (∀ i j n b, me_read env i j n = Some b → length b = n) → (∀ i x, me_store env i = Some x → served s x) →
    handleCreateEnrollment s draining body ck env = (r, Some d') → served s d'
| sv_rotate draining kid body store ck at_ clock env r d' :
    (∀ i j n b, me_read env i j n = Some b → length b = n) → (∀ i x, me_store env i = Some x → served s x) →
    (∀ x, store = Some x → served s x) →
    handleRotateKey s draining kid body store ck at_ clock env = (r, Some d') → served s d'
| sv_revoke draining kid reason purge at_ clock store d r d' :
    served s d → handleRevokeKey draining kid reason purge at_ clock store (Some d) = (r, Some d') → served s d'
| sv_revoke_enrollment draining kid reason at_ clock store d r d' :
    served s d → handleRevokeEnrollment draining kid reason at_ clock store (Some d) = (r, Some d') → served s d'
| sv_enroll std raw kid body store now at_ clock n d r d' :
    served s d → handleEnroll std raw s (Some kid) body store (Some d) now at_ clock n = (r, Some d') → served s d'
| sv_mutation m now d : served s d → filed m = None → served s (run_mutation m now d).1
| sv_bootstrap ttl now hmac seen d : 0 < now → served s d → served s (bootstrapAdminKey ttl now hmac seen d).1.

Lemma typed_answer_done m clock f d r d' :
  (∀ x, f x = run_mutation m clock x) → filed m = None → doc_typed d →
  answer_done (on_store f (Some d)) = (r, Some d') → doc_typed d'.
Proof.
  intros Hf Hm Hd. cbn. rewrite Hf. assert (doc_typed (run_mutation m clock d).1) as Hd'.
  { apply typed_mutation; [|done]. rewrite Hm. done. }
  destruct (run_mutation m clock d) as [x [b|e]]; cbn; intros [= _ <-]; done.
Qed.

(** C35: Every stored credential is of its class.  In every document the hub can leave, a
record's identifier is ten base-62 characters and its name is presentable, and: an agent's
credential carries a valid scope and no grant; an admin's carries neither and expires; an
enrolment token carries no scope, expires, and its grant names a valid cluster, has valid
labels, and is capped only if it is reusable.  In particular only an agent's credential can
be without an expiry. *)
Theorem served_typed s d : served s d → doc_typed d.
Proof.
  induction 1 as
    [|draining body ck env r d' Hread Hst IH H|draining body ck env r d' Hread Hst IH H
     |draining kid body store ck at_ clock env r d' Hread Hst IH Hsto IH' H
     |draining kid reason purge at_ clock store d r d' _ IH H|draining kid reason at_ clock store d r d' _ IH H
     |std raw kid body store now at_ clock n d r d' _ IH H|m now d _ IH Hm|ttl now hmac seen d Hnow _ IH].
  - split; [apply NewState_ok|apply map_Forall_empty].
  - by eapply typed_create.
  - by eapply typed_enrollment.
  - by eapply (typed_rotate s).
  - unfold handleRevokeKey in H. repeat case_match; simplify_eq; try done.
    + by eapply (typed_answer_done (MDeleteKey _) 0); [|..|exact H].
    + by eapply (typed_answer_done (MRevokeKey _ reason at_) clock); [|..|exact H].
  - unfold handleRevokeEnrollment in H. repeat case_match; simplify_eq; try done;
      (by eapply (typed_answer_done (MRevokeKey _ _ at_) clock); [|..|exact H]).
  - apply handleEnroll_cases in H as [[_ [= <-]]|(x & key & g & pem & cert & csrDER & k & ? & _ & _ & _ & _ & Hb & [= <-] & _)]; [done|].
    assert (run_mutation (MBurnEnrollment (KID key) (SerialHex (SerialNumber cert)) at_) clock d = (d', snd <$> Ok k)) as Hrun.
    { cbn [run_mutation]. by rewrite Hb. }
    change d' with (d', snd <$> Ok (E := StoreError) k).1. rewrite <- Hrun. by apply typed_mutation.
  - apply typed_mutation; [|done]. intros k Hk. congruence.
  - unfold bootstrapAdminKey. destruct (existsb _ _); [done|].
    assert (when_ now now = now) as Hw by (unfold when_; by destruct (IsZero now)).
    rewrite <- Hw at 2.
    apply (typed_mutation (MPutKeyIfNoUsable (Some (bootstrap_record hmac now (bootstrapTTL ttl))) now) now); [|done].
    intros k [= <-].
    split_and!; [done..|]. right; left. split_and!; try done. cbn. unfold Add, bootstrapTTL.
    destruct (Z.ltb_spec 0 ttl); [lia|]. assert (0 < Hub.DefaultAdminKeyTTL) by done. lia.
Qed.

End admin.

(** * Instances *)

(** Entropy that differs from one seed to the next. *)
Definition toy_read (seed attempt i n : nat) : option (list byte) :=
  Some (replicate n (byte_of_Z (Z.of_nat (seed + attempt)))).

Lemma toy_read_fills seed i j n b : toy_read seed i j n = Some b → length b = n.
Proof. intros [= <-]. apply length_replicate. Qed.

Definition toy_env (seed : nat) (d : State) : mint_env :=
  {| me_fuel := 20; me_read := toy_read seed; me_store _ := Some d |}.

Definition toy_scope : Scope :=
  {| Scope_Role := RoleViewer; Scope_Clusters := {| cs_Allow := ["*"]; cs_MatchLabels := ∅; cs_Deny := [] |};
     Scope_Tools := {| ts_Allow := ["*"]; ts_Deny := [] |};
     Scope_Limits := {| MaxLookback := 0; MaxPoints := 0; MaxSeries := 0; Timeout := 0; MaxResponseBytes := 0;
                        MaxConcurrentPerCluster := 0; RateRPS := float64_of 0; RateBurst := 0 |} |}.

Definition toy_create : CreateKeyRequest :=
  {| ck_Class := ClassAgent; ck_Name := "bot"; ck_Owner := ""; ck_TTL := 0; ck_NoExpiry := false; ck_Scope := Some toy_scope |}.

Definition toy_mint_clocks : mint_clocks := {| t_resolve := toy_now; t_create := toy_now; t_view := toy_now |}.

Definition toy_created : answer MintedKeyResponse :=
  handleCreateKey toy_hmac toy_server false (Ok toy_create) toy_mint_clocks (toy_env 1 NewState).

Definition no_answer : MintedKeyResponse := mintedResponse ex_agent "" 0.
Definition answered (a : answer MintedKeyResponse) : MintedKeyResponse :=
  match a.1 with Some (Ok r) => r | _ => no_answer end.

Definition toy_doc : State := default NewState toy_created.2.

Lemma toy_created_answers :
  handleCreateKey toy_hmac toy_server false (Ok toy_create) toy_mint_clocks (toy_env 1 NewState)
  = (Some (Ok (answered toy_created)), Some toy_doc).
Proof. vm_compute. reflexivity. Qed.


Definition toy_kid : string := kv_KID (mk_Key (answered toy_created)).
Definition toy_rotated : answer MintedKeyResponse :=
  handleRotateKey toy_hmac toy_server false toy_kid (Ok {| ro_TTL := Hour; ro_NoExpiry := false; ro_Reason := "" |})
    (Some toy_doc) toy_mint_clocks toy_now toy_now (toy_env 2 toy_doc).

Lemma toy_doc_served : served toy_hmac toy_server toy_doc.
Proof.
  eapply (sv_create _ _ _ _ _ (toy_env 1 NewState)); [apply (toy_read_fills 1)| |exact toy_created_answers].
  intros i x [= <-]. constructor.
Qed.

Lemma toy_doc_ok : state_ok toy_doc.
Proof.
  assert (toy_doc = (run_mutation (MPutKey (Some (rec_value (default {| rec_V := 0; rec_Key := ex_agent; rec_SecretHMAC := [] |}
            (Keys toy_doc !! toy_kid))))) 0 NewState).1) as -> by (vm_compute; reflexivity).
  apply NewState_run_ok.
Qed.

(** The old token is refused, the new one accepted. *)
Lemma rotation_hands_over_witness :
  ∃ d' p, toy_rotated.2 = Some d' ∧
    authenticate toy_hmac (s_hasher toy_server) d' (mk_Token (answered toy_rotated)) ClassAgent toy_now = Ok p ∧
    authenticate toy_hmac (s_hasher toy_server) d' (mk_Token (answered toy_created)) ClassAgent toy_now ≠ Ok p.
Proof.
  pose proof (rotation_hands_over toy_hmac toy_server false toy_kid
    (Ok {| ro_TTL := Hour; ro_NoExpiry := false; ro_Reason := "" |}) (Some toy_doc) toy_mint_clocks toy_now toy_now
    (toy_env 2 toy_doc) (Some (Ok (answered toy_rotated))) toy_rotated.2 (toy_read_fills 2)) as H.
  destruct H as (x0 & old & x & d' & [= <-] & Hold & Ho & _ & H1 & H2 & _).
  - vm_compute. eauto.
  - intros x [= <-]. apply toy_doc_ok.
  - vm_compute. reflexivity.
  - exists d'. assert (Class old = ClassAgent) as Hcl.
    { assert (Class <$> GetKey toy_kid toy_doc = Ok ClassAgent) as Hc by (vm_compute; reflexivity).
      rewrite Hold in Hc. by injection Hc. }
    rewrite Hcl in H1. eexists. split; [exact Ho|]. split; [apply H1; right; vm_compute; discriminate|].
    eapply (H2 _ {| tok_class := ClassAgent; tok_kid := toy_kid; tok_secret := replicate 32 (byte_of_Z 1) |});
      [vm_compute; reflexivity|reflexivity].
Defined.

Lemma served_typed_witness : served toy_hmac toy_server toy_doc ∧ doc_typed toy_doc.
Proof. split; [apply toy_doc_served|]. apply (served_typed toy_hmac toy_server toy_doc), toy_doc_served. Defined.
