(* ===== verification/Revocation.v ===== *)
(** Revoking a spoke's certificate: the admin route of
[src/internal/hubapi/admin.go], the enforcer of [revocation.go] and the cache the
tunnel handshake and the enforcer share, [revocationCache] of
[src/internal/hub/tunnel.go].

A revocation is a record of the document ([State]).  Renewal reads the document
itself ([HubApi.handleRenew]); the handshake and the enforcer read a replica's
cache of it, whose refreshes are steps that read the clock, the epoch and the
list, each at its own moment. *)

From S2P Require Import Prelude Fleet State Registry Text Token Ca CertProof HubApi.
Open Scope string_scope.
Open Scope Z_scope.

(** * The route *)

Definition hex_char (c : ascii) : bool := in_range 0x30 0x39 c || in_range 0x61 0x66 c.

(** [validSerial]: 1 to 64 lowercase hexadecimal digits, not all zero. *)
Definition validSerial (s : string) : bool :=
  str_forall hex_char s && (1 <=? String.length s)%nat && (String.length s <=? 64)%nat
  && str_exists (λ c, negb (Ascii.eqb c "0")) s.

Fixpoint Compact (l : list string) : list string :=
  match l with
  | [] => []
  | x :: l => match l with
              | y :: _ => if String.eqb x y then Compact l else x :: Compact l
              | [] => [x]
              end
  end.

Definition uniqueSorted (ids : list string) : list string := Compact (merge_sort String.le ids).

(** What the audit line of closed sessions says: how many, and whose. *)
Definition session_event (closed : list string) : option (nat * list string) :=
  if (length closed =? 0)%nat then None else Some (length closed, uniqueSorted closed).

(** The replica's sessions: none configured, or the registry and the entries
[CloseRevoked] sees, in some order. *)
Definition sessions : Type := option (Registry * list (string * entry)).

Definition closeRevokedSessions (ss : sessions) (serial : string) (now : Z)
    : option Registry * option (nat * list string) :=
  match ss with
  | None => (None, None)
  | Some (r, es) => let '(r, closed) := CloseRevoked [serial] es now r in (Some r, session_event closed)
  end.

(** The answer, the document, and the sessions with their audit line.  [body] is what
[readOptionalBody] decodes: the reason and the certificate's expiry. *)
Definition handleRevokeCert `{X509} (s : server) (draining : bool) (serial : string) (body : result code (string * Z))
    (now : Z) (store : option State) (clock : Z) (ss : sessions)
    : result code unit * option State * (option Registry * option (nat * list string)) :=
  let unchanged := (fst <$> ss, None) in
  if draining then (Err CodeUnavailable, store, unchanged)
  else if negb (validSerial serial) then (Err CodeInvalidRequest, store, unchanged)
  else match body with
  | Err e => (Err e, store, unchanged)
  | Ok (reason, notAfter) =>
    if negb (validateReason reason) then (Err CodeInvalidRequest, store, unchanged)
    else
      let notAfter := if IsZero notAfter then Add now (s_spokeCertTTL s) else notAfter in
      if Before notAfter now then (Err CodeInvalidRequest, store, unchanged)
      else match store with
      | None => (Err CodeInternal, store, unchanged)
      | Some d =>
        match RevokeCert {| Serial := serial; rc_RevokedAt := now; rc_NotAfter := notAfter; rc_Reason := reason |} clock d with
        | (d', Err _) => (Err CodeInternal, Some d', unchanged)
        | (d', Ok _) => (Ok tt, Some d', closeRevokedSessions ss serial now)
        end
      end
  end.

(** * The cache *)

Record revocationCache := { c_ttl : Z; c_serials : list string; c_epoch : Z; c_fetched : Z }.

(** As [revokedSerials] builds it, before its first refresh. *)
Definition new_cache : revocationCache := {| c_ttl := 30 * Second; c_serials := []; c_epoch := 0; c_fetched := 0 |}.

Definition cache_fresh (now : Z) (c : revocationCache) : bool := Sub now (c_fetched c) <? c_ttl c.

(** The entries whose certificate has not expired by [now]. *)
Definition live_serials (now : Z) (entries : list RevokedCert) : list string :=
  omap (λ e, if negb (IsZero (rc_NotAfter e)) && After now (rc_NotAfter e) then None else Some (Serial e)) entries.

(** [refresh]: [now] is when it holds the lock, [done] when it has its answers;
[epoch] and [entries] are the store's, [None] when it fails. *)
Definition refresh (now : Z) (epoch : option Z) (entries : option (list RevokedCert)) (done_ : Z) (c : revocationCache)
    : revocationCache * bool :=
  if cache_fresh now c then (c, true)
  else match epoch with
  | None => (c, false)
  | Some epoch =>
    if (epoch =? c_epoch c) && negb (IsZero (c_fetched c))
    then ({| c_ttl := c_ttl c; c_serials := c_serials c; c_epoch := c_epoch c; c_fetched := done_ |}, true)
    else match entries with
    | None => (c, false)
    | Some entries =>
      ({| c_ttl := c_ttl c; c_serials := live_serials done_ entries; c_epoch := epoch; c_fetched := done_ |}, true)
    end
  end.

(** A refresh of a replica: when it takes the lock, when the store answers with the
epoch and with the list, if it does, and when it ends. *)
Record refresh_op := {
  o_now : Z;
  o_epoch_at : Z;
  o_list_at : Z;
  o_done : Z;
  o_epoch_up : bool;
  o_list_up : bool
}.

Section cache.
(** The document over time. *)
Context (D : Z → State).

Definition refresh_at (o : refresh_op) (c : revocationCache) : revocationCache * bool :=
  refresh (o_now o) (if o_epoch_up o then Some (Epoch (D (o_epoch_at o))) else None)
    (if o_list_up o then Some (ListRevokedCerts (D (o_list_at o))) else None) (o_done o) c.

Definition refresh_all (os : list refresh_op) (c : revocationCache) : revocationCache :=
  foldl (λ c o, (refresh_at o c).1) c os.

(** [isRevoked], asked at [now]; [mid] are the refreshes of other callers before its own,
which the lock orders, and [post] those before its second look. *)
Definition isRevoked (serial : string) (now : Z) (mid : list refresh_op) (own : refresh_op) (post : list refresh_op)
    (c : revocationCache) : bool :=
  let revoked := Contains (c_serials c) serial in
  if revoked || cache_fresh now c then revoked
  else
    let '(c, ok) := refresh_at own (refresh_all mid c) in
    if negb ok then revoked else Contains (c_serials (refresh_all post c)) serial.

End cache.

(** * The enforcer *)

Definition DefaultRevocationInterval : Z := 15 * Second.

(** [NewRevocationEnforcer]: the interval it will use. *)
Definition NewRevocationEnforcer (hasSessions hasPredicate : bool) (interval : Z) : option Z :=
  if negb hasSessions then None
  else if negb hasPredicate then None
  else if interval <? 0 then None
  else Some (if interval =? 0 then DefaultRevocationInterval else interval).

(** [Enforce], with the answers the predicate gives in this pass; [CloseRevokedBy]
asks for each serial once. *)
Definition Enforce (verdict : string → bool) (es : list (string * entry)) (now : Z) (r : Registry)
    : Registry * option (nat * list string) :=
  let '(r, closed) := CloseRevokedBy (Some verdict) es now r in (r, session_event closed).

(** * A revocation stays on record *)

(** The list holds an entry for the serial that lasts until the certificate expires. *)
Definition on_record (serial : string) (until : Z) (d : State) : Prop :=
  ∃ rc, RevokedCerts d !! serial = Some rc ∧ (rc_NotAfter rc = 0 ∨ until ≤ rc_NotAfter rc).

(** A mutation that neither prunes earlier than [grace] after an expiry nor revokes the
serial again with an expiry that is too early. *)
Definition calm (serial : string) (until grace : Z) (m : Mutation) : Prop :=
  match m with
  | MRevokeCert rc => Serial rc = serial → rc_NotAfter rc = 0 ∨ until ≤ rc_NotAfter rc
  | MPrune retain => grace ≤ retain
  | _ => True
  end.

Lemma RevokedCerts_frame m now d d' r :
  run_mutation m now d = (d', r) →
  match m with MRevokeCert _ | MPrune _ => True | _ => RevokedCerts d' = RevokedCerts d end.
Proof.
  destruct r as [b|e]; [|intros ->%run_mutation_Err; by destruct m].
  destruct m; cbn [run_mutation]; intros H; try done.
  - by apply PutKey_Ok in H as (k' & -> & ? & ? & -> & ->).
  - by apply PutKeyIfNoUsable_Ok in H as (k' & -> & ? & [(-> & -> & _)|(-> & -> & _)]).
  - by apply ReplaceKey_Ok in H as (k' & old & -> & ? & ? & Ho & ? & -> & ->).
  - by apply RevokeKey_Ok in H as (r & ? & [(-> & -> & _)|(-> & ? & ->)]).
  - by apply DeleteKey_Ok in H as (? & -> & ->).
  - by apply TouchKey_Ok in H as (r & ? & -> & ->).
  - destruct (BurnEnrollment _ _ _ _ _) as [s1 [[]|]] eqn:Hb; simplify_eq/=.
    by apply BurnEnrollment_inv in Hb as (r & g & ? & ? & ? & ? & ? & ? & -> & ? & ->).
Qed.

Lemma Prune_certs now retain d d' res :
  Prune now retain d = (d', Ok res) →
  RevokedCerts d' = filter (λ e, keep_cert now retain e.1 e.2 = true) (RevokedCerts d).
Proof.
  intros H. pose proof (Prune_retain _ _ _ _ _ H) as Hr. destruct (Prune_eq now retain d Hr) as (res' & Heq & _).
  rewrite Heq in H. by simplify_eq.
Qed.

Lemma on_record_step serial until grace m now d :
  calm serial until grace m → now ≤ until + grace → on_record serial until d → on_record serial until (run_mutation m now d).1.
Proof.
  intros Hc Hn Hr. destruct (run_mutation m now d) as [d' r] eqn:E. cbn [fst].
  pose proof (RevokedCerts_frame _ _ _ _ _ E) as F. destruct r as [b|e]; [|apply run_mutation_Err in E as ->; done].
  unfold on_record. destruct m; try (by rewrite F); cbn [run_mutation] in E.
  - apply RevokeCert_Ok in E as (Hne & -> & t & ->). cbn [RevokedCerts bump set_RevokedCerts].
    destruct (decide (Serial rc = serial)) as [<-|Hs].
    + rewrite lookup_insert_eq. eexists. split; [done|]. cbn. by apply Hc.
    + rewrite lookup_insert_ne by done. exact Hr.
  - destruct (Prune _ _ _) as [d1 [[res ch]|]] eqn:Hp; simplify_eq/=. apply Prune_certs in Hp as ->.
    destruct Hr as (rc & Hrc & Hna). exists rc. split; [|done]. apply map_lookup_filter_Some. split; [done|]. cbn.
    unfold keep_cert, IsZero, After, Add. apply orb_true_iff. destruct Hna as [->|Hna]; [by left|right].
    apply negb_true_iff, Z.ltb_ge. lia.
Qed.

Lemma on_record_history serial until grace h d :
  Forall (λ e, calm serial until grace e.1 ∧ e.2 ≤ until + grace) h →
  on_record serial until d → on_record serial until (run_history h d).
Proof.
  revert d. induction h as [|[m now] h IH]; intros d Hh Hd; [done|].
  apply Forall_cons in Hh as [[Hc Hn] Hh]. cbn. apply IH; [done|]. by eapply on_record_step.
Qed.

Lemma on_record_listed serial until d :
  on_record serial until d → state_ok d →
  ∃ rc, rc ∈ ListRevokedCerts d ∧ Serial rc = serial ∧ (rc_NotAfter rc = 0 ∨ until ≤ rc_NotAfter rc).
Proof.
  intros (rc & Hrc & Hna) Hok. exists rc. destruct (ok_RevokedCerts _ Hok _ _ Hrc) as [Hs _]. split_and!; try done.
  unfold ListRevokedCerts. rewrite merge_sort_Permutation. apply list_elem_of_fmap. exists (serial, rc).
  split; [done|]. by apply elem_of_map_to_list.
Qed.

Section revocation.
Context `{X : X509}.

(** The expiry a revocation records. *)
Definition recorded_expiry (s : server) (notAfter now : Z) : Z :=
  if IsZero notAfter then now + s_spokeCertTTL s else notAfter.

Lemma handleRevokeCert_Ok s draining serial body now store clock ss o out :
  handleRevokeCert s draining serial body now store clock ss = (Ok tt, o, out) →
  ∃ reason notAfter d d',
    draining = false ∧ validSerial serial = true ∧ body = Ok (reason, notAfter) ∧ validateReason reason = true ∧
    now ≤ recorded_expiry s notAfter now ∧ store = Some d ∧ o = Some d' ∧
    run_mutation (MRevokeCert {| Serial := serial; rc_RevokedAt := now; rc_NotAfter := recorded_expiry s notAfter now;
                                 rc_Reason := reason |}) clock d = (d', Ok true) ∧
    out = closeRevokedSessions ss serial now.
Proof.
  unfold handleRevokeCert. destruct draining; [done|]. destruct (validSerial serial) eqn:E1; [|done]. cbn [negb].
  destruct body as [[reason notAfter]|]; [|done]. destruct (validateReason reason) eqn:E2; [|done]. cbn [negb].
  fold (recorded_expiry s notAfter now). unfold Add. fold (recorded_expiry s notAfter now).
  destruct (Before _ _) eqn:E3; [done|]. apply Z.ltb_ge in E3. destruct store as [d|]; [|done].
  destruct (RevokeCert _ _ _) as [d' [b|]] eqn:E4; [|done]. intros [= <- <-].
  apply RevokeCert_Ok in E4 as E5. destruct E5 as (_ & -> & _). exists reason, notAfter, d, d'. split_and!; try done.
Qed.

(** What a revocation leaves on record. *)
Lemma handleRevokeCert_record s draining serial reason notAfter now d clock ss d' out until :
  state_ok d → until ≤ recorded_expiry s notAfter now →
  handleRevokeCert s draining serial (Ok (reason, notAfter)) now (Some d) clock ss = (Ok tt, Some d', out) →
  state_ok d' ∧ on_record serial until d'.
Proof.
  intros Hok Hu H. apply handleRevokeCert_Ok in H as (? & ? & ? & ? & _ & _ & [= <- <-] & _ & _ & [= <-] & [= <-] & Hr & _).
  split; [by eapply run_mutation_ok|]. cbn [run_mutation] in Hr. apply RevokeCert_Ok in Hr as (_ & _ & t & ->).
  eexists. cbn. rewrite lookup_insert_eq. split; [done|]. by right.
Qed.

Lemma run_history_ok h d : state_ok d → state_ok (run_history h d).
Proof.
  revert d. induction h as [|[m now] h IH]; intros d Hd; [done|]. cbn. apply IH.
  eapply run_mutation_ok; [apply surjective_pairing|done].
Qed.

Lemma on_record_revoked serial until d : state_ok d → on_record serial until d → serial ∈ revokedSerials d.
Proof.
  intros Hok (rc & Hin & <- & _)%on_record_listed; [|done]. unfold revokedSerials.
  apply elem_of_list_to_set, list_elem_of_fmap. eauto.
Qed.


End revocation.

(** * The cache keeps up *)

(** As long as the epoch has not wrapped, it grows, and moves whenever a certificate is
revoked. *)
Lemma epoch_tracks h d :
  state_ok d → Epoch d + Z.of_nat (length h) < 2 ^ 64 →
  Epoch d ≤ Epoch (run_history h d) ≤ Epoch d + Z.of_nat (length h) ∧
  (Epoch (run_history h d) = Epoch d → ∀ serial rc, RevokedCerts (run_history h d) !! serial = Some rc →
                                                    RevokedCerts d !! serial = Some rc).
Proof.
  revert d. induction h as [|[m now] h IH]; intros d Hok Hw; cbn [run_history length] in *; [split; [lia|done]|].
  destruct (run_mutation m now d) as [d' r] eqn:E. cbn [fst].
  assert (state_ok d') as Hok' by (by eapply run_mutation_ok).
  pose proof (epoch_step _ _ _ _ _ E) as He. pose proof (ok_Epoch _ Hok) as [H0 _].
  assert (d' = d ∨ Epoch d' = (if bumps m then Epoch d + 1 else Epoch d)) as [->|He'].
  { destruct r as [[]|]; [right|by left|by left]. rewrite He. destruct (bumps m); [|done].
    apply wrap_uint64_id. lia. }
  { destruct (IH d Hok ltac:(lia)) as [H1 H2]. split; [lia|done]. }
  destruct (IH d' Hok') as [H1 H2]; [destruct (bumps m); lia|]. split; [destruct (bumps m); lia|].
  intros Heq serial rc Hrc. destruct (bumps m) eqn:Hb; [lia|]. apply H2 in Hrc; [|lia].
  pose proof (RevokedCerts_frame _ _ _ _ _ E) as F. destruct m; try done; [by rewrite F in Hrc|].
  cbn [run_mutation] in E. destruct (Prune _ _ _) as [d1 [[res ch]|]] eqn:Hp; simplify_eq/=.
  - apply Prune_certs in Hp. rewrite Hp in Hrc. by apply map_lookup_filter_Some in Hrc as [? _].
  - apply Prune_Err in Hp. by subst.
Qed.

(** Refreshes as the lock orders them, each of which takes at most [L]. *)
Fixpoint ordered (L lo : Z) (os : list refresh_op) : Prop :=
  match os with
  | [] => True
  | o :: os => lo ≤ o_now o ∧ o_now o ≤ o_epoch_at o ∧ o_epoch_at o ≤ o_list_at o ∧ o_list_at o ≤ o_done o ∧
               o_done o ≤ o_now o + L ∧ ordered L (o_done o) os
  end.

Definition last_done (lo : Z) (os : list refresh_op) : Z := foldl (λ _ o, o_done o) lo os.

Lemma ordered_app L lo os os' : ordered L lo (os ++ os') ↔ ordered L lo os ∧ ordered L (last_done lo os) os'.
Proof. revert lo. induction os as [|o os IH]; intros lo; cbn; [tauto|]. rewrite IH. tauto. Qed.

(** A document over time: what holds at an instant is reached from every earlier one by
mutations, too few for the epoch to wrap. *)
Record timeline (D : Z → State) : Prop := {
  tl_ok : ∀ u, state_ok (D u);
  tl_run : ∀ u v, u ≤ v → ∃ h, D v = run_history h (D u) ∧ Epoch (D u) + Z.of_nat (length h) < 2 ^ 64
}.

Section keeping_up.
Context (D : Z → State) (D_timeline : timeline D).

Lemma epoch_mono u v : u ≤ v → Epoch (D u) ≤ Epoch (D v).
Proof.
  intros (h & -> & Hw)%(tl_run _ D_timeline). apply epoch_tracks; [apply tl_ok, D_timeline|done].
Qed.

Lemma same_epoch u v serial rc :
  u ≤ v → Epoch (D v) = Epoch (D u) → RevokedCerts (D v) !! serial = Some rc → RevokedCerts (D u) !! serial = Some rc.
Proof.
  intros (h & -> & Hw)%(tl_run _ D_timeline) He. destruct (epoch_tracks h (D u) (tl_ok _ D_timeline u) Hw) as [_ H].
  by apply H.
Qed.

(** What a cache that has been fetched holds: the list of the document at [w], which is
still the list at [u], a moment at most [L] before it was fetched, or a later one. *)
Definition cache_ok (L T : Z) (c : revocationCache) : Prop :=
  c_ttl c = 30 * Second ∧
  (c_fetched c = 0 ∧ c_serials c = [] ∨
   ∃ u w at_, c_fetched c - L ≤ u ∧ u ≤ c_fetched c ∧ w ≤ c_fetched c ∧ at_ ≤ c_fetched c ∧ 0 < c_fetched c ≤ T ∧
     Epoch (D u) = c_epoch c ∧ c_serials c = live_serials at_ (ListRevokedCerts (D w)) ∧
     (u ≤ w ∨ Epoch (D w) = Epoch (D u))).

Lemma refresh_ok L T o c :
  0 < T → T ≤ o_now o → o_now o ≤ o_epoch_at o → o_epoch_at o ≤ o_list_at o → o_list_at o ≤ o_done o →
  o_done o ≤ o_now o + L → cache_ok L T c →
  cache_ok L (o_done o) (refresh_at D o c).1 ∧ c_fetched c ≤ c_fetched (refresh_at D o c).1.
Proof.
  intros H0 H1 H2 H3 H4 H5 [Httl Hc].
  assert (c_fetched c ≤ T ∧ c_fetched c ≤ o_done o) as [Hf Hf'].
  { destruct Hc as [[-> _]|(u & w & at_ & ? & ? & ? & ? & ? & _)]; lia. }
  assert (cache_ok L (o_done o) c) as Hkeep.
  { split; [done|]. destruct Hc as [?|(u & w & at_ & ? & ? & ? & ? & ? & ? & ? & ?)]; [by left|right].
    exists u, w, at_. split_and!; try done; lia. }
  unfold refresh_at, refresh. destruct (cache_fresh _ _); [by split|].
  destruct (o_epoch_up o); [|by split]. unfold IsZero.
  destruct (Z.eqb_spec (Epoch (D (o_epoch_at o))) (c_epoch c)) as [He|He]; cbn [andb];
    [destruct (Z.eqb_spec (c_fetched c) 0) as [Hz|Hz]; cbn [negb]|].
  1,3: destruct (o_list_up o); [|by split]; cbn [fst c_fetched]; split; [|done]; split; [done|]; right;
       exists (o_epoch_at o), (o_list_at o), (o_done o); cbn; split_and!; try done; try lia; left; lia.
  cbn [fst c_fetched]. split; [|done]. split; [done|]. right. cbn.
  destruct Hc as [[? _]|(u & w & at_ & Hu1 & Hu2 & Hw & Hat & Hpos & Hep & Hser & Hrel)]; [done|].
  exists (o_epoch_at o), w, at_. split_and!; try done; try lia. right.
  pose proof (epoch_mono u (o_epoch_at o) ltac:(lia)). pose proof (epoch_mono w (o_epoch_at o) ltac:(lia)).
  destruct Hrel as [Hrel|Hrel]; [|lia]. pose proof (epoch_mono u w Hrel). lia.
Qed.

Lemma refresh_all_ok L T os c :
  0 < T → ordered L T os → cache_ok L T c →
  cache_ok L (last_done T os) (refresh_all D os c) ∧ c_fetched c ≤ c_fetched (refresh_all D os c).
Proof.
  revert T c. induction os as [|o os IH]; intros T c H0 Ho Hc; [done|]. cbn in Ho. destruct Ho as (B1 & B2 & B3 & B4 & B5 & Ho).
  destruct (refresh_ok L T o c) as [H1 H2]; [done..|]. destruct (IH (o_done o) (refresh_at D o c).1) as [H3 H4]; [lia|done..|].
  split; [done|]. etrans; [exact H2|exact H4].
Qed.

Lemma refresh_up o c :
  o_epoch_up o = true → o_list_up o = true → (refresh_at D o c).2 = true ∧
  (cache_fresh (o_now o) c = true ∧ (refresh_at D o c).1 = c ∨ c_fetched (refresh_at D o c).1 = o_done o).
Proof.
  intros H1 H2. unfold refresh_at, refresh. rewrite H1, H2. destruct (cache_fresh _ _); [by split; [|left]|].
  destruct (_ && _); (split; [done|by right]).
Qed.

Lemma live_serials_spec now l s :
  s ∈ live_serials now l ↔ ∃ rc, rc ∈ l ∧ Serial rc = s ∧ (rc_NotAfter rc = 0 ∨ now ≤ rc_NotAfter rc).
Proof.
  unfold live_serials. rewrite list_elem_of_omap. apply exist_proper. intros rc. apply and_iff_compat_l.
  unfold IsZero, After. destruct (Z.eqb_spec (rc_NotAfter rc) 0), (Z.ltb_spec (rc_NotAfter rc) now); cbn;
    split; intros Hx; simplify_eq; try done; destruct_and?; try lia; first [by auto|by subst|split; [done|lia]].
Qed.

(** A cache fetched late enough after the revocation holds it, while the certificate lives. *)
Lemma caught_up L T c serial until t :
  cache_ok L T c → (∀ u, t ≤ u → u ≤ until → on_record serial until (D u)) →
  c_fetched c ≠ 0 → t + L ≤ c_fetched c → c_fetched c ≤ until → serial ∈ c_serials c.
Proof.
  intros [_ Hc] Hrec Hz Hlo Hhi. destruct Hc as [[? _]|(u & w & at_ & Hu1 & Hu2 & Hw & Hat & Hpos & Hep & -> & Hrel)]; [done|].
  assert (on_record serial until (D w)) as Hon.
  { destruct Hrel as [Hrel|Hrel]; [apply Hrec; lia|].
    destruct (Z.le_ge_cases t w); [apply Hrec; lia|].
    destruct (Hrec u) as (rc & Hrc & Hna); [lia..|]. exists rc. split; [|done]. eapply same_epoch; [|symmetry; exact Hrel|done]. lia. }
  apply on_record_listed in Hon as (rc & Hin & Hs & Hna); [|apply tl_ok, D_timeline].
  apply live_serials_spec. exists rc. split_and!; try done. lia.
Qed.

Lemma fresh_fetched L T c now : cache_ok L T c → 30 * Second ≤ now → cache_fresh now c = true → now - 30 * Second < c_fetched c.
Proof.
  intros [Httl Hc] Hn. unfold cache_fresh, Sub. rewrite Httl, Z.ltb_lt. unfold min_int64, max_int64, Second in *. lia.
Qed.

(** What is on the list was revoked. *)
Lemma cache_justified L T c serial : cache_ok L T c → serial ∈ c_serials c → ∃ u rc, RevokedCerts (D u) !! serial = Some rc.
Proof.
  intros [_ [[_ ->]|(u & w & at_ & _ & _ & _ & _ & _ & _ & -> & _)]]; [by intros ?%elem_of_nil|].
  intros (rc & Hin & <- & _)%live_serials_spec. unfold ListRevokedCerts in Hin. rewrite merge_sort_Permutation in Hin.
  apply list_elem_of_fmap in Hin as ([s rc'] & -> & Hin%elem_of_map_to_list). exists w, rc'. cbn.
  by destruct (ok_RevokedCerts _ (tl_ok _ D_timeline w) _ _ Hin) as [-> _].
Qed.

End keeping_up.

Lemma new_cache_ok D L T : cache_ok D L T new_cache.
Proof. split; [done|]. by left. Qed.

Lemma last_done_ge L lo os : ordered L lo os → lo ≤ last_done lo os.
Proof.
  revert lo. induction os as [|o os IH]; intros lo Ho; [cbn; lia|]. cbn in Ho. destruct Ho as (? & ? & ? & ? & ? & Ho).
  apply IH in Ho. change (last_done lo (o :: os)) with (last_done (o_done o) os). lia.
Qed.

Lemma last_done_bounds L lo os until :
  ordered L lo os → lo ≤ until → Forall (λ o, o_done o ≤ until) os → lo ≤ last_done lo os ≤ until.
Proof.
  revert lo. induction os as [|o os IH]; intros lo Ho Hlo Hd; [cbn; lia|]. apply Forall_cons in Hd as [Hd1 Hd2].
  cbn in Ho. destruct Ho as (? & ? & ? & ? & ? & Ho). destruct (IH (o_done o)) as [B1 B2]; [done..|].
  change (last_done lo (o :: os)) with (last_done (o_done o) os). lia.
Qed.

Lemma fetched_bound D L T c : cache_ok D L T c → 0 < T → c_fetched c ≤ T.
Proof.
  intros [_ Hc] HT. destruct Hc as [[Hz _]|(u & w & at_ & _ & _ & _ & _ & Hf & _)]; lia.
Qed.

(** The cache after a refresh that begins late enough, and any further ones. *)
Lemma refreshed_holds D L T serial until t own post c :
  timeline D → (∀ u, t ≤ u → u ≤ until → on_record serial until (D u)) → 0 ≤ t → 0 ≤ L → 0 < T →
  cache_ok D L T c → ordered L T (own :: post) → Forall (λ o, o_done o ≤ until) (own :: post) →
  o_epoch_up own = true → o_list_up own = true → t + 30 * Second + L ≤ o_now own →
  (refresh_at D own c).2 = true ∧ serial ∈ c_serials (refresh_all D post (refresh_at D own c).1).
Proof.
  intros HD Hrec Ht HL HT Hc Hord Hdone Hup1 Hup2 Hn. cbn [ordered] in Hord.
  destruct Hord as (B1 & B2 & B3 & B4 & B5 & Hpost). apply Forall_cons in Hdone as [Hd1 Hd2]. assert (0 < Second) by done.
  destruct (refresh_ok D HD L T own c HT B1 B2 B3 B4 B5 Hc) as [Hc2 _].
  destruct (refresh_up D own c Hup1 Hup2) as [Hok Hcase]. split; [done|]. set (c2 := (refresh_at D own c).1) in *.
  assert (t + L < c_fetched c2) as Hf.
  { destruct Hcase as [[Hfr ->]| ->]; [|lia]. pose proof (fresh_fetched D L T c (o_now own) Hc ltac:(lia) Hfr). lia. }
  destruct (refresh_all_ok D HD L (o_done own) post c2) as [Hc3 Hmono]; [lia|done..|].
  destruct (last_done_bounds L (o_done own) post until) as [H1 H2]; [done..|].
  pose proof (fetched_bound _ _ _ _ Hc3 ltac:(lia)).
  eapply (caught_up D HD L _ _ serial until t Hc3); auto; lia.
Qed.

Lemma isRevoked_true D L T serial until t now mid own post c :
  timeline D → (∀ u, t ≤ u → u ≤ until → on_record serial until (D u)) → 0 ≤ t → 0 ≤ L → 0 < T → T ≤ until →
  cache_ok D L T c → ordered L T (mid ++ own :: post) → Forall (λ o, o_done o ≤ until) (mid ++ own :: post) →
  o_epoch_up own = true → o_list_up own = true → t + 30 * Second + L ≤ now → now ≤ o_now own →
  isRevoked D serial now mid own post c = true.
Proof.
  intros HD Hrec Ht HL HT HTu Hc Hord Hdone Hup1 Hup2 Hn Hown. unfold isRevoked. assert (0 < Second) by done.
  destruct (Contains (c_serials c) serial) eqn:E; [done|]. cbn [orb]. pose proof (fetched_bound _ _ _ _ Hc HT).
  destruct (cache_fresh now c) eqn:F.
  { pose proof (fresh_fetched D L T c now Hc ltac:(lia) F).
    assert (serial ∈ c_serials c) as Hin%Contains_spec by (apply (caught_up D HD L T c serial until t); auto; lia).
    by rewrite Hin in E. }
  apply ordered_app in Hord as [Hmid Hord]. apply Forall_app in Hdone as [Hd1 Hd2].
  destruct (last_done_bounds L T mid until) as [Hl1 Hl2]; [done..|].
  destruct (refresh_all_ok D HD L T mid c HT Hmid Hc) as [Hc1 _].
  destruct (refreshed_holds D L (last_done T mid) serial until t own post (refresh_all D mid c)) as [Hok Hin];
    [done..|lia|done|done|done|done|done|lia|].
  destruct (refresh_at D own (refresh_all D mid c)) as [c2 ok]. cbn [fst snd] in *. rewrite Hok. by apply Contains_spec.
Qed.

Section landing.
Context `{X : X509}.


End landing.

(** * What the route does not revoke *)

Lemma hex_digit_nonzero n : 0 < n < 16 → hex_digit n ≠ "0"%char.
Proof.
  intros Hn H. apply (f_equal nat_of_ascii) in H. unfold hex_digit in H.
  destruct (Z.ltb_spec n 10); rewrite nat_ascii_embedding in H by lia;
    change (nat_of_ascii "0") with (Z.to_nat 48) in H; lia.
Qed.

(** A serial is printed without leading zeros. *)
Lemma hex_digits_head fuel n acc c s :
  0 < n → n < 2 ^ Z.of_nat fuel → hex_digits fuel n acc = String c s → c ≠ "0"%char.
Proof.
  revert n acc. induction fuel as [|fuel IH]; intros n acc Hn Hf; [cbn in Hf; lia|]. cbn [hex_digits].
  rewrite Nat2Z.inj_succ, Z.pow_succ_r in Hf by lia. pose proof (Z.div_mod n 16 ltac:(done)).
  pose proof (Z.mod_pos_bound n 16 ltac:(done)).
  destruct (Z.eqb_spec (n / 16) 0) as [Hz|Hz].
  - intros [= <- <-]. apply hex_digit_nonzero. lia.
  - intros Hd. apply (IH (n / 16) _) in Hd; [done| |]; pose proof (Z.div_pos n 16); lia.
Qed.

(** The route accepts a serial with a leading zero, but no certificate's serial is
printed with one, so such a revocation names no certificate. *)
Lemma padded_serial_unmatched serial n : validSerial (String "0" serial) = true → SerialHex n ≠ String "0" serial.
Proof.
  intros Hv H. unfold SerialHex in H. destruct (decide (Z.abs n = 0)) as [Hz|Hz].
  - rewrite Hz in H. cbn in H. injection H as <-. done.
  - eapply hex_digits_head; [| |exact H|done]; [lia|].
    rewrite Nat2Z.inj_succ, Z2Nat.id by apply Z.log2_nonneg. apply Z.log2_spec. lia.
Qed.

(** * Instances *)

Definition toy_revoke_at (ttl : Z) : result code unit * option State * (option Registry * option (nat * list string)) :=
  handleRevokeCert
    {| s_hasher := toy_hasher; s_ca := toy_old; s_agentKeyTTL := Hour; s_adminKeyTTL := Hour; s_enrollmentTTL := Hour;
       s_spokeCertTTL := ttl; s_crlValidity := Hour; s_renewGrace := 7 * 24 * Hour; s_enrollmentEnabled := true |}
    false "7" (Ok ("stolen", 0)) toy_now (Some NewState) toy_now None.

(** The certificate numbered ab is revoked under the name 0ab: the answer is success,
and the certificate is not on the list. *)
Lemma padded_revocation :
  ∃ d, handleRevokeCert toy_server false "0ab" (Ok ("stolen", 0)) toy_now (Some NewState) toy_now None
       = (Ok tt, Some d, (None, None)) ∧ SerialHex 0xab = "ab" ∧ "ab" ∉ revokedSerials d.
Proof.
  eexists. split; [vm_compute; reflexivity|]. split; [reflexivity|]. apply (bool_decide_unpack _). vm_compute. exact I.
Qed.

(** The lifetime of spoke certificates was fourteen days when this one was issued and is
one day when it is revoked.  The recorded expiry is a day away; two days later a replica
no longer counts the certificate as revoked, and verifies it. *)
Lemma shortened_lifetime_unrevokes :
  let d := default NewState (toy_revoke_at (24 * Hour)).1.2 in
  let t := toy_now + 2 * 24 * Hour in
  let o := {| o_now := t; o_epoch_at := t; o_list_at := t; o_done := t; o_epoch_up := true; o_list_up := true |} in
  (toy_revoke_at (24 * Hour)).1.1 = Ok tt ∧ isRevoked (λ _, d) "7" t [] o [] new_cache = false ∧
  ∃ id, VerifyChain toy_old [default no_cert toy_leaf] t = Ok id ∧ id_CertSerial id = "7".
Proof.
  cbv zeta. split; [vm_compute; reflexivity|]. split; [vm_compute; reflexivity|].
  eexists. split; [vm_compute; reflexivity|]. reflexivity.
Qed.

Definition toy_revoked : State := default NewState (toy_revoke_at DefaultSpokeCertTTL).1.2.

(** The document before and after the revocation. *)
Definition toy_timeline (t : Z) : State := if t <? toy_now then NewState else toy_revoked.

Lemma toy_timeline_ok : timeline toy_timeline.
Proof.
  assert (state_ok toy_revoked) as Hok.
  { change toy_revoked with (run_history [(MRevokeCert {| Serial := "7"; rc_RevokedAt := toy_now;
      rc_NotAfter := toy_now + DefaultSpokeCertTTL; rc_Reason := "stolen" |}, toy_now)] NewState).
    apply run_history_ok, NewState_ok. }
  split.
  - intros u. unfold toy_timeline. destruct (_ <? _); [apply NewState_ok|done].
  - intros u v Huv. unfold toy_timeline.
    destruct (Z.ltb_spec u toy_now), (Z.ltb_spec v toy_now); try lia; [by exists []| |by exists []].
    exists [(MRevokeCert {| Serial := "7"; rc_RevokedAt := toy_now;
      rc_NotAfter := toy_now + DefaultSpokeCertTTL; rc_Reason := "stolen" |}, toy_now)]. split; done.
Qed.

Definition toy_op (t : Z) : refresh_op :=
  {| o_now := t; o_epoch_at := t; o_list_at := t; o_done := t + Second; o_epoch_up := true; o_list_up := true |}.


