(* ===== verification/Dialer.v ===== *)
(** How a spoke holds a tunnel to every hub replica:
[src/internal/spoke/coverage.go], the supervisor and the dial loops of
[src/internal/spoke/spoke.go], the backoff of [src/internal/spoke/util.go], the
readiness of [src/internal/obs/health.go] and the replica count of
[src/internal/hub/peers.go].

Behind one host name the load balancer chooses the replica, so a spoke dials
until it has a tunnel to each: the pool runs one dialer more than the hub has
replicas, and a dialer that lands on a replica which is covered already steps
aside.  The dialers and their supervisor are threads; each of their critical
sections and atomic reads is a step of [dial_exec], and the theorems range over
all interleavings and all choices of the load balancer. *)

From S2P Require Import Prelude.
Open Scope Z_scope.

(** * Coverage *)

Definition maxAdvertisedReplicas : Z := 16.

Record coverage := {
  co_discover : bool;
  co_live : gmap string Z;
  co_want : Z
}.

Definition newCoverage (discover : bool) : coverage :=
  {| co_discover := discover; co_live := ∅; co_want := if discover then 0 else 1 |}.

Definition live_at (c : coverage) (serverID : string) : Z := default 0 (co_live c !! serverID).

Definition join (serverID : string) (replicas : Z) (c : coverage) : bool * coverage :=
  let replicas := if maxAdvertisedReplicas <? replicas then maxAdvertisedReplicas else replicas in
  (0 <? live_at c serverID,
   {| co_discover := co_discover c;
      co_live := <[serverID := live_at c serverID + 1]> (co_live c);
      co_want := if co_discover c && (0 <? replicas) then replicas else co_want c |}).

Definition leave (serverID : string) (c : coverage) : coverage :=
  {| co_discover := co_discover c;
     co_live := if live_at c serverID <=? 1 then delete serverID (co_live c) else <[serverID := live_at c serverID - 1]> (co_live c);
     co_want := co_want c |}.

Definition state (c : coverage) : Z * Z := (Z.of_nat (size (co_live c)), co_want c).

Definition probing (c : coverage) : bool := co_discover c.

Definition dialers (c : coverage) : Z :=
  if negb (probing c) then 1 else if co_want c <? 1 then 2 else co_want c + 1.

(** * Readiness *)

Record componentState := { cs_ready : bool; cs_reason : string }.
Record Health := { he_components : gmap string componentState; he_draining : bool }.

Definition NewHealth : Health := {| he_components := ∅; he_draining := false |}.

Definition Health_Set (component : string) (ready : bool) (reason : string) (h : Health) : Health :=
  {| he_components := <[component := {| cs_ready := ready; cs_reason := if ready then "" else reason |}]> (he_components h);
     he_draining := he_draining h |}.

Definition StartDraining (h : Health) : Health := {| he_components := he_components h; he_draining := true |}.

Definition DrainingComponent : string := "draining".

(** The blockers of [Ready], by component. *)
Definition blocker (s : componentState) : option string :=
  if cs_ready s then None else Some (if String.eqb (cs_reason s) "" then "not ready" else cs_reason s).
Definition Ready (h : Health) : bool * gmap string string :=
  let blockers := omap blocker (he_components h) ∪ (if he_draining h then {[ DrainingComponent := "shutdown in progress" ]} else ∅) in
  (bool_decide (blockers = ∅), blockers).

Definition tunnelComponent (endpoint : string) : string := "tunnel:" +:+ endpoint.

(** What one dialer decides to show; the gauge and the component are set from
one reading of the coverage. *)
Definition tunnelUp (covered : Z) : bool := 0 <? covered.
Definition tunnelHealth (covering : Z → Z → string) (endpoint : string) (covered want : Z) (h : Health) : Health :=
  if covered =? 0 then Health_Set (tunnelComponent endpoint) false ("no tunnel to " +:+ endpoint) h
  else if (0 <? want) && (covered <? want) then Health_Set (tunnelComponent endpoint) false (covering covered want) h
  else Health_Set (tunnelComponent endpoint) true "" h.

(** * Backoff *)

Definition redundantSearchLimit : Z := 10.
Definition redundantSearchMultiple : Z := 8.
Definition minConnectionLifetime : Z := Minute.
Definition reasonRedundantTunnel : string := "redundant-replica".

Definition redundantCeiling (covered want redundant minBackoff maxBackoff slow : Z) : Z :=
  if ((want <=? covered) && (0 <? want)) || (redundantSearchLimit <=? redundant) then slow
  else Z.min (wrap_int64 (redundantSearchMultiple * minBackoff)) maxBackoff.

(** The doubling of the window, [attempt] times or until it reaches [max]. *)
Fixpoint backoff_loop (attempt : nat) (window max : Z) : Z :=
  match attempt with
  | O => window
  | S attempt => let window := wrap_int64 (window * 2) in if max <=? window then max else backoff_loop attempt window max
  end.

Definition backoff_base (base : Z) : Z := if base <=? 0 then 500 * Millisecond else base.
Definition backoff_cap (base max : Z) : Z :=
  let max := if (max <=? 0) || (max <? base) then 30 * Second else max in
  if max <? base then base else max.

(** [draw n] is [rand.Int64N(n)], which panics unless [n] is positive. *)
Definition fullJitter (draw : Z → Z) (base max attempt : Z) : option Z :=
  let base := backoff_base base in
  let window := backoff_loop (Z.to_nat attempt) base (backoff_cap base max) in
  if window <=? 0 then None else Some (wrap_int64 (draw window + base ÷ 4)).

(** * The dialers of one endpoint *)

(** Where a dial loop is. *)
Inductive DialPhase :=
| DStart
| DSleep (delay : Z)
| DDialing (since : Z)                                          (** in [wstun.Dial], before the handshake is over *)
| DJoined (since : Z) (server : string) (dup : bool)             (** [OnConnected] has joined, not shown it yet *)
| DShowing (since : Z) (server : string) (dup : bool) (covered want : Z)
| DServing (since : Z) (server : string) (dup : bool)
| DLeft (since : Z) (reason : string)                           (** the deferred function has left *)
| DHiding (since : Z) (reason : string) (covered want : Z)
| DEnded (since : Z) (reason : string)                          (** [dialOnce] has returned *)
| DJudging (pool : Z)                                           (** a redundant one that has read the size of the pool *)
| DGone.                                                        (** [dialLoop] has returned, not counted out yet *)

Record Dialer := { di_phase : DialPhase; di_attempt : Z; di_redundant : Z }.

Record Endpoint := {
  ep_cov : coverage;
  ep_active : Z;
  ep_dialers : gmap nat Dialer;
  ep_want : option Z;               (** what the supervisor is starting dialers for *)
  ep_up : bool;                     (** the gauge *)
  ep_health : Health;
  ep_done : bool                    (** the context has ended *)
}.

Inductive dial_label :=
| PLook | PSpawn (i : nat) | PRest | PStop
| PGo (i : nat) (stagger : Z)
| PWake (i : nat) (now : Z)
| PFail (i : nat) (reason : string)
| PConnect (i : nat) (server : string) (replicas : Z)
| PRead (i : nat)
| PWrite (i : nat)
| PEnd (i : nat) (reason : string)
| PCount (i : nat)
| PDecide (i : nat) (now : Z) (draw : Z → Z)
| PExit (i : nat).

Section pool.
Context (endpoint : string).
(** The message of a partial coverage. *)
Context (covering : Z → Z → string).
(** Whether [wstun.NormalizeEndpoint] accepts the endpoint. *)
Context (usable : bool).
(** [ReconnectMinBackoff], [ReconnectMaxBackoff] and the pace of the probe. *)
Context (minBackoff maxBackoff coverageProbe : Z).

Definition put (i : nat) (d : Dialer) (w : Endpoint) : Endpoint :=
  {| ep_cov := ep_cov w; ep_active := ep_active w; ep_dialers := <[i := d]> (ep_dialers w); ep_want := ep_want w;
     ep_up := ep_up w; ep_health := ep_health w; ep_done := ep_done w |}.
Definition move (i : nat) (d : Dialer) (ph : DialPhase) (w : Endpoint) : Endpoint :=
  put i {| di_phase := ph; di_attempt := di_attempt d; di_redundant := di_redundant d |} w.
Definition with_cov (c : coverage) (w : Endpoint) : Endpoint :=
  {| ep_cov := c; ep_active := ep_active w; ep_dialers := ep_dialers w; ep_want := ep_want w;
     ep_up := ep_up w; ep_health := ep_health w; ep_done := ep_done w |}.
Definition supervisor (want : option Z) (w : Endpoint) : Endpoint :=
  {| ep_cov := ep_cov w; ep_active := ep_active w; ep_dialers := ep_dialers w; ep_want := want;
     ep_up := ep_up w; ep_health := ep_health w; ep_done := ep_done w |}.
Definition counted (n : Z) (w : Endpoint) : Endpoint :=
  {| ep_cov := ep_cov w; ep_active := ep_active w + n; ep_dialers := ep_dialers w; ep_want := ep_want w;
     ep_up := ep_up w; ep_health := ep_health w; ep_done := ep_done w |}.
Definition without_dialer (i : nat) (w : Endpoint) : Endpoint :=
  {| ep_cov := ep_cov w; ep_active := ep_active w; ep_dialers := delete i (ep_dialers w); ep_want := ep_want w;
     ep_up := ep_up w; ep_health := ep_health w; ep_done := ep_done w |}.
Definition publishTunnelSignals (covered want : Z) (w : Endpoint) : Endpoint :=
  {| ep_cov := ep_cov w; ep_active := ep_active w; ep_dialers := ep_dialers w; ep_want := ep_want w;
     ep_up := tunnelUp covered; ep_health := tunnelHealth covering endpoint covered want (ep_health w); ep_done := ep_done w |}.
Definition stopped (w : Endpoint) : Endpoint :=
  {| ep_cov := ep_cov w; ep_active := ep_active w; ep_dialers := ep_dialers w; ep_want := ep_want w;
     ep_up := ep_up w; ep_health := ep_health w; ep_done := true |}.

(** [joined != ""] guards the deferred [leave]. *)
Definition left_cov (server : string) (c : coverage) : coverage := if String.eqb server "" then c else leave server c.

Definition new_dialer : Dialer := {| di_phase := DStart; di_attempt := 0; di_redundant := 0 |}.

(** The end of a turn of [dialLoop], for a dial that was not redundant. *)
Definition after_failure (d : Dialer) (since now : Z) (draw : Z → Z) : option Dialer :=
  let attempt := if minConnectionLifetime <? Sub now since then 0 else di_attempt d in
  delay ← fullJitter draw minBackoff maxBackoff attempt;
  Some {| di_phase := DSleep delay; di_attempt := attempt + 1; di_redundant := 0 |}.

(** The same for a redundant one that stays. *)
Definition after_redundant (c : coverage) (d : Dialer) (draw : Z → Z) : option Dialer :=
  let '(covered, want) := state c in
  let ceiling := redundantCeiling covered want (di_redundant d) minBackoff maxBackoff coverageProbe in
  delay ← fullJitter draw minBackoff ceiling (di_redundant d);
  Some {| di_phase := DSleep delay; di_attempt := di_attempt d; di_redundant := di_redundant d + 1 |}.

(** One step of the supervisor or of a dial loop; [None] when it cannot be
taken. *)
Definition dial_exec (l : dial_label) (w : Endpoint) : option Endpoint :=
  match l with
  | PLook =>
    match ep_want w with
    | None => if ep_done w then None else Some (supervisor (Some (dialers (ep_cov w))) w)
    | Some _ => None
    end
  | PSpawn i =>
    match ep_want w, ep_dialers w !! i with
    | Some want, None => if ep_active w <? want then Some (counted 1 (put i new_dialer w)) else None
    | _, _ => None
    end
  | PRest =>
    match ep_want w with
    | Some want => if ep_active w <? want then None else Some (supervisor None w)
    | None => None
    end
  | PStop => Some (stopped w)
  | PGo i stagger =>
    d ← ep_dialers w !! i;
    match di_phase d with DStart => Some (move i d (if usable then DSleep stagger else DGone) w) | _ => None end
  | PWake i now =>
    d ← ep_dialers w !! i;
    match di_phase d with DSleep _ => Some (move i d (if ep_done w then DGone else DDialing now) w) | _ => None end
  | PFail i reason =>
    d ← ep_dialers w !! i;
    match di_phase d with DDialing since => Some (move i d (DEnded since reason) w) | _ => None end
  | PConnect i server replicas =>
    d ← ep_dialers w !! i;
    match di_phase d with
    | DDialing since => let '(dup, c) := join server replicas (ep_cov w) in Some (with_cov c (move i d (DJoined since server dup) w))
    | _ => None
    end
  | PRead i =>
    d ← ep_dialers w !! i;
    let '(covered, want) := state (ep_cov w) in
    match di_phase d with
    | DJoined since server dup => Some (move i d (DShowing since server dup covered want) w)
    | DLeft since reason => Some (move i d (DHiding since reason covered want) w)
    | _ => None
    end
  | PWrite i =>
    d ← ep_dialers w !! i;
    match di_phase d with
    | DShowing since server dup covered want => Some (publishTunnelSignals covered want (move i d (DServing since server dup) w))
    | DHiding since reason covered want => Some (publishTunnelSignals covered want (move i d (DEnded since reason) w))
    | _ => None
    end
  | PEnd i reason =>
    d ← ep_dialers w !! i;
    match di_phase d with
    | DServing since server dup =>
      let reason := if dup then reasonRedundantTunnel else reason in
      let next := if String.eqb server "" then DEnded since reason else DLeft since reason in
      Some (with_cov (left_cov server (ep_cov w)) (move i d next w))
    | _ => None
    end
  | PCount i =>
    d ← ep_dialers w !! i;
    match di_phase d with
    | DEnded _ reason => if String.eqb reason reasonRedundantTunnel && negb (ep_done w) then Some (move i d (DJudging (ep_active w)) w) else None
    | _ => None
    end
  | PDecide i now draw =>
    d ← ep_dialers w !! i;
    match di_phase d with
    | DJudging pool =>
      if dialers (ep_cov w) <? pool then Some (move i d DGone w)
      else d' ← after_redundant (ep_cov w) d draw; Some (put i d' w)
    | DEnded since reason =>
      if ep_done w then Some (move i d DGone w)
      else if String.eqb reason reasonRedundantTunnel then None
      else d' ← after_failure d since now draw; Some (put i d' w)
    | _ => None
    end
  | PExit i =>
    d ← ep_dialers w !! i;
    match di_phase d with DGone => Some (counted (-1) (without_dialer i w)) | _ => None end
  end.

Fixpoint dial_run (ls : list dial_label) (w : Endpoint) : option Endpoint :=
  match ls with [] => Some w | l :: ls => w ← dial_exec l w; dial_run ls w end.

(** [superviseEndpoint] before its first look; [single] is one configured
endpoint. *)
Definition superviseEndpoint (single : bool) (h : Health) : Endpoint :=
  {| ep_cov := newCoverage single; ep_active := 0; ep_dialers := ∅; ep_want := None; ep_up := false;
     ep_health := Health_Set (tunnelComponent endpoint) false "no tunnel established yet" h; ep_done := false |}.

(** * What a dialer holds *)

Definition tunnel_of (d : Dialer) : option (string * bool) :=
  match di_phase d with
  | DJoined _ s dup | DShowing _ s dup _ _ | DServing _ s dup => Some (s, dup)
  | _ => None
  end.

(** It holds a tunnel it means to keep. *)
Definition kept (d : Dialer) : option string :=
  match tunnel_of d with Some (s, false) => Some s | _ => None end.

Definition on (s : string) (d : Dialer) : bool :=
  match tunnel_of d with Some (s', _) => String.eqb s s' | None => false end.

Definition tunnels (s : string) (m : gmap nat Dialer) : Z := map_count (on s) m.

Lemma tunnels_fresh s (m : gmap nat Dialer) i d :
  m !! i = None → tunnels s (<[i := d]> m) = (if on s d then 1 else 0) + tunnels s m.
Proof. apply map_count_new. Qed.

Lemma tunnels_split s (m : gmap nat Dialer) i d :
  m !! i = Some d → tunnels s m = (if on s d then 1 else 0) + tunnels s (delete i m).
Proof. apply map_count_split. Qed.

Lemma tunnels_move s (m : gmap nat Dialer) i d d' :
  m !! i = Some d → tunnels s (<[i := d']> m) = tunnels s m - (if on s d then 1 else 0) + (if on s d' then 1 else 0).
Proof. apply map_count_move. Qed.

Lemma tunnels_nonneg s m : 0 ≤ tunnels s m.
Proof. apply map_count_nonneg. Qed.

Lemma tunnels_pos s (m : gmap nat Dialer) i d : m !! i = Some d → on s d = true → 0 < tunnels s m.
Proof. apply map_count_pos. Qed.

Lemma on_tunnel s d : on s d = true ↔ ∃ dup, tunnel_of d = Some (s, dup).
Proof.
  unfold on. destruct (tunnel_of d) as [[s' dup]|]; [|by split; [|intros (? & ?)]]. rewrite String.eqb_eq. split.
  - intros ->. by exists dup.
  - by intros (? & [= -> _]).
Qed.

Lemma kept_on s d : kept d = Some s → on s d = true.
Proof. unfold kept. intros Hk. apply on_tunnel. destruct (tunnel_of d) as [[s' []]|]; simplify_eq. by exists false. Qed.

(** * The steps, by what they do *)

(** Replicas have names. *)
Definition named (l : dial_label) : Prop := match l with PConnect _ s _ => s ≠ "" | _ => True end.

(** Every step moves one dialer, the supervisor or the context. *)
Inductive effect (l : dial_label) (w : Endpoint) : Endpoint → Prop :=
| e_quiet i d d' w' :
    ep_dialers w !! i = Some d → tunnel_of d' = tunnel_of d → ep_dialers w' = <[i := d']> (ep_dialers w) →
    ep_cov w' = ep_cov w → ep_active w' = ep_active w → ep_want w' = ep_want w → effect l w w'
| e_supervisor w' :
    ep_dialers w' = ep_dialers w → ep_cov w' = ep_cov w → ep_active w' = ep_active w →
    ep_want w' = ep_want w ∨ ep_want w' = None ∨ ep_want w' = Some (dialers (ep_cov w)) → effect l w w'
| e_spawn i want :
    ep_dialers w !! i = None → ep_want w = Some want → ep_active w < want → effect l w (counted 1 (put i new_dialer w))
| e_connect i d since s n :
    l = PConnect i s n → ep_dialers w !! i = Some d → di_phase d = DDialing since →
    effect l w (with_cov (join s n (ep_cov w)).2 (move i d (DJoined since s (join s n (ep_cov w)).1) w))
| e_end i d since s dup reason r :
    l = PEnd i r → ep_dialers w !! i = Some d → di_phase d = DServing since s dup →
    effect l w (with_cov (left_cov s (ep_cov w)) (move i d (if String.eqb s "" then DEnded since reason else DLeft since reason) w))
| e_exit i d :
    ep_dialers w !! i = Some d → di_phase d = DGone → effect l w (counted (-1) (without_dialer i w)).

Lemma tunnel_move d ph : tunnel_of {| di_phase := ph; di_attempt := di_attempt d; di_redundant := di_redundant d |} =
  match ph with DJoined _ s dup | DShowing _ s dup _ _ | DServing _ s dup => Some (s, dup) | _ => None end.
Proof. done. Qed.

Lemma after_redundant_tunnel c d draw d' : after_redundant c d draw = Some d' → tunnel_of d' = None.
Proof. unfold after_redundant. destruct (state c) as [covered want]. intros H. by simplify_option_eq. Qed.

Lemma after_failure_tunnel d since now draw d' : after_failure d since now draw = Some d' → tunnel_of d' = None.
Proof. unfold after_failure. intros H. by simplify_option_eq. Qed.

Ltac quiet Hd Hp := eapply e_quiet; [exact Hd| |reflexivity..]; try (unfold tunnel_of; cbn [di_phase]; rewrite Hp; repeat case_match; done).

Lemma dial_exec_effect l w w' : dial_exec l w = Some w' → effect l w w'.
Proof.
  destruct l as [|i| | |i st|i now|i r|i s n|i|i|i r|i|i now draw|i]; cbn [dial_exec].
  1: { destruct (ep_want w), (ep_done w); intros [= <-]. apply e_supervisor; auto. }
  1: { destruct (ep_want w) as [want|] eqn:Hw; [|done]. destruct (ep_dialers w !! i) eqn:Hd; [done|].
       destruct (Z.ltb_spec (ep_active w) want); intros [= <-]. by eapply e_spawn. }
  1: { destruct (ep_want w) as [want|]; [|done]. destruct (ep_active w <? want); intros [= <-]. apply e_supervisor; auto. }
  1: { intros [= <-]. apply e_supervisor; auto. }
  all: destruct (ep_dialers w !! i) as [d|] eqn:Hd; cbn [mbind option_bind]; [|done].
  1-3: destruct (di_phase d) eqn:Hp; intros [= <-]; quiet Hd Hp.
  - destruct (di_phase d) eqn:Hp; try done. pose proof (e_connect _ w i d since s n eq_refl Hd Hp) as He.
    destruct (join s n (ep_cov w)) as [dup c]. intros [= <-]. exact He.
  - destruct (state (ep_cov w)) as [covered want]. destruct (di_phase d) eqn:Hp; intros [= <-]; quiet Hd Hp.
  - destruct (di_phase d) eqn:Hp; intros [= <-]; quiet Hd Hp.
  - destruct (di_phase d) eqn:Hp; intros [= <-]. by eapply e_end.
  - destruct (di_phase d) eqn:Hp; try done. destruct (_ && _); intros [= <-]; quiet Hd Hp.
  - destruct (di_phase d) eqn:Hp; try done.
    + destruct (ep_done w); [intros [= <-]; quiet Hd Hp|]. destruct (String.eqb _ _); [done|].
      destruct (after_failure d since now draw) as [d'|] eqn:Ha; intros [= <-].
      quiet Hd Hp. rewrite (after_failure_tunnel _ _ _ _ _ Ha). unfold tunnel_of. by rewrite Hp.
    + destruct (dialers (ep_cov w) <? pool); [intros [= <-]; quiet Hd Hp|].
      destruct (after_redundant (ep_cov w) d draw) as [d'|] eqn:Ha; intros [= <-].
      quiet Hd Hp. rewrite (after_redundant_tunnel _ _ _ _ Ha). unfold tunnel_of. by rewrite Hp.
  - destruct (di_phase d) eqn:Hp; intros [= <-]. by eapply e_exit.
Qed.

(** * The invariant *)

Definition pool_limit (c : coverage) : Z := if co_discover c then maxAdvertisedReplicas + 1 else 1.

Record dial_ok (w : Endpoint) : Prop := {
  do_live : ∀ s, co_live (ep_cov w) !! s = if tunnels s (ep_dialers w) =? 0 then None else Some (tunnels s (ep_dialers w));
  do_active : ep_active w = Z.of_nat (size (ep_dialers w));
  do_names : ∀ i d s dup, ep_dialers w !! i = Some d → tunnel_of d = Some (s, dup) → s ≠ "";
  do_kept : ∀ i j d e s, ep_dialers w !! i = Some d → ep_dialers w !! j = Some e → kept d = Some s → kept e = Some s → i = j;
  do_want : if co_discover (ep_cov w) then 0 ≤ co_want (ep_cov w) ≤ maxAdvertisedReplicas else co_want (ep_cov w) = 1;
  do_pool : ep_active w ≤ pool_limit (ep_cov w);
  do_look : ∀ n, ep_want w = Some n → n ≤ pool_limit (ep_cov w)
}.

Ltac keep Hok :=
  try first [exact (do_live _ Hok) | exact (do_active _ Hok) | exact (do_names _ Hok) | exact (do_kept _ Hok)
            | exact (do_want _ Hok) | exact (do_pool _ Hok) | exact (do_look _ Hok)].

Lemma dialers_limit c :
  (if co_discover c then 0 ≤ co_want c ≤ maxAdvertisedReplicas else co_want c = 1) → 1 ≤ dialers c ≤ pool_limit c.
Proof. unfold dialers, probing, pool_limit, maxAdvertisedReplicas. destruct (co_discover c); cbn [negb]; [|lia]. destruct (Z.ltb_spec (co_want c) 1); lia. Qed.

Lemma live_at_tunnels w s : dial_ok w → live_at (ep_cov w) s = tunnels s (ep_dialers w).
Proof. intros Hok. unfold live_at. rewrite (do_live w Hok). by destruct (Z.eqb_spec (tunnels s (ep_dialers w)) 0). Qed.

Lemma size_insert_some (m : gmap nat Dialer) i d d' : m !! i = Some d → size (<[i := d']> m) = size m.
Proof. intros Hi. rewrite map_size_insert, Hi. done. Qed.

Lemma on_eq s d d' : tunnel_of d' = tunnel_of d → on s d' = on s d.
Proof. unfold on. by intros ->. Qed.

Lemma dial_ok_start single h : dial_ok (superviseEndpoint single h).
Proof.
  split; cbn.
  - intros s. rewrite lookup_empty. done.
  - by rewrite map_size_empty.
  - intros i d s dup. by rewrite lookup_empty.
  - intros i j d e s. by rewrite lookup_empty.
  - unfold maxAdvertisedReplicas. destruct single; cbn; lia.
  - unfold pool_limit, maxAdvertisedReplicas. destruct single; cbn; lia.
  - done.
Qed.

(** Lookups after one dialer has moved. *)
Lemma moved_lookup (m : gmap nat Dialer) i d' j e : <[i := d']> m !! j = Some e → (j = i ∧ e = d') ∨ (j ≠ i ∧ m !! j = Some e).
Proof. destruct (decide (j = i)) as [->|]; [rewrite lookup_insert_eq|rewrite lookup_insert_ne by done]; [intros [= <-]|]; auto. Qed.

Lemma kept_eq d d' : tunnel_of d' = tunnel_of d → kept d' = kept d.
Proof. unfold kept. by intros ->. Qed.

Lemma dial_ok_quiet w i d d' w' :
  ep_dialers w !! i = Some d → tunnel_of d' = tunnel_of d → ep_dialers w' = <[i := d']> (ep_dialers w) →
  ep_cov w' = ep_cov w → ep_active w' = ep_active w → ep_want w' = ep_want w → dial_ok w → dial_ok w'.
Proof.
  intros Hd Ht Hm Hc Ha Hw Hok.
  assert (Hs : ∀ s, tunnels s (ep_dialers w') = tunnels s (ep_dialers w)).
  { intros s. rewrite Hm, (tunnels_move s _ i d d' Hd), (on_eq s d d' Ht). destruct (on s d); lia. }
  split; rewrite ?Hc, ?Ha, ?Hw; keep Hok.
  - intros s. rewrite Hs. apply Hok.
  - rewrite Hm, (size_insert_some _ _ d) by done. apply Hok.
  - intros j e s dup. rewrite Hm. intros [[-> ->]|[_ He]]%moved_lookup; [rewrite Ht|]; eauto using do_names.
  - intros j k e f s. rewrite Hm. intros [[-> ->]|[_ He]]%moved_lookup [[-> ->]|[_ Hf]]%moved_lookup; rewrite ?(kept_eq d d' Ht); eauto using do_kept.
Qed.

Lemma dial_ok_spawn w i want :
  ep_dialers w !! i = None → ep_want w = Some want → ep_active w < want → dial_ok w → dial_ok (counted 1 (put i new_dialer w)).
Proof.
  intros Hd Hw Hlt Hok. split; cbn; keep Hok.
  - intros s. rewrite tunnels_fresh by done. cbn [on tunnel_of new_dialer di_phase]. rewrite Z.add_0_l. apply Hok.
  - rewrite map_size_insert_None by done. rewrite (do_active w Hok). lia.
  - intros j e s dup [[-> ->]|[_ He]]%moved_lookup; [done|]. eauto using do_names.
  - intros j k e f s [[-> ->]|[_ He]]%moved_lookup [[-> ->]|[_ Hf]]%moved_lookup; try done. eauto using do_kept.
  - change (ep_active w + 1 ≤ pool_limit (ep_cov w)). pose proof (do_look w Hok want Hw). lia.
Qed.

Lemma dial_ok_exit w i d : ep_dialers w !! i = Some d → di_phase d = DGone → dial_ok w → dial_ok (counted (-1) (without_dialer i w)).
Proof.
  intros Hd Hp Hok. assert (Ht : tunnel_of d = None) by (unfold tunnel_of; by rewrite Hp).
  split; cbn; keep Hok.
  - intros s. pose proof (tunnels_split s _ i d Hd) as Hs. unfold on in Hs. rewrite Ht, Z.add_0_l in Hs. rewrite <- Hs. apply Hok.
  - rewrite map_size_delete_Some by (by exists d). pose proof (do_active w Hok). assert (size (ep_dialers w) ≠ 0%nat).
    { intros E. apply map_size_empty_inv in E. by rewrite E, lookup_empty in Hd. } lia.
  - intros j e s dup (_ & He)%lookup_delete_Some. eauto using do_names.
  - intros j k e f s (_ & He)%lookup_delete_Some (_ & Hf)%lookup_delete_Some. eauto using do_kept.
  - change (ep_active w + -1 ≤ pool_limit (ep_cov w)). pose proof (do_pool w Hok). lia.
Qed.

Lemma dial_ok_connect w i d since s n :
  ep_dialers w !! i = Some d → di_phase d = DDialing since → s ≠ "" → dial_ok w →
  dial_ok (with_cov (join s n (ep_cov w)).2 (move i d (DJoined since s (join s n (ep_cov w)).1) w)).
Proof.
  intros Hd Hp Hn Hok. assert (Ht : tunnel_of d = None) by (unfold tunnel_of; by rewrite Hp).
  pose proof (live_at_tunnels w s Hok) as Hs. pose proof (tunnels_nonneg s (ep_dialers w)) as Hnn.
  set (d' := {| di_phase := DJoined since s (join s n (ep_cov w)).1; di_attempt := di_attempt d; di_redundant := di_redundant d |}).
  assert (Hlim : pool_limit (join s n (ep_cov w)).2 = pool_limit (ep_cov w)) by done.
  assert (Hfree : ∀ j e, ep_dialers w !! j = Some e → kept e = Some s → (join s n (ep_cov w)).1 = true).
  { intros j e He Hk%kept_on. cbn. rewrite Hs. apply Z.ltb_lt. by eapply tunnels_pos. }
  assert (Hkd : kept d' = if (join s n (ep_cov w)).1 then None else Some s) by (unfold kept, d', tunnel_of; cbn [di_phase]; by case_match).
  split; change (ep_dialers _) with (<[i := d']> (ep_dialers w)); change (ep_cov (with_cov _ _)) with (join s n (ep_cov w)).2;
    change (ep_active (with_cov _ _)) with (ep_active w); change (ep_want (with_cov _ _)) with (ep_want w); rewrite ?Hlim; keep Hok.
  - intros s'. rewrite (tunnels_move s' _ i d d' Hd). cbn [join co_live snd]. rewrite Hs.
    unfold on at 1 2 3 4. rewrite Ht. cbn [d' tunnel_of di_phase]. destruct (String.eqb_spec s' s) as [->|Hne].
    + rewrite lookup_insert_eq, Z.sub_0_r. by destruct (Z.eqb_spec (tunnels s (ep_dialers w) + 1) 0); [lia|].
    + rewrite lookup_insert_ne by done. rewrite Z.sub_0_r, Z.add_0_r. apply Hok.
  - rewrite (size_insert_some _ _ d) by done. apply Hok.
  - intros j e s' dup [[-> ->]|[_ He]]%moved_lookup; [cbn; by intros [= <- _]|]. eauto using do_names.
  - intros j k e f s' [[-> ->]|[_ He]]%moved_lookup [[-> ->]|[_ Hf]]%moved_lookup; [done| | |eauto using do_kept].
    + rewrite Hkd. intros Hk Hk'. destruct (join s n (ep_cov w)).1 eqn:E; [done|]. injection Hk as <-. pose proof (Hfree _ _ Hf Hk'). congruence.
    + rewrite Hkd. intros Hk' Hk. destruct (join s n (ep_cov w)).1 eqn:E; [done|]. injection Hk as <-. pose proof (Hfree _ _ He Hk'). congruence.
  - pose proof (do_want w Hok) as Hw. cbn [join co_discover co_want snd]. unfold maxAdvertisedReplicas in *.
    destruct (co_discover (ep_cov w)); cbn [andb]; [|done]. destruct (Z.ltb_spec 16 n); cbn; [lia|]. destruct (Z.ltb_spec 0 n); lia.
Qed.

Lemma dial_ok_end w i d since s dup ph :
  ep_dialers w !! i = Some d → di_phase d = DServing since s dup →
  tunnel_of {| di_phase := ph; di_attempt := di_attempt d; di_redundant := di_redundant d |} = None → dial_ok w →
  dial_ok (with_cov (left_cov s (ep_cov w)) (move i d ph w)).
Proof.
  intros Hd Hp Ht' Hok. assert (Ht : tunnel_of d = Some (s, dup)) by (unfold tunnel_of; by rewrite Hp).
  pose proof (do_names w Hok _ _ _ _ Hd Ht) as Hn. assert (Hl : left_cov s (ep_cov w) = leave s (ep_cov w)).
  { unfold left_cov. by destruct (String.eqb_spec s ""). }
  rewrite Hl. clear Hl. pose proof (live_at_tunnels w s Hok) as Hs.
  set (d' := {| di_phase := ph; di_attempt := di_attempt d; di_redundant := di_redundant d |}) in *.
  assert (Hpos : 0 < tunnels s (ep_dialers w)) by (eapply tunnels_pos, on_tunnel; eauto).
  split; change (ep_dialers _) with (<[i := d']> (ep_dialers w)); change (ep_cov (with_cov _ _)) with (leave s (ep_cov w));
    change (ep_active (with_cov _ _)) with (ep_active w); change (ep_want (with_cov _ _)) with (ep_want w);
    change (pool_limit (leave s (ep_cov w))) with (pool_limit (ep_cov w)); keep Hok.
  - intros s'. rewrite (tunnels_move s' _ i d d' Hd). cbn [leave co_live]. rewrite Hs. unfold on at 1 2 3 4. rewrite Ht, Ht', Z.add_0_r.
    destruct (String.eqb_spec s' s) as [->|Hne].
    + destruct (Z.leb_spec (tunnels s (ep_dialers w)) 1).
      * rewrite lookup_delete_eq. by destruct (Z.eqb_spec (tunnels s (ep_dialers w) - 1) 0); [|lia].
      * rewrite lookup_insert_eq. by destruct (Z.eqb_spec (tunnels s (ep_dialers w) - 1) 0); [lia|].
    + rewrite Z.sub_0_r. destruct (_ <=? 1); [rewrite lookup_delete_ne by done|rewrite lookup_insert_ne by done]; apply Hok.
  - rewrite (size_insert_some _ _ d) by done. apply Hok.
  - intros j e s' dup' [[-> ->]|[_ He]]%moved_lookup; [by rewrite Ht'|]. eauto using do_names.
  - assert (Hk' : kept d' = None) by (unfold kept; by rewrite Ht').
    intros j k e f s' [[-> ->]|[_ He]]%moved_lookup [[-> ->]|[_ Hf]]%moved_lookup; rewrite ?Hk'; try done. eauto using do_kept.
Qed.

Lemma dial_ok_effect l w w' : named l → effect l w w' → dial_ok w → dial_ok w'.
Proof.
  intros Hn He Hok. destruct He.
  - by eapply (dial_ok_quiet w).
  - split; rewrite ?H, ?H0, ?H1; keep Hok. intros n Hw. destruct H2 as [H2|[H2|H2]]; rewrite H2 in Hw; [by eapply Hok|done|].
    injection Hw as <-. apply dialers_limit, Hok.
  - by eapply dial_ok_spawn.
  - subst l. by apply dial_ok_connect.
  - eapply dial_ok_end; try done. by case_match.
  - by eapply dial_ok_exit.
Qed.

Lemma dial_ok_run ls w w' : Forall named ls → dial_run ls w = Some w' → dial_ok w → dial_ok w'.
Proof.
  revert w. induction ls as [|l ls IH]; cbn [dial_run]; [by intros w _ [= <-]|]. intros w [Hn Hns]%Forall_cons.
  destruct (dial_exec l w) as [w1|] eqn:Hx; cbn [mbind option_bind]; [|done]. intros Hr Hok.
  eapply IH; try done. eapply dial_ok_effect; try done. by apply dial_exec_effect.
Qed.

(** * A dialer is left over *)

Definition kept_servers (m : gmap nat Dialer) : list string := omap (λ x, kept x.2) (map_to_list m).

Lemma kept_servers_covered w : dial_ok w → NoDup (kept_servers (ep_dialers w)) ∧ list_to_set (kept_servers (ep_dialers w)) ⊆ dom (co_live (ep_cov w)).
Proof.
  intros Hok. split.
  - unfold kept_servers. pose proof (NoDup_fst_map_to_list (ep_dialers w)) as Hnd.
    assert (Hin : ∀ i d, (i, d) ∈ map_to_list (ep_dialers w) → ep_dialers w !! i = Some d) by (intros; by apply elem_of_map_to_list).
    induction (map_to_list (ep_dialers w)) as [|[i d] l IH]; [constructor|]. apply NoDup_cons in Hnd as [Hi Hnd].
    assert (Hl : ∀ j e, (j, e) ∈ l → ep_dialers w !! j = Some e) by (intros j e Hj; apply Hin; by right).
    cbn [omap list_omap snd]. destruct (kept d) as [s|] eqn:Hk; [|by apply IH]. apply NoDup_cons. split; [|by apply IH].
    intros ([j e] & Hj & Hke)%list_elem_of_omap. apply Hi. assert (i = j) as ->.
    { eapply (do_kept w Hok i j d e s); try done; [apply Hin; left|by apply Hl]. }
    apply list_elem_of_fmap. by exists (j, e).
  - intros s Hs. apply elem_of_list_to_set, list_elem_of_omap in Hs as ([i d] & Hi%elem_of_map_to_list & Hk). apply elem_of_dom.
    rewrite (do_live w Hok). pose proof (tunnels_pos s _ i d Hi (kept_on s d Hk)). destruct (Z.eqb_spec (tunnels s (ep_dialers w)) 0); [lia|by eexists].
Qed.

(** If every dialer kept a tunnel there would be as many replicas covered. *)
Lemma all_kept_covers w :
  dial_ok w → (∀ i d, ep_dialers w !! i = Some d → kept d ≠ None) → ep_active w ≤ Z.of_nat (size (co_live (ep_cov w))).
Proof.
  intros Hok Hall. destruct (kept_servers_covered w Hok) as [Hnd Hsub].
  apply subseteq_size in Hsub. rewrite size_list_to_set in Hsub by done. rewrite size_dom in Hsub.
  assert (Hlen : length (kept_servers (ep_dialers w)) = size (ep_dialers w)); [|rewrite (do_active w Hok); lia].
  rewrite <- (length_map_to_list (ep_dialers w)). unfold kept_servers.
  assert (Hin : ∀ x, x ∈ map_to_list (ep_dialers w) → kept x.2 ≠ None) by (intros [i d] Hi%elem_of_map_to_list; by eapply Hall).
  induction (map_to_list (ep_dialers w)) as [|x l IH]; [done|]. cbn [omap list_omap]. destruct (kept x.2) eqn:Hk.
  - cbn [length]. f_equal. apply IH. intros y Hy. apply Hin. by right.
  - exfalso. apply (Hin x); [left|done].
Qed.

Lemma spare_dialer w :
  dial_ok w → Z.of_nat (size (co_live (ep_cov w))) < ep_active w → ∃ i d, ep_dialers w !! i = Some d ∧ kept d = None.
Proof.
  intros Hok Hlt. destruct (decide (map_Forall (λ _ d, kept d ≠ None) (ep_dialers w))) as [Hall|Hno].
  - pose proof (all_kept_covers w Hok Hall). lia.
  - apply map_not_Forall in Hno; [|apply _]. destruct Hno as (i & d & Hi & Hk). exists i, d. split; [done|]. by apply dec_stable.
Qed.

(** * The backoff *)

Lemma backoff_loop_eq n base cap : 0 < base ≤ cap → cap < 2 ^ 62 → backoff_loop n base cap = Z.min cap (base * 2 ^ Z.of_nat n).
Proof.
  intros Hb Hc. revert base Hb. induction n as [|n IH]; intros base Hb; cbn [backoff_loop]; [change (2 ^ Z.of_nat 0) with 1; lia|].
  assert (Hw : wrap_int64 (base * 2) = base * 2) by (apply wrap_int64_id; unfold int64_range, min_int64, max_int64; lia). rewrite Hw.
  assert (Hp : 2 ^ Z.of_nat (S n) = 2 * 2 ^ Z.of_nat n) by (rewrite Nat2Z.inj_succ, Z.pow_succ_r; lia).
  assert (Hg : 0 < 2 ^ Z.of_nat n) by (apply Z.pow_pos_nonneg; lia). rewrite Hp.
  destruct (Z.leb_spec cap (base * 2)); [nia|]. rewrite IH by lia. f_equal. lia.
Qed.

Lemma backoff_base_pos base : base < 2 ^ 62 → 0 < backoff_base base < 2 ^ 62.
Proof. unfold backoff_base, Millisecond. destruct (Z.leb_spec base 0); lia. Qed.

Lemma backoff_cap_ok base max : 0 < base < 2 ^ 62 → max < 2 ^ 62 → base ≤ backoff_cap base max < 2 ^ 62.
Proof.
  intros Hb Hm. unfold backoff_cap, Second. destruct (Z.leb_spec max 0), (Z.ltb_spec max base); cbn [orb];
    repeat match goal with |- context [?a <? ?b] => destruct (Z.ltb_spec a b) end; lia.
Qed.

Lemma fullJitter_eq draw base max attempt :
  base < 2 ^ 62 → max < 2 ^ 62 → 0 ≤ attempt → (∀ n, 0 < n → 0 ≤ draw n < n) →
  let b := backoff_base base in let window := Z.min (backoff_cap b max) (b * 2 ^ attempt) in
  fullJitter draw base max attempt = Some (draw window + b ÷ 4) ∧ 0 < window.
Proof.
  intros Hb Hm Ha Hd b window. pose proof (backoff_base_pos base Hb) as Hb'. fold b in Hb'. pose proof (backoff_cap_ok b max Hb' Hm) as Hc.
  assert (Hw : backoff_loop (Z.to_nat attempt) b (backoff_cap b max) = window).
  { rewrite backoff_loop_eq by lia. by rewrite Z2Nat.id. }
  assert (Hpos : 0 < window).
  { unfold window. assert (0 < 2 ^ attempt) by (apply Z.pow_pos_nonneg; lia). nia. }
  split; [|done]. unfold fullJitter. fold b. rewrite Hw. destruct (Z.leb_spec window 0); [lia|]. f_equal. apply wrap_int64_id.
  pose proof (Hd window Hpos). assert (0 ≤ b ÷ 4 ≤ b) by (rewrite Z.quot_div_nonneg by lia; split; [apply Z.div_pos; lia|apply Z.div_le_upper_bound; lia]).
  unfold int64_range, min_int64, max_int64. assert (window ≤ backoff_cap b max) by (unfold window; lia). lia.
Qed.

(** No draw makes the window vanish. *)
Lemma fullJitter_total draw base max attempt : base < 2 ^ 62 → max < 2 ^ 62 → fullJitter draw base max attempt ≠ None.
Proof.
  intros Hb Hm. pose proof (backoff_base_pos base Hb) as Hb'. pose proof (backoff_cap_ok _ max Hb' Hm) as Hc. unfold fullJitter.
  rewrite backoff_loop_eq by lia. assert (0 < 2 ^ Z.of_nat (Z.to_nat attempt)) by (apply Z.pow_pos_nonneg; lia).
  by match goal with |- context [?a <=? 0] => destruct (Z.leb_spec a 0) end; [nia|].
Qed.

(** * The search can always be completed *)

(** A step of a search over the replicas [R]: the load balancer hands out one of
them, each says how many they are, and no tunnel that is kept ends. *)
Definition allowed (R : gset string) (l : dial_label) (w : Endpoint) : Prop :=
  match l with
  | PConnect _ s n => s ∈ R ∧ n = Z.of_nat (size R)
  | PEnd i _ => ∃ d, ep_dialers w !! i = Some d ∧ kept d = None
  | PStop | PFail _ _ => False
  | _ => True
  end.
Definition search (R : gset string) (w w' : Endpoint) : Prop := ∃ l, allowed R l w ∧ dial_exec l w = Some w'.

(** How far a dialer that keeps nothing is from dialing. *)
Definition rank (d : Dialer) : nat :=
  if kept d then 0
  else match di_phase d with
       | DDialing _ => 0 | DGone => 1 | DSleep _ => 1 | DStart => 2 | DJudging _ => 2 | DEnded _ _ => 3 | DHiding _ _ _ _ => 4
       | DLeft _ _ => 5 | DServing _ _ _ => 6 | DShowing _ _ _ _ _ => 7 | DJoined _ _ _ => 8
       end.
Definition weight (w : Endpoint) : nat := sum_list_with rank (map_to_list (ep_dialers w)).*2.

Lemma weight_split w i d : ep_dialers w !! i = Some d →
  weight w = (rank d + sum_list_with rank (map_to_list (delete i (ep_dialers w))).*2)%nat.
Proof.
  intros Hi. unfold weight. rewrite <- (insert_delete_id (ep_dialers w) i d) at 1 by done.
  rewrite map_to_list_insert by apply lookup_delete_eq. done.
Qed.

Lemma weight_put w w' i d d' : ep_dialers w !! i = Some d → ep_dialers w' = <[i := d']> (ep_dialers w) →
  (rank d' < rank d → weight w' < weight w)%nat ∧ (rank d' = rank d → weight w' = weight w).
Proof.
  intros Hi Hm. rewrite (weight_split w i d Hi), (weight_split w' i d'), Hm, delete_insert_eq by (rewrite Hm; apply lookup_insert_eq).
  split; intros; lia.
Qed.

Lemma weight_zero w i d : weight w = 0%nat → ep_dialers w !! i = Some d → rank d = 0%nat.
Proof. intros Hw Hi. rewrite (weight_split w i d Hi) in Hw. lia. Qed.

(** What a search keeps. *)
Record searching (R : gset string) (w : Endpoint) : Prop := {
  se_ok : dial_ok w;
  se_run : ep_done w = false;
  se_discover : co_discover (ep_cov w) = true;
  se_want : co_want (ep_cov w) = Z.of_nat (size R);
  se_live : dom (co_live (ep_cov w)) ⊆ R
}.

Lemma dial_exec_done l w w' : dial_exec l w = Some w' → l ≠ PStop → ep_done w' = ep_done w.
Proof.
  intros H Hne. unfold dial_exec in H. cbv beta iota delta [mbind option_bind] in H.
  destruct l; try done;
    repeat match type of H with
           | match ?x with _ => _ end = _ => destruct x eqn:?; try discriminate H
           | (let '(_, _) := ?x in _) = _ => destruct x
           end; injection H as <-; done.
Qed.

Lemma search_named R l w : "" ∉ R → allowed R l w → named l.
Proof. intros Hn. destruct l; try done. cbn. by intros [Hs _] ->. Qed.

Lemma leave_dom s c : dom (co_live (leave s c)) ⊆ dom (co_live c) ∪ {[ s ]}.
Proof. unfold leave. cbn [co_live]. destruct (_ <=? 1); [rewrite dom_delete_L|rewrite dom_insert_L]; set_solver. Qed.

Section search.
Context (R : gset string).
Context (Hnames : "" ∉ R) (Hsize : (1 ≤ size R ≤ 16)%nat).
Context (Husable : usable = true) (Hmin : minBackoff < 2 ^ 62) (Hmax : maxBackoff < 2 ^ 62) (Hprobe : coverageProbe < 2 ^ 62).

Lemma searching_step w w' : search R w w' → searching R w → searching R w'.
Proof.
  intros (l & Ha & Hx) [Hok Hrun Hdisc Hwant Hlive]. pose proof (dial_exec_effect l w w' Hx) as He.
  assert (Hok' : dial_ok w') by (eapply dial_ok_effect; [by eapply search_named|done..]).
  assert (Hrun' : ep_done w' = false) by (rewrite (dial_exec_done l w w' Hx); [done|by intros ->]).
  destruct He as [i d d' w' Hd Ht Hm Hc _ _|w' Hm Hc _ _|i want Hd Hw Hlt|i d since s n -> Hd Hp|i d since s dup reason r -> Hd Hp|i d Hd Hp].
  1, 2, 3, 6: split; rewrite ?Hc; done.
  - destruct Ha as [Hs ->]. split; try done.
    + cbn [with_cov ep_cov join co_want snd]. rewrite Hdisc. unfold maxAdvertisedReplicas.
      destruct (Z.ltb_spec 16 (Z.of_nat (size R))); [lia|]. by destruct (Z.ltb_spec 0 (Z.of_nat (size R))); [|lia].
    + cbn [with_cov ep_cov join co_live snd]. rewrite dom_insert_L. set_solver.
  - assert (Hn : s ≠ "") by (eapply (do_names w Hok i d s dup); [done|]; unfold tunnel_of; by rewrite Hp).
    assert (Hsl : s ∈ dom (co_live (ep_cov w))).
    { apply elem_of_dom. rewrite (do_live w Hok). assert (0 < tunnels s (ep_dialers w)).
      { eapply tunnels_pos, on_tunnel; [done|]. exists dup. unfold tunnel_of. by rewrite Hp. }
      destruct (Z.eqb_spec (tunnels s (ep_dialers w)) 0); [lia|by eexists]. }
    assert (Hc : left_cov s (ep_cov w) = leave s (ep_cov w)) by (unfold left_cov; by destruct (String.eqb_spec s "")).
    split; try done; cbn [with_cov ep_cov]; rewrite Hc; [done..|]. pose proof (leave_dom s (ep_cov w)). set_solver.
Qed.

Lemma searching_steps w w' : rtc (search R) w w' → searching R w → searching R w'.
Proof. induction 1; [done|]. intros Hs. eauto using searching_step. Qed.

(** The next step of a dialer that is on its way. *)
Definition nudge (d : Dialer) (i : nat) : dial_label :=
  match di_phase d with
  | DStart => PGo i 0
  | DSleep _ => PWake i 0
  | DJoined _ _ _ | DLeft _ _ => PRead i
  | DShowing _ _ _ _ _ | DHiding _ _ _ _ => PWrite i
  | DServing _ _ _ => PEnd i ""
  | DEnded _ reason => if String.eqb reason reasonRedundantTunnel then PCount i else PDecide i 0 (λ _, 0)
  | DJudging _ => PDecide i 0 (λ _, 0)
  | _ => PExit i
  end.

Definition on_its_way (d : Dialer) : Prop := match di_phase d with DStart | DSleep _ | DDialing _ => True | _ => kept d ≠ None end.

Lemma rank_kept d : kept d = None → rank d = match di_phase d with
       | DDialing _ => 0 | DGone => 1 | DSleep _ => 1 | DStart => 2 | DJudging _ => 2 | DEnded _ _ => 3 | DHiding _ _ _ _ => 4
       | DLeft _ _ => 5 | DServing _ _ _ => 6 | DShowing _ _ _ _ _ => 7 | DJoined _ _ _ => 8
       end%nat.
Proof. unfold rank. by intros ->. Qed.

Lemma redundantCeiling_small covered want n : redundantCeiling covered want n minBackoff maxBackoff coverageProbe < 2 ^ 62.
Proof. unfold redundantCeiling. destruct (_ || _); lia. Qed.

(** It moves on, towards dialing, and moves nothing else. *)
Lemma nudge_step w i d :
  searching R w → ep_dialers w !! i = Some d → rank d ≠ 0%nat →
  ∃ w', search R w w' ∧
    ((∃ d', ep_dialers w' = <[i := d']> (ep_dialers w) ∧ (rank d' < rank d)%nat ∧ ep_active w' = ep_active w ∧ (on_its_way d → on_its_way d'))
     ∨ (ep_dialers w' = delete i (ep_dialers w) ∧ ¬ on_its_way d)).
Proof.
  intros Hse Hd Hr. assert (Hk : kept d = None) by (unfold rank in Hr; by destruct (kept d)).
  assert (Hgo : ∀ w' d', dial_exec (nudge d i) w = Some w' → ep_dialers w' = <[i := d']> (ep_dialers w) → (rank d' < rank d)%nat →
      ep_active w' = ep_active w → (on_its_way d → on_its_way d') → allowed R (nudge d i) w →
      ∃ w', search R w w' ∧ ((∃ d', ep_dialers w' = <[i := d']> (ep_dialers w) ∧ (rank d' < rank d)%nat ∧ ep_active w' = ep_active w ∧ (on_its_way d → on_its_way d'))
        ∨ (ep_dialers w' = delete i (ep_dialers w) ∧ ¬ on_its_way d))).
  { intros w' d' Hx Hm Hlt Ha Hway Hall. exists w'. split; [by eexists|]. left. by exists d'. }
  rewrite (rank_kept d Hk) in Hr, Hgo |- *. unfold nudge, on_its_way in *. pose proof (se_run R w Hse) as Hrun.
  assert (Hkd : match tunnel_of d with Some (_, false) => False | _ => True end) by (unfold kept in Hk; by destruct (tunnel_of d) as [[? []]|]).
  unfold tunnel_of in Hkd.
  destruct (di_phase d) as [|delay|since|since s dup|since s dup c n|since s dup|since r|since r c n|since r|pool|] eqn:Hp; try done.
  - eapply Hgo; [cbn [dial_exec]; rewrite Hd; cbn [mbind option_bind]; rewrite Hp, Husable; reflexivity|reflexivity| |done..]. cbn. lia.
  - eapply Hgo; [cbn [dial_exec]; rewrite Hd; cbn [mbind option_bind]; rewrite Hp, Hrun; reflexivity|reflexivity| |done..]. cbn. lia.
  - destruct dup; [|done]. destruct (state (ep_cov w)) as [c n] eqn:Hst.
    eapply Hgo; [cbn [dial_exec]; rewrite Hd; cbn [mbind option_bind]; rewrite Hp, Hst; reflexivity|reflexivity| |done..]. cbn. lia.
  - destruct dup; [|done].
    eapply Hgo; [cbn [dial_exec]; rewrite Hd; cbn [mbind option_bind]; rewrite Hp; reflexivity|reflexivity| |done..]. cbn. lia.
  - destruct dup; [|done].
    eapply Hgo; [cbn [dial_exec]; rewrite Hd; cbn [mbind option_bind]; rewrite Hp; reflexivity|reflexivity| |done..|by exists d].
    destruct (String.eqb s ""); cbn; lia.
  - destruct (state (ep_cov w)) as [c n] eqn:Hst.
    eapply Hgo; [cbn [dial_exec]; rewrite Hd; cbn [mbind option_bind]; rewrite Hp, Hst; reflexivity|reflexivity| |done..]. cbn. lia.
  - eapply Hgo; [cbn [dial_exec]; rewrite Hd; cbn [mbind option_bind]; rewrite Hp; reflexivity|reflexivity| |done..]. cbn. lia.
  - destruct (String.eqb r reasonRedundantTunnel) eqn:Er.
    + eapply Hgo; [cbn [dial_exec]; rewrite Hd; cbn [mbind option_bind]; rewrite Hp, Er, Hrun; reflexivity|reflexivity| |done..]. cbn. lia.
    + destruct (after_failure d since 0 (λ _, 0)) as [d'|] eqn:Hf.
      * eapply Hgo; [cbn [dial_exec]; rewrite Hd; cbn [mbind option_bind]; rewrite Hp, Hrun, Er, Hf; reflexivity|reflexivity| |done..].
        unfold after_failure in Hf. simplify_option_eq. cbn. lia.
      * exfalso. unfold after_failure in Hf.
        match type of Hf with context [fullJitter ?a ?b ?c ?e] => pose proof (fullJitter_total a b c e Hmin Hmax) as Ht; destruct (fullJitter a b c e) end; done.
  - destruct (dialers (ep_cov w) <? pool) eqn:Hlt.
    + eapply Hgo; [cbn [dial_exec]; rewrite Hd; cbn [mbind option_bind]; rewrite Hp, Hlt; reflexivity|reflexivity| |done..]. cbn. lia.
    + destruct (after_redundant (ep_cov w) d (λ _, 0)) as [d'|] eqn:Hf.
      * eapply Hgo; [cbn [dial_exec]; rewrite Hd; cbn [mbind option_bind]; rewrite Hp, Hlt, Hf; reflexivity|reflexivity| |done..].
        unfold after_redundant in Hf. destruct (state (ep_cov w)). simplify_option_eq. cbn. lia.
      * exfalso. unfold after_redundant in Hf. destruct (state (ep_cov w)) as [c n].
        pose proof (fullJitter_total (λ _, 0) minBackoff (redundantCeiling c n (di_redundant d) minBackoff maxBackoff coverageProbe) (di_redundant d)
          Hmin (redundantCeiling_small _ _ _)) as Ht. by destruct (fullJitter _ _ _ _).
  - exists (counted (-1) (without_dialer i w)). split; [|right; split; [done|by intros []]].
    exists (PExit i). split; [done|]. cbn [dial_exec]. rewrite Hd. cbn [mbind option_bind]. by rewrite Hp.
Qed.

Definition calm (w : Endpoint) : Prop := ∀ i d, ep_dialers w !! i = Some d → on_its_way d.

(** Everyone who keeps nothing gets to dial, or leaves. *)
Lemma settle w : searching R w → ∃ w', rtc (search R) w w' ∧ weight w' = 0%nat ∧ (calm w → ep_active w' = ep_active w).
Proof.
  remember (weight w) as n eqn:Hn. revert w Hn. induction (lt_wf n) as [n _ IH]. intros w -> Hse.
  destruct (decide (map_Forall (λ _ d, rank d = 0%nat) (ep_dialers w))) as [Hall|Hno].
  - exists w. split; [done|]. split; [|done]. unfold weight.
    assert (Hin : ∀ d, d ∈ (map_to_list (ep_dialers w)).*2 → rank d = 0%nat).
    { intros d ([i d'] & -> & Hi%elem_of_map_to_list)%list_elem_of_fmap. by eapply Hall. }
    induction (map_to_list (ep_dialers w)).*2 as [|d l IHl]; [done|]. cbn. rewrite (Hin d) by left. apply IHl. intros e He. apply Hin. by right.
  - apply map_not_Forall in Hno; [|apply _]. destruct Hno as (i & d & Hi & Hr).
    destruct (nudge_step w i d Hse Hi Hr) as (w1 & Hs & Hcase). pose proof (searching_step w w1 Hs Hse) as Hse1.
    assert (Hlt : (weight w1 < weight w)%nat).
    { destruct Hcase as [(d' & Hm & Hlt & _)|[Hm _]]; [by eapply (weight_put w w1 i d d' Hi Hm)|].
      rewrite (weight_split w i d Hi). unfold weight. rewrite Hm. lia. }
    destruct (IH _ Hlt w1 eq_refl Hse1) as (w2 & Hrtc & Hw2 & Hcalm). exists w2. split; [by eapply rtc_l|]. split; [done|].
    intros Hc. destruct Hcase as [(d' & Hm & _ & Ha & Hway)|[_ Hnot]]; [|by destruct Hnot; eapply Hc].
    rewrite Hcalm; [done|]. intros j e. rewrite Hm. intros [[-> ->]|[_ He]]%moved_lookup; [|by eapply Hc]. apply Hway. by eapply Hc.
Qed.

(** The supervisor starts dialers until it has what it looked for. *)
Lemma spawn_up n w :
  ep_want w = Some n → ∃ w', rtc (search R) w w' ∧ ep_want w' = Some n ∧ n ≤ ep_active w' ∧ ep_cov w' = ep_cov w ∧ (calm w → calm w').
Proof.
  remember (Z.to_nat (n - ep_active w)) as k eqn:Hk. revert w Hk. induction k as [|k IH]; intros w Hk Hw.
  - exists w. repeat split; try done. lia.
  - set (i := fresh (dom (ep_dialers w))). assert (Hi : ep_dialers w !! i = None) by (apply not_elem_of_dom, is_fresh).
    assert (Hs : search R w (counted 1 (put i new_dialer w))).
    { exists (PSpawn i). split; [done|]. cbn [dial_exec]. rewrite Hw, Hi. by destruct (Z.ltb_spec (ep_active w) n); [|lia]. }
    destruct (IH (counted 1 (put i new_dialer w))) as (w' & Hr & Hw' & Ha & Hc & Hcalm); [cbn [counted ep_active put]; lia|done|].
    exists w'. repeat split; try done; [by eapply rtc_l|]. intros Hq. apply Hcalm. intros j e. cbn [counted put ep_dialers].
    intros [[-> ->]|[_ He]]%moved_lookup; [done|by eapply Hq].
Qed.

Lemma supervise w :
  searching R w → ∃ w', rtc (search R) w w' ∧ dialers (ep_cov w') ≤ ep_active w' ∧ ep_cov w' = ep_cov w ∧ (calm w → calm w').
Proof.
  intros Hse.
  assert (Hidle : ∃ w', rtc (search R) w w' ∧ ep_want w' = None ∧ ep_done w' = false ∧ ep_cov w' = ep_cov w ∧ (calm w → calm w')).
  { destruct (ep_want w) as [n|] eqn:Hw; [|exists w; by repeat split; try apply Hse].
    destruct (spawn_up n w Hw) as (w1 & Hr & Hw1 & Ha & Hc & Hcalm). pose proof (searching_steps w w1 Hr Hse) as Hse1.
    exists (supervisor None w1). repeat split; try done; [|apply Hse1]. eapply rtc_r; [done|]. exists PRest. split; [done|].
    cbn [dial_exec]. rewrite Hw1. by destruct (Z.ltb_spec (ep_active w1) n); [lia|]. }
  destruct Hidle as (w1 & Hr1 & Hw1 & Hd1 & Hc1 & Hcalm1).
  destruct (spawn_up (dialers (ep_cov w1)) (supervisor (Some (dialers (ep_cov w1))) w1)) as (w2 & Hr2 & _ & Ha & Hc2 & Hcalm2); [done|].
  exists w2. repeat split.
  - eapply rtc_trans; [done|]. eapply rtc_l; [|done]. exists PLook. split; [done|]. cbn [dial_exec]. by rewrite Hw1, Hd1.
  - rewrite Hc2. exact Ha.
  - rewrite Hc2. exact Hc1.
  - intros Hq. apply Hcalm2. exact (Hcalm1 Hq).
Qed.

Lemma settled_dialing w i d : weight w = 0%nat → ep_dialers w !! i = Some d → kept d = None → ∃ since, di_phase d = DDialing since.
Proof. intros Hw Hi Hk. pose proof (weight_zero w i d Hw Hi) as Hr. rewrite (rank_kept d Hk) in Hr. destruct (di_phase d); try done. by eexists. Qed.

(** A dialer that is dialing is handed a replica nobody covers. *)
Lemma connect_all w :
  searching R w → weight w = 0%nat → Z.of_nat (size R) < ep_active w →
  ∃ w', rtc (search R) w w' ∧ dom (co_live (ep_cov w')) = R.
Proof.
  remember (size (R ∖ dom (co_live (ep_cov w)))) as n eqn:Hn. revert w Hn. induction n as [|n IH]; intros w Hn Hse Hw Hact.
  - exists w. split; [done|]. symmetry in Hn. apply size_empty_inv in Hn. pose proof (se_live R w Hse) as Hl. apply leibniz_equiv. clear -Hn Hl.
    intros s. specialize (Hn s). specialize (Hl s). destruct (decide (s ∈ dom (co_live (ep_cov w)))); set_solver.
  - destruct (set_choose (R ∖ dom (co_live (ep_cov w)))) as [s Hs]; [intros E%size_empty_iff; lia|].
    apply elem_of_difference in Hs as [HsR Hsl]. pose proof (subseteq_size _ _ (se_live R w Hse)) as Hle. rewrite size_dom in Hle.
    destruct (spare_dialer w (se_ok R w Hse)) as (i & d & Hi & Hk); [lia|].
    destruct (settled_dialing w i d Hw Hi Hk) as [since Hp].
    assert (Hl0 : live_at (ep_cov w) s = 0) by (unfold live_at; by rewrite (not_elem_of_dom_1 _ _ Hsl)).
    set (w1 := with_cov (join s (Z.of_nat (size R)) (ep_cov w)).2 (move i d (DJoined since s false) w)).
    assert (Hs1 : search R w w1).
    { exists (PConnect i s (Z.of_nat (size R))). split; [done|]. cbn [dial_exec]. rewrite Hi. cbn [mbind option_bind]. rewrite Hp.
      unfold w1, join. rewrite Hl0. done. }
    destruct (IH w1) as (w' & Hr & Hdom).
    + cbn [w1 with_cov ep_cov join co_live snd]. rewrite dom_insert_L.
      assert (He : R ∖ ({[s]} ∪ dom (co_live (ep_cov w))) = R ∖ dom (co_live (ep_cov w)) ∖ {[s]}) by set_solver.
      rewrite He, size_difference by set_solver. rewrite size_singleton, <- Hn. lia.
    + by eapply searching_step.
    + rewrite <- Hw. eapply (weight_put w w1 i d _ Hi); [done|]. rewrite (weight_zero w i d Hw Hi). done.
    + done.
    + exists w'. split; [by eapply rtc_l|done].
Qed.

(** From anywhere the search is, it can be completed. *)
Lemma search_completes w : searching R w → ∃ w', rtc (search R) w w' ∧ dom (co_live (ep_cov w')) = R.
Proof.
  intros Hse. destruct (settle w Hse) as (w1 & Hr1 & Hw1 & _). pose proof (searching_steps _ _ Hr1 Hse) as Hse1.
  assert (Hq1 : calm w1).
  { intros i d Hi. unfold on_its_way. destruct (kept d) eqn:Hk; [by destruct (di_phase d)|].
    destruct (settled_dialing w1 i d Hw1 Hi Hk) as [since ->]. done. }
  destruct (supervise w1 Hse1) as (w2 & Hr2 & Ha2 & _ & Hcalm). pose proof (searching_steps _ _ Hr2 Hse1) as Hse2.
  destruct (settle w2 Hse2) as (w3 & Hr3 & Hw3 & Ha3). pose proof (searching_steps _ _ Hr3 Hse2) as Hse3.
  rewrite <- (Ha3 (Hcalm Hq1)) in Ha2. clear Ha3 Hcalm.
  destruct (connect_all w3 Hse3 Hw3) as (w4 & Hr4 & Hdom).
  { unfold dialers, probing in Ha2. rewrite (se_discover R w2 Hse2), (se_want R w2 Hse2) in Ha2. cbn [negb] in Ha2.
    destruct (Z.ltb_spec (Z.of_nat (size R)) 1); lia. }
  exists w4. split; [|done]. eapply rtc_trans; [done|]. eapply rtc_trans; [done|]. by eapply rtc_trans.
Qed.

End search.
End pool.

(** * The replica count a hub advertises *)

Record peerCounter := {
  pe_domain : string;
  pe_ttl : Z;
  pe_count : Z;
  pe_fetched : Z;
  pe_inFlight : bool
}.

Definition peerCacheTTL : Z := 15 * Second.

Definition newPeerCounter (domain : string) : peerCounter :=
  {| pe_domain := domain; pe_ttl := peerCacheTTL; pe_count := 0; pe_fetched := 0; pe_inFlight := false |}.

(** The count served, and whether a refresh has been started. *)
Definition Count (now : Z) (p : peerCounter) : Z * bool * peerCounter :=
  if String.eqb (pe_domain p) "" then (0, false, p)
  else
    let fresh := Sub now (pe_fetched p) <? pe_ttl p in
    let start := negb fresh && negb (pe_inFlight p) in
    (pe_count p, start,
     {| pe_domain := pe_domain p; pe_ttl := pe_ttl p; pe_count := pe_count p; pe_fetched := pe_fetched p; pe_inFlight := start || pe_inFlight p |}).

(** [v6 a] is [net.ParseIP(a)] giving an address that is not an IPv4 one. *)
Definition pods (v6 : string → bool) (addrs : list string) : Z :=
  let unique : gset string := list_to_set (List.filter (λ a, negb (v6 a)) addrs) in
  if (size unique =? 0)%nat then Z.of_nat (size (list_to_set addrs : gset string)) else Z.of_nat (size unique).

Definition peers_refresh (v6 : string → bool) (answer : option (list string)) (now : Z) (p : peerCounter) : peerCounter :=
  {| pe_domain := pe_domain p; pe_ttl := pe_ttl p; pe_count := match answer with None => pe_count p | Some addrs => pods v6 addrs end;
     pe_fetched := now; pe_inFlight := false |}.

Definition advertisedReplicas (domain : string) (now : Z) (p : peerCounter) : Z :=
  if String.eqb domain "" then 1 else (Count now p).1.1.

(** A headless Service that publishes an IPv4 and an IPv6 address of every pod
is counted by its pods. *)
Lemma pods_dual_stack v6 (four six addrs : list string) :
  NoDup four → Forall (λ a, v6 a = false) four → Forall (λ a, v6 a = true) six → length four = length six →
  addrs ≡ₚ (four ++ six)%list → pods v6 addrs = Z.of_nat (length four).
Proof.
  intros Hnd H4 H6 Hlen Hp. unfold pods.
  assert (Hf : (list_to_set (List.filter (λ a, negb (v6 a)) addrs) : gset string) = list_to_set four).
  { apply set_eq. intros a. rewrite !elem_of_list_to_set. rewrite list_elem_of_In, List.filter_In, <- list_elem_of_In, Hp, elem_of_app.
    rewrite Forall_forall in H4, H6. split; [intros [[Ha|Ha] Hv]|intros Ha; split; [by left|]]; [done| |by rewrite (H4 a Ha)]. by rewrite (H6 a Ha) in Hv. }
  rewrite Hf, size_list_to_set by done. destruct (Nat.eqb_spec (length four) 0) as [E|]; [|done].
  destruct four; [|done]. destruct six; [|done]. cbn [app] in Hp. apply Permutation_nil_r in Hp as ->. done.
Qed.

(** An address of each family, or of IPv6 alone, is one pod. *)
Example pods_6_only : pods (λ _, true) ["fd00::1"; "fd00::2"] = 2.
Proof. reflexivity. Qed.

(** * Readiness *)

Lemma omap_empty_iff (m : gmap string componentState) : omap blocker m = ∅ ↔ ∀ k s, m !! k = Some s → cs_ready s = true.
Proof.
  split.
  - intros He k s Hs. assert (Hk : omap blocker m !! k = None) by (by rewrite He, lookup_empty). rewrite lookup_omap, Hs in Hk.
    unfold blocker in Hk. cbn in Hk. by destruct (cs_ready s).
  - intros Hall. apply map_empty. intros k. rewrite lookup_omap. destruct (m !! k) as [s|] eqn:Hs; [|done]. cbn. unfold blocker. by rewrite (Hall k s Hs).
Qed.

(** Ready is every component ready and no shutdown. *)
Lemma Ready_spec h : (Ready h).1 = true ↔ he_draining h = false ∧ ∀ k s, he_components h !! k = Some s → cs_ready s = true.
Proof.
  unfold Ready. cbn [fst]. rewrite bool_decide_eq_true. split.
  - intros He. pose proof (map_positive_l _ _ He) as Hc. rewrite Hc, (left_id_L ∅ (∪)) in He. split; [|by apply omap_empty_iff].
    destruct (he_draining h); [|done]. by apply map_non_empty_singleton in He.
  - intros [-> Hall]. rewrite (right_id_L ∅ (∪)). by apply omap_empty_iff.
Qed.

(** * The pool *)

Section claims.
Context (endpoint : string) (covering : Z → Z → string) (usable : bool) (minBackoff maxBackoff coverageProbe : Z).
Local Abbreviation exec := (dial_exec endpoint covering usable minBackoff maxBackoff coverageProbe).
Local Abbreviation run := (dial_run endpoint covering usable minBackoff maxBackoff coverageProbe).

Lemma effect_discover l w w' : effect l w w' → co_discover (ep_cov w') = co_discover (ep_cov w).
Proof. destruct 1 as [? ? ? ? _ _ _ -> _ _|? _ -> _ _|?|?|? ? ? s|?]; try done. cbn [with_cov ep_cov]. unfold left_cov. by destruct (String.eqb s ""). Qed.

Lemma run_discover ls w w' : run ls w = Some w' → co_discover (ep_cov w') = co_discover (ep_cov w).
Proof.
  revert w. induction ls as [|l ls IH]; cbn [dial_run]; [by intros w [= <-]|]. intros w.
  destruct (exec l w) as [w1|] eqn:Hx; cbn [mbind option_bind]; [|done]. intros Hr. rewrite (IH _ Hr). eapply effect_discover. by eapply dial_exec_effect.
Qed.



(** * What goes wrong *)

(** A replica that does not name itself is never left: once a tunnel to it has
been up, every later one is redundant and dropped. *)
Lemma nameless_stays ls w w' : run ls w = Some w' → 0 < live_at (ep_cov w) "" → 0 < live_at (ep_cov w') "".
Proof.
  revert w. induction ls as [|l ls IH]; cbn [dial_run]; [by intros w [= <-]|]. intros w.
  destruct (exec l w) as [w1|] eqn:Hx; cbn [mbind option_bind]; [|done]. intros Hr Hl. apply (IH _ Hr). clear IH Hr.
  apply dial_exec_effect in Hx. destruct Hx as [? ? ? ? _ _ _ -> _ _|? _ -> _ _|?|? ? ? s|? ? ? s|?]; try done.
  - unfold live_at in *. cbn [with_cov ep_cov join co_live snd]. destruct (decide (s = "")) as [->|]; [rewrite lookup_insert_eq|by rewrite lookup_insert_ne].
    cbn. unfold live_at. lia.
  - cbn [with_cov ep_cov]. unfold left_cov. destruct (String.eqb_spec s "") as [->|Hs]; [done|].
    unfold live_at in *. cbn [leave co_live]. by destruct (_ <=? 1); [rewrite lookup_delete_ne|rewrite lookup_insert_ne].
Qed.

Lemma nameless_locks_out ls w i d since n w' :
  run ls w = Some w' → 0 < live_at (ep_cov w) "" → ep_dialers w' !! i = Some d → di_phase d = DDialing since →
  exec (PConnect i "" n) w' = Some (with_cov (join "" n (ep_cov w')).2 (move i d (DJoined since "" true) w')).
Proof.
  intros Hr Hl Hi Hp. pose proof (nameless_stays ls w w' Hr Hl) as Hpos. cbn [dial_exec]. rewrite Hi. cbn [mbind option_bind]. rewrite Hp.
  unfold join at 1. by destruct (Z.ltb_spec 0 (live_at (ep_cov w') "")); [|lia].
Qed.

End claims.

(** ** Runs *)

Definition toy_run (ls : list dial_label) : option Endpoint :=
  dial_run "hub" (λ _ _, "partial") true Second (30 * Second) (2 * Minute) ls (superviseEndpoint "hub" true NewHealth).

Definition dial_up (i : nat) : list dial_label := [PSpawn i; PGo i 0; PWake i 0].
Definition cover (i : nat) (s : string) (n : Z) : list dial_label := [PConnect i s n; PRead i; PWrite i].

Definition ready_of (w : Endpoint) : bool := (Ready (ep_health w)).1.
Definition all_kept (w : Endpoint) : bool := forallb (λ d, if kept d then true else false) (map_to_list (ep_dialers w)).*2.

(** A new replica whose own count is still cold takes the probe away: the spoke
covers two replicas, was told of one, believes it is ready, and no dialer is left
to hear of a third. *)
Lemma cold_replica_ends_the_search :
  option_map (λ w, (all_kept w, ep_active w, dialers (ep_cov w), state (ep_cov w), ready_of w))
    (toy_run ([PLook] ++ dial_up 0 ++ [PSpawn 1; PGo 1 0; PWake 1 0] ++ cover 0 "a" 1 ++ [PRest; PLook; PRest] ++ cover 1 "b" 0)%list)
  = Some (true, 2, 2, (2, 1), true).
Proof. vm_compute. reflexivity. Qed.

(** Two dialers that read the coverage and then write the signals can write
them in the other order: ready, with one replica of two covered. *)
Lemma signals_race :
  option_map (λ w, (state (ep_cov w), ready_of w))
    (toy_run ([PLook] ++ dial_up 0 ++ dial_up 1 ++ cover 0 "a" 2 ++ [PConnect 1 "b" 2; PRead 1; PEnd 0 "closed"; PRead 0; PWrite 0; PWrite 1])%list)
  = Some ((1, 2), true).
Proof. vm_compute. reflexivity. Qed.

(** The delay is not drawn from below the cap alone: a quarter of the base is
added. *)
Lemma backoff_exceeds_max : fullJitter (λ n, n - 1) Second (30 * Second) 10 = Some (30 * Second - 1 + 250 * Millisecond).
Proof. reflexivity. Qed.

(** Whatever the configured bounds, up to half the range of a duration, a
backoff delay is drawn from a window of the base doubled once per attempt up to
the cap, plus a quarter of the base; the window is never empty, so the draw
never panics. *)
Theorem fullJitter_bounds draw base max attempt :
  base < 2 ^ 62 → max < 2 ^ 62 → 0 ≤ attempt → (∀ n, 0 < n → 0 ≤ draw n < n) →
  ∃ d, fullJitter draw base max attempt = Some d ∧
    backoff_base base ÷ 4 ≤ d < Z.min (backoff_cap (backoff_base base) max) (backoff_base base * 2 ^ attempt) + backoff_base base ÷ 4.
Proof.
  intros Hb Hm Ha Hd. destruct (fullJitter_eq draw base max attempt Hb Hm Ha Hd) as [He Hpos]. eexists. split; [exact He|].
  pose proof (Hd _ Hpos). lia.
Qed.

(** ** Witnesses *)

Definition toy_search : list dial_label := ([PLook] ++ dial_up 0 ++ dial_up 1 ++ cover 0 "a" 3)%list.

Lemma toy_search_named : Forall named toy_search.
Proof. repeat constructor; done. Qed.



Lemma fullJitter_bounds_witness :
  ∃ d, fullJitter (λ n, n - 1) 0 0 40 = Some d ∧ 125 * Millisecond ≤ d < 30 * Second + 125 * Millisecond.
Proof. apply (fullJitter_bounds (λ n, n - 1) 0 0 40); [reflexivity..|discriminate|intros n Hn; lia]. Defined.
