(* ===== verification/Spoke.v ===== *)
(** The identity of a spoke: [src/internal/spoke/identity.go], [enroll.go], and
the functions of [spoke.go] that establish the identity, renew it and share it
with the other pods of the cluster.

The pods of a cluster share one Secret and each holds an identity in memory.
What a pod reads from the store or hears from the hub is an argument of its
functions, answer by answer, so the theorems hold whatever the other pods, the
API server and the hub do; what it writes is part of the result.  PEM and X.509
are the interface of [Ca]; the parsing of private keys, signatures, hashing,
base 64 and JSON are arguments. *)

From S2P Require Import Prelude State Text GoFloat Ca CertProof HubApi.
From Stdlib Require Import Strings.Byte Floats.PrimFloat.
Open Scope string_scope.
Open Scope Z_scope.

(** * Constants and small functions *)

Definition renewAtFraction : float := 0x1p-1%float.
Definition renewCheckInterval : Z := Hour.
Definition defaultFactsRefresh : Z := 10 * Minute.
Definition minProbeInterval : Z := 15 * Second.
Definition maxFirstDialDelay : Z := 5 * Second.
Definition defaultCoverageInterval : Z := 10 * Second.
Definition defaultCoverageProbe : Z := 2 * Minute.
Definition siblingIdentityWait : Z := 90 * Second.
Definition siblingIdentityPoll : Z := 2 * Second.
Definition maxEnrollResponseBytes : Z := Z.shiftl 1 20.

Record timings := {
  tm_facts : Z;
  tm_probe : Z;
  tm_renewCheck : Z;
  tm_dialStagger : Z;
  tm_coverageInterval : Z;
  tm_coverageProbe : Z
}.

Definition newTimings (factsRefreshInterval : Z) : timings :=
  let facts := if factsRefreshInterval <=? 0 then defaultFactsRefresh else factsRefreshInterval in
  let probe := facts ÷ 5 in
  let probe := if probe <? minProbeInterval then minProbeInterval else probe in
  {| tm_facts := facts; tm_probe := probe; tm_renewCheck := renewCheckInterval; tm_dialStagger := maxFirstDialDelay;
     tm_coverageInterval := defaultCoverageInterval; tm_coverageProbe := defaultCoverageProbe |}.

Definition clampInt32 (n : Z) : Z := if n <? 0 then 0 else if 2 ^ 31 - 1 <? n then 2 ^ 31 - 1 else n.

Definition labelsWithSDLC (labels : gmap string string) (sdlc : string) : gmap string string :=
  if String.eqb sdlc "" then labels else <["sdlc" := sdlc]> labels.

(** [host] is what [os.Hostname] answers, [random] the eight random bytes in
hexadecimal. *)
Definition spokeInstanceID (host : option string) (random : string) : string :=
  match host with
  | Some h => if String.eqb h "" then "spoke-" +:+ random else h
  | None => "spoke-" +:+ random
  end.

(** [r] is what [rand.Float64] draws. *)
Definition jitter (r : float) (d : Z) : Z :=
  if d <=? 0 then d else trunc_float (float64_of d * (0x1.ccccccccccccdp-1 + r * 0x1.999999999999ap-3))%float.

(** [probeLoop]: the consecutive failures and what readiness becomes, if it is
set. *)
Definition probe_turn (ok : bool) (failures : Z) : Z * option bool :=
  if ok then (0, Some true) else (failures + 1, if 2 <=? failures + 1 then Some false else None).

(** * Identities *)

Definition TrimPrefix (s p : string) : string := if HasPrefix s p then str_drop (String.length p) s else s.

(** The loop over the URIs. *)
Fixpoint cluster_of_uris (uris : list url) : option string :=
  match uris with
  | [] => None
  | u :: uris =>
    let id := TrimPrefix (url_Path u) "/spoke/" in
    if negb (String.eqb id (url_Path u)) && negb (String.eqb id "") then Some id else cluster_of_uris uris
  end.

Definition clusterIDFromCert (cert : Certificate) : string :=
  match cluster_of_uris (URIs cert) with Some id => id | None => TrimPrefix (CommonName cert) "spoke:" end.

Inductive store_error := ErrNoIdentity | StoreFailed.
Inductive enroll_error := ErrTokenAlreadyUsed | ErrEnrollRejected | EnrollFailed.

(** [keyPEM], [certPEM] and [caPEM]. *)
Definition Material : Type := string * string * string.
Definition load_result : Type := result store_error Material.

(** What an HTTP call brings back. *)
Inductive Reply := NoReply | Replied (status : Z) (body : string).

Record enrollResponse := { en_Certificate : string; en_CABundle : string }.

Section identity.
Context `{X : X509}.
(** Private keys as [crypto/tls] parses them, all of which can sign. *)
Context (Signer : Type) (keypair_key : string → option Signer) (key_pub : Signer → PublicKey)
  (sign : Signer → list byte → option (list byte)) (sha256 : list byte → list byte).
Context (EncodeToString : string → string).
Context (decode_response : string → option enrollResponse) (decode_challenge : string → option (list byte)).

Record SpokeIdentity := {
  si_Chain : list string;
  si_Key : Signer;
  si_Leaf : Certificate;
  si_CABundle : string;
  si_KeyPEM : string;
  si_CertPEM : string
}.

Definition material (id : SpokeIdentity) : Material := (si_KeyPEM id, si_CertPEM id, si_CABundle id).

(** [tls.X509KeyPair]. *)
Definition X509KeyPair (certPEM keyPEM : string) : option (list string * Certificate * Signer) :=
  let chain := blk_Bytes <$> List.filter (λ b, String.eqb (blk_Type b) pemTypeCertificate) (pem_blocks certPEM) in
  match chain with
  | [] => None
  | der :: _ =>
    match keypair_key keyPEM, ParseCertificate der with
    | Some key, Some leaf => if bool_decide (cert_PublicKey leaf = key_pub key) then Some (chain, leaf, key) else None
    | _, _ => None
    end
  end.

Definition loadIdentity (m : Material) : option SpokeIdentity :=
  let '(keyPEM, certPEM, caPEM) := m in
  '(chain, leaf, key) ← X509KeyPair certPEM keyPEM;
  Some {| si_Chain := chain; si_Key := key; si_Leaf := leaf; si_CABundle := caPEM; si_KeyPEM := keyPEM; si_CertPEM := certPEM |}.

(** When the certificate is due. *)
Definition renew_at (leaf : Certificate) : Z :=
  Add (NotBefore leaf) (trunc_float (float64_of (Sub (NotAfter leaf) (NotBefore leaf)) * renewAtFraction)%float).
Definition NeedsRenewal (id : SpokeIdentity) (now : Z) : bool :=
  if Sub (NotAfter (si_Leaf id)) (NotBefore (si_Leaf id)) <=? 0 then true else After now (renew_at (si_Leaf id)).
Definition Expired (id : SpokeIdentity) (now : Z) : bool := After now (NotAfter (si_Leaf id)).

(** * Calls to the hub *)

Definition statusError (status : Z) : enroll_error := if status =? 409 then ErrTokenAlreadyUsed else ErrEnrollRejected.

Definition read_limited (body : string) : string := str_take (Z.to_nat maxEnrollResponseBytes) body.

Definition post_reply (r : Reply) : result enroll_error enrollResponse :=
  match r with
  | NoReply => Err EnrollFailed
  | Replied status body =>
    if negb (status =? 200) && negb (status =? 201) then Err (statusError status)
    else match decode_response (read_limited body) with
         | None => Err EnrollFailed
         | Some out => if String.eqb (en_Certificate out) "" then Err ErrEnrollRejected else Ok out
         end
  end.

Definition challenge_reply (r : Reply) : result enroll_error (list byte) :=
  match r with
  | NoReply => Err EnrollFailed
  | Replied status body =>
    if negb (status =? 200) then Err (statusError status)
    else match decode_challenge (read_limited body) with
         | None => Err EnrollFailed
         | Some nonce => if (length nonce =? 0)%nat then Err ErrEnrollRejected else Ok nonce
         end
  end.

Definition assemble (keyPEM : string) (resp : enrollResponse) : result enroll_error SpokeIdentity :=
  match loadIdentity (keyPEM, en_Certificate resp, en_CABundle resp) with None => Err EnrollFailed | Some id => Ok id end.

(** What a call draws and hears: the key generated and its signing request, if
that succeeds and the client can be built, and the answers. *)
Record enroll_env := { ee_fresh : option (string * string); ee_client : bool; ee_answer : string → string → Reply }.
Record renew_env := {
  re_fresh : option (string * string);
  re_client : bool;
  re_challenge : Reply;
  re_answer : RenewRequest → Reply
}.

(** [answer] is given the token and the request's CSR field. *)
Definition enroll (e : enroll_env) (token : string) : result enroll_error SpokeIdentity :=
  match ee_fresh e with
  | None => Err EnrollFailed
  | Some (keyPEM, csr) =>
    if negb (ee_client e) then Err EnrollFailed
    else resp ← post_reply (ee_answer e token (EncodeToString csr)); assemble keyPEM resp
  end.

Definition renew (e : renew_env) (current : SpokeIdentity) : result enroll_error SpokeIdentity :=
  match re_fresh e with
  | None => Err EnrollFailed
  | Some (keyPEM, csr) =>
    if negb (re_client e) then Err EnrollFailed
    else
      nonce ← challenge_reply (re_challenge e);
      match Sign sha256 (sign (si_Key current)) nonce RenewProtocolVersion (clusterIDFromCert (si_Leaf current))
              [CSRBinding sha256 (string_bytes csr)] with
      | None => Err EnrollFailed
      | Some sig =>
        resp ← post_reply (re_answer e {| rr_CSR := EncodeToString csr; rr_Chain := si_Chain current; rr_Signature := sig; rr_Nonce := nonce |});
        assemble keyPEM resp
      end
  end.

(** * One pod *)

Context (ClusterID : string).

Definition assertOwnCluster (id : SpokeIdentity) : bool := String.eqb (clusterIDFromCert (si_Leaf id)) ClusterID.

Definition storedIdentity (load : load_result) (now : Z) : option SpokeIdentity :=
  match load with
  | Err _ => None
  | Ok m => match loadIdentity m with None => None | Some stored => if Expired stored now then None else Some stored end
  end.

Definition adoptStoredIdentity (load : load_result) (now : Z) (current : option SpokeIdentity) : option SpokeIdentity :=
  match load with
  | Err _ => None
  | Ok m =>
    match loadIdentity m with
    | None => None
    | Some stored =>
      if NeedsRenewal stored now then None
      else if match current with Some c => negb (After (NotAfter (si_Leaf stored)) (NotAfter (si_Leaf c))) | None => false end then None
      else if negb (assertOwnCluster stored) then None
      else Some stored
    end
  end.

(** One turn of [awaitSiblingIdentity]: the clock the loop looks at, whether the
sleep completed, what the store held then and the clock it was judged by. *)
Record await_turn := { aw_now : Z; aw_slept : bool; aw_load : load_result; aw_judged : Z }.

(** [None] while it is still waiting when the turns given are over. *)
Fixpoint awaitSiblingIdentity (deadline : Z) (turns : list await_turn) : option (option SpokeIdentity) :=
  match turns with
  | [] => None
  | t :: turns =>
    if negb (Before (aw_now t) deadline) then Some None
    else if negb (aw_slept t) then Some None
    else match storedIdentity (aw_load t) (aw_judged t) with
         | Some id => Some (Some id)
         | None => awaitSiblingIdentity deadline turns
         end
  end.

Inductive start_error := LoadFailed | WrongCluster | NoToken | NotEnrolled (e : enroll_error) | StillWaiting.

Record start_env := {
  st_load : load_result;
  st_now : Z;
  st_renew : renew_env;
  st_token : option string;               (** [readToken] *)
  st_enroll : enroll_env;
  st_wait_from : Z;
  st_await : list await_turn;
  st_reload : load_result;
  st_reload_now : Z
}.

(** The identity, and what was written to the store on the way; a write that
fails is only logged. *)
Definition Started : Type := result start_error SpokeIdentity * list Material.

Definition own (id : SpokeIdentity) (saves : list Material) : Started :=
  if assertOwnCluster id then (Ok id, saves) else (Err WrongCluster, saves).

Definition enroll_now (e : start_env) : Started :=
  match st_token e with
  | None => (Err NoToken, [])
  | Some token =>
    match enroll (st_enroll e) token with
    | Err ErrTokenAlreadyUsed =>
      match awaitSiblingIdentity (Add (st_wait_from e) siblingIdentityWait) (st_await e) with
      | None => (Err StillWaiting, [])
      | Some None => (Err (NotEnrolled ErrTokenAlreadyUsed), [])
      | Some (Some adopted) => own adopted []
      end
    | Err err => (Err (NotEnrolled err), [])
    | Ok id => own (from_option (λ stored, stored) id (storedIdentity (st_reload e) (st_reload_now e))) [material id]
    end
  end.

Definition establishIdentity (e : start_env) : Started :=
  match st_load e with
  | Err StoreFailed => (Err LoadFailed, [])
  | Err ErrNoIdentity => enroll_now e
  | Ok m =>
    match loadIdentity m with
    | None => enroll_now e
    | Some id =>
      if Expired id (st_now e) then
        if negb (assertOwnCluster id) then (Err WrongCluster, [])
        else match renew (st_renew e) id with
             | Err _ => enroll_now e
             | Ok renewed => (Ok renewed, [material renewed])
             end
      else own id []
    end
  end.

(** What the renewal loop keeps: the identity in force, whether the store has
it, and how often the tunnels have been told to reconnect. *)
Record Pod := { pod_identity : SpokeIdentity; pod_unpersisted : bool; pod_reconnects : Z }.

Record turn_env := {
  te_settle_load : load_result;            (** while the identity is not in the store *)
  te_settle_now : Z;
  te_settle_save : bool;
  te_now : Z;
  te_load : load_result;                   (** before renewing *)
  te_load_now : Z;
  te_renew : renew_env;
  te_save : bool;
  te_reload : load_result;                 (** after a write that failed *)
  te_reload_now : Z
}.

Definition switch (id : SpokeIdentity) (unpersisted : bool) (p : Pod) : Pod :=
  {| pod_identity := id; pod_unpersisted := unpersisted; pod_reconnects := pod_reconnects p + 1 |}.
Definition persisted (p : Pod) : Pod :=
  {| pod_identity := pod_identity p; pod_unpersisted := false; pod_reconnects := pod_reconnects p |}.

(** The rest of a turn once the certificate is due. *)
Definition renew_due (e : turn_env) (p : Pod) (saves : list Material) : Pod * list Material :=
  let id := pod_identity p in
  match adoptStoredIdentity (te_load e) (te_load_now e) (Some id) with
  | Some adopted => (switch adopted (pod_unpersisted p) p, saves)
  | None =>
    match renew (te_renew e) id with
    | Err _ => (p, saves)
    | Ok renewed =>
      let saves := (saves ++ [material renewed])%list in
      if te_save e then (switch renewed (pod_unpersisted p) p, saves)
      else match adoptStoredIdentity (te_reload e) (te_reload_now e) (Some id) with
           | Some adopted => (switch adopted (pod_unpersisted p) p, saves)
           | None => (switch renewed true p, saves)
           end
    end
  end.

(** One turn of [renewLoop], and what it wrote. *)
Definition renew_turn (e : turn_env) (p : Pod) : Pod * list Material :=
  let id := pod_identity p in
  if pod_unpersisted p then
    match adoptStoredIdentity (te_settle_load e) (te_settle_now e) (Some id) with
    | Some adopted => (switch adopted false p, [])
    | None =>
      let p := if te_settle_save e then persisted p else p in
      if NeedsRenewal id (te_now e) then renew_due e p [material id] else (p, [material id])
    end
  else if NeedsRenewal id (te_now e) then renew_due e p [] else (p, []).

Definition renew_turns (es : list turn_env) (p : Pod) : Pod := foldl (λ p e, (renew_turn e p).1) p es.

(** The pod as [run] hands it to the renewal loop. *)
Definition start_pod (id : SpokeIdentity) : Pod := {| pod_identity := id; pod_unpersisted := false; pod_reconnects := 0 |}.

(** * The identity is the pod's own *)

(** An identity that was assembled from its own encoded forms. *)
Definition loaded (id : SpokeIdentity) : Prop := loadIdentity (material id) = Some id.

(** A renewal keeps the name of the cluster. *)
Definition renews_own (e : renew_env) : Prop :=
  ∀ id r, loaded id → renew e id = Ok r → clusterIDFromCert (si_Leaf r) = clusterIDFromCert (si_Leaf id).

Lemma loadIdentity_loaded m id : loadIdentity m = Some id → loaded id.
Proof.
  destruct m as [[k c] ca]. unfold loaded, loadIdentity. destruct (X509KeyPair c k) as [[[chain leaf] key]|] eqn:E; cbn [mbind option_bind]; [|done].
  intros [= <-]. cbn [material si_KeyPEM si_CertPEM si_CABundle]. rewrite E. done.
Qed.

Lemma loaded_key id : loaded id → cert_PublicKey (si_Leaf id) = key_pub (si_Key id) ∧ ParseCertificate <$> head (si_Chain id) = Some (Some (si_Leaf id)).
Proof.
  unfold loaded, loadIdentity, material. destruct (X509KeyPair _ _) as [[[chain leaf] key]|] eqn:E; cbn [mbind option_bind]; [|done].
  intros [= <-]. cbn [si_Leaf si_Key si_Chain]. unfold X509KeyPair in E. destruct (_ <$> _) as [|der ders]; [done|].
  destruct (keypair_key _) as [k|]; [|done]. destruct (ParseCertificate der) as [l|] eqn:Hp; [|done]. case_bool_decide; [|done].
  simplify_eq. cbn. by rewrite Hp.
Qed.

Lemma assemble_loaded k r id : assemble k r = Ok id → loaded id.
Proof. unfold assemble. destruct (loadIdentity _) eqn:E; [|done]. intros [= <-]. by eapply loadIdentity_loaded. Qed.

Lemma renew_loaded e id r : renew e id = Ok r → loaded r.
Proof.
  unfold renew. destruct (re_fresh e) as [[k csr]|]; [|done]. destruct (re_client e); [|done]. cbn [negb].
  destruct (challenge_reply _); cbn [mbind result_bind]; [|done]. destruct (Sign _ _ _ _ _ _); [|done].
  destruct (post_reply _); cbn [mbind result_bind]; [|done]. apply assemble_loaded.
Qed.

Lemma enroll_loaded e token id : enroll e token = Ok id → loaded id.
Proof.
  unfold enroll. destruct (ee_fresh e) as [[k csr]|]; [|done]. destruct (ee_client e); [|done]. cbn [negb].
  destruct (post_reply _); cbn [mbind result_bind]; [|done]. apply assemble_loaded.
Qed.

Lemma storedIdentity_spec load now id :
  storedIdentity load now = Some id ↔ ∃ m, load = Ok m ∧ loadIdentity m = Some id ∧ Expired id now = false.
Proof.
  unfold storedIdentity. destruct load as [m|]; [|by split; [|intros (? & ? & _)]]. destruct (loadIdentity m) as [i|] eqn:Hm.
  - destruct (Expired i now) eqn:He; split; try done.
    + intros (? & [= <-] & ? & ?). simplify_eq. congruence.
    + intros [= <-]. by exists m.
    + intros (? & [= <-] & ? & ?). by simplify_eq.
  - split; [done|]. intros (? & [= <-] & ? & _). congruence.
Qed.

(** What is adopted is the pod's own, is not due, and lasts longer than what it
replaces. *)
Lemma adoptStoredIdentity_spec load now current id :
  adoptStoredIdentity load now current = Some id ↔
  ∃ m, load = Ok m ∧ loadIdentity m = Some id ∧ NeedsRenewal id now = false ∧ assertOwnCluster id = true ∧
    ∀ c, current = Some c → NotAfter (si_Leaf c) < NotAfter (si_Leaf id).
Proof.
  unfold adoptStoredIdentity. destruct load as [m|]; [|by split; [|intros (? & ? & _)]]. destruct (loadIdentity m) as [i|] eqn:Hm.
  2: { split; [done|]. intros (? & [= <-] & ? & _). congruence. }
  split.
  - destruct (NeedsRenewal i now) eqn:Hn; [done|]. intros H. exists m. destruct current as [c|].
    + unfold After in H. destruct (Z.ltb_spec (NotAfter (si_Leaf c)) (NotAfter (si_Leaf i))); [|done]. cbn [negb] in H.
      destruct (assertOwnCluster i) eqn:Ha; [|done]. injection H as <-. split_and!; try done. by intros ? [= <-].
    + destruct (assertOwnCluster i) eqn:Ha; [|done]. injection H as <-. by split_and!.
  - intros (? & [= <-] & Hl & Hn & Ha & Hc). rewrite Hm in Hl. injection Hl as ->. rewrite Hn, Ha. destruct current as [c|]; [|done].
    unfold After. specialize (Hc c eq_refl). by destruct (Z.ltb_spec (NotAfter (si_Leaf c)) (NotAfter (si_Leaf id))); [|lia].
Qed.

Definition holds_own (id : SpokeIdentity) : Prop := assertOwnCluster id = true ∧ loaded id.

Lemma own_holds id saves r saves' : own id saves = (Ok r, saves') → loaded id → holds_own r.
Proof. unfold own. destruct (assertOwnCluster id) eqn:E; [|done]. intros [= <- _]. done. Qed.

Lemma await_loaded deadline turns id : awaitSiblingIdentity deadline turns = Some (Some id) → loaded id.
Proof.
  induction turns as [|t turns IH]; [done|]. cbn [awaitSiblingIdentity]. destruct (Before _ _); [|done]. destruct (aw_slept t); [|done]. cbn [negb].
  destruct (storedIdentity _ _) as [i|] eqn:E; [|done]. intros [= <-]. apply storedIdentity_spec in E as (m & _ & Hm & _). by eapply loadIdentity_loaded.
Qed.

Lemma enroll_now_holds e id saves : enroll_now e = (Ok id, saves) → holds_own id.
Proof.
  unfold enroll_now. destruct (st_token e) as [token|]; [|done]. destruct (enroll (st_enroll e) token) as [i|[]] eqn:E; try done.
  - intros H. eapply own_holds; [exact H|]. destruct (storedIdentity _ _) as [j|] eqn:Hs; cbn; [|by eapply enroll_loaded].
    apply storedIdentity_spec in Hs as (m & _ & Hm & _). by eapply loadIdentity_loaded.
  - destruct (awaitSiblingIdentity _ _) as [[i|]|] eqn:Ha; try done. intros H. eapply own_holds; [exact H|]. by eapply await_loaded.
Qed.

Lemma renewed_holds e id r : renews_own e → holds_own id → renew e id = Ok r → holds_own r.
Proof. intros Ho [Ha Hl] Hr. split; [|by eapply renew_loaded]. unfold assertOwnCluster in *. by rewrite (Ho id r Hl Hr). Qed.

Lemma adopted_holds load now current id : adoptStoredIdentity load now current = Some id → holds_own id.
Proof. intros (m & _ & Hm & _ & Ha & _)%adoptStoredIdentity_spec. split; [done|]. by eapply loadIdentity_loaded. Qed.

Lemma establish_holds e id saves : renews_own (st_renew e) → establishIdentity e = (Ok id, saves) → holds_own id.
Proof.
  intros Ho. unfold establishIdentity. destruct (st_load e) as [m|[]]; [|by apply enroll_now_holds|done].
  destruct (loadIdentity m) as [i|] eqn:Hm; [|by apply enroll_now_holds]. destruct (Expired i (st_now e)).
  - destruct (assertOwnCluster i) eqn:Ha; [|done]. cbn [negb]. destruct (renew (st_renew e) i) as [r|] eqn:Hr; [|by apply enroll_now_holds].
    intros [= <- _]. eapply (renewed_holds _ i r Ho); [|done]. split; [done|]. by eapply loadIdentity_loaded.
  - intros H. eapply own_holds; [exact H|]. by eapply loadIdentity_loaded.
Qed.

Lemma renew_due_holds e p saves : renews_own (te_renew e) → holds_own (pod_identity p) → holds_own (pod_identity (renew_due e p saves).1).
Proof.
  intros Ho Hp. unfold renew_due. destruct (adoptStoredIdentity (te_load e) _ _) eqn:Ha; [by eapply adopted_holds|].
  destruct (renew (te_renew e) (pod_identity p)) as [r|] eqn:Hr; [|done]. pose proof (renewed_holds _ _ _ Ho Hp Hr).
  destruct (te_save e); [done|]. destruct (adoptStoredIdentity (te_reload e) _ _) eqn:Hb; [by eapply adopted_holds|done].
Qed.

Lemma renew_turn_holds e p : renews_own (te_renew e) → holds_own (pod_identity p) → holds_own (pod_identity (renew_turn e p).1).
Proof.
  intros Ho Hp. unfold renew_turn. destruct (pod_unpersisted p).
  - destruct (adoptStoredIdentity (te_settle_load e) _ _) eqn:Ha; [by eapply adopted_holds|].
    destruct (NeedsRenewal _ _); [apply renew_due_holds; [done|]|]; by destruct (te_settle_save e).
  - destruct (NeedsRenewal _ _); [by apply renew_due_holds|done].
Qed.

Lemma renew_turns_holds es p : Forall (λ e, renews_own (te_renew e)) es → holds_own (pod_identity p) → holds_own (pod_identity (renew_turns es p)).
Proof.
  unfold renew_turns. revert p. induction es as [|e es IH]; intros p; [done|]. intros [He Hes]%Forall_cons Hp. cbn [foldl]. apply IH; [done|].
  by apply renew_turn_holds.
Qed.

(** ** What the hub answers *)

Lemma TrimPrefix_cut s p id : CutPrefix s p = Some id → TrimPrefix s p = id ∧ s = p +:+ id.
Proof.
  unfold CutPrefix, TrimPrefix. destruct (HasPrefix s p) eqn:E; [|done]. intros [= <-]. split; [done|].
  apply HasPrefix_spec in E as [r ->]. by rewrite str_drop_app.
Qed.

(** The spoke reads the name the hub reads. *)
Lemma clusterIDFromCert_identity c cert ident : IdentityFromCert c cert = Ok ident → clusterIDFromCert cert = id_ClusterID ident.
Proof.
  unfold IdentityFromCert, clusterIDFromCert. destruct (URIs cert) as [|u [|]]; try done.
  repeat (case_match; [done|]). destruct (CutPrefix (url_Path u) spokePathPrefix) as [id|] eqn:Hc; [|done].
  destruct (ValidClusterID id) eqn:Hv; [|done]. intros [= <-]. cbn [cluster_of_uris id_ClusterID].
  apply TrimPrefix_cut in Hc as [Ht Hp]. unfold spokePathPrefix in *. rewrite Ht.
  destruct (String.eqb_spec id (url_Path u)) as [He|_].
  - exfalso. rewrite Hp in He. apply (f_equal String.length) in He. rewrite string_length_app in He. cbn in He. lia.
  - destruct (String.eqb_spec id "") as [->|]; [done|done].
Qed.

Section hub.
Context (hmac_sha256 : list byte → list byte → list byte) (verifies : PublicKey → list byte → list byte → bool)
  (StdEncoding RawStdEncoding : string → option string).

(** A positive answer to a renewal is one of [handleRenew]. *)
Definition answered_by (s : server) (answer : RenewRequest → Reply) : Prop :=
  ∀ req out, post_reply (answer req) = Ok out →
    ∃ draining d ck serial r, handleRenew hmac_sha256 sha256 verifies StdEncoding RawStdEncoding s draining (Ok req) (Some d) ck serial = Ok r ∧
      en_Certificate out = er_Certificate r.

Lemma cert_pem_blocks cert : pem_blocks (cert_pem cert) = [cert_block cert].
Proof.
  rewrite <- (pem_concat [cert_block cert]). cbn [foldr]. unfold cert_pem. f_equal.
  induction (EncodeToMemory (cert_block cert)) as [|c s IH]; [done|]. cbn. by rewrite <- IH.
Qed.

Lemma keypair_issued cert key chain leaf k :
  ParseCertificate (Raw cert) = Some cert → X509KeyPair (cert_pem cert) key = Some (chain, leaf, k) → leaf = cert.
Proof.
  intros Hp. unfold X509KeyPair. rewrite cert_pem_blocks. cbn. rewrite Hp. destruct (keypair_key key); [|done]. case_bool_decide; [|done].
  by intros [= _ <- _].
Qed.

(** The hub renews a certificate under its own name. *)
Lemma hub_renews_own s e :
  material_ok (ca_material (s_ca s)) → trustDomainRE (TrustDomain (ca_opts (s_ca s))) = true → answered_by s (re_answer e) → renews_own e.
Proof.
  intros Hm Htd Hans id r Hl. apply loaded_key in Hl as [_ Hhead]. unfold renew. destruct (re_fresh e) as [[key csr]|]; [|done]. destruct (re_client e); [|done]. cbn [negb].
  destruct (challenge_reply _) as [nonce|]; cbn [mbind result_bind]; [|done]. destruct (Sign _ _ _ _ _ _) as [sig|]; [|done].
  match goal with |- context [re_answer e ?q] => set (req := q) end.
  destruct (post_reply (re_answer e req)) as [out|] eqn:Hpost; cbn [mbind result_bind]; [|done].
  destruct (Hans req out Hpost) as (draining & d & ck & serial & a & Ha & Hc).
  apply handleRenew_Ok in Ha as (req' & d' & leaf & inter & ident & expired & csrDER & pem & cert & _ & [= <-] & _ & _ & Hch & Hv & _ & _ & _ & Hi & ->).
  apply readChain_head in Hch as (b & ? & ? & Hb & Hleaf & [= <- <-]). cbn [req rr_Chain] in Hb. rewrite Hb in Hhead. cbn in Hhead. rewrite Hleaf in Hhead. injection Hhead as ->.
  apply VerifyAllowing_Ok in Hv as (? & ? & u & [= <- <-] & _ & Hident & _). rewrite (clusterIDFromCert_identity _ _ _ Hident).
  apply (IssueSpokeFromCSR_leaf _ _ _ _ _ _ _ Hm Htd) in Hi as (? & [= <-] & Hpem & Hraw & Hid & Huri & _).
  unfold assemble, loadIdentity. cbn [er_Certificate] in Hc. rewrite Hc, Hpem.
  destruct (X509KeyPair (cert_pem cert) key) as [[[chain leaf'] k]|] eqn:Hk; cbn [mbind option_bind]; [|done].
  intros [= <-]. cbn [si_Leaf]. rewrite (keypair_issued _ _ _ _ _ Hraw Hk). by rewrite (clusterIDFromCert_identity _ _ _ (IdentityFromCert_spoke _ _ _ Hid Huri)).
Qed.

End hub.

(** * The identity in force does not expire *)

(** How many turns in a row have found the certificate due and left it. *)
Definition missed (e : turn_env) (p : Pod) (n : Z) : Z :=
  if NeedsRenewal (pod_identity p) (te_now e) && (pod_reconnects (renew_turn e p).1 =? pod_reconnects p) then n + 1 else 0.

(** No [k] turns in a row miss. *)
Fixpoint served (k : Z) (es : list turn_env) (p : Pod) (n : Z) : Prop :=
  match es with
  | [] => True
  | e :: es => missed e p n < k ∧ served k es (renew_turn e p).1 (missed e p n)
  end.

(** The clock readings of a turn are in order, and a turn begins at most [G]
after the one before. *)
Fixpoint paced (G prev : Z) (es : list turn_env) : Prop :=
  match es with
  | [] => True
  | e :: es => te_settle_now e ≤ te_now e ≤ te_load_now e ∧ te_load_now e ≤ te_reload_now e ∧ te_now e ≤ prev + G ∧ paced G (te_settle_now e) es
  end.

Fixpoint last_turn (prev : Z) (es : list turn_env) : Z := match es with [] => prev | e :: es => last_turn (te_settle_now e) es end.

(** What the pod is offered in a turn lasts [S] past the moment it is due, and
what the hub issues is not due yet. *)
Definition offers_lasting (S : Z) (e : turn_env) : Prop :=
  (∀ m id, te_settle_load e = Ok m ∨ te_load e = Ok m ∨ te_reload e = Ok m → loadIdentity m = Some id → renew_at (si_Leaf id) + S ≤ NotAfter (si_Leaf id)) ∧
  (∀ id r, renew (te_renew e) id = Ok r → renew_at (si_Leaf r) + S ≤ NotAfter (si_Leaf r) ∧ te_settle_now e ≤ renew_at (si_Leaf r)).

Lemma NeedsRenewal_false id now : NeedsRenewal id now = false → now ≤ renew_at (si_Leaf id).
Proof. unfold NeedsRenewal, After. destruct (_ <=? 0); [done|]. destruct (Z.ltb_spec (renew_at (si_Leaf id)) now); [done|]. lia. Qed.

(** What a turn leaves the pod with: what it had, or something offered. *)
Definition offered (e : turn_env) (p : Pod) (id : SpokeIdentity) : Prop :=
  adoptStoredIdentity (te_settle_load e) (te_settle_now e) (Some (pod_identity p)) = Some id ∨
  adoptStoredIdentity (te_load e) (te_load_now e) (Some (pod_identity p)) = Some id ∨
  adoptStoredIdentity (te_reload e) (te_reload_now e) (Some (pod_identity p)) = Some id ∨
  renew (te_renew e) (pod_identity p) = Ok id.

Definition keeps_or_takes (e : turn_env) (p p' : Pod) : Prop :=
  (pod_identity p' = pod_identity p ∧ pod_reconnects p' = pod_reconnects p) ∨
  (pod_reconnects p' = pod_reconnects p + 1 ∧ offered e p (pod_identity p')).

Lemma renew_due_cases e p q saves :
  pod_identity q = pod_identity p → pod_reconnects q = pod_reconnects p → keeps_or_takes e p (renew_due e q saves).1.
Proof.
  intros Hq Hn. unfold renew_due, keeps_or_takes, offered. rewrite Hq. destruct (adoptStoredIdentity (te_load e) _ _) as [a|] eqn:Ha.
  { right. cbn [fst switch pod_identity pod_reconnects]. rewrite Hn. by auto. }
  destruct (renew (te_renew e) (pod_identity p)) as [r|] eqn:Hr; [|left; by rewrite <- Hq].
  destruct (te_save e); [right; cbn [fst switch pod_identity pod_reconnects]; rewrite Hn; by auto|].
  destruct (adoptStoredIdentity (te_reload e) _ _) as [a|] eqn:Hb; right; cbn [fst switch pod_identity pod_reconnects]; rewrite Hn; by auto.
Qed.

Lemma renew_turn_cases e p : keeps_or_takes e p (renew_turn e p).1.
Proof.
  unfold renew_turn. destruct (pod_unpersisted p).
  - destruct (adoptStoredIdentity (te_settle_load e) _ _) as [a|] eqn:Ha; [right; split; [done|by left]|].
    destruct (NeedsRenewal (pod_identity p) (te_now e)); [apply renew_due_cases|left]; by destruct (te_settle_save e).
  - destruct (NeedsRenewal _ _); [by apply renew_due_cases|by left].
Qed.

(** The certificate in force after turns of which [n] in a row have missed, the
last of them at [t]: due at most [n] paces ago. *)
Definition within (G S t n : Z) (id : SpokeIdentity) : Prop :=
  t ≤ renew_at (si_Leaf id) + n * G ∧ renew_at (si_Leaf id) + S ≤ NotAfter (si_Leaf id).

Lemma offered_within G S e p id :
  te_settle_now e ≤ te_now e ≤ te_load_now e → te_load_now e ≤ te_reload_now e → offers_lasting S e → offered e p id →
  within G S (te_settle_now e) 0 id.
Proof.
  intros Ht1 Ht2 [Hload Hren] Hoff. unfold within.
  destruct Hoff as [(m & Hl & Hm & Hn & _)%adoptStoredIdentity_spec|[(m & Hl & Hm & Hn & _)%adoptStoredIdentity_spec
    |[(m & Hl & Hm & Hn & _)%adoptStoredIdentity_spec|Hr]]].
  4: { destruct (Hren _ _ Hr). lia. }
  all: apply NeedsRenewal_false in Hn; pose proof (Hload m id ltac:(tauto) Hm); lia.
Qed.

Lemma within_turn G S e p n prev :
  0 ≤ G → 0 ≤ n → te_settle_now e ≤ te_now e ≤ te_load_now e → te_load_now e ≤ te_reload_now e → te_now e ≤ prev + G → offers_lasting S e →
  within G S prev n (pod_identity p) → within G S (te_settle_now e) (missed e p n) (pod_identity (renew_turn e p).1).
Proof.
  intros HG Hn Ht1 Ht2 Hp Hoff [Hw Hs]. unfold missed. destruct (renew_turn_cases e p) as [[Hid Hr]|[Hr Ho]].
  - rewrite Hid, Hr, Z.eqb_refl, andb_true_r. unfold within. destruct (NeedsRenewal (pod_identity p) (te_now e)) eqn:Hd; [nia|].
    apply NeedsRenewal_false in Hd. lia.
  - rewrite Hr. destruct (Z.eqb_spec (pod_reconnects p + 1) (pod_reconnects p)); [lia|]. rewrite andb_false_r. by eapply offered_within.
Qed.

Lemma missed_nonneg e p n : 0 ≤ n → 0 ≤ missed e p n.
Proof. unfold missed. destruct (_ && _); lia. Qed.

Lemma within_turns G S k es p n prev :
  0 ≤ G → 0 ≤ n < k → paced G prev es → Forall (offers_lasting S) es → served k es p n → within G S prev n (pod_identity p) →
  ∃ m, 0 ≤ m < k ∧ within G S (last_turn prev es) m (pod_identity (renew_turns es p)).
Proof.
  intros HG. revert p n prev. induction es as [|e es IH]; intros p n prev Hn Hp Ho Hs Hw; [by exists n|].
  destruct Hp as (Ht1 & Ht2 & Hp & Hps), Hs as [Hm Hs]. apply Forall_cons in Ho as [Ho Hos].
  destruct (IH (renew_turn e p).1 (missed e p n) (te_settle_now e)) as (m & Hmk & Hmw); try done.
  - split; [apply missed_nonneg|]; lia.
  - apply within_turn with prev; try done; lia.
  - exists m. split; [done|]. exact Hmw.
Qed.

(** * The wait for a sibling ends *)

(** The polls of a pod are at least [gap] apart. *)
Fixpoint polls (gap prev : Z) (turns : list await_turn) : Prop :=
  match turns with [] => True | t :: turns => prev ≤ aw_now t ∧ polls gap (aw_now t + gap) turns end.

Lemma await_ends gap deadline from turns :
  0 < gap → from < deadline + gap → polls gap from turns → deadline + gap ≤ from + gap * Z.of_nat (length turns) → awaitSiblingIdentity deadline turns ≠ None.
Proof.
  intros Hg. revert from. induction turns as [|t turns IH]; intros from Hf Hp Hd; cbn [length awaitSiblingIdentity]; [cbn in Hd; lia|].
  destruct Hp as [Hp Hps]. unfold Before. destruct (Z.ltb_spec (aw_now t) deadline) as [Hlt|]; [|done]. cbn [negb].
  destruct (aw_slept t); [|done]. destruct (storedIdentity _ _); [done|]. cbn [negb]. apply (IH (aw_now t + gap)); [lia|done|]. cbn [length] in Hd. lia.
Qed.

(** * What goes wrong *)

(** A token of another cluster leaves that cluster's identity in the store: it is
written before it is refused, and from then on every start refuses what it
finds there, with whatever token. *)
Lemma foreign_token_is_stored e token id :
  st_load e = Err ErrNoIdentity → st_token e = Some token → enroll (st_enroll e) token = Ok id → assertOwnCluster id = false →
  st_reload e = Ok (material id) → establishIdentity e = (Err WrongCluster, [material id]).
Proof.
  intros Hl Ht He Ha Hr. unfold establishIdentity, enroll_now. rewrite Hl, Ht, He, Hr. pose proof (enroll_loaded _ _ _ He) as Hid.
  assert (Hs : from_option (λ stored, stored) id (storedIdentity (Ok (material id)) (st_reload_now e)) = id).
  { cbn [storedIdentity]. rewrite Hid. by destruct (Expired id _). }
  rewrite Hs. unfold own. by rewrite Ha.
Qed.

Lemma stored_foreign_refuses e id :
  st_load e = Ok (material id) → loaded id → assertOwnCluster id = false → establishIdentity e = (Err WrongCluster, []).
Proof. intros Hl Hid Ha. unfold establishIdentity, own. rewrite Hl, Hid, Ha. by destruct (Expired id (st_now e)). Qed.

(** An identity that could not be written at the start is not written later: the
loop only settles one that it failed to write itself. *)
Lemma unsaved_start_is_forgotten es id :
  Forall (λ e, NeedsRenewal id (te_now e) = false) es → renew_turns es (start_pod id) = start_pod id ∧
  foldr (λ e l, (renew_turn e (start_pod id)).2 ++ l)%list [] es = [].
Proof.
  unfold renew_turns. induction 1 as [|e es He _ [IH1 IH2]]; [done|]. cbn [foldl foldr].
  assert (Ht : renew_turn e (start_pod id) = (start_pod id, [])) by (unfold renew_turn; cbn [start_pod pod_unpersisted pod_identity]; by rewrite He).
  rewrite Ht, IH2. by rewrite <- IH1 at 2.
Qed.

(** * The pod *)

Section claims.
Context (hmac_sha256 : list byte → list byte → list byte) (verifies : PublicKey → list byte → list byte → bool)
  (StdEncoding RawStdEncoding : string → option string).

(** A replica of the hub answers. *)
Definition trusted (e : renew_env) : Prop :=
  ∃ s, material_ok (ca_material (s_ca s)) ∧ trustDomainRE (TrustDomain (ca_opts (s_ca s))) = true ∧
    answered_by hmac_sha256 verifies StdEncoding RawStdEncoding s (re_answer e).

Lemma trusted_renews_own e : trusted e → renews_own e.
Proof. intros (s & Hm & Ht & Ha). by eapply hub_renews_own. Qed.

(** C21: A pod only ever runs on an identity of its own cluster, and on one whose
private key it holds: whatever the shared store returns, identities of other
clusters and mismatched pairs included, whether it starts from the store, by
renewing an expired certificate, by enrolling or from a sibling, and through any
number of turns of the renewal loop, as long as renewals are answered by
replicas of the hub. *)
Theorem pod_holds_its_own e es id saves :
  trusted (st_renew e) → Forall (λ e, trusted (te_renew e)) es → establishIdentity e = (Ok id, saves) →
  let held := pod_identity (renew_turns es (start_pod id)) in
  clusterIDFromCert (si_Leaf held) = ClusterID ∧ cert_PublicKey (si_Leaf held) = key_pub (si_Key held).
Proof.
  intros He Hes Hs held. assert (holds_own held) as [Ho Hl].
  { apply renew_turns_holds; [|eapply establish_holds; [by apply trusted_renews_own|exact Hs]].
    eapply Forall_impl; [exact Hes|]. intros t. apply trusted_renews_own. }
  split; [by apply String.eqb_eq|]. by apply loaded_key.
Qed.

End claims.


(** Fifty-one polls, at least 1.8 seconds apart, see the end of the wait. *)
Lemma await_bounded from turns :
  polls (1800 * Millisecond) from turns → (51 ≤ length turns)%nat → awaitSiblingIdentity (Add from siblingIdentityWait) turns ≠ None.
Proof. intros Hp Hl. apply (await_ends (1800 * Millisecond) _ from); unfold Add, siblingIdentityWait, Millisecond, Second in *; try done; lia. Qed.

End identity.

(** * The stores *)

Definition keyClientKey : string := "tls.key".
Definition keyClientCert : string := "tls.crt".
Definition keyCABundle : string := "ca.crt".

(** What every backend promises: a write that succeeded is what is loaded. *)
Class identityStore (St : Type) := {
  Load : St → load_result;
  Saved : Material → St → St → Prop;
  Load_Saved : ∀ key cert ca s s', key ≠ "" → cert ≠ "" → ca ≠ "" → Saved (key, cert, ca) s s' → Load s' = Ok (key, cert, ca)
}.

Definition loadable (key cert ca : string) : load_result :=
  if String.eqb key "" || String.eqb cert "" then Err ErrNoIdentity else Ok (key, cert, ca).

Lemma loadable_ok key cert ca : key ≠ "" → cert ≠ "" → loadable key cert ca = Ok (key, cert, ca).
Proof. unfold loadable. intros. by destruct (String.eqb_spec key ""), (String.eqb_spec cert ""). Qed.

(** ** Memory *)

Definition memory_Load (m : Material) : load_result := let '(key, _, _) := m in if String.eqb key "" then Err ErrNoIdentity else Ok m.
Definition memory_Save (m : Material) (_ : Material) : Material := m.

#[export] Program Instance memoryIdentityStore : identityStore Material := {
  Load := memory_Load;
  Saved m s s' := s' = memory_Save m s
}.
Next Obligation. intros key cert ca s s' Hk _ _ ->. cbn. by destruct (String.eqb_spec key ""). Qed.

(** ** The Secret

The API server keeps one version of the Secret and accepts an update of that
version only. *)
Record Cell := { ce_version : Z; ce_data : gmap string string }.

Definition secret_data (m : Material) : gmap string string :=
  let '(key, cert, ca) := m in {[ keyClientKey := key; keyClientCert := cert; keyCABundle := ca ]}.

Definition secret_Load (c : option Cell) : load_result :=
  match c with
  | None => Err ErrNoIdentity
  | Some c => loadable (map_get (ce_data c) keyClientKey) (map_get (ce_data c) keyClientCert) (map_get (ce_data c) keyCABundle)
  end.

(** [Save] between its calls: other writers may come in. *)
Inductive SavePhase := SGet | SCreate | SUpdate (version : Z) | SDone (ok : bool).

Definition secret_Save (m : Material) (ph : SavePhase) (c : option Cell) : SavePhase * option Cell :=
  match ph with
  | SGet => (match c with None => SCreate | Some c => SUpdate (ce_version c) end, c)
  | SCreate =>
    match c with
    | None => (SDone true, Some {| ce_version := 1; ce_data := secret_data m |})
    | Some _ => (SGet, c)
    end
  | SUpdate v =>
    match c with
    | Some c => if ce_version c =? v then (SDone true, Some {| ce_version := v + 1; ce_data := secret_data m |}) else (SDone false, Some c)
    | None => (SDone false, None)
    end
  | SDone ok => (ph, c)
  end.

Lemma secret_Load_data m v : m.1.1 ≠ "" → m.1.2 ≠ "" → secret_Load (Some {| ce_version := v; ce_data := secret_data m |}) = Ok m.
Proof.
  destruct m as [[key cert] ca]. cbn [fst snd]. intros Hk Hc. cbn [secret_Load ce_data secret_data]. unfold map_get.
  rewrite lookup_insert_eq, (lookup_insert_ne _ keyClientKey), lookup_insert_eq by done.
  rewrite !lookup_insert_ne, lookup_singleton_eq by done. cbn. by apply loadable_ok.
Qed.

(** A [Save] that reports success has just written. *)
Lemma secret_Save_writes m ph c c' : ph ≠ SDone true → secret_Save m ph c = (SDone true, c') → ∃ v, c' = Some {| ce_version := v; ce_data := secret_data m |}.
Proof.
  intros Hph. destruct ph as [| |v|ok]; cbn [secret_Save].
  - by destruct c.
  - destruct c; [done|]. intros [= <-]. eauto.
  - destruct c as [c|]; [|done]. destruct (ce_version c =? v); [|done]. intros [= <-]. eauto.
  - by intros [= -> _].
Qed.

#[export] Program Instance secretIdentityStore : identityStore (option Cell) := {
  Load := secret_Load;
  Saved m c c' := ∃ ph, ph ≠ SDone true ∧ secret_Save m ph c = (SDone true, c')
}.
Next Obligation. intros key cert ca s s' Hk Hc _ (ph & Hph & H). apply secret_Save_writes in H as [v ->]; [|done]. by apply secret_Load_data. Qed.

(** The update is conditional on what [Save] itself has read: undisturbed, it
replaces whatever is there, a newer certificate of another pod included. *)
Lemma Save_overwrites m c :
  (secret_Save m SGet (Some c)).1 = SUpdate (ce_version c) ∧
  secret_Save m (SUpdate (ce_version c)) (Some c) = (SDone true, Some {| ce_version := ce_version c + 1; ce_data := secret_data m |}).
Proof. cbn. by rewrite Z.eqb_refl. Qed.

(** ** Files

[Save] writes each file under a temporary name and renames it, in the order a
map is traversed in. *)
Inductive file_op := FWrite (name data : string) | FRename (from to : string).

Definition file_exec (fs : gmap string string) (op : file_op) : gmap string string :=
  match op with
  | FWrite name data => <[name := data]> fs
  | FRename from to => match fs !! from with Some d => <[to := d]> (delete from fs) | None => fs end
  end.

Definition tmp_name (name : string) : string := "." +:+ name +:+ ".tmp".

Definition file_Save (entries : list (string * string)) : list file_op :=
  entries ≫= λ '(name, data), if String.eqb data "" then [] else [FWrite (tmp_name name) data; FRename (tmp_name name) name].

Definition file_Load (fs : gmap string string) : load_result :=
  loadable (map_get fs keyClientKey) (map_get fs keyClientCert) (map_get fs keyCABundle).

Definition entries_of (m : Material) : list (string * string) :=
  let '(key, cert, ca) := m in [(keyClientKey, key); (keyClientCert, cert); (keyCABundle, ca)].

Definition real_name (n : string) : Prop := n ∈ [keyClientKey; keyClientCert; keyCABundle].

Lemma tmp_not_real n m : real_name n → real_name m → tmp_name m ≠ n.
Proof. unfold real_name. rewrite !elem_of_cons, !elem_of_nil. intros [->|[->|[->|[]]]] [->|[->|[->|[]]]]; by vm_compute. Qed.

(** A crash leaves every file with its old contents or all of its new ones. *)
Lemma file_Save_prefix entries fs n name :
  Forall (λ e, real_name e.1) entries → real_name name →
  foldl file_exec fs (take n (file_Save entries)) !! name = fs !! name ∨
  ∃ data, (name, data) ∈ entries ∧ data ≠ "" ∧ foldl file_exec fs (take n (file_Save entries)) !! name = Some data.
Proof.
  intros Hall Hname. revert fs n. induction entries as [|[m data] entries IH]; intros fs n; [left; by destruct n|].
  apply Forall_cons in Hall as [Hm Hall]. cbn [fst] in Hm. specialize (IH Hall). pose proof (tmp_not_real name m Hname Hm) as Hne.
  unfold file_Save. cbn [mbind list_bind]. fold (file_Save entries). destruct (String.eqb_spec data "") as [->|Hd].
  { cbn [app]. destruct (IH fs n) as [->|(d & Hd & Hd' & ->)]; [by left|]. right. exists d. split; [by right|done]. }
  destruct n as [|[|n]]; cbn [app take foldl file_exec]; [by left|left; by rewrite lookup_insert_ne|].
  rewrite lookup_insert_eq. set (fs' := <[m := data]> (delete (tmp_name m) (<[tmp_name m := data]> fs))).
  assert (Hfs : fs' !! name = fs !! name ∨ name = m ∧ fs' !! name = Some data).
  { unfold fs'. destruct (decide (name = m)) as [->|Hnm]; [right; by rewrite lookup_insert_eq|left].
    by rewrite lookup_insert_ne, lookup_delete_ne, lookup_insert_ne. }
  destruct (IH fs' n) as [->|(d & Hin & Hd' & ->)]; [|right; exists d; split; [by right|done]].
  destruct Hfs as [->|[-> ->]]; [by left|]. right. exists data. split; [by left|done].
Qed.

Lemma file_Save_full entries fs name data :
  Forall (λ e, real_name e.1) entries → NoDup entries.*1 → (name, data) ∈ entries → data ≠ "" →
  foldl file_exec fs (file_Save entries) !! name = Some data.
Proof.
  intros Hall Hnd Hin Hd. revert fs Hall Hnd Hin. induction entries as [|[m d] entries IH]; intros fs Hall Hnd Hin; [by apply elem_of_nil in Hin|].
  apply Forall_cons in Hall as [Hm Hall]. cbn [fmap list_fmap fst] in Hm, Hnd. apply NoDup_cons in Hnd as [Hnm Hnd].
  unfold file_Save. cbn [mbind list_bind]. fold (file_Save entries). apply elem_of_cons in Hin as [[= <- <-]|Hin]; [|by destruct (String.eqb d ""); cbn [app foldl]; apply IH].
  destruct (String.eqb_spec data ""); [done|]. cbn [app foldl file_exec]. rewrite lookup_insert_eq.
  set (fs' := <[name := data]> _). rewrite <- (firstn_all (file_Save entries)).
  destruct (file_Save_prefix entries fs' (length (file_Save entries)) name Hall Hm) as [->|(d' & Hin & _)]; [apply lookup_insert_eq|].
  exfalso. apply Hnm. apply list_elem_of_fmap. by exists (name, d').
Qed.

Lemma entries_real m : Forall (λ e, real_name e.1) (entries_of m) ∧ NoDup (entries_of m).*1.
Proof.
  destruct m as [[key cert] ca]. split; [|cbn; apply (bool_decide_unpack _); vm_compute; exact I].
  repeat constructor; cbn; apply (bool_decide_unpack (real_name _)); vm_compute; exact I.
Qed.

#[export] Program Instance fileIdentityStore : identityStore (gmap string string) := {
  Load := file_Load;
  Saved m fs fs' := ∃ entries, entries ≡ₚ entries_of m ∧ fs' = foldl file_exec fs (file_Save entries)
}.
Next Obligation.
  intros key cert ca fs fs' Hk Hc Ha (entries & Hp & ->). destruct (entries_real (key, cert, ca)) as [Hr Hn].
  rewrite <- Hp in Hr, Hn. unfold file_Load, map_get.
  rewrite (file_Save_full entries fs keyClientKey key), (file_Save_full entries fs keyClientCert cert), (file_Save_full entries fs keyCABundle ca); try done.
  1: by apply loadable_ok. all: rewrite Hp; cbn [entries_of]; set_solver.
Qed.

(** A crash between two renames leaves the key of one identity with the
certificate of the other. *)
Lemma crash_mixes_identities :
  file_Load (foldl file_exec (foldl file_exec ∅ (file_Save (entries_of ("k1", "c1", "ca1")))) (take 2 (file_Save (entries_of ("k2", "c2", "ca2")))))
  = Ok ("k2", "c1", "ca1").
Proof. vm_compute. reflexivity. Qed.

(** * Witnesses *)

Definition toy_pub (k : string) : PublicKey := PubECDSA true k.
Definition toy_decode (body : string) : option enrollResponse := Some {| en_Certificate := body; en_CABundle := "ca" |}.

(** A replica that answers a renewal as [handleRenew] does. *)
Definition toy_hub (req : RenewRequest) : Reply :=
  match handleRenew toy_hmac (λ b, b) toy_verifies Some Some toy_server false (Ok req) (Some NewState) toy_clocks (Some 9) with
  | Ok r => if String.eqb (read_limited (er_Certificate r)) (er_Certificate r) then Replied 200 (er_Certificate r) else Replied 500 ""
  | Err _ => Replied 403 ""
  end.
Definition toy_renew_env : renew_env :=
  {| re_fresh := Some ("k2", "k2"); re_client := true; re_challenge := Replied 200 ""; re_answer := toy_hub |}.

Definition toy_stored : Material := ("k", cert_pem (default no_cert toy_leaf), "ca").
Definition toy_start : start_env :=
  {| st_load := Ok toy_stored; st_now := toy_later; st_renew := toy_renew_env; st_token := None;
     st_enroll := {| ee_fresh := None; ee_client := false; ee_answer := λ _ _, NoReply |};
     st_wait_from := 0; st_await := []; st_reload := Err ErrNoIdentity; st_reload_now := 0 |}.

Local Abbreviation toy_establish := (establishIdentity string Some toy_pub (λ _, Some) (λ b, b) (λ s, s) toy_decode (λ _, Some toy_challenge.1) "c1").
Local Abbreviation toy_turns := (renew_turns string Some toy_pub (λ _, Some) (λ b, b) (λ s, s) toy_decode (λ _, Some toy_challenge.1) "c1").

Lemma toy_trusted : trusted (λ b, b) toy_decode toy_hmac toy_verifies Some Some toy_renew_env.
Proof.
  exists toy_server. split; [exact toy_server_ok|]. split; [exact toy_domain|]. intros req out. unfold toy_renew_env, re_answer, toy_hub.
  destruct (handleRenew _ _ _ _ _ _ _ _ _ _ _) as [r|] eqn:E; [|done]. destruct (String.eqb_spec (read_limited (er_Certificate r)) (er_Certificate r)) as [Hr|]; [|done].
  unfold post_reply. cbn [Z.eqb Pos.eqb negb andb toy_decode]. rewrite Hr. destruct (String.eqb (en_Certificate _) ""); [done|]. intros [= <-]. by eauto 10.
Qed.

Lemma pod_holds_its_own_witness :
  ∃ id saves, toy_establish toy_start = (Ok id, saves) ∧ clusterIDFromCert (si_Leaf string (pod_identity string (toy_turns [] (start_pod string id)))) = "c1".
Proof.
  destruct (toy_establish toy_start) as [[id|err] saves] eqn:E; [|vm_compute in E; discriminate E].
  exists id, saves. split; [reflexivity|].
  apply (pod_holds_its_own string Some toy_pub (λ _, Some) (λ b, b) (λ s, s) toy_decode (λ _, Some toy_challenge.1) "c1" toy_hmac toy_verifies Some Some
    toy_start [] id saves toy_trusted (Forall_nil_2 _) E).
Defined.

Definition toy_id : SpokeIdentity string :=
  {| si_Chain := []; si_Key := "k"; si_Leaf := default no_cert toy_leaf; si_CABundle := "ca"; si_KeyPEM := "k"; si_CertPEM := "" |}.
Definition toy_pod : Pod string := start_pod string toy_id.
Definition no_renewal : renew_env := {| re_fresh := None; re_client := true; re_challenge := NoReply; re_answer := λ _, NoReply |}.
(** A turn in which neither the store nor the hub answers. *)
Definition idle_turn (now : Z) : turn_env :=
  {| te_settle_load := Err StoreFailed; te_settle_now := now; te_settle_save := false; te_now := now; te_load := Err StoreFailed; te_load_now := now;
     te_renew := no_renewal; te_save := false; te_reload := Err StoreFailed; te_reload_now := now |}.
Definition toy_due : Z := renew_at (default no_cert toy_leaf).
Definition toy_missed : list turn_env := [idle_turn (toy_due + Hour); idle_turn (toy_due + 2 * Hour)].

Lemma idle_lasting S now : offers_lasting string Some toy_pub (λ _, Some) (λ b, b) (λ s, s) toy_decode (λ _, Some toy_challenge.1) S (idle_turn now).
Proof. split; [intros m id [|[|]]; done|done]. Qed.

