(* ===== verification/Url.v ===== *)
(** [net/url]'s query strings: the encoding of a form the hub puts into a tunnel
request and the decoding the spoke makes of it.

A form is a map from names to the values in their order.  The limit newer
releases of the standard library put on the number of parameters is not
modelled: the allow-list bounds them far below it. *)

From S2P Require Import Prelude Text PromApi.
Open Scope string_scope.
Open Scope Z_scope.

Abbreviation Values := (gmap string (list string)).

(** * Escaping *)

(** [url.QueryEscape]: a space becomes a plus. *)
Definition query_unescaped (c : ascii) : bool :=
  is_alpha c || is_digit c || existsb (Ascii.eqb c) ["-"; "_"; "."; "~"]%char.

Fixpoint QueryEscape (s : string) : string :=
  match s with
  | EmptyString => EmptyString
  | String c s =>
    if query_unescaped c then String c (QueryEscape s)
    else if Ascii.eqb c " " then String "+" (QueryEscape s)
    else String "%" (String (hex_digit (nat_of_ascii c / 16)) (String (hex_digit (nat_of_ascii c mod 16)) (QueryEscape s)))
  end.

(** [unhex], for a hexadecimal digit. *)
Definition unhex (c : ascii) : option nat :=
  if is_digit c then Some (nat_of_ascii c - 48)%nat
  else if in_range 0x61 0x66 c then Some (nat_of_ascii c - 87)%nat
  else if in_range 0x41 0x46 c then Some (nat_of_ascii c - 55)%nat
  else None.

(** [url.QueryUnescape]. *)
Fixpoint QueryUnescape (s : string) : option string :=
  match s with
  | EmptyString => Some EmptyString
  | String c s =>
    if Ascii.eqb c "%" then
      match s with
      | String a (String b s') =>
        match unhex a, unhex b with
        | Some x, Some y => String (ascii_of_nat (x * 16 + y)) <$> QueryUnescape s'
        | _, _ => None
        end
      | _ => None
      end
    else String (if Ascii.eqb c "+" then " "%char else c) <$> QueryUnescape s
  end.

(** * Forms *)

Definition pairs_of (entries : list (string * list string)) : list (string * string) :=
  entries ≫= λ '(k, vs), (λ v, (k, v)) <$> vs.
Definition encode_pair (p : string * string) : string := QueryEscape p.1 +:+ "=" +:+ QueryEscape p.2.

Definition entry_le (a b : string * list string) : Prop := String.le a.1 b.1.
#[export] Instance entry_le_dec : RelDecision entry_le.
Proof. intros a b. unfold entry_le. apply _. Defined.

(** [Values.Encode]: sorted by name. *)
Definition Values_Encode (form : Values) : string :=
  String.concat "&" (encode_pair <$> pairs_of (merge_sort entry_le (map_to_list form))).

Definition add_value (m : Values) (p : string * string) : Values := <[p.1 := (default [] (m !! p.1) ++ [p.2])%list]> m.

(** One piece between ampersands: nothing, a pair, or an error. *)
Definition parse_piece (piece : string) : option (option (string * string)) :=
  if str_Contains piece ";" then None
  else if String.eqb piece "" then Some None
  else
    let '(k, v) := default (piece, "") (Cut piece "=") in
    k ← QueryUnescape k; v ← QueryUnescape v; Some (Some (k, v)).

(** [url.ParseQuery], for a caller that refuses the form on an error. *)
Fixpoint parse_pieces (pieces : list string) (m : Values) : option Values :=
  match pieces with
  | [] => Some m
  | piece :: pieces =>
    p ← parse_piece piece;
    parse_pieces pieces (match p with Some p => add_value m p | None => m end)
  end.
Definition ParseQuery (query : string) : option Values := parse_pieces (SplitByte query "&") ∅.

(** * The round trip *)

Lemma unhex_digit n : (n < 16)%nat → unhex (hex_digit n) = Some n.
Proof. intros Hn. do 16 (destruct n as [|n]; [reflexivity|]). lia. Qed.

Lemma query_unescaped_plain c : query_unescaped c = true →
  Ascii.eqb c "%" = false ∧ Ascii.eqb c "+" = false ∧ Ascii.eqb c "&" = false ∧ Ascii.eqb c "=" = false ∧ Ascii.eqb c ";" = false.
Proof. destruct c as [[] [] [] [] [] [] [] []]; vm_compute; intros; try done; by split_and!. Qed.

Lemma Unescape_Escape s : QueryUnescape (QueryEscape s) = Some s.
Proof.
  induction s as [|c s IH]; [done|]. cbn [QueryEscape]. destruct (query_unescaped c) eqn:Hc.
  - destruct (query_unescaped_plain c Hc) as (H1 & H2 & _). cbn [QueryUnescape]. by rewrite H1, H2, IH.
  - destruct (Ascii.eqb_spec c " ") as [->|Hs].
    + cbn [QueryUnescape]. change (Ascii.eqb "+" "%") with false. by rewrite IH.
    + cbn [QueryUnescape]. change (Ascii.eqb "%" "%") with true. cbv iota.
      assert (Hb : (nat_of_ascii c < 256)%nat) by (destruct c as [[] [] [] [] [] [] [] []]; vm_compute; lia).
      rewrite !unhex_digit by (first [apply Nat.Div0.div_lt_upper_bound; lia|apply Nat.mod_upper_bound; lia]).
      rewrite IH. cbn [fmap option_fmap option_map]. do 2 f_equal. rewrite Nat.mul_comm, <- Nat.div_mod_eq. apply ascii_nat_embedding.
Qed.

Definition separator (c : ascii) : bool := Ascii.eqb c "&" || Ascii.eqb c "=" || Ascii.eqb c ";".

Lemma Escape_clean s : str_exists separator (QueryEscape s) = false.
Proof.
  induction s as [|c s IH]; [done|]. cbn [QueryEscape]. destruct (query_unescaped c) eqn:Hc.
  - destruct (query_unescaped_plain c Hc) as (_ & _ & H1 & H2 & H3). cbn [str_exists]. unfold separator at 1. by rewrite H1, H2, H3.
  - destruct (Ascii.eqb c " "); cbn [str_exists]; [exact IH|]. rewrite IH.
    assert (Hx : ∀ n, separator (hex_digit n) = false) by (intros n; do 16 (destruct n as [|n]; [reflexivity|]); reflexivity).
    by rewrite !Hx.
Qed.

Lemma Cut_clean a b : str_exists separator a = false → Cut (a +:+ "=" +:+ b) "=" = Some (a, b).
Proof.
  induction a as [|c a IH]; [by intros _; cbn; destruct b|]. cbn [str_exists]. intros [Hc Ha]%orb_false_iff. unfold separator in Hc.
  apply orb_false_iff in Hc as [[_ Hc]%orb_false_iff _].
  change (String c a +:+ "=" +:+ b) with (String c (a +:+ "=" +:+ b)). cbn [Cut].
  assert (Hp : HasPrefix (String c (a +:+ "=" +:+ b)) "=" = false).
  { unfold HasPrefix. cbn [String.prefix]. destruct (ascii_dec "=" c) as [<-|]; [by rewrite Ascii.eqb_refl in Hc|done]. }
  by rewrite Hp, IH.
Qed.

Lemma exists_app f a b : str_exists f (a +:+ b) = str_exists f a || str_exists f b.
Proof. induction a as [|c a IH]; [done|]. cbn. by rewrite IH, orb_assoc. Qed.

Lemma Contains_char s c : str_exists (Ascii.eqb c) s = false → str_Contains s (String c "") = false.
Proof.
  induction s as [|d s IH]; [done|]. cbn [str_exists str_Contains]. intros [Hd Hs]%orb_false_iff. rewrite (IH Hs), orb_false_r.
  unfold HasPrefix. cbn [String.prefix]. destruct (ascii_dec c d) as [->|]; [by rewrite Ascii.eqb_refl in Hd|done].
Qed.

Lemma exists_weaken f g s : (∀ c, f c = true → g c = true) → str_exists g s = false → str_exists f s = false.
Proof.
  intros Hfg. induction s as [|c s IH]; [done|]. cbn. intros [Hc Hs]%orb_false_iff. rewrite (IH Hs), orb_false_r.
  destruct (f c) eqn:E; [|done]. by rewrite (Hfg c E) in Hc.
Qed.

Lemma encoded_clean c p : c = "&"%char ∨ c = ";"%char → str_exists (Ascii.eqb c) (encode_pair p) = false.
Proof.
  intros Hc. assert (He : ∀ s, str_exists (Ascii.eqb c) (QueryEscape s) = false).
  { intros s. apply (exists_weaken _ separator); [|apply Escape_clean]. intros d <-%Ascii.eqb_eq. by destruct Hc as [->| ->]. }
  unfold encode_pair. rewrite !exists_app, !He. by destruct Hc as [->| ->].
Qed.

Lemma parse_encoded p : parse_piece (encode_pair p) = Some (Some p).
Proof.
  unfold parse_piece. rewrite Contains_char by (apply encoded_clean; by right).
  destruct (String.eqb_spec (encode_pair p) "") as [He|_].
  { exfalso. unfold encode_pair in He. apply (f_equal String.length) in He. rewrite !string_length_app in He. cbn in He. lia. }
  unfold encode_pair. rewrite Cut_clean by apply Escape_clean. cbn [default from_option id]. rewrite !Unescape_Escape. by destruct p.
Qed.

Lemma Split_clean a c : str_exists (Ascii.eqb c) a = false → SplitByte a c = [a].
Proof.
  induction a as [|d a IH]; [done|]. cbn [str_exists SplitByte]. intros [Hd Ha]%orb_false_iff. rewrite Ascii.eqb_sym, Hd, (IH Ha). done.
Qed.

Lemma Split_sep a r c : str_exists (Ascii.eqb c) a = false → SplitByte (a +:+ String c r) c = a :: SplitByte r c.
Proof.
  induction a as [|d a IH]; [intros _; cbn; by rewrite Ascii.eqb_refl|]. cbn [str_exists]. intros [Hd Ha]%orb_false_iff.
  change (String d a +:+ String c r) with (String d (a +:+ String c r)). cbn [SplitByte]. by rewrite Ascii.eqb_sym, Hd, (IH Ha).
Qed.

Lemma Split_concat (ps : list (string * string)) :
  ps ≠ [] → SplitByte (String.concat "&" (encode_pair <$> ps)) "&" = encode_pair <$> ps.
Proof.
  induction ps as [|p ps IH]; [done|]. intros _. destruct ps as [|q ps].
  - cbn. apply Split_clean, encoded_clean. by left.
  - change (String.concat "&" (encode_pair <$> p :: q :: ps)) with (encode_pair p +:+ String "&" (String.concat "&" (encode_pair <$> q :: ps))).
    rewrite Split_sep by (apply encoded_clean; by left). by rewrite IH.
Qed.

Lemma parse_all ps m : parse_pieces (encode_pair <$> ps) m = Some (foldl add_value m ps).
Proof. revert m. induction ps as [|p ps IH]; intros m; [done|]. cbn [fmap list_fmap parse_pieces foldl]. rewrite parse_encoded. cbn [mbind option_bind]. apply IH. Qed.

Lemma collected ps m k : foldl add_value m ps !! k =
  match (List.filter (λ p, String.eqb p.1 k) ps).*2 with [] => m !! k | vs => Some (default [] (m !! k) ++ vs)%list end.
Proof.
  revert m. induction ps as [|p ps IH]; intros m; [done|]. cbn [foldl]. rewrite IH. cbn [List.filter]. unfold add_value.
  destruct (String.eqb_spec p.1 k) as [->|Hne]; [|by rewrite lookup_insert_ne].
  rewrite lookup_insert_eq. cbn [fmap list_fmap default from_option id]. destruct (_.*2); [by rewrite ?app_nil_r|]. by rewrite <- app_assoc.
Qed.

(** The values of a name among the pairs of a form. *)
Lemma pairs_values (entries : list (string * list string)) k :
  NoDup entries.*1 → (List.filter (λ p, String.eqb p.1 k) (pairs_of entries)).*2 = default [] (snd <$> List.find (λ e, String.eqb e.1 k) entries).
Proof.
  induction entries as [|[n vs] entries IH]; [done|]. cbn [fmap list_fmap fst]. intros [Hn Hnd]%NoDup_cons.
  unfold pairs_of. cbn [mbind list_bind List.find fst]. fold (pairs_of entries). rewrite List.filter_app, fmap_app.
  assert (Hvs : (List.filter (λ p, String.eqb p.1 k) ((λ v, (n, v)) <$> vs)).*2 = if String.eqb n k then vs else []).
  { clear. induction vs as [|v vs IH]; [by destruct (String.eqb n k)|]. cbn [fmap list_fmap List.filter fst].
    destruct (String.eqb n k); [|done]. cbn [fmap list_fmap snd]. by rewrite IH. }
  rewrite Hvs, (IH Hnd). destruct (String.eqb_spec n k) as [->|]; [|done]. cbn.
  assert (Hf : List.find (λ e : string * list string, String.eqb e.1 k) entries = None).
  { destruct (List.find _ entries) as [e|] eqn:E; [|done]. apply List.find_some in E as [Hin%list_elem_of_In He%String.eqb_eq].
    exfalso. apply Hn. apply list_elem_of_fmap. by exists e. }
  rewrite Hf. by rewrite app_nil_r.
Qed.

Lemma find_entry (form : Values) entries k :
  entries ≡ₚ map_to_list form → snd <$> List.find (λ e : string * list string, String.eqb e.1 k) entries = form !! k.
Proof.
  intros Hp. destruct (List.find _ entries) as [[n vs]|] eqn:E.
  - apply List.find_some in E as [Hin%list_elem_of_In He%String.eqb_eq]. cbn in He. subst n. symmetry. by apply (map_entries_elem _ _ _ _ Hp).
  - destruct (form !! k) as [vs|] eqn:Hk; [|done]. apply (map_entries_elem _ _ _ _ Hp), list_elem_of_In in Hk.
    eapply List.find_none in E; [|exact Hk]. cbn in E. by rewrite String.eqb_refl in E.
Qed.

(** A form without empty entries comes back as it went. *)
Lemma ParseQuery_Encode (form : Values) : ParseQuery (Values_Encode form) = Some (filter (λ e, e.2 ≠ []) form).
Proof.
  set (entries := merge_sort entry_le (map_to_list form)). assert (Hp : entries ≡ₚ map_to_list form) by apply merge_sort_Permutation.
  assert (Hres : foldl add_value ∅ (pairs_of entries) = filter (λ e, e.2 ≠ []) form).
  { apply map_eq. intros k. rewrite collected, (pairs_values entries k), (find_entry form entries k Hp) by (by apply (map_entries_NoDup form)).
    rewrite lookup_empty. destruct (form !! k) as [vs|] eqn:Hk; cbn [default from_option id].
    - destruct vs as [|v vs].
      + symmetry. apply map_lookup_filter_None. right. intros ? ?. simplify_eq. by intros [].
      + symmetry. apply map_lookup_filter_Some. by split.
    - symmetry. apply map_lookup_filter_None. by left. }
  unfold ParseQuery, Values_Encode. fold entries. destruct (decide (pairs_of entries = [])) as [He|Hne].
  - rewrite He in *. cbn. by rewrite <- Hres.
  - rewrite Split_concat by done. by rewrite parse_all, Hres.
Qed.
