(* ===== verification/PromClient.v ===== *)
(** The spoke's client of its local Prometheus: [src/internal/promclient].

A tunnel request is checked against the spoke's own copy of the allow-list
([PromApi]) whatever the hub did, turned into one request to the configured
server, and its answer is streamed back under a byte limit.  What leaves for
Prometheus is the value [client_Do] returns; the transport, the token file and
the clock are arguments, logging and metrics are left out, and so is the
building of the HTTP client. *)

From S2P Require Import Prelude Fleet Codec Text Utf8 GoFloat Nearest PromApi Registry PromData Sem Url Proxy.
From Stdlib Require Import Floats.PrimFloat.
Open Scope string_scope.
Open Scope Z_scope.

Definition HopMargin : Z := 250 * Millisecond.
Definition client_DefaultTimeout : Z := 30 * Second.
Definition client_DefaultMaxResponseBytes : Z := Z.shiftl 32 20.
Definition DefaultUserAgent : string := "prometheus-mcp-fleet-spoke".
Definition warningsPeekLimit : Z := Z.shiftl 128 10.
Definition maxJSONHelperBytes : Z := Z.shiftl 8 20.

Inductive client_error := ErrNotAllowed | ErrUpstream | ErrTooLarge.

(** * The client *)

(** The parts of a URL that are used. *)
Record URL := { u_Scheme : string; u_User : option string; u_Host : string; u_Path : string; u_RawQuery : string }.

Record Config := {
  cf_BaseURL : string;
  cf_Timeout : Z;
  cf_BearerTokenFile : string;
  cf_TLSCAFile : string;
  cf_MaxResponseBytes : Z;
  cf_AllowStatusConfig : bool;
  cf_UserAgent : string
}.

Record Client := {
  cl_base : URL;
  cl_timeout : Z;
  cl_bearerTokenFile : string;
  cl_maxResponseBytes : Z;
  cl_allowStatusConfig : bool;
  cl_userAgent : string
}.

(** [parse] is [url.Parse] without the fragment, [bundle] whether the CA file is
read and holds a certificate. *)
Definition client_New (parse : string → option URL) (bundle : bool) (cfg : Config) : option Client :=
  if blank (cf_BaseURL cfg) then None
  else
    base ← parse (cf_BaseURL cfg);
    if negb (String.eqb (u_Scheme base) "http") && negb (String.eqb (u_Scheme base) "https") then None
    else if String.eqb (u_Host base) "" then None
    else if cf_MaxResponseBytes cfg <? 0 then None
    else if cf_Timeout cfg <? 0 then None
    else if negb (String.eqb (cf_TLSCAFile cfg) "") && negb bundle then None
    else Some {| cl_base := base;
                 cl_timeout := if cf_Timeout cfg =? 0 then client_DefaultTimeout else cf_Timeout cfg;
                 cl_bearerTokenFile := cf_BearerTokenFile cfg;
                 cl_maxResponseBytes := if cf_MaxResponseBytes cfg =? 0 then client_DefaultMaxResponseBytes else cf_MaxResponseBytes cfg;
                 cl_allowStatusConfig := cf_AllowStatusConfig cfg;
                 cl_userAgent := if String.eqb (cf_UserAgent cfg) "" then DefaultUserAgent else cf_UserAgent cfg |}.

(** * Requests *)

(** A request of the tunnel. *)
Record TunnelRequest := {
  tq_Method : string;
  tq_Path : string;
  tq_Form : string;
  tq_MaxResponseBytes : Z;
  tq_AcceptGzip : bool;
  tq_RequestID : string
}.

(** What leaves for Prometheus, and how long and how large the answer may be. *)
Record Upstream := {
  up_Method : string;
  up_URL : URL;
  up_Body : option string;
  up_UserAgent : string;
  up_AcceptGzip : bool;
  up_RequestID : string;
  up_Authorization : option string;
  up_Budget : Z;
  up_Limit : Z
}.

Definition resolve (c : Client) (path : string) (form : Values) : URL :=
  {| u_Scheme := u_Scheme (cl_base c); u_User := u_User (cl_base c); u_Host := u_Host (cl_base c);
     u_Path := TrimSuffix (u_Path (cl_base c)) "/" +:+ path;
     u_RawQuery := if bool_decide (form = ∅) then u_RawQuery (cl_base c)
                   else if String.eqb (u_RawQuery (cl_base c)) "" then Values_Encode form
                   else u_RawQuery (cl_base c) +:+ "&" +:+ Values_Encode form |}.

(** The time the call may take, if the deadline leaves any. *)
Definition upstreamContext (c : Client) (deadline : option Z) (now : Z) : result client_error Z :=
  match deadline with
  | None => Ok (cl_timeout c)
  | Some d =>
    let remaining := wrap_int64 (Sub d now - HopMargin) in
    if remaining <=? 0 then Err ErrUpstream else Ok (if remaining <? cl_timeout c then remaining else cl_timeout c)
  end.

(** [token] is what the file holds, if it can be read. *)
Definition setAuth (c : Client) (token : option string) : result client_error (option string) :=
  if String.eqb (cl_bearerTokenFile c) "" then Ok None
  else match token with
  | None => Err ErrUpstream
  | Some raw => if String.eqb (TrimSpace raw) "" then Err ErrUpstream else Ok (Some ("Bearer " +:+ TrimSpace raw))
  end.

Section client.
Context (time_parses : string → bool) (ParseFloat : string → option float).

(** [roundTrip] up to the call itself. *)
Definition roundTrip (c : Client) (r : Route) (labelName : string) (form : Values) (acceptGzip : bool) (requestID : string)
    (limit : Z) (deadline : option Z) (now : Z) (token : option string) : result client_error Upstream :=
  match BuildPath (ro_Endpoint r) labelName with
  | Err _ => Err ErrNotAllowed
  | Ok path =>
    budget ← upstreamContext c deadline now;
    auth ← setAuth c token;
    let get := EqualFold (ro_Method r) "GET" in
    Ok {| up_Method := ro_Method r; up_URL := resolve c path (if get then form else ∅);
          up_Body := if get then None else Some (Values_Encode form); up_UserAgent := cl_userAgent c;
          up_AcceptGzip := acceptGzip; up_RequestID := requestID; up_Authorization := auth; up_Budget := budget; up_Limit := limit |}
  end.

Definition client_Do (c : Client) (req : option TunnelRequest) (deadline : option Z) (now : Z) (token : option string) : result client_error Upstream :=
  match req with
  | None => Err ErrNotAllowed
  | Some req =>
    match Lookup (tq_Method req) (tq_Path req) with
    | None => Err ErrNotAllowed
    | Some (r, labelName) =>
      match ParseQuery (tq_Form req) with
      | None => Err ErrNotAllowed
      | Some form =>
        match Validate time_parses ParseFloat (ro_Endpoint r) form (cl_allowStatusConfig c) with
        | Err _ => Err ErrNotAllowed
        | Ok _ =>
          let limit := if (0 <? tq_MaxResponseBytes req) && (tq_MaxResponseBytes req <? cl_maxResponseBytes c) then tq_MaxResponseBytes req
                       else cl_maxResponseBytes c in
          roundTrip c r labelName form (tq_AcceptGzip req) (tq_RequestID req) limit deadline now token
        end
      end
    end
  end.

(** The typed helpers: only endpoints of the table, and none with a path
parameter. *)
Definition GetJSON (c : Client) (e : Endpoint) (form : Values) (deadline : option Z) (now : Z) (token : option string) : result client_error Upstream :=
  match Get e with
  | Err _ => Err ErrNotAllowed
  | Ok r =>
    if HasPathParam r then Err ErrNotAllowed
    else match Validate time_parses ParseFloat e form (cl_allowStatusConfig c) with
    | Err _ => Err ErrNotAllowed
    | Ok _ => roundTrip c r "" form false "" (Z.min maxJSONHelperBytes (cl_maxResponseBytes c)) deadline now token
    end
  end.

Definition LabelValues (c : Client) (label : string) (deadline : option Z) (now : Z) (token : option string) : result client_error Upstream :=
  match ValidateLabelName label with
  | Err _ => Err ErrNotAllowed
  | Ok _ =>
    match Get "label_values" with
    | Err _ => Err ErrNotAllowed
    | Ok r => roundTrip c r label ∅ false "" (Z.min maxJSONHelperBytes (cl_maxResponseBytes c)) deadline now token
    end
  end.

End client.

(** * The body of an answer *)

Inductive read_error := RTooLarge | REOF | RFailed.

Record limitedBody := {
  lb_limit : Z;
  lb_latency : Z;
  lb_n : Z;
  lb_truncated : bool;
  lb_peek : option string;
  lb_warnings : list string;
  lb_warned : bool;
  lb_readErr : option read_error
}.

Definition newLimitedBody (limit latency : Z) (peek : bool) : limitedBody :=
  {| lb_limit := limit; lb_latency := latency; lb_n := 0; lb_truncated := false; lb_peek := if peek then Some "" else None;
     lb_warnings := []; lb_warned := false; lb_readErr := None |}.

Definition str_len (s : string) : Z := Z.of_nat (String.length s).

(** The buffer handed to the source: one byte past the limit tells a body at the
limit from one beyond it. *)
Definition lb_offered (k : Z) (b : limitedBody) : Z :=
  let remaining := lb_limit b - lb_n b in if remaining <? k then remaining + 1 else k.

(** The rest of [Read] once the source has put [got] into the buffer. *)
Definition lb_account (got : string) (b : limitedBody) : string * limitedBody :=
  let over := lb_n b + str_len got - lb_limit b in
  let kept := if 0 <? over then str_take (Z.to_nat (str_len got - over)) got else got in
  let n := lb_n b + str_len kept in
  (kept,
   {| lb_limit := lb_limit b; lb_latency := lb_latency b; lb_n := n; lb_truncated := 0 <? over;
      lb_peek := match lb_peek b with Some p => if warningsPeekLimit <? n then None else Some (p +:+ kept) | None => None end;
      lb_warnings := lb_warnings b; lb_warned := lb_warned b; lb_readErr := lb_readErr b |}).

Definition lb_failed (e : read_error) (b : limitedBody) : limitedBody :=
  {| lb_limit := lb_limit b; lb_latency := lb_latency b; lb_n := lb_n b; lb_truncated := lb_truncated b; lb_peek := lb_peek b;
     lb_warnings := lb_warnings b; lb_warned := lb_warned b; lb_readErr := Some e |}.

(** [src] is the source's [Read], given the room it has. *)
Definition lb_Read (k : Z) (src : Z → string * option read_error) (b : limitedBody) : string * option read_error * limitedBody :=
  if lb_truncated b then ("", Some RTooLarge, b)
  else match lb_readErr b with
  | Some e => ("", Some e, b)
  | None =>
    let '(got, err) := src (lb_offered k b) in
    let '(kept, b) := if 0 <? str_len got then lb_account got b else ("", b) in
    if lb_truncated b then (kept, Some RTooLarge, b)
    else match err with
    | Some REOF => (kept, Some REOF, b)
    | Some e => (kept, Some e, lb_failed e b)
    | None => (kept, None, b)
    end
  end.

Record BodyTrailer := { bt_BytesTotal : Z; bt_UpstreamLatency : Z; bt_Truncated : bool; bt_Warnings : list string; bt_Err : option read_error }.

(** [extractWarnings]; [decode] is the decoding of the envelope. *)
Definition extractWarnings (decode : string → option (list string)) (peek : option string) : list string :=
  match peek with
  | None => []
  | Some p => if String.eqb p "" then [] else match decode p with Some ws => ws | None => [] end
  end.

Definition lb_trailer (decode : string → option (list string)) (b : limitedBody) : BodyTrailer * limitedBody :=
  let b := if lb_warned b then b
           else {| lb_limit := lb_limit b; lb_latency := lb_latency b; lb_n := lb_n b; lb_truncated := lb_truncated b; lb_peek := None;
                   lb_warnings := extractWarnings decode (lb_peek b); lb_warned := true; lb_readErr := lb_readErr b |} in
  ({| bt_BytesTotal := lb_n b; bt_UpstreamLatency := lb_latency b; bt_Truncated := lb_truncated b; bt_Warnings := lb_warnings b;
      bt_Err := if lb_truncated b then Some RTooLarge else lb_readErr b |}, b).

(** What a call takes from its source. *)
Definition lb_taken (k : Z) (src : Z → string * option read_error) (b : limitedBody) : string :=
  if lb_truncated b || bool_decide (is_Some (lb_readErr b)) then "" else (src (lb_offered k b)).1.

(** A caller that reads on, [reads] being the rooms it offers and the sources it
meets; what it is given, and what came from upstream for it. *)
Fixpoint lb_reads (reads : list (Z * (Z → string * option read_error))) (b : limitedBody) : string * string * limitedBody :=
  match reads with
  | [] => ("", "", b)
  | (k, src) :: reads =>
    let asked := lb_taken k src b in
    let '(kept, _, b') := lb_Read k src b in
    let '(out, came, b'') := lb_reads reads b' in (kept +:+ out, asked +:+ came, b'')
  end.

(** A source keeps to the room it is given. *)
Definition honest_source (src : Z → string * option read_error) : Prop := ∀ k, 0 ≤ k → str_len (src k).1 ≤ k.

(** ** What is delivered *)

Lemma str_take_all s n : (String.length s ≤ n)%nat → str_take n s = s.
Proof. revert n. induction s as [|c s IH]; intros [|n] H; cbn in *; try done; [lia|]. rewrite IH; [done|lia]. Qed.

Lemma str_take_app_le a b n : str_take n (a +:+ b) = str_take n a +:+ str_take (n - String.length a) b.
Proof.
  revert n. induction a as [|c a IH]; intros n.
  - cbn. rewrite Nat.sub_0_r. by destruct n.
  - destruct n as [|n]; [done|]. change (String c a +:+ b) with (String c (a +:+ b)). cbn [str_take String.length Nat.sub]. by rewrite IH.
Qed.

Lemma str_len_take n s : str_len (str_take n s) = Z.min (Z.of_nat n) (str_len s).
Proof.
  unfold str_len. revert n. induction s as [|c s IH]; intros [|n]; cbn [str_take String.length]; try lia.
  specialize (IH n). lia.
Qed.

Lemma str_len_app a b : str_len (a +:+ b) = str_len a + str_len b.
Proof. unfold str_len. rewrite string_length_app. lia. Qed.

Lemma str_len_nonneg s : 0 ≤ str_len s.
Proof. unfold str_len. lia. Qed.

(** The body after [came] has come from upstream and [out] has been passed on. *)
Record body_at (peeking : bool) (limit : Z) (came out : string) (b : limitedBody) : Prop := {
  ba_limit : lb_limit b = limit;
  ba_out : out = str_take (Z.to_nat limit) came;
  ba_n : lb_n b = str_len out;
  ba_truncated : lb_truncated b = (limit <? str_len came);
  ba_came : str_len came ≤ limit + 1;
  ba_peek : lb_warned b = false → lb_peek b = if peeking && (str_len out <=? warningsPeekLimit) then Some out else None
}.

Lemma body_start peeking limit latency : 0 ≤ limit → body_at peeking limit "" "" (newLimitedBody limit latency peeking).
Proof.
  intros Hl. split.
  - done.
  - by destruct (Z.to_nat limit).
  - done.
  - change (str_len "") with 0. destruct (Z.ltb_spec limit 0); [lia|done].
  - change (str_len "") with 0. lia.
  - intros _. by destruct peeking.
Qed.

Lemma body_failed peeking limit came out b e : body_at peeking limit came out b → body_at peeking limit came out (lb_failed e b).
Proof. intros []. by split. Qed.

Lemma body_account peeking limit came out b got kept b' :
  0 ≤ limit → body_at peeking limit came out b → lb_truncated b = false → lb_warned b = false → str_len came + str_len got ≤ limit + 1 →
  lb_account got b = (kept, b') → body_at peeking limit (came +:+ got) (out +:+ kept) b' ∧ lb_readErr b' = lb_readErr b ∧ lb_warned b' = false.
Proof.
  intros Hl0 [Hlim Hout Hn Ht Hc Hp] Hnt Hw Hroom. rewrite Ht in Hnt. apply Z.ltb_ge in Hnt.
  assert (Hall : out = came) by (rewrite Hout; apply str_take_all; unfold str_len in *; lia).
  unfold lb_account. rewrite Hlim, Hn, Hall. set (over := str_len came + str_len got - limit).
  assert (Hk : (if 0 <? over then str_take (Z.to_nat (str_len got - over)) got else got) = str_take (Z.to_nat limit - String.length came) got).
  { pose proof (str_len_nonneg got). destruct (Z.ltb_spec 0 over).
    - f_equal. unfold over, str_len in *. lia.
    - symmetry. apply str_take_all. unfold over, str_len in *. lia. }
  rewrite Hk. intros [= <- <-]. split; [|done]. split; cbn [lb_limit lb_n lb_truncated lb_peek lb_warned].
  - done.
  - rewrite str_take_app_le. f_equal. rewrite <- Hall at 1. done.
  - rewrite str_len_app. done.
  - rewrite str_len_app. unfold over. destruct (Z.ltb_spec 0 (str_len came + str_len got - limit)), (Z.ltb_spec limit (str_len came + str_len got)); lia || done.
  - rewrite str_len_app. done.
  - intros _. rewrite (Hp Hw), Hall, str_len_app. pose proof (str_len_nonneg (str_take (Z.to_nat limit - String.length came) got)).
    destruct peeking; cbn [andb]; [|done]. destruct (Z.leb_spec (str_len came) warningsPeekLimit).
    + destruct (Z.ltb_spec warningsPeekLimit (str_len came + str_len (str_take (Z.to_nat limit - String.length came) got))),
        (Z.leb_spec (str_len came + str_len (str_take (Z.to_nat limit - String.length came) got)) warningsPeekLimit); lia || done.
    + destruct (Z.leb_spec (str_len came + str_len (str_take (Z.to_nat limit - String.length came) got)) warningsPeekLimit); lia || done.
Qed.

Lemma body_read peeking limit came out b k src kept err b' :
  0 ≤ limit → 0 ≤ k → honest_source src → body_at peeking limit came out b → lb_warned b = false → lb_Read k src b = (kept, err, b') →
  body_at peeking limit (came +:+ lb_taken k src b) (out +:+ kept) b' ∧ lb_warned b' = false.
Proof.
  intros Hl Hk Hsrc Hb Hw. unfold lb_Read, lb_taken. destruct (lb_truncated b) eqn:Ht; cbn [orb].
  { intros [= <- <- <-]. by rewrite !string_app_nil_r. }
  destruct (lb_readErr b) eqn:He.
  { rewrite bool_decide_true by by eexists. intros [= <- <- <-]. by rewrite !string_app_nil_r. }
  rewrite bool_decide_false by (intros [? ?]; done).
  assert (str_len (src (lb_offered k b)).1 ≤ lb_offered k b) as Hlen.
  { apply Hsrc. destruct Hb as [Hlim Hout Hn]. unfold lb_offered. rewrite Hlim, Hn, Hout, str_len_take. destruct (Z.ltb_spec (limit - Z.min (Z.of_nat (Z.to_nat limit)) (str_len came)) k); lia. }
  assert (str_len came + lb_offered k b ≤ limit + 1) as Hroom.
  { destruct Hb as [Hlim Hout Hn Htr _ _]. rewrite Ht in Htr. symmetry in Htr. apply Z.ltb_ge in Htr. unfold lb_offered. rewrite Hlim, Hn, Hout, str_len_take.
    destruct (Z.ltb_spec (limit - Z.min (Z.of_nat (Z.to_nat limit)) (str_len came)) k); lia. }
  destruct (src (lb_offered k b)) as [got e]. cbn [fst] in *.
  assert (∃ kept1 b1, (if 0 <? str_len got then lb_account got b else ("", b)) = (kept1, b1) ∧
    body_at peeking limit (came +:+ got) (out +:+ kept1) b1 ∧ lb_warned b1 = false) as (kept1 & b1 & -> & Hb1 & Hw1).
  { destruct (Z.ltb_spec 0 (str_len got)).
    - destruct (lb_account got b) as [kept1 b1] eqn:E. exists kept1, b1. split; [done|].
      destruct (body_account peeking limit came out b got kept1 b1) as (?&_&?); try done. lia.
    - exists "", b. split; [done|]. destruct got; [|unfold str_len in *; cbn [String.length] in *; lia]. by rewrite !string_app_nil_r. }
  destruct (lb_truncated b1); [by intros [= <- <- <-]|].
  destruct e as [[]|]; intros [= <- <- <-]; try done; (split; [by apply body_failed|done]).
Qed.

Lemma lb_latency_read k src b : lb_latency (lb_Read k src b).2 = lb_latency b.
Proof.
  unfold lb_Read. destruct (lb_truncated b); [done|]. destruct (lb_readErr b); [done|].
  destruct (src (lb_offered k b)) as [got e]. destruct (0 <? str_len got); cbn; [destruct (0 <? lb_n b + str_len got - lb_limit b)|destruct (lb_truncated b)]; by destruct e as [[]|].
Qed.

Lemma body_reads peeking limit reads came out b :
  0 ≤ limit → Forall (λ r, 0 ≤ r.1 ∧ honest_source r.2) reads → body_at peeking limit came out b → lb_warned b = false →
  let '(more, new, b') := lb_reads reads b in
  body_at peeking limit (came +:+ new) (out +:+ more) b' ∧ lb_warned b' = false ∧ lb_latency b' = lb_latency b.
Proof.
  intros Hl Hreads. revert came out b. induction Hreads as [|[k src] reads [Hk Hs] _ IH]; intros came out b Hb Hw; cbn [lb_reads].
  { by rewrite !string_app_nil_r. }
  pose proof (lb_latency_read k src b) as Hlat. destruct (lb_Read k src b) as [[kept e] b1] eqn:E.
  destruct (body_read peeking limit came out b k src kept e b1) as [Hb1 Hw1]; [done..|].
  specialize (IH _ _ _ Hb1 Hw1). destruct (lb_reads reads b1) as [[more new] b2]. cbn [snd] in Hlat.
  rewrite <- !string_app_assoc, <- Hlat. done.
Qed.

(** A response body is passed on exactly up to its cap.  However the caller
sizes its reads and whatever the source returns, provided it never returns more
than the room it was given: what the caller gets is the first [limit] bytes of
what came, no more than one byte past the cap is ever taken from upstream, and
the trailer reports the number of bytes delivered, that the body was cut exactly
when more came than fits, with the too-large error, and the warnings of the
whole body when it was watched and is at most 128 KiB.  Once the body is cut,
every later read is refused without touching the source; until then every read
with room asks the source for something, so the end or the overrun is found. *)
Theorem limitedBody_exact decode peeking limit latency reads out came b :
  0 ≤ limit → Forall (λ r, 0 ≤ r.1 ∧ honest_source r.2) reads → lb_reads reads (newLimitedBody limit latency peeking) = (out, came, b) →
  out = str_take (Z.to_nat limit) came ∧ str_len came ≤ limit + 1 ∧
  (lb_trailer decode b).1 =
    {| bt_BytesTotal := Z.min limit (str_len came); bt_UpstreamLatency := latency; bt_Truncated := limit <? str_len came;
       bt_Warnings := if peeking && (Z.min limit (str_len came) <=? warningsPeekLimit) then extractWarnings decode (Some out) else [];
       bt_Err := if limit <? str_len came then Some RTooLarge else lb_readErr b |} ∧
  (limit < str_len came → ∀ k src, lb_Read k src b = ("", Some RTooLarge, b)) ∧
  (str_len came ≤ limit → ∀ k, 0 < k → 0 < lb_offered k b ≤ k).
Proof.
  intros Hl Hreads E. pose proof (body_reads peeking limit reads "" "" _ Hl Hreads (body_start peeking limit latency Hl) eq_refl) as H.
  rewrite E in H. destruct H as ([Hlim Hout Hn Ht Hc Hp] & Hw & Hlat).
  change ("" +:+ came) with came in *. change ("" +:+ out) with out in *.
  assert (str_len out = Z.min limit (str_len came)) as Hlen by (rewrite Hout, str_len_take; lia).
  split; [done|]. split; [done|]. split; [|split].
  - unfold lb_trailer. rewrite Hw. cbn. rewrite Hn, Hlen, Hlat, Ht, (Hp Hw), Hlen.
    f_equal. destruct peeking; cbn [andb]; [|done]. destruct (limit `min` str_len came <=? warningsPeekLimit); [|done]. done.
  - intros Hover k src. unfold lb_Read. rewrite Ht. by apply Z.ltb_lt in Hover as ->.
  - intros Hfits k Hk. unfold lb_offered. rewrite Hlim, Hn, Hlen. destruct (Z.ltb_spec (limit - Z.min limit (str_len came)) k); lia.
Qed.

(** Two reads of four bytes from a server that has eight, under a cap of five. *)
Lemma limitedBody_exact_witness :
  let src : Z → string * option read_error := λ k, (str_take (Z.to_nat k) "abcd", None) in
  lb_reads [(4, src); (4, src); (4, src)] (newLimitedBody 5 7 true) = ("abcda", "abcdab", (lb_reads [(4, src); (4, src); (4, src)] (newLimitedBody 5 7 true)).2) ∧
  bt_Truncated (lb_trailer (λ _, None) (lb_reads [(4, src); (4, src); (4, src)] (newLimitedBody 5 7 true)).2).1 = true.
Proof.
  intros src. split; [reflexivity|].
  destruct (limitedBody_exact (λ _, None) true 5 7 [(4, src); (4, src); (4, src)] "abcda" "abcdab"
    (lb_reads [(4, src); (4, src); (4, src)] (newLimitedBody 5 7 true)).2) as (_ & _ & -> & _); [lia| |reflexivity|reflexivity].
  assert (honest_source src) by (intros k Hk; unfold src; cbn [fst snd]; rewrite str_len_take; lia).
  repeat (apply Forall_cons; split; [by split|]). by apply Forall_nil.
Defined.

(** * What leaves for Prometheus *)

Section sent.
Context (time_parses : string → bool) (ParseFloat : string → option float).

Notation Do := (client_Do time_parses ParseFloat).
Notation form_ok := (form_ok time_parses ParseFloat).

(** A client as [client_New] builds it. *)
Record client_ok (c : Client) : Prop := {
  ck_scheme : u_Scheme (cl_base c) = "http" ∨ u_Scheme (cl_base c) = "https";
  ck_host : u_Host (cl_base c) ≠ "";
  ck_timeout : 0 < cl_timeout c;
  ck_max : 0 < cl_maxResponseBytes c
}.

Lemma client_New_ok parse bundle cfg c : client_New parse bundle cfg = Some c → client_ok c.
Proof.
  unfold client_New. destruct (blank _); [done|]. destruct (parse _) as [base|]; [|done]. cbn [mbind option_bind].
  destruct (negb (String.eqb (u_Scheme base) "http") && _) eqn:Hs; [done|]. destruct (String.eqb_spec (u_Host base) ""); [done|].
  destruct (Z.ltb_spec (cf_MaxResponseBytes cfg) 0); [done|]. destruct (Z.ltb_spec (cf_Timeout cfg) 0); [done|].
  destruct (negb (String.eqb (cf_TLSCAFile cfg) "") && negb bundle); [done|]. intros [= <-]. split; cbn.
  - apply andb_false_iff in Hs as [Hs%negb_false_iff%String.eqb_eq|Hs%negb_false_iff%String.eqb_eq]; auto.
  - done.
  - assert (0 < client_DefaultTimeout) by done. destruct (Z.eqb_spec (cf_Timeout cfg) 0); lia.
  - assert (0 < client_DefaultMaxResponseBytes) by done. destruct (Z.eqb_spec (cf_MaxResponseBytes cfg) 0); lia.
Qed.

(** The requests the table allows, with the route and the form they carry. *)
Record allowed (c : Client) (req : TunnelRequest) (r : Route) (label : string) (form : Values) : Prop := {
  al_route : routes !! ro_Endpoint r = Some r;
  al_method : EqualFold (ro_Method r) (tq_Method req) = true;
  al_path : BuildPath (ro_Endpoint r) label = Ok (tq_Path req);
  al_form : ParseQuery (tq_Form req) = Some form;
  al_gate : ro_Gated r = true → cl_allowStatusConfig c = true;
  al_params : form_ok r form
}.

Definition effective_limit (c : Client) (req : TunnelRequest) : Z :=
  if (0 <? tq_MaxResponseBytes req) && (tq_MaxResponseBytes req <? cl_maxResponseBytes c) then tq_MaxResponseBytes req else cl_maxResponseBytes c.

Lemma client_Do_allowed c req r label form deadline now token : allowed c req r label form →
  Do c (Some req) deadline now token =
  roundTrip c r label form (tq_AcceptGzip req) (tq_RequestID req) (effective_limit c req) deadline now token.
Proof.
  intros [Hr Hm Hp Hf Hg Hok]. unfold client_Do.
  assert (Lookup (tq_Method req) (tq_Path req) = Some (r, label)) as ->.
  { apply (Lookup_of_spec (map_to_list routes)); [done|]. by split_and!. }
  rewrite Hf. pose proof (Validate_spec time_parses ParseFloat (map_to_list form) (ro_Endpoint r) form (cl_allowStatusConfig c) ltac:(done)) as Hv.
  unfold PromApi.Validate. destruct (Validate_of _ _ _ _ _ _) as [|[]]; [done| | | |done].
  - by rewrite Hv in Hr.
  - destruct Hv as (r' & Hr' & Hg' & Hc). rewrite Hr in Hr'. injection Hr' as <-. apply Hg in Hg'. congruence.
  - destruct Hv as (r' & Hr' & _ & Hn). rewrite Hr in Hr'. by injection Hr' as <-.
Qed.

Lemma client_Do_refused c req deadline now token :
  (∃ r label form, allowed c req r label form) ∨ Do c (Some req) deadline now token = Err ErrNotAllowed.
Proof.
  unfold client_Do. destruct (Lookup _ _) as [[r label]|] eqn:Hl; [|by right].
  apply (Lookup_of_spec (map_to_list routes)) in Hl as (Hr & Hm & Hp); [|done].
  destruct (ParseQuery _) as [form|] eqn:Hf; [|by right].
  pose proof (Validate_spec time_parses ParseFloat (map_to_list form) (ro_Endpoint r) form (cl_allowStatusConfig c) ltac:(done)) as Hv.
  unfold PromApi.Validate. destruct (Validate_of _ _ _ _ _ _) as [|[]]; [|by right..].
  left. destruct Hv as (r' & Hr' & Hg & Hok). rewrite Hr in Hr'. injection Hr' as <-. by exists r, label, form.
Qed.

(** ** Time and limits *)

Lemma upstreamContext_spec c deadline now : 0 < cl_timeout c → (∀ d, deadline = Some d → Z.abs (d - now) < 2 ^ 62) →
  match upstreamContext c deadline now with
  | Ok budget => 0 < budget ≤ cl_timeout c ∧ ∀ d, deadline = Some d → now + budget + HopMargin ≤ d
  | Err e => e = ErrUpstream ∧ ∃ d, deadline = Some d ∧ d ≤ now + HopMargin
  end.
Proof.
  intros Hc Hd. unfold upstreamContext. destruct deadline as [d|]; [|split; [lia|done]].
  specialize (Hd d eq_refl). unfold Sub, max_int64, min_int64.
  assert (HopMargin = 250000000) as HM by done. rewrite wrap_int64_id by (unfold int64_range, min_int64, max_int64; lia).
  destruct (Z.leb_spec (Z.max (- 2 ^ 63) (Z.min (2 ^ 63 - 1) (d - now)) - HopMargin) 0).
  - split; [done|]. exists d. split; [done|lia].
  - destruct (Z.ltb_spec (Z.max (- 2 ^ 63) (Z.min (2 ^ 63 - 1) (d - now)) - HopMargin) (cl_timeout c)).
    + split; [lia|]. intros d' [= <-]. lia.
    + split; [lia|]. intros d' [= <-]. lia.
Qed.

Lemma setAuth_spec c token :
  match setAuth c token with
  | Ok a => (cl_bearerTokenFile c = "" ∧ a = None) ∨ ∃ raw, token = Some raw ∧ TrimSpace raw ≠ "" ∧ a = Some ("Bearer " +:+ TrimSpace raw)
  | Err e => e = ErrUpstream ∧ cl_bearerTokenFile c ≠ "" ∧ (token = None ∨ ∃ raw, token = Some raw ∧ TrimSpace raw = "")
  end.
Proof.
  unfold setAuth. destruct (String.eqb_spec (cl_bearerTokenFile c) ""); [by left|].
  destruct token as [raw|]; [|by split_and!; auto]. destruct (String.eqb_spec (TrimSpace raw) ""); [|by right; exists raw].
  split_and!; [done..|]. right. by exists raw.
Qed.

Lemma effective_limit_spec c req : 0 < cl_maxResponseBytes c →
  0 < effective_limit c req ≤ cl_maxResponseBytes c ∧ (0 < tq_MaxResponseBytes req → effective_limit c req ≤ tq_MaxResponseBytes req).
Proof.
  intros Hc. unfold effective_limit.
  destruct (Z.ltb_spec 0 (tq_MaxResponseBytes req)), (Z.ltb_spec (tq_MaxResponseBytes req) (cl_maxResponseBytes c)); cbn [andb]; lia.
Qed.

(** The one request [roundTrip] lets out. *)
Record sent_as (c : Client) (req : TunnelRequest) (deadline : option Z) (now : Z) (token : option string) (r : Route) (form : Values) (up : Upstream) : Prop := {
  se_method : up_Method up = ro_Method r;
  se_server : u_Scheme (up_URL up) = u_Scheme (cl_base c) ∧ u_Host (up_URL up) = u_Host (cl_base c) ∧ u_User (up_URL up) = u_User (cl_base c);
  se_path : u_Path (up_URL up) = TrimSuffix (u_Path (cl_base c)) "/" +:+ tq_Path req;
  se_form : if EqualFold (ro_Method r) "GET"
            then up_Body up = None ∧ up_URL up = resolve c (tq_Path req) form
            else up_Body up = Some (Values_Encode form) ∧ u_RawQuery (up_URL up) = u_RawQuery (cl_base c);
  se_auth : up_Authorization up = None ∧ cl_bearerTokenFile c = "" ∨
            ∃ raw, token = Some raw ∧ TrimSpace raw ≠ "" ∧ up_Authorization up = Some ("Bearer " +:+ TrimSpace raw);
  se_budget : 0 < up_Budget up ≤ cl_timeout c ∧ ∀ d, deadline = Some d → now + up_Budget up + HopMargin ≤ d;
  se_limit : 0 < up_Limit up ≤ cl_maxResponseBytes c ∧ (0 < tq_MaxResponseBytes req → up_Limit up ≤ tq_MaxResponseBytes req)
}.

Lemma roundTrip_sends c req r label form deadline now token :
  client_ok c → (∀ d, deadline = Some d → Z.abs (d - now) < 2 ^ 62) → allowed c req r label form →
  match roundTrip c r label form (tq_AcceptGzip req) (tq_RequestID req) (effective_limit c req) deadline now token with
  | Ok up => sent_as c req deadline now token r form up
  | Err e => e = ErrUpstream ∧ ((∃ d, deadline = Some d ∧ d ≤ now + HopMargin) ∨
      cl_bearerTokenFile c ≠ "" ∧ (token = None ∨ ∃ raw, token = Some raw ∧ TrimSpace raw = ""))
  end.
Proof.
  intros [_ _ Ht Hm] Hd Hal. unfold roundTrip. rewrite (al_path _ _ _ _ _ Hal). pose proof (upstreamContext_spec c deadline now Ht Hd) as Hu.
  destruct (upstreamContext _ _ _) as [budget|e]; cbn [mbind result_bind]; [|destruct Hu; by split; [|left]].
  pose proof (setAuth_spec c token) as Ha. destruct (setAuth _ _) as [a|e]; cbn [mbind result_bind]; [|destruct Ha as [? Ha]; by split; [|right]].
  split; cbn; try done.
  - by destruct (EqualFold _ _).
  - destruct Ha as [[? ->]|Ha]; [by left|by right].
  - by apply effective_limit_spec.
Qed.

(** ** From the hub to Prometheus *)

(** What the proxy of the hub puts into the tunnel for a call it accepted. *)
Definition tunnel_request (route : Route) (path : string) (call : Call) (maxBytes : Z) : TunnelRequest :=
  {| tq_Method := ro_Method route; tq_Path := path; tq_Form := Values_Encode (ca_Form call); tq_MaxResponseBytes := maxBytes;
     tq_AcceptGzip := true; tq_RequestID := ca_RequestID call |}.

Lemma EqualFold_refl s : EqualFold s s = true.
Proof. unfold EqualFold. by apply bool_decide_eq_true. Qed.

Lemma form_ok_filter r form : form_ok r form → form_ok r (filter (λ e, e.2 ≠ []) form).
Proof.
  intros [Hv Hreq]. split.
  - intros name values [Hn _]%map_lookup_filter_Some. by apply Hv.
  - intros p Hp Hr. specialize (Hreq p Hp Hr). unfold form_get in *. destruct (form !! pa_Name p) as [vs|] eqn:He; [|done].
    by rewrite (proj2 (map_lookup_filter_Some (λ e, e.2 ≠ []) form (pa_Name p) vs) (conj He Hreq)).
Qed.

Lemma accepted_is_allowed px p call now reg route path c maxBytes :
  authorizeAndBuild time_parses ParseFloat px p call now reg = Ok (route, path) → cl_allowStatusConfig c = px_enableConfig px →
  allowed c (tunnel_request route path call maxBytes) route (ca_LabelName call) (filter (λ e, e.2 ≠ []) (ca_Form call)).
Proof.
  intros Ha Hc. unfold authorizeAndBuild in Ha. destruct (String.eqb _ _); [done|]. destruct (negb _); [done|].
  destruct (Registry_Cluster _ _ _); [|done]. destruct (Get (ca_Endpoint call)) as [r|] eqn:Hg; [|done].
  destruct (BuildPath _ _) as [pth|] eqn:Hb; [|done].
  pose proof (Validate_spec time_parses ParseFloat (map_to_list (ca_Form call)) (ca_Endpoint call) (ca_Form call) (px_enableConfig px) ltac:(done)) as Hv.
  unfold PromApi.Validate in Ha. destruct (Validate_of _ _ _ _ _ _); [|done]. injection Ha as -> ->.
  destruct Hv as (r & Hr & Hgate & Hok). unfold Get in Hg. rewrite Hr in Hg. injection Hg as ->.
  destruct (routes_ok _ _ Hr) as [He _]. split; cbn.
  - by rewrite He.
  - apply EqualFold_refl.
  - by rewrite He.
  - apply ParseQuery_Encode.
  - by rewrite Hc.
  - by apply form_ok_filter.
Qed.

End sent.

(** C23: Whatever a hub sends, the spoke lets out only what its own table allows.
For a client built from any configuration and any request of the tunnel, with a
deadline within 146 years of the clock: a request leaves for Prometheus only if
its method and path name a route of the table, its form parses and fits the
route's parameters, and a gated route is enabled on this spoke; then it goes to
the configured server and user with that route's method and path, carries just
that form, the token of the configured file, takes at most the configured time
and ends a hop's margin before the caller's deadline, and its answer is capped
by both sides' limits.  A request the table does not allow is refused as not
allowed; one it allows fails only for lack of time or of a readable token. *)
Theorem spoke_sends_only_allowed time_parses ParseFloat parse bundle cfg c req deadline now token :
  client_New parse bundle cfg = Some c → (∀ d, deadline = Some d → Z.abs (d - now) < 2 ^ 62) →
  match client_Do time_parses ParseFloat c (Some req) deadline now token with
  | Ok up => ∃ r label form, allowed time_parses ParseFloat c req r label form ∧ sent_as c req deadline now token r form up
  | Err ErrNotAllowed => ¬ ∃ r label form, allowed time_parses ParseFloat c req r label form
  | Err ErrUpstream => (∃ r label form, allowed time_parses ParseFloat c req r label form) ∧
      ((∃ d, deadline = Some d ∧ d ≤ now + HopMargin) ∨
       cl_bearerTokenFile c ≠ "" ∧ (token = None ∨ ∃ raw, token = Some raw ∧ TrimSpace raw = ""))
  | Err ErrTooLarge => False
  end.
Proof.
  intros Hc%client_New_ok Hd.
  destruct (client_Do_refused time_parses ParseFloat c req deadline now token) as [(r & label & form & Hal)|Hno].
  - rewrite (client_Do_allowed _ _ _ _ _ _ _ _ _ _ Hal). pose proof (roundTrip_sends time_parses ParseFloat c req r label form deadline now token Hc Hd Hal) as H.
    destruct (roundTrip _ _ _ _ _ _ _ _ _ _) as [up|e]; [by exists r, label, form|]. destruct H as [-> H]. split; [by exists r, label, form|done].
  - rewrite Hno. intros (r & label & form & Hal). rewrite (client_Do_allowed _ _ _ _ _ _ _ _ _ _ Hal) in Hno.
    pose proof (roundTrip_sends time_parses ParseFloat c req r label form deadline now token Hc Hd Hal) as H. rewrite Hno in H. by destruct H.
Qed.

(** What the hub accepts reaches Prometheus as the caller wrote it.  If the
hub's proxy accepts a call, the hub and the spoke agree on the configuration
endpoint, the deadline leaves more than the hop's margin and the token can be
read, then the spoke's own check passes and what it sends is the route and path
the hub chose with the call's own form, parameters without a value left out. *)
Theorem hub_to_spoke time_parses ParseFloat px p call now reg route path c maxBytes deadline now' token :
  authorizeAndBuild time_parses ParseFloat px p call now reg = Ok (route, path) → client_ok c → cl_allowStatusConfig c = px_enableConfig px →
  now' + HopMargin < deadline < now' + 2 ^ 62 → (cl_bearerTokenFile c = "" ∨ ∃ raw, token = Some raw ∧ TrimSpace raw ≠ "") →
  ∃ up, client_Do time_parses ParseFloat c (Some (tunnel_request route path call maxBytes)) (Some deadline) now' token = Ok up ∧
    sent_as c (tunnel_request route path call maxBytes) (Some deadline) now' token route (filter (λ e, e.2 ≠ []) (ca_Form call)) up.
Proof.
  intros Ha Hc Hg Hd Htok. assert (HopMargin = 250000000) as HM by done.
  assert (∀ d, Some deadline = Some d → Z.abs (d - now') < 2 ^ 62) as Hd' by (intros d [= <-]; lia).
  pose proof (accepted_is_allowed time_parses ParseFloat px p call now reg route path c maxBytes Ha Hg) as Hal.
  rewrite (client_Do_allowed _ _ _ _ _ _ _ _ _ _ Hal).
  pose proof (roundTrip_sends time_parses ParseFloat c _ _ _ _ (Some deadline) now' token Hc Hd' Hal) as H.
  destruct (roundTrip _ _ _ _ _ _ _ _ _ _) as [up|e]; [by exists up|]. exfalso. destruct H as [_ [(d & [= <-] & ?)|[Hf Ht]]]; [lia|].
  destruct Htok as [?|(raw & -> & Hr)]; [done|]. by destruct Ht as [?|(? & [= <-] & ?)].
Qed.

(** A spoke in front of a server under a path prefix. *)
Definition toy_url : URL := {| u_Scheme := "http"; u_User := None; u_Host := "prometheus:9090"; u_Path := "/prom/"; u_RawQuery := "" |}.
Definition toy_config : Config :=
  {| cf_BaseURL := "http://prometheus:9090/prom/"; cf_Timeout := 0; cf_BearerTokenFile := ""; cf_TLSCAFile := ""; cf_MaxResponseBytes := 0;
     cf_AllowStatusConfig := false; cf_UserAgent := "" |}.
Definition toy_client : Client := default {| cl_base := toy_url; cl_timeout := 1; cl_bearerTokenFile := ""; cl_maxResponseBytes := 1; cl_allowStatusConfig := false; cl_userAgent := "" |}
  (client_New (λ _, Some toy_url) true toy_config).
Definition toy_tunnel_request : TunnelRequest :=
  {| tq_Method := "GET"; tq_Path := "/api/v1/status/config"; tq_Form := ""; tq_MaxResponseBytes := 0; tq_AcceptGzip := false; tq_RequestID := "" |}.

Lemma toy_client_New : client_New (λ _, Some toy_url) true toy_config = Some toy_client.
Proof. reflexivity. Qed.

Lemma spoke_sends_only_allowed_witness :
  client_Do no_time digits_only toy_client (Some toy_tunnel_request) None 0 None = Err ErrNotAllowed ∧
  ¬ ∃ r label form, allowed no_time digits_only toy_client toy_tunnel_request r label form.
Proof.
  assert (client_Do no_time digits_only toy_client (Some toy_tunnel_request) None 0 None = Err ErrNotAllowed) as E by (vm_compute; reflexivity).
  split; [done|]. pose proof (spoke_sends_only_allowed no_time digits_only (λ _, Some toy_url) true toy_config toy_client toy_tunnel_request None 0 None
    toy_client_New ltac:(intros d [=])) as H. by rewrite E in H.
Defined.

Lemma hub_to_spoke_witness :
  ∃ route path up, authorizeAndBuild no_time digits_only toy_proxy (Some (toy_caller {| cs_Allow := ["prod-eu"]; cs_MatchLabels := ∅; cs_Deny := [] |})) toy_call 20 (toy_registry ∅) = Ok (route, path) ∧
    client_Do no_time digits_only toy_client (Some (tunnel_request route path toy_call 2)) (Some (2 ^ 40)) 20 None = Ok up ∧
    u_Path (up_URL up) = "/prom/api/v1/query" ∧ up_Limit up ≤ 2.
Proof.
  destruct (authorizeAndBuild no_time digits_only toy_proxy (Some (toy_caller {| cs_Allow := ["prod-eu"]; cs_MatchLabels := ∅; cs_Deny := [] |})) toy_call 20 (toy_registry ∅))
    as [[route path]|e] eqn:E; [|by vm_compute in E].
  assert (path = "/api/v1/query") as Hpath by (clear -E; vm_compute in E; congruence).
  assert (cl_allowStatusConfig toy_client = px_enableConfig toy_proxy) as Hgate by (vm_compute; reflexivity).
  assert (20 + HopMargin < 2 ^ 40 < 20 + 2 ^ 62) as Hd by (split; vm_compute; reflexivity).
  destruct (hub_to_spoke no_time digits_only toy_proxy _ toy_call 20 _ route path toy_client 2 (2 ^ 40) 20 None E
    (client_New_ok _ _ _ _ toy_client_New) Hgate Hd (or_introl (eq_refl : cl_bearerTokenFile toy_client = ""))) as (up & Hdo & Hsent).
  exists route, path, up. split; [reflexivity|]. split; [exact Hdo|]. clear E. split.
  - rewrite (se_path _ _ _ _ _ _ _ _ Hsent). cbn [tq_Path tunnel_request]. by rewrite Hpath.
  - apply (proj2 (se_limit _ _ _ _ _ _ _ _ Hsent)). done.
Defined.

(** * Answers read into memory *)

(** [isJSONContentType]: whether the body of an answer is watched for
warnings; [unicode_lower] is the case mapping beyond ASCII. *)
Definition isJSONContentType (unicode_lower : string → string) (ct : string) : bool :=
  let mediaType := match Cut ct ";" with Some (before, _) => before | None => ct end in
  let mediaType := TrimSpace (ToLower unicode_lower mediaType) in
  String.eqb mediaType "application/json" || HasSuffix mediaType "+json".

(** An error text made of an answer: clipped, without control characters. *)
Definition snippet_max : nat := 256.
Definition snippet (s : string) : string :=
  let s := if (snippet_max <? String.length s)%nat then str_take snippet_max s +:+ "...[clipped]" else s in
  utf8 ((λ r, if isForbiddenRune r then 0x20 else r) <$> runes s).

Record envelope := { en_Status : string; en_ErrorType : string; en_Error : string }.

Definition envelope_err (e : envelope) : result client_error () :=
  if String.eqb (en_Status e) "" || String.eqb (en_Status e) "success" then Ok () else Err ErrUpstream.

(** The members an embedded envelope takes. *)
Definition envelope_of (o : list (string * json)) : option envelope :=
  status ← get "status" "" str_value o;
  errorType ← get "errorType" "" str_value o;
  error ← get "error" "" str_value o;
  Some {| en_Status := status; en_ErrorType := errorType; en_Error := error |}.

Definition or_upstream {A} (o : option A) : result client_error A := match o with Some a => Ok a | None => Err ErrUpstream end.

Record Sample := { sm_Labels : gmap string string; sm_Value : float }.

Section replies.
Context `{!JsonText Bytes} (ParseFloat : string → option float).

(** An answer: its status and the bytes a reader limited to one past the cap
gets of its body, unless reading fails. *)
Record HttpReply := { hp_Status : Z; hp_Body : option Bytes }.

(** [fetch] from the answer on; [None] is a failed call. *)
Definition fetch (c : Client) (reply : option HttpReply) : result client_error json :=
  match reply with
  | None => Err ErrUpstream
  | Some r =>
    body ← or_upstream (hp_Body r);
    if Z.min maxJSONHelperBytes (cl_maxResponseBytes c) <? bytes_len body then Err ErrTooLarge
    else if negb (Z.quot (hp_Status r) 100 =? 2) then Err ErrUpstream
    else or_upstream (parse_json body)
  end.

Definition probe (c : Client) (deadline : option Z) (now : Z) (token : option string) (path : string)
    (send : URL → option HttpReply) : result client_error () :=
  _ ← upstreamContext c deadline now;
  _ ← setAuth c token;
  r ← or_upstream (send (resolve c path ∅));
  if Z.quot (hp_Status r) 100 =? 2 then Ok () else Err ErrUpstream.

Definition Ping (c : Client) (deadline : option Z) (now : Z) (token : option string)
    (send : URL → option HttpReply) : result client_error () :=
  match probe c deadline now token "/-/healthy" send with
  | Ok _ => Ok ()
  | Err _ =>
    match probe c deadline now token "/api/v1/status/buildinfo" send with
    | Ok _ => Ok ()
    | Err _ => Err ErrUpstream
    end
  end.

(** A [[2]json.RawMessage]: what is missing stays empty, what is too much is
dropped, and null leaves both empty. *)
Definition raw_pair (j : json) : option (option json * option json) :=
  match j with JNull => Some (None, None) | JArr l => Some (l !! 0%nat, l !! 1%nat) | _ => None end.

Definition decodeSampleValue (raw : option json) : result client_error float :=
  s ← or_upstream (raw ≫= str_value);
  or_upstream (ParseFloat s).

Definition raw_sample (j : json) : option (gmap string string * option json) :=
  o ← object j;
  metric ← get "metric" ∅ map_value o;
  value ← get "value" (None, None) raw_pair o;
  Some (metric, value.2).

Fixpoint decode_samples (raw : list (gmap string string * option json)) : result client_error (list Sample) :=
  match raw with
  | [] => Ok []
  | (metric, value) :: raw =>
    v ← decodeSampleValue value;
    rest ← decode_samples raw;
    Ok ({| sm_Labels := metric; sm_Value := v |} :: rest)
  end.

(** [InstantQuery] and [LabelValues] from the decoded body on. *)
Definition instant_answer (body : json) : result client_error (list Sample) :=
  o ← or_upstream (object body);
  env ← or_upstream (envelope_of o);
  data ← or_upstream (get "data" ("", None) (λ j, d ← query_data j; Some (qd_ResultType d, qd_Result d)) o);
  _ ← envelope_err env;
  if String.eqb data.1 "vector" then
    raw ← or_upstream (data.2 ≫= list_value raw_sample);
    decode_samples raw
  else if String.eqb data.1 "scalar" then
    raw ← or_upstream (data.2 ≫= raw_pair);
    v ← decodeSampleValue raw.2;
    Ok [{| sm_Labels := ∅; sm_Value := v |}]
  else Err ErrUpstream.

Definition label_values_answer (body : json) : result client_error (list string) :=
  o ← or_upstream (object body);
  env ← or_upstream (envelope_of o);
  data ← or_upstream (get "data" [] (list_value str_value) o);
  _ ← envelope_err env;
  Ok data.

(** ** What they guarantee *)

(** A server counts as reachable when either path answers with a 2xx status. *)
Lemma Ping_spec c deadline now token send :
  (∃ b, upstreamContext c deadline now = Ok b) → (∃ a, setAuth c token = Ok a) →
  Ping c deadline now token send = Ok () ↔
  ∃ path r, (path = "/-/healthy" ∨ path = "/api/v1/status/buildinfo") ∧ send (resolve c path ∅) = Some r ∧ Z.quot (hp_Status r) 100 = 2.
Proof.
  intros [b Hb] [a Ha].
  assert (∀ path, probe c deadline now token path send = Ok () ↔ ∃ r, send (resolve c path ∅) = Some r ∧ Z.quot (hp_Status r) 100 = 2) as Hp.
  { intros path. unfold probe. rewrite Hb, Ha. cbn [mbind result_bind]. destruct (send _) as [r|]; cbn; [|split; [done|by intros (? & ? & ?)]].
    destruct (Z.eqb_spec (Z.quot (hp_Status r) 100) 2).
    - split; [|done]. intros _. by exists r.
    - split; [done|]. by intros (? & [= <-] & ?). }
  unfold Ping. destruct (probe c deadline now token "/-/healthy" send) as [[]|e] eqn:E1.
  { split; [|done]. intros _. apply Hp in E1 as (r & ? & ?). exists "/-/healthy", r. auto. }
  destruct (probe c deadline now token "/api/v1/status/buildinfo" send) as [[]|e'] eqn:E2.
  { split; [|done]. intros _. apply Hp in E2 as (r & ? & ?). exists "/api/v1/status/buildinfo", r. auto. }
  split; [done|]. intros (path & r & [-> | ->] & Hs & Hq).
  - assert (probe c deadline now token "/-/healthy" send = Ok ()) by (apply Hp; eauto). congruence.
  - assert (probe c deadline now token "/api/v1/status/buildinfo" send = Ok ()) by (apply Hp; eauto). congruence.
Qed.

(** An instant answer is all or nothing: a sample for each element, in order. *)
Lemma decode_samples_spec raw out : decode_samples raw = Ok out →
  Forall2 (λ r s, sm_Labels s = r.1 ∧ ∃ t, r.2 ≫= str_value = Some t ∧ ParseFloat t = Some (sm_Value s)) raw out.
Proof.
  revert out. induction raw as [|[metric value] raw IH]; intros out; cbn [decode_samples]; [intros [= <-]; constructor|].
  destruct (decodeSampleValue value) as [v|] eqn:Hv; cbn [mbind result_bind]; [|done].
  destruct (decode_samples raw) as [rest|]; cbn [mbind result_bind]; [|done]. intros [= <-]. constructor; [|by apply IH].
  split; [done|]. cbn [fst snd sm_Value]. unfold decodeSampleValue in Hv.
  destruct (value ≫= str_value) as [t|]; cbn [or_upstream mbind result_bind] in Hv; [|done]. exists t. split; [done|].
  destruct (ParseFloat t); cbn [or_upstream] in Hv; congruence.
Qed.

End replies.
