(* ===== verification/WsTun.v ===== *)
(** The WebSocket tunnel: [src/internal/tunnel/wstun].

Both halves of the handshake over the bytes that travel, the framing of its
messages, and the HTTP handler of the hub as a machine whose connections
interleave freely under the two limits.  The hub's authority, the revocation
predicate, the signature schemes and the text of the messages are arguments;
[HubAuthority] instantiates the authority with [Ca].  The WebSocket library, TLS
and the gRPC connection that follows are not modelled, nor are logs. *)

From S2P Require Import Prelude Text Token Ca CertProof Registry.
From Stdlib Require Import Strings.Byte.
Open Scope string_scope.
Open Scope Z_scope.

Definition ProtocolVersion : string := "v1".
Definition nonceLen : nat := 32.
Definition maxHandshakeBytes : Z := Z.shiftl 64 10.
Definition handshakeTimeout : Z := 10 * Second.
Definition Subprotocol : string := "pmf.tunnel.v1".
Definition DefaultPath : string := "/tunnel".
Definition defaultMaxPendingHandshakes : Z := 32.
Definition offerTimeout : Z := 10 * Second.
Definition maxInstanceIDLen : nat := 128.

Inductive hs_error :=
| ErrHandshakeFailed | ErrUntrustedCertificate | HBadSignature | HFieldTooLarge | ErrRevoked | ErrProtocolVersion | ErrClusterMismatch.

(** * Messages *)

Record serverHello := { sh_Nonce : list byte; sh_ProtocolVersion : string; sh_ServerID : string; sh_Replicas : Z }.

Record clientAuth := {
  au_Chain : list string;
  au_Signature : list byte;
  au_ClusterID : string;
  au_AgentVersion : string;
  au_InstanceID : string;
  au_ProtocolVersion : string
}.

Record serverAccept := { ac_Accepted : bool; ac_Reason : string; ac_ClusterID : string }.

(** Text that [encoding/json] carries unchanged. *)
Definition json_safe (s : string) : bool := str_forall (in_range 0x20 0x7E) s.

(** [json.Marshal] and [json.Unmarshal] of a message; a text is not empty. *)
Class MessageText (A : Type) := {
  Marshal : A → list byte;
  Unmarshal : list byte → option A;
  carried : A → bool;
  Marshal_nonempty a : Marshal a ≠ [];
  Unmarshal_Marshal a : carried a = true → Unmarshal (Marshal a) = Some a
}.

(** ** Framing *)

Definition blen (b : list byte) : Z := Z.of_nat (length b).

(** What a message adds to the stream; [None] when it is refused. *)
Definition writeMessage (body : list byte) : option (list byte) :=
  if maxHandshakeBytes <? blen body then None else Some (FillBytes 4 (blen body) ++ body)%list.

(** [io.ReadFull] from what the peer has sent before the deadline or the end. *)
Definition ReadFull (n : nat) (r : list byte) : option (list byte * list byte) :=
  if (length r <? n)%nat then None else Some (take n r, drop n r).

Definition readMessage (r : list byte) : result hs_error (list byte * list byte) :=
  match ReadFull 4 r with
  | None => Err ErrHandshakeFailed
  | Some (n, r) =>
    let size := SetBytes n in
    if (size =? 0) || (maxHandshakeBytes <? size) then Err ErrHandshakeFailed
    else match ReadFull (Z.to_nat size) r with Some (body, r) => Ok (body, r) | None => Err ErrHandshakeFailed end
  end.

Definition compatibleVersion (peer : string) : bool := String.eqb peer ProtocolVersion.

(** Runes outside printable ASCII, invalid UTF-8 included. *)
Definition validInstanceID (v : string) : bool :=
  negb (maxInstanceIDLen <? String.length v)%nat && forallb (λ r, negb ((r <? 0x21) || (0x7e <? r))) (runes v).

(** * The exchange *)

Section exchange.
Context `{X : X509} `{!MessageText serverHello, !MessageText clientAuth, !MessageText serverAccept}.
Context (sha256 : list byte → list byte) (verifies : PublicKey → list byte → list byte → bool).

Definition read_as (A : Type) `{!MessageText A} (r : list byte) : result hs_error (A * list byte) :=
  '(body, r) ← readMessage r;
  match Unmarshal body with Some a => Ok (a, r) | None => Err ErrHandshakeFailed end.

(** The configuration of the hub's half.  [Verify] looks at the clock, which is
fixed for one exchange. *)
Record ServerConfig := {
  sc_Verify : list Certificate → option Registry.Identity;
  sc_IsRevoked : option (string → bool);
  sc_MaxSessions : Z;
  sc_Replicas : option Z;
  sc_ServerID : string;
  sc_MaxPendingHandshakes : Z
}.

Definition hello_of (cfg : ServerConfig) (nonce : list byte) : serverHello :=
  {| sh_Nonce := nonce; sh_ProtocolVersion := ProtocolVersion; sh_ServerID := sc_ServerID cfg;
     sh_Replicas := match sc_Replicas cfg with Some n => if 0 <? n then n else 0 | None => 0 end |}.

Fixpoint parse_chain (ders : list string) : option (list Certificate) :=
  match ders with
  | [] => Some []
  | der :: ders => cert ← ParseCertificate der; rest ← parse_chain ders; Some (cert :: rest)
  end.

(** The serial and the expiry an authority left out. *)
Definition completed (id : Registry.Identity) (leaf : Certificate) : Registry.Identity :=
  {| Registry.id_ClusterID := Registry.id_ClusterID id;
     Registry.id_CertSerial := if String.eqb (Registry.id_CertSerial id) "" then SerialHex (SerialNumber leaf) else Registry.id_CertSerial id;
     Registry.id_CertNotAfter := if IsZero (Registry.id_CertNotAfter id) then NotAfter leaf else Registry.id_CertNotAfter id;
     Registry.id_RemoteAddr := Registry.id_RemoteAddr id; Registry.id_InstanceID := Registry.id_InstanceID id |}.

Definition with_instance (inst : string) (id : Registry.Identity) : Registry.Identity :=
  {| Registry.id_ClusterID := Registry.id_ClusterID id; Registry.id_CertSerial := Registry.id_CertSerial id;
     Registry.id_CertNotAfter := Registry.id_CertNotAfter id; Registry.id_RemoteAddr := Registry.id_RemoteAddr id; Registry.id_InstanceID := inst |}.

Definition with_remote (remote : string) (id : Registry.Identity) : Registry.Identity :=
  {| Registry.id_ClusterID := Registry.id_ClusterID id; Registry.id_CertSerial := Registry.id_CertSerial id;
     Registry.id_CertNotAfter := Registry.id_CertNotAfter id; Registry.id_RemoteAddr := remote; Registry.id_InstanceID := Registry.id_InstanceID id |}.

(** What [authenticate] makes of a decoded answer. *)
Definition judge_auth (cfg : ServerConfig) (nonce : list byte) (auth : clientAuth) (remote : string) : result hs_error Registry.Identity :=
  if negb (compatibleVersion (au_ProtocolVersion auth)) then Err ErrProtocolVersion
  else match parse_chain (au_Chain auth) with
  | None | Some [] => Err ErrUntrustedCertificate
  | Some (leaf :: inter) =>
    match sc_Verify cfg (leaf :: inter) with
    | None => Err ErrUntrustedCertificate
    | Some id =>
      let id := completed id leaf in
      if negb (String.eqb (au_InstanceID auth) "") && negb (validInstanceID (au_InstanceID auth)) then Err ErrHandshakeFailed
      else
        let id := if String.eqb (au_InstanceID auth) "" then id else with_instance (au_InstanceID auth) id in
        if match sc_IsRevoked cfg with Some revoked => revoked (Registry.id_CertSerial id) | None => false end then Err ErrRevoked
        else match proof_Verify sha256 verifies (Some leaf) (au_Signature auth) nonce ProtocolVersion (au_ClusterID auth) [] with
        | Err ErrBadSignature => Err HBadSignature
        | Err ErrFieldTooLarge => Err HFieldTooLarge
        | Ok _ => if negb (String.eqb (au_ClusterID auth) (Registry.id_ClusterID id)) then Err ErrClusterMismatch else Ok (with_remote remote id)
        end
    end
  end.

(** The hub's half: what it sends, and the identity it derives from what it
receives.  [nonce] is what the random source yields, if it does. *)
Definition authenticate (cfg : ServerConfig) (nonce : option (list byte)) (received : list byte) (remote : string)
    : list byte * result hs_error (Registry.Identity * list byte) :=
  match nonce with
  | None => ([], Err ErrHandshakeFailed)
  | Some nonce =>
    match writeMessage (Marshal (hello_of cfg nonce)) with
    | None => ([], Err ErrHandshakeFailed)
    | Some sent => (sent, '(auth, rest) ← read_as clientAuth received; id ← judge_auth cfg nonce auth remote; Ok (id, rest))
    end
  end.

Definition rejectionReason (e : hs_error) : string :=
  match e with
  | ErrRevoked => "certificate has been revoked"
  | ErrClusterMismatch => "reported cluster id does not match the certificate"
  | HBadSignature => "signature does not verify"
  | ErrUntrustedCertificate => "certificate is not trusted by this hub"
  | ErrProtocolVersion => "incompatible tunnel protocol version"
  | _ => "handshake failed"
  end.

(** ** The spoke's half *)

Record ClientConfig := {
  cc_Chain : list string;
  cc_sign : list byte → option (list byte);
  cc_ClusterID : string;
  cc_AgentVersion : string;
  cc_InstanceID : string
}.

Record HubInfo := { hi_ServerID : string; hi_Replicas : Z }.

Definition auth_of (cfg : ClientConfig) (sig : list byte) : clientAuth :=
  {| au_Chain := cc_Chain cfg; au_Signature := sig; au_ClusterID := cc_ClusterID cfg; au_AgentVersion := cc_AgentVersion cfg;
     au_InstanceID := cc_InstanceID cfg; au_ProtocolVersion := ProtocolVersion |}.

Definition conclude_client (cfg : ClientConfig) (hello : serverHello) (received : list byte) : result hs_error HubInfo :=
  '(accept, _) ← read_as serverAccept received;
  if negb (ac_Accepted accept) then Err ErrHandshakeFailed
  else if negb (String.eqb (ac_ClusterID accept) "") && negb (String.eqb (ac_ClusterID accept) (cc_ClusterID cfg)) then Err ErrClusterMismatch
  else Ok {| hi_ServerID := sh_ServerID hello; hi_Replicas := sh_Replicas hello |}.

(** What the spoke answers to a hello, and what it makes of the rest. *)
Definition clientHandshake (cfg : ClientConfig) (received : list byte) : list byte * result hs_error HubInfo :=
  match read_as serverHello received with
  | Err e => ([], Err e)
  | Ok (hello, rest) =>
    if negb (compatibleVersion (sh_ProtocolVersion hello)) then ([], Err ErrProtocolVersion)
    else if negb (length (sh_Nonce hello) =? nonceLen)%nat then ([], Err ErrHandshakeFailed)
    else match Sign sha256 (cc_sign cfg) (sh_Nonce hello) ProtocolVersion (cc_ClusterID cfg) [] with
    | None => ([], Err ErrHandshakeFailed)
    | Some sig =>
      match writeMessage (Marshal (auth_of cfg sig)) with
      | None => ([], Err ErrHandshakeFailed)
      | Some sent => (sent, conclude_client cfg hello rest)
      end
    end
  end.

(** ** Framing is exact *)

Lemma ReadFull_spec n r a b : ReadFull n r = Some (a, b) ↔ r = (a ++ b)%list ∧ length a = n.
Proof.
  unfold ReadFull. destruct (Nat.ltb_spec (length r) n).
  - split; [done|]. intros [-> Hl]. rewrite length_app in *. lia.
  - split.
    + intros [= <- <-]. by rewrite take_drop, length_take_le.
    + intros [-> <-]. by rewrite take_app_length, drop_app_length.
Qed.

Lemma readMessage_spec r body rest :
  readMessage r = Ok (body, rest) ↔ body ≠ [] ∧ ∃ sent, writeMessage body = Some sent ∧ r = (sent ++ rest)%list.
Proof.
  unfold readMessage, writeMessage, blen. assert (maxHandshakeBytes = 65536) as HM by done.
  assert (256 ^ Z.of_nat 4 = 4294967296) as H4 by done. split.
  - destruct (ReadFull 4 r) as [[n r1]|] eqn:E; [|done]. apply ReadFull_spec in E as [-> Hn].
    pose proof (SetBytes_range n) as Hr. rewrite Hn in Hr. destruct (Z.eqb_spec (SetBytes n) 0); cbn [orb]; [done|].
    destruct (Z.ltb_spec maxHandshakeBytes (SetBytes n)); [done|]. destruct (ReadFull _ r1) as [[b r2]|] eqn:E; [|done].
    apply ReadFull_spec in E as [-> Hb]. intros [= -> ->]. assert (Z.of_nat (length body) = SetBytes n) as Hlen by lia.
    split; [intros ->; cbn in Hlen; lia|]. rewrite Hlen. destruct (Z.ltb_spec maxHandshakeBytes (SetBytes n)); [lia|].
    eexists. split; [done|]. rewrite <- Hn at 1. by rewrite FillBytes_SetBytes, <- app_assoc.
  - intros [Hne (sent & Hs & ->)]. destruct (Z.ltb_spec maxHandshakeBytes (Z.of_nat (length body))); [done|].
    assert (sent = (FillBytes 4 (Z.of_nat (length body)) ++ body)%list) as -> by congruence.
    rewrite <- app_assoc. rewrite (proj2 (ReadFull_spec 4 _ (FillBytes 4 (Z.of_nat (length body))) (body ++ rest)%list)) by (by rewrite FillBytes_length).
    rewrite SetBytes_FillBytes by lia. destruct (Z.eqb_spec (Z.of_nat (length body)) 0); [destruct body; cbn in *; [done|lia]|]. cbn [orb].
    destruct (Z.ltb_spec maxHandshakeBytes (Z.of_nat (length body))); [lia|].
    rewrite (proj2 (ReadFull_spec (Z.to_nat (Z.of_nat (length body))) _ body rest)); [done|]. split; [done|lia].
Qed.

Lemma read_as_sent {A} `{!MessageText A} (a : A) sent rest :
  carried a = true → writeMessage (Marshal a) = Some sent → read_as A (sent ++ rest) = Ok (a, rest).
Proof.
  intros Hc Hs. unfold read_as. assert (readMessage (sent ++ rest)%list = Ok (Marshal a, rest)) as ->
    by (apply readMessage_spec; split; [apply Marshal_nonempty|by exists sent]).
  cbn [mbind result_bind]. by rewrite Unmarshal_Marshal.
Qed.

(** ** What the hub lets in *)

(** What an accepted answer proved. *)
Record proven (cfg : ServerConfig) (nonce : list byte) (auth : clientAuth) (leaf : Certificate) (inter : list Certificate)
    (verified : Registry.Identity) (id : Registry.Identity) : Prop := {
  pv_chain : parse_chain (au_Chain auth) = Some (leaf :: inter);
  pv_trusted : sc_Verify cfg (leaf :: inter) = Some verified;
  pv_cluster : Registry.id_ClusterID id = Registry.id_ClusterID verified ∧ au_ClusterID auth = Registry.id_ClusterID verified;
  pv_serial : Registry.id_CertSerial id = Registry.id_CertSerial (completed verified leaf);
  pv_expiry : Registry.id_CertNotAfter id = Registry.id_CertNotAfter (completed verified leaf);
  pv_unrevoked : ∀ revoked, sc_IsRevoked cfg = Some revoked → revoked (Registry.id_CertSerial id) = false;
  pv_possession : ∃ t, Transcript nonce ProtocolVersion (au_ClusterID auth) [] = Ok t ∧ verifies (cert_PublicKey leaf) (sha256 t) (au_Signature auth) = true;
  pv_instance : au_InstanceID auth = "" ∧ Registry.id_InstanceID id = Registry.id_InstanceID verified ∨
                Registry.id_InstanceID id = au_InstanceID auth ∧ validInstanceID (au_InstanceID auth) = true
}.

Lemma judge_auth_Ok cfg nonce auth remote id : judge_auth cfg nonce auth remote = Ok id →
  ∃ leaf inter verified, proven cfg nonce auth leaf inter verified id ∧ compatibleVersion (au_ProtocolVersion auth) = true ∧ Registry.id_RemoteAddr id = remote.
Proof.
  unfold judge_auth. destruct (compatibleVersion _) eqn:Hv; [|done]. cbn [negb].
  destruct (parse_chain _) as [[|leaf inter]|] eqn:Hchain; try done. destruct (sc_Verify _ _) as [ver|] eqn:Hver; [|done].
  destruct (negb (String.eqb (au_InstanceID auth) "") && _) eqn:Hi; [done|].
  set (id1 := if String.eqb (au_InstanceID auth) "" then completed ver leaf else _).
  assert (Registry.id_ClusterID id1 = Registry.id_ClusterID ver ∧ Registry.id_CertSerial id1 = Registry.id_CertSerial (completed ver leaf) ∧
    Registry.id_CertNotAfter id1 = Registry.id_CertNotAfter (completed ver leaf)) as (Hc1 & Hs1 & Hn1) by (unfold id1; by destruct (String.eqb _ _)).
  assert (au_InstanceID auth = "" ∧ Registry.id_InstanceID id1 = Registry.id_InstanceID ver ∨
    Registry.id_InstanceID id1 = au_InstanceID auth ∧ validInstanceID (au_InstanceID auth) = true) as Hinst.
  { unfold id1. destruct (String.eqb_spec (au_InstanceID auth) ""); [by left|]. right. split; [done|]. by apply negb_false_iff. }
  destruct (match sc_IsRevoked cfg with Some _ => _ | None => _ end) eqn:Hrev; [done|].
  destruct (proof_Verify _ _ _ _ _ _ _ _) as [[]|[]] eqn:Hp; try done.
  destruct (String.eqb_spec (au_ClusterID auth) (Registry.id_ClusterID id1)) as [Hc|]; cbn [negb]; [|done]. intros [= <-].
  exists leaf, inter, ver. split; [|done]. split; cbn [with_remote Registry.id_ClusterID Registry.id_CertSerial Registry.id_CertNotAfter Registry.id_InstanceID]; auto.
  - split; congruence.
  - intros revoked Hr. by rewrite Hr in Hrev.
  - unfold proof_Verify in Hp. destruct (Transcript _ _ _ _) as [t|] eqn:Ht; [|done]. exists t. split; [done|].
    destruct (cert_PublicKey leaf); [..|done]; by destruct (verifies _ _ _).
Qed.

Lemma authenticate_Ok cfg nonce received remote sent id rest :
  authenticate cfg nonce received remote = (sent, Ok (id, rest)) →
  ∃ n auth, nonce = Some n ∧ writeMessage (Marshal (hello_of cfg n)) = Some sent ∧ read_as clientAuth received = Ok (auth, rest) ∧
    judge_auth cfg n auth remote = Ok id.
Proof.
  unfold authenticate. destruct nonce as [n|]; [|done]. destruct (writeMessage _) as [s|] eqn:Hs; [|done]. intros [= <- H].
  destruct (read_as clientAuth received) as [[auth r]|]; cbn [mbind result_bind] in H; [|done].
  destruct (judge_auth cfg n auth remote) as [i|] eqn:Hj; cbn [mbind result_bind] in H; [|done]. injection H as -> ->. by exists n, auth.
Qed.

(** ** Both halves together *)

(** The hub's last message, [slot] telling whether a session was free. *)
Definition accept_for (res : result hs_error Registry.Identity) (slot : bool) : serverAccept :=
  match res with
  | Err e => {| ac_Accepted := false; ac_Reason := rejectionReason e; ac_ClusterID := "" |}
  | Ok id => if slot then {| ac_Accepted := true; ac_Reason := ""; ac_ClusterID := Registry.id_ClusterID id |}
             else {| ac_Accepted := false; ac_Reason := "wstun: session limit reached"; ac_ClusterID := "" |}
  end.

Lemma clientHandshake_sent cfg hello sent rest sig answer :
  carried hello = true → writeMessage (Marshal hello) = Some sent → compatibleVersion (sh_ProtocolVersion hello) = true →
  length (sh_Nonce hello) = nonceLen → Sign sha256 (cc_sign cfg) (sh_Nonce hello) ProtocolVersion (cc_ClusterID cfg) [] = Some sig →
  writeMessage (Marshal (auth_of cfg sig)) = Some answer →
  clientHandshake cfg (sent ++ rest) = (answer, conclude_client cfg hello rest).
Proof.
  intros Hc Hs Hv Hn Hsig Ha. unfold clientHandshake. rewrite (read_as_sent _ _ _ Hc Hs), Hv, Hn, Nat.eqb_refl. cbn [negb]. by rewrite Hsig, Ha.
Qed.

Lemma judge_auth_cluster cfg nonce auth remote id : judge_auth cfg nonce auth remote = Ok id → Registry.id_ClusterID id = au_ClusterID auth.
Proof. intros (leaf & inter & ver & [_ _ [H1 H2]] & _)%judge_auth_Ok. congruence. Qed.

(** The identity an authority attests, as the tunnel knows it. *)
Definition attested (id : Ca.Identity) : Registry.Identity :=
  {| Registry.id_ClusterID := Ca.id_ClusterID id; Registry.id_CertSerial := Ca.id_CertSerial id; Registry.id_CertNotAfter := Ca.id_CertNotAfter id;
     Registry.id_RemoteAddr := ""; Registry.id_InstanceID := "" |}.
Definition HubAuthority (c : CA) (now : Z) (chain : list Certificate) : option Registry.Identity :=
  match VerifyChain c chain now with Ok id => Some (attested id) | Err _ => None end.

Lemma hex_digits_nonempty fuel n acc : acc ≠ "" → hex_digits fuel n acc ≠ "".
Proof. revert n acc. induction fuel as [|fuel IH]; intros n acc H; cbn [hex_digits]; [done|]. destruct (_ =? 0); [done|]. by apply IH. Qed.

Lemma SerialHex_nonempty n : SerialHex n ≠ "".
Proof. unfold SerialHex. cbn [hex_digits]. destruct (_ =? 0); [done|]. by apply hex_digits_nonempty. Qed.

Lemma completed_attested cluster leaf :
  let id := attested {| Ca.id_ClusterID := cluster; Ca.id_CertSerial := SerialHex (SerialNumber leaf); Ca.id_CertNotAfter := NotAfter leaf |} in
  completed id leaf = id.
Proof.
  intros id. unfold completed, id, attested. cbn -[SerialHex IsZero]. destruct (String.eqb_spec (SerialHex (SerialNumber leaf)) "") as [E|_]; [by apply SerialHex_nonempty in E|].
  by destruct (IsZero _).
Qed.

(** A spoke that presents a certificate the hub's authority attests, and holds its
key, is let in under that identity. *)
Lemma judge_auth_attested cfg c now nonce auth leaf remote t :
  sc_Verify cfg = HubAuthority c now → compatibleVersion (au_ProtocolVersion auth) = true → au_Chain auth = [Raw leaf] →
  ParseCertificate (Raw leaf) = Some leaf →
  VerifyChain c [leaf] now = Ok {| Ca.id_ClusterID := au_ClusterID auth; Ca.id_CertSerial := SerialHex (SerialNumber leaf); Ca.id_CertNotAfter := NotAfter leaf |} →
  (au_InstanceID auth = "" ∨ validInstanceID (au_InstanceID auth) = true) →
  (∀ revoked, sc_IsRevoked cfg = Some revoked → revoked (SerialHex (SerialNumber leaf)) = false) →
  cert_PublicKey leaf ≠ PubOther → Transcript nonce ProtocolVersion (au_ClusterID auth) [] = Ok t →
  verifies (cert_PublicKey leaf) (sha256 t) (au_Signature auth) = true →
  judge_auth cfg nonce auth remote =
  Ok {| Registry.id_ClusterID := au_ClusterID auth; Registry.id_CertSerial := SerialHex (SerialNumber leaf); Registry.id_CertNotAfter := NotAfter leaf;
        Registry.id_RemoteAddr := remote; Registry.id_InstanceID := au_InstanceID auth |}.
Proof.
  intros Hver Hv Hch Hparse Hchain Hinst Hrev Hpub Ht Hsig. unfold judge_auth. rewrite Hv, Hch. cbn [negb parse_chain]. rewrite Hparse. cbn [mbind option_bind].
  rewrite Hver. unfold HubAuthority. rewrite Hchain. cbn [mbind option_bind].
  assert (negb (String.eqb (au_InstanceID auth) "") && negb (validInstanceID (au_InstanceID auth)) = false) as ->.
  { destruct Hinst as [->|Hi]; [done|]. rewrite Hi. apply andb_false_r. }
  rewrite completed_attested. unfold attested. cbn [Ca.id_ClusterID Ca.id_CertSerial Ca.id_CertNotAfter].
  set (id1 := if String.eqb (au_InstanceID auth) "" then _ else _).
  assert (id1 = {| Registry.id_ClusterID := au_ClusterID auth; Registry.id_CertSerial := SerialHex (SerialNumber leaf); Registry.id_CertNotAfter := NotAfter leaf;
    Registry.id_RemoteAddr := ""; Registry.id_InstanceID := au_InstanceID auth |}) as -> by (unfold id1; by destruct (String.eqb_spec (au_InstanceID auth) "") as [->|]).
  cbn [Registry.id_ClusterID Registry.id_CertSerial].
  assert (match sc_IsRevoked cfg with Some revoked => revoked (SerialHex (SerialNumber leaf)) | None => false end = false) as ->
    by (destruct (sc_IsRevoked cfg); auto).
  unfold proof_Verify. rewrite Ht, Hsig. rewrite String.eqb_refl. cbn [negb]. by destruct (cert_PublicKey leaf).
Qed.

Lemma VerifyChain_identity c chain now id : VerifyChain c chain now = Ok id →
  ∃ leaf inter, chain = leaf :: inter ∧ id = {| Ca.id_ClusterID := Ca.id_ClusterID id; Ca.id_CertSerial := SerialHex (SerialNumber leaf); Ca.id_CertNotAfter := NotAfter leaf |}.
Proof.
  unfold VerifyChain. destruct chain as [|leaf inter]; [done|]. destruct (x509_Verify _ _ _ _); [|done]. unfold IdentityFromCert. intros H.
  exists leaf, inter. split; [done|]. destruct (URIs leaf) as [|u [|]]; try done. destruct (negb (String.eqb (url_Scheme u) "pmf")); [done|].
  destruct (_ || _); [done|]. destruct (negb _); [done|]. destruct (CutPrefix _ _); [|done]. destruct (negb _); [done|]. by injection H as <-.
Qed.

(** What the hub's authority attested is the identity the session carries. *)
Lemma proven_attested cfg c now nonce auth leaf inter ver id :
  sc_Verify cfg = HubAuthority c now → proven cfg nonce auth leaf inter ver id →
  VerifyChain c (leaf :: inter) now
  = Ok {| Ca.id_ClusterID := Registry.id_ClusterID id; Ca.id_CertSerial := Registry.id_CertSerial id; Ca.id_CertNotAfter := Registry.id_CertNotAfter id |}
  ∧ (Registry.id_InstanceID ver = "").
Proof.
  intros Hv [_ Ht [Hc _] Hs Hn _ _ _]. rewrite Hv in Ht. unfold HubAuthority in Ht. destruct (VerifyChain c (leaf :: inter) now) as [i|] eqn:E; [|done].
  injection Ht as <-. split; [|done]. destruct (VerifyChain_identity _ _ _ _ E) as (l & k & [= <- <-] & Hi). rewrite Hi in Hc, Hs, Hn |- *.
  rewrite completed_attested in Hs, Hn. by rewrite Hc, Hs, Hn.
Qed.

Lemma string_bytes_length s : length (string_bytes s) = String.length s.
Proof. unfold string_bytes. rewrite length_map. induction s as [|c s IH]; cbn; [done|]. by rewrite IH. Qed.

Lemma Transcript_exists nonce v cluster :
  Z.of_nat (length nonce) ≤ MaxFieldBytes → Z.of_nat (String.length v) ≤ MaxFieldBytes → Z.of_nat (String.length cluster) ≤ MaxFieldBytes → ∃ t, Transcript nonce v cluster [] = Ok t.
Proof.
  intros Hn Hv Hc. unfold Transcript. destruct (existsb _ _) eqn:E; [|by eexists].
  apply existsb_exists in E as (f & Hin & Hlt%Z.ltb_lt). exfalso. destruct Hin as [<-|[<-|[<-|[]]]]; rewrite ?string_bytes_length in Hlt; lia.
Qed.

Lemma ValidClusterID_length id : ValidClusterID id = true → (String.length id ≤ 63)%nat.
Proof.
  unfold ValidClusterID, dns_shaped. destruct id as [|c s]; [done|]. destruct (last_char _); [|done]. intros [_ H]%andb_true_iff. by apply Nat.leb_le.
Qed.

Lemma validInstanceID_length v : validInstanceID v = true → (String.length v ≤ maxInstanceIDLen)%nat.
Proof. unfold validInstanceID. intros [H _]%andb_true_iff. apply negb_true_iff, Nat.ltb_ge in H. done. Qed.

(** A message the peer gets as it was meant. *)
Definition deliverable {A} `{!MessageText A} (a : A) : Prop := carried a = true ∧ blen (Marshal a) ≤ maxHandshakeBytes.

Lemma deliverable_sent {A} `{!MessageText A} (a : A) : deliverable a → ∃ sent, writeMessage (Marshal a) = Some sent.
Proof. intros [_ H]. unfold writeMessage. destruct (Z.ltb_spec maxHandshakeBytes (blen (Marshal a))); [lia|eauto]. Qed.

(** C14: A hub lets a connection in only on proof, whatever the peer sends.  If
the exchange succeeds, the peer presented a chain that the hub's authority
verified at that moment, the session's cluster, serial and expiry are those of
its leaf, that serial is not revoked, the instance name is at most 128 bytes,
and the peer's signature over this connection's nonce and that cluster verifies
under the leaf's key.  A recording of such an answer is accepted for another
nonce only if its signature also verifies for a different transcript. *)
Theorem tunnel_admits_only_proven cfg c now nonce received remote sent id rest :
  sc_Verify cfg = HubAuthority c now → authenticate cfg (Some nonce) received remote = (sent, Ok (id, rest)) →
  ∃ leaf inter sig t,
    VerifyChain c (leaf :: inter) now
    = Ok {| Ca.id_ClusterID := Registry.id_ClusterID id; Ca.id_CertSerial := Registry.id_CertSerial id; Ca.id_CertNotAfter := Registry.id_CertNotAfter id |} ∧
    (∀ revoked, sc_IsRevoked cfg = Some revoked → revoked (Registry.id_CertSerial id) = false) ∧
    (String.length (Registry.id_InstanceID id) ≤ maxInstanceIDLen)%nat ∧
    Transcript nonce ProtocolVersion (Registry.id_ClusterID id) [] = Ok t ∧ verifies (cert_PublicKey leaf) (sha256 t) sig = true ∧
    ∀ cfg' nonce' remote' sent' id' rest', nonce' ≠ nonce → authenticate cfg' (Some nonce') received remote' = (sent', Ok (id', rest')) →
      ∃ t', t' ≠ t ∧ Transcript nonce' ProtocolVersion (Registry.id_ClusterID id) [] = Ok t' ∧ verifies (cert_PublicKey leaf) (sha256 t') sig = true.
Proof.
  intros Hv (n & auth & [= <-] & _ & Hread & Hj)%authenticate_Ok. apply judge_auth_Ok in Hj as (leaf & inter & ver & Hp & _ & _).
  destruct (proven_attested _ _ _ _ _ _ _ _ _ Hv Hp) as [Hchain Hnone]. destruct Hp as [Hparse _ [Hc1 Hc2] _ _ Hrev (t & Ht & Hsig) Hinst].
  exists leaf, inter, (au_Signature auth), t. rewrite Hc1, <- Hc2. rewrite Hc1, <- Hc2 in Hchain. split_and!; [done|done| |done|done|].
  - destruct Hinst as [[_ ->]|[-> Hi]]; [rewrite Hnone; cbn; lia|by apply validInstanceID_length].
  - intros cfg' nonce' remote' sent' id' rest' Hne (n & auth' & [= <-] & _ & Hread' & Hj')%authenticate_Ok.
    rewrite Hread in Hread'. injection Hread' as <- <-. apply judge_auth_Ok in Hj' as (leaf' & inter' & ver' & Hp' & _ & _).
    destruct Hp' as [Hparse' _ _ _ _ _ (t' & Ht' & Hsig') _]. rewrite Hparse in Hparse'. injection Hparse' as <- <-.
    exists t'. split_and!; [|done|done]. intros ->. by destruct (Transcript_same _ _ _ _ _ _ _ _ _ Ht Ht') as [-> _].
Qed.

(** C18: A spoke with a certificate of the fleet gets its tunnel.  If the
certificate was issued by an authority the hub trusts and has not expired, its
serial is not revoked, the spoke holds its key and claims the cluster it was
issued for, and the messages fit, then the bytes each side sends are accepted by
the other: the hub derives the certificate's identity, and the spoke learns the
replica it reached and how many there are. *)
Theorem issued_spoke_connects c c' csrDER issued serial pem leaf cfg ccfg nonce now remote :
  material_ok (ca_material c) → trustDomainRE (TrustDomain (ca_opts c)) = true →
  IssueSpokeFromCSR c csrDER (cc_ClusterID ccfg) issued serial = Ok (pem, Some leaf) →
  TrustDomain (ca_opts c') = TrustDomain (ca_opts c) → ca_Certificate c ∈ TrustBundle c' →
  Second ≤ SpokeCertTTL (ca_opts c) → NotBefore (ca_Certificate c) ≤ issued → issued ≤ now ≤ NotAfter leaf →
  sc_Verify cfg = HubAuthority c' now → (∀ revoked, sc_IsRevoked cfg = Some revoked → revoked (SerialHex (SerialNumber leaf)) = false) →
  cc_Chain ccfg = [Raw leaf] → (cc_InstanceID ccfg = "" ∨ validInstanceID (cc_InstanceID ccfg) = true) →
  (∀ d, ∃ s, cc_sign ccfg d = Some s ∧ verifies (cert_PublicKey leaf) d s = true) → length nonce = nonceLen →
  deliverable (hello_of cfg nonce) → (∀ t sig, cc_sign ccfg (sha256 t) = Some sig → deliverable (auth_of ccfg sig)) →
  (∀ id, Registry.id_ClusterID id = cc_ClusterID ccfg → deliverable (accept_for (Ok id) true)) →
  ∃ hello answer accept id,
    authenticate cfg (Some nonce) answer remote = (hello, Ok (id, [])) ∧ writeMessage (Marshal (accept_for (Ok id) true)) = Some accept ∧
    clientHandshake ccfg (hello ++ accept) = (answer, Ok {| hi_ServerID := sc_ServerID cfg; hi_Replicas := sh_Replicas (hello_of cfg nonce) |}) ∧
    id = {| Registry.id_ClusterID := cc_ClusterID ccfg; Registry.id_CertSerial := SerialHex (SerialNumber leaf); Registry.id_CertNotAfter := NotAfter leaf;
            Registry.id_RemoteAddr := remote; Registry.id_InstanceID := cc_InstanceID ccfg |}.
Proof.
  intros Hm Htd Hissue Htd' Hin Httl Hnb Ht Hver Hrev Hchain Hinst Hkey Hnonce Hhello Hauth Hacc.
  destruct (IssueSpokeFromCSR_leaf _ _ _ _ _ _ _ Hm Htd Hissue) as (l & [= <-] & _ & Hparse & Hvalid & _ & _ & _ & _ & _ & _ & _ & _ & Hpub & _).
  destruct (issued_window c c' _ _ _ _ _ _ Hm Htd Hissue Htd' Hin Httl Hnb) as (_ & Hident & Hx).
  destruct (Transcript_exists nonce ProtocolVersion (cc_ClusterID ccfg)) as [t Htr];
    [by rewrite Hnonce|done|pose proof (ValidClusterID_length _ Hvalid); change MaxFieldBytes with 65536; lia|].
  destruct (Hkey (sha256 t)) as (sig & Hsign & Hverifies). destruct (deliverable_sent _ Hhello) as [hello Hh]. destruct (deliverable_sent _ (Hauth t sig Hsign)) as [answer Ha].
  set (id := {| Registry.id_ClusterID := cc_ClusterID ccfg; Registry.id_CertSerial := SerialHex (SerialNumber leaf); Registry.id_CertNotAfter := NotAfter leaf;
    Registry.id_RemoteAddr := remote; Registry.id_InstanceID := cc_InstanceID ccfg |}).
  destruct (deliverable_sent _ (Hacc id eq_refl)) as [accept Hac]. exists hello, answer, accept, id. split_and!; [|done| |done].
  - unfold authenticate. rewrite Hh. f_equal. rewrite <- (app_nil_r answer), (read_as_sent _ _ _ (proj1 (Hauth t sig Hsign)) Ha). cbn [mbind result_bind].
    rewrite (judge_auth_attested cfg c' now nonce (auth_of ccfg sig) leaf remote t); try done.
    + unfold VerifyChain. by rewrite Hx.
    + intros E. by rewrite E in Hpub.
  - assert (Sign sha256 (cc_sign ccfg) (sh_Nonce (hello_of cfg nonce)) ProtocolVersion (cc_ClusterID ccfg) [] = Some sig) as Hs
      by (unfold Sign; cbn [sh_Nonce hello_of]; by rewrite Htr).
    rewrite (clientHandshake_sent ccfg _ _ accept sig answer (proj1 Hhello) Hh eq_refl Hnonce Hs Ha).
    f_equal. unfold conclude_client. rewrite <- (app_nil_r accept), (read_as_sent _ _ _ (proj1 (Hacc id eq_refl)) Hac). cbn [mbind result_bind accept_for ac_Accepted ac_ClusterID negb].
    unfold id. cbn [Registry.id_ClusterID]. rewrite String.eqb_refl. cbn [negb]. by rewrite andb_false_r.
Qed.

End exchange.

(** * The handler of the hub *)

(** [net.SplitHostPort] succeeds. *)
Fixpoint LastIndexByte (s : string) (c : ascii) : option nat :=
  match s with
  | EmptyString => None
  | String a s => match LastIndexByte s c with Some i => Some (S i) | None => if Ascii.eqb a c then Some O else None end
  end.
Definition SplitHostPort (s : string) : bool :=
  match LastIndexByte s ":"%char with
  | None => false
  | Some i =>
    match s with
    | String "["%char _ =>
      match IndexByte s "]"%char with
      | None => false
      | Some e =>
        (S e =? i)%nat && negb (str_exists (Ascii.eqb "["%char) (str_drop 1 s)) && negb (str_exists (Ascii.eqb "]"%char) (str_drop (S e) s))
      end
    | _ => negb (str_exists (Ascii.eqb ":"%char) (str_take i s)) && negb (str_exists (Ascii.eqb "["%char) s) && negb (str_exists (Ascii.eqb "]"%char) s)
    end
  end.

(** A parsed endpoint. *)
Record EndpointURL := { eu_Scheme : string; eu_User : bool; eu_Host : string; eu_Path : string; eu_RawQuery : string; eu_Fragment : string }.

(** [parse] is [url.Parse]; what is dialled is the URL returned. *)
Definition NormalizeEndpoint (parse : string → option EndpointURL) (endpoint : string) : option EndpointURL :=
  let raw := TrimSpace endpoint in
  if String.eqb raw "" then None
  else
    raw ← (if str_Contains raw "://" then Some raw
           else if ContainsAny raw ["/"; "?"; "#"]%char then None
           else if negb (SplitHostPort raw) then None
           else Some ("wss://" +:+ raw));
    u ← parse raw;
    scheme ← (if String.eqb (eu_Scheme u) "wss" || String.eqb (eu_Scheme u) "https" then Some "wss"
              else if String.eqb (eu_Scheme u) "ws" || String.eqb (eu_Scheme u) "http" then Some "ws"
              else None);
    if String.eqb (eu_Host u) "" then None
    else if eu_User u then None
    else if negb (String.eqb (eu_RawQuery u) "") || negb (String.eqb (eu_Fragment u) "") then None
    else Some {| eu_Scheme := scheme; eu_User := false; eu_Host := eu_Host u;
                 eu_Path := if String.eqb (eu_Path u) "" || String.eqb (eu_Path u) "/" then DefaultPath else eu_Path u;
                 eu_RawQuery := ""; eu_Fragment := "" |}.

(** The values of [Sec-WebSocket-Protocol]. *)
Definition requestsSubprotocol (values : list string) : bool :=
  existsb (λ v, existsb (λ tok, EqualFold Subprotocol (TrimSpace tok)) (SplitByte v ","%char)) values.

Definition remoteAddr (fwd peer : string) : string :=
  if String.eqb fwd "" then peer
  else
    let first := TrimSpace (match IndexByte fwd ","%char with Some i => str_take i fwd | None => fwd end) in
    if String.eqb first "" then peer else first.

(** The limits of a server; [Verify] is always given. *)
Definition NewServer (cfg : ServerConfig) : option (Z * Z) :=
  if sc_MaxSessions cfg <? 0 then None
  else if sc_MaxPendingHandshakes cfg <? 0 then None
  else Some (sc_MaxSessions cfg, if sc_MaxPendingHandshakes cfg =? 0 then defaultMaxPendingHandshakes else sc_MaxPendingHandshakes cfg).

(** The spoke normalises an endpoint and [Dial] normalises what came of it; the
second time changes nothing, [to_string] being [URL.String]. *)
Lemma NormalizeEndpoint_again parse (to_string : EndpointURL → string) endpoint u :
  NormalizeEndpoint parse endpoint = Some u → parse (to_string u) = Some u → TrimSpace (to_string u) = to_string u →
  str_Contains (to_string u) "://" = true → NormalizeEndpoint parse (to_string u) = Some u.
Proof.
  intros Hn Hp Ht Hc.
  assert (∃ scheme v, (scheme = "wss" ∨ scheme = "ws") ∧ eu_Host v ≠ "" ∧ u = {| eu_Scheme := scheme; eu_User := false; eu_Host := eu_Host v;
    eu_Path := if String.eqb (eu_Path v) "" || String.eqb (eu_Path v) "/" then DefaultPath else eu_Path v; eu_RawQuery := ""; eu_Fragment := "" |}) as (scheme & v & Hs & Hh & Hu).
  { unfold NormalizeEndpoint in Hn. destruct (String.eqb _ _); [done|]. destruct (if str_Contains _ _ then _ else _) as [raw|]; cbn [mbind option_bind] in Hn; [|done].
    destruct (parse raw) as [v|]; cbn [mbind option_bind] in Hn; [|done].
    destruct (if String.eqb (eu_Scheme v) "wss" || _ then _ else _) as [scheme|] eqn:Hs; cbn [mbind option_bind] in Hn; [|done].
    destruct (String.eqb_spec (eu_Host v) ""); [done|]. destruct (eu_User v); [done|]. destruct (_ || _) eqn:Hq in Hn; [done|]. injection Hn as <-.
    exists scheme, v. split_and!; [|done|done]. clear -Hs. destruct (_ || _) in Hs; [injection Hs; auto|]. destruct (_ || _) in Hs; [injection Hs; auto|done]. }
  unfold NormalizeEndpoint. rewrite Ht. destruct (String.eqb_spec (to_string u) "") as [E|_]; [by rewrite E in Hc|]. rewrite Hc. cbn [mbind option_bind]. rewrite Hp. cbn [mbind option_bind].
  subst u. cbn [eu_Scheme eu_Host eu_User eu_Path eu_RawQuery eu_Fragment].
  destruct (String.eqb_spec (eu_Host v) ""); [done|]. destruct Hs as [-> | ->]; cbn; do 3 f_equal;
    destruct (String.eqb_spec (eu_Path v) ""), (String.eqb_spec (eu_Path v) "/"); cbn; try done;
    (destruct (String.eqb_spec (eu_Path v) ""); [done|]); (destruct (String.eqb_spec (eu_Path v) "/"); [done|]); done.
Qed.

(** How a request of a spoke ended. *)
Inductive HandlerEnd :=
| EndFull | EndNoSubprotocol | EndBusy | EndNotUpgraded | EndRefused (e : hs_error) | EndTooManySessions | EndAcceptUnsent | EndUnadopted | EndClosed.

(** Where a request is in [serveHTTP]. *)
Inductive ConnPhase :=
| CChecked
| CAsked
| CUpgrading
| CHandshaking
| CProven (id : Registry.Identity)
| CLoaded (id : Registry.Identity) (n : Z)
| CReserved (id : Registry.Identity)
| COffering (id : Registry.Identity)
| CServing (id : Registry.Identity)
| CReturned (how : HandlerEnd).

Record Conn := { cn_remote : string; cn_phase : ConnPhase }.

Record Server := { sv_sessions : Z; sv_pending : Z; sv_conns : gmap nat Conn }.

Definition holds_pending (c : Conn) : bool :=
  match cn_phase c with CUpgrading | CHandshaking | CProven _ | CLoaded _ _ | CReserved _ => true | _ => false end.
Definition holds_session (c : Conn) : bool :=
  match cn_phase c with CReserved _ | COffering _ | CServing _ => true | _ => false end.
Definition identity_of (c : Conn) : option Registry.Identity :=
  match cn_phase c with CProven id | CLoaded id _ | CReserved id | COffering id | CServing id => Some id | _ => None end.

(** The steps of requests: a look at a counter, a word of the peer or of the
libraries each. *)
Inductive serve_label :=
| VArrive (i : nat) (fwd peer : string)
| VAsk (i : nat) (protocols : list string)
| VPend (i : nat)
| VUpgrade (i : nat) (ok : bool)
| VAuth (i : nat) (cfg : ServerConfig) (nonce : option (list byte)) (received : list byte)
| VLoad (i : nat)
| VSwap (i : nat)
| VAccept (i : nat) (ok : bool)
| VOffer (i : nat) (adopted : bool)
| VDone (i : nat).

Section server.
Context `{X : X509} `{!MessageText serverHello, !MessageText clientAuth, !MessageText serverAccept}.
Context (sha256 : list byte → list byte) (verifies : PublicKey → list byte → list byte → bool).
Context (MaxSessions MaxPending : Z).

Definition atSessionLimit (s : Server) : bool := (0 <? MaxSessions) && (MaxSessions <=? sv_sessions s).

Definition put_conn (i : nat) (c : Conn) (ph : ConnPhase) (sessions pending : Z) (s : Server) : Server :=
  {| sv_sessions := sv_sessions s + sessions; sv_pending := sv_pending s + pending;
     sv_conns := <[i := {| cn_remote := cn_remote c; cn_phase := ph |}]> (sv_conns s) |}.

Definition serve_exec (l : serve_label) (s : Server) : option Server :=
  match l with
  | VArrive i fwd peer =>
    match sv_conns s !! i with
    | Some _ => None
    | None => Some (put_conn i {| cn_remote := remoteAddr fwd peer; cn_phase := CChecked |} (if atSessionLimit s then CReturned EndFull else CChecked) 0 0 s)
    end
  | VAsk i protocols =>
    c ← sv_conns s !! i;
    match cn_phase c with
    | CChecked => Some (put_conn i c (if requestsSubprotocol protocols then CAsked else CReturned EndNoSubprotocol) 0 0 s)
    | _ => None
    end
  | VPend i =>
    c ← sv_conns s !! i;
    match cn_phase c with
    | CAsked => Some (if sv_pending s <? MaxPending then put_conn i c CUpgrading 0 1 s else put_conn i c (CReturned EndBusy) 0 0 s)
    | _ => None
    end
  | VUpgrade i ok =>
    c ← sv_conns s !! i;
    match cn_phase c with
    | CUpgrading => Some (if ok then put_conn i c CHandshaking 0 0 s else put_conn i c (CReturned EndNotUpgraded) 0 (-1) s)
    | _ => None
    end
  | VAuth i cfg nonce received =>
    c ← sv_conns s !! i;
    match cn_phase c with
    | CHandshaking =>
      Some (match (authenticate sha256 verifies cfg nonce received (cn_remote c)).2 with
            | Ok (id, _) => put_conn i c (CProven id) 0 0 s
            | Err e => put_conn i c (CReturned (EndRefused e)) 0 (-1) s
            end)
    | _ => None
    end
  | VLoad i =>
    c ← sv_conns s !! i;
    match cn_phase c with
    | CProven id =>
      Some (if MaxSessions <=? 0 then put_conn i c (CReserved id) 1 0 s
            else if MaxSessions <=? sv_sessions s then put_conn i c (CReturned EndTooManySessions) 0 (-1) s
            else put_conn i c (CLoaded id (sv_sessions s)) 0 0 s)
    | _ => None
    end
  | VSwap i =>
    c ← sv_conns s !! i;
    match cn_phase c with
    | CLoaded id n => Some (if sv_sessions s =? n then put_conn i c (CReserved id) 1 0 s else put_conn i c (CProven id) 0 0 s)
    | _ => None
    end
  | VAccept i ok =>
    c ← sv_conns s !! i;
    match cn_phase c with
    | CReserved id => Some (if ok then put_conn i c (COffering id) 0 (-1) s else put_conn i c (CReturned EndAcceptUnsent) (-1) (-1) s)
    | _ => None
    end
  | VOffer i adopted =>
    c ← sv_conns s !! i;
    match cn_phase c with
    | COffering id => Some (if adopted then put_conn i c (CServing id) 0 0 s else put_conn i c (CReturned EndUnadopted) (-1) 0 s)
    | _ => None
    end
  | VDone i =>
    c ← sv_conns s !! i;
    match cn_phase c with
    | CServing _ => Some (put_conn i c (CReturned EndClosed) (-1) 0 s)
    | _ => None
    end
  end.

Fixpoint serve_run (ls : list serve_label) (s : Server) : option Server :=
  match ls with [] => Some s | l :: ls => s ← serve_exec l s; serve_run ls s end.

Definition new_server : Server := {| sv_sessions := 0; sv_pending := 0; sv_conns := ∅ |}.

(** ** The limits hold *)

Record serve_ok (s : Server) : Prop := {
  so_sessions : sv_sessions s = map_count holds_session (sv_conns s);
  so_pending : sv_pending s = map_count holds_pending (sv_conns s);
  so_max_sessions : 0 < MaxSessions → sv_sessions s ≤ MaxSessions;
  so_max_pending : sv_pending s ≤ MaxPending;
  so_loaded : ∀ i c id n, sv_conns s !! i = Some c → cn_phase c = CLoaded id n → 0 < MaxSessions ∧ n < MaxSessions
}.

Definition slot (b : bool) : Z := if b then 1 else 0.

(** A step of one request that accounts for what it takes and returns. *)
Lemma serve_ok_step i c ph ds dp s :
  serve_ok s → sv_conns s !! i = Some c →
  ds = slot (holds_session {| cn_remote := cn_remote c; cn_phase := ph |}) - slot (holds_session c) →
  dp = slot (holds_pending {| cn_remote := cn_remote c; cn_phase := ph |}) - slot (holds_pending c) →
  (0 < MaxSessions → sv_sessions s + ds ≤ MaxSessions) → sv_pending s + dp ≤ MaxPending →
  (∀ id n, ph = CLoaded id n → 0 < MaxSessions ∧ n < MaxSessions) → serve_ok (put_conn i c ph ds dp s).
Proof.
  intros [Hs Hp Hms Hmp Hl] Hi -> -> Hms' Hmp' Hl'. split; cbn [put_conn sv_sessions sv_pending sv_conns]; try done.
  - rewrite (map_count_move _ _ _ _ _ Hi), Hs. unfold slot. lia.
  - rewrite (map_count_move _ _ _ _ _ Hi), Hp. unfold slot. lia.
  - intros j d id n. destruct (decide (j = i)) as [->|Hj]; [|rewrite lookup_insert_ne by done; apply Hl].
    rewrite lookup_insert_eq. intros [= <-]. cbn. apply Hl'.
Qed.

Ltac simplify_phase := match goal with H : cn_phase _ = _ |- _ => rewrite H end; cbn.
Ltac account := eapply serve_ok_step; [eassumption|eassumption|unfold holds_session, slot; by simplify_phase|unfold holds_pending, slot; by simplify_phase|lia|lia|try done; try (intros ? ? [= <- <-]; lia)].

Lemma serve_exec_ok l s s' : 0 ≤ MaxPending → serve_ok s → serve_exec l s = Some s' → serve_ok s'.
Proof.
  intros Hcap Hok. pose proof Hok as [Hs Hp Hms Hmp Hl].
  destruct l as [i fwd peer|i ps|i|i ok|i cfg nonce received|i|i|i ok|i ad|i]; cbn [serve_exec];
    (destruct (sv_conns s !! i) as [c|] eqn:Hi; cbn [mbind option_bind]; [|try done]); try done.
  { intros [= <-]. split; cbn [put_conn sv_sessions sv_pending sv_conns]; try done.
    - rewrite map_count_new by done. destruct (atSessionLimit s); cbn; lia.
    - rewrite map_count_new by done. destruct (atSessionLimit s); cbn; lia.
    - lia.
    - lia.
    - intros j d id n. destruct (decide (j = i)) as [->|Hj]; [|rewrite lookup_insert_ne by done; apply Hl].
      rewrite lookup_insert_eq. intros [= <-]. by destruct (atSessionLimit s). }
  all: destruct (cn_phase c) as [| | | |id|id n|id|id|id|how] eqn:Hph; try done; intros [= <-].
  - destruct (requestsSubprotocol ps); account.
  - destruct (Z.ltb_spec (sv_pending s) MaxPending); account.
  - destruct ok; account.
  - destruct (authenticate _ _ _ _ _ _) as [? [[id rest]|e]]; cbn [snd]; account.
  - destruct (Z.leb_spec MaxSessions 0); [account|]. destruct (Z.leb_spec MaxSessions (sv_sessions s)); account.
  - destruct (Hl _ _ _ _ Hi Hph). destruct (Z.eqb_spec (sv_sessions s) n); account.
  - destruct ok; account.
  - destruct ad; account.
  - account.
Qed.

Lemma serve_run_ok ls s s' : 0 ≤ MaxPending → serve_ok s → serve_run ls s = Some s' → serve_ok s'.
Proof.
  intros Hcap. revert s. induction ls as [|l ls IH]; intros s Hok; cbn [serve_run]; [by intros [= <-]|].
  destruct (serve_exec l s) as [s1|] eqn:E; cbn [mbind option_bind]; [|done]. apply IH. by eapply serve_exec_ok.
Qed.

Lemma new_server_ok : 0 ≤ MaxPending → serve_ok new_server.
Proof. intros H. split; cbn; try done. lia. Qed.

(** ** Who is served *)

(** A step that leaves a request with an identity found it with that identity or
is the exchange that proved it. *)
Lemma identity_origin l s s' i c id : serve_exec l s = Some s' → sv_conns s' !! i = Some c → identity_of c = Some id →
  (∃ c0, sv_conns s !! i = Some c0 ∧ identity_of c0 = Some id ∧ cn_remote c0 = cn_remote c) ∨
  ∃ cfg nonce received sent rest, l = VAuth i cfg nonce received ∧ authenticate sha256 verifies cfg nonce received (cn_remote c) = (sent, Ok (id, rest)).
Proof.
  intros He Hc Hid.
  assert (∀ j c0 ph ds dp, s' = put_conn j c0 ph ds dp s → sv_conns s !! j = Some c0 ∨ sv_conns s !! j = None →
    (j = i → identity_of {| cn_remote := cn_remote c0; cn_phase := ph |} = Some id → sv_conns s !! i = Some c0 ∧ identity_of c0 = Some id) →
    ∃ c0, sv_conns s !! i = Some c0 ∧ identity_of c0 = Some id ∧ cn_remote c0 = cn_remote c) as Hsame.
  { intros j c0 ph ds dp -> _ Hj. cbn [put_conn sv_conns] in Hc. destruct (decide (j = i)) as [->|Hji].
    - rewrite lookup_insert_eq in Hc. injection Hc as <-. exists c0. by destruct (Hj eq_refl Hid).
    - rewrite lookup_insert_ne in Hc by done. by exists c. }
  destruct l as [j fwd peer|j ps|j|j ok|j cfg nonce received|j|j|j ok|j ad|j]; cbn [serve_exec] in He;
    (destruct (sv_conns s !! j) as [c0|] eqn:Hj; cbn [mbind option_bind] in He; [|try done]); try done.
  { injection He as <-. left. eapply Hsame; [done|by right|]. intros _. by destruct (atSessionLimit s). }
  all: destruct (cn_phase c0) as [| | | |id0|id0 n|id0|id0|id0|how] eqn:Hph; try done; injection He as Hs'.
  4: { destruct (authenticate sha256 verifies cfg nonce received (cn_remote c0)) as [sent [[id1 rest]|e]] eqn:Ha; cbn [snd] in Hs'.
    - destruct (decide (j = i)) as [->|Hji].
      + subst s'. cbn [put_conn sv_conns] in Hc. rewrite lookup_insert_eq in Hc. injection Hc as <-. cbn in Hid. injection Hid as ->.
        right. by exists cfg, nonce, received, sent, rest.
      + left. subst s'. eapply Hsame; [done|by left|done].
    - left. subst s'. eapply Hsame; [done|by left|done]. }
  all: left; repeat match type of Hs' with (if ?b then _ else _) = _ => destruct b end; subst s'; (eapply Hsame; [done|by left|]);
    intros ->; try (by destruct (requestsSubprotocol ps)); cbn [identity_of cn_phase]; try done; intros [= <-]; (split; [done|]); unfold identity_of; by rewrite Hph.
Qed.

Lemma identity_proven ls s s' i c id : serve_run ls s = Some s' → sv_conns s' !! i = Some c → identity_of c = Some id →
  (∃ c0, sv_conns s !! i = Some c0 ∧ identity_of c0 = Some id ∧ cn_remote c0 = cn_remote c) ∨
  ∃ ls1 ls2 cfg nonce received sent rest, ls = (ls1 ++ VAuth i cfg nonce received :: ls2)%list ∧
    authenticate sha256 verifies cfg nonce received (cn_remote c) = (sent, Ok (id, rest)).
Proof.
  revert s. induction ls as [|l ls IH]; intros s; cbn [serve_run]; [intros [= ->] Hc Hid; left; by exists c|].
  destruct (serve_exec l s) as [s1|] eqn:E; cbn [mbind option_bind]; [|done]. intros Hr Hc Hid.
  destruct (IH _ Hr Hc Hid) as [(c0 & H0 & Hid0 & Hr0)|(ls1 & ls2 & cfg & nonce & received & sent & rest & -> & Ha)].
  - destruct (identity_origin _ _ _ _ _ _ E H0 Hid0) as [(c1 & H1 & Hid1 & Hr1)|(cfg & nonce & received & sent & rest & -> & Ha)].
    + left. exists c1. split_and!; congruence.
    + right. exists [], ls, cfg, nonce, received, sent, rest. split; [done|congruence].
  - right. by exists (l :: ls1), ls2, cfg, nonce, received, sent, rest.
Qed.

(** C17: In any interleaving of requests, whatever peers and libraries do, the
hub's two limits hold: at most the configured number of handshakes is under way
and at most the configured number of sessions exists, both counters are exact,
so that both are zero once every request has returned, and a session that is
served no longer counts as a handshake.  Every request that got past the
exchange, and so every session, is under an identity that an exchange of that
very request proved. *)
Theorem tunnel_limits cfg ls s :
  NewServer cfg = Some (MaxSessions, MaxPending) → serve_run ls new_server = Some s →
  0 ≤ sv_pending s ≤ MaxPending ∧ 0 ≤ sv_sessions s ∧ (0 < MaxSessions → sv_sessions s ≤ MaxSessions) ∧
  sv_pending s = map_count holds_pending (sv_conns s) ∧ sv_sessions s = map_count holds_session (sv_conns s) ∧
  ((∀ i c, sv_conns s !! i = Some c → ∃ how, cn_phase c = CReturned how) → sv_sessions s = 0 ∧ sv_pending s = 0) ∧
  ∀ i c id, sv_conns s !! i = Some c → identity_of c = Some id →
    ∃ ls1 ls2 view nonce received sent rest, ls = (ls1 ++ VAuth i view nonce received :: ls2)%list ∧
      authenticate sha256 verifies view nonce received (cn_remote c) = (sent, Ok (id, rest)).
Proof.
  intros Hnew Hr. assert (0 ≤ MaxPending) as Hcap.
  { unfold NewServer in Hnew. destruct (_ <? 0); [done|]. destruct (Z.ltb_spec (sc_MaxPendingHandshakes cfg) 0); [done|]. injection Hnew as _ <-. destruct (_ =? 0); [done|lia]. }
  destruct (serve_run_ok _ _ _ Hcap (new_server_ok Hcap) Hr) as [Hs Hp Hms Hmp _].
  pose proof (map_count_nonneg holds_pending (sv_conns s)). pose proof (map_count_nonneg holds_session (sv_conns s)).
  split_and!; try done; try lia.
  - intros Hall. rewrite Hs, Hp. split; apply map_count_zero; intros i c Hi; destruct (Hall i c Hi) as [how Hh];
      unfold holds_session, holds_pending; by rewrite Hh.
  - intros i c id Hi Hid. destruct (identity_proven _ _ _ _ _ _ Hr Hi Hid) as [(c0 & Hc0 & _)|Hfound]; [done|exact Hfound].
Qed.

(** A request that has not returned can go on. *)
Lemma serve_progress s i c : sv_conns s !! i = Some c → (∃ how, cn_phase c = CReturned how) ∨ ∃ l s', serve_exec l s = Some s' ∧ s' ≠ s.
Proof.
  intros Hi. destruct (cn_phase c) as [| | | |id|id n|id|id|id|how] eqn:Hph; [..|left; by exists how]; right;
    [exists (VAsk i [])|exists (VPend i)|exists (VUpgrade i false)|exists (VAuth i {| sc_Verify := λ _, None; sc_IsRevoked := None; sc_MaxSessions := 0; sc_Replicas := None; sc_ServerID := ""; sc_MaxPendingHandshakes := 0 |} None [])
    |exists (VLoad i)|exists (VSwap i)|exists (VAccept i false)|exists (VOffer i false)|exists (VDone i)];
    cbn [serve_exec]; rewrite Hi; cbn [mbind option_bind]; rewrite Hph; cbn [authenticate snd];
    repeat match goal with |- context [if ?b then _ else _] => destruct b end;
    (eexists; split; [done|]); intros E; apply (f_equal (λ s, cn_phase <$> sv_conns s !! i)) in E; cbn [put_conn sv_conns] in E;
    rewrite lookup_insert_eq, Hi in E; cbn in E; rewrite Hph in E; done.
Qed.

End server.

(** * Witnesses *)

(** A text of bits, a byte each. *)
Fixpoint pos_bytes (p : positive) : list byte :=
  match p with xH => [x02] | xO p => x00 :: pos_bytes p | xI p => x01 :: pos_bytes p end.
Fixpoint bytes_pos (b : list byte) : option positive :=
  match b with
  | x00 :: b => xO <$> bytes_pos b
  | x01 :: b => xI <$> bytes_pos b
  | [x02] => Some xH
  | _ => None
  end.

Lemma bytes_pos_bytes p : bytes_pos (pos_bytes p) = Some p.
Proof. induction p as [p IH|p IH|]; cbn; by rewrite ?IH. Qed.

#[local, refine] Instance countable_text `{Countable A} : MessageText A :=
  {| Marshal a := pos_bytes (encode a); Unmarshal b := bytes_pos b ≫= decode; carried _ := true |}.
Proof.
  - intros a. by destruct (encode a).
  - intros a _. rewrite bytes_pos_bytes. apply decode_encode.
Defined.

#[local] Instance byte_eq : EqDecision byte := byte_eq_dec.
#[local, refine] Instance byte_countable : Countable byte := inj_countable Byte.to_N Byte.of_N _.
Proof. apply Byte.of_to_N. Defined.

#[local] Instance serverHello_eq : EqDecision serverHello.
Proof. solve_decision. Defined.
#[local, refine] Instance serverHello_countable : Countable serverHello :=
  inj_countable' (λ h, (sh_Nonce h, sh_ProtocolVersion h, sh_ServerID h, sh_Replicas h)) (λ '(n, v, i, r), Build_serverHello n v i r) _.
Proof. by intros []. Defined.
(** Answers with one known chain, which is not repeated. *)
#[local, refine] Instance clientAuth_text : MessageText clientAuth :=
  {| Marshal a := pos_bytes (encode (au_Signature a, au_ClusterID a, au_AgentVersion a, au_InstanceID a, au_ProtocolVersion a));
     Unmarshal b := '(s, i, a, n, v) ← bytes_pos b ≫= decode; Some (Build_clientAuth [Raw (default no_cert toy_leaf)] s i a n v);
     carried a := bool_decide (au_Chain a = [Raw (default no_cert toy_leaf)]) |}.
Proof.
  - intros a. by destruct (encode _).
  - intros [c s i a n v] Hc%bool_decide_eq_true. rewrite bytes_pos_bytes. cbn [mbind option_bind]. rewrite decode_encode. cbn in *. by rewrite Hc.
Defined.

#[local] Instance serverAccept_eq : EqDecision serverAccept.
Proof. solve_decision. Defined.
#[local, refine] Instance serverAccept_countable : Countable serverAccept :=
  inj_countable' (λ a, (ac_Accepted a, ac_Reason a, ac_ClusterID a)) (λ '(a, r, c), Build_serverAccept a r c) _.
Proof. by intros []. Defined.

(** A hash that tells even lengths from odd ones, and signatures that repeat the
digest. *)
Definition toy_hash (t : list byte) : list byte := [if Nat.even (length t) then x00 else x01].
Definition toy_verifies (_ : PublicKey) (d s : list byte) : bool := bool_decide (d = s).
Definition toy_nonce : list byte := replicate nonceLen x07.
Definition toy_tunnel_cfg : ServerConfig :=
  {| sc_Verify := HubAuthority toy_new (toy_now + Hour); sc_IsRevoked := Some (λ s, String.eqb s "8"); sc_MaxSessions := 1; sc_Replicas := Some 3;
     sc_ServerID := "hub-0"; sc_MaxPendingHandshakes := 1 |}.
Definition toy_client_cfg : ClientConfig :=
  {| cc_Chain := [Raw (default no_cert toy_leaf)]; cc_sign := Some; cc_ClusterID := "c1"; cc_AgentVersion := "1"; cc_InstanceID := "pod-1" |}.

Notation toy_authenticate := (authenticate toy_hash toy_verifies).
Definition toy_hello_bytes : list byte := default [] (writeMessage (Marshal (hello_of toy_tunnel_cfg toy_nonce))).
Definition toy_answer : list byte := (clientHandshake toy_hash toy_client_cfg toy_hello_bytes).1.
Definition toy_session : Registry.Identity :=
  {| Registry.id_ClusterID := "c1"; Registry.id_CertSerial := "7"; Registry.id_CertNotAfter := NotAfter (default no_cert toy_leaf);
     Registry.id_RemoteAddr := "10.0.0.1"; Registry.id_InstanceID := "pod-1" |}.

Lemma toy_admitted : toy_authenticate toy_tunnel_cfg (Some toy_nonce) toy_answer "10.0.0.1" = (toy_hello_bytes, Ok (toy_session, [])).
Proof. vm_compute. reflexivity. Qed.

Lemma tunnel_admits_only_proven_witness :
  ∃ leaf inter, VerifyChain toy_new (leaf :: inter) (toy_now + Hour)
    = Ok {| Ca.id_ClusterID := "c1"; Ca.id_CertSerial := "7"; Ca.id_CertNotAfter := NotAfter (default no_cert toy_leaf) |}.
Proof.
  destruct (tunnel_admits_only_proven toy_hash toy_verifies toy_tunnel_cfg toy_new (toy_now + Hour) toy_nonce toy_answer "10.0.0.1" toy_hello_bytes toy_session []
    eq_refl toy_admitted) as (leaf & inter & _ & _ & H & _). by exists leaf, inter.
Defined.

Lemma toy_deliverable {A} `{!MessageText A} (a : A) : carried a = true → (blen (Marshal a) <=? maxHandshakeBytes) = true → deliverable a.
Proof. intros Hc Hl. split; [done|]. by apply Z.leb_le. Qed.

Definition toy_pem : string := match IssueSpokeFromCSR toy_old "k" "c1" toy_now (Some 7) with Ok (p, _) => p | Err _ => "" end.

Lemma toy_leaf_issued : IssueSpokeFromCSR toy_old "k" "c1" toy_now (Some 7) = Ok (toy_pem, Some (default no_cert toy_leaf)).
Proof. vm_compute. reflexivity. Qed.

Lemma issued_spoke_connects_witness :
  ∃ hello answer accept id, toy_authenticate toy_tunnel_cfg (Some toy_nonce) answer "10.0.0.1" = (hello, Ok (id, [])) ∧
    clientHandshake toy_hash toy_client_cfg (hello ++ accept) = (answer, Ok {| hi_ServerID := "hub-0"; hi_Replicas := 3 |}).
Proof.
  destruct (issued_spoke_connects toy_hash toy_verifies toy_old toy_new "k" toy_now (Some 7) toy_pem (default no_cert toy_leaf) toy_tunnel_cfg toy_client_cfg toy_nonce
    (toy_now + Hour) "10.0.0.1" toy_old_ok) as (hello & answer & accept & id & Ha & _ & Hc & _).
  - vm_compute. reflexivity.
  - exact toy_leaf_issued.
  - vm_compute. reflexivity.
  - apply (bool_decide_unpack _). vm_compute. exact I.
  - vm_compute. discriminate.
  - vm_compute. discriminate.
  - split; vm_compute; discriminate.
  - reflexivity.
  - intros revoked [= <-]. vm_compute. reflexivity.
  - reflexivity.
  - right. vm_compute. reflexivity.
  - intros d. exists d. split; [reflexivity|]. by apply bool_decide_eq_true.
  - reflexivity.
  - apply toy_deliverable; vm_compute; reflexivity.
  - intros t sig. cbn [cc_sign toy_client_cfg]. intros [= <-]. unfold toy_hash. destruct (Nat.even _); apply toy_deliverable; vm_compute; reflexivity.
  - intros id Hid. cbn [accept_for]. rewrite Hid. apply toy_deliverable; vm_compute; reflexivity.
  - by exists hello, answer, accept, id.
Defined.

(** Two spokes at a hub with one slot: both are let through the first look, one is
served. *)
Definition toy_serve : list serve_label :=
  [VArrive 0 "10.0.0.1, 10.0.0.9" "lb"; VArrive 1 "" "lb"; VAsk 0 ["x, pmf.tunnel.v1"]; VAsk 1 ["PMF.tunnel.v1"]; VPend 0; VUpgrade 0 true;
   VAuth 0 toy_tunnel_cfg (Some toy_nonce) toy_answer; VLoad 0; VSwap 0; VAccept 0 true; VPend 1; VUpgrade 1 true;
   VAuth 1 toy_tunnel_cfg (Some toy_nonce) toy_answer; VLoad 1; VOffer 0 true].
Definition toy_server : Server := default new_server (serve_run toy_hash toy_verifies 1 1 toy_serve new_server).

Lemma tunnel_limits_witness :
  sv_sessions toy_server = 1 ∧ cn_phase <$> sv_conns toy_server !! 1%nat = Some (CReturned EndTooManySessions) ∧
  ∃ c, sv_conns toy_server !! 0%nat = Some c ∧ cn_remote c = "10.0.0.1" ∧
    ∃ ls1 ls2 cfg nonce received sent rest, toy_serve = (ls1 ++ VAuth 0 cfg nonce received :: ls2)%list ∧
      toy_authenticate cfg nonce received (cn_remote c) = (sent, Ok (toy_session, rest)).
Proof.
  assert (serve_run toy_hash toy_verifies 1 1 toy_serve new_server = Some toy_server) as Hr by (vm_compute; reflexivity).
  split; [vm_compute; reflexivity|]. split; [vm_compute; reflexivity|].
  exists {| cn_remote := "10.0.0.1"; cn_phase := CServing toy_session |}. split; [vm_compute; reflexivity|]. split; [reflexivity|].
  refine (proj2 (proj2 (proj2 (proj2 (proj2 (proj2 (tunnel_limits toy_hash toy_verifies 1 1 toy_tunnel_cfg toy_serve toy_server eq_refl Hr)))))) 0%nat {| cn_remote := "10.0.0.1"; cn_phase := CServing toy_session |} toy_session _ eq_refl).
  vm_compute. reflexivity.
Defined.
