(* ===== verification/GrpcTun.v ===== *)
(** The calls inside a tunnel: [src/internal/tunnel/grpctun].

The hub is the client and the spoke the server of one gRPC service over the
connection [WsTun] authenticated.  A request crosses as a message, a response
as a head, chunks of data and a trail.  Modelled are both conversions, the
spoke's streaming of a body under the caller's budget, the hub's reader, which
holds the peer to that budget, and what becomes of errors on either side;
together with [PromClient] they take a response from the local Prometheus to the
reader in the hub.  A stream is the sequence of what [Recv] returns; gRPC itself,
contexts beyond their outcome, keepalives and logs are not modelled. *)

From S2P Require Import Prelude Fleet Text GoFloat PromApi Registry Sem Url Proxy PromClient.
Open Scope string_scope.
Open Scope Z_scope.

Definition defaultChunkBytes : Z := Z.shiftl 64 10.

(** * Requests *)

Record ProxyRequest := {
  pq_Method : string;
  pq_Path : string;
  pq_Body : string;
  pq_MaxResponseBytes : Z;
  pq_AcceptGzip : bool;
  pq_RequestId : string
}.

Definition validateRequest (req : option TunnelRequest) : bool :=
  match req with
  | None => false
  | Some req =>
    (String.eqb (tq_Method req) "GET" || String.eqb (tq_Method req) "POST") && HasPrefix (tq_Path req) "/" && negb (tq_MaxResponseBytes req <=? 0)
  end.

Definition requestToProto (req : TunnelRequest) : ProxyRequest :=
  {| pq_Method := tq_Method req; pq_Path := tq_Path req; pq_Body := tq_Form req; pq_MaxResponseBytes := wrap_uint64 (tq_MaxResponseBytes req);
     pq_AcceptGzip := tq_AcceptGzip req; pq_RequestId := tq_RequestID req |}.

Definition requestFromProto (m : ProxyRequest) : option TunnelRequest :=
  if 2 ^ 62 <? pq_MaxResponseBytes m then None
  else
    let req := {| tq_Method := pq_Method m; tq_Path := pq_Path m; tq_Form := pq_Body m; tq_MaxResponseBytes := pq_MaxResponseBytes m;
                  tq_AcceptGzip := pq_AcceptGzip m; tq_RequestID := pq_RequestId m |} in
    if validateRequest (Some req) then Some req else None.

(** A request the hub lets onto the wire arrives as it is, unless it asks for more
than 4 EiB. *)
Lemma request_crosses req : validateRequest (Some req) = true → tq_MaxResponseBytes req ≤ 2 ^ 62 → requestFromProto (requestToProto req) = Some req.
Proof.
  intros Hv Hm. assert (0 < tq_MaxResponseBytes req) as Hp.
  { unfold validateRequest in Hv. apply andb_true_iff in Hv as [_ H]. apply negb_true_iff, Z.leb_gt in H. done. }
  assert (wrap_uint64 (tq_MaxResponseBytes req) = tq_MaxResponseBytes req) as Hw by (unfold wrap_uint64; apply Z.mod_small; lia).
  unfold requestFromProto, requestToProto. cbn [pq_Method pq_Path pq_Body pq_MaxResponseBytes pq_AcceptGzip pq_RequestId]. rewrite Hw.
  destruct (Z.ltb_spec (2 ^ 62) (tq_MaxResponseBytes req)); [lia|]. destruct req. cbn in *. by rewrite Hv.
Qed.

(** * Facts *)

Record KubernetesFacts := { kf_Available : bool; kf_UnavailableReason : string; kf_Version : string; kf_ClusterUid : string; kf_NodeCount : Z }.

Record PrometheusFacts := {
  pf_Reachable : bool;
  pf_UnreachableReason : string;
  pf_Flavor : string;
  pf_Version : string;
  pf_Retention : string;
  pf_ScrapeInterval : string;
  pf_LookbackDelta : string;
  pf_ExternalLabels : gmap string string;
  pf_ActiveSeries : Z;
  pf_MetricNameCount : Z;
  pf_Jobs : list string;
  pf_Namespaces : list string;
  pf_MetricPrefixes : list string;
  pf_RuleGroupCount : Z;
  pf_AlertingRuleCount : Z;
  pf_FiringAlertCount : Z;
  pf_AlertmanagerConfigured : bool
}.

Record ClusterFacts := {
  cf_ClusterId : string;
  cf_DisplayName : string;
  cf_Labels : gmap string string;
  cf_Description : string;
  cf_AgentVersion : string;
  cf_ProtocolVersion : string;
  cf_StartedAtUnixNano : Z;
  cf_Kubernetes : KubernetesFacts;
  cf_Prometheus : PrometheusFacts
}.

Record DescribeResponse := { dr_Fingerprint : string; dr_Unchanged : bool; dr_Facts : option ClusterFacts }.

Definition factsToProto (f : Facts) (generation : Z) : DescribeResponse :=
  {| dr_Fingerprint := f_Fingerprint f; dr_Unchanged := negb (f_Changed f);
     dr_Facts := if negb (f_Changed f) then None else
       let c := f_Cluster f in let k := Kubernetes c in let p := Prometheus c in
       Some {| cf_ClusterId := ID c; cf_DisplayName := DisplayName c; cf_Labels := Labels c; cf_Description := Description c;
               cf_AgentVersion := AgentVersion c; cf_ProtocolVersion := Fleet.ProtocolVersion c; cf_StartedAtUnixNano := generation;
               cf_Kubernetes := {| kf_Available := Available k; kf_UnavailableReason := UnavailableReason k; kf_Version := k8s_Version k;
                                   kf_ClusterUid := ClusterUID k; kf_NodeCount := NodeCount k |};
               cf_Prometheus := {| pf_Reachable := Reachable p; pf_UnreachableReason := UnreachableReason p; pf_Flavor := Flavor p; pf_Version := prom_Version p;
                                   pf_Retention := Retention p; pf_ScrapeInterval := ScrapeInterval p; pf_LookbackDelta := LookbackDelta p;
                                   pf_ExternalLabels := ExternalLabels p; pf_ActiveSeries := ActiveSeries p; pf_MetricNameCount := MetricNames p;
                                   pf_Jobs := Jobs p; pf_Namespaces := Namespaces p; pf_MetricPrefixes := MetricPrefixes p; pf_RuleGroupCount := RuleGroups p;
                                   pf_AlertingRuleCount := AlertingRules p; pf_FiringAlertCount := FiringAlerts p; pf_AlertmanagerConfigured := HasAlertmanager p |} |} |}.

Definition factsFromProto (m : DescribeResponse) : Facts :=
  match dr_Facts m with
  | None => {| f_Fingerprint := dr_Fingerprint m; f_Changed := false; f_Cluster := zero_Cluster; f_Generation := 0 |}
  | Some pf =>
    let k := cf_Kubernetes pf in let p := cf_Prometheus pf in
    {| f_Fingerprint := dr_Fingerprint m; f_Changed := negb (dr_Unchanged m);
       f_Cluster := {| ID := cf_ClusterId pf; DisplayName := cf_DisplayName pf; Description := cf_Description pf; Labels := cf_Labels pf;
                       Cluster_State := Cluster_State zero_Cluster; LastSeen := LastSeen zero_Cluster; ConnectedSince := ConnectedSince zero_Cluster;
                       AgentVersion := cf_AgentVersion pf; Fleet.ProtocolVersion := cf_ProtocolVersion pf; CertNotAfter := CertNotAfter zero_Cluster;
                       Kubernetes := {| Available := kf_Available k; UnavailableReason := kf_UnavailableReason k; k8s_Version := kf_Version k;
                                        ClusterUID := kf_ClusterUid k; NodeCount := kf_NodeCount k |};
                       Prometheus := {| Reachable := pf_Reachable p; UnreachableReason := pf_UnreachableReason p; Flavor := pf_Flavor p;
                                        prom_Version := pf_Version p; Retention := pf_Retention p; ScrapeInterval := pf_ScrapeInterval p;
                                        LookbackDelta := pf_LookbackDelta p; ExternalLabels := pf_ExternalLabels p; ActiveSeries := pf_ActiveSeries p;
                                        MetricNames := pf_MetricNameCount p; Jobs := pf_Jobs p; Namespaces := pf_Namespaces p;
                                        MetricPrefixes := pf_MetricPrefixes p; RuleGroups := pf_RuleGroupCount p; AlertingRules := pf_AlertingRuleCount p;
                                        FiringAlerts := pf_FiringAlertCount p; HasAlertmanager := pf_AlertmanagerConfigured p |} |};
       f_Generation := cf_StartedAtUnixNano pf |}
  end.

(** [session.Describe] from a reply on: the facts, and the generation kept. *)
Definition session_Describe (m : DescribeResponse) (gen : Z) : Facts * Z :=
  let f := factsFromProto m in
  if negb (f_Generation f =? 0) then (f, f_Generation f)
  else ({| f_Fingerprint := f_Fingerprint f; f_Changed := f_Changed f; f_Cluster := f_Cluster f; f_Generation := gen |}, gen).

(** The members of a cluster that its spoke reports. *)
Definition reported (c : Cluster) : Cluster :=
  {| ID := ID c; DisplayName := DisplayName c; Description := Description c; Labels := Labels c; Cluster_State := Cluster_State zero_Cluster;
     LastSeen := LastSeen zero_Cluster; ConnectedSince := ConnectedSince zero_Cluster; AgentVersion := AgentVersion c;
     Fleet.ProtocolVersion := Fleet.ProtocolVersion c; CertNotAfter := CertNotAfter zero_Cluster; Kubernetes := Kubernetes c; Prometheus := Prometheus c |}.

(** What a spoke describes reaches the hub, under the generation of the process;
an unchanged reply keeps the generation already known. *)
Lemma facts_cross f generation gen : generation ≠ 0 →
  session_Describe (factsToProto f generation) gen =
  if f_Changed f then ({| f_Fingerprint := f_Fingerprint f; f_Changed := true; f_Cluster := reported (f_Cluster f); f_Generation := generation |}, generation)
  else ({| f_Fingerprint := f_Fingerprint f; f_Changed := false; f_Cluster := zero_Cluster; f_Generation := gen |}, gen).
Proof.
  intros Hg. unfold session_Describe, factsToProto, factsFromProto. destruct f as [fp ch c g]. cbn [f_Changed f_Fingerprint f_Cluster].
  destruct ch; cbn [negb dr_Facts dr_Fingerprint dr_Unchanged f_Generation cf_StartedAtUnixNano]; [|done].
  destruct (Z.eqb_spec generation 0); [done|]. cbn [negb]. unfold reported. by destruct c as [? ? ? ? ? ? ? ? ? ? [] []].
Qed.

(** * A response on the wire *)

Record ResponseTrail := { rt_BytesTotal : Z; rt_UpstreamDurationMs : Z; rt_Truncated : bool; rt_Warnings : list string; rt_Error : string }.

Inductive ProxyChunk :=
| ChunkHead (status : Z) (contentType contentEncoding : string)
| ChunkData (data : string)
| ChunkTrail (t : ResponseTrail)
| ChunkEmpty.

(** The codes of gRPC that are told apart. *)
Inductive code := Canceled | DeadlineExceeded | Unavailable | ResourceExhausted | InvalidArgument | Internal | OtherCode.

(** What [Recv] returns. *)
Inductive Recv := Got (c : ProxyChunk) | RecvEOF | RecvStatus (c : code).

(** ** The hub's reader *)

Inductive term := TEOF | TTooLarge | TBodyClosed | TProtocol | TUpstream (text : string) | TCanceled | TDeadline | TSessionClosed | TStatus (c : code).

Record HubTrailer := { ht_BytesTotal : Z; ht_UpstreamLatency : Z; ht_Truncated : bool; ht_Warnings : list string; ht_Err : option term }.
Definition zero_trailer : HubTrailer := {| ht_BytesTotal := 0; ht_UpstreamLatency := 0; ht_Truncated := false; ht_Warnings := []; ht_Err := None |}.

(** How the context of a caller has ended. *)
Inductive ctx_end := CtxCanceled | CtxDeadline.

(** [mapErr]: the caller's context, if it ended, comes first, then the session. *)
Definition mapErr (caller : option ctx_end) (done : bool) (c : code) : term :=
  match caller with
  | Some CtxCanceled => TCanceled
  | Some CtxDeadline => TDeadline
  | None => if done then TSessionClosed
            else match c with Canceled => TCanceled | DeadlineExceeded => TDeadline | Unavailable => TSessionClosed | c => TStatus c end
  end.

Record bodyReader := { br_budget : Z; br_pending : string; br_received : Z; br_finished : option term; br_trail : HubTrailer; br_closing : bool }.

Definition new_bodyReader (budget : Z) : bodyReader :=
  {| br_budget := budget; br_pending := ""; br_received := 0; br_finished := None; br_trail := zero_trailer; br_closing := false |}.

Definition br_finish (e : term) (b : bodyReader) : bodyReader :=
  let t := br_trail b in
  {| br_budget := br_budget b; br_pending := br_pending b; br_received := br_received b; br_finished := Some e;
     br_trail := {| ht_BytesTotal := if (ht_BytesTotal t =? 0) && (0 <? br_received b) then br_received b else ht_BytesTotal t;
                    ht_UpstreamLatency := ht_UpstreamLatency t; ht_Truncated := ht_Truncated t; ht_Warnings := ht_Warnings t; ht_Err := ht_Err t |};
     br_closing := br_closing b |}.

Definition br_with (pending : string) (received : Z) (trail : HubTrailer) (b : bodyReader) : bodyReader :=
  {| br_budget := br_budget b; br_pending := pending; br_received := received; br_finished := br_finished b; br_trail := trail; br_closing := br_closing b |}.

Section reader.
(** What [mapErr] sees of the caller and of the session. *)
Context (caller : option ctx_end) (done : bool).

(** [absorbTrail]; [drained] is the [Recv] after the trail. *)
Definition absorbTrail (t : ResponseTrail) (drained : Recv) (b : bodyReader) : bodyReader :=
  let err := if String.eqb (rt_Error t) "" then None else Some (TUpstream (rt_Error t)) in
  let trail := {| ht_BytesTotal := Z.min (rt_BytesTotal t) max_int64; ht_UpstreamLatency := wrap_int64 (rt_UpstreamDurationMs t * Millisecond);
                  ht_Truncated := rt_Truncated t; ht_Warnings := rt_Warnings t; ht_Err := err |} in
  let e := match err with Some e => e | None => if rt_Truncated t then TTooLarge else TEOF end in
  let e := match e, drained with TEOF, RecvStatus c => mapErr caller done c | _, _ => e end in
  br_finish e (br_with (br_pending b) (br_received b) trail b).

(** [pull], with what is left of the stream; [None] is a [Recv] that has not
returned. *)
Definition pull (recvs : list Recv) (b : bodyReader) : option (bodyReader * list Recv) :=
  match recvs with
  | [] => None
  | RecvEOF :: rest => Some (br_finish (if br_closing b then TBodyClosed else TProtocol) b, rest)
  | RecvStatus c :: rest => Some (br_finish (if br_closing b then TBodyClosed else mapErr caller done c) b, rest)
  | Got (ChunkData data) :: rest =>
    if String.eqb data "" then Some (b, rest)
    else
      let remaining := br_budget b - br_received b in
      if remaining <? str_len data then
        let t := br_trail b in
        Some (br_finish TTooLarge (br_with (str_take (Z.to_nat remaining) data) (br_budget b)
          {| ht_BytesTotal := br_budget b; ht_UpstreamLatency := ht_UpstreamLatency t; ht_Truncated := true; ht_Warnings := ht_Warnings t; ht_Err := ht_Err t |} b), rest)
      else Some (br_with data (br_received b + str_len data) (br_trail b) b, rest)
  | Got (ChunkTrail t) :: rest => match rest with [] => None | drained :: rest => Some (absorbTrail t drained b, rest) end
  | Got (ChunkHead _ _ _) :: rest => Some (br_finish TProtocol b, rest)
  | Got ChunkEmpty :: rest => Some (br_finish TProtocol b, rest)
  end.

(** [Read] into room for [k] bytes. *)
Fixpoint br_Read (fuel : nat) (k : Z) (recvs : list Recv) (b : bodyReader) : option (string * option term * list Recv * bodyReader) :=
  if negb (String.eqb (br_pending b) "") then
    Some (str_take (Z.to_nat k) (br_pending b), None, recvs, br_with (str_drop (Z.to_nat k) (br_pending b)) (br_received b) (br_trail b) b)
  else match br_finished b with
  | Some e => Some ("", Some e, recvs, b)
  | None =>
    if k <=? 0 then Some ("", None, recvs, b)
    else match fuel with
    | O => None
    | S fuel => '(b, recvs) ← pull recvs b; br_Read fuel k recvs b
    end
  end.

Definition br_Close (b : bodyReader) : bodyReader :=
  let b := {| br_budget := br_budget b; br_pending := ""; br_received := br_received b; br_finished := br_finished b; br_trail := br_trail b; br_closing := true |} in
  match br_finished b with Some _ => b | None => br_finish TBodyClosed b end.

Definition br_Trailer (b : bodyReader) : HubTrailer := match br_finished b with Some _ => br_trail b | None => zero_trailer end.

(** A caller that reads on; its last answer, [None] while it can go on or waits. *)
Fixpoint br_reads (ks : list Z) (recvs : list Recv) (b : bodyReader) : string * option term * list Recv * bodyReader :=
  match ks with
  | [] => ("", None, recvs, b)
  | k :: ks =>
    match br_Read (S (length recvs)) k recvs b with
    | None => ("", None, recvs, b)
    | Some (out, Some e, recvs, b) => (out, Some e, recvs, b)
    | Some (out, None, recvs, b) => let '(more, e, recvs, b) := br_reads ks recvs b in (out +:+ more, e, recvs, b)
    end
  end.

End reader.

(** ** Opening a call *)

Inductive do_error := DoInvalid | DoClosed | DoFailed (e : term).

(** [session.Do]: the head, the reader and what is left of the stream; [closed] is the
session at the start, [opened] the failure of the call itself, if any, [None] as
the result a head that has not come. *)
Definition session_Do (caller : option ctx_end) (closed done : bool) (req : option TunnelRequest) (opened : option code) (recvs : list Recv)
  : option (result do_error (Z * string * string * bodyReader * list Recv)) :=
  match req with
  | None => Some (Err DoInvalid)
  | Some r =>
    if negb (validateRequest req) then Some (Err DoInvalid)
    else if closed then Some (Err DoClosed)
    else match opened with
    | Some c => Some (Err (DoFailed (mapErr caller done c)))
    | None =>
      match recvs with
      | [] => None
      | RecvEOF :: _ => Some (Err (DoFailed (match caller with Some CtxCanceled => TCanceled | Some CtxDeadline => TDeadline | None => if done then TSessionClosed else TEOF end)))
      | RecvStatus c :: _ => Some (Err (DoFailed (mapErr caller done c)))
      | Got (ChunkHead status contentType contentEncoding) :: rest =>
        Some (Ok (status, contentType, contentEncoding, new_bodyReader (tq_MaxResponseBytes r), rest))
      | Got _ :: _ => Some (Err (DoFailed TProtocol))
      end
    end
  end.

(** ** What a stream amounts to *)

(** The data at the front of a stream, and what follows it. *)
Fixpoint sent (recvs : list Recv) : string := match recvs with Got (ChunkData d) :: rest => d +:+ sent rest | _ => "" end.
Fixpoint ending (recvs : list Recv) : list Recv := match recvs with Got (ChunkData _) :: rest => ending rest | _ => recvs end.

(** A trail's own account, completed by what arrived when it gives none. *)
Definition counted (total : Z) (t : HubTrailer) : HubTrailer :=
  {| ht_BytesTotal := if (ht_BytesTotal t =? 0) && (0 <? total) then total else ht_BytesTotal t;
     ht_UpstreamLatency := ht_UpstreamLatency t; ht_Truncated := ht_Truncated t; ht_Warnings := ht_Warnings t; ht_Err := ht_Err t |}.

Definition trailer_of (t : ResponseTrail) : HubTrailer :=
  {| ht_BytesTotal := Z.min (rt_BytesTotal t) max_int64; ht_UpstreamLatency := wrap_int64 (rt_UpstreamDurationMs t * Millisecond);
     ht_Truncated := rt_Truncated t; ht_Warnings := rt_Warnings t;
     ht_Err := if String.eqb (rt_Error t) "" then None else Some (TUpstream (rt_Error t)) |}.

Section verdict.
Context (caller : option ctx_end) (done : bool).

(** How a body whose data came to [total] bytes ends; [None] while it is open. *)
Definition verdict_of (total : Z) (rest : list Recv) : option (term * HubTrailer) :=
  match rest with
  | RecvEOF :: _ | Got (ChunkHead _ _ _) :: _ | Got ChunkEmpty :: _ => Some (TProtocol, counted total zero_trailer)
  | RecvStatus c :: _ => Some (mapErr caller done c, counted total zero_trailer)
  | Got (ChunkTrail t) :: drained :: _ =>
    Some (if negb (String.eqb (rt_Error t) "") then TUpstream (rt_Error t) else if rt_Truncated t then TTooLarge
          else match drained with RecvStatus c => mapErr caller done c | _ => TEOF end, counted total (trailer_of t))
  | _ => None
  end.

(** The body a caller with [budget] gets of a stream, and how it ends. *)
Definition body_spec (budget : Z) (recvs : list Recv) : string * option (term * HubTrailer) :=
  (str_take (Z.to_nat budget) (sent recvs),
   if budget <? str_len (sent recvs) then
     Some (TTooLarge, {| ht_BytesTotal := budget; ht_UpstreamLatency := 0; ht_Truncated := true; ht_Warnings := []; ht_Err := None |})
   else verdict_of (str_len (sent recvs)) (ending recvs)).

(** What a reader has still to hand out, and how it will end. *)
Definition still (recvs : list Recv) (b : bodyReader) : string :=
  br_pending b +:+ match br_finished b with Some _ => "" | None => str_take (Z.to_nat (br_budget b - br_received b)) (sent recvs) end.

Definition fate (recvs : list Recv) (b : bodyReader) : option (term * HubTrailer) :=
  match br_finished b with
  | Some e => Some (e, br_trail b)
  | None =>
    if br_budget b - br_received b <? str_len (sent recvs) then
      Some (TTooLarge, {| ht_BytesTotal := br_budget b; ht_UpstreamLatency := 0; ht_Truncated := true; ht_Warnings := []; ht_Err := None |})
    else verdict_of (br_received b + str_len (sent recvs)) (ending recvs)
  end.

Record reading (b : bodyReader) : Prop := {
  rd_trail : br_finished b = None → br_trail b = zero_trailer;
  rd_open : br_closing b = false;
  rd_within : 0 ≤ br_received b ≤ br_budget b
}.

Lemma reading_new budget : 0 ≤ budget → reading (new_bodyReader budget).
Proof. by split. Qed.

Lemma str_take_0 s : str_take 0 s = "".
Proof. by destruct s. Qed.

Lemma mapErr_not_EOF c : mapErr caller done c ≠ TEOF.
Proof. unfold mapErr. by destruct caller as [[]|], done, c. Qed.

(** A stream whose data has all been taken ends as the reader does. *)
Lemma finish_keeps e tr recvs rest b : reading b → br_finished b = None → br_pending b = "" → sent recvs = "" →
  verdict_of (br_received b) (ending recvs) = Some (e, counted (br_received b) tr) →
  let b' := br_finish e (br_with "" (br_received b) tr b) in reading b' ∧ still rest b' = still recvs b ∧ fate rest b' = fate recvs b.
Proof.
  intros [Ht Ho Hw] Hf Hp Hs Hv. split; [by split|]. unfold fate, still. rewrite Hf, Hp, Hs. cbn [br_finished br_finish br_with br_pending br_trail].
  destruct (Z.ltb_spec (br_budget b - br_received b) (str_len "")); [change (str_len "") with 0 in *; lia|].
  change (str_len "") with 0. rewrite Z.add_0_r, Hv. split; [by destruct (Z.to_nat _)|done].
Qed.

(** Data is handed on as far as the budget goes. *)
Lemma pull_data d rest b : reading b → br_finished b = None → br_pending b = "" →
  match pull caller done (Got (ChunkData d) :: rest) b with
  | None => False
  | Some (b', rest') => reading b' ∧ still rest' b' = still (Got (ChunkData d) :: rest) b ∧ fate rest' b' = fate (Got (ChunkData d) :: rest) b ∧
                        (length rest' < length (Got (ChunkData d) :: rest))%nat
  end.
Proof.
  intros Hr Hf Hp. pose proof Hr as [Ht Ho Hw]. specialize (Ht Hf). unfold pull. destruct (String.eqb_spec d "") as [->|Hd].
  { split_and!; [done|done|done|cbn; lia]. }
  assert (0 < str_len d) as Hdp by (destruct d; [done|unfold str_len; cbn; lia]).
  unfold still, fate. rewrite Hf, Hp, Ht. cbn [sent ending length]. rewrite str_len_app. pose proof (str_len_nonneg (sent rest)).
  destruct (Z.ltb_spec (br_budget b - br_received b) (str_len d)) as [Hlt|Hge].
  - split; [split; cbn; [done|done|lia]|]. destruct (Z.ltb_spec (br_budget b - br_received b) (str_len d + str_len (sent rest))); [|lia].
    cbn [br_finish br_with br_budget br_pending br_received br_finished br_trail ht_BytesTotal ht_UpstreamLatency ht_Truncated ht_Warnings ht_Err zero_trailer].
    split_and!; [|by destruct (_ && _)|lia].
    rewrite str_take_app_le, string_app_nil_r. replace (Z.to_nat (br_budget b - br_received b) - String.length d)%nat with 0%nat by (unfold str_len in *; lia).
    by rewrite str_take_0, string_app_nil_r.
  - split; [split; cbn; [done|done|lia]|]. cbn [br_with br_budget br_pending br_received br_finished]. rewrite Hf. split_and!.
    + cbn [String.append]. rewrite str_take_app_le, (str_take_all d) by (unfold str_len in *; lia). f_equal. f_equal. unfold str_len in *. lia.
    + replace (br_budget b - (br_received b + str_len d) <? str_len (sent rest)) with (br_budget b - br_received b <? str_len d + str_len (sent rest))
        by (apply Bool.eq_iff_eq_true; rewrite !Z.ltb_lt; lia). by rewrite Z.add_assoc.
    + lia.
Qed.

(** One chunk folded in changes neither what the caller will get nor the end. *)
Lemma pull_keeps recvs b : reading b → br_finished b = None → br_pending b = "" →
  match pull caller done recvs b with
  | None => fate recvs b = None ∧ still recvs b = ""
  | Some (b', rest) => reading b' ∧ still rest b' = still recvs b ∧ fate rest b' = fate recvs b ∧ (length rest < length recvs)%nat
  end.
Proof.
  intros Hr Hf Hp. pose proof Hr as [Ht Ho Hw]. specialize (Ht Hf).
  assert (b = br_with "" (br_received b) zero_trailer b) as Hb by (destruct b; cbn in *; by subst).
  assert (sent recvs = "" → verdict_of (br_received b) (ending recvs) = None → fate recvs b = None ∧ still recvs b = "") as Hwait.
  { intros Hs Hv. unfold fate, still. rewrite Hf, Hp, Hs. change (str_len "") with 0. rewrite Z.add_0_r, Hv.
    destruct (Z.ltb_spec (br_budget b - br_received b) 0); [lia|]. split; [done|by destruct (Z.to_nat _)]. }
  assert (∀ e tr rest, sent recvs = "" → verdict_of (br_received b) (ending recvs) = Some (e, counted (br_received b) tr) → (length rest < length recvs)%nat →
    let b' := br_finish e (br_with "" (br_received b) tr b) in
    reading b' ∧ still rest b' = still recvs b ∧ fate rest b' = fate recvs b ∧ (length rest < length recvs)%nat) as Hend.
  { intros e tr rest Hs Hv Hl. destruct (finish_keeps e tr recvs rest b Hr Hf Hp Hs Hv) as (?&?&?). done. }
  assert (∀ e rest, sent recvs = "" → verdict_of (br_received b) (ending recvs) = Some (e, counted (br_received b) zero_trailer) → (length rest < length recvs)%nat →
    reading (br_finish e b) ∧ still rest (br_finish e b) = still recvs b ∧ fate rest (br_finish e b) = fate recvs b ∧ (length rest < length recvs)%nat) as Hbad.
  { intros e rest Hs Hv Hl. pose proof (Hend e zero_trailer rest Hs Hv Hl) as H. cbv zeta in H. by rewrite <- Hb in H. }
  destruct recvs as [|[[| d| t|]| |c] rest]; cbn [pull]; rewrite ?Ho.
  - by apply Hwait.
  - apply Hbad; cbn; [done|done|lia].
  - pose proof (pull_data d rest b Hr Hf Hp) as Hd. cbn [pull] in Hd. by destruct (if String.eqb d "" then _ else _) as [[b' rest']|].
  - destruct rest as [|dr rest]; [by apply Hwait|]. unfold absorbTrail. rewrite Hp. apply Hend; cbn [sent ending length verdict_of]; [done| |lia].
    f_equal. f_equal. destruct (String.eqb_spec (rt_Error t) ""); cbn [negb]; [|done]. destruct (rt_Truncated t); [done|]. by destruct dr.
  - apply Hbad; cbn; [done|done|lia].
  - apply Hbad; cbn; [done|done|lia].
  - apply Hbad; cbn; [done|done|lia].
Qed.

Lemma str_take_drop n s : str_take n s +:+ str_drop n s = s.
Proof. revert s. induction n as [|n IH]; intros [|c s]; try done. cbn. by rewrite IH. Qed.

(** [Read] hands out the next bytes, or the end once there are none, and waits
only while the stream says neither. *)
Lemma br_Read_keeps fuel k recvs b : reading b → (length recvs < fuel)%nat → 0 < k →
  match br_Read caller done fuel k recvs b with
  | None => fate recvs b = None ∧ still recvs b = ""
  | Some (out, e, rest, b') =>
    reading b' ∧ still recvs b = out +:+ still rest b' ∧ fate rest b' = fate recvs b ∧
    match e with
    | None => out ≠ ""
    | Some e => out = "" ∧ still rest b' = "" ∧ br_finished b' = Some e
    end
  end.
Proof.
  revert recvs b. induction fuel as [|fuel IH]; intros recvs b Hr Hl Hk; [lia|]. cbn [br_Read].
  destruct (String.eqb_spec (br_pending b) "") as [Hp|Hp]; cbn [negb].
  - destruct (br_finished b) as [e|] eqn:Hf.
    + split_and!; try done. unfold still. by rewrite Hf, Hp.
    + destruct (Z.leb_spec k 0); [lia|]. pose proof (pull_keeps recvs b Hr Hf Hp) as Hpull.
      destruct (pull caller done recvs b) as [[b' rest]|]; cbn [mbind option_bind]; [|done].
      destruct Hpull as (Hr'&Hs&Hft&Hlen). specialize (IH rest b' Hr' ltac:(lia) Hk).
      destruct (br_Read caller done fuel k rest b') as [[[[out e] rest'] b'']|].
      * by rewrite <- Hs, <- Hft.
      * by rewrite <- Hs, <- Hft.
  - destruct Hr as [Ht Ho Hw]. split_and!; [by split| |done|].
    + unfold still. cbn [br_with br_pending br_finished br_budget br_received]. by rewrite <- string_app_assoc, str_take_drop.
    + destruct (br_pending b); [done|]. by destruct (Z.to_nat k) eqn:E; [lia|].
Qed.

Lemma br_reads_keep ks recvs b : reading b → Forall (λ k, 0 < k) ks →
  let '(out, e, rest, b') := br_reads caller done ks recvs b in
  reading b' ∧ still recvs b = out +:+ still rest b' ∧ fate rest b' = fate recvs b ∧
  match e with
  | Some e => still rest b' = "" ∧ br_finished b' = Some e
  | None => str_len out < Z.of_nat (length ks) → fate recvs b = None ∧ still rest b' = ""
  end.
Proof.
  revert recvs b. induction ks as [|k ks IH]; intros recvs b Hr Hks; cbn [br_reads].
  { by split_and!. }
  apply Forall_cons in Hks as [Hk Hks]. pose proof (br_Read_keeps (S (length recvs)) k recvs b Hr ltac:(lia) Hk) as H.
  destruct (br_Read _ _ _ _ _ _) as [[[[out e] rest] b']|].
  2:{ destruct H as [Hf Hs]. by split_and!. }
  destruct H as (Hr'&Hs&Hft&He). destruct e as [e|].
  { destruct He as (->&Hs'&Hf). by split_and!. }
  specialize (IH rest b' Hr' Hks). destruct (br_reads caller done ks rest b') as [[[more e] rest'] b''].
  destruct IH as (Hr''&Hs'&Hft'&He'). split_and!; [done|by rewrite Hs, Hs', string_app_assoc|congruence|].
  destruct e as [e|]; [done|]. rewrite str_len_app. intros Hlt. assert (0 < str_len out) by (destruct out; [done|unfold str_len; cbn; lia]).
  cbn [length] in Hlt. rewrite <- Hft. apply He'. lia.
Qed.

End verdict.

(** C16: Whatever a spoke streams, a caller that reads the hub's body gets the
bytes the stream carried, in order and never more than the budget of its
request; the answer that ends the body comes after all of them and is the
one [body_spec] derives from the stream: end of file only for a stream whose data
fits and whose trail reports neither an error nor truncation, with that trail's
account; more data than the budget is exactly the budget, then
[ErrResponseTooLarge] and a trailer that says truncated.  Once the
stream has said how it ends, one read more than there are bytes finds the end. *)
Theorem hub_body_faithful caller done budget recvs ks out e rest b :
  0 ≤ budget → Forall (λ k, 0 < k) ks →
  br_reads caller done ks recvs (new_bodyReader budget) = (out, e, rest, b) →
  let '(body, ends) := body_spec caller done budget recvs in
  (∃ more, body = out +:+ more) ∧ str_len out ≤ budget ∧
  match e with
  | Some e => out = body ∧ ends = Some (e, br_Trailer b) ∧
              (e = TEOF → out = sent recvs ∧ ∃ t drained tail, ending recvs = Got (ChunkTrail t) :: drained :: tail ∧ rt_Error t = "" ∧ rt_Truncated t = false ∧
                                                           br_Trailer b = counted (str_len out) (trailer_of t))
  | None => ends ≠ None → Z.of_nat (length ks) ≤ str_len out
  end.
Proof.
  intros Hb Hks Hrun. pose proof (br_reads_keep caller done ks recvs (new_bodyReader budget) (reading_new budget Hb) Hks) as H.
  rewrite Hrun in H. destruct H as (Hr&Hs&Hf&He). unfold body_spec.
  assert (still recvs (new_bodyReader budget) = str_take (Z.to_nat budget) (sent recvs)) as Hst.
  { unfold still. cbn. by rewrite Z.sub_0_r. }
  assert (fate caller done recvs (new_bodyReader budget) = (body_spec caller done budget recvs).2) as Hft.
  { unfold fate. cbn. by rewrite Z.sub_0_r. }
  cbn [body_spec snd] in Hft. rewrite Hst in Hs. rewrite Hft in Hf, He.
  assert (str_len (str_take (Z.to_nat budget) (sent recvs)) ≤ budget) as Hlen by (rewrite str_len_take; lia).
  rewrite Hs, str_len_app in Hlen. pose proof (str_len_nonneg (still rest b)).
  split_and!; [by eexists|lia|]. destruct e as [e|].
  - destruct He as [Hn Hfin]. rewrite Hn, string_app_nil_r in Hs. unfold fate in Hf. rewrite Hfin in Hf.
    assert (br_Trailer b = br_trail b) as -> by (unfold br_Trailer; by rewrite Hfin).
    split_and!; [done|done|]. intros ->. revert Hf. destruct (Z.ltb_spec budget (str_len (sent recvs))) as [|Hfit]; [done|].
    rewrite <- Hs, str_take_all by (unfold str_len in *; lia). intros Hf. split; [done|].
    destruct (ending recvs) as [|[[| |t|]| |c] tl]; try done.
    + destruct tl as [|drained tl]; [done|]. cbn [verdict_of] in Hf. exists t, drained, tl. split; [done|].
      destruct (String.eqb_spec (rt_Error t) ""); cbn [negb] in Hf; [|done]. destruct (rt_Truncated t); [done|]. split_and!; [done|done|]. congruence.
    + injection Hf as He _. by destruct (mapErr_not_EOF caller done c).
  - intros Hends. destruct (Z.le_gt_cases (Z.of_nat (length ks)) (str_len out)); [done|]. by destruct He as [He _]; [lia|].
Qed.

(** ** The spoke's side *)

(** What the caller of the handler can tell of its error. *)
Record handler_error := { he_canceled : bool; he_deadline : bool; he_tooLarge : bool; he_invalid : bool }.

Definition codeFor (ctx : option ctx_end) (e : handler_error) : code :=
  if he_canceled e || match ctx with Some CtxCanceled => true | _ => false end then Canceled
  else if he_deadline e || match ctx with Some CtxDeadline => true | _ => false end then DeadlineExceeded
  else if he_tooLarge e then ResourceExhausted
  else if he_invalid e then InvalidArgument
  else Unavailable.

Inductive copy_error := CopyRead (e : read_error) | CopySend.

Section spoke.
(** A body and its [Read]; [text] is the text of an error. *)
Context {Body : Type} (read : Z → Body → string * option read_error * Body) (text : copy_error → string).
(** What the stream's context says when the copy is over. *)
Context (ctx : option ctx_end) (chunkBytes : Z).

(** [streamBody]: the chunks sent, [sent], [truncated], the error and the body;
[breaks] is the number of messages the stream still takes, if it ends. *)
Fixpoint streamBody (fuel : nat) (budget sent : Z) (breaks : option nat) (body : Body) : option (list string * Z * bool * option copy_error * Body) :=
  match fuel with
  | O => None
  | S fuel =>
    let remaining := budget - sent in
    if remaining <=? 0 then
      let '(got, err, body) := read 1 body in
      let truncated := negb (String.eqb got "") in
      Some ([], sent, truncated, match err with Some REOF | None => None | Some e => Some (CopyRead e) end, body)
    else
      let lim := if remaining <? chunkBytes then remaining else chunkBytes in
      let '(got, err, body) := read lim body in
      if negb (String.eqb got "") && bool_decide (breaks = Some O) then Some ([], sent, false, Some CopySend, body)
      else
        let breaks := if String.eqb got "" then breaks else pred <$> breaks in
        let chunk := if String.eqb got "" then [] else [got] in
        let sent := sent + str_len got in
        match err with
        | Some REOF => Some (chunk, sent, false, None, body)
        | Some e => Some (chunk, sent, false, Some (CopyRead e), body)
        | None => '(chunks, total, truncated, err, body) ← streamBody fuel budget sent breaks body; Some ((chunk ++ chunks)%list, total, truncated, err, body)
        end
  end.

Record HandlerResponse := {
  hr_StatusCode : Z;
  hr_ContentType : string;
  hr_ContentEncoding : string;
  hr_Body : option Body;
  hr_Trailer : option (Body → BodyTrailer)
}.

Definition wrap_int32 (z : Z) : Z := (z + 2 ^ 31) mod 2 ^ 32 - 2 ^ 31.

Definition trail_for (elapsed sent : Z) (truncated : bool) (copyErr : option copy_error) (t : option BodyTrailer) : ResponseTrail :=
  let error := match t with Some t => match bt_Err t with Some e => text (CopyRead e) | None => "" end | None => "" end in
  {| rt_BytesTotal := wrap_uint64 sent;
     rt_UpstreamDurationMs := match t with Some t => if 0 <? bt_UpstreamLatency t then Z.quot (bt_UpstreamLatency t) Millisecond else Z.quot elapsed Millisecond
                                         | None => Z.quot elapsed Millisecond end;
     rt_Truncated := truncated || match t with Some t => bt_Truncated t | None => false end;
     rt_Warnings := match t with Some t => bt_Warnings t | None => [] end;
     rt_Error := match copyErr with Some e => if String.eqb error "" then text e else error | None => error end |}.

(** [spokeServer.Proxy]: what goes onto the stream, and how the call ends there;
[h] is the handler's [Do], [elapsed] what the clock says the call took. *)
Definition spoke_Proxy (fuel : nat) (m : ProxyRequest) (h : TunnelRequest → result handler_error HandlerResponse) (elapsed : Z) (breaks : option nat)
  : option (list ProxyChunk * Recv) :=
  match requestFromProto m with
  | None => Some ([], RecvStatus InvalidArgument)
  | Some req =>
    match h req with
    | Err e => Some ([], RecvStatus (codeFor ctx e))
    | Ok resp =>
      match hr_Body resp with
      | None => Some ([], RecvStatus Internal)
      | Some body =>
        if bool_decide (breaks = Some O) then Some ([], RecvStatus OtherCode)
        else
          '(chunks, sent, truncated, copyErr, body) ← streamBody fuel (tq_MaxResponseBytes req) 0 (pred <$> breaks) body;
          let head := ChunkHead (wrap_int32 (hr_StatusCode resp)) (hr_ContentType resp) (hr_ContentEncoding resp) in
          let out := head :: (ChunkData <$> chunks) in
          match copyErr, ctx with
          | Some _, Some CtxCanceled => Some (out, RecvStatus Canceled)
          | Some _, Some CtxDeadline => Some (out, RecvStatus DeadlineExceeded)
          | _, _ =>
            if bool_decide (breaks = Some (S (length chunks))) then Some (out, RecvStatus OtherCode)
            else Some ((out ++ [ChunkTrail (trail_for elapsed sent truncated copyErr ((λ f, f body) <$> hr_Trailer resp))])%list, RecvEOF)
          end
      end
    end
  end.

End spoke.
Arguments HandlerResponse : clear implicits.

(** ** The answer of the local Prometheus *)

(** A body as it comes off the network: its pieces, how it ends, and whether the
end comes with the last piece. *)
Record Source := { so_pieces : list string; so_joined : bool; so_ok : bool }.

Definition so_data (s : Source) : string := foldr String.append "" (so_pieces s).
Definition so_end (s : Source) : read_error := if so_ok s then REOF else RFailed.

Definition so_read (k : Z) (s : Source) : string * option read_error * Source :=
  let leaving ps := {| so_pieces := ps; so_joined := so_joined s; so_ok := so_ok s |} in
  match so_pieces s with
  | [] => ("", Some (so_end s), s)
  | p :: ps =>
    let rest := str_drop (Z.to_nat k) p in
    if String.eqb rest "" then (str_take (Z.to_nat k) p, match ps with [] => if so_joined s then Some (so_end s) else None | _ => None end, leaving ps)
    else (str_take (Z.to_nat k) p, None, leaving (rest :: ps))
  end.

(** [limitedBody.Read] over such a body. *)
Definition spoke_read (k : Z) (st : Source * limitedBody) : string * option read_error * (Source * limitedBody) :=
  let '(s, b) := st in
  let '(out, err, b') := lb_Read k (λ room, (so_read room s).1) b in
  (out, err, (if lb_truncated b || bool_decide (is_Some (lb_readErr b)) then s else (so_read (lb_offered k b) s).2, b')).

(** *** From the local Prometheus to the stream *)

Definition live (s : Source) : Prop := Forall (λ p, p ≠ "") (so_pieces s).

Lemma so_read_spec k s : 0 < k → live s →
  let '(out, err, s') := so_read k s in
  str_len out ≤ k ∧ so_data s = out +:+ so_data s' ∧ live s' ∧ so_ok s' = so_ok s ∧
  match err with Some e => e = so_end s ∧ so_data s' = "" | None => out ≠ "" end.
Proof.
  intros Hk Hl. destruct s as [ps j ok]. unfold so_read, live, so_data in *. cbn [so_pieces so_joined so_ok] in *. destruct ps as [|p ps].
  { split_and!; try done. change (str_len "") with 0. lia. }
  apply Forall_cons in Hl as [Hp Hl]. assert (str_len (str_take (Z.to_nat k) p) ≤ k) by (rewrite str_len_take; lia).
  assert (str_take (Z.to_nat k) p ≠ "") by (destruct p; [done|]; by destruct (Z.to_nat k) eqn:?; [lia|]).
  pose proof (str_take_drop (Z.to_nat k) p) as Hpd.
  destruct (String.eqb_spec (str_drop (Z.to_nat k) p) "") as [Hd|Hd]; cbn [so_pieces foldr so_ok].
  - rewrite Hd, string_app_nil_r in Hpd. rewrite <- Hpd at 2. split_and!; [done|done|done|done|]. destruct ps; [|done]. by destruct j.
  - rewrite <- string_app_assoc, Hpd. split_and!; try done. by apply Forall_cons.
Qed.

Lemma so_honest s : honest_source (λ room, (so_read room s).1).
Proof.
  intros k Hk. unfold so_read. destruct (so_pieces s) as [|p ps]; cbn [fst]; [done|].
  destruct (String.eqb (str_drop (Z.to_nat k) p) ""); cbn [fst]; rewrite str_len_take; lia.
Qed.

Lemma lb_Read_open k src b : lb_truncated b = false → lb_readErr b = None →
  let '(_, err, b') := lb_Read k src b in
  err = (if lb_truncated b' then Some RTooLarge else (src (lb_offered k b)).2) ∧
  lb_readErr b' = (if lb_truncated b' then None else match (src (lb_offered k b)).2 with Some REOF | None => None | e => e end).
Proof.
  intros Ht He. unfold lb_Read. rewrite Ht, He. destruct (src (lb_offered k b)) as [got err]. cbn [snd].
  assert (∃ kept b1, (if 0 <? str_len got then lb_account got b else ("", b)) = (kept, b1) ∧ lb_readErr b1 = None) as (kept & b1 & -> & He1).
  { destruct (0 <? str_len got); [|by eexists _, _]. by eexists _, _. }
  destruct (lb_truncated b1) eqn:Ht1; [by rewrite Ht1|]. destruct err as [[]|]; cbn [lb_failed lb_truncated lb_readErr]; by rewrite Ht1.
Qed.

Section copying.
Context (peeking : bool) (limit : Z) (data : string).

(** The spoke in the middle of a body: [came] has come, all of it passed on. *)
Record midway (came : string) (s : Source) (b : limitedBody) : Prop := {
  mw_at : body_at peeking limit came came b;
  mw_fits : str_len came ≤ limit;
  mw_fresh : lb_warned b = false;
  mw_fine : lb_readErr b = None;
  mw_data : data = came +:+ so_data s;
  mw_live : live s
}.

(** One read there: more of the data, or the end, or the overrun. *)
Lemma spoke_read_midway k came s b : 0 < k → midway came s b →
  let '(kept, err, (s', b')) := spoke_read k (s, b) in
  so_ok s' = so_ok s ∧ lb_warned b' = false ∧
  ∃ got, so_data s = got +:+ so_data s' ∧ body_at peeking limit (came +:+ got) (came +:+ kept) b' ∧
    if limit <? str_len (came +:+ got) then err = Some RTooLarge ∧ lb_readErr b' = None
    else kept = got ∧ str_len got ≤ k ∧
      match err with
      | Some e => e = so_end s ∧ so_data s' = "" ∧ lb_readErr b' = if so_ok s then None else Some RFailed
      | None => got ≠ "" ∧ midway (came +:+ got) s' b'
      end.
Proof.
  intros Hk [Hat Hfit Hw He Hd Hl]. unfold spoke_read. pose proof Hat as [Hlim _ Hn Htr _ _].
  assert (lb_truncated b = false) as Hnt by (rewrite Htr; apply Z.ltb_ge; done).
  assert (0 < lb_offered k b ≤ k) as Hoff.
  { unfold lb_offered. rewrite Hlim, Hn. destruct (Z.ltb_spec (limit - str_len came) k); lia. }
  pose proof (so_read_spec (lb_offered k b) s ltac:(lia) Hl) as Hs. pose proof (lb_Read_open k (λ room, (so_read room s).1) b Hnt He) as Ho.
  pose proof (body_read peeking limit came came b k (λ room, (so_read room s).1)) as Hb.
  destruct (lb_Read k _ b) as [[kept err] b']. specialize (Hb kept err b' ltac:(pose proof (str_len_nonneg came); lia) ltac:(lia) (so_honest s) Hat Hw eq_refl).
  unfold lb_taken in Hb. rewrite Hnt, He, bool_decide_false in Hb |- * by (intros [? ?]; done). cbn [orb] in Hb |- *. destruct Hb as [Hb Hw'].
  destruct (so_read (lb_offered k b) s) as [[got e] s']. cbn [fst snd] in *. destruct Hs as (Hlen&Hdat&Hl'&Hok&Hend). destruct Ho as [-> Hre].
  split_and!; [done|done|]. exists got. pose proof (ba_truncated _ _ _ _ _ Hb) as Ht'. split_and!; [done|done|]. rewrite Ht' in *.
  destruct (Z.ltb_spec limit (str_len (came +:+ got))) as [|Hin]; [done|].
  assert (kept = got) as ->.
  { pose proof (ba_out _ _ _ _ _ Hb) as Hout. rewrite str_take_all in Hout by (unfold str_len in *; lia). by apply (inj (String.append came)) in Hout. }
  split_and!; [done|lia|]. destruct e as [e|].
  - destruct Hend as [-> Hnil]. split_and!; [done|done|]. rewrite Hre. unfold so_end. by destruct (so_ok s).
  - split; [done|]. split; try done. by rewrite Hd, Hdat, string_app_assoc.
Qed.

(** How a copied body stands: everything up to the cap, and what the trailer will
say. *)
Record copied (s : Source) (chunks : list string) (came : string) (total : Z) (err : option copy_error) (b : limitedBody) : Prop := {
  cp_data : came +:+ foldr String.append "" chunks = str_take (Z.to_nat limit) data;
  cp_total : total = Z.min limit (str_len data);
  cp_err : err = if limit <? str_len data then Some (CopyRead RTooLarge) else if so_ok s then None else Some (CopyRead RFailed);
  cp_body : ∃ all, body_at peeking limit all (str_take (Z.to_nat limit) data) b ∧ (limit <? str_len all) = (limit <? str_len data);
  cp_fresh : lb_warned b = false;
  cp_readErr : lb_readErr b = if limit <? str_len data then None else if so_ok s then None else Some RFailed
}.

(** The last read of a copy. *)
Lemma copied_last k came s b kept e s' b' : 0 < k → midway came s b → spoke_read k (s, b) = (kept, Some e, (s', b')) →
  copied s (if String.eqb kept "" then [] else [kept]) came (str_len came + str_len kept) (match e with REOF => None | e => Some (CopyRead e) end) b'.
Proof.
  intros Hk Hm Hr. pose proof (spoke_read_midway k came s b Hk Hm) as H. rewrite Hr in H. destruct H as (Hok&Hw&got&Hd&Hb&H).
  assert (data = (came +:+ got) +:+ so_data s') as Hdata by (rewrite (mw_data _ _ _ Hm), Hd; symmetry; apply string_app_assoc).
  assert (came +:+ foldr String.append "" (if String.eqb kept "" then [] else [kept]) = came +:+ kept) as Hfold.
  { destruct (String.eqb_spec kept "") as [->|]; [done|]. cbn [foldr]. by rewrite string_app_nil_r. }
  pose proof (ba_out _ _ _ _ _ Hb) as Hout. pose proof (str_len_nonneg (so_data s')).
  assert (str_take (Z.to_nat limit) data = came +:+ kept) as Htake.
  { rewrite Hdata, str_take_app_le, <- Hout. destruct (Z.ltb_spec limit (str_len (came +:+ got))).
    - replace (Z.to_nat limit - String.length (came +:+ got))%nat with 0%nat by (unfold str_len in *; lia). by rewrite str_take_0, string_app_nil_r.
    - destruct H as (_&_&_&->&_). destruct (Z.to_nat _ - _)%nat; by rewrite string_app_nil_r. }
  assert ((limit <? str_len (came +:+ got)) = (limit <? str_len data)) as Hsame.
  { rewrite Hdata, (str_len_app _ (so_data s')). destruct (Z.ltb_spec limit (str_len (came +:+ got))) as [|Hle].
    - symmetry. apply Z.ltb_lt. lia.
    - destruct H as (_&_&_&->&_). change (str_len "") with 0. symmetry. apply Z.ltb_ge. lia. }
  split.
  - by rewrite Hfold.
  - rewrite <- str_len_app, <- Htake, str_len_take. pose proof (mw_fits _ _ _ Hm). pose proof (str_len_nonneg came). lia.
  - rewrite <- Hsame. destruct (limit <? str_len (came +:+ got)).
    + by destruct H as [[= ->] _].
    + destruct H as (_&_&->&_). unfold so_end. by destruct (so_ok s).
  - exists (came +:+ got). by rewrite Htake.
  - done.
  - rewrite <- Hsame. destruct (limit <? str_len (came +:+ got)); [by destruct H|]. by destruct H as (_&_&_&_&?).
Qed.

Lemma streamBody_copies chunkBytes budget fuel came s b : 0 < chunkBytes → limit ≤ budget → midway came s b → (String.length (so_data s) < fuel)%nat →
  ∃ chunks total err s' b', streamBody spoke_read chunkBytes fuel budget (str_len came) None (s, b) = Some (chunks, total, false, err, (s', b')) ∧
    copied s chunks came total err b'.
Proof.
  intros Hc Hlb. revert came s b. induction fuel as [|fuel IH]; intros came s b Hm Hf; [lia|]. cbn [streamBody].
  pose proof (mw_fits _ _ _ Hm) as Hfit. destruct (Z.leb_spec (budget - str_len came) 0) as [Hfull|Hroom].
  - pose proof (spoke_read_midway 1 came s b ltac:(lia) Hm) as H. destruct (spoke_read 1 (s, b)) as [[kept err] [s' b']] eqn:Hr.
    destruct H as (Hok&Hw&got&Hd&Hb&H). pose proof (str_len_nonneg got). pose proof (str_len_nonneg came).
    assert (kept = "") as ->.
    { pose proof (ba_out _ _ _ _ _ Hb) as Hout. apply (f_equal str_len) in Hout. rewrite str_len_take, !str_len_app in Hout.
      destruct kept; [done|]. unfold str_len in *. cbn [String.length] in *. lia. }
    destruct err as [e|].
    + eexists _, _, _, _, _. split; [reflexivity|]. pose proof (copied_last 1 came s b "" e s' b' ltac:(lia) Hm Hr) as Hcp.
      change (str_len "") with 0 in Hcp. rewrite Z.add_0_r in Hcp. by destruct e.
    + exfalso. destruct (limit <? str_len (came +:+ got)); [by destruct H|]. by destruct H as (<-&_&?&_).
  - set (lim := if budget - str_len came <? chunkBytes then _ else _). assert (0 < lim) as Hlim by (unfold lim; destruct (_ <? _); lia).
    pose proof (spoke_read_midway lim came s b Hlim Hm) as H. destruct (spoke_read lim (s, b)) as [[kept err] [s' b']] eqn:Hr.
    rewrite bool_decide_false by done. rewrite andb_false_r. destruct H as (Hok&Hw&got&Hd&Hb&H). destruct err as [e|].
    + pose proof (copied_last lim came s b kept e s' b' Hlim Hm Hr) as Hcp. destruct e; by eexists _, _, _, _, _.
    + destruct (limit <? str_len (came +:+ got)); [by destruct H|]. destruct H as (->&_&Hne&Hm').
      destruct (IH (came +:+ got) s' b' Hm') as (chunks&total&err&s''&b''&Hrun&Hcp).
      { rewrite Hd, string_length_app in Hf. destruct got; [done|]. cbn [String.length] in Hf. lia. }
      rewrite (proj2 (String.eqb_neq got "") Hne). cbn [fmap option_fmap option_map]. rewrite <- str_len_app, Hrun. cbn [mbind option_bind].
      eexists _, _, _, _, _. split; [reflexivity|]. destruct Hcp as [H1 H2 H3 H4 H5 H6]. rewrite Hok in H3, H6. split; try done.
      cbn [app foldr]. by rewrite <- string_app_assoc.
Qed.

End copying.

(** ** From the local Prometheus to the caller in the hub *)

(** What the spoke's client answers with: the body under its cap. *)
Definition prom_answer (decode : string → option (list string)) (status : Z) (contentType encoding : string) (limit latency : Z) (peek : bool) (src : Source)
  : HandlerResponse (Source * limitedBody) :=
  {| hr_StatusCode := status; hr_ContentType := contentType; hr_ContentEncoding := encoding; hr_Body := Some (src, newLimitedBody limit latency peek);
     hr_Trailer := Some (λ st, (lb_trailer decode st.2).1) |}.

Lemma sent_data chunks rest : sent (((λ d, Got (ChunkData d)) <$> chunks) ++ rest) = foldr String.append "" chunks +:+ sent rest.
Proof. induction chunks as [|c chunks IH]; [done|]. cbn. by rewrite IH, string_app_assoc. Qed.

Lemma ending_data chunks rest : ending (((λ d, Got (ChunkData d)) <$> chunks) ++ rest) = ending rest.
Proof. by induction chunks. Qed.

(** The trailer the hub shows for such a body. *)
Definition prom_trailer (text : copy_error → string) (decode : string → option (list string)) (limit latency : Z) (peek : bool) (src : Source) : HubTrailer :=
  let n := str_len (so_data src) in
  {| ht_BytesTotal := Z.min limit n; ht_UpstreamLatency := Z.quot latency Millisecond * Millisecond; ht_Truncated := limit <? n;
     ht_Warnings := if peek && (Z.min limit n <=? warningsPeekLimit) then extractWarnings decode (Some (str_take (Z.to_nat limit) (so_data src))) else [];
     ht_Err := if limit <? n then Some (TUpstream (text (CopyRead RTooLarge))) else if so_ok src then None else Some (TUpstream (text (CopyRead RFailed))) |}.

Lemma lb_trailer_copied peek limit data s chunks came total err decode latency b : 0 ≤ limit →
  copied peek limit data s chunks came total err b → lb_latency b = latency →
  (lb_trailer decode b).1 =
    {| bt_BytesTotal := Z.min limit (str_len data); bt_UpstreamLatency := latency; bt_Truncated := limit <? str_len data;
       bt_Warnings := if peek && (Z.min limit (str_len data) <=? warningsPeekLimit) then extractWarnings decode (Some (str_take (Z.to_nat limit) data)) else [];
       bt_Err := if limit <? str_len data then Some RTooLarge else if so_ok s then None else Some RFailed |}.
Proof.
  intros Hl [_ _ _ (all&[Hlim Hout Hn Ht Hc Hp]&Hsame) Hw Hre] Hlat. unfold lb_trailer. rewrite Hw. cbn.
  rewrite Hn, Ht, Hsame, Hlat, Hre, (Hp Hw), str_len_take, Z2Nat.id by done. f_equal.
  - destruct peek; cbn [andb]; [|done]. by destruct (limit `min` str_len data <=? warningsPeekLimit).
  - by destruct (limit <? str_len data).
Qed.

Lemma streamBody_latency chunkBytes fuel budget sent0 breaks s b chunks total tr err s' b' :
  streamBody spoke_read chunkBytes fuel budget sent0 breaks (s, b) = Some (chunks, total, tr, err, (s', b')) → lb_latency b' = lb_latency b.
Proof.
  revert sent0 breaks s b chunks. induction fuel as [|fuel IH]; intros sent0 breaks s b chunks; [done|]. cbn [streamBody].
  assert (∀ k got e s1 b1, spoke_read k (s, b) = (got, e, (s1, b1)) → lb_latency b1 = lb_latency b) as Hread.
  { intros k got e s1 b1. unfold spoke_read. pose proof (lb_latency_read k (λ room, (so_read room s).1) b) as H.
    destruct (lb_Read _ _ _) as [[? ?] ?]. cbn in H. intros [= _ _ _ <-]. done. }
  destruct (_ <=? 0).
  - destruct (spoke_read 1 (s, b)) as [[got e] [s1 b1]] eqn:E. intros [= _ _ _ _ _ <-]. by eapply Hread.
  - set (lim := if _ <? _ then _ else _). destruct (spoke_read lim (s, b)) as [[got e] [s1 b1]] eqn:E. apply Hread in E as HE.
    destruct (_ && _); [by intros [= _ _ _ _ _ <-]|]. destruct e as [[]|]; try by intros [= _ _ _ _ _ <-].
    destruct (streamBody _ _ _ _ _ _ _) as [[[[[? ?] ?] ?] [? ?]]|] eqn:Hrun; cbn [mbind option_bind]; [|done].
    intros [= _ -> -> -> -> ->]. rewrite <- HE. by eapply IH.
Qed.

Section end_to_end.
(** A request the hub lets out, the spoke's client, and the answer of Prometheus. *)
Context (text : copy_error → string) (decode : string → option (list string)) (c : Client) (req : TunnelRequest) (src : Source).
Context (status : Z) (ctype encoding : string) (latency : Z) (peek : bool) (chunkBytes elapsed : Z) (fuel : nat).
Context (Hv : validateRequest (Some req) = true) (Hm : tq_MaxResponseBytes req ≤ 2 ^ 62) (Hc : 0 < cl_maxResponseBytes c) (Hlat : 0 < latency < 2 ^ 63)
  (Hch : 0 < chunkBytes) (Hsrc : live src) (Ht1 : text (CopyRead RTooLarge) ≠ "") (Ht2 : text (CopyRead RFailed) ≠ "")
  (Hfuel : (String.length (so_data src) < fuel)%nat).

Local Definition cap : Z := effective_limit c req.

(** The spoke's side of the call. *)
Definition spoke_run : option (list ProxyChunk * Recv) :=
  spoke_Proxy spoke_read text None chunkBytes fuel (requestToProto req)
    (λ req, Ok (prom_answer decode status ctype encoding (effective_limit c req) latency peek src)) elapsed None.

(** How the body ends in the hub. *)
Definition prom_end : term :=
  if cap <? str_len (so_data src) then TUpstream (text (CopyRead RTooLarge)) else if so_ok src then TEOF else TUpstream (text (CopyRead RFailed)).

Lemma response_arrives caller done :
  ∃ messages, spoke_run = Some (ChunkHead (wrap_int32 status) ctype encoding :: messages, RecvEOF) ∧
    body_spec caller done (tq_MaxResponseBytes req) ((Got <$> messages) ++ [RecvEOF]) =
      (str_take (Z.to_nat cap) (so_data src), Some (prom_end, prom_trailer text decode cap latency peek src)).
Proof.
  set (data := so_data src). unfold spoke_run, spoke_Proxy. rewrite request_crosses by done. cbn [hr_Body prom_answer].
  rewrite bool_decide_false by done. unfold prom_end. fold data. set (limit := cap). change (effective_limit c req) with limit.
  assert (0 < tq_MaxResponseBytes req) as Hpos by (unfold validateRequest in Hv; apply andb_true_iff in Hv as [_ H]; by apply negb_true_iff, Z.leb_gt in H).
  destruct (effective_limit_spec c req Hc) as [[Hl0 _] Hl1]. specialize (Hl1 Hpos). change (effective_limit c req) with limit in Hl0, Hl1.
  assert (midway peek limit data "" src (newLimitedBody limit latency peek)) as Hmid.
  { split; try done; [apply body_start; lia|change (str_len "") with 0; lia]. }
  destruct (streamBody_copies peek limit data chunkBytes (tq_MaxResponseBytes req) fuel "" src _ Hch Hl1 Hmid Hfuel) as (chunks&total&err&s'&b'&Hrun&Hcp).
  apply streamBody_latency in Hrun as Hlat'. change (str_len "") with 0 in Hrun. change (pred <$> None) with (@None nat). rewrite Hrun. cbn [mbind option_bind].
  exists ((ChunkData <$> chunks) ++ [ChunkTrail (trail_for text elapsed total false err (Some (lb_trailer decode b').1))])%list. split.
  { rewrite bool_decide_false by done. destruct err; reflexivity. }
  rewrite (lb_trailer_copied peek limit data src chunks "" total err decode latency b' ltac:(lia) Hcp Hlat').
  destruct Hcp as [Hd Htot Herr _ _ _]. change ("" +:+ foldr String.append "" chunks) with (foldr String.append "" chunks) in Hd.
  unfold body_spec. rewrite fmap_app, <- app_assoc, <- list_fmap_compose. change (Got ∘ ChunkData) with (λ d, Got (ChunkData d)).
  rewrite sent_data, ending_data. cbn [app fmap list_fmap sent ending]. rewrite string_app_nil_r, Hd, str_len_take.
  pose proof (str_len_nonneg data). rewrite Z2Nat.id by lia. destruct (Z.ltb_spec (tq_MaxResponseBytes req) (limit `min` str_len data)); [lia|].
  f_equal; [apply str_take_all; pose proof (str_len_take (Z.to_nat limit) data); unfold str_len in *; lia|].
  rewrite Htot, Herr. cbn [verdict_of]. unfold trail_for, prom_trailer, trailer_of, counted. fold data.
  cbn [bt_Err bt_UpstreamLatency bt_Truncated bt_Warnings rt_BytesTotal rt_UpstreamDurationMs rt_Truncated rt_Warnings rt_Error orb ht_BytesTotal ht_UpstreamLatency ht_Truncated ht_Warnings ht_Err].
  rewrite wrap_uint64_id by lia. destruct (Z.ltb_spec 0 latency); [|lia].
  rewrite wrap_int64_id by (unfold int64_range, min_int64, max_int64, Millisecond in *; pose proof (Z.quot_rem' latency 1000000); pose proof (Z.rem_bound_pos latency 1000000); lia).
  assert (limit `min` str_len data `min` max_int64 = limit `min` str_len data) as -> by (unfold max_int64; lia).
  replace (if (limit `min` str_len data =? 0) && (0 <? limit `min` str_len data) then limit `min` str_len data else limit `min` str_len data)
    with (limit `min` str_len data) by (by destruct (_ && _)).
  apply String.eqb_neq in Ht1 as E1, Ht2 as E2. destruct (limit <? str_len data); [by rewrite E1, E1|]. destruct (so_ok src); [done|]. by rewrite E2, E2.
Qed.

(** What the proxy of the hub sees of the reader's last answer. *)
Definition cause_of (e : term) : option Cause :=
  match e with
  | TEOF => None
  | TTooLarge => Some [SResponseTooLarge]
  | TCanceled => Some [SCanceled]
  | TDeadline => Some [SDeadlineExceeded]
  | TBodyClosed | TProtocol | TUpstream _ | TSessionClosed | TStatus _ => Some []
  end.

Definition hub_response (body : string) (e : term) (tr : HubTrailer) : Response :=
  {| rp_StatusCode := wrap_int32 status; rp_Body := Some {| st_data := body; st_end := cause_of e |}; rp_ContentEncoding := encoding;
     rp_Trailer := Some {| tl_Warnings := ht_Warnings tr; tl_Truncated := ht_Truncated tr; tl_Err := ht_Err tr ≫= cause_of |} |}.

Lemma conclude_arrived gunzip call now reg : encoding ≠ "gzip" →
  conclude gunzip call (Ok (hub_response (str_take (Z.to_nat cap) (so_data src)) prom_end (prom_trailer text decode cap latency peek src))) (tq_MaxResponseBytes req) now reg =
  if negb (cap <? str_len (so_data src)) && so_ok src then
    (Some {| re_Body := so_data src; re_Status := wrap_int32 status; re_Warnings := ht_Warnings (prom_trailer text decode cap latency peek src);
             re_Truncated := false; re_Bytes := str_len (so_data src) |}, None)
  else (None, Some (EUpstream (ca_ClusterID call) [])).
Proof.
  intros Henc. apply String.eqb_neq in Henc.
  assert (0 < tq_MaxResponseBytes req) as Hpos by (unfold validateRequest in Hv; apply andb_true_iff in Hv as [_ H]; by apply negb_true_iff, Z.leb_gt in H).
  destruct (effective_limit_spec c req Hc) as [[Hl0 _] Hl1]. specialize (Hl1 Hpos). change (effective_limit c req) with cap in Hl0, Hl1.
  pose proof (str_len_take (Z.to_nat cap) (so_data src)) as Hlen. rewrite Z2Nat.id in Hlen by lia. pose proof (str_len_nonneg (so_data src)).
  unfold conclude, readCapped. cbn [rp_Body rp_ContentEncoding hub_response]. rewrite Henc, wrap_int64_id by (unfold int64_range, min_int64, max_int64; lia).
  cbn [st_data]. change (Z.of_nat (String.length (str_take (Z.to_nat cap) (so_data src)))) with (str_len (str_take (Z.to_nat cap) (so_data src))).
  destruct (Z.leb_spec (tq_MaxResponseBytes req + 1) (str_len (str_take (Z.to_nat cap) (so_data src)))); [lia|].
  unfold judge. cbn [st_data st_end]. change (Z.of_nat (String.length (str_take (Z.to_nat cap) (so_data src)))) with (str_len (str_take (Z.to_nat cap) (so_data src))).
  destruct (Z.ltb_spec (tq_MaxResponseBytes req) (str_len (str_take (Z.to_nat cap) (so_data src)))); [lia|].
  unfold prom_end. destruct (Z.ltb_spec cap (str_len (so_data src))) as [|Hin]; cbn [negb andb cause_of]; [done|]. destruct (so_ok src) eqn:Hok; cbn [cause_of]; [|done].
  cbn. rewrite Hok. apply Z.ltb_ge in Hin as E. rewrite E. cbn.
  rewrite str_take_all by (unfold str_len in *; lia). done.
Qed.
End end_to_end.


(** A body of nine bytes in two pieces, a budget of twenty, then of four. *)
Definition toy_source : Source := {| so_pieces := ["up 1"; " up 0"]; so_joined := true; so_ok := true |}.
Definition toy_text (e : copy_error) : string := "promclient: response exceeded the byte cap".
Definition toy_ask (n : Z) : TunnelRequest :=
  {| tq_Method := "POST"; tq_Path := "/api/v1/query"; tq_Form := "query=up"; tq_MaxResponseBytes := n; tq_AcceptGzip := true; tq_RequestID := "r1" |}.


(** Five bytes for a budget of four, and for one of five. *)
Definition toy_trail : ResponseTrail := {| rt_BytesTotal := 5; rt_UpstreamDurationMs := 3; rt_Truncated := false; rt_Warnings := []; rt_Error := "" |}.
Definition toy_stream : list Recv := [Got (ChunkData "abc"); Got (ChunkData "de"); Got (ChunkTrail toy_trail); RecvEOF].

Lemma hub_body_faithful_witness :
  (br_reads None false [2; 2; 2; 2] toy_stream (new_bodyReader 4)).1.1 = ("abcd", Some TTooLarge) ∧
  (br_reads None false [2; 2; 2; 2] toy_stream (new_bodyReader 5)).1.1 = ("abcde", Some TEOF) ∧
  "abcde" = sent toy_stream.
Proof.
  assert (Forall (λ k, 0 < k) [2; 2; 2; 2]) as Hk by (repeat (apply Forall_cons; split; [lia|]); apply Forall_nil; exact I).
  destruct (br_reads None false [2; 2; 2; 2] toy_stream (new_bodyReader 5)) as [[[out e] rest] b] eqn:E.
  pose proof (hub_body_faithful None false 5 toy_stream [2; 2; 2; 2] out e rest b ltac:(lia) Hk E) as H.
  split; [vm_compute; reflexivity|]. vm_compute in E. injection E as <- <- <- <-. split; [reflexivity|].
  destruct H as (_ & _ & _ & _ & H). destruct (H eq_refl) as [H1 _]. exact H1.
Defined.
