(* ===== verification/Collector.v ===== *)
(** What a spoke says of its cluster: [src/internal/clusterfacts].

[Refresh] asks the local Prometheus a fixed set of questions and publishes one
snapshot; [Describe] answers the hub from that snapshot, with nothing but the
fingerprint when the hub already has it.  Modelled are the collection of every
source with its failures, the text work ([parseGlobalSection], [detectFlavor],
[topPrefixes], [capList]), the size cap, the fingerprint and the answers; the
replies themselves come from [PromClient] and are arguments, as are the JSON
encoder with the hash over it, and [strings.ToLower] outside ASCII. *)

From S2P Require Import Prelude Fleet Text Utf8 Nearest GoFloat Render Registry Ca Sem Url Proxy PromClient GrpcTun.
From stdpp Require Import pretty.
From Stdlib Require Import Floats.PrimFloat.
Open Scope string_scope.
Open Scope Z_scope.

Definition DefaultTopN : Z := 25.
Definition DefaultMaxFactsBytes : Z := Z.shiftl 64 10.
Definition truncationNote : string := "[facts note: sampled lists were shortened to fit the facts size cap]".
Definition defaultRefreshInterval : Z := 10 * Minute.
Definition reasonNoKubernetesAccess : string :=
  "spoke has no Kubernetes API access by design; set PMF_CLUSTER_K8S_* or expose kubernetes_build_info to Prometheus".
Definition FlavorUnknown : string := "unknown".

(** * Texts *)

Fixpoint firstNonEmpty (vals : list string) : string :=
  match vals with [] => "" | v :: vals => if String.eqb v "" then firstNonEmpty vals else v end.

Definition truncateReason (s : string) : string :=
  if (String.length s <=? 300)%nat then s else str_take 300 s +:+ "...[clipped]".

(** [strings.TrimLeft] with a set of ASCII characters. *)
Fixpoint TrimLeft (s : string) (cutset : list ascii) : string :=
  match s with
  | EmptyString => ""
  | String c s' => if existsb (Ascii.eqb c) cutset then TrimLeft s' cutset else s
  end.

Definition dquote : ascii := "034".
Definition squote : ascii := "'".

Definition unquote (s : string) : string :=
  match s, last_char s with
  | String c _, Some d =>
    if (2 <=? String.length s)%nat && (Ascii.eqb c dquote && Ascii.eqb d dquote || Ascii.eqb c squote && Ascii.eqb d squote)
    then str_slice 1 (String.length s - 1) s else s
  | _, _ => s
  end.

(** Entering a pair unless its key or value is empty. *)
Definition put_pair (key val : string) (m : gmap string string) : gmap string string :=
  if negb (String.eqb key "") && negb (String.eqb val "") then <[key := val]> m else m.

Definition parseInlineMap (s : string) : gmap string string :=
  let s := TrimSpace s in
  if negb (HasPrefix s "{") || negb (HasSuffix s "}") then ∅
  else fold_left (λ m pair, match Cut pair ":" with
                            | Some (k, v) => put_pair (unquote (TrimSpace k)) (unquote (TrimSpace v)) m
                            | None => m
                            end) (SplitByte (str_slice 1 (String.length s - 1) s) ",") ∅.

(** ** The global section of a configuration *)

Record section_scan := { sc_global : bool; sc_external : bool; sc_indent : nat; sc_labels : gmap string string; sc_interval : string }.
Definition scan_start : section_scan := {| sc_global := false; sc_external := false; sc_indent := 0; sc_labels := ∅; sc_interval := "" |}.

Definition indent_of (line : string) : nat := String.length line - String.length (TrimLeft line [" "%char; "009"%char]).

(** A line of the section outside [external_labels]. *)
Definition scan_key (trimmed : string) (indent : nat) (s : section_scan) : section_scan :=
  match Cut trimmed ":" with
  | None => s
  | Some (key, val) =>
    let key := TrimSpace key in let val := TrimSpace val in
    if String.eqb key "scrape_interval" then
      {| sc_global := sc_global s; sc_external := sc_external s; sc_indent := sc_indent s; sc_labels := sc_labels s; sc_interval := unquote val |}
    else if String.eqb key "external_labels" then
      if String.eqb val "" then {| sc_global := sc_global s; sc_external := true; sc_indent := indent; sc_labels := sc_labels s; sc_interval := sc_interval s |}
      else {| sc_global := sc_global s; sc_external := sc_external s; sc_indent := sc_indent s; sc_labels := parseInlineMap val ∪ sc_labels s; sc_interval := sc_interval s |}
    else s
  end.

Definition scan_line (s : section_scan) (line : string) : section_scan :=
  let trimmed := TrimSpace line in
  if String.eqb trimmed "" || HasPrefix trimmed "#" then s
  else
    let indent := indent_of line in
    if (indent =? 0)%nat then
      {| sc_global := HasPrefix line "global:"; sc_external := false; sc_indent := sc_indent s; sc_labels := sc_labels s; sc_interval := sc_interval s |}
    else if negb (sc_global s) then s
    else if sc_external s && (sc_indent s <? indent)%nat then
      match Cut trimmed ":" with
      | Some (k, v) => {| sc_global := sc_global s; sc_external := sc_external s; sc_indent := sc_indent s;
                          sc_labels := put_pair (TrimSpace k) (unquote (TrimSpace v)) (sc_labels s); sc_interval := sc_interval s |}
      | None => s
      end
    else
      scan_key trimmed indent {| sc_global := sc_global s; sc_external := false; sc_indent := sc_indent s; sc_labels := sc_labels s; sc_interval := sc_interval s |}.

Definition parseGlobalSection (doc : string) : gmap string string * string :=
  let s := fold_left scan_line (SplitByte doc "010") scan_start in (sc_labels s, sc_interval s).

(** * Ranked and capped lists *)

Definition metricPrefix (name : string) : string :=
  let name := TrimLeft name ["_"%char] in
  if String.eqb name "" then ""
  else match Cut name "_" with
  | None => name
  | Some (first, rest) =>
    let second := match Cut rest "_" with Some (a, _) => a | None => rest end in
    if String.eqb second "" then first else first +:+ "_" +:+ second
  end.

Definition count_prefixes (names : list string) : gmap string Z :=
  fold_left (λ counts name, let p := metricPrefix name in if String.eqb p "" then counts else <[p := default 0 (counts !! p) + 1]> counts) names ∅.

(** The order of [topPrefixes]: most names first, then by name. *)
Definition rank_le (a b : string * Z) : Prop := b.2 < a.2 ∨ a.2 = b.2 ∧ String.le a.1 b.1.
#[export] Instance rank_le_dec : RelDecision rank_le.
Proof. intros a b. unfold rank_le. apply _. Defined.

(** A list cut to [topN], unless that is not positive. *)
Definition cut_to {A} (topN : Z) (l : list A) : list A := if (0 <? topN) && (topN <? Z.of_nat (length l)) then take (Z.to_nat topN) l else l.

Definition topPrefixes (names : list string) (topN : Z) : list string :=
  cut_to topN (fst <$> merge_sort rank_le (map_to_list (count_prefixes names))).

(** [slices.Compact]. *)
Fixpoint Compact (l : list string) : list string :=
  match l with
  | a :: (b :: _) as l' => if String.eqb a b then Compact l' else a :: Compact l'
  | l => l
  end.

Definition capList (l : list string) (topN : Z) : list string := cut_to topN (Compact (merge_sort String.le l)).

(** * Samples *)

Definition labelKey (labels : gmap string string) : string :=
  foldr (λ e acc, e.1 +:+ "=" +:+ e.2 +:+ "," +:+ acc) "" (merge_sort (λ a b : string * string, String.le a.1 b.1) (map_to_list labels)).

Definition sample_le (a b : Sample) : Prop := String.le (labelKey (sm_Labels a)) (labelKey (sm_Labels b)).
#[export] Instance sample_le_dec : RelDecision sample_le.
Proof. intros a b. unfold sample_le. apply _. Defined.

(** [sort.SliceStable]. *)
Definition sortedSamples (v : list Sample) : list Sample := merge_sort sample_le v.

(** The first answer that is not empty. *)
Definition first_of {A} (f : A → string) (l : list A) : string := firstNonEmpty (f <$> l).

(** * The fingerprint *)

Record canonicalFacts := {
  cn_ID : string;
  cn_DisplayName : string;
  cn_Description : string;
  cn_Labels : gmap string string;
  cn_AgentVersion : string;
  cn_ProtocolVersion : string;
  cn_Kubernetes : KubernetesInfo;
  cn_Prometheus : PrometheusInfo
}.

Definition sortedCopy (l : list string) : list string := merge_sort String.le l.

(** The members that count: the sampled lists in order, nothing the clock or the hub
sets. *)
Definition canonical (c : Cluster) : canonicalFacts :=
  let p := Prometheus c in
  {| cn_ID := ID c; cn_DisplayName := DisplayName c; cn_Description := Description c; cn_Labels := Labels c; cn_AgentVersion := AgentVersion c;
     cn_ProtocolVersion := Fleet.ProtocolVersion c; cn_Kubernetes := Kubernetes c;
     cn_Prometheus :=
       {| Reachable := Reachable p; UnreachableReason := UnreachableReason p; Flavor := Flavor p; prom_Version := prom_Version p; Retention := Retention p;
          ScrapeInterval := ScrapeInterval p; LookbackDelta := LookbackDelta p; ExternalLabels := ExternalLabels p; ActiveSeries := ActiveSeries p;
          MetricNames := MetricNames p; Jobs := sortedCopy (Jobs p); Namespaces := sortedCopy (Namespaces p); MetricPrefixes := sortedCopy (MetricPrefixes p);
          RuleGroups := RuleGroups p; AlertingRules := AlertingRules p; FiringAlerts := FiringAlerts p; HasAlertmanager := HasAlertmanager p |} |}.

(** * Changing parts of a cluster *)

Definition with_facts (p : PrometheusInfo) (k : KubernetesInfo) (c : Cluster) : Cluster :=
  {| ID := ID c; DisplayName := DisplayName c; Description := Description c; Labels := Labels c; Cluster_State := Cluster_State c; LastSeen := LastSeen c;
     ConnectedSince := ConnectedSince c; AgentVersion := AgentVersion c; Fleet.ProtocolVersion := Fleet.ProtocolVersion c; CertNotAfter := CertNotAfter c;
     Kubernetes := k; Prometheus := p |}.

Definition with_text (description : string) (seen : Z) (c : Cluster) : Cluster :=
  {| ID := ID c; DisplayName := DisplayName c; Description := description; Labels := Labels c; Cluster_State := Cluster_State c; LastSeen := seen;
     ConnectedSince := ConnectedSince c; AgentVersion := AgentVersion c; Fleet.ProtocolVersion := Fleet.ProtocolVersion c; CertNotAfter := CertNotAfter c;
     Kubernetes := Kubernetes c; Prometheus := Prometheus c |}.

Definition with_samples (jobs namespaces prefixes : list string) (external : gmap string string) (p : PrometheusInfo) : PrometheusInfo :=
  {| Reachable := Reachable p; UnreachableReason := UnreachableReason p; Flavor := Flavor p; prom_Version := prom_Version p; Retention := Retention p;
     ScrapeInterval := ScrapeInterval p; LookbackDelta := LookbackDelta p; ExternalLabels := external; ActiveSeries := ActiveSeries p;
     MetricNames := MetricNames p; Jobs := jobs; Namespaces := namespaces; MetricPrefixes := prefixes;
     RuleGroups := RuleGroups p; AlertingRules := AlertingRules p; FiringAlerts := FiringAlerts p; HasAlertmanager := HasAlertmanager p |}.

Definition unreachable (reason : string) (p : PrometheusInfo) : PrometheusInfo :=
  {| Reachable := false; UnreachableReason := reason; Flavor := Flavor p; prom_Version := prom_Version p; Retention := Retention p;
     ScrapeInterval := ScrapeInterval p; LookbackDelta := LookbackDelta p; ExternalLabels := ExternalLabels p; ActiveSeries := ActiveSeries p;
     MetricNames := MetricNames p; Jobs := Jobs p; Namespaces := Namespaces p; MetricPrefixes := MetricPrefixes p;
     RuleGroups := RuleGroups p; AlertingRules := AlertingRules p; FiringAlerts := FiringAlerts p; HasAlertmanager := HasAlertmanager p |}.

(** * The size cap *)

Definition halve (l : list string) : list string := if (length l <=? 1)%nat then [] else take (length l / 2) l.

Definition appendNote (desc note : string) : string := if String.eqb desc "" then note else desc +:+ " " +:+ note.

Definition shrinkSampled (c : Cluster) : option Cluster :=
  let p := Prometheus c in
  let shrunk p := Some (with_facts p (Kubernetes c) c) in
  if negb (bool_decide (Namespaces p = [])) then shrunk (with_samples (Jobs p) (halve (Namespaces p)) (MetricPrefixes p) (ExternalLabels p) p)
  else if negb (bool_decide (Jobs p = [])) then shrunk (with_samples (halve (Jobs p)) (Namespaces p) (MetricPrefixes p) (ExternalLabels p) p)
  else if negb (bool_decide (MetricPrefixes p = [])) then shrunk (with_samples (Jobs p) (Namespaces p) (halve (MetricPrefixes p)) (ExternalLabels p) p)
  else if negb (bool_decide (ExternalLabels p = ∅)) then shrunk (with_samples (Jobs p) (Namespaces p) (MetricPrefixes p) ∅ p)
  else None.

(** * The collector *)

Record FactsConfig := {
  fc_ClusterID : string;
  fc_DisplayName : string;
  fc_Description : string;
  fc_Labels : gmap string string;
  fc_AgentVersion : string;
  fc_ProtocolVersion : string;
  fc_StartedAt : Z;
  fc_Client : bool;
  fc_RefreshInterval : Z;
  fc_TopN : Z;
  fc_MaxFactsBytes : Z;
  fc_KubernetesVersion : string;
  fc_KubernetesClusterUID : string;
  fc_KubernetesNodeCount : Z
}.

Record Collector := {
  co_static : Cluster;
  co_refreshEvery : Z;
  co_topN : Z;
  co_maxFactsBytes : Z;
  co_k8sVersion : string;
  co_k8sUID : string;
  co_k8sNodeCount : Z;
  co_generation : Z;
  co_cluster : Cluster;
  co_fingerprint : string;
  co_lastRefresh : Z
}.

Definition orDefault (v def : Z) : Z := if v =? 0 then def else v.

Definition applyOperatorKubernetes (c : Collector) (info : KubernetesInfo) : KubernetesInfo :=
  let version := if String.eqb (co_k8sVersion c) "" then k8s_Version info else co_k8sVersion c in
  let uid := if String.eqb (co_k8sUID c) "" then ClusterUID info else co_k8sUID c in
  let nodes := if 0 <? co_k8sNodeCount c then co_k8sNodeCount c else NodeCount info in
  let known := negb (String.eqb version "") || negb (String.eqb uid "") || (0 <? nodes) in
  {| Available := known || Available info; UnavailableReason := if known then "" else UnavailableReason info;
     k8s_Version := version; ClusterUID := uid; NodeCount := nodes |}.

Definition no_kubernetes : KubernetesInfo :=
  {| Available := false; UnavailableReason := reasonNoKubernetesAccess; k8s_Version := ""; ClusterUID := ""; NodeCount := 0 |}.

Definition no_prometheus (reachable : bool) (reason : string) : PrometheusInfo :=
  {| Reachable := reachable; UnreachableReason := reason; Flavor := ""; prom_Version := ""; Retention := ""; ScrapeInterval := ""; LookbackDelta := "";
     ExternalLabels := ∅; ActiveSeries := -1; MetricNames := -1; Jobs := []; Namespaces := []; MetricPrefixes := []; RuleGroups := 0; AlertingRules := 0;
     FiringAlerts := 0; HasAlertmanager := false |}.

Section collector.
(** The hash of the encoded facts in hexadecimal, the length of the encoding of a
cluster, and lower case outside ASCII. *)
Context (digest : canonicalFacts → string) (size : Cluster → option Z) (unicode_lower : string → string).

Definition Fingerprint (c : Cluster) : string := digest (canonical c).

Definition publish (cluster : Cluster) (at_ : Z) (c : Collector) : Collector :=
  {| co_static := co_static c; co_refreshEvery := co_refreshEvery c; co_topN := co_topN c; co_maxFactsBytes := co_maxFactsBytes c;
     co_k8sVersion := co_k8sVersion c; co_k8sUID := co_k8sUID c; co_k8sNodeCount := co_k8sNodeCount c; co_generation := co_generation c;
     co_cluster := cluster; co_fingerprint := Fingerprint cluster; co_lastRefresh := if IsZero at_ then co_lastRefresh c else at_ |}.

(** The loop of [capSize] with the rounds it has left. *)
Fixpoint cap_loop (rounds : nat) (truncated : bool) (maxBytes : Z) (c : Cluster) : bool * Cluster :=
  match rounds with
  | O => (truncated, c)
  | S rounds =>
    match size c with
    | None => (truncated, c)
    | Some n =>
      if n <=? maxBytes then (truncated, c)
      else match shrinkSampled c with
      | None => (truncated, c)
      | Some c => cap_loop rounds true maxBytes c
      end
    end
  end.

Definition capSize (maxBytes : Z) (c : Cluster) : Cluster :=
  let '(truncated, c) := cap_loop 32 false maxBytes c in
  if truncated then with_text (appendNote (Description c) truncationNote) (LastSeen c) c else c.

Definition collector_New (cfg : FactsConfig) (now : Z) : option Collector :=
  if negb (ValidClusterID (fc_ClusterID cfg)) then None
  else if negb (fc_Client cfg) then None
  else if fc_RefreshInterval cfg <? 0 then None
  else if fc_TopN cfg <? 0 then None
  else if fc_MaxFactsBytes cfg <? 0 then None
  else if fc_KubernetesNodeCount cfg <? 0 then None
  else
    let startedAt := if IsZero (fc_StartedAt cfg) then now else fc_StartedAt cfg in
    let static :=
      {| ID := fc_ClusterID cfg; DisplayName := fc_DisplayName cfg; Description := fc_Description cfg; Labels := fc_Labels cfg;
         Cluster_State := Cluster_State zero_Cluster; LastSeen := LastSeen zero_Cluster; ConnectedSince := ConnectedSince zero_Cluster;
         AgentVersion := fc_AgentVersion cfg; Fleet.ProtocolVersion := fc_ProtocolVersion cfg; CertNotAfter := CertNotAfter zero_Cluster;
         Kubernetes := Kubernetes zero_Cluster; Prometheus := Prometheus zero_Cluster |} in
    let c := {| co_static := static; co_refreshEvery := orDefault (fc_RefreshInterval cfg) defaultRefreshInterval; co_topN := orDefault (fc_TopN cfg) DefaultTopN;
                co_maxFactsBytes := orDefault (fc_MaxFactsBytes cfg) DefaultMaxFactsBytes; co_k8sVersion := fc_KubernetesVersion cfg;
                co_k8sUID := fc_KubernetesClusterUID cfg; co_k8sNodeCount := fc_KubernetesNodeCount cfg; co_generation := UnixNano startedAt;
                co_cluster := zero_Cluster; co_fingerprint := ""; co_lastRefresh := 0 |} in
    let initial := with_facts (no_prometheus false "facts have not been collected yet") (applyOperatorKubernetes c no_kubernetes) static in
    Some (publish initial 0 c).

(** ** The sources *)

Inductive config_reply := ConfigGated | ConfigFailed | ConfigDoc (yaml : string).

(** What the local Prometheus has to say to one [Refresh]; [None] is a source that
failed, [ry_ping] the text of a failed ping. *)
Record Replies := {
  ry_ping : option string;
  ry_server : string;
  ry_version : option string;
  ry_flags : option (gmap string string);
  ry_config : config_reply;
  ry_build : option (list Sample);
  ry_interval : option (list Sample);
  ry_tsdb : option (Z * list (string * Z));
  ry_names : option (list string);
  ry_jobs : option (list string);
  ry_namespaces : option (list string);
  ry_rules : option (list (list string));
  ry_alerts : option (list string);
  ry_alertmanagers : option nat;
  ry_kube : option (list Sample);
  ry_nodes : option (list Sample)
}.

Definition detectFlavor (serverHeader version : string) (flags : gmap string string) : string :=
  let haystack := ToLower unicode_lower (serverHeader +:+ " " +:+ version) in
  let has := str_Contains haystack in
  if has "thanos" then "Thanos"
  else if has "mimir" then "Mimir"
  else if has "cortex" then "Cortex"
  else if has "victoriametrics" || has "vmselect" || has "vmsingle" || has "victoria-metrics" then "VictoriaMetrics"
  else if has "prometheus" then "Prometheus"
  else if negb (String.eqb (map_get flags "storage.tsdb.path") "") && negb (String.eqb version "") then "Prometheus"
  else FlavorUnknown.

Definition nonExternalLabels : list string :=
  ["__name__"; "instance"; "job"; "version"; "revision"; "branch"; "goversion"; "goarch"; "goos"; "tags"; "container"; "endpoint"; "namespace"; "pod"; "service";
   "node"; "pod_template_hash"].

Definition external_of (s : Sample) : gmap string string := filter (λ e, Contains nonExternalLabels e.1 = false ∧ e.2 ≠ "") (sm_Labels s).

(** [externalLabelsByQuery] on its answer. *)
Fixpoint externalLabelsByQuery (v : list Sample) : gmap string string :=
  match v with [] => ∅ | s :: v => if bool_decide (external_of s = ∅) then externalLabelsByQuery v else external_of s end.

Definition scrapeIntervalByQuery (v : list Sample) : string := first_of (λ s, map_get (sm_Labels s) "interval") v.

Definition kubernetesVersionByQuery (v : list Sample) : string :=
  first_of (λ s, first_of (map_get (sm_Labels s)) ["git_version"; "gitVersion"; "version"]) v.

(** A value that is not a number converts to no positive count. *)
Definition nodeCountByQuery (v : list Sample) : Z :=
  match v with
  | [] => 0
  | s :: _ => let n := sm_Value s in if (n <? 0)%float || (2147483647 <? n)%float then 0 else trunc_float n
  end.

Definition tsdbStatus (r : option (Z * list (string * Z))) : Z * Z :=
  match r with
  | None => (-1, -1)
  | Some (series, counts) => (series, match list_find (λ e, e.1 = "__name__") counts with Some (_, (_, n)) => n | None => -1 end)
  end.

Definition ruleCounts (groups : list (list string)) : Z * Z :=
  (wrap_int32 (Z.of_nat (length groups)), wrap_int32 (Z.of_nat (length (filter (λ t, t = "alerting") (concat groups))))).

Definition firingAlerts (states : list string) : Z := wrap_int32 (Z.of_nat (length (filter (λ s, s = "firing") states))).

Definition kubernetes (c : Collector) (r : Replies) : KubernetesInfo :=
  let version := from_option (λ v, kubernetesVersionByQuery (sortedSamples v)) "" (ry_kube r) in
  let nodes := from_option nodeCountByQuery 0 (ry_nodes r) in
  let nodes := if 0 <? nodes then nodes else 0 in
  let known := negb (String.eqb version "") || (0 <? nodes) in
  applyOperatorKubernetes c
    {| Available := known; UnavailableReason := if known then "" else reasonNoKubernetesAccess; k8s_Version := version; ClusterUID := ""; NodeCount := nodes |}.

(** What [Refresh] makes of Prometheus once it answers. *)
Definition collect (c : Collector) (r : Replies) : PrometheusInfo :=
  let version := default "" (ry_version r) in
  let flags := default ∅ (ry_flags r) in
  let '(configLabels, configInterval) := match ry_config r with ConfigDoc yaml => parseGlobalSection yaml | _ => (∅, "") end in
  let interval := firstNonEmpty [map_get flags "scrape.interval"; map_get flags "promscrape.scrapeInterval"] in
  let interval := if String.eqb interval "" then configInterval else interval in
  let labels := if bool_decide (configLabels = ∅) then from_option (λ v, externalLabelsByQuery (sortedSamples v)) ∅ (ry_build r) else configLabels in
  let interval := if String.eqb interval "" then from_option (λ v, scrapeIntervalByQuery (sortedSamples v)) "" (ry_interval r) else interval in
  let '(activeSeries, tsdbNames) := tsdbStatus (ry_tsdb r) in
  let '(groups, alerting) := from_option ruleCounts (0, 0) (ry_rules r) in
  {| Reachable := true; UnreachableReason := ""; Flavor := detectFlavor (ry_server r) version flags; prom_Version := version;
     Retention := firstNonEmpty [map_get flags "storage.tsdb.retention.time"; map_get flags "storage.tsdb.retention"; map_get flags "storage.tsdb.retention.size"];
     ScrapeInterval := interval; LookbackDelta := map_get flags "query.lookback-delta"; ExternalLabels := labels; ActiveSeries := activeSeries;
     MetricNames := match ry_names r with Some names => Z.of_nat (length names) | None => tsdbNames end;
     Jobs := from_option (λ l, capList l (co_topN c)) [] (ry_jobs r); Namespaces := from_option (λ l, capList l (co_topN c)) [] (ry_namespaces r);
     MetricPrefixes := match ry_names r with Some names => topPrefixes names (co_topN c) | None => [] end;
     RuleGroups := groups; AlertingRules := alerting; FiringAlerts := from_option firingAlerts 0 (ry_alerts r);
     HasAlertmanager := match ry_alertmanagers r with Some n => (0 <? n)%nat | None => false end |}.

(** The failures [Refresh] reports, in its order; a probe is only made when the
sources before it gave nothing. *)
Definition problems (c : Collector) (r : Replies) : list string :=
  let failed {A} (o : option A) (source : string) := match o with Some _ => [] | None => [source] end in
  let flags := default ∅ (ry_flags r) in
  let '(configLabels, configInterval) := match ry_config r with ConfigDoc yaml => parseGlobalSection yaml | _ => (∅, "") end in
  let flagged := firstNonEmpty [map_get flags "scrape.interval"; map_get flags "promscrape.scrapeInterval"] in
  (failed (ry_version r) "buildinfo" ++ failed (ry_flags r) "flags" ++ match ry_config r with ConfigFailed => ["status/config"] | _ => [] end ++
   (if bool_decide (configLabels = ∅) then failed (ry_build r) "external labels probe" else []) ++
   (if String.eqb flagged "" && String.eqb configInterval "" then failed (ry_interval r) "scrape interval probe" else []) ++
   failed (ry_tsdb r) "status/tsdb" ++ failed (ry_names r) "label_values(__name__)" ++ failed (ry_jobs r) "label_values(job)" ++
   failed (ry_namespaces r) "label_values(namespace)" ++ failed (ry_rules r) "rules" ++ failed (ry_alerts r) "alerts" ++ failed (ry_alertmanagers r) "alertmanagers" ++
   failed (ry_kube r) "kubernetes_build_info" ++ failed (ry_nodes r) "count(kube_node_info)")%list.

(** [Refresh] at [now], published at [done]; with the sources that failed. *)
Definition Refresh (r : Replies) (now done : Z) (c : Collector) : Collector * list string :=
  let base := with_text (Description (co_static c)) now (co_static c) in
  match ry_ping r with
  | Some reason =>
    let prev := co_cluster c in
    let cluster := with_facts (unreachable (truncateReason reason) (Prometheus prev)) (applyOperatorKubernetes c (Kubernetes prev)) base in
    (publish (capSize (co_maxFactsBytes c) cluster) done c, ["ping prometheus"])
  | None => (publish (capSize (co_maxFactsBytes c) (with_facts (collect c r) (kubernetes c r) base)) done c, problems c r)
  end.

(** [Facts] and [Describe]; [None] is a caller whose context has ended. *)
Definition collector_Facts (c : Collector) : Facts :=
  {| f_Fingerprint := co_fingerprint c; f_Changed := true; f_Cluster := co_cluster c; f_Generation := co_generation c |}.

Definition Describe (ended : bool) (known : string) (c : Collector) : option Facts :=
  if ended then None
  else if negb (String.eqb known "") && String.eqb known (co_fingerprint c) then
    Some {| f_Fingerprint := co_fingerprint c; f_Changed := false; f_Cluster := zero_Cluster; f_Generation := co_generation c |}
  else Some (collector_Facts c).

End collector.

(** * Lists *)

Lemma cut_to_spec {A} topN (l : list A) : ∃ n, cut_to topN l = take n l ∧ (0 < topN → Z.of_nat (length (cut_to topN l)) ≤ topN).
Proof.
  unfold cut_to. destruct (Z.ltb_spec 0 topN); cbn [andb]; [|exists (length l); rewrite take_ge by lia; split; [done|lia]].
  destruct (Z.ltb_spec topN (Z.of_nat (length l))).
  - exists (Z.to_nat topN). split; [done|]. rewrite length_take. lia.
  - exists (length l). rewrite take_ge by lia. split; [done|lia].
Qed.

Lemma StronglySorted_take {A} (R : A → A → Prop) n l : StronglySorted R l → StronglySorted R (take n l).
Proof.
  intros Hs. revert n. induction Hs as [|x l Hs IH Hx]; intros [|n]; cbn; [constructor..|]. constructor; [done|]. by apply Forall_take.
Qed.

Lemma Compact_spec l : StronglySorted String.le l → StronglySorted String.le (Compact l) ∧ NoDup (Compact l) ∧ ∀ x, x ∈ Compact l ↔ x ∈ l.
Proof.
  induction 1 as [|a l Hs (IHs & IHn & IHe) Ha].
  { cbn. split_and!; [constructor|constructor|done]. }
  destruct l as [|b l].
  { cbn. split_and!; [by repeat constructor|apply NoDup_singleton|done]. }
  change (Compact (a :: b :: l)) with (if String.eqb a b then Compact (b :: l) else a :: Compact (b :: l)).
  destruct (String.eqb_spec a b) as [->|Hne].
  - split_and!; [done|done|]. intros x. rewrite IHe. rewrite !elem_of_cons. tauto.
  - assert (Forall (String.le a) (Compact (b :: l))) as Ha'.
    { apply Forall_forall. intros x Hx%IHe. rewrite Forall_forall in Ha. by apply Ha. }
    split_and!; [by constructor| |].
    + constructor; [|done]. intros Hin%IHe. apply Hne. apply (anti_symm String.le).
      * apply Forall_cons in Ha as [? _]. done.
      * apply elem_of_cons in Hin as [->|Hin]; [done|]. apply StronglySorted_inv in Hs as [_ Hb]. rewrite Forall_forall in Hb. by apply Hb.
    + intros x. rewrite (elem_of_cons _ x a), (elem_of_cons (b :: l) x a), IHe. done.
Qed.

(** A sampled list: in order, without repetitions, of names that came, the first
[topN] of them. *)
Lemma capList_spec l topN : StronglySorted String.le (capList l topN) ∧ NoDup (capList l topN) ∧ (∀ x, x ∈ capList l topN → x ∈ l) ∧
  (0 < topN → Z.of_nat (length (capList l topN)) ≤ topN).
Proof.
  unfold capList. destruct (Compact_spec (merge_sort String.le l) (StronglySorted_merge_sort _ _)) as (Hs & Hn & He).
  destruct (cut_to_spec topN (Compact (merge_sort String.le l))) as (n & Heq & Hlen). split_and!; [..|done]; rewrite Heq.
  - by apply StronglySorted_take.
  - eapply sublist_NoDup; [done|apply sublist_take].
  - intros x Hx. apply elem_of_take in Hx as (i & Hx & _). apply list_elem_of_lookup_2, He in Hx. by rewrite merge_sort_Permutation in Hx.
Qed.

#[export] Instance rank_le_total : Total rank_le.
Proof. intros a b. unfold rank_le. destruct (Z.lt_total a.2 b.2) as [|[|]]; [right; by left| |left; by left]. destruct (base.total String.le a.1 b.1); [left|right]; by right. Qed.
#[export] Instance rank_le_trans : Transitive rank_le.
Proof. intros a b c. unfold rank_le. intros [?|[? ?]] [?|[? ?]]; [left; lia|left; lia|left; lia|]. right. split; [lia|]. by etrans. Qed.

(** How many of the names have a prefix. *)
Definition prefix_count (names : list string) (p : string) : Z := Z.of_nat (length (filter (λ n, metricPrefix n = p) names)).

Lemma count_prefixes_spec names p :
  count_prefixes names !! p = if bool_decide (p ≠ "" ∧ p ∈ (metricPrefix <$> names)) then Some (prefix_count names p) else None.
Proof.
  unfold count_prefixes, prefix_count. induction names as [|n names IH] using rev_ind.
  { rewrite bool_decide_false; [done|]. intros [_ H]. by apply not_elem_of_nil in H. }
  rewrite fold_left_app. cbn [fold_left]. set (m := fold_left _ names ∅) in *. rewrite filter_app, fmap_app, length_app. cbn [fmap list_fmap].
  destruct (String.eqb_spec (metricPrefix n) "") as [Hn|Hn].
  - rewrite IH. destruct (decide (p = "")) as [->|Hp]; [by rewrite !bool_decide_false by (by intros [? _])|].
    rewrite filter_cons_False by congruence. rewrite filter_nil, Nat.add_0_r.
    apply (f_equal (λ b : bool, if b then _ else _)), bool_decide_ext. rewrite elem_of_app, list_elem_of_singleton. naive_solver congruence.
  - destruct (decide (metricPrefix n = p)) as [Heq|Hne].
    + rewrite Heq in *. rewrite lookup_insert_eq, filter_cons_True, filter_nil by done. rewrite bool_decide_true by (split; [done|]; set_solver).
      rewrite IH. f_equal. case_bool_decide as Hin; cbn; [lia|].
      destruct (filter (λ n0, metricPrefix n0 = p) names) as [|x xs] eqn:E; [done|]. exfalso. apply Hin. split; [done|].
      assert (x ∈ filter (λ n0, metricPrefix n0 = p) names) as [Hx Hxin]%list_elem_of_filter by (rewrite E; left).
      apply list_elem_of_fmap. by exists x.
    + rewrite lookup_insert_ne, IH, filter_cons_False, filter_nil, Nat.add_0_r by done.
      apply (f_equal (λ b : bool, if b then _ else _)), bool_decide_ext. rewrite elem_of_app, list_elem_of_singleton. naive_solver.
Qed.

Lemma prefix_count_pos names p : p ∈ (metricPrefix <$> names) ↔ 0 < prefix_count names p.
Proof.
  unfold prefix_count. rewrite list_elem_of_fmap. split.
  - intros (n & -> & Hn). assert (n ∈ filter (λ m, metricPrefix m = metricPrefix n) names) as H by by apply list_elem_of_filter.
    destruct (filter _ names); [by apply not_elem_of_nil in H|cbn; lia].
  - intros H. destruct (filter (λ m, metricPrefix m = p) names) as [|n l] eqn:E; [done|].
    assert (n ∈ filter (λ m, metricPrefix m = p) names) as [Hp Hn]%list_elem_of_filter by (rewrite E; left). by exists n.
Qed.

Lemma StronglySorted_fmap_inv {A B} (f : A → B) (R : B → B → Prop) l : StronglySorted R (f <$> l) → StronglySorted (λ x y, R (f x) (f y)) l.
Proof.
  induction l as [|x l IH]; cbn; intros H; [constructor|]. apply StronglySorted_inv in H as [Hl Hx]. constructor; [by apply IH|]. exact (proj1 (Forall_fmap f (R (f x)) l) Hx).
Qed.

(** The order of the published prefixes. *)
Definition commoner (names : list string) (p q : string) : Prop :=
  prefix_count names q < prefix_count names p ∨ prefix_count names p = prefix_count names q ∧ String.le p q.

(** All the prefixes, ranked. *)
Lemma ranked_spec names : let all := fst <$> merge_sort rank_le (map_to_list (count_prefixes names)) in
  NoDup all ∧ StronglySorted (commoner names) all ∧ ∀ p, p ∈ all ↔ p ≠ "" ∧ 0 < prefix_count names p.
Proof.
  set (ranked := merge_sort rank_le (map_to_list (count_prefixes names))).
  assert (Hin : ∀ e, e ∈ ranked ↔ e.2 = prefix_count names e.1 ∧ e.1 ≠ "" ∧ 0 < prefix_count names e.1).
  { intros [p n]. unfold ranked. rewrite merge_sort_Permutation, elem_of_map_to_list, count_prefixes_spec, <- prefix_count_pos. cbn [fst snd].
    case_bool_decide as H; (split; [intros [= <-]; tauto|intros (-> & ?); first [done|tauto]]). }
  assert (Hall : ranked = (λ p, (p, prefix_count names p)) <$> (fst <$> ranked)).
  { rewrite <- list_fmap_compose. rewrite <- (list_fmap_id ranked) at 1. apply list_fmap_ext. intros i [p n] Hl. apply list_elem_of_lookup_2, Hin in Hl as [Hn _]. cbn in *. by rewrite <- Hn. }
  split_and!.
  - unfold ranked. rewrite merge_sort_Permutation. apply NoDup_fst_map_to_list.
  - apply (StronglySorted_fmap_inv (λ p, (p, prefix_count names p)) rank_le). rewrite <- Hall. apply (StronglySorted_merge_sort rank_le).
  - intros p. rewrite list_elem_of_fmap. split; [intros (e & -> & He%Hin); tauto|]. intros [Hp Hc]. exists (p, prefix_count names p). split; [done|]. by apply Hin.
Qed.

(** The metric prefixes a spoke publishes are the most common ones: a list of at
most [topN] different prefixes of its metric names, those shared by the most
names first and by name among equals, and no prefix left out is shared by more
names than one that is listed; nothing is left out below the limit. *)
Theorem topPrefixes_correct names topN : 0 < topN →
  let out := topPrefixes names topN in
  NoDup out ∧ Z.of_nat (length out) ≤ topN ∧ StronglySorted (commoner names) out ∧
  (∀ p, p ∈ out → p ≠ "" ∧ 0 < prefix_count names p) ∧
  (∀ q, q ≠ "" → 0 < prefix_count names q → q ∉ out → Z.of_nat (length out) = topN ∧ ∀ p, p ∈ out → commoner names p q).
Proof.
  intros Htop out. destruct (ranked_spec names) as (Hnd & Hs & Hin). unfold out, topPrefixes. set (all := fst <$> _) in *.
  destruct (cut_to_spec topN all) as (n & Heq & Hlen). split_and!.
  - rewrite Heq. eapply sublist_NoDup; [done|apply sublist_take].
  - by apply Hlen.
  - rewrite Heq. by apply StronglySorted_take.
  - intros p Hp. rewrite Heq in Hp. apply elem_of_take in Hp as (i & Hp & _). by apply list_elem_of_lookup_2, Hin in Hp.
  - intros q Hq Hc Hout. assert (q ∈ all) as Hall by by apply Hin. split.
    + unfold cut_to in *. destruct (Z.ltb_spec 0 topN); [|lia]. destruct (Z.ltb_spec topN (Z.of_nat (length all))); [|done]. cbn [andb]. rewrite length_take. lia.
    + rewrite Heq in *. rewrite <- (take_drop n all) in Hall, Hs. apply elem_of_app in Hall as [|Hd]; [done|]. intros p Hp. by eapply StronglySorted_app_1_elem_of.
Qed.

(** * The size cap *)

(** The rounds a list takes to disappear by halving. *)
Definition halvings (n : nat) : nat := if (n =? 0)%nat then 0 else S (Nat.log2 n).

Lemma log2_half n : (1 < n)%nat → S (Nat.log2 (n / 2)) = Nat.log2 n.
Proof.
  intros Hn. assert (1 ≤ n / 2)%nat by (apply Nat.div_le_lower_bound; lia). pose proof (Nat.div_mod_eq n 2) as Hd.
  pose proof (Nat.mod_upper_bound n 2 ltac:(lia)). destruct (Nat.eq_dec (n mod 2)%nat 0%nat) as [E|E].
  - rewrite Hd at 2. rewrite E, Nat.add_0_r. symmetry. apply Nat.log2_double. lia.
  - assert (n mod 2 = 1)%nat as E1 by lia. rewrite Hd at 2. rewrite E1. symmetry. apply Nat.log2_succ_double. lia.
Qed.

Lemma halvings_halve l : l ≠ [] → halvings (length l) = S (halvings (length (halve l))).
Proof.
  intros Hl. unfold halve, halvings. destruct l as [|x l]; [done|]. cbn [length Nat.eqb]. destruct (Nat.leb_spec (S (length l)) 1) as [H|H].
  - assert (length l = 0%nat) as -> by lia. done.
  - rewrite length_take. assert (S (length l) / 2 < S (length l))%nat by (apply Nat.div_lt; lia).
    assert (1 ≤ S (length l) / 2)%nat by (apply Nat.div_le_lower_bound; lia). rewrite Nat.min_l by (cbn [length]; lia).
    destruct (Nat.eqb_spec (S (length l) / 2) 0); [lia|]. f_equal. symmetry. apply log2_half. lia.
Qed.

Lemma halvings_bound n k : (n < 2 ^ k)%nat → (halvings n ≤ k)%nat.
Proof. intros H. unfold halvings. destruct (Nat.eqb_spec n 0); [lia|]. apply Nat.log2_lt_pow2; lia. Qed.

Definition rounds_left (c : Cluster) : nat :=
  let p := Prometheus c in
  halvings (length (Namespaces p)) + halvings (length (Jobs p)) + halvings (length (MetricPrefixes p)) + (if bool_decide (ExternalLabels p = ∅) then 0 else 1).

(** A cluster whose samples were shortened, nothing else. *)
Definition shortened (c c' : Cluster) : Prop :=
  let p := Prometheus c in
  ∃ i j k ext, (ext = ExternalLabels p ∨ ext = ∅) ∧
    c' = with_facts (with_samples (take i (Jobs p)) (take j (Namespaces p)) (take k (MetricPrefixes p)) ext p) (Kubernetes c) c.

Lemma shortened_refl c : shortened c c.
Proof.
  exists (length (Jobs (Prometheus c))), (length (Namespaces (Prometheus c))), (length (MetricPrefixes (Prometheus c))), (ExternalLabels (Prometheus c)).
  split; [by left|]. rewrite !take_ge by lia. by destruct c as [? ? ? ? ? ? ? ? ? ? ? []].
Qed.

Lemma shortened_trans a b c : shortened a b → shortened b c → shortened a c.
Proof.
  intros (i & j & k & e & He & ->) (i' & j' & k' & e' & He' & ->). cbn in *. rewrite !take_take.
  eexists _, _, _, e'. split; [|reflexivity]. destruct He' as [->| ->]; [done|by right].
Qed.

Lemma halve_take l : ∃ n, halve l = take n l.
Proof. unfold halve. destruct (_ <=? _)%nat; [by exists 0%nat|by eexists]. Qed.

Lemma shrinkSampled_spec c :
  match shrinkSampled c with
  | Some c' => shortened c c' ∧ rounds_left c = S (rounds_left c')
  | None => rounds_left c = 0%nat
  end.
Proof.
  destruct c as [? ? ? ? ? ? ? ? ? ? k p]. unfold shrinkSampled, rounds_left, shortened. cbn [Prometheus with_facts Kubernetes].
  destruct p as [? ? ? ? ? ? ? ext ? ? jobs ns pf ? ? ? ?]. cbn [Namespaces Jobs MetricPrefixes ExternalLabels with_samples].
  assert (∀ l : list string, take (length l) l = l) as Htake by (intros; by apply take_ge).
  case_bool_decide as H1; cbn [negb Prometheus with_facts with_samples Namespaces Jobs MetricPrefixes ExternalLabels Kubernetes].
  2:{ destruct (halve_take ns) as [n Hn]. split; [|rewrite (halvings_halve ns) by done; lia].
      exists (length jobs), n, (length pf), ext. split; [by left|]. by rewrite !Htake, Hn. }
  case_bool_decide as H2; cbn [negb Prometheus with_facts with_samples Namespaces Jobs MetricPrefixes ExternalLabels Kubernetes].
  2:{ destruct (halve_take jobs) as [n Hn]. split; [|rewrite (halvings_halve jobs) by done; lia].
      exists n, (length ns), (length pf), ext. split; [by left|]. by rewrite !Htake, Hn. }
  case_bool_decide as H3; cbn [negb Prometheus with_facts with_samples Namespaces Jobs MetricPrefixes ExternalLabels Kubernetes].
  2:{ destruct (halve_take pf) as [n Hn]. split; [|rewrite (halvings_halve pf) by done; lia].
      exists (length jobs), (length ns), n, ext. split; [by left|]. by rewrite !Htake, Hn. }
  subst. case_bool_decide as H4; cbn [negb Prometheus with_facts with_samples Namespaces Jobs MetricPrefixes ExternalLabels Kubernetes]; [done|]. rewrite bool_decide_true by done. split; [|cbn; lia].
  by exists 0%nat, 0%nat, 0%nat, ∅; split; [right|].
Qed.

Lemma cap_loop_spec size rounds t maxBytes c : let '(t', c') := cap_loop size rounds t maxBytes c in
  shortened c c' ∧ (t' = t ∧ c' = c ∨ t' = true) ∧
  ((rounds_left c ≤ rounds)%nat → match size c' with None => True | Some n => n ≤ maxBytes ∨ rounds_left c' = 0%nat end).
Proof.
  revert t c. induction rounds as [|rounds IH]; intros t c; cbn [cap_loop].
  { split_and!; [apply shortened_refl|by left|]. intros H. destruct (size c); [|done]. right. lia. }
  destruct (size c) as [n|] eqn:Hn.
  2:{ split_and!; [apply shortened_refl|by left|]. by rewrite Hn. }
  destruct (Z.leb_spec n maxBytes).
  { split_and!; [apply shortened_refl|by left|]. rewrite Hn. by left. }
  pose proof (shrinkSampled_spec c) as Hs. destruct (shrinkSampled c) as [c1|].
  - destruct Hs as [Hsh Hr]. specialize (IH true c1). destruct (cap_loop size rounds true maxBytes c1) as [t' c']. destruct IH as (Hsh' & Ht & Hfit).
    split_and!; [by eapply shortened_trans|right; by destruct Ht as [[-> _]|]|]. intros H'. apply Hfit. lia.
  - split_and!; [apply shortened_refl|by left|]. rewrite Hn. by right.
Qed.

(** Nothing that was sampled is left. *)
Lemma rounds_left_0 c : rounds_left c = 0%nat ↔
  Namespaces (Prometheus c) = [] ∧ Jobs (Prometheus c) = [] ∧ MetricPrefixes (Prometheus c) = [] ∧ ExternalLabels (Prometheus c) = ∅.
Proof.
  unfold rounds_left. assert (∀ l : list string, halvings (length l) = 0%nat ↔ l = []) as H.
  { intros l. unfold halvings. destruct (Nat.eqb_spec (length l) 0); destruct l; cbn in *; (split; [lia || done|lia || done]). }
  split.
  - intros Hs. rewrite <- !H. split_and!; [lia..|]. case_bool_decide; [done|lia].
  - intros (-> & -> & -> & ->). by rewrite bool_decide_true.
Qed.

(** How a capped cluster relates to the one collected. *)
Definition capped (size : Cluster → option Z) (maxBytes : Z) (c c' : Cluster) : Prop :=
  ∃ c0, shortened c c0 ∧ (c' = c0 ∧ c0 = c ∨ c' = with_text (appendNote (Description c) truncationNote) (LastSeen c) c0) ∧
    ((rounds_left c ≤ 32)%nat → match size c0 with None => True | Some n => n ≤ maxBytes ∨ rounds_left c0 = 0%nat end).

Lemma capSize_capped size maxBytes c : capped size maxBytes c (capSize size maxBytes c).
Proof.
  unfold capSize. pose proof (cap_loop_spec size 32 false maxBytes c) as H. destruct (cap_loop size 32 false maxBytes c) as [t c0].
  destruct H as (Hsh & Ht & Hfit). exists c0. split_and!; [done| |done]. destruct Ht as [[-> ->]| ->]; [by left|right].
  destruct Hsh as (i & j & k & e & _ & ->). done.
Qed.

(** * The published snapshot *)

Record samples_ok (topN : Z) (p : PrometheusInfo) : Prop := {
  so_jobs : StronglySorted String.le (Jobs p) ∧ NoDup (Jobs p) ∧ Z.of_nat (length (Jobs p)) ≤ topN;
  so_namespaces : StronglySorted String.le (Namespaces p) ∧ NoDup (Namespaces p) ∧ Z.of_nat (length (Namespaces p)) ≤ topN;
  so_prefixes : NoDup (MetricPrefixes p) ∧ Z.of_nat (length (MetricPrefixes p)) ≤ topN;
  so_reachable : Reachable p = true → UnreachableReason p = ""
}.

(** Kubernetes facts are available exactly when there is one, with the reason
otherwise. *)
Definition kube_known (k : KubernetesInfo) : bool := negb (String.eqb (k8s_Version k) "") || negb (String.eqb (ClusterUID k) "") || (0 <? NodeCount k).
Definition kube_ok (k : KubernetesInfo) : Prop := Available k = kube_known k ∧ UnavailableReason k = if kube_known k then "" else reasonNoKubernetesAccess.

(** The operator's values are in force. *)
Definition operator_wins (c : Collector) (k : KubernetesInfo) : Prop :=
  (co_k8sVersion c ≠ "" → k8s_Version k = co_k8sVersion c) ∧ (co_k8sUID c ≠ "" → ClusterUID k = co_k8sUID c) ∧ (0 < co_k8sNodeCount c → NodeCount k = co_k8sNodeCount c).

Lemma operator_kube c k : kube_ok k → kube_ok (applyOperatorKubernetes c k) ∧ operator_wins c (applyOperatorKubernetes c k).
Proof.
  intros [Ha Hr]. unfold applyOperatorKubernetes, kube_ok, operator_wins, kube_known in *. cbn [Available UnavailableReason k8s_Version ClusterUID NodeCount].
  rewrite Ha, Hr. clear Ha Hr.
  destruct (String.eqb_spec (co_k8sVersion c) ""), (String.eqb_spec (co_k8sUID c) ""), (Z.ltb_spec 0 (co_k8sNodeCount c));
    destruct (String.eqb_spec (k8s_Version k) ""), (String.eqb_spec (ClusterUID k) ""), (Z.ltb_spec 0 (NodeCount k));
    repeat match goal with H : ?x ≠ "" |- context [String.eqb ?x ""] => rewrite (proj2 (String.eqb_neq x "") H) | H : 0 < ?x |- context [0 <? ?x] => rewrite (proj2 (Z.ltb_lt 0 x) H) end;
    cbn [negb orb]; (split; [done|]); split_and!; intros; try done; lia.
Qed.

Section published.
Context (digest : canonicalFacts → string) (size : Cluster → option Z) (unicode_lower : string → string).
Notation refresh := (Refresh digest size unicode_lower).

Record published (c : Collector) : Prop := {
  pb_operator : ID (co_cluster c) = ID (co_static c) ∧ DisplayName (co_cluster c) = DisplayName (co_static c) ∧ Labels (co_cluster c) = Labels (co_static c) ∧
                AgentVersion (co_cluster c) = AgentVersion (co_static c) ∧ Fleet.ProtocolVersion (co_cluster c) = Fleet.ProtocolVersion (co_static c);
  pb_description : Description (co_cluster c) = Description (co_static c) ∨ Description (co_cluster c) = appendNote (Description (co_static c)) truncationNote;
  pb_fingerprint : co_fingerprint c = Fingerprint digest (co_cluster c);
  pb_samples : samples_ok (co_topN c) (Prometheus (co_cluster c));
  pb_kubernetes : kube_ok (Kubernetes (co_cluster c)) ∧ operator_wins c (Kubernetes (co_cluster c));
  pb_size : co_topN c < 1024 →
    ∃ c0, (co_cluster c = c0 ∨ co_cluster c = with_text (appendNote (Description (co_static c)) truncationNote) (LastSeen c0) c0) ∧
      match size c0 with None => True | Some n => n ≤ co_maxFactsBytes c ∨ rounds_left c0 = 0%nat end;
  pb_topN : 0 < co_topN c
}.

Lemma samples_shortened topN c c' : shortened c c' → samples_ok topN (Prometheus c) → samples_ok topN (Prometheus c').
Proof.
  intros (i & j & k & e & _ & ->) [(S1 & N1 & L1) (S2 & N2 & L2) [N3 L3] R].
  assert (∀ n (l : list string), NoDup l → NoDup (take n l)) as Hnd by (intros; eapply sublist_NoDup; [done|apply sublist_take]).
  split; cbn; rewrite ?length_take;
    [split_and!; [by apply StronglySorted_take|by apply Hnd|lia]|split_and!; [by apply StronglySorted_take|by apply Hnd|lia]|split; [by apply Hnd|lia]|done].
Qed.

Lemma samples_unreachable topN reason p : samples_ok topN p → samples_ok topN (unreachable reason p).
Proof. intros []. by split. Qed.

Lemma samples_collect c r : 0 < co_topN c → samples_ok (co_topN c) (collect unicode_lower c r).
Proof.
  intros Ht. unfold collect. destruct (match ry_config r with ConfigDoc yaml => _ | _ => _ end). destruct (tsdbStatus _). destruct (from_option ruleCounts _ _).
  split; cbn [Jobs Namespaces MetricPrefixes Reachable UnreachableReason]; [..|done].
  - destruct (ry_jobs r) as [l|]; cbn; [destruct (capList_spec l (co_topN c)) as (?&?&_&H); split_and!; try done; by apply H|split_and!; [constructor|constructor|lia]].
  - destruct (ry_namespaces r) as [l|]; cbn; [destruct (capList_spec l (co_topN c)) as (?&?&_&H); split_and!; try done; by apply H|split_and!; [constructor|constructor|lia]].
  - destruct (ry_names r) as [l|]; cbn; [|split; [constructor|lia]]. unfold topPrefixes. destruct (ranked_spec l) as (Hnd & _).
    destruct (cut_to_spec (co_topN c) (fst <$> merge_sort rank_le (map_to_list (count_prefixes l)))) as (n & Heq & Hlen). split; [|by apply Hlen].
    rewrite Heq. eapply sublist_NoDup; [done|apply sublist_take].
Qed.

Lemma samples_rounds c topN : samples_ok topN (Prometheus c) → topN < 1024 → (rounds_left c ≤ 32)%nat.
Proof.
  intros [(_ & _ & L1) (_ & _ & L2) [_ L3] _] Ht. unfold rounds_left.
  pose proof (halvings_bound (length (Namespaces (Prometheus c))) 10 ltac:(cbn; lia)). pose proof (halvings_bound (length (Jobs (Prometheus c))) 10 ltac:(cbn; lia)).
  pose proof (halvings_bound (length (MetricPrefixes (Prometheus c))) 10 ltac:(cbn; lia)). destruct (bool_decide _); lia.
Qed.

(** What [Refresh] publishes: facts in order, under the operator's name, capped. *)
Lemma publish_published p k now done c : samples_ok (co_topN c) p → kube_ok k → operator_wins c k → 0 < co_topN c →
  published (publish digest (capSize size (co_maxFactsBytes c) (with_facts p k (with_text (Description (co_static c)) now (co_static c)))) done c).
Proof.
  intros Hp Hk Ho Ht. set (cl := with_facts p k _). destruct (capSize_capped size (co_maxFactsBytes c) cl) as (c0 & Hsh & Hc & Hfit).
  set (out := capSize size (co_maxFactsBytes c) cl) in *.
  assert (samples_ok (co_topN c) (Prometheus c0)) as Hp0 by by apply (samples_shortened _ cl).
  assert (samples_ok (co_topN c) (Prometheus cl)) as Hpl by done.
  assert (Kubernetes c0 = k ∧ ID c0 = ID (co_static c) ∧ DisplayName c0 = DisplayName (co_static c) ∧ Labels c0 = Labels (co_static c) ∧
    AgentVersion c0 = AgentVersion (co_static c) ∧ Fleet.ProtocolVersion c0 = Fleet.ProtocolVersion (co_static c) ∧ LastSeen c0 = now ∧ Description c0 = Description (co_static c))
    as (K0 & I0 & D0 & L0 & A0 & P0 & S0 & T0) by (destruct Hsh as (i & j & l & e & _ & ->); done).
  assert (co_topN c < 1024 → match size c0 with None => True | Some n => n ≤ co_maxFactsBytes c ∨ rounds_left c0 = 0%nat end) as Hsize.
  { intros H. apply Hfit. by eapply samples_rounds. }
  destruct Hc as [[-> Hcl]| ->].
  - split; cbn; [done|by left|done|done|by rewrite K0|intros H; exists c0; split; [by left|by apply Hsize]|done].
  - split; cbn; [done|by right|done|done|by rewrite K0|intros H; exists c0; split; [right|by apply Hsize]|done]. cbn. by rewrite S0.
Qed.

Lemma kube_ok_query c r : kube_ok (kubernetes c r) ∧ operator_wins c (kubernetes c r).
Proof.
  unfold kubernetes. apply operator_kube. unfold kube_ok, kube_known. cbn [Available UnavailableReason k8s_Version ClusterUID NodeCount].
  set (v := from_option _ "" _). set (n := if 0 <? _ then _ else _). destruct (String.eqb v ""), (0 <? n); done.
Qed.

Lemma Refresh_published r now done c : published c → published (refresh r now done c).1.
Proof.
  intros Hc. unfold Refresh. destruct (ry_ping r) as [reason|]; cbn [fst]; apply publish_published; try exact (pb_topN _ Hc).
  - apply samples_unreachable, (pb_samples _ Hc).
  - apply operator_kube, (pb_kubernetes _ Hc).
  - apply operator_kube, (pb_kubernetes _ Hc).
  - apply samples_collect, (pb_topN _ Hc).
  - apply kube_ok_query.
  - apply kube_ok_query.
Qed.

Lemma New_published cfg now c : collector_New digest cfg now = Some c → published c.
Proof.
  unfold collector_New. destruct (ValidClusterID _); [|done]. destruct (fc_Client cfg); [|done]. destruct (fc_RefreshInterval cfg <? 0); [done|].
  destruct (Z.ltb_spec (fc_TopN cfg) 0); [done|]. destruct (fc_MaxFactsBytes cfg <? 0); [done|]. destruct (fc_KubernetesNodeCount cfg <? 0); [done|].
  cbn [negb]. intros [= <-].
  assert (0 < orDefault (fc_TopN cfg) DefaultTopN) as Ht by (unfold orDefault, DefaultTopN; destruct (Z.eqb_spec (fc_TopN cfg) 0); lia).
  split; cbn; [done|by left|done| |exact (operator_kube _ no_kubernetes (conj eq_refl eq_refl))|intros _|done].
  - split; cbn; [split_and!; [constructor|constructor|lia]|split_and!; [constructor|constructor|lia]|split; [constructor|lia]|done].
  - eexists. split; [by left|]. destruct (size _); [by right|done].
Qed.
End published.

(** * The hub's copy *)

Inductive facts_event := ERefresh (r : Replies) (now done : Z) | EPoll.

Section hub.
Context (digest : canonicalFacts → string) (size : Cluster → option Z) (unicode_lower : string → string).

(** A poll of the hub with the fingerprint and facts it holds, over the tunnel. *)
Definition poll (c : Collector) (h : string * Cluster) : string * Cluster :=
  match Describe false h.1 c with
  | None => h
  | Some f => let f := (session_Describe (factsToProto f (co_generation c)) 0).1 in if f_Changed f then (f_Fingerprint f, f_Cluster f) else h
  end.

Definition facts_step (st : Collector * (string * Cluster)) (e : facts_event) : Collector * (string * Cluster) :=
  match e with
  | ERefresh r now done => ((Refresh digest size unicode_lower r now done st.1).1, st.2)
  | EPoll => (st.1, poll st.1 st.2)
  end.

Definition facts_run (es : list facts_event) (c : Collector) : Collector * (string * Cluster) := fold_left facts_step es (c, ("", zero_Cluster)).

(** The hub's fingerprint is of the facts it holds. *)
Definition held (h : string * Cluster) : Prop := h = ("", zero_Cluster) ∨ h.1 = Fingerprint digest h.2.

Lemma canonical_reported c : canonical (reported c) = canonical c.
Proof. done. Qed.

Lemma Refresh_generation r now done c : co_generation (Refresh digest size unicode_lower r now done c).1 = co_generation c.
Proof. unfold Refresh. by destruct (ry_ping r). Qed.

Lemma poll_held c h : published digest size c → held h → held (poll c h).
Proof.
  intros Hc Hh. unfold poll, Describe. destruct (_ && _).
  - unfold session_Describe, factsToProto, factsFromProto. cbn. done.
  - unfold session_Describe. destruct (negb _); cbn; right; cbn; rewrite (pb_fingerprint _ _ _ Hc); unfold Fingerprint; by destruct (co_cluster c) as [? ? ? ? ? ? ? ? ? ? [] []].
Qed.

Lemma facts_run_inv es c : published digest size c → let '(c', h) := facts_run es c in published digest size c' ∧ held h ∧ co_generation c' = co_generation c.
Proof.
  intros Hc. unfold facts_run. induction es as [|e es IH] using rev_ind; [cbn; split_and!; [done|by left|done]|].
  rewrite fold_left_app. cbn [fold_left]. destruct (fold_left facts_step es _) as [c1 h1]. destruct IH as (H1 & H2 & H3). destruct e; cbn.
  - split_and!; [by apply Refresh_published|done|by rewrite Refresh_generation].
  - split_and!; [done|by apply poll_held|done].
Qed.
End hub.


(** C20: Whatever sources answer or fail, refresh after refresh, the snapshot a spoke
publishes keeps the operator's name, labels and versions and the operator's
Kubernetes facts; its description is the operator's, or that with the note; jobs
and namespaces are in order and without repetitions, no sampled list is longer
than [topN]; Kubernetes facts are available exactly when there is one; the
fingerprint is of these facts; and with [topN] below 1024 the 32 rounds of the
cap are enough: before the note the facts fit, or nothing sampled is left. *)
Theorem published_facts_ok digest size unicode_lower cfg now c rs :
  collector_New digest cfg now = Some c →
  published digest size (fold_left (λ c '(r, now, done), (Refresh digest size unicode_lower r now done c).1) rs c).
Proof.
  intros Hnew. apply (New_published digest size) in Hnew. revert c Hnew. induction rs as [|[[r t] d] rs IH]; intros c Hc; [done|]. apply IH. by apply Refresh_published.
Qed.

(** * What the code does besides *)

(** A spoke of six jobs with room for three, and an outage after that. *)
Definition toy_size (c : Cluster) : option Z := Some (100 * Z.of_nat (length (Jobs (Prometheus c))) + str_len (Description c)).
Definition toy_facts_config : FactsConfig :=
  {| fc_ClusterID := "prod-eu"; fc_DisplayName := "Production"; fc_Description := "api tier"; fc_Labels := {[ "env" := "prod" ]}; fc_AgentVersion := "1"; fc_ProtocolVersion := "1";
     fc_StartedAt := 7; fc_Client := true; fc_RefreshInterval := 0; fc_TopN := 0; fc_MaxFactsBytes := 310; fc_KubernetesVersion := "v1.30"; fc_KubernetesClusterUID := "";
     fc_KubernetesNodeCount := 0 |}.
Definition toy_replies (ping : option string) (names : list string) : Replies :=
  {| ry_ping := ping; ry_server := "Thanos/0.35"; ry_version := Some "0.35"; ry_flags := Some ∅; ry_config := ConfigGated; ry_build := Some []; ry_interval := None; ry_tsdb := None;
     ry_names := Some names; ry_jobs := Some ["c"; "a"; "b"; "a"; "f"; "e"; "d"]; ry_namespaces := Some []; ry_rules := Some [["alerting"; "recording"]]; ry_alerts := Some ["firing"];
     ry_alertmanagers := Some 1%nat; ry_kube := Some []; ry_nodes := None |}.
Definition toy_names : list string := ["kube_pod_info"; "up"; "kube_pod_status"; "kube_node_info"].

Section toys.
Context (digest : canonicalFacts → string).
Definition toy_collector : Collector :=
  default {| co_static := zero_Cluster; co_refreshEvery := 0; co_topN := 0; co_maxFactsBytes := 0; co_k8sVersion := ""; co_k8sUID := ""; co_k8sNodeCount := 0; co_generation := 0;
             co_cluster := zero_Cluster; co_fingerprint := ""; co_lastRefresh := 0 |} (collector_New digest toy_facts_config 9).
Definition toy_after (replies : list Replies) : Cluster :=
  co_cluster (fold_left (λ c r, (Refresh digest toy_size (λ s, s) r 20 21 c).1) replies toy_collector).

(** While Prometheus is down the shortened lists stay, and the note that they were
shortened goes. *)
Lemma outage_drops_note :
  let up := toy_after [toy_replies None toy_names] in let down := toy_after [toy_replies None toy_names; toy_replies (Some "refused") []] in
  Jobs (Prometheus up) = ["a"; "b"; "c"] ∧ Description up = "api tier " +:+ truncationNote ∧
  Jobs (Prometheus down) = ["a"; "b"; "c"] ∧ Description down = "api tier".
Proof. vm_compute. done. Qed.

(** The note itself is not counted: capped facts can be past the cap. *)
Lemma note_past_cap : ∃ n, toy_size (toy_after [toy_replies None toy_names]) = Some n ∧ co_maxFactsBytes toy_collector < n.
Proof. vm_compute. by eexists. Qed.

(** A ranking that changes without a change of members is not sent: the hub goes on
with the old one. *)
Lemma rank_change_unsent :
  let before := toy_after [toy_replies None ["kube_pod_a"; "kube_pod_b"; "up"]] in let after := toy_after [toy_replies None ["kube_pod_a"; "up"; "up"]] in
  MetricPrefixes (Prometheus before) = ["kube_pod"; "up"] ∧ MetricPrefixes (Prometheus after) = ["up"; "kube_pod"] ∧
  Fingerprint digest before = Fingerprint digest after.
Proof. split; [vm_compute; done|]. split; [vm_compute; done|]. apply (f_equal digest). vm_compute. done. Qed.
End toys.

(** Two words of the names share no prefix with a third. *)
Lemma topPrefixes_correct_witness :
  topPrefixes toy_names 2 = ["kube_pod"; "kube_node"] ∧ commoner toy_names "kube_node" "up".
Proof.
  destruct (topPrefixes_correct toy_names 2 ltac:(lia)) as (_ & _ & _ & _ & H). assert (topPrefixes toy_names 2 = ["kube_pod"; "kube_node"]) as E by (vm_compute; reflexivity).
  split; [exact E|]. destruct (H "up") as [_ Hup]; [discriminate|vm_compute; reflexivity| |].
  - rewrite E. intros Hin. apply elem_of_cons in Hin as [Hin|Hin]; [discriminate|]. apply list_elem_of_singleton in Hin. discriminate.
  - apply Hup. rewrite E. right. left.
Defined.

(** A hash without collisions. *)
Definition kube_tuple (k : KubernetesInfo) := (Available k, UnavailableReason k, k8s_Version k, ClusterUID k, NodeCount k).
Definition prom_tuple (p : PrometheusInfo) :=
  ((Reachable p, UnreachableReason p, Flavor p, prom_Version p, Retention p, ScrapeInterval p, LookbackDelta p, map_to_list (ExternalLabels p)),
   (ActiveSeries p, MetricNames p, Jobs p, Namespaces p, MetricPrefixes p), (RuleGroups p, AlertingRules p, FiringAlerts p, HasAlertmanager p)).
Definition toy_digest (f : canonicalFacts) : string :=
  String "x" (pretty (encode (cn_ID f, cn_DisplayName f, cn_Description f, map_to_list (cn_Labels f), cn_AgentVersion f, cn_ProtocolVersion f, kube_tuple (cn_Kubernetes f), prom_tuple (cn_Prometheus f)))).

Lemma toy_digest_inj a b : toy_digest a = toy_digest b → a = b.
Proof.
  unfold toy_digest. intros H. injection H as H. apply (inj pretty), (inj encode) in H. unfold kube_tuple, prom_tuple in H.
  assert (∀ m m' : gmap string string, map_to_list m = map_to_list m' → m = m') as Hm by (intros m m' E; apply map_to_list_inj; by rewrite E).
  destruct a as [? ? ? ? ? ? [] []], b as [? ? ? ? ? ? [] []]. cbn in H. simplify_eq. repeat match goal with E : map_to_list _ = map_to_list _ |- _ => apply Hm in E end. by subst.
Qed.


Lemma published_facts_ok_witness :
  published toy_digest toy_size (fold_left (λ c '(r, now, done), (Refresh toy_digest toy_size (λ s, s) r now done c).1)
    [(toy_replies None toy_names, 20, 21); (toy_replies (Some "refused") [], 30, 31)] (toy_collector toy_digest)).
Proof. apply (published_facts_ok toy_digest toy_size (λ s, s) toy_facts_config 9). reflexivity. Defined.
