(* ===== verification/Config.v ===== *)
(** The configuration of both binaries: [src/internal/config].

A flag has a default, an environment variable that replaces it and the command
line, which replaces both; [Validate] lists every problem of what results.
Modelled are the loader with the [flag] package's parsing of a command line, both
tables of flags, the grammars of labels and lifecycle stages, and both
validations; and what a validated configuration is worth to the components built
from it: the proxy and the tunnel server of the hub, the Prometheus client and
the facts collector of the spoke.  [url.Parse], [time.ParseDuration] and the
conversions of [strconv] other than decimal integers and booleans are arguments;
the help text and the log form of a configuration are left out. *)

From S2P Require Import Prelude Fleet Text Utf8 Nearest GoFloat Sanitize Step Render Registry Ca Sem Url Proxy CertProof HubApi Dialer Spoke PromClient WsTun GrpcTun Collector.
From Stdlib Require Import Floats.PrimFloat.
Open Scope string_scope.
Open Scope Z_scope.

(** * Labels *)

Definition MaxClusterLabels : nat := 32.

Definition letter_char (c : ascii) : bool := in_range 0x41 0x5A c || in_range 0x61 0x7A c || Ascii.eqb c "_".

(** [labelKeyRE] and [clusterSDLCRE]. *)
Definition config_labelKeyRE (s : string) : bool :=
  match s with EmptyString => false | String c s => letter_char c && str_forall (λ c, letter_char c || is_digit c) s end.
Definition clusterSDLCRE (s : string) : bool := dns_shaped (λ c, alnum_char c || Ascii.eqb c "-") 32 s.

Definition isControl (r : Z) : bool := (r <? 0x20) || (0x7F <=? r) && (r <=? 0x9F).
(** A control character is somewhere in the string. *)
Definition indexControl (s : string) : bool := existsb isControl (runes s).

Definition parse_pair (m : gmap string string) (pair : string) : option (gmap string string) :=
  let pair := TrimSpace pair in
  if String.eqb pair "" then None
  else
    '(rawKey, rawValue) ← Cut pair "=";
    let key := TrimSpace rawKey in let value := TrimSpace rawValue in
    if String.eqb key "" then None
    else if negb (config_labelKeyRE key) then None
    else if bool_decide (is_Some (m !! key)) then None
    else if indexControl value then None
    else Some (<[key := value]> m).

Definition ParseClusterLabels (s : string) : option (gmap string string) :=
  if String.eqb (TrimSpace s) "" then Some ∅
  else
    let pairs := SplitByte s "," in
    if (MaxClusterLabels <? length pairs)%nat then None
    else fold_left (λ o pair, o ≫= λ m, parse_pair m pair) pairs (Some ∅).

(** [strings.Join] with a comma. *)
Definition join_commas (l : list string) : string :=
  match l with [] => "" | a :: l => foldl (λ acc p, acc +:+ "," +:+ p) a l end.

Definition FormatClusterLabels (labels : gmap string string) : string :=
  join_commas ((λ e : string * string, e.1 +:+ "=" +:+ e.2) <$> merge_sort (λ a b : string * string, String.le a.1 b.1) (map_to_list labels)).

(** No problem with the labels. *)
Definition validateClusterLabels (labels : gmap string string) : bool :=
  (size labels <=? MaxClusterLabels)%nat && forallb (λ e : string * string, config_labelKeyRE e.1 && negb (indexControl e.2)) (map_to_list labels).

(** * The loader *)

Definition envPrefix : string := "PMF_".
Definition EnvKey (flagName : string) : string :=
  envPrefix +:+ map_bytes (λ c, if in_range 0x61 0x7A c then ascii_of_nat (nat_of_ascii c - 32) else c) (ReplaceAll flagName "-" "_").

Inductive load_error := ErrHelp | ErrUsage | ErrEnv (names : list string).

(** The kinds of a flag, as values. *)
Inductive flag_value :=
| VStr (s : string) | VDuration (d : Z) | VInt (n : Z) | VBytes (n : Z) | VBool (b : bool) | VRatio (f : float) | VList (l : list string) | VLabels (m : gmap string string).

Definition splitList (s : string) : list string :=
  if String.eqb (TrimSpace s) "" then [] else filter (λ p, p ≠ "") (TrimSpace <$> SplitByte s ",").

(** [strconv.ParseBool]. *)
Definition ParseBool (s : string) : option bool :=
  if Contains ["1"; "t"; "T"; "TRUE"; "true"; "True"] s then Some true
  else if Contains ["0"; "f"; "F"; "FALSE"; "false"; "False"] s then Some false
  else None.

Section loader.
Context (ParseDuration ParseInt0 : string → option Z) (ParseFloat : string → option float).

(** A value of the kind of [def] from the environment, and from a flag, where an
integer may be in any base. *)
Definition env_value (def : flag_value) (v : string) : option flag_value :=
  match def with
  | VStr _ => Some (VStr v)
  | VDuration _ => VDuration <$> ParseDuration v
  | VInt _ => VInt <$> ParseInt v
  | VBytes _ => VBytes <$> ParseInt v
  | VBool _ => VBool <$> ParseBool v
  | VRatio _ => VRatio <$> ParseFloat v
  | VList _ => Some (VList (splitList v))
  | VLabels _ => VLabels <$> ParseClusterLabels v
  end.

Definition flag_set (def : flag_value) (v : string) : option flag_value :=
  match def with
  | VInt _ => VInt <$> ParseInt0 v
  | VBytes _ => VBytes <$> ParseInt0 v
  | def => env_value def v
  end.

Definition flag_table : Type := list (string * flag_value).
Definition flag_default (t : flag_table) (name : string) : option flag_value := (list_to_map t : gmap string flag_value) !! name.

(** A flag's value before the command line, and whether its variable is bad. *)
Definition seeded (getenv : string → string) (name : string) (def : flag_value) : flag_value * bool :=
  let v := getenv (EnvKey name) in
  if String.eqb v "" then (def, false) else match env_value def v with Some x => (x, false) | None => (def, true) end.

(** [FlagSet.Parse] by [parseOne]: what is set, in order, and the arguments left. *)
Fixpoint flag_parse (t : flag_table) (args : list string) : result load_error (list (string * flag_value) * list string) :=
  match args with
  | [] => Ok ([], [])
  | s :: rest =>
    if (String.length s <? 2)%nat || negb (HasPrefix s "-") then Ok ([], args)
    else if String.eqb s "--" then Ok ([], rest)
    else
      let name := if HasPrefix s "--" then str_drop 2 s else str_drop 1 s in
      if HasPrefix name "-" || HasPrefix name "=" then Err ErrUsage
      else
        let '(name, value) := match Cut name "=" with Some (n, v) => (n, Some v) | None => (name, None) end in
        match flag_default t name with
        | None => Err (if String.eqb name "help" || String.eqb name "h" then ErrHelp else ErrUsage)
        | Some def =>
          let assign v rest := match flag_set def v with
                               | None => Err ErrUsage
                               | Some x => match rest with Ok (set, over) => Ok ((name, x) :: set, over) | Err e => Err e end
                               end in
          match def, value, rest with
          | VBool _, None, _ => assign "true" (flag_parse t rest)
          | _, Some v, _ => assign v (flag_parse t rest)
          | _, None, v :: rest' => assign v (flag_parse t rest')
          | _, None, [] => Err ErrUsage
          end
        end
  end.

(** The settings that result: the last flag, else the variable, else the default. *)
Definition settings (t : flag_table) (getenv : string → string) (set : list (string * flag_value)) : gmap string flag_value :=
  fold_left (λ m e, <[e.1 := e.2]> m) set (list_to_map ((λ e, (e.1, (seeded getenv e.1 e.2).1)) <$> t)).

Definition loader_load (t : flag_table) (args : list string) (getenv : string → string) : result load_error (gmap string flag_value) :=
  match flag_parse t args with
  | Err e => Err e
  | Ok (set, over) =>
    if negb (bool_decide (over = [])) then Err ErrUsage
    else
      let bad := filter (λ n, from_option (λ def, (seeded getenv n def).2) false (flag_default t n) = true) t.*1 in
      if bool_decide (bad = []) then Ok (settings t getenv set) else Err (ErrEnv bad)
  end.
End loader.

(** Reading a setting of a known kind. *)
Section getters.
Context (m : gmap string flag_value) (name : string).
Definition get_str : string := match m !! name with Some (VStr s) => s | _ => "" end.
Definition get_int : Z := match m !! name with Some (VDuration n | VInt n | VBytes n) => n | _ => 0 end.
Definition get_bool : bool := match m !! name with Some (VBool b) => b | _ => false end.
Definition get_ratio : float := match m !! name with Some (VRatio f) => f | _ => 0%float end.
Definition get_list : list string := match m !! name with Some (VList l) => l | _ => [] end.
Definition get_labels : gmap string string := match m !! name with Some (VLabels l) => l | _ => ∅ end.
End getters.

(** * The hub *)

Record HubConfig := {
  hc_MCPAddr : string;
  hc_TunnelPath : string;
  hc_AdminAddr : string;
  hc_LogLevel : string;
  hc_LogFormat : string;
  hc_DataDir : string;
  hc_StateBackend : string;
  hc_StateSecretName : string;
  hc_CASecretName : string;
  hc_StateFile : string;
  hc_Namespace : string;
  hc_PepperFile : string;
  hc_CACertFile : string;
  hc_CAKeyFile : string;
  hc_CATrustBundleFile : string;
  hc_CARotationEnabled : bool;
  hc_CARotateAtRemainingFraction : float;
  hc_CARotationPollInterval : Z;
  hc_TrustDomain : string;
  hc_PeerDiscoveryDomain : string;
  hc_SpokeCertTTL : Z;
  hc_EnrollmentTokenTTL : Z;
  hc_RenewGrace : Z;
  hc_AgentKeyTTL : Z;
  hc_AdminKeyTTL : Z;
  hc_StateRetention : Z;
  hc_StatePruneInterval : Z;
  hc_MaxSpokes : Z;
  hc_QueryTimeout : Z;
  hc_RangeQueryTimeout : Z;
  hc_MaxResponseBytes : Z;
  hc_MaxInflightPerCluster : Z;
  hc_MaxResponseBudgetBytes : Z;
  hc_FactsPollInterval : Z;
  hc_ShutdownDrainDelay : Z;
  hc_ShutdownGrace : Z;
  hc_PprofEnabled : bool;
  hc_EnableStatusConfig : bool;
  hc_OTLPEndpoint : string;
  hc_TraceSampleRatio : float;
  hc_PublicURL : string
}.

Definition hub_flags (getenv : string → string) : flag_table :=
  [("mcp-addr", VStr ":8080"); ("tunnel-path", VStr DefaultPath); ("admin-addr", VStr "127.0.0.1:9090"); ("log-level", VStr "info"); ("log-format", VStr "json");
   ("data-dir", VStr "/var/lib/prometheus-mcp-fleet"); ("state-backend", VStr "auto"); ("state-secret-name", VStr "prometheus-mcp-fleet-state");
   ("ca-secret-name", VStr "prometheus-mcp-fleet-ca"); ("state-file", VStr ""); ("namespace", VStr ""); ("pepper-file", VStr ""); ("ca-cert-file", VStr "");
   ("ca-key-file", VStr ""); ("ca-trust-bundle-file", VStr ""); ("ca-rotation-enabled", VBool true); ("ca-rotate-at-remaining-fraction", VRatio 0x1.999999999999ap-3%float);
   ("ca-rotation-poll-interval", VDuration (5 * Minute)); ("trust-domain", VStr "fleet.local"); ("peer-discovery-domain", VStr "");
   ("spoke-cert-ttl", VDuration (336 * Hour)); ("enrollment-token-ttl", VDuration (15 * Minute)); ("renew-grace", VDuration (30 * 24 * Hour));
   ("agent-key-ttl", VDuration (2160 * Hour)); ("admin-key-ttl", VDuration (2160 * Hour)); ("state-retention", VDuration (720 * Hour));
   ("state-prune-interval", VDuration (6 * Hour)); ("max-spokes", VInt 0); ("query-timeout", VDuration (30 * Second)); ("range-query-timeout", VDuration (120 * Second));
   ("max-response-bytes", VBytes 33554432); ("max-inflight-per-cluster", VInt 8); ("max-response-budget-bytes", VBytes 268435456);
   ("facts-poll-interval", VDuration (60 * Second)); ("shutdown-drain-delay", VDuration (5 * Second)); ("shutdown-grace", VDuration (30 * Second));
   ("pprof-enabled", VBool false); ("enable-status-config", VBool false); ("otel-exporter-otlp-endpoint", VStr (getenv "OTEL_EXPORTER_OTLP_ENDPOINT"));
   ("trace-sample-ratio", VRatio 0x1.999999999999ap-5%float); ("public-url", VStr "")].

(** The configuration of some settings; [Join] is [filepath.Join]. *)
Definition hub_of (Join : string → string → string) (m : gmap string flag_value) : HubConfig :=
  let dataDir := get_str m "data-dir" in
  let in_data name file := if String.eqb (get_str m name) "" && negb (String.eqb dataDir "") then Join dataDir file else get_str m name in
  let own_ca := String.eqb (get_str m "ca-cert-file") "" && String.eqb (get_str m "ca-key-file") "" && negb (String.eqb dataDir "") in
  {| hc_MCPAddr := get_str m "mcp-addr"; hc_TunnelPath := get_str m "tunnel-path"; hc_AdminAddr := get_str m "admin-addr"; hc_LogLevel := get_str m "log-level";
     hc_LogFormat := get_str m "log-format"; hc_DataDir := dataDir; hc_StateBackend := get_str m "state-backend"; hc_StateSecretName := get_str m "state-secret-name";
     hc_CASecretName := get_str m "ca-secret-name"; hc_StateFile := in_data "state-file" "state.json"; hc_Namespace := get_str m "namespace";
     hc_PepperFile := in_data "pepper-file" "pepper.key"; hc_CACertFile := if own_ca then Join dataDir "ca.crt" else get_str m "ca-cert-file";
     hc_CAKeyFile := if own_ca then Join dataDir "ca.key" else get_str m "ca-key-file"; hc_CATrustBundleFile := get_str m "ca-trust-bundle-file";
     hc_CARotationEnabled := get_bool m "ca-rotation-enabled"; hc_CARotateAtRemainingFraction := get_ratio m "ca-rotate-at-remaining-fraction";
     hc_CARotationPollInterval := get_int m "ca-rotation-poll-interval"; hc_TrustDomain := get_str m "trust-domain";
     hc_PeerDiscoveryDomain := get_str m "peer-discovery-domain"; hc_SpokeCertTTL := get_int m "spoke-cert-ttl"; hc_EnrollmentTokenTTL := get_int m "enrollment-token-ttl";
     hc_RenewGrace := get_int m "renew-grace"; hc_AgentKeyTTL := get_int m "agent-key-ttl"; hc_AdminKeyTTL := get_int m "admin-key-ttl";
     hc_StateRetention := get_int m "state-retention"; hc_StatePruneInterval := get_int m "state-prune-interval"; hc_MaxSpokes := get_int m "max-spokes";
     hc_QueryTimeout := get_int m "query-timeout"; hc_RangeQueryTimeout := get_int m "range-query-timeout"; hc_MaxResponseBytes := get_int m "max-response-bytes";
     hc_MaxInflightPerCluster := get_int m "max-inflight-per-cluster"; hc_MaxResponseBudgetBytes := get_int m "max-response-budget-bytes";
     hc_FactsPollInterval := get_int m "facts-poll-interval"; hc_ShutdownDrainDelay := get_int m "shutdown-drain-delay"; hc_ShutdownGrace := get_int m "shutdown-grace";
     hc_PprofEnabled := get_bool m "pprof-enabled"; hc_EnableStatusConfig := get_bool m "enable-status-config"; hc_OTLPEndpoint := get_str m "otel-exporter-otlp-endpoint";
     hc_TraceSampleRatio := get_ratio m "trace-sample-ratio"; hc_PublicURL := get_str m "public-url" |}.

(** * The spoke *)

Record SpokeConfig := {
  pc_HubEndpoints : list string;
  pc_HubAPIURL : string;
  pc_HubCAFile : string;
  pc_HubTLSInsecure : bool;
  pc_AllowInsecure : bool;
  pc_EnrollmentTokenFile : string;
  pc_ClusterID : string;
  pc_ClusterSDLC : string;
  pc_ClusterDisplayName : string;
  pc_ClusterDescription : string;
  pc_ClusterK8sVersion : string;
  pc_ClusterK8sUID : string;
  pc_ClusterK8sNodes : Z;
  pc_ClusterLabels : gmap string string;
  pc_IdentityBackend : string;
  pc_IdentitySecretName : string;
  pc_Namespace : string;
  pc_DataDir : string;
  pc_PrometheusURL : string;
  pc_PrometheusTimeout : Z;
  pc_PrometheusBearerTokenFile : string;
  pc_PrometheusTLSCAFile : string;
  pc_PrometheusTLSSkipVerify : bool;
  pc_PrometheusMaxResponseBytes : Z;
  pc_FactsRefreshInterval : Z;
  pc_ReconnectMinBackoff : Z;
  pc_ReconnectMaxBackoff : Z;
  pc_AdminAddr : string;
  pc_LogLevel : string;
  pc_LogFormat : string;
  pc_PprofEnabled : bool;
  pc_OTLPEndpoint : string;
  pc_TraceSampleRatio : float;
  pc_ShutdownDrainDelay : Z;
  pc_ShutdownGrace : Z
}.

Definition spoke_flags (getenv : string → string) : flag_table :=
  [("hub-endpoints", VList []); ("hub-api-url", VStr ""); ("hub-ca-file", VStr ""); ("hub-tls-insecure", VBool false); ("allow-insecure", VBool false);
   ("enrollment-token-file", VStr ""); ("cluster-id", VStr ""); ("cluster-sdlc", VStr ""); ("cluster-display-name", VStr ""); ("cluster-description", VStr "");
   ("cluster-k8s-version", VStr ""); ("cluster-k8s-uid", VStr ""); ("cluster-k8s-nodes", VInt 0); ("cluster-labels", VLabels ∅); ("identity-backend", VStr "auto");
   ("identity-secret-name", VStr "prometheus-mcp-fleet-identity"); ("namespace", VStr ""); ("data-dir", VStr "/var/lib/prometheus-mcp-fleet");
   ("prometheus-url", VStr "http://prometheus-operated.monitoring.svc:9090"); ("prometheus-timeout", VDuration (130 * Second)); ("prometheus-bearer-token-file", VStr "");
   ("prometheus-tls-ca-file", VStr ""); ("prometheus-tls-skip-verify", VBool false); ("prometheus-max-response-bytes", VBytes 33554432);
   ("facts-refresh-interval", VDuration (10 * Minute)); ("reconnect-min-backoff", VDuration (500 * Millisecond)); ("reconnect-max-backoff", VDuration (30 * Second));
   ("admin-addr", VStr ":9090"); ("log-level", VStr "info"); ("log-format", VStr "json"); ("pprof-enabled", VBool false);
   ("otel-exporter-otlp-endpoint", VStr (getenv "OTEL_EXPORTER_OTLP_ENDPOINT")); ("trace-sample-ratio", VRatio 0x1.999999999999ap-5%float);
   ("shutdown-drain-delay", VDuration (5 * Second)); ("shutdown-grace", VDuration (30 * Second))].

(** The loop of [NormaliseSDLC]: what is written, and whether a hyphen was last. *)
Definition sdlc_rune (st : string * bool) (r : Z) : string * bool :=
  let '(b, lastHyphen) := st in
  if (r =? 0x20) || (r =? 0x09) || (r =? 0x5F) || (r =? 0x2D) then if negb (String.eqb b "") && negb lastHyphen then (b +:+ "-", true) else (b, lastHyphen)
  else (b +:+ EncodeRune r, false).

Definition NormaliseSDLC (unicode_lower : string → string) (s : string) : string :=
  TrimSuffix (fold_left sdlc_rune (runes (ToLower unicode_lower (TrimSpace s))) ("", false)).1 "-".

Definition spoke_of (unicode_lower : string → string) (m : gmap string flag_value) : SpokeConfig :=
  {| pc_HubEndpoints := get_list m "hub-endpoints"; pc_HubAPIURL := get_str m "hub-api-url"; pc_HubCAFile := get_str m "hub-ca-file";
     pc_HubTLSInsecure := get_bool m "hub-tls-insecure"; pc_AllowInsecure := get_bool m "allow-insecure"; pc_EnrollmentTokenFile := get_str m "enrollment-token-file";
     pc_ClusterID := get_str m "cluster-id"; pc_ClusterSDLC := NormaliseSDLC unicode_lower (get_str m "cluster-sdlc");
     pc_ClusterDisplayName := get_str m "cluster-display-name"; pc_ClusterDescription := get_str m "cluster-description";
     pc_ClusterK8sVersion := get_str m "cluster-k8s-version"; pc_ClusterK8sUID := get_str m "cluster-k8s-uid"; pc_ClusterK8sNodes := get_int m "cluster-k8s-nodes";
     pc_ClusterLabels := get_labels m "cluster-labels"; pc_IdentityBackend := get_str m "identity-backend"; pc_IdentitySecretName := get_str m "identity-secret-name";
     pc_Namespace := get_str m "namespace"; pc_DataDir := get_str m "data-dir"; pc_PrometheusURL := get_str m "prometheus-url";
     pc_PrometheusTimeout := get_int m "prometheus-timeout"; pc_PrometheusBearerTokenFile := get_str m "prometheus-bearer-token-file";
     pc_PrometheusTLSCAFile := get_str m "prometheus-tls-ca-file"; pc_PrometheusTLSSkipVerify := get_bool m "prometheus-tls-skip-verify";
     pc_PrometheusMaxResponseBytes := get_int m "prometheus-max-response-bytes"; pc_FactsRefreshInterval := get_int m "facts-refresh-interval";
     pc_ReconnectMinBackoff := get_int m "reconnect-min-backoff"; pc_ReconnectMaxBackoff := get_int m "reconnect-max-backoff"; pc_AdminAddr := get_str m "admin-addr";
     pc_LogLevel := get_str m "log-level"; pc_LogFormat := get_str m "log-format"; pc_PprofEnabled := get_bool m "pprof-enabled";
     pc_OTLPEndpoint := get_str m "otel-exporter-otlp-endpoint"; pc_TraceSampleRatio := get_ratio m "trace-sample-ratio";
     pc_ShutdownDrainDelay := get_int m "shutdown-drain-delay"; pc_ShutdownGrace := get_int m "shutdown-grace" |}.

Section loads.
Context (ParseDuration ParseInt0 : string → option Z) (ParseFloat : string → option float) (Join : string → string → string) (unicode_lower : string → string).
Definition LoadHub (args : list string) (getenv : string → string) : result load_error HubConfig :=
  m ← loader_load ParseDuration ParseInt0 ParseFloat (hub_flags getenv) args getenv; Ok (hub_of Join m).
Definition LoadSpoke (args : list string) (getenv : string → string) : result load_error SpokeConfig :=
  m ← loader_load ParseDuration ParseInt0 ParseFloat (spoke_flags getenv) args getenv; Ok (spoke_of unicode_lower m).
End loads.

(** * Validation *)

(** [net.SplitHostPort]'s host and port. *)
Definition host_port (s : string) : option (string * string) :=
  match LastIndexByte s ":"%char with
  | None => None
  | Some i =>
    if negb (SplitHostPort s) then None
    else Some (match s with String "["%char _ => str_slice 1 (i - 1) s | _ => str_take i s end, str_drop (S i) s)
  end.

Definition in_ports (lo : Z) (port : string) : bool := match ParseInt port with Some n => (lo <=? n) && (n <=? 65535) | None => false end.

Section validate.
(** [url.Parse], as far as an endpoint and as far as a base URL needs it. *)
Context (parse : string → option EndpointURL) (parse_url : string → option URL).

(** Each check is true when there is no problem. *)
Definition checkAddr (addr : string) : bool :=
  match host_port addr with
  | None => false
  | Some (host, port) => negb (String.eqb addr "") && in_ports 0 port && negb (ContainsAny host [" "; "009"]%char)
  end.

Definition checkPath (path : string) : bool :=
  negb (String.eqb path "") && HasPrefix path "/" && negb (String.eqb path "/") && negb (ContainsAny path ["?"; "#"; " "; "009"]%char) && negb (ContainsAny path ["{"; "}"]%char).

Definition checkHubEndpoint (endpoint : string) : bool :=
  if String.eqb endpoint "" then false
  else if negb (str_Contains endpoint "://") then
    match host_port endpoint with
    | None => false
    | Some (host, port) => negb (ContainsAny endpoint ["/"; "?"; "#"]%char) && negb (String.eqb host "") && in_ports 1 port
    end
  else match parse endpoint with
  | None => false
  | Some u => Contains ["ws"; "wss"; "http"; "https"] (eu_Scheme u) && negb (String.eqb (eu_Host u) "") && negb (eu_User u) && String.eqb (eu_RawQuery u) "" && String.eqb (eu_Fragment u) ""
  end.

Definition checkURL (raw : string) : bool :=
  match parse_url raw with
  | None => false
  | Some u => (String.eqb (u_Scheme u) "http" || String.eqb (u_Scheme u) "https") && negb (String.eqb (u_Host u) "")
  end.

Definition checkPositive (d : Z) : bool := 0 <? d.
Definition checkNonNegative (d : Z) : bool := 0 <=? d.
Definition checkRatio (r : float) : bool := negb ((r <? 0)%float || (1 <? r)%float || negb (r =? r)%float).
Definition logLevels : list string := ["debug"; "info"; "warn"; "error"].
Definition logFormats : list string := ["json"; "text"].
Definition stateBackends : list string := ["secret"; "file"; "auto"].
Definition identityBackends : list string := ["secret"; "file"; "memory"; "auto"].

(** The flags a list of checks faults, in order. *)
Definition faults (checks : list (string * bool)) : list string := (filter (λ e, e.2 = false) checks).*1.

Definition hub_checks (c : HubConfig) : list (string * bool) :=
  [("mcp-addr", checkAddr (hc_MCPAddr c)); ("tunnel-path", checkPath (hc_TunnelPath c)); ("admin-addr", checkAddr (hc_AdminAddr c));
   ("log-level", Contains logLevels (hc_LogLevel c)); ("log-format", Contains logFormats (hc_LogFormat c)); ("data-dir", negb (String.eqb (hc_DataDir c) ""));
   ("pepper-file", negb (String.eqb (hc_PepperFile c) "")); ("state-backend", Contains stateBackends (hc_StateBackend c));
   ("state-secret-name", negb (negb (String.eqb (hc_StateBackend c) "file") && String.eqb (hc_StateSecretName c) ""));
   ("state-file", negb (String.eqb (hc_StateBackend c) "file" && String.eqb (hc_StateFile c) ""));
   (if String.eqb (hc_CACertFile c) "" then "ca-cert-file" else "ca-key-file", Bool.eqb (String.eqb (hc_CACertFile c) "") (String.eqb (hc_CAKeyFile c) ""));
   ("public-url", negb (String.eqb (hc_PublicURL c) "") && checkURL (hc_PublicURL c)); ("trust-domain", trustDomainRE (hc_TrustDomain c));
   ("spoke-cert-ttl", checkPositive (hc_SpokeCertTTL c)); ("enrollment-token-ttl", checkPositive (hc_EnrollmentTokenTTL c));
   ("renew-grace", checkNonNegative (hc_RenewGrace c)); ("agent-key-ttl", checkPositive (hc_AgentKeyTTL c)); ("admin-key-ttl", checkPositive (hc_AdminKeyTTL c));
   ("state-retention", checkNonNegative (hc_StateRetention c)); ("state-prune-interval", checkNonNegative (hc_StatePruneInterval c));
   ("max-spokes", checkNonNegative (hc_MaxSpokes c)); ("query-timeout", checkPositive (hc_QueryTimeout c)); ("range-query-timeout", checkPositive (hc_RangeQueryTimeout c));
   ("max-response-bytes", checkPositive (hc_MaxResponseBytes c)); ("max-inflight-per-cluster", checkPositive (hc_MaxInflightPerCluster c));
   ("max-response-budget-bytes", checkPositive (hc_MaxResponseBudgetBytes c));
   ("max-response-budget-bytes", negb ((0 <? hc_MaxResponseBudgetBytes c) && (0 <? hc_MaxResponseBytes c) && (hc_MaxResponseBudgetBytes c <? hc_MaxResponseBytes c)));
   ("facts-poll-interval", checkPositive (hc_FactsPollInterval c)); ("ca-rotate-at-remaining-fraction", checkRatio (hc_CARotateAtRemainingFraction c));
   ("ca-rotation-poll-interval", checkPositive (hc_CARotationPollInterval c)); ("shutdown-drain-delay", checkNonNegative (hc_ShutdownDrainDelay c));
   ("shutdown-grace", checkPositive (hc_ShutdownGrace c)); ("trace-sample-ratio", checkRatio (hc_TraceSampleRatio c));
   ("public-url", String.eqb (hc_PublicURL c) "" || checkURL (hc_PublicURL c))].

(** The problems [Hub.Validate] joins, by flag. *)
Definition hub_Validate (c : HubConfig) : list string := faults (hub_checks c).

(** The endpoints with those seen before. *)
Fixpoint endpoint_checks (seen es : list string) : list (string * bool) :=
  match es with
  | [] => []
  | e :: es => ("hub-endpoints", checkHubEndpoint e) :: ("hub-endpoints", negb (Contains seen e)) :: endpoint_checks (e :: seen) es
  end.

Definition spoke_checks (c : SpokeConfig) : list (string * bool) :=
  (("hub-endpoints", negb (bool_decide (pc_HubEndpoints c = []))) :: endpoint_checks [] (pc_HubEndpoints c) ++
  [("hub-api-url", negb (String.eqb (pc_HubAPIURL c) "") && checkURL (pc_HubAPIURL c)); ("hub-tls-insecure", negb (pc_HubTLSInsecure c && negb (pc_AllowInsecure c)));
   ("prometheus-tls-skip-verify", negb (pc_PrometheusTLSSkipVerify c && negb (pc_AllowInsecure c))); ("cluster-id", ValidClusterID (pc_ClusterID c));
   ("cluster-sdlc", clusterSDLCRE (pc_ClusterSDLC c)); ("cluster-k8s-nodes", checkNonNegative (pc_ClusterK8sNodes c));
   ("cluster-labels", validateClusterLabels (pc_ClusterLabels c)); ("cluster-display-name", negb (indexControl (pc_ClusterDisplayName c)));
   ("cluster-description", negb (indexControl (pc_ClusterDescription c))); ("data-dir", negb (String.eqb (pc_DataDir c) ""));
   ("prometheus-url", negb (String.eqb (pc_PrometheusURL c) "") && checkURL (pc_PrometheusURL c)); ("prometheus-timeout", checkPositive (pc_PrometheusTimeout c));
   ("prometheus-max-response-bytes", checkPositive (pc_PrometheusMaxResponseBytes c)); ("facts-refresh-interval", checkPositive (pc_FactsRefreshInterval c));
   ("reconnect-min-backoff", checkPositive (pc_ReconnectMinBackoff c)); ("reconnect-max-backoff", checkPositive (pc_ReconnectMaxBackoff c));
   ("reconnect-max-backoff", negb ((0 <? pc_ReconnectMinBackoff c) && (0 <? pc_ReconnectMaxBackoff c) && (pc_ReconnectMaxBackoff c <? pc_ReconnectMinBackoff c)));
   ("admin-addr", checkAddr (pc_AdminAddr c)); ("identity-backend", Contains identityBackends (pc_IdentityBackend c));
   ("identity-secret-name", negb (String.eqb (pc_IdentityBackend c) "secret" && String.eqb (pc_IdentitySecretName c) ""));
   ("log-level", Contains logLevels (pc_LogLevel c)); ("log-format", Contains logFormats (pc_LogFormat c)); ("trace-sample-ratio", checkRatio (pc_TraceSampleRatio c));
   ("shutdown-drain-delay", checkNonNegative (pc_ShutdownDrainDelay c)); ("shutdown-grace", checkPositive (pc_ShutdownGrace c))])%list.

Definition spoke_Validate (c : SpokeConfig) : list string := faults (spoke_checks c).
End validate.

(** * What is built from it *)

(** [hub.newProxy] and the limit of [hub.newTunnelServer]. *)
Definition proxy_options (c : HubConfig) : Proxy.Options :=
  {| po_DefaultTimeout := hc_QueryTimeout c; po_MaxTimeout := hc_RangeQueryTimeout c; po_MaxResponseBytes := hc_MaxResponseBytes c;
     po_GlobalResponseBudget := hc_MaxResponseBudgetBytes c; po_MaxInflightPerCluster := hc_MaxInflightPerCluster c; po_EnableStatusConfig := hc_EnableStatusConfig c |}.

(** The patterns of the public listener with the MCP endpoint served, in order; a
pattern [http.ServeMux] is given twice is a panic. *)
Definition public_patterns (c : HubConfig) : list string := ["/"; "/mcp"; "/mcp/"; hc_TunnelPath c].
Definition mux_panics (patterns : list string) : bool := negb (bool_decide (NoDup patterns)).

(** [spoke.configure]'s Prometheus client and facts collector. *)
Definition prom_config (version : string) (c : SpokeConfig) : PromClient.Config :=
  {| cf_BaseURL := pc_PrometheusURL c; cf_Timeout := pc_PrometheusTimeout c; cf_BearerTokenFile := pc_PrometheusBearerTokenFile c; cf_TLSCAFile := pc_PrometheusTLSCAFile c;
     cf_MaxResponseBytes := pc_PrometheusMaxResponseBytes c; cf_AllowStatusConfig := false; cf_UserAgent := "prometheus-mcp-spoke/" +:+ version |}.

Definition facts_config (version protocolVersion : string) (started : Z) (c : SpokeConfig) : FactsConfig :=
  {| fc_ClusterID := pc_ClusterID c; fc_DisplayName := pc_ClusterDisplayName c; fc_Description := pc_ClusterDescription c;
     fc_Labels := labelsWithSDLC (pc_ClusterLabels c) (pc_ClusterSDLC c); fc_AgentVersion := version; fc_ProtocolVersion := protocolVersion; fc_StartedAt := started;
     fc_Client := true; fc_RefreshInterval := pc_FactsRefreshInterval c; fc_TopN := 0; fc_MaxFactsBytes := 0; fc_KubernetesVersion := pc_ClusterK8sVersion c;
     fc_KubernetesClusterUID := pc_ClusterK8sUID c; fc_KubernetesNodeCount := clampInt32 (pc_ClusterK8sNodes c) |}.

(** * What validation is worth *)

Lemma faults_nil checks : faults checks = [] ↔ Forall (λ e, e.2 = true) checks.
Proof.
  unfold faults. induction checks as [|[n b] l IH]; [done|]. destruct b.
  - rewrite filter_cons_False by done. rewrite IH. split; [by constructor|intros H; by apply Forall_cons in H as [_ ?]].
  - rewrite filter_cons_True by done. split; [done|]. intros H. by apply Forall_cons in H as [? _].
Qed.

Lemma fault_free checks n b : faults checks = [] → (n, b) ∈ checks → b = true.
Proof. intros H%faults_nil Hin. rewrite Forall_forall in H. by apply (H (n, b)). Qed.

(** A member of a list of checks that is written out. *)
Ltac in_checks := cbn [hub_checks]; repeat first [left; reflexivity | right].


Lemma endpoint_checks_in parse seen es : Forall (λ e, e.2 = true) (endpoint_checks parse seen es) →
  (∀ e, e ∈ es → checkHubEndpoint parse e = true ∧ e ∉ seen) ∧ NoDup es.
Proof.
  revert seen. induction es as [|e es IH]; intros seen H; cbn [endpoint_checks] in H.
  { split; [by intros e ?%not_elem_of_nil|apply NoDup_nil_2]. }
  apply Forall_cons in H as [H1 H]. apply Forall_cons in H as [H2 H]. cbn [snd] in *. apply IH in H as [H3 H4].
  assert (e ∉ seen) as Hse by (intros Hin%Contains_spec; by rewrite Hin in H2).
  split; [|constructor; [|done]].
  - intros x Hx. apply elem_of_cons in Hx as [->|Hx]; [done|]. apply H3 in Hx as [Hc Hn]. split; [done|]. intros Hs. apply Hn. by right.
  - intros Hin. apply H3 in Hin as [_ Hn]. apply Hn. left.
Qed.

Lemma spoke_checks_tail parse parse_url c n b : faults (spoke_checks parse parse_url c) = [] →
  (n, b) ∈ drop (S (length (endpoint_checks parse [] (pc_HubEndpoints c)))) (spoke_checks parse parse_url c) → b = true.
Proof.
  intros H Hin. eapply fault_free; [exact H|]. apply list_elem_of_lookup in Hin as [i Hi]. rewrite lookup_drop in Hi. by eapply list_elem_of_lookup_2.
Qed.

(** The endpoint forms that are checked are the ones that are dialled. *)
Lemma endpoint_dialable parse e : checkHubEndpoint parse e = true → TrimSpace e = e →
  if str_Contains e "://" then ∃ u v, parse e = Some u ∧ NormalizeEndpoint parse e = Some v ∧ eu_Host v = eu_Host u
  else NormalizeEndpoint parse e = (u ← parse ("wss://" +:+ e); NormalizeEndpoint (λ _, Some u) "wss://h").
Proof.
  intros Hc Ht. unfold checkHubEndpoint in Hc. unfold NormalizeEndpoint. rewrite Ht. destruct (String.eqb_spec e "") as [|He]; [done|].
  destruct (str_Contains e "://"); cbn [negb] in Hc.
  - destruct (parse e) as [u|] eqn:Hp; [|done]. repeat (apply andb_true_iff in Hc as [Hc ?]). cbn [mbind option_bind]. exists u. rewrite Hp. cbn [mbind option_bind].
    apply Contains_spec in Hc.
    assert (∃ s, (if String.eqb (eu_Scheme u) "wss" || String.eqb (eu_Scheme u) "https" then Some "wss"
      else if String.eqb (eu_Scheme u) "ws" || String.eqb (eu_Scheme u) "http" then Some "ws" else None) = Some s) as [s ->].
    { repeat (apply elem_of_cons in Hc as [Hs|Hc]; [rewrite Hs; by eexists|]). by apply not_elem_of_nil in Hc. }
    cbn [mbind option_bind]. destruct (String.eqb (eu_Host u) ""); [done|]. destruct (eu_User u); [done|].
    destruct (String.eqb (eu_RawQuery u) ""); [|done]. destruct (String.eqb (eu_Fragment u) ""); [|done]. eexists. split; [done|]. split; [done|]. done.
  - destruct (host_port e) as [[host port]|] eqn:Hhp; [|done]. apply andb_true_iff in Hc as [Hc _]. apply andb_true_iff in Hc as [Hc _]. apply negb_true_iff in Hc as ->.
    assert (SplitHostPort e = true) as ->. { unfold host_port in Hhp. destruct (LastIndexByte e ":"); [|done]. by destruct (SplitHostPort e). }
    cbn [negb mbind option_bind]. destruct (parse ("wss://" +:+ e)) as [u|]; cbn [mbind option_bind]; [|done]. vm_compute (TrimSpace "wss://h"). vm_compute (str_Contains "wss://h" "://"). done.
Qed.

(** A spoke configuration without a fault gets its parts: the Prometheus client
and the facts collector are built from it, the cluster's labels carry its
lifecycle stage under the limits of the collector, the backoff bounds are in
order, insecure options need their second key, and the endpoints are distinct and
each of URL form is one the tunnel dials, at the host it names.  (A blank text
names no host.)  An endpoint of the older form is dialled exactly when it still
parses behind the scheme. *)
Theorem validated_spoke_builds parse parse_url digest version protocolVersion started now bundle c :
  (∀ s u, blank s = true → parse_url s = Some u → u_Host u = "") → (pc_PrometheusTLSCAFile c ≠ "" → bundle = true) →
  spoke_Validate parse parse_url c = [] →
  (∃ cl, client_New parse_url bundle (prom_config version c) = Some cl ∧ cl_timeout cl = pc_PrometheusTimeout c ∧ cl_maxResponseBytes cl = pc_PrometheusMaxResponseBytes c) ∧
  (∃ co, collector_New digest (facts_config version protocolVersion started c) now = Some co ∧ ID (co_static co) = pc_ClusterID c ∧
         Labels (co_static co) !! "sdlc" = Some (pc_ClusterSDLC c) ∧ (size (Labels (co_static co)) ≤ 33)%nat ∧ 0 ≤ co_k8sNodeCount co < 2 ^ 31) ∧
  0 < pc_ReconnectMinBackoff c ≤ pc_ReconnectMaxBackoff c ∧ (pc_HubTLSInsecure c || pc_PrometheusTLSSkipVerify c = true → pc_AllowInsecure c = true) ∧
  pc_HubEndpoints c ≠ [] ∧ NoDup (pc_HubEndpoints c) ∧
  ∀ e, e ∈ pc_HubEndpoints c → TrimSpace e = e →
    if str_Contains e "://" then ∃ u v, parse e = Some u ∧ NormalizeEndpoint parse e = Some v ∧ eu_Host v = eu_Host u
    else is_Some (NormalizeEndpoint parse e) ↔ ∃ u, parse ("wss://" +:+ e) = Some u ∧ is_Some (NormalizeEndpoint (λ _, Some u) "wss://h").
Proof.
  intros Hblank Hbundle Hv. unfold spoke_Validate in Hv.
  assert (∀ n b, (n, b) ∈ drop (S (length (endpoint_checks parse [] (pc_HubEndpoints c)))) (spoke_checks parse parse_url c) → b = true) as H
    by (intros n b; by apply spoke_checks_tail).
  unfold spoke_checks in H. cbn [drop] in H. rewrite drop_app_length in H.
  assert (∀ n b, (n, b) ∈ spoke_checks parse parse_url c → b = true) as Hall by (intros n b; by apply fault_free).
  pose proof Hv as Hf. apply faults_nil in Hf. unfold spoke_checks in Hf. apply Forall_cons in Hf as [Hne Hf]. apply Forall_app in Hf as [Hend _].
  apply endpoint_checks_in in Hend as [Hend Hnd]. cbn [snd] in Hne. apply negb_true_iff, bool_decide_eq_false in Hne.
  assert (0 < pc_ReconnectMinBackoff c) as Hmin by (apply Z.ltb_lt, (H "reconnect-min-backoff"); in_checks).
  assert (0 < pc_ReconnectMaxBackoff c) as Hmax by (apply Z.ltb_lt, (H "reconnect-max-backoff"); in_checks).
  assert (0 < pc_PrometheusTimeout c) as Hpt by (apply Z.ltb_lt, (H "prometheus-timeout"); in_checks).
  assert (0 < pc_PrometheusMaxResponseBytes c) as Hpb by (apply Z.ltb_lt, (H "prometheus-max-response-bytes"); in_checks).
  assert (0 < pc_FactsRefreshInterval c) as Hfr by (apply Z.ltb_lt, (H "facts-refresh-interval"); in_checks).
  assert (0 ≤ pc_ClusterK8sNodes c) as Hk8 by (apply Z.leb_le, (H "cluster-k8s-nodes"); in_checks).
  assert (ValidClusterID (pc_ClusterID c) = true) as Hid by (apply (H "cluster-id"); in_checks).
  assert (clusterSDLCRE (pc_ClusterSDLC c) = true) as Hsdlc by (apply (H "cluster-sdlc"); in_checks).
  assert (validateClusterLabels (pc_ClusterLabels c) = true) as Hlab by (apply (H "cluster-labels"); in_checks).
  assert (pc_ClusterSDLC c ≠ "") as Hs0 by (intros E; by rewrite E in Hsdlc).
  split_and!.
  - assert (negb (String.eqb (pc_PrometheusURL c) "") && checkURL parse_url (pc_PrometheusURL c) = true) as Hu by (apply (H "prometheus-url"); in_checks).
    apply andb_true_iff in Hu as [_ Hu]. unfold checkURL in Hu. unfold client_New, prom_config. cbn [cf_BaseURL cf_MaxResponseBytes cf_Timeout cf_TLSCAFile cf_UserAgent].
    destruct (parse_url (pc_PrometheusURL c)) as [u|] eqn:Hp; [|done]. apply andb_true_iff in Hu as [Hsch Hhost].
    destruct (blank (pc_PrometheusURL c)) eqn:Hb; [by rewrite (Hblank _ _ Hb Hp) in Hhost|]. cbn [mbind option_bind].
    rewrite (proj2 (Z.ltb_ge _ _)) by lia. rewrite (proj2 (Z.ltb_ge (pc_PrometheusTimeout c) _)) by lia.
    rewrite (proj2 (Z.eqb_neq (pc_PrometheusTimeout c) 0)) by lia. rewrite (proj2 (Z.eqb_neq (pc_PrometheusMaxResponseBytes c) 0)) by lia.
    apply negb_true_iff in Hhost as ->.
    replace (negb (String.eqb (u_Scheme u) "http") && negb (String.eqb (u_Scheme u) "https")) with false by (by destruct (String.eqb (u_Scheme u) "http"), (String.eqb (u_Scheme u) "https")).
    replace (negb (String.eqb (pc_PrometheusTLSCAFile c) "") && negb bundle) with false.
    { eexists. split; [reflexivity|]. done. }
    destruct (String.eqb_spec (pc_PrometheusTLSCAFile c) ""); [done|]. by rewrite Hbundle.
  - unfold collector_New, facts_config. cbn [fc_ClusterID fc_Client fc_RefreshInterval fc_TopN fc_MaxFactsBytes fc_KubernetesNodeCount fc_Labels]. rewrite Hid. cbn [negb].
    rewrite (proj2 (Z.ltb_ge (pc_FactsRefreshInterval c) 0)) by lia. cbn [Z.ltb Z.compare].
    assert (0 ≤ clampInt32 (pc_ClusterK8sNodes c) < 2 ^ 31) as Hcl by (unfold clampInt32; repeat case_match; lia).
    rewrite (proj2 (Z.ltb_ge (clampInt32 (pc_ClusterK8sNodes c)) 0)) by lia. eexists. split; [reflexivity|]. cbn [publish co_static ID Labels co_k8sNodeCount].
    unfold labelsWithSDLC. rewrite (proj2 (String.eqb_neq _ _) Hs0). split_and!; [done|by rewrite lookup_insert_eq| |apply Hcl|apply Hcl].
    unfold validateClusterLabels in Hlab. apply andb_true_iff in Hlab as [Hsz _]. apply Nat.leb_le in Hsz. unfold MaxClusterLabels in Hsz.
    destruct (pc_ClusterLabels c !! "sdlc") eqn:E; [rewrite map_size_insert_Some by done; lia|rewrite map_size_insert_None by done; lia].
  - done.
  - assert (negb ((0 <? pc_ReconnectMinBackoff c) && (0 <? pc_ReconnectMaxBackoff c) && (pc_ReconnectMaxBackoff c <? pc_ReconnectMinBackoff c)) = true) as Hneg
      by (apply (H "reconnect-max-backoff"); in_checks).
    rewrite (proj2 (Z.ltb_lt _ _) Hmin), (proj2 (Z.ltb_lt _ _) Hmax) in Hneg. cbn [andb] in Hneg. by apply negb_true_iff, Z.ltb_ge in Hneg.
  - assert (negb (pc_HubTLSInsecure c && negb (pc_AllowInsecure c)) = true) as H1 by (apply (H "hub-tls-insecure"); in_checks).
    assert (negb (pc_PrometheusTLSSkipVerify c && negb (pc_AllowInsecure c)) = true) as H2 by (apply (H "prometheus-tls-skip-verify"); in_checks).
    by destruct (pc_HubTLSInsecure c), (pc_PrometheusTLSSkipVerify c), (pc_AllowInsecure c).
  - done.
  - done.
  - intros e He Ht. destruct (Hend e He) as [Hc _]. pose proof (endpoint_dialable parse e Hc Ht) as Hd. destruct (str_Contains e "://"); [done|]. rewrite Hd.
    destruct (parse ("wss://" +:+ e)) as [u|]; cbn [mbind option_bind]; [|split; [by intros [? ?]|by intros (? & ? & _)]]. split; [intros Hs; by exists u|by intros (v & [= ->] & ?)].
Qed.

(** * Precedence *)

(** The value a list of settings gives a flag: the last one. *)
Definition last_set (set : list (string * flag_value)) (name : string) : option flag_value := list_find (λ e, e.1 = name) (reverse set) ≫= λ e, Some e.2.2.

Definition same_kind (a b : flag_value) : bool :=
  match a, b with
  | VStr _, VStr _ | VDuration _, VDuration _ | VInt _, VInt _ | VBytes _, VBytes _ | VBool _, VBool _ | VRatio _, VRatio _ | VList _, VList _ | VLabels _, VLabels _ => true
  | _, _ => false
  end.

Lemma same_kind_refl a : same_kind a a = true.
Proof. by destruct a. Qed.

Section precedence.
Context (ParseDuration ParseInt0 : string → option Z) (ParseFloat : string → option float).
Local Abbreviation env_value := (env_value ParseDuration ParseFloat).
Local Abbreviation flag_set := (flag_set ParseDuration ParseInt0 ParseFloat).
Local Abbreviation seeded := (seeded ParseDuration ParseFloat).
Local Abbreviation parse_args := (flag_parse ParseDuration ParseInt0 ParseFloat).
Local Abbreviation settings := (settings ParseDuration ParseFloat).
Local Abbreviation loader_load := (loader_load ParseDuration ParseInt0 ParseFloat).

Lemma env_value_kind def v x : env_value def v = Some x → same_kind def x = true.
Proof. destruct def; cbn; intros H; try (by injection H as <-); by apply fmap_Some in H as (y & _ & ->). Qed.

Lemma flag_set_kind def v x : flag_set def v = Some x → same_kind def x = true.
Proof. destruct def; try apply env_value_kind; cbn; intros H; by apply fmap_Some in H as (y & _ & ->). Qed.

Lemma seeded_kind getenv name def : same_kind def (seeded getenv name def).1 = true.
Proof. unfold seeded. case_match; [apply same_kind_refl|]. case_match eqn:E; [by eapply env_value_kind|apply same_kind_refl]. Qed.

Lemma settings_fold set m name : fold_left (λ m e, <[e.1 := e.2]> m) set m !! name = match last_set set name with Some x => Some x | None => (m : gmap string flag_value) !! name end.
Proof.
  unfold last_set. revert m. induction set as [|[n x] set IH] using rev_ind; intros m; [done|].
  rewrite fold_left_app, reverse_app. cbn [fold_left fst snd reverse rev_append app list_find]. 
  destruct (decide (n = name)) as [->|Hn]; [by rewrite lookup_insert_eq|]. rewrite lookup_insert_ne by done. rewrite IH.
  by destruct (list_find _ (reverse set)) as [[? ?]|].
Qed.
(** What a command line sets are known flags, each with a value of its kind. *)
Lemma flag_parse_kinds t args set over : parse_args t args = Ok (set, over) → Forall (λ e, ∃ def, flag_default t e.1 = Some def ∧ same_kind def e.2 = true) set.
Proof.
  remember (length args) as n eqn:Hn. revert args set over Hn. induction (lt_wf n) as [n _ IH]. intros [|s rest] set over -> H.
  { cbn in H. by injection H as <- <-. }
  cbn [flag_parse] in H. destruct (_ || _) eqn:?; [by injection H as <- <-|]. destruct (String.eqb s "--"); [by injection H as <- <-|]. cbv zeta in H.
  set (arg := if HasPrefix s "--" then str_drop 2 s else str_drop 1 s) in H. destruct (HasPrefix arg "-" || HasPrefix arg "="); [discriminate H|].
  destruct (match Cut arg "=" with Some (n, v) => (n, Some v) | None => (arg, None) end) as [name value]. destruct (flag_default t name) as [def|] eqn:Hdef; [|done].
  assert (∀ v rest', (length rest' < S (length rest))%nat →
    match flag_set def v with
    | None => Err ErrUsage
    | Some x => match parse_args t rest' with Ok (set, over) => Ok ((name, x) :: set, over) | Err e => Err e end
    end = Ok (set, over) → Forall (λ e, ∃ def, flag_default t e.1 = Some def ∧ same_kind def e.2 = true) set) as Hassign.
  { intros v rest' Hlt Ha. destruct (flag_set def v) as [x|] eqn:Hx; [|done]. destruct (parse_args t rest') as [[set' over']|] eqn:Hp; [|done]. injection Ha as <- <-.
    apply Forall_cons. split; [exists def; split; [done|by eapply flag_set_kind]|]. by eapply IH; [..|exact Hp]. }
  destruct def, value, rest; try done; 
    match type of H with context [flag_set _ ?v] => match type of H with context [parse_args _ ?r] => apply (Hassign v r); [cbn; lia|exact H] end end.
Qed.
Lemma last_set_in set name x : last_set set name = Some x → (name, x) ∈ set.
Proof.
  unfold last_set. intros ([i [n y]] & H & [= <-])%bind_Some. apply list_find_Some in H as (Hi & Hn & _). cbn in Hn |- *. subst n.
  apply list_elem_of_lookup_2 in Hi. rewrite elem_of_reverse in Hi. exact Hi.
Qed.

Lemma seeded_lookup t getenv name :
  (list_to_map ((λ e : string * flag_value, (e.1, (seeded getenv e.1 e.2).1)) <$> t) : gmap string flag_value) !! name = (λ def, (seeded getenv name def).1) <$> flag_default t name.
Proof.
  unfold flag_default. induction t as [|[n def] t IH]; [done|]. cbn [fmap list_fmap list_to_map foldr fst snd].
  destruct (decide (n = name)) as [->|Hn]; [by rewrite !lookup_insert_eq|]. by rewrite !lookup_insert_ne.
Qed.

(** Loading gives a flag its last value on the command line, else that of its
environment variable, else its default, always a value of its kind, and gives
nothing for a name that is no flag.  A variable that is set must parse, also
where the command line replaces it. *)
Theorem load_precedence t args getenv m : loader_load t args getenv = Ok m →
  ∃ set, parse_args t args = Ok (set, []) ∧
  ∀ name, let v := getenv (EnvKey name) in
    match flag_default t name with
    | None => m !! name = None
    | Some def => ∃ x, m !! name = Some x ∧ same_kind def x = true ∧
        match last_set set name with Some y => x = y | None => if String.eqb v "" then x = def else env_value def v = Some x end ∧
        (v ≠ "" → is_Some (env_value def v))
    end.
Proof.
  unfold loader_load. destruct (parse_args t args) as [[set over]|] eqn:Hp; [|done]. case_bool_decide as Ho; [|done]. subst over. cbn [negb].
  case_bool_decide as Hbad; [|done]. intros [= <-]. exists set. split; [done|]. intros name. set (v := getenv (EnvKey name)). pose proof (flag_parse_kinds _ _ _ _ Hp) as Hk. rewrite Forall_forall in Hk.
  unfold settings. rewrite settings_fold, seeded_lookup. destruct (flag_default t name) as [def|] eqn:Hdef.
  2: { destruct (last_set set name) as [x|] eqn:Hl; [|done]. destruct (Hk _ (last_set_in _ _ _ Hl)) as (def & Hd & _). cbn [fst] in Hd. by rewrite Hd in Hdef. }
  assert (v ≠ "" → is_Some (env_value def v)) as Hv.
  { intros Hv. destruct (env_value def v) eqn:He; [done|]. assert (name ∈ (filter (λ n, from_option (λ def, (seeded getenv n def).2) false (flag_default t n) = true) t.*1)) as Hin.
    { apply list_elem_of_filter. split.
      - rewrite Hdef. cbn [from_option]. unfold seeded. fold v. by rewrite (proj2 (String.eqb_neq _ _) Hv), He.
      - unfold flag_default in Hdef. apply elem_of_list_to_map_2 in Hdef. by apply (list_elem_of_fmap_2' fst _ (name, def)). }
    rewrite Hbad in Hin. by apply not_elem_of_nil in Hin. }
  destruct (last_set set name) as [x|] eqn:Hl.
  - exists x. split_and!; [done| |done|done]. destruct (Hk _ (last_set_in _ _ _ Hl)) as (d & Hd & Hs). cbn [fst snd] in *. by rewrite Hdef in Hd; injection Hd as <-.
  - eexists. split; [reflexivity|]. split; [apply seeded_kind|]. split; [|done]. unfold seeded. fold v. destruct (String.eqb_spec v "") as [|Hne]; [done|].
    destruct (Hv Hne) as [x Hx]. by rewrite Hx.
Qed.
End precedence.

(** * Concrete configurations *)

Definition toy_duration (s : string) : option Z := if String.eqb s "3m" then Some (3 * Minute) else if String.eqb s "1s" then Some Second else None.
Definition toy_join (a b : string) : string := a +:+ "/" +:+ b.
Definition toy_url (s : string) : option URL :=
  if blank s then None
  else if HasPrefix s "http://" then Some {| u_Scheme := "http"; u_Host := str_drop 7 s; u_User := None; u_Path := ""; u_RawQuery := "" |}
  else if HasPrefix s "https://" then Some {| u_Scheme := "https"; u_Host := str_drop 8 s; u_User := None; u_Path := ""; u_RawQuery := "" |} else None.
Definition toy_endpoint (s : string) : option EndpointURL :=
  if HasPrefix s "wss://" then Some {| eu_Scheme := "wss"; eu_User := false; eu_Host := str_drop 6 s; eu_Path := ""; eu_RawQuery := ""; eu_Fragment := "" |} else None.
Definition toy_LoadHub (args : list string) : result load_error HubConfig := LoadHub toy_duration ParseInt (λ _, None) toy_join args (λ _, "").
Definition toy_LoadSpoke (args : list string) : result load_error SpokeConfig := LoadSpoke toy_duration ParseInt (λ _, None) (λ s, s) args (λ _, "").
Definition hub_zero : HubConfig := hub_of toy_join ∅.
Definition spoke_zero : SpokeConfig := spoke_of (λ s, s) ∅.
Definition result_default {E A} (d : A) (r : result E A) : A := match r with Ok a => a | Err _ => d end.

Definition hub_example (args : list string) : HubConfig := result_default hub_zero (toy_LoadHub ("--public-url=https://hub" :: args)).
Definition spoke_example : SpokeConfig :=
  result_default spoke_zero (toy_LoadSpoke ["--hub-endpoints=wss://hub,hub-2:443"; "-hub-api-url"; "https://hub"; "--cluster-id=c1"; "--cluster-sdlc= Pre_Prod "; "--cluster-labels=a=b,sdlc=x"]).


(** The two exceptions: both configurations are without a fault. *)
Lemma range_below_query_passes : hub_Validate toy_url (hub_example ["--query-timeout=3m"]) = [] ∧ Proxy.New (proxy_options (hub_example ["--query-timeout=3m"])) = None.
Proof. split; vm_compute; reflexivity. Qed.

Lemma tunnel_on_mcp_passes : hub_Validate toy_url (hub_example ["--tunnel-path=/mcp"]) = [] ∧ mux_panics (public_patterns (hub_example ["--tunnel-path=/mcp"])) = true.
Proof. split; vm_compute; reflexivity. Qed.

Lemma toy_url_blank s u : blank s = true → toy_url s = Some u → u_Host u = "".
Proof. intros Hb Hu. unfold toy_url in Hu. by rewrite Hb in Hu. Qed.

Lemma validated_spoke_builds_witness : spoke_Validate toy_endpoint toy_url spoke_example = [] ∧ pc_ClusterSDLC spoke_example = "pre-prod" ∧
  ∃ cl, client_New toy_url false (prom_config "1" spoke_example) = Some cl ∧ cl_timeout cl = 130 * Second ∧ cl_maxResponseBytes cl = 33554432.
Proof.
  assert (spoke_Validate toy_endpoint toy_url spoke_example = []) as Hv by (vm_compute; reflexivity).
  split; [exact Hv|]. split; [vm_compute; reflexivity|].
  destruct (validated_spoke_builds toy_endpoint toy_url (λ _, "") "1" "1" 0 0 false spoke_example toy_url_blank) as [H _]; [|exact Hv|].
  - intros H. destruct H. vm_compute. reflexivity.
  - exact H.
Defined.

(** An endpoint of the older form that names no URL passes all the same, and is
never dialled. *)
Lemma undialable_endpoint_passes : checkHubEndpoint toy_endpoint "a b:443" = true ∧ ∀ parse, parse "wss://a b:443" = None → NormalizeEndpoint parse "a b:443" = None.
Proof. split; [vm_compute; reflexivity|]. intros parse H. unfold NormalizeEndpoint. vm_compute (TrimSpace "a b:443"). cbn -[mbind]. cbn [mbind option_bind]. vm_compute (SplitHostPort "a b:443"). cbn. by rewrite H. Qed.

Definition toy_args : list string := ["--log-level=debug"; "--query-timeout"; "1s"].
Definition toy_getenv (k : string) : string := if String.eqb k "PMF_LOG_LEVEL" then "warn" else if String.eqb k "PMF_RANGE_QUERY_TIMEOUT" then "3m" else "".

Lemma load_precedence_witness : ∃ m, loader_load toy_duration ParseInt (λ _, None) (hub_flags toy_getenv) toy_args toy_getenv = Ok m ∧
  m !! "log-level" = Some (VStr "debug") ∧ m !! "range-query-timeout" = Some (VDuration (3 * Minute)) ∧ m !! "admin-key-ttl" = Some (VDuration (2160 * Hour)) ∧
  is_Some (env_value toy_duration (λ _, None) (VStr "info") "warn").
Proof.
  assert (match loader_load toy_duration ParseInt (λ _, None) (hub_flags toy_getenv) toy_args toy_getenv with Ok _ => true | Err _ => false end = true) as Hok by (vm_compute; reflexivity).
  destruct (loader_load toy_duration ParseInt (λ _, None) (hub_flags toy_getenv) toy_args toy_getenv) as [m|e] eqn:Hm; [|discriminate Hok]. clear Hok.
  exists m. split; [reflexivity|]. destruct (load_precedence _ _ _ _ _ _ _ Hm) as (set & Hset & H).
  vm_compute in Hset. injection Hset as <-.
  split; [|split; [|split]].
  - destruct (H "log-level") as (x & -> & _ & Hx & _). vm_compute in Hx. by rewrite Hx.
  - destruct (H "range-query-timeout") as (x & -> & _ & Hx & _). vm_compute in Hx. by rewrite <- Hx.
  - destruct (H "admin-key-ttl") as (x & -> & _ & Hx & _). vm_compute in Hx. by rewrite Hx.
  - destruct (H "log-level") as (x & _ & _ & _ & Hx). apply Hx. vm_compute. discriminate.
Defined.
