(* ===== verification/Http.v ===== *)
(** The HTTP layer both binaries serve through: [src/internal/httpx], and the
authentication of requests, [src/internal/authn/middleware.go].

A handler is a function of a request and the state of the response and of the log;
it returns or panics.  The handlers below the middleware are programs over the
operations of a [ResponseWriter], so that what is proved holds of any of them.  The
connection is [net/http]'s: the first final status sends the head with the headers
as they are then, an informational one does not, and a status out of range panics.
Hijacking a connection is not modelled.  A body is a list of chunks, text or a
document; [chunk_len] is the length of one on the wire.  The random identifier of a
request is an argument. *)

From S2P Require Import Prelude Fleet Codec Text State Token Lru Limiter Authn WsTun Config.
Open Scope string_scope.
Open Scope Z_scope.

(** * The connection *)

Abbreviation Header := (gmap string string).

Inductive Chunk := Raw (s : string) | Doc (j : json).

Record Conn := { cn_Header : Header; cn_Sent : option (Z * Header); cn_Body : list Chunk; cn_Info : list Z }.
Definition new_Conn : Conn := {| cn_Header := ∅; cn_Sent := None; cn_Body := []; cn_Info := [] |}.

Definition informational (status : Z) : bool := (100 <=? status) && (status <=? 199) && negb (status =? 101).

(** [None] is the panic of an invalid status. *)
Definition conn_WriteHeader (status : Z) (c : Conn) : option Conn :=
  match cn_Sent c with
  | Some _ => Some c
  | None =>
    if (status <? 100) || (999 <? status) then None
    else if informational status then Some {| cn_Header := cn_Header c; cn_Sent := None; cn_Body := cn_Body c; cn_Info := (cn_Info c ++ [status])%list |}
    else Some {| cn_Header := cn_Header c; cn_Sent := Some (status, cn_Header c); cn_Body := cn_Body c; cn_Info := cn_Info c |}
  end.

Definition bodyAllowedForStatus (status : Z) : bool := negb ((100 <=? status) && (status <=? 199)) && negb (status =? 204) && negb (status =? 304).

(** What a write takes: nothing where the status has no body. *)
Definition conn_Write (b : Chunk) (c : Conn) : bool * Conn :=
  let c := default c (conn_WriteHeader 200 c) in
  match cn_Sent c with
  | Some (status, _) => if bodyAllowedForStatus status then (true, {| cn_Header := cn_Header c; cn_Sent := cn_Sent c; cn_Body := (cn_Body c ++ [b])%list; cn_Info := cn_Info c |}) else (false, c)
  | None => (false, c)
  end.

Definition conn_Set (k v : string) (c : Conn) : Conn := {| cn_Header := <[k := v]> (cn_Header c); cn_Sent := cn_Sent c; cn_Body := cn_Body c; cn_Info := cn_Info c |}.

(** * The wrapper *)

Record responseWriter := { rw_status : Z; rw_written : Z; rw_wroteHeader : bool }.

(** What a panic carries. *)
Inductive PanicValue := ErrAbortHandler | PanicText (s : string).
Inductive Outcome := Returned | Panicked (v : PanicValue).

Inductive Level := LevelDebug | LevelInfo | LevelWarn | LevelError.
Inductive LogLine :=
| PanicRecovered (v : PanicValue) (method path request_id : string)
| HTTPRequest (level : Level) (method path : string) (status bytes : Z) (request_id remote_addr : string)
| RequestDenied (path method : string) (err : AuthError).

(** The response, the wrapper once there is one, and the log. *)
Record Resp := { rp_conn : Conn; rp_rw : option responseWriter; rp_log : list LogLine }.
Definition new_Resp : Resp := {| rp_conn := new_Conn; rp_rw := None; rp_log := [] |}.

Definition with_conn (c : Conn) (s : Resp) : Resp := {| rp_conn := c; rp_rw := rp_rw s; rp_log := rp_log s |}.
Definition with_rw (w : option responseWriter) (s : Resp) : Resp := {| rp_conn := rp_conn s; rp_rw := w; rp_log := rp_log s |}.
Definition log_line (l : LogLine) (s : Resp) : Resp := {| rp_conn := rp_conn s; rp_rw := rp_rw s; rp_log := (rp_log s ++ [l])%list |}.
Definition set_header (k v : string) (s : Resp) : Resp := with_conn (conn_Set k v (rp_conn s)) s.

Definition wrapResponseWriter (s : Resp) : Resp :=
  match rp_rw s with Some _ => s | None => with_rw (Some {| rw_status := 200; rw_written := 0; rw_wroteHeader := false |}) s end.

Definition rw_Status (s : Resp) : Z := from_option rw_status 200 (rp_rw s).
Definition BytesWritten (s : Resp) : Z := from_option rw_written 0 (rp_rw s).
Definition wroteResponse (s : Resp) : bool := from_option rw_wroteHeader false (rp_rw s).

(** [WriteHeader] on what a handler holds; the flag is whether it panics. *)
Definition WriteHeader (status : Z) (s : Resp) : bool * Resp :=
  let forward s := match conn_WriteHeader status (rp_conn s) with Some c => (false, with_conn c s) | None => (true, s) end in
  match rp_rw s with
  | None => forward s
  | Some w => if rw_wroteHeader w then (false, s) else forward (with_rw (Some {| rw_status := status; rw_written := rw_written w; rw_wroteHeader := true |}) s)
  end.

Section http.
Context (chunk_len : Chunk → Z).

Definition Write (b : Chunk) (s : Resp) : Resp :=
  let s := if wroteResponse s then s else (WriteHeader 200 s).2 in
  let '(took, c) := conn_Write b (rp_conn s) in
  let n := if took then chunk_len b else 0 in
  let s := with_conn c s in
  with_rw ((λ w, {| rw_status := rw_status w; rw_written := rw_written w + n; rw_wroteHeader := rw_wroteHeader w |}) <$> rp_rw s) s.

Definition Flush (s : Resp) : Resp :=
  let s := if wroteResponse s then s else (WriteHeader 200 s).2 in
  with_conn (default (rp_conn s) (conn_WriteHeader 200 (rp_conn s))) s.

(** * Programs *)

(** What a handler does with its response, in order; what it reads elsewhere is
in the choice of the program. *)
Inductive Prog :=
| Done
| PanicWith (v : PanicValue)
| SetHeader (k v : string) (p : Prog)
| GetHeader (k : string) (p : string → Prog)
| SendHead (status : Z) (p : Prog)
| SendBody (b : Chunk) (p : Prog)
| FlushNow (p : Prog).

Fixpoint exec (p : Prog) (s : Resp) : Resp * Outcome :=
  match p with
  | Done => (s, Returned)
  | PanicWith v => (s, Panicked v)
  | SetHeader k v p => exec p (set_header k v s)
  | GetHeader k p => exec (p (map_get (cn_Header (rp_conn s)) k)) s
  | SendHead status p => match WriteHeader status s with (true, s) => (s, Panicked (PanicText "invalid WriteHeader code")) | (false, s) => exec p s end
  | SendBody b p => exec p (Write b s)
  | FlushNow p => exec p (Flush s)
  end.

(** * Requests and handlers *)

Record Req := {
  rq_Header : Header;
  rq_Method : string;
  rq_Path : string;
  rq_RemoteAddr : string;
  rq_TLS : bool;
  rq_ContentLength : Z;
  rq_Limit : option Z;
  rq_RequestID : string;
  rq_SourceIP : string;
  rq_Principal : option Principal
}.

Definition with_RequestID (id : string) (r : Req) : Req :=
  {| rq_Header := rq_Header r; rq_Method := rq_Method r; rq_Path := rq_Path r; rq_RemoteAddr := rq_RemoteAddr r; rq_TLS := rq_TLS r; rq_ContentLength := rq_ContentLength r; rq_Limit := rq_Limit r;
     rq_RequestID := id; rq_SourceIP := rq_SourceIP r; rq_Principal := rq_Principal r |}.
Definition with_Limit (n : Z) (r : Req) : Req :=
  {| rq_Header := rq_Header r; rq_Method := rq_Method r; rq_Path := rq_Path r; rq_RemoteAddr := rq_RemoteAddr r; rq_TLS := rq_TLS r; rq_ContentLength := rq_ContentLength r; rq_Limit := Some n;
     rq_RequestID := rq_RequestID r; rq_SourceIP := rq_SourceIP r; rq_Principal := rq_Principal r |}.
(** [ContextWithSourceIP] and [ContextWithPrincipal]. *)
Definition with_caller (ip : string) (p : Principal) (r : Req) : Req :=
  {| rq_Header := rq_Header r; rq_Method := rq_Method r; rq_Path := rq_Path r; rq_RemoteAddr := rq_RemoteAddr r; rq_TLS := rq_TLS r; rq_ContentLength := rq_ContentLength r; rq_Limit := rq_Limit r;
     rq_RequestID := rq_RequestID r; rq_SourceIP := ip; rq_Principal := Some p |}.

Definition Handler : Type := Req → Resp → Resp * Outcome.
Definition Middleware : Type := Handler → Handler.

(** The handler of a program. *)
Definition serve (f : Req → Prog) : Handler := λ r s, exec (f r) s.

(** * Errors *)

Definition ContentTypeJSON : string := "application/json; charset=utf-8".
Definition CodeInternal : string := "internal_error".
Definition CodeRequestTooLarge : string := "request_too_large".
Definition HeaderRequestID : string := "X-Request-Id".

Definition omit_empty (k v : string) : list (string * json) := if String.eqb v "" then [] else [(k, JStr v)].

Definition errorJSON (requestID code message : string) : json :=
  JObj [("error", JObj ([("code", JStr code); ("message", JStr message)] ++ omit_empty "request_id" requestID)%list)].

(** [writeJSONBytes] and [WriteError], as programs. *)
Definition writeJSONBytes (id : string) (status : Z) (body : json) : Prog :=
  SetHeader "Content-Type" ContentTypeJSON (SetHeader "X-Content-Type-Options" "nosniff"
    (GetHeader HeaderRequestID (λ have, let send := SendHead status (SendBody (Doc body) Done) in if negb (String.eqb id "") && String.eqb have "" then SetHeader HeaderRequestID id send else send))).
Definition WriteError (r : Req) (status : Z) (code message : string) : Prog := writeJSONBytes (rq_RequestID r) status (errorJSON (rq_RequestID r) code message).

(** [WriteJSON]: [None] is a value that cannot be encoded. *)
Definition WriteJSON (r : Req) (status : Z) (v : option json) : Prog :=
  match v with
  | None => writeJSONBytes (rq_RequestID r) 500 (errorJSON (rq_RequestID r) CodeInternal "response could not be encoded")
  | Some j => writeJSONBytes (rq_RequestID r) status j
  end.

(** * Middleware *)

Definition NotFoundHandler : Handler := serve (λ _, SetHeader "Content-Type" "text/plain; charset=utf-8" (SetHeader "X-Content-Type-Options" "nosniff" (SendHead 404 (SendBody (Raw "404 page not found") Done)))).

Definition Chain (h : option Handler) (mw : list (option Middleware)) : Handler :=
  foldr (λ m h, match m with Some m => m h | None => h end) (default NotFoundHandler h) mw.

Definition maxRequestIDLen : nat := 64.
Definition validRequestID (id : string) : bool :=
  negb (String.eqb id "") && (String.length id <=? maxRequestIDLen)%nat && str_forall (λ c, in_range 0x61 0x7A c || in_range 0x41 0x5A c || in_range 0x30 0x39 c || Ascii.eqb c "-" || Ascii.eqb c "_") id.

(** [fresh] is what [newRequestID] draws. *)
Definition RequestID (fresh : string) : Middleware := λ next r s,
  let id := map_get (rq_Header r) HeaderRequestID in
  let id := if negb (validRequestID id) then fresh else id in
  next (with_RequestID id r) (set_header HeaderRequestID id s).

Definition contentSecurityPolicy : string := "default-src 'none'; frame-ancestors 'none'; base-uri 'none'; form-action 'none'; sandbox".
Definition hstsValue : string := "max-age=31536000; includeSubDomains".

Definition SecurityHeaders : Middleware := λ next r s,
  let s := set_header "Content-Security-Policy" contentSecurityPolicy (set_header "Cache-Control" "no-store" (set_header "X-Frame-Options" "DENY"
             (set_header "Referrer-Policy" "no-referrer" (set_header "X-Content-Type-Options" "nosniff" s)))) in
  next r (if rq_TLS r then set_header "Strict-Transport-Security" hstsValue s else s).

(** The deferred function of [Recover]. *)
Definition recovered (r : Req) (s : Resp) (o : Outcome) : Resp * Outcome :=
  match o with
  | Returned => (s, Returned)
  | Panicked ErrAbortHandler => (s, Panicked ErrAbortHandler)
  | Panicked v =>
    let s := log_line (PanicRecovered v (rq_Method r) (rq_Path r) (rq_RequestID r)) s in
    if wroteResponse s then (s, Panicked ErrAbortHandler) else exec (WriteError r 500 CodeInternal "internal error") s
  end.
Definition Recover : Middleware := λ next r s, let '(s, o) := next r (wrapResponseWriter s) in recovered r s o.

Definition levelForStatus (status : Z) : Level := if 500 <=? status then LevelError else if 400 <=? status then LevelWarn else LevelDebug.

Definition AccessLog : Middleware := λ next r s,
  let '(s, o) := next r (wrapResponseWriter s) in
  (log_line (HTTPRequest (levelForStatus (rw_Status s)) (rq_Method r) (rq_Path r) (rw_Status s) (BytesWritten s) (rq_RequestID r) (rq_RemoteAddr r)) s, o).

Definition MaxBody (n : Z) : Middleware := λ next,
  if n <=? 0 then next
  else λ r s, if n <? rq_ContentLength r then exec (WriteError r 413 CodeRequestTooLarge "request body too large") s else next (with_Limit n r) s.

(** The chain of both listeners of the hub. *)
Definition listener (fresh : string) (mux : Handler) : Handler := Chain (Some mux) [Some (RequestID fresh); Some SecurityHeaders; Some Recover; Some AccessLog].
End http.

(** * Authentication *)

Definition StatusUnauthorized : Z := 401.
Definition StatusTooManyRequests : Z := 429.
(** [authn.RequestIDHeader]. *)
Definition RequestIDHeader : string := "X-Request-Id".

(** [strings.Fields], over the runes with their bytes; [cur] is the field that is
being read. *)
Fixpoint fields_of (l : list (Z * string)) (cur : option string) : list string :=
  match l with
  | [] => option_list cur
  | (c, b) :: l => if IsSpace c then (option_list cur ++ fields_of l None)%list else fields_of l (Some (default "" cur +:+ b))
  end.
Definition Fields (s : string) : list string := fields_of (pieces (String.length s) s) None.

Definition BearerToken (r : Req) : option string :=
  match Fields (map_get (rq_Header r) "Authorization") with
  | [scheme; token] => if EqualFold scheme "bearer" then Some token else None
  | _ => None
  end.

Definition SourceAddr (r : Req) : string := match host_port (rq_RemoteAddr r) with Some (host, _) => host | None => rq_RemoteAddr r end.

Definition ScopeName (class : KeyClass) : string := if String.eqb class ClassAdmin then "admin" else if String.eqb class ClassEnrollment then "enroll" else "mcp".

Definition ScopesOf (p : option Principal) : list string :=
  match p with
  | None => []
  | Some p =>
    (["class:" +:+ p_Class p] ++ (if String.eqb (p_Role p) "" then [] else ["role:" +:+ p_Role p])
     ++ match p_Scope p with Some s => (λ t, "tool:" +:+ t) <$> ts_Allow (Scope_Tools s) | None => [] end)%list
  end.

Record TokenInfo := { ti_Scopes : list string; ti_Expiration : Z; ti_UserID : string; ti_Extra : gmap string string }.

(** [TokenVerifier] on what [verify] answered; [now] is the clock it reads for a
key without an expiry. *)
Definition TokenVerifier (answer : result AuthError (Principal * Z)) (now cacheTTL : Z) : result AuthError TokenInfo :=
  '(p, expiry) ← answer;
  Ok {| ti_Scopes := ScopesOf (Some p); ti_Expiration := if IsZero expiry then Add now cacheTTL else expiry; ti_UserID := p_KID p;
        ti_Extra := <["name" := p_Name p]> (<["role" := p_Role p]> {[ "class" := p_Class p ]}) |}.

(** The envelope of [deny]. *)
Definition denyJSON (code message requestID : string) : json :=
  JObj [("error", JObj ([("code", JStr code); ("message", JStr message)] ++ omit_empty "requestId" requestID)%list)].

Section middleware.
(** [strconv.Quote], as [%q] prints a string. *)
Context (Quote : string → string) (realm resourceMD : string) (chunk_len : Chunk → Z).

Definition challenge (scope : string) (status : Z) (message : string) : string :=
  let params := (["realm=" +:+ Quote realm; "scope=" +:+ Quote scope] ++ (if String.eqb resourceMD "" then [] else ["resource_metadata=" +:+ Quote resourceMD])
                 ++ (if status =? StatusUnauthorized then ["error=" +:+ Quote "invalid_token"; "error_description=" +:+ Quote message] else []))%list in
  "Bearer " +:+ String.concat ", " params.

Definition deny (r : Req) (scope : string) (status : Z) (code message : string) : Prog :=
  SetHeader "WWW-Authenticate" (challenge scope status message) (SetHeader "Content-Type" "application/json; charset=utf-8" (SetHeader "Cache-Control" "no-store" (SendHead status
    (GetHeader RequestIDHeader (λ id, let id := if String.eqb id "" then map_get (rq_Header r) RequestIDHeader else id in SendBody (Doc (denyJSON code message id)) Done))))).

(** [Verifier.Middleware]: [answer] is what [Verify] says of a credential from an
address. *)
Definition authenticated (answer : string → string → result AuthError Principal) (want : KeyClass) : Middleware := λ next r s,
  let scope := ScopeName want in
  match BearerToken r with
  | None => exec chunk_len (deny r scope StatusUnauthorized "unauthenticated" "a bearer credential is required") s
  | Some raw =>
    match answer raw (SourceAddr r) with
    | Ok p => next (with_caller (SourceAddr r) p r) s
    | Err err =>
      let s := log_line (RequestDenied (rq_Path r) (rq_Method r) err) s in
      match err with
      | ErrRateLimited => exec chunk_len (deny r scope StatusTooManyRequests "rate_limited" "too many authentication failures from this source") s
      | _ => exec chunk_len (deny r scope StatusUnauthorized "unauthenticated" "the presented credential is not valid") s
      end
    end
  end.
End middleware.

(** * The server *)

Definition DefaultReadHeaderTimeout : Z := 10 * Second.
Definition DefaultReadTimeout : Z := 60 * Second.
Definition DefaultIdleTimeout : Z := 120 * Second.
Definition DefaultShutdownGrace : Z := 30 * Second.

Record ServerConfig := {
  sc_Name : string;
  sc_Addr : string;
  sc_ReadHeaderTimeout : Z;
  sc_ReadTimeout : Z;
  sc_WriteTimeout : Z;
  sc_IdleTimeout : Z;
  sc_ShutdownGrace : Z
}.

(** [Server], with the timeouts of its [http.Server]; a negative or zero timeout
there is none. *)
Record Server := {
  sv_name : string;
  sv_addr : string;
  sv_shutdownGrace : Z;
  sv_ReadHeaderTimeout : Z;
  sv_ReadTimeout : Z;
  sv_WriteTimeout : Z;
  sv_IdleTimeout : Z;
  sv_boundAddr : string;
  sv_started : bool
}.

Definition NewServer (cfg : ServerConfig) : Server :=
  {| sv_name := if String.eqb (sc_Name cfg) "" then "http" else sc_Name cfg; sv_addr := sc_Addr cfg;
     sv_shutdownGrace := if sc_ShutdownGrace cfg <=? 0 then DefaultShutdownGrace else sc_ShutdownGrace cfg;
     sv_ReadHeaderTimeout := if sc_ReadHeaderTimeout cfg <=? 0 then DefaultReadHeaderTimeout else sc_ReadHeaderTimeout cfg;
     sv_ReadTimeout := if sc_ReadTimeout cfg =? 0 then DefaultReadTimeout else if sc_ReadTimeout cfg <? 0 then 0 else sc_ReadTimeout cfg;
     sv_WriteTimeout := sc_WriteTimeout cfg; sv_IdleTimeout := if sc_IdleTimeout cfg <=? 0 then DefaultIdleTimeout else sc_IdleTimeout cfg; sv_boundAddr := ""; sv_started := false |}.

Inductive ServerError := ErrAlreadyStarted | ErrNotStarted | ErrListen (name addr : string).

Definition Server_Addr (s : Server) : string := if String.eqb (sv_boundAddr s) "" then sv_addr s else sv_boundAddr s.

(** [bind] is the address the listener got. *)
Definition Server_Start (bind : option string) (s : Server) : result ServerError () * Server :=
  if sv_started s then (Err ErrAlreadyStarted, s)
  else match bind with
  | None => (Err (ErrListen (sv_name s) (sv_addr s)), s)
  | Some bound =>
    (Ok (), {| sv_name := sv_name s; sv_addr := sv_addr s; sv_shutdownGrace := sv_shutdownGrace s; sv_ReadHeaderTimeout := sv_ReadHeaderTimeout s; sv_ReadTimeout := sv_ReadTimeout s;
               sv_WriteTimeout := sv_WriteTimeout s; sv_IdleTimeout := sv_IdleTimeout s; sv_boundAddr := bound; sv_started := true |})
  end.

(** [served] is what [Serve] will return with, nothing for [ErrServerClosed]. *)
Definition Server_Wait {E} (served : option E) (s : Server) : result ServerError (option E) := if negb (sv_started s) then Err ErrNotStarted else Ok served.

(** The deadline [Shutdown] waits until. *)
Definition Shutdown_deadline (deadline : option Z) (now : Z) (s : Server) : option Z :=
  match deadline with Some d => Some d | None => if 0 <? sv_shutdownGrace s then Some (Add now (sv_shutdownGrace s)) else None end.

(** However it was configured, a server bounds the head of a request, an idle
connection and its own shutdown; it starts once, and one that could not bind is as
it was. *)
Theorem server_bounded (cfg : ServerConfig) : let s := NewServer cfg in
  0 < sv_ReadHeaderTimeout s ∧ 0 < sv_IdleTimeout s ∧ 0 ≤ sv_ReadTimeout s ∧ (0 ≤ sc_ReadTimeout cfg → 0 < sv_ReadTimeout s) ∧ (∀ deadline now, is_Some (Shutdown_deadline deadline now s)) ∧
  (∀ E (served : option E), Server_Wait served s = Err ErrNotStarted) ∧ (Server_Start None s).2 = s ∧
  ∀ bound, let '(r, s') := Server_Start (Some bound) s in r = Ok () ∧ (∀ bind, Server_Start bind s' = (Err ErrAlreadyStarted, s')) ∧ (bound ≠ "" → Server_Addr s' = bound) ∧
    ∀ E (served : option E), Server_Wait served s' = Ok served.
Proof.
  intros s. unfold s, NewServer, Shutdown_deadline, DefaultReadHeaderTimeout, DefaultReadTimeout, DefaultIdleTimeout, DefaultShutdownGrace, Second.
  cbn [sv_ReadHeaderTimeout sv_IdleTimeout sv_ReadTimeout sv_shutdownGrace]. split_and!; try done.
  - destruct (Z.leb_spec (sc_ReadHeaderTimeout cfg) 0); lia.
  - destruct (Z.leb_spec (sc_IdleTimeout cfg) 0); lia.
  - destruct (Z.eqb_spec (sc_ReadTimeout cfg) 0); [lia|]. destruct (Z.ltb_spec (sc_ReadTimeout cfg) 0); lia.
  - intros H. destruct (Z.eqb_spec (sc_ReadTimeout cfg) 0); [lia|]. destruct (Z.ltb_spec (sc_ReadTimeout cfg) 0); lia.
  - intros [d|] now; [done|]. destruct (Z.ltb_spec 0 (if sc_ShutdownGrace cfg <=? 0 then 30 * 1000000000 else sc_ShutdownGrace cfg)) as [|Hg]; [done|]. destruct (Z.leb_spec (sc_ShutdownGrace cfg) 0); lia.
  - intros bound. cbn. split_and!; try done. intros Hb. unfold Server_Addr. cbn. by destruct (String.eqb_spec bound "").
Qed.

(** * What a client sees *)

Section view.
Context (chunk_len : Chunk → Z).

(** States that differ in their logs only. *)
Definition same_view (s s' : Resp) : Prop := rp_conn s = rp_conn s' ∧ rp_rw s = rp_rw s'.

Lemma WriteHeader_view status s s' : same_view s s' → (WriteHeader status s).1 = (WriteHeader status s').1 ∧ same_view (WriteHeader status s).2 (WriteHeader status s').2.
Proof.
  destruct s as [c w l], s' as [c' w' l']. intros [H1 H2]. cbn in H1, H2. subst c' w'. unfold WriteHeader. cbn [rp_rw rp_conn]. destruct w as [w|]; [destruct (rw_wroteHeader w); [done|]|]; cbn;
    by destruct (conn_WriteHeader status c).
Qed.
Lemma Write_view b s s' : same_view s s' → same_view (Write chunk_len b s) (Write chunk_len b s').
Proof.
  intros H. unfold Write. assert (wroteResponse s = wroteResponse s') as -> by (unfold wroteResponse; by rewrite (proj2 H)).
  assert (same_view (if wroteResponse s' then s else (WriteHeader 200 s).2) (if wroteResponse s' then s' else (WriteHeader 200 s').2)) as [H1 H2] by (destruct (wroteResponse s'); [done|by apply WriteHeader_view]).
  cbv zeta. rewrite H1. destruct (conn_Write b _) as [took c]. unfold with_rw, with_conn. split; cbn [rp_conn rp_rw]; [done|by rewrite H2].
Qed.
Lemma Flush_view s s' : same_view s s' → same_view (Flush s) (Flush s').
Proof.
  intros H. unfold Flush. assert (wroteResponse s = wroteResponse s') as -> by (unfold wroteResponse; by rewrite (proj2 H)).
  assert (same_view (if wroteResponse s' then s else (WriteHeader 200 s).2) (if wroteResponse s' then s' else (WriteHeader 200 s').2)) as [H1 H2] by (destruct (wroteResponse s'); [done|by apply WriteHeader_view]).
  cbv zeta. rewrite H1. by split.
Qed.

Lemma exec_view p s s' : same_view s s' → same_view (exec chunk_len p s).1 (exec chunk_len p s').1 ∧ (exec chunk_len p s).2 = (exec chunk_len p s').2.
Proof.
  revert s s'. induction p as [|v|k v p IH|k p IH|status p IH|b p IH|p IH]; intros s s' H; cbn [exec]; try (by split).
  - apply IH. destruct H as [H1 H2]. unfold set_header. rewrite H1. by split.
  - rewrite (proj1 H). by apply IH.
  - destruct (WriteHeader_view status s s' H) as [Hf Hv]. destruct (WriteHeader status s) as [x sx], (WriteHeader status s') as [y sy]. cbn in Hf, Hv. subst y. destruct x; [by split|by apply IH].
  - apply IH, Write_view, H.
  - apply IH, Flush_view, H.
Qed.

(** Programs that panic with other words. *)
Fixpoint blur (p : Prog) : Prog :=
  match p with
  | Done => Done
  | PanicWith ErrAbortHandler => PanicWith ErrAbortHandler
  | PanicWith (PanicText _) => PanicWith (PanicText "")
  | SetHeader k v p => SetHeader k v (blur p)
  | GetHeader k p => GetHeader k (λ x, blur (p x))
  | SendHead status p => SendHead status (blur p)
  | SendBody b p => SendBody b (blur p)
  | FlushNow p => FlushNow (blur p)
  end.

Definition same_end (o o' : Outcome) : Prop := o = o' ∨ ∃ x y, o = Panicked (PanicText x) ∧ o' = Panicked (PanicText y).

Lemma exec_blur p s : (exec chunk_len (blur p) s).1 = (exec chunk_len p s).1 ∧ same_end (exec chunk_len p s).2 (exec chunk_len (blur p) s).2.
Proof.
  revert s. induction p as [|[|v]|k v p IH|k p IH|status p IH|b p IH|p IH]; intros s; cbn [exec blur]; try (by split; [|left]); try apply IH.
  - split; [done|]. right. by eexists _, _.
  - destruct (WriteHeader status s) as [[] s']; [by split; [|left]|apply IH].
Qed.

(** ** What holds along a program *)

(** A program that sets only headers it may. *)
Fixpoint sets_only (ok : string → string → Prop) (p : Prog) : Prop :=
  match p with
  | Done | PanicWith _ => True
  | SetHeader k v p => ok k v ∧ sets_only ok p
  | GetHeader _ p => ∀ x, sets_only ok (p x)
  | SendHead _ p | SendBody _ p | FlushNow p => sets_only ok p
  end.

Lemma sets_anything p : sets_only (λ _ _, True) p.
Proof. by induction p; cbn. Qed.

Lemma exec_inv (I : Resp → Prop) (ok : string → string → Prop) p s :
  (∀ k v s, ok k v → I s → I (set_header k v s)) → (∀ status s, I s → I (WriteHeader status s).2) → (∀ b s, I s → I (Write chunk_len b s)) → (∀ s, I s → I (Flush s)) →
  sets_only ok p → I s → I (exec chunk_len p s).1.
Proof.
  intros Hset Hhead Hwrite Hflush. revert s. induction p as [|v|k v p IH|k p IH|status p IH|b p IH|p IH]; intros s Hp HI; cbn [exec]; try done.
  - destruct Hp as [Hk Hp]. by apply IH; [|apply Hset].
  - by apply IH.
  - pose proof (Hhead status s HI) as Hs. destruct (WriteHeader status s) as [[] s']; [done|by apply IH].
  - by apply IH; [|apply Hwrite].
  - by apply IH; [|apply Hflush].
Qed.

(** Behind the wrapper, what has not been announced has not been sent. *)
Definition unsent_ok (s : Resp) : Prop :=
  ∃ w, rp_rw s = Some w ∧ (rw_wroteHeader w = false → cn_Sent (rp_conn s) = None ∧ cn_Body (rp_conn s) = [] ∧ rw_status w = 200 ∧ rw_written w = 0).

Lemma WriteHeader_unsent status s : unsent_ok s → unsent_ok (WriteHeader status s).2 ∧ wroteResponse (WriteHeader status s).2 = true.
Proof.
  intros (w & Hw & Hs). unfold WriteHeader. rewrite Hw. destruct (rw_wroteHeader w) eqn:Hwrote; [split; [exists w; split; [done|by rewrite Hwrote]|by unfold wroteResponse; cbn; rewrite Hw]|].
  cbn. destruct (conn_WriteHeader status (rp_conn s)); (split; [eexists; split; [reflexivity|discriminate]|reflexivity]).
Qed.

Lemma exec_unsent p s : unsent_ok s → unsent_ok (exec chunk_len p s).1.
Proof.
  assert (∀ s, unsent_ok s → unsent_ok (if wroteResponse s then s else (WriteHeader 200 s).2) ∧ wroteResponse (if wroteResponse s then s else (WriteHeader 200 s).2) = true) as Hhead.
  { intros s' H. destruct (wroteResponse s') eqn:E; [done|by apply WriteHeader_unsent]. }
  apply (exec_inv unsent_ok (λ _ _, True)); [|intros; by apply WriteHeader_unsent| | |apply sets_anything].
  - intros k v s' _ (w & Hw & Hs). by exists w.
  - intros b s' [(w & Hw & Hs) Hwrote]%Hhead. unfold Write. cbv zeta. unfold wroteResponse at 1 in Hwrote. rewrite Hw in Hwrote. cbn in Hwrote. destruct (conn_Write b _) as [took c].
    eexists. split; [cbn [rp_rw with_rw with_conn]; by rewrite Hw|]. cbn [rw_wroteHeader]. congruence.
  - intros s' [(w & Hw & Hs) Hwrote]%Hhead. unfold Flush. cbv zeta. unfold wroteResponse at 1 in Hwrote. rewrite Hw in Hwrote. cbn in Hwrote. exists w. split; [done|]. congruence.
Qed.

(** Headers that stay, and so are in the head that was sent. *)
Definition carries (m : Header) (s : Resp) : Prop := m ⊆ cn_Header (rp_conn s) ∧ ∀ status h, cn_Sent (rp_conn s) = Some (status, h) → m ⊆ h.
Definition agrees (m : Header) (k v : string) : Prop := m !! k = None ∨ m !! k = Some v.

Lemma conn_WriteHeader_carries m status c c' : conn_WriteHeader status c = Some c' → (m ⊆ cn_Header c ∧ ∀ status h, cn_Sent c = Some (status, h) → m ⊆ h) →
  m ⊆ cn_Header c' ∧ ∀ status h, cn_Sent c' = Some (status, h) → m ⊆ h.
Proof.
  unfold conn_WriteHeader. destruct (cn_Sent c) eqn:Hs; [intros [= <-]; by rewrite Hs|]. destruct (_ || _); [done|]. destruct (informational status); intros [= <-] [Hm _]; cbn; split; try done.
  by intros ? ? [= <- <-].
Qed.

Lemma WriteHeader_carries m status s : carries m s → carries m (WriteHeader status s).2.
Proof.
  intros Hc. unfold WriteHeader. assert (∀ w, carries m (match conn_WriteHeader status (rp_conn s) with Some c => (false, with_conn c (with_rw w s)) | None => (true, with_rw w s) end).2) as H.
  { intros w. destruct (conn_WriteHeader status (rp_conn s)) as [c|] eqn:Hw; [|done]. exact (conn_WriteHeader_carries _ _ _ _ Hw Hc). }
  destruct (rp_rw s) as [w|] eqn:E; [destruct (rw_wroteHeader w); [done|apply (H (Some _))]|]. specialize (H None). destruct s. cbn in *. by subst.
Qed.

Lemma exec_carries m p s : sets_only (agrees m) p → carries m s → carries m (exec chunk_len p s).1.
Proof.
  assert (∀ s, carries m s → carries m (if wroteResponse s then s else (WriteHeader 200 s).2)) as Hhead by (intros s'; destruct (wroteResponse s'); [done|apply WriteHeader_carries]).
  apply exec_inv; [|intros; by apply WriteHeader_carries| |].
  - intros k v s' Hk [Hm Hs]. split; [|done]. cbn. destruct Hk as [Hk|Hk]; [by apply insert_subseteq_r|]. apply map_subseteq_spec. intros k' v' Hk'. destruct (decide (k' = k)) as [->|]; [|rewrite lookup_insert_ne by done; by eapply lookup_weaken].
    rewrite Hk in Hk'. injection Hk' as <-. apply lookup_insert_eq.
  - intros b s' Hs%Hhead. unfold Write. cbv zeta. set (x := if wroteResponse s' then s' else _) in *. clearbody x. unfold conn_Write.
    assert (m ⊆ cn_Header (default (rp_conn x) (conn_WriteHeader 200 (rp_conn x))) ∧ ∀ status h, cn_Sent (default (rp_conn x) (conn_WriteHeader 200 (rp_conn x))) = Some (status, h) → m ⊆ h) as Hd.
    { destruct (conn_WriteHeader 200 (rp_conn x)) as [c|] eqn:Hw; [exact (conn_WriteHeader_carries _ _ _ _ Hw Hs)|done]. }
    cbv zeta. set (c := default _ _) in *. clearbody c. destruct (cn_Sent c) as [[st h]|] eqn:Hc; [destruct (bodyAllowedForStatus st)|]; unfold carries; cbn; rewrite ?Hc; split; try apply Hd; done.
  - intros s' Hs%Hhead. unfold Flush. cbv zeta. set (x := if wroteResponse s' then s' else _) in *. clearbody x. unfold carries. cbn [rp_conn with_conn].
    destruct (conn_WriteHeader 200 (rp_conn x)) as [c|] eqn:Hw; [exact (conn_WriteHeader_carries _ _ _ _ Hw Hs)|done].
Qed.
End view.

(** * The listeners of the hub *)

Definition request_id (fresh : string) (r : Req) : string := let id := map_get (rq_Header r) HeaderRequestID in if negb (validRequestID id) then fresh else id.

(** The headers every response carries. *)
Definition safe_headers (id : string) : Header :=
  <["Content-Security-Policy" := contentSecurityPolicy]> (<["Cache-Control" := "no-store"]> (<["X-Frame-Options" := "DENY"]> (<["Referrer-Policy" := "no-referrer"]>
    (<["X-Content-Type-Options" := "nosniff"]> {[ HeaderRequestID := id ]})))).

(** What a handler below the chain is given: the request and the response. *)
Definition entry_Req (fresh : string) (r : Req) : Req := with_RequestID (request_id fresh r) r.
Definition entry_Resp (fresh : string) (r : Req) : Resp :=
  let h := safe_headers (request_id fresh r) in
  {| rp_conn := {| cn_Header := if rq_TLS r then <["Strict-Transport-Security" := hstsValue]> h else h; cn_Sent := None; cn_Body := []; cn_Info := [] |};
     rp_rw := Some {| rw_status := 200; rw_written := 0; rw_wroteHeader := false |}; rp_log := [] |}.

(** The line a request leaves. *)
Definition access_line (r : Req) (s : Resp) : LogLine :=
  HTTPRequest (levelForStatus (rw_Status s)) (rq_Method r) (rq_Path r) (rw_Status s) (BytesWritten s) (rq_RequestID r) (rq_RemoteAddr r).

Section listener.
Context (chunk_len : Chunk → Z).

Lemma listener_eq fresh mux r :
  listener chunk_len fresh mux r new_Resp =
  let '(s, o) := mux (entry_Req fresh r) (entry_Resp fresh r) in recovered chunk_len (entry_Req fresh r) (log_line (access_line (entry_Req fresh r) s) s) o.
Proof.
  unfold listener, Chain. cbn [foldr default from_option id]. unfold RequestID, SecurityHeaders, Recover, AccessLog, entry_Req, request_id, entry_Resp, access_line. cbv zeta.
  set (id := if negb _ then fresh else _). destruct (rq_TLS r) eqn:Ht; cbn [rq_TLS with_RequestID]; rewrite Ht; unfold wrapResponseWriter; cbn [rp_rw set_header with_conn with_rw new_Resp]; by destruct (mux _ _).
Qed.

Lemma entry_unsent fresh r : unsent_ok (entry_Resp fresh r).
Proof. by eexists. Qed.
Lemma entry_carries fresh r : carries (safe_headers (request_id fresh r)) (entry_Resp fresh r).
Proof. split; [|done]. cbn [rp_conn cn_Header entry_Resp]. destruct (rq_TLS r); [|done]. by apply insert_subseteq. Qed.

Lemma WriteError_sets r id status code message : rq_RequestID r = id → sets_only (agrees (safe_headers id)) (WriteError r status code message).
Proof.
  intros <-. unfold WriteError, writeJSONBytes. cbn [sets_only]. split_and!; [by left|by right|]. intros x. cbv zeta. destruct (_ && _); cbn [sets_only]; [|done]. split; [by right|done].
Qed.

(** The answer to a panic. *)
Lemma recovered_unsent r s v : unsent_ok s → wroteResponse s = false →
  let '(s', o) := recovered chunk_len r s (Panicked (PanicText v)) in
  o = Returned ∧ cn_Body (rp_conn s') = [Doc (errorJSON (rq_RequestID r) CodeInternal "internal error")] ∧ ∃ h, cn_Sent (rp_conn s') = Some (500, h).
Proof.
  intros (w & Hw & Hs) Hwrote. unfold recovered. cbv zeta. unfold wroteResponse in *. cbn [rp_rw log_line]. rewrite Hw in *. cbn [from_option] in *. rewrite Hwrote. destruct (Hs Hwrote) as (Hsent & Hbody & _).
  destruct s as [[h sent body info] rw log]. cbn in Hw, Hsent, Hbody. subst. destruct w as [ws wn wh]. cbn in Hwrote. subst wh.
  unfold WriteError, writeJSONBytes. cbn [exec]. cbv zeta. destruct (_ && _); (cbn; split_and!; [done|done|by eexists]).
Qed.

(** C0: A panic stops at the edge of the hub, and tells a client nothing.  Whatever
program runs below the chain of the hub's listeners, what the client sees and
whether the connection is dropped do not depend on the words of a panic.  No panic
leaves the chain but the one that drops the connection.  If the program panicked
before its response began, the client is answered, once: status 500, a fixed error
with the identifier of the request.  If it had begun, nothing is added to it and
the connection is dropped.  And every head that is sent carries the identifier of
the request and the security headers, unless the program sets those itself to
something else. *)
Theorem panics_contained (fresh : string) (f : Req → Prog) (r : Req) :
  let id := request_id fresh r in
  let '(s, o) := listener chunk_len fresh (serve chunk_len f) r new_Resp in
  let '(s', o') := listener chunk_len fresh (serve chunk_len (λ r, blur (f r))) r new_Resp in
  let '(s2, o2) := exec chunk_len (f (entry_Req fresh r)) (entry_Resp fresh r) in
  rp_conn s = rp_conn s' ∧ o = o' ∧ (o = Returned ∨ o = Panicked ErrAbortHandler) ∧
  (∀ v, o2 = Panicked (PanicText v) →
     if wroteResponse s2 then o = Panicked ErrAbortHandler ∧ rp_conn s = rp_conn s2
     else o = Returned ∧ cn_Body (rp_conn s) = [Doc (errorJSON id CodeInternal "internal error")] ∧ ∃ h, cn_Sent (rp_conn s) = Some (500, h)) ∧
  (sets_only (agrees (safe_headers id)) (f (entry_Req fresh r)) → ∀ status h, cn_Sent (rp_conn s) = Some (status, h) → safe_headers id ⊆ h).
Proof.
  intros id. rewrite !listener_eq. unfold serve. set (r1 := entry_Req fresh r). set (s1 := entry_Resp fresh r).
  pose proof (exec_unsent chunk_len (f r1) s1 (entry_unsent fresh r)) as Hu. pose proof (exec_blur chunk_len (f r1) s1) as [Hb Hend]. pose proof (exec_carries chunk_len (safe_headers id) (f r1) s1) as Hcar.
  destruct (exec chunk_len (f r1) s1) as [s2 o2]. destruct (exec chunk_len (blur (f r1)) s1) as [s2' o2']. cbn [fst snd] in *. subst s2'.
  set (sl := log_line (access_line r1 s2) s2). assert (unsent_ok sl) as Hul by (destruct Hu as (w & Hw & Hs); by exists w).
  assert (∀ v, let '(s, o) := recovered chunk_len r1 sl (Panicked (PanicText v)) in
    if wroteResponse s2 then o = Panicked ErrAbortHandler ∧ rp_conn s = rp_conn s2
    else o = Returned ∧ cn_Body (rp_conn s) = [Doc (errorJSON id CodeInternal "internal error")] ∧ ∃ h, cn_Sent (rp_conn s) = Some (500, h)) as Hpanic.
  { intros v. change (wroteResponse s2) with (wroteResponse sl). destruct (wroteResponse sl) eqn:Hw; [|exact (recovered_unsent r1 sl v Hul Hw)]. unfold recovered. change (wroteResponse (log_line _ sl)) with (wroteResponse sl). rewrite Hw. done. }
  assert (sets_only (agrees (safe_headers id)) (f r1) → carries (safe_headers id) (recovered chunk_len r1 sl o2).1) as Hheads.
  { intros Hset. specialize (Hcar Hset (entry_carries fresh r)). destruct o2 as [|[|v]]; [exact Hcar|exact Hcar|]. unfold recovered. change (wroteResponse (log_line _ sl)) with (wroteResponse sl). destruct (wroteResponse sl); [exact Hcar|]. apply exec_carries; [by apply WriteError_sets|exact Hcar]. }
  destruct Hend as [<-|(x & y & -> & ->)].
  - destruct (recovered chunk_len r1 sl o2) as [s o] eqn:Hr. split_and!; [done|done| | |intros Hset; apply (Hheads Hset)].
    + destruct o2 as [|[|v]]; [injection Hr as <- <-; by left|injection Hr as <- <-; by right|]. specialize (Hpanic v). rewrite Hr in Hpanic. destruct (wroteResponse s2); destruct Hpanic as [-> _]; [by right|by left].
    + intros v ->. specialize (Hpanic v). by rewrite Hr in Hpanic.
  - assert (rp_conn (recovered chunk_len r1 sl (Panicked (PanicText x))).1 = rp_conn (recovered chunk_len r1 sl (Panicked (PanicText y))).1 ∧ (recovered chunk_len r1 sl (Panicked (PanicText x))).2 = (recovered chunk_len r1 sl (Panicked (PanicText y))).2) as [Hc Ho].
    { unfold recovered. change (wroteResponse (log_line _ sl)) with (wroteResponse sl). destruct (wroteResponse sl); [done|]. edestruct (exec_view chunk_len (WriteError r1 500 CodeInternal "internal error")) as [[H _] H']; [|exact (conj H H')]. by split. }
    pose proof (Hpanic x) as Hx. destruct (recovered chunk_len r1 sl (Panicked (PanicText x))) as [s o], (recovered chunk_len r1 sl (Panicked (PanicText y))) as [s' o']. cbn [fst snd] in *.
    split_and!; [done|done|destruct (wroteResponse s2); destruct Hx as [-> _]; [by right|by left]|by intros v [= <-]|intros Hset; apply (Hheads Hset)].
Qed.
End listener.

(** An identifier that is echoed is one that is safe to echo. *)
Lemma request_id_valid fresh r : validRequestID fresh = true → validRequestID (request_id fresh r) = true.
Proof. intros Hf. unfold request_id. cbv zeta. destruct (validRequestID (map_get (rq_Header r) HeaderRequestID)) eqn:Hv; [exact Hv|exact Hf]. Qed.

(** Every request leaves one line. *)
Lemma one_line chunk_len fresh f r :
  length (List.filter (λ l, match l with HTTPRequest _ _ _ _ _ _ _ => true | _ => false end) (rp_log (listener chunk_len fresh (serve chunk_len f) r new_Resp).1)) = 1%nat.
Proof.
  assert (∀ p s, rp_log (exec chunk_len p s).1 = rp_log s) as Hlog.
  { intros p. induction p as [|v|k v p IH|k p IH|status p IH|b p IH|p IH]; intros s; cbn [exec]; try done; try (by rewrite IH); assert (∀ status, rp_log (WriteHeader status s).2 = rp_log s) as Hw
      by (intros st; unfold WriteHeader; destruct (rp_rw s) as [w|]; [destruct (rw_wroteHeader w); [done|]|]; cbn; by destruct (conn_WriteHeader st (rp_conn s))).
    - specialize (Hw status). destruct (WriteHeader status s) as [[] s']; [exact Hw|]. by rewrite IH.
    - rewrite IH. unfold Write. cbv zeta. destruct (wroteResponse s), (conn_Write b _); cbn; [done|apply Hw].
    - rewrite IH. unfold Flush. cbv zeta. destruct (wroteResponse s); cbn; [done|apply Hw]. }
  rewrite listener_eq. unfold serve. pose proof (Hlog (f (entry_Req fresh r)) (entry_Resp fresh r)) as H. destruct (exec chunk_len (f (entry_Req fresh r)) _) as [s o]. cbn [fst] in H. cbn in H.
  unfold recovered. destruct o as [|[|v]]; try (cbn [fst rp_log log_line]; by rewrite H). cbv zeta. destruct (wroteResponse _); [|rewrite Hlog]; cbn [fst rp_log log_line]; by rewrite H.
Qed.

(** * Refusals *)

Section refusals.
Context (Quote : string → string) (realm resourceMD : string) (chunk_len : Chunk → Z).
Local Abbreviation guarded := (authenticated Quote realm resourceMD chunk_len).

(** Requests that differ in their credential and in nothing a refusal shows. *)
Record same_request (r r' : Req) : Prop := {
  sq_id : map_get (rq_Header r) HeaderRequestID = map_get (rq_Header r') HeaderRequestID;
  sq_TLS : rq_TLS r = rq_TLS r'
}.

(** What [Verify] answers is an error, and not that the source must wait. *)
Definition refused (answer : string → string → result AuthError Principal) (r : Req) : Prop :=
  ∃ raw err, BearerToken r = Some raw ∧ answer raw (SourceAddr r) = Err err ∧ err ≠ ErrRateLimited.

Lemma deny_returns r scope status code message s : s = entry_Resp "" r ∨ unsent_ok s → (100 ≤ status ≤ 999) → (exec chunk_len (deny Quote realm resourceMD r scope status code message) s).2 = Returned.
Proof.
  intros _ Hst. unfold deny. cbn [exec]. destruct (WriteHeader status _) as [b s'] eqn:Hw; destruct b; [|done]. exfalso. revert Hw. unfold WriteHeader, conn_WriteHeader.
  destruct (rp_rw _) as [w|]; [destruct (rw_wroteHeader w); [done|]|]; cbn; (destruct (cn_Sent _); [done|]); destruct (Z.ltb_spec status 100); [lia| |lia|]; (destruct (Z.ltb_spec 999 status); [lia|]; cbn; by destruct (informational status)).
Qed.

Lemma guarded_refused answer want next r s : refused answer r →
  ∃ l, guarded answer want next r s = exec chunk_len (deny Quote realm resourceMD r (ScopeName want) StatusUnauthorized "unauthenticated" "the presented credential is not valid") (log_line l s).
Proof. intros (raw & err & Hb & Ha & Hne). unfold authenticated. rewrite Hb, Ha. eexists. by destruct err. Qed.

Lemma deny_same r r' scope status code message : same_request r r' → deny Quote realm resourceMD r scope status code message = deny Quote realm resourceMD r' scope status code message.
Proof. intros [Hid _]. unfold deny. change RequestIDHeader with HeaderRequestID. by rewrite Hid. Qed.

Lemma entry_same fresh r r' : same_request r r' → entry_Resp fresh r = entry_Resp fresh r' ∧ request_id fresh r = request_id fresh r'.
Proof. intros [Hid Ht]. unfold entry_Resp, request_id. by rewrite Hid, Ht. Qed.

(** C0: A refusal says nothing of the credential.  Behind the hub's listeners, two
requests whose credentials are refused, for whatever reasons (unknown, wrong
secret, expired, revoked, of another class) and by whatever verifiers, are answered
alike to the byte, and the routes behind are not reached; only a source that failed
too often is answered otherwise.  A request that passes reaches them with the
principal the verifier gave, from the address of the connection, whatever its
headers say. *)
Theorem refusals_uniform (fresh : string) (want : KeyClass) (answer answer' : string → string → result AuthError Principal) (next next' : Handler) (r r' : Req) :
  let run answer next r := listener chunk_len fresh (guarded answer want next) r new_Resp in
  same_request r r' →
  (refused answer r → refused answer' r' →
     rp_conn (run answer next r).1 = rp_conn (run answer' next' r').1 ∧ (run answer next r).2 = Returned ∧ (run answer' next' r').2 = Returned ∧ ∃ h, cn_Sent (rp_conn (run answer next r).1) = Some (StatusUnauthorized, h)) ∧
  (∀ raw p, BearerToken r = Some raw → answer raw (SourceAddr r) = Ok p → run answer next r = listener chunk_len fresh (λ r, next (with_caller (SourceAddr r) p r)) r new_Resp).
Proof.
  intros run Hreq. destruct (entry_same fresh r r' Hreq) as [He Hid]. split.
  - intros Href Href'. unfold run. rewrite !listener_eq, He.
    assert (same_request (entry_Req fresh r) (entry_Req fresh r')) as Hreq1 by (destruct Hreq; by split).
    destruct (guarded_refused answer want next (entry_Req fresh r) (entry_Resp fresh r') Href) as [l ->]. destruct (guarded_refused answer' want next' (entry_Req fresh r') (entry_Resp fresh r') Href') as [l' ->].
    rewrite (deny_same _ _ _ _ _ _ Hreq1). set (p := deny _ _ _ _ _ _ _ _). set (s := entry_Resp fresh r').
    pose proof (deny_returns (entry_Req fresh r') (ScopeName want) StatusUnauthorized "unauthenticated" "the presented credential is not valid" s (or_intror (entry_unsent fresh r')) ltac:(unfold StatusUnauthorized; lia)) as Hret. fold p in Hret.
    destruct (exec_view chunk_len p (log_line l s) s ltac:(by split)) as [[Hv _] Ho]. destruct (exec_view chunk_len p (log_line l' s) s ltac:(by split)) as [[Hv' _] Ho'].
    assert (∃ h, cn_Sent (rp_conn (exec chunk_len p s).1) = Some (StatusUnauthorized, h)) as Hsent by (unfold p, s, deny, entry_Resp; by eexists).
    destruct (exec chunk_len p (log_line l s)) as [s1 o1], (exec chunk_len p (log_line l' s)) as [s2 o2]. cbn [fst snd] in *. rewrite Ho, Ho', Hret. cbn [recovered fst snd rp_conn log_line]. rewrite Hv, Hv'. by split_and!.
  - intros raw p Hb Ha. unfold run. rewrite !listener_eq. unfold authenticated. change (BearerToken (entry_Req fresh r)) with (BearerToken r). change (SourceAddr (entry_Req fresh r)) with (SourceAddr r). by rewrite Hb, Ha.
Qed.
End refusals.
